(* ===== verification/_CoqProject ===== *)
-Q . S2P
Prelude.v
RustString.v
RustPath.v
VfsPath.v
VfsBackend.v
VfsMemory.v
VfsIsolate.v
RustList.v
RustFloat.v
RustFmt.v
MemoryMonitor.v
Eviction.v
Limits.v
ControlPlane.v
ConfigLoader.v
Config.v
ConfigProps.v
Disk.v
Timeout.v
Drain.v
Registry.v
HttpHeaders.v
Router.v
HttpReply.v
WorkQueue.v
Server.v
DataPlane.v
Sliver.v
SliverCheck.v
SliverVfs.v
SliverFiles.v
SliverCache.v
ModuleSource.v
ModuleLoader.v
Oom.v
WorkerLoop.v
Metrics.v
MetricsText.v
TenantMetrics.v
Stream.v
Admin.v
Timers.v
CryptoKeys.v
CryptoAsym.v
Subtle.v
CryptoApi.v
NodeFs.v
NanoFs.v
TenantPool.v
Shutdown.v
Watcher.v
Watchdog.v
JsObjects.v
WebApi.v
Fetch.v
WebSocket.v
WsRelay.v
Wasm.v
HttpClient.v
NodeCrypto.v
NodeZlib.v
NodeSys.v
Bridge.v
NanoIsolate.v
Globals.v
Cli.v
