(* ===== verification/Prelude.v ===== *)
(** * NANO runtime: a verification library

    NANO is a server that runs JavaScript applications in V8 isolates.  A
    configuration file names applications by hostname; each request is routed by
    its Host header, validated and handed to a pool of worker threads; each
    application has its own namespace of a virtual file system (VFS); isolates are
    limited in time and memory and evicted under memory pressure.  This library
    models the Rust code of those parts as pure functions and proves what they
    guarantee.  V8, axum, tokio, the operating system and third-party crates are
    parameters.

    ** How the parts interact

    [Server.start_server_with_config] takes a validated configuration
    (ConfigLoader, Config) and builds the routes (Router), the registry (Registry)
    and the work queue (WorkQueue).  [Server.dispatch_to_worker_pool] serves a
    request: it resolves the host (Router), converts the headers (HttpHeaders),
    registers and validates the tenant (ControlPlane), and hands the task to a
    worker of the host's pool (WorkQueue), whose isolates see their namespace of
    the VFS (VfsIsolate over a [VfsBackend]: VfsMemory or, for its paths and
    limits, Disk).  Workers read code through a cache and run it under CPU guards
    (DataPlane) and timers (Timeout); WorkerLoop is the thread of a worker, which
    makes isolates, loads modules (ModuleSource, ModuleLoader), watches memory (Oom)
    and calls handlers.  MemoryMonitor and Eviction decide which isolates to remove;
    Drain and the reload half of Registry replace a configuration.  An application
    can be packed with its files and heap into a sliver (Sliver, SliverFiles), checked
    (SliverCheck), restored (SliverVfs) and cached (SliverCache).  Requests are counted
    (Metrics, TenantMetrics), the figures are exposed as text (MetricsText), and the
    Admin API (Admin) shows them and the registry.  A program running in an isolate calls
    back into the runtime: Timers, the keys and algorithms of [crypto.subtle] (CryptoKeys,
    CryptoAsym, Subtle, and CryptoApi with its JavaScript values), the modules of Node (NodeFs,
    NodeCrypto, NodeZlib, NodeSys), files again (NanoFs), and makes requests and responses
    (WebApi over the objects of JsObjects, Fetch), which the worker turns into what the
    client gets.  TenantPool is the other kind of worker pool, with a thread for each
    WebSocket connection: WebSocket is what a program and its thread do with a connection,
    WsRelay carries the messages between the thread and the client.  Wasm holds the caches
    of compiled modules.  Shutdown is the process around the server.  Watcher, Watchdog and
    HttpClient are parts no other part uses.

    ** Files and sources

    - Prelude: [result], panics ([outcome]), machine integers, list and map lemmas.
    - RustString, RustPath, RustList, RustFloat, RustFmt: what the code uses of [str],
      [Path], sorting, hash maps, [Instant], [f64] and its formatting.
    - VfsPath ([src/vfs/types.rs]): [VfsPath::new], joining, parents; errors and
      limits.
    - VfsBackend ([src/vfs/mod.rs], the trait): the interface of the backends, a
      class of operations and a class of its laws.
    - VfsMemory ([src/vfs/memory.rs]): the memory backend with its counters, its
      quota specification, and concurrent callers as a step relation.
    - VfsIsolate ([src/vfs/isolate.rs], [FileSystem] and its validator in
      [src/vfs/mod.rs]): namespaces, proved against the interface only.
    - Disk ([src/vfs/disk.rs]): the path mapping and the write limits.
    - MemoryMonitor, Eviction ([src/worker/memory_monitor.rs], [eviction.rs]):
      pressure levels and history; the eviction state machine and victim choice.
    - Limits ([src/limits.rs]): the constants.
    - ControlPlane ([src/control_plane.rs], [src/assertions.rs]): validation,
      tenants, batches, metrics.
    - ConfigLoader, Config ([src/config/loader.rs], [app.rs], [mod.rs]): variable
      substitution and the two validators; ConfigProps holds what they accept.
    - Timeout ([src/worker/cpu_tracker.rs], [timeout.rs]): the CPU tracker, the
      timer, the [select!] loop.
    - Drain ([src/app/drain.rs]), Registry ([src/app/registry.rs], [reload.rs]).
    - HttpHeaders ([src/http/headers.rs], [url.rs]), Router and HttpReply
      ([src/http/types.rs], [router.rs]; HttpReply is what the router sends of a
      response), WorkQueue ([src/worker/queue.rs], pools of
      [src/worker/pool.rs], [src/vfs/factory.rs]), Server ([src/http/server.rs],
      [src/vfs/loader.rs], the request handler of [router.rs]).
    - DataPlane ([src/data_plane.rs]): the code cache, the CPU timeout guard.
    - Sliver ([src/sliver/format.rs], [metadata.rs], [packer.rs], [unpacker.rs],
      [mod.rs]): the archive; SliverCheck ([validation.rs]): integrity, similar names;
      SliverVfs ([restore.rs], [vfs_capture.rs]): restoring and capturing files;
      SliverFiles ([packager.rs], [extractor.rs]): from and to directories;
      SliverCache ([auto_cache.rs]).
    - ModuleSource, ModuleLoader ([src/v8/module.rs]): rewriting of modules, import
      resolution, the loader and its callback.
    - Oom ([src/worker/limits.rs], [oom.rs]); WorkerLoop ([src/worker/pool.rs],
      [app_source.rs]): the thread of a worker.
    - Metrics, MetricsText, TenantMetrics ([src/metrics/types.rs], [collector.rs],
      [exporter.rs], [tenant.rs]).
    - Stream ([src/runtime/stream.rs]): the resource table and [WritableStream].
    - Admin ([src/admin/], the start in [src/main.rs]).
    - Timers ([src/runtime/apis.rs], the timers and their pump; the wait of
      [src/worker/pool.rs]): the queues, handles, dispatches, as a function and a relation.
    - CryptoKeys, CryptoAsym, Subtle ([src/runtime/crypto/]): keys, formats and
      [SubtleCrypto] over the primitives; CryptoApi ([src/runtime/apis.rs]): the
      callbacks of [crypto.subtle], the memory of boxed keys, what a program can reach.
    - NodeFs ([src/runtime/node_compat/hooks_fs.rs], [helpers.rs]): the hooks of
      [node:fs]; NanoFs ([src/runtime/vfs_bindings.rs], [fs_polyfill.rs]): [Nano.fs] and
      the older polyfill.
    - TenantPool ([src/worker/tenant_pool.rs]): queues, threads and connections as steps.
    - Shutdown ([src/signal.rs], the readiness probe of [src/http/server.rs], the ends of
      the three servers of [src/main.rs]): the coordinator, and the process as steps.
    - Watcher ([src/config/watcher.rs]); Watchdog ([src/app/timeout.rs]): the races of a
      future with its limit, the termination guard.
    - JsObjects: a heap of JavaScript objects with their properties in order; WebApi
      ([src/runtime/apis.rs]): [Headers], [URL], [URLSearchParams], [Response]; Fetch
      ([src/runtime/fetch.rs], [request.rs], the reading of a response in
      [src/worker/pool.rs]): [fetch], [Request], and what is sent to the client.
    - WebSocket ([src/runtime/websocket.rs], the thread-locals and message loops of
      [src/worker/tenant_pool.rs] and [pool.rs]): a connection in a thread, as steps over
      the objects of JsObjects; WsRelay ([src/http/router.rs]): the relay, its forwarder
      and queues, as steps.
    - Wasm ([src/wasm/]): validators, the engine's cache, the cache of the polyfill, the
      cache format of slivers.
    - HttpClient ([src/http/client.rs]): what a guarded request checks.
    - Bridge ([src/http/v8_bridge.rs]): requests and responses as JSON text, with a reader
      of JSON as specification.
    - Globals ([src/runtime/apis.rs]): the global object and its hardening, [console],
      text and bytes, random values, [Blob], [Buffer], over a memory of stores.
    - Cli ([src/cli/], the sliver commands of [src/main.rs]): validators, creating, listing
      and deleting slivers.
    - NanoIsolate ([src/v8/isolate.rs], [platform.rs], [snapshot.rs], [script.rs]): the
      start of the engine, isolates, their states, heap limit and release.
    - NodeCrypto, NodeZlib, NodeSys ([src/runtime/node_compat/hooks_crypto.rs],
      [hooks_zlib.rs], [hooks_sys.rs], [mod.rs]): the hooks of [node:crypto], [node:zlib],
      [node:process], [node:os] and [node:dns], and the binding of the layer.

    State is a record with the fields of the struct; a method that mutates returns
    the new record; [Result] is [result]; a panic ([assert!], an index out of
    range, [expect]) is [Panicked], since the release profile aborts.  Integers
    are [Z] at their width, with the wrap-around of the release profile.  Interior
    mutability and shared maps are part of the explicit state; where several
    callers interleave (VfsMemory, WorkQueue, Drain, DataPlane) each step is an
    event, and an operation on several shared variables is one step; in Stream, Metrics
    and TenantMetrics a step is one access or one critical section.

    ** What the theorems show

    - Storage: accepted paths are exactly the bounded, NUL-free ones without [".."];
      namespaces never interfere over any lawful backend and read back what they
      write; the memory backend refines a map with quotas computed from its
      contents, its counters are exact, snapshots restore it; how far concurrent
      writers can overshoot; a disk path is the namespace's directory and the names of the
      path below it, and which paths are one file.
    - Requests: an accepted configuration starts and routes every application in
      any letter case; a request for a JavaScript route ends at the worker whose
      turn it is; the pool of a host is made for, and configured by, the first
      host with its hash; round robin is exact; what a static route reads and
      answers; header maps and query parameters against their specifications.
    - Control plane: when a submission goes through and what it changes; what
      processing and flushing batches hand out; tenants registered on the fly.
    - Configuration: both the substitution and the validator against
      specifications; nothing is lost on the way to the registry; differences and
      reloads are exact.
    - Isolates: the monitor's history window; evictions only name idle active
      isolates, the best by the policy, and only move forward; draining ends.
    - Workers: tasks are served in order and an isolate is replaced exactly when it is
      given up or has handled its number; how a thread can end and when it never does;
      what memory checks refuse; a handler outlives its code.
    - Modules: which relative imports are refused and which path an accepted one is; what
      the rewriting of a module leaves; each module is compiled once.
    - Slivers: packing, unpacking and restoring are round trips, on directories and
      through the cache; when an archive unpacks; edit distance is the least number of
      edits.
    - Metrics: the exported text parses back to the figures, and these count what was
      recorded; concurrent increments lose nothing; what each tenant's figures are.
    - Streams: one writer at a time; the sink gets what was accepted, in order.
    - Admin: who is let in, and that nothing is changed or seen.
    - Programs: cleared timers never fire, timeouts fire once and in time, and every
      request ends; keys a program can have and what every call of [crypto.subtle] does to
      them, that export follows the key in memory and how wrapping gets around it, round
      trips of keys, ciphertexts and signatures; node:fs keeps to its namespace and when it
      ends the process, what its paths are, that directories and files read back.
    - Requests and responses of programs: what headers, parameters and URLs show after any
      calls; a response from its constructor, or from [fetch], to what the HTTP server is
      given: the empty 200 response for statuses HTTP does not have, which headers are left
      out; bodies; which hosts the guarded client refuses, and what it sends.
    - WebSockets: when a step ends the process, when [send] throws or drops, which
      listeners a message reaches; messages are relayed in order within bounds, and what a
      worker sent before it ended arrives.
    - Node: ciphers, key pairs and streams of compression are round trips, comparison is
      exact, streams and environments of others do not show.
    - WebAssembly: both validators agree, a stored cache reads back and only whole entries
      are read; two modules with one key are mistaken for each other.
    - Tenant pools: connections are counted exactly and their threads stay for ever;
      a pool cannot be dropped.  Shutdown: when the readiness probe answers what, that
      nothing in flight is waited for, and that the default server never ends.
    - Engine: it is started once by each module that starts it; what a heap blob gives; the
      lives of an isolate; the order of its release; that the callback of the heap limit
      cannot be called, and what it leaves in memory.  Texts: the JSON made of a request or
      a response means that request or response, and base64 decodes.
    - Command line: what the validators accept; what creating a sliver writes, that it
      unpacks to the files of the directory and holds no heap, and that deleting is confined and cannot reach slivers with a dot.
    - Globals: [Function] and [eval] stay gone; text survives its bytes; random values
      fill their view and nothing else; buffers are copies; what a blob holds.
    - Time: the timer on every branch, and that its asynchronous loop never polls
      the future; whose execution a CPU guard terminates and how long it holds its
      worker; the code cache is transparent.
    Several theorems state behaviour that is a defect (batches that are dropped,
    hosts that share a namespace, a future that is never polled, a packaged
    directory that is never found, a pool configured by a respelled host, an Admin API
    that changes nothing and answers nothing on its Unix socket).

    ** Fuel and bounds

    Recursion is structural except for substitution, whose fuel is the length of
    the text plus one (every round removes at least one character; the theorem
    shows it is enough); the timer loop, whose rounds are the given list of
    wake-ups; walks of directories, whose fuel bounds the depth of a path
    ([walk_fuel]); the loop over a promise, one poll a millisecond for 30 seconds and two
    more ([promise_fuel]); the reader of label lists in MetricsText, a specification
    whose fuel is the length of the line.  The round-robin theorem covers one period of the 32-bit counter.

    ** Parameters

    [Lowercase] ([str::to_lowercase], ASCII fixed), [HashOrder] (the order a hash
    map iterates in: any permutation), [DefaultHasher] (any function), [OsFiles],
    [OsReads] and the other file queries (any answers), [Semaphore] and the timer
    readiness in Drain and Timeout (their documented laws), clocks (arguments),
    percent decoding, URL parsing, JSON parsing; [Tar] and [MetadataJson] (an archive
    and a description read back as written, in their laws); the matches of the regular
    expressions of ModuleSource; [LabelOrder] (the order of labels, any permutation);
    [Engine] in WorkerLoop and [JsEngine] in Timers: what each call of V8 answers;
    [Primitives], [RsaCrate], [EcCrate], [JsonCrate] with their laws (decryption undoes
    encryption, verification accepts signatures, encodings read back), the source of
    random bytes (an argument); [JsText] (numbers and objects as text, which allocations
    succeed); [HttpTypes] (which names, values and statuses the [http] crate takes, how many
    headers a map holds; the laws are its documentation) and [LowercaseLaw] (a lower-cased
    text has no ASCII capital); [Executor] (whether a Tokio runtime is entered on the thread,
    and whether the backend needs one); [VfsDirLaws] (what
    a listing of a lawful backend has, proved of the memory backend); [JsConv], [JsData]
    (conversions of the engine, JSON, base64, UTF-8), [UrlCrate], [HttpClient]; the
    checksum and the answers of the file system in Watcher; [CloseCodes] (a close frame
    comes back from its other form), the compiler, SHA-256 and the lossy reading of UTF-8 in
    Wasm; [Reqwest]; [NodePrimitives] and [Codecs] with their laws (decryption, decoding and
    verification undo encryption, encoding and signing, in any pieces), the resolver, the
    heap statistics and the limit on strings in NodeSys; [GlobalsEngine] (conversions, JSON,
    UTF-8, which buffers can be had) and [ScriptEngine].

    ** What is not modelled

    V8, the handlers that run once and the polyfills written in JavaScript, network and
    file I/O, S3, logging, the parsing of arguments, the benchmark of slivers, and the
    older copy of the worker's loop that the server does not use.  *)

From stdpp Require Import base gmap sets list strings.
From Stdlib Require Import ZArith Lia.

(** ** Notations and scopes *)

Declare Scope nano_scope.
Delimit Scope nano_scope with nano.

(** ** Fallible computations *)

(** [Result<T, E>] of the Rust standard library. *)
Inductive result (T E : Type) : Type :=
| Ok (t : T)
| Err (e : E).
Arguments Ok {T E} _.
Arguments Err {T E} _.

Definition result_bind {T U E} (r : result T E) (f : T → result U E) : result U E :=
  match r with
  | Ok t => f t
  | Err e => Err e
  end.

Definition map_err {T E F} (f : E → F) (r : result T E) : result T F :=
  match r with
  | Ok t => Ok t
  | Err e => Err (f e)
  end.

(** [option::ok_or] *)
Definition ok_or {T E} (o : option T) (e : E) : result T E :=
  match o with
  | Some t => Ok t
  | None => Err e
  end.

Definition is_ok {T E} (r : result T E) : bool :=
  match r with Ok _ => true | Err _ => false end.

Notation "'let?' x := r 'in' k" := (result_bind r (fun x => k))
  (at level 10, x name, r at level 100, k at level 200) : nano_scope.

(** A computation that may hit a failing [assert!] (a panic: with the release
    profile of Cargo.toml, [panic = "abort"], the process ends there). *)
Inductive outcome (A : Type) : Type :=
| Done (a : A)
| Panicked (why : string).
Arguments Done {A} _.
Arguments Panicked {A} _.

Definition outcome_bind {A B} (o : outcome A) (f : A → outcome B) : outcome B :=
  match o with
  | Done a => f a
  | Panicked w => Panicked w
  end.

Notation "'let!' x := o 'in' k" := (outcome_bind o (fun x => k))
  (at level 10, x name, o at level 100, k at level 200) : nano_scope.

(** [assert!(cond, msg)] followed by the rest of the block. *)
Definition assert_that {A} (cond : bool) (msg : string) (k : outcome A) : outcome A :=
  if cond then k else Panicked msg.

Notation "'assert!' c 'or' m 'in' k" := (assert_that c m%string k)
  (at level 10, c at level 100, m at level 100, k at level 200) : nano_scope.

Open Scope nano_scope.

Lemma assert_done {A} c m (k : outcome A) r :
  assert_that c m k = Done r ↔ c = true ∧ k = Done r.
Proof. unfold assert_that. destruct c; naive_solver. Qed.

Lemma assert_true {A} c m (k : outcome A) : c = true → assert_that c m k = k.
Proof. by intros ->. Qed.

Lemma assert_false {A} c m (k : outcome A) : c = false → assert_that c m k = Panicked m.
Proof. by intros ->. Qed.

Lemma outcome_bind_done {A B} (o : outcome A) (f : A → outcome B) r :
  outcome_bind o f = Done r ↔ ∃ a, o = Done a ∧ f a = Done r.
Proof. destruct o; naive_solver. Qed.

Definition is_done {A} (o : outcome A) : bool :=
  match o with Done _ => true | Panicked _ => false end.

Lemma is_done_assert {A} c m (k : outcome A) : is_done (assert_that c m k) = c && is_done k.
Proof. by destruct c. Qed.

Lemma result_bind_ok {T U E} (r : result T E) (f : T → result U E) u :
  result_bind r f = Ok u ↔ ∃ t, r = Ok t ∧ f t = Ok u.
Proof. destruct r; naive_solver. Qed.

Lemma is_ok_true {T E} (r : result T E) : is_ok r = true ↔ ∃ t, r = Ok t.
Proof. destruct r; naive_solver. Qed.

(** ** Machine integers

    A [u8]/[u32]/[u64]/[usize] value is a [Z] in range; the target is 64-bit, so
    [usize] is [u64].  [+], [*] and the atomic [fetch_add]/[fetch_sub] wrap, as in
    the release profile (no [overflow-checks]). *)

Open Scope Z_scope.

Definition two32 : Z := 4294967296.
Definition two62 : Z := 4611686018427387904.
Definition two63 : Z := 9223372036854775808.
Definition two64 : Z := 18446744073709551616.

Definition u32_max : Z := two32 - 1.
Definition u64_max : Z := two64 - 1.

Definition in_u32 (z : Z) : Prop := 0 ≤ z < two32.
Definition in_u64 (z : Z) : Prop := 0 ≤ z < two64.

(** [as u32], [as u64]/[as usize] and [as i64] *)
Definition as_u32 (z : Z) : Z := z mod two32.
Definition as_u64 (z : Z) : Z := z mod two64.
Definition as_i64 (z : Z) : Z :=
  let m := z mod two64 in if m <? two63 then m else m - two64.

Definition add_u32 (x y : Z) : Z := as_u32 (x + y).
Definition mul_u32 (x y : Z) : Z := as_u32 (x * y).
Definition add_u64 (x y : Z) : Z := as_u64 (x + y).
Definition sub_u64 (x y : Z) : Z := as_u64 (x - y).
Definition mul_u64 (x y : Z) : Z := as_u64 (x * y).
Definition add_i64 (x y : Z) : Z := as_i64 (x + y).
Definition sub_i64 (x y : Z) : Z := as_i64 (x - y).

(** [saturating_sub] and [saturating_add] on [u64]/[usize] *)
Definition sat_sub (x y : Z) : Z := Z.max 0 (x - y).
Definition sat_add (x y : Z) : Z := Z.min u64_max (x + y).

Lemma as_u32_small z : in_u32 z → as_u32 z = z.
Proof. intros H. apply Z.mod_small. exact H. Qed.

Lemma as_u64_small z : in_u64 z → as_u64 z = z.
Proof. intros H. apply Z.mod_small. exact H. Qed.

Lemma as_u32_range z : in_u32 (as_u32 z).
Proof. apply Z.mod_pos_bound. done. Qed.

Lemma as_u64_range z : in_u64 (as_u64 z).
Proof. apply Z.mod_pos_bound. done. Qed.

Lemma as_i64_small z : - two63 ≤ z < two63 → as_i64 z = z.
Proof.
  intros H. unfold as_i64. destruct (decide (0 ≤ z)).
  - rewrite Z.mod_small by (unfold two63, two64 in *; lia).
    by rewrite (proj2 (Z.ltb_lt _ _)) by lia.
  - assert (z mod two64 = z + two64) as ->.
    { symmetry. apply (Z.mod_unique_pos _ _ (-1)); unfold two63, two64 in *; lia. }
    rewrite (proj2 (Z.ltb_ge _ _)) by (unfold two63, two64 in *; lia). lia.
Qed.

(** ** Automation *)

Create HintDb nano.
Create Rewrite HintDb nano.
#[export] Hint Resolve as_u32_range as_u64_range : nano.

(** Unfold the integer constants and finish by [lia]. *)
Ltac zlia :=
  unfold in_u32, in_u64, sat_sub, sat_add, u32_max, u64_max, two32, two62, two63, two64 in *; lia.

(** Split a conjunction of booleans in every hypothesis and in the goal. *)
Ltac bool_split :=
  repeat match goal with
  | H : _ && _ = true |- _ => apply andb_true_iff in H as [? ?]
  | H : negb _ = true |- _ => apply negb_true_iff in H
  | H : negb _ = false |- _ => apply negb_false_iff in H
  | H : _ || _ = false |- _ => apply orb_false_iff in H as [? ?]
  end.

(** Reflect the integer comparisons in the context. *)
Ltac zreflect :=
  repeat match goal with
  | H : (_ <? _) = true |- _ => apply Z.ltb_lt in H
  | H : (_ <? _) = false |- _ => apply Z.ltb_ge in H
  | H : (_ <=? _) = true |- _ => apply Z.leb_le in H
  | H : (_ <=? _) = false |- _ => apply Z.leb_gt in H
  | H : (_ >? _) = true |- _ => rewrite Z.gtb_ltb in H
  | H : (_ >? _) = false |- _ => rewrite Z.gtb_ltb in H
  | H : (_ >=? _) = true |- _ => rewrite Z.geb_leb in H
  | H : (_ >=? _) = false |- _ => rewrite Z.geb_leb in H
  | H : (_ =? _) = true |- _ => apply Z.eqb_eq in H
  | H : (_ =? _) = false |- _ => apply Z.eqb_neq in H
  end.

(** Case on the innermost [if]/[match] of a hypothesis or the goal. *)
Ltac case_if :=
  match goal with
  | |- context [if ?b then _ else _] => destruct b eqn:?
  | H : context [if ?b then _ else _] |- _ => destruct b eqn:?
  end.

(** ** Generic list lemmas *)

Lemma forallb_Forall {A} (f : A → bool) l : forallb f l = true ↔ Forall (λ x, f x = true) l.
Proof. rewrite forallb_forall, Forall_forall. setoid_rewrite list_elem_of_In. done. Qed.

Lemma existsb_Exists {A} (f : A → bool) l : existsb f l = true ↔ Exists (λ x, f x = true) l.
Proof.
  rewrite existsb_exists, Exists_exists. setoid_rewrite list_elem_of_In. done.
Qed.

Lemma existsb_false {A} (f : A → bool) l :
  existsb f l = false ↔ Forall (λ x, f x = false) l.
Proof.
  induction l as [|x l IH]; simpl; [by split|].
  rewrite orb_false_iff, IH, Forall_cons. done.
Qed.

Lemma Forall_filter_sub {A} (P Q : A → Prop) `{∀ x, Decision (Q x)} l :
  Forall P l → Forall P (base.filter Q l).
Proof.
  rewrite !Forall_forall. intros HP x [_ Hx]%list_elem_of_filter. auto.
Qed.

Lemma filter_all {A} (P : A → Prop) `{∀ x, Decision (P x)} l :
  Forall P l → base.filter P l = l.
Proof.
  induction 1 as [|x l Hx Hl IH]; [done|]. rewrite filter_cons_True by done. by f_equal.
Qed.
