(* ===== verification/RustString.v ===== *)
(** * Strings of the Rust standard library

    A [&str]/[String] is the Rocq [string] of its UTF-8 bytes, so [len] is the
    byte length and a byte of an ASCII character never occurs inside the encoding
    of another character.  The functions here are the ones the source calls:
    [split(char)], [join], [trim_start_matches], [trim_end_matches], [find],
    [rfind], [contains], [replace], [strip_prefix], [to_lowercase]. *)

From stdpp Require Import base gmap list strings.
From Stdlib Require Import Ascii ZArith Lia.
From S2P Require Import Prelude.

Open Scope nat_scope.

(** ** Characters *)

Definition ch (s : string) : ascii :=
  match s with String a _ => a | EmptyString => Ascii.zero end.

Definition char_eqb (a b : ascii) : bool := Ascii.eqb a b.

Definition nul : ascii := Ascii.zero.
Definition slash : ascii := ch "/".
Definition dot : ascii := ch ".".
Definition colon : ascii := ch ":".
Definition dash : ascii := ch "-".
Definition underscore : ascii := ch "_".
Definition backslash : ascii := ch "\".

Definition slen (s : string) : Z := Z.of_nat (String.length s).

Definition is_empty (s : string) : bool :=
  match s with EmptyString => true | _ => false end.

(** [str::contains(char)] *)
Fixpoint contains_char (c : ascii) (s : string) : bool :=
  match s with
  | EmptyString => false
  | String a s' => char_eqb a c || contains_char c s'
  end.

(** All characters satisfy a predicate. *)
Fixpoint all_chars (f : ascii → bool) (s : string) : bool :=
  match s with
  | EmptyString => true
  | String a s' => f a && all_chars f s'
  end.

(** ** Slices *)

(** [&s[..n]] and [&s[n..]] *)
Fixpoint stake (n : nat) (s : string) : string :=
  match n, s with
  | S n', String a s' => String a (stake n' s')
  | _, _ => EmptyString
  end.

Fixpoint sdrop (n : nat) (s : string) : string :=
  match n, s with
  | S n', String _ s' => sdrop n' s'
  | _, _ => s
  end.

(** ** Patterns *)

(** [str::starts_with] and [str::strip_prefix] *)
Fixpoint strip_prefix (p s : string) : option string :=
  match p, s with
  | EmptyString, _ => Some s
  | String a p', String b s' => if char_eqb a b then strip_prefix p' s' else None
  | String _ _, EmptyString => None
  end.

Definition starts_with (p s : string) : bool := bool_decide (is_Some (strip_prefix p s)).

(** [str::find(&str)] *)
Fixpoint find_sub (p s : string) : option nat :=
  if starts_with p s then Some 0
  else match s with
       | EmptyString => None
       | String _ s' => S <$> find_sub p s'
       end.

(** [str::contains(&str)] *)
Definition contains_sub (p s : string) : bool := bool_decide (is_Some (find_sub p s)).

(** [str::rfind(char)] *)
Fixpoint rfind_char (c : ascii) (s : string) : option nat :=
  match s with
  | EmptyString => None
  | String a s' =>
      match rfind_char c s' with
      | Some i => Some (S i)
      | None => if char_eqb a c then Some 0 else None
      end
  end.

(** [str::find(char)] *)
Fixpoint find_char (c : ascii) (s : string) : option nat :=
  match s with
  | EmptyString => None
  | String a s' => if char_eqb a c then Some 0 else S <$> find_char c s'
  end.

(** [str::ends_with(char)] *)
Fixpoint ends_with_char (c : ascii) (s : string) : bool :=
  match s with
  | EmptyString => false
  | String a EmptyString => char_eqb a c
  | String _ s' => ends_with_char c s'
  end.

(** [str::trim_start_matches(char)] and [str::trim_end_matches(char)] *)
Fixpoint trim_start (c : ascii) (s : string) : string :=
  match s with
  | String a s' => if char_eqb a c then trim_start c s' else s
  | EmptyString => EmptyString
  end.

Fixpoint trim_end (c : ascii) (s : string) : string :=
  match s with
  | EmptyString => EmptyString
  | String a s' =>
      match trim_end c s' with
      | EmptyString => if char_eqb a c then EmptyString else String a EmptyString
      | t => String a t
      end
  end.

(** [str::split(char)]: always at least one piece. *)
Fixpoint split (c : ascii) (s : string) : list string :=
  match s with
  | EmptyString => [EmptyString]
  | String a s' =>
      if char_eqb a c then EmptyString :: split c s'
      else match split c s' with
           | w :: ws => String a w :: ws
           | [] => [String a EmptyString]
           end
  end.

(** [[String]::join(&str)] *)
Fixpoint join (sep : string) (ws : list string) : string :=
  match ws with
  | [] => EmptyString
  | [w] => w
  | w :: ws' => w +:+ (sep +:+ join sep ws')
  end.

(** [str::replace(char, &str)] *)
Fixpoint replace_char (c : ascii) (r : string) (s : string) : string :=
  match s with
  | EmptyString => EmptyString
  | String a s' =>
      if char_eqb a c then r +:+ replace_char c r s' else String a (replace_char c r s')
  end.

(** [str::replace(&str, &str)] for a non-empty pattern: non-overlapping matches,
    leftmost first; [skip] counts the characters of the current match left. *)
Fixpoint replace_go (p r : string) (skip : nat) (s : string) : string :=
  match s with
  | EmptyString => EmptyString
  | String a s' =>
      match skip with
      | S k => replace_go p r k s'
      | 0 =>
          if starts_with p s then r +:+ replace_go p r (String.length p - 1) s'
          else String a (replace_go p r 0 s')
      end
  end.

Definition replace_sub (p r s : string) : string := replace_go p r 0 s.

(** [str::split_once(char)] *)
Definition split_once (c : ascii) (s : string) : option (string * string) :=
  match find_char c s with
  | Some i => Some (stake i s, sdrop (S i) s)
  | None => None
  end.

(** ** Case

    [str::to_lowercase] follows the Unicode tables; on ASCII strings it is the
    ASCII mapping.  The class keeps the part the development relies on. *)

Definition is_ascii_char (a : ascii) : bool := (N_of_ascii a <? 128)%N.
Definition is_ascii (s : string) : bool := all_chars is_ascii_char s.

Definition is_upper (a : ascii) : bool :=
  ((65 <=? N_of_ascii a) && (N_of_ascii a <=? 90))%N.
Definition is_lower (a : ascii) : bool :=
  ((97 <=? N_of_ascii a) && (N_of_ascii a <=? 122))%N.
Definition is_digit (a : ascii) : bool :=
  ((48 <=? N_of_ascii a) && (N_of_ascii a <=? 57))%N.

(** [u8::is_ascii_alphanumeric] *)
Definition is_alphanumeric (a : ascii) : bool := is_upper a || is_lower a || is_digit a.

Definition lower_char (a : ascii) : ascii :=
  if is_upper a then ascii_of_N (N_of_ascii a + 32) else a.

Fixpoint ascii_lowercase (s : string) : string :=
  match s with
  | EmptyString => EmptyString
  | String a s' => String (lower_char a) (ascii_lowercase s')
  end.

Class Lowercase := {
  to_lowercase : string → string;
  to_lowercase_ascii : ∀ s, is_ascii s = true → to_lowercase s = ascii_lowercase s;
}.

(** The instance used by the concrete examples: the ASCII mapping everywhere. *)
Definition ascii_Lowercase : Lowercase :=
  {| to_lowercase := ascii_lowercase; to_lowercase_ascii := λ s _, eq_refl |}.

(** ** Lemmas *)

Lemma char_eqb_eq a b : char_eqb a b = true ↔ a = b.
Proof. apply Ascii.eqb_eq. Qed.

Lemma char_eqb_neq a b : char_eqb a b = false ↔ a ≠ b.
Proof. apply Ascii.eqb_neq. Qed.

Lemma char_eqb_refl a : char_eqb a a = true.
Proof. by apply char_eqb_eq. Qed.

(** Case on a character test. *)
Ltac char_case :=
  match goal with
  | |- context [char_eqb ?a ?b] => destruct (char_eqb a b) eqn:?
  | H : context [char_eqb ?a ?b] |- _ => destruct (char_eqb a b) eqn:?
  end;
  repeat match goal with
  | H : char_eqb _ _ = true |- _ => apply char_eqb_eq in H; subst
  | H : char_eqb _ _ = false |- _ => apply char_eqb_neq in H
  end.

Lemma str_app_nil_r (s : string) : s +:+ "" = s.
Proof. induction s; [done|]. simpl. unfold String.append; fold String.append. by f_equal. Qed.

Lemma str_app_assoc (a b c : string) : a +:+ (b +:+ c) = (a +:+ b) +:+ c.
Proof. induction a as [|x a IH]; [done|]. change (String x (a +:+ (b +:+ c)) = String x ((a +:+ b) +:+ c)). by f_equal. Qed.

Lemma str_app_cons x (a b : string) : String x a +:+ b = String x (a +:+ b).
Proof. done. Qed.

Lemma str_app_nil_l (s : string) : "" +:+ s = s.
Proof. done. Qed.

Lemma length_app_string (a b : string) :
  String.length (a +:+ b) = (String.length a + String.length b).
Proof. induction a as [|x a IH]; [done|]. rewrite str_app_cons. simpl. by rewrite IH. Qed.

Lemma slen_app (a b : string) : slen (a +:+ b) = (slen a + slen b)%Z.
Proof. unfold slen. rewrite length_app_string. lia. Qed.

Lemma slen_nonneg s : (0 ≤ slen s)%Z.
Proof. unfold slen. lia. Qed.

Lemma contains_char_app c a b :
  contains_char c (a +:+ b) = contains_char c a || contains_char c b.
Proof.
  induction a as [|x a IH]; [done|]. rewrite str_app_cons. simpl. rewrite IH.
  by rewrite orb_assoc.
Qed.

Lemma is_empty_true s : is_empty s = true ↔ s = "".
Proof. by destruct s. Qed.

Lemma is_empty_false s : is_empty s = false ↔ s ≠ "".
Proof. by destruct s. Qed.

Lemma str_app_inj_l (a b c : string) : a +:+ b = a +:+ c → b = c.
Proof. induction a as [|x a IH]; [done|]. rewrite !str_app_cons. intros [=]. auto. Qed.

(** Two strings that agree around the first occurrence of a separator character
    agree before and after it. *)
Lemma str_app_sep_inj c (a b x y : string) :
  contains_char c a = false → contains_char c b = false →
  a +:+ String c x = b +:+ String c y → a = b ∧ x = y.
Proof.
  revert b. induction a as [|h a IH]; intros [|k b] Ha Hb; rewrite ?str_app_nil_l, ?str_app_cons.
  - by intros [= ->].
  - intros [= -> ->]. simpl in Hb. by rewrite char_eqb_refl in Hb.
  - intros [= -> <-]. simpl in Ha. by rewrite char_eqb_refl in Ha.
  - simpl in Ha, Hb. apply orb_false_iff in Ha as [_ Ha], Hb as [_ Hb].
    intros [= -> Heq]. destruct (IH b Ha Hb Heq) as [-> ->]. done.
Qed.

(** *** [split] and [join] *)

Lemma split_cons_ne c s : ∃ w ws, split c s = w :: ws.
Proof.
  destruct s as [|a s]; simpl; [eauto|]. char_case; [eauto|].
  destruct (split c s); eauto.
Qed.

Lemma split_nonnil c s : split c s ≠ [].
Proof. destruct (split_cons_ne c s) as (w & ws & ->). done. Qed.

Lemma split_no_sep c s : Forall (λ w, contains_char c w = false) (split c s).
Proof.
  induction s as [|a s IH]; simpl; [by repeat constructor|].
  char_case; [by constructor|].
  destruct (split c s) as [|w ws]; simpl in *.
  - repeat constructor. simpl. rewrite orb_false_r. by apply char_eqb_neq.
  - inversion IH; subst. constructor; [|done]. simpl.
    apply orb_false_iff. by rewrite char_eqb_neq.
Qed.

Lemma join_cons sep w ws :
  ws ≠ [] → join sep (w :: ws) = w +:+ (sep +:+ join sep ws).
Proof. by destruct ws. Qed.

Lemma join_split c s : join (String c "") (split c s) = s.
Proof.
  induction s as [|a s IH]; [done|]. simpl. char_case.
  - rewrite join_cons by apply split_nonnil. rewrite IH. done.
  - destruct (split_cons_ne c s) as (w & ws & Hs). rewrite Hs in *.
    destruct ws as [|w' ws]; simpl in *; [by rewrite IH|].
    rewrite str_app_cons. by rewrite IH.
Qed.

Lemma split_app_no_sep c w s :
  contains_char c w = false → split c (w +:+ String c s) = w :: split c s.
Proof.
  induction w as [|a w IH]; intros Hw.
  - rewrite str_app_nil_l. simpl. by rewrite char_eqb_refl.
  - simpl in Hw. apply orb_false_iff in Hw as [Ha Hw].
    rewrite str_app_cons. simpl. by rewrite Ha, (IH Hw).
Qed.

Lemma split_one c w : contains_char c w = false → split c w = [w].
Proof.
  induction w as [|a w IH]; intros Hw; [done|].
  simpl in Hw. apply orb_false_iff in Hw as [Ha Hw].
  simpl. by rewrite Ha, (IH Hw).
Qed.

Lemma split_join c ws :
  ws ≠ [] → Forall (λ w, contains_char c w = false) ws →
  split c (join (String c "") ws) = ws.
Proof.
  induction ws as [|w ws IH]; intros Hne Hf; [done|].
  inversion Hf; subst. destruct ws as [|w' ws].
  - by apply split_one.
  - rewrite join_cons by done. rewrite str_app_cons, str_app_nil_l.
    rewrite split_app_no_sep by done. f_equal. by apply IH.
Qed.

Lemma split_app_head c a b w ws :
  split c b = w :: ws → contains_char c a = false → split c (a +:+ b) = (a +:+ w) :: ws.
Proof.
  intros Hb Ha. induction a as [|x a IH]; [done|].
  simpl in Ha. apply orb_false_iff in Ha as [Hx Ha].
  rewrite str_app_cons. simpl. rewrite Hx, (IH Ha). done.
Qed.

(** A separator-free run of characters: trimming the separator does nothing. *)
Lemma trim_start_cons c s : ∃ k, s = k +:+ trim_start c s ∧ all_chars (λ a, char_eqb a c) k = true.
Proof.
  induction s as [|a s IH]; [by exists ""|]. simpl. char_case.
  - destruct IH as (k & Heq & Hk). exists (String c k). rewrite str_app_cons. simpl.
    rewrite char_eqb_refl. split; [by f_equal|done].
  - by exists "".
Qed.

(** Dropping separators at the ends drops only empty pieces. *)
Lemma split_filter_trim_start c s :
  base.filter (λ w, w ≠ "") (split c (trim_start c s)) = base.filter (λ w, w ≠ "") (split c s).
Proof.
  induction s as [|a s IH]; [done|]. simpl. char_case.
  - rewrite filter_cons_False by naive_solver. done.
  - simpl. by rewrite (proj2 (char_eqb_neq a c)).
Qed.

Lemma split_filter_trim_end c s :
  base.filter (λ w, w ≠ "") (split c (trim_end c s)) = base.filter (λ w, w ≠ "") (split c s).
Proof.
  assert (H : ∀ s, ∃ k w ws, split c s = (w :: ws) ++ replicate k "" ∧
            split c (trim_end c s) = w :: ws).
  { clear s. intros s. induction s as [|a s IH]; [by exists 0, "", []|].
    destruct IH as (k & w & ws & H1 & H2). simpl.
    destruct (trim_end c s) as [|b t] eqn:Ht.
    - simpl in H2. injection H2 as <- <-. char_case.
      + exists (S k), "", []. simpl. rewrite H1. done.
      + exists k, (String a ""), []. rewrite H1. simpl.
        rewrite (proj2 (char_eqb_neq a c)) by done. done.
    - set (t' := String b t) in *. char_case.
      + exists k, "", (w :: ws). rewrite H1.
        change (split c (String c t')) with
          (if char_eqb c c then "" :: split c t' else
             match split c t' with w :: ws => String c w :: ws | [] => [String c ""] end).
        rewrite char_eqb_refl, H2. done.
      + exists k, (String a w), ws. rewrite H1.
        change (split c (String a t')) with
          (if char_eqb a c then "" :: split c t' else
             match split c t' with w :: ws => String a w :: ws | [] => [String a ""] end).
        rewrite (proj2 (char_eqb_neq a c)) by done. rewrite H2. done. }
  destruct (H s) as (k & w & ws & -> & ->).
  rewrite filter_app. 
  assert (base.filter (λ w, w ≠ "") (replicate k "") = []) as ->.
  { induction k; [done|]. simpl. by rewrite filter_cons_False by naive_solver. }
  by rewrite app_nil_r.
Qed.

(** *** Slices and searches *)

Lemma stake_sdrop n s : stake n s +:+ sdrop n s = s.
Proof.
  revert s. induction n as [|n IH]; intros [|a s]; try done.
  simpl. rewrite str_app_cons. by f_equal.
Qed.

Lemma stake_app (a b : string) : stake (String.length a) (a +:+ b) = a.
Proof. induction a as [|x a IH]; [done|]. rewrite str_app_cons. simpl. by f_equal. Qed.

Lemma sdrop_app (a b : string) : sdrop (String.length a) (a +:+ b) = b.
Proof. induction a as [|x a IH]; [done|]. rewrite str_app_cons. simpl. done. Qed.

Lemma sdrop_app_plus n (a b : string) :
  sdrop (String.length a + n) (a +:+ b) = sdrop n b.
Proof. induction a as [|x a IH]; [done|]. rewrite str_app_cons. simpl. done. Qed.

Lemma rfind_char_None c s : rfind_char c s = None ↔ contains_char c s = false.
Proof.
  induction s as [|a s IH]; [done|]. simpl.
  destruct (rfind_char c s) eqn:Hr.
  - split; [done|]. intros [_ H]%orb_false_iff. apply IH in H. done.
  - rewrite orb_false_iff. char_case; naive_solver.
Qed.

Lemma rfind_char_Some c s i :
  rfind_char c s = Some i →
  s = stake i s +:+ String c (sdrop (S i) s) ∧ contains_char c (sdrop (S i) s) = false.
Proof.
  revert i. induction s as [|a s IH]; intros i; [done|]. simpl.
  destruct (rfind_char c s) as [j|] eqn:Hr.
  - intros [= <-]. destruct (IH j eq_refl) as [Hs Hc]. split; [|done].
    simpl. rewrite str_app_cons. by f_equal.
  - char_case; [|done]. intros [= <-]. simpl. split; [done|].
    by apply rfind_char_None in Hr.
Qed.

Lemma join_snoc sep ws w :
  ws ≠ [] → join sep (ws ++ [w]) = join sep ws +:+ (sep +:+ w).
Proof.
  induction ws as [|v ws IH]; intros Hne; [done|].
  destruct ws as [|v' ws]; [done|].
  change ((v :: v' :: ws) ++ [w]) with (v :: ((v' :: ws) ++ [w])).
  rewrite join_cons by (by destruct ws). rewrite IH by done.
  rewrite (join_cons sep v (v' :: ws)) by done. by rewrite !str_app_assoc.
Qed.

Lemma split_snoc c (s w : string) :
  contains_char c w = false → split c (s +:+ String c w) = split c s ++ [w].
Proof.
  intros Hw. induction s as [|a s IH].
  - rewrite str_app_nil_l. simpl. by rewrite char_eqb_refl, split_one.
  - rewrite str_app_cons. simpl. char_case; [by rewrite IH|].
    rewrite IH. destruct (split_cons_ne c s) as (v & vs & ->). done.
Qed.

(** The characters of a joined list, other than the separator's. *)
Lemma contains_char_join c sep ws :
  contains_char c sep = false →
  contains_char c (join sep ws) = existsb (contains_char c) ws.
Proof.
  intros Hs. induction ws as [|w ws IH]; [done|].
  destruct ws as [|w' ws]; [simpl; by rewrite orb_false_r|].
  rewrite join_cons by done. rewrite !contains_char_app, Hs, IH. done.
Qed.

Lemma join_nonempty sep w ws : w ≠ "" → join sep (w :: ws) ≠ "".
Proof. destruct w; [done|]. destruct ws; done. Qed.

Lemma length_join_filter sep ws :
  (slen (join sep (base.filter (λ w, w ≠ ""%string) ws)) ≤ slen (join sep ws))%Z.
Proof.
  induction ws as [|w ws IH]; [done|].
  assert (Hrest : (slen (join sep ws) ≤ slen (join sep (w :: ws)))%Z).
  { destruct ws as [|w' ws']; [apply slen_nonneg|].
    rewrite (join_cons sep w) by done. rewrite !slen_app. pose proof (slen_nonneg w). pose proof (slen_nonneg sep). lia. }
  destruct (decide (w = "")) as [->|Hw].
  - rewrite filter_cons_False by naive_solver. lia.
  - rewrite filter_cons_True by done.
    destruct (base.filter _ ws) as [|v vs] eqn:Hf.
    + destruct ws as [|u us]; [done|].
      rewrite (join_cons sep w (u :: us)), !slen_app by done. simpl.
      pose proof (slen_nonneg sep). pose proof (slen_nonneg (join sep (u :: us))). simpl in *. lia.
    + destruct ws as [|u us]; [done|].
      rewrite (join_cons sep w (v :: vs)), (join_cons sep w (u :: us)), !slen_app by done. lia.
Qed.

Lemma find_char_None c s : find_char c s = None ↔ contains_char c s = false.
Proof.
  induction s as [|a s IH]; [done|]. simpl. char_case; simpl; [done|].
  rewrite fmap_None. done.
Qed.

Lemma find_char_Some c s i :
  find_char c s = Some i →
  s = stake i s +:+ String c (sdrop (S i) s) ∧ contains_char c (stake i s) = false.
Proof.
  revert i. induction s as [|a s IH]; intros i; [done|]. simpl. char_case.
  - by intros [= <-].
  - intros [j [Hj ->]]%fmap_Some. destruct (IH j Hj) as [Hs Hc].
    split; [simpl; rewrite str_app_cons; by f_equal|].
    simpl. rewrite Hc. rewrite (proj2 (char_eqb_neq a c)) by done. done.
Qed.

(** Splitting at a separator splits the pieces. *)
Lemma split_app c x y : split c (x +:+ String c y) = split c x ++ split c y.
Proof.
  induction x as [|a x IH].
  - rewrite str_app_nil_l. simpl. by rewrite char_eqb_refl.
  - rewrite str_app_cons. simpl. rewrite IH. char_case; [done|].
    by destruct (split_cons_ne c x) as (w & ws & ->).
Qed.

Lemma join_app sep ws vs :
  ws ≠ [] → vs ≠ [] → join sep (ws ++ vs) = join sep ws +:+ (sep +:+ join sep vs).
Proof.
  intros Hw Hv. induction ws as [|w ws IH]; [done|].
  destruct ws as [|w' ws].
  - simpl. destruct vs; [done|]. done.
  - change ((w :: w' :: ws) ++ vs) with (w :: ((w' :: ws) ++ vs)).
    rewrite join_cons by (by destruct vs). rewrite IH by done.
    rewrite (join_cons sep w (w' :: ws)) by done. by rewrite !str_app_assoc.
Qed.

Lemma ends_with_char_true c s :
  ends_with_char c s = true → ∃ t, s = t +:+ String c "".
Proof.
  induction s as [|a s IH]; [done|]. destruct s as [|b s].
  - simpl. intros ->%char_eqb_eq. by exists "".
  - intros H. destruct (IH H) as [t Ht]. exists (String a t). rewrite str_app_cons. by f_equal.
Qed.

(** *** Prefixes *)

Lemma strip_prefix_Some p s t : strip_prefix p s = Some t ↔ s = p +:+ t.
Proof.
  revert s. induction p as [|a p IH]; intros s; simpl.
  - rewrite str_app_nil_l. split; congruence.
  - rewrite str_app_cons. destruct s as [|b s]; [done|]. char_case.
    + rewrite IH. split; congruence.
    + split; congruence.
Qed.

Lemma starts_with_app p s : starts_with p (p +:+ s) = true.
Proof. apply bool_decide_eq_true. exists s. by apply strip_prefix_Some. Qed.

Lemma starts_with_true p s : starts_with p s = true ↔ ∃ t, s = p +:+ t.
Proof.
  unfold starts_with. rewrite bool_decide_eq_true. unfold is_Some.
  by setoid_rewrite strip_prefix_Some.
Qed.

(** A one-character-headed pattern is not found inside a run without that character. *)
Lemma find_sub_app_no_head (c : ascii) (p a b : string) :
  contains_char c a = false →
  find_sub (String c p) (a +:+ b) = (λ n, String.length a + n) <$> find_sub (String c p) b.
Proof.
  induction a as [|x a IH]; intros Ha.
  - rewrite str_app_nil_l. simpl String.length. destruct (find_sub _ b); done.
  - simpl in Ha. apply orb_false_iff in Ha as [Hx Ha]. apply char_eqb_neq in Hx.
    rewrite str_app_cons. 
    assert (Hsw : starts_with (String c p) (String x (a +:+ b)) = false).
    { unfold starts_with. apply bool_decide_eq_false. simpl.
      rewrite (proj2 (char_eqb_neq c x)) by congruence. by intros [? ?]. }
    simpl find_sub. rewrite Hsw, (IH Ha). by destruct (find_sub _ b).
Qed.

Lemma find_sub_here p s : find_sub p (p +:+ s) = Some 0.
Proof.
  pose proof (starts_with_app p s) as H.
  destruct (p +:+ s); simpl; by rewrite H.
Qed.

(** [a ++ sep ++ b] where [sep] starts with a character absent from [a]. *)
Lemma find_sub_first c p a b :
  contains_char c a = false →
  find_sub (String c p) (a +:+ (String c p +:+ b)) = Some (String.length a).
Proof.
  intros Ha. rewrite find_sub_app_no_head by done. rewrite find_sub_here. simpl.
  f_equal. lia.
Qed.

(** ** Lemmas: characters and separators *)

Lemma all_chars_app f a b : all_chars f (a +:+ b) = all_chars f a && all_chars f b.
Proof.
  induction a as [|x a IH]; [done|]. rewrite str_app_cons. simpl. by rewrite IH, andb_assoc.
Qed.

Lemma all_chars_stake f n s : all_chars f s = true → all_chars f (stake n s) = true.
Proof.
  revert s. induction n as [|n IH]; intros [|a s]; simpl; try done.
  rewrite !andb_true_iff. naive_solver.
Qed.

Lemma all_chars_sdrop f n s : all_chars f s = true → all_chars f (sdrop n s) = true.
Proof.
  revert s. induction n as [|n IH]; intros [|a s]; simpl; try done.
  rewrite andb_true_iff. naive_solver.
Qed.

Lemma all_chars_contains f c s : all_chars f s = true → f c = false → contains_char c s = false.
Proof.
  intros Hs Hc. induction s as [|a s IH]; simpl in *; [done|]. apply andb_true_iff in Hs as [Ha Hs].
  rewrite (IH Hs), orb_false_r. apply char_eqb_neq. congruence.
Qed.

Lemma split_once_join c k v :
  contains_char c k = false → split_once c (k +:+ String c v) = Some (k, v).
Proof.
  intros Hk. unfold split_once.
  assert (find_char c (k +:+ String c v) = Some (String.length k)) as ->.
  { induction k as [|a k IH]; [simpl; by rewrite char_eqb_refl|].
    simpl in Hk. apply orb_false_iff in Hk as [Ha Hk].
    rewrite str_app_cons. simpl. by rewrite Ha, IH. }
  f_equal. f_equal; [apply stake_app|].
  change (S (String.length k)) with (1 + String.length k)%nat. rewrite Nat.add_comm.
  rewrite sdrop_app_plus. reflexivity.
Qed.

#[export] Hint Rewrite all_chars_app : nano.
#[export] Hint Resolve slen_nonneg split_nonnil split_no_sep : nano.
