(* ===== verification/RustPath.v ===== *)
(** * [std::path::Path] on Unix paths: [parent], [file_name], [file_stem]

    A path is its string.  Its components are the pieces between slashes, but
    the empty ones and ["."] (a leading ["."] of a relative path counts); [parent]
    is the text of the path up to the component before the last. *)

From stdpp Require Import base list strings.
From Stdlib Require Import Ascii Lia.
From S2P Require Import Prelude RustString.

(** ** Definitions *)

(** Drops the pieces at the end that are no components; the list is reversed,
    its last element stands for the root when it is empty. *)
Fixpoint trim_pieces (l : list string) : list string :=
  match l with
  | [] => []
  | [x] => [x]
  | x :: l' => if is_empty x || String.eqb x "." then trim_pieces l' else l
  end.

Definition path_pieces (p : string) : list string := trim_pieces (rev (split slash p)).

Definition path_parent (p : string) : option string :=
  match path_pieces p with
  | [] => None
  | [x] => if is_empty x then None else Some ""
  | _ :: rest =>
    let r := trim_pieces rest in
    Some (if bool_decide (r = [""]) then "/" else join "/" (rev r))
  end.

Definition path_file_name (p : string) : option string :=
  match path_pieces p with
  | [] => None
  | x :: _ => if is_empty x || String.eqb x "." || String.eqb x ".." then None else Some x
  end.

Definition path_file_stem (p : string) : option string :=
  match path_file_name p with
  | None => None
  | Some name =>
    match rfind_char dot name with
    | Some (S i) => Some (stake (S i) name)
    | _ => Some name
    end
  end.

(** ** Lemmas *)

Lemma trim_pieces_nonnil l : l ≠ [] → trim_pieces l ≠ [].
Proof.
  induction l as [|x l IH]; [done|]. intros _. simpl. destruct l as [|y l]; [done|].
  destruct (is_empty x || String.eqb x "."); [by apply IH|done].
Qed.

Lemma path_pieces_nonnil p : path_pieces p ≠ [].
Proof.
  apply trim_pieces_nonnil. intros E. apply (f_equal (@length string)) in E. rewrite length_rev in E.
  pose proof (split_nonnil slash p). by destruct (split slash p).
Qed.

(** A file directly inside a directory. *)
Lemma path_pieces_snoc d f :
  contains_char slash f = false → is_empty f || String.eqb f "." = false →
  path_pieces (d +:+ String slash f) = f :: rev (split slash d).
Proof.
  intros Hf Hn. unfold path_pieces. rewrite split_app, (split_one slash f) by done.
  rewrite rev_app_distr. cbn [rev app]. pose proof (split_nonnil slash d) as Hd.
  assert (rev (split slash d) ≠ []) as Hr.
  { intros E. apply (f_equal (@length string)) in E. rewrite length_rev in E. by destruct (split slash d). }
  destruct (rev (split slash d)) as [|y l]; [done|]. simpl. by rewrite Hn.
Qed.

Lemma file_stem_snoc d stem ext :
  stem ≠ "" → contains_char slash (stem +:+ String dot ext) = false → contains_char dot ext = false →
  stem ≠ "." → ext ≠ "" →
  path_file_stem (d +:+ String slash (stem +:+ String dot ext)) = Some stem.
Proof.
  intros Hs Hsl Hd Hne He. unfold path_file_stem, path_file_name.
  assert (is_empty (stem +:+ String dot ext) = false) as E1 by (by destruct stem).
  assert (String.eqb (stem +:+ String dot ext) "." = false) as E2.
  { apply String.eqb_neq. intros E. destruct stem as [|a [|b s]]; [done| |]; injection E as _ E; done. }
  assert (String.eqb (stem +:+ String dot ext) ".." = false) as E3.
  { apply String.eqb_neq. intros E. destruct stem as [|a [|b s]]; [done| |].
    - injection E as -> E. by destruct ext.
    - injection E as _ _ E. by destruct s. }
  rewrite path_pieces_snoc by (done || by rewrite E1, E2). rewrite E1, E2, E3. cbn [orb].
  assert (Hr : rfind_char dot (stem +:+ String dot ext) = Some (String.length stem)).
  { clear -Hd. induction stem as [|a s IH].
    - change ("" +:+ String dot ext) with (String dot ext). simpl.
      rewrite (proj2 (rfind_char_None dot ext)) by done. done.
    - rewrite str_app_cons. simpl. by rewrite IH. }
  rewrite Hr. destruct stem as [|a s] eqn:Es; [done|]. rewrite <-Es. simpl String.length at 1.
  replace (S (String.length s)) with (String.length stem) by (by rewrite Es).
  subst. cbn [String.length]. f_equal. apply (stake_app (String a s)).
Qed.

Example parent_examples :
  path_parent "/srv/app.js" = Some "/srv" ∧ path_parent "app.js" = Some "" ∧
  path_parent "./app.js" = Some "." ∧ path_parent "/" = None ∧ path_parent "" = None ∧
  path_parent "/a" = Some "/" ∧ path_parent "a//b/./" = Some "a" ∧ path_parent ".." = Some "".
Proof. vm_compute. done. Qed.

Example stem_examples :
  path_file_stem "/srv/app.js" = Some "app" ∧ path_file_stem "/srv/.env" = Some ".env" ∧
  path_file_stem "a.tar.gz" = Some "a.tar" ∧ path_file_stem "a/.." = None ∧ path_file_stem "/" = None.
Proof. vm_compute. done. Qed.
