(* ===== verification/VfsPath.v ===== *)
(** * [src/vfs/types.rs]: normalized paths, files, errors, limits *)

From stdpp Require Import base gmap list strings pretty.
From Stdlib Require Import Ascii ZArith Lia.
From S2P Require Import Prelude RustString.

Open Scope Z_scope.

(** ** Data *)

Definition MAX_PATH_LENGTH : Z := 4096.

(** [VfsPath(String)]: the field is private, values come from [new] and [parent]. *)
Record VfsPath := mkVfsPath { as_str : string }.

Inductive VfsError :=
| NotFound (path : string)
| PermissionDenied (path : string)
| AlreadyExists (path : string)
| InvalidPath (path reason : string)
| QuotaExceeded (resource : string) (limit current : Z)
| IoError (msg : string)
| NotSupported (feature : string).

Definition error_code (e : VfsError) : string :=
  match e with
  | NotFound _ => "ENOENT"
  | PermissionDenied _ => "EACCES"
  | AlreadyExists _ => "EEXIST"
  | InvalidPath _ _ => "EINVAL"
  | QuotaExceeded _ _ _ => "EQUOTA"
  | IoError _ => "EIO"
  | NotSupported _ => "ENOTSUP"
  end.

Definition error_path (e : VfsError) : option string :=
  match e with
  | NotFound p => Some p
  | PermissionDenied p => Some p
  | AlreadyExists p => Some p
  | InvalidPath p _ => Some p
  | _ => None
  end.

Abbreviation VfsResult A := (result A VfsError).

(** A file; [SystemTime] values are integers, bytes are [Z]. *)
Record VfsFile := mkVfsFile {
  content : list Z;
  created_at : Z;
  modified_at : Z;
  file_size : Z;
}.

Definition len {A} (l : list A) : Z := Z.of_nat (length l).

(** [VfsFile::new] and [VfsFile::update_content] at the clock reading [now]. *)
Definition new_file (now : Z) (bytes : list Z) : VfsFile :=
  {| content := bytes; created_at := now; modified_at := now; file_size := len bytes |}.

Definition update_content (now : Z) (f : VfsFile) (bytes : list Z) : VfsFile :=
  {| content := bytes; created_at := created_at f; modified_at := now;
     file_size := len bytes |}.

Record ResourceLimits := mkLimits {
  file_size_bytes_max : Z;
  total_storage_bytes_max : Z;
  files_count_max : Z;
}.

Definition default_limits : ResourceLimits :=
  mkLimits (10 * 1024 * 1024) (100 * 1024 * 1024) 1000.

Definition test_limits : ResourceLimits := mkLimits 100 500 5.

(** The fields are [u32]. *)
Definition limits_ok (l : ResourceLimits) : Prop :=
  in_u32 (file_size_bytes_max l) ∧ in_u32 (total_storage_bytes_max l) ∧
  in_u32 (files_count_max l).

(** ** Operations on paths *)

Definition nonempty_pieces (s : string) : list string :=
  base.filter (λ w, w ≠ "") (split slash s).

Definition normalize (path : string) : string :=
  join "/" (nonempty_pieces (trim_end slash (trim_start slash path))).

Definition new (path : string) : VfsResult VfsPath :=
  if slen path >? MAX_PATH_LENGTH then
    Err (InvalidPath path
           ("Path exceeds maximum length of " +:+ (pretty MAX_PATH_LENGTH +:+ " bytes")))
  else if contains_char nul path then
    Err (InvalidPath path "Path contains null bytes")
  else
    let normalized := normalize path in
    if existsb (String.eqb "..") (split slash normalized) then
      Err (InvalidPath path "Path contains '..' segment which is not allowed")
    else if is_empty normalized then
      Err (InvalidPath path "Path is empty after normalization")
    else Ok (mkVfsPath normalized).

Definition parent (p : VfsPath) : option VfsPath :=
  (λ idx, mkVfsPath (stake idx (as_str p))) <$> rfind_char slash (as_str p).

Definition file_name (p : VfsPath) : option string :=
  match (λ idx, sdrop (S idx) (as_str p)) <$> rfind_char slash (as_str p) with
  | Some f => Some f
  | None => Some (as_str p)
  end.

Definition join_path (p : VfsPath) (other : string) : VfsResult VfsPath :=
  let combined := if is_empty (as_str p) then other else as_str p +:+ ("/" +:+ other) in
  new combined.

(** ** The invariant the type documents *)

Definition segments (p : VfsPath) : list string := split slash (as_str p).

Definition good_segment (s : string) : Prop := s ≠ "" ∧ s ≠ "..".

Record wf_path (p : VfsPath) : Prop := {
  wf_len : slen (as_str p) ≤ MAX_PATH_LENGTH;
  wf_nul : contains_char nul (as_str p) = false;
  wf_segs : Forall good_segment (segments p);
}.

(** ** Lemmas *)

Lemma nonempty_pieces_trim s :
  nonempty_pieces (trim_end slash (trim_start slash s)) = nonempty_pieces s.
Proof. unfold nonempty_pieces. by rewrite split_filter_trim_end, split_filter_trim_start. Qed.

Lemma normalize_pieces s : normalize s = join "/" (nonempty_pieces s).
Proof. unfold normalize. by rewrite nonempty_pieces_trim. Qed.

Lemma nonempty_pieces_no_sep s :
  Forall (λ w, contains_char slash w = false) (nonempty_pieces s).
Proof. apply Forall_filter_sub, split_no_sep. Qed.

Lemma nonempty_pieces_ne s : Forall (λ w, w ≠ "") (nonempty_pieces s).
Proof. apply Forall_forall. by intros w [? _]%list_elem_of_filter. Qed.

Lemma split_normalize s :
  split slash (normalize s) =
  match nonempty_pieces s with [] => [""] | ws => ws end.
Proof.
  rewrite normalize_pieces. pose proof (nonempty_pieces_no_sep s) as Hs.
  destruct (nonempty_pieces s) as [|w ws]; [done|]. by apply split_join.
Qed.

Lemma is_empty_normalize s : is_empty (normalize s) = bool_decide (nonempty_pieces s = []).
Proof.
  rewrite normalize_pieces. pose proof (nonempty_pieces_ne s) as Hs.
  destruct (nonempty_pieces s) as [|w ws]; [done|].
  rewrite bool_decide_eq_false_2 by done. apply is_empty_false.
  inversion Hs; subst. by apply join_nonempty.
Qed.

Lemma slen_normalize s : slen (normalize s) ≤ slen s.
Proof.
  rewrite normalize_pieces. unfold nonempty_pieces.
  rewrite <-(join_split slash s) at 2. apply length_join_filter.
Qed.

Lemma nul_normalize s : contains_char nul s = false → contains_char nul (normalize s) = false.
Proof.
  rewrite normalize_pieces. rewrite <-(join_split slash s) at 1.
  rewrite !contains_char_join by done. rewrite !existsb_false.
  unfold nonempty_pieces. apply Forall_filter_sub.
Qed.

Lemma existsb_eqb x l : existsb (String.eqb x) l = bool_decide (x ∈ l).
Proof.
  apply eq_bool_prop_intro. rewrite bool_decide_spec.
  rewrite Is_true_true, existsb_Exists, Exists_exists.
  setoid_rewrite String.eqb_eq. naive_solver.
Qed.

Lemma dotdot_normalize s :
  existsb (String.eqb "..") (split slash (normalize s)) = bool_decide (".." ∈ split slash s).
Proof.
  rewrite existsb_eqb, split_normalize. apply bool_decide_ext.
  assert (H : ".." ∈ nonempty_pieces s ↔ ".." ∈ split slash s).
  { unfold nonempty_pieces. rewrite list_elem_of_filter. naive_solver. }
  rewrite <-H. destruct (nonempty_pieces s); [|done]. set_solver.
Qed.

(** A well-formed path is its own non-empty pieces. *)
Lemma nonempty_pieces_wf p : wf_path p → nonempty_pieces (as_str p) = segments p.
Proof.
  intros [_ _ Hs]. unfold nonempty_pieces, segments in *.
  apply filter_all. eapply Forall_impl; [exact Hs|]. by intros ? [].
Qed.

Lemma wf_nonempty p : wf_path p → as_str p ≠ "".
Proof. intros [_ _ Hs] Heq. unfold segments in Hs. rewrite Heq in Hs. inversion Hs; subst. by destruct H1. Qed.

(** Acceptance condition of [new]. *)
Definition acceptable (s : string) : Prop :=
  slen s ≤ MAX_PATH_LENGTH ∧ contains_char nul s = false ∧
  ".." ∉ split slash s ∧ nonempty_pieces s ≠ [].

Lemma new_inv s q :
  new s = Ok q ↔ acceptable s ∧ as_str q = join "/" (nonempty_pieces s).
Proof.
  unfold new, acceptable. rewrite Z.gtb_ltb, dotdot_normalize, is_empty_normalize.
  rewrite <-normalize_pieces.
  destruct (MAX_PATH_LENGTH <? slen s) eqn:Hl; zreflect.
  { split; [done|]. intros [[? _] _]. lia. }
  destruct (contains_char nul s) eqn:Hn; [naive_solver|].
  case_bool_decide; [naive_solver|]. case_bool_decide; [naive_solver|].
  destruct q as [q]; simpl. split; [intros [= ->]; auto|]. by intros [_ ->].
Qed.

Lemma join_pieces_wf s : acceptable s → wf_path (mkVfsPath (join "/" (nonempty_pieces s))).
Proof.
  intros (Hl & Hn & Hd & He). rewrite <-normalize_pieces. split; simpl.
  - pose proof (slen_normalize s). lia.
  - by apply nul_normalize.
  - unfold segments; simpl. rewrite split_normalize.
    destruct (nonempty_pieces s) as [|w ws] eqn:Hp; [done|]. rewrite <-Hp.
    apply Forall_forall. intros v Hv. unfold nonempty_pieces in Hv.
    apply list_elem_of_filter in Hv as [Hv1 Hv2]. split; [done|]. by intros ->.
Qed.

Lemma wf_acceptable p : wf_path p → acceptable (as_str p).
Proof.
  intros Hw. destruct (Hw) as [Hl Hn Hs]. repeat split; try done.
  - intros Hin. rewrite Forall_forall in Hs. by destruct (Hs _ Hin).
  - rewrite nonempty_pieces_wf by done. apply split_nonnil.
Qed.

Lemma new_wf_id p : wf_path p → new (as_str p) = Ok p.
Proof.
  intros Hw. apply new_inv. split; [by apply wf_acceptable|].
  rewrite nonempty_pieces_wf by done. symmetry. apply join_split.
Qed.

Lemma new_wf s q : new s = Ok q → wf_path q.
Proof.
  intros [Ha Hq]%new_inv. destruct q as [q]; simpl in Hq; subst. by apply join_pieces_wf.
Qed.

Lemma wf_ext p q : as_str p = as_str q → p = q.
Proof. destruct p, q; simpl; congruence. Qed.

(** The split of a path at its last slash. *)
Lemma parent_split p d f :
  wf_path p → rfind_char slash (as_str p) = Some d →
  f = sdrop (S d) (as_str p) →
  as_str p = stake d (as_str p) +:+ String slash f ∧
  segments p = split slash (stake d (as_str p)) ++ [f].
Proof.
  intros Hw Hr ->. apply rfind_char_Some in Hr as [Heq Hc]. split; [done|].
  unfold segments. rewrite Heq at 1. by apply split_snoc.
Qed.

(** The part of a well-formed path before a slash is well-formed. *)
Lemma wf_before_slash x y :
  wf_path (mkVfsPath (x +:+ String slash y)) → wf_path (mkVfsPath x).
Proof.
  intros [Hl Hn Hs]; unfold segments in Hs; simpl in *.
  rewrite split_app in Hs. apply Forall_app in Hs as [Hs _]. split; simpl; [|  |exact Hs].
  - rewrite slen_app in Hl. pose proof (slen_nonneg (String slash y)). lia.
  - rewrite contains_char_app in Hn. by apply orb_false_iff in Hn as [? _].
Qed.

Lemma parent_wf p d : wf_path p → parent p = Some d → wf_path d.
Proof.
  intros Hw Hp. unfold parent in Hp.
  destruct (rfind_char slash (as_str p)) as [i|] eqn:Hr; [|done]. injection Hp as <-.
  apply rfind_char_Some in Hr as [Heq _]. destruct p as [p]; simpl in *.
  rewrite Heq in Hw. exact (wf_before_slash _ _ Hw).
Qed.

#[export] Hint Resolve new_wf parent_wf wf_nonempty : nano.

(** ** Properties *)

(** [VfsPath::new] accepts exactly the strings of at most 4096 bytes without a
    NUL byte, without a ".." segment and with some non-empty segment; the value is
    the '/'-join of the non-empty segments, whatever slashes lead, trail or repeat. *)
Theorem new_exact (s : string) (q : VfsPath) :
  new s = Ok q ↔
  (slen s ≤ MAX_PATH_LENGTH ∧ contains_char nul s = false ∧
   ".." ∉ split slash s ∧ nonempty_pieces s ≠ []) ∧
  as_str q = join "/" (nonempty_pieces s).
Proof. apply new_inv. Qed.

(** Every path built by [new] satisfies the documented invariant (no empty or
    ".." segment, no NUL, bounded length), and [new] is the identity on its text. *)
Theorem new_canonical (s : string) (q : VfsPath) :
  new s = Ok q → wf_path q ∧ new (as_str q) = Ok q.
Proof. intros Hq%new_wf. split; [done|]. by apply new_wf_id. Qed.

Lemma new_canonical_witness :
  new "//foo//bar//" = Ok (mkVfsPath "foo/bar") ∧
  wf_path (mkVfsPath "foo/bar") ∧ new "foo/bar" = Ok (mkVfsPath "foo/bar").
Proof.
  split; [vm_compute; reflexivity|].
  exact (new_canonical "//foo//bar//" (mkVfsPath "foo/bar") ltac:(vm_compute; reflexivity)).
Defined.

(** The field of [VfsPath] is private: its values come from these three calls. *)
Inductive path_value : VfsPath → Prop :=
| value_new s q : new s = Ok q → path_value q
| value_parent p d : path_value p → parent p = Some d → path_value d
| value_join p other q : path_value p → join_path p other = Ok q → path_value q.

(** C24. The type means what it documents: the values a program can obtain, with any
    sequence of [new], [parent] and [join], are exactly the well-formed paths. *)
Theorem path_type_sound (p : VfsPath) : path_value p ↔ wf_path p.
Proof.
  split; [|intros Hw; by apply (value_new (as_str p)), new_wf_id].
  induction 1 as [s q Hq|p d _ Hw Hd|p other q _ _ Hq].
  - by apply (new_wf s).
  - by apply (parent_wf p).
  - by apply (new_wf _ _ Hq).
Qed.

(** [parent] and [file_name] take a path apart and [join] puts it back: the parent
    of a well-formed path is well-formed, the file name is its last segment, and
    joining them returns the path; a path without a parent is its own file name. *)
Theorem parent_join (p : VfsPath) (Hw : wf_path p) :
  ∃ f, file_name p = Some f ∧ contains_char slash f = false ∧ good_segment f ∧
  match parent p with
  | Some d => wf_path d ∧ segments p = segments d ++ [f] ∧ join_path d f = Ok p
  | None => f = as_str p
  end.
Proof.
  destruct (parent p) as [d|] eqn:Hp.
  - pose proof (parent_wf p d Hw Hp) as Hd. unfold parent, file_name in *.
    destruct (rfind_char slash (as_str p)) as [i|] eqn:Hr; [|done]. injection Hp as <-.
    destruct (parent_split p i _ Hw Hr eq_refl) as [Heq Hseg].
    set (f := sdrop (S i) (as_str p)) in *. exists f. simpl. split; [done|].
    apply rfind_char_Some in Hr as [_ Hc]. fold f in Hc. split; [done|]. split.
    { pose proof (wf_segs p Hw) as Hs. rewrite Hseg in Hs. apply Forall_app in Hs as [_ Hs]. exact (proj1 (Forall_singleton _ _) Hs). }
    split; [done|]. split; [done|].
    unfold join_path; simpl. rewrite (proj2 (is_empty_false _)) by exact (wf_nonempty _ Hd).
    change ("/" +:+ f) with (String slash f).
    rewrite <-Heq. by apply new_wf_id.
  - unfold parent, file_name in *.
    destruct (rfind_char slash (as_str p)) eqn:Hr; [done|]. simpl.
    exists (as_str p). apply rfind_char_None in Hr. repeat split; try done.
    + by apply wf_nonempty.
    + pose proof (wf_segs p Hw) as Hs. unfold segments in Hs.
      rewrite split_one in Hs by done. by destruct (proj1 (Forall_singleton _ _) Hs).
Qed.

Lemma parent_join_witness :
  wf_path (mkVfsPath "foo/bar.txt") ∧
  ∃ f, file_name (mkVfsPath "foo/bar.txt") = Some f ∧ contains_char slash f = false ∧
    good_segment f ∧
    match parent (mkVfsPath "foo/bar.txt") with
    | Some d => wf_path d ∧ segments (mkVfsPath "foo/bar.txt") = segments d ++ [f]
                ∧ join_path d f = Ok (mkVfsPath "foo/bar.txt")
    | None => f = "foo/bar.txt"
    end.
Proof.
  assert (H : wf_path (mkVfsPath "foo/bar.txt"))
    by exact (new_wf "foo/bar.txt" _ ltac:(vm_compute; reflexivity)).
  split; [exact H|]. exact (parent_join (mkVfsPath "foo/bar.txt") H).
Defined.
