(* ===== verification/VfsBackend.v ===== *)
(** * [src/vfs/mod.rs], trait [VfsBackend]: the interface of the storage backends

    The operations are those of the trait, with the backend's state passed
    explicitly and the clock as an argument of [write].  The laws are what the
    clients ([IsolateVfs], [FileSystem]) rely on: a backend behaves as a finite map
    from path texts to contents, and a refused operation changes nothing. *)

From stdpp Require Import base gmap list strings.
From Stdlib Require Import Ascii ZArith Lia.
From S2P Require Import Prelude RustString VfsPath.

Open Scope Z_scope.

(** The contents of a backend, as its clients see them. *)
Abbreviation fs_view := (gmap string (list Z)).

Class VfsBackend (B : Type) := {
  bk_read : B → VfsPath → VfsResult (list Z);
  bk_write : Z → B → VfsPath → list Z → outcome (B * VfsResult unit);
  bk_exists : B → VfsPath → VfsResult bool;
  bk_delete : B → VfsPath → B * VfsResult unit;
  bk_metadata : B → VfsPath → VfsResult VfsFile;
  bk_list_dir : B → VfsPath → outcome (VfsResult (list VfsPath));
}.

Class VfsBackendLaws (B : Type) `{VfsBackend B} := {
  bk_inv : B → Prop;
  bk_view : B → fs_view;
  bk_read_view : ∀ b p, bk_inv b →
    bk_read b p = ok_or (bk_view b !! as_str p) (NotFound (as_str p));
  bk_exists_view : ∀ b p, bk_inv b →
    bk_exists b p = Ok (bool_decide (is_Some (bk_view b !! as_str p)));
  bk_write_view : ∀ now b p c, bk_inv b → wf_path p →
    ∃ b' r, bk_write now b p c = Done (b', r) ∧ bk_inv b' ∧
      bk_view b' = match r with
                   | Ok _ => <[as_str p := c]> (bk_view b)
                   | Err _ => bk_view b
                   end;
  bk_delete_view : ∀ b p b' r, bk_inv b → bk_delete b p = (b', r) →
    bk_inv b' ∧ bk_view b' = delete (as_str p) (bk_view b) ∧
    (is_ok r = true ↔ is_Some (bk_view b !! as_str p));
}.

(** Operations of the backend, for client programs. *)
Inductive bk_op :=
| BkWrite (now : Z) (p : VfsPath) (c : list Z)
| BkDelete (p : VfsPath).

Definition op_path (o : bk_op) : VfsPath :=
  match o with BkWrite _ p _ => p | BkDelete p => p end.

Section client.
Context {B : Type} `{VfsBackendLaws B}.

Definition run_op (b : B) (o : bk_op) : outcome B :=
  match o with
  | BkWrite now p c => let! br := bk_write now b p c in Done (fst br)
  | BkDelete p => Done (fst (bk_delete b p))
  end.

Fixpoint run_ops (b : B) (os : list bk_op) : outcome B :=
  match os with
  | [] => Done b
  | o :: os' => let! b' := run_op b o in run_ops b' os'
  end.

(** A sequence of operations on well-formed paths never panics, keeps the
    invariant and leaves every path it does not name as it was. *)
Lemma run_op_frame b o :
  bk_inv b → wf_path (op_path o) →
  ∃ b', run_op b o = Done b' ∧ bk_inv b' ∧
    ∀ k, k ≠ as_str (op_path o) → bk_view b' !! k = bk_view b !! k.
Proof.
  intros Hi Hw. destruct o as [now p c|p]; simpl in *.
  - destruct (bk_write_view now b p c Hi Hw) as (b' & r & -> & Hi' & Hv). simpl.
    exists b'. split; [done|]. split; [done|]. intros k Hk. rewrite Hv.
    destruct r; [|done]. by rewrite lookup_insert_ne by congruence.
  - destruct (bk_delete b p) as [b' r] eqn:Hd. simpl.
    destruct (bk_delete_view b p b' r Hi Hd) as (Hi' & Hv & _).
    exists b'. split; [done|]. split; [done|]. intros k Hk. rewrite Hv.
    by rewrite lookup_delete_ne by congruence.
Qed.

Lemma run_ops_frame os b :
  bk_inv b → Forall (λ o, wf_path (op_path o)) os →
  ∃ b', run_ops b os = Done b' ∧ bk_inv b' ∧
    ∀ k, Forall (λ o, k ≠ as_str (op_path o)) os → bk_view b' !! k = bk_view b !! k.
Proof.
  revert b. induction os as [|o os IH]; intros b Hi Hw; [by exists b|].
  inversion Hw; subst.
  destruct (run_op_frame b o Hi) as (b1 & Hr & Hi1 & Hf1); [done|].
  destruct (IH b1 Hi1) as (b2 & Hr2 & Hi2 & Hf2); [done|].
  exists b2. simpl. rewrite Hr. simpl. split; [done|]. split; [done|].
  intros k Hk. inversion Hk; subst. rewrite Hf2 by done. by apply Hf1.
Qed.
End client.
