(* ===== verification/VfsMemory.v ===== *)
(** * [src/vfs/memory.rs]: the in-memory backend

    The [DashMap] is a [gmap] from path texts to files; iteration order, which
    the crate leaves unspecified, is that of [map_to_list].  The two atomic
    counters are [Z] with wrapping [fetch_add]/[fetch_sub]. *)

From stdpp Require Import base gmap list strings pretty.
From Stdlib Require Import Ascii ZArith Lia.
From S2P Require Import Prelude RustString VfsPath VfsBackend.

Open Scope Z_scope.

(** ** State and operations *)

Record MemoryBackend := mkMem {
  storage : gmap string VfsFile;
  limits : ResourceLimits;
  total_bytes : Z;
  file_count : Z;
}.

Definition with_limits (l : ResourceLimits) : MemoryBackend := mkMem ∅ l 0 0.

Definition new_backend : MemoryBackend := with_limits default_limits.

Definition clear (b : MemoryBackend) : MemoryBackend := mkMem ∅ (limits b) 0 0.

Definition backend_len (b : MemoryBackend) : Z := Z.of_nat (size (storage b)).

Definition backend_is_empty (b : MemoryBackend) : bool := bool_decide (storage b = ∅).

Definition current_usage (b : MemoryBackend) : Z * Z := (file_count b, total_bytes b).

Definition check_write_bounds (b : MemoryBackend) (content_len : Z) (is_new : bool)
    (old_size : Z) : VfsResult unit :=
  let max_file_size := as_u64 (file_size_bytes_max (limits b)) in
  let max_file_count := as_u64 (files_count_max (limits b)) in
  let max_total_storage := as_u64 (total_storage_bytes_max (limits b)) in
  if content_len >? max_file_size then
    Err (QuotaExceeded "file_size" (file_size_bytes_max (limits b)) (as_u32 content_len))
  else if is_new && (file_count b >=? max_file_count) then
    Err (QuotaExceeded "file_count" (files_count_max (limits b)) (as_u32 (file_count b)))
  else
    let size_delta := sub_i64 (as_i64 content_len) (as_i64 old_size) in
    let current_total := as_i64 (total_bytes b) in
    let new_total := as_u64 (add_i64 current_total size_delta) in
    if new_total >? max_total_storage then
      Err (QuotaExceeded "total_storage" (total_storage_bytes_max (limits b))
             (as_u32 current_total))
    else Ok tt.

Definition snapshot_entries (b : MemoryBackend) : list (VfsPath * VfsFile) :=
  omap (λ kf, match new (fst kf) with Ok p => Some (p, snd kf) | Err _ => None end)
    (map_to_list (storage b)).

Definition restore_from_snapshot (b : MemoryBackend) (entries : list (VfsPath * VfsFile))
    : MemoryBackend :=
  let b0 := clear b in
  let step := λ (acc : gmap string VfsFile * Z) (e : VfsPath * VfsFile),
    (<[as_str (fst e) := snd e]> (fst acc), add_u64 (snd acc) (len (content (snd e)))) in
  let acc := fold_left step entries (storage b0, 0) in
  mkMem (fst acc) (limits b0) (snd acc) (len entries).

Definition read (b : MemoryBackend) (p : VfsPath) : VfsResult (list Z) :=
  match storage b !! as_str p with
  | Some entry => Ok (content entry)
  | None => Err (NotFound (as_str p))
  end.

(** The first half of [write], up to the limit check: whether the file is new and
    its old size. *)
Definition write_check (b : MemoryBackend) (p : VfsPath) (bytes : list Z)
    : VfsResult (bool * Z) :=
  let content_len := len bytes in
  let is_new := negb (bool_decide (is_Some (storage b !! as_str p))) in
  let old_size :=
    if is_new then 0
    else default 0 ((λ f, len (content f)) <$> storage b !! as_str p) in
  let? _ := check_write_bounds b content_len is_new old_size in
  Ok (is_new, old_size).

(** The second half: build the file, store it, update the counters. *)
Definition write_store (now : Z) (b : MemoryBackend) (p : VfsPath) (bytes : list Z)
    (is_new : bool) (old_size : Z) : outcome MemoryBackend :=
  let content_len := len bytes in
  let! file :=
    if is_new then Done (mkVfsFile bytes now now content_len)
    else match storage b !! as_str p with
         | Some existing => Done (mkVfsFile bytes (created_at existing) now content_len)
         | None => Panicked "called `Option::unwrap()` on a `None` value"
         end in
  let count' := if is_new then add_u64 (file_count b) 1 else file_count b in
  let size_delta := sub_i64 (as_i64 content_len) (as_i64 old_size) in
  let total' :=
    if size_delta >? 0 then add_u64 (total_bytes b) (as_u64 size_delta)
    else if size_delta <? 0 then sub_u64 (total_bytes b) (as_u64 (- size_delta))
    else total_bytes b in
  Done (mkMem (<[as_str p := file]> (storage b)) (limits b) total' count').

Definition write (now : Z) (b : MemoryBackend) (p : VfsPath) (bytes : list Z)
    : outcome (MemoryBackend * VfsResult unit) :=
  match write_check b p bytes with
  | Err e => Done (b, Err e)
  | Ok (is_new, old_size) =>
      let! b' := write_store now b p bytes is_new old_size in Done (b', Ok tt)
  end.

Definition exists_ (b : MemoryBackend) (p : VfsPath) : VfsResult bool :=
  Ok (bool_decide (is_Some (storage b !! as_str p))).

Definition delete_file (b : MemoryBackend) (p : VfsPath) : MemoryBackend * VfsResult unit :=
  match storage b !! as_str p with
  | Some file =>
      (mkMem (delete (as_str p) (storage b)) (limits b)
         (sub_u64 (total_bytes b) (file_size file)) (sub_u64 (file_count b) 1), Ok tt)
  | None => (b, Err (NotFound (as_str p)))
  end.

Definition metadata (b : MemoryBackend) (p : VfsPath) : VfsResult VfsFile :=
  match storage b !! as_str p with
  | Some entry => Ok entry
  | None => Err (NotFound (as_str p))
  end.

(** The immediate child of the directory that a key contributes. *)
Definition child_name (prefix_with_slash key : string) : option string :=
  match strip_prefix prefix_with_slash key with
  | None => None
  | Some remaining =>
      match find_char slash remaining with
      | Some slash_pos => Some (stake slash_pos remaining)
      | None => if is_empty remaining then None else Some remaining
      end
  end.

Definition prefix_with_slash (p : VfsPath) : string :=
  if ends_with_char slash (as_str p) then as_str p else as_str p +:+ "/".

Definition list_dir (b : MemoryBackend) (p : VfsPath) : outcome (VfsResult (list VfsPath)) :=
  let prefix := prefix_with_slash p in
  let entries : gset string :=
    list_to_set (omap (child_name prefix) ((map_to_list (storage b)).*1)) in
  let step := λ name acc,
    let! paths := acc in
    match new (prefix +:+ name) with
    | Ok q => Done (q :: paths)
    | Err _ => Panicked "called `Result::unwrap()` on an `Err` value"
    end in
  let! paths := foldr step (Done []) (elements entries) in
  Done (Ok paths).

#[export] Instance memory_backend : VfsBackend MemoryBackend := {|
  bk_read := read;
  bk_write := write;
  bk_exists := exists_;
  bk_delete := delete_file;
  bk_metadata := metadata;
  bk_list_dir := list_dir;
|}.

(** ** Invariants *)

(** Sum of the stored contents' lengths. *)
Definition total_size (m : gmap string VfsFile) : Z :=
  map_fold (λ _ f acc, len (content f) + acc) 0 m.

(** The atomic counters describe the map. *)
Record counters_ok (b : MemoryBackend) : Prop := {
  ok_limits : limits_ok (limits b);
  ok_count : file_count b = Z.of_nat (size (storage b));
  ok_total : total_bytes b = total_size (storage b);
  ok_count_range : file_count b < two62;
  ok_total_range : total_bytes b < two62;
  ok_sizes : map_Forall (λ _ f, file_size f = len (content f)) (storage b);
}.

(** The stored files respect the configured quotas. *)
Record within_limits (b : MemoryBackend) : Prop := {
  wl_count : file_count b ≤ files_count_max (limits b);
  wl_total : total_bytes b ≤ total_storage_bytes_max (limits b);
  wl_file : map_Forall (λ _ f, len (content f) ≤ file_size_bytes_max (limits b)) (storage b);
}.

(** Every key is the text of a well-formed path. *)
Definition keys_wf (b : MemoryBackend) : Prop :=
  map_Forall (λ k _, wf_path (mkVfsPath k)) (storage b).

Definition view (b : MemoryBackend) : fs_view := content <$> storage b.

(** *** The sum of the lengths *)

Lemma len_nonneg {A} (l : list A) : 0 ≤ len l.
Proof. unfold len. lia. Qed.

Lemma total_size_empty : total_size ∅ = 0.
Proof. apply map_fold_empty. Qed.

Lemma total_size_insert m k f :
  m !! k = None → total_size (<[k:=f]> m) = len (content f) + total_size m.
Proof. intros Hk. unfold total_size.
  apply (map_fold_insert_L (λ _ f acc, len (content f) + acc)); [intros; lia|done]. Qed.

Lemma total_size_delete m k f :
  m !! k = Some f → total_size m = len (content f) + total_size (delete k m).
Proof.
  intros Hk. rewrite <-(insert_delete_id m k f) at 1 by done.
  apply total_size_insert, lookup_delete_eq.
Qed.

Lemma total_size_nonneg m : 0 ≤ total_size m.
Proof.
  induction m as [|k f m Hk IH] using map_ind; [by rewrite total_size_empty|].
  rewrite total_size_insert by done. pose proof (len_nonneg (content f)). lia.
Qed.

(** Length of the content under a key, 0 when there is none. *)
Definition old_len (m : gmap string VfsFile) (k : string) : Z :=
  default 0 ((λ f, len (content f)) <$> m !! k).

Lemma old_len_bounds m k : 0 ≤ old_len m k ≤ total_size m.
Proof.
  unfold old_len. destruct (m !! k) as [f|] eqn:Hk; simpl.
  - rewrite (total_size_delete m k f Hk).
    pose proof (len_nonneg (content f)). pose proof (total_size_nonneg (delete k m)). lia.
  - pose proof (total_size_nonneg m). lia.
Qed.

Lemma total_size_overwrite m k f :
  total_size (<[k:=f]> m) = total_size m - old_len m k + len (content f).
Proof.
  unfold old_len. destruct (m !! k) as [g|] eqn:Hk; simpl.
  - rewrite <-insert_delete_eq, total_size_insert by apply lookup_delete_eq.
    rewrite (total_size_delete m k g Hk). lia.
  - rewrite total_size_insert by done. lia.
Qed.

#[export] Hint Resolve len_nonneg total_size_nonneg old_len_bounds : nano.

(** *** Specification of [write] in unbounded integers *)

Definition write_refusal (b : MemoryBackend) (p : VfsPath) (bytes : list Z) : option VfsError :=
  let isnew := storage b !! as_str p = None in
  if file_size_bytes_max (limits b) <? len bytes then
    Some (QuotaExceeded "file_size" (file_size_bytes_max (limits b)) (as_u32 (len bytes)))
  else if bool_decide isnew && (files_count_max (limits b) <=? file_count b) then
    Some (QuotaExceeded "file_count" (files_count_max (limits b)) (as_u32 (file_count b)))
  else if total_storage_bytes_max (limits b) <?
          total_bytes b - old_len (storage b) (as_str p) + len bytes then
    Some (QuotaExceeded "total_storage" (total_storage_bytes_max (limits b))
            (as_u32 (total_bytes b)))
  else None.

(** The stored file: the creation time of an existing file is kept. *)
Definition stored_file (now : Z) (m : gmap string VfsFile) (k : string) (bytes : list Z)
    : VfsFile :=
  mkVfsFile bytes (default now (created_at <$> m !! k)) now (len bytes).

Definition write_result (now : Z) (b : MemoryBackend) (p : VfsPath) (bytes : list Z)
    : MemoryBackend :=
  mkMem (<[as_str p := stored_file now (storage b) (as_str p) bytes]> (storage b)) (limits b)
    (total_bytes b - old_len (storage b) (as_str p) + len bytes)
    (file_count b + if decide (storage b !! as_str p = None) then 1 else 0).

Lemma is_new_decide (m : gmap string VfsFile) k :
  negb (bool_decide (is_Some (m !! k))) = bool_decide (m !! k = None).
Proof. rewrite <-bool_decide_not. apply bool_decide_ext. by rewrite eq_None_not_Some. Qed.

Lemma check_write_bounds_spec b p bytes :
  counters_ok b →
  check_write_bounds b (len bytes) (bool_decide (storage b !! as_str p = None))
    (old_len (storage b) (as_str p)) =
  match write_refusal b p bytes with Some e => Err e | None => Ok tt end.
Proof.
  intros [(Hf & Ht & Hn) Hc Htot Hcr Htr _]. unfold check_write_bounds, write_refusal.
  pose proof (old_len_bounds (storage b) (as_str p)). pose proof (len_nonneg bytes).
  rewrite (as_u64_small (file_size_bytes_max _)), (as_u64_small (files_count_max _)),
    (as_u64_small (total_storage_bytes_max _)) by zlia.
  rewrite Z.gtb_ltb. destruct (_ <? len bytes) eqn:H1; [done|]. zreflect.
  rewrite Z.geb_leb. destruct (bool_decide _ && _) eqn:H2; [done|].
  unfold sub_i64, add_i64. rewrite (as_i64_small (len bytes)) by zlia.
  rewrite (as_i64_small (old_len _ _)) by zlia.
  rewrite (as_i64_small (len bytes - _)) by zlia.
  rewrite (as_i64_small (total_bytes b)) by zlia.
  rewrite (as_i64_small (total_bytes b + _)) by zlia.
  rewrite as_u64_small by zlia. rewrite Z.gtb_ltb.
  replace (total_bytes b + (len bytes - old_len (storage b) (as_str p)))
    with (total_bytes b - old_len (storage b) (as_str p) + len bytes) by lia.
  by destruct (_ <? _).
Qed.

Lemma write_check_spec b p bytes :
  counters_ok b →
  write_check b p bytes =
  match write_refusal b p bytes with
  | Some e => Err e
  | None => Ok (bool_decide (storage b !! as_str p = None), old_len (storage b) (as_str p))
  end.
Proof.
  intros Hok. unfold write_check. rewrite is_new_decide.
  assert (Hold : (if bool_decide (storage b !! as_str p = None) then 0 else
            default 0 ((λ f, len (content f)) <$> storage b !! as_str p)) =
          old_len (storage b) (as_str p)).
  { unfold old_len. case_bool_decide as Hn; [by rewrite Hn|done]. }
  rewrite Hold, check_write_bounds_spec by done. by destruct (write_refusal _ _ _).
Qed.

Lemma write_refusal_None b p bytes :
  write_refusal b p bytes = None →
  len bytes ≤ file_size_bytes_max (limits b) ∧
  (storage b !! as_str p = None → file_count b < files_count_max (limits b)) ∧
  total_bytes b - old_len (storage b) (as_str p) + len bytes
    ≤ total_storage_bytes_max (limits b).
Proof.
  unfold write_refusal. intros H.
  destruct (_ <? len bytes) eqn:H1; [done|].
  destruct (bool_decide _ && _) eqn:H2; [done|].
  destruct (total_storage_bytes_max _ <? _) eqn:H3; [done|]. zreflect.
  split; [done|]. split; [|done]. intros Hn.
  rewrite bool_decide_eq_true_2 in H2 by done. simpl in H2. zreflect. done.
Qed.

Lemma write_store_spec now b p bytes :
  counters_ok b → write_refusal b p bytes = None →
  write_store now b p bytes (bool_decide (storage b !! as_str p = None))
    (old_len (storage b) (as_str p)) = Done (write_result now b p bytes).
Proof.
  intros [(Hf & Ht & Hn) Hc Htot Hcr Htr _] (Hl & Hcount & Htotal)%write_refusal_None.
  unfold write_store, write_result, stored_file.
  pose proof (old_len_bounds (storage b) (as_str p)). pose proof (len_nonneg bytes).
  unfold sub_i64. rewrite (as_i64_small (len bytes)), (as_i64_small (old_len _ _)) by zlia.
  rewrite as_i64_small by zlia. rewrite Z.gtb_ltb.
  set (d := len bytes - old_len (storage b) (as_str p)).
  assert ((if 0 <? d then add_u64 (total_bytes b) (as_u64 d)
     else if d <? 0 then sub_u64 (total_bytes b) (as_u64 (- d)) else total_bytes b)
     = total_bytes b - old_len (storage b) (as_str p) + len bytes) as ->.
  { unfold add_u64, sub_u64. destruct (0 <? d) eqn:Hd; [|destruct (d <? 0) eqn:Hd'];
      zreflect; rewrite ?(as_u64_small d), ?(as_u64_small (- d)) by (subst d; zlia);
      rewrite ?as_u64_small by (subst d; zlia); subst d; lia. }
  case_bool_decide as Hnew; case_decide; try done.
  - rewrite Hnew. simpl. unfold add_u64.
    by rewrite as_u64_small by (specialize (Hcount Hnew); pose proof (Zle_0_nat (size (storage b))); zlia).
  - destruct (storage b !! as_str p); [|done]. simpl. by rewrite Z.add_0_r.
Qed.

Lemma write_spec now b p bytes :
  counters_ok b →
  write now b p bytes =
  Done match write_refusal b p bytes with
       | Some e => (b, Err e)
       | None => (write_result now b p bytes, Ok tt)
       end.
Proof.
  intros Hok. unfold write. rewrite write_check_spec by done.
  destruct (write_refusal b p bytes) eqn:Hr; [done|]. by rewrite write_store_spec.
Qed.

(** *** Preservation *)

Lemma size_overwrite {A} (m : gmap string A) k x :
  Z.of_nat (size (<[k:=x]> m)) = Z.of_nat (size m) + if decide (m !! k = None) then 1 else 0.
Proof.
  destruct (m !! k) as [y|] eqn:Hk.
  - rewrite map_size_insert_Some by eauto. simpl. lia.
  - rewrite map_size_insert_None by done. simpl. lia.
Qed.

Lemma write_result_counters now b p bytes :
  counters_ok b → write_refusal b p bytes = None → counters_ok (write_result now b p bytes).
Proof.
  intros [Hlim Hc Htot Hcr Htr Hs] (Hl & Hcount & Htotal)%write_refusal_None.
  pose proof Hlim as (Hf & Ht & Hn).
  split; simpl; try done.
  - rewrite size_overwrite. lia.
  - rewrite total_size_overwrite. simpl. lia.
  - destruct (decide _) as [H|]; [specialize (Hcount H)|]; zlia.
  - zlia.
  - apply map_Forall_insert_2; done.
Qed.

Lemma write_result_limits now b p bytes :
  within_limits b → write_refusal b p bytes = None → within_limits (write_result now b p bytes).
Proof.
  intros [Hc Ht Hf] (Hl & Hcount & Htotal)%write_refusal_None. split; simpl; try done.
  - destruct (decide _) as [H|]; [specialize (Hcount H)|]; lia.
  - by apply map_Forall_insert_2.
Qed.

(** [delete] in unbounded integers. *)
Lemma delete_file_spec b p :
  counters_ok b →
  delete_file b p =
  match storage b !! as_str p with
  | Some f => (mkMem (delete (as_str p) (storage b)) (limits b)
                (total_bytes b - len (content f)) (file_count b - 1), Ok tt)
  | None => (b, Err (NotFound (as_str p)))
  end.
Proof.
  intros [Hlim Hc Htot Hcr Htr Hs]. unfold delete_file.
  destruct (storage b !! as_str p) as [f|] eqn:Hf; [|done].
  pose proof (total_size_delete _ _ _ Hf). pose proof (total_size_nonneg (delete (as_str p) (storage b))).
  pose proof (len_nonneg (content f)).
  rewrite (Hs _ _ Hf). unfold sub_u64. rewrite as_u64_small by zlia.
  assert (0 < Z.of_nat (size (storage b))).
  { assert (size (storage b) ≠ 0%nat); [|lia]. intros He%map_size_empty_inv. by rewrite He in Hf. }
  by rewrite as_u64_small by zlia.
Qed.

Lemma delete_file_counters b p b' r :
  counters_ok b → delete_file b p = (b', r) → counters_ok b'.
Proof.
  intros Hok. rewrite delete_file_spec by done.
  destruct (storage b !! as_str p) as [f|] eqn:Hf; [|by intros [= <- _]].
  intros [= <- _]. pose proof Hok as [Hlim Hc Htot Hcr Htr Hs].
  pose proof (len_nonneg (content f)).
  split; simpl; try done.
  - rewrite map_size_delete_Some by eauto.
    assert (size (storage b) ≠ 0%nat); [|lia]. intros He%map_size_empty_inv. by rewrite He in Hf.
  - rewrite (total_size_delete _ _ _ Hf) in Htot. lia.
  - lia.
  - lia.
  - by apply map_Forall_delete.
Qed.

Lemma delete_file_limits b p b' r :
  counters_ok b → within_limits b → delete_file b p = (b', r) → within_limits b'.
Proof.
  intros Hok [Hc Ht Hf]. rewrite delete_file_spec by done.
  destruct (storage b !! as_str p) as [f|] eqn:Hk; [|by intros [= <- _]].
  intros [= <- _]. pose proof (len_nonneg (content f)).
  split; simpl; [lia|lia|]. by apply map_Forall_delete.
Qed.

Lemma clear_counters b : limits_ok (limits b) → counters_ok (clear b) ∧ within_limits (clear b).
Proof.
  intros (? & ? & ?). split; split; simpl; try done; try zlia.
Qed.

(** *** Snapshots *)

Definition entry_key (e : VfsPath * VfsFile) : string * VfsFile := (as_str (fst e), snd e).

Definition entries_size (es : list (VfsPath * VfsFile)) : Z :=
  fold_right (λ e acc, len (content (snd e)) + acc) 0 es.

Lemma entries_size_nonneg es : 0 ≤ entries_size es.
Proof. induction es as [|e es IH]; simpl; [lia|]. pose proof (len_nonneg (content (snd e))). lia. Qed.

Lemma restore_fold es m t :
  NoDup ((as_str ∘ fst) <$> es) → 0 ≤ t → t + entries_size es < two62 →
  fold_left (λ (acc : gmap string VfsFile * Z) (e : VfsPath * VfsFile),
      (<[as_str (fst e) := snd e]> (fst acc), add_u64 (snd acc) (len (content (snd e)))))
    es (m, t) =
  (list_to_map (entry_key <$> es) ∪ m, t + entries_size es).
Proof.
  revert m t. induction es as [|e es IH]; intros m t Hnd Ht Hs; simpl in *.
  { rewrite (left_id_L ∅ (∪)). f_equal. lia. }
  apply NoDup_cons in Hnd as [Hni Hnd].
  pose proof (len_nonneg (content (snd e))). pose proof (entries_size_nonneg es).
  unfold add_u64. rewrite as_u64_small by zlia.
  rewrite IH by (try done; lia). f_equal; [|lia].
  rewrite <-insert_union_r; [by rewrite insert_union_l|].
  apply not_elem_of_list_to_map_1. intros Hin. apply Hni.
  rewrite <-list_fmap_compose in Hin. exact Hin.
Qed.

Lemma total_size_list es :
  NoDup ((as_str ∘ fst) <$> es) →
  total_size (list_to_map (entry_key <$> es)) = entries_size es.
Proof.
  induction es as [|e es IH]; intros Hnd; simpl; [apply total_size_empty|].
  apply NoDup_cons in Hnd as [Hni Hnd]. rewrite total_size_insert.
  - simpl. f_equal. exact (IH Hnd).
  - apply not_elem_of_list_to_map_1. intros Hin. apply Hni.
    rewrite <-list_fmap_compose in Hin. exact Hin.
Qed.

Lemma size_list es :
  NoDup ((as_str ∘ fst) <$> es) →
  Z.of_nat (size (list_to_map (entry_key <$> es) : gmap string VfsFile)) = len es.
Proof.
  intros Hnd. unfold len. f_equal. rewrite <-length_map_to_list.
  rewrite map_to_list_to_map; [by rewrite length_fmap|].
  rewrite <-list_fmap_compose. exact Hnd.
Qed.

Lemma restore_storage b es :
  NoDup ((as_str ∘ fst) <$> es) → entries_size es < two62 →
  restore_from_snapshot b es =
  mkMem (list_to_map (entry_key <$> es)) (limits b) (entries_size es) (len es).
Proof.
  intros Hnd Hs. unfold restore_from_snapshot. simpl.
  rewrite (restore_fold es ∅ 0) by (try done; lia).
  simpl. by rewrite (right_id_L ∅ (∪)).
Qed.

Lemma snapshot_keys_wf b :
  keys_wf b → entry_key <$> snapshot_entries b = map_to_list (storage b).
Proof.
  intros Hk. unfold snapshot_entries.
  assert (Hl : Forall (λ kf, wf_path (mkVfsPath (fst kf))) (map_to_list (storage b))).
  { apply Forall_forall. intros [k f] Hin%elem_of_map_to_list. exact (Hk k f Hin). }
  induction Hl as [|[k f] l Hw Hl IH]; [done|]. simpl.
  pose proof (new_wf_id _ Hw) as Hn. simpl in Hn. rewrite Hn. simpl. by f_equal.
Qed.

Lemma entries_size_snapshot b :
  keys_wf b → entries_size (snapshot_entries b) = total_size (storage b).
Proof.
  intros Hk. pose proof (snapshot_keys_wf b Hk) as He.
  rewrite <-(list_to_map_to_list (storage b)), <-He. symmetry. apply total_size_list.
  assert ((as_str ∘ fst) <$> snapshot_entries b = (map_to_list (storage b)).*1) as ->.
  { rewrite <-He, <-list_fmap_compose. done. }
  apply NoDup_fst_map_to_list.
Qed.

(** *** The interface's laws *)

Definition mem_inv (b : MemoryBackend) : Prop := counters_ok b ∧ keys_wf b.

Lemma view_lookup b k : view b !! k = content <$> storage b !! k.
Proof. apply lookup_fmap. Qed.

Lemma view_is_Some b k : is_Some (view b !! k) ↔ is_Some (storage b !! k).
Proof. rewrite view_lookup. apply fmap_is_Some. Qed.

Lemma read_view b p : read b p = ok_or (view b !! as_str p) (NotFound (as_str p)).
Proof. unfold read. rewrite view_lookup. by destruct (storage b !! as_str p). Qed.

Lemma write_result_view now b p bytes :
  view (write_result now b p bytes) = <[as_str p := bytes]> (view b).
Proof. unfold view, write_result. simpl. by rewrite fmap_insert. Qed.

#[export] Instance memory_backend_laws : VfsBackendLaws MemoryBackend.
Proof.
  refine {| bk_inv := mem_inv; bk_view := view |}.
  - intros b p _. apply read_view.
  - intros b p _. simpl. unfold exists_. f_equal. apply bool_decide_ext.
    by rewrite view_is_Some.
  - intros now b p c [Hok Hk] Hw. simpl. rewrite write_spec by done.
    destruct (write_refusal b p c) as [e|] eqn:Hr.
    + by exists b, (Err e).
    + exists (write_result now b p c), (Ok tt). split; [done|]. split; [split|].
      * by apply write_result_counters.
      * apply map_Forall_insert_2; [by destruct p|done].
      * apply write_result_view.
  - intros b p b' r [Hok Hk] Hd. simpl in Hd.
    pose proof (delete_file_counters b p b' r Hok Hd) as Hok'.
    rewrite delete_file_spec in Hd by done. rewrite view_is_Some.
    destruct (storage b !! as_str p) as [f|] eqn:Hf; injection Hd as <- <-.
    + split; [split; [done|by apply map_Forall_delete]|]. split; [apply fmap_delete|].
      simpl. naive_solver.
    + split; [done|]. split.
      * symmetry. apply delete_id. by rewrite view_lookup, Hf.
      * simpl. split; [done|]. by intros [? ?].
Defined.

(** *** [list_dir] *)

Lemma wf_prefix_with_slash p : wf_path p → prefix_with_slash p = as_str p +:+ "/".
Proof.
  intros Hw. unfold prefix_with_slash.
  destruct (ends_with_char slash (as_str p)) eqn:He; [|done]. exfalso.
  apply ends_with_char_true in He as [t Ht]. destruct Hw as [_ _ Hs].
  unfold segments in Hs. rewrite Ht, split_snoc in Hs by done.
  apply Forall_app in Hs as [_ Hs]. inversion Hs as [|? ? [? _]]; subst. done.
Qed.

(** A key contributes [name] to a directory exactly when its segments are those of the
    directory followed by [name]. *)
Lemma child_name_spec p key name :
  wf_path p → wf_path (mkVfsPath key) →
  child_name (prefix_with_slash p) key = Some name ↔
  ∃ rest, split slash key = segments p ++ name :: rest.
Proof.
  intros Hp Hk. rewrite wf_prefix_with_slash by done. unfold child_name.
  destruct (strip_prefix _ key) as [r|] eqn:Hsp.
  - apply strip_prefix_Some in Hsp. rewrite <-str_app_assoc in Hsp.
    change ("/" +:+ r) with (String slash r) in Hsp.
    assert (Hsplit : split slash key = segments p ++ split slash r)
      by (rewrite Hsp; apply split_app).
    assert (Hne : ∀ w ws, split slash r = w :: ws → w ≠ "").
    { intros w ws Hw. destruct Hk as [_ _ Hs]. unfold segments in Hs; simpl in Hs.
      rewrite Hsplit, Hw in Hs. apply Forall_app in Hs as [_ Hs].
      inversion Hs as [|? ? [? _]]; subst. done. }
    assert (Heq : (∃ rest, split slash key = segments p ++ name :: rest) ↔
                  ∃ rest, split slash r = name :: rest).
    { rewrite Hsplit. split; intros [rest Hr]; exists rest;
        [by apply (inj (segments p ++.)) in Hr|by rewrite Hr]. }
    rewrite Heq. destruct (find_char slash r) as [i|] eqn:Hf.
    + apply find_char_Some in Hf as [Hr Hc].
      assert (Hs : split slash r = stake i r :: split slash (sdrop (S i) r)).
      { rewrite Hr at 1. by apply split_app_no_sep. }
      rewrite Hs. naive_solver.
    + apply find_char_None in Hf. rewrite (split_one _ _ Hf) in *.
      destruct (is_empty r) eqn:He; [|naive_solver].
      apply is_empty_true in He; subst. exfalso. by apply (Hne "" []).
  - split; [done|]. intros [rest Hr]. exfalso.
    assert (∃ t, key = (as_str p +:+ "/") +:+ t) as [t Ht].
    { rewrite <-(join_split slash key), Hr.
      rewrite join_app by (try done; apply split_nonnil).
      unfold segments. rewrite join_split. rewrite str_app_assoc. eauto. }
    apply strip_prefix_Some in Ht. congruence.
Qed.

(** The path of a child is well-formed. *)
Lemma child_path_wf p key name rest :
  wf_path p → wf_path (mkVfsPath key) →
  split slash key = segments p ++ name :: rest →
  wf_path (mkVfsPath (prefix_with_slash p +:+ name)) ∧ contains_char slash name = false.
Proof.
  intros Hp Hk Hs. rewrite wf_prefix_with_slash by done.
  assert (Hnc : contains_char slash name = false).
  { pose proof (split_no_sep slash key) as Hf. rewrite Hs in Hf.
    apply Forall_app in Hf as [_ Hf]. by inversion Hf. }
  split; [|done].
  assert (Hkey : key = join "/" (segments p ++ name :: rest)) by by rewrite <-Hs, join_split.
  rewrite join_app in Hkey by (try done; apply split_nonnil).
  unfold segments in Hkey. rewrite join_split, str_app_assoc in Hkey.
  destruct rest as [|r rest]; simpl in Hkey; [by rewrite <-Hkey|].
  rewrite str_app_assoc in Hkey. rewrite Hkey in Hk. by apply wf_before_slash in Hk.
Qed.

Lemma list_dir_fold pre names :
  Forall (λ n, wf_path (mkVfsPath (pre +:+ n))) names →
  foldr (λ name acc, let! paths := acc in
          match new (pre +:+ name) with
          | Ok q => Done (q :: paths)
          | Err _ => Panicked "called `Result::unwrap()` on an `Err` value"
          end) (Done []) names
  = Done ((λ n, mkVfsPath (pre +:+ n)) <$> names).
Proof.
  induction 1 as [|n names Hn Hf IH]; [done|]. simpl. rewrite IH. simpl.
  pose proof (new_wf_id _ Hn) as Hnew. simpl in Hnew. by rewrite Hnew.
Qed.

(** The directory names a backend holds under a path. *)
Definition dir_names (b : MemoryBackend) (p : VfsPath) : gset string :=
  list_to_set (omap (child_name (prefix_with_slash p)) ((map_to_list (storage b)).*1)).

Lemma dir_names_spec b p name :
  keys_wf b → wf_path p →
  name ∈ dir_names b p ↔
  ∃ key rest, is_Some (storage b !! key) ∧ split slash key = segments p ++ name :: rest.
Proof.
  intros Hk Hp. unfold dir_names. rewrite elem_of_list_to_set, list_elem_of_omap.
  split.
  - intros (key & Hin & Hc). apply list_elem_of_fmap in Hin as ([k f] & -> & Hin).
    apply elem_of_map_to_list in Hin. simpl in *.
    apply (child_name_spec p k name Hp (Hk k f Hin)) in Hc as [rest Hr]. eauto.
  - intros (key & rest & [f Hf] & Hs). exists key. split.
    + apply list_elem_of_fmap. exists (key, f). split; [done|]. by apply elem_of_map_to_list.
    + apply (child_name_spec p key name Hp (Hk key f Hf)). eauto.
Qed.

Lemma list_dir_eq b p :
  keys_wf b → wf_path p →
  list_dir b p =
    Done (Ok ((λ n, mkVfsPath (prefix_with_slash p +:+ n)) <$> elements (dir_names b p))).
Proof.
  intros Hk Hp. unfold list_dir. fold (dir_names b p). rewrite list_dir_fold; [done|].
  apply Forall_forall. intros n Hn%elem_of_elements.
  apply (dir_names_spec b p n Hk Hp) in Hn as (key & rest & [f Hf] & Hs).
  exact (proj1 (child_path_wf p key n rest Hp (Hk key f Hf) Hs)).
Qed.

(** ** Concurrent callers

    The backend is shared ([Arc<MemoryBackend>]) and [write] takes [&self]: the limit
    check and the insertion are not one atomic action.  Each caller runs a list of
    operations; a write takes two steps, [write_check] and then [write_store]. *)

Inductive wthread :=
| WIdle (ops : list bk_op)
| WChecked (now : Z) (p : VfsPath) (c : list Z) (is_new : bool) (old_size : Z) (ops : list bk_op).

Inductive conf :=
| Running (b : MemoryBackend) (ts : list wthread)
| Crashed.

Inductive cstep : conf → conf → Prop :=
| step_check_ok b ts1 ts2 now p c n o os :
    write_check b p c = Ok (n, o) →
    cstep (Running b (ts1 ++ WIdle (BkWrite now p c :: os) :: ts2))
          (Running b (ts1 ++ WChecked now p c n o os :: ts2))
| step_check_err b ts1 ts2 now p c e os :
    write_check b p c = Err e →
    cstep (Running b (ts1 ++ WIdle (BkWrite now p c :: os) :: ts2))
          (Running b (ts1 ++ WIdle os :: ts2))
| step_store b b' ts1 ts2 now p c n o os :
    write_store now b p c n o = Done b' →
    cstep (Running b (ts1 ++ WChecked now p c n o os :: ts2))
          (Running b' (ts1 ++ WIdle os :: ts2))
| step_store_panic b w ts1 ts2 now p c n o os :
    write_store now b p c n o = Panicked w →
    cstep (Running b (ts1 ++ WChecked now p c n o os :: ts2)) Crashed
| step_delete b b' r ts1 ts2 p os :
    delete_file b p = (b', r) →
    cstep (Running b (ts1 ++ WIdle (BkDelete p :: os) :: ts2))
          (Running b' (ts1 ++ WIdle os :: ts2)).

(** Callers that passed the check for a new file and have not stored it yet. *)
Definition creating (t : wthread) : Z :=
  match t with WChecked _ _ _ true _ _ => 1 | _ => 0 end.

Definition creating_all (ts : list wthread) : Z := fold_right (λ t acc, creating t + acc) 0 ts.

Lemma creating_app ts1 ts2 : creating_all (ts1 ++ ts2) = creating_all ts1 + creating_all ts2.
Proof. induction ts1 as [|t ts1 IH]; simpl; lia. Qed.

Lemma creating_bounds ts : 0 ≤ creating_all ts ≤ len ts.
Proof.
  unfold len. induction ts as [|t ts IH]; simpl; [lia|].
  assert (0 ≤ creating t ≤ 1) by (destruct t as [|? ? ? [] ? ?]; simpl; lia). lia.
Qed.

Lemma creating_zero ts : Forall (λ t, creating t = 0) ts → creating_all ts = 0.
Proof. induction 1; simpl; lia. Qed.

(** What holds in every reachable configuration of [n] callers. *)
Definition conc_inv (l : ResourceLimits) (n : Z) (cf : conf) : Prop :=
  match cf with
  | Crashed => True
  | Running b ts =>
      limits b = l ∧ len ts = n ∧
      Z.of_nat (size (storage b)) ≤ file_count b ∧
      file_count b + creating_all ts ≤ files_count_max l + n - 1
  end.

Lemma write_check_new b p c o :
  limits_ok (limits b) → write_check b p c = Ok (true, o) → file_count b < files_count_max (limits b).
Proof.
  intros (_ & _ & Hn) Hw. unfold write_check in Hw. apply result_bind_ok in Hw as (u & Hc & Ho).
  injection Ho as Hnew _. rewrite Hnew in Hc. unfold check_write_bounds in Hc.
  rewrite (as_u64_small (files_count_max _)) in Hc by zlia.
  destruct (_ >? as_u64 _); [done|]. simpl in Hc.
  destruct (_ >=? _) eqn:Hg; [done|]. zreflect. lia.
Qed.

Lemma write_store_shape now b p c n o b' :
  write_store now b p c n o = Done b' →
  limits b' = limits b ∧ file_count b' = (if n then add_u64 (file_count b) 1 else file_count b) ∧
  Z.of_nat (size (storage b')) ≤ Z.of_nat (size (storage b)) + (if n then 1 else 0).
Proof.
  unfold write_store. destruct n; simpl.
  - intros [= <-]. simpl. split; [done|]. split; [done|]. rewrite size_overwrite.
    destruct (decide _); lia.
  - destruct (storage b !! as_str p) eqn:Hp; [|done]. simpl. intros [= <-]. simpl.
    split; [done|]. split; [done|]. rewrite map_size_insert_Some by eauto. lia.
Qed.

Lemma len_mid {A} (ts1 ts2 : list A) t : len (ts1 ++ t :: ts2) = len ts1 + 1 + len ts2.
Proof. unfold len. rewrite length_app. simpl. lia. Qed.

Lemma conc_inv_step l n c1 c2 :
  limits_ok l → 1 ≤ n < two32 → cstep c1 c2 → conc_inv l n c1 → conc_inv l n c2.
Proof.
  intros Hl Hn Hst. destruct Hst as
    [b ts1 ts2 now p c nw o os Hw|b ts1 ts2 now p c e os Hw
    |b b' ts1 ts2 now p c nw o os Hw|b w ts1 ts2 now p c nw o os Hw|b b' r ts1 ts2 p os Hd];
    try done; intros (Hlim & Hlen & Hsz & Hcnt); simpl.
  all: rewrite len_mid in *; rewrite creating_app in *; simpl in *.
  all: pose proof (creating_bounds ts1) as Hb1; pose proof (creating_bounds ts2) as Hb2.
  all: pose proof Hl as (Hl1 & Hl2 & Hl3).
  - split; [done|]. split; [done|]. split; [done|].
    destruct nw; simpl; [|lia]. rewrite <-Hlim in Hl.
    apply write_check_new in Hw; [|done]. rewrite Hlim in Hw. lia.
  - split; [done|]. split; [done|]. split; [done|]. lia.
  - apply write_store_shape in Hw as (Hl' & Hc & Hs). rewrite Hl', Hc.
    split; [done|]. split; [done|]. destruct nw; [|split; lia].
    unfold add_u64. rewrite as_u64_small by zlia. split; lia.
  - unfold delete_file in Hd. destruct (storage b !! as_str p) as [f|] eqn:Hf.
    + injection Hd as <- _. simpl.
      assert (size (storage b) ≠ 0%nat) by (intros He%map_size_empty_inv; by rewrite He in Hf).
      rewrite map_size_delete_Some by eauto. unfold sub_u64. rewrite as_u64_small by zlia.
      split; [done|]. split; [done|]. split; lia.
    + injection Hd as <- _. split; [done|]. split; [done|]. split; lia.
Qed.

(** ** The specification: a map with quotas computed from its contents *)

Definition view_total (v : fs_view) : Z := map_fold (λ _ c acc, len c + acc) 0 v.

Definition view_len (v : fs_view) (k : string) : Z := default 0 (len <$> v !! k).

Definition spec_accepts (l : ResourceLimits) (v : fs_view) (k : string) (c : list Z) : bool :=
  (len c <=? file_size_bytes_max l) &&
  (negb (bool_decide (v !! k = None)) || (Z.of_nat (size v) <? files_count_max l)) &&
  (view_total v - view_len v k + len c <=? total_storage_bytes_max l).

Definition spec_op (l : ResourceLimits) (v : fs_view) (o : bk_op) : fs_view :=
  match o with
  | BkWrite _ p c => if spec_accepts l v (as_str p) c then <[as_str p := c]> v else v
  | BkDelete p => delete (as_str p) v
  end.

Definition spec_run (l : ResourceLimits) (v : fs_view) (os : list bk_op) : fs_view :=
  fold_left (spec_op l) os v.

Lemma view_total_view b : view_total (view b) = total_size (storage b).
Proof. unfold view_total, view, total_size. by rewrite map_fold_fmap. Qed.

Lemma view_len_view b k : view_len (view b) k = old_len (storage b) k.
Proof. unfold view_len, old_len. rewrite view_lookup. by destruct (storage b !! k). Qed.

Lemma spec_accepts_refusal b p c :
  counters_ok b →
  spec_accepts (limits b) (view b) (as_str p) c = bool_decide (write_refusal b p c = None).
Proof.
  intros [_ Hc Ht _ _ _]. unfold spec_accepts, write_refusal.
  rewrite view_total_view, view_len_view, view_lookup, <-Ht.
  rewrite (bool_decide_ext _ (storage b !! as_str p = None)) by apply fmap_None.
  unfold view. rewrite map_size_fmap, <-Hc.
  destruct (Z.leb_spec (len c) (file_size_bytes_max (limits b))),
    (Z.ltb_spec (file_size_bytes_max (limits b)) (len c)); try lia; simpl; [|done].
  destruct (Z.ltb_spec (file_count b) (files_count_max (limits b))),
    (Z.leb_spec (files_count_max (limits b)) (file_count b)); try lia;
  destruct (bool_decide (storage b !! _ = None)); simpl; try done;
  set (x := total_bytes b - _ + len c);
  destruct (Z.leb_spec x (total_storage_bytes_max (limits b))),
    (Z.ltb_spec (total_storage_bytes_max (limits b)) x); try lia; done.
Qed.

Lemma mem_run_op b o :
  mem_inv b → wf_path (op_path o) → ∃ b', run_op b o = Done b' ∧ mem_inv b'.
Proof.
  intros Hi Hw. destruct (run_op_frame b o) as (b' & ? & ? & _); [exact Hi|exact Hw|].
  by exists b'.
Qed.

Lemma run_op_refines b o b' :
  mem_inv b → run_op b o = Done b' →
  limits b' = limits b ∧ view b' = spec_op (limits b) (view b) o.
Proof.
  intros [Hok Hk]. destruct o as [now p c|p]; simpl.
  - rewrite write_spec by done. rewrite spec_accepts_refusal by done.
    destruct (write_refusal b p c) eqn:Hr; simpl; intros [= <-]; [done|].
    split; [done|]. apply write_result_view.
  - intros [= <-]. rewrite delete_file_spec by done.
    destruct (storage b !! as_str p) eqn:Hp; simpl.
    + split; [done|]. apply fmap_delete.
    + split; [done|]. symmetry. apply delete_id. by rewrite view_lookup, Hp.
Qed.

Lemma run_op_limits b o b' :
  mem_inv b → within_limits b → run_op b o = Done b' → within_limits b'.
Proof.
  intros [Hok Hk] Hl. destruct o as [now p c|p]; simpl.
  - rewrite write_spec by done.
    destruct (write_refusal b p c) eqn:Hr; simpl; intros [= <-]; [done|].
    by apply write_result_limits.
  - intros [= <-]. destruct (delete_file b p) as [b1 r] eqn:Hd.
    exact (delete_file_limits b p b1 r Hok Hl Hd).
Qed.

Lemma with_limits_inv l : limits_ok l → mem_inv (with_limits l) ∧ within_limits (with_limits l).
Proof.
  intros (? & ? & ?). split; [split|]; [split| |split]; simpl; try done; try zlia.
Qed.

(** ** Properties *)

(** C5. Run on any sequence of writes and deletes over well-formed paths, the memory
    backend refines the map whose quotas are computed from the contents themselves:
    it accepts and refuses the same writes and stores the same bytes, so the atomic
    counters and the i64/usize conversions implement the documented quotas. *)
Theorem memory_refines_quota_map (l : ResourceLimits) (os : list bk_op)
    (Hl : limits_ok l) (Hw : Forall (λ o, wf_path (op_path o)) os) :
  ∃ b, run_ops (with_limits l) os = Done b ∧ limits b = l ∧ view b = spec_run l ∅ os.
Proof.
  enough (H : ∀ b0, mem_inv b0 → ∃ b, run_ops b0 os = Done b ∧ limits b = limits b0 ∧
            view b = spec_run (limits b0) (view b0) os).
  { destruct (H (with_limits l)) as (b & Hr & Hlim & Hv); [by apply with_limits_inv|].
    exists b. split; [done|]. split; [done|]. rewrite Hv. done. }
  induction Hw as [|o os Hwo Hw IH]; intros b0 Hi; [by exists b0|].
  destruct (mem_run_op b0 o Hi Hwo) as (b1 & Hr & Hi1).
  destruct (run_op_refines b0 o b1 Hi Hr) as [Hl1 Hv1].
  destruct (IH b1 Hi1) as (b2 & Hr2 & Hl2 & Hv2).
  exists b2. simpl. rewrite Hr. simpl. split; [done|]. split; [congruence|].
  by rewrite Hv2, Hl1, Hv1.
Qed.

Definition path_a : VfsPath := mkVfsPath "a.txt".
Definition path_b : VfsPath := mkVfsPath "dir/b.txt".

Lemma wf_path_a : wf_path path_a.
Proof. exact (new_wf "a.txt" _ ltac:(vm_compute; reflexivity)). Qed.

Lemma wf_path_b : wf_path path_b.
Proof. exact (new_wf "/dir//b.txt" _ ltac:(vm_compute; reflexivity)). Qed.

Definition demo_ops : list bk_op := [BkWrite 1 path_a [1; 2; 3]; BkWrite 2 path_b [4]; BkDelete path_a].

Lemma demo_ops_wf : Forall (λ o, wf_path (op_path o)) demo_ops.
Proof.
  apply Forall_cons_2; [exact wf_path_a|]. apply Forall_cons_2; [exact wf_path_b|].
  apply Forall_cons_2; [exact wf_path_a|]. apply Forall_nil_2.
Qed.

Lemma memory_refines_quota_map_witness :
  limits_ok test_limits ∧
  ∃ b, run_ops (with_limits test_limits) demo_ops = Done b ∧ limits b = test_limits ∧
       view b = spec_run test_limits ∅ demo_ops.
Proof.
  assert (H : limits_ok test_limits) by (repeat split; vm_compute; congruence).
  split; [exact H|]. exact (memory_refines_quota_map test_limits demo_ops H demo_ops_wf).
Defined.

(** From an empty backend, after any sequence of writes and deletes over
    well-formed paths, [file_count] is the number of files, [total_bytes] the sum of
    their lengths, every recorded size is the content's length, and the three
    configured quotas hold. *)
Theorem memory_counters_invariant (l : ResourceLimits) (os : list bk_op)
    (Hl : limits_ok l) (Hw : Forall (λ o, wf_path (op_path o)) os) :
  ∃ b, run_ops (with_limits l) os = Done b ∧ counters_ok b ∧ within_limits b ∧ keys_wf b.
Proof.
  enough (H : ∀ b0, mem_inv b0 → within_limits b0 →
            ∃ b, run_ops b0 os = Done b ∧ counters_ok b ∧ within_limits b ∧ keys_wf b).
  { destruct (with_limits_inv l Hl). by apply H. }
  induction Hw as [|o os Hwo Hw IH]; intros b0 Hi Hlim; [destruct Hi; by exists b0|].
  destruct (mem_run_op b0 o Hi Hwo) as (b1 & Hr & Hi1).
  simpl. rewrite Hr. simpl. apply IH; [done|]. by apply (run_op_limits b0 o).
Qed.

Lemma memory_counters_invariant_witness :
  limits_ok test_limits ∧
  ∃ b, run_ops (with_limits test_limits) demo_ops = Done b ∧
       counters_ok b ∧ within_limits b ∧ keys_wf b.
Proof.
  assert (H : limits_ok test_limits) by (repeat split; vm_compute; congruence).
  split; [exact H|]. exact (memory_counters_invariant test_limits demo_ops H demo_ops_wf).
Defined.

(** [list_dir] never hits its [unwrap] and lists each immediate child once: the
    paths "dir/name" for which some stored path continues "dir" with the segment
    [name]. *)
Theorem list_dir_exact (b : MemoryBackend) (p : VfsPath) (Hk : keys_wf b) (Hp : wf_path p) :
  ∃ l, list_dir b p = Done (Ok l) ∧ NoDup l ∧
  ∀ q, q ∈ l ↔ ∃ key name rest,
    is_Some (storage b !! key) ∧ split slash key = segments p ++ name :: rest ∧
    as_str q = as_str p +:+ ("/" +:+ name).
Proof.
  exists ((λ n, mkVfsPath (prefix_with_slash p +:+ n)) <$> elements (dir_names b p)).
  split; [by apply list_dir_eq|]. split.
  { apply NoDup_fmap_2; [|apply NoDup_elements].
    intros n1 n2 [= H]. by apply str_app_inj_l in H. }
  intros q. rewrite list_elem_of_fmap. setoid_rewrite elem_of_elements.
  setoid_rewrite (λ n, dir_names_spec b p n Hk Hp).
  rewrite wf_prefix_with_slash by done. split.
  - intros (n & -> & key & rest & Hs & Hsp). exists key, n, rest.
    split; [done|]. split; [done|]. by rewrite str_app_assoc.
  - intros (key & n & rest & ? & ? & Hq). exists n. split; [|by exists key, rest].
    apply wf_ext. simpl. by rewrite Hq, str_app_assoc.
Qed.

Definition demo_backend : MemoryBackend :=
  match run_ops (with_limits test_limits) (take 2 demo_ops) with
  | Done b => b
  | Panicked _ => with_limits test_limits
  end.

Lemma demo_backend_keys : keys_wf demo_backend.
Proof.
  intros k f. assert (storage demo_backend = {[as_str path_b := mkVfsFile [4] 2 2 1;
    as_str path_a := mkVfsFile [1;2;3] 1 1 3]}) as -> by (vm_compute; reflexivity).
  rewrite lookup_insert_Some, lookup_singleton_Some. intros [[<- _]|[_ [<- _]]].
  - exact wf_path_b.
  - exact wf_path_a.
Qed.

Lemma list_dir_exact_witness :
  keys_wf demo_backend ∧ wf_path (mkVfsPath "dir") ∧
  ∃ l, list_dir demo_backend (mkVfsPath "dir") = Done (Ok l) ∧ NoDup l ∧
  ∀ q, q ∈ l ↔ ∃ key name rest,
    is_Some (storage demo_backend !! key) ∧
    split slash key = segments (mkVfsPath "dir") ++ name :: rest ∧
    as_str q = "dir" +:+ ("/" +:+ name).
Proof.
  assert (H : wf_path (mkVfsPath "dir")) by exact (new_wf "dir" _ ltac:(vm_compute; reflexivity)).
  split; [exact demo_backend_keys|]. split; [exact H|].
  exact (list_dir_exact demo_backend (mkVfsPath "dir") demo_backend_keys H).
Defined.

(** [write] on every branch: a content over the file limit, a new file over the
    count limit or a total over the storage limit is refused, in this order, with the
    matching EQUOTA error and an unchanged backend; otherwise the file is stored with
    the old creation time (or now) and both counters move by the exact difference. *)
Theorem write_branches (now : Z) (b : MemoryBackend) (p : VfsPath) (bytes : list Z)
    (Hok : counters_ok b) :
  let isnew := bool_decide (storage b !! as_str p = None) in
  let total' := total_bytes b - old_len (storage b) (as_str p) + len bytes in
  write now b p bytes =
  Done (if file_size_bytes_max (limits b) <? len bytes then
          (b, Err (QuotaExceeded "file_size" (file_size_bytes_max (limits b)) (as_u32 (len bytes))))
        else if isnew && (files_count_max (limits b) <=? file_count b) then
          (b, Err (QuotaExceeded "file_count" (files_count_max (limits b)) (as_u32 (file_count b))))
        else if total_storage_bytes_max (limits b) <? total' then
          (b, Err (QuotaExceeded "total_storage" (total_storage_bytes_max (limits b))
                     (as_u32 (total_bytes b))))
        else
          (mkMem (<[as_str p :=
                      mkVfsFile bytes (default now (created_at <$> storage b !! as_str p)) now
                        (len bytes)]> (storage b))
             (limits b) total' (file_count b + if isnew then 1 else 0), Ok tt)).
Proof.
  simpl. rewrite write_spec by done. unfold write_refusal, write_result, stored_file.
  destruct (_ <? len bytes); [done|]. destruct (_ && _); [done|]. destruct (_ <? _); [done|].
  by destruct (storage b !! as_str p).
Qed.

Lemma write_branches_witness :
  counters_ok (with_limits test_limits) ∧
  write 7 (with_limits test_limits) path_a [1; 2] =
  Done (mkMem {["a.txt" := mkVfsFile [1; 2] 7 7 2]} test_limits 2 1, Ok tt).
Proof.
  assert (H : counters_ok (with_limits test_limits)).
  { apply with_limits_inv. repeat split; vm_compute; congruence. }
  split; [exact H|]. rewrite (write_branches 7 (with_limits test_limits) path_a [1; 2] H).
  vm_compute. reflexivity.
Defined.

(** Snapshot then restore: with well-formed keys and sizes that fit in memory, the
    entries of a backend restored into any other backend give back exactly the stored
    files (contents and times), with exact counters, whatever was there before. *)
Theorem snapshot_restore (b b0 : MemoryBackend) (Hk : keys_wf b)
    (Hlim : limits_ok (limits b0)) (Hok : counters_ok b) :
  storage (restore_from_snapshot b0 (snapshot_entries b)) = storage b ∧
  counters_ok (restore_from_snapshot b0 (snapshot_entries b)).
Proof.
  assert (Hkeys : (as_str ∘ fst) <$> snapshot_entries b = (map_to_list (storage b)).*1).
  { rewrite <-(snapshot_keys_wf b Hk), <-list_fmap_compose. done. }
  assert (Hnd : NoDup ((as_str ∘ fst) <$> snapshot_entries b)).
  { rewrite Hkeys. apply NoDup_fst_map_to_list. }
  pose proof Hok as [_ Hc Ht Hcr Htr Hs].
  rewrite restore_storage by (try done; rewrite entries_size_snapshot by done; lia).
  rewrite snapshot_keys_wf by done. rewrite list_to_map_to_list. simpl. split; [done|].
  assert (Hlen : len (snapshot_entries b) = Z.of_nat (size (storage b))).
  { rewrite <-size_list by done. by rewrite snapshot_keys_wf, list_to_map_to_list. }
  split; simpl; try done; rewrite ?Hlen, ?entries_size_snapshot by done; lia || done.
Qed.

Lemma snapshot_restore_witness :
  keys_wf demo_backend ∧
  storage (restore_from_snapshot new_backend (snapshot_entries demo_backend))
    = storage demo_backend.
Proof.
  split; [exact demo_backend_keys|].
  refine (proj1 (snapshot_restore demo_backend new_backend demo_backend_keys _ _)).
  - repeat split; vm_compute; congruence.
  - split; [repeat split; vm_compute; congruence|vm_compute; reflexivity..|].
    intros k f. assert (storage demo_backend = {[as_str path_b := mkVfsFile [4] 2 2 1;
      as_str path_a := mkVfsFile [1;2;3] 1 1 3]}) as -> by (vm_compute; reflexivity).
    rewrite lookup_insert_Some, lookup_singleton_Some.
    intros [[_ <-]|[_ [_ <-]]]; reflexivity.
Defined.

(** With [n] concurrent callers the check-then-store of [write] can overshoot the
    file quota, but only by the other callers: in every reachable configuration the
    file counter is at most [files_count_max + n - 1], and it never falls below the
    number of files stored. *)
Theorem concurrent_count_bound (l : ResourceLimits) (ts : list wthread) (cf : conf)
    (Hl : limits_ok l) (Hn : 1 ≤ len ts < two32)
    (Hidle : Forall (λ t, creating t = 0) ts)
    (Hr : rtc cstep (Running (with_limits l) ts) cf) :
  match cf with
  | Running b _ => Z.of_nat (size (storage b)) ≤ file_count b ≤ files_count_max l + len ts - 1
  | Crashed => True
  end.
Proof.
  assert (Hinit : conc_inv l (len ts) (Running (with_limits l) ts)).
  { simpl. rewrite (creating_zero ts Hidle).
    pose proof Hl as (_ & _ & H). split; [done|]. split; [done|]. split; [done|]. zlia. }
  assert (Hinv : conc_inv l (len ts) cf).
  { remember (Running (with_limits l) ts) as c0 eqn:H0. clear H0 Hidle.
    induction Hr as [c|c1 c2 c3 Hs Hr IH]; [done|].
    apply IH. exact (conc_inv_step l (len ts) c1 c2 Hl Hn Hs Hinit). }
  destruct cf as [b ts'|]; [|done]. destruct Hinv as (_ & Hlen & Hsz & Hc).
  pose proof (creating_bounds ts'). lia.
Qed.

Definition one_file_limits : ResourceLimits := mkLimits 100 500 1.

Definition two_writers : list wthread :=
  [WIdle [BkWrite 1 path_a [1]]; WIdle [BkWrite 2 path_b [2]]].

Lemma concurrent_count_bound_witness :
  limits_ok one_file_limits ∧ 1 ≤ len two_writers < two32 ∧
  Z.of_nat (size (storage (with_limits one_file_limits))) ≤ 0 ≤ 1 + len two_writers - 1.
Proof.
  assert (H : limits_ok one_file_limits) by (repeat split; vm_compute; congruence).
  assert (Hn : 1 ≤ len two_writers < two32) by (vm_compute; split; congruence).
  split; [exact H|]. split; [exact Hn|].
  exact (concurrent_count_bound one_file_limits two_writers
           (Running (with_limits one_file_limits) two_writers) H Hn
           ltac:(repeat constructor) (rtc_refl _ _)).
Defined.

(** What two concurrent callers of the shared backend can reach: with a limit of one
    file, two files stored (quota overshoot); with both writing the same new path, a
    file counter of 2 for one file; and with a delete between the check and the store
    of an overwrite, the [unwrap] on a missing entry. *)
Theorem concurrent_write_anomalies :
  (∃ b, rtc cstep (Running (with_limits one_file_limits) two_writers)
              (Running b [WIdle []; WIdle []]) ∧ size (storage b) = 2%nat) ∧
  (∃ b, rtc cstep (Running (with_limits test_limits)
                [WIdle [BkWrite 1 path_a [1]]; WIdle [BkWrite 2 path_a [2]]])
              (Running b [WIdle []; WIdle []]) ∧ file_count b = 2 ∧ size (storage b) = 1%nat) ∧
  rtc cstep (Running (with_limits test_limits)
      [WIdle [BkWrite 1 path_a [1]; BkWrite 2 path_a [2]]; WIdle [BkDelete path_a]]) Crashed.
Proof.
  split; [|split].
  - eexists. split.
    + eapply rtc_l; [eapply (step_check_ok _ [] _); vm_compute; reflexivity|].
      eapply rtc_l; [eapply (step_check_ok _ [_] []); vm_compute; reflexivity|].
      eapply rtc_l; [eapply (step_store _ _ [] _); vm_compute; reflexivity|].
      eapply rtc_l; [eapply (step_store _ _ [_] []); vm_compute; reflexivity|].
      apply rtc_refl.
    + vm_compute. reflexivity.
  - eexists. split; [|split].
    + eapply rtc_l; [eapply (step_check_ok _ [] _); vm_compute; reflexivity|].
      eapply rtc_l; [eapply (step_check_ok _ [_] []); vm_compute; reflexivity|].
      eapply rtc_l; [eapply (step_store _ _ [] _); vm_compute; reflexivity|].
      eapply rtc_l; [eapply (step_store _ _ [_] []); vm_compute; reflexivity|].
      apply rtc_refl.
    + vm_compute. reflexivity.
    + vm_compute. reflexivity.
  - eapply rtc_l; [eapply (step_check_ok _ [] _); vm_compute; reflexivity|].
    eapply rtc_l; [eapply (step_store _ _ [] _); vm_compute; reflexivity|].
    eapply rtc_l; [eapply (step_check_ok _ [] _); vm_compute; reflexivity|].
    eapply rtc_l; [eapply (step_delete _ _ _ [_] []); vm_compute; reflexivity|].
    eapply rtc_l; [eapply (step_store_panic _ _ [] _); vm_compute; reflexivity|].
    apply rtc_refl.
Qed.
