(* ===== verification/VfsIsolate.v ===== *)
(** * [src/vfs/isolate.rs] and [src/vfs/mod.rs]: namespaces over a shared backend

    [IsolateVfs] and [FileSystem] are written against the [VfsBackend] interface;
    the backend is shared, so every operation takes its current state.  The
    [security] module ([PathValidator], [ResourceLimiter]) is here too. *)

From stdpp Require Import base gmap list strings pretty.
From Stdlib Require Import Ascii ZArith Lia.
From S2P Require Import Prelude RustString VfsPath VfsBackend VfsMemory.

Open Scope Z_scope.

(** ** Namespaces *)

Definition from_hostname `{Lowercase} (hostname : string) : string :=
  replace_char dash "_" (replace_char dot "_" (to_lowercase hostname)).

(** ** [IsolateVfs] *)

Section isolate.
Context {B : Type} `{VfsBackend B}.

Definition prefix_namespace (ns path : string) : VfsResult VfsPath :=
  let? p := new path in
  let prefixed := if is_empty ns then as_str p else ns +:+ ("::" +:+ as_str p) in
  new prefixed.

Definition iv_read (ns : string) (b : B) (path : string) : VfsResult (list Z) :=
  let? storage_path := prefix_namespace ns path in bk_read b storage_path.

Definition iv_write (now : Z) (ns : string) (b : B) (path : string) (c : list Z)
    : outcome (B * VfsResult unit) :=
  match prefix_namespace ns path with
  | Ok storage_path => bk_write now b storage_path c
  | Err e => Done (b, Err e)
  end.

Definition iv_exists (ns : string) (b : B) (path : string) : VfsResult bool :=
  let? storage_path := prefix_namespace ns path in bk_exists b storage_path.

Definition iv_delete (ns : string) (b : B) (path : string) : B * VfsResult unit :=
  match prefix_namespace ns path with
  | Ok storage_path => bk_delete b storage_path
  | Err e => (b, Err e)
  end.

Definition iv_metadata (ns : string) (b : B) (path : string) : VfsResult VfsFile :=
  let? storage_path := prefix_namespace ns path in bk_metadata b storage_path.

Definition iv_list_dir (ns : string) (b : B) (path : string)
    : outcome (VfsResult (list VfsPath)) :=
  match prefix_namespace ns path with
  | Ok storage_path => bk_list_dir b storage_path
  | Err e => Done (Err e)
  end.
End isolate.

(** ** [security::PathValidator] *)

Record PathValidator := mkValidator { max_path_length : Z }.

Definition default_validator : PathValidator := mkValidator MAX_PATH_LENGTH.

Definition validate (v : PathValidator) (path : string) : VfsResult unit :=
  if slen path >? max_path_length v then
    Err (InvalidPath path ("Path exceeds max length: " +:+ pretty (max_path_length v)))
  else if contains_char nul path then
    Err (InvalidPath path "Path contains null bytes")
  else if existsb (String.eqb "..") (split slash path) then
    Err (InvalidPath path "Path contains '..' which is not allowed")
  else Ok tt.

(** ** [security::ResourceLimiter] *)

Record ResourceLimiter := mkLimiter {
  rl_limits : ResourceLimits;
  rl_total_bytes : Z;
  rl_file_count : Z;
}.

Definition limiter_new (l : ResourceLimits) : ResourceLimiter := mkLimiter l 0 0.

Definition check_write (r : ResourceLimiter) (size : Z) (is_new_file : bool) : VfsResult unit :=
  let max_file_size := as_u64 (file_size_bytes_max (rl_limits r)) in
  let max_file_count := as_u64 (files_count_max (rl_limits r)) in
  if size >? max_file_size then
    Err (QuotaExceeded "file_size" (file_size_bytes_max (rl_limits r)) (as_u32 size))
  else if is_new_file && (rl_file_count r >=? max_file_count) then
    Err (QuotaExceeded "file_count" (files_count_max (rl_limits r)) (as_u32 (rl_file_count r)))
  else Ok tt.

Definition check_total_storage (r : ResourceLimiter) (size_delta current_total : Z)
    : VfsResult unit :=
  let max_total_storage := as_u64 (total_storage_bytes_max (rl_limits r)) in
  let new_total := as_u64 (add_i64 (as_i64 current_total) size_delta) in
  if new_total >? max_total_storage then
    Err (QuotaExceeded "total_storage" (total_storage_bytes_max (rl_limits r))
           (as_u32 current_total))
  else Ok tt.

Definition record_create (r : ResourceLimiter) (size : Z) : ResourceLimiter :=
  mkLimiter (rl_limits r) (add_u64 (rl_total_bytes r) size) (add_u64 (rl_file_count r) 1).

Definition record_delete (r : ResourceLimiter) (size : Z) : ResourceLimiter :=
  mkLimiter (rl_limits r) (sub_u64 (rl_total_bytes r) size) (sub_u64 (rl_file_count r) 1).

Definition record_update (r : ResourceLimiter) (old_size new_size : Z) : ResourceLimiter :=
  let delta := sub_i64 (as_i64 new_size) (as_i64 old_size) in
  let total' :=
    if delta >? 0 then add_u64 (rl_total_bytes r) (as_u64 delta)
    else if delta <? 0 then sub_u64 (rl_total_bytes r) (as_u64 (- delta))
    else rl_total_bytes r in
  mkLimiter (rl_limits r) total' (rl_file_count r).

Definition limiter_usage (r : ResourceLimiter) : Z * Z := (rl_file_count r, rl_total_bytes r).

(** ** [FileSystem] *)

Section filesystem.
Context {B : Type} `{VfsBackend B}.

Record FileSystem := mkFs {
  fs_namespace : option string;
  fs_validator : PathValidator;
}.

Definition fs_new : FileSystem := mkFs None default_validator.
Definition fs_with_namespace (ns : string) : FileSystem := mkFs (Some ns) default_validator.
Definition fs_with_validator (fs : FileSystem) (v : PathValidator) : FileSystem :=
  mkFs (fs_namespace fs) v.

Definition validate_and_normalize (fs : FileSystem) (path : string) : VfsResult VfsPath :=
  let? _ := validate (fs_validator fs) path in new path.

(** [VfsPath::new(prefixed).unwrap_or(path)] *)
Definition fs_prefix_namespace (fs : FileSystem) (p : VfsPath) : VfsPath :=
  match fs_namespace fs with
  | Some ns => match new (ns +:+ ("::" +:+ as_str p)) with Ok q => q | Err _ => p end
  | None => p
  end.

Definition fs_read (fs : FileSystem) (b : B) (path : string) : VfsResult (list Z) :=
  let? p := validate_and_normalize fs path in bk_read b (fs_prefix_namespace fs p).

Definition fs_write (now : Z) (fs : FileSystem) (b : B) (path : string) (c : list Z)
    : outcome (B * VfsResult unit) :=
  match validate_and_normalize fs path with
  | Ok p => bk_write now b (fs_prefix_namespace fs p) c
  | Err e => Done (b, Err e)
  end.

Definition fs_exists (fs : FileSystem) (b : B) (path : string) : VfsResult bool :=
  let? p := validate_and_normalize fs path in bk_exists b (fs_prefix_namespace fs p).

Definition fs_delete (fs : FileSystem) (b : B) (path : string) : B * VfsResult unit :=
  match validate_and_normalize fs path with
  | Ok p => bk_delete b (fs_prefix_namespace fs p)
  | Err e => (b, Err e)
  end.

Definition fs_metadata (fs : FileSystem) (b : B) (path : string) : VfsResult VfsFile :=
  let? p := validate_and_normalize fs path in bk_metadata b (fs_prefix_namespace fs p).
End filesystem.

(** ** Lemmas *)

(** A namespace a hostname label set can produce: non-empty, no ':' and no '/'. *)
Record good_ns (ns : string) : Prop := {
  ns_nonempty : ns ≠ "";
  ns_colon : contains_char colon ns = false;
  ns_slash : contains_char slash ns = false;
  ns_nul : contains_char nul ns = false;
}.

Lemma split_ns ns s :
  good_ns ns →
  ∃ w ws, split slash s = w :: ws ∧
    split slash (ns +:+ ("::" +:+ s)) = (ns +:+ ("::" +:+ w)) :: ws.
Proof.
  intros Hns. destruct (split_cons_ne slash s) as (w & ws & Hs). exists w, ws. split; [done|].
  apply split_app_head; [|apply ns_slash; done].
  change ("::" +:+ w) with (String colon (String colon w)).
  change ("::" +:+ s) with (String colon (String colon s)). simpl. by rewrite Hs.
Qed.

Lemma ns_path_wf ns p :
  good_ns ns → wf_path p →
  slen (ns +:+ ("::" +:+ as_str p)) ≤ MAX_PATH_LENGTH →
  wf_path (mkVfsPath (ns +:+ ("::" +:+ as_str p))).
Proof.
  intros Hns [Hl Hn Hs] Hlen. split; simpl; [done| |].
  - rewrite !contains_char_app, Hn. by rewrite (ns_nul _ Hns).
  - destruct (split_ns ns (as_str p) Hns) as (w & ws & Hw & Hsp).
    unfold segments in *; simpl. rewrite Hsp. rewrite Hw in Hs. inversion Hs; subst.
    constructor; [|done]. destruct ns as [|a ns]; [by destruct (ns_nonempty _ Hns)|].
    split; [done|]. rewrite str_app_cons. intros [= -> Hns2].
    destruct ns as [|b ns]; [done|]. rewrite str_app_cons in Hns2. injection Hns2 as _ Hns2.
    by destruct ns.
Qed.

Lemma new_ns ns p :
  good_ns ns → wf_path p →
  new (ns +:+ ("::" +:+ as_str p)) =
  if slen (ns +:+ ("::" +:+ as_str p)) >? MAX_PATH_LENGTH then
    Err (InvalidPath (ns +:+ ("::" +:+ as_str p))
           ("Path exceeds maximum length of " +:+ (pretty MAX_PATH_LENGTH +:+ " bytes")))
  else Ok (mkVfsPath (ns +:+ ("::" +:+ as_str p))).
Proof.
  intros Hns Hp. destruct (slen _ >? MAX_PATH_LENGTH) eqn:Hl.
  - unfold new. by rewrite Hl.
  - rewrite Z.gtb_ltb in Hl. zreflect.
    exact (new_wf_id (mkVfsPath _) (ns_path_wf ns p Hns Hp Hl)).
Qed.

Lemma prefix_namespace_ok ns path q :
  good_ns ns → prefix_namespace ns path = Ok q →
  ∃ p, new path = Ok p ∧ as_str q = ns +:+ ("::" +:+ as_str p) ∧ wf_path q.
Proof.
  intros Hns. unfold prefix_namespace. destruct (new path) as [p|] eqn:Hp; [|done]. simpl.
  rewrite (proj2 (is_empty_false ns)) by (by apply ns_nonempty). intros Hq.
  pose proof (new_wf _ _ Hq) as Hwq.
  rewrite new_ns in Hq by (try done; exact (new_wf _ _ Hp)).
  destruct (_ >? _); [done|]. injection Hq as <-. by exists p.
Qed.

(** Two namespaces never reach the same storage path. *)
Lemma storage_path_injective ns1 ns2 path1 path2 q1 q2 :
  good_ns ns1 → good_ns ns2 →
  prefix_namespace ns1 path1 = Ok q1 → prefix_namespace ns2 path2 = Ok q2 →
  as_str q1 = as_str q2 → ns1 = ns2 ∧ new path1 = new path2.
Proof.
  intros Hn1 Hn2 H1 H2 Heq.
  destruct (prefix_namespace_ok _ _ _ Hn1 H1) as (p1 & Hp1 & Hq1 & _).
  destruct (prefix_namespace_ok _ _ _ Hn2 H2) as (p2 & Hp2 & Hq2 & _).
  rewrite Hq1, Hq2 in Heq.
  apply (str_app_sep_inj colon) in Heq as [-> Heq];
    [|by apply ns_colon|by apply ns_colon].
  split; [done|]. injection Heq as Heq. rewrite Hp1, Hp2. f_equal. by apply wf_ext.
Qed.

Lemma validate_spec v path :
  is_ok (validate v path) = true ↔
  slen path ≤ max_path_length v ∧ contains_char nul path = false ∧ ".." ∉ split slash path.
Proof.
  unfold validate. rewrite Z.gtb_ltb, existsb_eqb.
  destruct (_ <? _) eqn:Hl; zreflect; [simpl; split; [done|lia]|].
  destruct (contains_char nul path); [naive_solver|].
  case_bool_decide; naive_solver.
Qed.

(** A program of an isolate: the calls it makes through its namespace. *)
Inductive vfs_call :=
| VWrite (now : Z) (path : string) (c : list Z)
| VDelete (path : string).

Section isolation.
Context {B : Type} `{VfsBackendLaws B}.

Definition run_call (ns : string) (b : B) (c : vfs_call) : outcome B :=
  match c with
  | VWrite now path bytes => let! br := iv_write now ns b path bytes in Done (fst br)
  | VDelete path => Done (fst (iv_delete ns b path))
  end.

Fixpoint run_calls (ns : string) (b : B) (cs : list vfs_call) : outcome B :=
  match cs with
  | [] => Done b
  | c :: cs' => let! b' := run_call ns b c in run_calls ns b' cs'
  end.

(** One call changes at most one storage path, and that path is of its namespace. *)
Lemma run_call_frame ns b c :
  bk_inv b → good_ns ns →
  ∃ b', run_call ns b c = Done b' ∧ bk_inv b' ∧
    ∀ ns2 path q, good_ns ns2 → ns2 ≠ ns → prefix_namespace ns2 path = Ok q →
      bk_view b' !! as_str q = bk_view b !! as_str q.
Proof.
  intros Hi Hns. destruct c as [now path c|path]; simpl; unfold iv_write, iv_delete;
    destruct (prefix_namespace ns path) as [q0|] eqn:Hq0; try (by exists b).
  all: assert (Hwq : wf_path q0)
         by (by destruct (prefix_namespace_ok _ _ _ Hns Hq0) as (? & _ & _ & ?)).
  - destruct (run_op_frame b (BkWrite now q0 c) Hi Hwq) as (b' & Hr & Hi' & Hf).
    simpl in Hr. exists b'. split; [done|]. split; [done|].
    intros ns2 path2 q Hns2 Hne Hq. apply Hf. simpl. intros Heq.
    by destruct (storage_path_injective _ _ _ _ _ _ Hns2 Hns Hq Hq0 Heq).
  - destruct (run_op_frame b (BkDelete q0) Hi Hwq) as (b' & Hr & Hi' & Hf).
    simpl in Hr. exists b'. split; [done|]. split; [done|].
    intros ns2 path2 q Hns2 Hne Hq. apply Hf. simpl. intros Heq.
    by destruct (storage_path_injective _ _ _ _ _ _ Hns2 Hns Hq Hq0 Heq).
Qed.

Lemma run_calls_frame ns cs b :
  bk_inv b → good_ns ns →
  ∃ b', run_calls ns b cs = Done b' ∧ bk_inv b' ∧
    ∀ ns2 path q, good_ns ns2 → ns2 ≠ ns → prefix_namespace ns2 path = Ok q →
      bk_view b' !! as_str q = bk_view b !! as_str q.
Proof.
  intros Hi Hns. revert b Hi. induction cs as [|c cs IH]; intros b Hi; [by exists b|].
  destruct (run_call_frame ns b c Hi Hns) as (b1 & Hr1 & Hi1 & Hf1).
  destruct (IH b1 Hi1) as (b2 & Hr2 & Hi2 & Hf2).
  exists b2. simpl. rewrite Hr1. simpl. split; [done|]. split; [done|].
  intros ns2 path q Hns2 Hne Hq. rewrite (Hf2 _ _ _ Hns2 Hne Hq). by apply (Hf1 ns2 path).
Qed.
End isolation.

Lemma good_ns_dec ns :
  negb (is_empty ns) && negb (contains_char colon ns) && negb (contains_char slash ns)
    && negb (contains_char nul ns) = true → good_ns ns.
Proof. intros H. bool_split. by split; [apply is_empty_false|..]. Qed.

(** The default validator lets every well-formed path through. *)
Lemma validate_acceptable path p :
  new path = Ok p → validate_and_normalize fs_new path = Ok p.
Proof.
  intros Hn. pose proof Hn as [(Hl & Hnu & Hd & _) _]%new_inv.
  assert (Hv : is_ok (validate default_validator path) = true) by by apply validate_spec.
  unfold validate_and_normalize. simpl. apply is_ok_true in Hv as [u Hu]. by rewrite Hu.
Qed.

Lemma validate_wf p : wf_path p → validate_and_normalize fs_new (as_str p) = Ok p.
Proof. intros Hw. by apply validate_acceptable, new_wf_id. Qed.

(** A run of one character, for paths of a given length. *)
Fixpoint run_of (s : string) (n : nat) : string :=
  match n with O => "" | S n' => String (ch s) (run_of s n') end.

Lemma slen_run_of s n : slen (run_of s n) = Z.of_nat n.
Proof. unfold slen. f_equal. induction n; simpl; congruence. Qed.

Lemma contains_run_of c s n : ch s ≠ c → contains_char c (run_of s n) = false.
Proof.
  intros Hc. induction n; simpl; [done|]. rewrite IHn, orb_false_r. by apply char_eqb_neq.
Qed.

Lemma long_path_exists n :
  2 < n → n ≤ MAX_PATH_LENGTH → ∃ p, wf_path p ∧ slen (as_str p) = n.
Proof.
  intros Hn Hl. exists (mkVfsPath (run_of "a" (Z.to_nat n))).
  assert (Hlen : slen (run_of "a" (Z.to_nat n)) = n) by (rewrite slen_run_of; lia).
  split; [|exact Hlen]. split; cbn [as_str].
  - by rewrite Hlen.
  - by apply contains_run_of.
  - unfold segments. cbn [as_str]. rewrite split_one by by apply contains_run_of.
    constructor; [|constructor]. split; intros He; rewrite He in Hlen; cbv in Hlen; lia.
Qed.

Lemma write_empty_default now p c :
  len c ≤ 1000 →
  write now (with_limits default_limits) p c =
  Done (write_result now (with_limits default_limits) p c, Ok tt).
Proof.
  intros Hc. rewrite write_spec.
  - unfold write_refusal, old_len. simpl. rewrite lookup_empty. simpl.
    rewrite !(proj2 (Z.ltb_ge _ _)) by (simpl; lia). done.
  - apply with_limits_inv. repeat split; vm_compute; congruence.
Qed.

(** ** Properties *)

(** C1. Tenant isolation, for any backend with the interface's laws: whatever sequence
    of writes and deletes one isolate makes, with any path strings, it never panics,
    and every read and existence test of an isolate with another namespace returns
    what it returned before. *)
Theorem isolate_noninterference {B} `{VfsBackendLaws B} (ns1 ns2 : string) (b : B)
    (cs : list vfs_call) (path : string)
    (Hi : bk_inv b) (H1 : good_ns ns1) (H2 : good_ns ns2) (Hne : ns2 ≠ ns1) :
  ∃ b', run_calls ns1 b cs = Done b' ∧ bk_inv b' ∧
    iv_read ns2 b' path = iv_read ns2 b path ∧
    iv_exists ns2 b' path = iv_exists ns2 b path.
Proof.
  destruct (run_calls_frame ns1 cs b Hi H1) as (b' & Hr & Hi' & Hf).
  exists b'. split; [done|]. split; [done|]. unfold iv_read, iv_exists.
  destruct (prefix_namespace ns2 path) as [q|] eqn:Hq; [|done]. simpl.
  rewrite !bk_read_view, !bk_exists_view by done.
  by rewrite (Hf ns2 path q H2 Hne Hq).
Qed.

Lemma isolate_noninterference_witness :
  good_ns "app1_com" ∧ good_ns "app2_com" ∧
  ∃ b', run_calls "app1_com" (with_limits test_limits)
          [VWrite 1 "/data/x.txt" [1]; VWrite 2 "app2_com::data/x.txt" [9]; VDelete "../x"] = Done b' ∧
    mem_inv b' ∧
    iv_read "app2_com" b' "data/x.txt" = iv_read "app2_com" (with_limits test_limits) "data/x.txt" ∧
    iv_exists "app2_com" b' "data/x.txt" = iv_exists "app2_com" (with_limits test_limits) "data/x.txt".
Proof.
  assert (G1 : good_ns "app1_com") by (apply good_ns_dec; reflexivity).
  assert (G2 : good_ns "app2_com") by (apply good_ns_dec; reflexivity).
  split; [exact G1|]. split; [exact G2|].
  refine (isolate_noninterference (B := MemoryBackend) "app1_com" "app2_com"
            (with_limits test_limits) _ "data/x.txt" _ G1 G2 ltac:(discriminate)).
  apply with_limits_inv. repeat split; vm_compute; congruence.
Defined.

(** Round trip within a namespace: a write that is accepted is read back, by any
    spelling of the path with the same normal form, and a write that is refused
    (invalid path or quota) leaves every read unchanged. *)
Theorem isolate_read_after_write {B} `{VfsBackendLaws B} (now : Z) (ns : string) (b : B)
    (path path' : string) (c : list Z)
    (Hi : bk_inv b) (Hns : good_ns ns) (Hsame : new path' = new path) :
  ∃ b' r, iv_write now ns b path c = Done (b', r) ∧ bk_inv b' ∧
  match r with
  | Ok _ => iv_read ns b' path' = Ok c
  | Err _ => ∀ ns2 p2, iv_read ns2 b' p2 = iv_read ns2 b p2
  end.
Proof.
  unfold iv_write, iv_read.
  assert (Hp : prefix_namespace ns path' = prefix_namespace ns path
               ∨ ∃ e, prefix_namespace ns path = Err e).
  { unfold prefix_namespace. rewrite Hsame. by left. }
  destruct (prefix_namespace ns path) as [q|e] eqn:Hq; [|by exists b, (Err e)].
  destruct Hp as [Hp|[? ?]]; [|done]. rewrite Hp.
  assert (Hwq : wf_path q) by (by destruct (prefix_namespace_ok _ _ _ Hns Hq) as (? & _ & _ & ?)).
  destruct (bk_write_view now b q c Hi Hwq) as (b' & r & Hw & Hi' & Hv).
  exists b', r. split; [done|]. split; [done|]. destruct r.
  - simpl. by rewrite bk_read_view, Hv, lookup_insert_eq.
  - intros ns2 p2. destruct (prefix_namespace ns2 p2); [|done]. simpl.
    by rewrite !bk_read_view, Hv.
Qed.

Lemma isolate_read_after_write_witness :
  new "//a//b.txt" = new "a/b.txt/" ∧
  ∃ b' r, iv_write 3 "app_com" (with_limits test_limits) "a/b.txt/" [5; 6] = Done (b', r) ∧
    mem_inv b' ∧
    match r with
    | Ok _ => iv_read "app_com" b' "//a//b.txt" = Ok [5; 6]
    | Err _ => ∀ ns2 p2, iv_read ns2 b' p2 = iv_read ns2 (with_limits test_limits) p2
    end.
Proof.
  assert (Hs : new "//a//b.txt" = new "a/b.txt/") by (vm_compute; reflexivity).
  split; [exact Hs|].
  refine (isolate_read_after_write (B := MemoryBackend) 3 "app_com" (with_limits test_limits)
            "a/b.txt/" "//a//b.txt" [5; 6] _ _ Hs).
  - apply with_limits_inv. repeat split; vm_compute; congruence.
  - apply good_ns_dec; reflexivity.
Defined.

(** The namespace of a hostname is not injective: the valid hostnames "my-app.com"
    and "my.app.com" are sanitized to the same namespace, so a file one tenant writes
    is read by the other on a shared backend. *)
Theorem hostname_collision `{Lowercase} :
  from_hostname "my-app.com" = from_hostname "my.app.com" ∧
  ∃ b', iv_write 1 (from_hostname "my-app.com") (with_limits default_limits) "secret.txt" [42]
          = Done (b', Ok tt) ∧
        iv_read (from_hostname "my.app.com") b' "secret.txt" = Ok [42].
Proof.
  unfold from_hostname. rewrite !to_lowercase_ascii by reflexivity.
  split; [reflexivity|]. eexists. split; vm_compute; reflexivity.
Qed.

(** [FileSystem] with a namespace: the storage path is "ns::path" while that fits in
    4096 bytes; past that length the fallback [unwrap_or(path)] stores under the bare
    path, so two different namespaces meet there and one reads what the other wrote. *)
Theorem filesystem_namespace_escape :
  (∀ ns p, good_ns ns → wf_path p →
     fs_prefix_namespace (fs_with_namespace ns) p =
     if slen ns + 2 + slen (as_str p) <=? MAX_PATH_LENGTH
     then mkVfsPath (ns +:+ ("::" +:+ as_str p)) else p) ∧
  ∃ path b', fs_write 1 (fs_with_namespace "app1") (with_limits default_limits) path [42]
               = Done (b', Ok tt) ∧
             fs_read (fs_with_namespace "app2") b' path = Ok [42].
Proof.
  split.
  - intros ns p Hns Hp. unfold fs_prefix_namespace. simpl.
    rewrite new_ns by done. rewrite !slen_app. change (slen "::") with 2.
    rewrite Z.gtb_ltb, Z.add_assoc.
    destruct (Z.ltb_spec MAX_PATH_LENGTH (slen ns + 2 + slen (as_str p))),
      (Z.leb_spec (slen ns + 2 + slen (as_str p)) MAX_PATH_LENGTH); try lia; done.
  - destruct (long_path_exists 4095) as (p & Hw & Hlp); [lia|unfold MAX_PATH_LENGTH; lia|].
    assert (Hlong : ∀ ns, ns = "app1" ∨ ns = "app2" → fs_prefix_namespace (fs_with_namespace ns) p = p).
    { intros ns Hns. unfold fs_prefix_namespace. simpl.
      assert (Hg : good_ns ns) by (destruct Hns; subst; apply good_ns_dec; reflexivity).
      rewrite new_ns by done. rewrite !slen_app, Hlp.
      by destruct Hns as [-> | ->]. }
    assert (Hv : validate_and_normalize fs_new (as_str p) = Ok p) by by apply validate_wf.
    exists (as_str p). eexists. unfold fs_write, fs_read.
    change (validate_and_normalize (fs_with_namespace ?n)) with (validate_and_normalize fs_new).
    rewrite Hv. cbn [result_bind]. rewrite !Hlong by auto. split; [apply write_empty_default; vm_compute; congruence|].
    simpl bk_read. by rewrite read_view, write_result_view, lookup_insert_eq.
Qed.

(** Defence in depth is consistent: with the default validator, the strict first pass
    never changes the outcome of a path that [VfsPath::new] accepts, and every path it
    lets through satisfies the path invariant; the validator accepts exactly the
    bounded strings without NUL and without a ".." component. *)
Theorem validator_exact (v : PathValidator) (path : string) (p : VfsPath) :
  (is_ok (validate v path) = true ↔
     slen path ≤ max_path_length v ∧ contains_char nul path = false ∧ ".." ∉ split slash path) ∧
  (validate_and_normalize fs_new path = Ok p ↔ new path = Ok p).
Proof.
  split; [apply validate_spec|]. unfold validate_and_normalize. simpl.
  split.
  - intros (u & _ & Hn)%result_bind_ok. done.
  - apply validate_acceptable.
Qed.

(** [check_total_storage] with a 64-bit total and delta whose sum does not overflow
    i64: accepted exactly when 0 <= total + delta <= limit; a delta that would make the
    total negative is refused, because the cast to usize wraps it to a huge value. *)
Theorem check_total_storage_exact (r : ResourceLimiter) (delta current : Z)
    (Hl : limits_ok (rl_limits r)) (Hc : 0 ≤ current < two63)
    (Hd : - two63 ≤ current + delta < two63) :
  is_ok (check_total_storage r delta current) = true ↔
  0 ≤ current + delta ≤ total_storage_bytes_max (rl_limits r).
Proof.
  destruct Hl as (_ & Ht & _). unfold check_total_storage, add_i64.
  rewrite (as_i64_small current) by zlia. rewrite as_i64_small by zlia.
  rewrite (as_u64_small (total_storage_bytes_max _)) by zlia. rewrite Z.gtb_ltb.
  unfold as_u64. destruct (decide (0 ≤ current + delta)).
  - rewrite Z.mod_small by zlia.
    destruct (Z.ltb_spec (total_storage_bytes_max (rl_limits r)) (current + delta)); simpl;
      split; (done || lia).
  - assert ((current + delta) mod two64 = current + delta + two64) as ->.
    { symmetry. apply (Z.mod_unique_pos _ _ (-1)); zlia. }
    rewrite (proj2 (Z.ltb_lt _ _)) by zlia. simpl. split; [done|lia].
Qed.

Lemma check_total_storage_exact_witness :
  limits_ok test_limits ∧ 0 ≤ 100 < two63 ∧ - two63 ≤ 100 + 400 < two63 ∧
  (is_ok (check_total_storage (limiter_new test_limits) 400 100) = true ↔ 0 ≤ 100 + 400 ≤ 500).
Proof.
  assert (H : limits_ok test_limits) by (repeat split; vm_compute; congruence).
  split; [exact H|]. split; [zlia|]. split; [zlia|].
  exact (check_total_storage_exact (limiter_new test_limits) 400 100 H ltac:(zlia) ltac:(zlia)).
Defined.
