(* ===== verification/RustList.v ===== *)
(** * Vectors, hash maps and clocks of the Rust standard library

    [sort_by_key] (a stable sort), [Vec::truncate], the iteration order of
    [HashMap] (unspecified: a class that only promises a permutation of the
    entries), the default hasher, [Instant] and [Duration] in nanoseconds, and
    the printing of integers in base sixteen. *)

From stdpp Require Import base gmap list strings sorting.
From Stdlib Require Import Ascii ZArith Lia.
From S2P Require Import Prelude RustString.

Open Scope Z_scope.

(** ** [sort_by_key] *)

Section sort.
Context {A : Type} (key : A → Z).

(** Insert before the first element whose key is at least as large: the sort
    built from it keeps equal elements in their order. *)
Fixpoint insert_by (x : A) (l : list A) : list A :=
  match l with
  | [] => [x]
  | y :: l' => if key x <=? key y then x :: l else y :: insert_by x l'
  end.

Definition sort_by_key (l : list A) : list A := foldr insert_by [] l.

Definition key_le (x y : A) : Prop := key x ≤ key y.

Lemma insert_by_perm x l : insert_by x l ≡ₚ x :: l.
Proof.
  induction l as [|y l IH]; simpl; [done|]. destruct (key x <=? key y); [done|].
  rewrite IH. constructor.
Qed.

Lemma sort_by_key_perm l : sort_by_key l ≡ₚ l.
Proof. induction l as [|x l IH]; simpl; [done|]. by rewrite insert_by_perm, IH. Qed.

Lemma insert_by_sorted x l :
  StronglySorted key_le l → StronglySorted key_le (insert_by x l).
Proof.
  induction 1 as [|y l Hs IH Hy]; simpl; [repeat constructor|].
  destruct (key x <=? key y) eqn:E; zreflect.
  - constructor; [by constructor|]. constructor; [done|].
    eapply Forall_impl; [exact Hy|]. unfold key_le. simpl. lia.
  - constructor; [done|]. rewrite insert_by_perm. constructor; [unfold key_le; lia|done].
Qed.

Lemma sort_by_key_sorted l : StronglySorted key_le (sort_by_key l).
Proof. induction l; simpl; [constructor|]. by apply insert_by_sorted. Qed.

(** Stability: the elements of one key keep their order. *)
Lemma insert_by_stable k x l :
  base.filter (λ y, key y = k) (insert_by x l) = base.filter (λ y, key y = k) (x :: l).
Proof.
  induction l as [|y l IH]; simpl; [done|]. destruct (key x <=? key y) eqn:E; [done|].
  zreflect. rewrite !filter_cons in *. rewrite IH.
  destruct (decide (key y = k)), (decide (key x = k)); try done. lia.
Qed.

Lemma sort_by_key_stable k l :
  base.filter (λ y, key y = k) (sort_by_key l) = base.filter (λ y, key y = k) l.
Proof.
  induction l as [|x l IH]; [done|]. simpl sort_by_key. rewrite insert_by_stable.
  rewrite !filter_cons. by rewrite IH.
Qed.

(** What [truncate] keeps of a sorted vector is minimal. *)
Lemma sorted_take_drop n l x y :
  StronglySorted key_le l → x ∈ take n l → y ∈ drop n l → key x ≤ key y.
Proof.
  intros Hs. revert n. induction Hs as [|z l Hs IH Hz]; intros n Hx Hy.
  - rewrite take_nil in Hx. by apply elem_of_nil in Hx.
  - destruct n as [|n]; simpl in *; [by apply elem_of_nil in Hx|].
    apply elem_of_cons in Hx as [->|Hx]; [|eauto].
    rewrite Forall_forall in Hz. apply Hz.
    rewrite <-(take_drop n l). apply elem_of_app. by right.
Qed.
End sort.

(** ** Iteration over a [HashMap] and its hasher *)

(** The order is unspecified and differs between processes. *)
Class HashOrder (A : Type) := {
  hash_iter : gmap string A → list (string * A);
  hash_iter_perm m : hash_iter m ≡ₚ map_to_list m;
}.

(** The order of the model's own maps, for evaluation. *)
Definition plain_order {A} : HashOrder A := {|
  hash_iter := map_to_list;
  hash_iter_perm m := Permutation_refl (map_to_list m);
|}.

Lemma elem_of_filter_b {B} (f : B → bool) l x : x ∈ List.filter f l ↔ x ∈ l ∧ f x = true.
Proof. rewrite !list_elem_of_In. apply filter_In. Qed.

Lemma NoDup_fst_filter {B} (f : string * B → bool) (l : list (string * B)) :
  NoDup l.*1 → NoDup (List.filter f l).*1.
Proof.
  induction l as [|[k x] l IH]; simpl; [constructor|]. intros [Hn H]%NoDup_cons.
  destruct (f (k, x)); simpl; [|by apply IH]. constructor; [|by apply IH].
  intros ([k' x'] & E & Hx)%list_elem_of_fmap. simpl in E. subst k'. apply Hn.
  apply list_elem_of_fmap. exists (k, x'). split; [done|]. by apply elem_of_filter_b in Hx as [Hx _].
Qed.

Section iter.
Context {A : Type} `{HashOrder A}.

Lemma elem_of_hash_iter (m : gmap string A) k x : (k, x) ∈ hash_iter m ↔ m !! k = Some x.
Proof. by rewrite hash_iter_perm, elem_of_map_to_list. Qed.

Lemma NoDup_hash_iter (m : gmap string A) : NoDup (hash_iter m).*1.
Proof. rewrite hash_iter_perm. apply NoDup_fst_map_to_list. Qed.
End iter.

(** The [u64] hashes [DefaultHasher] computes of a string and of an [Instant]:
    only their being functions of the value is used. *)
Class DefaultHasher := {
  hash_str : string → Z;
  hash_instant : Z → Z;
}.

(** ** [Instant] and [Duration], in nanoseconds *)

Definition nanos_per_sec : Z := 1000000000.
Definition nanos_per_milli : Z := 1000000.

(** [Instant::duration_since]/[elapsed] saturate at zero. *)
Definition elapsed (since now : Z) : Z := Z.max 0 (now - since).
Definition as_secs (d : Z) : Z := d / nanos_per_sec.
Definition from_secs (s : Z) : Z := s * nanos_per_sec.
(** [as_millis] gives a [u128]. *)
Definition as_millis (d : Z) : Z := d / nanos_per_milli.
Definition from_millis (s : Z) : Z := s * nanos_per_milli.

Lemma elapsed_nonneg s n : 0 ≤ elapsed s n.
Proof. unfold elapsed. lia. Qed.

(** ** Integers in base sixteen: the [{:08x}] of [format!] *)

Definition hex_digit (d : Z) : ascii :=
  ascii_of_N (Z.to_N (if d <? 10 then 48 + d else 87 + d)).

Definition hex_value (a : ascii) : Z :=
  let n := Z.of_N (N_of_ascii a) in if n <? 58 then n - 48 else n - 87.

(** The digits of [n], most significant first, in front of [acc]; a [u64] has
    at most sixteen. *)
Fixpoint hex_go (fuel : nat) (n : Z) (acc : string) : string :=
  match fuel with
  | O => acc
  | S f =>
    let acc' := String (hex_digit (n mod 16)) acc in
    if n <? 16 then acc' else hex_go f (n / 16) acc'
  end.

Definition lower_hex (n : Z) : string := hex_go 16 n "".

Fixpoint zeros (k : nat) : string :=
  match k with O => "" | S k' => String (ch "0") (zeros k') end.

(** [{:08x}] *)
Definition hex08 (n : Z) : string := zeros (8 - String.length (lower_hex n)) +:+ lower_hex n.

(** Reading the digits back ([u64::from_str_radix(_, 16)]), used to prove the
    printing injective. *)
Fixpoint hex_read (s : string) (acc : Z) : Z :=
  match s with
  | EmptyString => acc
  | String a s' => hex_read s' (16 * acc + hex_value a)
  end.

Lemma hex_value_digit d : 0 ≤ d < 16 → hex_value (hex_digit d) = d.
Proof.
  intros H. assert (d ∈ seqZ 0 16) as Hd by (apply elem_of_seqZ; lia).
  clear H. revert d Hd. apply Forall_forall. vm_compute. repeat constructor.
Qed.

Lemma hex_read_go fuel : ∀ n acc a, 0 ≤ n < 16 ^ Z.of_nat fuel → (0 < fuel)%nat →
  ∃ k, 0 ≤ k ∧ hex_read (hex_go fuel n acc) a = hex_read acc (a * 16 ^ k + n).
Proof.
  induction fuel as [|f IH]; intros n acc a Hn Hf; [lia|]. simpl hex_go.
  pose proof (Z.mod_pos_bound n 16 ltac:(lia)) as Hm.
  destruct (n <? 16) eqn:E; zreflect.
  - exists 1. split; [lia|]. simpl. rewrite hex_value_digit by done. f_equal.
    rewrite Z.mod_small by lia. lia.
  - assert (0 < f)%nat by (destruct f; [simpl in Hn; lia|lia]).
    rewrite Nat2Z.inj_succ, Z.pow_succ_r in Hn by lia.
    destruct (IH (n / 16) (String (hex_digit (n mod 16)) acc) a) as (k & Hk & ->); [|done|].
    { split; [apply Z.div_pos; lia|]. apply Z.div_lt_upper_bound; lia. }
    exists (k + 1). split; [lia|]. simpl. rewrite hex_value_digit by done. f_equal.
    rewrite Z.pow_add_r by lia. pose proof (Z.div_mod n 16). lia.
Qed.

Lemma hex_read_zeros k s : hex_read (zeros k +:+ s) 0 = hex_read s 0.
Proof. induction k as [|k IH]; [done|]. simpl. exact IH. Qed.

Lemma hex_read_hex08 n : in_u64 n → hex_read (hex08 n) 0 = n.
Proof.
  intros Hn. unfold hex08. rewrite hex_read_zeros. unfold lower_hex.
  destruct (hex_read_go 16 n "" 0) as (k & Hk & ->); [|lia|simpl; lia].
  change (16 ^ Z.of_nat 16) with two64. exact Hn.
Qed.

Lemma hex08_inj n m : in_u64 n → in_u64 m → hex08 n = hex08 m → n = m.
Proof. intros Hn Hm E. by rewrite <-(hex_read_hex08 n), <-(hex_read_hex08 m), E. Qed.

#[export] Hint Resolve elapsed_nonneg : nano.
