(* ===== verification/RustFloat.v ===== *)
(** * [f64]: IEEE 754 binary64 through the Standard Library's [spec_float]

    The operations round to nearest even, as the hardware and Rust do; every
    value of the model evaluates. *)

From stdpp Require Import base tactics.
From Stdlib Require Import ZArith Lia SpecFloat.
From S2P Require Import Prelude.

Open Scope Z_scope.

Definition f64 : Type := spec_float.

(** [z as f64] for an integer of at most 64 bits *)
Definition f64_of_Z (z : Z) : f64 := binary_normalize 53 1024 z 0 false.

Definition f64_add : f64 → f64 → f64 := SFadd 53 1024.
Definition f64_sub : f64 → f64 → f64 := SFsub 53 1024.
Definition f64_mul : f64 → f64 → f64 := SFmul 53 1024.
Definition f64_div : f64 → f64 → f64 := SFdiv 53 1024.
Definition f64_lt (x y : f64) : bool := SFltb x y.
Definition f64_le (x y : f64) : bool := SFleb x y.

(** The literal [n / d] of the source, e.g. [0.70] as [7 / 10]: the division of
    two exact values is the nearest [f64], which is what the literal denotes. *)
Definition f64_lit (n d : Z) : f64 := f64_div (f64_of_Z n) (f64_of_Z d).

(** [x as usize]: truncation towards zero, saturating, [NaN] to zero. *)
Definition f64_to_usize (x : f64) : Z :=
  match x with
  | S754_finite false m e => Z.min u64_max (Z.shiftl (Zpos m) e)
  | S754_infinity false => u64_max
  | _ => 0
  end.

(** [Duration::as_secs_f64] *)
Definition as_secs_f64 (nanos : Z) : f64 :=
  f64_add (f64_of_Z (nanos / 1000000000))
          (f64_div (f64_of_Z (nanos mod 1000000000)) (f64_of_Z 1000000000)).

Definition is_nan (x : f64) : bool :=
  match x with S754_nan => true | _ => false end.

(** ** Comparison is a lexicographic order on (class, exponent, mantissa) *)

Definition f64_rank (x : f64) : option (Z * Z * Z) :=
  match x with
  | S754_nan => None
  | S754_infinity true => Some (-2, 0, 0)
  | S754_finite true m e => Some (-1, - e, - Zpos m)
  | S754_zero _ => Some (0, 0, 0)
  | S754_finite false m e => Some (1, e, Zpos m)
  | S754_infinity false => Some (2, 0, 0)
  end.

Definition rank_lt (a b : Z * Z * Z) : Prop :=
  let '(a1, a2, a3) := a in let '(b1, b2, b3) := b in
  a1 < b1 ∨ (a1 = b1 ∧ (a2 < b2 ∨ (a2 = b2 ∧ a3 < b3))).

Ltac f64_cases x y :=
  destruct x as [[]|[]| |[] ? ?], y as [[]|[]| |[] ? ?]; simpl;
  repeat match goal with
  | |- context [match Z.compare ?a ?b with _ => _ end] => destruct (Z.compare a b) eqn:?; simpl
  | |- context [Pos.compare_cont Eq ?a ?b] =>
      change (Pos.compare_cont Eq a b) with (Pos.compare a b); destruct (Pos.compare a b) eqn:?; simpl
  end;
  rewrite ?Z.compare_eq_iff, ?Z.compare_lt_iff, ?Z.compare_gt_iff in *;
  rewrite ?Pos.compare_eq_iff, ?Pos.compare_lt_iff, ?Pos.compare_gt_iff in *.

Lemma f64_lt_rank x y :
  f64_lt x y = true ↔ ∃ a b, f64_rank x = Some a ∧ f64_rank y = Some b ∧ rank_lt a b.
Proof.
  unfold f64_lt, SFltb, SFcompare. f64_cases x y;
    (split; [intros H; try discriminate H; do 2 eexists; (split; [done|]); (split; [done|]); simpl; lia
            |intros (?&?&?&?&Hr); simplify_eq; simpl in Hr; first [done|lia]]).
Qed.

Lemma f64_le_rank x y :
  f64_le x y = true ↔ ∃ a b, f64_rank x = Some a ∧ f64_rank y = Some b ∧ (rank_lt a b ∨ a = b).
Proof.
  unfold f64_le, SFleb, SFcompare. f64_cases x y;
    (split; [intros H; try discriminate H; do 2 eexists; (split; [done|]); (split; [done|]); simpl; simplify_eq;
               first [left; lia|right; congruence]
            |intros (?&?&?&?&[Hr|Hr]); simplify_eq; simpl in *; first [done|lia]]).
Qed.

Lemma rank_lt_trans a b c : rank_lt a b → rank_lt b c → rank_lt a c.
Proof. destruct a as [[? ?] ?], b as [[? ?] ?], c as [[? ?] ?]. simpl. lia. Qed.

Lemma f64_le_lt_trans x y z : f64_le x y = true → f64_lt y z = true → f64_lt x z = true.
Proof.
  rewrite f64_le_rank, !f64_lt_rank. intros (a&b&Ha&Hb&Hab) (b'&c&Hb'&Hc&Hbc).
  simplify_eq. exists a, c. split_and!; [done..|].
  destruct Hab as [Hab| ->]; [by eapply rank_lt_trans|done].
Qed.

Lemma f64_le_trans x y z : f64_le x y = true → f64_le y z = true → f64_le x z = true.
Proof.
  rewrite !f64_le_rank. intros (a&b&Ha&Hb&Hab) (b'&c&Hb'&Hc&Hbc).
  simplify_eq. exists a, c. split_and!; [done..|].
  destruct Hab as [Hab| ->], Hbc as [Hbc| <-]; eauto using rank_lt_trans.
Qed.

Lemma rank_total a b : rank_lt a b ∨ a = b ∨ rank_lt b a.
Proof.
  destruct a as [[a1 a2] a3], b as [[b1 b2] b3]. simpl.
  destruct (Z.lt_trichotomy a1 b1) as [?|[-> |?]]; [lia| |lia].
  destruct (Z.lt_trichotomy a2 b2) as [?|[-> |?]]; [lia| |lia].
  destruct (Z.lt_trichotomy a3 b3) as [?|[-> |?]]; [lia|tauto|lia].
Qed.

(** Two values that are numbers compare one way or the other. *)
Lemma f64_le_total x y : is_nan x = false → is_nan y = false →
  f64_le x y = false → f64_le y x = true.
Proof.
  intros Hx Hy Hf. apply f64_le_rank.
  assert (∀ w, is_nan w = false → is_Some (f64_rank w)) as Hr
    by (intros [[]|[]| |[] ? ?]; simpl; intros; first [discriminate|eauto]).
  destruct (Hr x Hx) as [a Ha], (Hr y Hy) as [b Hb]. exists b, a. split_and!; [done..|].
  destruct (rank_total a b) as [Hab|[->|Hab]]; [|tauto..].
  assert (f64_le x y = true) as Ht by (apply f64_le_rank; eauto 10). congruence.
Qed.

(** ** Integers below 2^53 are exact *)

Lemma digits_iter_xO m k : digits2_pos (Pos.iter xO m k) = (digits2_pos m + k)%positive.
Proof.
  induction k as [|k IH] using Pos.peano_ind; [simpl; lia|].
  rewrite Pos.iter_succ. simpl. rewrite IH. lia.
Qed.

Lemma iter_xO_shift m k : Zpos (Pos.iter xO m k) = Zpos m * 2 ^ Zpos k.
Proof.
  induction k as [|k IH] using Pos.peano_ind; [simpl; lia|].
  rewrite Pos.iter_succ, Pos2Z.inj_succ, Z.pow_succ_r by lia.
  change (Zpos (Pos.iter xO m k)~0) with (2 * Zpos (Pos.iter xO m k)). rewrite IH. lia.
Qed.

Lemma digits_bound p : Zpos p < 2 ^ 53 → (digits2_pos p <= 53)%positive.
Proof.
  intros Hp. change (digits2_pos p) with (Pos.size p). pose proof (Pos.size_le p) as H.
  destruct (Pos.leb_spec (Pos.size p) 53) as [|Hlt]; [done|exfalso].
  apply Pos2Z.pos_le_pos in H. rewrite Pos2Z.inj_pow in H.
  assert (2 ^ 54 <= 2 ^ Zpos (Pos.size p)) as H54 by (apply Z.pow_le_mono_r; lia).
  change (2 ^ 54) with 18014398509481984 in H54. change (2 ^ 53) with 9007199254740992 in Hp. lia.
Qed.

(** A normal number is not rounded again. *)
Lemma round_aux_normal m e : digits2_pos m = 53%positive → -1074 <= e <= 971 →
  binary_round_aux 53 1024 false (Zpos m) e loc_Exact = S754_finite false m e.
Proof.
  intros Hd He.
  assert (shr_fexp 53 1024 (Zpos m) e loc_Exact = (shr_record_of_loc (Zpos m) loc_Exact, e)) as Hs.
  { unfold shr_fexp, Zdigits2, fexp, emin. rewrite Hd.
    by replace (Z.max (53 + e - 53) (3 - 1024 - 53) - e) with 0 by lia. }
  unfold binary_round_aux. rewrite Hs. cbn [shr_record_of_loc shr_m loc_of_shr_record round_nearest_even].
  rewrite Hs. simpl. by rewrite (proj2 (Z.leb_le _ _)) by lia.
Qed.

Lemma f64_of_pos p : Zpos p < 2 ^ 53 →
  ∃ m e, f64_of_Z (Zpos p) = S754_finite false m e ∧ digits2_pos m = 53%positive ∧
    -53 <= e <= 0 ∧ Zpos m = Zpos p * 2 ^ (- e).
Proof.
  intros Hp. pose proof (digits_bound p Hp) as Hd.
  unfold f64_of_Z, binary_normalize, binary_round, shl_align, fexp, emin.
  set (d := digits2_pos p) in *.
  replace (Z.max (Zpos d + 0 - 53) (3 - 1024 - 53) - 0) with (Zpos d - 53) by lia.
  destruct (Zpos d - 53) as [|q|q] eqn:E; [|lia|].
  - exists p, 0. rewrite round_aux_normal; [|unfold d in *; lia|lia]. unfold d in *.
    split; [done|]. split; [lia|]. split; [lia|]. change (2 ^ (- 0)) with 1. lia.
  - exists (Pos.iter xO p q), (Zneg q).
    assert (digits2_pos (Pos.iter xO p q) = 53%positive) as Hdig.
    { rewrite digits_iter_xO. fold d. lia. }
    replace (Z.max (Zpos d + 0 - 53) (3 - 1024 - 53)) with (Zneg q) by lia.
    rewrite round_aux_normal by (done || lia). split; [done|]. split; [done|]. split; [lia|].
    by rewrite iter_xO_shift.
Qed.

Lemma f64_mul_one m e : digits2_pos m = 53%positive → -1000 <= e <= 971 →
  f64_mul (S754_finite false m e) (f64_of_Z 1) = S754_finite false m e.
Proof.
  intros Hd He. change (f64_of_Z 1) with (S754_finite false 4503599627370496 (-52)).
  unfold f64_mul, SFmul. rewrite Pos.mul_comm.
  change (4503599627370496 * m)%positive with (Pos.iter xO m 52). cbn [xorb].
  assert (shr_fexp 53 1024 (Zpos (Pos.iter xO m 52)) (e + -52) loc_Exact =
    (shr_record_of_loc (Zpos m) loc_Exact, e)) as Hs.
  { unfold shr_fexp, Zdigits2, fexp, emin. rewrite digits_iter_xO, Hd.
    replace (Z.max (Z.pos (53 + 52) + (e + -52) - 53) (3 - 1024 - 53) - (e + -52)) with 52 by lia.
    cbn [shr]. replace (e + -52 + 52) with e by lia. reflexivity. }
  unfold binary_round_aux at 1. rewrite Hs.
  cbn [shr_m loc_of_shr_record round_nearest_even].
  pose proof (round_aux_normal m e Hd ltac:(lia)) as Hr. revert Hr.
  unfold binary_round_aux.
  assert (shr_fexp 53 1024 (Zpos m) e loc_Exact = (shr_record_of_loc (Zpos m) loc_Exact, e)) as ->.
  { unfold shr_fexp, Zdigits2, fexp, emin. rewrite Hd.
    by replace (Z.max (53 + e - 53) (3 - 1024 - 53) - e) with 0 by lia. }
  done.
Qed.

Lemma f64_to_usize_mul_one z : 0 <= z < 2 ^ 53 →
  f64_to_usize (f64_mul (f64_of_Z z) (f64_of_Z 1)) = z.
Proof.
  intros [H0 Hz]. destruct z as [|p|p]; [by vm_compute| |lia].
  destruct (f64_of_pos p Hz) as (m & e & -> & Hd & He & Hm). rewrite f64_mul_one by (done || lia).
  unfold f64_to_usize. rewrite Hm. replace e with (- (- e)) at 2 by lia.
  rewrite Z.shiftl_opp_r, Z.shiftr_div_pow2, Z.div_mul by lia.
  change (2 ^ 53) with 9007199254740992 in Hz. zlia.
Qed.

(** ** Division of integers

    Converted back to an integer, the quotient of two integers is exact as long as
    the rounding of the quotient cannot reach the next integer. *)

Lemma digits_pos_range p : 2 ^ (Zpos (digits2_pos p) - 1) <= Zpos p < 2 ^ Zpos (digits2_pos p).
Proof.
  change (digits2_pos p) with (Pos.size p). split.
  - pose proof (Pos.size_le p) as H. apply Pos2Z.pos_le_pos in H. rewrite Pos2Z.inj_pow in H.
    replace (Zpos (Pos.size p)) with (Z.succ (Zpos (Pos.size p) - 1)) in H by lia.
    rewrite Z.pow_succ_r in H by lia. change (Zpos (2 * p)) with (2 * Zpos p) in H. 
    change (Zpos p~0) with (2 * Zpos p) in H. lia.
  - pose proof (Pos.size_gt p) as H. apply Pos2Z.pos_lt_pos in H. by rewrite Pos2Z.inj_pow in H.
Qed.

Lemma digits_pos_unique p k : 2 ^ (k - 1) <= Zpos p < 2 ^ k → Zpos (digits2_pos p) = k.
Proof.
  intros [H1 H2]. destruct (digits_pos_range p) as [H3 H4].
  assert (k - 1 < Zpos (digits2_pos p)) by (apply (Z.pow_lt_mono_r_iff 2); lia).
  assert (Zpos (digits2_pos p) - 1 < k); [|lia].
  destruct (decide (0 <= k)); [apply (Z.pow_lt_mono_r_iff 2); lia|].
  rewrite (Z.pow_neg_r 2 k) in H2 by lia. lia.
Qed.

(** The end of rounding: a mantissa of 2^53 is renormalised. *)
Lemma renormalise M e (HM : 2 ^ 52 <= M <= 2 ^ 53) (He : -1074 <= e <= 900) :
  (let '(mrs, e') := shr_fexp 53 1024 M e loc_Exact in
   match shr_m mrs with
   | Z0 => S754_zero false
   | Zpos m => if e' <=? 971 then S754_finite false m e' else S754_infinity false
   | _ => S754_nan
   end) =
  (if M =? 2 ^ 53 then S754_finite false 4503599627370496 (e + 1) else S754_finite false (Z.to_pos M) e).
Proof.
  destruct (M =? 2 ^ 53) eqn:E; zreflect.
  - subst M. unfold shr_fexp. change (Zdigits2 (2 ^ 53)) with 54. unfold fexp, emin.
    replace (Z.max (54 + e - 53) (3 - 1024 - 53) - e) with 1 by lia. cbn.
    by rewrite (proj2 (Z.leb_le _ _)) by lia.
  - destruct M as [|p|p]; [lia| |lia]. unfold shr_fexp, Zdigits2, fexp, emin.
    rewrite (digits_pos_unique p 53) by (simpl Z.sub; lia).
    replace (Z.max (53 + e - 53) (3 - 1024 - 53) - e) with 0 by lia. simpl.
    by rewrite (proj2 (Z.leb_le _ _)) by lia.
Qed.

Lemma shr_1_half m r s : 0 <= m → shr_m (shr_1 {| shr_m := m; shr_r := r; shr_s := s |}) = m / 2.
Proof.
  intros Hm. destruct m as [|[p|p|]|p]; simpl; try done.
  - apply (Z.div_unique_pos _ 2 _ 1); lia.
  - apply (Z.div_unique_pos _ 2 _ 0); lia.
Qed.

(** Rounding a mantissa of 53 or 54 bits keeps its first 53 bits, or one more. *)
Lemma round_aux_bits q e l (Hq : 2 ^ 52 <= q < 2 ^ 54) (He : -1000 <= e <= 800) :
  ∃ n M, (n = 0 ∨ n = 1) ∧ (M = q / 2 ^ n ∨ M = q / 2 ^ n + 1) ∧ 2 ^ 52 <= M <= 2 ^ 53 ∧
    binary_round_aux 53 1024 false q e l =
      if M =? 2 ^ 53 then S754_finite false 4503599627370496 (e + n + 1)
      else S754_finite false (Z.to_pos M) (e + n).
Proof.
  assert (∀ m x, round_nearest_even m x = m ∨ round_nearest_even m x = m + 1) as Hr.
  { intros m [|[]]; simpl; auto. destruct (Z.even m); auto. }
  set (n := if q <? 2 ^ 53 then 0 else 1).
  assert (∃ mrs, shr_fexp 53 1024 q e l = (mrs, e + n) ∧ shr_m mrs = q / 2 ^ n) as (mrs & Hs & Hm).
  { destruct q as [|p|p]; [lia| |lia]. unfold shr_fexp, Zdigits2, fexp, emin. unfold n. clear n.
    destruct (Zpos p <? 2 ^ 53) eqn:E; zreflect.
    - rewrite (digits_pos_unique p 53) by (simpl Z.sub; lia).
      replace (Z.max (53 + e - 53) (3 - 1024 - 53) - e) with 0 by lia. eexists. rewrite Z.add_0_r.
      split; [done|]. rewrite Z.div_1_r. by destruct l as [|[]].
    - rewrite (digits_pos_unique p 54) by (simpl Z.sub; lia).
      replace (Z.max (54 + e - 53) (3 - 1024 - 53) - e) with 1 by lia. eexists. split; [done|].
      cbn [iter_pos]. change (2 ^ 1) with 2. destruct l as [|[]]; by apply shr_1_half. }
  exists n, (round_nearest_even (shr_m mrs) (loc_of_shr_record mrs)).
  split; [unfold n; case_if; auto|]. split; [rewrite Hm; apply Hr|].
  assert (2 ^ 52 <= q / 2 ^ n < 2 ^ 53) as Hd.
  { unfold n. destruct (q <? 2 ^ 53) eqn:E; zreflect; [rewrite Z.div_1_r; lia|]. change (2 ^ 1) with 2.
    split; [apply Z.div_le_lower_bound; lia|apply Z.div_lt_upper_bound; lia]. }
  split; [destruct (Hr (shr_m mrs) (loc_of_shr_record mrs)) as [-> | ->]; lia|].
  unfold binary_round_aux. rewrite Hs. rewrite <-renormalise; [done| |].
  - destruct (Hr (shr_m mrs) (loc_of_shr_record mrs)) as [-> | ->]; lia.
  - unfold n. case_if; lia.
Qed.

Lemma normal_range m : digits2_pos m = 53%positive → 2 ^ 52 <= Zpos m < 2 ^ 53.
Proof. intros Hd. pose proof (digits_pos_range m) as H. by rewrite Hd in H. Qed.

(** The integer part of [a * 2^K / b], or one more, over [2^K]. *)
Lemma scaled_quotient a b K M : 0 <= a → 0 < b → 0 <= K → 2 * b <= 2 ^ K →
  M = a * 2 ^ K / b ∨ M = a * 2 ^ K / b + 1 → M / 2 ^ K = a / b.
Proof.
  intros Ha Hb HK Hbig HM. pose proof (Z.div_mod a b ltac:(lia)) as Hdm.
  pose proof (Z.mod_pos_bound a b ltac:(lia)) as Hr.
  assert (0 < 2 ^ K) by (apply Z.pow_pos_nonneg; lia).
  set (k := a / b) in *. set (r := a mod b) in *. set (P := 2 ^ K) in *.
  assert (a * P / b = k * P + r * P / b) as HX.
  { replace (a * P) with (k * P * b + r * P) by (rewrite Hdm; ring). by rewrite Z.div_add_l by lia. }
  assert (0 <= r * P / b) by (apply Z.div_pos; nia).
  assert (r * P / b <= P - 2).
  { apply Z.div_le_upper_bound; [lia|]. nia. }
  symmetry. apply (Z.div_unique_pos _ _ _ (M - P * k)); lia.
Qed.

(** [(a as f64 / b as f64) as u64] *)
Lemma f64_div_to_usize a b : 0 <= a < 2 ^ 51 → 0 < b < 2 ^ 53 →
  f64_to_usize (f64_div (f64_of_Z a) (f64_of_Z b)) = a / b.
Proof.
  intros Ha Hb. destruct b as [|b|b]; [lia| |lia]. destruct (f64_of_pos b) as (m2 & e2 & -> & Hd2 & He2 & Hm2); [lia|].
  destruct a as [|a|a]; [done| |lia]. destruct (f64_of_pos a) as (m1 & e1 & -> & Hd1 & He1 & Hm1); [lia|].
  pose proof (normal_range m1 Hd1) as H1. pose proof (normal_range m2 Hd2) as H2.
  assert (e1 <= -2) as Hsmall.
  { destruct (decide (e1 <= -2)); [done|]. assert (e1 = -1 ∨ e1 = 0) as [-> | ->] by lia; simpl in Hm1; lia. }
  unfold f64_div, SFdiv. cbn [xorb].
  assert (SFdiv_core_binary 53 1024 (Zpos m1) e1 (Zpos m2) e2 =
          let '(q, r) := Z.div_eucl (Zpos m1 * 2 ^ 53) (Zpos m2) in
          (q, e1 - e2 - 53, new_location (Zpos m2) r)) as ->.
  { unfold SFdiv_core_binary, Zdigits2, fexp, emin. rewrite Hd1, Hd2.
    replace (Z.min (Z.max (53 + e1 - (53 + e2) - 53) (3 - 1024 - 53)) (e1 - e2)) with (e1 - e2 - 53) by lia.
    replace (e1 - e2 - (e1 - e2 - 53)) with 53 by lia. by rewrite Z.shiftl_mul_pow2. }
  assert (fst (Z.div_eucl (Zpos m1 * 2 ^ 53) (Zpos m2)) = Zpos m1 * 2 ^ 53 / Zpos m2) as Hq by done.
  destruct (Z.div_eucl _ _) as [q r]. simpl in Hq. subst q.
  destruct (round_aux_bits (Zpos m1 * 2 ^ 53 / Zpos m2) (e1 - e2 - 53) (new_location (Zpos m2) r))
    as (n & M & Hn & HM & HMr & ->).
  { split; [apply Z.div_le_lower_bound; lia|apply Z.div_lt_upper_bound; lia]. }
  { lia. }
  set (K := 53 - e1 + e2 - n).
  assert (Zpos m1 * 2 ^ 53 / Zpos m2 / 2 ^ n = Zpos a * 2 ^ K / Zpos b) as HX.
  { rewrite Z.div_div by (try apply Z.pow_pos_nonneg; lia). rewrite Hm1, Hm2, <-!Z.mul_assoc, <-!Z.pow_add_r by lia.
    replace (- e1 + 53) with (K + (- e2 + n)) by lia. rewrite Z.pow_add_r, Z.mul_assoc by lia.
    apply Z.div_mul_cancel_r; [lia|]. apply Z.pow_nonzero; lia. }
  rewrite HX in HM.
  assert (2 * Zpos b <= 2 ^ K) as Hbig.
  { apply (Z.mul_le_mono_pos_r _ _ (2 ^ (- e2))); [apply Z.pow_pos_nonneg; lia|].
    rewrite <-Z.mul_assoc, <-Hm2, <-Z.pow_add_r by lia.
    apply (Z.le_trans _ (2 ^ 54)); [lia|]. apply Z.pow_le_mono_r; lia. }
  pose proof (scaled_quotient (Zpos a) (Zpos b) K M ltac:(lia) ltac:(lia) ltac:(lia) Hbig HM) as Hk.
  assert (Zpos a / Zpos b <= u64_max) as Hmax.
  { apply (Z.le_trans _ (Zpos a)); [apply Z.div_le_upper_bound; nia|]. unfold u64_max, two64. lia. }
  destruct (M =? 2 ^ 53) eqn:E; zreflect; unfold f64_to_usize.
  - replace (e1 - e2 - 53 + n + 1) with (- (K - 1)) by lia. rewrite Z.shiftl_opp_r, Z.shiftr_div_pow2 by lia.
    assert (4503599627370496 / 2 ^ (K - 1) = M / 2 ^ K) as ->; [|rewrite Hk; lia].
    subst M. replace K with (K - 1 + 1) at 2 by lia. rewrite Z.pow_add_r by lia.
    change (2 ^ 53) with (4503599627370496 * 2). change (2 ^ 1) with 2.
    symmetry. apply Z.div_mul_cancel_r; [apply Z.pow_nonzero; lia|done].
  - replace (e1 - e2 - 53 + n) with (- K) by lia. rewrite Z2Pos.id by lia.
    rewrite Z.shiftl_opp_r, Z.shiftr_div_pow2, Hk by lia. lia.
Qed.
