(* ===== verification/RustFmt.v ===== *)
(** * The text of floating-point numbers

    What [format!] writes for an [f64] under ["{}"] and ["{:.3}"]: exact
    arithmetic on the fraction the number stands for.  ["{}"] is the shortest
    digit string that reads back as the same number, the nearest one among those
    of that length; it never uses an exponent. *)

From stdpp Require Import base list strings pretty.
From Stdlib Require Import Ascii ZArith Lia SpecFloat.
From S2P Require Import Prelude RustString RustList RustFloat.

Open Scope Z_scope.

(** ["{:.3}"]: rounded to the nearest thousandth, ties to even *)

Definition round_half_even (num den : Z) : Z :=
  let q := num / den in
  match Z.compare (2 * (num mod den)) den with
  | Lt => q
  | Gt => q + 1
  | Eq => if Z.even q then q else q + 1
  end.

(** [n] in decimal, filled with zeros on the left to at least [k] digits *)
Definition pad_left (k : nat) (n : Z) : string :=
  zeros (k - String.length (pretty n)) +:+ pretty n.

Definition thousandths (m : positive) (e : Z) : Z :=
  round_half_even (Zpos m * 2 ^ (Z.max 0 e) * 1000) (2 ^ (Z.max 0 (- e))).

Definition display_fixed3 (x : f64) : string :=
  match x with
  | S754_nan => "NaN"
  | S754_infinity neg => if neg then "-inf" else "inf"
  | S754_zero neg => if neg then "-0.000" else "0.000"
  | S754_finite neg m e =>
      let n := thousandths m e in
      (if neg then "-" else "") +:+ (pretty (n / 1000) +:+ ("." +:+ pad_left 3 (n mod 1000)))
  end.

(** ["{}"]: the shortest digits *)

(** the exponent [k] with [10^(k-1) <= num/den < 10^k]: [scale_up] from 0 for a
    number of at least one, [scale_down] for a smaller one *)
Fixpoint scale_up (fuel : nat) (num den k : Z) : Z :=
  match fuel with
  | O => k
  | S f => if num <? den * 10 ^ k then k else scale_up f num den (k + 1)
  end.

Fixpoint scale_down (fuel : nat) (num den k : Z) : Z :=
  match fuel with
  | O => k
  | S f => if num * 10 ^ (1 - k) <? den then scale_down f num den (k - 1) else k
  end.

(** [num / den], [low / den] and [high / den] are the number and the ends of the
    interval that reads back as it, closed when [inclusive]; look for a number of
    [n] digits, [digits * 10^(k - n)], in it. *)
Definition within (inclusive : bool) (low high v : Z) : bool :=
  if inclusive then (low <=? v) && (v <=? high) else (low <? v) && (v <? high).

Definition digits_of_length (inclusive : bool) (num low high den k : Z) (n : Z) : option Z :=
  let up := 10 ^ Z.max 0 (n - k) in
  let unit := den * 10 ^ Z.max 0 (k - n) in
  let d := num * up / unit in
  let below := within inclusive (low * up) (high * up) (d * unit) in
  let above := within inclusive (low * up) (high * up) ((d + 1) * unit) in
  match below, above with
  | true, true => Some (if 2 * (num * up mod unit) <? unit then d else d + 1)
  | true, false => Some d
  | false, true => Some (d + 1)
  | false, false => None
  end.

Fixpoint shortest_digits (tries : nat) (inclusive : bool) (num low high den k : Z) (n : Z) : Z * Z :=
  match digits_of_length inclusive num low high den k n, tries with
  | Some d, _ => (d, n)
  | None, O => (0, n)
  | None, S t => shortest_digits t inclusive num low high den k (n + 1)
  end.

(** the digits with the decimal point after the first [k] of them *)
Definition place_point (digits : string) (k : Z) : string :=
  let n := Z.of_nat (String.length digits) in
  if k <=? 0 then "0." +:+ (zeros (Z.to_nat (- k)) +:+ digits)
  else if n <=? k then digits +:+ zeros (Z.to_nat (k - n))
  else stake (Z.to_nat k) digits +:+ ("." +:+ sdrop (Z.to_nat k) digits).

Definition display_positive (m : positive) (e : Z) : string :=
  (* four times the number, so that the ends of the interval are integers too *)
  let scale := 2 ^ Z.max 0 e in
  let den := 4 * 2 ^ Z.max 0 (- e) in
  let num := 4 * Zpos m * scale in
  let low := num - (if (Zpos m =? 2 ^ 52) && (-1074 <? e) then 1 else 2) * scale in
  let high := num + 2 * scale in
  let k := if num <? den then scale_down 400 num den 0 else scale_up 400 num den 0 in
  let '(d, n) := shortest_digits 17 (Z.even (Zpos m)) num low high den k 1 in
  (* a carry gives one digit more, which is then the decimal exponent's *)
  place_point (pretty d) (k + (Z.of_nat (String.length (pretty d)) - n)).

Definition display_f64 (x : f64) : string :=
  match x with
  | S754_nan => "NaN"
  | S754_infinity neg => if neg then "-inf" else "inf"
  | S754_zero neg => if neg then "-0" else "0"
  | S754_finite neg m e => (if neg then "-" else "") +:+ display_positive m e
  end.


(** ** Numbers are written with number characters *)

Definition number_char (a : ascii) : bool :=
  is_digit a || contains_char a ".-+aefinIN".

Lemma all_chars_pretty_N_go x s :
  all_chars number_char s = true → all_chars number_char (pretty_N_go x s) = true.
Proof.
  revert s. induction (N.lt_wf_0 x) as [x _ IH]; intros s Hs.
  destruct (decide (x = 0)%N) as [->|Hx]; [by rewrite pretty_N_go_0|].
  rewrite pretty_N_go_step by lia. apply IH; [apply N.div_lt; lia|]. simpl. rewrite Hs, andb_true_r.
  unfold pretty_N_char. by repeat case_match.
Qed.

Lemma all_chars_pretty (z : Z) : all_chars number_char (pretty z) = true.
Proof.
  assert (∀ n : N, all_chars number_char (pretty n) = true) as Hn.
  { intros n. unfold pretty, pretty_N. case_decide; [done|]. by apply all_chars_pretty_N_go. }
  destruct z as [|p|p]; [done|apply (Hn (Npos p))|].
  change (all_chars number_char ("-" +:+ pretty (Npos p)) = true). rewrite all_chars_app. apply Hn.
Qed.

Lemma all_chars_zeros k : all_chars number_char (zeros k) = true.
Proof. by induction k. Qed.

#[export] Hint Rewrite all_chars_pretty all_chars_zeros : nano.

Lemma all_chars_place_point d k :
  all_chars number_char d = true → all_chars number_char (place_point d k) = true.
Proof.
  intros Hd. unfold place_point. repeat case_if; autorewrite with nano; rewrite ?Hd; try done.
  rewrite all_chars_stake by done. autorewrite with nano. by rewrite all_chars_sdrop.
Qed.

Lemma all_chars_display_f64 x : all_chars number_char (display_f64 x) = true.
Proof.
  destruct x as [[]|[]| |neg m e]; try done. simpl. rewrite all_chars_app.
  apply andb_true_iff. split; [by destruct neg|]. unfold display_positive.
  destruct (shortest_digits _ _ _ _ _ _ _ _). by apply all_chars_place_point, all_chars_pretty.
Qed.

Lemma all_chars_display_fixed3 x : all_chars number_char (display_fixed3 x) = true.
Proof.
  destruct x as [[]|[]| |neg m e]; try done. simpl. unfold pad_left. autorewrite with nano.
  by destruct neg.
Qed.
