(* ===== verification/MemoryMonitor.v ===== *)
(** * [src/worker/memory_monitor.rs]: pressure levels and memory history

    The percentages are [f64] values (RustFloat).  [check_after] reads the heap
    statistics of the isolate, which are arguments here, and the clock. *)

From stdpp Require Import base list.
From Stdlib Require Import ZArith Lia SpecFloat.
From S2P Require Import Prelude RustList RustFloat.

Open Scope Z_scope.

(** ** Data *)

Inductive MemoryPressureLevel := Normal | Warning | Critical | Emergency.

(** The discriminants, which the derived [Ord] compares. *)
Definition level_rank (l : MemoryPressureLevel) : Z :=
  match l with Normal => 0 | Warning => 1 | Critical => 2 | Emergency => 3 end.

Definition from_percent (p : f64) : MemoryPressureLevel :=
  if f64_lt p (f64_lit 70 100) then Normal
  else if f64_lt p (f64_lit 85 100) then Warning
  else if f64_lt p (f64_lit 95 100) then Critical
  else Emergency.

Definition requires_eviction (l : MemoryPressureLevel) : bool :=
  match l with Critical | Emergency => true | _ => false end.

Definition requires_hard_eviction (l : MemoryPressureLevel) : bool :=
  match l with Emergency => true | _ => false end.

Inductive MemoryTrend :=
| Growing (rate : f64)
| Stable
| Shrinking (rate : f64).

Definition is_potential_leak (t : MemoryTrend) : bool :=
  match t with Growing rate => f64_lt (f64_of_Z 1) rate | _ => false end.

Record MemorySnapshot := mkSnapshot {
  timestamp : Z;
  heap_used : Z;
  heap_total : Z;
  external : Z;
  snap_level : MemoryPressureLevel;
  trend : MemoryTrend;
}.

(** [MemorySnapshot::new], at the time [now] *)
Definition snapshot_new (now heap_used heap_total external limit_bytes : Z) : MemorySnapshot :=
  let total := sat_add heap_used external in
  let percent := if limit_bytes >? 0 then f64_div (f64_of_Z total) (f64_of_Z limit_bytes)
                 else f64_of_Z 0 in
  mkSnapshot now heap_used heap_total external (from_percent percent) Stable.

Definition snap_total_bytes (s : MemorySnapshot) : Z := sat_add (heap_used s) (external s).

Definition percent_of_limit (s : MemorySnapshot) (limit_bytes : Z) : f64 :=
  if limit_bytes =? 0 then f64_of_Z 0
  else f64_div (f64_of_Z (snap_total_bytes s)) (f64_of_Z limit_bytes).

Record MemoryMonitorConfig := mkMonConfig {
  soft_limit_percent : f64;
  critical_limit_percent : f64;
  max_history : Z;
  trend_stability_threshold_mb : f64;
}.

Definition default_mon_config : MemoryMonitorConfig :=
  mkMonConfig (f64_lit 80 100) (f64_lit 95 100) 10 (f64_lit 5 10).

Record MemoryMonitor := mkMonitor {
  mon_config : MemoryMonitorConfig;
  limit_bytes : Z;
  history : list MemorySnapshot;
  last_check : option Z;
}.

(** ** Operations *)

Definition monitor_with_config (limit_mb : Z) (c : MemoryMonitorConfig) : MemoryMonitor :=
  mkMonitor c (mul_u64 (mul_u64 limit_mb 1024) 1024) [] None.

Definition monitor_new (limit_mb : Z) : MemoryMonitor :=
  monitor_with_config limit_mb default_mon_config.

Definition add_to_history (m : MemoryMonitor) (s : MemorySnapshot) : MemoryMonitor :=
  let h := if Z.of_nat (length (history m)) >=? max_history (mon_config m)
           then tail (history m) else history m in
  mkMonitor (mon_config m) (limit_bytes m) (h ++ [s]) (last_check m).

Definition calculate_trend (m : MemoryMonitor) (current : MemorySnapshot) : MemoryTrend :=
  match last (history m) with
  | None => Stable
  | Some prev =>
    let memory_delta := f64_sub (f64_of_Z (snap_total_bytes current))
                                (f64_of_Z (snap_total_bytes prev)) in
    let time_delta := as_secs_f64 (elapsed (timestamp prev) (timestamp current)) in
    if f64_lt time_delta (f64_lit 1 1000) then Stable
    else
      let mb := f64_mul (f64_of_Z 1024) (f64_of_Z 1024) in
      let rate := f64_div (f64_div memory_delta mb) time_delta in
      let threshold := trend_stability_threshold_mb (mon_config m) in
      if f64_lt threshold rate then Growing rate
      else if f64_lt rate (SFopp threshold) then Shrinking (SFabs rate)
      else Stable
  end.

Definition set_trend (s : MemorySnapshot) (t : MemoryTrend) : MemorySnapshot :=
  mkSnapshot (timestamp s) (heap_used s) (heap_total s) (external s) (snap_level s) t.

(** [check_after]: the statistics of the heap, and the times of the two clock
    readings. *)
Record HeapReading := mkReading {
  r_used : Z;
  r_total : Z;
  r_external : Z;
  r_now : Z;
  r_after : Z;
}.

Definition check_after (m : MemoryMonitor) (r : HeapReading) : MemoryMonitor * MemorySnapshot :=
  let s0 := snapshot_new (r_now r) (r_used r) (r_total r) (r_external r) (limit_bytes m) in
  let s := set_trend s0 (calculate_trend m s0) in
  let m' := add_to_history m s in
  (mkMonitor (mon_config m') (limit_bytes m') (history m') (Some (r_after r)), s).

Definition pressure_level (m : MemoryMonitor) : MemoryPressureLevel :=
  match last (history m) with Some s => snap_level s | None => Normal end.

Definition should_trigger_soft_eviction (m : MemoryMonitor) : bool :=
  requires_eviction (pressure_level m).

Definition should_trigger_hard_eviction (m : MemoryMonitor) : bool :=
  requires_hard_eviction (pressure_level m).

Definition latest_snapshot (m : MemoryMonitor) : option MemorySnapshot := last (history m).

Definition history_len (m : MemoryMonitor) : Z := Z.of_nat (length (history m)).

Definition clear_history (m : MemoryMonitor) : MemoryMonitor :=
  mkMonitor (mon_config m) (limit_bytes m) [] (last_check m).

Definition is_trending_to_leak (m : MemoryMonitor) : bool :=
  if history_len m <? 3 then false
  else forallb (λ s, is_potential_leak (trend s)) (take 3 (reverse (history m))).

Definition time_since_last_check (m : MemoryMonitor) (now : Z) : option Z :=
  match last_check m with Some t => Some (elapsed t now) | None => None end.

Definition soft_limit_bytes (m : MemoryMonitor) : Z :=
  f64_to_usize (f64_mul (f64_of_Z (limit_bytes m)) (soft_limit_percent (mon_config m))).

Definition critical_limit_bytes (m : MemoryMonitor) : Z :=
  f64_to_usize (f64_mul (f64_of_Z (limit_bytes m)) (critical_limit_percent (mon_config m))).

Definition limit_mb (m : MemoryMonitor) : Z := limit_bytes m / (1024 * 1024).

(** A sequence of checks, with the snapshots they return. *)
Fixpoint run_checks (m : MemoryMonitor) (rs : list HeapReading)
  : MemoryMonitor * list MemorySnapshot :=
  match rs with
  | [] => (m, [])
  | r :: rs' =>
    let '(m1, s) := check_after m r in
    let '(m2, ss) := run_checks m1 rs' in (m2, s :: ss)
  end.

(** The last [n] elements of a list. *)
Definition lastn {A} (n : nat) (l : list A) : list A := drop (length l - n) l.

(** ** Lemmas *)

Lemma lastn_all {A} n (l : list A) : (length l ≤ n)%nat → lastn n l = l.
Proof. intros H. unfold lastn. by replace (length l - n)%nat with 0%nat by lia. Qed.

Lemma length_lastn {A} n (l : list A) : length (lastn n l) = min n (length l).
Proof. unfold lastn. rewrite length_drop. lia. Qed.

Lemma tail_drop_S {A} n (l : list A) : tail (drop n l) = drop (S n) l.
Proof. revert l. induction n as [|n IH]; intros [|x l]; [done..|]. exact (IH l). Qed.

Lemma lastn_snoc {A} n (l : list A) x :
  (0 < n)%nat →
  lastn n (l ++ [x]) =
    (if (n <=? length (lastn n l))%nat then tail (lastn n l) else lastn n l) ++ [x].
Proof.
  intros Hn. rewrite length_lastn. unfold lastn. rewrite length_app. simpl.
  rewrite drop_app_le by lia. f_equal. destruct (Nat.leb_spec n (min n (length l))).
  - rewrite tail_drop_S. f_equal. lia.
  - f_equal. lia.
Qed.

(** The trend and the history of one check. *)
Lemma check_after_history m r :
  history (check_after m r).1 = history (add_to_history m (check_after m r).2).
Proof. done. Qed.

Lemma check_after_fixed m r :
  mon_config (check_after m r).1 = mon_config m ∧ limit_bytes (check_after m r).1 = limit_bytes m.
Proof. done. Qed.

(** The window the monitor keeps: [max_history] snapshots, and one where the
    configured value is zero. *)
Definition window (m : MemoryMonitor) : nat := Z.to_nat (Z.max 1 (max_history (mon_config m))).

Lemma add_to_history_window m s l :
  0 ≤ max_history (mon_config m) →
  history m = lastn (window m) l →
  history (add_to_history m s) = lastn (window m) (l ++ [s]).
Proof.
  intros Hmax Hh. rewrite lastn_snoc by (unfold window; lia). simpl. rewrite <-Hh. f_equal.
  assert (Hlen : (length (history m) ≤ window m)%nat) by (rewrite Hh, length_lastn; lia).
  unfold window in *. destruct (_ >=? _) eqn:E; zreflect; destruct (Nat.leb_spec
    (Z.to_nat (Z.max 1 (max_history (mon_config m)))) (length (history m))); try done; try lia.
  destruct (history m); [done|]. simpl in *. lia.
Qed.

#[local] Opaque check_after add_to_history.

Lemma run_checks_window m rs l :
  0 ≤ max_history (mon_config m) →
  history m = lastn (window m) l →
  history (run_checks m rs).1 = lastn (window m) (l ++ (run_checks m rs).2).
Proof.
  revert m l. induction rs as [|r rs IH]; intros m l Hmax Hh; simpl.
  - by rewrite app_nil_r.
  - destruct (check_after m r) as [m1 s] eqn:E.
    pose proof (check_after_history m r) as H1. pose proof (check_after_fixed m r) as [H2 _].
    rewrite E in H1, H2. simpl in H1, H2.
    specialize (IH m1 (l ++ [s])). unfold window in IH. rewrite H2 in IH.
    destruct (run_checks m1 rs) as [m2 ss]. simpl in *. rewrite <-app_assoc in IH. simpl in IH.
    apply IH; [done|]. rewrite H1. by apply add_to_history_window.
Qed.

#[local] Transparent check_after add_to_history.

Lemma from_percent_le p q :
  f64_le p q = true → level_rank (from_percent p) ≤ level_rank (from_percent q).
Proof.
  intros Hle. unfold from_percent.
  destruct (f64_lt q (f64_lit 70 100)) eqn:E1.
  { rewrite (f64_le_lt_trans _ _ _ Hle E1). simpl. lia. }
  destruct (f64_lt q (f64_lit 85 100)) eqn:E2.
  { rewrite (f64_le_lt_trans _ _ _ Hle E2). destruct (f64_lt p _); simpl; lia. }
  destruct (f64_lt q (f64_lit 95 100)) eqn:E3.
  { rewrite (f64_le_lt_trans _ _ _ Hle E3). repeat destruct (f64_lt p _); simpl; lia. }
  repeat destruct (f64_lt p _); simpl; lia.
Qed.

(** ** Properties *)

(** The history of a monitor that starts empty is exactly the last
    [max_history] snapshots its checks returned, oldest first (the last one
    where [max_history] is zero), so it stays bounded; [pressure_level] is the
    level of the most recent check, and a leak is reported exactly when the
    last three checks all grew by more than 1 MB/s and the window holds three. *)
Theorem monitor_history_window m rs :
  0 ≤ max_history (mon_config m) → history m = [] →
  let '(m', ss) := run_checks m rs in
  history m' = lastn (window m) ss ∧
  history_len m' ≤ Z.max 1 (max_history (mon_config m)) ∧
  (∀ ss' s, ss = ss' ++ [s] → pressure_level m' = snap_level s) ∧
  (is_trending_to_leak m' = true ↔
     (3 ≤ length ss)%nat ∧ 3 ≤ max_history (mon_config m) ∧
     Forall (λ s, is_potential_leak (trend s) = true) (lastn 3 ss)).
Proof.
  intros Hmax Hh. pose proof (run_checks_window m rs [] Hmax) as Hw.
  destruct (run_checks m rs) as [m' ss]. simpl in Hw. specialize (Hw Hh).
  assert (Hlen : length (history m') = min (window m) (length ss))
    by (by rewrite Hw, length_lastn).
  split; [done|]. split; [unfold history_len, window in *; lia|]. split.
  - intros ss' s ->. unfold pressure_level. rewrite Hw, lastn_snoc by (unfold window; lia).
    by rewrite last_snoc.
  - unfold is_trending_to_leak, history_len. rewrite Hlen.
    destruct (_ <? 3) eqn:E; zreflect.
    + split; [done|]. unfold window in *. lia.
    + rewrite forallb_Forall, Hw. unfold window in *.
      assert (take 3 (reverse (lastn (Z.to_nat (Z.max 1 (max_history (mon_config m)))) ss))
              = reverse (lastn 3 ss)) as ->.
      { unfold lastn. rewrite take_reverse, drop_drop, length_drop. do 2 f_equal. lia. }
      rewrite Forall_reverse. split; [|naive_solver]. intros H. split_and!; [lia..|done].
Qed.

(** The pressure level grows with the percentage, over all [f64] values
    (a [NaN] is an [Emergency]): no threshold is out of order. *)
Theorem from_percent_monotone p q :
  (f64_le p q = true → level_rank (from_percent p) ≤ level_rank (from_percent q)) ∧
  (is_nan p = true → from_percent p = Emergency).
Proof. split; [apply from_percent_le|]. by destruct p. Qed.

(** ** Witnesses *)

Definition reading (used now : Z) : HeapReading := mkReading used used 0 now now.

Definition three_readings : list HeapReading :=
  [reading 10000000 0; reading 20000000 1000000000; reading 30000000 2000000000;
   reading 124000000 3000000000].

Lemma monitor_history_window_witness :
  let '(m', ss) := run_checks (monitor_new 128) three_readings in
  history m' = lastn 10 ss ∧ is_trending_to_leak m' = true ∧ pressure_level m' = Critical.
Proof.
  pose proof (monitor_history_window (monitor_new 128) three_readings) as H.
  destruct (run_checks (monitor_new 128) three_readings) as [m' ss] eqn:E.
  destruct H as (H1 & _ & H3 & H4); [vm_compute; discriminate|done|].
  vm_compute in E. injection E as <- <-. split; [exact H1|]. split; [|vm_compute; reflexivity].
  apply H4. vm_compute. repeat split; try lia; try discriminate. repeat constructor.
Defined.

Lemma from_percent_monotone_witness :
  level_rank (from_percent (f64_lit 80 100)) ≤ level_rank (from_percent (f64_lit 90 100)).
Proof. apply (from_percent_monotone (f64_lit 80 100) (f64_lit 90 100)). vm_compute. reflexivity. Defined.
