(* ===== verification/Eviction.v ===== *)
(** * [src/worker/eviction.rs]: isolate eviction

    Two hash maps (metadata and eviction states), the two atomic counters and
    the time of the last eviction.  Every operation that reads the clock takes
    the time [now] (nanoseconds).  [HashMap] iteration order and the hasher are
    the classes of RustList. *)

From stdpp Require Import base gmap list strings pretty sorting.
From Stdlib Require Import ZArith Lia.
From S2P Require Import Prelude RustString RustList RustFloat MemoryMonitor.

Open Scope Z_scope.

(** ** Data *)

(** [IsolateId::generate]: [uuid8] is the first eight characters of a fresh
    UUID, [counter] the value of [ISOLATE_COUNTER], which it returns advanced. *)
Definition generate (uuid8 : string) (counter : Z) : string * Z :=
  ("iso_" +:+ uuid8 +:+ "_" +:+ hex08 counter, add_u64 counter 1).

Inductive EvictionPolicy := Lru | Lfu | Random | LargestFirst.

Record IsolateMetadata := mkMeta {
  hostname : string;
  worker_id : Z;
  last_used : Z;
  use_count : Z;
  memory_footprint : Z;
  is_stateless : bool;
  active_requests : Z;
  created_at : Z;
}.

Definition meta_new (hostname : string) (worker_id now : Z) : IsolateMetadata :=
  mkMeta hostname worker_id now 0 0 true 0 now.

Definition meta_record_usage (m : IsolateMetadata) (now : Z) : IsolateMetadata :=
  mkMeta (hostname m) (worker_id m) now (add_u64 (use_count m) 1) (memory_footprint m)
         (is_stateless m) (active_requests m) (created_at m).

Definition update_memory (m : IsolateMetadata) (bytes : Z) : IsolateMetadata :=
  mkMeta (hostname m) (worker_id m) (last_used m) (use_count m) bytes
         (is_stateless m) (active_requests m) (created_at m).

Definition set_stateless (m : IsolateMetadata) (b : bool) : IsolateMetadata :=
  mkMeta (hostname m) (worker_id m) (last_used m) (use_count m) (memory_footprint m)
         b (active_requests m) (created_at m).

Definition mark_stateful (m : IsolateMetadata) : IsolateMetadata := set_stateless m false.
Definition mark_stateless (m : IsolateMetadata) : IsolateMetadata := set_stateless m true.

Definition set_active (m : IsolateMetadata) (n : Z) : IsolateMetadata :=
  mkMeta (hostname m) (worker_id m) (last_used m) (use_count m) (memory_footprint m)
         (is_stateless m) n (created_at m).

Definition increment_active (m : IsolateMetadata) : IsolateMetadata :=
  set_active m (add_u64 (active_requests m) 1).

Definition decrement_active (m : IsolateMetadata) : IsolateMetadata :=
  if active_requests m >? 0 then set_active m (active_requests m - 1) else m.

Definition is_idle (m : IsolateMetadata) : bool := active_requests m =? 0.

Definition idle_duration (m : IsolateMetadata) (now : Z) : Z := elapsed (last_used m) now.

Definition age (m : IsolateMetadata) (now : Z) : Z := elapsed (created_at m) now.

Definition age_formatted (m : IsolateMetadata) (now : Z) : string :=
  let secs := as_secs (age m now) in
  if secs <? 60 then pretty secs +:+ "s"
  else if secs <? 3600 then pretty (secs / 60) +:+ "m " +:+ pretty (secs mod 60) +:+ "s"
  else pretty (secs / 3600) +:+ "h " +:+ pretty ((secs mod 3600) / 60) +:+ "m".

Inductive EvictionAction :=
| Allow
| Throttle
| SoftEvict (ids : list string)
| HardEvict (ids : list string).

Definition is_eviction (a : EvictionAction) : bool :=
  match a with SoftEvict _ | HardEvict _ => true | _ => false end.

Definition is_hard (a : EvictionAction) : bool :=
  match a with HardEvict _ => true | _ => false end.

Definition eviction_ids (a : EvictionAction) : option (list string) :=
  match a with SoftEvict ids | HardEvict ids => Some ids | _ => None end.

Definition action_count (a : EvictionAction) : Z :=
  match a with SoftEvict ids | HardEvict ids => Z.of_nat (length ids) | _ => 0 end.

Inductive IsolateEvictionState :=
| Active
| Draining (remaining_requests : Z)
| Evicted.

#[export] Instance eviction_state_eq_dec : EqDecision IsolateEvictionState.
Proof. solve_decision. Defined.

Definition is_active_state (s : IsolateEvictionState) : bool :=
  match s with Active => true | _ => false end.
Definition is_draining_state (s : IsolateEvictionState) : bool :=
  match s with Draining _ => true | _ => false end.
Definition is_evicted_state (s : IsolateEvictionState) : bool :=
  match s with Evicted => true | _ => false end.

Record EvictionConfig := mkEvConfig {
  policy : EvictionPolicy;
  target_eviction_count : Z;
  cooldown_secs : Z;
  prefer_stateless : bool;
  min_idle_secs : Z;
}.

Definition default_ev_config : EvictionConfig := mkEvConfig Lru 1 5 true 0.

Record EvictionManager := mkEv {
  config : EvictionConfig;
  isolates : gmap string IsolateMetadata;
  eviction_states : gmap string IsolateEvictionState;
  total_memory : Z;
  evictions_total : Z;
  last_eviction : option Z;
}.

(** ** Operations *)

Definition ev_with_config (c : EvictionConfig) : EvictionManager := mkEv c ∅ ∅ 0 0 None.

Definition ev_new : EvictionManager := ev_with_config default_ev_config.

Definition set_states (m : EvictionManager) (st : gmap string IsolateEvictionState) :=
  mkEv (config m) (isolates m) st (total_memory m) (evictions_total m) (last_eviction m).

Definition set_isolates (m : EvictionManager) (iso : gmap string IsolateMetadata) :=
  mkEv (config m) iso (eviction_states m) (total_memory m) (evictions_total m) (last_eviction m).

Definition register_isolate (m : EvictionManager) (id : string) (meta : IsolateMetadata) :=
  set_states (set_isolates m (<[id := meta]> (isolates m))) (<[id := Active]> (eviction_states m)).

Definition unregister_isolate (m : EvictionManager) (id : string) : EvictionManager :=
  set_states (set_isolates m (delete id (isolates m))) (delete id (eviction_states m)).

(** [values().map(|m| m.memory_footprint).sum()] on [usize] *)
Definition footprint_sum (iso : gmap string IsolateMetadata) : Z :=
  as_u64 (foldr (λ e acc, memory_footprint e.2 + acc) 0 (map_to_list iso)).

Definition record_usage (m : EvictionManager) (id : string) (memory_bytes now : Z) :=
  match isolates m !! id with
  | None => m
  | Some meta =>
    let iso := <[id := update_memory (meta_record_usage meta now) memory_bytes]> (isolates m) in
    mkEv (config m) iso (eviction_states m) (footprint_sum iso) (evictions_total m) (last_eviction m)
  end.

Definition mark_active (m : EvictionManager) (id : string) : EvictionManager :=
  set_isolates m (alter increment_active id (isolates m)).

(** One more eviction, and the isolate's state is [Evicted]. *)
Definition count_evicted (m : EvictionManager) (id : string) : EvictionManager :=
  mkEv (config m) (isolates m) (<[id := Evicted]> (eviction_states m)) (total_memory m)
       (add_u64 (evictions_total m) 1) (last_eviction m).

Definition check_draining_complete (m : EvictionManager) (id : string) : EvictionManager :=
  match isolates m !! id with
  | Some meta =>
    if is_idle meta then
      match eviction_states m !! id with
      | Some st => if is_draining_state st then count_evicted m id else m
      | None => m
      end
    else m
  | None => m
  end.

Definition mark_complete (m : EvictionManager) (id : string) : EvictionManager :=
  check_draining_complete (set_isolates m (alter decrement_active id (isolates m))) id.

Definition state_is (f : IsolateEvictionState → bool) (m : EvictionManager) (id : string) : bool :=
  match eviction_states m !! id with Some st => f st | None => false end.

Definition is_draining (m : EvictionManager) (id : string) : bool := state_is is_draining_state m id.
Definition is_evicted (m : EvictionManager) (id : string) : bool := state_is is_evicted_state m id.
Definition can_accept_requests (m : EvictionManager) (id : string) : bool :=
  state_is is_active_state m id.

Definition set_last (m : EvictionManager) (t : option Z) : EvictionManager :=
  mkEv (config m) (isolates m) (eviction_states m) (total_memory m) (evictions_total m) t.

Definition initiate_soft_eviction (m : EvictionManager) (id : string) (now : Z)
  : EvictionManager * bool :=
  match isolates m !! id with
  | Some meta =>
    match eviction_states m !! id with
    | Some st =>
      if is_active_state st then
        (set_last (set_states m (<[id := Draining (active_requests meta)]> (eviction_states m)))
                  (Some now), true)
      else (m, false)
    | None => (m, false)
    end
  | None => (m, false)
  end.

Definition complete_soft_eviction (m : EvictionManager) (id : string) : EvictionManager * bool :=
  match eviction_states m !! id with
  | Some st => if is_draining_state st then (count_evicted m id, true) else (m, false)
  | None => (m, false)
  end.

Definition hard_evict (m : EvictionManager) (id : string) (now : Z) : EvictionManager :=
  match eviction_states m !! id with
  | Some _ => set_last (count_evicted m id) (Some now)
  | None => m
  end.

Definition reactivate_isolate (m : EvictionManager) (id : string) (meta : IsolateMetadata) :=
  set_states (set_isolates m (<[id := meta]> (isolates m))) (<[id := Active]> (eviction_states m)).

Definition get_metadata (m : EvictionManager) (id : string) : option IsolateMetadata :=
  isolates m !! id.

(** [get_metadata_mut] followed by the caller's change [f] of the metadata. *)
Definition get_metadata_mut (m : EvictionManager) (id : string)
    (f : IsolateMetadata → IsolateMetadata) : EvictionManager :=
  set_isolates m (alter f id (isolates m)).

Definition get_isolate_age (m : EvictionManager) (id : string) (now : Z) : option Z :=
  (λ meta, age meta now) <$> isolates m !! id.

Definition total_memory_bytes (m : EvictionManager) : Z := total_memory m.
Definition eviction_count (m : EvictionManager) : Z := evictions_total m.
Definition isolate_count (m : EvictionManager) : Z := Z.of_nat (size (isolates m)).

Definition count_states (f : IsolateEvictionState → bool) (m : EvictionManager) : Z :=
  Z.of_nat (length (List.filter (λ e, f e.2) (map_to_list (eviction_states m)))).

Definition state_counts (m : EvictionManager) : Z * Z * Z :=
  (count_states is_active_state m, count_states is_draining_state m, count_states is_evicted_state m).

Definition time_since_last_eviction (m : EvictionManager) (now : Z) : option Z :=
  (λ t, elapsed t now) <$> last_eviction m.

Definition ev_clear (m : EvictionManager) : EvictionManager :=
  mkEv (config m) ∅ ∅ 0 (evictions_total m) (last_eviction m).

(** *** Choosing victims *)

(** The filter of [select_victims]. *)
Definition eligible (m : EvictionManager) (stateless_only : bool) (now : Z)
    (id : string) (meta : IsolateMetadata) : bool :=
  match eviction_states m !! id with
  | Some st => is_active_state st
  | None => true
  end
  && is_idle meta
  && negb (idle_duration meta now <? from_secs (min_idle_secs (config m)))
  && negb (stateless_only && prefer_stateless (config m) && negb (is_stateless meta)).

Section victims.
Context {HO : HashOrder IsolateMetadata} {DH : DefaultHasher}.

(** The sort key of each policy; [Reverse] flips the order. *)
Definition victim_key (p : EvictionPolicy) (now : Z) (e : string * IsolateMetadata) : Z :=
  match p with
  | Lru => last_used e.2
  | Lfu => use_count e.2
  | LargestFirst => - memory_footprint e.2
  | Random => add_u64 (hash_instant now) (hash_str e.1)
  end.

Definition candidates (m : EvictionManager) (stateless_only : bool) (now : Z)
  : list (string * IsolateMetadata) :=
  List.filter (λ e, eligible m stateless_only now e.1 e.2) (hash_iter (isolates m)).

Definition select_victims (m : EvictionManager) (count : Z) (stateless_only : bool) (now : Z)
  : list string :=
  match candidates m stateless_only now with
  | [] => []
  | c => (take (Z.to_nat count) (sort_by_key (victim_key (policy (config m)) now) c)).*1
  end.

Definition evaluate_pressure (m : EvictionManager) (level : MemoryPressureLevel) (now : Z)
  : EvictionAction :=
  let decide_level :=
    match level with
    | Normal => Allow
    | Warning => Throttle
    | Critical =>
      match select_victims m (target_eviction_count (config m)) true now with
      | [] => Throttle
      | v => SoftEvict v
      end
    | Emergency =>
      match select_victims m (mul_u64 (target_eviction_count (config m)) 2) false now with
      | [] => SoftEvict []
      | v => HardEvict v
      end
    end in
  match last_eviction m with
  | Some t =>
    if as_secs (elapsed t now) <? cooldown_secs (config m) then
      if requires_eviction level then Throttle else Allow
    else decide_level
  | None => decide_level
  end.
End victims.

(** ** Sequences of operations *)

Inductive EvOp :=
| OpRegister (id : string) (meta : IsolateMetadata)
| OpUnregister (id : string)
| OpUsage (id : string) (bytes now : Z)
| OpActive (id : string)
| OpComplete (id : string)
| OpSoft (id : string) (now : Z)
| OpFinish (id : string)
| OpHard (id : string) (now : Z)
| OpReactivate (id : string) (meta : IsolateMetadata)
| OpMeta (id : string) (f : IsolateMetadata → IsolateMetadata)
| OpClear.

Definition ev_step (m : EvictionManager) (o : EvOp) : EvictionManager :=
  match o with
  | OpRegister id meta => register_isolate m id meta
  | OpUnregister id => unregister_isolate m id
  | OpUsage id b now => record_usage m id b now
  | OpActive id => mark_active m id
  | OpComplete id => mark_complete m id
  | OpSoft id now => (initiate_soft_eviction m id now).1
  | OpFinish id => (complete_soft_eviction m id).1
  | OpHard id now => hard_evict m id now
  | OpReactivate id meta => reactivate_isolate m id meta
  | OpMeta id f => get_metadata_mut m id f
  | OpClear => ev_clear m
  end.

Definition ev_run (m : EvictionManager) (os : list EvOp) : EvictionManager :=
  foldl ev_step m os.

Definition op_id (o : EvOp) : option string :=
  match o with
  | OpRegister id _ | OpUnregister id | OpUsage id _ _ | OpActive id | OpComplete id
  | OpSoft id _ | OpFinish id | OpHard id _ | OpReactivate id _ | OpMeta id _ => Some id
  | OpClear => None
  end.

(** The operations that install or remove the isolate [id]. *)
Definition replaces (id : string) (o : EvOp) : bool :=
  match o with
  | OpRegister i _ | OpUnregister i | OpReactivate i _ => bool_decide (i = id)
  | OpClear => true
  | _ => false
  end.

(** Progress of an isolate towards eviction. *)
Definition stage (st : option IsolateEvictionState) : Z :=
  match st with
  | None => 0
  | Some Active => 1
  | Some (Draining _) => 2
  | Some Evicted => 3
  end.

(** ** Lemmas *)

Lemma state_is_true f m id :
  state_is f m id = true ↔ ∃ st, eviction_states m !! id = Some st ∧ f st = true.
Proof. unfold state_is. destruct (eviction_states m !! id); naive_solver. Qed.

(** What one operation does to the entries of an isolate. *)
Definition same_entries (id : string) (m m' : EvictionManager) : Prop :=
  isolates m' !! id = isolates m !! id ∧ eviction_states m' !! id = eviction_states m !! id.

Ltac ev_unfold :=
  unfold ev_step, register_isolate, reactivate_isolate, unregister_isolate, record_usage,
    mark_active, mark_complete, check_draining_complete, initiate_soft_eviction,
    complete_soft_eviction, hard_evict, get_metadata_mut, count_evicted, set_last, set_states,
    set_isolates in *; simpl in *.

Lemma ev_step_other id m o : op_id o ≠ None → op_id o ≠ Some id → same_entries id m (ev_step m o).
Proof.
  intros Hn Hid. destruct o; simpl in Hid; try done;
    assert (id0 ≠ id) as Hne by congruence; unfold same_entries; ev_unfold;
    repeat (case_match; simpl in *);
    rewrite ?lookup_insert_ne, ?lookup_delete_ne, ?lookup_alter_ne by done; done.
Qed.

Lemma ev_step_stage id m o :
  replaces id o = false →
  let st := eviction_states m !! id in
  let st' := eviction_states (ev_step m o) !! id in
  stage st ≤ stage st' ∧ (st = None ↔ st' = None) ∧
  (is_draining_state <$> st = Some true → is_draining_state <$> st' = Some true → st = st').
Proof.
  intros Hr. destruct o; simpl in Hr; try (apply bool_decide_eq_false in Hr); try done;
    ev_unfold; repeat (case_match; simpl in *; subst);
    rewrite ?lookup_insert_ne, ?lookup_delete_ne by done; simpl;
    try (split; [lia|done]).
  all: destruct (decide (id0 = id)) as [->|]; rewrite ?lookup_insert_eq, ?lookup_insert_ne by done;
    try (split; [lia|done]); simplify_eq/=.
  all: repeat match goal with H : _ !! _ = Some ?s |- _ => rewrite H; try destruct s end;
    simpl in *; try done; split; try lia; split; naive_solver.
Qed.

(** Every isolate has a state and every state an isolate. *)
Definition tracked (m : EvictionManager) : Prop := dom (isolates m) = dom (eviction_states m).

Lemma tracked_lookup m id :
  tracked m → is_Some (isolates m !! id) ↔ is_Some (eviction_states m !! id).
Proof. intros H. rewrite <-!elem_of_dom. by rewrite H. Qed.

Lemma dom_insert_known {A} (g : gmap string A) id x y :
  g !! id = Some y → dom (<[id := x]> g) = dom g.
Proof. intros H. apply dom_insert_lookup_L. eauto. Qed.

Lemma ev_step_tracked m o : tracked m → tracked (ev_step m o).
Proof.
  unfold tracked. intros H. destruct o; ev_unfold; repeat (case_match; simpl in *);
    repeat first [ rewrite dom_alter_L | rewrite dom_delete_L
                 | erewrite dom_insert_known by eassumption ];
    rewrite ?dom_insert_L, ?dom_empty_L; set_solver.
Qed.

Lemma ev_run_tracked m os : tracked m → tracked (ev_run m os).
Proof. revert m. induction os as [|o os IH]; intros m H; [done|]. apply IH, ev_step_tracked, H. Qed.

Lemma three_way_count (l : list (string * IsolateEvictionState)) :
  (length (List.filter (λ e, is_active_state e.2) l) +
   length (List.filter (λ e, is_draining_state e.2) l) +
   length (List.filter (λ e, is_evicted_state e.2) l) = length l)%nat.
Proof. induction l as [|[k []] l IH]; simpl in *; lia. Qed.

Lemma state_counts_total m :
  let '(a, d, e) := state_counts m in a + d + e = Z.of_nat (size (eviction_states m)).
Proof.
  unfold state_counts, count_states. pose proof (three_way_count (map_to_list (eviction_states m))).
  rewrite length_map_to_list in *. lia.
Qed.

Lemma ev_run_stage id m os :
  Forall (λ o, replaces id o = false) os →
  stage (eviction_states m !! id) ≤ stage (eviction_states (ev_run m os) !! id) ∧
  (eviction_states m !! id = None ↔ eviction_states (ev_run m os) !! id = None).
Proof.
  intros H. revert m. induction H as [|o os Ho Hos IH]; intros m; [simpl; split; [lia|done]|].
  destruct (ev_step_stage id m o Ho) as (H1 & H2 & _). specialize (IH (ev_step m o)).
  simpl in *. split; [lia|]. etransitivity; [exact H2|apply IH].
Qed.

(** *** Victims *)

Section victim_lemmas.
Context {HO : HashOrder IsolateMetadata} {DH : DefaultHasher}.

Lemma elem_of_candidates m so now id meta :
  (id, meta) ∈ candidates m so now ↔
  isolates m !! id = Some meta ∧ eligible m so now id meta = true.
Proof.
  unfold candidates. rewrite elem_of_filter_b. by rewrite elem_of_hash_iter.
Qed.

Lemma NoDup_candidates m so now : NoDup (candidates m so now).*1.
Proof. apply NoDup_fst_filter, NoDup_hash_iter. Qed.

(** The victims as a prefix of the sorted candidates. *)
Definition ranked (m : EvictionManager) (so : bool) (now : Z) : list (string * IsolateMetadata) :=
  sort_by_key (victim_key (policy (config m)) now) (candidates m so now).

Lemma select_victims_ranked m count so now :
  select_victims m count so now = (take (Z.to_nat count) (ranked m so now)).*1.
Proof.
  unfold select_victims, ranked. destruct (candidates m so now) eqn:E; [|done].
  simpl. by rewrite take_nil.
Qed.

Lemma elem_of_ranked m so now e : e ∈ ranked m so now ↔ e ∈ candidates m so now.
Proof. unfold ranked. by rewrite sort_by_key_perm. Qed.

Lemma NoDup_ranked m so now : NoDup (ranked m so now).*1.
Proof. unfold ranked. rewrite sort_by_key_perm. apply NoDup_candidates. Qed.

Lemma select_victims_eligible m count so now id :
  id ∈ select_victims m count so now →
  ∃ meta, isolates m !! id = Some meta ∧ eligible m so now id meta = true.
Proof.
  rewrite select_victims_ranked. intros ([k meta] & -> & H)%list_elem_of_fmap.
  exists meta. simpl. apply elem_of_candidates, elem_of_ranked.
  rewrite <-(take_drop (Z.to_nat count)). apply elem_of_app. by left.
Qed.

Lemma select_victims_nil m count so now :
  0 < count → select_victims m count so now = [] → candidates m so now = [].
Proof.
  intros Hc. rewrite select_victims_ranked. unfold ranked. intros H.
  destruct (candidates m so now) as [|e l] eqn:E; [done|].
  pose proof (sort_by_key_perm (victim_key (policy (config m)) now) (e :: l)) as Hp.
  destruct (sort_by_key _ _) as [|x xs]; [by apply Permutation_nil in Hp|].
  destruct (Z.to_nat count) eqn:E2; [lia|]. done.
Qed.
End victim_lemmas.

Lemma eligible_idle m so now id meta :
  eligible m so now id meta = true →
  active_requests meta = 0 ∧
  (∀ st, eviction_states m !! id = Some st → st = Active) ∧
  from_secs (min_idle_secs (config m)) ≤ elapsed (last_used meta) now ∧
  (so = true → prefer_stateless (config m) = true → is_stateless meta = true).
Proof.
  unfold eligible, is_idle, idle_duration. intros H. bool_split. zreflect.
  split_and!; [done| |done|].
  - intros st Hst. rewrite Hst in *. by destruct st.
  - intros -> Hp. rewrite Hp in *. simpl in *. bool_split. by destruct (is_stateless meta).
Qed.

(** *** Draining *)

(** The completions of [id] in a sequence. *)
Definition completions (id : string) (os : list EvOp) : Z :=
  Z.of_nat (length (List.filter (λ o,
    match o with OpComplete i => bool_decide (i = id) | _ => false end) os)).

(** A sequence in which [id] itself only completes requests (the new ones are
    refused), while anything may happen to the others. *)
Definition only_completes (id : string) (o : EvOp) : Prop :=
  o = OpComplete id ∨ (op_id o ≠ None ∧ op_id o ≠ Some id).

Lemma complete_draining m id meta r :
  isolates m !! id = Some meta → eviction_states m !! id = Some (Draining r) →
  0 ≤ active_requests meta →
  let m' := mark_complete m id in
  isolates m' !! id = Some (decrement_active meta) ∧
  eviction_states m' !! id =
    Some (if active_requests meta <=? 1 then Evicted else Draining r) ∧
  evictions_total m' =
    if active_requests meta <=? 1 then add_u64 (evictions_total m) 1 else evictions_total m.
Proof.
  intros Hm Hs Hp. unfold mark_complete, check_draining_complete. simpl.
  rewrite lookup_alter_eq, Hm. simpl. rewrite Hs.
  assert (is_idle (decrement_active meta) = (active_requests meta <=? 1)) as ->.
  { unfold is_idle, decrement_active, set_active. rewrite Z.gtb_ltb.
    destruct (Z.ltb_spec 0 (active_requests meta)), (Z.leb_spec (active_requests meta) 1); simpl;
      destruct (Z.eqb_spec (active_requests meta - 1) 0),
               (Z.eqb_spec (active_requests meta) 0); lia || done. }
  destruct (_ <=? 1); simpl; rewrite ?lookup_alter_eq, ?lookup_insert_eq, ?Hm, ?Hs; done.
Qed.

Lemma complete_evicted m id :
  eviction_states m !! id = Some Evicted → eviction_states (mark_complete m id) !! id = Some Evicted.
Proof.
  intros Hs. unfold mark_complete, check_draining_complete. simpl. rewrite Hs. simpl.
  by repeat case_match.
Qed.

Lemma stage_evicted st : 3 ≤ stage st → st = Some Evicted.
Proof. destruct st as [[]|]; simpl; lia || done. Qed.

Lemma draining_run id os : ∀ m meta r,
  Forall (only_completes id) os →
  isolates m !! id = Some meta → eviction_states m !! id = Some (Draining r) →
  0 ≤ active_requests meta →
  eviction_states (ev_run m os) !! id =
    Some (if completions id os <? Z.max 1 (active_requests meta) then Draining r else Evicted).
Proof.
  induction os as [|o os IH]; intros m meta r Hos Hm Hs Hp.
  { simpl. unfold completions. simpl. rewrite (proj2 (Z.ltb_lt _ _)) by lia. done. }
  apply Forall_cons in Hos as [Ho Hos]. simpl ev_run. destruct Ho as [->|[Hn Hid]].
  - destruct (complete_draining m id meta r Hm Hs Hp) as (H1 & H2 & _). cbn zeta in *.
    assert (completions id (OpComplete id :: os) = 1 + completions id os) as ->.
    { unfold completions. simpl. rewrite bool_decide_true by done. simpl length. lia. }
    assert (0 ≤ completions id os) by (unfold completions; lia).
    destruct (Z.leb_spec (active_requests meta) 1) as [Hle|Hgt].
    + rewrite (proj2 (Z.ltb_ge _ _)) by lia.
      assert (stage (eviction_states (mark_complete m id) !! id) = 3) as Hst by (by rewrite H2).
      assert (Forall (λ o, replaces id o = false) os) as Hr.
      { eapply Forall_impl; [exact Hos|]. intros o [->|[? ?]]; [done|].
        destruct o; simpl in *; try done; apply bool_decide_eq_false; congruence. }
      destruct (ev_run_stage id (mark_complete m id) os Hr) as [H3 _]. simpl. rewrite Hst in H3.
      fold (ev_run (mark_complete m id) os).
      by apply stage_evicted.
    + simpl. fold (ev_run (mark_complete m id) os).
      rewrite (IH _ _ _ Hos H1 H2).
      * unfold decrement_active. rewrite Z.gtb_ltb, (proj2 (Z.ltb_lt 0 (active_requests meta))) by lia. simpl.
        f_equal. destruct (Z.ltb_spec (completions id os) (Z.max 1 (active_requests meta - 1))),
          (Z.ltb_spec (1 + completions id os) (Z.max 1 (active_requests meta))); lia || done.
      * unfold decrement_active. rewrite Z.gtb_ltb, (proj2 (Z.ltb_lt 0 (active_requests meta))) by lia. simpl. lia.
  - destruct (ev_step_other id m o Hn Hid) as [H1 H2].
    assert (completions id (o :: os) = completions id os) as ->.
    { unfold completions. simpl. destruct o; try done. rewrite bool_decide_false; [done|].
      simpl in Hid. congruence. }
    apply (IH (ev_step m o)); [done|by rewrite H1|by rewrite H2|done].
Qed.

(** ** Properties *)

(** [select_victims] picks the best candidates of the policy, whatever order
    the hash map iterates in: the victims are distinct registered isolates that
    pass the filter (not draining or evicted, no active request, idle for long
    enough, stateless where that is asked), there are as many as asked for or
    as pass the filter, and no isolate left behind ranks before a victim. *)
Theorem select_victims_best `{HashOrder IsolateMetadata} `{DefaultHasher} m count so now :
  0 ≤ count →
  let v := select_victims m count so now in
  let key := victim_key (policy (config m)) now in
  NoDup v ∧
  Z.of_nat (length v) = Z.min count (Z.of_nat (length (candidates m so now))) ∧
  (∀ id, id ∈ v → ∃ meta, isolates m !! id = Some meta ∧ eligible m so now id meta = true) ∧
  (∀ id meta id' meta',
     id ∈ v → isolates m !! id = Some meta →
     id' ∉ v → isolates m !! id' = Some meta' → eligible m so now id' meta' = true →
     key (id, meta) ≤ key (id', meta')).
Proof.
  intros Hc v key. split_and!.
  - unfold v. rewrite select_victims_ranked, fmap_take.
    pose proof (NoDup_ranked m so now) as Hn. rewrite <-(take_drop (Z.to_nat count) (ranked m so now).*1) in Hn.
    exact (proj1 (proj1 (NoDup_app _ _) Hn)).
  - unfold v. rewrite select_victims_ranked, length_fmap, length_take.
    unfold ranked. rewrite sort_by_key_perm. lia.
  - intros id. apply select_victims_eligible.
  - intros id meta id' meta' Hv Hm Hv' Hm' He'. subst v. rewrite select_victims_ranked in *.
    apply list_elem_of_fmap in Hv as ([k x] & -> & Hx). simpl in Hm.
    assert ((k, x) ∈ candidates m so now) as Hk.
    { apply elem_of_ranked. rewrite <-(take_drop (Z.to_nat count)). apply elem_of_app. by left. }
    apply elem_of_candidates in Hk as [Hk _]. simpl. assert (x = meta) as -> by congruence.
    eapply sorted_take_drop; [apply sort_by_key_sorted|exact Hx|].
    assert ((id', meta') ∈ ranked m so now) as Hr by (by apply elem_of_ranked, elem_of_candidates).
    rewrite <-(take_drop (Z.to_nat count)) in Hr. apply elem_of_app in Hr as [Hr|Hr]; [|exact Hr].
    exfalso. apply Hv', list_elem_of_fmap. by exists (id', meta').
Qed.

(** What [evaluate_pressure] may do.  Every isolate it names is registered,
    idle and (if its state is known) active; hard eviction happens only in an
    emergency, a non-empty soft eviction only under critical pressure and, where
    stateless isolates are preferred, only of stateless ones; during the
    cooldown nothing is evicted, even in an emergency; and outside it an
    emergency with an idle isolate evicts hard. *)
Theorem evaluate_pressure_safe `{HashOrder IsolateMetadata} `{DefaultHasher} m level now :
  let a := evaluate_pressure m level now in
  (∀ ids id, eviction_ids a = Some ids → id ∈ ids →
     ∃ meta, isolates m !! id = Some meta ∧ active_requests meta = 0 ∧
       (∀ st, eviction_states m !! id = Some st → st = Active) ∧
       (level = Critical → prefer_stateless (config m) = true → is_stateless meta = true)) ∧
  (is_hard a = true → level = Emergency) ∧
  (is_eviction a = true → requires_eviction level = true) ∧
  (∀ t, last_eviction m = Some t → as_secs (elapsed t now) < cooldown_secs (config m) →
     a = if requires_eviction level then Throttle else Allow) ∧
  (last_eviction m = None → level = Emergency →
     0 < target_eviction_count (config m) < two63 →
     (∃ id meta, isolates m !! id = Some meta ∧ eligible m false now id meta = true) →
     is_hard a = true).
Proof.
  intros a. subst a. unfold evaluate_pressure. split_and!.
  - intros ids id. destruct (last_eviction m); [destruct (_ <? _)|];
      [by destruct (requires_eviction level)| |]; destruct level; simpl; try done.
    all: match goal with |- context [select_victims ?a ?b ?c ?d] =>
      pose proof (select_victims_eligible a b c d id) as Hv; destruct (select_victims a b c d) end;
      simpl; try done; intros Hids Hid; injection Hids as <-; try (by apply elem_of_nil in Hid);
      destruct (Hv Hid) as (meta & Hm & He);
      destruct (eligible_idle _ _ _ _ _ He) as (H1 & H2 & _ & H4);
      exists meta; split_and!; auto; done.
  - destruct (last_eviction m); repeat case_match; simpl; congruence.
  - destruct (last_eviction m); repeat case_match; simpl in *; congruence.
  - intros t -> Hc. rewrite (proj2 (Z.ltb_lt _ _)) by done. done.
  - intros -> -> Ht (id & meta & Hm & He).
    destruct (select_victims m _ false now) eqn:E; [|done].
    apply select_victims_nil in E.
    + assert ((id, meta) ∈ candidates m false now) as Hin by (by apply elem_of_candidates).
      rewrite E in Hin. by apply elem_of_nil in Hin.
    + unfold mul_u64. rewrite as_u64_small by zlia. lia.
Qed.

(** Soft eviction lets the running requests finish: once an active isolate
    with [k] running requests is soft-evicted, it accepts no request, and while
    the other isolates do anything at all it stays draining until [k] of its
    requests completed, after which it is evicted.  An isolate with no running
    request stays draining too, until one (spurious) completion is reported. *)
Theorem soft_eviction_drains m id now meta os :
  isolates m !! id = Some meta → eviction_states m !! id = Some Active →
  0 ≤ active_requests meta → Forall (only_completes id) os →
  let '(m1, started) := initiate_soft_eviction m id now in
  let m2 := ev_run m1 os in
  started = true ∧ can_accept_requests m2 id = false ∧
  is_draining m2 id = (completions id os <? Z.max 1 (active_requests meta)) ∧
  is_evicted m2 id = negb (completions id os <? Z.max 1 (active_requests meta)).
Proof.
  intros Hm Hs Hp Hos. unfold initiate_soft_eviction. rewrite Hm, Hs. simpl is_active_state.
  cbv iota. match goal with |- context [ev_run ?m1 _] => set (m1' := m1) end.
  pose proof (draining_run id os m1' meta (active_requests meta) Hos) as Hd.
  unfold can_accept_requests, is_draining, is_evicted, state_is. cbn zeta.
  rewrite Hd; [|done|apply lookup_insert_eq|done]. by destruct (_ <? _).
Qed.

(** The stages of an isolate only move forward: over any operations that do
    not register, reactivate, unregister or clear it, an isolate never goes
    from evicted or draining back to accepting requests, nor from evicted back
    to draining, and it is neither lost nor created. *)
Theorem eviction_stages_monotone id m os :
  Forall (λ o, replaces id o = false) os →
  let m' := ev_run m os in
  stage (eviction_states m !! id) ≤ stage (eviction_states m' !! id) ∧
  (can_accept_requests m id = false → can_accept_requests m' id = false) ∧
  (is_evicted m id = true → is_evicted m' id = true) ∧
  (eviction_states m !! id = None ↔ eviction_states m' !! id = None).
Proof.
  intros Hos m'. destruct (ev_run_stage id m os Hos) as [H1 H2]. fold m' in H1, H2.
  split; [done|]. unfold can_accept_requests, is_evicted, state_is.
  destruct (eviction_states m !! id) as [[]|], (eviction_states m' !! id) as [[]|]; simpl in *;
    split_and!; try done; try lia; naive_solver.
Qed.

(** From a fresh manager, whatever is called, every isolate has exactly one
    eviction state and the three counts of [state_counts] add up to
    [isolate_count]. *)
Theorem eviction_tracking_invariant c os :
  let m := ev_run (ev_with_config c) os in
  dom (isolates m) = dom (eviction_states m) ∧
  (let '(a, d, e) := state_counts m in a + d + e = isolate_count m).
Proof.
  intros m. assert (tracked m) as Ht by (apply ev_run_tracked; unfold tracked; simpl; set_solver).
  split; [exact Ht|]. pose proof (state_counts_total m) as Hc.
  destruct (state_counts m) as [[a d] e]. rewrite Hc. unfold isolate_count.
  rewrite <-!size_dom. by rewrite Ht.
Qed.

(** The memory total is the sum of the footprints after a usage report of a
    registered isolate, but it is not recomputed when an isolate is removed or
    replaced: it goes on counting isolates that no longer exist. *)
Theorem total_memory_stale m id bytes now meta :
  isolates m !! id = Some meta →
  let m1 := record_usage m id bytes now in
  total_memory_bytes m1 = footprint_sum (isolates m1) ∧
  (memory_footprint <$> isolates m1 !! id) = Some bytes ∧
  (∀ id', total_memory_bytes (unregister_isolate m1 id') = total_memory_bytes m1) ∧
  (∀ id' meta', total_memory_bytes (reactivate_isolate m1 id' meta') = total_memory_bytes m1).
Proof.
  intros Hm m1. subst m1. unfold record_usage. rewrite Hm. simpl. rewrite lookup_insert_eq. done.
Qed.

(** Identifiers generated in one process are distinct: whatever the random
    parts (eight characters each), two different counter values give two
    different identifiers. *)
Theorem generate_distinct u v n k :
  String.length u = 8%nat → String.length v = 8%nat → in_u64 n → in_u64 k →
  (generate u n).1 = (generate v k).1 → n = k.
Proof.
  intros Hu Hv Hn Hk E. unfold generate in E. cbn [fst] in E.
  apply (str_app_inj_l "iso_") in E.
  assert (sdrop 8 (u +:+ "_" +:+ hex08 n) = sdrop 8 (v +:+ "_" +:+ hex08 k)) as E' by (by rewrite E).
  rewrite <-Hu in E' at 1. rewrite <-Hv in E'. rewrite !sdrop_app in E'.
  injection E' as E'. by apply hex08_inj.
Qed.

(** ** Witnesses *)

Section demo.
#[local] Instance demo_order : HashOrder IsolateMetadata := plain_order.
#[local] Instance demo_hasher : DefaultHasher := {| hash_str := λ s, slen s; hash_instant := λ t, t |}.

(** Three isolates: [a] used longest ago, [b] busy, [c] stateful and recent. *)
Definition demo_ops : list EvOp :=
  [OpRegister "a" (meta_new "a.example" 0 0);
   OpRegister "b" (meta_new "b.example" 1 0);
   OpRegister "c" (mark_stateful (meta_new "c.example" 2 0));
   OpUsage "a" 500 1000; OpUsage "b" 600 2000; OpUsage "c" 700 3000;
   OpActive "b"; OpActive "b"].

Definition demo_manager : EvictionManager := ev_run ev_new demo_ops.

Example demo_victims : select_victims demo_manager 2 false 4000 = ["a"; "c"].
Proof. vm_compute. reflexivity. Qed.

Example demo_emergency : evaluate_pressure demo_manager Emergency 4000 = HardEvict ["a"; "c"].
Proof. vm_compute. reflexivity. Qed.

Lemma select_victims_best_witness :
  NoDup (select_victims demo_manager 1 true 4000) ∧
  victim_key Lru 4000 ("a", mkMeta "a.example" 0 1000 1 500 true 0 0) ≤
  victim_key Lru 4000 ("c", mkMeta "c.example" 2 3000 1 700 false 0 0).
Proof.
  split; [exact (proj1 (select_victims_best demo_manager 1 true 4000 ltac:(lia)))|].
  apply (proj2 (proj2 (proj2 (select_victims_best demo_manager 1 false 4000 ltac:(lia))))).
  - assert (select_victims demo_manager 1 false 4000 = ["a"]) as -> by (vm_compute; reflexivity).
    constructor.
  - vm_compute. reflexivity.
  - assert (select_victims demo_manager 1 false 4000 = ["a"]) as -> by (vm_compute; reflexivity).
    intros H%list_elem_of_singleton. discriminate H.
  - vm_compute. reflexivity.
  - vm_compute. reflexivity.
Defined.

Lemma evaluate_pressure_safe_witness :
  is_hard (evaluate_pressure demo_manager Emergency 4000) = true.
Proof.
  apply (proj2 (proj2 (proj2 (proj2 (evaluate_pressure_safe demo_manager Emergency 4000)))));
    [reflexivity|reflexivity|vm_compute; split; reflexivity|].
  exists "a", (mkMeta "a.example" 0 1000 1 500 true 0 0). split; vm_compute; reflexivity.
Defined.
End demo.

Lemma soft_eviction_drains_witness :
  let m1 := (initiate_soft_eviction demo_manager "b" 5000).1 in
  is_draining (ev_run m1 [OpComplete "b"; OpActive "a"]) "b" = true ∧
  is_evicted (ev_run m1 [OpComplete "b"; OpActive "a"; OpComplete "b"]) "b" = true.
Proof.
  split.
  - apply (soft_eviction_drains demo_manager "b" 5000 (mkMeta "b.example" 1 2000 1 600 true 2 0)
             [OpComplete "b"; OpActive "a"]); [vm_compute; reflexivity..|simpl; lia|].
    repeat apply Forall_cons_2; try apply Forall_nil_2; unfold only_completes; simpl;
      first [left; reflexivity | right; split; congruence].
  - apply (soft_eviction_drains demo_manager "b" 5000 (mkMeta "b.example" 1 2000 1 600 true 2 0)
             [OpComplete "b"; OpActive "a"; OpComplete "b"]); [vm_compute; reflexivity..|simpl; lia|].
    repeat apply Forall_cons_2; try apply Forall_nil_2; unfold only_completes; simpl;
      first [left; reflexivity | right; split; congruence].
Defined.

Lemma eviction_stages_monotone_witness :
  is_evicted (ev_run (hard_evict demo_manager "a" 9) [OpSoft "a" 10; OpComplete "a"]) "a" = true.
Proof.
  apply (eviction_stages_monotone "a" (hard_evict demo_manager "a" 9) [OpSoft "a" 10; OpComplete "a"]);
    [repeat constructor|vm_compute; reflexivity].
Defined.

Lemma total_memory_stale_witness :
  total_memory_bytes (unregister_isolate (record_usage demo_manager "a" 900 8000) "a") =
  total_memory_bytes (record_usage demo_manager "a" 900 8000).
Proof.
  apply (total_memory_stale demo_manager "a" 900 8000 (mkMeta "a.example" 0 1000 1 500 true 0 0)).
  vm_compute. reflexivity.
Defined.

Lemma generate_distinct_witness : (generate "a3f7b2d8" 42).1 = "iso_a3f7b2d8_0000002a" ∧ 42 = 42.
Proof.
  split; [vm_compute; reflexivity|].
  apply (generate_distinct "a3f7b2d8" "a3f7b2d8" 42 42); (reflexivity || split; vm_compute; done).
Defined.
