(* ===== verification/Limits.v ===== *)
(** * [src/limits.rs]: the compile-time resource limits

    One constant per [pub const]; the modules of the source are modules here.
    The [u64] arithmetic of [stats] keeps its wrap-around. *)

From stdpp Require Import base.
From Stdlib Require Import ZArith Lia.
From S2P Require Import Prelude.

Open Scope Z_scope.

Module isolate.
Definition POOL_SIZE_MAX : Z := 10000.
Definition HEAP_SIZE_BYTES_PER_ISOLATE : Z := 128 * 1024 * 1024.
Definition HEAP_SIZE_BYTES_MAX : Z := 256 * 1024 * 1024.
End isolate.

Module queue.
Definition DEPTH_MAX : Z := 10000.
Definition WORKERS_PER_APP_MAX : Z := 64.
Definition PER_WORKER_CAPACITY : Z := 256.
End queue.

Module buffer.
Definition REQUEST_POOL_SIZE : Z := 1000.
Definition REQUEST_SIZE_BYTES_MAX : Z := 10 * 1024 * 1024.
Definition RESPONSE_SIZE_BYTES_MAX : Z := 10 * 1024 * 1024.
End buffer.

Module execution.
Definition SCRIPT_SIZE_BYTES_MAX : Z := 10 * 1024 * 1024.
Definition TIMEOUT_MS : Z := 30000.
Definition EVENT_LOOP_ITERATIONS_MAX : Z := 10000.
Definition CALL_STACK_DEPTH_MAX : Z := 100.
End execution.

Module http.
Definition HEADER_COUNT_MAX : Z := 100.
Definition HEADER_SIZE_BYTES_MAX : Z := 8 * 1024.
Definition BODY_SIZE_BYTES_MAX : Z := 10 * 1024 * 1024.
End http.

Module vfs.
Definition FILE_COUNT_MAX : Z := 100000.
Definition STORAGE_BYTES_MAX : Z := 1024 * 1024 * 1024.
Definition FILE_SIZE_BYTES_MAX : Z := 100 * 1024 * 1024.
Definition PATH_LENGTH_BYTES_MAX : Z := 4096.
End vfs.

(** [size_of::<usize>()] is 8 on the 64-bit target. *)
Definition total_static_allocation_bytes : Z :=
  let isolate_memory := mul_u64 isolate.POOL_SIZE_MAX isolate.HEAP_SIZE_BYTES_PER_ISOLATE in
  let queue_memory := mul_u64 queue.DEPTH_MAX 8 in
  let buffer_memory := mul_u64 buffer.REQUEST_POOL_SIZE buffer.REQUEST_SIZE_BYTES_MAX in
  add_u64 (add_u64 isolate_memory queue_memory) buffer_memory.

Definition total_static_allocation_mb : Z := total_static_allocation_bytes / (1024 * 1024).

(** Every limit is a [u32] except the totals, which do not wrap a [u64]. *)
Lemma total_static_allocation_value :
  total_static_allocation_bytes =
    isolate.POOL_SIZE_MAX * isolate.HEAP_SIZE_BYTES_PER_ISOLATE + queue.DEPTH_MAX * 8 +
    buffer.REQUEST_POOL_SIZE * buffer.REQUEST_SIZE_BYTES_MAX ∧
  total_static_allocation_mb = 1290000.
Proof. split; vm_compute; reflexivity. Qed.
