(* ===== verification/ControlPlane.v ===== *)
(** * [src/control_plane.rs]: request validation and batching

    The methods are modelled one call at a time (each takes its mutexes for the
    whole of its work on them); the assertion macros of [src/assertions.rs] are
    [assert!]s, whose failure ends the process ([outcome]).  A [HandlerTask] is
    its validated fields plus the identity of the reply channel. *)

From stdpp Require Import base gmap list strings.
From Stdlib Require Import Ascii ZArith Lia.
From S2P Require Import Prelude RustString RustList.
From S2P Require Limits.

Open Scope Z_scope.

Definition BATCH_SIZE_MAX : Z := 64.
Definition BATCH_WAIT_MS : Z := 10.
Definition MAX_PENDING_BATCHES : Z := 10000.
Definition MAX_ENTRYPOINT_PATH_LEN : Z := 4096.
Definition MAX_REQUEST_ID_LEN : Z := 64.

(** ** Data *)

(** [worker::HandlerTask]: of the request, its method and the length of its
    body; of the [oneshot] sender, its identity. *)
Record HandlerTask := mkTask {
  entrypoint : string;
  request_method : string;
  request_body : option Z;
  response_tx : Z;
  task_hostname : string;
  start_time : Z;
  cpu_time_limit_ms : Z;
  request_id : string;
  memory_limit_mb : Z;
}.

Definition body_size (t : HandlerTask) : Z :=
  match request_body t with Some n => n | None => 0 end.

Inductive ControlError :=
| ValidationError (e : string)
| TenantNotFound (t : string)
| LimitExceeded (l : string)
| NotInitialized
| QueueFull
| DispatchError (e : string).

Record ValidatedRequest := mkVR {
  task : HandlerTask;
  script_size : Z;
  timeout_ms : Z;
  priority : Z;
  validated_at : Z;
}.

Record RequestBatch := mkBatch {
  tenant_id : string;
  batch_requests : list ValidatedRequest;
  batch_created_at : Z;
}.

Record TenantLimits := mkTL {
  max_script_size : Z;
  max_timeout_ms : Z;
  max_batch_size : Z;
  allowed_methods : list string;
}.

Definition default_tenant_limits : TenantLimits :=
  mkTL Limits.execution.SCRIPT_SIZE_BYTES_MAX Limits.execution.TIMEOUT_MS BATCH_SIZE_MAX
       ["GET"; "POST"; "PUT"; "DELETE"; "PATCH"; "HEAD"; "OPTIONS"].

Record ControlMetrics := mkMetrics {
  requests_submitted : Z;
  requests_validated : Z;
  requests_rejected : Z;
  batches_created : Z;
  batches_flushed : Z;
  batches_timeout_flushed : Z;
  batches_size_flushed : Z;
  total_validation_time_us : Z;
}.

Definition zero_metrics : ControlMetrics := mkMetrics 0 0 0 0 0 0 0 0.

Record PendingBatch := mkPB {
  requests : list ValidatedRequest;
  created_at : Z;
}.

Record BatchQueue := mkBQ {
  pending : gmap string PendingBatch;
  bq_max_batch_size : Z;
  max_batch_wait_ms : Z;
}.

Record ControlPlane := mkCP {
  is_initialized : bool;
  batch_queue : BatchQueue;
  metrics : ControlMetrics;
  next_id : Z;
  tenant_registry : gmap string TenantLimits;
}.

(** ** The batch queue *)

(** [assert_range!] *)
Definition in_range (v lo hi : Z) : bool := (lo <=? v) && (v <=? hi).

Definition batch_queue_new (size wait : Z) : outcome BatchQueue :=
  assert! (size >? 0) or "max batch size must be positive" in
  assert! (wait >? 0) or "max batch wait must be positive" in
  assert! (in_range size 1 1000) or "max_batch_size range" in
  assert! (in_range wait 1 1000) or "max_batch_wait_ms range" in
  Done (mkBQ ∅ size wait).

Definition pending_count (q : BatchQueue) : Z := Z.of_nat (size (pending q)).

Definition set_pending (q : BatchQueue) (p : gmap string PendingBatch) : BatchQueue :=
  mkBQ p (bq_max_batch_size q) (max_batch_wait_ms q).

Definition flush_batch (q : BatchQueue) (tid : string) : outcome (BatchQueue * Z) :=
  match pending q !! tid with
  | Some b =>
    assert! (negb (bool_decide (requests b = []))) or "flushed batch must not be empty" in
    Done (set_pending q (delete tid (pending q)), Z.of_nat (length (requests b)))
  | None => Done (q, 0)
  end.

Definition add_to_batch (q : BatchQueue) (r : ValidatedRequest) (now : Z)
  : outcome (BatchQueue * result Z ControlError) :=
  let tid := task_hostname (task r) in
  assert! (negb (is_empty tid)) or "tenant ID must not be empty" in
  let b := default (mkPB [] now) (pending q !! tid) in
  assert! (Z.of_nat (length (requests b)) <? bq_max_batch_size q)
    or "batch size must be below maximum before adding request" in
  let b' := mkPB (requests b ++ [r]) (created_at b) in
  let q' := set_pending q (<[tid := b']> (pending q)) in
  let current_size := Z.of_nat (length (requests b')) in
  if current_size >=? bq_max_batch_size q then
    let! fr := flush_batch q' tid in Done (fr.1, Ok fr.2)
  else Done (q', Ok current_size).

(** [age_ms]: the [u32] cast of the [u128] milliseconds *)
Definition age_ms (b : PendingBatch) (now : Z) : Z := as_u32 (as_millis (elapsed (created_at b) now)).

Section drain.
Context {HO : HashOrder PendingBatch}.

Definition batch_ready (q : BatchQueue) (now : Z) (b : PendingBatch) : bool :=
  (Z.of_nat (length (requests b)) >=? bq_max_batch_size q) || (age_ms b now >=? max_batch_wait_ms q).

(** The first loop: the assertion, then the tenants to remove. *)
Fixpoint collect_ready (q : BatchQueue) (now : Z) (l : list (string * PendingBatch))
  : outcome (list string) :=
  match l with
  | [] => Done []
  | (tid, b) :: l' =>
    assert! (age_ms b now <=? mul_u32 (max_batch_wait_ms q) 2)
      or "batch age should not exceed twice the max wait time" in
    let! rest := collect_ready q now l' in
    Done (if batch_ready q now b then tid :: rest else rest)
  end.

(** The second loop. *)
Fixpoint remove_ready (p : gmap string PendingBatch) (now : Z) (tids : list string)
  : gmap string PendingBatch * list RequestBatch :=
  match tids with
  | [] => (p, [])
  | tid :: tids' =>
    match p !! tid with
    | Some b =>
      let '(p', rest) := remove_ready (delete tid p) now tids' in
      (p', mkBatch tid (requests b) now :: rest)
    | None => remove_ready p now tids'
    end
  end.

Definition drain_ready_batches (q : BatchQueue) (now : Z) : outcome (BatchQueue * list RequestBatch) :=
  let! tids := collect_ready q now (hash_iter (pending q)) in
  let '(p, ready) := remove_ready (pending q) now tids in
  Done (set_pending q p, ready).

Definition drain_all_batches (q : BatchQueue) : BatchQueue * list RequestBatch :=
  (set_pending q ∅,
   omap (λ e : string * PendingBatch,
           if bool_decide (requests e.2 = []) then None
           else Some (mkBatch e.1 (requests e.2) (created_at e.2)))
        (hash_iter (pending q))).

(** ** The control plane *)

Definition control_plane_new : outcome ControlPlane :=
  let! q := batch_queue_new BATCH_SIZE_MAX BATCH_WAIT_MS in
  Done (mkCP true q zero_metrics 0 {["default" := default_tenant_limits]}).

Definition tenant_exists (cp : ControlPlane) (tid : string) : bool :=
  if is_empty tid then true
  else bool_decide (is_Some (tenant_registry cp !! tid))
       || String.eqb tid "default" || String.eqb tid "localhost".

(** The effective timeout of a task. *)
Definition effective_timeout (t : HandlerTask) : Z :=
  if cpu_time_limit_ms t >? 0 then cpu_time_limit_ms t else Limits.execution.TIMEOUT_MS.

Definition validate_request_ref (cp : ControlPlane) (t : HandlerTask)
  : outcome (result unit ControlError) :=
  let script_size := as_u32 (slen (entrypoint t)) in
  assert! (script_size >? 0) or "script size must be positive" in
  assert! (negb (script_size >? Limits.execution.SCRIPT_SIZE_BYTES_MAX))
    or "script path indicates potential oversize script" in
  let timeout_ms := effective_timeout t in
  assert! (in_range timeout_ms 1 Limits.execution.TIMEOUT_MS) or "timeout range" in
  assert! (tenant_exists cp (task_hostname t)) or "tenant must exist" in
  assert! (body_size t <=? Limits.buffer.REQUEST_SIZE_BYTES_MAX) or "request body size" in
  assert! (timeout_ms >? 0) or "validated request must have valid timeout" in
  Done (Ok tt).

Definition validate_request (cp : ControlPlane) (t : HandlerTask) (now : Z)
  : outcome (result ValidatedRequest ControlError) :=
  let script_size := as_u32 (slen (entrypoint t)) in
  assert! (script_size >? 0) or "script size must be positive" in
  assert! (negb (script_size >? Limits.execution.SCRIPT_SIZE_BYTES_MAX))
    or "script path indicates potential oversize script" in
  let timeout_ms := effective_timeout t in
  assert! (in_range timeout_ms 1 Limits.execution.TIMEOUT_MS) or "timeout range" in
  assert! (tenant_exists cp (task_hostname t)) or "tenant must exist" in
  assert! (match tenant_registry cp !! task_hostname t with
           | Some l => max_batch_size l <=? as_u32 BATCH_SIZE_MAX
           | None => true
           end) or "tenant batch size" in
  assert! (timeout_ms >? 0) or "validated request must have valid timeout" in
  Done (Ok (mkVR t script_size timeout_ms 5 now)).

(** [submit_request]; [now] stands for every clock reading of the call and
    [spent_us] for the time between the two it subtracts. *)
Definition submit_request (cp : ControlPlane) (t : HandlerTask) (now spent_us : Z)
  : outcome (ControlPlane * result Z ControlError) :=
  assert! (is_initialized cp) or "control plane must be initialized" in
  assert! (negb (is_empty (entrypoint t))) or "entrypoint must not be empty" in
  assert! (negb (slen (entrypoint t) >? MAX_ENTRYPOINT_PATH_LEN))
    or "entrypoint path exceeds maximum length" in
  assert! (in_range (slen (entrypoint t)) 1 MAX_ENTRYPOINT_PATH_LEN) or "entrypoint range" in
  assert! (negb (is_empty (task_hostname t))) or "hostname must not be empty" in
  assert! (negb (contains_char nul (task_hostname t))) or "hostname contains invalid characters" in
  assert! (negb (is_empty (request_method t))) or "request method must not be empty" in
  assert! (body_size t <=? Limits.buffer.REQUEST_SIZE_BYTES_MAX) or "request body size" in
  assert! (negb (body_size t >? Limits.http.BODY_SIZE_BYTES_MAX)) or "body size exceeds absolute maximum" in
  assert! (in_range (cpu_time_limit_ms t) 0 Limits.execution.TIMEOUT_MS) or "CPU time range" in
  assert! (negb (is_empty (request_id t))) or "request ID must not be empty" in
  assert! (slen (request_id t) <=? MAX_REQUEST_ID_LEN) or "request ID length" in
  assert! (tenant_exists cp (task_hostname t)) or "tenant must exist in registry" in
  let! vr := validate_request cp t now in
  match vr with
  | Err e => Done (cp, Err e)
  | Ok v =>
    assert! (script_size v >? 0) or "validated script size must be positive" in
    let! qr := add_to_batch (batch_queue cp) v now in
    let q' := qr.1 in
    let cp' := mkCP (is_initialized cp) q' (metrics cp) (next_id cp) (tenant_registry cp) in
    match qr.2 with
    | Err e => Done (cp', Err e)
    | Ok _ =>
      assert! (pending_count q' <=? MAX_PENDING_BATCHES)
        or "batch queue pending count within limits" in
      let m := metrics cp in
      let m' := mkMetrics (add_u64 (requests_submitted m) 1) (add_u64 (requests_validated m) 1)
                  (requests_rejected m) (batches_created m) (batches_flushed m)
                  (batches_timeout_flushed m) (batches_size_flushed m)
                  (add_u64 (total_validation_time_us m) (as_u64 spent_us)) in
      Done (mkCP (is_initialized cp) q' m' (add_u64 (next_id cp) 1) (tenant_registry cp),
            Ok (next_id cp))
    end
  end.

Definition count_flushed (m : ControlMetrics) (n : Z) : ControlMetrics :=
  mkMetrics (requests_submitted m) (requests_validated m) (requests_rejected m)
            (batches_created m) (add_u64 (batches_flushed m) n) (batches_timeout_flushed m)
            (batches_size_flushed m) (total_validation_time_us m).

(** The loop of assertions over the drained batches. *)
Fixpoint check_batches {A} (bs : list RequestBatch) (k : outcome A) : outcome A :=
  match bs with
  | [] => k
  | b :: bs' =>
    assert! (negb (bool_decide (batch_requests b = []))) or "batch must not be empty after draining" in
    assert! (in_range (Z.of_nat (length (batch_requests b))) 1 BATCH_SIZE_MAX) or "batch size range" in
    assert! (negb (is_empty (tenant_id b))) or "batch tenant ID must not be empty" in
    check_batches bs' k
  end.

Definition process_batches (cp : ControlPlane) (now : Z)
  : outcome (ControlPlane * list RequestBatch) :=
  assert! (is_initialized cp) or "control plane must be initialized before processing batches" in
  let! dr := drain_ready_batches (batch_queue cp) now in
  let n := Z.of_nat (length dr.2) in
  check_batches dr.2 (
    assert! (n <=? MAX_PENDING_BATCHES) or "drained batch count within limits" in
    Done (mkCP (is_initialized cp) dr.1 (count_flushed (metrics cp) n) (next_id cp)
               (tenant_registry cp), dr.2)).

Definition register_tenant (cp : ControlPlane) (tid : string) (l : TenantLimits)
  : outcome ControlPlane :=
  assert! (negb (is_empty tid)) or "tenant ID must not be empty" in
  assert! (negb (contains_char nul tid)) or "tenant ID contains invalid chars" in
  assert! (in_range (max_script_size l) 1 Limits.execution.SCRIPT_SIZE_BYTES_MAX) or "script size range" in
  assert! (in_range (max_timeout_ms l) 100 Limits.execution.TIMEOUT_MS) or "timeout range" in
  Done (mkCP (is_initialized cp) (batch_queue cp) (metrics cp) (next_id cp)
             (<[tid := l]> (tenant_registry cp))).

Definition pending_batch_count (cp : ControlPlane) : Z := pending_count (batch_queue cp).

Definition flush_all (cp : ControlPlane) : outcome (ControlPlane * list RequestBatch) :=
  assert! (is_initialized cp) or "control plane must be initialized" in
  let '(q, bs) := drain_all_batches (batch_queue cp) in
  Done (mkCP (is_initialized cp) q (count_flushed (metrics cp) (Z.of_nat (length bs)))
             (next_id cp) (tenant_registry cp), bs).
End drain.

(** [WorkQueue::ensure_tenant] (src/worker/queue.rs), on its control plane. *)
Definition auto_limits : TenantLimits :=
  mkTL (10 * 1024 * 1024) 30000 100 ["GET"; "POST"; "PUT"; "DELETE"].

Definition ensure_tenant (cp : ControlPlane) (hostname : string) : outcome ControlPlane :=
  if tenant_exists cp hostname then Done cp else register_tenant cp hostname auto_limits.

(** ** Invariant and abstraction *)

(** The requests waiting for a tenant. *)
Definition queue_of (q : BatchQueue) (tid : string) : list ValidatedRequest :=
  from_option requests [] (pending q !! tid).

(** Pending batches are neither empty nor full, and belong to a named tenant. *)
Definition bq_inv (q : BatchQueue) : Prop :=
  1 ≤ bq_max_batch_size q ∧
  map_Forall (λ tid b, tid ≠ "" ∧ 1 ≤ Z.of_nat (length (requests b)) < bq_max_batch_size q)
             (pending q).

Lemma bq_inv_short q tid :
  bq_inv q → Z.of_nat (length (queue_of q tid)) < bq_max_batch_size q.
Proof.
  intros [H1 H2]. unfold queue_of. destruct (pending q !! tid) eqn:E; simpl; [|lia].
  apply H2 in E. lia.
Qed.

Lemma queue_of_set q p tid : queue_of (set_pending q p) tid = from_option requests [] (p !! tid).
Proof. done. Qed.

(** [add_to_batch] in a queue that satisfies the invariant: the request joins
    its tenant's batch, and a batch that becomes full is dropped. *)
Lemma add_to_batch_spec q r now :
  bq_inv q → task_hostname (task r) ≠ "" →
  let tid := task_hostname (task r) in
  let l := queue_of q tid ++ [r] in
  let full := Z.of_nat (length l) >=? bq_max_batch_size q in
  ∃ q', add_to_batch q r now = Done (q', Ok (Z.of_nat (length l))) ∧
    bq_inv q' ∧ bq_max_batch_size q' = bq_max_batch_size q ∧
    max_batch_wait_ms q' = max_batch_wait_ms q ∧
    pending_count q' ≤ pending_count q + 1 ∧
    (∀ t, queue_of q' t = if decide (t = tid) then (if full then [] else l) else queue_of q t).
Proof.
  intros Hinv Hne tid l full. pose proof (bq_inv_short q tid Hinv) as Hshort.
  destruct Hinv as [H1 H2]. unfold add_to_batch. fold tid. cbv zeta.
  rewrite assert_true by (apply negb_true_iff, is_empty_false; exact Hne).
  assert (requests (default (mkPB [] now) (pending q !! tid)) = queue_of q tid) as Hreq
    by (unfold queue_of; by destruct (pending q !! tid)).
  rewrite Hreq. rewrite assert_true by (by apply Z.ltb_lt). cbn [requests]. fold l. fold full.
  assert (length l = S (length (queue_of q tid))) as Hlen by (unfold l; rewrite length_app; simpl; lia).
  destruct full eqn:Efull.
  - unfold flush_batch. cbn [pending set_pending bq_max_batch_size max_batch_wait_ms].
    rewrite lookup_insert_eq. rewrite assert_true.
    2: { apply negb_true_iff, bool_decide_eq_false. simpl. intros E. rewrite E in Hlen. done. }
    cbn [outcome_bind fst snd requests]. eexists. split; [done|]. rewrite delete_insert_eq.
    split_and!; try done.
    + split; [done|]. by apply map_Forall_delete.
    + unfold pending_count. cbn [pending set_pending]. pose proof (map_size_delete tid (pending q)) as Hs.
      rewrite Hs. destruct (pending q !! tid); simpl; unfold id; lia.
    + intros t. rewrite queue_of_set. unfold queue_of.
      destruct (decide (t = tid)) as [->|]; [by rewrite lookup_delete_eq|].
      by rewrite lookup_delete_ne.
  - eexists. split; [done|]. unfold full in Efull. zreflect. split_and!; try done.
    + split; [done|]. cbn [pending set_pending bq_max_batch_size]. apply map_Forall_insert_2; [|done].
      simpl. split; [exact Hne|]. lia.
    + unfold pending_count. cbn [pending set_pending].
      rewrite map_size_insert. destruct (pending q !! tid); simpl; unfold id; lia.
    + intros t. rewrite queue_of_set. unfold queue_of.
      destruct (decide (t = tid)) as [->|]; [by rewrite lookup_insert_eq|].
      by rewrite lookup_insert_ne.
Qed.

(** Adding a list of requests, each at its own time. *)
Fixpoint run_adds (q : BatchQueue) (rs : list (ValidatedRequest * Z)) : outcome BatchQueue :=
  match rs with
  | [] => Done q
  | (r, now) :: rs' => let! a := add_to_batch q r now in run_adds a.1 rs'
  end.

(** The requests of one tenant, in order. *)
Definition of_tenant (tid : string) (rs : list (ValidatedRequest * Z)) : list ValidatedRequest :=
  base.filter (λ r, task_hostname (task r) = tid) rs.*1.

(** What is left of a tenant's queue of at most [n - 1] requests when [n]-full
    groups are dropped as they fill up. *)
Definition remainder {A} (n : nat) (l : list A) : list A :=
  drop (length l - length l mod n) l.

Lemma length_remainder {A} n (l : list A) : (0 < n)%nat → length (remainder n l) = (length l mod n)%nat.
Proof.
  intros Hn. unfold remainder. rewrite length_drop.
  pose proof (Nat.mod_le (length l) n). lia.
Qed.

Lemma remainder_snoc {A} n (l : list A) x :
  (0 < n)%nat →
  remainder n (l ++ [x]) =
    if (n <=? S (length (remainder n l)))%nat then [] else remainder n l ++ [x].
Proof.
  intros Hn. rewrite length_remainder by done. unfold remainder. rewrite length_app. simpl.
  pose proof (Nat.mod_upper_bound (length l) n). pose proof (Nat.mod_le (length l) n).
  pose proof (Nat.div_mod (length l) n).
  destruct (Nat.leb_spec n (S (length l mod n))).
  - assert ((length l + 1) mod n = 0)%nat as ->.
    { symmetry. apply (Nat.mod_unique _ _ (S (length l / n))); lia. }
    apply drop_ge. rewrite length_app. simpl. lia.
  - assert ((length l + 1) mod n = S (length l mod n))%nat as ->.
    { symmetry. apply (Nat.mod_unique _ _ (length l / n)); lia. }
    rewrite drop_app_le by lia. do 2 f_equal. lia.
Qed.

Lemma remainder_app {A} n (a b : list A) :
  (0 < n)%nat → remainder n (remainder n a ++ b) = remainder n (a ++ b).
Proof.
  intros Hn. induction b as [|x b IH] using rev_ind.
  - rewrite !app_nil_r. unfold remainder at 1. rewrite length_remainder by done.
    rewrite Nat.Div0.mod_mod. by replace (_ - _)%nat with 0%nat by lia.
  - rewrite !app_assoc, !remainder_snoc by done. by rewrite IH.
Qed.

Lemma run_adds_spec rs : ∀ q,
  bq_inv q → Forall (λ e, task_hostname (task e.1) ≠ "") rs →
  ∃ q', run_adds q rs = Done q' ∧ bq_inv q' ∧ bq_max_batch_size q' = bq_max_batch_size q ∧
    ∀ t, queue_of q' t = remainder (Z.to_nat (bq_max_batch_size q)) (queue_of q t ++ of_tenant t rs).
Proof.
  induction rs as [|[r now] rs IH]; intros q Hq Hrs; simpl.
  - exists q. split_and!; try done. intros t. rewrite app_nil_r. unfold remainder.
    pose proof (bq_inv_short q t Hq). rewrite Nat.mod_small by lia.
    by replace (_ - _)%nat with 0%nat by lia.
  - apply Forall_cons in Hrs as [Hr Hrs].
    destruct (add_to_batch_spec q r now Hq Hr) as (q1 & -> & Hq1 & Hm & _ & _ & Hl). cbn [outcome_bind fst].
    destruct (IH q1 Hq1 Hrs) as (q2 & -> & Hq2 & Hm2 & Hl2). rewrite Hm in *.
    exists q2. split_and!; try done. intros t. rewrite Hl2, Hl.
    unfold of_tenant. cbn [fmap list_fmap fst]. rewrite filter_cons.
    destruct Hq as [Hpos Hall]. pose proof (bq_inv_short q (task_hostname (task r)) (conj Hpos Hall)).
    destruct (decide (t = _)) as [->|Hne].
    + rewrite decide_True by done. rewrite (cons_middle r _ (base.filter _ _)), app_assoc.
      rewrite <-(remainder_app _ (queue_of q _ ++ [r])) by lia. f_equal. f_equal.
      rewrite remainder_snoc by lia.
      assert (remainder (Z.to_nat (bq_max_batch_size q)) (queue_of q (task_hostname (task r))) =
              queue_of q (task_hostname (task r))) as ->.
      { unfold remainder. rewrite Nat.mod_small by lia. by replace (_ - _)%nat with 0%nat by lia. }
      rewrite length_app. simpl length.
      destruct (Z.geb_spec (Z.of_nat (length (queue_of q (task_hostname (task r))) + 1)) (bq_max_batch_size q)),
        (Nat.leb_spec (Z.to_nat (bq_max_batch_size q)) (S (length (queue_of q (task_hostname (task r))))));
        done || lia.
    + rewrite decide_False by congruence. done.
Qed.

(** *** Draining *)

Section drain_lemmas.
Context {HO : HashOrder PendingBatch}.

Lemma drain_all_elem q tid l :
  (∃ b, b ∈ (drain_all_batches q).2 ∧ tenant_id b = tid ∧ batch_requests b = l) ↔
  l ≠ [] ∧ pending q !! tid ≠ None ∧ queue_of q tid = l.
Proof.
  unfold drain_all_batches, queue_of. cbn [snd]. split.
  - intros (b & Hb & <- & <-). apply list_elem_of_omap in Hb as ([k pb] & Hin & He).
    apply elem_of_hash_iter in Hin. simpl in He. case_bool_decide; [done|]. injection He as <-.
    simpl. by rewrite Hin.
  - intros (Hl & Hn & Hq). destruct (pending q !! tid) as [pb|] eqn:E; [|done]. simpl in Hq.
    exists (mkBatch tid (requests pb) (created_at pb)). split; [|done].
    apply list_elem_of_omap. exists (tid, pb). split; [by apply elem_of_hash_iter|]. simpl.
    rewrite bool_decide_false; [done|]. by subst l.
Qed.

Lemma omap_tenants (l : list (string * PendingBatch)) :
  NoDup l.*1 →
  NoDup (tenant_id <$> omap (λ e : string * PendingBatch,
           if bool_decide (requests e.2 = []) then None
           else Some (mkBatch e.1 (requests e.2) (created_at e.2))) l).
Proof.
  induction l as [|[k b] l IH]; simpl; [constructor|]. intros [Hk Hl]%NoDup_cons.
  case_bool_decide; [by apply IH|]. simpl. constructor; [|by apply IH].
  intros Hin. apply Hk. apply list_elem_of_fmap in Hin as (x & -> & Hx).
  apply list_elem_of_omap in Hx as ([k' b'] & Hin & He). simpl in He. case_bool_decide; [done|].
  injection He as <-. apply list_elem_of_fmap. by exists (k', b').
Qed.

Lemma drain_all_nodup q : NoDup (tenant_id <$> (drain_all_batches q).2).
Proof. apply omap_tenants, NoDup_hash_iter. Qed.

Lemma collect_ready_spec q now l tids :
  collect_ready q now l = Done tids ↔
  Forall (λ e, age_ms e.2 now ≤ mul_u32 (max_batch_wait_ms q) 2) l ∧
  tids = (List.filter (λ e, batch_ready q now e.2) l).*1.
Proof.
  revert tids. induction l as [|[k b] l IH]; intros tids; simpl; [naive_solver|].
  rewrite assert_done, outcome_bind_done. setoid_rewrite IH. rewrite Z.leb_le, Forall_cons. simpl.
  split.
  - intros (H1 & a & (H2 & ->) & H3). injection H3 as <-. split; [done|].
    by destruct (batch_ready q now b).
  - intros ([H1 H2] & ->). split; [done|]. eexists. split; [done|].
    by destruct (batch_ready q now b).
Qed.

Lemma remove_ready_spec tids : ∀ p now,
  NoDup tids →
  let '(p', bs) := remove_ready p now tids in
  (∀ t, p' !! t = if decide (t ∈ tids) then None else p !! t) ∧
  (∀ t l, (∃ b, b ∈ bs ∧ tenant_id b = t ∧ batch_requests b = l) ↔
          t ∈ tids ∧ ∃ pb, p !! t = Some pb ∧ requests pb = l).
Proof.
  induction tids as [|k tids IH]; intros p now Hnd; simpl.
  { split; [done|]. intros t l. split; [intros (b & Hb & _); by apply elem_of_nil in Hb|].
    intros [Ht _]. by apply elem_of_nil in Ht. }
  apply NoDup_cons in Hnd as [Hk Hnd].
  destruct (p !! k) as [pb|] eqn:E.
  - specialize (IH (delete k p) now Hnd).
    destruct (remove_ready (delete k p) now tids) as [p' bs]. destruct IH as [H1 H2]. split.
    + intros t. rewrite H1. destruct (decide (t = k)) as [->|Hne].
      * rewrite (decide_True (P := k ∈ k :: tids)) by constructor.
        rewrite decide_False by done. by rewrite lookup_delete_eq.
      * rewrite lookup_delete_ne by done. destruct (decide (t ∈ tids)) as [Ht|Ht].
        -- by rewrite decide_True by (by constructor).
        -- rewrite decide_False; [done|]. by intros [?|?]%elem_of_cons.
    + intros t l. setoid_rewrite elem_of_cons. split.
      * intros (b & [->|Hb] & Ht & Hl); simpl in *; [subst; naive_solver|].
        destruct (proj1 (H2 t l)) as (Hin & pb' & Hpb & <-); [eauto|].
        split; [by right|]. exists pb'. split; [|done]. by apply lookup_delete_Some in Hpb as [_ ?].
      * intros ([->|Ht] & pb' & Hpb & <-).
        -- assert (pb' = pb) as -> by congruence. exists (mkBatch k (requests pb) now). split; [by left|done].
        -- destruct (proj2 (H2 t (requests pb'))) as (b & Hb & ? & ?).
           { split; [done|]. exists pb'. split; [|done]. rewrite lookup_delete_ne; [done|].
             by intros ->. }
           exists b. split; [by right|done].
  - specialize (IH p now Hnd). destruct (remove_ready p now tids) as [p' bs]. destruct IH as [H1 H2].
    split.
    + intros t. rewrite H1. destruct (decide (t = k)) as [->|Hne].
      * rewrite (decide_True (P := k ∈ k :: tids)) by constructor. by case_decide.
      * destruct (decide (t ∈ tids)) as [Ht|Ht].
        -- by rewrite decide_True by (by constructor).
        -- rewrite decide_False; [done|]. by intros [?|?]%elem_of_cons.
    + intros t l. rewrite H2, elem_of_cons. naive_solver.
Qed.

Lemma remove_ready_length tids : ∀ p now, (length (remove_ready p now tids).2 ≤ length tids)%nat.
Proof.
  induction tids as [|k tids IH]; intros p now; simpl; [done|].
  destruct (p !! k) as [b|].
  - specialize (IH (delete k p) now). destruct (remove_ready _ _ _). simpl in *. lia.
  - specialize (IH p now). lia.
Qed.

Lemma drain_ready_length q now q' bs :
  drain_ready_batches q now = Done (q', bs) → (length bs ≤ size (pending q))%nat.
Proof.
  unfold drain_ready_batches. intros (tids & E & H)%outcome_bind_done.
  apply collect_ready_spec in E as [_ ->].
  match type of H with context [remove_ready ?p ?n ?l] => pose proof (remove_ready_length l p n) as Hr;
    destruct (remove_ready p n l) end.
  injection H as <- <-. simpl in Hr. rewrite length_fmap in Hr.
  etransitivity; [exact Hr|]. etransitivity; [apply List.filter_length_le|].
  by rewrite hash_iter_perm, length_map_to_list.
Qed.

Lemma drain_ready_spec q now :
  (is_done (drain_ready_batches q now) = true ↔
     map_Forall (λ _ b, age_ms b now ≤ mul_u32 (max_batch_wait_ms q) 2) (pending q)) ∧
  (∀ q' bs, drain_ready_batches q now = Done (q', bs) →
     (∀ t, pending q' !! t =
        match pending q !! t with
        | Some b => if batch_ready q now b then None else Some b
        | None => None
        end) ∧
     (∀ t l, (∃ b, b ∈ bs ∧ tenant_id b = t ∧ batch_requests b = l) ↔
        ∃ pb, pending q !! t = Some pb ∧ batch_ready q now pb = true ∧ requests pb = l)).
Proof.
  unfold drain_ready_batches.
  assert (Hall : Forall (λ e : string * PendingBatch, age_ms e.2 now ≤ mul_u32 (max_batch_wait_ms q) 2)
            (hash_iter (pending q)) ↔
          map_Forall (λ _ b, age_ms b now ≤ mul_u32 (max_batch_wait_ms q) 2) (pending q)).
  { split.
    - intros H k b Hk%elem_of_hash_iter. rewrite Forall_forall in H. exact (H (k, b) Hk).
    - intros H. apply Forall_forall. intros [k b] Hk%elem_of_hash_iter. exact (H k b Hk). }
  assert (Hin : ∀ t, t ∈ (List.filter (λ e, batch_ready q now e.2) (hash_iter (pending q))).*1 ↔
            ∃ b, pending q !! t = Some b ∧ batch_ready q now b = true).
  { intros t. rewrite list_elem_of_fmap. split.
    - intros ([k b] & -> & [H Hr]%elem_of_filter_b). apply elem_of_hash_iter in H. by exists b.
    - intros (b & Hb & Hr). exists (t, b). split; [done|]. apply elem_of_filter_b.
      split; [|exact Hr]. by apply elem_of_hash_iter. }
  assert (Hnd : NoDup (List.filter (λ e, batch_ready q now e.2) (hash_iter (pending q))).*1).
  { apply NoDup_fst_filter, NoDup_hash_iter. }
  split.
  - destruct (collect_ready q now (hash_iter (pending q))) as [tids|w] eqn:E; simpl.
    + apply collect_ready_spec in E as [H _]. destruct (remove_ready _ _ _). split; [by intros _; apply Hall|done].
    + split; [done|]. intros H. apply Hall in H.
      pose proof (proj2 (collect_ready_spec q now (hash_iter (pending q)) _) (conj H eq_refl)) as E'.
      rewrite E in E'. discriminate E'.
  - intros q' bs (tids & E & H)%outcome_bind_done. apply collect_ready_spec in E as [_ ->].
    pose proof (remove_ready_spec _ (pending q) now Hnd) as Hr.
    destruct (remove_ready _ _ _) as [p' bs']. injection H as <- <-. destruct Hr as [H1 H2].
    split.
    + intros t. simpl. rewrite H1. destruct (pending q !! t) as [b|] eqn:Eb; [|by case_decide].
      destruct (batch_ready q now b) eqn:Er.
      * rewrite decide_True; [done|]. apply Hin. eauto.
      * rewrite decide_False; [done|]. intros (b' & Hb' & ?)%Hin. congruence.
    + intros t l. rewrite H2, Hin. naive_solver.
Qed.
End drain_lemmas.

(** ** Properties *)

Definition cp_inv (cp : ControlPlane) : Prop :=
  bq_inv (batch_queue cp) ∧ bq_max_batch_size (batch_queue cp) = BATCH_SIZE_MAX.

(** The requests [submit_request] lets through. *)
Definition submit_ok (cp : ControlPlane) (t : HandlerTask) : bool :=
  is_initialized cp
  && (1 <=? slen (entrypoint t)) && (slen (entrypoint t) <=? 4096)
  && negb (is_empty (task_hostname t)) && negb (contains_char nul (task_hostname t))
  && negb (is_empty (request_method t))
  && (body_size t <=? 10 * 1024 * 1024)
  && (0 <=? cpu_time_limit_ms t) && (cpu_time_limit_ms t <=? 30000)
  && negb (is_empty (request_id t)) && (slen (request_id t) <=? 64)
  && tenant_exists cp (task_hostname t)
  && match tenant_registry cp !! task_hostname t with
     | Some l => max_batch_size l <=? 64
     | None => true
     end.

Lemma slen_pos s : (1 <=? slen s) = negb (is_empty s).
Proof. destruct s; simpl; [done|]. apply Z.leb_le. unfold slen. simpl String.length. lia. Qed.

Lemma script_size_small s : slen s ≤ 4096 → as_u32 (slen s) = slen s.
Proof. intros H. apply as_u32_small. pose proof (slen_nonneg s). zlia. Qed.

Lemma effective_timeout_range t :
  0 ≤ cpu_time_limit_ms t → cpu_time_limit_ms t ≤ 30000 → 1 ≤ effective_timeout t ≤ 30000.
Proof.
  intros H1 H2. unfold effective_timeout. rewrite Z.gtb_ltb.
  destruct (Z.ltb_spec 0 (cpu_time_limit_ms t)); unfold Limits.execution.TIMEOUT_MS; lia.
Qed.

Lemma validate_request_ok cp t now :
  submit_ok cp t = true →
  validate_request cp t now = Done (Ok (mkVR t (slen (entrypoint t)) (effective_timeout t) 5 now)).
Proof.
  unfold submit_ok. intros H. bool_split. zreflect. pose proof (effective_timeout_range t) as He.
  unfold validate_request. rewrite script_size_small by done. rewrite !assert_true; [done|..].
  - rewrite Z.gtb_ltb. apply Z.ltb_lt. lia.
  - done.
  - done.
  - unfold in_range, Limits.execution.TIMEOUT_MS. apply andb_true_iff. rewrite !Z.leb_le. lia.
  - rewrite Z.gtb_ltb. apply negb_true_iff, Z.ltb_ge. unfold Limits.execution.SCRIPT_SIZE_BYTES_MAX. lia.
  - rewrite Z.gtb_ltb. apply Z.ltb_lt. lia.
Qed.

(** The state a submission leaves. *)
Definition submitted (cp cp' : ControlPlane) (t : HandlerTask) (us now : Z) : Prop :=
  let r := mkVR t (slen (entrypoint t)) (effective_timeout t) 5 now in
  let l := queue_of (batch_queue cp) (task_hostname t) ++ [r] in
  next_id cp' = add_u64 (next_id cp) 1 ∧
  requests_submitted (metrics cp') = add_u64 (requests_submitted (metrics cp)) 1 ∧
  tenant_registry cp' = tenant_registry cp ∧
  ∀ tid, queue_of (batch_queue cp') tid =
    if decide (tid = task_hostname t) then (if Z.of_nat (length l) >=? 64 then [] else l)
    else queue_of (batch_queue cp) tid.

Lemma submit_ok_done cp t now us :
  cp_inv cp → pending_count (batch_queue cp) < MAX_PENDING_BATCHES → submit_ok cp t = true →
  ∃ cp', submit_request cp t now us = Done (cp', Ok (next_id cp)) ∧
         cp_inv cp' ∧ submitted cp cp' t us now.
Proof.
  intros [Hinv Hsize] Hcount Hok. pose proof (validate_request_ok cp t now Hok) as Hv.
  unfold submit_request. rewrite Hv. cbn [outcome_bind].
  set (r := mkVR t (slen (entrypoint t)) (effective_timeout t) 5 now) in *.
  unfold submit_ok in Hok. bool_split. zreflect.
  destruct (add_to_batch_spec (batch_queue cp) r now Hinv) as (q' & -> & Hq & Hm & _ & Hc & Hl).
  { by apply is_empty_false. }
  cbn [outcome_bind fst snd]. rewrite !assert_true.
  - eexists. split; [done|]. split; [by split; [|simpl; congruence]|].
    split_and!; try done. intros tid. simpl. rewrite Hl, Hsize. done.
  - apply Z.leb_le. simpl. lia.
  - simpl. rewrite Z.gtb_ltb. apply Z.ltb_lt. lia.
  - done.
  - by apply Z.leb_le.
  - by apply negb_true_iff.
  - unfold in_range, Limits.execution.TIMEOUT_MS. apply andb_true_iff. rewrite !Z.leb_le. lia.
  - rewrite Z.gtb_ltb. apply negb_true_iff, Z.ltb_ge. unfold Limits.http.BODY_SIZE_BYTES_MAX. lia.
  - by apply Z.leb_le.
  - by apply negb_true_iff.
  - by apply negb_true_iff.
  - by apply negb_true_iff.
  - unfold in_range, MAX_ENTRYPOINT_PATH_LEN. apply andb_true_iff. rewrite !Z.leb_le. lia.
  - rewrite Z.gtb_ltb. apply negb_true_iff, Z.ltb_ge. unfold MAX_ENTRYPOINT_PATH_LEN. lia.
  - by rewrite <-slen_pos, Z.leb_le.
  - done.
Qed.

Lemma submit_done_ok cp t now us r : submit_request cp t now us = Done r → submit_ok cp t = true.
Proof.
  unfold submit_request, validate_request. rewrite !assert_done, outcome_bind_done.
  setoid_rewrite assert_done.
  intros (Hi & H1 & H2 & H3 & H4 & H5 & H6 & H7 & H8 & H9 & H10 & H11 & H12 & vr & Hv & _).
  repeat setoid_rewrite assert_done in Hv. destruct Hv as (_ & _ & _ & _ & Hl & _ & _).
  unfold in_range, MAX_ENTRYPOINT_PATH_LEN, Limits.execution.TIMEOUT_MS,
    Limits.buffer.REQUEST_SIZE_BYTES_MAX, MAX_REQUEST_ID_LEN in *.
  unfold submit_ok. rewrite Hi, slen_pos, H1, H4, H5, H6, H7, H10, H11, H12. bool_split.
  repeat match goal with H : ?b = true |- context [?b] => rewrite H end. done.
Qed.

(** [submit_request], exactly.  It goes through iff the request satisfies
    [submit_ok] (lengths, characters, sizes, a known tenant whose batch limit
    fits); then it returns the next submission id and advances it, and the
    request joins its tenant's queue.  Everything else fails an assertion, which
    ends the process: it never returns an error value. *)
Theorem submit_request_exact cp t now us :
  cp_inv cp → pending_count (batch_queue cp) < MAX_PENDING_BATCHES →
  (submit_ok cp t = true ∧
   ∃ cp', submit_request cp t now us = Done (cp', Ok (next_id cp)) ∧
          cp_inv cp' ∧ submitted cp cp' t us now) ∨
  (submit_ok cp t = false ∧ ∃ why, submit_request cp t now us = Panicked why).
Proof.
  intros Hinv Hc. destruct (submit_ok cp t) eqn:E; [left|right]; (split; [done|]).
  - by apply submit_ok_done.
  - destruct (submit_request cp t now us) as [r|w] eqn:Es; [|by exists w].
    apply submit_done_ok in Es. congruence.
Qed.

(** C8. Batching loses every full batch.  However requests are submitted to an
    empty queue of batch size [n], nothing panics, and what [drain_all_batches]
    (flush) then hands out for a tenant that sent [k] requests is exactly the
    last [k mod n] of them, in order, in one batch: each time a batch reaches
    [n] requests, [flush_batch] removes it without handing it to anyone. *)
Theorem full_batches_are_lost `{HashOrder PendingBatch} n wait rs :
  1 ≤ n → Forall (λ e, task_hostname (task e.1) ≠ "") rs →
  ∃ q, run_adds (mkBQ ∅ n wait) rs = Done q ∧
    let bs := (drain_all_batches q).2 in
    NoDup (tenant_id <$> bs) ∧
    (∀ tid l, (∃ b, b ∈ bs ∧ tenant_id b = tid ∧ batch_requests b = l) ↔
       l ≠ [] ∧ l = remainder (Z.to_nat n) (of_tenant tid rs)).
Proof.
  intros Hn Hrs. destruct (run_adds_spec rs (mkBQ ∅ n wait)) as (q & Hq & Hinv & Hm & Hl).
  { split; [done|]. apply map_Forall_empty. }
  { done. }
  exists q. split; [done|]. cbv zeta. split; [apply drain_all_nodup|].
  intros tid l. rewrite drain_all_elem, Hl. simpl. split.
  - intros (? & _ & <-). done.
  - intros [Hl' ->]. split_and!; try done. intros E. apply Hl'.
    specialize (Hl tid). unfold queue_of in Hl. rewrite E in Hl. simpl in Hl. done.
Qed.

Lemma check_batches_spec {A} bs (k : outcome A) :
  check_batches bs k =
    if forallb (λ b, negb (bool_decide (batch_requests b = []))
                     && in_range (Z.of_nat (length (batch_requests b))) 1 BATCH_SIZE_MAX
                     && negb (is_empty (tenant_id b))) bs
    then k else check_batches bs (Panicked "").
Proof.
  induction bs as [|b bs IH]; simpl; [done|]. rewrite IH. unfold assert_that.
  repeat (case_if; simpl in *; try done).
Qed.

(** [process_batches] on a queue within its bounds, exactly.  It fails (the
    process ends) iff some pending batch is older than twice the maximum wait;
    otherwise it hands out precisely the batches that are full or waited long
    enough, and keeps the others. *)
Theorem process_batches_exact `{HashOrder PendingBatch} cp now :
  cp_inv cp → is_initialized cp = true →
  pending_count (batch_queue cp) ≤ MAX_PENDING_BATCHES →
  let q := batch_queue cp in
  (is_done (process_batches cp now) = true ↔
     map_Forall (λ _ b, age_ms b now ≤ mul_u32 (max_batch_wait_ms q) 2) (pending q)) ∧
  (∀ cp' bs, process_batches cp now = Done (cp', bs) →
     (∀ t, pending (batch_queue cp') !! t =
        match pending q !! t with
        | Some b => if batch_ready q now b then None else Some b
        | None => None
        end) ∧
     (∀ t l, (∃ b, b ∈ bs ∧ tenant_id b = t ∧ batch_requests b = l) ↔
        ∃ pb, pending q !! t = Some pb ∧ batch_ready q now pb = true ∧ requests pb = l) ∧
     batches_flushed (metrics cp') =
       add_u64 (batches_flushed (metrics cp)) (Z.of_nat (length bs))).
Proof.
  intros [[_ Hall] Hsz] Hi Hcount q. destruct (drain_ready_spec q now) as [H1 H2].
  rewrite <-H1. unfold process_batches. rewrite assert_true by done. fold q.
  destruct (drain_ready_batches q now) as [[q' bs]|w] eqn:E; [|split; [|done]; done].
  cbn [outcome_bind fst snd]. destruct (H2 q' bs eq_refl) as [H3 H4].
  rewrite check_batches_spec, (proj2 (forallb_Forall _ bs)).
  - rewrite assert_true.
    + split; [done|]. intros cp' bs' Hd. injection Hd as <- <-. done.
    + apply drain_ready_length in E. apply Z.leb_le. unfold pending_count in Hcount. fold q in Hcount. lia.
  - apply Forall_forall. intros b Hb. destruct (proj1 (H4 (tenant_id b) (batch_requests b)))
      as (pb & Hpb & _ & Hr); [by exists b|]. apply Hall in Hpb as [Hne Hlen].
    fold q in Hlen, Hsz. rewrite Hsz, Hr in Hlen. unfold in_range, BATCH_SIZE_MAX in *.
    rewrite (proj2 (Z.leb_le _ _)), (proj2 (Z.leb_le _ _)) by lia.
    rewrite (proj2 (is_empty_false _)) by done. rewrite bool_decide_false; [done|].
    intros E'. rewrite E' in Hlen. simpl in Hlen. lia.
Qed.

(** What [validate_request_ref] needs of a request. *)
Definition reasonable (t : HandlerTask) : Prop :=
  1 ≤ slen (entrypoint t) ≤ 4096 ∧ body_size t ≤ Limits.buffer.REQUEST_SIZE_BYTES_MAX ∧
  0 ≤ cpu_time_limit_ms t ≤ Limits.execution.TIMEOUT_MS.

Lemma validate_ref_ok cp t :
  reasonable t → tenant_exists cp (task_hostname t) = true →
  validate_request_ref cp t = Done (Ok tt).
Proof.
  intros (Hep & Hbody & Hcpu) Hex. unfold Limits.execution.TIMEOUT_MS in Hcpu.
  pose proof (effective_timeout_range t) as He.
  unfold validate_request_ref. rewrite script_size_small by lia. rewrite !assert_true; [done|..].
  - rewrite Z.gtb_ltb. apply Z.ltb_lt. lia.
  - by apply Z.leb_le.
  - done.
  - unfold in_range, Limits.execution.TIMEOUT_MS. apply andb_true_iff. rewrite !Z.leb_le. lia.
  - rewrite Z.gtb_ltb. apply negb_true_iff, Z.ltb_ge. unfold Limits.execution.SCRIPT_SIZE_BYTES_MAX. lia.
  - rewrite Z.gtb_ltb. apply Z.ltb_lt. lia.
Qed.

(** [ensure_tenant] only fails on a NUL, and then the tenant exists. *)
Lemma ensure_tenant_ok cp h :
  contains_char nul h = false →
  ∃ cp', ensure_tenant cp h = Done cp' ∧ tenant_exists cp' h = true ∧
    (∀ tid, tenant_exists cp tid = true → tenant_exists cp' tid = true) ∧
    (tenant_exists cp h = false → tenant_registry cp' !! h = Some auto_limits).
Proof.
  intros Hnul. unfold ensure_tenant. destruct (tenant_exists cp h) eqn:E; [by exists cp|].
  assert (Hne : is_empty h = false).
  { apply not_true_iff_false. intros Hh. unfold tenant_exists in E. by rewrite Hh in E. }
  unfold register_tenant. rewrite !assert_true; [|reflexivity|reflexivity|by rewrite Hnul|by rewrite Hne].
  eexists. split; [done|].
  match goal with |- tenant_exists ?c _ = _ ∧ _ => set (cp' := c) end.
  assert (Hreg : tenant_registry cp' !! h = Some auto_limits) by apply lookup_insert_eq.
  split_and!; [| |done].
  - unfold tenant_exists. rewrite Hreg. by destruct (is_empty _).
  - intros tid. unfold tenant_exists, cp'. simpl. destruct (is_empty tid); [done|].
    rewrite !orb_true_iff, !bool_decide_eq_true. intros [[H|H]|H]; auto.
    left. left. destruct (decide (h = tid)) as [->|]; simplify_map_eq; eauto.
Qed.

(** The request path of the HTTP router ([ensure_tenant], then
    [validate_request_ref]).  For a non-empty host without NUL and a task within
    the limits both succeed whatever was registered before, and no earlier
    tenant is forgotten; but the limits a tenant is auto-registered with (batch
    size 100) make [submit_request] fail an assertion for that same task. *)
Theorem auto_tenant_path cp t now us :
  task_hostname t ≠ "" → contains_char nul (task_hostname t) = false →
  1 ≤ slen (entrypoint t) ≤ 4096 → body_size t ≤ Limits.buffer.REQUEST_SIZE_BYTES_MAX →
  0 ≤ cpu_time_limit_ms t ≤ Limits.execution.TIMEOUT_MS →
  ∃ cp', ensure_tenant cp (task_hostname t) = Done cp' ∧
    validate_request_ref cp' t = Done (Ok tt) ∧
    (∀ tid, tenant_exists cp tid = true → tenant_exists cp' tid = true) ∧
    (tenant_exists cp (task_hostname t) = false →
     is_done (submit_request cp' t now us) = false).
Proof.
  intros Hne Hnul Hep Hbody Hcpu.
  destruct (ensure_tenant_ok cp (task_hostname t) Hnul) as (cp' & Hen & Hex & Hkeep & Hreg).
  exists cp'. split_and!; [done|by apply validate_ref_ok|done|].
  intros Hnot. destruct (submit_request cp' t now us) eqn:Es; [|done].
  apply submit_done_ok in Es. unfold submit_ok in Es. rewrite Hreg in Es by done. bool_split. done.
Qed.

(** ** Witnesses *)

Definition demo_task (host : string) (id : Z) : HandlerTask :=
  mkTask "/app/index.js" "GET" None id host 0 50 "req_1" 0.

Definition demo_request (host : string) (id : Z) : ValidatedRequest :=
  mkVR (demo_task host id) 13 50 5 0.

(** A control plane just created. *)
Definition fresh : ControlPlane :=
  mkCP true (mkBQ ∅ BATCH_SIZE_MAX BATCH_WAIT_MS) zero_metrics 0 {["default" := default_tenant_limits]}.

Lemma fresh_new : control_plane_new = Done fresh.
Proof. vm_compute. reflexivity. Qed.

Lemma fresh_inv : cp_inv fresh.
Proof. split; [|done]. split; [done|]. apply map_Forall_empty. Qed.

Lemma submit_request_exact_witness :
  ∃ cp', submit_request fresh (demo_task "default" 7) 100 3 = Done (cp', Ok 0) ∧ cp_inv cp' ∧
         submitted fresh cp' (demo_task "default" 7) 3 100.
Proof.
  destruct (submit_request_exact fresh (demo_task "default" 7) 100 3) as [[_ H]|[H _]];
    [exact fresh_inv|vm_compute; reflexivity| |].
  - exact H.
  - vm_compute in H. discriminate H.
Defined.

(** Seventy requests, ids 0 to 69. *)
Definition seventy : list (ValidatedRequest * Z) :=
  map (λ n, (demo_request "default" (Z.of_nat n), 5)) (seq 0 70).

Lemma full_batches_are_lost_witness :
  ∃ q, run_adds (mkBQ ∅ 64 10) seventy = Done q ∧
    ∃ b, b ∈ (@drain_all_batches plain_order q).2 ∧ tenant_id b = "default" ∧
         map (λ r, response_tx (task r)) (batch_requests b) = [64; 65; 66; 67; 68; 69].
Proof.
  destruct (@full_batches_are_lost plain_order 64 10 seventy) as (q & Hq & _ & Hb).
  - lia.
  - unfold seventy. apply Forall_forall. intros e (n & -> & _)%list_elem_of_fmap. done.
  - exists q. split; [exact Hq|].
    destruct (proj2 (Hb "default" (remainder 64 (of_tenant "default" seventy)))) as (b & H1 & H2 & H3).
    + split; [vm_compute; discriminate|reflexivity].
    + exists b. split; [exact H1|]. split; [exact H2|]. rewrite H3. vm_compute. reflexivity.
Defined.

Definition one_waiting : ControlPlane :=
  mkCP true (mkBQ {["default" := mkPB [demo_request "default" 1] 0]} BATCH_SIZE_MAX BATCH_WAIT_MS)
       zero_metrics 1 {["default" := default_tenant_limits]}.

Lemma one_waiting_inv : cp_inv one_waiting.
Proof. split; [|done]. split; [done|]. apply map_Forall_singleton. done. Qed.

(** After 15 ms the batch is handed out; after 25 ms the assertion fails. *)
Lemma process_batches_exact_witness :
  is_done (@process_batches plain_order one_waiting 15000000) = true ∧
  is_done (@process_batches plain_order one_waiting 25000000) = false.
Proof.
  split.
  - apply (@process_batches_exact plain_order one_waiting 15000000);
      [exact one_waiting_inv|done|vm_compute; discriminate|].
    apply map_Forall_singleton. vm_compute. discriminate.
  - destruct (is_done (@process_batches plain_order one_waiting 25000000)) eqn:E; [|reflexivity].
    apply (@process_batches_exact plain_order one_waiting 25000000) in E;
      [|exact one_waiting_inv|done|vm_compute; discriminate].
    specialize (E "default" (mkPB [demo_request "default" 1] 0) eq_refl). vm_compute in E. contradiction.
Defined.

Lemma auto_tenant_path_witness :
  ∃ cp', ensure_tenant fresh "api.example.com" = Done cp' ∧
    validate_request_ref cp' (demo_task "api.example.com" 1) = Done (Ok tt) ∧
    is_done (submit_request cp' (demo_task "api.example.com" 1) 0 0) = false.
Proof.
  destruct (auto_tenant_path fresh (demo_task "api.example.com" 1) 0 0) as (cp' & H1 & H2 & _ & H3).
  - discriminate.
  - vm_compute. reflexivity.
  - vm_compute. split; discriminate.
  - vm_compute. discriminate.
  - vm_compute. split; discriminate.
  - exists cp'. split; [exact H1|]. split; [exact H2|]. apply H3. vm_compute. reflexivity.
Defined.
