(* ===== verification/ConfigLoader.v ===== *)
(** * [src/config/loader.rs]: environment variable substitution

    The iterator [Peekable<Chars>] is the rest of the text.  The process
    environment is a parameter: [env name] is [std::env::var(name).ok()].  Error
    messages are constructors that carry what the message shows. *)

From stdpp Require Import base list strings.
From Stdlib Require Import Ascii ZArith Lia.
From S2P Require Import Prelude RustString.

Open Scope Z_scope.

Definition dollar : ascii := ch "$".
Definition lbrace : ascii := ch "{".
Definition rbrace : ascii := ch "}".

Inductive SubstError :=
| UnclosedDefault
| BadColon
| InvalidNameChar (c : ascii) (var_name : string)
| UnclosedReference (var_name : string).

(** ** Operations *)

(** The inner loop of [parse_var_ref]: the default value up to the brace, with
    the rest of the text. *)
Fixpoint parse_default (s acc : string) : result (string * string) SubstError :=
  match s with
  | EmptyString => Err UnclosedDefault
  | String c s' =>
    if char_eqb c rbrace then Ok (acc, s') else parse_default s' (acc +:+ String c "")
  end.

Definition name_char (c : ascii) : bool := is_alphanumeric c || char_eqb c underscore.

(** [parse_var_ref]: the name, the default if there is one, and the rest. *)
Fixpoint parse_var_ref (s var_name : string) : result (string * option string * string) SubstError :=
  match s with
  | EmptyString => Err (UnclosedReference var_name)
  | String c s' =>
    if char_eqb c rbrace then Ok (var_name, None, s')
    else if char_eqb c colon then
      match s' with
      | String d s'' =>
        if char_eqb d dash then
          let? r := parse_default s'' "" in Ok (var_name, Some r.1, r.2)
        else Err BadColon
      | EmptyString => Err BadColon
      end
    else if name_char c then parse_var_ref s' (var_name +:+ String c "")
    else Err (InvalidNameChar c var_name)
  end.

Section subst.
Variable env : string → option string.

(** The value a reference stands for. *)
Definition lookup_var (name : string) (dflt : option string) : string :=
  match env name with
  | Some v => v
  | None => default "" dflt
  end.

(** The loop of [substitute_env_vars]; [fuel] bounds the iterations. *)
Fixpoint subst_go (fuel : nat) (s acc : string) : option (result string SubstError) :=
  match fuel with
  | O => None
  | S f =>
    match s with
    | EmptyString => Some (Ok acc)
    | String c s' =>
      match s' with
      | String b rest =>
        if char_eqb c dollar && char_eqb b lbrace then
          match parse_var_ref rest "" with
          | Ok (name, dflt, rest') => subst_go f rest' (acc +:+ lookup_var name dflt)
          | Err e => Some (Err e)
          end
        else subst_go f s' (acc +:+ String c "")
      | EmptyString => subst_go f s' (acc +:+ String c "")
      end
    end
  end.

(** Every iteration consumes a character, so this much fuel is enough
    ([subst_go_enough] below). *)
Definition substitute_env_vars (text : string) : option (result string SubstError) :=
  subst_go (S (String.length text)) text "".

(** ** Specification: a grammar of templates *)

Inductive piece :=
| PChar (c : ascii)
| PVar (name : string) (dflt : option string).

Definition piece_text (p : piece) : string :=
  match p with
  | PChar c => String c ""
  | PVar n None => "${" +:+ n +:+ "}"
  | PVar n (Some d) => "${" +:+ n +:+ ":-" +:+ d +:+ "}"
  end.

Definition piece_value (p : piece) : string :=
  match p with
  | PChar c => String c ""
  | PVar n d => lookup_var n d
  end.

Fixpoint texts (f : piece → string) (ps : list piece) : string :=
  match ps with
  | [] => ""
  | p :: ps' => f p +:+ texts f ps'
  end.

Definition template_text (ps : list piece) : string := texts piece_text ps.
Definition template_value (ps : list piece) : string := texts piece_value ps.

Definition opens_brace (s : string) : bool :=
  match s with String b _ => char_eqb b lbrace | EmptyString => false end.

(** Names of letters, digits and underscores; defaults without a brace; no
    literal ["$"] in front of a brace. *)
Fixpoint template_wf (ps : list piece) : bool :=
  match ps with
  | [] => true
  | PChar c :: ps' => negb (char_eqb c dollar && opens_brace (template_text ps')) && template_wf ps'
  | PVar n d :: ps' =>
    all_chars name_char n && negb (contains_char rbrace (default "" d)) && template_wf ps'
  end.

(** ** Lemmas *)

Lemma parse_default_spec s : ∀ acc d rest,
  parse_default s acc = Ok (d, rest) ↔
  ∃ x, d = acc +:+ x ∧ s = x +:+ "}" +:+ rest ∧ contains_char rbrace x = false.
Proof.
  induction s as [|c s IH]; intros acc d rest; simpl.
  - split; [done|]. intros ([|] & _ & E & _); discriminate E.
  - destruct (char_eqb c rbrace) eqn:E.
    + apply char_eqb_eq in E as ->. split.
      * intros H. injection H as <- <-. exists "". by rewrite str_app_nil_r.
      * intros ([|y x] & -> & E & Hx); [injection E as ->; by rewrite str_app_nil_r|].
        injection E as <- _. discriminate Hx.
    + rewrite IH. split.
      * intros (x & -> & -> & Hx). exists (String c x). split; [|split].
        -- by rewrite <-str_app_assoc.
        -- done.
        -- simpl. by rewrite E.
      * intros ([|y x] & -> & E' & Hx); injection E' as -> ->.
        -- by rewrite char_eqb_refl in E.
        -- exists x. simpl in Hx. apply orb_false_iff in Hx as [_ Hx]. split; [|done].
           by rewrite <-str_app_assoc.
Qed.

Definition ref_text (n : string) (d : option string) : string :=
  match d with None => n +:+ "}" | Some d => n +:+ ":-" +:+ d +:+ "}" end.

Lemma name_char_not c : name_char c = true → char_eqb c rbrace = false ∧ char_eqb c colon = false.
Proof.
  intros H. split; apply char_eqb_neq; intros ->; vm_compute in H; discriminate H.
Qed.

Lemma parse_var_ref_sound s : ∀ acc n d rest,
  parse_var_ref s acc = Ok (n, d, rest) →
  ∃ x, n = acc +:+ x ∧ s = ref_text x d +:+ rest ∧
       all_chars name_char x = true ∧ contains_char rbrace (default "" d) = false.
Proof.
  induction s as [|c s IH]; intros acc n d rest; simpl; [done|].
  destruct (char_eqb c rbrace) eqn:E1.
  { apply char_eqb_eq in E1 as ->. intros H. injection H as <- <- <-. exists "".
    by rewrite str_app_nil_r. }
  destruct (char_eqb c colon) eqn:E2.
  { apply char_eqb_eq in E2 as ->. destruct s as [|e s]; [done|].
    destruct (char_eqb e dash) eqn:E3; [|done]. apply char_eqb_eq in E3 as ->.
    destruct (parse_default s "") as [[d' rest']|] eqn:Ed; [|done]. simpl.
    intros H. injection H as <- <- <-. apply parse_default_spec in Ed as (x & -> & -> & Hx).
    exists "". rewrite str_app_nil_r. simpl. split_and!; [done| |done|exact Hx].
    rewrite <-!str_app_assoc. reflexivity. }
  destruct (name_char c) eqn:E3; [|done]. intros H%IH. destruct H as (x & -> & -> & Hx & Hd).
  exists (String c x). split_and!; [by rewrite <-str_app_assoc|by destruct d| |exact Hd].
  simpl. by rewrite E3.
Qed.

Lemma parse_var_ref_complete x : ∀ acc d rest,
  all_chars name_char x = true → contains_char rbrace (default "" d) = false →
  parse_var_ref (ref_text x d +:+ rest) acc = Ok (acc +:+ x, d, rest).
Proof.
  induction x as [|c x IH]; intros acc d rest Hx Hd.
  - rewrite str_app_nil_r. destruct d as [d|]; [|done].
    replace (ref_text "" (Some d) +:+ rest)
      with (String colon (String dash (d +:+ "}" +:+ rest)))
      by (unfold ref_text; rewrite <-!str_app_assoc; reflexivity).
    pose proof (proj2 (parse_default_spec (d +:+ "}" +:+ rest) "" d rest)) as Hp.
    simpl parse_var_ref. rewrite Hp; [done|]. by exists d.
  - simpl in Hx. apply andb_true_iff in Hx as [Hc Hx].
    assert (ref_text (String c x) d = String c (ref_text x d)) as -> by (by destruct d).
    rewrite str_app_cons. simpl. destruct (name_char_not c Hc) as [-> ->]. rewrite Hc, IH by done.
    by rewrite <-str_app_assoc.
Qed.

Lemma parse_var_ref_shorter s acc n d rest :
  parse_var_ref s acc = Ok (n, d, rest) → (String.length rest < String.length s)%nat.
Proof.
  intros (x & _ & -> & _)%parse_var_ref_sound. rewrite length_app_string.
  assert (0 < String.length (ref_text x d))%nat; [|lia].
  destruct d; simpl; rewrite !length_app_string; simpl; lia.
Qed.

Lemma subst_go_enough fuel : ∀ s acc,
  (String.length s < fuel)%nat → ∃ r, subst_go fuel s acc = Some r.
Proof.
  induction fuel as [|f IH]; intros s acc Hf; [lia|]. simpl.
  destruct s as [|c s]; [eauto|]. simpl in Hf. destruct s as [|b s]; [apply IH; simpl in *; lia|].
  case_if; [|apply IH; simpl in *; lia].
  destruct (parse_var_ref s "") as [[[n d] rest]|] eqn:E; [|eauto].
  apply IH. apply parse_var_ref_shorter in E. simpl in Hf. lia.
Qed.

Lemma template_text_var n d ps :
  template_text (PVar n d :: ps) = "${" +:+ ref_text n d +:+ template_text ps.
Proof.
  unfold template_text. simpl. destruct d; simpl; by rewrite <-?str_app_assoc.
Qed.

Lemma subst_go_sound fuel : ∀ s acc r,
  subst_go fuel s acc = Some (Ok r) →
  ∃ ps, template_wf ps = true ∧ template_text ps = s ∧ r = acc +:+ template_value ps.
Proof.
  induction fuel as [|f IH]; intros s acc r; simpl; [done|].
  assert (Hchar : ∀ c s', char_eqb c dollar && opens_brace s' = false →
            subst_go f s' (acc +:+ String c "") = Some (Ok r) →
            ∃ ps, template_wf ps = true ∧ template_text ps = String c s' ∧
                  r = acc +:+ template_value ps).
  { intros c s' Hc (ps & H1 & H2 & ->)%IH. exists (PChar c :: ps). split_and!.
    - cbn [template_wf]. by rewrite H2, Hc, H1.
    - unfold template_text in *. simpl. by rewrite H2.
    - by rewrite <-str_app_assoc. }
  destruct s as [|c s].
  { intros H. injection H as <-. exists []. by rewrite str_app_nil_r. }
  destruct s as [|b s]; [apply Hchar; by rewrite andb_false_r|].
  destruct (char_eqb c dollar && char_eqb b lbrace) eqn:E; [|by apply Hchar].
  apply andb_true_iff in E as [E1 E2]. apply char_eqb_eq in E1 as ->. apply char_eqb_eq in E2 as ->.
  destruct (parse_var_ref s "") as [[[n d] rest]|] eqn:Ep; [|done].
  intros (ps & H1 & H2 & ->)%IH. apply parse_var_ref_sound in Ep as (x & -> & -> & Hx & Hd).
  exists (PVar x d :: ps). split_and!.
  - cbn [template_wf]. change ("" +:+ x) with x. by rewrite Hx, Hd, H1.
  - rewrite template_text_var, H2. done.
  - by rewrite <-str_app_assoc.
Qed.

Lemma subst_go_complete ps : ∀ fuel acc,
  template_wf ps = true → (String.length (template_text ps) < fuel)%nat →
  subst_go fuel (template_text ps) acc = Some (Ok (acc +:+ template_value ps)).
Proof.
  induction ps as [|p ps IH]; intros fuel acc Hwf Hf.
  { destruct fuel as [|f]; [simpl in Hf; lia|]. simpl. by rewrite str_app_nil_r. }
  destruct fuel as [|f]; [lia|]. destruct p as [c|n d]; cbn [template_wf] in Hwf; bool_split.
  - assert (template_text (PChar c :: ps) = String c (template_text ps)) as Et by done.
    rewrite Et in *. simpl in Hf.
    assert (acc +:+ template_value (PChar c :: ps) = (acc +:+ String c "") +:+ template_value ps) as ->
      by (by rewrite <-str_app_assoc).
    rewrite <-IH with (fuel := f) by (done || lia). simpl.
    destruct (template_text ps) as [|b s] eqn:Es; [done|]. simpl in *.
    case_if; [congruence|done].
  - rewrite template_text_var in *.
    assert (acc +:+ template_value (PVar n d :: ps) =
            (acc +:+ lookup_var n d) +:+ template_value ps) as -> by (by rewrite <-str_app_assoc).
    change ("${" +:+ ?x) with (String dollar (String lbrace x)). simpl.
    rewrite parse_var_ref_complete by done. apply IH; [done|].
    rewrite !length_app_string in Hf. simpl in Hf. lia.
Qed.

(** ** Properties *)

(** C30. Substitution, exactly.  It always terminates within its fuel; it
    succeeds on precisely the texts of well-formed templates (characters and
    references [${NAME}] / [${NAME:-default}]), and then replaces every
    reference by the variable's value, or by the default where the variable is
    unset, once: values are not substituted again. *)
Theorem substitute_env_vars_exact text :
  (∃ r, substitute_env_vars text = Some r) ∧
  (∀ v, substitute_env_vars text = Some (Ok v) ↔
     ∃ ps, template_wf ps = true ∧ template_text ps = text ∧ template_value ps = v).
Proof.
  unfold substitute_env_vars. split; [apply subst_go_enough; lia|]. intros v. split.
  - intros (ps & H1 & H2 & ->)%subst_go_sound. by exists ps.
  - intros (ps & H1 & <- & <-). apply subst_go_complete; [done|lia].
Qed.
End subst.

Example substitute_demo :
  substitute_env_vars (λ n, if String.eqb n "PORT" then Some "80" else None)
    "p=${PORT} h=${HOST:-::1} $x ${Z}" = Some (Ok "p=80 h=::1 $x ").
Proof. vm_compute. reflexivity. Qed.

Example substitute_errors :
  map (substitute_env_vars (λ _, None)) ["${A"; "${A:x}"; "${A:-x"; "${A-B}"] =
  [Some (Err (UnclosedReference "A")); Some (Err BadColon); Some (Err UnclosedDefault);
   Some (Err (InvalidNameChar dash "A"))].
Proof. vm_compute. reflexivity. Qed.
