(* ===== verification/Config.v ===== *)
(** * [src/config/app.rs] and [src/config/mod.rs]: configuration and validation

    The two files hold two versions of the same types and validators: Module
    [AppRs] is app.rs, Module [ModRs] is mod.rs (the one [load_config] uses).
    What they have in common comes first.  The operating system's file queries
    ([Path::exists], [Path::is_file]) are parameters, as is the iteration order
    of the environment map; [serde_json] is a parameter of the loaders. *)

From stdpp Require Import base gmap list strings pretty.
From Stdlib Require Import Ascii ZArith Lia.
From S2P Require Import Prelude RustString RustList ConfigLoader.
From S2P Require Limits.

Open Scope Z_scope.

(** ** Paths: [Path::is_absolute] and [Path::join] of the standard library *)

Definition is_absolute (p : string) : bool :=
  match p with String c _ => char_eqb c slash | EmptyString => false end.

Definition path_join (base p : string) : string :=
  if is_absolute p then p
  else if is_empty base || ends_with_char slash base then base +:+ p
  else base +:+ "/" +:+ p.

Class OsFiles := {
  os_exists : string → bool;
  os_is_file : string → bool;
}.

(** ** Shared data *)

Inductive VfsBackendType := BMemory | BDisk | BS3.

Record VfsDiskConfig := mkDisk { base_path : string }.

Record VfsS3Config := mkS3 {
  endpoint : string;
  bucket : string;
  region : string;
  access_key : string;
  secret_key : string;
  prefix : option string;
  path_style : bool;
}.

Record ServerConfigSection := mkServer { port : Z; host : string }.

Definition default_server : ServerConfigSection := mkServer 8080 "0.0.0.0".

(** ** Shared checks *)

(** A label as [is_valid_hostname] wants it; the two [bytes] accesses are the
    first and the last character. *)
Definition label_char (a : ascii) : bool := is_alphanumeric a || char_eqb a dash.

Definition valid_label (label : string) : bool :=
  negb (is_empty label) && negb (slen label >? 63)
  && negb (match label with String c _ => char_eqb c dash | _ => false end
           || ends_with_char dash label)
  && all_chars label_char label.

Definition is_valid_hostname (hostname : string) : bool :=
  negb (is_empty hostname) && negb (slen hostname >? 253)
  && forallb valid_label (split dot hostname).

Definition hostname_errors (hostname : string) : list string :=
  if is_empty hostname then ["hostname cannot be empty"]
  else if negb (is_valid_hostname hostname) then ["'" +:+ hostname +:+ "' is not a valid hostname"]
  else [].

Section files.
Context {OS : OsFiles} {HO : HashOrder string}.

(** The checks of a path that must name an existing file; [what] is the word
    the messages use and [shown] how they introduce the path. *)
Definition path_errors (base : option string) (what shown p : string) : list string :=
  if contains_sub ".." p then
    [shown +:+ " '" +:+ p +:+ "' contains '..' which is not allowed for security"]
  else match base with
  | None => []
  | Some base =>
    let full_path := if is_absolute p then p else path_join base p in
    if negb (os_exists full_path) then
      [what +:+ " '" +:+ p +:+ "' not found (resolved to: " +:+ full_path +:+ ")"]
    else if negb (os_is_file full_path) then [what +:+ " '" +:+ p +:+ "' is not a file"]
    else []
  end.

(** "[field] must be between [lo] and [hi], got [v]" *)
Definition range_errors (field : string) (v lo hi : Z) : list string :=
  if (v <? lo) || (v >? hi) then
    [field +:+ " must be between " +:+ pretty lo +:+ " and " +:+ pretty hi +:+ ", got " +:+ pretty v]
  else [].

Definition env_entry_errors (e : string * string) : list string :=
  let '(key, value) := e in
  (if is_empty key then ["environment variable key cannot be empty"] else [])
  ++ (if contains_sub ".." key || contains_char slash key || contains_char backslash key
      then ["suspicious environment variable key: '" +:+ key +:+ "'"] else [])
  ++ (if slen value >? 65536
      then ["environment variable '" +:+ key +:+ "' value exceeds 64KB limit"] else []).

Definition env_errors (env_vars : gmap string string) : list string :=
  concat (map env_entry_errors (hash_iter env_vars)).

Definition vfs_errors (b : VfsBackendType) (disk : option VfsDiskConfig) (s3 : option VfsS3Config)
  : list string :=
  match b with
  | BMemory => []
  | BDisk =>
    match disk with
    | None => ["vfs_backend is 'disk' but vfs_disk configuration is missing"]
    | Some d =>
      if is_empty (base_path d) then ["vfs_disk.base_path cannot be empty"]
      else if contains_sub ".." (base_path d)
      then ["vfs_disk.base_path contains '..' which is not allowed for security"]
      else []
    end
  | BS3 =>
    match s3 with
    | None => ["vfs_backend is 's3' but vfs_s3 configuration is missing"]
    | Some c =>
      (if is_empty (endpoint c) then ["vfs_s3.endpoint cannot be empty"] else [])
      ++ (if is_empty (bucket c) then ["vfs_s3.bucket cannot be empty"] else [])
      ++ (if is_empty (access_key c) then ["vfs_s3.access_key cannot be empty"] else [])
      ++ (if is_empty (secret_key c) then ["vfs_s3.secret_key cannot be empty"] else [])
    end
  end.

(** [if errors.is_empty() { Ok(()) } else { Err(errors) }] *)
Definition finish (errors : list string) : result unit (list string) :=
  match errors with [] => Ok tt | _ => Err errors end.

(** The duplicate check: hostnames compared in lower case, [seen] first. *)
Fixpoint duplicate_errors `{Lowercase} (seen : gset string) (hostnames : list string) : list string :=
  match hostnames with
  | [] => []
  | h :: hs =>
    let lower_hostname := to_lowercase h in
    if decide (lower_hostname ∈ seen) then
      ("duplicate hostname: '" +:+ h +:+ "' (case-insensitive)") :: duplicate_errors seen hs
    else duplicate_errors ({[lower_hostname]} ∪ seen) hs
  end.

Definition count_errors (n : Z) : list string :=
  if n =? 0 then ["configuration must define at least one application"]
  else if n >? 1000 then ["too many applications: " +:+ pretty n +:+ " (max 1000)"]
  else [].

Definition server_errors (s : ServerConfigSection) : list string :=
  (if port s =? 0 then ["server port cannot be 0"] else [])
  ++ (if is_empty (host s) then ["server host cannot be empty"] else []).

(** The loop over the applications, numbering the messages. *)
Fixpoint app_errors {A} (name : A → string) (check : A → result unit (list string)) (i : Z)
    (apps : list A) : list string :=
  match apps with
  | [] => []
  | a :: apps' =>
    match check a with
    | Ok _ => []
    | Err es => map (λ e, "app[" +:+ pretty i +:+ "] (" +:+ name a +:+ "): " +:+ e) es
    end ++ app_errors name check (i + 1) apps'
  end.
End files.

(** ** [src/config/app.rs] *)

Module AppRs.

Record AppLimits := mkLimits {
  memory_mb : Z;
  timeout_secs : Z;
  workers : Z;
  cpu_time_ms : Z;
  cpu_time_enabled : bool;
  max_ws_connections : option Z;
  ws_idle_timeout_ms : option Z;
}.

Definition default_limits : AppLimits := mkLimits 128 30 4 50 true None None.

Definition effective_max_ws_connections (l : AppLimits) : Z :=
  default (workers l / 2) (max_ws_connections l).

Definition effective_ws_idle_timeout_ms (l : AppLimits) : Z :=
  default 30000 (ws_idle_timeout_ms l).

Record AppConfig := mkApp {
  hostname : string;
  entrypoint : string;
  sliver : option string;
  env_vars : gmap string string;
  limits : AppLimits;
  vfs_backend : VfsBackendType;
  vfs_disk : option VfsDiskConfig;
  vfs_s3 : option VfsS3Config;
}.

Record NanoConfig := mkNano {
  apps : list AppConfig;
  server : ServerConfigSection;
}.

Section validate.
Context {OS : OsFiles} {HO : HashOrder string} {LC : Lowercase}.

Definition config_errors (c : AppConfig) (base : option string) : list string :=
  let has_entrypoint := negb (is_empty (entrypoint c)) in
  let has_sliver := match sliver c with Some _ => true | None => false end in
  hostname_errors (hostname c)
  ++ (if negb has_entrypoint && negb has_sliver
      then ["either entrypoint or sliver must be specified"] else [])
  ++ (if has_entrypoint then path_errors base "entrypoint" "entrypoint" (entrypoint c) else [])
  ++ match sliver c with
     | Some s =>
       if is_empty s then ["sliver path cannot be empty"]
       else path_errors base "sliver" "sliver path" s
     | None => []
     end
  ++ range_errors "memory_mb" (memory_mb (limits c)) 16
       (Limits.isolate.HEAP_SIZE_BYTES_MAX / (1024 * 1024))
  ++ range_errors "timeout_secs" (timeout_secs (limits c)) 1 (Limits.execution.TIMEOUT_MS / 1000)
  ++ range_errors "workers" (workers (limits c)) 1 Limits.queue.WORKERS_PER_APP_MAX
  ++ range_errors "cpu_time_ms" (cpu_time_ms (limits c)) 1 1000
  ++ env_errors (env_vars c)
  ++ vfs_errors (vfs_backend c) (vfs_disk c) (vfs_s3 c).

Definition validate_config (c : AppConfig) (base : option string) : result unit (list string) :=
  finish (config_errors c base).

Definition validate_nano_config (c : NanoConfig) (base : option string) : result unit (list string) :=
  finish (count_errors (Z.of_nat (length (apps c)))
          ++ duplicate_errors ∅ (map hostname (apps c))
          ++ app_errors hostname (λ a, validate_config a base) 0 (apps c)
          ++ server_errors (server c)).
End validate.
End AppRs.

(** ** [src/config/mod.rs] *)

Module ModRs.

Record AppLimits := mkLimits {
  memory_mb : Z;
  timeout_secs : Z;
  workers : Z;
  cpu_time_ms : Z;
  cpu_time_enabled : bool;
}.

Definition default_limits : AppLimits := mkLimits 128 30 4 50 true.

Record AppConfig := mkApp {
  hostname : string;
  entrypoint : string;
  sliver : option string;
  env_vars : gmap string string;
  limits : AppLimits;
  vfs_backend : VfsBackendType;
  vfs_disk : option VfsDiskConfig;
  vfs_s3 : option VfsS3Config;
}.

Definition default_app : AppConfig :=
  mkApp "" "" None ∅ default_limits BMemory None None.

Record NanoConfig := mkNano {
  apps : list AppConfig;
  server : ServerConfigSection;
}.

Definition new_config : NanoConfig := mkNano [] default_server.

Section validate.
Context {OS : OsFiles} {HO : HashOrder string} {LC : Lowercase}.

Definition config_errors (c : AppConfig) (base : option string) : list string :=
  hostname_errors (hostname c)
  ++ (if is_empty (entrypoint c) then ["entrypoint cannot be empty"]
      else path_errors base "entrypoint" "entrypoint" (entrypoint c))
  ++ range_errors "memory_mb" (memory_mb (limits c)) 16
       (Limits.isolate.HEAP_SIZE_BYTES_MAX / (1024 * 1024))
  ++ range_errors "timeout_secs" (timeout_secs (limits c)) 1 (Limits.execution.TIMEOUT_MS / 1000)
  ++ range_errors "workers" (workers (limits c)) 1 Limits.queue.WORKERS_PER_APP_MAX
  ++ env_errors (env_vars c)
  ++ vfs_errors (vfs_backend c) (vfs_disk c) (vfs_s3 c).

Definition validate_config (c : AppConfig) (base : option string) : result unit (list string) :=
  finish (config_errors c base).

Definition validate_nano_config (c : NanoConfig) (base : option string) : result unit (list string) :=
  finish (count_errors (Z.of_nat (length (apps c)))
          ++ duplicate_errors ∅ (map hostname (apps c))
          ++ app_errors hostname (λ a, validate_config a base) 0 (apps c)
          ++ server_errors (server c)).

(** Why a configuration is refused. *)
Inductive LoadError :=
| BadReference (e : SubstError)
| BadJson (message : string)
| Invalid (errors : list string).

(** [loader::load_config_sync], and what [loader::load_config] does with the
    text of the file; [parse] is [serde_json::from_str].  [None] is running out
    of substitution fuel, which never happens. *)
Definition load_config_sync (env : string → option string)
    (parse : string → result NanoConfig string) (content : string) (base : option string)
  : option (result NanoConfig LoadError) :=
  match substitute_env_vars env content with
  | None => None
  | Some s =>
    Some (
      let? substituted := map_err BadReference s in
      let? config := map_err BadJson (parse substituted) in
      let? _ := map_err Invalid (validate_nano_config config base) in
      Ok config)
  end.
End validate.
End ModRs.
