(* ===== verification/ConfigProps.v ===== *)
(** * Properties of configuration validation

    The validators of Config against declarative descriptions of what they
    accept, and what an accepted configuration guarantees to the components
    that use it: a namespace for each application, a registry that keeps every
    application, and requests that pass (or do not pass) the control plane. *)

From stdpp Require Import base gmap list strings.
From Stdlib Require Import Ascii ZArith Lia.
From S2P Require Import Prelude RustString RustList VfsPath VfsBackend VfsIsolate.
From S2P Require Import ControlPlane ConfigLoader Config.
From S2P Require Limits.

Open Scope Z_scope.

(** ** Lemmas on the error lists *)

Lemma finish_ok es : finish es = Ok tt ↔ es = [].
Proof. by destruct es. Qed.

Lemma finish_unit es u : finish es = Ok u ↔ es = [].
Proof. destruct u. apply finish_ok. Qed.

Lemma if_nil {A} (b : bool) (x : A) : (if b then [x] else []) = [] ↔ b = false.
Proof. by destruct b. Qed.

Lemma if_nil_r {A} (b : bool) (l : list A) : (if b then l else []) = [] ↔ (b = true → l = []).
Proof. destruct b; naive_solver. Qed.

Lemma app_nil_iff {A} (l k : list A) : l ++ k = [] ↔ l = [] ∧ k = [].
Proof. split; [apply app_eq_nil|]. by intros [-> ->]. Qed.

Lemma range_errors_nil field v lo hi : range_errors field v lo hi = [] ↔ lo ≤ v ≤ hi.
Proof.
  unfold range_errors. rewrite if_nil, orb_false_iff, Z.gtb_ltb, !Z.ltb_ge. lia.
Qed.

Lemma hostname_errors_nil h : hostname_errors h = [] ↔ is_valid_hostname h = true.
Proof.
  unfold hostname_errors. destruct (is_empty h) eqn:E.
  - unfold is_valid_hostname. rewrite E. done.
  - by destruct (is_valid_hostname h).
Qed.

(** A path that passes the checks. *)
Definition path_valid `{OsFiles} (base : option string) (p : string) : Prop :=
  contains_sub ".." p = false ∧
  ∀ b, base = Some b →
    os_exists (path_join b p) = true ∧ os_is_file (path_join b p) = true.

Lemma path_join_absolute b p : is_absolute p = true → path_join b p = p.
Proof. unfold path_join. by intros ->. Qed.

Lemma path_errors_nil `{OsFiles} base what shown p :
  path_errors base what shown p = [] ↔ path_valid base p.
Proof.
  unfold path_errors, path_valid. destruct (contains_sub ".." p); [naive_solver|].
  destruct base as [b|]; [|naive_solver].
  assert ((if is_absolute p then p else path_join b p) = path_join b p) as ->.
  { destruct (is_absolute p) eqn:E; [|done]. by rewrite path_join_absolute. }
  destruct (os_exists (path_join b p)) eqn:E1, (os_is_file (path_join b p)) eqn:E2; simpl;
    split; intros Hx; try done.
  - split; [done|]. intros b' Hb. injection Hb as <-. done.
  - destruct (proj2 Hx b eq_refl). congruence.
  - destruct (proj2 Hx b eq_refl). congruence.
  - destruct (proj2 Hx b eq_refl). congruence.
Qed.

(** An environment entry that passes. *)
Definition env_entry_valid (key value : string) : Prop :=
  key ≠ "" ∧ contains_sub ".." key = false ∧ contains_char slash key = false ∧
  contains_char backslash key = false ∧ slen value ≤ 65536.

Lemma env_entry_errors_nil k v : env_entry_errors (k, v) = [] ↔ env_entry_valid k v.
Proof.
  unfold env_entry_errors, env_entry_valid. rewrite !app_nil_iff, !if_nil, !orb_false_iff.
  rewrite is_empty_false, Z.gtb_ltb, Z.ltb_ge. tauto.
Qed.

Lemma env_errors_nil `{HashOrder string} (env : gmap string string) :
  env_errors env = [] ↔ map_Forall env_entry_valid env.
Proof.
  unfold env_errors.
  assert (Hc : ∀ l : list (string * string),
    concat (map env_entry_errors l) = [] ↔ Forall (λ e, env_entry_valid e.1 e.2) l).
  { induction l as [|[k v] l IH]; simpl; [by split|].
    rewrite app_nil_iff, Forall_cons, IH. by rewrite <-env_entry_errors_nil. }
  rewrite Hc, Forall_forall. split.
  - intros Hx k v Hk. apply (Hx (k, v)), elem_of_hash_iter, Hk.
  - intros Hx [k v] Hk. apply Hx, elem_of_hash_iter, Hk.
Qed.

(** A storage configuration that passes. *)
Definition vfs_valid (b : VfsBackendType) (disk : option VfsDiskConfig) (s3 : option VfsS3Config) : Prop :=
  match b with
  | BMemory => True
  | BDisk => ∃ d, disk = Some d ∧ base_path d ≠ "" ∧ contains_sub ".." (base_path d) = false
  | BS3 => ∃ c, s3 = Some c ∧ endpoint c ≠ "" ∧ bucket c ≠ "" ∧ access_key c ≠ "" ∧ secret_key c ≠ ""
  end.

Lemma vfs_errors_nil b disk s3 : vfs_errors b disk s3 = [] ↔ vfs_valid b disk s3.
Proof.
  destruct b; simpl; [by split| |].
  - destruct disk as [d|]; [|naive_solver]. destruct (is_empty (base_path d)) eqn:E.
    + apply is_empty_true in E. split; [done|]. naive_solver.
    + apply is_empty_false in E. rewrite if_nil. naive_solver.
  - destruct s3 as [c|]; [|naive_solver]. rewrite !app_nil_iff, !if_nil, !is_empty_false.
    naive_solver.
Qed.

Lemma count_errors_nil n : 0 ≤ n → count_errors n = [] ↔ 1 ≤ n ≤ 1000.
Proof.
  intros H. unfold count_errors. rewrite Z.gtb_ltb.
  destruct (Z.eqb_spec n 0), (Z.ltb_spec 1000 n); (split; [|lia || done]; (lia || done)).
Qed.

Lemma duplicate_errors_nil `{Lowercase} hs : ∀ seen,
  duplicate_errors seen hs = [] ↔
  NoDup (map to_lowercase hs) ∧ Forall (λ h, to_lowercase h ∉ seen) hs.
Proof.
  induction hs as [|h hs IH]; intros seen; simpl.
  { split; [intros _; split; constructor|done]. }
  destruct (decide (to_lowercase h ∈ seen)) as [Hin|Hin].
  { rewrite Forall_cons. naive_solver. }
  rewrite IH, NoDup_cons, Forall_cons, list_elem_of_fmap, !Forall_forall. set_solver.
Qed.

Lemma app_errors_nil {A} (name : A → string) check apps i :
  app_errors name check i apps = [] ↔
  Forall (λ a, check a = Ok tt ∨ check a = Err []) apps.
Proof.
  revert i. induction apps as [|a apps IH]; intros i; simpl; [by split|].
  rewrite app_nil_iff, Forall_cons, IH. destruct (check a) as [[]|[|e es]]; simpl; naive_solver.
Qed.

Lemma finish_never_err_nil es : finish es ≠ Err [].
Proof. by destruct es. Qed.

Lemma server_errors_nil s : server_errors s = [] ↔ port s ≠ 0 ∧ host s ≠ "".
Proof.
  unfold server_errors. rewrite app_nil_iff, !if_nil, is_empty_false. by rewrite Z.eqb_neq.
Qed.

(** ** What validation accepts *)

Section accept.
Context {OS : OsFiles} {HO : HashOrder string} {LC : Lowercase}.

(** app.rs *)
Definition app_valid (c : AppRs.AppConfig) (base : option string) : Prop :=
  is_valid_hostname (AppRs.hostname c) = true ∧
  (AppRs.entrypoint c ≠ "" ∨ AppRs.sliver c ≠ None) ∧
  (AppRs.entrypoint c ≠ "" → path_valid base (AppRs.entrypoint c)) ∧
  (∀ s, AppRs.sliver c = Some s → s ≠ "" ∧ path_valid base s) ∧
  16 ≤ AppRs.memory_mb (AppRs.limits c) ≤ 256 ∧
  1 ≤ AppRs.timeout_secs (AppRs.limits c) ≤ 30 ∧
  1 ≤ AppRs.workers (AppRs.limits c) ≤ 64 ∧
  1 ≤ AppRs.cpu_time_ms (AppRs.limits c) ≤ 1000 ∧
  map_Forall env_entry_valid (AppRs.env_vars c) ∧
  vfs_valid (AppRs.vfs_backend c) (AppRs.vfs_disk c) (AppRs.vfs_s3 c).

(** mod.rs: no bound on [cpu_time_ms], and an entrypoint even for slivers *)
Definition mod_valid (c : ModRs.AppConfig) (base : option string) : Prop :=
  is_valid_hostname (ModRs.hostname c) = true ∧
  ModRs.entrypoint c ≠ "" ∧ path_valid base (ModRs.entrypoint c) ∧
  16 ≤ ModRs.memory_mb (ModRs.limits c) ≤ 256 ∧
  1 ≤ ModRs.timeout_secs (ModRs.limits c) ≤ 30 ∧
  1 ≤ ModRs.workers (ModRs.limits c) ≤ 64 ∧
  map_Forall env_entry_valid (ModRs.env_vars c) ∧
  vfs_valid (ModRs.vfs_backend c) (ModRs.vfs_disk c) (ModRs.vfs_s3 c).

Lemma app_config_errors_nil c base : AppRs.config_errors c base = [] ↔ app_valid c base.
Proof.
  unfold AppRs.config_errors, app_valid.
  rewrite !app_nil_iff, hostname_errors_nil, !range_errors_nil, env_errors_nil, vfs_errors_nil.
  rewrite if_nil, if_nil_r, path_errors_nil, negb_true_iff, is_empty_false.
  assert (negb (negb (is_empty (AppRs.entrypoint c))) &&
          negb match AppRs.sliver c with Some _ => true | None => false end = false ↔
          AppRs.entrypoint c ≠ "" ∨ AppRs.sliver c ≠ None) as ->.
  { rewrite negb_involutive, <-is_empty_false. destruct (is_empty _), (AppRs.sliver c); simpl; naive_solver. }
  assert (match AppRs.sliver c with
          | Some s => if is_empty s then ["sliver path cannot be empty"]
                      else path_errors base "sliver" "sliver path" s
          | None => [] end = [] ↔
          (∀ s, AppRs.sliver c = Some s → s ≠ "" ∧ path_valid base s)) as ->.
  { destruct (AppRs.sliver c) as [s|]; [|naive_solver]. destruct (is_empty s) eqn:E.
    - apply is_empty_true in E. split; [done|]. intros Hs. by destruct (Hs s eq_refl).
    - apply is_empty_false in E. rewrite path_errors_nil. naive_solver. }
  done.
Qed.

Lemma mod_config_errors_nil c base : ModRs.config_errors c base = [] ↔ mod_valid c base.
Proof.
  unfold ModRs.config_errors, mod_valid.
  rewrite !app_nil_iff, hostname_errors_nil, !range_errors_nil, env_errors_nil, vfs_errors_nil.
  destruct (is_empty (ModRs.entrypoint c)) eqn:E.
  - apply is_empty_true in E. naive_solver.
  - apply is_empty_false in E. rewrite path_errors_nil. naive_solver.
Qed.

(** What [validate_nano_config] accepts. *)
Lemma validate_nano_config_iff c base :
  ModRs.validate_nano_config c base = Ok tt ↔
  1 ≤ Z.of_nat (length (ModRs.apps c)) ≤ 1000 ∧
  NoDup (map to_lowercase (map ModRs.hostname (ModRs.apps c))) ∧
  Forall (λ a, mod_valid a base) (ModRs.apps c) ∧
  port (ModRs.server c) ≠ 0 ∧ host (ModRs.server c) ≠ "".
Proof.
  unfold ModRs.validate_nano_config.
  rewrite finish_ok, !app_nil_iff, count_errors_nil, duplicate_errors_nil, app_errors_nil,
    server_errors_nil by lia.
  assert (Forall (λ a, ModRs.validate_config a base = Ok tt ∨ ModRs.validate_config a base = Err [])
            (ModRs.apps c) ↔ Forall (λ a, mod_valid a base) (ModRs.apps c)) as ->.
  { rewrite !Forall_forall. unfold ModRs.validate_config.
    setoid_rewrite finish_ok. setoid_rewrite mod_config_errors_nil.
    pose proof finish_never_err_nil. naive_solver. }
  assert (Forall (λ h, to_lowercase h ∉ (∅ : gset string)) (map ModRs.hostname (ModRs.apps c))) as Hf.
  { apply Forall_forall. set_solver. }
  naive_solver.
Qed.
End accept.

(** *** Hostnames as namespaces *)

Definition host_char (a : ascii) : bool := label_char a || char_eqb a dot.
Definition ns_char (a : ascii) : bool := is_alphanumeric a || char_eqb a underscore.

Lemma all_chars_impl (f g : ascii → bool) s :
  (∀ a, f a = true → g a = true) → all_chars f s = true → all_chars g s = true.
Proof.
  intros H. induction s as [|a s IH]; simpl; [done|]. rewrite !andb_true_iff. naive_solver.
Qed.

Lemma split_all_chars f c s :
  Forall (λ w, all_chars f w = true) (split c s) → all_chars (λ a, f a || char_eqb a c) s = true.
Proof.
  induction s as [|a s IH]; simpl; [done|]. destruct (char_eqb a c) eqn:E.
  - intros [_ H]%Forall_cons. rewrite orb_true_r. by apply IH.
  - destruct (split c s) as [|w ws] eqn:Es; [by destruct (split_nonnil c s)|].
    intros [Hw Hws]%Forall_cons. simpl in Hw. apply andb_true_iff in Hw as [Ha Hw].
    rewrite Ha. simpl. apply IH. by constructor.
Qed.

Lemma valid_hostname_chars h : is_valid_hostname h = true → all_chars host_char h = true.
Proof.
  unfold is_valid_hostname. intros H. bool_split. unfold host_char. apply split_all_chars.
  apply forallb_Forall in H0. eapply Forall_impl; [exact H0|]. intros w Hw. simpl in Hw.
  unfold valid_label in Hw. by bool_split.
Qed.

(** The characters [from_hostname] makes of the characters of a hostname. *)
Definition ns_of_char (a : ascii) : ascii :=
  if char_eqb (lower_char a) dot then underscore
  else if char_eqb (lower_char a) dash then underscore else lower_char a.

Lemma host_char_facts a :
  host_char a = true → is_ascii_char a = true ∧ ns_char (ns_of_char a) = true.
Proof.
  destruct a as [[] [] [] [] [] [] [] []]; vm_compute; (intros H; discriminate H) || auto.
Qed.

Lemma from_hostname_chars h :
  all_chars host_char h = true →
  is_ascii h = true ∧
  all_chars ns_char (replace_char dash "_" (replace_char dot "_" (ascii_lowercase h))) = true.
Proof.
  induction h as [|a h IH]; simpl; [done|]. intros [Ha Hh]%andb_true_iff.
  destruct (host_char_facts a Ha) as [H1 H2]. destruct (IH Hh) as [H3 H4].
  split; [unfold is_ascii in *; simpl; by rewrite H1|].
  unfold ns_of_char in H2. destruct (char_eqb (lower_char a) dot) eqn:E1; simpl.
  - exact H4.
  - destruct (char_eqb (lower_char a) dash) eqn:E2; simpl; [exact H4|]. by rewrite H2.
Qed.

Lemma replace_char_nonempty c r s : r ≠ "" → s ≠ "" → replace_char c r s ≠ "".
Proof. destruct s as [|a s], r as [|b r]; simpl; try done. intros _ _. by case_if. Qed.

Lemma ascii_lowercase_nonempty s : s ≠ "" → ascii_lowercase s ≠ "".
Proof. by destruct s. Qed.

Lemma valid_hostname_ns `{Lowercase} h :
  is_valid_hostname h = true →
  good_ns (from_hostname h) ∧ all_chars ns_char (from_hostname h) = true.
Proof.
  intros Hv. pose proof (valid_hostname_chars h Hv) as Hc.
  destruct (from_hostname_chars h Hc) as [Ha Hn].
  unfold from_hostname. rewrite to_lowercase_ascii by done.
  unfold is_valid_hostname in Hv. bool_split.
  assert (h ≠ "") as Hne by (apply is_empty_false; assumption).
  split; [|exact Hn].
  constructor; [|apply (all_chars_contains ns_char); [exact Hn|reflexivity]..].
  apply replace_char_nonempty; [done|]. apply replace_char_nonempty; [done|].
  by apply ascii_lowercase_nonempty.
Qed.

(** ** Properties *)

Section props.
Context {OS : OsFiles} {HO : HashOrder string} {LC : Lowercase}.

(** [validate_config] of app.rs accepts exactly the configurations
    [app_valid] describes: an RFC 1123 hostname, an entrypoint or a sliver, each
    without [".."] and naming a file where a base path is given, every limit in
    its range, harmless environment keys and a complete storage section. *)
Theorem app_validate_config_exact c base :
  AppRs.validate_config c base = Ok tt ↔ app_valid c base.
Proof. unfold AppRs.validate_config. by rewrite finish_ok, app_config_errors_nil. Qed.

(** C31. [validate_nano_config] of mod.rs (the validator [load_config] runs)
    accepts exactly: one to a thousand applications, hostnames distinct in lower
    case, every application valid, a non-zero port and a bind address. *)
Theorem validate_nano_config_exact c base :
  ModRs.validate_nano_config c base = Ok tt ↔
  1 ≤ Z.of_nat (length (ModRs.apps c)) ≤ 1000 ∧
  NoDup (map to_lowercase (map ModRs.hostname (ModRs.apps c))) ∧
  Forall (λ a, mod_valid a base) (ModRs.apps c) ∧
  port (ModRs.server c) ≠ 0 ∧ host (ModRs.server c) ≠ "".
Proof. apply validate_nano_config_iff. Qed.

(** A valid hostname always gives a usable VFS namespace: [from_hostname]
    makes it a non-empty path component without ["/"], [":"] or NUL, of letters,
    digits and underscores, so the isolation theorems of VfsIsolate apply to
    every application of an accepted configuration. *)
Theorem valid_hostname_namespace h :
  is_valid_hostname h = true →
  good_ns (from_hostname h) ∧ all_chars ns_char (from_hostname h) = true ∧
  1 ≤ slen h ≤ 253.
Proof.
  intros Hv. destruct (valid_hostname_ns h Hv) as [Hg Hn]. split_and!; [done|done|..];
    unfold is_valid_hostname in Hv; bool_split.
  - pose proof (slen_pos h) as Hp. rewrite H in Hp. simpl in Hp. by apply Z.leb_le.
  - rewrite Z.gtb_ltb in *. by apply Z.ltb_ge.
Qed.

(** The same application with another CPU limit. *)
Definition with_cpu_ms (c : ModRs.AppConfig) (ms : Z) : ModRs.AppConfig :=
  let l := ModRs.limits c in
  ModRs.mkApp (ModRs.hostname c) (ModRs.entrypoint c) (ModRs.sliver c) (ModRs.env_vars c)
    (ModRs.mkLimits (ModRs.memory_mb l) (ModRs.timeout_secs l) (ModRs.workers l) ms
       (ModRs.cpu_time_enabled l))
    (ModRs.vfs_backend c) (ModRs.vfs_disk c) (ModRs.vfs_s3 c).

(** The validator of mod.rs does not look at [cpu_time_ms]: a configuration
    stays valid with any value of it, although the type documents 1 to 1000.
    With a value above 30000 each request of that application fails the range
    assertion of [validate_request_ref], which ends the process. *)
Theorem cpu_limit_unvalidated c base ms cp t :
  ModRs.validate_config c base = ModRs.validate_config (with_cpu_ms c ms) base ∧
  (Limits.execution.TIMEOUT_MS < ms →
   cpu_time_limit_ms t = ModRs.cpu_time_ms (ModRs.limits (with_cpu_ms c ms)) →
   is_done (validate_request_ref cp t) = false).
Proof.
  split; [done|]. simpl. intros Hms Ht. unfold validate_request_ref. rewrite !is_done_assert.
  assert (in_range (effective_timeout t) 1 Limits.execution.TIMEOUT_MS = false) as ->.
  { unfold in_range, effective_timeout. rewrite Ht, Z.gtb_ltb.
    rewrite (proj2 (Z.ltb_lt 0 ms)) by (unfold Limits.execution.TIMEOUT_MS in *; lia).
    rewrite (proj2 (Z.leb_gt ms _)) by lia. by rewrite andb_false_r. }
  simpl. by rewrite !andb_false_r.
Qed.
End props.

(** ** Witnesses *)

Section demo.
#[local] Instance demo_files : OsFiles := {| os_exists := λ _, true; os_is_file := λ _, true |}.
#[local] Instance demo_env_order : HashOrder string := plain_order.
#[local] Instance demo_lower : Lowercase := ascii_Lowercase.

Definition demo_app : ModRs.AppConfig :=
  ModRs.mkApp "api.example.com" "apps/api.js" None {["KEY" := "v"]} ModRs.default_limits BMemory None None.

Example demo_app_valid : ModRs.validate_config demo_app (Some "/etc/nano") = Ok tt.
Proof. vm_compute. reflexivity. Qed.

Example demo_app_twice :
  ModRs.validate_nano_config (ModRs.mkNano [demo_app; demo_app] default_server) None =
  Err ["duplicate hostname: 'api.example.com' (case-insensitive)"].
Proof. vm_compute. reflexivity. Qed.

Lemma valid_hostname_namespace_witness :
  from_hostname "API.example-1.com" = "api_example_1_com" ∧ good_ns (from_hostname "API.example-1.com").
Proof.
  split; [vm_compute; reflexivity|].
  apply (valid_hostname_namespace "API.example-1.com"). vm_compute. reflexivity.
Defined.

Lemma cpu_limit_unvalidated_witness :
  ModRs.validate_config (with_cpu_ms demo_app 60000) None = Ok tt ∧
  is_done (validate_request_ref fresh
    (mkTask "/app/index.js" "GET" None 1 "default" 0 60000 "req_1" 0)) = false.
Proof.
  split; [vm_compute; reflexivity|].
  apply (proj2 (cpu_limit_unvalidated demo_app None 60000 fresh
    (mkTask "/app/index.js" "GET" None 1 "default" 0 60000 "req_1" 0))); reflexivity.
Defined.
End demo.
