(* ===== verification/Disk.v ===== *)
(** * [src/vfs/disk.rs]: where the disk backend puts a VFS path

    [sanitize_namespace], [to_filesystem_path] and the write limits of the disk
    backend.  The file operations themselves (reading, atomic writing, scanning)
    are calls of the operating system and are not modelled.  A [PathBuf] is its text, but
    two of them are the same path, for the standard library and for a file system without
    links that tells names apart by their bytes, when they have the same components. *)

From stdpp Require Import base gmap list strings.
From Stdlib Require Import Ascii ZArith Lia.
From S2P Require Import Prelude RustString VfsPath VfsBackend VfsIsolate Config ConfigProps.

Open Scope Z_scope.

(** ** Definitions *)

Definition sanitize_namespace (namespace : string) : string :=
  replace_char backslash "_" (replace_char slash "_" (replace_sub "::" "__" namespace)).

(** [Path::components]: separators are taken together, and [.] counts only at the
    beginning of a relative path. *)
Inductive Component := RootDir | CurDir | ParentDir | Normal (name : string).

Definition component (piece : string) : option Component :=
  if is_empty piece || String.eqb piece "." then None
  else if String.eqb piece ".." then Some ParentDir else Some (Normal piece).

Definition components (p : string) : list Component :=
  (if is_absolute p then [RootDir]
   else match split slash p with "." :: _ => [CurDir] | _ => [] end) ++ omap component (split slash p).

Record PathBuf := mkPathBuf { as_os_str : string }.

(** [PartialEq] of paths. *)
#[export] Instance PathBuf_equiv : Equiv PathBuf := λ p q, components (as_os_str p) = components (as_os_str q).
#[export] Instance PathBuf_equivalence : Equivalence (≡@{PathBuf}).
Proof. split; unfold equiv, PathBuf_equiv; congruence. Qed.

Definition join_buf (p : PathBuf) (other : string) : PathBuf := mkPathBuf (path_join (as_os_str p) other).

Definition to_filesystem_path (base_path : PathBuf) (path : VfsPath) : PathBuf :=
  let path_str := as_str path in
  let '(namespace, subpath) :=
    match find_sub "::" path_str with
    | Some idx => (stake idx path_str, sdrop (idx + 2) path_str)
    | None => ("", path_str)
    end in
  let fs_path :=
    if is_empty namespace then base_path
    else join_buf base_path (sanitize_namespace namespace) in
  if negb (is_empty subpath) then join_buf fs_path subpath else fs_path.

(** [check_write_bounds] on the two counters *)
Definition check_write_bounds (l : ResourceLimits) (file_count total_bytes : Z)
    (content_len : Z) (is_new : bool) (old_size : Z) : VfsResult unit :=
  let max_file_size := as_u64 (file_size_bytes_max l) in
  let max_file_count := as_u64 (files_count_max l) in
  let max_total_storage := as_u64 (total_storage_bytes_max l) in
  if content_len >? max_file_size then
    Err (QuotaExceeded "file_size" (file_size_bytes_max l) (as_u32 content_len))
  else if is_new && (file_count >=? max_file_count) then
    Err (QuotaExceeded "file_count" (files_count_max l) (as_u32 file_count))
  else
    let size_delta := sub_i64 (as_i64 content_len) (as_i64 old_size) in
    let current_total := as_i64 total_bytes in
    let new_total := as_u64 (add_i64 current_total size_delta) in
    if new_total >? max_total_storage then
      Err (QuotaExceeded "total_storage" (total_storage_bytes_max l) (as_u32 current_total))
    else Ok tt.

(** The names in a path that a program gives: its pieces but for empty ones and [.]. *)
Definition is_name (w : string) : bool := negb (is_empty w) && negb (String.eqb w ".").
Definition names (path : string) : list string := List.filter is_name (split slash path).

(** ** Lemmas *)

(** A namespace of letters, digits and underscores is left alone. *)
Lemma replace_char_absent c r s : contains_char c s = false → replace_char c r s = s.
Proof.
  induction s as [|a s IH]; simpl; [done|]. intros H. apply orb_false_iff in H as [Ha Hs].
  by rewrite Ha, IH.
Qed.

Lemma replace_go_absent c p r s :
  contains_char c s = false → replace_go (String c p) r 0 s = s.
Proof.
  induction s as [|a s IH]; [done|]. intros H. simpl in H. apply orb_false_iff in H as [Ha Hs].
  cbn [replace_go]. assert (starts_with (String c p) (String a s) = false) as ->.
  { apply not_true_iff_false. intros (t & E)%starts_with_true. injection E as -> _.
    by rewrite char_eqb_refl in Ha. }
  by rewrite IH.
Qed.

Lemma sanitize_plain ns : all_chars ns_char ns = true → sanitize_namespace ns = ns.
Proof.
  intros Hn. unfold sanitize_namespace, replace_sub. change "::" with (String colon ":").
  assert (Habs : ∀ c, ns_char c = false → contains_char c ns = false)
    by (intros c; by apply all_chars_contains).
  rewrite replace_go_absent by by apply Habs. rewrite (replace_char_absent slash) by by apply Habs.
  by rewrite (replace_char_absent backslash) by by apply Habs.
Qed.

Lemma find_ns ns s :
  good_ns ns → find_sub "::" (ns +:+ ("::" +:+ s)) = Some (String.length ns).
Proof. intros Hns. apply (find_sub_first colon ":"). by apply ns_colon. Qed.

Lemma is_absolute_contains s : contains_char slash s = false → is_absolute s = false.
Proof. destruct s as [|a s]; simpl; [done|]. intros H. by apply orb_false_iff in H as [-> _]. Qed.

Lemma ns_not_absolute ns : good_ns ns → is_absolute ns = false.
Proof. intros H. by apply is_absolute_contains, ns_slash. Qed.

Lemma wf_path_relative p : wf_path p → is_absolute (as_str p) = false.
Proof.
  intros [_ _ Hs]. unfold segments in Hs. destruct (as_str p) as [|a s]; [done|]. simpl.
  destruct (char_eqb a slash) eqn:E; [|done]. simpl in Hs. rewrite E in Hs.
  apply Forall_cons in Hs as [[H _] _]. done.
Qed.

Lemma wf_path_nonempty p : wf_path p → as_str p ≠ "".
Proof.
  intros [_ _ Hs] E. unfold segments in Hs. rewrite E in Hs. apply Forall_cons in Hs as [[H _] _]. done.
Qed.

(** Joining puts the components of a relative path behind those of the base. *)
Lemma join_pieces base p : is_absolute p = false → base ≠ "" →
  (∃ pre, split slash base = pre ++ [""] ∧ split slash (path_join base p) = pre ++ split slash p ∧ pre ≠ []) ∨
  split slash (path_join base p) = split slash base ++ split slash p.
Proof.
  unfold path_join. intros -> Hb. rewrite (proj2 (is_empty_false base)) by done.
  destruct (ends_with_char slash base) eqn:E.
  - left. apply ends_with_char_true in E as [t ->]. exists (split slash t). split_and!.
    + by rewrite (split_app slash t "").
    + rewrite <- str_app_assoc. change (String slash "" +:+ p) with (String slash p). apply split_app.
    + apply split_nonnil.
  - right. change ("/" +:+ p) with (String slash p). apply split_app.
Qed.

Lemma components_join base p : is_absolute p = false → base ≠ "" →
  components (path_join base p) = components base ++ omap component (split slash p).
Proof.
  intros Hp Hb. unfold components.
  assert (Ha : is_absolute (path_join base p) = is_absolute base).
  { unfold path_join. rewrite Hp, (proj2 (is_empty_false base)) by done. destruct base as [|a base]; [done|].
    by destruct (ends_with_char slash (String a base)). }
  rewrite Ha, <- app_assoc. destruct (join_pieces base p Hp Hb) as [(pre & -> & -> & Hpre)| ->].
  - rewrite !omap_app, app_nil_r. destruct pre as [|w pre]; [done|]. f_equal.
  - rewrite omap_app. destruct (split_cons_ne slash base) as (w & ws & ->). f_equal.
Qed.

Lemma component_names ws : Forall (λ w, w ≠ "..") ws → omap component ws = Normal <$> List.filter is_name ws.
Proof.
  induction 1 as [|w ws Hw _ IH]; [done|]. cbn [List.filter omap list_omap]. unfold component at 1, is_name at 1.
  destruct (is_empty w), (String.eqb w "."); cbn [orb andb negb]; [exact IH..|].
  destruct (String.eqb_spec w ".."); [done|]. by rewrite IH.
Qed.

Lemma names_pieces s : names s = List.filter is_name (nonempty_pieces s).
Proof.
  unfold names, nonempty_pieces. induction (split slash s) as [|w ws IH]; [done|].
  destruct (decide (w = "")) as [->|Hw].
  - rewrite filter_cons_False by (by intros []). exact IH.
  - rewrite filter_cons_True by done. cbn [List.filter]. by rewrite IH.
Qed.

Lemma new_names s p : new s = Ok p → List.filter is_name (segments p) = names s.
Proof.
  intros Hp. pose proof (wf_path_nonempty p (new_wf _ _ Hp)) as Hne. apply new_inv in Hp as [_ Hp]. rewrite names_pieces.
  unfold segments. rewrite Hp in *. pose proof (nonempty_pieces_no_sep s) as Hs.
  destruct (nonempty_pieces s) as [|w ws]; [done|]. f_equal. by apply split_join.
Qed.

Lemma names_good s p : new s = Ok p → Forall (λ w, w ≠ "" ∧ w ≠ "." ∧ w ≠ ".." ∧ contains_char slash w = false) (names s).
Proof.
  intros Hp. rewrite <- (new_names s p Hp). pose proof (wf_segs p (new_wf _ _ Hp)) as Hs. rewrite Forall_forall in Hs.
  pose proof (split_no_sep slash (as_str p)) as Hn. rewrite Forall_forall in Hn.
  apply Forall_forall. intros w Hw. apply list_elem_of_In, filter_In in Hw as [Hw Hi]. apply list_elem_of_In in Hw.
  destruct (Hs w Hw) as [_ Hdd]. unfold is_name in Hi. apply andb_true_iff in Hi as [He Hd].
  apply negb_true_iff in He. apply negb_true_iff in Hd. split_and!; [by apply is_empty_false|by apply String.eqb_neq|done|by apply Hn].
Qed.

(** The directory of a namespace and what a path of it adds. *)
Lemma namespaced_fs_path base ns path p q :
  base ≠ "" → good_ns ns → all_chars ns_char ns = true → new path = Ok p →
  as_str q = ns +:+ ("::" +:+ as_str p) →
  components (as_os_str (to_filesystem_path (mkPathBuf base) q)) = components base ++ Normal ns :: (Normal <$> names path).
Proof.
  intros Hb Hns Hnc Hp Hq. unfold to_filesystem_path. rewrite Hq, find_ns by done.
  rewrite stake_app, sdrop_app_plus. change (sdrop 2 ("::" +:+ as_str p)) with (as_str p).
  assert (Hw : wf_path p) by exact (new_wf _ _ Hp).
  pose proof (wf_path_nonempty p Hw) as Hpn. pose proof (ns_nonempty _ Hns) as Hnn.
  rewrite (proj2 (is_empty_false ns)), (proj2 (is_empty_false (as_str p))) by done. cbn [negb as_os_str join_buf].
  rewrite sanitize_plain by done.
  assert (Hj : path_join base ns ≠ "").
  { unfold path_join. rewrite (ns_not_absolute ns Hns). destruct base as [|a base]; [done|]. by destruct (_ || _). }
  rewrite components_join by (by try apply wf_path_relative). rewrite components_join by (by try apply ns_not_absolute).
  rewrite (split_one slash ns) by (by apply ns_slash). cbn [omap list_omap].
  assert (Hc : component ns = Some (Normal ns)).
  { unfold component. rewrite (proj2 (is_empty_false ns)) by done.
    assert (Hdot : contains_char dot ns = false) by (eapply all_chars_contains; [done|reflexivity]).
    destruct (String.eqb_spec ns ".") as [->|]; [done|]. by destruct (String.eqb_spec ns "..") as [->|]. }
  rewrite Hc, <- app_assoc. f_equal. cbn [app]. f_equal. fold (segments p). rewrite <- (new_names path p Hp). apply component_names.
  eapply Forall_impl; [exact (wf_segs p Hw)|]. by intros w [_ ?].
Qed.

(** ** Properties *)

(** C26. Confinement on disk.  For an application with a valid hostname, every path its
    namespace accepts is mapped to the directory of the base that is named after its
    namespace and, below it, the names of the path in their order: none of them is empty,
    [.] or [..] or contains a slash.  Two applications name the same file exactly when they
    have one namespace and their paths have the same names, so applications with different
    namespaces never share a file, and one application names a file with [a/./b] and
    [a/b], which are different VFS paths. *)
Theorem disk_namespace_confined `{Lowercase} base h1 h2 path1 path2 q1 q2 :
  base ≠ "" →
  is_valid_hostname h1 = true → is_valid_hostname h2 = true →
  prefix_namespace (from_hostname h1) path1 = Ok q1 →
  prefix_namespace (from_hostname h2) path2 = Ok q2 →
  let file q := to_filesystem_path (mkPathBuf base) q in
  components (as_os_str (file q1)) = components base ++ Normal (from_hostname h1) :: (Normal <$> names path1) ∧
  Forall (λ w, w ≠ "" ∧ w ≠ "." ∧ w ≠ ".." ∧ contains_char slash w = false) (from_hostname h1 :: names path1) ∧
  (file q1 ≡ file q2 ↔ from_hostname h1 = from_hostname h2 ∧ names path1 = names path2).
Proof.
  intros Hb Hv1 Hv2 Hq1 Hq2 file.
  destruct (valid_hostname_ns h1 Hv1) as [Hg1 Hc1]. destruct (valid_hostname_ns h2 Hv2) as [Hg2 Hc2].
  destruct (prefix_namespace_ok _ _ _ Hg1 Hq1) as (p1 & Hp1 & Ha1 & _).
  destruct (prefix_namespace_ok _ _ _ Hg2 Hq2) as (p2 & Hp2 & Ha2 & _).
  pose proof (namespaced_fs_path base (from_hostname h1) path1 p1 q1 Hb Hg1 Hc1 Hp1 Ha1) as E1.
  pose proof (namespaced_fs_path base (from_hostname h2) path2 p2 q2 Hb Hg2 Hc2 Hp2 Ha2) as E2.
  split_and!; [exact E1| |].
  - constructor; [|by eapply names_good].
    assert (Hdot : contains_char dot (from_hostname h1) = false) by (eapply all_chars_contains; [done|reflexivity]).
    split_and!; [by apply ns_nonempty|..|by apply ns_slash].
    all: intros E; by rewrite E in Hdot.
  - unfold equiv, PathBuf_equiv, file. rewrite E1, E2. split.
    + intros [= Hn Hl]%app_inv_head. split; [done|]. revert Hl. apply list_fmap_eq_inj. by intros ?? [=].
    + by intros [-> ->].
Qed.

#[local] Instance demo_lower : Lowercase := ascii_Lowercase.

Lemma disk_namespace_confined_witness :
  prefix_namespace (from_hostname "api.example.com") "a/./b.txt" = Ok (mkVfsPath "api_example_com::a/./b.txt") ∧
  to_filesystem_path (mkPathBuf "/data") (mkVfsPath "api_example_com::a/./b.txt")
    ≡ to_filesystem_path (mkPathBuf "/data") (mkVfsPath "api_example_com::a/b.txt") ∧
  ¬ to_filesystem_path (mkPathBuf "/data") (mkVfsPath "api_example_com::a/./b.txt")
    ≡ to_filesystem_path (mkPathBuf "/data") (mkVfsPath "b_org::a/./b.txt").
Proof.
  split; [vm_compute; reflexivity|]. split.
  - apply (disk_namespace_confined "/data" "api.example.com" "api.example.com" "a/./b.txt" "a/b.txt");
      try (vm_compute; reflexivity); [discriminate|split; vm_compute; reflexivity].
  - intros E. apply (disk_namespace_confined "/data" "api.example.com" "b.org" "a/./b.txt" "a/./b.txt") in E;
      try (vm_compute; reflexivity); [|discriminate]. destruct E as [E _]. vm_compute in E. discriminate E.
Defined.

(** Without a namespace the mapping is not confined: [VfsPath::new] accepts
    ["x::/etc/passwd"], and the part after ["::"] is absolute, so joining it to
    the base directory gives the file itself, wherever the base is. *)
Theorem disk_path_escapes base :
  ∃ p, new "x::/etc/passwd" = Ok p ∧ to_filesystem_path base p = mkPathBuf "/etc/passwd".
Proof. exists (mkVfsPath "x::/etc/passwd"). split; [vm_compute; reflexivity|]. reflexivity. Qed.
