(* ===== verification/Timeout.v ===== *)
(** * [src/worker/cpu_tracker.rs] and [src/worker/timeout.rs]: CPU and wall-clock limits

    Times in the tracker are microseconds, in the timer nanoseconds.  The clocks
    ([SystemTime], [clock_gettime]) and the readiness of a [tokio] sleep are
    inputs; the terminated isolate is a counter of [terminate_execution] calls. *)

From stdpp Require Import base list strings.
From Stdlib Require Import ZArith Lia.
From S2P Require Import Prelude RustString RustList Config.

Open Scope Z_scope.

(** ** [cpu_tracker.rs] *)

Inductive CpuTimeError :=
| CpuLimitExceeded (used_us limit_us : Z)
| TrackingFailed (message : string).

Definition err_used_us (e : CpuTimeError) : Z :=
  match e with CpuLimitExceeded u _ => u | TrackingFailed _ => 0 end.
Definition err_limit_us (e : CpuTimeError) : Z :=
  match e with CpuLimitExceeded _ l => l | TrackingFailed _ => 0 end.
Definition err_used_ms (e : CpuTimeError) : Z := err_used_us e / 1000.
Definition err_limit_ms (e : CpuTimeError) : Z := err_limit_us e / 1000.

Record CpuTimeSnapshot := mkCpuSnap { cpu_micros : Z; wall_micros : Z }.

Definition elapsed_cpu_us (s now : CpuTimeSnapshot) : Z := sat_sub (cpu_micros now) (cpu_micros s).
Definition elapsed_wall_us (s now : CpuTimeSnapshot) : Z := sat_sub (wall_micros now) (wall_micros s).

Record CpuTracker := mkTracker {
  limit_us : Z;
  enabled : bool;
  limit_exceeded : bool;
}.

Definition with_limit_us (l : Z) : CpuTracker := mkTracker l true false.
Definition tracker_new (limit_ms : Z) : CpuTracker := with_limit_us (mul_u64 limit_ms 1000).
Definition tracker_disabled : CpuTracker := mkTracker u64_max false false.
Definition tracker_limit_ms (t : CpuTracker) : Z := limit_us t / 1000.
Definition set_enabled (t : CpuTracker) (b : bool) : CpuTracker := mkTracker (limit_us t) b (limit_exceeded t).
Definition set_limit_us (t : CpuTracker) (l : Z) : CpuTracker := mkTracker l (enabled t) (limit_exceeded t).
Definition set_limit_ms (t : CpuTracker) (ms : Z) : CpuTracker := set_limit_us t (mul_u64 ms 1000).
Definition tracker_reset (t : CpuTracker) : CpuTracker := mkTracker (limit_us t) (enabled t) false.

(** A reading of the clocks: [SystemTime] since the epoch ([None]: before it)
    and the thread's CPU time ([None]: not available). *)
Record Clock := mkClock { clk_wall : option Z; clk_cpu : option Z }.

(** [get_thread_cpu_time_us] (Linux): seconds and nanoseconds of
    [clock_gettime], [None] when the call fails. *)
Definition get_thread_cpu_time_us (ts : option (Z * Z)) : option Z :=
  match ts with
  | Some (tv_sec, tv_nsec) => Some (add_u64 (mul_u64 (as_u64 tv_sec) 1000000) (as_u64 tv_nsec / 1000))
  | None => None
  end.

Definition snapshot (t : CpuTracker) (c : Clock) : option CpuTimeSnapshot :=
  if enabled t then
    match clk_wall c with
    | None => None
    | Some w =>
      let w := as_u64 w in
      match clk_cpu c with
      | Some cpu => Some (mkCpuSnap cpu w)
      | None => Some (mkCpuSnap w w)
      end
    end
  else None.

Definition dummy_snapshot (c : Clock) : CpuTimeSnapshot :=
  let now := as_u64 (default 0 (clk_wall c)) in mkCpuSnap now now.

Definition check_cpu (t : CpuTracker) (start : CpuTimeSnapshot) (c : Clock)
  : CpuTracker * result CpuTimeSnapshot CpuTimeError :=
  if enabled t then
    match snapshot t c with
    | None => (t, Err (TrackingFailed "Failed to capture CPU time snapshot"))
    | Some now =>
      let elapsed_us := elapsed_cpu_us start now in
      if elapsed_us >? limit_us t then
        (mkTracker (limit_us t) (enabled t) true, Err (CpuLimitExceeded elapsed_us (limit_us t)))
      else (t, Ok now)
    end
  else (t, Ok (dummy_snapshot c)).

Definition peek_cpu (t : CpuTracker) (start : CpuTimeSnapshot) (c : Clock) : CpuTimeSnapshot * Z :=
  match snapshot t c with
  | Some now => (now, elapsed_cpu_us start now)
  | None => (dummy_snapshot c, 0)
  end.

Definition tracker_start (t : CpuTracker) (c : Clock) : result CpuTimeSnapshot CpuTimeError :=
  ok_or (snapshot t c) (TrackingFailed "Failed to start CPU tracking - platform not supported").

(** ** [timeout.rs] *)

Record TimeoutConfig := mkTC {
  cpu_time_limit_ms : Z;
  wall_clock_limit_ms : Z;
  termination_grace_us : Z;
}.

Definition default_tc : TimeoutConfig := mkTC 50 30000 100.
Definition with_cpu_limit (ms : Z) : TimeoutConfig := mkTC ms 30000 100.

Definition wall_clock_duration (c : TimeoutConfig) : Z := from_millis (wall_clock_limit_ms c).
Definition grace_duration (c : TimeoutConfig) : Z := termination_grace_us c * 1000.

Definition validate (c : TimeoutConfig) : result unit string :=
  if cpu_time_limit_ms c <? 1 then Err "CPU time limit must be at least 1ms"
  else if cpu_time_limit_ms c >? 1000 then Err "CPU time limit must not exceed 1000ms (1s)"
  else if wall_clock_limit_ms c <? cpu_time_limit_ms c then Err "Wall clock limit must be >= CPU time limit"
  else if wall_clock_limit_ms c >? 300000 then Err "Wall clock limit must not exceed 300s (5min)"
  else Ok tt.

(** [AppLimits::to_timeout_config] (src/config/app.rs) *)
Definition to_timeout_config (l : AppRs.AppLimits) : TimeoutConfig :=
  mkTC (if AppRs.cpu_time_enabled l then AppRs.cpu_time_ms l else 1000)
       (mul_u32 (AppRs.timeout_secs l) 1000) 100.

Inductive TimeoutError :=
| CpuTimeExceeded (used_ms limit_ms : Z)
| WallClockExceeded (limit_ms : Z)
| ExecutionTerminated
| ConfigError (message : string)
| TimerError (message : string).

Definition is_cpu_timeout (e : TimeoutError) : bool :=
  match e with CpuTimeExceeded _ _ => true | _ => false end.
Definition is_wall_clock_timeout (e : TimeoutError) : bool :=
  match e with WallClockExceeded _ => true | _ => false end.
Definition error_limit_ms (e : TimeoutError) : option Z :=
  match e with CpuTimeExceeded _ l | WallClockExceeded l => Some l | _ => None end.

(** The timer, the process-wide [TIMEOUT_SIGNALED] and the isolate's
    terminations. *)
Record ExecutionTimer := mkTimer {
  config : TimeoutConfig;
  cpu_tracker : CpuTracker;
  active : bool;
  timeout_signaled : bool;
  terminations : Z;
}.

Definition with_config (c : TimeoutConfig) : ExecutionTimer :=
  let c := match validate c with Ok _ => c | Err _ => default_tc end in
  mkTimer c (tracker_new (cpu_time_limit_ms c)) false false 0.

Definition timer_new : ExecutionTimer := with_config default_tc.

Definition set_timer_active (t : ExecutionTimer) (b : bool) : ExecutionTimer :=
  mkTimer (config t) (cpu_tracker t) b (timeout_signaled t) (terminations t).
Definition reset_timeout_signal (t : ExecutionTimer) : ExecutionTimer :=
  mkTimer (config t) (cpu_tracker t) (active t) false (terminations t).
Definition set_tracker (t : ExecutionTimer) (k : CpuTracker) : ExecutionTimer :=
  mkTimer (config t) k (active t) (timeout_signaled t) (terminations t).
Definition terminate_execution (t : ExecutionTimer) : ExecutionTimer :=
  mkTimer (config t) (cpu_tracker t) (active t) (timeout_signaled t) (terminations t + 1).

(** A CPU check of the timer; an exceeded limit terminates the isolate and
    gives the error, a tracking failure is ignored. *)
Definition timer_check (t : ExecutionTimer) (start : CpuTimeSnapshot) (c : Clock)
  : ExecutionTimer * option TimeoutError :=
  let '(k, r) := check_cpu (cpu_tracker t) start c in
  let t' := set_tracker t k in
  match r with
  | Err (CpuLimitExceeded u l) => (terminate_execution t', Some (CpuTimeExceeded (u / 1000) (l / 1000)))
  | _ => (t', None)
  end.

Definition start_error : TimeoutError :=
  ConfigError "Failed to start CPU tracking: CPU time tracking failed: Failed to start CPU tracking - platform not supported".

(** [execute_and_check]: the closure's result is [v]; the clocks are read
    before and after it. *)
Definition execute_and_check {T} (t : ExecutionTimer) (c0 c1 : Clock) (v : T)
  : ExecutionTimer * result T TimeoutError :=
  match tracker_start (cpu_tracker t) c0 with
  | Err _ => (t, Err start_error)
  | Ok start =>
    let t := reset_timeout_signal (set_timer_active t true) in
    let '(t', e) := timer_check t start c1 in
    let t' := set_timer_active t' false in
    match e with
    | Some e => (t', Err e)
    | None => (t', Ok v)
    end
  end.

(** *** The [select!] loop

    [sleep_ready deadline now]: whether a sleep polled at [now] is ready.  What
    [tokio] documents of it: a sleep is not ready before its deadline, and of
    two sleeps the one with the earlier deadline is ready whenever the other
    is. *)
Class TokioTime := {
  sleep_ready : Z → Z → bool;
  sleep_not_early d now : sleep_ready d now = true → d ≤ now;
  sleep_monotone d d' now : d ≤ d' → sleep_ready d' now = true → sleep_ready d now = true;
}.

Inductive Branch := WallBranch | ShortBranch | LongBranch.

(** One turn of the loop, as the scheduler gives it: when the two sleeps were
    created, when the [select!] was polled, and the clocks of the CPU checks.
    A turn whose poll finds nothing ready goes on waiting. *)
Record Turn := mkTurn {
  created_short : Z;
  created_long : Z;
  polled_at : Z;
  clock_inner : Clock;
  elapsed_after : Z;
  clock_after : Clock;
}.

Section select.
Context `{TokioTime}.

Definition short_sleep : Z := 100000.     (* 100 us *)
Definition check_interval : Z := 5000000. (* 5 ms *)

(** [biased]: the first ready branch in textual order. *)
Definition select_branch (wall_deadline : Z) (u : Turn) : option Branch :=
  if sleep_ready wall_deadline (polled_at u) then Some WallBranch
  else if sleep_ready (created_short u + short_sleep) (polled_at u) then Some ShortBranch
  else if sleep_ready (created_long u + check_interval) (polled_at u) then Some LongBranch
  else None.

(** The loop over the scheduler's turns; [poll n] is the [n]-th poll of the
    wrapped future and [polls] how many there were.  [None]: still running. *)
Fixpoint run_loop {T} (t : ExecutionTimer) (start : CpuTimeSnapshot) (wall_deadline : Z)
    (poll : nat → option T) (polls : nat) (turns : list Turn)
  : ExecutionTimer * option (result T TimeoutError) * nat :=
  match turns with
  | [] => (t, None, polls)
  | u :: turns' =>
    let periodic t polls :=
      if elapsed_after u >? grace_duration (config t) then
        let '(t', e) := timer_check t start (clock_after u) in
        match e with
        | Some e => (set_timer_active t' false, Some (Err e), polls)
        | None => run_loop t' start wall_deadline poll polls turns'
        end
      else run_loop t start wall_deadline poll polls turns' in
    match select_branch wall_deadline u with
    | None => run_loop t start wall_deadline poll polls turns'
    | Some WallBranch =>
      (set_timer_active t false, Some (Err (WallClockExceeded (wall_clock_limit_ms (config t)))), polls)
    | Some ShortBranch =>
      if timeout_signaled t then
        (set_timer_active (terminate_execution (reset_timeout_signal t)) false,
         Some (Err ExecutionTerminated), polls)
      else periodic t polls
    | Some LongBranch =>
      match poll polls with
      | Some v =>
        let '(t', e) := timer_check t start (clock_inner u) in
        match e with
        | Some e => (set_timer_active t' false, Some (Err e), S polls)
        | None => (set_timer_active t' false, Some (Ok v), S polls)
        end
      | None => periodic t (S polls)
      end
    end
  end.

Definition run_with_timeout {T} (t : ExecutionTimer) (c0 : Clock) (start_time : Z)
    (poll : nat → option T) (turns : list Turn)
  : ExecutionTimer * option (result T TimeoutError) * nat :=
  match tracker_start (cpu_tracker t) c0 with
  | Err _ => (t, Some (Err start_error), 0%nat)
  | Ok start =>
    let t := reset_timeout_signal (set_timer_active t true) in
    run_loop t start (start_time + wall_clock_duration (config t)) poll 0 turns
  end.
End select.

(** ** Lemmas *)

Section select_lemmas.
Context `{TokioTime}.

(** The long sleep is never the first ready branch. *)
Lemma long_branch_never wd u :
  created_short u ≤ created_long u → select_branch wd u ≠ Some LongBranch.
Proof.
  intros Hc. unfold select_branch. destruct (sleep_ready wd _); [done|].
  destruct (sleep_ready (created_short u + _) _) eqn:Es; [done|].
  destruct (sleep_ready (created_long u + _) _) eqn:El; [|done].
  apply (sleep_monotone (created_short u + short_sleep)) in El; [congruence|].
  unfold short_sleep, check_interval. lia.
Qed.

Lemma run_loop_never_ok {T} (poll : nat → option T) start wd turns : ∀ t polls,
  Forall (λ u, created_short u ≤ created_long u) turns →
  let '(_, r, n) := run_loop t start wd poll polls turns in
  (∀ v, r ≠ Some (Ok v)) ∧ n = polls.
Proof.
  induction turns as [|u turns IH]; intros t polls Hall; simpl; [done|].
  apply Forall_cons in Hall as [Hu Hall]. pose proof (long_branch_never wd u Hu) as Hl.
  destruct (select_branch wd u) as [[]|]; [done| |done|by apply IH].
  destruct (timeout_signaled t); [done|].
  destruct (elapsed_after u >? grace_duration (config t)); [|by apply IH].
  destruct (timer_check t start (clock_after u)) as [t' [e|]]; [done|by apply IH].
Qed.
End select_lemmas.

Lemma validate_ok c :
  validate c = Ok tt ↔
  1 ≤ cpu_time_limit_ms c ≤ 1000 ∧
  cpu_time_limit_ms c ≤ wall_clock_limit_ms c ∧ wall_clock_limit_ms c ≤ 300000.
Proof.
  unfold validate. rewrite !Z.gtb_ltb.
  destruct (Z.ltb_spec (cpu_time_limit_ms c) 1), (Z.ltb_spec 1000 (cpu_time_limit_ms c)),
    (Z.ltb_spec (wall_clock_limit_ms c) (cpu_time_limit_ms c)),
    (Z.ltb_spec 300000 (wall_clock_limit_ms c));
    (split; [intros E; (discriminate E || lia)|intros ?; (exfalso; lia) || done]).
Qed.

Lemma with_config_config c :
  config (with_config c) = c ∧ validate c = Ok tt ∨ config (with_config c) = default_tc.
Proof. unfold with_config. destruct (validate c) as [[]|]; simpl; auto. Qed.

(** ** Properties *)

(** [run_with_timeout] never returns the future's result and never even
    polls the future, whatever the scheduler does: the 100 us sleep created at
    each turn is ready whenever the 5 ms sleep that guards the poll is, and the
    biased [select!] takes it first.  The call only ends by an error. *)
Theorem run_with_timeout_never_ok `{TokioTime} {T} t c0 start_time (poll : nat → option T) turns :
  Forall (λ u, created_short u ≤ created_long u) turns →
  let '(_, r, polls) := run_with_timeout t c0 start_time poll turns in
  (∀ v, r ≠ Some (Ok v)) ∧ polls = 0%nat.
Proof.
  intros Hall. unfold run_with_timeout. destruct (tracker_start (cpu_tracker t) c0); [|done].
  by apply run_loop_never_ok.
Qed.

(** [check_cpu] and its flag.  An enabled tracker with a readable clock
    reports [LimitExceeded] exactly when the CPU time since the start is over
    the limit, with the amounts it compared, and raises the flag; otherwise the
    tracker is unchanged and the reading is returned.  A disabled tracker never
    fails.  The flag stays up until [reset]. *)
Theorem check_cpu_exact t start c :
  (enabled t = true → ∀ w, clk_wall c = Some w →
     let now := mkCpuSnap (default (as_u64 w) (clk_cpu c)) (as_u64 w) in
     let used := Z.max 0 (cpu_micros now - cpu_micros start) in
     check_cpu t start c =
       if used >? limit_us t
       then (mkTracker (limit_us t) true true, Err (CpuLimitExceeded used (limit_us t)))
       else (t, Ok now)) ∧
  (enabled t = false → check_cpu t start c = (t, Ok (dummy_snapshot c))) ∧
  (limit_exceeded t = true → limit_exceeded (check_cpu t start c).1 = true) ∧
  limit_exceeded (tracker_reset t) = false.
Proof.
  unfold check_cpu, snapshot, elapsed_cpu_us, sat_sub. split_and!; [| | |done].
  - intros He w Hw. rewrite He, Hw. destruct (clk_cpu c); done.
  - by intros ->.
  - intros Hl. repeat case_match; done.
Qed.

(** [execute_and_check], exactly, for an enabled tracker and a readable
    clock: the closure's value comes back iff the CPU time it used is within
    the limit; over it, the isolate is terminated once and the error reports
    milliseconds.  Either way the timer ends inactive. *)
Theorem execute_and_check_exact {T} t c0 c1 (v : T) w0 w1 :
  enabled (cpu_tracker t) = true → clk_wall c0 = Some w0 → clk_wall c1 = Some w1 →
  let used := Z.max 0 (default (as_u64 w1) (clk_cpu c1) - default (as_u64 w0) (clk_cpu c0)) in
  let lim := limit_us (cpu_tracker t) in
  let '(t', r) := execute_and_check t c0 c1 v in
  active t' = false ∧ timeout_signaled t' = false ∧
  (used ≤ lim → r = Ok v ∧ terminations t' = terminations t) ∧
  (lim < used → r = Err (CpuTimeExceeded (used / 1000) (lim / 1000)) ∧
                terminations t' = terminations t + 1 ∧ limit_exceeded (cpu_tracker t') = true).
Proof.
  intros He H0 H1 used lim. unfold execute_and_check, tracker_start, snapshot. rewrite He, H0.
  set (start := mkCpuSnap (default (as_u64 w0) (clk_cpu c0)) (as_u64 w0)).
  assert (match clk_cpu c0 with
          | Some cpu => Some (mkCpuSnap cpu (as_u64 w0))
          | None => Some (mkCpuSnap (as_u64 w0) (as_u64 w0)) end = Some start) as ->
    by (unfold start; by destruct (clk_cpu c0)).
  simpl ok_or. cbv iota. unfold timer_check, check_cpu, snapshot. simpl. rewrite He, H1.
  set (now := mkCpuSnap (default (as_u64 w1) (clk_cpu c1)) (as_u64 w1)).
  assert (match clk_cpu c1 with
          | Some cpu => Some (mkCpuSnap cpu (as_u64 w1))
          | None => Some (mkCpuSnap (as_u64 w1) (as_u64 w1)) end = Some now) as ->
    by (unfold now; by destruct (clk_cpu c1)).
  assert (elapsed_cpu_us start now = used) as -> by done. fold lim. rewrite Z.gtb_ltb.
  destruct (Z.ltb_spec lim used); simpl; split_and!; try done; lia.
Qed.

(** A timer always runs with a valid configuration: the given one if
    [validate] accepts it, the default otherwise, and its tracker's limit is
    that configuration's, without overflow.  The limits of any application that
    app.rs's validator accepts are themselves accepted, so they are the ones
    enforced. *)
Theorem timer_config_valid c l :
  validate (config (with_config c)) = Ok tt ∧
  limit_us (cpu_tracker (with_config c)) = cpu_time_limit_ms (config (with_config c)) * 1000 ∧
  (1 ≤ AppRs.timeout_secs l ≤ 30 → 1 ≤ AppRs.cpu_time_ms l ≤ 1000 →
   config (with_config (to_timeout_config l)) = to_timeout_config l ∧
   wall_clock_limit_ms (to_timeout_config l) = AppRs.timeout_secs l * 1000).
Proof.
  assert (Hv : validate (config (with_config c)) = Ok tt)
    by (destruct (with_config_config c) as [[-> ?]| ->]; [done|vm_compute; reflexivity]).
  split_and!; [exact Hv| |].
  - apply validate_ok in Hv. unfold with_config in *. destruct (validate c); simpl in *;
      unfold mul_u64; apply as_u64_small; zlia.
  - intros Ht Hc.
    assert (Hw : mul_u32 (AppRs.timeout_secs l) 1000 = AppRs.timeout_secs l * 1000)
      by (unfold mul_u32; apply as_u32_small; zlia).
    assert (Hvl : validate (to_timeout_config l) = Ok tt).
    { apply validate_ok. unfold to_timeout_config. simpl. rewrite Hw.
      destruct (AppRs.cpu_time_enabled l); lia. }
    unfold with_config. rewrite Hvl. done.
Qed.

(** ** Witnesses *)

(** A clock with no granularity: a sleep is ready from its deadline on. *)
#[local] Instance exact_time : TokioTime.
Proof.
  refine {| sleep_ready := λ d now, d <=? now |}.
  - intros d now. apply Z.leb_le.
  - intros d d' now Hd. rewrite !Z.leb_le. lia.
Defined.

Definition demo_clock (us : Z) : Clock := mkClock (Some us) (Some us).

(** A future that is ready at its first poll, and ten turns of 10 ms each. *)
Definition demo_turns : list Turn :=
  map (λ n, let t := Z.of_nat n * 10000000 in
            mkTurn t t (t + 10000000) (demo_clock 0) 0 (demo_clock 0)) (seq 0 10).

Lemma run_with_timeout_never_ok_witness :
  let '(_, r, polls) := run_with_timeout timer_new (demo_clock 0) 0 (λ _, Some 42) demo_turns in
  (∀ v, r ≠ Some (Ok v)) ∧ polls = 0%nat.
Proof.
  apply (run_with_timeout_never_ok timer_new (demo_clock 0) 0 (λ _, Some 42) demo_turns).
  vm_compute. repeat constructor; discriminate.
Defined.

Lemma check_cpu_exact_witness :
  (check_cpu (tracker_new 50) (mkCpuSnap 1000 0) (demo_clock 60000)).2 = Err (CpuLimitExceeded 59000 50000).
Proof.
  rewrite (proj1 (check_cpu_exact (tracker_new 50) (mkCpuSnap 1000 0) (demo_clock 60000)) eq_refl 60000 eq_refl).
  vm_compute. reflexivity.
Defined.

Lemma execute_and_check_exact_witness :
  (execute_and_check timer_new (demo_clock 0) (demo_clock 70000) 42).2 = Err (CpuTimeExceeded 70 50).
Proof.
  pose proof (execute_and_check_exact timer_new (demo_clock 0) (demo_clock 70000) 42 0 70000
                eq_refl eq_refl eq_refl) as H.
  destruct (execute_and_check timer_new (demo_clock 0) (demo_clock 70000) 42) as [t' r].
  destruct H as (_ & _ & _ & H). destruct H as [-> _]; vm_compute; reflexivity.
Defined.

Lemma timer_config_valid_witness :
  config (with_config (to_timeout_config AppRs.default_limits)) = mkTC 50 30000 100.
Proof.
  rewrite (proj1 (proj2 (proj2 (timer_config_valid default_tc AppRs.default_limits))
    ltac:(simpl; lia) ltac:(simpl; lia))). vm_compute. reflexivity.
Defined.
