(* ===== verification/Drain.v ===== *)
(** * [src/app/drain.rs]: waiting for in-flight requests

    The counter is an atomic [usize]; the [tokio] semaphore is a parameter with
    the behaviour it documents (a number of permits; [add_permits] adds, an
    [acquire] completes when a permit is there, and the permit comes back when
    it is dropped).  While a caller waits, other tasks start and complete
    requests: the events it sees are a list. *)

From stdpp Require Import base list.
From Stdlib Require Import ZArith Lia.
From S2P Require Import Prelude RustList.

Open Scope Z_scope.

Class Semaphore := {
  sem : Type;
  sem_new : Z → sem;
  add_permits : sem → Z → sem;
  permits : sem → Z;
  permits_new n : permits (sem_new n) = n;
  permits_add s n : 0 ≤ n → permits (add_permits s n) = permits s + n;
}.

(** The obvious semaphore. *)
Definition count_semaphore : Semaphore := {|
  sem := Z; sem_new := λ n, n; add_permits := Z.add; permits := λ n, n;
  permits_new := λ n, eq_refl; permits_add := λ s n _, eq_refl;
|}.

Section drain.
Context {S : Semaphore}.

Record RequestDrain := mkDrain {
  active_requests : Z;
  drain_semaphore : sem;
}.

Definition drain_new : RequestDrain := mkDrain 0 (sem_new 0).

Definition request_started (d : RequestDrain) : RequestDrain :=
  mkDrain (add_u64 (active_requests d) 1) (drain_semaphore d).

Definition request_completed (d : RequestDrain) : RequestDrain :=
  let count := active_requests d in
  mkDrain (sub_u64 count 1)
          (if count =? 1 then add_permits (drain_semaphore d) 1 else drain_semaphore d).

Definition active_count (d : RequestDrain) : Z := active_requests d.

(** What the other tasks do. *)
Inductive DrainEvent := Started | Completed.

Definition drain_step (d : RequestDrain) (e : DrainEvent) : RequestDrain :=
  match e with Started => request_started d | Completed => request_completed d end.

Definition drain_run (d : RequestDrain) (es : list DrainEvent) : RequestDrain :=
  foldl drain_step d es.

(** Waiting for a permit while [es] happen, up to the timeout (the end of
    [es]); the permit is dropped, hence given back, at once. *)
Fixpoint acquire_during (d : RequestDrain) (es : list DrainEvent) : RequestDrain * bool :=
  if permits (drain_semaphore d) >? 0 then (d, true)
  else match es with
  | [] => (d, false)
  | e :: es' => acquire_during (drain_step d e) es'
  end.

(** [await_complete], with what happens until its timeout. *)
Definition await_complete (d : RequestDrain) (es : list DrainEvent) : RequestDrain * bool :=
  if active_count d =? 0 then (d, true) else acquire_during d es.

(** [await_complete_polling]: one list of events per poll interval that starts
    before the timeout, then the final check. *)
Fixpoint await_complete_polling (d : RequestDrain) (intervals : list (list DrainEvent))
  : RequestDrain * bool :=
  match intervals with
  | [] => (d, active_count d =? 0)
  | es :: rest =>
    if active_count d =? 0 then (d, true) else await_complete_polling (drain_run d es) rest
  end.

(** [DrainHandle::new] and its [Drop]. *)
Definition handle_new (d : RequestDrain) : RequestDrain := request_started d.
Definition handle_drop (d : RequestDrain) : RequestDrain := request_completed d.

(** ** Traces *)

(** Starts minus completions of a trace from [n], and how often the count went
    from one to zero. *)
Fixpoint count_after (n : Z) (es : list DrainEvent) : Z :=
  match es with
  | [] => n
  | Started :: es' => count_after (n + 1) es'
  | Completed :: es' => count_after (n - 1) es'
  end.

Fixpoint emptied (n : Z) (es : list DrainEvent) : Z :=
  match es with
  | [] => 0
  | Started :: es' => emptied (n + 1) es'
  | Completed :: es' => (if n =? 1 then 1 else 0) + emptied (n - 1) es'
  end.

(** Requests complete after they started, and fewer than 2^64 are in flight:
    what [DrainHandle] guarantees. *)
Fixpoint balanced (n : Z) (es : list DrainEvent) : Prop :=
  match es with
  | [] => 0 ≤ n < two64
  | Started :: es' => 0 ≤ n < two64 ∧ balanced (n + 1) es'
  | Completed :: es' => 1 ≤ n < two64 ∧ balanced (n - 1) es'
  end.

Lemma balanced_start n es : balanced n es → 0 ≤ n < two64.
Proof. destruct es as [|[] es]; simpl; lia. Qed.

Lemma emptied_nonneg n es : 0 ≤ emptied n es.
Proof.
  revert n. induction es as [|[] es IH]; intros n; simpl; [lia|apply IH|].
  pose proof (IH (n - 1)). case_if; lia.
Qed.

(** One step of a balanced trace keeps the counter exact. *)
Lemma drain_step_exact d e es :
  balanced (active_requests d) (e :: es) →
  active_requests (drain_step d e) = count_after (active_requests d) [e] ∧
  permits (drain_semaphore (drain_step d e)) =
    permits (drain_semaphore d) + emptied (active_requests d) [e] ∧
  balanced (active_requests (drain_step d e)) es.
Proof.
  destruct e; simpl; intros [Hn Hb]; pose proof (balanced_start _ _ Hb).
  - unfold add_u64. rewrite as_u64_small by zlia. split_and!; [done|lia|done].
  - unfold sub_u64. rewrite as_u64_small by zlia. split_and!; [done| |done].
    destruct (active_requests d =? 1); [rewrite permits_add by lia|]; lia.
Qed.

Lemma drain_run_exact es : ∀ d,
  balanced (active_requests d) es →
  active_requests (drain_run d es) = count_after (active_requests d) es ∧
  permits (drain_semaphore (drain_run d es)) =
    permits (drain_semaphore d) + emptied (active_requests d) es.
Proof.
  induction es as [|e es IH]; intros d Hb; [simpl; split; [done|lia]|].
  destruct (drain_step_exact d e es Hb) as (H1 & H2 & H3). simpl drain_run.
  destruct (IH _ H3) as [H4 H5]. rewrite H4, H5, H1, H2. destruct e; simpl; split; try done; lia.
Qed.

Lemma acquire_during_exact es : ∀ d,
  balanced (active_requests d) es → 0 ≤ permits (drain_semaphore d) →
  (acquire_during d es).2 = true ↔
  0 < permits (drain_semaphore d) + emptied (active_requests d) es.
Proof.
  induction es as [|e es IH]; intros d Hb Hp; simpl; rewrite Z.gtb_ltb;
    destruct (Z.ltb_spec 0 (permits (drain_semaphore d))).
  - simpl. split; [lia|done].
  - simpl. split; [done|lia].
  - simpl. pose proof (emptied_nonneg (active_requests d) (e :: es)) as He. simpl in He.
    split; [lia|done].
  - destruct (drain_step_exact d e es Hb) as (H1 & H2 & H3).
    pose proof (emptied_nonneg (active_requests d) [e]).
    rewrite IH, H1, H2; [|done|lia]. destruct e; simpl; lia.
Qed.

(** ** Properties *)

(** [await_complete], exactly.  After any balanced history [h] of the
    tracker, and with the events [es] happening while it waits, it returns
    [true] iff nothing is in flight now or the count has reached zero at some
    point, in [es] or already in [h]: a past drain leaves a permit behind, so
    later calls return at once even with requests in flight. *)
Theorem await_complete_exact h es :
  balanced 0 (h ++ es) →
  let d := drain_run drain_new h in
  active_count d = count_after 0 h ∧
  ((await_complete d es).2 = true ↔
     count_after 0 h = 0 ∨ 0 < emptied 0 h + emptied (count_after 0 h) es).
Proof.
  intros Hb d.
  assert (Hsplit : ∀ n, balanced n (h ++ es) → balanced n h ∧ balanced (count_after n h) es).
  { clear. induction h as [|[] h IH]; intros n; simpl.
    - intros H. split; [by eapply balanced_start|done].
    - intros [? H%IH]. tauto.
    - intros [? H%IH]. tauto. }
  destruct (Hsplit 0 Hb) as [Hh Hes]. destruct (drain_run_exact h drain_new Hh) as [H1 H2].
  simpl in H1, H2. rewrite permits_new in H2. fold d in H1, H2. split; [done|].
  unfold await_complete, active_count. rewrite H1.
  destruct (Z.eqb_spec (count_after 0 h) 0) as [E|E]; [simpl; tauto|].
  pose proof (emptied_nonneg 0 h). rewrite acquire_during_exact.
  - rewrite H1, H2. split; [intros; right; lia|intros [?|?]; lia].
  - by rewrite H1.
  - rewrite H2. lia.
Qed.

(** [await_complete_polling] is sound: when it returns [true] nothing is in
    flight at that moment, and it returns [false] only when something is. *)
Theorem await_polling_sound d intervals :
  let '(d', r) := await_complete_polling d intervals in
  r = true ↔ active_count d' = 0.
Proof.
  revert d. induction intervals as [|es rest IH]; intros d; simpl.
  - unfold active_count. apply Z.eqb_eq.
  - destruct (Z.eqb_spec (active_count d) 0); [done|]. apply IH.
Qed.

(** Handles keep the counter exact: creating a handle and dropping it
    changes nothing whatever happens in between, as long as that is balanced
    itself, so the counter is the number of live handles and never wraps. *)
Theorem handles_counted d es :
  0 ≤ active_requests d → balanced (active_requests d + 1) es →
  count_after (active_requests d + 1) es = active_requests d + 1 →
  active_count (handle_drop (drain_run (handle_new d) es)) = active_count d.
Proof.
  intros H0 Hb Hc. pose proof (balanced_start _ _ Hb) as Hs.
  assert (Hn : active_requests (handle_new d) = active_requests d + 1)
    by (unfold handle_new, request_started, add_u64; simpl; apply as_u64_small; zlia).
  destruct (drain_run_exact es (handle_new d)) as [H1 _]; [by rewrite Hn|].
  unfold handle_drop, request_completed, active_count. cbn [active_requests].
  rewrite H1, Hn, Hc. unfold sub_u64. rewrite as_u64_small by zlia. lia.
Qed.
End drain.

(** ** Witnesses *)

#[local] Existing Instance count_semaphore.

(** One request comes and goes, a second one starts: the drain reports
    completion at once. *)
Lemma await_complete_exact_witness :
  active_count (drain_run drain_new [Started; Completed; Started]) = 1 ∧
  (await_complete (drain_run drain_new [Started; Completed; Started]) []).2 = true.
Proof.
  destruct (await_complete_exact [Started; Completed; Started] []) as [H1 H2].
  - vm_compute. repeat split; discriminate.
  - split; [exact H1|]. apply H2. right. vm_compute. reflexivity.
Defined.

Lemma handles_counted_witness :
  active_count (handle_drop (drain_run (handle_new drain_new) [Started; Completed])) = 0.
Proof.
  apply (handles_counted drain_new [Started; Completed]);
    [simpl; lia|vm_compute; repeat split; discriminate|reflexivity].
Defined.
