(* ===== verification/Registry.v ===== *)
(** * [src/app/registry.rs] and [src/app/reload.rs]: applications and reloading

    The registry is two hash maps by hostname.  Snapshots ([UnpackedSliver]) are
    data the registry only stores: their type is a parameter, and
    [register_from_sliver] starts from the unpacked value (or the error of
    reading or unpacking it).  [reload_config] takes what loading the file gave
    and whether draining completed. *)

From stdpp Require Import base gmap list strings.
From Stdlib Require Import ZArith Lia.
From S2P Require Import Prelude RustString RustList ConfigLoader Config ConfigProps.

Open Scope Z_scope.
Import ModRs.

#[export] Instance backend_type_eq_dec : EqDecision VfsBackendType.
Proof. solve_decision. Defined.
#[export] Instance disk_config_eq_dec : EqDecision VfsDiskConfig.
Proof. solve_decision. Defined.
#[export] Instance s3_config_eq_dec : EqDecision VfsS3Config.
Proof. solve_decision. Defined.
#[export] Instance app_limits_eq_dec : EqDecision AppLimits.
Proof. solve_decision. Defined.
#[export] Instance app_config_eq_dec : EqDecision AppConfig.
Proof. solve_decision. Defined.

Section registry.
Context {Sliver : Type}.

Record AppRegistry := mkReg {
  reg_apps : gmap string AppConfig;
  sliver_data : gmap string Sliver;
}.

Definition registry_new (apps : gmap string AppConfig) : AppRegistry := mkReg apps ∅.

(** [collect] into a [HashMap]: a later entry of the same key replaces. *)
Definition collect_apps (apps : list AppConfig) : gmap string AppConfig :=
  foldl (λ m app, <[hostname app := app]> m) ∅ apps.

Definition from_config (c : NanoConfig) : AppRegistry := registry_new (collect_apps (apps c)).

Definition with_sliver_data (apps : gmap string AppConfig) (s : gmap string Sliver) : AppRegistry :=
  mkReg apps s.

(** [register_from_sliver]: [unpacked] is the snapshot with the hostname of its
    metadata, or the error of reading or unpacking the file. *)
Definition register_from_sliver (r : AppRegistry) (sliver_path : string)
    (unpacked : result (string * Sliver) string) (config_base : option AppConfig)
  : AppRegistry * result string string :=
  match unpacked with
  | Err e => (r, Err e)
  | Ok (h, data) =>
    let c := default default_app config_base in
    let c := mkApp h (entrypoint c) (Some sliver_path) (env_vars c) (limits c) (vfs_backend c)
                   (vfs_disk c) (vfs_s3 c) in
    (mkReg (<[h := c]> (reg_apps r)) (<[h := data]> (sliver_data r)), Ok h)
  end.

Definition get_sliver_data (r : AppRegistry) (h : string) : option Sliver := sliver_data r !! h.
Definition is_sliver_app (r : AppRegistry) (h : string) : bool := bool_decide (is_Some (sliver_data r !! h)).
Definition get (r : AppRegistry) (h : string) : option AppConfig := reg_apps r !! h.
Definition contains (r : AppRegistry) (h : string) : bool := bool_decide (is_Some (reg_apps r !! h)).
Definition all_hostnames (r : AppRegistry) : gset string := dom (reg_apps r).
Definition count (r : AppRegistry) : Z := Z.of_nat (size (reg_apps r)).

(** ** Reloading *)

Record ConfigDiff := mkDiff {
  added : list string;
  removed : list string;
  modified : list string;
}.

Definition diff_new : ConfigDiff := mkDiff [] [] [].

Definition has_changes (d : ConfigDiff) : bool :=
  negb (bool_decide (added d = [])) || negb (bool_decide (removed d = []))
  || negb (bool_decide (modified d = [])).

Inductive ReloadError :=
| ConfigLoadError (e : string)
| DrainTimeout.

(** The iteration order of a [HashSet<String>]. *)
Context {HO : HashOrder ()}.

Definition set_iter (s : gset string) : list string := (hash_iter (gset_to_gmap () s)).*1.

Definition calculate_diff (current new : AppRegistry) : ConfigDiff :=
  let current_hostnames := all_hostnames current in
  let new_hostnames := all_hostnames new in
  mkDiff
    (List.filter (λ h, negb (bool_decide (h ∈ current_hostnames))) (set_iter new_hostnames))
    (List.filter (λ h, negb (bool_decide (h ∈ new_hostnames))) (set_iter current_hostnames))
    (List.filter (λ h, bool_decide (h ∈ current_hostnames)
                       && negb (bool_decide (get current h = get new h))) (set_iter new_hostnames)).

(** [reload_config]: the new state of the shared registry and the result.  The
    outcome of draining only changes what is logged. *)
Definition reload_config (current : AppRegistry) (loaded : result NanoConfig string) (drained : bool)
  : AppRegistry * result ConfigDiff ReloadError :=
  match loaded with
  | Err e => (current, Err (ConfigLoadError e))
  | Ok new_config =>
    let new_registry := from_config new_config in
    let diff := calculate_diff current new_registry in
    if negb (has_changes diff) then (current, Ok diff)
    else (new_registry, Ok diff)
  end.

(** ** Lemmas *)

Lemma elem_of_set_iter s h : h ∈ set_iter s ↔ h ∈ s.
Proof.
  unfold set_iter. rewrite list_elem_of_fmap. split.
  - intros ([k []] & -> & H). apply elem_of_hash_iter, lookup_gset_to_gmap_Some in H. tauto.
  - intros H. exists (h, ()). split; [done|]. apply elem_of_hash_iter, lookup_gset_to_gmap_Some. done.
Qed.

Lemma NoDup_set_iter s : NoDup (set_iter s).
Proof. apply NoDup_hash_iter. Qed.

Lemma NoDup_filter_b {A} (f : A → bool) l : NoDup l → NoDup (List.filter f l).
Proof.
  induction 1 as [|x l Hx Hl IH]; simpl; [constructor|]. destruct (f x); [|done].
  constructor; [|done]. rewrite elem_of_filter_b. tauto.
Qed.

Lemma collect_apps_acc apps (m : gmap string AppConfig) h :
  foldl (λ m app, <[hostname app := app]> m) m apps !! h =
  match last (base.filter (λ a, hostname a = h) apps) with
  | Some a => Some a
  | None => m !! h
  end.
Proof.
  revert m. induction apps as [|a apps IH]; intros m; [done|]. simpl. rewrite IH, filter_cons.
  destruct (decide (hostname a = h)) as [<-|Hne].
  - destruct (base.filter _ apps) eqn:E; simpl; [by rewrite lookup_insert_eq|].
    by destruct (last _) eqn:El; [|apply last_None in El].
  - by rewrite lookup_insert_ne.
Qed.

Lemma from_config_get c h :
  get (from_config c) h = last (base.filter (λ a, hostname a = h) (apps c)).
Proof.
  unfold get, from_config, registry_new, collect_apps. simpl. rewrite collect_apps_acc, lookup_empty.
  by destruct (last _).
Qed.

Lemma NoDup_map_hostname_filter apps a :
  NoDup (map hostname apps) → a ∈ apps → base.filter (λ x, hostname x = hostname a) apps = [a].
Proof.
  induction apps as [|b apps IH]; simpl; [by intros _ ?%elem_of_nil|].
  intros [Hb Hnd]%NoDup_cons Hin. rewrite filter_cons. apply elem_of_cons in Hin as [->|Hin].
  - rewrite decide_True by done. f_equal.
    destruct (base.filter _ apps) as [|x l] eqn:E; [done|]. exfalso. apply Hb.
    assert (x ∈ base.filter (λ x, hostname x = hostname b) apps) as [Hx Hxin]%list_elem_of_filter
      by (rewrite E; constructor).
    rewrite <-Hx. apply list_elem_of_fmap. by exists x.
  - rewrite decide_False; [by apply IH|]. intros E. apply Hb. rewrite E.
    apply list_elem_of_fmap. by exists a.
Qed.

Lemma count_from_config c :
  NoDup (map hostname (apps c)) → count (from_config c) = Z.of_nat (length (apps c)).
Proof.
  unfold count, from_config, registry_new, collect_apps. simpl. intros Hnd.
  assert (Hgen : ∀ m : gmap string AppConfig,
    (∀ h, h ∈ map hostname (apps c) → m !! h = None) →
    size (foldl (λ m app, <[hostname app := app]> m) m (apps c)) = (size m + length (apps c))%nat).
  { induction (apps c) as [|a l IH]; intros m Hm; simpl in *; [lia|].
    apply NoDup_cons in Hnd as [Ha Hnd]. rewrite IH; [|done|].
    - rewrite map_size_insert_None; [lia|]. apply Hm. constructor.
    - intros h Hh. rewrite lookup_insert_ne; [|by intros <-]. apply Hm. by constructor. }
  rewrite Hgen; [by rewrite map_size_empty|]. intros h _. apply lookup_empty.
Qed.

Lemma elem_of_diff current new :
  let d := calculate_diff current new in
  (∀ h, h ∈ added d ↔ get current h = None ∧ get new h ≠ None) ∧
  (∀ h, h ∈ removed d ↔ get current h ≠ None ∧ get new h = None) ∧
  (∀ h, h ∈ modified d ↔ get current h ≠ None ∧ get new h ≠ None ∧ get current h ≠ get new h).
Proof.
  assert (Hdom : ∀ r h, h ∈ all_hostnames r ↔ get r h ≠ None).
  { intros r h. unfold all_hostnames, get. rewrite elem_of_dom. by rewrite not_eq_None_Some. }
  assert (Hn : ∀ r h, h ∉ all_hostnames r ↔ get r h = None).
  { intros r h. rewrite Hdom. destruct (get r h); naive_solver. }
  simpl. split_and!; intros h; rewrite elem_of_filter_b, elem_of_set_iter;
    rewrite ?andb_true_iff, ?negb_true_iff, ?bool_decide_eq_false, ?bool_decide_eq_true;
    rewrite ?Hdom, ?Hn; destruct (get current h), (get new h); naive_solver.
Qed.

Lemma has_changes_false d : has_changes d = false ↔ added d = [] ∧ removed d = [] ∧ modified d = [].
Proof.
  unfold has_changes. rewrite !orb_false_iff, !negb_false_iff, !bool_decide_eq_true. tauto.
Qed.

(** ** Properties *)

(** The difference of two registries is exact, each name listed once:
    added and removed hostnames are those only one side knows, modified ones
    those both know with different configurations; and there is no change
    exactly when both map every hostname alike. *)
Theorem calculate_diff_exact current new :
  let d := calculate_diff current new in
  (∀ h, h ∈ added d ↔ get current h = None ∧ get new h ≠ None) ∧
  (∀ h, h ∈ removed d ↔ get current h ≠ None ∧ get new h = None) ∧
  (∀ h, h ∈ modified d ↔ get current h ≠ None ∧ get new h ≠ None ∧ get current h ≠ get new h) ∧
  NoDup (added d ++ removed d ++ modified d) ∧
  (has_changes d = false ↔ ∀ h, get current h = get new h).
Proof.
  intros d. destruct (elem_of_diff current new) as (H1 & H2 & H3). fold d in H1, H2, H3.
  split_and!; [done..| |].
  - rewrite !NoDup_app. split_and!.
    + apply NoDup_filter_b, NoDup_set_iter.
    + intros h Ha. rewrite elem_of_app, H2, H3. apply H1 in Ha. naive_solver.
    + apply NoDup_filter_b, NoDup_set_iter.
    + intros h Hr. rewrite H3. apply H2 in Hr. naive_solver.
    + apply NoDup_filter_b, NoDup_set_iter.
  - rewrite has_changes_false. split.
    + intros (Ha & Hr & Hm) h. rewrite Ha in H1. rewrite Hr in H2. rewrite Hm in H3.
      specialize (H1 h). specialize (H2 h). specialize (H3 h). setoid_rewrite elem_of_nil in H1.
      setoid_rewrite elem_of_nil in H2. setoid_rewrite elem_of_nil in H3.
      destruct (decide (get current h = get new h)) as [|Hne]; [done|].
      destruct (get current h) eqn:Ec, (get new h) eqn:En; try done; exfalso; naive_solver.
    + intros Heq. split_and!; apply elem_of_nil_inv; intros h Hh;
        [apply H1 in Hh|apply H2 in Hh|apply H3 in Hh]; rewrite Heq in Hh; naive_solver.
Qed.

(** Reloading is all or nothing: a configuration that fails to load leaves
    the registry as it was; otherwise afterwards every hostname is served by
    the new configuration's application (whether or not the drain completed),
    and snapshots registered before survive only if nothing changed. *)
Theorem reload_config_exact current loaded drained :
  let '(r, res) := reload_config current loaded drained in
  (∀ e, loaded = Err e → r = current ∧ res = Err (ConfigLoadError e)) ∧
  (∀ c, loaded = Ok c →
     res = Ok (calculate_diff current (from_config c)) ∧
     (∀ h, get r h = get (from_config c) h) ∧
     (r = current ∨ sliver_data r = ∅)).
Proof.
  unfold reload_config. destruct loaded as [c|e]; [|naive_solver].
  destruct (has_changes (calculate_diff current (from_config c))) eqn:E; simpl.
  - split; [done|]. intros c' Hc. injection Hc as <-. split_and!; try done. by right.
  - split; [done|]. intros c' Hc. injection Hc as <-. split; [done|]. split; [|by left].
    apply has_changes_false in E as (Ha & Hr & Hm).
    destruct (elem_of_diff current (from_config c)) as (H1 & H2 & H3).
    intros h. specialize (H1 h). specialize (H2 h). specialize (H3 h). cbn zeta in *.
    rewrite Ha in H1. rewrite Hr in H2. rewrite Hm in H3.
    setoid_rewrite elem_of_nil in H1. setoid_rewrite elem_of_nil in H2. setoid_rewrite elem_of_nil in H3.
    destruct (decide (get current h = get (from_config c) h)) as [|Hne]; [done|].
    destruct (get current h) eqn:Ec, (get (from_config c) h) eqn:En; try done; exfalso; naive_solver.
Qed.
End registry.

(** An accepted configuration loses no application on its way into the
    registry: there are as many entries as applications, and looking up an
    application's hostname gives that application.  The lookup is by exact
    text, though: the same hostname in other letters finds nothing unless it is
    configured too. *)
Theorem registry_keeps_apps {Sliver} `{OsFiles} `{HashOrder string} `{Lowercase} (c : NanoConfig) b :
  validate_nano_config c b = Ok tt →
  let r := @from_config Sliver c in
  count r = Z.of_nat (length (apps c)) ∧
  (∀ a, a ∈ apps c → get r (hostname a) = Some a) ∧
  (∀ h, (∀ a, a ∈ apps c → hostname a ≠ h) → get r h = None).
Proof.
  intros Hv r. unfold validate_nano_config in Hv.
  apply finish_ok in Hv. apply app_nil_iff in Hv as [_ Hv]. apply app_nil_iff in Hv as [Hv _].
  apply duplicate_errors_nil in Hv as [Hnd _].
  assert (Hnd' : NoDup (map hostname (apps c))) by (by apply NoDup_fmap_1 in Hnd).
  split_and!.
  - by apply count_from_config.
  - intros a Ha. unfold r. rewrite from_config_get. by rewrite NoDup_map_hostname_filter.
  - intros h Hh. unfold r. rewrite from_config_get.
    destruct (base.filter (λ a, hostname a = h) (apps c)) as [|x l] eqn:E; [done|].
    assert (x ∈ base.filter (λ a, hostname a = h) (apps c)) as [Hx Hin]%list_elem_of_filter
      by (rewrite E; constructor).
    by destruct (Hh x Hin).
Qed.

(** ** Witnesses *)

Section demo.
#[local] Instance demo_files : OsFiles := {| os_exists := λ _, true; os_is_file := λ _, true |}.
#[local] Instance demo_env_order : HashOrder string := plain_order.
#[local] Instance demo_lower : Lowercase := ascii_Lowercase.

Lemma registry_keeps_apps_witness :
  get (@from_config unit (mkNano [demo_app] default_server)) "api.example.com" = Some demo_app.
Proof.
  refine (proj1 (proj2 (registry_keeps_apps (mkNano [demo_app] default_server) None _)) demo_app _).
  - vm_compute. reflexivity.
  - apply list_elem_of_here.
Defined.
End demo.
