(* ===== verification/HttpHeaders.v ===== *)
(** * [src/http/headers.rs] and [src/http/url.rs]: header maps and query parameters

    Both are hash maps from a name to the list of its values; header names are
    lower-cased first.  [percent_decode_str(..).decode_utf8_lossy()] comes from
    a library and is a parameter. *)

From stdpp Require Import base gmap list strings.
From Stdlib Require Import Ascii ZArith Lia.
From S2P Require Import Prelude RustString RustList.

Open Scope Z_scope.

(** ** [NanoHeaders] *)

Record NanoHeaders := mkHeaders { headers : gmap string (list string) }.

Definition headers_new : NanoHeaders := mkHeaders ∅.

Section headers.
Context {LC : Lowercase}.

(** The value [get] shows of the list stored under a lower-case name. *)
Definition shown (name_lower : string) (values : list string) : string :=
  if String.eqb name_lower "set-cookie" then default "" (head values) else join ", " values.

Definition hget (h : NanoHeaders) (name : string) : option string :=
  let name_lower := to_lowercase name in
  match headers h !! name_lower with
  | Some values => Some (shown name_lower values)
  | None => None
  end.

Definition get_set_cookie (h : NanoHeaders) : list string := default [] (headers h !! "set-cookie").

Definition hhas (h : NanoHeaders) (name : string) : bool :=
  bool_decide (is_Some (headers h !! to_lowercase name)).

Definition hset (h : NanoHeaders) (name value : string) : NanoHeaders :=
  mkHeaders (<[to_lowercase name := [value]]> (headers h)).

Definition happend (h : NanoHeaders) (name value : string) : NanoHeaders :=
  let k := to_lowercase name in
  mkHeaders (<[k := default [] (headers h !! k) ++ [value]]> (headers h)).

Definition hdelete (h : NanoHeaders) (name : string) : NanoHeaders :=
  mkHeaders (delete (to_lowercase name) (headers h)).

(** [for_each]: the calls of the callback, in the order of the map. *)
Definition hfor_each `{HashOrder (list string)} (h : NanoHeaders) : list (string * string) :=
  map (λ e : string * list string, (e.1, shown e.1 e.2)) (hash_iter (headers h)).

(** [from_axum_headers]: the pairs of the axum map in its order, [None] for a
    value that is not visible ASCII. *)
Definition from_axum_headers (l : list (string * option string)) : NanoHeaders :=
  foldl (λ h e, happend h e.1 (default "" e.2)) headers_new l.

(** *** Specification: the list of entries written, in order *)

Inductive HeaderOp :=
| HSet (name value : string)
| HAppend (name value : string)
| HDelete (name : string).

Definition header_step (h : NanoHeaders) (o : HeaderOp) : NanoHeaders :=
  match o with
  | HSet n v => hset h n v
  | HAppend n v => happend h n v
  | HDelete n => hdelete h n
  end.

Definition header_run (h : NanoHeaders) (os : list HeaderOp) : NanoHeaders := foldl header_step h os.

Definition same_name (a b : string) : bool := String.eqb (to_lowercase a) (to_lowercase b).

(** An entry list as a client thinks of it: [set] replaces every entry of that
    name in any letter case, [append] adds one, [delete] removes them. *)
Definition entry_step (l : list (string * string)) (o : HeaderOp) : list (string * string) :=
  match o with
  | HSet n v => List.filter (λ e, negb (same_name e.1 n)) l ++ [(n, v)]
  | HAppend n v => l ++ [(n, v)]
  | HDelete n => List.filter (λ e, negb (same_name e.1 n)) l
  end.

Definition entry_run (l : list (string * string)) (os : list HeaderOp) : list (string * string) :=
  foldl entry_step l os.

Definition values_of (l : list (string * string)) (name : string) : list string :=
  (List.filter (λ e, same_name e.1 name) l).*2.

(** The map holds, under each lower-case name, exactly that name's values. *)
Definition represents (h : NanoHeaders) (l : list (string * string)) : Prop :=
  ∀ name, default [] (headers h !! to_lowercase name) = values_of l name ∧
          (headers h !! to_lowercase name = None ↔ values_of l name = []).

Lemma same_name_true a b : same_name a b = true ↔ to_lowercase a = to_lowercase b.
Proof. apply String.eqb_eq. Qed.

Lemma values_of_app l k n : values_of (l ++ k) n = values_of l n ++ values_of k n.
Proof. unfold values_of. by rewrite List.filter_app, fmap_app. Qed.

Lemma values_of_one a v n : values_of [(a, v)] n = if same_name a n then [v] else [].
Proof. unfold values_of. simpl. by destruct (same_name a n). Qed.

Lemma values_of_cons k v l n :
  values_of ((k, v) :: l) n = if same_name k n then v :: values_of l n else values_of l n.
Proof. unfold values_of. simpl. by destruct (same_name k n). Qed.

Lemma same_name_transfer k a n : same_name k a = true → same_name k n = same_name a n.
Proof. unfold same_name. intros H%String.eqb_eq. by rewrite H. Qed.

Lemma same_name_exclusive k a n : same_name k a = false → same_name k n = true → same_name a n = false.
Proof.
  unfold same_name. intros H1 H2%String.eqb_eq. rewrite <-H2. by rewrite String.eqb_sym.
Qed.

Lemma values_of_remove l a n :
  values_of (List.filter (λ e, negb (same_name e.1 a)) l) n =
  if same_name a n then [] else values_of l n.
Proof.
  induction l as [|[k v] l IH]; [by destruct (same_name a n)|]. cbn [List.filter fst].
  rewrite (values_of_cons k v l n). destruct (same_name k a) eqn:E1; cbn [negb].
  - rewrite IH, (same_name_transfer _ _ n E1). by destruct (same_name a n).
  - rewrite values_of_cons, IH. destruct (same_name k n) eqn:E2; [|done].
    by rewrite (same_name_exclusive _ _ _ E1 E2).
Qed.

Lemma header_step_represents h l o :
  represents h l → represents (header_step h o) (entry_step l o).
Proof.
  intros Hr name. destruct o as [n v|n v|n]; simpl.
  - rewrite values_of_app, values_of_remove, values_of_one.
    destruct (same_name n name) eqn:E.
    + apply same_name_true in E. rewrite E, lookup_insert_eq. simpl. by split.
    + rewrite lookup_insert_ne; [rewrite app_nil_r; apply Hr|].
      intros E'. apply not_true_iff_false in E. by apply E, same_name_true.
  - rewrite values_of_app, values_of_one. destruct (same_name n name) eqn:E.
    + apply same_name_true in E. rewrite E, lookup_insert_eq. simpl. destruct (Hr name) as [H1 _].
      rewrite H1. split; [done|]. split; [done|]. by intros [_ ?]%app_eq_nil.
    + rewrite lookup_insert_ne; [rewrite app_nil_r; apply Hr|].
      intros E'. apply not_true_iff_false in E. by apply E, same_name_true.
  - rewrite values_of_remove. destruct (same_name n name) eqn:E.
    + apply same_name_true in E. rewrite E, lookup_delete_eq. done.
    + rewrite lookup_delete_ne; [apply Hr|].
      intros E'. apply not_true_iff_false in E. by apply E, same_name_true.
Qed.

Lemma header_run_represents h l os :
  represents h l → represents (header_run h os) (entry_run l os).
Proof.
  revert h l. induction os as [|o os IH]; intros h l Hr; [done|]. by apply IH, header_step_represents.
Qed.

Lemma lower_set_cookie : to_lowercase "set-cookie" = "set-cookie".
Proof. rewrite to_lowercase_ascii; reflexivity. Qed.

(** C29. The header map refines the list of entries a client writes: after any
    operations, [get] gives the values written under that name in any letter
    case, in order and joined by [", "] (the first one for [Set-Cookie]), [has]
    tells whether there are any, and [get_set_cookie] gives all the cookies. *)
Theorem headers_refine_entries os name :
  let h := header_run headers_new os in
  let vs := values_of (entry_run [] os) name in
  hget h name = (if bool_decide (vs = []) then None
                 else Some (if same_name name "set-cookie" then default "" (head vs)
                            else join ", " vs)) ∧
  hhas h name = negb (bool_decide (vs = [])) ∧
  get_set_cookie h = values_of (entry_run [] os) "set-cookie".
Proof.
  intros h vs. assert (Hr : represents h (entry_run [] os)).
  { apply header_run_represents. intros n. simpl. by rewrite lookup_empty. }
  destruct (Hr name) as [H1 H2]. fold vs in H1, H2. split_and!.
  - unfold hget, shown, same_name. rewrite lower_set_cookie.
    destruct (headers h !! to_lowercase name) as [l|] eqn:E; simpl in H1.
    + rewrite <-H1. rewrite bool_decide_false; [done|]. rewrite H1. intros Hvs. apply H2 in Hvs. done.
    + rewrite <-H1. by rewrite bool_decide_true.
  - unfold hhas. destruct (headers h !! to_lowercase name) as [l|] eqn:E.
    + rewrite bool_decide_true by eauto. rewrite bool_decide_false; [done|]. intros Hvs. apply H2 in Hvs. done.
    + rewrite bool_decide_false by (by intros [? ?]). by rewrite bool_decide_true by (by apply H2).
  - destruct (Hr "set-cookie") as [H3 _]. by rewrite lower_set_cookie in H3.
Qed.
End headers.

(** ** [NanoUrlSearchParams] *)

Record NanoUrlSearchParams := mkParams { params : gmap string (list string) }.

Definition params_new : NanoUrlSearchParams := mkParams ∅.

Definition pget (p : NanoUrlSearchParams) (name : string) : option string :=
  match params p !! name with Some v => head v | None => None end.
Definition pget_all (p : NanoUrlSearchParams) (name : string) : list string :=
  default [] (params p !! name).
Definition phas (p : NanoUrlSearchParams) (name : string) : bool :=
  bool_decide (is_Some (params p !! name)).
Definition pset (p : NanoUrlSearchParams) (name value : string) : NanoUrlSearchParams :=
  mkParams (<[name := [value]]> (params p)).
Definition pappend (p : NanoUrlSearchParams) (name value : string) : NanoUrlSearchParams :=
  mkParams (<[name := default [] (params p !! name) ++ [value]]> (params p)).
Definition pdelete (p : NanoUrlSearchParams) (name : string) : NanoUrlSearchParams :=
  mkParams (delete name (params p)).

Section params.
Variable percent_decode : string → string.

Definition add_pair (p : NanoUrlSearchParams) (pair : string) : NanoUrlSearchParams :=
  match split_once (ch "=") pair with
  | Some (key, value) => pappend p (percent_decode key) (percent_decode value)
  | None => p
  end.

Definition from_query (query : option string) : NanoUrlSearchParams :=
  match query with
  | Some q => foldl add_pair params_new (split (ch "&") q)
  | None => params_new
  end.

Context {HO : HashOrder (list string)}.

(** The pairs of the map, in its order. *)
Definition pairs (p : NanoUrlSearchParams) : list (string * string) :=
  concat (map (λ e : string * list string, map (λ v, (e.1, v)) e.2) (hash_iter (params p))).

Definition params_to_string (p : NanoUrlSearchParams) : string :=
  join "&" (map (λ kv : string * string, kv.1 +:+ "=" +:+ kv.2) (pairs p)).

(** *** Lemmas *)

(** The decoded value a piece of the query gives for [name], if any. *)
Definition piece_value (name pair : string) : option string :=
  match split_once (ch "=") pair with
  | Some (key, value) => if String.eqb (percent_decode key) name then Some (percent_decode value) else None
  | None => None
  end.

Lemma fold_pairs_get_all l : ∀ p name,
  pget_all (foldl add_pair p l) name = pget_all p name ++ omap (piece_value name) l.
Proof.
  induction l as [|x l IH]; intros p name; simpl; [by rewrite app_nil_r|].
  rewrite IH. unfold add_pair, piece_value. destruct (split_once (ch "=") x) as [[k v]|]; [|done].
  unfold pget_all, pappend. simpl. destruct (String.eqb_spec (percent_decode k) name) as [->|Hne].
  - rewrite lookup_insert_eq. simpl. by rewrite <-app_assoc.
  - by rewrite lookup_insert_ne.
Qed.

Lemma fold_pairs_nonempty l : ∀ p,
  map_Forall (λ _ v, v ≠ []) (params p) → map_Forall (λ _ v, v ≠ []) (params (foldl add_pair p l)).
Proof.
  induction l as [|x l IH]; intros p Hp; simpl; [done|]. apply IH.
  unfold add_pair. destruct (split_once (ch "=") x) as [[k v]|]; [|done].
  apply map_Forall_insert_2; [|done]. by intros [_ ?]%app_eq_nil.
Qed.

(** [from_query], exactly: [get_all] of a name gives, in order, the decoded
    values of the [key=value] pieces whose decoded key is that name; [get] is
    the first of them and [has] tells whether there is one.  A piece without an
    equals sign gives nothing. *)
Theorem from_query_exact q name :
  let p := from_query (Some q) in
  let vs := omap (piece_value name) (split (ch "&") q) in
  pget_all p name = vs ∧ pget p name = head vs ∧ phas p name = negb (bool_decide (vs = [])).
Proof.
  intros p vs. assert (Hall : pget_all p name = vs).
  { unfold p, from_query. rewrite fold_pairs_get_all. unfold pget_all, params_new. simpl.
    by rewrite lookup_empty. }
  assert (Hne : map_Forall (λ _ v, v ≠ []) (params p))
    by (apply fold_pairs_nonempty, map_Forall_empty).
  split; [done|]. unfold pget_all, pget, phas in *.
  destruct (params p !! name) as [v|] eqn:E; simpl in Hall; rewrite <-Hall.
  - split; [done|]. rewrite bool_decide_true by eauto. apply Hne in E.
    by rewrite bool_decide_false.
  - split; [done|]. rewrite bool_decide_false by (by intros [? ?]). by rewrite bool_decide_true.
Qed.

(** A pair that needs no encoding. *)
Definition plain_pair (kv : string * string) : Prop :=
  percent_decode kv.1 = kv.1 ∧ percent_decode kv.2 = kv.2 ∧ contains_char (ch "=") kv.1 = false ∧
  contains_char (ch "&") kv.1 = false ∧ contains_char (ch "&") kv.2 = false.

Definition pair_text (kv : string * string) : string := kv.1 +:+ "=" +:+ kv.2.
Definition pick (name : string) (kv : string * string) : option string :=
  if String.eqb kv.1 name then Some kv.2 else None.

Lemma piece_value_plain name kv : plain_pair kv → piece_value name (pair_text kv) = pick name kv.
Proof.
  destruct kv as [k v]. intros (H1 & H2 & H3 & _). simpl in *. unfold piece_value, pair_text, pick.
  change ((k, v).1 +:+ "=" +:+ (k, v).2) with (k +:+ String (ch "=") v).
  rewrite split_once_join by done. simpl. by rewrite H1, H2.
Qed.

Lemma omap_plain name l :
  Forall plain_pair l → omap (piece_value name) (map pair_text l) = omap (pick name) l.
Proof.
  induction 1 as [|kv l Hkv Hl IH]; [done|]. cbn. rewrite piece_value_plain by done. by rewrite IH.
Qed.

Lemma pick_expand name k vs :
  omap (pick name) (map (λ v, (k, v)) vs) = if String.eqb k name then vs else [].
Proof.
  induction vs as [|v vs IH]; [by destruct (String.eqb k name)|].
  cbn. unfold pick at 1. cbn [fst snd]. rewrite IH. by destruct (String.eqb k name).
Qed.

Lemma pick_concat name (l : list (string * list string)) :
  NoDup l.*1 →
  let r := omap (pick name) (concat (map (λ e, map (λ v, (e.1, v)) e.2) l)) in
  (∀ vs, (name, vs) ∈ l → r = vs) ∧ (name ∉ l.*1 → r = []).
Proof.
  induction l as [|[k vs] l IH]; cbn [fmap list_fmap fst]; [intros _; split; [by intros vs ?%elem_of_nil|done]|].
  intros [Hk Hnd]%NoDup_cons. destruct (IH Hnd) as [H1 H2]. cbn zeta.
  cbn [map concat fst snd]. rewrite omap_app, pick_expand.
  destruct (String.eqb_spec k name) as [->|Hne].
  - rewrite (H2 Hk), app_nil_r. split.
    + intros vs' [E|Hin]%elem_of_cons; [congruence|]. exfalso. apply Hk, list_elem_of_fmap.
      by exists (name, vs').
    + intros Hn. destruct Hn. constructor.
  - simpl. split.
    + intros vs' [E|Hin]%elem_of_cons; [congruence|]. by apply H1.
    + intros Hn. apply H2. intros Hin. apply Hn. by constructor.
Qed.

Lemma pick_pairs p name : omap (pick name) (pairs p) = pget_all p name.
Proof.
  unfold pairs, pget_all.
  destruct (pick_concat name (hash_iter (params p)) (NoDup_hash_iter _)) as [H1 H2]. cbn zeta in *.
  destruct (params p !! name) as [vs|] eqn:E.
  - apply H1, elem_of_hash_iter, E.
  - apply H2. intros ([k vs] & Hk & Hin)%list_elem_of_fmap. simpl in Hk. subst k.
    apply elem_of_hash_iter in Hin. congruence.
Qed.

Lemma contains_pair_text kv :
  plain_pair kv → contains_char (ch "&") (pair_text kv) = false.
Proof.
  destruct kv as [k v]. intros (_ & _ & _ & H1 & H2). unfold pair_text. cbn [fst snd] in *.
  by rewrite !contains_char_app, H1, H2.
Qed.

Lemma pairs_plain p :
  map_Forall (λ k vs, vs ≠ [] ∧ Forall (λ v, plain_pair (k, v)) vs) (params p) →
  Forall plain_pair (pairs p).
Proof.
  intros Hok. apply Forall_forall. intros [k v] Hin. unfold pairs in Hin.
  apply list_elem_of_In, in_concat in Hin as (l & Hl & Hin).
  apply in_map_iff in Hl as ([k' vs] & <- & Hl). apply in_map_iff in Hin as (v' & Hv & Hin).
  simpl in *. injection Hv as -> ->. apply list_elem_of_In in Hl. apply elem_of_hash_iter in Hl.
  apply Hok in Hl as [_ H]. rewrite Forall_forall in H. by apply H, list_elem_of_In.
Qed.

Lemma pairs_nonempty p :
  map_Forall (λ k vs, vs ≠ [] ∧ Forall (λ v, plain_pair (k, v)) vs) (params p) →
  params p ≠ ∅ → pairs p ≠ [].
Proof.
  intros Hok Hne. apply map_choose in Hne as (k & vs & Hk). destruct (Hok k vs Hk) as [Hvs _].
  destruct vs as [|v vs]; [done|]. intros E.
  pose proof (pick_pairs p k) as Hp. rewrite E in Hp. unfold pget_all in Hp. by rewrite Hk in Hp.
Qed.

(** Printing and parsing parameters is a round trip for names and values
    that need no encoding (left alone by the decoder, without ["&"] and, in
    names, without ["="]), whatever the order of the map: every name keeps its
    values in order.  [to_string] does not encode, so this is as far as it
    goes. *)
Theorem params_roundtrip p :
  map_Forall (λ k vs, vs ≠ [] ∧ Forall (λ v, plain_pair (k, v)) vs) (params p) →
  params p ≠ ∅ →
  ∀ name, pget_all (from_query (Some (params_to_string p))) name = pget_all p name.
Proof.
  intros Hok Hne name. pose proof (pairs_plain p Hok) as Hplain.
  unfold from_query. rewrite fold_pairs_get_all. unfold params_to_string.
  change "&" with (String (ch "&") ""). fold pair_text. rewrite split_join.
  - unfold pget_all at 1. simpl. rewrite lookup_empty. simpl.
    rewrite omap_plain by done. apply pick_pairs.
  - pose proof (pairs_nonempty p Hok Hne). by destruct (pairs p).
  - apply Forall_fmap. eapply Forall_impl; [exact Hplain|]. apply contains_pair_text.
Qed.
End params.

(** ** Witnesses *)

Definition demo_params : NanoUrlSearchParams := mkParams {["a" := ["1"; "2"]]}.

Lemma params_roundtrip_witness :
  pget_all (from_query (λ s, s) (Some (@params_to_string plain_order demo_params))) "a" = ["1"; "2"].
Proof.
  rewrite (@params_roundtrip (λ s, s) plain_order demo_params); [reflexivity| |discriminate].
  apply map_Forall_singleton. split; [discriminate|]. repeat constructor.
Defined.
