(* ===== verification/Router.v ===== *)
(** * [src/http/router.rs] and [src/http/types.rs]: responses, routes, static files

    The handlers that run JavaScript are a parameter ([run_js], what
    [execute_js_standalone] gets from the engine), as are the file reads.  A
    request is its method, its URL (with the path the [url] crate extracts), its
    headers and its body. *)

From stdpp Require Import base gmap list strings.
From Stdlib Require Import Ascii ZArith Lia.
From S2P Require Import Prelude RustString RustList HttpHeaders.
From S2P Require Config ConfigProps Registry.

Open Scope Z_scope.

(** ** [types.rs] *)

Record NanoRequest := mkRequest {
  method : string;
  url : string;
  pathname : string;
  req_headers : NanoHeaders;
  req_body : option string;
}.

Record NanoResponse := mkResponse {
  status : Z;
  status_text : string;
  resp_headers : NanoHeaders;
  body : option string;
  worker_id : option Z;
  isolate_id : option string;
}.

Definition default_status_text (s : Z) : string :=
  match s with
  | 200 => "OK" | 201 => "Created" | 204 => "No Content"
  | 301 => "Moved Permanently" | 302 => "Found" | 304 => "Not Modified"
  | 400 => "Bad Request" | 401 => "Unauthorized" | 403 => "Forbidden"
  | 404 => "Not Found" | 405 => "Method Not Allowed"
  | 500 => "Internal Server Error" | 502 => "Bad Gateway" | 503 => "Service Unavailable"
  | _ => "Unknown"
  end.

Definition response_new (s : Z) (h : NanoHeaders) (b : option string) : NanoResponse :=
  mkResponse s (default_status_text s) h b None None.

Definition with_status (s : Z) : NanoResponse := response_new s headers_new None.
Definition ok : NanoResponse := response_new 200 headers_new None.
Definition not_found : NanoResponse := response_new 404 headers_new None.

Definition with_body (r : NanoResponse) (b : string) : NanoResponse :=
  mkResponse (status r) (status_text r) (resp_headers r) (Some b) (worker_id r) (isolate_id r).
Definition with_body_bytes (r : NanoResponse) (b : string) : NanoResponse := with_body r b.

Section types.
Context {LC : Lowercase}.

Definition with_header (r : NanoResponse) (name value : string) : NanoResponse :=
  mkResponse (status r) (status_text r) (hset (resp_headers r) name value) (body r) (worker_id r)
             (isolate_id r).

Definition content_types : list (string * string) :=
  [("html", "text/html; charset=utf-8"); ("htm", "text/html; charset=utf-8");
   ("css", "text/css; charset=utf-8"); ("js", "application/javascript; charset=utf-8");
   ("mjs", "application/javascript; charset=utf-8"); ("json", "application/json; charset=utf-8");
   ("xml", "application/xml; charset=utf-8"); ("txt", "text/plain; charset=utf-8");
   ("md", "text/markdown; charset=utf-8"); ("svg", "image/svg+xml; charset=utf-8");
   ("png", "image/png"); ("jpg", "image/jpeg"); ("jpeg", "image/jpeg"); ("gif", "image/gif");
   ("webp", "image/webp"); ("ico", "image/x-icon"); ("bmp", "image/bmp"); ("tiff", "image/tiff");
   ("tif", "image/tiff"); ("avif", "image/avif"); ("woff2", "font/woff2"); ("woff", "font/woff");
   ("ttf", "font/ttf"); ("otf", "font/otf"); ("eot", "application/vnd.ms-fontobject");
   ("pdf", "application/pdf"); ("zip", "application/zip"); ("gz", "application/gzip");
   ("gzip", "application/gzip"); ("tar", "application/x-tar"); ("bz2", "application/x-bzip2");
   ("7z", "application/x-7z-compressed"); ("rar", "application/x-rar-compressed");
   ("wasm", "application/wasm"); ("mp4", "video/mp4"); ("webm", "video/webm"); ("mp3", "audio/mpeg");
   ("ogg", "audio/ogg"); ("oga", "audio/ogg"); ("ogv", "video/ogg"); ("weba", "audio/webm");
   ("opus", "audio/opus")].

Definition content_type_from_ext (ext : string) : string :=
  match List.find (λ e : string * string, String.eqb e.1 (to_lowercase ext)) content_types with
  | Some e => e.2
  | None => "application/octet-stream"
  end.
End types.

(** [Path::extension] of the standard library: of the last normal component. *)
Definition path_extension (p : string) : option string :=
  match last (List.filter (λ w, negb (is_empty w || String.eqb w ".")) (split slash p)) with
  | None => None
  | Some name =>
    if String.eqb name ".." then None
    else match rfind_char dot name with
    | Some (S i) => Some (sdrop (S (S i)) name)
    | _ => None
    end
  end.

(** ** [router.rs] *)

Inductive EntrypointType :=
| JavaScript (path : string)
| StaticFileEntry (path : string)
| StaticDirEntry (path : string).

Inductive HandlerType :=
| StaticResponse (response : string)
| WinterTCHandler (path : string)
| WinterTCSliverHandler (entrypoint hostname : string)
| VfsStaticFiles (files : gmap string (string * string)) (default_file : option string)
| StaticFile (path content_type : string)
| StaticDir (root default_file : string).

Record RouteTarget := mkTarget {
  target_hostname : string;
  handler_type : HandlerType;
}.

(** What running an entrypoint in the engine can give. *)
Inductive JsOutcome :=
| JsResponse (r : NanoResponse)
| JsFailed (message : string)
| JsTaskFailed.

(** The operating system's files: [read] and [read_to_string], [None] on any
    error, and [Path::is_dir]. *)
Record OsReads := mkOs {
  os_read : string → option string;
  os_read_to_string : string → option string;
  os_is_dir : string → bool;
}.

Section handle.
Context {LC : Lowercase}.
Variable run_js : string → NanoRequest → JsOutcome.
Variable os : OsReads.

Definition detect_entrypoint_type (path : string) : EntrypointType :=
  if os_is_dir os path then StaticDirEntry path
  else
    let ext := to_lowercase (default "" (path_extension path)) in
    if String.eqb ext "js" || String.eqb ext "mjs" || String.eqb ext "ts"
    then JavaScript path else StaticFileEntry path.

Definition quote : string := String (ascii_of_nat 34) "".

Definition json_error (message : string) : string :=
  "{" +:+ quote +:+ "error" +:+ quote +:+ ":" +:+ quote +:+ "InternalServerError" +:+ quote +:+ ","
  +:+ quote +:+ "message" +:+ quote +:+ ":" +:+ quote +:+ message +:+ quote +:+ ","
  +:+ quote +:+ "code" +:+ quote +:+ ":500}".

Definition execute_js_standalone (entrypoint : string) (request : NanoRequest) : NanoResponse :=
  match run_js entrypoint request with
  | JsResponse r => r
  | JsFailed m =>
    with_body (with_header (with_status 500) "Content-Type" "application/json") (json_error m)
  | JsTaskFailed =>
    with_body (with_header (with_status 500) "Content-Type" "application/json")
              (json_error "Task execution failed")
  end.

(** A file found in the map of a [VfsStaticFiles] route. *)
Definition serve (f : string * string) : NanoResponse :=
  with_body_bytes (with_header ok "Content-Type" f.2) f.1.

Definition entry_points : list string :=
  ["index.js"; "app.js"; "main.js"; "server.js"; "index.html"; "index.htm"].

(** The loop over the entry points. *)
Fixpoint first_entry (files : gmap string (string * string)) (names : list string)
  : option (string * string) :=
  match names with
  | [] => None
  | n :: names' =>
    match files !! n with
    | Some f => Some f
    | None => first_entry files names'
    end
  end.

Definition is_root_path (path : string) : bool := String.eqb path "/" || is_empty path.

(** [path.strip_prefix('/')], or the path itself *)
Definition strip_slash (path : string) : string := default path (strip_prefix "/" path).

Definition handle_vfs (files : gmap string (string * string)) (default_file : option string)
    (path : string) : NanoResponse :=
  let is_root := is_root_path path in
  let dflt := default "index.html" default_file in
  let lookup_path := if is_root then dflt else strip_slash path in
  match files !! lookup_path with
  | Some f => serve f
  | None =>
    match (if is_root then first_entry files entry_points else None) with
    | Some f => serve f
    | None =>
      match files !! (lookup_path +:+ "/index.html") with
      | Some f => serve f
      | None =>
        match files !! (lookup_path +:+ ".html") with
        | Some f => serve f
        | None => not_found
        end
      end
    end
  end.

Definition serve_path (file_path : string) : NanoResponse :=
  let content_type := content_type_from_ext (default "" (path_extension file_path)) in
  match os_read os file_path with
  | Some bytes => with_body_bytes (with_header ok "Content-Type" content_type) bytes
  | None => not_found
  end.

Definition handle_dir (root default_file path : string) : NanoResponse :=
  if is_root_path path then serve_path (root +:+ "/" +:+ default_file)
  else
    let clean_path := strip_slash path in
    if contains_sub ".." clean_path then not_found
    else serve_path (root +:+ "/" +:+ clean_path).

(** [RouteTarget::handle] *)
Definition handle (t : RouteTarget) (request : NanoRequest) : NanoResponse :=
  match handler_type t with
  | StaticResponse response =>
    if is_empty response then with_body (with_header not_found "Content-Type" "text/plain") "Not Found"
    else with_body (with_header ok "Content-Type" "text/plain") response
  | WinterTCHandler path => execute_js_standalone path request
  | WinterTCSliverHandler entrypoint _ => execute_js_standalone entrypoint request
  | VfsStaticFiles files default_file => handle_vfs files default_file (pathname request)
  | StaticFile path content_type =>
    match os_read_to_string os path with
    | Some content => with_body (with_header ok "Content-Type" content_type) content
    | None => not_found
    end
  | StaticDir root default_file => handle_dir root default_file (pathname request)
  end.
End handle.

(** *** [VirtualHostRouter] *)

Record VirtualHostRouter := mkRouter {
  routes : gmap string RouteTarget;
  default_target : RouteTarget;
}.

Definition router_new (default_target : RouteTarget) : VirtualHostRouter := mkRouter ∅ default_target.

Definition default_router : VirtualHostRouter :=
  router_new (mkTarget "default" (StaticResponse "NANO Runtime")).

Definition route_count (r : VirtualHostRouter) : Z := Z.of_nat (size (routes r)).

Section router.
Context {LC : Lowercase}.

Definition register (r : VirtualHostRouter) (hostname : string) (t : RouteTarget) : VirtualHostRouter :=
  mkRouter (<[to_lowercase hostname := t]> (routes r)) (default_target r).

Definition resolve (r : VirtualHostRouter) (host : string) : RouteTarget :=
  default (default_target r) (routes r !! to_lowercase host).

(** The host of a request: the header up to a colon, or ["default"]. *)
Definition request_host (host_header : option string) : string :=
  match host_header with
  | Some s => default s (head (split colon s))
  | None => "default"
  end.

(** [AppState::get_cpu_time_limit_ms] *)
Definition get_cpu_time_limit_ms {Sliver} (app_registry : option (@Registry.AppRegistry Sliver))
    (hostname : string) : Z :=
  match app_registry with
  | None => 0
  | Some registry =>
    match Registry.get registry hostname with
    | None => 0
    | Some c =>
      if Config.ModRs.cpu_time_enabled (Config.ModRs.limits c)
      then Config.ModRs.cpu_time_ms (Config.ModRs.limits c) else 0
    end
  end.

(** Registering a list of routes in order. *)
Definition register_all (r : VirtualHostRouter) (l : list (string * RouteTarget)) : VirtualHostRouter :=
  foldl (λ r e, register r e.1 e.2) r l.

(** *** Lemmas *)

Lemma register_all_resolve l : ∀ r host,
  resolve (register_all r l) host =
  default (resolve r host)
    (last (List.filter (λ e : string * RouteTarget, same_name e.1 host) l).*2).
Proof.
  induction l as [|[h t] l IH]; intros r host; [done|]. cbn [register_all foldl List.filter fst snd].
  fold (register_all (register r h t) l). rewrite IH. destruct (same_name h host) eqn:E.
  - apply same_name_true in E. cbn [fmap list_fmap snd].
    assert (resolve (register r h t) host = t) as ->.
    { unfold resolve, register. simpl. by rewrite E, lookup_insert_eq. }
    destruct (List.filter _ l).*2 as [|x k] eqn:Ef; [done|].
    change (last (t :: x :: k)) with (last (x :: k)).
    by destruct (last (x :: k)) eqn:El; [|apply last_None in El].
  - assert (resolve (register r h t) host = resolve r host) as ->; [|done].
    unfold resolve, register. simpl. rewrite lookup_insert_ne; [done|].
    intros E'. apply not_true_iff_false in E. by apply E, same_name_true.
Qed.

Lemma split_head c h s :
  contains_char c h = false → head (split c (h +:+ String c s)) = Some h.
Proof. intros Hh. rewrite split_app, (split_one c h) by done. done. Qed.
End router.

(** The names a [VfsStaticFiles] route tries for a path, in order. *)
Definition vfs_candidates (default_file : option string) (path : string) : list string :=
  let lookup_path := if is_root_path path then default "index.html" default_file else strip_slash path in
  [lookup_path] ++ (if is_root_path path then entry_points else [])
  ++ [lookup_path +:+ "/index.html"; lookup_path +:+ ".html"].

Lemma first_entry_app files l k :
  first_entry files (l ++ k) =
  match first_entry files l with Some f => Some f | None => first_entry files k end.
Proof. induction l as [|n l IH]; simpl; [done|]. by destruct (files !! n). Qed.

Lemma handle_vfs_first `{Lowercase} files default_file path :
  handle_vfs files default_file path =
  match first_entry files (vfs_candidates default_file path) with
  | Some f => serve f
  | None => not_found
  end.
Proof.
  unfold handle_vfs, vfs_candidates. rewrite !first_entry_app. cbn [first_entry].
  destruct (files !! _); [done|]. destruct (is_root_path path).
  - destruct (first_entry files entry_points); [done|]. by repeat destruct (files !! _).
  - cbn [first_entry]. by repeat destruct (files !! _).
Qed.

(** ** Properties *)

(** Routing by host is case-insensitive and last-registration-wins: after
    registering any routes, a host resolves to the target registered last under
    that name in any letter case, and to the default target otherwise. *)
Theorem router_resolves_last `{Lowercase} l dflt host :
  let r := register_all (router_new dflt) l in
  (∀ t, last (List.filter (λ e : string * RouteTarget, same_name e.1 host) l).*2 = Some t →
        resolve r host = t) ∧
  (Forall (λ e, same_name e.1 host = false) l → resolve r host = dflt) ∧
  (∀ host', same_name host host' = true → resolve r host' = resolve r host).
Proof.
  intros r. unfold r. split_and!.
  - intros t Ht. rewrite register_all_resolve. by rewrite Ht.
  - intros Hall. rewrite register_all_resolve.
    assert (List.filter (λ e : string * RouteTarget, same_name e.1 host) l = []) as ->.
    { induction Hall as [|e l He Hl IH]; [done|]. simpl. by rewrite He. }
    unfold resolve. simpl. by rewrite lookup_empty.
  - intros host' Hh. apply same_name_true in Hh. unfold resolve. by rewrite Hh.
Qed.

(** A directory route only serves files below its root: its answers depend
    on the file system only through the configured default file and the paths
    [root/p] where [p] contains no [".."], and a request path with [".."] is
    answered 404 without any file access. *)
Theorem static_dir_confined `{Lowercase} js os1 os2 host root default_file request :
  (∀ p, p = default_file ∨ contains_sub ".." p = false →
     os_read os1 (root +:+ "/" +:+ p) = os_read os2 (root +:+ "/" +:+ p)) →
  let t := mkTarget host (StaticDir root default_file) in
  handle js os1 t request = handle js os2 t request ∧
  (is_root_path (pathname request) = false → contains_sub ".." (strip_slash (pathname request)) = true →
   handle js os1 t request = not_found).
Proof.
  intros Hagree t. unfold handle, t. simpl. unfold handle_dir, serve_path.
  destruct (is_root_path (pathname request)).
  - rewrite Hagree by by left. done.
  - destruct (contains_sub ".." (strip_slash (pathname request))) eqn:E; [done|].
    rewrite Hagree by by right. done.
Qed.

(** Serving from the packaged files: the answer is the first of the
    candidates that exists (the path itself or the default file, for the root
    the usual entry points, then [/index.html] and [.html]) with status 200,
    its own content type and its bytes; 404 if there is none. *)
Theorem vfs_static_files_exact `{Lowercase} js os host files default_file request :
  let t := mkTarget host (VfsStaticFiles files default_file) in
  let r := handle js os t request in
  let found := first_entry files (vfs_candidates default_file (pathname request)) in
  (∀ content content_type, found = Some (content, content_type) →
     status r = 200 ∧ body r = Some content ∧ hget (resp_headers r) "content-type" = Some content_type) ∧
  (found = None → r = not_found) ∧
  (∀ f, found = Some f → ∃ n, n ∈ vfs_candidates default_file (pathname request) ∧ files !! n = Some f).
Proof.
  intros t r found. unfold r, t, handle. cbn [handler_type]. rewrite handle_vfs_first. fold found.
  split_and!.
  - intros content ct ->. simpl. split_and!; [done..|]. unfold hget, hset. simpl.
    assert (to_lowercase "Content-Type" = "content-type") as -> by (rewrite to_lowercase_ascii; reflexivity).
    assert (to_lowercase "content-type" = "content-type") as -> by (rewrite to_lowercase_ascii; reflexivity).
    rewrite lookup_insert_eq. reflexivity.
  - by intros ->.
  - unfold found. generalize (vfs_candidates default_file (pathname request)). intros l f.
    induction l as [|n l IH]; simpl; [done|]. destruct (files !! n) eqn:E.
    + intros Hf. injection Hf as <-. exists n. split; [constructor|done].
    + intros (n' & ? & ?)%IH. exists n'. split; [by constructor|done].
Qed.

(** The port of a Host header is ignored, and the same request written with
    another letter case reaches the same route; but its CPU limit is looked up
    by the exact text, so unless that spelling is configured too the request
    runs with limit 0, which means none. *)
Theorem host_case_loses_cpu_limit {Sliver} `{Lowercase} r (reg : @Registry.AppRegistry Sliver) host spelled port :
  contains_char colon host = false → contains_char colon spelled = false →
  same_name host spelled = true → Registry.get reg spelled = None →
  request_host (Some (spelled +:+ ":" +:+ port)) = spelled ∧
  resolve r (request_host (Some (spelled +:+ ":" +:+ port))) = resolve r host ∧
  get_cpu_time_limit_ms (Some reg) (request_host (Some (spelled +:+ ":" +:+ port))) = 0.
Proof.
  intros Hh Hs Hsame Hnone.
  assert (request_host (Some (spelled +:+ ":" +:+ port)) = spelled) as ->.
  { unfold request_host. change (":" +:+ port) with (String colon port). by rewrite split_head. }
  split; [done|]. split.
  - apply same_name_true in Hsame. unfold resolve. by rewrite Hsame.
  - unfold get_cpu_time_limit_ms. by rewrite Hnone.
Qed.

(** ** Witnesses *)

#[local] Instance demo_lower : Lowercase := ascii_Lowercase.

Definition api_target : RouteTarget := mkTarget "api" (WinterTCHandler "/app/api.js").
Definition no_js (_ : string) (_ : NanoRequest) : JsOutcome := JsTaskFailed.
Definition get_request (p : string) : NanoRequest := mkRequest "GET" ("http://x" +:+ p) p headers_new None.

Lemma router_resolves_last_witness :
  resolve (register_all default_router [("API.example.com", api_target)]) "api.EXAMPLE.com" = api_target.
Proof.
  apply (router_resolves_last [("API.example.com", api_target)]
           (mkTarget "default" (StaticResponse "NANO Runtime")) "api.EXAMPLE.com").
  vm_compute. reflexivity.
Defined.

Definition demo_os (secret : string) : OsReads :=
  mkOs (λ p, if String.eqb p "/srv/a.css" then Some "body{}" else
             if String.eqb p "/etc/passwd" then Some secret else None) (λ _, None) (λ _, false).

Lemma static_dir_confined_witness :
  handle no_js (demo_os "x") (mkTarget "s" (StaticDir "/srv" "index.html")) (get_request "/../etc/passwd")
  = not_found.
Proof.
  apply (static_dir_confined no_js (demo_os "x") (demo_os "x") "s" "/srv" "index.html"
           (get_request "/../etc/passwd")); [intros; reflexivity|reflexivity|vm_compute; reflexivity].
Defined.

Lemma vfs_static_files_exact_witness :
  body (handle no_js (demo_os "") (mkTarget "s" (VfsStaticFiles {["docs/index.html" := ("<p>", "text/html")]} None))
          (get_request "/docs")) = Some "<p>".
Proof.
  apply (vfs_static_files_exact no_js (demo_os "") "s" {["docs/index.html" := ("<p>", "text/html")]} None
           (get_request "/docs")) with (content_type := "text/html"). vm_compute. reflexivity.
Defined.

Lemma host_case_loses_cpu_limit_witness :
  get_cpu_time_limit_ms (Some (@Registry.from_config unit
     (Config.ModRs.mkNano [ConfigProps.demo_app] Config.default_server)))
    (request_host (Some "API.example.com:8080")) = 0 ∧
  get_cpu_time_limit_ms (Some (@Registry.from_config unit
     (Config.ModRs.mkNano [ConfigProps.demo_app] Config.default_server))) "api.example.com" = 50.
Proof.
  split; [|vm_compute; reflexivity].
  apply (host_case_loses_cpu_limit default_router
    (@Registry.from_config unit (Config.ModRs.mkNano [ConfigProps.demo_app] Config.default_server))
    "api.example.com" "API.example.com" "8080"); vm_compute; reflexivity.
Defined.
