(* ===== verification/HttpReply.v ===== *)
(** * [to_axum_response] of [src/http/types.rs]: what of a response is sent

    The builder of the [http] crate fails for a status outside 100 to 999 and for too many
    headers, and a failed builder gives the empty 200 response.  A name or a value the
    crate refuses is passed over.  [HttpTypes] are its constructors, [HttpLaws] what their
    documentation says. *)

From stdpp Require Import base gmap list strings.
From Stdlib Require Import ZArith Lia.
From S2P Require Import Prelude RustString RustList HttpHeaders Router.

Open Scope Z_scope.

(** [HeaderName::from_bytes], the canonical name; whether [HeaderValue::from_str] takes a
    text; whether [StatusCode] is made of a number; whether a [HeaderMap] with these
    headers takes one more. *)
Class HttpTypes := {
  header_name : string → option string;
  header_value_ok : string → bool;
  status_code_ok : Z → bool;
  header_map_room : list (string * string) → bool;
}.

(** Three quarters of the largest capacity, 32768. *)
Definition MAX_HEADERS : nat := 24576.

Class HttpLaws `{HttpTypes} : Prop := {
  header_name_lower s n : header_name s = Some n → n = ascii_lowercase s;
  status_code_iff s : status_code_ok s = true ↔ 100 <= s < 1000;
  header_map_small l : (length l < MAX_HEADERS)%nat → header_map_room l = true;
}.

(** The lower case of a text has no capital ASCII letter. *)
Class LowercaseLaw `{Lowercase} : Prop := {
  lowercase_stable s : ascii_lowercase (to_lowercase s) = to_lowercase s;
}.

Record AxumResponse := mkAxum { ax_status : Z; ax_headers : list (string * string); ax_body : string }.

(** [Response::default()] *)
Definition axum_default : AxumResponse := mkAxum 200 [] "".

Section reply.
Context `{Lowercase} `{HashOrder (list string)} `{HttpTypes}.

(** [entries], a pair for each value *)
Definition header_entries (h : NanoHeaders) : list (string * string) :=
  concat (map (λ e : string * list string, map (pair e.1) e.2) (hash_iter (headers h))).

(** [Builder::status] and [Builder::header]; [None] is a builder that has failed. *)
Definition builder_status (s : Z) : option (Z * list (string * string)) :=
  if status_code_ok s then Some (s, []) else None.

Definition builder_header (b : option (Z * list (string * string))) (p : string * string) :=
  match header_name p.1 with
  | Some n =>
      if header_value_ok p.2 then
        '(s, hs) ← b;
        if header_map_room hs then Some (s, hs ++ [(n, p.2)]) else None
      else b
  | None => b
  end.

Definition to_axum_response (r : NanoResponse) : AxumResponse :=
  match foldl builder_header (builder_status (status r)) (header_entries (resp_headers r)) with
  | Some (s, hs) => mkAxum s hs (default "" (body r))
  | None => axum_default
  end.

(** The values of a header of the response. *)
Definition axum_values (r : AxumResponse) (n : string) : list string :=
  omap (λ p : string * string, if String.eqb p.1 n then Some p.2 else None) (ax_headers r).

(** ** Lemmas *)

Definition sent_header (p : string * string) : option (string * string) :=
  match header_name p.1 with
  | Some n => if header_value_ok p.2 then Some (n, p.2) else None
  | None => None
  end.

Lemma builder_failed l : foldl builder_header None l = None.
Proof.
  induction l as [|p l IH]; [done|]. cbn [foldl]. unfold builder_header at 2.
  destruct (header_name p.1); [|done]. by destruct (header_value_ok p.2).
Qed.

Lemma builder_headers `{!HttpLaws} s l : ∀ hs, (length hs + length l <= MAX_HEADERS)%nat →
  foldl builder_header (Some (s, hs)) l = Some (s, hs ++ omap sent_header l).
Proof.
  induction l as [|p l IH]; intros hs Hl; cbn [foldl length] in *; [by rewrite app_nil_r|].
  change (omap sent_header (p :: l)) with
    (match sent_header p with Some y => y :: omap sent_header l | None => omap sent_header l end).
  unfold builder_header at 2, sent_header at 1. destruct (header_name p.1) as [n|]; [|apply IH; lia].
  destruct (header_value_ok p.2); [|apply IH; lia]. cbn. rewrite header_map_small by lia.
  rewrite IH by (rewrite length_app; simpl; lia). by rewrite <- (assoc_L (++)).
Qed.

(** Every name has one value, as [set] leaves it, and is in lower case. *)
Definition set_headers (h : NanoHeaders) : Prop :=
  map_Forall (λ k l, (∃ v, l = [v]) ∧ ascii_lowercase k = k) (headers h).

Lemma set_headers_new : set_headers headers_new.
Proof. apply map_Forall_empty. Qed.

Lemma set_headers_set `{!LowercaseLaw} h n v : set_headers h → set_headers (hset h n v).
Proof. intros Hh. apply map_Forall_insert_2; [|done]. split; [by exists v|apply lowercase_stable]. Qed.

Definition first_values (l : list (string * list string)) : list (string * string) :=
  map (λ e : string * list string, (e.1, default "" (head e.2))) l.

Lemma single_entries (l : list (string * list string)) :
  Forall (λ e : string * list string, ∃ v, e.2 = [v]) l →
  concat (map (λ e : string * list string, map (pair e.1) e.2) l) = first_values l.
Proof. induction 1 as [|[k vs] l [v Hv] _ IH]; [done|]. simpl in Hv. subst vs. simpl. by rewrite IH. Qed.

Lemma set_iter h : set_headers h →
  Forall (λ e : string * list string, (∃ v, e.2 = [v]) ∧ ascii_lowercase e.1 = e.1) (hash_iter (headers h)).
Proof.
  intros Hh. apply Forall_forall. intros [k l] He. rewrite hash_iter_perm in He. apply elem_of_map_to_list in He.
  exact (Hh k l He).
Qed.

Lemma set_entries h : set_headers h → header_entries h = first_values (hash_iter (headers h)).
Proof. intros Hh. apply single_entries. eapply Forall_impl; [by apply set_iter|]. by intros e [? _]. Qed.

(** Only one entry is selected. *)
Lemma selected_once {A} (f : string * A → option string) κ (l : list (string * A)) :
  NoDup l.*1 → (∀ p, p ∈ l → f p ≠ None → p.1 = κ) → ∀ x, (κ, x) ∈ l → omap f l = option_list (f (κ, x)).
Proof.
  intros Hd Hf x Hx. induction l as [|[k y] l IH]; [by apply not_elem_of_nil in Hx|].
  csimpl in Hd. apply NoDup_cons in Hd as [Hk Hd].
  change (omap f ((k, y) :: l)) with (match f (k, y) with Some z => z :: omap f l | None => omap f l end).
  apply elem_of_cons in Hx as [[= -> ->]|Hx].
  - assert (Hl : omap f l = []); [|rewrite Hl; by destruct (f (k, y))].
    clear IH Hd. induction l as [|p l IH]; [done|]. csimpl in Hk. apply not_elem_of_cons in Hk as [Hp Hl].
    change (omap f (p :: l)) with (match f p with Some z => z :: omap f l | None => omap f l end).
    destruct (f p) eqn:Hfp; [|apply IH; [done|]; intros q [->|Hq]%elem_of_cons; apply Hf; [by left|by do 2 right]].
    exfalso. apply Hp. symmetry. apply Hf; [by right; left|by rewrite Hfp].
  - destruct (f (k, y)) eqn:Hfk; [|apply IH; [done| |done]; intros p Hp; apply Hf; by right].
    exfalso. apply Hk. assert (k = κ) as -> by (apply (Hf (k, y)); [by left|by rewrite Hfk]).
    apply list_elem_of_fmap. by exists (κ, x).
Qed.

(** What is sent of a response whose headers were [set]. *)
Lemma axum_reply `{!HttpLaws} r :
  set_headers (resp_headers r) → (size (headers (resp_headers r)) <= MAX_HEADERS)%nat →
  to_axum_response r =
    if (100 <=? status r) && (status r <? 1000)
    then mkAxum (status r) (omap sent_header (header_entries (resp_headers r))) (default "" (body r))
    else axum_default.
Proof.
  intros Hs Hn. unfold to_axum_response, builder_status. pose proof (status_code_iff (status r)) as Hiff.
  destruct (status_code_ok (status r)).
  - destruct (proj1 Hiff eq_refl). rewrite builder_headers.
    + rewrite (proj2 (Z.leb_le _ _)), (proj2 (Z.ltb_lt _ _)) by done. done.
    + rewrite set_entries by done. unfold first_values. rewrite length_map, hash_iter_perm, length_map_to_list. exact Hn.
  - rewrite builder_failed. destruct (Z.leb_spec 100 (status r)), (Z.ltb_spec (status r) 1000); try done.
    by destruct (proj2 Hiff).
Qed.

Lemma omap_omap {A B C} (f : A → option B) (g : B → option C) (l : list A) : omap g (omap f l) = omap (λ x, f x ≫= g) l.
Proof.
  induction l as [|x l IH]; [done|].
  change (omap f (x :: l)) with (match f x with Some y => y :: omap f l | None => omap f l end).
  change (omap (λ x, f x ≫= g) (x :: l)) with
    (match f x ≫= g with Some z => z :: omap (λ x, f x ≫= g) l | None => omap (λ x, f x ≫= g) l end).
  destruct (f x) as [y|]; simpl; [|exact IH]. rewrite <- IH. done.
Qed.

Lemma first_names l : (first_values l).*1 = l.*1.
Proof. unfold first_values. rewrite <- list_fmap_compose. by apply list_fmap_ext. Qed.

Lemma sent_values `{!HttpLaws, !LowercaseLaw} h k n : set_headers h → header_name (to_lowercase k) = Some n →
  omap (λ p : string * string, if String.eqb p.1 n then Some p.2 else None) (omap sent_header (header_entries h)) =
    match hget h k with Some v => if header_value_ok v then [v] else [] | None => [] end.
Proof.
  intros Hh Hn. rewrite set_entries, omap_omap by done.
  assert (Hlow : n = to_lowercase k) by (rewrite (header_name_lower _ _ Hn); apply lowercase_stable). subst n.
  set (κ := to_lowercase k) in *. set (f := λ p, sent_header p ≫= _).
  assert (Hf : ∀ p, p ∈ first_values (hash_iter (headers h)) → f p ≠ None → p.1 = κ).
  { intros [k2 v2] Hp. apply list_elem_of_In, in_map_iff in Hp as ([k' l'] & [= <- <-] & Hin).
    pose proof (set_iter h Hh) as Hall. rewrite Forall_forall in Hall. apply list_elem_of_In, Hall in Hin as [_ Hk'].
    simpl in Hk'. unfold f, sent_header. cbn [fst snd]. destruct (header_name k') as [n'|] eqn:Hn'; [|done].
    destruct (header_value_ok _); [|done]. cbn. destruct (String.eqb_spec n' κ) as [->|]; [|done]. intros _.
    rewrite (header_name_lower _ _ Hn'). by rewrite Hk'. }
  assert (Hd : NoDup (first_values (hash_iter (headers h))).*1).
  { rewrite first_names, hash_iter_perm. apply NoDup_fst_map_to_list. }
  assert (Hnone : ∀ l, (∀ p, p ∈ l → f p ≠ None → p.1 = κ) → κ ∉ l.*1 → omap f l = []).
  { intros l. induction l as [|p l IH]; intros Hp Hk; [done|]. csimpl in Hk. apply not_elem_of_cons in Hk as [Hpk Hk].
    change (omap f (p :: l)) with (match f p with Some z => z :: omap f l | None => omap f l end).
    destruct (f p) eqn:Hfp; [|apply IH; [|done]; intros q Hq; apply Hp; by right].
    exfalso. apply Hpk. symmetry. apply Hp; [by left|by rewrite Hfp]. }
  unfold hget. fold κ. destruct (headers h !! κ) as [vs|] eqn:Hk.
  - destruct (Hh κ vs Hk) as [[v ->] _].
    assert (Hin : (κ, v) ∈ first_values (hash_iter (headers h))).
    { apply list_elem_of_In, in_map_iff. exists (κ, [v]). split; [done|].
      apply list_elem_of_In. rewrite hash_iter_perm. by apply elem_of_map_to_list. }
    assert (shown κ [v] = v) as -> by (unfold shown; by destruct (String.eqb _ _)).
    rewrite (selected_once f κ _ Hd Hf v Hin). unfold f, sent_header. cbn [fst snd]. rewrite Hn.
    destruct (header_value_ok v); [|done]. cbn. by rewrite String.eqb_refl.
  - apply Hnone; [exact Hf|]. rewrite first_names. intros Hin. apply list_elem_of_fmap in Hin as ([k2 l2] & -> & Hin).
    rewrite hash_iter_perm in Hin. apply elem_of_map_to_list in Hin. simpl in Hk. by rewrite Hk in Hin.
Qed.

Lemma sent_only h n v : (n, v) ∈ omap sent_header (header_entries h) →
  header_value_ok v = true ∧ ∃ κ vs, headers h !! κ = Some vs ∧ v ∈ vs ∧ header_name κ = Some n.
Proof.
  intros Hp. apply list_elem_of_omap in Hp as ([k2 v2] & Hin & Hs). unfold sent_header in Hs. cbn [fst snd] in Hs.
  destruct (header_name k2) as [n2|] eqn:Hn; [|done]. destruct (header_value_ok v2) eqn:Hv; [|done].
  injection Hs as -> ->. split; [done|]. apply list_elem_of_In, in_concat in Hin as (x & Hx & Hin).
  apply in_map_iff in Hx as ([k' vs] & <- & Hx). apply in_map_iff in Hin as (v' & [= -> ->] & Hv').
  exists k2, vs. split_and!; [|by apply list_elem_of_In|done].
  apply elem_of_map_to_list. rewrite <- hash_iter_perm. by apply list_elem_of_In.
Qed.
End reply.

(** ** An instance for examples *)

Definition demo_http : HttpTypes := {|
  header_name := λ s, if is_ascii s && negb (is_empty s) && negb (contains_char (ch " ") s) then Some (ascii_lowercase s) else None;
  header_value_ok := is_ascii;
  status_code_ok := λ s, (100 <=? s) && (s <? 1000);
  header_map_room := λ l, (length l <? MAX_HEADERS)%nat;
|}.

Lemma demo_http_laws : @HttpLaws demo_http.
Proof.
  split; simpl.
  - intros s n. case_if; [|done]. by intros [= <-].
  - intros s. rewrite andb_true_iff, Z.leb_le, Z.ltb_lt. lia.
  - intros l Hl. by apply Nat.ltb_lt.
Qed.

Lemma ascii_lowercase_law : @LowercaseLaw ascii_Lowercase.
Proof.
  split. intros s. simpl. induction s as [|a s IH]; [done|]. simpl. f_equal; [|exact IH].
  by destruct a as [[] [] [] [] [] [] [] []].
Qed.
