(* ===== verification/WorkQueue.v ===== *)
(** * [src/worker/queue.rs], the pools of [src/worker/pool.rs] and
      [src/vfs/factory.rs]: from a hostname to a worker

    A worker thread is the queue of its [mpsc] channel, [None] once the thread
    has ended.  Running the tasks is the engine's and not modelled; receiving
    one and ending are events.  [DiskBackend::new] and the file tests are calls
    of the operating system and are parameters. *)

From stdpp Require Import base gmap list strings pretty.
From Stdlib Require Import ZArith Lia.
From S2P Require Import Prelude RustString RustList RustPath VfsPath VfsBackend VfsIsolate ControlPlane.
From S2P Require Config Registry.

Open Scope Z_scope.

(** ** Data *)

Inductive QueueError :=
| ChannelFull
| WorkerNotFound
| PoolNotFound
| SendError (e : string)
| Other (e : string).

Definition queue_error_display (e : QueueError) : string :=
  match e with
  | ChannelFull => "WorkQueue channel is full"
  | WorkerNotFound => "Worker thread not found"
  | PoolNotFound => "Pool not found for hostname"
  | SendError e => "Send error: " +:+ e
  | Other e => "Queue error: " +:+ e
  end.

Record QueueStats := mkStats {
  tasks_submitted : Z;
  tasks_completed : Z;
  tasks_dropped : Z;
  active_pools : Z;
  active_workers : Z;
}.

Definition stats_new : QueueStats := mkStats 0 0 0 0 0.

(** [VfsBackendEnum], as far as it is created here. *)
Inductive Backend := Memory | Disk (base_path : string).

(** [WorkerPool] of pool.rs; [pool_env] is what the threads find in the
    process-wide table of environments when they start. *)
Record WorkerPool := mkPool {
  workers : list (option (list HandlerTask));
  worker_count : Z;
  pool_hostname : string;
  next_worker : Z;
  vfs_backend : Backend;
  pool_env : option (gmap string string);
}.

Record EntrypointWorkerPool := mkEPool {
  inner : WorkerPool;
  hostname : string;
  e_worker_count : Z;
}.

(** ** [WorkerPool] *)

Definition with_source_and_backend (env : option (gmap string string)) (hostname : string)
    (worker_count : Z) (b : Backend) : outcome WorkerPool :=
  assert! (worker_count >? 0) or "Worker count must be at least 1" in
  Done (mkPool (replicate (Z.to_nat worker_count) (Some [])) worker_count hostname 0 b env).

Definition set_workers (p : WorkerPool) (w : list (option (list HandlerTask))) : WorkerPool :=
  mkPool w (worker_count p) (pool_hostname p) (next_worker p) (vfs_backend p) (pool_env p).
Definition set_next (p : WorkerPool) (n : Z) : WorkerPool :=
  mkPool (workers p) (worker_count p) (pool_hostname p) n (vfs_backend p) (pool_env p).

(** [self.workers[i].send(task)], with its error text. *)
Definition worker_send (p : WorkerPool) (i : Z) (t : HandlerTask)
  : outcome (WorkerPool * result unit string) :=
  match workers p !! Z.to_nat i with
  | None => Panicked "index out of bounds"
  | Some None => Done (p, Err ("Failed to dispatch to worker " +:+ pretty i +:+ ": Worker "
                               +:+ pretty i +:+ " channel closed"))
  | Some (Some q) => Done (set_workers p (<[Z.to_nat i := Some (q ++ [t])]> (workers p)), Ok tt)
  end.

Definition pool_dispatch (p : WorkerPool) (t : HandlerTask)
  : outcome (WorkerPool * result unit string) :=
  assert! (negb (worker_count p =? 0)) or "remainder with a divisor of zero" in
  let worker_idx := next_worker p mod worker_count p in
  worker_send (set_next p (add_u32 (next_worker p) 1)) worker_idx t.

Definition dispatch_to (p : WorkerPool) (worker_idx : Z) (t : HandlerTask)
  : outcome (WorkerPool * result unit string) :=
  if worker_idx >=? worker_count p then
    Done (p, Err ("Worker index " +:+ pretty worker_idx +:+ " out of bounds (max "
                  +:+ pretty (as_u32 (worker_count p - 1)) +:+ ")"))
  else worker_send p worker_idx t.

(** The namespace of the file system the workers of a pool give their isolates. *)
Definition pool_namespace `{Lowercase} (p : WorkerPool) : string := from_hostname (pool_hostname p).

(** ** [EntrypointWorkerPool] *)

Definition with_backend (env : option (gmap string string)) (hostname : string) (worker_count : Z)
    (b : Backend) : outcome EntrypointWorkerPool :=
  let! inner := with_source_and_backend env hostname worker_count b in
  Done (mkEPool inner hostname worker_count).

Definition pool_new (env : option (gmap string string)) (hostname : string) (worker_count : Z)
  : outcome EntrypointWorkerPool := with_backend env hostname worker_count Memory.

Definition set_inner (p : EntrypointWorkerPool) (w : WorkerPool) : EntrypointWorkerPool :=
  mkEPool w (hostname p) (e_worker_count p).

Definition try_dispatch (p : EntrypointWorkerPool) (t : HandlerTask) (worker_index : Z)
  : outcome (EntrypointWorkerPool * result unit QueueError) :=
  let! r := pool_dispatch (inner p) t in
  Done (set_inner p r.1, map_err SendError r.2).

(** ** [BackendFactory] (without the [vfs-s3] feature, off by default) *)

Section queue.
Variable disk_new : string → VfsResult unit.
Variable os_exists os_is_dir : string → bool.

Definition create_backend (backend_type : Config.VfsBackendType) (disk_config : option Config.VfsDiskConfig)
    (s3_config : option Config.VfsS3Config) : VfsResult Backend :=
  match backend_type with
  | Config.BMemory => Ok Memory
  | Config.BDisk =>
    let? config := ok_or disk_config
        (InvalidPath "vfs_disk" "Disk backend requires vfs_disk configuration") in
    let? _ := disk_new (Config.base_path config) in
    Ok (Disk (Config.base_path config))
  | Config.BS3 => Err (IoError "S3 backend requires vfs-s3 feature")
  end.

(** Every creation falls back to the memory backend. *)
Definition disk_or_memory (d : Config.VfsDiskConfig) : Backend :=
  match create_backend Config.BDisk (Some d) None with
  | Ok b => b
  | Err _ => Memory
  end.

(** ** [WorkQueue] *)

Context {Sliver : Type} {LC : Lowercase} {DH : DefaultHasher} {HO : HashOrder unit}.

(** [envs] is the process-wide [HOSTNAME_ENV_VARS], which only
    [get_or_create_pool] writes. *)
Record WorkQueue := mkQueue {
  pools : gmap Z EntrypointWorkerPool;
  workers_per_pool : Z;
  channel_capacity : Z;
  stats : QueueStats;
  vfs_disk_config : option Config.VfsDiskConfig;
  app_registry : option (@Registry.AppRegistry Sliver);
  control_plane : option ControlPlane;
  envs : gmap string (gmap string string);
}.

Definition hash_hostname (hostname : string) : Z := hash_str (to_lowercase hostname).

(** Registering the applications of the registry as tenants. *)
Fixpoint register_tenants (cp : ControlPlane) (hostnames : list string) : outcome ControlPlane :=
  match hostnames with
  | [] => Done cp
  | h :: hs => let! cp := register_tenant cp h auto_limits in register_tenants cp hs
  end.

Definition with_vfs_config (workers_per_pool : Z) (disk : option Config.VfsDiskConfig)
    (registry : option (@Registry.AppRegistry Sliver)) : outcome WorkQueue :=
  let! cp := control_plane_new in
  let! cp := match registry with
             | Some r => register_tenants cp (Registry.set_iter (Registry.all_hostnames r))
             | None => Done cp
             end in
  Done (mkQueue ∅ workers_per_pool 256 stats_new disk registry (Some cp) ∅).

Definition queue_new (workers_per_pool : Z) : outcome WorkQueue := with_vfs_config workers_per_pool None None.

Definition with_registry (q : WorkQueue) (r : @Registry.AppRegistry Sliver) : WorkQueue :=
  mkQueue (pools q) (workers_per_pool q) (channel_capacity q) (stats q) (vfs_disk_config q) (Some r)
          (control_plane q) (envs q).

Definition set_control_plane (q : WorkQueue) (cp : option ControlPlane) : WorkQueue :=
  mkQueue (pools q) (workers_per_pool q) (channel_capacity q) (stats q) (vfs_disk_config q)
          (app_registry q) cp (envs q).
Definition set_envs (q : WorkQueue) (e : gmap string (gmap string string)) : WorkQueue :=
  mkQueue (pools q) (workers_per_pool q) (channel_capacity q) (stats q) (vfs_disk_config q)
          (app_registry q) (control_plane q) e.
Definition set_pool (q : WorkQueue) (k : Z) (p : EntrypointWorkerPool) : WorkQueue :=
  mkQueue (<[k := p]> (pools q)) (workers_per_pool q) (channel_capacity q) (stats q)
          (vfs_disk_config q) (app_registry q) (control_plane q) (envs q).
Definition set_stats (q : WorkQueue) (s : QueueStats) : WorkQueue :=
  mkQueue (pools q) (workers_per_pool q) (channel_capacity q) s (vfs_disk_config q)
          (app_registry q) (control_plane q) (envs q).

(** [WorkQueue::ensure_tenant] *)
Definition queue_ensure_tenant (q : WorkQueue) (hostname : string) : outcome WorkQueue :=
  match control_plane q with
  | Some cp => let! cp := ensure_tenant cp hostname in Done (set_control_plane q (Some cp))
  | None => Done q
  end.

(** The backend of an application found in the registry. *)
Definition app_backend (c : Config.ModRs.AppConfig) : Backend :=
  match Config.ModRs.vfs_backend c with
  | Config.BDisk =>
    match Config.ModRs.vfs_disk c with
    | Some d => disk_or_memory d
    | None => Memory
    end
  | Config.BMemory =>
    if is_empty (Config.ModRs.entrypoint c) then Memory
    else match path_parent (Config.ModRs.entrypoint c) with
    | None => Memory
    | Some parent =>
      let stem := default "" (path_file_stem (Config.ModRs.entrypoint c)) in
      let subdir := Config.path_join parent stem in
      let base_path := if os_exists subdir && os_is_dir subdir then subdir else parent in
      disk_or_memory (Config.mkDisk base_path)
    end
  | Config.BS3 => Memory
  end.

Definition create_pool_with_fallback (q : WorkQueue) (hostname : string)
  : outcome EntrypointWorkerPool :=
  let env := envs q !! hostname in
  match vfs_disk_config q with
  | Some d => with_backend env hostname (workers_per_pool q) (disk_or_memory d)
  | None => pool_new env hostname (workers_per_pool q)
  end.

Definition registered_app (q : WorkQueue) (hostname : string) : option Config.ModRs.AppConfig :=
  match app_registry q with Some r => Registry.get r hostname | None => None end.

Definition pool_created (s : QueueStats) (n : Z) : QueueStats :=
  mkStats (tasks_submitted s) (tasks_completed s) (tasks_dropped s) (add_u32 (active_pools s) 1)
          (add_u32 (active_workers s) n).

(** [get_or_create_pool]; the pool it returns is the one stored under the hash. *)
Definition get_or_create_pool (q : WorkQueue) (hostname : string) : outcome WorkQueue :=
  let hash := hash_hostname hostname in
  match pools q !! hash with
  | Some _ => Done q
  | None =>
    let! q := queue_ensure_tenant q hostname in
    let! qp := match registered_app q hostname with
               | Some c =>
                 let q := set_envs q (<[hostname := Config.ModRs.env_vars c]> (envs q)) in
                 let! p := with_backend (envs q !! hostname) hostname (workers_per_pool q) (app_backend c) in
                 Done (q, p)
               | None => let! p := create_pool_with_fallback q hostname in Done (q, p)
               end in
    let q := set_pool qp.1 hash qp.2 in
    Done (set_stats q (pool_created (stats q) (workers_per_pool q)))
  end.

Definition count_submit (s : QueueStats) (dropped : bool) : QueueStats :=
  mkStats (add_u64 (tasks_submitted s) 1) (tasks_completed s)
          (if dropped then add_u64 (tasks_dropped s) 1 else tasks_dropped s)
          (active_pools s) (active_workers s).

(** [WorkQueue::dispatch] *)
Definition dispatch (q : WorkQueue) (hostname : string) (t : HandlerTask)
  : outcome (WorkQueue * result unit QueueError) :=
  let hash := hash_hostname hostname in
  let! q := get_or_create_pool q hostname in
  match pools q !! hash with
  | None => Panicked "Pool should exist"
  | Some pool =>
    assert! (negb (e_worker_count pool =? 0)) or "remainder with a divisor of zero" in
    let worker_index := hash mod e_worker_count pool in
    let! r := try_dispatch pool t worker_index in
    let q := set_pool q hash r.1 in
    let dropped := match r.2 with Ok _ => false | Err _ => true end in
    Done (set_stats q (count_submit (stats q) dropped), r.2)
  end.

Definition get_pool (q : WorkQueue) (hostname : string) : option EntrypointWorkerPool :=
  pools q !! hash_hostname hostname.

(** ** Runs: requests interleaved with what the worker threads do *)

Inductive QueueEvent :=
| EvDispatch (hostname : string) (t : HandlerTask)
| EvRecv (hash : Z) (i : nat)
| EvExit (hash : Z) (i : nat).

Definition on_worker (q : WorkQueue) (k : Z) (i : nat)
    (f : option (list HandlerTask) → option (list HandlerTask)) : WorkQueue :=
  match pools q !! k with
  | Some p => set_pool q k (set_inner p (set_workers (inner p) (alter f i (workers (inner p)))))
  | None => q
  end.

Definition queue_step (q : WorkQueue) (e : QueueEvent)
  : outcome (WorkQueue * list (result unit QueueError)) :=
  match e with
  | EvDispatch h t => let! r := dispatch q h t in Done (r.1, [r.2])
  | EvRecv k i => Done (on_worker q k i (option_map (@tail HandlerTask)), [])
  | EvExit k i => Done (on_worker q k i (λ _, None), [])
  end.

Fixpoint queue_run (q : WorkQueue) (es : list QueueEvent)
  : outcome (WorkQueue * list (result unit QueueError)) :=
  match es with
  | [] => Done (q, [])
  | e :: es' =>
    let! r := queue_step q e in
    let! r' := queue_run r.1 es' in
    Done (r'.1, r.2 ++ r'.2)
  end.

(** ** Specification *)

(** What a pool created for [h] gets. *)
Definition backend_for (q : WorkQueue) (h : string) : Backend :=
  match registered_app q h with
  | Some c => app_backend c
  | None => match vfs_disk_config q with Some d => disk_or_memory d | None => Memory end
  end.

Definition env_for (q : WorkQueue) (h : string) : option (gmap string string) :=
  match registered_app q h with Some c => Some (Config.ModRs.env_vars c) | None => None end.

Definition fresh_pool (q : WorkQueue) (h : string) : EntrypointWorkerPool :=
  mkEPool (mkPool (replicate (Z.to_nat (workers_per_pool q)) (Some [])) (workers_per_pool q) h 0
                  (backend_for q h) (env_for q h)) h (workers_per_pool q).

(** The part of a pool that never changes. *)
Definition identity (p : EntrypointWorkerPool) : string * string * Backend * option (gmap string string) * Z * Z :=
  (hostname p, pool_hostname (inner p), vfs_backend (inner p), pool_env (inner p), e_worker_count p,
   worker_count (inner p)).

Definition config (q : WorkQueue) := (workers_per_pool q, vfs_disk_config q, app_registry q).

Record queue_inv (q : WorkQueue) : Prop := {
  qi_wpp : 1 ≤ workers_per_pool q < two32;
  qi_pools : ∀ k p, pools q !! k = Some p →
    k = hash_hostname (hostname p) ∧ identity p = identity (fresh_pool q (hostname p)) ∧
    length (workers (inner p)) = Z.to_nat (workers_per_pool q);
  qi_envs : ∀ h e, envs q !! h = Some e → env_for q h = Some e;
  qi_active : active_pools (stats q) = as_u32 (Z.of_nat (size (pools q))) ∧
              active_workers (stats q) = as_u32 (Z.of_nat (size (pools q)) * workers_per_pool q);
}.

(** ** Lemmas *)

Lemma config_backend q q' h : config q = config q' → backend_for q h = backend_for q' h.
Proof. intros [= E1 E2 E3]. unfold backend_for, registered_app. by rewrite E2, E3. Qed.

Lemma config_env q q' h : config q = config q' → env_for q h = env_for q' h.
Proof. intros [= E1 E2 E3]. unfold env_for, registered_app. by rewrite E3. Qed.

Lemma config_fresh q q' h : config q = config q' → fresh_pool q h = fresh_pool q' h.
Proof.
  intros E. unfold fresh_pool. rewrite (config_backend q q'), (config_env q q') by done.
  injection E as E1 E2 E3. by rewrite E1.
Qed.

Lemma with_backend_done env h n b :
  1 ≤ n → with_backend env h n b = Done (mkEPool (mkPool (replicate (Z.to_nat n) (Some [])) n h 0 b env) h n).
Proof.
  intros Hn. unfold with_backend, with_source_and_backend. by rewrite assert_true by (apply Z.gtb_lt; lia).
Qed.

Lemma as_u32_succ a b : add_u32 (as_u32 a) b = as_u32 (a + b).
Proof. unfold add_u32, as_u32. by rewrite Z.add_mod_idemp_l. Qed.

(** Creating the pool of a host that has none. *)
Lemma get_or_create_new q h :
  queue_inv q → contains_char nul h = false → pools q !! hash_hostname h = None →
  ∃ q', get_or_create_pool q h = Done q' ∧ config q' = config q ∧
    pools q' = <[hash_hostname h := fresh_pool q h]> (pools q) ∧
    stats q' = pool_created (stats q) (workers_per_pool q) ∧
    (∀ h' e, envs q' !! h' = Some e → env_for q h' = Some e).
Proof.
  intros [Hw Hp He Ha] Hnul Hnone. unfold get_or_create_pool. rewrite Hnone.
  assert (∃ q1, queue_ensure_tenant q h = Done q1 ∧ config q1 = config q ∧ pools q1 = pools q ∧
                stats q1 = stats q ∧ envs q1 = envs q) as (q1 & -> & Hc & Hp1 & Hs1 & He1).
  { unfold queue_ensure_tenant. destruct (control_plane q) as [cp|]; [|by exists q].
    destruct (ensure_tenant_ok cp h Hnul) as (cp' & -> & _). by eexists. }
  cbn [outcome_bind]. pose proof Hc as [= E1 E2 E3].
  assert (Hreg : registered_app q1 h = registered_app q h) by (unfold registered_app; by rewrite E3).
  rewrite Hreg. destruct (registered_app q h) as [c|] eqn:Ec.
  - cbn [set_envs workers_per_pool envs]. rewrite E1, with_backend_done by lia. cbn [outcome_bind]. eexists. split; [done|].
    split; [exact Hc|]. split; [|split].
    + cbn. rewrite Hp1, lookup_insert_eq. unfold fresh_pool, backend_for, env_for. by rewrite Ec.
    + cbn. by rewrite Hs1, E1.
    + cbn. intros h' e. rewrite He1. destruct (decide (h = h')) as [<-|Hne].
      * rewrite lookup_insert_eq. intros [= <-]. unfold env_for. by rewrite Ec.
      * rewrite lookup_insert_ne by done. apply He.
  - assert (Henv : envs q1 !! h = env_for q h).
    { rewrite He1. unfold env_for. rewrite Ec. destruct (envs q !! h) eqn:E; [|done].
      apply He in E. unfold env_for in E. by rewrite Ec in E. }
    unfold create_pool_with_fallback, pool_new. rewrite E1, E2, Henv.
    assert (Hq : ∃ b, b = backend_for q h) by eauto. destruct Hq as (b & Hb).
    assert (Hcreate : (match vfs_disk_config q with
              | Some d => with_backend (env_for q h) h (workers_per_pool q) (disk_or_memory d)
              | None => with_backend (env_for q h) h (workers_per_pool q) Memory
              end) = Done (fresh_pool q h)).
    { unfold fresh_pool, backend_for. rewrite Ec.
      by destruct (vfs_disk_config q); rewrite with_backend_done by lia. }
    rewrite Hcreate. cbn [outcome_bind]. eexists. split; [done|]. split; [exact Hc|].
    split; [|split]; cbn; rewrite ?Hp1, ?Hs1, ?E1, ?He1; auto.
Qed.

Lemma inv_with_pool q q' k p :
  queue_inv q → config q' = config q → pools q' = <[k := p]> (pools q) → pools q !! k = None →
  stats q' = pool_created (stats q) (workers_per_pool q) →
  (∀ h e, envs q' !! h = Some e → env_for q h = Some e) →
  k = hash_hostname (hostname p) → p = fresh_pool q (hostname p) →
  queue_inv q'.
Proof.
  intros [Hw Hp He [Ha1 Ha2]] Hc Hpools Hnone Hs Henv Hk Hpf. pose proof Hc as [= E1 E2 E3]. split.
  - by rewrite E1.
  - intros k' p'. rewrite Hpools, (config_fresh q' q) by done. rewrite E1.
    destruct (decide (k = k')) as [<-|Hne].
    + rewrite lookup_insert_eq. intros [= <-]. split_and!; [done|by rewrite <-Hpf|].
      rewrite Hpf. cbn. by rewrite length_replicate.
    + rewrite lookup_insert_ne by done. apply Hp.
  - intros h e Hh. rewrite (config_env q' q) by done. by apply Henv.
  - rewrite Hs, Hpools, E1. cbn. rewrite map_size_insert_None by done.
    rewrite Ha1, Ha2, !as_u32_succ. split; f_equal; lia.
Qed.
(** [get_or_create_pool] in general: the pool of the hash, made if missing. *)
Definition pool_for (q : WorkQueue) (h : string) : EntrypointWorkerPool :=
  default (fresh_pool q h) (pools q !! hash_hostname h).

Lemma get_or_create_spec q h :
  queue_inv q → contains_char nul h = false →
  ∃ q', get_or_create_pool q h = Done q' ∧ queue_inv q' ∧ config q' = config q ∧
    pools q' = <[hash_hostname h := pool_for q h]> (pools q) ∧
    tasks_submitted (stats q') = tasks_submitted (stats q) ∧
    tasks_completed (stats q') = tasks_completed (stats q) ∧
    tasks_dropped (stats q') = tasks_dropped (stats q).
Proof.
  intros Hq Hnul. unfold pool_for. destruct (pools q !! hash_hostname h) as [p|] eqn:E.
  - exists q. unfold get_or_create_pool. rewrite E. split_and!; try done.
    simpl. by rewrite insert_id.
  - destruct (get_or_create_new q h Hq Hnul E) as (q' & Hq' & Hc & Hp & Hs & He).
    exists q'. split_and!; try done; try (by rewrite Hs).
    by apply (inv_with_pool q q' (hash_hostname h) (fresh_pool q h)).
Qed.

Lemma pool_for_ok q h :
  queue_inv q →
  hash_hostname (hostname (pool_for q h)) = hash_hostname h ∧
  identity (pool_for q h) = identity (fresh_pool q (hostname (pool_for q h))) ∧
  length (workers (inner (pool_for q h))) = Z.to_nat (workers_per_pool q).
Proof.
  intros [Hw Hp _ _]. unfold pool_for. destruct (pools q !! hash_hostname h) as [p|] eqn:E; simpl.
  - destruct (Hp _ _ E) as (Hk & Hi & Hl). done.
  - split_and!; [done..|]. by rewrite length_replicate.
Qed.

(** Replacing a stored pool by one with the same identity. *)
Lemma inv_update q q' k p p' :
  queue_inv q → config q' = config q → envs q' = envs q →
  pools q !! k = Some p → pools q' = <[k := p']> (pools q) →
  identity p' = identity p → length (workers (inner p')) = length (workers (inner p)) →
  active_pools (stats q') = active_pools (stats q) →
  active_workers (stats q') = active_workers (stats q) →
  queue_inv q'.
Proof.
  intros [Hw Hp He [Ha1 Ha2]] Hc Hen Hk Hpools Hid Hlen Hs1 Hs2. pose proof Hc as [= E1 E2 E3]. split.
  - by rewrite E1.
  - intros k' x. rewrite Hpools, (config_fresh q' q), E1 by done. destruct (decide (k = k')) as [<-|Hne].
    + rewrite lookup_insert_eq. intros [= <-]. destruct (Hp _ _ Hk) as (H1 & H2 & H3).
      assert (hostname p' = hostname p) as -> by (by injection Hid). rewrite Hid, Hlen. done.
    + rewrite lookup_insert_ne by done. apply Hp.
  - intros h e. rewrite Hen, (config_env q' q) by done. apply He.
  - rewrite Hs1, Hs2, Hpools, map_size_insert_Some, E1 by eauto. done.
Qed.

(** The worker the next task of a pool goes to. *)
Definition turn (p : WorkerPool) : Z := next_worker p mod worker_count p.

(** A pool after a task is handed to it. *)
Definition handed (p : EntrypointWorkerPool) (t : HandlerTask) : EntrypointWorkerPool :=
  let w := inner p in
  let w' := match workers w !! Z.to_nat (turn w) with
            | Some (Some l) => <[Z.to_nat (turn w) := Some (l ++ [t])]> (workers w)
            | _ => workers w
            end in
  set_inner p (set_workers (set_next w (add_u32 (next_worker w) 1)) w').

Definition send_result (p : EntrypointWorkerPool) : result unit QueueError :=
  let i := turn (inner p) in
  match workers (inner p) !! Z.to_nat i with
  | Some (Some _) => Ok tt
  | _ => Err (SendError ("Failed to dispatch to worker " +:+ pretty i +:+ ": Worker "
                         +:+ pretty i +:+ " channel closed"))
  end.

Lemma try_dispatch_spec p t i :
  1 ≤ worker_count (inner p) → length (workers (inner p)) = Z.to_nat (worker_count (inner p)) →
  try_dispatch p t i = Done (handed p t, send_result p).
Proof.
  intros Hc Hl. unfold try_dispatch, pool_dispatch, worker_send.
  rewrite assert_true by (apply negb_true_iff, Z.eqb_neq; lia).
  cbn [set_next workers]. fold (turn (inner p)). unfold handed, send_result.
  assert (0 ≤ turn (inner p) < worker_count (inner p)) as Ht by (apply Z.mod_pos_bound; lia).
  destruct (workers (inner p) !! Z.to_nat (turn (inner p))) as [[l|]|] eqn:E; try done.
  apply lookup_ge_None in E. lia.
Qed.

Lemma handed_identity p t : identity (handed p t) = identity p.
Proof. done. Qed.

Lemma handed_length p t : length (workers (inner (handed p t))) = length (workers (inner p)).
Proof. unfold handed. simpl. destruct (workers _ !! _) as [[l|]|]; try done. apply length_insert. Qed.

Definition dropped (r : result unit QueueError) : bool := negb (is_ok r).

Lemma dispatch_spec q h t :
  queue_inv q → contains_char nul h = false →
  ∃ q', dispatch q h t = Done (q', send_result (pool_for q h)) ∧ queue_inv q' ∧ config q' = config q ∧
    pools q' = <[hash_hostname h := handed (pool_for q h) t]> (pools q) ∧
    tasks_submitted (stats q') = add_u64 (tasks_submitted (stats q)) 1 ∧
    tasks_completed (stats q') = tasks_completed (stats q) ∧
    tasks_dropped (stats q') = (if dropped (send_result (pool_for q h))
                                then add_u64 (tasks_dropped (stats q)) 1 else tasks_dropped (stats q)).
Proof.
  intros Hq Hnul. destruct (get_or_create_spec q h Hq Hnul) as (q1 & E & Hq1 & Hc & Hp & Hs1 & Hs2 & Hs3).
  destruct (pool_for_ok q h Hq) as (Hh & Hid & Hlen). pose proof (qi_wpp _ Hq) as Hw.
  injection Hid as Hi1 Hi2 Hi3 Hi4 Hi5.
  unfold dispatch. rewrite E. cbn [outcome_bind]. rewrite Hp, lookup_insert_eq.
  rewrite assert_true by (apply negb_true_iff, Z.eqb_neq; lia).
  rewrite try_dispatch_spec by (rewrite ?Hi5, ?Hlen; lia || done). cbn [outcome_bind fst snd].
  eexists. split; [done|].
  split; [|split_and!; [exact Hc|cbn; by rewrite Hp, insert_insert_eq|cbn; by rewrite Hs1|done|]].
  - eapply (inv_update q1 _ (hash_hostname h) (pool_for q h) (handed (pool_for q h) t)); try done.
    + by rewrite Hp, lookup_insert_eq.
    + apply handed_length.
  - cbn. rewrite Hs3. by destruct (send_result _).
Qed.

(** The hosts a run dispatches, and the first of them with a given hash. *)
Definition event_hosts (es : list QueueEvent) : list string :=
  omap (λ e, match e with EvDispatch h _ => Some h | _ => None end) es.

Definition first_host (k : Z) (es : list QueueEvent) : option string :=
  head (List.filter (λ h, hash_hostname h =? k) (event_hosts es)).

Definition hosts_ok (es : list QueueEvent) : Prop :=
  Forall (λ h, contains_char nul h = false) (event_hosts es).

Definition drops (rs : list (result unit QueueError)) : Z :=
  Z.of_nat (length (List.filter dropped rs)).

(** One event, then a run of them. *)
Definition step_ok (q : WorkQueue) (es : list QueueEvent) (q' : WorkQueue)
    (rs : list (result unit QueueError)) : Prop :=
  queue_inv q' ∧ config q' = config q ∧
  (∀ k, identity <$> (pools q' !! k) =
        match pools q !! k with
        | Some p => Some (identity p)
        | None => (λ h, identity (fresh_pool q h)) <$> first_host k es
        end) ∧
  tasks_submitted (stats q') mod two64 =
    (tasks_submitted (stats q) + Z.of_nat (length (event_hosts es))) mod two64 ∧
  tasks_completed (stats q') = tasks_completed (stats q) ∧
  tasks_dropped (stats q') mod two64 = (tasks_dropped (stats q) + drops rs) mod two64.

Lemma step_ok_refl q : queue_inv q → step_ok q [] q [].
Proof.
  intros Hq. unfold step_ok, drops. cbn [List.filter length]. change (event_hosts []) with (@nil string).
  split_and!; try done; try (simpl; f_equal; lia).
Qed.

Lemma on_worker_ok q k i f : queue_inv q → step_ok q [] (on_worker q k i f) [].
Proof.
  intros Hq. destruct (step_ok_refl q Hq) as (H1 & H2 & H3 & H4 & H5 & H6).
  unfold on_worker. destruct (pools q !! k) as [p|] eqn:E; [|done].
  split; [|split; [done|split; [|done]]].
  - eapply (inv_update q _ k p); try done. cbn. apply length_alter.
  - intros k'. rewrite <-H3. cbn. destruct (decide (k = k')) as [<-|Hne].
    + by rewrite lookup_insert_eq, E.
    + by rewrite lookup_insert_ne.
Qed.

Lemma add_u64_mod a b : add_u64 a b mod two64 = (a + b) mod two64.
Proof. unfold add_u64, as_u64. by rewrite Z.mod_mod. Qed.

Lemma dispatch_ok q h t :
  queue_inv q → contains_char nul h = false →
  ∃ q' r, dispatch q h t = Done (q', r) ∧ step_ok q [EvDispatch h t] q' [r].
Proof.
  intros Hq Hnul. destruct (dispatch_spec q h t Hq Hnul) as (q' & E & Hq' & Hc & Hp & Hs1 & Hs2 & Hs3).
  exists q', (send_result (pool_for q h)). split; [done|]. unfold step_ok, drops.
  split_and!; [done..| | |done|].
  - intros k. rewrite Hp. unfold first_host. cbn [event_hosts omap list_omap List.filter].
    destruct (hash_hostname h =? k) eqn:Ek.
    + apply Z.eqb_eq in Ek. subst k. rewrite lookup_insert_eq. cbn. rewrite handed_identity.
      unfold pool_for. by destruct (pools q !! hash_hostname h).
    + apply Z.eqb_neq in Ek. rewrite lookup_insert_ne by done. by destruct (pools q !! k).
  - by rewrite Hs1, add_u64_mod.
  - rewrite Hs3. cbn [List.filter]. destruct (dropped _); [by rewrite add_u64_mod|]. f_equal. simpl. lia.
Qed.

Lemma event_hosts_app es1 es2 : event_hosts (es1 ++ es2) = event_hosts es1 ++ event_hosts es2.
Proof. apply omap_app. Qed.

Lemma first_host_app k es1 es2 :
  first_host k (es1 ++ es2) =
  match first_host k es1 with Some h => Some h | None => first_host k es2 end.
Proof.
  unfold first_host. rewrite event_hosts_app, List.filter_app.
  by destruct (List.filter _ (event_hosts es1)).
Qed.

Lemma step_ok_app q q1 q2 es1 es2 rs1 rs2 :
  step_ok q es1 q1 rs1 → step_ok q1 es2 q2 rs2 → step_ok q (es1 ++ es2) q2 (rs1 ++ rs2).
Proof.
  intros (A1 & A2 & A3 & A4 & A5 & A6) (B1 & B2 & B3 & B4 & B5 & B6).
  unfold step_ok, drops in *. rewrite event_hosts_app, List.filter_app, !length_app, !Nat2Z.inj_add, !Z.add_assoc.
  split_and!; [done|congruence| | |congruence|].
  - intros k. rewrite B3, first_host_app. specialize (A3 k).
    destruct (pools q1 !! k) as [p1|] eqn:E1; cbn in A3; rewrite ?A3;
      destruct (pools q !! k); try done; destruct (first_host k es1); try done.
    destruct (first_host k es2) as [h|]; [|done]. cbn. by rewrite (config_fresh q1 q).
  - rewrite B4, <-Z.add_mod_idemp_l, A4, Z.add_mod_idemp_l by done. done.
  - rewrite B6, <-Z.add_mod_idemp_l, A6, Z.add_mod_idemp_l by done. done.
Qed.

Lemma queue_run_ok es : ∀ q,
  queue_inv q → hosts_ok es → ∃ q' rs, queue_run q es = Done (q', rs) ∧ step_ok q es q' rs.
Proof.
  induction es as [|e es IH]; intros q Hq Hes.
  - exists q, []. split; [done|]. by apply step_ok_refl.
  - assert (∃ q1 r1, queue_step q e = Done (q1, r1) ∧ step_ok q [e] q1 r1) as (q1 & r1 & E1 & Hs1).
    { destruct e as [h t|k i|k i]; cbn [queue_step].
      - apply Forall_cons in Hes as [Hh _]. destruct (dispatch_ok q h t Hq Hh) as (q' & r & -> & Hs). by eexists _, _.
      - eexists _, _. split; [done|]. by apply (on_worker_ok q k i).
      - eexists _, _. split; [done|]. by apply (on_worker_ok q k i). }
    assert (hosts_ok es) as Hes'.
    { unfold hosts_ok, event_hosts in *. destruct e; simpl in Hes; [by apply Forall_cons in Hes as [_ Hes]|done..]. }
    destruct (IH q1 (proj1 Hs1) Hes') as (q2 & r2 & E2 & Hs2).
    exists q2, (r1 ++ r2). split.
    + cbn [queue_run]. rewrite E1. cbn [outcome_bind fst snd]. rewrite E2. done.
    + by apply (step_ok_app q q1 q2 [e] es).
Qed.

Lemma new_queue_inv n disk reg q :
  with_vfs_config n disk reg = Done q → 1 ≤ n < two32 →
  queue_inv q ∧ pools q = ∅ ∧ stats q = stats_new ∧ config q = (n, disk, reg).
Proof.
  intros (cp & _ & (cp' & _ & [= <-])%outcome_bind_done)%outcome_bind_done Hn.
  split; [|done]. split; cbn; try done.
Qed.

Lemma first_host_hash k es h : first_host k es = Some h → hash_hostname h = k ∧ h ∈ event_hosts es.
Proof.
  unfold first_host. intros Hh. assert (h ∈ List.filter (λ h, hash_hostname h =? k) (event_hosts es)) as H.
  { destruct (List.filter _ _); [done|]. injection Hh as ->. constructor. }
  apply elem_of_filter_b in H as [H1 H2%Z.eqb_eq]. done.
Qed.

Lemma first_host_None k es : first_host k es = None ↔ k ∉ hash_hostname <$> event_hosts es.
Proof.
  split.
  - unfold first_host. intros Hn (h & -> & Hh)%list_elem_of_fmap.
    assert (h ∈ List.filter (λ h', hash_hostname h' =? hash_hostname h) (event_hosts es)) as Hin
      by (apply elem_of_filter_b; split; [done|apply Z.eqb_refl]).
    destruct (List.filter _ _); [by apply not_elem_of_nil in Hin|done].
  - intros Hk. destruct (first_host k es) as [h|] eqn:E; [|done]. exfalso. apply Hk.
    apply first_host_hash in E as [<- Hh]. by apply list_elem_of_fmap_2.
Qed.

(** The pools of a run from a new queue. *)
Lemma run_pools n disk reg q0 es :
  with_vfs_config n disk reg = Done q0 → 1 ≤ n < two32 → hosts_ok es →
  ∃ q rs, queue_run q0 es = Done (q, rs) ∧ step_ok q0 es q rs ∧
    ∀ k, identity <$> (pools q !! k) = (λ h, identity (fresh_pool q0 h)) <$> first_host k es.
Proof.
  intros Hnew Hn Hes. destruct (new_queue_inv _ _ _ _ Hnew Hn) as (Hq & Hp & _).
  destruct (queue_run_ok es q0 Hq Hes) as (q & rs & E & Hs). exists q, rs. split_and!; [done..|].
  intros k. destruct Hs as (_ & _ & Hs & _). by rewrite Hs, Hp, lookup_empty.
Qed.

Lemma run_pool n disk reg q0 es h h0 :
  with_vfs_config n disk reg = Done q0 → 1 ≤ n < two32 → hosts_ok es →
  first_host (hash_hostname h) es = Some h0 →
  ∃ q rs p, queue_run q0 es = Done (q, rs) ∧ get_pool q h = Some p ∧
    hostname p = h0 ∧ pool_hostname (inner p) = h0 ∧ vfs_backend (inner p) = backend_for q0 h0 ∧
    pool_env (inner p) = env_for q0 h0.
Proof.
  intros Hnew Hn Hes Hh. destruct (run_pools n disk reg q0 es Hnew Hn Hes) as (q & rs & E & _ & Hp).
  specialize (Hp (hash_hostname h)). rewrite Hh in Hp. unfold get_pool.
  destruct (pools q !! hash_hostname h) as [p|] eqn:Ep; cbn in Hp; [|done]. injection Hp as H1 H2 H3 H4 H5 H6.
  exists q, rs, p. done.
Qed.
End queue.

(** ** Properties *)

Section properties.
Variable disk_new : string → VfsResult unit.
Variable os_exists os_is_dir : string → bool.
Context {Sliver : Type} {LC : Lowercase} {DH : DefaultHasher} {HO : HashOrder unit}.
Notation WQ := (@WorkQueue Sliver).
Notation run := (queue_run (Sliver := Sliver) disk_new os_exists os_is_dir).
Notation backend_of := (backend_for (Sliver := Sliver) disk_new os_exists os_is_dir).

(** C10. The first request decides: after any run, the requests for a host are
    served by the pool made for the first host dispatched with the same hash;
    that host alone decides the pool's backend, environment and file-system
    namespace, for good.  If no other host of the run has the same hash, that
    namespace is the host's own. *)
Theorem pool_of_first_host n disk reg (q0 : WQ) es h :
  with_vfs_config n disk reg = Done q0 → 1 ≤ n < two32 → hosts_ok es →
  ∃ q rs, run q0 es = Done (q, rs) ∧
    match first_host (hash_hostname h) es with
    | None => get_pool q h = None
    | Some h0 => ∃ p, get_pool q h = Some p ∧ hostname p = h0 ∧
        vfs_backend (inner p) = backend_of q0 h0 ∧ pool_env (inner p) = env_for q0 h0 ∧
        pool_namespace (inner p) = from_hostname h0 ∧
        ((∀ h', h' ∈ event_hosts es → hash_hostname h' = hash_hostname h →
                to_lowercase h' = to_lowercase h) →
         pool_namespace (inner p) = from_hostname h)
    end.
Proof.
  intros Hnew Hn Hes. destruct (first_host (hash_hostname h) es) as [h0|] eqn:E.
  - destruct (run_pool disk_new os_exists os_is_dir n disk reg q0 es h h0 Hnew Hn Hes E)
      as (q & rs & p & Hr & Hg & H1 & H2 & H3 & H4).
    exists q, rs. split; [done|]. exists p. unfold pool_namespace. rewrite H2. split_and!; try done.
    intros Hinj. apply first_host_hash in E as [Eh Hin]. unfold from_hostname. by rewrite (Hinj h0).
  - destruct (run_pools disk_new os_exists os_is_dir n disk reg q0 es Hnew Hn Hes) as (q & rs & Hr & _ & Hp).
    exists q, rs. split; [done|]. unfold get_pool. specialize (Hp (hash_hostname h)). rewrite E in Hp.
    by destruct (pools q !! hash_hostname h).
Qed.

(** Pools are found by the lower-case hash but configured by the exact
    spelling: if the first request of an application writes its name in another
    letter case, every later request of that application, correctly spelled or
    not, is served without its environment and on the fallback backend instead
    of its own. *)
Theorem respelled_host_takes_over n disk reg (q0 : WQ) es h spelled c :
  with_vfs_config n disk reg = Done q0 → 1 ≤ n < two32 → hosts_ok es →
  registered_app q0 h = Some c → registered_app q0 spelled = None →
  to_lowercase spelled = to_lowercase h →
  first_host (hash_hostname h) es = Some spelled →
  ∃ q rs p, run q0 es = Done (q, rs) ∧ get_pool q h = Some p ∧
    pool_env (inner p) = None ∧
    vfs_backend (inner p) = match disk with Some d => disk_or_memory disk_new d | None => Memory end ∧
    pool_namespace (inner p) = from_hostname h ∧
    env_for q0 h = Some (Config.ModRs.env_vars c) ∧
    backend_of q0 h = app_backend disk_new os_exists os_is_dir c.
Proof.
  intros Hnew Hn Hes Hc Hsp Hlow E.
  destruct (run_pool disk_new os_exists os_is_dir n disk reg q0 es h spelled Hnew Hn Hes E)
    as (q & rs & p & Hr & Hg & H1 & H2 & H3 & H4).
  destruct (new_queue_inv disk_new os_exists os_is_dir _ _ _ _ Hnew Hn) as (_ & _ & _ & [= _ Hd _]).
  exists q, rs, p. unfold env_for in H4. unfold backend_for in H3. rewrite Hsp in H3, H4.
  unfold pool_namespace, from_hostname. rewrite H2, Hlow. rewrite Hd in H3.
  unfold env_for, backend_for. rewrite Hc. done.
Qed.

(** What dispatching does, after any run: it always returns, hands the task
    to the worker whose turn it is in the pool of the host's hash (made if
    missing) and to no other, and fails exactly when that thread has ended.  It
    never reports a full channel. *)
Theorem dispatch_exact n disk reg (q0 : WQ) es h t :
  with_vfs_config n disk reg = Done q0 → 1 ≤ n < two32 → hosts_ok es → contains_char nul h = false →
  ∃ q rs q' r, run q0 es = Done (q, rs) ∧
    dispatch disk_new os_exists os_is_dir q h t = Done (q', r) ∧
    let p := pool_for disk_new os_exists os_is_dir q h in
    r = send_result p ∧ pools q' = <[hash_hostname h := handed p t]> (pools q) ∧
    0 ≤ turn (inner p) < n ∧
    (is_ok r = true ↔ ∃ l, workers (inner p) !! Z.to_nat (turn (inner p)) = Some (Some l)) ∧
    r ≠ Err ChannelFull.
Proof.
  intros Hnew Hn Hes Hh.
  destruct (run_pools disk_new os_exists os_is_dir n disk reg q0 es Hnew Hn Hes) as (q & rs & Hr & (Hq & Hc & _) & _).
  destruct (dispatch_spec disk_new os_exists os_is_dir q h t Hq Hh) as (q' & E & _ & _ & Hp & _).
  destruct (new_queue_inv disk_new os_exists os_is_dir _ _ _ _ Hnew Hn) as (_ & _ & _ & [= Hw _ _]).
  assert (workers_per_pool q = n) as Hwq by (injection Hc; congruence).
  exists q, rs, q', (send_result (pool_for disk_new os_exists os_is_dir q h)). cbv zeta.
  assert (0 ≤ turn (inner (pool_for disk_new os_exists os_is_dir q h)) < n) as Ht.
  { destruct (pool_for_ok disk_new os_exists os_is_dir q h Hq) as (_ & Hid & _).
    injection Hid as _ _ _ _ H6. unfold turn. rewrite H6. simpl. rewrite Hwq.
    apply Z.mod_pos_bound. lia. }
  split; [done|]. split; [done|]. split; [done|]. split; [done|]. split; [done|].
  unfold send_result. split.
  - destruct (workers _ !! _) as [[l|]|]; simpl; naive_solver.
  - by destruct (workers _ !! _) as [[l|]|].
Qed.

(** The statistics of a run: submitted tasks are the dispatches and dropped
    ones the failures, modulo the counter width; the active pools are the
    distinct hashes seen, the active workers that many times the pool size; the
    number of completed tasks stays zero whatever the workers do. *)
Theorem queue_stats_exact n disk reg (q0 : WQ) es :
  with_vfs_config n disk reg = Done q0 → 1 ≤ n < two32 → hosts_ok es →
  ∃ q rs, run q0 es = Done (q, rs) ∧
    let distinct := Z.of_nat (size (list_to_set (hash_hostname <$> event_hosts es) : gset Z)) in
    tasks_submitted (stats q) mod two64 = Z.of_nat (length (event_hosts es)) mod two64 ∧
    tasks_dropped (stats q) mod two64 = Z.of_nat (length (List.filter (λ r, negb (is_ok r)) rs)) mod two64 ∧
    tasks_completed (stats q) = 0 ∧
    active_pools (stats q) = distinct mod two32 ∧
    active_workers (stats q) = (distinct * n) mod two32.
Proof.
  intros Hnew Hn Hes.
  destruct (run_pools disk_new os_exists os_is_dir n disk reg q0 es Hnew Hn Hes)
    as (q & rs & Hr & (Hq & Hc & _ & H1 & H2 & H3) & Hp).
  destruct (new_queue_inv disk_new os_exists os_is_dir _ _ _ _ Hnew Hn) as (_ & _ & Hs & [= Hw _ _]). rewrite Hs in H1, H2, H3.
  assert (workers_per_pool q = n) as Hwq by (injection Hc; congruence).
  assert (size (pools q) = size (list_to_set (hash_hostname <$> event_hosts es) : gset Z)) as Hsize.
  { rewrite <-size_dom. f_equal. apply set_eq. intros k.
    rewrite elem_of_dom, elem_of_list_to_set. specialize (Hp k).
    pose proof (first_host_None k es) as Hf. destruct (pools q !! k), (first_host k es); try done.
    - split; [intros _|by eexists]. destruct (decide (k ∈ hash_hostname <$> event_hosts es)) as [|Hk]; [done|].
      by apply Hf in Hk.
    - split; [by intros [? ?]|]. intros Hk. by destruct (proj1 Hf eq_refl). }
  exists q, rs. destruct (qi_active _ _ _ q Hq) as [Ha1 Ha2]. rewrite Hwq, Hsize in *. split_and!; try done.
Qed.
End properties.

(** *** Round robin *)

Fixpoint pool_run (p : WorkerPool) (ts : list HandlerTask)
  : outcome (WorkerPool * list (result unit string)) :=
  match ts with
  | [] => Done (p, [])
  | t :: ts' =>
    let! r := pool_dispatch p t in
    let! r' := pool_run r.1 ts' in
    Done (r'.1, r.2 :: r'.2)
  end.

(** Every [c]-th task, from the [i]-th. *)
Definition share (i c : Z) (ts : list HandlerTask) : list HandlerTask :=
  omap (λ jt : nat * HandlerTask, if Z.of_nat jt.1 mod c =? i then Some jt.2 else None) (imap pair ts).

Lemma share_snoc i c ts t :
  share i c (ts ++ [t]) = share i c ts ++ (if Z.of_nat (length ts) mod c =? i then [t] else []).
Proof.
  unfold share. rewrite imap_app, omap_app. f_equal. simpl. rewrite Nat.add_0_r.
  by destruct (_ =? i).
Qed.

Lemma length_share i c ts :
  0 ≤ i < c → Z.of_nat (length (share i c ts)) = (Z.of_nat (length ts) + c - 1 - i) / c.
Proof.
  intros Hi. induction ts as [|t ts IH] using rev_ind.
  - simpl. rewrite Z.div_small; lia.
  - rewrite share_snoc, !length_app, !Nat2Z.inj_add, IH. simpl length. set (n := Z.of_nat (length ts)).
    assert (0 ≤ n) as Hn by lia. pose proof (Z.div_mod n c). pose proof (Z.mod_pos_bound n c).
    destruct (n mod c =? i) eqn:E; [apply Z.eqb_eq in E|apply Z.eqb_neq in E].
    + rewrite <-(Z.div_unique (n + c - 1 - i) c (n / c) (c - 1)) by lia.
      rewrite <-(Z.div_unique (n + Z.of_nat 1 + c - 1 - i) c (n / c + 1) 0) by lia. simpl. lia.
    + simpl. rewrite Z.add_0_r. destruct (decide (n mod c < i)).
      * rewrite <-(Z.div_unique (n + c - 1 - i) c (n / c) (c - 1 - i + n mod c)) by lia.
        apply Z.div_unique_pos with (c - i + n mod c); lia.
      * rewrite <-(Z.div_unique (n + c - 1 - i) c (n / c + 1) (n mod c - 1 - i)) by lia.
        apply Z.div_unique_pos with (n mod c - i); lia.
Qed.

Lemma pool_run_app ts1 : ∀ ts2 p,
  pool_run p (ts1 ++ ts2) =
  (let! r := pool_run p ts1 in let! r' := pool_run r.1 ts2 in Done (r'.1, r.2 ++ r'.2)).
Proof.
  induction ts1 as [|t ts1 IH]; intros ts2 p; simpl.
  - by destruct (pool_run p ts2) as [[? ?]|].
  - destruct (pool_dispatch p t) as [[p1 r1]|]; [|done]. simpl. rewrite IH.
    destruct (pool_run p1 ts1) as [[p2 r2]|]; [|done]. simpl. by destruct (pool_run p2 ts2) as [[? ?]|].
Qed.

Lemma round_robin_state c p ts :
  1 ≤ c → worker_count p = c → next_worker p = 0 → workers p = replicate (Z.to_nat c) (Some []) →
  Z.of_nat (length ts) ≤ two32 →
  ∃ p', pool_run p ts = Done (p', replicate (length ts) (Ok tt)) ∧ worker_count p' = c ∧
    next_worker p' = Z.of_nat (length ts) mod two32 ∧ length (workers p') = Z.to_nat c ∧
    ∀ i, 0 ≤ i < c → workers p' !! Z.to_nat i = Some (Some (share i c ts)).
Proof.
  intros Hc Hw Hn Hws. induction ts as [|t ts IH] using rev_ind; intros Hlen.
  { exists p. split_and!; try done; [by rewrite Hws, length_replicate|].
    intros i Hi. rewrite Hws. apply lookup_replicate. split; [done|lia]. }
  rewrite length_app in *. simpl in Hlen.
  destruct IH as (p1 & E & Hw1 & Hn1 & Hl1 & Hi1); [lia|]. set (n := Z.of_nat (length ts)) in *.
  rewrite pool_run_app, E. cbn [outcome_bind pool_run fst].
  unfold pool_dispatch. rewrite assert_true by (apply negb_true_iff, Z.eqb_neq; lia).
  assert (next_worker p1 mod worker_count p1 = n mod c) as -> by (rewrite Hn1, Hw1, (Z.mod_small n two32); lia).
  assert (0 ≤ n mod c < c) as Hr by (apply Z.mod_pos_bound; lia).
  unfold worker_send. cbn [set_next workers]. rewrite (Hi1 _ Hr). cbn [outcome_bind fst snd].
  eexists. split; [by rewrite replicate_add|]. split; [exact Hw1|]. split; [|split].
  - cbn. rewrite Hn1. unfold add_u32, as_u32. rewrite Z.add_mod_idemp_l by done. f_equal. lia.
  - cbn. by rewrite length_insert.
  - intros i Hi. cbn. rewrite share_snoc. fold n. destruct (n mod c =? i) eqn:Ei.
    + apply Z.eqb_eq in Ei. rewrite <-Ei at 1. rewrite list_lookup_insert_eq by lia. by rewrite Ei.
    + apply Z.eqb_neq in Ei. rewrite list_lookup_insert_ne by lia. rewrite app_nil_r. by apply Hi1.
Qed.

(** Round robin, without backpressure: handing up to 2^32 tasks to a new
    pool of [c] running workers that have not received any yet always succeeds;
    worker [i] gets exactly the tasks [i], [i + c], [i + 2c], ... in order, so
    the queues differ by at most one task and nothing bounds their length. *)
Theorem pool_round_robin env h c b ts :
  1 ≤ c → Z.of_nat (length ts) ≤ two32 →
  ∃ p p', with_source_and_backend env h c b = Done p ∧
    pool_run p ts = Done (p', replicate (length ts) (Ok tt)) ∧
    ∀ i, 0 ≤ i < c →
      workers p' !! Z.to_nat i = Some (Some (share i c ts)) ∧
      Z.of_nat (length (share i c ts)) = (Z.of_nat (length ts) + c - 1 - i) / c.
Proof.
  intros Hc Hlen. unfold with_source_and_backend. rewrite assert_true by (apply Z.gtb_lt; lia).
  destruct (round_robin_state c (mkPool (replicate (Z.to_nat c) (Some [])) c h 0 b env) ts)
    as (p' & E & _ & _ & _ & Hi); try done.
  eexists _, p'. split; [done|]. split; [done|]. intros i Hr. split; [by apply Hi|by apply length_share].
Qed.

(** ** Witnesses *)

#[local] Instance demo_lower : Lowercase := ascii_Lowercase.
#[local] Instance demo_hasher : DefaultHasher :=
  {| hash_str s := slen s * 31; hash_instant z := z |}.
#[local] Instance demo_order : HashOrder unit := plain_order.

(** One application, with an environment, in a queue of two workers per pool. *)
Definition demo_app : Config.ModRs.AppConfig :=
  Config.ModRs.mkApp "api.example.com" "/srv/api/app.js" None {["KEY" := "v"]}
    Config.ModRs.default_limits Config.BMemory None None.
Definition demo_registry : @Registry.AppRegistry unit :=
  Registry.registry_new {["api.example.com" := demo_app]}.
Definition demo_queue : @WorkQueue unit :=
  match with_vfs_config 2 None (Some demo_registry) with
  | Done q => q
  | Panicked _ => mkQueue ∅ 0 0 stats_new None None None ∅
  end.
Definition demo_dispatch (host : string) : QueueEvent := EvDispatch host (demo_task host 1).

Definition wait_ok (_ : string) : VfsResult unit := Ok tt.
Definition no_dir (_ : string) : bool := false.

Lemma pool_of_first_host_witness :
  ∃ q rs p, queue_run wait_ok no_dir no_dir demo_queue [demo_dispatch "api.example.com"] = Done (q, rs) ∧
    get_pool q "API.example.com" = Some p ∧ vfs_backend (inner p) = Disk "/srv/api" ∧
    pool_env (inner p) = Some {["KEY" := "v"]}.
Proof.
  destruct (pool_of_first_host wait_ok no_dir no_dir 2 None (Some demo_registry) demo_queue
              [demo_dispatch "api.example.com"] "API.example.com")
    as (q & rs & E & p & Hp & _ & Hb & He & _).
  - vm_compute. reflexivity.
  - done.
  - repeat constructor.
  - exists q, rs, p. split; [exact E|]. split; [exact Hp|].
    split; [rewrite Hb; vm_compute; reflexivity|rewrite He; vm_compute; reflexivity].
Defined.

Lemma respelled_host_takes_over_witness :
  ∃ q rs p, queue_run wait_ok no_dir no_dir demo_queue
      [demo_dispatch "API.example.com"; demo_dispatch "api.example.com"] = Done (q, rs) ∧
    get_pool q "api.example.com" = Some p ∧ pool_env (inner p) = None ∧
    vfs_backend (inner p) = Memory.
Proof.
  destruct (respelled_host_takes_over wait_ok no_dir no_dir 2 None (Some demo_registry) demo_queue
              [demo_dispatch "API.example.com"; demo_dispatch "api.example.com"]
              "api.example.com" "API.example.com" demo_app)
    as (q & rs & p & E & Hp & He & Hb & _); try (vm_compute; reflexivity); [done|repeat constructor|].
  exists q, rs, p. exact (conj E (conj Hp (conj He Hb))).
Defined.

Lemma dispatch_exact_witness :
  ∃ q rs q' r, queue_run wait_ok no_dir no_dir demo_queue [demo_dispatch "b.org"] = Done (q, rs) ∧
    dispatch wait_ok no_dir no_dir q "b.org" (demo_task "b.org" 2) = Done (q', r) ∧ r ≠ Err ChannelFull.
Proof.
  destruct (dispatch_exact wait_ok no_dir no_dir 2 None (Some demo_registry) demo_queue
              [demo_dispatch "b.org"] "b.org" (demo_task "b.org" 2))
    as (q & rs & q' & r & E & Hd & _ & _ & _ & _ & Hr);
    [vm_compute; reflexivity|done|repeat constructor|done|].
  exists q, rs, q', r. exact (conj E (conj Hd Hr)).
Defined.

Lemma queue_stats_exact_witness :
  ∃ q rs, queue_run wait_ok no_dir no_dir demo_queue
      [demo_dispatch "b.org"; demo_dispatch "B.org"; demo_dispatch "api.example.com"] = Done (q, rs) ∧
    active_pools (stats q) = 2 ∧ active_workers (stats q) = 4 ∧ tasks_completed (stats q) = 0.
Proof.
  destruct (queue_stats_exact wait_ok no_dir no_dir 2 None (Some demo_registry) demo_queue
              [demo_dispatch "b.org"; demo_dispatch "B.org"; demo_dispatch "api.example.com"])
    as (q & rs & E & _ & _ & Hc & Hp & Hw); [vm_compute; reflexivity|done|repeat constructor|].
  exists q, rs. rewrite Hp, Hw. split; [exact E|].
  split; [vm_compute; reflexivity|]. split; [vm_compute; reflexivity|exact Hc].
Defined.

Lemma pool_round_robin_witness :
  ∃ p p', with_source_and_backend None "b.org" 2 Memory = Done p ∧
    pool_run p (map (demo_task "b.org") [1; 2; 3]) = Done (p', [Ok tt; Ok tt; Ok tt]) ∧
    workers p' !! 0%nat = Some (Some [demo_task "b.org" 1; demo_task "b.org" 3]).
Proof.
  destruct (pool_round_robin None "b.org" 2 Memory (map (demo_task "b.org") [1; 2; 3]))
    as (p & p' & Hp & Hr & Hi); [done..|].
  exists p, p'. destruct (Hi 0) as [H0 _]; [done|]. split_and!; [done|done|exact H0].
Defined.
