(* ===== verification/Server.v ===== *)
(** * [src/http/server.rs], [src/vfs/loader.rs] and the request handler of
      [src/http/router.rs]: from a configuration to answers

    [start_server_with_config] up to listening: the routes, the registry and the
    work queue; and [dispatch_to_worker_pool] for one request.  A directory of
    the file system is the tree the system calls report; parsing the URL, reading
    the body, the WebSocket handshake and what a worker answers are inputs. *)

From stdpp Require Import base gmap list strings.
From Stdlib Require Import Ascii ZArith Lia.
From S2P Require Import Prelude RustString RustList VfsPath VfsBackend VfsMemory VfsIsolate HttpHeaders Router.
From S2P Require Config ConfigProps Registry ControlPlane WorkQueue Limits.

Open Scope Z_scope.

(** ** Loading a directory *)

(** A directory entry; an error carries the system's message. *)
Inductive node :=
| NFile (display : string) (content : result (list Z) string)
| NDir (entries : result (list (string * node)) string)
| NSymlink
| NOther.

Definition child_path (mount_point file_name : string) : string :=
  if ends_with_char slash mount_point then mount_point +:+ file_name
  else if String.eqb mount_point "/" then "/" +:+ file_name
  else mount_point +:+ "/" +:+ file_name.

(** The body of the loop for one entry, recursive on sub-directories, with the
    clock of the writes; the number of files loaded, or the first error. *)
Fixpoint load_node (now : Z) (ns : string) (vfs_path : string) (n : node) (b : MemoryBackend)
  : outcome (MemoryBackend * VfsResult Z) :=
  match n with
  | NSymlink | NOther => Done (b, Ok 0)
  | NFile display (Err e) =>
    Done (b, Err (IoError ("Failed to read file '" +:+ display +:+ "': " +:+ e)))
  | NFile _ (Ok content) =>
    let! r := iv_write now ns b vfs_path content in
    Done (r.1, match r.2 with Ok _ => Ok 1 | Err e => Err e end)
  | NDir (Err e) => Done (b, Err (IoError ("Failed to read directory: " +:+ e)))
  | NDir (Ok entries) =>
    (fix go (l : list (string * node)) (b : MemoryBackend) (count : Z) :=
       match l with
       | [] => Done (b, Ok count)
       | (name, n') :: l' =>
         let! r := load_node now ns (child_path vfs_path name) n' b in
         match r.2 with
         | Err e => Done (r.1, Err e)
         | Ok k => go l' r.1 (add_u64 count k)
         end
       end) entries b 0
  end.

(** [load_directory_to_vfs]; [root] is what [source_dir] names, if anything. *)
Definition load_directory_to_vfs (now : Z) (ns : string) (b : MemoryBackend) (source_dir : string)
    (root : option node) (mount_point : string) : outcome (MemoryBackend * VfsResult Z) :=
  match root with
  | None => Done (b, Err (InvalidPath source_dir "Source directory does not exist"))
  | Some (NDir _ as n) => load_node now ns mount_point n b
  | Some _ => Done (b, Err (InvalidPath source_dir "Source path is not a directory"))
  end.

(** ** The routes of a configuration *)

(** A response body is a string of its bytes. *)
Definition string_of_bytes (l : list Z) : string :=
  foldr (λ z s, String (ascii_of_N (Z.to_N z)) s) "" l.

Section server.
Context {LC : Lowercase} {HO : HashOrder unit} {DH : DefaultHasher} {Sliver : Type}.
Variable os : OsReads.
Variable os_root : string → option node.

Definition type_of_path (p : string) : string :=
  content_type_from_ext (default "" (path_extension p)).

(** The map of a packaged directory, from the backend's entries. *)
Definition files_of (b : MemoryBackend) : gmap string (string * string) :=
  foldl (λ m e, <[as_str e.1 := (string_of_bytes (content e.2), type_of_path (as_str e.1))]> m)
        ∅ (snapshot_entries b).

(** The body of the loop over the applications. *)
Definition route_of (now : Z) (app : Config.ModRs.AppConfig) : outcome RouteTarget :=
  let h := Config.ModRs.hostname app in
  let e := Config.ModRs.entrypoint app in
  match Config.ModRs.sliver app with
  | Some _ =>
    match detect_entrypoint_type os e with
    | JavaScript _ => Done (mkTarget h (WinterTCSliverHandler e h))
    | StaticFileEntry path => Done (mkTarget h (StaticFile path (type_of_path path)))
    | StaticDirEntry root =>
      let! r := load_directory_to_vfs now (from_hostname h) new_backend root (os_root root) "/" in
      match r.2 with
      | Ok _ => Done (mkTarget h (VfsStaticFiles (files_of r.1) (Some "index.html")))
      | Err _ => Done (mkTarget h (StaticDir root "index.html"))
      end
    end
  | None =>
    match detect_entrypoint_type os e with
    | JavaScript path => Done (mkTarget h (WinterTCHandler path))
    | StaticFileEntry path => Done (mkTarget h (StaticFile path (type_of_path path)))
    | StaticDirEntry root => Done (mkTarget h (StaticDir root "index.html"))
    end
  end.

Fixpoint register_apps (now : Z) (r : VirtualHostRouter) (apps : list Config.ModRs.AppConfig)
  : outcome VirtualHostRouter :=
  match apps with
  | [] => Done r
  | a :: apps' =>
    let! t := route_of now a in
    register_apps now (register r (Config.ModRs.hostname a) t) apps'
  end.

(** The target of hosts that are not configured. *)
Definition unknown_target : RouteTarget := mkTarget "default" (StaticResponse "").

(** The disk configuration of the first application that has one. *)
Fixpoint find_disk_config (apps : list Config.ModRs.AppConfig) : option Config.VfsDiskConfig :=
  match apps with
  | [] => None
  | a :: apps' =>
    match Config.ModRs.vfs_backend a, Config.ModRs.vfs_disk a with
    | Config.BDisk, Some d => Some d
    | _, _ => find_disk_config apps'
    end
  end.

Definition find_workers (apps : list Config.ModRs.AppConfig) : Z :=
  match apps with
  | a :: _ =>
    let w := Config.ModRs.workers (Config.ModRs.limits a) in
    if w >? 0 then w else 4
  | [] => 4
  end.

Record AppState := mkState {
  router : VirtualHostRouter;
  work_queue : @WorkQueue.WorkQueue Sliver;
  state_registry : option (@Registry.AppRegistry Sliver);
}.

(** [AppState::with_vfs_config] *)
Definition state_with_vfs_config (r : VirtualHostRouter) (workers_per_pool : Z)
    (disk : option Config.VfsDiskConfig) (reg : option (@Registry.AppRegistry Sliver))
  : outcome AppState :=
  let! q := WorkQueue.with_vfs_config workers_per_pool disk reg in
  Done (mkState r q reg).

(** [start_server_with_config], until it listens. *)
Definition start_server_with_config (now : Z) (c : Config.ModRs.NanoConfig) : outcome AppState :=
  let registry := Registry.from_config c in
  let! r := register_apps now (router_new unknown_target) (Config.ModRs.apps c) in
  let disk_config := find_disk_config (Config.ModRs.apps c) in
  let workers_per_pool := find_workers (Config.ModRs.apps c) in
  state_with_vfs_config r workers_per_pool disk_config (Some registry).

(** ** [dispatch_to_worker_pool] *)

Variable disk_new : string → VfsResult unit.
Variable os_exists os_is_dir : string → bool.

(** [NanoUrl::parse]: the text and the path of the URL, if it is one. *)
Variable parse_url : string → option (string * string).
Variable run_js : string → NanoRequest → JsOutcome.

(** An HTTP request as the handler reads it, with the identifier the handler
    draws, the identity of its reply channel and whether the WebSocket handshake
    succeeds. *)
Record Incoming := mkIncoming {
  host_header : option string;
  upgrade_header : option string;
  in_method : string;
  uri_text : option string;          (** the whole URI, if it has a scheme *)
  path_and_query : option string;
  axum_headers : list (string * option string);
  read_body : option string;         (** [None]: an error, or over 1 MB *)
  in_request_id : string;
  reply_channel : Z;
  ws_handshake : bool;
}.

(** What comes back over the reply channel. *)
Inductive WorkerAnswer :=
| Answered (r : NanoResponse)
| HandlerError (e : string)
| ChannelClosed.

Inductive Reply :=
| FromNano (r : NanoResponse)
| Plain (reply_status : Z) (reply_headers : list (string * string)) (reply_body : string)
| Upgraded.

Definition text_plain (s : Z) (b : string) : Reply := Plain s [("content-type", "text/plain")] b.

Definition json_bad_request (message : string) : Reply :=
  Plain 400 [("content-type", "application/json")]
    ("{" +:+ quote +:+ "error" +:+ quote +:+ ":" +:+ quote +:+ "BadRequest" +:+ quote +:+ ","
     +:+ quote +:+ "message" +:+ quote +:+ ":" +:+ quote +:+ message +:+ quote +:+ ","
     +:+ quote +:+ "code" +:+ quote +:+ ":400}").

Definition control_error_display (e : ControlPlane.ControlError) : string :=
  match e with
  | ControlPlane.ValidationError e => "Validation error: " +:+ e
  | ControlPlane.TenantNotFound t => "Tenant not found: " +:+ t
  | ControlPlane.LimitExceeded l => "Limit exceeded: " +:+ l
  | ControlPlane.NotInitialized => "Control plane not initialized"
  | ControlPlane.QueueFull => "Batch queue full"
  | ControlPlane.DispatchError e => "Dispatch error: " +:+ e
  end.

(** The entrypoint of a target that runs JavaScript. *)
Definition js_entrypoint (t : RouteTarget) : option string :=
  match handler_type t with
  | WinterTCHandler path => Some path
  | WinterTCSliverHandler entrypoint _ => Some entrypoint
  | _ => None
  end.

Definition full_url (i : Incoming) (host : string) : string :=
  match uri_text i with
  | Some u => u
  | None => "http://" +:+ host +:+ default "/" (path_and_query i)
  end.

Definition nonempty_body (b : string) : option string := if is_empty b then None else Some b.

Definition task_of (i : Incoming) (host entrypoint : string) (body : option string) (limit now : Z)
    (id : string) : ControlPlane.HandlerTask :=
  ControlPlane.mkTask entrypoint (in_method i) (slen <$> body) (reply_channel i) host now limit id 0.

Definition wants_websocket (i : Incoming) : bool :=
  match upgrade_header i with
  | Some s => String.eqb (ascii_lowercase s) "websocket"
  | None => false
  end.

Definition set_queue (st : AppState) (q : @WorkQueue.WorkQueue Sliver) : AppState :=
  mkState (router st) q (state_registry st).

(** [handle_ws_upgrade]; [id] is the identifier it draws. *)
Definition handle_ws_upgrade (st : AppState) (i : Incoming) (host : string) (now : Z) (id : string)
  : outcome (AppState * Reply) :=
  match js_entrypoint (resolve (router st) host) with
  | None => Done (st, text_plain 403 "WebSocket not supported for static handlers")
  | Some entrypoint =>
    if negb (ws_handshake i) then Done (st, text_plain 400 "WebSocket upgrade failed")
    else match parse_url ("http://" +:+ host +:+ default "/" (path_and_query i)) with
    | None => Done (st, text_plain 400 "Bad Request")
    | Some _ =>
      let limit := get_cpu_time_limit_ms (state_registry st) host in
      let! r := WorkQueue.dispatch disk_new os_exists os_is_dir (work_queue st) host
                  (task_of i host entrypoint None limit now id) in
      Done (set_queue st r.1,
            match r.2 with
            | Ok _ => Upgraded
            | Err WorkQueue.ChannelFull =>
              Plain 503 [("Retry-After", "1"); ("content-type", "text/plain")]
                    "WebSocket connection limit reached"
            | Err _ => text_plain 500 "Internal Server Error"
            end)
    end
  end.

(** The reply to what dispatching gave, waiting for the worker's answer. *)
Definition reply_of (r : result unit WorkQueue.QueueError) (answer : WorkerAnswer) : Reply :=
  match r with
  | Ok _ =>
    match answer with
    | Answered resp => FromNano resp
    | HandlerError _ | ChannelClosed => text_plain 500 "Internal Server Error"
    end
  | Err WorkQueue.ChannelFull =>
    Plain 503 [("Retry-After", "1"); ("content-type", "text/plain")] "Service Unavailable - Queue Full"
  | Err _ => text_plain 500 "Internal Server Error"
  end.

(** The end of the handler, from the lock of the queue on. *)
Definition enqueue (st : AppState) (host : string) (t : ControlPlane.HandlerTask) (answer : WorkerAnswer)
  : outcome (AppState * Reply) :=
  let! q := WorkQueue.queue_ensure_tenant (work_queue st) host in
  let! valid := match WorkQueue.control_plane q with
                | Some cp => ControlPlane.validate_request_ref cp t
                | None => Done (Ok tt)
                end in
  match valid with
  | Err e => Done (set_queue st q, text_plain 400 ("Validation error: " +:+ control_error_display e))
  | Ok _ =>
    let! r := WorkQueue.dispatch disk_new os_exists os_is_dir q host t in
    Done (set_queue st r.1, reply_of r.2 answer)
  end.

Definition dispatch_to_worker_pool (st : AppState) (i : Incoming) (now : Z) (answer : WorkerAnswer)
  : outcome (AppState * Reply) :=
  let host := request_host (host_header i) in
  if wants_websocket i then handle_ws_upgrade st i host now (in_request_id i)
  else match parse_url (full_url i host) with
  | None => Done (st, json_bad_request "Invalid URL")
  | Some (url, path) =>
    match read_body i with
    | None => Done (st, json_bad_request "Failed to read body")
    | Some b =>
      let body := nonempty_body b in
      let request := mkRequest (in_method i) url path (from_axum_headers (axum_headers i)) body in
      let target := resolve (router st) host in
      match js_entrypoint target with
      | None => Done (st, FromNano (handle run_js os target request))
      | Some entrypoint =>
        let limit := get_cpu_time_limit_ms (state_registry st) host in
        enqueue st host (task_of i host entrypoint body limit now (in_request_id i)) answer
      end
    end
  end.
End server.

(** ** Lemmas *)

Lemma node_rect_list (P : node → Prop) :
  (∀ d c, P (NFile d c)) → (∀ e, P (NDir (Err e))) →
  (∀ l, Forall (λ e : string * node, P e.2) l → P (NDir (Ok l))) → P NSymlink → P NOther →
  ∀ n, P n.
Proof.
  intros Hf He Hd Hs Ho. fix IH 1. intros [d c|[l|e]| |]; [apply Hf| |apply He|apply Hs|apply Ho].
  apply Hd. induction l as [|[name n'] l IHl]; constructor; [apply (IH n')|exact IHl].
Qed.

(** *** Loading keeps to the namespace *)

(** Every stored path is in the namespace. *)
Definition all_in_ns (ns : string) (b : MemoryBackend) : Prop :=
  ∀ k, is_Some (view b !! k) → ∃ p, k = ns +:+ ("::" +:+ p).

Lemma iv_write_in_ns now ns b path c :
  good_ns ns → mem_inv b → all_in_ns ns b →
  ∃ b' r, iv_write now ns b path c = Done (b', r) ∧ mem_inv b' ∧ all_in_ns ns b'.
Proof.
  intros Hns Hb Ha. unfold iv_write. destruct (prefix_namespace ns path) as [q|e] eqn:E; [|by exists b, (Err e)].
  destruct (prefix_namespace_ok _ _ _ Hns E) as (p & Hp & Hq & Hwq).
  destruct (@bk_write_view MemoryBackend memory_backend memory_backend_laws now b q c Hb Hwq) as (b' & r & Hw & Hb' & Hv).
  exists b', r. split_and!; [done..|]. intros k. change (view b') with (bk_view b'). rewrite Hv.
  destruct r as [u|e]; [|apply Ha]. intros Hk. destruct (decide (as_str q = k)) as [<-|Hne].
  - exists (as_str p). exact Hq.
  - rewrite lookup_insert_ne in Hk by done. by apply Ha.
Qed.

Lemma load_node_in_ns now ns n : ∀ vfs_path b,
  good_ns ns → mem_inv b → all_in_ns ns b →
  ∃ b' r, load_node now ns vfs_path n b = Done (b', r) ∧ mem_inv b' ∧ all_in_ns ns b'.
Proof.
  induction n as [d [c|e]|e|l IH| |] using node_rect_list; intros vp b Hns Hb Ha; simpl; try by eexists _, _.
  - destruct (iv_write_in_ns now ns b vp c Hns Hb Ha) as (b' & r & -> & Hb' & Ha'). by eexists _, _.
  - generalize 0 as count. revert b Hb Ha. induction IH as [|[name n'] l Hn' _ IHl]; intros b Hb Ha count.
    + by eexists _, _.
    + destruct (Hn' (child_path vp name) b Hns Hb Ha) as (b' & r & E & Hb' & Ha').
      simpl in E. rewrite E. simpl. destruct r as [k|e]; [|by eexists _, _]. by apply IHl.
Qed.

Lemma load_directory_in_ns now ns dir root mount :
  good_ns ns →
  ∃ b' r, load_directory_to_vfs now ns new_backend dir root mount = Done (b', r) ∧
    mem_inv b' ∧ all_in_ns ns b'.
Proof.
  intros Hns. assert (mem_inv new_backend) as Hb by (apply with_limits_inv; done).
  assert (all_in_ns ns new_backend) as Ha.
  { intros k. unfold view. simpl. rewrite fmap_empty, lookup_empty. by intros [? ?]. }
  unfold load_directory_to_vfs. destruct root as [[| | |]|]; try by eexists _, _. by apply load_node_in_ns.
Qed.

Lemma files_of_keys {LC : Lowercase} b k f :
  mem_inv b → files_of b !! k = Some f → is_Some (view b !! k).
Proof.
  intros [_ Hk] Hf. assert (k ∈ (as_str ∘ fst) <$> snapshot_entries b) as Hin.
  { revert Hf. unfold files_of. induction (snapshot_entries b) as [|e l IH] using rev_ind; [done|].
    rewrite foldl_app, fmap_app. simpl. intros Hf. apply elem_of_app.
    destruct (decide (as_str e.1 = k)) as [<-|Hne]; [right; by apply list_elem_of_singleton|].
    rewrite lookup_insert_ne in Hf by done. left. by apply IH. }
  assert ((as_str ∘ fst) <$> snapshot_entries b = (map_to_list (storage b)).*1) as E.
  { rewrite <-(snapshot_keys_wf b Hk), <-list_fmap_compose. done. }
  rewrite E in Hin. apply list_elem_of_fmap in Hin as ([k' v] & -> & Hv%elem_of_map_to_list).
  rewrite view_lookup. simpl. by rewrite Hv.
Qed.

(** *** The two colons of a namespace *)

Definition colons : string := "::".

Lemma contains_colons_cons a s :
  contains_sub colons (String a s) =
  (char_eqb colon a && starts_with ":" s) || contains_sub colons s.
Proof.
  unfold contains_sub, colons. change "::" with (String colon ":"). cbn [find_sub].
  assert (starts_with (String colon ":") (String a s) = char_eqb colon a && starts_with ":" s) as ->.
  { unfold starts_with. cbn [strip_prefix]. by destruct (char_eqb colon a). }
  destruct (char_eqb colon a && starts_with ":" s); simpl; [done|].
  by destruct (find_sub (String colon ":") s).
Qed.

Lemma contains_colons_ns ns p : contains_sub colons (ns +:+ ("::" +:+ p)) = true.
Proof.
  induction ns as [|a ns IH].
  - change ("" +:+ ("::" +:+ p)) with (String colon (String colon p)). by rewrite contains_colons_cons.
  - rewrite str_app_cons, contains_colons_cons, IH. apply orb_true_r.
Qed.

Lemma contains_colons_app s c t :
  contains_sub colons s = false → char_eqb colon c = false → contains_sub colons (String c t) = false →
  contains_sub colons (s +:+ String c t) = false.
Proof.
  intros Hs Hc Ht. induction s as [|a s IH]; [done|].
  rewrite str_app_cons, contains_colons_cons in *. apply orb_false_iff in Hs as [H1 H2].
  rewrite IH, orb_false_r by done. destruct (char_eqb colon a); [|done]. rewrite andb_true_l in *.
  destruct s as [|b s].
  2: { unfold starts_with in *. change ":" with (String colon "") in *. rewrite str_app_cons.
       cbn [strip_prefix] in *. by destruct (char_eqb colon b). }
  change ("" +:+ String c t) with (String c t).
  unfold starts_with. cbn [strip_prefix]. change (":"%char) with colon. by rewrite Hc.
Qed.

Lemma strip_slash_colons path :
  contains_sub colons path = false → contains_sub colons (strip_slash path) = false.
Proof.
  unfold strip_slash. destruct (strip_prefix "/" path) as [t|] eqn:E; [|done]. simpl.
  apply strip_prefix_Some in E as ->. change ("/" +:+ t) with (String slash t).
  rewrite contains_colons_cons. by intros [_ H]%orb_false_iff.
Qed.

Lemma candidates_colons path :
  contains_sub colons path = false →
  Forall (λ n, contains_sub colons n = false) (vfs_candidates (Some "index.html") path).
Proof.
  intros Hp. unfold vfs_candidates. destruct (is_root_path path); [by repeat constructor|].
  pose proof (strip_slash_colons path Hp) as Hs. simpl.
  repeat constructor; [done| |]; by apply contains_colons_app.
Qed.

Lemma first_entry_none files l :
  Forall (λ n, files !! n = None) l → first_entry files l = None.
Proof. induction 1 as [|n l Hn _ IH]; simpl; [done|]. by rewrite Hn. Qed.

(** *** Building the state *)

Section build.
Context {LC : Lowercase} {HO : HashOrder unit} {DH : DefaultHasher} {Sliver : Type}.
Variable os : OsReads.
Variable os_root : string → option node.

Lemma route_of_done now app :
  Config.is_valid_hostname (Config.ModRs.hostname app) = true →
  ∃ t, route_of os os_root now app = Done t.
Proof.
  intros Hv. unfold route_of. destruct (Config.ModRs.sliver app) as [sl|], (detect_entrypoint_type _ _); try by eexists.
  destruct (ConfigProps.valid_hostname_ns _ Hv) as [Hns _].
  destruct (load_directory_in_ns now _ path (os_root path) "/" Hns) as (b & r & -> & _). simpl.
  destruct r; by eexists.
Qed.

Lemma register_apps_done now apps : ∀ r,
  Forall (λ a, Config.is_valid_hostname (Config.ModRs.hostname a) = true) apps →
  ∃ ts, Forall2 (λ a t, route_of os os_root now a = Done t) apps ts ∧
    register_apps os os_root now r apps =
    Done (register_all r (zip (map Config.ModRs.hostname apps) ts)).
Proof.
  induction apps as [|a apps IH]; intros r Hv; [by exists []|].
  apply Forall_cons in Hv as [Ha Hv]. destruct (route_of_done now a Ha) as (t & Et).
  destruct (IH (register r (Config.ModRs.hostname a) t) Hv) as (ts & Hts & E).
  exists (t :: ts). split; [by constructor|]. simpl. rewrite Et. simpl. exact E.
Qed.

(** With distinct lower-case hostnames, one route is left for each. *)
Lemma filter_same_name (apps : list Config.ModRs.AppConfig) : ∀ (ts : list RouteTarget) a t host,
  NoDup (map to_lowercase (map Config.ModRs.hostname apps)) → length apps = length ts →
  (a, t) ∈ zip apps ts → same_name (Config.ModRs.hostname a) host = true →
  List.filter (λ e : string * RouteTarget, same_name e.1 host)
    (zip (map Config.ModRs.hostname apps) ts) = [(Config.ModRs.hostname a, t)].
Proof.
  induction apps as [|a' apps IH]; intros [|t' ts] a t host Hnd Hl Hin Hs;
    try done; [by apply not_elem_of_nil in Hin|].
  apply NoDup_cons in Hnd as [Hn Hnd]. simpl. apply elem_of_cons in Hin as [[= -> ->]|Hin].
  - rewrite Hs. f_equal. apply same_name_true in Hs.
    assert (Forall (λ e : string * RouteTarget, same_name e.1 host = false)
              (zip (map Config.ModRs.hostname apps) ts)) as Hall.
    { apply Forall_forall. intros [h x] Hx. simpl. apply not_true_iff_false. intros Hh%same_name_true.
      apply Hn. rewrite Hs, <-Hh. apply elem_of_zip_l in Hx. apply (list_elem_of_fmap_2 to_lowercase). done. }
    clear -Hall. induction Hall as [|e l He _ IH]; [done|]. simpl. by rewrite He.
  - destruct (same_name (Config.ModRs.hostname a') host) eqn:E; [|apply IH; auto]. exfalso. apply Hn.
    apply same_name_true in Hs, E. rewrite E, <-Hs. apply elem_of_zip_l in Hin.
    apply (list_elem_of_fmap_2 to_lowercase). by apply (list_elem_of_fmap_2 Config.ModRs.hostname).
Qed.

Lemma register_tenants_done hs : ∀ cp,
  Forall (λ h, h ≠ "" ∧ contains_char nul h = false) hs →
  ∃ cp', WorkQueue.register_tenants cp hs = Done cp'.
Proof.
  induction hs as [|h hs IH]; intros cp Hs; [by exists cp|].
  apply Forall_cons in Hs as [[Hne Hn] Hs]. simpl.
  assert (∃ cp1, ControlPlane.register_tenant cp h ControlPlane.auto_limits = Done cp1) as (cp1 & ->).
  { unfold ControlPlane.register_tenant.
    rewrite !assert_true; [by eexists|reflexivity|reflexivity|by rewrite Hn|by apply negb_true_iff, is_empty_false]. }
  simpl. by apply IH.
Qed.

Lemma valid_hostname_plain h :
  Config.is_valid_hostname h = true → h ≠ "" ∧ contains_char nul h = false.
Proof.
  intros Hv. split.
  - intros ->. by vm_compute in Hv.
  - pose proof (ConfigProps.valid_hostname_chars h Hv) as Hc. by apply (RustString.all_chars_contains _ _ _ Hc).
Qed.

(** The queue of a configuration whose hostnames are valid. *)
Lemma queue_of_config n disk (c : Config.ModRs.NanoConfig) :
  Forall (λ a, Config.is_valid_hostname (Config.ModRs.hostname a) = true) (Config.ModRs.apps c) →
  ∃ q, WorkQueue.with_vfs_config n disk (Some (@Registry.from_config Sliver c)) = Done q.
Proof.
  intros Hv. unfold WorkQueue.with_vfs_config. rewrite ControlPlane.fresh_new. simpl.
  edestruct register_tenants_done as (cp' & ->); [|by eexists].
  apply Forall_forall. intros h Hh. apply valid_hostname_plain.
  assert (h ∈ Registry.all_hostnames (@Registry.from_config Sliver c)) as Hin.
  { unfold Registry.set_iter in Hh. rewrite hash_iter_perm in Hh.
    apply list_elem_of_fmap in Hh as ([h' u] & -> & Hu%elem_of_map_to_list).
    apply lookup_gset_to_gmap_Some in Hu as [Hu _]. exact Hu. }
  unfold Registry.all_hostnames in Hin. apply elem_of_dom in Hin as [a Ha].
  change (Registry.get (@Registry.from_config Sliver c) h = Some a) in Ha.
  rewrite Registry.from_config_get in Ha. apply last_Some_elem_of, list_elem_of_filter in Ha as [<- Ha].
  rewrite Forall_forall in Hv. by apply Hv.
Qed.

Lemma find_workers_range apps :
  Forall (λ a, 1 ≤ Config.ModRs.workers (Config.ModRs.limits a) ≤ 64) apps → 1 ≤ find_workers apps ≤ 64.
Proof.
  destruct 1 as [|a apps Ha _]; simpl; [lia|]. destruct (_ >? 0); lia.
Qed.
End build.

(** ** Properties *)

Section properties.
Context {LC : Lowercase} {HO : HashOrder unit} {DH : DefaultHasher} {Sliver : Type}.
Variable os : OsReads.
Variable os_root : string → option node.

(** C6. Starting from a configuration that [validate_nano_config] accepts: the
    state is built; a request for an application's hostname, in any letter case,
    is routed to the target made of that application; a request for any other
    host is answered 404; and the work queue is empty, well-formed and has the
    first application's number of workers per pool. *)
Theorem config_serves_apps `{Config.OsFiles} `{HashOrder string} now c base :
  Config.ModRs.validate_nano_config c base = Ok tt →
  ∃ st : AppState (Sliver := Sliver), start_server_with_config os os_root now c = Done st ∧
    (∀ a, a ∈ Config.ModRs.apps c → ∃ t, route_of os os_root now a = Done t ∧
       target_hostname t = Config.ModRs.hostname a ∧
       ∀ host, same_name (Config.ModRs.hostname a) host = true → resolve (router st) host = t) ∧
    (∀ host js request,
       Forall (λ a, same_name (Config.ModRs.hostname a) host = false) (Config.ModRs.apps c) →
       status (handle js os (resolve (router st) host) request) = 404) ∧
    WorkQueue.pools (work_queue st) = ∅ ∧
    (∀ a, head (Config.ModRs.apps c) = Some a →
       WorkQueue.workers_per_pool (work_queue st) = Config.ModRs.workers (Config.ModRs.limits a)) ∧
    (∀ dn ex isd, WorkQueue.queue_inv dn ex isd (work_queue st)).
Proof.
  intros (Hn & Hnd & Hv & _)%ConfigProps.validate_nano_config_iff.
  assert (Forall (λ a, Config.is_valid_hostname (Config.ModRs.hostname a) = true) (Config.ModRs.apps c)) as Hhosts
    by (eapply Forall_impl; [exact Hv|by intros a (? & _)]).
  assert (Forall (λ a, 1 ≤ Config.ModRs.workers (Config.ModRs.limits a) ≤ 64) (Config.ModRs.apps c)) as Hws
    by (eapply Forall_impl; [exact Hv|by intros a (_ & _ & _ & _ & _ & ? & _)]).
  unfold start_server_with_config, state_with_vfs_config.
  destruct (register_apps_done os os_root now (Config.ModRs.apps c) (router_new unknown_target) Hhosts)
    as (ts & Hts & ->). cbn [outcome_bind].
  destruct (queue_of_config (Sliver := Sliver) (find_workers (Config.ModRs.apps c))
              (find_disk_config (Config.ModRs.apps c)) c Hhosts) as (q & Hq).
  rewrite Hq. cbn [outcome_bind]. eexists. split; [done|]. cbn [router work_queue].
  pose proof (find_workers_range _ Hws) as Hr. pose proof (Forall2_length _ _ _ Hts) as Hlen.
  assert (∀ dn ex isd, WorkQueue.queue_inv dn ex isd q ∧ WorkQueue.pools q = ∅ ∧
            WorkQueue.workers_per_pool q = find_workers (Config.ModRs.apps c)) as Hinv.
  { intros dn ex isd. destruct (WorkQueue.new_queue_inv dn ex isd _ _ _ _ Hq) as (H1 & H2 & _ & [= H3 _ _]); [|done].
    unfold two32. lia. }
  split_and!.
  - intros a Ha. apply list_elem_of_lookup in Ha as [i Hi].
    destruct (Forall2_lookup_l _ _ _ _ _ Hts Hi) as (t & Ht & Et). exists t. split; [done|]. split.
    + revert Et. unfold route_of.
      destruct (Config.ModRs.sliver a), (detect_entrypoint_type _ _); try (by intros [= <-]).
      intros ([b r] & _ & E)%outcome_bind_done. simpl in E. by destruct r; injection E as <-.
    + intros host Hs. rewrite register_all_resolve, (filter_same_name _ _ a t) by
        (done || (apply (list_elem_of_lookup_2 _ i), lookup_zip_with_Some; by eexists _, _)). done.
  - intros host js request Hf. rewrite register_all_resolve.
    assert (List.filter (λ e : string * RouteTarget, same_name e.1 host)
              (zip (map Config.ModRs.hostname (Config.ModRs.apps c)) ts) = []) as ->.
    { clear -Hf Hts. revert Hf. induction Hts as [|a t l ts _ _ IH]; intros Hf; [done|].
      apply Forall_cons in Hf as [Ha Hf]. simpl. rewrite Ha. by apply IH. }
    unfold resolve. simpl. rewrite lookup_empty. reflexivity.
  - by destruct (Hinv (λ _, Ok tt) (λ _, true) (λ _, true)) as (_ & ? & _).
  - intros a Ha. destruct (Hinv (λ _, Ok tt) (λ _, true) (λ _, true)) as (_ & _ & ->).
    destruct (Config.ModRs.apps c) as [|a' l]; [done|]. injection Ha as ->.
    apply Forall_cons in Hws as [Hw _]. simpl. by rewrite (proj2 (Z.gtb_lt _ _)) by lia.
  - intros dn ex isd. by destruct (Hinv dn ex isd) as (? & _).
Qed.

(** A packaged directory cannot be reached by its paths: for an application
    with a sliver whose entrypoint is a directory, the files are stored under
    the names of the VFS, which begin with the application's namespace and
    ["::"], but looked up by the plain path of the URL; so, whatever the
    directory holds, every request whose path has no ["::"] is answered 404. *)
Theorem packaged_directory_unreachable now app s root :
  Config.is_valid_hostname (Config.ModRs.hostname app) = true →
  Config.ModRs.sliver app = Some s →
  detect_entrypoint_type os (Config.ModRs.entrypoint app) = StaticDirEntry root →
  ∃ t, route_of os os_root now app = Done t ∧
    ∀ files d, handler_type t = VfsStaticFiles files d →
    ∀ js request, contains_sub "::" (pathname request) = false →
      handle js os t request = not_found.
Proof.
  intros Hv Hs Hd. unfold route_of. rewrite Hs, Hd.
  destruct (ConfigProps.valid_hostname_ns _ Hv) as [Hns _].
  destruct (load_directory_in_ns now _ root (os_root root) "/" Hns) as (b & r & -> & Hb & Hin).
  cbn [outcome_bind fst snd]. destruct r as [k|e]; (eexists; split; [done|]); [|done].
  intros files d [= <- <-] js request Hp. unfold handle. cbn [handler_type].
  rewrite handle_vfs_first, first_entry_none; [done|].
  eapply Forall_impl; [apply (candidates_colons _ Hp)|]. intros n Hn. simpl in Hn.
  destruct (files_of b !! n) as [f|] eqn:E; [|done]. exfalso.
  apply files_of_keys in E as Hk; [|done]. destruct (Hin _ Hk) as (p & ->).
  by rewrite contains_colons_ns in Hn.
Qed.
End properties.

(** *** Serving a request *)

Section serve.
Context {LC : Lowercase} {HO : HashOrder unit} {DH : DefaultHasher} {Sliver : Type}.
Variable os : OsReads.
Variable disk_new : string → VfsResult unit.
Variable os_exists os_is_dir : string → bool.
Variable parse_url : string → option (string * string).
Variable run_js : string → NanoRequest → JsOutcome.
Notation inv := (WorkQueue.queue_inv disk_new os_exists os_is_dir).
Notation state := (AppState (Sliver := Sliver)).
Notation respond := (dispatch_to_worker_pool (Sliver := Sliver) os disk_new os_exists os_is_dir parse_url run_js).

(** Registering the tenant leaves the rest of the queue alone. *)
Lemma ensure_tenant_queue (q : @WorkQueue.WorkQueue Sliver) h :
  inv q → contains_char nul h = false →
  ∃ q', WorkQueue.queue_ensure_tenant q h = Done q' ∧ inv q' ∧
    WorkQueue.pools q' = WorkQueue.pools q ∧ WorkQueue.config q' = WorkQueue.config q ∧
    match WorkQueue.control_plane q' with
    | Some cp => ControlPlane.tenant_exists cp h = true
    | None => True
    end.
Proof.
  intros Hq Hn. unfold WorkQueue.queue_ensure_tenant. destruct (WorkQueue.control_plane q) as [cp|] eqn:E.
  - destruct (ControlPlane.ensure_tenant_ok cp h Hn) as (cp' & -> & Hex & _). simpl.
    eexists. split; [done|]. split; [by destruct Hq|done].
  - exists q. by rewrite E.
Qed.

Lemma pool_for_config (q q' : @WorkQueue.WorkQueue Sliver) h :
  WorkQueue.config q' = WorkQueue.config q → WorkQueue.pools q' = WorkQueue.pools q →
  WorkQueue.pool_for disk_new os_exists os_is_dir q' h = WorkQueue.pool_for disk_new os_exists os_is_dir q h.
Proof.
  intros Hc Hp. unfold WorkQueue.pool_for. rewrite Hp.
  by rewrite (WorkQueue.config_fresh disk_new os_exists os_is_dir q' q).
Qed.

(** What the worker's answer becomes. *)
Definition answer_reply (a : WorkerAnswer) : Reply :=
  match a with
  | Answered r => FromNano r
  | HandlerError _ | ChannelClosed => text_plain 500 "Internal Server Error"
  end.

(** C2. Serving one request for a JavaScript route, end to end.  With a
    well-formed queue, a URL that parses, a body that can be read and a CPU limit
    the control plane accepts, the handler returns: the tenant is registered, the
    task (with the route's entrypoint, the host's CPU limit and the request's
    identifier) is handed to the worker whose turn it is, and the reply is that
    worker's answer, or 500 if it failed or its thread has ended; never 503.  The
    queue stays well-formed. *)
Theorem served_request (st : state) i now answer url path b e :
  let host := request_host (host_header i) in
  let limit := get_cpu_time_limit_ms (state_registry st) host in
  inv (work_queue st) → wants_websocket i = false →
  parse_url (full_url i host) = Some (url, path) → read_body i = Some b → slen b ≤ 1048576 →
  js_entrypoint (resolve (router st) host) = Some e → 1 ≤ slen e ≤ 4096 →
  contains_char nul host = false → 0 ≤ limit ≤ Limits.execution.TIMEOUT_MS →
  let t := task_of i host e (nonempty_body b) limit now (in_request_id i) in
  let p := WorkQueue.pool_for disk_new os_exists os_is_dir (work_queue st) host in
  ∃ st' reply, respond st i now answer = Done (st', reply) ∧
    router st' = router st ∧ inv (work_queue st') ∧
    WorkQueue.pools (work_queue st') =
      <[WorkQueue.hash_hostname host := WorkQueue.handed p t]> (WorkQueue.pools (work_queue st)) ∧
    reply = (if is_ok (WorkQueue.send_result p) then answer_reply answer
             else text_plain 500 "Internal Server Error") ∧
    ∀ headers text, reply ≠ Plain 503 headers text.
Proof.
  intros host limit Hinv Hws Hurl Hbody Hb Hjs He Hnul Hlim t p.
  destruct (ensure_tenant_queue (work_queue st) host Hinv Hnul) as (q & Hq & Hiq & Hpools & Hcfg & Hex).
  destruct (WorkQueue.dispatch_spec disk_new os_exists os_is_dir q host t Hiq Hnul)
    as (q' & Hd & Hiq' & _ & Hp' & _).
  assert (Hpf : WorkQueue.pool_for disk_new os_exists os_is_dir q host = p) by (by apply pool_for_config).
  rewrite Hpf in Hd, Hp'. exists (set_queue st q'), (reply_of (WorkQueue.send_result p) answer).
  split; [|split; [done|split; [exact Hiq'|split; [by rewrite Hpools in Hp'|]]]].
  - unfold dispatch_to_worker_pool. fold host. rewrite Hws, Hurl, Hbody, Hjs. fold limit. fold t.
    unfold enqueue. rewrite Hq. cbn [outcome_bind].
    assert (match WorkQueue.control_plane q with
            | Some cp => ControlPlane.validate_request_ref cp t
            | None => Done (Ok tt)
            end = Done (Ok tt)) as ->.
    { destruct (WorkQueue.control_plane q) as [cp|]; [|done]. apply ControlPlane.validate_ref_ok; [|exact Hex].
      split_and!; try exact (proj1 He); try exact (proj2 He); try exact (proj1 Hlim); try exact (proj2 Hlim).
      unfold ControlPlane.body_size, t, task_of, nonempty_body, Limits.buffer.REQUEST_SIZE_BYTES_MAX.
      destruct (is_empty b); simpl; lia. }
    cbn [outcome_bind]. rewrite Hd. done.
  - split.
    + unfold WorkQueue.send_result, reply_of, answer_reply. by destruct (_ !! _) as [[l|]|].
    + intros hs text. unfold WorkQueue.send_result, reply_of. destruct (_ !! _) as [[l|]|]; try done.
      by destruct answer.
Qed.
End serve.

(** ** Witnesses *)

#[local] Instance demo_lower : Lowercase := ascii_Lowercase.
#[local] Instance demo_hasher : DefaultHasher := WorkQueue.demo_hasher.
#[local] Instance demo_order : HashOrder unit := plain_order.
#[local] Instance demo_files : Config.OsFiles :=
  {| Config.os_exists := λ _, true; Config.os_is_file := λ _, true |}.
#[local] Instance demo_env_order : HashOrder string := plain_order.

Definition demo_reads : OsReads := mkOs (λ _, None) (λ _, None) (λ p, String.eqb p "/srv/site").
Definition demo_config : Config.ModRs.NanoConfig :=
  Config.ModRs.mkNano [WorkQueue.demo_app] Config.default_server.
Definition demo_tree (p : string) : option node :=
  Some (NDir (Ok [("index.html", NFile "/srv/site/index.html" (Ok [72; 105]));
                  ("img", NDir (Ok [("a.png", NFile "/srv/site/img/a.png" (Ok [1]))]))])).

Lemma config_serves_apps_witness :
  ∃ st : AppState (Sliver := unit), start_server_with_config demo_reads demo_tree 0 demo_config = Done st ∧
    resolve (router st) "API.example.com" = mkTarget "api.example.com" (WinterTCHandler "/srv/api/app.js").
Proof.
  destruct (config_serves_apps (Sliver := unit) demo_reads demo_tree 0 demo_config None)
    as (st & E & Hr & _); [vm_compute; reflexivity|].
  exists st. split; [exact E|].
  destruct (Hr WorkQueue.demo_app) as (t & Et & _ & Hh); [left|].
  rewrite (Hh "API.example.com") by (vm_compute; reflexivity).
  assert (Done t = Done (mkTarget "api.example.com" (WinterTCHandler "/srv/api/app.js"))) as [= ->]
    by (rewrite <-Et; vm_compute; reflexivity).
  reflexivity.
Defined.

(** A sliver application whose entrypoint is a directory. *)
Definition demo_site : Config.ModRs.AppConfig :=
  Config.ModRs.mkApp "site.example.com" "/srv/site" (Some "site.sliver") ∅ Config.ModRs.default_limits
    Config.BMemory None None.

Lemma packaged_directory_unreachable_witness :
  ∃ t files d, route_of demo_reads demo_tree 0 demo_site = Done t ∧ handler_type t = VfsStaticFiles files d ∧
    files !! "site_example_com::index.html" = Some ("Hi", "text/html; charset=utf-8") ∧
    handle no_js demo_reads t (get_request "/index.html") = not_found.
Proof.
  destruct (packaged_directory_unreachable demo_reads demo_tree 0 demo_site "site.sliver" "/srv/site")
    as (t & E & H); [vm_compute; reflexivity..|].
  destruct (route_of demo_reads demo_tree 0 demo_site) as [t'|] eqn:E'; [|discriminate E].
  injection E as ->. vm_compute in E'. injection E' as <-.
  eexists _, _, _. split; [reflexivity|]. split; [reflexivity|]. split; [vm_compute; reflexivity|].
  eapply H; [reflexivity|]. vm_compute. reflexivity.
Defined.

Definition demo_state : AppState (Sliver := unit) :=
  mkState (register (router_new unknown_target) "api.example.com"
             (mkTarget "api.example.com" (WinterTCHandler "/srv/api/app.js")))
          WorkQueue.demo_queue (Some WorkQueue.demo_registry).
Definition demo_request : Incoming :=
  mkIncoming (Some "api.example.com:8080") None "GET" None (Some "/a") [] (Some "") "req_1" 7 false.
Definition demo_parse (u : string) : option (string * string) := Some (u, "/a").

Lemma served_request_witness :
  ∃ st' reply,
    dispatch_to_worker_pool demo_reads WorkQueue.wait_ok WorkQueue.no_dir WorkQueue.no_dir demo_parse no_js
      demo_state demo_request 0 (Answered ok) = Done (st', reply) ∧ reply = FromNano ok.
Proof.
  assert (WorkQueue.queue_inv WorkQueue.wait_ok WorkQueue.no_dir WorkQueue.no_dir WorkQueue.demo_queue) as Hinv
    by (apply (WorkQueue.new_queue_inv _ _ _ 2 None (Some WorkQueue.demo_registry)); [vm_compute; reflexivity|done]).
  destruct (served_request demo_reads WorkQueue.wait_ok WorkQueue.no_dir WorkQueue.no_dir demo_parse no_js
              demo_state demo_request 0 (Answered ok) "http://api.example.com/a" "/a" "" "/srv/api/app.js")
    as (st' & reply & E & _ & _ & _ & Hr & _);
    [exact Hinv|vm_compute; reflexivity..|discriminate|vm_compute; reflexivity|vm_compute; split; discriminate
    |vm_compute; reflexivity|vm_compute; split; discriminate|].
  exists st', reply. split; [exact E|]. rewrite Hr. vm_compute. reflexivity.
Defined.
