(* ===== verification/DataPlane.v ===== *)
(** * [src/data_plane.rs]: the code cache and the CPU timeout guard

    The cache maps an entrypoint to its text and modification time.  A call makes
    up to three system calls (metadata, read, metadata) between which the file may
    change: each sees a file system of its own.

    The guard arms a timer thread that terminates "the" isolate through two
    process-wide variables.  Workers interleave: arming, the firing of a timer,
    dropping a guard and the passing of time are the steps of a relation, each with
    all its accesses to the two variables. *)

From stdpp Require Import base gmap list strings.
From Stdlib Require Import ZArith Lia.
From S2P Require Import Prelude RustString.

Open Scope Z_scope.

(** ** The code cache *)

Record CodeCacheEntry := mkEntry {
  code : string;
  modified : Z;
}.

(** [CODE_CACHE]; [None] before the first use. *)
Definition CodeCache : Type := option (gmap string CodeCacheEntry).

Definition init_code_cache (c : CodeCache) : CodeCache :=
  match c with None => Some ∅ | Some m => Some m end.

(** What the system answers about a file: its text (or the error's message) and
    its modification time. *)
Record FileState := mkFile {
  file_text : result string string;
  file_modified : option Z;
}.

Definition cached (c : CodeCache) (entrypoint : string) (f : FileState) : option string :=
  match c with
  | Some m =>
    match m !! entrypoint with
    | Some entry =>
      match file_modified f with
      | Some t => if t =? modified entry then Some (code entry) else None
      | None => None
      end
    | None => None
    end
  | None => None
  end.

(** [read_code_cached]: [f1], [f2], [f3] are what the three system calls see,
    [now] the clock if the last fails. *)
Definition read_code_cached (c : CodeCache) (entrypoint : string) (f1 f2 f3 : FileState) (now : Z)
  : CodeCache * result string string :=
  match cached c entrypoint f1 with
  | Some code => (c, Ok code)
  | None =>
    match file_text f2 with
    | Err e => (c, Err ("Failed to read entrypoint '" +:+ entrypoint +:+ "': " +:+ e))
    | Ok text =>
      let t := default now (file_modified f3) in
      (Some (<[entrypoint := mkEntry text t]> (default ∅ c)), Ok text)
    end
  end.

(** Reading without a cache. *)
Definition read_code (entrypoint : string) (f : FileState) : result string string :=
  match file_text f with
  | Ok text => Ok text
  | Err e => Err ("Failed to read entrypoint '" +:+ entrypoint +:+ "': " +:+ e)
  end.

(** A sequence of calls, each during which the file stays the same. *)
Fixpoint read_all (c : CodeCache) (calls : list (string * FileState * Z))
  : CodeCache * list (result string string) :=
  match calls with
  | [] => (c, [])
  | (e, f, now) :: calls' =>
    let r := read_code_cached c e f f f now in
    let rs := read_all r.1 calls' in
    (rs.1, r.2 :: rs.2)
  end.

(** The files of a history in which the modification time tells the text:
    [text_at e t] is the text of [e] when it was modified at [t]. *)
Definition timestamped (text_at : string → Z → string) (e : string) (f : FileState) : Prop :=
  match file_modified f with
  | Some t => file_text f = Ok (text_at e t)
  | None => ∃ m, file_text f = Err m
  end.

(** Every entry holds the text of its time. *)
Definition cache_ok (text_at : string → Z → string) (c : CodeCache) : Prop :=
  ∀ e en, default ∅ c !! e = Some en → code en = text_at e (modified en).

Lemma cached_ok text_at c e f s :
  cache_ok text_at c → timestamped text_at e f → cached c e f = Some s → file_text f = Ok s.
Proof.
  unfold cached, timestamped. intros Hc Hf. destruct c as [m|]; [|done].
  destruct (m !! e) as [en|] eqn:E; [|done]. destruct (file_modified f) as [t|]; [|done].
  destruct (t =? modified en) eqn:Et; [|done]. apply Z.eqb_eq in Et. intros [= <-].
  rewrite Hf, Et. by rewrite (Hc e en).
Qed.

Lemma read_code_cached_ok text_at c e f now :
  cache_ok text_at c → timestamped text_at e f →
  cache_ok text_at (read_code_cached c e f f f now).1 ∧
  (read_code_cached c e f f f now).2 = read_code e f.
Proof.
  intros Hc Hf. unfold read_code_cached, read_code. destruct (cached c e f) as [s|] eqn:E.
  - by rewrite (cached_ok text_at c e f s Hc Hf E).
  - unfold timestamped in Hf. destruct (file_text f) as [text|m] eqn:Et; [|done].
    split; [|done]. destruct (file_modified f) as [t|]; [|by destruct Hf as [? ?]]. injection Hf as ->.
    intros e' en. simpl. destruct (decide (e = e')) as [<-|Hne].
    + rewrite lookup_insert_eq. by intros [= <-].
    + rewrite lookup_insert_ne by done. apply Hc.
Qed.

(** ** The CPU timeout guard *)

(** A guard, under the isolate it was made for: when its timer fires, and whether
    it has. *)
Record Guard := mkGuard {
  deadline : Z;
  fired : bool;
}.

(** [TERMINATION_REQUESTED], [TERMINATION_ISOLATE_PTR], the isolates with a
    termination pending, the guards alive, and the clock in milliseconds. *)
Record Guards := mkGuards {
  requested : bool;
  isolate_ptr : option Z;
  terminating : gset Z;
  guards : gmap Z Guard;
  clock : Z;
}.

(** [CpuTimeoutGuard::new] *)
Definition guard_new (s : Guards) (isolate limit_ms : Z) : Guards :=
  mkGuards false (Some isolate) (terminating s)
           (<[isolate := mkGuard (clock s + limit_ms) false]> (guards s)) (clock s).

(** [request_isolate_termination], on the shared variables. *)
Definition request_isolate_termination (s : Guards) : Guards :=
  mkGuards true (isolate_ptr s)
           (match isolate_ptr s with Some v => {[v]} ∪ terminating s | None => terminating s end)
           (guards s) (clock s).

(** The timer thread of a guard after its sleep. *)
Definition timer_fire (s : Guards) (isolate : Z) : Guards :=
  let s := request_isolate_termination s in
  mkGuards (requested s) (isolate_ptr s) (terminating s)
           (alter (λ g, mkGuard (deadline g) true) isolate (guards s)) (clock s).

(** [Drop for CpuTimeoutGuard], after the join. *)
Definition guard_drop (s : Guards) (isolate : Z) : Guards :=
  let t := if requested s then
             match isolate_ptr s with Some v => terminating s ∖ {[v]} | None => terminating s end
           else terminating s in
  mkGuards false None t (delete isolate (guards s)) (clock s).

Definition tick (s : Guards) (d : Z) : Guards :=
  mkGuards (requested s) (isolate_ptr s) (terminating s) (guards s) (clock s + d).

Inductive guard_event :=
| GNew (isolate limit_ms : Z)
| GFire (isolate : Z)
| GDrop (isolate : Z)
| GTick (d : Z).

(** A worker has one guard at a time; a timer fires at its deadline or later; a
    drop joins the timer thread, so it returns only after the timer has fired. *)
Inductive guard_step : Guards → guard_event → Guards → Prop :=
| step_new s i l : guards s !! i = None → 0 ≤ l → guard_step s (GNew i l) (guard_new s i l)
| step_fire s i g :
    guards s !! i = Some g → fired g = false → deadline g ≤ clock s →
    guard_step s (GFire i) (timer_fire s i)
| step_drop s i g :
    guards s !! i = Some g → fired g = true → guard_step s (GDrop i) (guard_drop s i)
| step_tick s d : 0 ≤ d → guard_step s (GTick d) (tick s d).

Inductive guard_steps : Guards → list guard_event → Guards → Prop :=
| steps_nil s : guard_steps s [] s
| steps_snoc s es s' e s'' :
    guard_steps s es s' → guard_step s' e s'' → guard_steps s (es ++ [e]) s''.

(** The guards an isolate was given in a run. *)
Definition armed (i : Z) (es : list guard_event) : list Z :=
  omap (λ e, match e with GNew j l => if i =? j then Some l else None | _ => None end) es.

Definition total (l : list Z) : Z := foldr Z.add 0 l.

Lemma total_snoc l x : total (l ++ [x]) = total l + x.
Proof. induction l as [|y l IH]; simpl; lia. Qed.

Lemma armed_snoc i es e : armed i (es ++ [e]) = armed i es ++ armed i [e].
Proof. apply omap_app. Qed.

(** The clock has passed the limits of all finished guards, and the deadline of
    the live one is beyond those and its own. *)
Lemma guard_time i s es s' :
  guard_steps s es s' → guards s !! i = None →
  match guards s' !! i with
  | None => clock s + total (armed i es) ≤ clock s'
  | Some g => clock s + total (armed i es) ≤ deadline g ∧ (fired g = true → deadline g ≤ clock s')
  end.
Proof.
  intros Hs Hi. induction Hs as [s|s es s1 e s2 _ IH Hstep]; [rewrite Hi; simpl; lia|].
  specialize (IH Hi). rewrite armed_snoc. destruct Hstep as [s1 j l Hj Hl|s1 j g Hg Hf Hd|s1 j g Hg Hf|s1 d Hd];
    cbn [guard_new timer_fire request_isolate_termination guard_drop tick guards clock].
  - unfold armed at 2 4. simpl. destruct (i =? j) eqn:E.
    + apply Z.eqb_eq in E as <-. rewrite Hj in IH. rewrite lookup_insert_eq, total_snoc. simpl.
      split; [lia|done].
    + apply Z.eqb_neq in E. by rewrite app_nil_r, lookup_insert_ne by done.
  - change (armed i [GFire j]) with (@nil Z). rewrite app_nil_r.
    destruct (decide (j = i)) as [->|Hne].
    + rewrite lookup_alter_eq, Hg in *. simpl. split; [tauto|lia].
    + by rewrite lookup_alter_ne by done.
  - change (armed i [GDrop j]) with (@nil Z). rewrite app_nil_r.
    destruct (decide (j = i)) as [->|Hne].
    + rewrite lookup_delete_eq. rewrite Hg in IH. destruct IH as [H1 H2]. specialize (H2 Hf). lia.
    + by rewrite lookup_delete_ne by done.
  - change (armed i [GTick d]) with (@nil Z). rewrite app_nil_r.
    destruct (guards s1 !! i) as [g|]; [|lia]. destruct IH as [H1 H2]. split; [done|].
    intros Hf. specialize (H2 Hf). lia.
Qed.

(** The isolate of the last guard made, unless a guard was dropped since. *)
Definition owner_step (o : option Z) (e : guard_event) : option Z :=
  match e with
  | GNew j _ => Some j
  | GDrop _ => None
  | _ => o
  end.
Definition owner (es : list guard_event) : option Z := foldl owner_step None es.

Definition idle (now : Z) : Guards := mkGuards false None ∅ ∅ now.

Lemma owner_ptr now es s : guard_steps (idle now) es s → isolate_ptr s = owner es.
Proof.
  intros H. remember (idle now) as s0 eqn:E0.
  induction H as [s|s es s1 e s2 _ IH Hstep]; [by rewrite E0|]. specialize (IH E0).
  unfold owner in *. rewrite foldl_app. simpl. rewrite <-IH. by destruct Hstep.
Qed.

(** ** Properties *)

(** The cache is transparent: over any sequence of calls during which no file
    is changed under a call, and if a file's modification time tells its text,
    every call returns what reading the file at that moment would, errors
    included. *)
Theorem read_all_current text_at calls c :
  cache_ok text_at c →
  Forall (λ x : string * FileState * Z, timestamped text_at x.1.1 x.1.2) calls →
  (read_all c calls).2 = map (λ x : string * FileState * Z, read_code x.1.1 x.1.2) calls.
Proof.
  intros Hc Hcalls. revert c Hc. induction Hcalls as [|[[e f] now] calls Hf _ IH]; intros c Hc; [done|].
  destruct (read_code_cached_ok text_at c e f now Hc Hf) as [Hc' Hr].
  cbn [read_all map snd fst]. by rewrite Hr, IH.
Qed.

(** But if the file is replaced between the read and the second look at its
    modification time, the cache keeps the old text under the new time: that
    call and every later one return the old text as long as the file is not
    modified again. *)
Theorem cache_may_stay_stale c e old new t0 t f1 now later :
  cached c e f1 = None →
  let r := read_code_cached c e f1 (mkFile (Ok old) t0) (mkFile (Ok new) (Some t)) now in
  r.2 = Ok old ∧
  (read_all r.1 (map (λ n, (e, mkFile (Ok new) (Some t), n)) later)).2 = map (λ _, Ok old) later.
Proof.
  intros Hm r. unfold r, read_code_cached. rewrite Hm. cbn [file_text file_modified snd fst].
  change (default now (Some t)) with t.
  split; [done|].
  assert (Hhit : ∀ n, read_code_cached (Some (<[e := mkEntry old t]> (default ∅ c))) e
                        (mkFile (Ok new) (Some t)) (mkFile (Ok new) (Some t)) (mkFile (Ok new) (Some t)) n =
                      (Some (<[e := mkEntry old t]> (default ∅ c)), Ok old)).
  { intros n. unfold read_code_cached, cached. rewrite lookup_insert_eq. cbn. by rewrite Z.eqb_refl. }
  induction later as [|n later IH]; [done|]. cbn [map read_all]. rewrite Hhit. cbn [fst snd]. by rewrite IH.
Qed.

(** C11. Whose execution a timer terminates: the isolate of the guard made last by
    any worker, or none if a guard was dropped since; so a guard's timer stops
    its own isolate exactly when no other guard was made or dropped after it,
    and otherwise the limit of that request is not enforced. *)
Theorem guard_terminates_owner now es s i s' :
  guard_steps (idle now) es s → guard_step s (GFire i) s' →
  terminating s' = match owner es with Some j => {[j]} ∪ terminating s | None => terminating s end ∧
  (i ∉ terminating s → (i ∈ terminating s' ↔ owner es = Some i)).
Proof.
  intros Hs Hf. rewrite <-(owner_ptr now es s Hs). inversion Hf; subst.
  cbn [timer_fire request_isolate_termination terminating]. split; [done|].
  intros Hi. destruct (isolate_ptr s) as [v|]; [|set_solver]. set_solver.
Qed.

(** A guard holds its worker for the whole limit: dropping it waits for the
    timer, so in any run between two moments at which a worker has no guard, at
    least the sum of the limits of the requests it served has passed, however
    short the requests were. *)
Theorem guard_holds_worker s es s' i limit :
  guard_steps s es s' → guards s !! i = None → guards s' !! i = None →
  clock s + total (armed i es) ≤ clock s' ∧
  (Forall (λ l, l = limit) (armed i es) →
   Z.of_nat (length (armed i es)) * limit ≤ clock s' - clock s).
Proof.
  intros Hs Hi Hi'. pose proof (guard_time i s es s' Hs Hi) as Ht. rewrite Hi' in Ht.
  split; [done|]. intros Hl.
  assert (total (armed i es) = Z.of_nat (length (armed i es)) * limit) as E; [|lia].
  clear -Hl. induction Hl as [|l k -> _ IH]; [done|]. simpl length. simpl. rewrite IH. lia.
Qed.

(** ** Witnesses *)

Definition demo_file (t : Z) : FileState := mkFile (Ok "export default {}") (Some t).

Lemma read_all_current_witness :
  (read_all None [("/srv/app.js", demo_file 1, 0); ("/srv/app.js", demo_file 1, 5);
                  ("/srv/none.js", mkFile (Err "not found") None, 6)]).2
  = [Ok "export default {}"; Ok "export default {}";
     Err "Failed to read entrypoint '/srv/none.js': not found"].
Proof.
  apply (read_all_current (λ _ _, "export default {}")).
  - intros e en H. simpl in H. by rewrite lookup_empty in H.
  - repeat constructor. by exists "not found".
Defined.

Lemma cache_may_stay_stale_witness :
  let r := read_code_cached None "/srv/app.js" (mkFile (Ok "v1") (Some 6)) (mkFile (Ok "v1") (Some 6))
             (mkFile (Ok "v2") (Some 7)) 0 in
  r.2 = Ok "v1" ∧ (read_all r.1 [("/srv/app.js", mkFile (Ok "v2") (Some 7), 100)]).2 = [Ok "v1"].
Proof.
  exact (cache_may_stay_stale None "/srv/app.js" "v1" "v2" (Some 6) 7 (mkFile (Ok "v1") (Some 6)) 0 [100] eq_refl).
Defined.

(** Worker 1 has 50 ms; worker 2 starts 20 ms later with a second. *)
Definition overlap : list guard_event := [GNew 1 50; GTick 20; GNew 2 1000; GTick 30].
Definition overlapped : Guards :=
  tick (guard_new (tick (guard_new (idle 0) 1 50) 20) 2 1000) 30.

Lemma overlap_steps : guard_steps (idle 0) overlap overlapped.
Proof.
  apply (steps_snoc _ [GNew 1 50; GTick 20; GNew 2 1000] (guard_new (tick (guard_new (idle 0) 1 50) 20) 2 1000));
    [|by apply step_tick].
  apply (steps_snoc _ [GNew 1 50; GTick 20] (tick (guard_new (idle 0) 1 50) 20)); [|by apply step_new].
  apply (steps_snoc _ [GNew 1 50] (guard_new (idle 0) 1 50)); [|by apply step_tick].
  apply (steps_snoc _ [] (idle 0)); [constructor|by apply step_new].
Qed.

(** The first worker's timer terminates the second worker's request. *)
Lemma guard_terminates_owner_witness :
  terminating (timer_fire overlapped 1) = {[2]} ∧ 1 ∉ terminating (timer_fire overlapped 1).
Proof.
  destruct (guard_terminates_owner 0 overlap overlapped 1 (timer_fire overlapped 1) overlap_steps) as [E H].
  - apply (step_fire _ 1 (mkGuard 50 false)); [vm_compute; reflexivity|reflexivity|vm_compute; discriminate].
  - rewrite E. split; [vm_compute; reflexivity|]. rewrite <-E. intros Hin.
    apply H in Hin; [discriminate Hin|vm_compute; intros Hx; discriminate Hx].
Defined.

Lemma guard_holds_worker_witness :
  clock (idle 0) + 50 ≤ clock (guard_drop (timer_fire (tick (guard_new (idle 0) 1 50) 50) 1) 1).
Proof.
  refine (proj1 (guard_holds_worker (idle 0) [GNew 1 50; GTick 50; GFire 1; GDrop 1] _ 1 50 _ _ _));
    [|reflexivity|reflexivity].
  apply (steps_snoc _ [GNew 1 50; GTick 50; GFire 1] (timer_fire (tick (guard_new (idle 0) 1 50) 50) 1)).
  - apply (steps_snoc _ [GNew 1 50; GTick 50] (tick (guard_new (idle 0) 1 50) 50)).
    + apply (steps_snoc _ [GNew 1 50] (guard_new (idle 0) 1 50)); [|by apply step_tick].
      apply (steps_snoc _ [] (idle 0)); [constructor|by apply step_new].
    + apply (step_fire _ 1 (mkGuard 50 false)); [vm_compute; reflexivity|reflexivity|vm_compute; discriminate].
  - apply (step_drop _ 1 (mkGuard 50 true)); [vm_compute; reflexivity|reflexivity].
Defined.
