(* ===== verification/Sliver.v ===== *)
(** * [src/sliver/]: the sliver archive (format, metadata, packer, unpacker, checks)

    A sliver is a tar archive with a JSON description, a heap blob and the files of
    an application.  The tar and JSON crates are the parameters [Tar] and
    [MetadataJson] with their documented round trips as laws; everything the
    repository does around them is here. *)

From stdpp Require Import base gmap list strings pretty.
From Stdlib Require Import Ascii ZArith Lia.
From S2P Require Import Prelude RustString VfsPath.

Open Scope Z_scope.

(** ** [format.rs] *)

Definition FORMAT_VERSION : string := "1.0".
Definition HEAP_FILENAME : string := "heap.bin".
Definition METADATA_FILENAME : string := "meta.json".
Definition MANIFEST_FILENAME : string := "manifest.txt".
Definition VFS_PREFIX : string := "vfs/".
Definition SLIVER_EXTENSION : string := ".sliver".

Definition is_supported_version (version : string) : bool := String.eqb version FORMAT_VERSION.

Definition required_files : list string := [METADATA_FILENAME; HEAP_FILENAME].

(** ** [metadata.rs] *)

(** [created_at] is an instant in nanoseconds. *)
Record SliverMetadata := mkMetadata {
  md_name : option string;
  md_hostname : string;
  md_created_at : Z;
  md_format_version : string;
  md_nano_version : string;
  md_description : option string;
  md_custom : gmap string string;
}.

Definition metadata_new (now : Z) (hostname nano_version : string) : SliverMetadata :=
  mkMetadata None hostname now FORMAT_VERSION nano_version None ∅.

Definition metadata_with_name (now : Z) (name hostname nano_version : string) : SliverMetadata :=
  let meta := metadata_new now hostname nano_version in
  mkMetadata (Some name) (md_hostname meta) (md_created_at meta) (md_format_version meta)
    (md_nano_version meta) (md_description meta) (md_custom meta).

Definition metadata_with_description (now : Z) (hostname nano_version description : string)
    : SliverMetadata :=
  let meta := metadata_new now hostname nano_version in
  mkMetadata (md_name meta) (md_hostname meta) (md_created_at meta) (md_format_version meta)
    (md_nano_version meta) (Some description) (md_custom meta).

Definition with_custom (meta : SliverMetadata) (key value : string) : SliverMetadata :=
  mkMetadata (md_name meta) (md_hostname meta) (md_created_at meta) (md_format_version meta)
    (md_nano_version meta) (md_description meta) (<[key := value]> (md_custom meta)).

(** ** [error.rs] *)

(** [io::Error] and [serde_json::Error] are represented by their texts. *)
Inductive SliverError :=
| SliverIo (e : string)
| SerializationError (e : string)
| InvalidFormat (version : string)
| MissingMetadata (filename : string)
| MissingHeap (filename : string)
| CorruptedArchive (reason : string)
| InvalidVfsPath (path : string)
| UnsupportedEntryType (entry_type : string)
| VfsRestore (path reason : string).

Abbreviation SliverResult A := (result A SliverError).

Definition display_error (e : SliverError) : string :=
  match e with
  | SliverIo m => "IO error: " +:+ m
  | SerializationError m => "Serialization error: " +:+ m
  | InvalidFormat v => "Invalid format version: " +:+ v
  | MissingMetadata f => "Missing metadata file: " +:+ f
  | MissingHeap f => "Missing heap blob: " +:+ f
  | CorruptedArchive r => "Corrupted archive: " +:+ r
  | InvalidVfsPath p => "Invalid VFS path: " +:+ p
  | UnsupportedEntryType t => "Unsupported VFS entry type: " +:+ t
  | VfsRestore p r => "Failed to restore VFS entry at " +:+ (p +:+ (": " +:+ r))
  end.

(** ** The crates *)

(** [tar::Header] as the packer fills it; the checksum is computed from it. *)
Record Header := mkHeader {
  hd_path : string;
  hd_size : Z;
  hd_mode : Z;
  hd_mtime : Z;
}.

(** What reading one archive entry gives. *)
Record TarEntry := mkTarEntry {
  e_path : result string string;
  e_size : Z;
  e_content : result (list Z) string;
}.

(** A member name the tar crate stores and reads back unchanged: a relative path
    of plain segments. *)
Definition plain_name (s : string) : Prop :=
  contains_char nul s = false ∧ Forall (λ w, w ≠ "" ∧ w ≠ "." ∧ w ≠ "..") (split slash s).

#[export] Instance plain_name_dec s : Decision (plain_name s).
Proof. unfold plain_name. apply _. Defined.

(** [Builder<Vec<u8>>] and [Archive]: [append] writes a header whose path was set
    with [set_path] (at most 100 bytes), [append_data] takes a name of any length,
    [tar_finish] is [finish] and [into_inner].  The size in the header has to be that
    of the data. *)
Class Tar := {
  builder : Type;
  builder_new : builder;
  append : builder → Header → list Z → result builder string;
  append_data : builder → Header → string → list Z → result builder string;
  tar_finish : builder → result (list Z) string;
  archive_entries : list Z → result (list (result TarEntry string)) string;
}.

Definition read_back (e : string * list Z) : result TarEntry string :=
  Ok (mkTarEntry (Ok (fst e)) (len (snd e)) (Ok (snd e))).

Class TarLaws `{Tar} := {
  contents : builder → list (string * list Z);
  contents_new : contents builder_new = [];
  append_ok : ∀ b h c, plain_name (hd_path h) → slen (hd_path h) ≤ 100 → hd_size h = len c →
    ∃ b', append b h c = Ok b' ∧ contents b' = contents b ++ [(hd_path h, c)];
  append_data_ok : ∀ b h name c, plain_name name → hd_size h = len c →
    ∃ b', append_data b h name c = Ok b' ∧ contents b' = contents b ++ [(name, c)];
  tar_finish_ok : ∀ b, ∃ data,
    tar_finish b = Ok data ∧ archive_entries data = Ok (read_back <$> contents b);
}.

(** [serde_json::to_vec_pretty] and [from_slice] at [SliverMetadata]. *)
Class MetadataJson := {
  to_json : SliverMetadata → result (list Z) string;
  from_json : list Z → result SliverMetadata string;
}.

Class MetadataJsonLaws `{MetadataJson} := {
  json_roundtrip : ∀ m, ∃ j, to_json m = Ok j ∧ from_json j = Ok m;
}.

(** [str::as_bytes] *)
Fixpoint as_bytes (s : string) : list Z :=
  match s with
  | EmptyString => []
  | String c s' => Z.of_N (N_of_ascii c) :: as_bytes s'
  end.

Section archive.
Context `{TAR : Tar} `{JSON : MetadataJson}.

(** ** [packer.rs] *)

Record SliverPacker := mkPacker {
  pk_builder : builder;
  pk_entries : list string;
}.

Definition packer_new : SliverPacker := mkPacker builder_new [].

Definition add_metadata (p : SliverPacker) (meta : SliverMetadata) : SliverResult SliverPacker :=
  let? json_data := map_err SerializationError (to_json meta) in
  let header := mkHeader METADATA_FILENAME (len json_data) 420 0 in
  let? b := map_err SliverIo (append (pk_builder p) header json_data) in
  Ok (mkPacker b (pk_entries p ++ [METADATA_FILENAME])).

Definition add_heap (p : SliverPacker) (heap_data : list Z) : SliverResult SliverPacker :=
  let header := mkHeader HEAP_FILENAME (len heap_data) 420 0 in
  let? b := map_err SliverIo (append (pk_builder p) header heap_data) in
  Ok (mkPacker b (pk_entries p ++ [HEAP_FILENAME])).

(** A modification time before the epoch is replaced by the current time. *)
Definition header_mtime (now : Z) (file : VfsFile) : Z :=
  if modified_at file <? 0 then Z.max 0 now / 1000000000 else modified_at file / 1000000000.

Definition add_vfs_entry (now : Z) (p : SliverPacker) (path : VfsPath) (file : VfsFile)
    : SliverResult SliverPacker :=
  let archive_path := VFS_PREFIX +:+ as_str path in
  let header := mkHeader "" (len (content file)) 420 (header_mtime now file) in
  let? b := map_err SliverIo (append_data (pk_builder p) header archive_path (content file)) in
  Ok (mkPacker b (pk_entries p ++ [archive_path])).

Fixpoint add_vfs_entries (now : Z) (p : SliverPacker) (entries : list (VfsPath * VfsFile))
    : SliverResult SliverPacker :=
  match entries with
  | [] => Ok p
  | (path, file) :: rest =>
      let? p' := add_vfs_entry now p path file in add_vfs_entries now p' rest
  end.

Definition newline : string := String (ascii_of_nat 10) "".

(** [build_manifest] of [mod.rs]; [add_manifest] writes the same text. *)
Definition build_manifest (entries : list string) : string :=
  foldl (λ acc entry, acc +:+ (entry +:+ newline))
    ("# Sliver Archive Manifest" +:+ (newline +:+ ("# =========================" +:+
       (newline +:+ newline)))) entries.

Definition add_manifest (p : SliverPacker) : SliverResult SliverPacker :=
  let manifest_bytes := as_bytes (build_manifest (pk_entries p)) in
  let header := mkHeader MANIFEST_FILENAME (len manifest_bytes) 420 0 in
  let? b := map_err SliverIo (append (pk_builder p) header manifest_bytes) in
  Ok (mkPacker b (pk_entries p)).

Definition finalize (p : SliverPacker) : SliverResult (list Z) :=
  let? p' := add_manifest p in map_err SliverIo (tar_finish (pk_builder p')).

Definition pack_sliver (now : Z) (meta : SliverMetadata) (heap_data : list Z)
    (vfs_entries : option (list (VfsPath * VfsFile))) : SliverResult (list Z) :=
  let? p1 := add_metadata packer_new meta in
  let? p2 := add_heap p1 heap_data in
  let? p3 := match vfs_entries with
             | Some entries => add_vfs_entries now p2 entries
             | None => Ok p2
             end in
  finalize p3.

(** ** [unpacker.rs] *)

Record UnpackedSliver := mkUnpacked {
  us_metadata : SliverMetadata;
  us_heap_data : list Z;
  us_vfs_entries : list (VfsPath * VfsFile);
}.

(** The local variables of the loop. *)
Record unpack_state := mkUnpackState {
  u_metadata : option SliverMetadata;
  u_heap : option (list Z);
  u_vfs : list (VfsPath * VfsFile);
}.

(** The file made for the [k]-th entry under the prefix; its size is set later. *)
Definition entry_file (clock : nat → Z) (k : nat) (bytes : list Z) : VfsFile :=
  mkVfsFile bytes (clock (2 * k)%nat) (clock (2 * k + 1)%nat) 0.

(** One round of the loop.  [clock] gives the successive [SystemTime::now()]. *)
Definition unpack_entry (clock : nat → Z) (st : unpack_state) (entry_result : result TarEntry string)
    : SliverResult unpack_state :=
  let? entry := map_err SliverIo entry_result in
  let? path := map_err SliverIo (e_path entry) in
  let? bytes := map_err SliverIo (e_content entry) in
  if String.eqb path METADATA_FILENAME then
    let? m := map_err SerializationError (from_json bytes) in
    Ok (mkUnpackState (Some m) (u_heap st) (u_vfs st))
  else if String.eqb path HEAP_FILENAME then
    Ok (mkUnpackState (u_metadata st) (Some bytes) (u_vfs st))
  else match strip_prefix VFS_PREFIX path with
       | Some vfs_path_str =>
           match new vfs_path_str with
           | Ok vfs_path =>
               let file := entry_file clock (length (u_vfs st)) bytes in
               Ok (mkUnpackState (u_metadata st) (u_heap st) (u_vfs st ++ [(vfs_path, file)]))
           | Err _ => Err (InvalidVfsPath vfs_path_str)
           end
       | None => Ok st
       end.

Fixpoint unpack_loop (clock : nat → Z) (st : unpack_state) (es : list (result TarEntry string))
    : SliverResult unpack_state :=
  match es with
  | [] => Ok st
  | e :: rest => let? st' := unpack_entry clock st e in unpack_loop clock st' rest
  end.

(** The size is set from the content after the loop. *)
Definition fix_size (pf : VfsPath * VfsFile) : VfsPath * VfsFile :=
  (pf.1, mkVfsFile (content pf.2) (created_at pf.2) (modified_at pf.2) (len (content pf.2))).

Definition unpack (clock : nat → Z) (archive_data : list Z) : SliverResult UnpackedSliver :=
  let? es := map_err SliverIo (archive_entries archive_data) in
  let? st := unpack_loop clock (mkUnpackState None None []) es in
  let? metadata := ok_or (u_metadata st) (MissingMetadata METADATA_FILENAME) in
  let? heap_data := ok_or (u_heap st) (MissingHeap HEAP_FILENAME) in
  if negb (is_supported_version (md_format_version metadata)) then
    Err (InvalidFormat (md_format_version metadata))
  else Ok (mkUnpacked metadata heap_data (fix_size <$> u_vfs st)).

Definition unpack_and_validate (clock : nat → Z) (archive_data : list Z)
    : SliverResult UnpackedSliver :=
  let? unpacked := unpack clock archive_data in
  match us_heap_data unpacked with
  | [] => Err (CorruptedArchive "Heap data is empty")
  | _ => Ok unpacked
  end.

(** [total_size]; [to_vec] is the compact rendering, of which only the length is used. *)
Definition total_size (to_vec : SliverMetadata → result (list Z) string) (u : UnpackedSliver) : Z :=
  let metadata_size := match to_vec (us_metadata u) with Ok v => len v | Err _ => 0 end in
  let vfs_size := foldr (λ pf acc, len (content (snd pf)) + acc) 0 (us_vfs_entries u) in
  metadata_size + len (us_heap_data u) + vfs_size.

(** ** [validate_sliver] of [mod.rs] *)

Record validate_state := mkValidateState {
  has_metadata : bool;
  has_heap : bool;
  metadata_version : option string;
}.

Definition validate_entry (st : validate_state) (entry_result : result TarEntry string)
    : SliverResult validate_state :=
  let? entry := map_err SliverIo entry_result in
  let? path_str := map_err SliverIo (e_path entry) in
  if String.eqb path_str METADATA_FILENAME then
    let? bytes := map_err SliverIo (e_content entry) in
    let? m := map_err SerializationError (from_json bytes) in
    Ok (mkValidateState true (has_heap st) (Some (md_format_version m)))
  else if String.eqb path_str HEAP_FILENAME then
    Ok (mkValidateState (has_metadata st) true (metadata_version st))
  else Ok st.

Fixpoint validate_loop (st : validate_state) (es : list (result TarEntry string))
    : SliverResult validate_state :=
  match es with
  | [] => Ok st
  | e :: rest => let? st' := validate_entry st e in validate_loop st' rest
  end.

Definition validate_sliver (archive_data : list Z) : SliverResult unit :=
  let? es := map_err SliverIo (archive_entries archive_data) in
  let? st := validate_loop (mkValidateState false false None) es in
  if negb (has_metadata st) then Err (MissingMetadata METADATA_FILENAME)
  else if negb (has_heap st) then Err (MissingHeap HEAP_FILENAME)
  else match metadata_version st with
       | Some version =>
           if negb (is_supported_version version) then Err (InvalidFormat version) else Ok tt
       | None => Ok tt
       end.
End archive.

(** ** Specification of the archive contents *)

Definition readable (r : result TarEntry string) : option (string * list Z) :=
  match r with
  | Ok (mkTarEntry (Ok n) _ (Ok c)) => Some (n, c)
  | _ => None
  end.

Definition ok_opt {A E} (r : result A E) : option A :=
  match r with Ok a => Some a | Err _ => None end.

Definition members (name : string) (es : list (string * list Z)) : list (list Z) :=
  omap (λ e, if String.eqb e.1 name then Some e.2 else None) es.

(** The files under the prefix, with the path texts behind it. *)
Definition vfs_members (es : list (string * list Z)) : list (string * list Z) :=
  omap (λ e, if String.eqb e.1 METADATA_FILENAME || String.eqb e.1 HEAP_FILENAME then None
             else v ← strip_prefix VFS_PREFIX e.1; Some (v, e.2)) es.

Definition vfs_file_of (e : string * list Z) : option (VfsPath * list Z) :=
  p ← ok_opt (new e.1); Some (p, e.2).

Definition last_or {A} (o : option A) (l : list A) : option A :=
  match last l with Some x => Some x | None => o end.

Lemma last_or_cons {A} (o : option A) x l : last_or o (x :: l) = last_or (Some x) l.
Proof.
  unfold last_or. rewrite last_cons. by destruct (last l).
Qed.

Lemma last_or_None {A} (l : list A) : last_or None l = last l.
Proof. unfold last_or. by destruct (last l). Qed.

Lemma ok_opt_Some {A E} (r : result A E) a : ok_opt r = Some a ↔ r = Ok a.
Proof. destruct r; naive_solver. Qed.

Definition is_some {A} (o : option A) : bool := match o with Some _ => true | None => false end.

Lemma is_ok_ok_opt {A E} (r : result A E) : is_some (ok_opt r) = is_ok r.
Proof. by destruct r. Qed.

Lemma map_err_ok {T E F} (f : E → F) (r : result T E) t : map_err f r = Ok t ↔ r = Ok t.
Proof. destruct r; naive_solver. Qed.

Lemma ok_or_ok {T E} (o : option T) (e : E) t : ok_or o e = Ok t ↔ o = Some t.
Proof. destruct o; naive_solver. Qed.

Lemma readable_Some r n c :
  readable r = Some (n, c) ↔ ∃ s, r = Ok (mkTarEntry (Ok n) s (Ok c)).
Proof.
  split; [|by intros [s ->]].
  destruct r as [[[p|] s [d|]]|]; simpl; intros [= -> ->]; eauto.
Qed.

Definition entry_of (e : (string * list Z) * Z) : result TarEntry string :=
  Ok (mkTarEntry (Ok e.1.1) e.2 (Ok e.1.2)).

Lemma readable_entries es l :
  mapM readable es = Some l ↔ ∃ nes, es = entry_of <$> nes ∧ nes.*1 = l.
Proof.
  rewrite mapM_Some. split.
  - induction 1 as [|r [n c] es l Hr _ (nes & -> & <-)]; [by exists []|].
    apply readable_Some in Hr as [s ->]. by exists ((n, c, s) :: nes).
  - intros (nes & -> & <-). induction nes as [|[[n c] s] nes IH]; constructor; done.
Qed.

Section specs.
Context `{TAR : Tar} `{JSON : MetadataJson}.

Lemma unpack_entry_inv clock st r st' :
  unpack_entry clock st r = Ok st' → ∃ n c, readable r = Some (n, c).
Proof.
  unfold unpack_entry. destruct r as [[[n|] s [c|]]|]; simpl; try done. eauto.
Qed.

Definition parsed (es : list (string * list Z)) : option (list SliverMetadata) :=
  mapM (λ c, ok_opt (from_json c)) (members METADATA_FILENAME es).

Definition unpack_spec (clock : nat → Z) (st : unpack_state) (es : list (result TarEntry string))
    : option unpack_state :=
  nes ← mapM readable es;
  ms ← parsed nes;
  fs ← mapM vfs_file_of (vfs_members nes);
  Some (mkUnpackState (last_or (u_metadata st) ms)
          (last_or (u_heap st) (members HEAP_FILENAME nes))
          (u_vfs st ++ imap (λ i e, (e.1, entry_file clock (length (u_vfs st) + i) e.2)) fs)).

#[local] Arguments strip_prefix : simpl never.
#[local] Arguments entry_file : simpl never.
#[local] Arguments vfs_file_of : simpl never.

Lemma vfs_file_of_Some e f : vfs_file_of e = Some f ↔ new e.1 = Ok f.1 ∧ e.2 = f.2.
Proof.
  unfold vfs_file_of. destruct e as [v c], f as [q d]. cbn [fst snd].
  destruct (new v); simpl; naive_solver.
Qed.

Lemma vfs_file_of_ok v q c : new v = Ok q → vfs_file_of (v, c) = Some (q, c).
Proof. unfold vfs_file_of. cbn [fst snd]. by intros ->. Qed.

Lemma vfs_file_of_err v e c : new v = Err e → vfs_file_of (v, c) = None.
Proof. unfold vfs_file_of. cbn [fst snd]. by intros ->. Qed.

Lemma vfs_files_ok l : is_some (mapM vfs_file_of l) = forallb (λ e, is_ok (new e.1)) l.
Proof.
  induction l as [|[v c] l IH]; [done|]. cbn [mapM forallb fst]. rewrite <- IH.
  destruct (new v) as [q|e] eqn:Hq.
  - rewrite (vfs_file_of_ok v q c Hq). cbn. by destruct (mapM vfs_file_of l).
  - by rewrite (vfs_file_of_err v e c Hq).
Qed.

Lemma imap_snoc_stamp clock (l : list (VfsPath * VfsFile)) q c fs :
  (l ++ [(q, entry_file clock (length l) c)]) ++
    imap (λ i e, (e.1, entry_file clock (length (l ++ [(q, entry_file clock (length l) c)]) + i) e.2)) fs =
  l ++ imap (λ i e, (e.1, entry_file clock (length l + i) e.2)) ((q, c) :: fs).
Proof.
  rewrite <- app_assoc. simpl. rewrite Nat.add_0_r. do 2 f_equal.
  apply imap_ext. intros i x _. rewrite length_app. simpl. do 2 f_equal. lia.
Qed.

Lemma unpack_loop_spec clock es : ∀ st,
  ok_opt (unpack_loop clock st es) = unpack_spec clock st es.
Proof.
  unfold unpack_spec, parsed.
  induction es as [|r es IH]; intros st; simpl; [rewrite app_nil_r; by destruct st|].
  destruct (readable r) as [[n c]|] eqn:Hr; simpl; last first.
  { destruct (unpack_entry clock st r) as [s|] eqn:Hs; [|done].
    destruct (unpack_entry_inv _ _ _ _ Hs) as (n & c & ?). congruence. }
  apply readable_Some in Hr as [s ->]. unfold unpack_entry. simpl.
  destruct (String.eqb_spec n METADATA_FILENAME) as [->|Hn1]; simpl.
  { destruct (from_json c) as [m|] eqn:Hm; simpl.
    - rewrite IH. destruct (mapM readable es) as [nes|]; simpl; [|done]. rewrite Hm. simpl.
      destruct (mapM _ (members METADATA_FILENAME nes)); simpl; [|done]. by rewrite last_or_cons.
    - destruct (mapM readable es) as [nes|]; simpl; [|done]. by rewrite Hm. }
  apply String.eqb_neq in Hn1.
  destruct (String.eqb_spec n HEAP_FILENAME) as [->|Hn2]; simpl.
  { rewrite IH. destruct (mapM readable es) as [nes|]; simpl; [|done].
    destruct (mapM _ (members METADATA_FILENAME nes)); simpl; [|done]. by rewrite last_or_cons. }
  apply String.eqb_neq in Hn2.
  destruct (strip_prefix VFS_PREFIX n) as [v|] eqn:Hv; simpl.
  - destruct (new v) as [q|] eqn:Hq; simpl.
    + rewrite IH. destruct (mapM readable es) as [nes|]; simpl; [|done].
      rewrite Hn1, Hn2, Hv. simpl. rewrite (vfs_file_of_ok v q c Hq). simpl.
      destruct (mapM _ (members METADATA_FILENAME nes)); simpl; [|done].
      destruct (mapM _ (vfs_members nes)); simpl; [|done].
      by rewrite imap_snoc_stamp.
    + destruct (mapM readable es) as [nes|]; simpl; [|done].
      rewrite Hn1, Hn2, Hv. simpl. rewrite (vfs_file_of_err v _ c Hq). simpl.
      by destruct (mapM _ (members METADATA_FILENAME nes)).
  - rewrite IH. destruct (mapM readable es) as [nes|]; simpl; [|done].
    by rewrite Hn1, Hn2, Hv.
Qed.

(** ** What unpacking gives *)

Definition unpacked_of (clock : nat → Z) (nes : list (string * list Z)) : option UnpackedSliver :=
  ms ← parsed nes;
  fs ← mapM vfs_file_of (vfs_members nes);
  m ← last ms;
  h ← last (members HEAP_FILENAME nes);
  if is_supported_version (md_format_version m)
  then Some (mkUnpacked m h (imap (λ i e, fix_size (e.1, entry_file clock i e.2)) fs))
  else None.

Lemma unpack_ok_opt clock data es :
  archive_entries data = Ok es →
  ok_opt (unpack clock data) = nes ← mapM readable es; unpacked_of clock nes.
Proof.
  intros Hes. unfold unpack. rewrite Hes. simpl.
  pose proof (unpack_loop_spec clock es (mkUnpackState None None [])) as Hs.
  unfold unpack_spec, unpacked_of in *. simpl in Hs.
  destruct (unpack_loop clock _ es) as [st|] eqn:Hl; simpl in *.
  - destruct (mapM readable es) as [nes|]; simpl in *; [|done].
    destruct (parsed nes) as [ms|]; simpl in *; [|done].
    destruct (mapM _ (vfs_members nes)) as [fs|]; simpl in *; [|done].
    injection Hs as ->. simpl. rewrite !last_or_None.
    destruct (last ms) as [m|]; simpl; [|done].
    destruct (last (members HEAP_FILENAME nes)) as [h|]; simpl; [|done].
    destruct (is_supported_version _); simpl; [|done].
    by rewrite fmap_imap.
  - destruct (mapM readable es) as [nes|]; simpl in *; [|done].
    destruct (parsed nes) as [ms|]; simpl in *; [|done].
    by destruct (mapM _ (vfs_members nes)) as [fs|].
Qed.
Definition nonempty {A} (l : list A) : bool := match l with [] => false | _ => true end.

Lemma validate_loop_spec es : ∀ st nes,
  mapM readable es = Some nes →
  ok_opt (validate_loop st es) =
    ms ← parsed nes;
    Some (mkValidateState (has_metadata st || nonempty ms)
            (has_heap st || nonempty (members HEAP_FILENAME nes))
            (last_or (metadata_version st) (md_format_version <$> ms))).
Proof.
  unfold parsed. induction es as [|r es IH]; intros st nes Hn; simpl in Hn.
  { injection Hn as <-. simpl. rewrite !orb_false_r. by destruct st. }
  destruct (readable r) as [[n c]|] eqn:Hr; simpl in Hn; [|done].
  destruct (mapM readable es) as [nes'|]; simpl in Hn; [|done]. injection Hn as <-.
  apply readable_Some in Hr as [s ->]. simpl. unfold validate_entry. simpl.
  destruct (String.eqb_spec n METADATA_FILENAME) as [->|Hn1]; simpl.
  { destruct (from_json c) as [m|] eqn:Hm; simpl; [|by rewrite ?Hm].
    rewrite (IH _ nes'), ?Hm by done. simpl.
    destruct (mapM _ (members METADATA_FILENAME nes')); simpl; [|done].
    by rewrite orb_true_r, last_or_cons. }
  destruct (String.eqb_spec n HEAP_FILENAME) as [->|Hn2]; simpl; rewrite (IH _ nes') by done.
  - destruct (mapM _ (members METADATA_FILENAME nes')); simpl; [|done].
    by rewrite (orb_true_r (has_heap st)).
  - done.
Qed.

Lemma last_is_Some_cons {A} (x : A) l : is_Some (last (x :: l)).
Proof. rewrite last_cons. destruct (last l); eauto. Qed.

(** ** What packing writes *)

(** A path the archive gives back: the tar crate drops "." segments. *)
Definition archivable (e : VfsPath * VfsFile) : Prop :=
  wf_path e.1 ∧ "." ∉ segments e.1.

Definition packed_vfs (entries : list (VfsPath * VfsFile)) : list (string * list Z) :=
  (λ e, (VFS_PREFIX +:+ as_str e.1, content e.2)) <$> entries.

Context {TL : TarLaws} {JL : MetadataJsonLaws}.

Lemma plain_vfs_name e : archivable e → plain_name (VFS_PREFIX +:+ as_str e.1).
Proof.
  intros [Hw Hd]. split.
  - rewrite contains_char_app. by rewrite (wf_nul _ Hw).
  - change (VFS_PREFIX +:+ as_str e.1) with ("vfs" +:+ String slash (as_str e.1)).
    rewrite split_app. apply Forall_app. split.
    + repeat constructor; done.
    + apply Forall_forall. intros w Hin. pose proof (wf_segs _ Hw) as Hs.
      rewrite Forall_forall in Hs. destruct (Hs w Hin). split_and!; [done| |done].
      by intros ->.
Qed.

Lemma append_const b name size c :
  plain_name name → slen name ≤ 100 → size = len c →
  ∃ b', append b (mkHeader name size 420 0) c = Ok b' ∧ contents b' = contents b ++ [(name, c)].
Proof. intros. by apply append_ok. Qed.

Lemma add_vfs_entries_ok now entries : ∀ p,
  Forall archivable entries →
  ∃ p', add_vfs_entries now p entries = Ok p' ∧
    contents (pk_builder p') = contents (pk_builder p) ++ packed_vfs entries ∧
    pk_entries p' = pk_entries p ++ (packed_vfs entries).*1.
Proof.
  induction entries as [|[q f] es IH]; intros p HF; simpl.
  { exists p. by rewrite !app_nil_r. }
  inversion HF as [|? ? Ha HF']; subst. unfold add_vfs_entry.
  destruct (append_data_ok (pk_builder p) (mkHeader "" (len (content f)) 420 (header_mtime now f))
              (VFS_PREFIX +:+ as_str q) (content f)) as (b' & Hb & Hc); [exact (plain_vfs_name _ Ha)|done|].
  rewrite Hb. cbn [map_err result_bind].
  destruct (IH (mkPacker b' (pk_entries p ++ [VFS_PREFIX +:+ as_str q])) HF') as (p' & -> & Hp & He).
  exists p'. split; [done|]. rewrite Hp, He. cbn [pk_builder pk_entries]. rewrite Hc.
  by rewrite <- !app_assoc.
Qed.

Definition packed (m : SliverMetadata) (j heap_data : list Z) (entries : list (VfsPath * VfsFile))
    : list (string * list Z) :=
  [(METADATA_FILENAME, j); (HEAP_FILENAME, heap_data)] ++ packed_vfs entries ++
  [(MANIFEST_FILENAME, as_bytes (build_manifest
      ([METADATA_FILENAME; HEAP_FILENAME] ++ (packed_vfs entries).*1)))].

Lemma pack_ok now m heap_data entries :
  Forall archivable (default [] entries) →
  ∃ j data, to_json m = Ok j ∧ from_json j = Ok m ∧ pack_sliver now m heap_data entries = Ok data ∧
    archive_entries data = Ok (read_back <$> packed m j heap_data (default [] entries)).
Proof.
  intros HF. destruct (json_roundtrip m) as (j & Hj & Hm). unfold pack_sliver, add_metadata.
  rewrite Hj. cbn [map_err result_bind packer_new pk_builder pk_entries].
  destruct (append_const builder_new METADATA_FILENAME (len j) j) as (b1 & -> & H1);
    [by apply (bool_decide_unpack _)|done|done|]. cbn [map_err result_bind]. unfold add_heap.
  cbn [pk_builder pk_entries].
  destruct (append_const b1 HEAP_FILENAME (len heap_data) heap_data) as (b2 & -> & H2);
    [by apply (bool_decide_unpack _)|done|done|]. cbn [map_err result_bind].
  set (p2 := mkPacker b2 _).
  assert (∃ p3, match entries with Some es => add_vfs_entries now p2 es | None => Ok p2 end = Ok p3 ∧
    contents (pk_builder p3) = contents b2 ++ packed_vfs (default [] entries) ∧
    pk_entries p3 = [METADATA_FILENAME; HEAP_FILENAME] ++ (packed_vfs (default [] entries)).*1)
    as (p3 & -> & Hc3 & He3).
  { destruct entries as [es|]; [by apply add_vfs_entries_ok|].
    exists p2. by rewrite !app_nil_r. }
  cbn [result_bind]. unfold finalize, add_manifest.
  set (mb := as_bytes _).
  destruct (append_const (pk_builder p3) MANIFEST_FILENAME (len mb) mb) as (b4 & -> & H4);
    [by apply (bool_decide_unpack _)|done|done|]. cbn [map_err result_bind pk_builder].
  destruct (tar_finish_ok b4) as (data & -> & Hd). exists j, data. split_and!; try done.
  rewrite Hd, H4, Hc3, H2, H1, contents_new. unfold packed, mb. by rewrite He3, <- !app_assoc.
Qed.
(** The entries a round trip gives back: same paths and contents, new times. *)
Definition restamp (clock : nat → Z) (entries : list (VfsPath * VfsFile)) : list (VfsPath * VfsFile) :=
  imap (λ i e, (e.1, mkVfsFile (content e.2) (clock (2 * i)%nat) (clock (2 * i + 1)%nat)
                       (len (content e.2)))) entries.

Lemma mapM_readable_read_back nes : mapM readable (read_back <$> nes) = Some nes.
Proof.
  induction nes as [|[n c] nes IH]; [done|]. rewrite fmap_cons. simpl. by rewrite IH.
Qed.

Lemma members_vfs name entries rest :
  strip_prefix VFS_PREFIX name = None →
  members name (packed_vfs entries ++ rest) = members name rest.
Proof.
  intros Hn. induction entries as [|[q f] es IH]; [done|].
  change (members name ((VFS_PREFIX +:+ as_str q, content f) :: (packed_vfs es ++ rest))
          = members name rest).
  unfold members in *. cbn [omap list_omap fst snd].
  destruct (String.eqb_spec (VFS_PREFIX +:+ as_str q) name) as [<-|_]; [|done].
  by rewrite (proj2 (strip_prefix_Some _ _ (as_str q))) in Hn.
Qed.

Lemma vfs_members_packed entries rest :
  vfs_members (packed_vfs entries ++ rest) =
    ((λ e, (as_str e.1, content e.2)) <$> entries) ++ vfs_members rest.
Proof.
  induction entries as [|[q f] es IH]; [done|].
  change (vfs_members ((VFS_PREFIX +:+ as_str q, content f) :: (packed_vfs es ++ rest))
          = (as_str q, content f) :: ((λ e, (as_str e.1, content e.2)) <$> es) ++ vfs_members rest).
  rewrite <- IH. unfold vfs_members. cbn [omap list_omap fst snd].
  assert (Hp : strip_prefix VFS_PREFIX (VFS_PREFIX +:+ as_str q) = Some (as_str q))
    by by apply strip_prefix_Some.
  rewrite Hp. destruct (_ || _) eqn:Ho; [|done].
  apply orb_true_iff in Ho as [Ho|Ho]; apply String.eqb_eq in Ho; by rewrite Ho in Hp.
Qed.

Lemma vfs_files_packed entries :
  Forall archivable entries →
  mapM vfs_file_of ((λ e, (as_str e.1, content e.2)) <$> entries) =
    Some ((λ e, (e.1, content e.2)) <$> entries).
Proof.
  induction 1 as [|[q f] es [Hw _] _ IH]; [done|]. rewrite !fmap_cons. cbn [fst snd].
  cbn [mapM]. rewrite (vfs_file_of_ok _ q) by (by apply new_wf_id). simpl. by rewrite IH.
Qed.

Lemma unpacked_packed clock m j heap_data entries :
  Forall archivable entries → from_json j = Ok m →
  unpacked_of clock (packed m j heap_data entries) =
    if is_supported_version (md_format_version m)
    then Some (mkUnpacked m heap_data (restamp clock entries)) else None.
Proof.
  intros HF Hj. unfold unpacked_of, packed, parsed.
  change (vfs_members ([(METADATA_FILENAME, j); (HEAP_FILENAME, heap_data)] ++ ?r))
    with (vfs_members r).
  change (members METADATA_FILENAME ([(METADATA_FILENAME, j); (HEAP_FILENAME, heap_data)] ++ ?r))
    with (j :: members METADATA_FILENAME r).
  change (members HEAP_FILENAME ([(METADATA_FILENAME, j); (HEAP_FILENAME, heap_data)] ++ ?r))
    with (heap_data :: members HEAP_FILENAME r).
  rewrite !members_vfs, vfs_members_packed by done.
  set (mf := as_bytes _). cbn [members omap list_omap fst snd].
  change (members METADATA_FILENAME [(MANIFEST_FILENAME, mf)]) with (@nil (list Z)).
  change (members HEAP_FILENAME [(MANIFEST_FILENAME, mf)]) with (@nil (list Z)).
  change (vfs_members [(MANIFEST_FILENAME, mf)]) with (@nil (string * list Z)).
  rewrite app_nil_r, vfs_files_packed by done. simpl. rewrite Hj. simpl.
  destruct (is_supported_version _); [|done]. do 2 f_equal.
  unfold restamp. rewrite imap_fmap. by apply imap_ext.
Qed.
Lemma pack_unpacks now clock m heap_data entries :
  md_format_version m = FORMAT_VERSION → Forall archivable entries →
  ∃ data, pack_sliver now m heap_data (Some entries) = Ok data ∧
    unpack clock data = Ok (mkUnpacked m heap_data (restamp clock entries)).
Proof.
  intros Hv HF.
  destruct (pack_ok now m heap_data (Some entries) HF) as (j & data & _ & Hj & Hp & Ha).
  exists data. split; [done|]. apply ok_opt_Some.
  rewrite (unpack_ok_opt clock data _ Ha), mapM_readable_read_back. cbn [mbind option_bind].
  rewrite (unpacked_packed _ _ _ _ _ HF Hj). unfold is_supported_version.
  by rewrite Hv.
Qed.

Lemma pack_unpacks_opt now clock m heap_data entries data :
  md_format_version m = FORMAT_VERSION → Forall archivable (default [] entries) →
  pack_sliver now m heap_data entries = Ok data →
  unpack clock data = Ok (mkUnpacked m heap_data (restamp clock (default [] entries))).
Proof.
  intros Hv HF Hp. destruct (pack_ok now m heap_data entries HF) as (j & data' & _ & Hj & Hp' & Ha).
  assert (data' = data) as -> by congruence. apply ok_opt_Some.
  rewrite (unpack_ok_opt clock data _ Ha), mapM_readable_read_back. cbn [mbind option_bind].
  rewrite (unpacked_packed _ _ _ _ _ HF Hj). unfold is_supported_version. by rewrite Hv.
Qed.

(** Path and content of an entry: what [restamp] keeps. *)
Definition bare (e : VfsPath * VfsFile) : VfsPath * list Z := (e.1, content e.2).

Lemma restamp_bare clock es : bare <$> restamp clock es = bare <$> es.
Proof. unfold restamp. rewrite fmap_imap. by rewrite <- (imap_const bare es). Qed.
End specs.

(** ** Instances for the examples: archives and descriptions as encoded numbers *)

Definition demo_decode {A} `{Countable A} (d : list Z) : option A :=
  match d with
  | [Z.pos p] => decode p
  | _ => None
  end.

Definition demo_Tar : Tar := {|
  builder := list (string * list Z);
  builder_new := [];
  append b h c := Ok (b ++ [(hd_path h, c)]);
  append_data b h name c := Ok (b ++ [(name, c)]);
  tar_finish b := Ok [Z.pos (encode b)];
  archive_entries d := match demo_decode d with
                       | Some b => Ok (read_back <$> (b : list (string * list Z)))
                       | None => Err "failed to read entire block"
                       end;
|}.

Lemma demo_TarLaws : @TarLaws demo_Tar.
Proof.
  refine (@Build_TarLaws demo_Tar (λ b, b) eq_refl _ _ _); simpl; eauto.
  intros b. exists [Z.pos (encode b)]. split; [done|]. unfold demo_decode. by rewrite decode_encode.
Defined.

Definition metadata_tuple (m : SliverMetadata) :=
  (md_name m, md_hostname m, md_created_at m, md_format_version m, md_nano_version m,
   md_description m, md_custom m).

Definition demo_Json : MetadataJson := {|
  to_json m := Ok [Z.pos (encode (metadata_tuple m))];
  from_json d := match demo_decode d with
                 | Some (n, h, c, f, v, ds, cu) => Ok (mkMetadata n h c f v ds cu)
                 | None => Err "expected value at line 1 column 1"
                 end;
|}.

Lemma demo_JsonLaws : @MetadataJsonLaws demo_Json.
Proof.
  constructor. intros m. exists [Z.pos (encode (metadata_tuple m))]. split; [done|].
  simpl. unfold demo_decode, metadata_tuple. rewrite decode_encode. by destruct m.
Defined.

Definition demo_entries : list (VfsPath * VfsFile) :=
  [(mkVfsPath "index.js", mkVfsFile [1; 2] 5 6 2); (mkVfsPath "lib/a.js", mkVfsFile [] 7 (-3) 0)].

Lemma demo_archivable : Forall archivable demo_entries.
Proof.
  repeat constructor; simpl; try (by vm_compute); try (vm_compute; set_solver).
Qed.

(** ** Properties *)

(** A packed sliver unpacks to what was packed: for a description in the current
    format and files whose paths are well formed and have no "." segment, packing
    succeeds and unpacking its bytes gives the same description, heap and files in
    the same order, duplicates included.  Only the file times differ (the archive
    keeps the modification time and the unpacker ignores it). *)
Theorem pack_unpack `{TarLaws} `{MetadataJsonLaws} (now : Z) (clock : nat → Z)
    (m : SliverMetadata) (heap_data : list Z) (entries : list (VfsPath * VfsFile))
    (Hv : md_format_version m = FORMAT_VERSION) (HF : Forall archivable entries) :
  ∃ data, pack_sliver now m heap_data (Some entries) = Ok data ∧
    unpack clock data = Ok (mkUnpacked m heap_data (restamp clock entries)).
Proof. by apply pack_unpacks. Qed.

Lemma pack_unpack_witness :
  ∃ data, @pack_sliver demo_Tar demo_Json 9 (metadata_new 1 "app.example.com" "1.1.0") [7; 7]
      (Some demo_entries) = Ok data ∧
    @unpack demo_Tar demo_Json Z.of_nat data =
      Ok (mkUnpacked (metadata_new 1 "app.example.com" "1.1.0") [7; 7]
        [(mkVfsPath "index.js", mkVfsFile [1; 2] 0 1 2); (mkVfsPath "lib/a.js", mkVfsFile [] 2 3 0)]).
Proof.
  exact (@pack_unpack demo_Tar demo_TarLaws demo_Json demo_JsonLaws 9 Z.of_nat
           (metadata_new 1 "app.example.com" "1.1.0") [7; 7] demo_entries eq_refl demo_archivable).
Defined.

(** C28. When an archive unpacks, and to what: every entry has to be readable, every
    member "meta.json" has to parse and every member under "vfs/" has to have a
    valid path; there must be a description and a heap, of which the last ones
    count, and the last description must be in format 1.0.  The files come in
    archive order with their size recomputed.  Everything else is an error. *)
Theorem unpack_exact `{Tar} `{MetadataJson} (clock : nat → Z) (data : list Z)
    (es : list (result TarEntry string)) (u : UnpackedSliver)
    (Hes : archive_entries data = Ok es) :
  unpack clock data = Ok u ↔
  ∃ nes ms fs,
    es = entry_of <$> nes ∧
    Forall2 (λ c m, from_json c = Ok m) (members METADATA_FILENAME nes.*1) ms ∧
    Forall2 (λ e f, new e.1 = Ok f.1 ∧ e.2 = f.2) (vfs_members nes.*1) fs ∧
    last ms = Some (us_metadata u) ∧
    last (members HEAP_FILENAME nes.*1) = Some (us_heap_data u) ∧
    md_format_version (us_metadata u) = FORMAT_VERSION ∧
    us_vfs_entries u = imap (λ i f, (f.1, mkVfsFile f.2 (clock (2 * i)%nat)
                                           (clock (2 * i + 1)%nat) (len f.2))) fs.
Proof.
  rewrite <- ok_opt_Some, (unpack_ok_opt clock data es Hes). unfold unpacked_of, parsed.
  rewrite bind_Some. setoid_rewrite readable_entries. split.
  - intros (l & (nes & -> & <-) & Hu). exists nes.
    apply bind_Some in Hu as (ms & Hms & Hu). apply bind_Some in Hu as (fs & Hfs & Hu).
    apply bind_Some in Hu as (m & Hm & Hu). apply bind_Some in Hu as (h & Hh & Hu).
    exists ms, fs. apply mapM_Some in Hms, Hfs.
    unfold is_supported_version in Hu.
    destruct (String.eqb_spec (md_format_version m) FORMAT_VERSION); [|done].
    injection Hu as <-. split_and!; try done.
    + apply (Forall2_impl _ _ _ _ Hms). intros c m'. apply ok_opt_Some.
    + apply (Forall2_impl _ _ _ _ Hfs). intros ? f. apply vfs_file_of_Some.
  - intros (nes & ms & fs & -> & Hms & Hfs & Hm & Hh & Hv & Hu). exists nes.*1. split; [by exists nes|].
    assert (mapM (λ c, ok_opt (from_json c)) (members METADATA_FILENAME nes.*1) = Some ms) as ->.
    { apply mapM_Some, (Forall2_impl _ _ _ _ Hms). intros c m. apply ok_opt_Some. }
    assert (mapM vfs_file_of (vfs_members nes.*1) = Some fs) as ->.
    { apply mapM_Some, (Forall2_impl _ _ _ _ Hfs). intros ? f. apply vfs_file_of_Some. }
    simpl. rewrite Hm, Hh. simpl. unfold is_supported_version. rewrite Hv.
    change (String.eqb FORMAT_VERSION FORMAT_VERSION) with true. cbv iota. f_equal.
    destruct u; simpl in *. by rewrite Hu.
Qed.

Lemma unpack_exact_witness :
  let es := entry_of <$> [("manifest.txt", [0], 1); ("heap.bin", [7], 1); ("vfs//a.js", [1; 2], 2);
                          ("meta.json", [5], 1)] in
  let tar := {| builder := unit; builder_new := (); append _ _ _ := Ok (); append_data _ _ _ _ := Ok ();
                tar_finish _ := Ok []; archive_entries _ := Ok es |} in
  let json := {| to_json _ := Ok [5]; from_json _ := Ok (metadata_new 1 "h" "1") |} in
  ∃ nes ms fs, es = entry_of <$> nes ∧
    Forall2 (λ c m, @from_json json c = Ok m) (members METADATA_FILENAME nes.*1) ms ∧
    Forall2 (λ e f, new e.1 = Ok f.1 ∧ e.2 = f.2) (vfs_members nes.*1) fs ∧
    last ms = Some (metadata_new 1 "h" "1") ∧
    last (members HEAP_FILENAME nes.*1) = Some [7] ∧
    "1.0" = FORMAT_VERSION ∧
    [(mkVfsPath "a.js", mkVfsFile [1; 2] 0 1 2)] =
      imap (λ i f, (f.1, mkVfsFile f.2 (Z.of_nat (2 * i)) (Z.of_nat (2 * i + 1)) (len f.2))) fs.
Proof.
  intros es tar json.
  exact (proj1 (@unpack_exact tar json Z.of_nat [] es
    (mkUnpacked (metadata_new 1 "h" "1") [7] [(mkVfsPath "a.js", mkVfsFile [1; 2] 0 1 2)]) eq_refl)
    ltac:(vm_compute; reflexivity)).
Defined.

(** The quick check of an archive and unpacking agree up to the file paths: for
    an archive whose members can all be read, unpacking succeeds exactly when
    [validate_sliver] accepts it and the path of every member under "vfs/" is
    valid.  So the quick check alone is weaker than its documentation reads. *)
Theorem unpack_validate_agree `{Tar} `{MetadataJson} (clock : nat → Z) (data : list Z)
    (es : list ((string * list Z) * Z)) (Hes : archive_entries data = Ok (entry_of <$> es)) :
  is_ok (unpack clock data) =
    is_ok (validate_sliver data) && forallb (λ e, is_ok (new e.1)) (vfs_members es.*1).
Proof.
  assert (Hr : mapM readable (entry_of <$> es) = Some es.*1) by (apply readable_entries; eauto).
  rewrite <- (is_ok_ok_opt (unpack clock data)), (unpack_ok_opt clock data _ Hes), Hr.
  cbn [mbind option_bind]. unfold validate_sliver. rewrite Hes. cbn [map_err result_bind].
  pose proof (validate_loop_spec (entry_of <$> es) (mkValidateState false false None) _ Hr) as Hv.
  unfold unpacked_of. destruct (parsed es.*1) as [ms|] eqn:Hp; cbn [mbind option_bind] in *; last first.
  { by destruct (validate_loop _ _). }
  apply ok_opt_Some in Hv as ->. cbn. rewrite <- vfs_files_ok.
  destruct (mapM vfs_file_of _) as [fs|]; cbn; last first.
  { rewrite andb_false_r. by destruct (last ms), (last (members HEAP_FILENAME es.*1)). }
  rewrite andb_true_r, last_or_None, fmap_last. destruct ms as [|m0 ms].
  { done. }
  cbn [nonempty negb orb]. destruct (last_is_Some_cons m0 ms) as [m ->]. cbn.
  destruct (members HEAP_FILENAME es.*1) as [|h hs]; [done|]. cbn [nonempty negb].
  destruct (last_is_Some_cons h hs) as [h' ->]. cbn. by destruct (is_supported_version _).
Qed.

Lemma unpack_validate_agree_witness :
  let es := [("heap.bin", [7], 1); ("vfs/../a", [1; 2], 2); ("meta.json", [5], 1)] in
  let tar := {| builder := unit; builder_new := (); append _ _ _ := Ok (); append_data _ _ _ _ := Ok ();
                tar_finish _ := Ok []; archive_entries _ := Ok (entry_of <$> es) |} in
  let json := {| to_json _ := Ok [5]; from_json _ := Ok (metadata_new 1 "h" "1") |} in
  is_ok (@validate_sliver tar json []) = true ∧ is_ok (@unpack tar json Z.of_nat []) = false.
Proof.
  intros es tar json. split; [reflexivity|].
  rewrite (@unpack_validate_agree tar json Z.of_nat [] es eq_refl). reflexivity.
Defined.
