(* ===== verification/SliverCheck.v ===== *)
(** * [src/sliver/validation.rs]: the integrity check of a sliver file and the
    search for similar names *)

From stdpp Require Import base gmap list strings pretty.
From Stdlib Require Import Ascii ZArith Lia.
From S2P Require Import Prelude RustString RustPath VfsPath Sliver.

Open Scope Z_scope.

(** ** Data *)

Inductive CorruptionType :=
| InvalidTar (reason : string)
| CMissingMetadata
| CMissingHeap
| InvalidMetadata (error : string)
| TruncatedFile (expected found : Z) (entry : string)
| EmptyFile (entry : string)
| InvalidExtension (found : string).

Definition display_corruption (c : CorruptionType) : string :=
  match c with
  | InvalidTar reason => "Invalid tar archive: " +:+ reason
  | CMissingMetadata => "Missing " +:+ (METADATA_FILENAME +:+ " (required)")
  | CMissingHeap => "Missing heap.bin (required)"
  | InvalidMetadata error => "Corrupted " +:+ (METADATA_FILENAME +:+ (": " +:+ error))
  | TruncatedFile expected found entry =>
      "Truncated file " +:+ (entry +:+ (": expected " +:+ (pretty expected +:+
        (" bytes, found " +:+ pretty found))))
  | EmptyFile entry => "Empty required file: " +:+ entry
  | InvalidExtension found => "Invalid file extension: " +:+ (found +:+ " (expected .sliver)")
  end.

(** [Path::extension]: what follows the last dot of the file name, when the dot is
    not its first character. *)
Definition path_extension (p : string) : option string :=
  match path_file_name p with
  | None => None
  | Some name =>
      match rfind_char dot name with
      | Some (S i) => Some (sdrop (S (S i)) name)
      | _ => None
      end
  end.

(** ** [validate_sliver_integrity] *)

Record scan_state := mkScan {
  found_metadata : bool;
  found_heap : bool;
  errors : list CorruptionType;
}.

Section integrity.
Context `{TAR : Tar} `{JSON : MetadataJson}.

(** What [Path::exists] and [File::open] say about a path, and whether bytes are
    UTF-8 ([read_to_string]). *)
Context (path_exists : string → bool) (open_file : string → result (list Z) string)
        (utf8_error : list Z → option string).

Definition push_error (st : scan_state) (e : CorruptionType) : scan_state :=
  mkScan (found_metadata st) (found_heap st) (errors st ++ [e]).

(** The check of a "meta.json" of non-zero size. *)
Definition metadata_error (entry : TarEntry) : option CorruptionType :=
  match e_content entry with
  | Err e => Some (InvalidMetadata e)
  | Ok bytes =>
      match utf8_error bytes with
      | Some e => Some (InvalidMetadata e)
      | None => match from_json bytes with
                | Err e => Some (InvalidMetadata e)
                | Ok _ => None
                end
      end
  end.

Definition scan_entry (st : scan_state) (entry_result : result TarEntry string) : scan_state :=
  match entry_result with
  | Err e => push_error st (InvalidTar e)
  | Ok entry =>
      match e_path entry with
      | Err e => push_error st (InvalidTar ("Invalid entry path: " +:+ e))
      | Ok path_str =>
          if String.eqb path_str METADATA_FILENAME then
            let st' := mkScan true (found_heap st) (errors st) in
            if e_size entry =? 0 then push_error st' (EmptyFile METADATA_FILENAME)
            else match metadata_error entry with
                 | Some e => push_error st' e
                 | None => st'
                 end
          else if String.eqb path_str "heap.bin" then
            let st' := mkScan (found_metadata st) true (errors st) in
            if e_size entry =? 0 then push_error st' (EmptyFile "heap.bin") else st'
          else st
      end
  end.

Definition validate_sliver_integrity (path : string) : SliverResult unit :=
  if negb (path_exists path) then Err (SliverIo ("Sliver file not found: " +:+ path))
  else
    let ext := path_extension path in
    if negb (bool_decide (ext = Some "sliver")) then
      Err (CorruptedArchive ("Invalid extension: " +:+ (default "none" ext +:+ " (expected .sliver)")))
    else
      let? data := map_err SliverIo (open_file path) in
      match archive_entries data with
      | Err e => Err (CorruptedArchive ("Failed to read archive: " +:+ e))
      | Ok entries =>
          let st := foldl scan_entry (mkScan false false []) entries in
          let st1 := if found_metadata st then st else push_error st CMissingMetadata in
          let st2 := if found_heap st1 then st1 else push_error st1 CMissingHeap in
          match errors st2 with
          | first_error :: _ => Err (CorruptedArchive (display_corruption first_error))
          | [] => Ok tt
          end
      end.

(** ** Facts *)

Lemma scan_other st n c :
  n ≠ METADATA_FILENAME → n ≠ HEAP_FILENAME → scan_entry st (read_back (n, c)) = st.
Proof.
  intros H1 H2. unfold scan_entry, read_back. cbn [e_path fst snd].
  change "heap.bin" with HEAP_FILENAME.
  by rewrite (proj2 (String.eqb_neq _ _) H1), (proj2 (String.eqb_neq _ _) H2).
Qed.

Lemma scan_vfs st entries : foldl scan_entry st (read_back <$> packed_vfs entries) = st.
Proof.
  induction entries as [|[q f] es IH]; [done|]. unfold packed_vfs. rewrite !fmap_cons.
  cbn [foldl fst snd]. rewrite scan_other; [done| |];
    unfold VFS_PREFIX, METADATA_FILENAME, HEAP_FILENAME; rewrite str_app_cons; congruence.
Qed.

Lemma scan_metadata st j m :
  from_json j = Ok m → j ≠ [] → utf8_error j = None →
  scan_entry st (read_back (METADATA_FILENAME, j)) = mkScan true (found_heap st) (errors st).
Proof.
  intros Hj Hn Hu. unfold scan_entry, read_back. cbn [e_path e_size fst snd].
  change (String.eqb METADATA_FILENAME METADATA_FILENAME) with true. cbv iota.
  destruct j as [|x j]; [done|]. change (len (x :: j) =? 0) with false. cbv iota.
  unfold metadata_error. cbn [e_content]. by rewrite Hu, Hj.
Qed.

Lemma scan_heap st h :
  scan_entry st (read_back (HEAP_FILENAME, h)) =
  mkScan (found_metadata st) true
    (errors st ++ match h with [] => [EmptyFile "heap.bin"] | _ => [] end).
Proof.
  unfold scan_entry, read_back. cbn [e_path e_size fst snd].
  change (String.eqb HEAP_FILENAME METADATA_FILENAME) with false.
  change (String.eqb HEAP_FILENAME "heap.bin") with true. cbv iota.
  destruct h as [|x h]; [done|]. change (len (x :: h) =? 0) with false.
  cbv iota. by rewrite app_nil_r.
Qed.

(** The check of a file that holds what [pack_sliver] wrote. *)
Lemma integrity_packed path data m j heap_data entries :
  path_exists path = true → path_extension path = Some "sliver" → open_file path = Ok data →
  archive_entries data = Ok (read_back <$> packed m j heap_data entries) →
  from_json j = Ok m → j ≠ [] → utf8_error j = None →
  validate_sliver_integrity path =
    match heap_data with
    | [] => Err (CorruptedArchive "Empty required file: heap.bin")
    | _ => Ok tt
    end.
Proof.
  intros Hp He Ho Ha Hj Hne Hu. unfold validate_sliver_integrity. rewrite Hp, He, Ho.
  rewrite bool_decide_eq_true_2 by done. cbn [negb map_err result_bind]. rewrite Ha.
  unfold packed. rewrite !fmap_app, !foldl_app.
  rewrite !fmap_cons, fmap_nil. cbn [foldl].
  rewrite (scan_metadata _ _ _ Hj Hne Hu), scan_heap, scan_vfs, scan_other by done.
  cbn [found_metadata found_heap errors app]. by destruct heap_data.
Qed.
End integrity.

(** ** [levenshtein_distance] and [find_similar_internal] *)

(** [str::chars]: the bytes of each character; bytes 128 to 191 continue one. *)
Definition is_continuation (a : ascii) : bool :=
  let n := N_of_ascii a in (128 <=? n)%N && (n <? 192)%N.

Fixpoint chars (s : string) : list string :=
  match s with
  | EmptyString => []
  | String a s' =>
      match chars s' with
      | String b g :: gs =>
          if is_continuation b then String a (String b g) :: gs
          else String a "" :: String b g :: gs
      | gs => String a "" :: gs
      end
  end.

Definition enumerate {A} (l : list A) : list (nat * A) := imap (λ i x, (i, x)) l.

(** [matrix[i][j]] and its update; every index below is in range ([matrix_shape]). *)
Abbreviation matrix := (list (list nat)).

Definition cell (m : matrix) (i j : nat) : nat := (m !!! i) !!! j.

Definition set_cell (m : matrix) (i j v : nat) : matrix := alter (λ row, <[j := v]> row) i m.

Section levenshtein.
Context {A : Type} `{EqDecision A}.

Definition fill_cell (i : nat) (a_char : A) (m : matrix) (jb : nat * A) : matrix :=
  let (j, b_char) := jb in
  let cost := if bool_decide (a_char = b_char) then 0%nat else 1%nat in
  set_cell m (S i) (S j)
    (Nat.min (Nat.min (cell m i (S j) + 1) (cell m (S i) j + 1)) (cell m i j + cost)).

Definition fill_row (b : list A) (m : matrix) (ia : nat * A) : matrix :=
  foldl (fill_cell ia.1 ia.2) m (enumerate b).

Definition initial_matrix (a_len b_len : nat) : matrix :=
  let m := replicate (S a_len) (replicate (S b_len) 0%nat) in
  let m := foldl (λ m i, set_cell m i 0 i) m (seq 0 (S a_len)) in
  foldl (λ m j, set_cell m 0 j j) m (seq 0 (S b_len)).

Definition levenshtein_distance (a b : list A) : nat :=
  let a_len := length a in
  let b_len := length b in
  if (a_len =? 0)%nat then b_len
  else if (b_len =? 0)%nat then a_len
  else cell (foldl (fill_row b) (initial_matrix a_len b_len) (enumerate a)) a_len b_len.

(** *** The distance as the least number of edits *)

Inductive align : list A → list A → nat → Prop :=
| al_nil : align [] [] 0
| al_keep x a b n : align a b n → align (x :: a) (x :: b) n
| al_replace x y a b n : align a b n → align (x :: a) (y :: b) (S n)
| al_delete x a b n : align a b n → align (x :: a) b (S n)
| al_insert y a b n : align a b n → align a (y :: b) (S n).

Fixpoint lev (a b : list A) {struct a} : nat :=
  match a with
  | [] => length b
  | x :: a' =>
      (fix go (b : list A) : nat :=
         match b with
         | [] => length a
         | y :: b' => Nat.min (Nat.min (S (lev a' b)) (S (go b')))
                       (lev a' b' + if bool_decide (x = y) then 0 else 1)
         end) b
  end.

Lemma lev_nil_r a : lev a [] = length a.
Proof. by destruct a. Qed.

Lemma lev_cons x a y b :
  lev (x :: a) (y :: b) =
    Nat.min (Nat.min (S (lev a (y :: b))) (S (lev (x :: a) b)))
            (lev a b + if bool_decide (x = y) then 0 else 1).
Proof. done. Qed.

Lemma align_inserts b : align [] b (length b).
Proof. induction b; simpl; by constructor. Qed.

Lemma align_deletes a : align a [] (length a).
Proof. induction a; simpl; by constructor. Qed.

Lemma lev_align a b : align a b (lev a b).
Proof.
  revert b. induction a as [|x a IHa]; intros b; [apply align_inserts|].
  induction b as [|y b IHb]; [apply align_deletes|]. rewrite lev_cons.
  apply Nat.min_case; [apply Nat.min_case|].
  - apply al_delete, IHa.
  - by apply al_insert.
  - case_bool_decide as Hxy.
    + subst. rewrite Nat.add_0_r. apply al_keep, IHa.
    + rewrite Nat.add_1_r. apply al_replace, IHa.
Qed.

Lemma lev_least a b n : align a b n → (lev a b ≤ n)%nat.
Proof.
  induction 1 as [|x a b n _ IH|x y a b n _ IH|x a b n _ IH|y a b n _ IH]; [done| | | |].
  - rewrite lev_cons, bool_decide_eq_true_2 by done. lia.
  - rewrite lev_cons. case_bool_decide; lia.
  - destruct b as [|y b]; [rewrite lev_nil_r in *; simpl; lia|]. rewrite lev_cons. lia.
  - destruct a as [|x a]; [simpl in *; lia|]. rewrite lev_cons. lia.
Qed.

Lemma align_app a b n c d k : align a b n → align c d k → align (a ++ c) (b ++ d) (n + k).
Proof. induction 1; intros; simpl; [done|constructor; auto..]. Qed.

Lemma align_one x y : align [x] [y] (if bool_decide (x = y) then 0 else 1).
Proof. case_bool_decide; subst; repeat constructor. Qed.

Lemma align_rev a b n : align a b n → align (rev a) (rev b) n.
Proof.
  induction 1 as [|x a b n _ IH|x y a b n _ IH|x a b n _ IH|y a b n _ IH]; simpl; [constructor| | | |].
  - rewrite <- (Nat.add_0_r n). apply align_app; [done|]. repeat constructor.
  - rewrite <- Nat.add_1_r. apply align_app; [done|]. repeat constructor.
  - rewrite <- Nat.add_1_r, <- (app_nil_r (rev b)). apply align_app; [done|]. repeat constructor.
  - rewrite <- Nat.add_1_r, <- (app_nil_r (rev a)). apply align_app; [done|]. repeat constructor.
Qed.

Lemma lev_rev a b : lev (rev a) (rev b) = lev a b.
Proof.
  apply Nat.le_antisymm; apply lev_least; [apply align_rev, lev_align|].
  pose proof (align_rev _ _ _ (lev_align (rev a) (rev b))) as H. by rewrite !rev_involutive in H.
Qed.

(** *** The matrix *)

Definition shape (n k : nat) (m : matrix) : Prop :=
  length m = n ∧ ∀ i row, m !! i = Some row → length row = k.

Lemma shape_set n k m i j v : shape n k m → shape n k (set_cell m i j v).
Proof.
  intros [Hn Hk]. split; [by unfold set_cell; rewrite length_alter|].
  intros i' row. unfold set_cell. destruct (decide (i = i')) as [->|Hne].
  - rewrite list_lookup_alter_eq. destruct (m !! i') as [r|] eqn:Hr; [|done].
    simpl. intros [= <-]. rewrite length_insert. by apply (Hk i').
  - rewrite list_lookup_alter_ne by done. apply Hk.
Qed.

Lemma shape_row n k m i : shape n k m → (i < n)%nat → ∃ row, m !! i = Some row ∧ length row = k.
Proof.
  intros [Hn Hk] Hi. destruct (lookup_lt_is_Some_2 m i) as [row Hr]; [lia|]. eauto.
Qed.

Lemma cell_set n k m i j v i' j' :
  shape n k m → (i < n)%nat → (j < k)%nat →
  cell (set_cell m i j v) i' j' = if bool_decide (i = i' ∧ j = j') then v else cell m i' j'.
Proof.
  intros Hs Hi Hj. destruct (shape_row _ _ _ _ Hs Hi) as (row & Hr & Hl).
  unfold cell, set_cell. destruct (decide (i = i')) as [->|Hne].
  - rewrite (list_lookup_total_correct (alter _ _ _) i' (<[j:=v]> row))
      by (by rewrite list_lookup_alter_eq, Hr).
    rewrite (list_lookup_total_correct m i' row) by done.
    destruct (decide (j = j')) as [->|Hne].
    + rewrite bool_decide_eq_true_2 by done. apply list_lookup_total_insert_eq. lia.
    + rewrite bool_decide_eq_false_2 by naive_solver. by apply list_lookup_total_insert_ne.
  - rewrite bool_decide_eq_false_2 by naive_solver. f_equal.
    rewrite !list_lookup_total_alt, list_lookup_alter_ne by done. done.
Qed.

Lemma foldl_steps {S X} (P : nat → S → Prop) (f : S → X → S) (l : list X) (s : S) (k : nat) :
  P k s → (∀ i x s, l !! i = Some x → P (k + i)%nat s → P (Datatypes.S (k + i)) (f s x)) →
  P (k + length l)%nat (foldl f s l).
Proof.
  revert s k. induction l as [|x l IH]; intros s k H0 Hstep; simpl; [by rewrite Nat.add_0_r|].
  replace (k + Datatypes.S (length l))%nat with (Datatypes.S k + length l)%nat by lia.
  apply IH.
  - specialize (Hstep 0%nat x s). rewrite Nat.add_0_r in Hstep. by apply Hstep.
  - intros i y s' Hi Hp. specialize (Hstep (Datatypes.S i) y s' Hi).
    rewrite Nat.add_succ_r in Hstep. by apply Hstep.
Qed.

Lemma lookup_enumerate {X} (l : list X) i : enumerate l !! i = (λ x, (i, x)) <$> l !! i.
Proof. unfold enumerate. by rewrite list_lookup_imap. Qed.

Lemma length_enumerate {X} (l : list X) : length (enumerate l) = length l.
Proof. apply length_imap. Qed.

Lemma initial_matrix_spec la lb :
  shape (S la) (S lb) (initial_matrix la lb) ∧
  (∀ i, (i ≤ la)%nat → cell (initial_matrix la lb) i 0 = i) ∧
  (∀ j, (j ≤ lb)%nat → cell (initial_matrix la lb) 0 j = j).
Proof.
  unfold initial_matrix. set (m0 := replicate _ _).
  assert (H0 : shape (S la) (S lb) m0).
  { split; [apply length_replicate|]. intros i row Hr. apply lookup_replicate in Hr as [-> _].
    apply length_replicate. }
  set (m1 := foldl (λ m i, set_cell m i 0 i) m0 _).
  assert (H1 : shape (S la) (S lb) m1 ∧ ∀ i, (i < S la)%nat → cell m1 i 0 = i).
  { pose proof (foldl_steps (λ k m, shape (S la) (S lb) m ∧ ∀ i, (i < k)%nat → cell m i 0 = i)
      (λ m i, set_cell m i 0 i) (seq 0 (S la)) m0 0) as Hf.
    rewrite length_seq in Hf. apply Hf; [split; [done|lia]|].
    intros i x m Hx [Hs Hc]. apply lookup_seq in Hx as [-> Hlt]. rewrite Nat.add_0_l in *.
    split; [by apply shape_set|]. intros i' Hi'. rewrite (cell_set _ _ _ _ _ _ _ _ Hs) by lia.
    case_bool_decide as Heq; [lia|]. apply Hc. destruct (decide (i = i')); [naive_solver|lia]. }
  pose proof (foldl_steps (λ k m, shape (S la) (S lb) m ∧ (∀ i, (i < S la)%nat → cell m i 0 = i) ∧
      ∀ j, (j < k)%nat → cell m 0 j = j)
      (λ m j, set_cell m 0 j j) (seq 0 (S lb)) m1 0) as Hf.
  rewrite length_seq in Hf. destruct Hf as (Hs & Hi & Hj).
  - destruct H1. split_and!; [done..|lia].
  - intros i x m Hx (Hs & Hc & Hj). apply lookup_seq in Hx as [-> Hlt]. rewrite Nat.add_0_l in *.
    split_and!; [by apply shape_set| |].
    + intros i' Hi'. rewrite (cell_set _ _ _ _ _ _ _ _ Hs) by lia.
      case_bool_decide as Heq; [lia|]. by apply Hc.
    + intros j' Hj'. rewrite (cell_set _ _ _ _ _ _ _ _ Hs) by lia.
      case_bool_decide as Heq; [lia|]. apply Hj. destruct (decide (i = j')); [naive_solver|lia].
  - split_and!; [done|intros; apply Hi; lia|intros; apply Hj; lia].
Qed.

(** The cell for two prefixes. *)
Definition prefix_lev (a b : list A) (i j : nat) : nat := lev (rev (take i a)) (rev (take j b)).

Lemma prefix_lev_step a b i j x y :
  a !! i = Some x → b !! j = Some y →
  prefix_lev a b (S i) (S j) =
    Nat.min (Nat.min (prefix_lev a b i (S j) + 1) (prefix_lev a b (S i) j + 1))
            (prefix_lev a b i j + if bool_decide (x = y) then 0 else 1).
Proof.
  intros Hx Hy. unfold prefix_lev.
  assert (Ha : rev (take (S i) a) = x :: rev (take i a))
    by (rewrite (take_S_r _ _ x) by done; apply rev_app_distr).
  assert (Hb : rev (take (S j) b) = y :: rev (take j b))
    by (rewrite (take_S_r _ _ y) by done; apply rev_app_distr).
  rewrite Ha, Hb, lev_cons. lia.
Qed.

(** Rows up to [i] are complete, row [i + 1] up to column [j]. *)
Definition filled (a b : list A) (i j : nat) (m : matrix) : Prop :=
  shape (S (length a)) (S (length b)) m ∧
  ∀ p q, (p ≤ length a)%nat → (q ≤ length b)%nat →
    (p ≤ i ∨ q = 0 ∨ p = S i ∧ q ≤ j)%nat → cell m p q = prefix_lev a b p q.

Lemma initial_filled a b : filled a b 0 0 (initial_matrix (length a) (length b)).
Proof.
  destruct (initial_matrix_spec (length a) (length b)) as (Hs & Hi & Hj). split; [done|].
  intros p q Hp Hq Hc. unfold prefix_lev. destruct (decide (q = 0%nat)) as [->|Hq0].
  - rewrite Hi by done. simpl. rewrite lev_nil_r, length_rev, length_take. lia.
  - assert (p = 0%nat) as -> by lia. rewrite Hj by done. simpl. rewrite length_rev, length_take. lia.
Qed.

Lemma fill_row_filled a b i x m :
  a !! i = Some x → filled a b i 0 m → filled a b (S i) 0 (fill_row b m (i, x)).
Proof.
  intros Hx Hm. pose proof (lookup_lt_Some _ _ _ Hx) as Hi. unfold fill_row. cbn [fst snd].
  pose proof (foldl_steps (λ j m, filled a b i j m) (fill_cell i x) (enumerate b) m 0) as Hf.
  rewrite length_enumerate in Hf. destruct Hf as [Hs Hc]; [done| |].
  - intros j [j' y] m' Hj [Hs Hc]. rewrite lookup_enumerate in Hj. rewrite Nat.add_0_l in *.
    destruct (b !! j) as [y'|] eqn:Hy; [|done]. injection Hj as <- <-.
    pose proof (lookup_lt_Some _ _ _ Hy) as Hjl. unfold fill_cell. split; [by apply shape_set|].
    intros p q Hp Hq Hcase. rewrite (cell_set _ _ _ _ _ _ _ _ Hs) by lia.
    case_bool_decide as Heq.
    + destruct Heq as [<- <-]. rewrite (prefix_lev_step _ _ _ _ _ _ Hx Hy).
      rewrite !Hc by lia. by case_bool_decide.
    + apply Hc; [done..|]. lia.
  - split; [done|]. intros p q Hp Hq Hcase. apply Hc; [done..|]. simpl. lia.
Qed.

Lemma levenshtein_lev a b : levenshtein_distance a b = lev a b.
Proof.
  unfold levenshtein_distance. destruct (Nat.eqb_spec (length a) 0) as [Ha|Ha].
  { apply length_zero_iff_nil in Ha as ->. done. }
  destruct (Nat.eqb_spec (length b) 0) as [Hb|Hb].
  { apply length_zero_iff_nil in Hb as ->. by rewrite lev_nil_r. }
  pose proof (foldl_steps (λ i m, filled a b i 0 m) (fill_row b) (enumerate a)
    (initial_matrix (length a) (length b)) 0) as Hf.
  rewrite length_enumerate in Hf. destruct Hf as [_ Hc]; [apply initial_filled| |].
  - intros i [i' x] m Hi Hm. rewrite lookup_enumerate in Hi. rewrite Nat.add_0_l in *.
    destruct (a !! i) as [x'|] eqn:Hx; [|done]. injection Hi as <- <-. by apply fill_row_filled.
  - rewrite Hc by (simpl; lia). unfold prefix_lev. rewrite !firstn_all. apply lev_rev.
Qed.
End levenshtein.

Definition distance (a b : string) : nat := levenshtein_distance (chars a) (chars b).

Definition similar_step (target : string) (threshold : nat) (best_match : option (string * nat))
    (candidate : string) : option (string * nat) :=
  let d := distance target candidate in
  if (d <=? threshold)%nat && (d <? String.length target)%nat then
    match best_match with
    | None => Some (candidate, d)
    | Some (_, d') => if (d <? d')%nat then Some (candidate, d) else best_match
    end
  else best_match.

Definition find_similar_internal (target : string) (candidates : list string) (threshold : nat)
    : option string :=
  fst <$> foldl (similar_step target threshold) None candidates.

(** [find_similar_slivers]: the file stems of the given directories' entries. *)
Definition find_similar_slivers (read_dir : string → option (list string)) (input : string)
    (search_dirs : list string) : option string :=
  let candidates := dir ← search_dirs; entry ← default [] (read_dir dir);
                    option_list (path_file_stem entry) in
  find_similar_internal input candidates 3.

Definition admissible (target : string) (threshold : nat) (c : string) : Prop :=
  (distance target c ≤ threshold ∧ distance target c < String.length target)%nat.

(** [s] is the first of the candidates at the least distance. *)
Definition first_best (target : string) (threshold : nat) (cs : list string) (s : string) : Prop :=
  ∃ l1 l2, cs = l1 ++ s :: l2 ∧ admissible target threshold s ∧
    (∀ c, c ∈ l1 → admissible target threshold c → distance target s < distance target c)%nat ∧
    (∀ c, c ∈ l2 → admissible target threshold c → distance target s ≤ distance target c)%nat.

Definition best_inv (target : string) (threshold : nat) (cs : list string)
    (r : option (string * nat)) : Prop :=
  match r with
  | None => ∀ c, c ∈ cs → ¬ admissible target threshold c
  | Some (s, d) => d = distance target s ∧ first_best target threshold cs s
  end.

Lemma similar_step_inv target threshold cs r c :
  best_inv target threshold cs r →
  best_inv target threshold (cs ++ [c]) (similar_step target threshold r c).
Proof.
  intros Hr. unfold similar_step.
  destruct ((_ <=? _)%nat && _) eqn:Ha.
  - apply andb_true_iff in Ha as [H1%Nat.leb_le H2%Nat.ltb_lt].
    destruct r as [[s d]|]; simpl in Hr.
    + destruct Hr as [-> (l1 & l2 & -> & Hs & Hl1 & Hl2)].
      destruct (Nat.ltb_spec (distance target c) (distance target s)) as [Hlt|Hge].
      * split; [done|]. exists (l1 ++ s :: l2), []. split_and!; [done|done| |by intros ? ?%elem_of_nil].
        intros c' Hin Hadm. apply elem_of_app in Hin as [Hin|Hin]; [specialize (Hl1 _ Hin Hadm); lia|].
        apply elem_of_cons in Hin as [->|Hin]; [done|]. specialize (Hl2 _ Hin Hadm). lia.
      * split; [done|]. exists l1, (l2 ++ [c]). split_and!; [by rewrite <-app_assoc|done|done|].
        intros c' Hin Hadm. apply elem_of_app in Hin as [Hin|Hin]; [by apply Hl2|].
        apply list_elem_of_singleton in Hin as ->. lia.
    + split; [done|]. exists cs, []. split_and!; [done|done| |by intros ? ?%elem_of_nil].
      intros c' Hin Hadm. by destruct (Hr c').
  - assert (Hn : ¬ admissible target threshold c).
    { intros [H1%Nat.leb_le H2%Nat.ltb_lt]. by rewrite H1, H2 in Ha. }
    destruct r as [[s d]|]; simpl in *.
    + destruct Hr as [-> (l1 & l2 & -> & Hs & Hl1 & Hl2)]. split; [done|].
      exists l1, (l2 ++ [c]). split_and!; [by rewrite <-app_assoc|done|done|].
      intros c' Hin Hadm. apply elem_of_app in Hin as [Hin|Hin]; [by apply Hl2|].
      by apply list_elem_of_singleton in Hin as ->.
    + intros c' Hin Hadm. apply elem_of_app in Hin as [Hin|Hin]; [by apply (Hr c')|].
      by apply list_elem_of_singleton in Hin as ->.
Qed.

Lemma similar_fold_inv target threshold cs : ∀ pre r,
  best_inv target threshold pre r →
  best_inv target threshold (pre ++ cs) (foldl (similar_step target threshold) r cs).
Proof.
  induction cs as [|c cs IH]; intros pre r Hr; simpl; [by rewrite app_nil_r|].
  rewrite (cons_middle c pre cs), app_assoc. by apply IH, similar_step_inv.
Qed.

(** ** [check_version_compatibility] *)

(** [str::parse::<u32>]: an optional plus sign and digits. *)
Fixpoint digits_value (s : string) (acc : Z) : option Z :=
  match s with
  | EmptyString => Some acc
  | String a s' =>
      if is_digit a then
        let v := acc * 10 + (Z.of_N (N_of_ascii a) - 48) in
        if v <? two32 then digits_value s' v else None
      else None
  end.

Definition parse_u32 (s : string) : option Z :=
  let digits := match strip_prefix "+" s with Some d => d | None => s end in
  if is_empty digits then None else digits_value digits 0.

Definition major_version (v : string) : Z :=
  default 0 (head (split dot v) ≫= parse_u32).

(** The result and whether a warning is printed. *)
Definition check_version_compatibility (m : SliverMetadata) (runtime_version : string)
    : SliverResult unit * bool :=
  let sliver_major := major_version (md_nano_version m) in
  let runtime_major := major_version runtime_version in
  (Ok tt, negb (runtime_major =? sliver_major) && (runtime_major >? 0) && (sliver_major >? 0)).

(** ** Properties *)

(** [levenshtein_distance], which fills a matrix row by row, computes the least
    number of insertions, deletions and replacements that turn one sequence of
    characters into the other. *)
Theorem levenshtein_least_edits {A} `{EqDecision A} (a b : list A) :
  align a b (levenshtein_distance a b) ∧
  ∀ n, align a b n → (levenshtein_distance a b ≤ n)%nat.
Proof.
  rewrite levenshtein_lev. split; [apply lev_align|]. intros n. apply lev_least.
Qed.

(** A suggestion is the first of the closest candidates whose distance is within
    the threshold and below the length of the input; there is none exactly when no
    candidate qualifies. *)
Theorem find_similar_exact (target : string) (candidates : list string) (threshold : nat) :
  match find_similar_internal target candidates threshold with
  | Some s => first_best target threshold candidates s
  | None => ∀ c, c ∈ candidates → ¬ admissible target threshold c
  end.
Proof.
  unfold find_similar_internal.
  pose proof (similar_fold_inv target threshold candidates [] None) as H. simpl in H.
  destruct (foldl _ None candidates) as [[s d]|]; simpl; apply H; intros c Hc%elem_of_nil; done.
Qed.

(** The integrity check accepts what the packer writes, whatever its format
    version, unless the heap is empty: the check then names "heap.bin", although
    unpacking the same bytes succeeds. *)
Theorem packed_integrity `{TarLaws} `{MetadataJsonLaws} (path_exists : string → bool)
    (open_file : string → result (list Z) string) (utf8_error : list Z → option string)
    (now : Z) (m : SliverMetadata) (heap_data : list Z) (entries : list (VfsPath * VfsFile))
    (path : string) (data : list Z)
    (HF : Forall archivable entries)
    (Hpack : pack_sliver now m heap_data (Some entries) = Ok data)
    (Hpath : path_exists path = true) (Hext : path_extension path = Some "sliver")
    (Hopen : open_file path = Ok data)
    (Hj : ∀ j, to_json m = Ok j → j ≠ [] ∧ utf8_error j = None) :
  validate_sliver_integrity path_exists open_file utf8_error path =
    match heap_data with
    | [] => Err (CorruptedArchive "Empty required file: heap.bin")
    | _ => Ok tt
    end.
Proof.
  destruct (pack_ok now m heap_data (Some entries) HF) as (j & data' & Hto & Hfrom & Hp & Ha).
  assert (data' = data) as -> by congruence. destruct (Hj j Hto) as [Hne Hu].
  eapply integrity_packed; eauto.
Qed.

Definition demo_file : list Z :=
  match @pack_sliver demo_Tar demo_Json 9 (metadata_new 1 "h" "1.1.0") [] (Some demo_entries) with
  | Ok d => d
  | Err _ => []
  end.

Lemma packed_integrity_witness :
  @validate_sliver_integrity demo_Tar demo_Json (λ _, true) (λ _, Ok demo_file) (λ _, None)
    "/tmp/x.sliver" = Err (CorruptedArchive "Empty required file: heap.bin").
Proof.
  apply (@packed_integrity demo_Tar demo_TarLaws demo_Json demo_JsonLaws (λ _, true)
           (λ _, Ok demo_file) (λ _, None) 9 (metadata_new 1 "h" "1.1.0") [] demo_entries
           "/tmp/x.sliver" demo_file demo_archivable).
  - reflexivity.
  - reflexivity.
  - vm_compute. reflexivity.
  - reflexivity.
  - intros j [= <-]. done.
Defined.

Example distance_examples :
  distance "kitten" "sitting" = 3%nat ∧ distance "" "abc" = 3%nat ∧
  find_similar_internal "myap" ["other"; "myapp"; "mapp"] 3 = Some "myapp".
Proof. vm_compute. done. Qed.
