(* ===== verification/SliverVfs.v ===== *)
(** * [src/sliver/restore.rs], [vfs_capture.rs], [UnpackedSliver::restore_to_vfs] and
    [walk_vfs_for_sliver]: moving files between slivers and the VFS *)

From stdpp Require Import base gmap list strings pretty.
From Stdlib Require Import Ascii ZArith Lia.
From S2P Require Import Prelude RustString RustList VfsPath VfsBackend VfsMemory VfsIsolate Sliver.

Open Scope Z_scope.

#[export] Instance VfsPath_eq_dec : EqDecision VfsPath.
Proof. solve_decision. Defined.

(** [VfsError]'s [Display]. *)
Definition display_vfs_error (e : VfsError) : string :=
  match e with
  | NotFound p => "ENOENT: no such file or directory: " +:+ p
  | PermissionDenied p => "EACCES: permission denied: " +:+ p
  | AlreadyExists p => "EEXIST: file already exists: " +:+ p
  | InvalidPath p r => "EINVAL: " +:+ (r +:+ (": " +:+ p))
  | QuotaExceeded r l c => "EQUOTA: quota exceeded for " +:+ (r +:+ (": limit=" +:+
                             (pretty l +:+ (", current=" +:+ pretty c))))
  | IoError m => "EIO: I/O error: " +:+ m
  | NotSupported f => "ENOTSUP: operation not supported: " +:+ f
  end.

(** ** Restoration *)

Record VerificationReport := mkReport {
  vr_total : Z;
  vr_verified : Z;
  vr_missing : list string;
  vr_mismatched : list string;
}.

Definition is_complete (r : VerificationReport) : bool :=
  (vr_verified r =? vr_total r) && bool_decide (vr_missing r = []) &&
  bool_decide (vr_mismatched r = []).

Section restore.
Context {B : Type} `{VfsBackend B}.

(** The loop of [restore_to_vfs]; it stops at the first refused file. *)
Fixpoint restore_entries (now : Z) (ns : string) (b : B) (entries : list (VfsPath * VfsFile))
    : outcome (B * SliverResult unit) :=
  match entries with
  | [] => Done (b, Ok tt)
  | (path, file) :: rest =>
      let! br := iv_write now ns b (as_str path) (content file) in
      match snd br with
      | Ok _ => restore_entries now ns (fst br) rest
      | Err e => Done (fst br, Err (VfsRestore (as_str path) (display_vfs_error e)))
      end
  end.

Definition restore_to_vfs (now : Z) (ns : string) (b : B) (u : UnpackedSliver) :=
  restore_entries now ns b (us_vfs_entries u).

Definition restore_vfs (now : Z) (u : UnpackedSliver) (ns : string) (b : B) :=
  restore_to_vfs now ns b u.

Definition verify_step (ns : string) (b : B) (acc : VerificationReport) (pf : VfsPath * VfsFile)
    : VerificationReport :=
  match iv_read ns b (as_str pf.1) with
  | Ok c => if bool_decide (c = content pf.2)
            then mkReport (vr_total acc) (vr_verified acc + 1) (vr_missing acc) (vr_mismatched acc)
            else mkReport (vr_total acc) (vr_verified acc) (vr_missing acc)
                   (vr_mismatched acc ++ [as_str pf.1])
  | Err _ => mkReport (vr_total acc) (vr_verified acc) (vr_missing acc ++ [as_str pf.1])
               (vr_mismatched acc)
  end.

Definition verify_vfs_restoration (u : UnpackedSliver) (ns : string) (b : B) : VerificationReport :=
  foldl (verify_step ns b) (mkReport (len (us_vfs_entries u)) 0 [] []) (us_vfs_entries u).

(** ** Capture *)

Record VfsCapture := mkCapture {
  vc_files : gmap string VfsFile;
  vc_file_count : Z;
  vc_total_bytes : Z;
}.

Definition capture_new : VfsCapture := mkCapture ∅ 0 0.

Definition add_file (cap : VfsCapture) (path : VfsPath) (file : VfsFile) : VfsCapture :=
  mkCapture (<[as_str path := file]> (vc_files cap)) (add_u64 (vc_file_count cap) 1)
    (add_u64 (vc_total_bytes cap) (len (content file))).

Definition has_path (cap : VfsCapture) (path : string) : bool :=
  bool_decide (is_Some (vc_files cap !! path)).

(** The capture is a [&mut] argument, so it is part of the result also on an error;
    [None] is missing fuel. *)
Definition capture_result : Type := option (outcome (VfsCapture * VfsResult unit)).

(** [for entry in entries { recurse(entry)?; }] *)
Fixpoint capture_entries (recurse : VfsCapture → string → capture_result) (cap : VfsCapture)
    (entries : list VfsPath) : capture_result :=
  match entries with
  | [] => Some (Done (cap, Ok tt))
  | entry :: rest =>
      match recurse cap (as_str entry) with
      | Some (Done (cap', Ok _)) => capture_entries recurse cap' rest
      | other => other
      end
  end.

Fixpoint capture_all_files_recursive (fuel : nat) (now : Z) (ns : string) (b : B)
    (cap : VfsCapture) (path : string) : capture_result :=
  match fuel with
  | O => None
  | S fuel' =>
      match iv_list_dir ns b path with
      | Panicked w => Some (Panicked w)
      | Done (Ok entries) => capture_entries (capture_all_files_recursive fuel' now ns b) cap entries
      | Done (Err _) =>
          match iv_read ns b path with
          | Ok bytes =>
              match new path with
              | Ok p => Some (Done (add_file cap p (new_file now bytes), Ok tt))
              | Err e => Some (Done (cap, Err e))
              end
          | Err _ => Some (Done (cap, Ok tt))
          end
      end
  end.

Definition capture_vfs (fuel : nat) (now : Z) (ns : string) (b : B) : capture_result :=
  capture_all_files_recursive fuel now ns b capture_new "/".

Fixpoint walk_and_capture (fuel : nat) (now : Z) (b : B) (cap : VfsCapture) (path : string)
    : capture_result :=
  match fuel with
  | O => None
  | S fuel' =>
      match new path with
      | Err e => Some (Done (cap, Err e))
      | Ok vfs_path =>
          match bk_list_dir b vfs_path with
          | Panicked w => Some (Panicked w)
          | Done (Ok entries) => capture_entries (walk_and_capture fuel' now b) cap entries
          | Done (Err _) =>
              match bk_read b vfs_path with
              | Ok bytes => Some (Done (add_file cap vfs_path (new_file now bytes), Ok tt))
              | Err _ => Some (Done (cap, Ok tt))
              end
          end
      end
  end.

(** ** [walk_vfs_for_sliver] *)

(** One directory's entries: files are read, anything without metadata is queued;
    the head of [stack] is the top of [to_process]. *)
Definition walk_entry (now : Z) (b : B) (acc : list VfsPath * list (VfsPath * VfsFile))
    (entry : VfsPath) : list VfsPath * list (VfsPath * VfsFile) :=
  match bk_metadata b entry with
  | Ok _ => match bk_read b entry with
            | Ok bytes => (fst acc, snd acc ++ [(entry, new_file now bytes)])
            | Err _ => acc
            end
  | Err _ => (entry :: fst acc, snd acc)
  end.

Fixpoint walk_loop (fuel : nat) (now : Z) (b : B) (stack : list VfsPath)
    (found : list (VfsPath * VfsFile)) : option (outcome (list (VfsPath * VfsFile))) :=
  match fuel with
  | O => None
  | S fuel' =>
      match stack with
      | [] => Some (Done found)
      | path :: rest =>
          match bk_list_dir b path with
          | Panicked w => Some (Panicked w)
          | Done (Ok entries) =>
              let acc := foldl (walk_entry now b) (rest, found) entries in
              walk_loop fuel' now b (fst acc) (snd acc)
          | Done (Err _) =>
              match bk_read b path with
              | Ok bytes => walk_loop fuel' now b rest (found ++ [(path, new_file now bytes)])
              | Err _ => walk_loop fuel' now b rest found
              end
          end
      end
  end.

Definition walk_vfs_for_sliver (fuel : nat) (now : Z) (b : B)
    : option (outcome (list (VfsPath * VfsFile))) :=
  match new "/" with
  | Err _ => Some (Panicked "called `Result::unwrap()` on an `Err` value")
  | Ok root => walk_loop fuel now b [root] []
  end.
End restore.

(** ** Facts on restoration *)

Definition storage_key (ns : string) (p : VfsPath) : string := ns +:+ ("::" +:+ as_str p).

Definition fits (ns : string) (p : VfsPath) : Prop := slen (storage_key ns p) ≤ MAX_PATH_LENGTH.

Lemma prefix_namespace_wf ns p :
  good_ns ns → wf_path p →
  (fits ns p → prefix_namespace ns (as_str p) = Ok (mkVfsPath (storage_key ns p))) ∧
  (is_ok (prefix_namespace ns (as_str p)) = true → fits ns p).
Proof.
  intros Hns Hp. unfold prefix_namespace, fits, storage_key. rewrite (new_wf_id p Hp). simpl.
  rewrite (proj2 (is_empty_false ns)) by (by apply ns_nonempty).
  change (String ":" (String ":" (as_str p))) with ("::" +:+ as_str p).
  rewrite (new_ns ns p Hns Hp), Z.gtb_ltb. destruct (_ <? _) eqn:Hl; zreflect; [|done].
  split; [lia|done].
Qed.

(** The contents of the backend after the given files were written. *)
Definition restored_view (ns : string) (v : fs_view) (entries : list (VfsPath * VfsFile)) : fs_view :=
  foldl (λ v pf, <[storage_key ns pf.1 := content pf.2]> v) v entries.

Definition same_content (entries : list (VfsPath * VfsFile)) : Prop :=
  ∀ e1 e2, e1 ∈ entries → e2 ∈ entries → e1.1 = e2.1 → content e1.2 = content e2.2.

Lemma storage_key_inj ns p q : storage_key ns p = storage_key ns q → p = q.
Proof.
  unfold storage_key. intros H%str_app_inj_l. injection H as H. by apply wf_ext.
Qed.

Lemma restored_view_snoc ns v es e :
  restored_view ns v (es ++ [e]) = <[storage_key ns e.1 := content e.2]> (restored_view ns v es).
Proof. unfold restored_view. by rewrite foldl_app. Qed.

(** What a path holds afterwards is the content of its last entry. *)
Lemma restored_view_last ns v es p :
  restored_view ns v es !! storage_key ns p =
    match last (List.filter (λ e, bool_decide (e.1 = p)) es) with
    | Some e => Some (content e.2)
    | None => v !! storage_key ns p
    end.
Proof.
  induction es as [|e es IH] using rev_ind; [done|].
  rewrite restored_view_snoc, List.filter_app. simpl. case_bool_decide as He.
  - subst. rewrite last_snoc. apply lookup_insert_eq.
  - rewrite app_nil_r, <- IH. apply lookup_insert_ne. by intros ?%storage_key_inj.
Qed.

Section facts.
Context {B : Type} `{VfsBackendLaws B}.
Context (ns : string) (Hns : good_ns ns).

Lemma iv_read_fits b p :
  bk_inv b → wf_path p → fits ns p →
  iv_read ns b (as_str p) = ok_or (bk_view b !! storage_key ns p) (NotFound (storage_key ns p)).
Proof.
  intros Hi Hp Hf. unfold iv_read.
  rewrite (proj1 (prefix_namespace_wf ns p Hns Hp) Hf). simpl. by apply bk_read_view.
Qed.

Lemma restore_entries_spec now entries : ∀ b,
  bk_inv b → Forall (λ e, wf_path e.1) entries →
  ∃ b' r before after, entries = before ++ after ∧
    restore_entries now ns b entries = Done (b', r) ∧ bk_inv b' ∧
    bk_view b' = restored_view ns (bk_view b) before ∧ Forall (λ e, fits ns e.1) before ∧
    match after with
    | [] => r = Ok tt
    | e :: _ => ∃ reason, r = Err (VfsRestore (as_str e.1) reason)
    end.
Proof.
  induction entries as [|[p f] es IH]; intros b Hi Hw; simpl.
  { exists b, (Ok tt), [], []. by split_and!. }
  inversion Hw as [|? ? Hp Hw']; subst. simpl in Hp. unfold iv_write.
  destruct (prefix_namespace_wf ns p Hns Hp) as [Hfit Hok].
  destruct (prefix_namespace ns (as_str p)) as [q|e] eqn:Hq.
  - specialize (Hok eq_refl). specialize (Hfit Hok). injection Hfit as ->.
    destruct (bk_write_view now b (mkVfsPath (storage_key ns p)) (content f) Hi) as (b1 & r1 & -> & Hi1 & Hv1).
    { by apply (ns_path_wf ns p). }
    destruct r1 as [[]|e]; simpl.
    + destruct (IH b1 Hi1 Hw') as (b' & r & bef & aft & -> & -> & Hi' & Hv' & Hf' & Hr).
      exists b', r, ((p, f) :: bef), aft. split_and!; try done; [|by constructor].
      rewrite Hv', Hv1. done.
    + exists b1, (Err (VfsRestore (as_str p) (display_vfs_error e))), [], ((p, f) :: es).
      split_and!; try done. eauto.
  - exists b, (Err (VfsRestore (as_str p) (display_vfs_error e))), [], ((p, f) :: es).
    split_and!; try done. eauto.
Qed.

Definition reads_back (b : B) (e : VfsPath * VfsFile) : Prop :=
  iv_read ns b (as_str e.1) = Ok (content e.2).

Lemma verify_all b es : ∀ acc,
  Forall (reads_back b) es →
  foldl (verify_step ns b) acc es =
    mkReport (vr_total acc) (vr_verified acc + len es) (vr_missing acc) (vr_mismatched acc).
Proof.
  induction es as [|e es IH]; intros acc HF; simpl.
  { unfold len. simpl. rewrite Z.add_0_r. by destruct acc. }
  inversion HF as [|? ? He HF']; subst. unfold verify_step at 2. rewrite He.
  rewrite bool_decide_eq_true_2, IH by done. unfold len. simpl. f_equal. lia.
Qed.

Lemma verify_count b es : ∀ acc,
  vr_total (foldl (verify_step ns b) acc es) = vr_total acc ∧
  vr_verified (foldl (verify_step ns b) acc es) ≤ vr_verified acc + len es ∧
  (vr_verified (foldl (verify_step ns b) acc es) = vr_verified acc + len es → Forall (reads_back b) es).
Proof.
  induction es as [|e es IH]; intros acc; simpl.
  { unfold len. simpl. split_and!; [done|lia|done]. }
  destruct (IH (verify_step ns b acc e)) as (Ht & Hle & Hall). rewrite Ht.
  unfold verify_step in *. unfold len in *. simpl length in *. unfold reads_back in *.
  destruct (iv_read ns b (as_str e.1)) as [c|err] eqn:Hr; [case_bool_decide as Hc|];
    cbn [vr_total vr_verified] in *; (split_and!; [done|lia|intros Hv]); try lia.
  constructor; [by rewrite Hr, Hc|]. apply Hall. lia.
Qed.

Lemma verify_complete u b :
  is_complete (verify_vfs_restoration u ns b) = true ↔ Forall (reads_back b) (us_vfs_entries u).
Proof.
  unfold verify_vfs_restoration, is_complete. split.
  - intros [[Hv _]%andb_true_iff _]%andb_true_iff. apply Z.eqb_eq in Hv.
    destruct (verify_count b (us_vfs_entries u) (mkReport (len (us_vfs_entries u)) 0 [] []))
      as (Ht & _ & Hall). apply Hall. by rewrite Hv, Ht.
  - intros HF. rewrite verify_all by done. simpl. by rewrite Z.eqb_refl.
Qed.

Lemma restored_reads b v es :
  bk_inv b → bk_view b = restored_view ns v es →
  Forall (λ e, wf_path e.1) es → Forall (λ e, fits ns e.1) es →
  Forall (reads_back b) es ↔ same_content es.
Proof.
  intros Hi Hv Hw Hf. rewrite !Forall_forall in *.
  assert (Hread : ∀ e, e ∈ es → iv_read ns b (as_str e.1) =
      match last (List.filter (λ e', bool_decide (e'.1 = e.1)) es) with
      | Some e' => Ok (content e'.2) | None => Err (NotFound "") end).
  { intros e He. rewrite iv_read_fits, Hv, restored_view_last by auto.
    destruct (last _) as [e'|] eqn:Hl; [done|]. apply last_None in Hl.
    assert (Hin : e ∈ List.filter (λ e', bool_decide (e'.1 = e.1)) es)
      by (apply elem_of_filter_b; split; [done|by apply bool_decide_eq_true_2]).
    rewrite Hl in Hin. by apply elem_of_nil in Hin. }
  unfold reads_back. split.
  - intros Hall e1 e2 H1 H2 Heq. pose proof (Hall _ H1) as E1. pose proof (Hall _ H2) as E2.
    rewrite Heq in E1. congruence.
  - intros Hs e He. rewrite (Hread e He).
    destruct (last _) as [e'|] eqn:Hl; [|].
    + apply last_Some_elem_of, elem_of_filter_b in Hl as [Hin Heq%bool_decide_eq_true].
      f_equal. by apply Hs.
    + pose proof (Hread e He) as Hr. rewrite Hl in Hr.
      apply last_None in Hl.
      assert (Hin : e ∈ List.filter (λ e', bool_decide (e'.1 = e.1)) es)
        by (apply elem_of_filter_b; split; [done|by apply bool_decide_eq_true_2]).
      rewrite Hl in Hin. by apply elem_of_nil in Hin.
Qed.
End facts.

(** ** Facts on the memory backend *)

(** A list of files that an empty backend with these limits has room for. *)
Definition room_for (l : ResourceLimits) (es : list (VfsPath * VfsFile)) : Prop :=
  len es ≤ files_count_max l ∧ entries_size es ≤ total_storage_bytes_max l ∧
  Forall (λ e, len (content e.2) ≤ file_size_bytes_max l) es.

Lemma write_room now b p bytes :
  counters_ok b → file_count b < files_count_max (limits b) →
  total_bytes b + len bytes ≤ total_storage_bytes_max (limits b) →
  len bytes ≤ file_size_bytes_max (limits b) →
  write now b p bytes = Done (write_result now b p bytes, Ok tt) ∧
  counters_ok (write_result now b p bytes) ∧
  file_count (write_result now b p bytes) ≤ file_count b + 1 ∧
  total_bytes (write_result now b p bytes) ≤ total_bytes b + len bytes.
Proof.
  intros Hok Hc Ht Hf. pose proof (old_len_bounds (storage b) (as_str p)).
  assert (Hr : write_refusal b p bytes = None).
  { unfold write_refusal. rewrite (proj2 (Z.ltb_ge _ _)) by done.
    rewrite (proj2 (Z.leb_gt (files_count_max _) _)) by done. rewrite andb_false_r.
    by rewrite (proj2 (Z.ltb_ge _ _)) by lia. }
  rewrite write_spec, Hr by done. split_and!; [done|by apply write_result_counters| |].
  - simpl. case_decide; lia.
  - simpl. lia.
Qed.

Lemma restore_room now ns es : ∀ b,
  good_ns ns → counters_ok b → Forall (λ e, wf_path e.1 ∧ fits ns e.1) es →
  file_count b + len es ≤ files_count_max (limits b) →
  total_bytes b + entries_size es ≤ total_storage_bytes_max (limits b) →
  Forall (λ e, len (content e.2) ≤ file_size_bytes_max (limits b)) es →
  ∃ b', restore_entries now ns b es = Done (b', Ok tt).
Proof.
  induction es as [|[p f] es IH]; intros b Hns Hok Hw Hc Ht Hf; simpl; [eauto|].
  inversion Hw as [|? ? [Hp Hfit] Hw']; subst. inversion Hf as [|? ? Hlen Hf']; subst. simpl in *.
  unfold iv_write. rewrite (proj1 (prefix_namespace_wf ns p Hns Hp) Hfit).
  unfold len in Hc. simpl length in Hc.
  assert (Ht' : total_bytes b + (len (content f) + entries_size es) ≤ total_storage_bytes_max (limits b)) by done.
  pose proof (entries_size_nonneg es).
  destruct (write_room now b (mkVfsPath (storage_key ns p)) (content f) Hok) as (Hwr & Hok' & Hc' & Hb');
    [lia|lia|done|].
  simpl. rewrite Hwr. simpl. apply IH; try done; unfold len; simpl limits; lia.
Qed.

(** ** Facts on the walks *)

Lemma new_root : is_ok (new "/") = false.
Proof. done. Qed.

Lemma prefix_root ns : is_ok (prefix_namespace ns "/") = false.
Proof. done. Qed.

(** Directories nest only as deep as a path can be long. *)
Definition walk_fuel : nat := Z.to_nat (MAX_PATH_LENGTH + 2).

Lemma capture_entries_noop recurse cap entries :
  Forall (λ e, recurse cap (as_str e) = Some (Done (cap, Ok tt))) entries →
  capture_entries recurse cap entries = Some (Done (cap, Ok tt)).
Proof. induction 1 as [|e es He _ IH]; [done|]. simpl. by rewrite He. Qed.

Lemma walk_noop now b cap fuel : ∀ p,
  keys_wf b → wf_path p → MAX_PATH_LENGTH - slen (as_str p) < Z.of_nat fuel →
  walk_and_capture fuel now b cap (as_str p) = Some (Done (cap, Ok tt)).
Proof.
  induction fuel as [|fuel IH]; intros p Hk Hp Hf.
  { pose proof (wf_len _ Hp). lia. }
  simpl. rewrite (new_wf_id p Hp). simpl. rewrite list_dir_eq by done.
  apply capture_entries_noop, Forall_fmap, Forall_forall. intros n Hn. simpl.
  apply elem_of_elements, (dir_names_spec b p n Hk Hp) in Hn as (key & rest & [f Hfile] & Hs).
  destruct (child_path_wf p key n rest Hp (Hk key f Hfile) Hs) as [Hw _].
  apply (IH (mkVfsPath _) Hk Hw). simpl. rewrite wf_prefix_with_slash by done.
  rewrite !slen_app. change (slen "/") with 1. pose proof (slen_nonneg n). lia.
Qed.

(** Statements about paths and contents only. *)

Lemma Forall_bare (P : VfsPath → list Z → Prop) es1 es2 :
  bare <$> es1 = bare <$> es2 →
  Forall (λ e, P e.1 (content e.2)) es1 → Forall (λ e, P e.1 (content e.2)) es2.
Proof.
  intros Hb H. assert (H2 : Forall (λ x, P x.1 x.2) (bare <$> es2)).
  { rewrite <- Hb. by apply Forall_fmap. }
  by apply Forall_fmap in H2.
Qed.

Lemma entries_size_bare es :
  entries_size es = foldr (λ x acc, len x.2 + acc) 0 (bare <$> es).
Proof. induction es as [|e es IH]; simpl; [done|]. by rewrite IH. Qed.

Lemma same_content_bare es :
  same_content es ↔ ∀ x y, x ∈ bare <$> es → y ∈ bare <$> es → x.1 = y.1 → x.2 = y.2.
Proof.
  unfold same_content. setoid_rewrite list_elem_of_fmap. split.
  - intros H x y (e1 & -> & H1) (e2 & -> & H2). by apply H.
  - intros H e1 e2 H1 H2. apply (H (bare e1) (bare e2)); eauto.
Qed.

(** ** Properties *)

(** Restoring the files of a sliver into a namespace of any lawful backend writes
    them in order and stops at the first refused one, which the error names; what
    was written before stays.  When nothing is refused, the verification report is
    complete exactly when the archive does not hold two different contents for one
    path. *)
Theorem restore_verifies {B} `{VfsBackendLaws B} (now : Z) (ns : string) (b : B)
    (u : UnpackedSliver) (Hns : good_ns ns) (Hi : bk_inv b)
    (Hw : Forall (λ e, wf_path e.1) (us_vfs_entries u)) :
  ∃ b' r before after, us_vfs_entries u = before ++ after ∧
    restore_vfs now u ns b = Done (b', r) ∧ bk_inv b' ∧
    bk_view b' = restored_view ns (bk_view b) before ∧
    match after with
    | [] => r = Ok tt ∧ (is_complete (verify_vfs_restoration u ns b') = true ↔
                         same_content (us_vfs_entries u))
    | e :: _ => ∃ reason, r = Err (VfsRestore (as_str e.1) reason)
    end.
Proof.
  destruct (restore_entries_spec ns Hns now (us_vfs_entries u) b Hi Hw)
    as (b' & r & bef & aft & He & Hr & Hi' & Hv & Hf & Hm).
  exists b', r, bef, aft. split_and!; try done.
  destruct aft as [|e aft]; [|done]. split; [done|]. rewrite verify_complete.
  rewrite app_nil_r in He. subst bef. by apply (restored_reads ns Hns b' (bk_view b)).
Qed.

Definition demo_unpacked : UnpackedSliver := mkUnpacked (metadata_new 1 "h" "1") [7] demo_entries.

Lemma demo_good_ns : good_ns "app_example_com".
Proof. by split. Qed.

Lemma demo_wf : Forall (λ e, wf_path e.1) demo_entries.
Proof. apply (Forall_impl _ _ _ demo_archivable). by intros e [??]. Qed.

Lemma restore_verifies_witness :
  ∃ (b' : MemoryBackend) r before after, us_vfs_entries demo_unpacked = before ++ after ∧
    restore_vfs 4 demo_unpacked "app_example_com" new_backend = Done (b', r) ∧ mem_inv b' ∧
    view b' = restored_view "app_example_com" (view new_backend) before ∧
    match after with
    | [] => r = Ok tt ∧ (is_complete (verify_vfs_restoration demo_unpacked "app_example_com" b') = true ↔
                         same_content (us_vfs_entries demo_unpacked))
    | e :: _ => ∃ reason, r = Err (VfsRestore (as_str e.1) reason)
    end.
Proof.
  exact (@restore_verifies MemoryBackend memory_backend memory_backend_laws 4 "app_example_com"
    new_backend demo_unpacked demo_good_ns
    (proj1 (with_limits_inv default_limits ltac:(repeat split; vm_compute; congruence))) demo_wf).
Defined.

(** C3. From files to a running application: what is packed for an application can be
    unpacked and restored into an empty memory backend whose limits are sensible and that
    has room for it; restoration succeeds, and when no path was packed twice with
    different contents the report is complete and every file reads back. *)
Theorem sliver_deploys `{TarLaws} `{MetadataJsonLaws} (now : Z) (clock : nat → Z) (ns : string)
    (l : ResourceLimits) (m : SliverMetadata) (heap_data : list Z) (entries : list (VfsPath * VfsFile))
    (Hv : md_format_version m = FORMAT_VERSION) (Hns : good_ns ns) (Hl : limits_ok l)
    (HF : Forall (λ e, archivable e ∧ fits ns e.1) entries)
    (Hroom : room_for l entries) (Hsame : same_content entries) :
  ∃ data u b', pack_sliver now m heap_data (Some entries) = Ok data ∧
    unpack clock data = Ok u ∧ restore_vfs now u ns (with_limits l) = Done (b', Ok tt) ∧
    is_complete (verify_vfs_restoration u ns b') = true ∧
    ∀ e, e ∈ entries → iv_read ns b' (as_str e.1) = Ok (content e.2).
Proof.
  assert (HA : Forall archivable entries) by (apply (Forall_impl _ _ _ HF); by intros e [??]).
  assert (HW : Forall (λ e, wf_path e.1 ∧ fits ns e.1) entries)
    by (apply (Forall_impl _ _ _ HF); by intros e [[??]?]).
  destruct (pack_unpacks now clock m heap_data entries Hv HA) as (data & Hp & Hu).
  destruct Hroom as (Hc & Ht & Hsz). destruct (with_limits_inv l Hl) as [Hinv _].
  pose proof (restamp_bare clock entries) as Hbare. revert Hp Hu Hbare.
  generalize (restamp clock entries). intros es Hp Hu Hbare.
  apply (Forall_bare (λ p _, wf_path p ∧ fits ns p) _ es) in HW; [|done].
  apply (Forall_bare (λ _ c, len c ≤ file_size_bytes_max l) _ es) in Hsz; [|done].
  rewrite entries_size_bare, <- Hbare, <- entries_size_bare in Ht.
  assert (Hlen : len es = len entries).
  { unfold len. by rewrite <- (length_fmap bare es), Hbare, length_fmap. }
  rewrite (same_content_bare entries), <- Hbare, <- (same_content_bare es) in Hsame.
  destruct (restore_room now ns es (with_limits l) Hns) as [b' Hb']; try done; try apply Hinv.
  { simpl. by rewrite Hlen. }
  assert (HW' : Forall (λ e, wf_path e.1) es) by (apply (Forall_impl _ _ _ HW); by intros e [??]).
  destruct (@restore_entries_spec MemoryBackend memory_backend memory_backend_laws ns Hns now es
              (with_limits l) Hinv HW')
    as (b'' & r & bef & aft & He & Hr & Hi' & Hv' & Hf & Hm).
  rewrite Hb' in Hr. injection Hr as <- <-.
  destruct aft as [|e aft]; [|by destruct Hm as [? ?]]. rewrite app_nil_r in He. subst bef.
  apply (@restored_reads MemoryBackend memory_backend memory_backend_laws ns Hns _ _ _ Hi' Hv' HW' Hf) in Hsame.
  exists data, (mkUnpacked m heap_data es), b'. split_and!; [done..| |].
  - by apply verify_complete.
  - intros e Hin. assert (Hin' : bare e ∈ bare <$> es) by (rewrite Hbare; by apply list_elem_of_fmap_2).
    apply list_elem_of_fmap in Hin' as (e' & Heq & Hin').
    rewrite Forall_forall in Hsame. specialize (Hsame e' Hin'). unfold reads_back in Hsame.
    injection Heq as -> ->. done.
Qed.

Lemma sliver_deploys_witness :
  ∃ data u b', @pack_sliver demo_Tar demo_Json 4 (metadata_new 1 "h" "1") [7] (Some demo_entries) = Ok data ∧
    @unpack demo_Tar demo_Json Z.of_nat data = Ok u ∧
    restore_vfs 4 u "app_example_com" (with_limits test_limits) = Done (b', Ok tt) ∧
    is_complete (verify_vfs_restoration u "app_example_com" b') = true ∧
    ∀ e, e ∈ demo_entries → iv_read "app_example_com" b' (as_str e.1) = Ok (content e.2).
Proof.
  apply (@sliver_deploys demo_Tar demo_TarLaws demo_Json demo_JsonLaws 4 Z.of_nat "app_example_com"
    test_limits (metadata_new 1 "h" "1") [7] demo_entries eq_refl demo_good_ns).
  - repeat split; vm_compute; congruence.
  - repeat (apply Forall_cons_2 || apply Forall_nil_2);
      (split; [by apply (Forall_forall archivable demo_entries); [apply demo_archivable|set_solver]|
               vm_compute; congruence]).
  - split_and!; [vm_compute; congruence..|].
    repeat (apply Forall_cons_2 || apply Forall_nil_2); vm_compute; congruence.
  - intros e1 e2 [->|[->|[]%elem_of_nil]%elem_of_cons]%elem_of_cons
      [->|[->|[]%elem_of_nil]%elem_of_cons]%elem_of_cons; done.
Defined.

(** Capturing the files of an isolate captures nothing, on any backend and
    whatever it holds: the walk starts at "/", which is no valid path, so listing
    and reading it both fail and the empty capture is returned as a success. *)
Theorem capture_is_empty {B} `{VfsBackend B} (fuel : nat) (now : Z) (ns : string) (b : B) :
  capture_vfs (S fuel) now ns b = Some (Done (capture_new, Ok tt)).
Proof. done. Qed.

(** Walking the memory backend ends and captures nothing either: it lists every
    path successfully, files included, so no path is ever read.  The fuel, one more
    than the longest path, is enough, since a child's path is longer than its
    directory's. *)
Theorem walk_and_capture_ends (b : MemoryBackend) (now : Z) (cap : VfsCapture) (path : string)
    (Hk : keys_wf b) :
  walk_and_capture walk_fuel now b cap path =
    Some (Done (cap, match new path with Ok _ => Ok tt | Err e => Err e end)).
Proof.
  destruct (new path) as [p|e] eqn:Hp.
  - pose proof (new_wf _ _ Hp) as Hw.
    rewrite <- (walk_noop now b cap walk_fuel p Hk Hw).
    + unfold walk_fuel. destruct (Z.to_nat _) as [|n] eqn:Hn; [done|].
      simpl. by rewrite Hp, (new_wf_id p Hw).
    + unfold walk_fuel. pose proof (slen_nonneg (as_str p)). unfold MAX_PATH_LENGTH. lia.
  - unfold walk_fuel. destruct (Z.to_nat _) as [|n] eqn:Hn; [done|]. simpl. by rewrite Hp.
Qed.

Lemma walk_and_capture_ends_witness :
  walk_and_capture walk_fuel 3 demo_backend capture_new "dir" = Some (Done (capture_new, Ok tt)) ∧
  is_ok (read demo_backend path_b) = true.
Proof.
  split; [|vm_compute; reflexivity].
  exact (walk_and_capture_ends demo_backend 3 capture_new "dir" demo_backend_keys).
Defined.

(** [walk_vfs_for_sliver] panics on every backend: it unwraps the path "/". *)
Theorem walk_vfs_panics {B} `{VfsBackend B} (fuel : nat) (now : Z) (b : B) :
  walk_vfs_for_sliver fuel now b = Some (Panicked "called `Result::unwrap()` on an `Err` value").
Proof. done. Qed.
