(* ===== verification/SliverFiles.v ===== *)
(** * [src/sliver/packager.rs] and [extractor.rs]: slivers made from a directory and
    extracted to a temporary directory *)

From stdpp Require Import base gmap list strings pretty.
From Stdlib Require Import Ascii ZArith Lia.
From S2P Require Import Prelude RustString RustPath RustList VfsPath Config Sliver.

Open Scope Z_scope.

(** [str::ends_with] *)
Definition ends_with (suffix s : string) : bool :=
  (String.length suffix <=? String.length s)%nat &&
  String.eqb (sdrop (String.length s - String.length suffix) s) suffix.

(** ** [packager.rs] *)

(** A file that [WalkDir] reports, with what reading it and its metadata give:
    its length, modification and creation time. *)
Record SourceFile := mkSource {
  sf_relative : string;
  sf_content : result (list Z) string;
  sf_metadata : result (Z * option Z * option Z) string;
}.

Definition create_cold_sliver_marker (entrypoint : string) : list Z :=
  as_bytes "NANO-DIR-v1" ++ [0] ++ as_bytes entrypoint.

Definition packager_candidates : list string :=
  ["index.js"; "index.mjs"; "main.js"; "worker.js"; "index.html"].

(** [exists_in] says which names exist in the directory. *)
Definition detect_entrypoint (exists_in : string → bool) : string :=
  default "index.html" (List.find exists_in packager_candidates).

Definition skipped (f : SourceFile) : bool :=
  let file_name := default "" (path_file_name (sf_relative f)) in
  starts_with "." file_name || ends_with ".sliver" file_name.

Definition load_file (now : Z) (f : SourceFile) : result (VfsPath * VfsFile) string :=
  let? bytes := map_err (λ _, "Failed to read file: " +:+ sf_relative f) (sf_content f) in
  let? md := map_err (λ _, "Failed to get metadata: " +:+ sf_relative f) (sf_metadata f) in
  let '(size, modified, created) := md in
  let vfs_path_str := "/" +:+ sf_relative f in
  let? vfs_path := map_err (λ _, "Invalid VFS path: " +:+ vfs_path_str) (new vfs_path_str) in
  Ok (vfs_path, mkVfsFile bytes (default now created) (default now modified) size).

Fixpoint load_directory_files (now : Z) (files : list SourceFile)
    : result (list (VfsPath * VfsFile)) string :=
  match files with
  | [] => Ok []
  | f :: rest =>
      if skipped f then load_directory_files now rest
      else let? e := load_file now f in
           let? es := load_directory_files now rest in Ok (e :: es)
  end.

Section packager.
Context `{TAR : Tar} `{JSON : MetadataJson}.

(** What the operating system says: the source directory, the files below it, and
    whether a path exists or can be written. *)
Record SourceDir := mkSourceDir {
  sd_exists : bool;
  sd_is_dir : bool;
  sd_has : string → bool;
  sd_walk : list SourceFile;
}.

Definition directory_metadata (now : Z) (nano_version source_dir name hostname entrypoint tag : string)
    : SliverMetadata :=
  let meta := metadata_new now hostname nano_version in
  mkMetadata (Some name) (md_hostname meta) (md_created_at meta) (md_format_version meta)
    (md_nano_version meta)
    (Some ("Created from directory: " +:+ (source_dir +:+ (" | Entrypoint: " +:+ (entrypoint +:+
       (" | Tag: " +:+ tag))))))
    (<["sliver_type" := "directory"]> (<["tag" := tag]> (<["source_dir" := source_dir]>
       (<["entrypoint" := entrypoint]> ∅)))).

(** The path written and the archive; errors by their text. *)
Definition create_sliver_from_directory (now : Z) (nano_version : string) (dir : SourceDir)
    (path_exists : string → bool) (write_file : string → list Z → option string)
    (source_dir name : string) (tag output hostname : option string)
    : result (string * list Z) string :=
  if negb (sd_exists dir) then Err ("Source directory does not exist: " +:+ source_dir)
  else if negb (sd_is_dir dir) then Err ("Source path is not a directory: " +:+ source_dir)
  else
    let output_path := default (name +:+ ".sliver") output in
    if path_exists output_path then
      Err ("Sliver file already exists: " +:+ (output_path +:+
             ". Use --output to specify a different path."))
    else
      let sliver_hostname := default name hostname in
      let entrypoint := detect_entrypoint (sd_has dir) in
      let metadata := directory_metadata now nano_version source_dir name sliver_hostname entrypoint
                        (default "latest" tag) in
      let? p1 := map_err display_error (add_metadata packer_new metadata) in
      let? p2 := map_err display_error (add_heap p1 (create_cold_sliver_marker entrypoint)) in
      let? vfs_entries := load_directory_files now (sd_walk dir) in
      let? p3 := map_err display_error (add_vfs_entries now p2 vfs_entries) in
      let? archive_data := map_err display_error (finalize p3) in
      match write_file output_path archive_data with
      | Some _ => Err ("Failed to write sliver to " +:+ output_path)
      | None => Ok (output_path, archive_data)
      end.
End packager.

(** ** [extractor.rs] *)

(** The files of the temporary directory by the components of their relative path. *)
Abbreviation tree := (gmap (list string) (list Z)).

Definition path_components (rel : string) : list string :=
  List.filter (λ w, negb (is_empty w || String.eqb w ".")) (split slash rel).

Fixpoint is_prefix_of (a b : list string) : bool :=
  match a, b with
  | [], _ => true
  | x :: a', y :: b' => String.eqb x y && is_prefix_of a' b'
  | _ :: _, [] => false
  end.

(** A directory exists when it is the root or lies above a file. *)
Definition is_directory (t : tree) (cs : list string) : bool :=
  match cs with
  | [] => true
  | _ => existsb (λ k, is_prefix_of cs k && negb (bool_decide (cs = k))) (map_to_list t).*1
  end.

Definition path_exists_in (t : tree) (cs : list string) : bool :=
  bool_decide (is_Some (t !! cs)) || is_directory t cs.

(** Some proper ancestor is a file, so the parent directories cannot be made. *)
Definition blocked (t : tree) (cs : list string) : bool :=
  existsb (λ k, is_prefix_of k cs && negb (bool_decide (k = cs))) (map_to_list t).*1.

Record TempVfsManager := mkTempVfs {
  temp_dir : string;
  entrypoint_path : string;
}.

Section extractor.
(** The text of an error of the operating system at a path, and paths at which it
    refuses a request for reasons of its own. *)
Context (os_text : string → string) (os_refuses : string → bool).

Definition strip_slash (p : string) : string := default p (strip_prefix "/" p).

Definition write_vfs_entry (dir : string) (t : tree) (vfs_path : VfsPath) (file : VfsFile)
    : SliverResult tree :=
  let relative_path := strip_slash (as_str vfs_path) in
  let file_path := path_join dir relative_path in
  let cs := path_components relative_path in
  let parent := default "" (path_parent file_path) in
  if blocked t cs || os_refuses parent then
    Err (VfsRestore parent ("Failed to create directory: " +:+ os_text parent))
  else if is_directory t cs || os_refuses file_path then
    Err (VfsRestore file_path ("Failed to create file: " +:+ os_text file_path))
  else Ok (<[cs := content file]> t).

Fixpoint write_vfs_entries (dir : string) (t : tree) (es : list (VfsPath * VfsFile))
    : SliverResult tree :=
  match es with
  | [] => Ok t
  | (p, f) :: rest => let? t' := write_vfs_entry dir t p f in write_vfs_entries dir t' rest
  end.

Definition extractor_candidates : list string := ["index.js"; "app.js"; "main.js"; "server.js"].

Definition vfs_detect_entrypoint (vfs_entries : list (VfsPath * VfsFile)) : string :=
  default "index.js"
    (List.find (λ candidate, existsb (λ e, String.eqb (as_str e.1) candidate) vfs_entries)
       extractor_candidates).

(** [created] is what creating the temporary directory and setting its mode give. *)
Definition extract (created : result string SliverError) (u : UnpackedSliver)
    : SliverResult (TempVfsManager * tree) :=
  let? dir := created in
  let? t := write_vfs_entries dir ∅ (us_vfs_entries u) in
  let entrypoint := vfs_detect_entrypoint (us_vfs_entries u) in
  let entrypoint_path := path_join dir entrypoint in
  if negb (path_exists_in t (path_components entrypoint)) then
    match List.find (λ e, ends_with ".js" (as_str e.1)) (us_vfs_entries u) with
    | Some e => Ok (mkTempVfs dir (path_join dir (as_str e.1)), t)
    | None => Err (VfsRestore entrypoint "Entrypoint file not found in VFS entries")
    end
  else Ok (mkTempVfs dir entrypoint_path, t).
End extractor.

(** ** Facts *)

Lemma ends_with_true suffix s : ends_with suffix s = true ↔ ∃ t, s = t +:+ suffix.
Proof.
  unfold ends_with. split.
  - intros [Hl Hs]%andb_true_iff. apply String.eqb_eq in Hs.
    exists (stake (String.length s - String.length suffix) s).
    rewrite <- Hs at 2. symmetry. apply stake_sdrop.
  - intros [t ->]. rewrite length_app_string.
    replace (String.length t + String.length suffix - String.length suffix)%nat with (String.length t) by lia.
    rewrite sdrop_app. apply andb_true_iff. split; [apply Nat.leb_le; lia|apply String.eqb_refl].
Qed.

(** Relative paths as [WalkDir] gives them, short enough to take a leading slash. *)
Definition clean_rel (rel : string) : Prop :=
  wf_path (mkVfsPath rel) ∧ "." ∉ split slash rel ∧ slen rel < MAX_PATH_LENGTH.

Lemma new_slash rel : clean_rel rel → new ("/" +:+ rel) = Ok (mkVfsPath rel).
Proof.
  intros (Hw & _ & Hl). change ("/" +:+ rel) with (String slash rel).
  destruct (wf_acceptable _ Hw) as (_ & Hn & Hd & He). simpl in *.
  assert (Hp : nonempty_pieces (String slash rel) = nonempty_pieces rel) by done.
  apply new_inv. split; [split_and!| ].
  - change (String slash rel) with ("/" +:+ rel). rewrite slen_app. change (slen "/") with 1. lia.
  - done.
  - change (split slash (String slash rel)) with ("" :: split slash rel).
    by intros [?|?]%elem_of_cons.
  - by rewrite Hp.
  - rewrite Hp. pose proof (nonempty_pieces_wf _ Hw) as Hs. simpl in Hs. rewrite Hs.
    symmetry. apply (join_split slash rel).
Qed.

Definition kept (files : list SourceFile) : list SourceFile :=
  List.filter (λ f, negb (skipped f)) files.

Lemma load_ok now files es :
  load_directory_files now files = Ok es → Forall (clean_rel ∘ sf_relative) (kept files) →
  Forall archivable es ∧
  Forall2 (λ f e, as_str e.1 = sf_relative f ∧ sf_content f = Ok (content e.2)) (kept files) es.
Proof.
  revert es. induction files as [|f files IH]; simpl; intros es Hes HF.
  { injection Hes as <-. by split. }
  destruct (skipped f); simpl in *; [by apply IH|].
  inversion HF as [|? ? Hc HF']; subst. simpl in Hc.
  apply result_bind_ok in Hes as (e & He & Hes). apply result_bind_ok in Hes as (es' & Hes' & Hes).
  injection Hes as <-. destruct (IH es' Hes' HF') as [Ha H2].
  unfold load_file in He. destruct (sf_content f) as [bytes|] eqn:Hb; [|done]. simpl in He.
  destruct (sf_metadata f) as [[[size mo] cr]|]; [|done].
  cbn [map_err result_bind] in He. rewrite (new_slash _ Hc) in He. simpl in He. injection He as <-.
  split; constructor; try done. by destruct Hc as (? & ? & ?).
Qed.

Lemma kept_names files es :
  Forall2 (λ f e, as_str e.1 = sf_relative f ∧ sf_content f = Ok (content e.2)) (kept files) es →
  (as_str ∘ fst) <$> es = sf_relative <$> kept files.
Proof. induction 1 as [|f e fs es [Hn _] _ IH]; [done|]. rewrite !fmap_cons. simpl. by rewrite Hn, IH. Qed.

Section packager_facts.
Context `{TAR : TarLaws} `{JSON : MetadataJsonLaws}.

Lemma create_pack now nano_version dir path_exists write_file source_dir name tag output hostname path data :
  create_sliver_from_directory now nano_version dir path_exists write_file source_dir name tag
    output hostname = Ok (path, data) →
  let entrypoint := detect_entrypoint (sd_has dir) in
  ∃ es, load_directory_files now (sd_walk dir) = Ok es ∧
    pack_sliver now
      (directory_metadata now nano_version source_dir name (default name hostname) entrypoint
         (default "latest" tag))
      (create_cold_sliver_marker entrypoint) (Some es) = Ok data ∧
    path = default (name +:+ ".sliver") output ∧ path_exists path = false.
Proof.
  unfold create_sliver_from_directory. cbv zeta. intros Hcr.
  destruct (sd_exists dir); [|done]. destruct (sd_is_dir dir); [|done]. cbn [negb] in Hcr.
  destruct (path_exists _) eqn:Hpe; [done|]. unfold pack_sliver.
  apply result_bind_ok in Hcr as (p1 & H1 & Hcr). apply map_err_ok in H1 as ->. cbn [result_bind].
  apply result_bind_ok in Hcr as (p2 & H2 & Hcr). apply map_err_ok in H2 as ->. cbn [result_bind].
  apply result_bind_ok in Hcr as (es & -> & Hcr).
  apply result_bind_ok in Hcr as (p3 & H3 & Hcr). apply map_err_ok in H3.
  apply result_bind_ok in Hcr as (d & H4 & Hcr). apply map_err_ok in H4.
  destruct (write_file _ d); [done|]. injection Hcr as <- <-.
  exists es. cbn [result_bind]. rewrite H3. cbn [result_bind]. by split_and!.
Qed.

Lemma create_unpack now clock nano_version dir path_exists write_file source_dir name tag output
    hostname path data :
  Forall (clean_rel ∘ sf_relative) (kept (sd_walk dir)) →
  create_sliver_from_directory now nano_version dir path_exists write_file source_dir name tag
    output hostname = Ok (path, data) →
  ∃ es, path = default (name +:+ ".sliver") output ∧ path_exists path = false ∧
    unpack clock data = Ok (mkUnpacked
      (directory_metadata now nano_version source_dir name (default name hostname)
         (detect_entrypoint (sd_has dir)) (default "latest" tag))
      (create_cold_sliver_marker (detect_entrypoint (sd_has dir))) (restamp clock es)) ∧
    Forall archivable es ∧
    Forall2 (λ f e, as_str e.1 = sf_relative f ∧ sf_content f = Ok (content e.2))
      (kept (sd_walk dir)) es.
Proof.
  intros HF Hc. destruct (create_pack _ _ _ _ _ _ _ _ _ _ _ _ Hc) as (es & Hl & Hp & Hpath & Hpe).
  destruct (load_ok _ _ _ Hl HF) as [Ha H2]. exists es.
  set (m := directory_metadata _ _ _ _ _ _ _) in *.
  destruct (pack_unpacks now clock m (create_cold_sliver_marker (detect_entrypoint (sd_has dir)))
              es eq_refl Ha) as (data' & Hp' & Hu).
  rewrite Hp in Hp'. injection Hp' as <-. by split_and!.
Qed.
End packager_facts.

Lemma Forall2_elem_r {A C} (P : A → C → Prop) l k y :
  Forall2 P l k → y ∈ k → ∃ x, x ∈ l ∧ P x y.
Proof.
  induction 1 as [|x z l k Hp _ IH]; [by intros ?%elem_of_nil|].
  intros [->|Hin]%elem_of_cons; [exists x; split; [by left|done]|].
  destruct (IH Hin) as (x' & ? & ?). exists x'. split; [by right|done].
Qed.

(** The entries after a round trip satisfy what depends on paths and contents. *)
Lemma restamp_Forall2 {A} (P : A → VfsPath → list Z → Prop) clock l es :
  Forall2 (λ x e, P x e.1 (content e.2)) l es →
  Forall2 (λ x e, P x e.1 (content e.2)) l (restamp clock es).
Proof.
  unfold restamp. intros H. apply Forall2_same_length_lookup. apply Forall2_same_length_lookup in H as [Hl H].
  split; [by rewrite length_imap|]. intros i x e Hx He. rewrite list_lookup_imap in He.
  destruct (es !! i) as [e0|] eqn:H0; [|done]. injection He as <-. simpl. by apply (H i).
Qed.

Lemma restamp_files clock fs es :
  Forall2 (λ f e, as_str e.1 = sf_relative f ∧ sf_content f = Ok (content e.2)) fs es →
  Forall2 (λ f e, as_str e.1 = sf_relative f ∧ sf_content f = Ok (content e.2)) fs (restamp clock es).
Proof. apply (restamp_Forall2 (λ f p c, as_str p = sf_relative f ∧ sf_content f = Ok c)). Qed.

Lemma restamp_archivable clock es : Forall archivable es → Forall archivable (restamp clock es).
Proof.
  unfold restamp. rewrite !Forall_lookup. intros H i e He. rewrite list_lookup_imap in He.
  destruct (es !! i) as [e0|] eqn:H0; [|done]. injection He as <-. exact (H i e0 H0).
Qed.

Lemma strip_slash_wf p : wf_path p → strip_slash (as_str p) = as_str p.
Proof.
  intros Hp. unfold strip_slash. destruct (strip_prefix "/" (as_str p)) as [t|] eqn:Ht; [|done].
  apply strip_prefix_Some in Ht. exfalso. pose proof (wf_segs _ Hp) as Hs. unfold segments in Hs.
  rewrite Ht in Hs. change (split slash ("/" +:+ t)) with ("" :: split slash t) in Hs.
  inversion Hs as [|? ? [He _] _]. done.
Qed.

Lemma path_components_archivable e : archivable e → path_components (as_str e.1) = segments e.1.
Proof.
  intros [Hw Hd]. unfold path_components. fold (segments e.1). pose proof (wf_segs _ Hw) as Hs.
  revert Hs Hd. generalize (segments e.1). induction l as [|w l IH]; intros Hs Hd; [done|].
  inversion Hs as [|? ? [Hn _] Hs']; subst. simpl.
  rewrite (proj2 (is_empty_false w)) by done.
  destruct (String.eqb_spec w ".") as [->|Hne]; [by destruct Hd; left|]. simpl.
  rewrite IH; [done|done|]. intros Hin. apply Hd. by right.
Qed.

Definition write_all (t : tree) (es : list (VfsPath * VfsFile)) : tree :=
  foldl (λ t e, <[segments e.1 := content e.2]> t) t es.

Lemma write_entries_ok os_text os_refuses dir es : ∀ t t',
  Forall archivable es → write_vfs_entries os_text os_refuses dir t es = Ok t' → t' = write_all t es.
Proof.
  induction es as [|[p f] es IH]; intros t t' HF Ht; simpl in *; [by injection Ht as <-|].
  inversion HF as [|? ? Ha HF']; subst. apply result_bind_ok in Ht as (t1 & H1 & Ht).
  unfold write_vfs_entry in H1. destruct Ha as [Hw Hd]. simpl in *.
  rewrite strip_slash_wf in H1 by done.
  pose proof (path_components_archivable (p, f) (conj Hw Hd)) as Hpc. simpl in Hpc. rewrite Hpc in H1.
  destruct (_ || _); [done|]. destruct (_ || _); [done|]. injection H1 as <-. by apply IH.
Qed.

Lemma write_all_keys es : ∀ t k,
  is_Some (write_all t es !! k) ↔ is_Some (t !! k) ∨ ∃ e, e ∈ es ∧ segments e.1 = k.
Proof.
  induction es as [|e es IH]; intros t k; simpl.
  { split; [by left|]. intros [?|(e & ?%elem_of_nil & _)]; done. }
  unfold write_all in *. rewrite IH, lookup_insert_is_Some. split.
  - intros [[?|[_ ?]]|(e' & ? & ?)]; [right; exists e; split; [by left|done]|by left|
      right; exists e'; split; [by right|done]].
  - intros [?|(e' & [->|?]%elem_of_cons & ?)].
    + left. destruct (decide (segments e.1 = k)); auto.
    + left. by left.
    + right. eauto.
Qed.

Lemma is_prefix_of_one w k : is_prefix_of [w] k = bool_decide (head k = Some w).
Proof.
  destruct k as [|x k]; simpl; [done|]. rewrite andb_true_r.
  destruct (String.eqb_spec w x) as [->|Hn]; [by rewrite bool_decide_eq_true_2|].
  rewrite bool_decide_eq_false_2; [done|]. by intros [= ->].
Qed.

#[local] Arguments is_prefix_of : simpl never.

Lemma path_exists_in_one t w :
  path_exists_in t [w] = true ↔ ∃ k, is_Some (t !! k) ∧ head k = Some w.
Proof.
  unfold path_exists_in. rewrite orb_true_iff, bool_decide_eq_true. simpl.
  rewrite existsb_Exists, Exists_exists. split.
  - intros [?|(k & Hin & [Hp _]%andb_true_iff)]; [eauto|].
    rewrite is_prefix_of_one in Hp. apply bool_decide_eq_true in Hp.
    apply list_elem_of_fmap in Hin as ([k' c] & -> & Hin%elem_of_map_to_list). eauto.
  - intros (k & [c Hk] & Hh). destruct (decide (k = [w])) as [->|Hne]; [by left; eauto|]. right.
    exists k. split; [apply list_elem_of_fmap; exists (k, c); split; [done|by apply elem_of_map_to_list]|].
    rewrite is_prefix_of_one, bool_decide_eq_true_2 by done. simpl.
    by rewrite bool_decide_eq_false_2.
Qed.

Lemma find_none_all {A} (f : A → bool) l : Forall (λ x, f x = false) l → List.find f l = None.
Proof. induction 1 as [|x l Hx _ IH]; [done|]. simpl. by rewrite Hx. Qed.

(** Whether an archive has something the extractor takes for an entry point. *)
Definition has_js (es : list (VfsPath * VfsFile)) : Prop :=
  ∃ e, e ∈ es ∧ (ends_with ".js" (as_str e.1) = true ∨ head (segments e.1) = Some "index.js").

Lemma no_js_extract os_text os_refuses created u :
  Forall archivable (us_vfs_entries u) → ¬ has_js (us_vfs_entries u) →
  is_ok (extract os_text os_refuses created u) = false.
Proof.
  intros HF Hno. unfold extract. destruct created as [dir|]; [|done]. simpl.
  destruct (write_vfs_entries _ _ dir ∅ _) as [t|] eqn:Ht; [|done]. cbn [result_bind].
  apply write_entries_ok in Ht as ->; [|done].
  assert (Hjs : ∀ e, e ∈ us_vfs_entries u → ends_with ".js" (as_str e.1) = false).
  { intros e He. destruct (ends_with ".js" (as_str e.1)) eqn:Hd; [|done].
    destruct Hno. exists e. auto. }
  assert (Hd : vfs_detect_entrypoint (us_vfs_entries u) = "index.js").
  { unfold vfs_detect_entrypoint. rewrite find_none_all; [done|].
    assert (Hc : ∀ c, ends_with ".js" c = true →
      existsb (λ e, String.eqb (as_str e.1) c) (us_vfs_entries u) = false).
    { intros c Hc. apply existsb_false, Forall_forall. intros e He. simpl.
      destruct (String.eqb_spec (as_str e.1) c) as [<-|]; [|done]. by rewrite Hjs in Hc. }
    repeat constructor; by apply Hc. }
  rewrite Hd. change (path_components "index.js") with ["index.js"].
  destruct (path_exists_in _ ["index.js"]) eqn:Hp.
  - apply path_exists_in_one in Hp as (k & Hk & Hh). apply write_all_keys in Hk as [Hk|(e & He & <-)].
    + by rewrite lookup_empty, is_Some_alt in Hk.
    + destruct Hno. exists e. auto.
  - cbn [negb]. rewrite find_none_all; [done|]. by apply Forall_forall.
Qed.

(** The entry point the extractor means to pick: the first conventional name that is
    a file of the archive, else the first file with the extension. *)
Definition chosen_entrypoint (es : list (VfsPath * VfsFile)) : option string :=
  match List.find (λ candidate, existsb (λ e, String.eqb (as_str e.1) candidate) es)
          extractor_candidates with
  | Some c => Some c
  | None => (as_str ∘ fst) <$> List.find (λ e, ends_with ".js" (as_str e.1)) es
  end.

Lemma candidate_components c : c ∈ extractor_candidates → path_components c = [c].
Proof. intros Hc. repeat (apply elem_of_cons in Hc as [->|Hc]; [done|]). by apply elem_of_nil in Hc. Qed.

Lemma candidate_segments c : c ∈ extractor_candidates → split slash c = [c].
Proof. intros Hc. repeat (apply elem_of_cons in Hc as [->|Hc]; [done|]). by apply elem_of_nil in Hc. Qed.

Lemma entrypoint_exists es :
  (∀ e, e ∈ es → head (segments e.1) = Some "index.js" → as_str e.1 = "index.js") →
  path_exists_in (write_all ∅ es) (path_components (vfs_detect_entrypoint es)) =
    match List.find (λ candidate, existsb (λ e, String.eqb (as_str e.1) candidate) es)
            extractor_candidates with
    | Some _ => true
    | None => false
    end.
Proof.
  intros Hidx. unfold vfs_detect_entrypoint. destruct (List.find _ _) as [c|] eqn:Hf; simpl default.
  - apply find_some in Hf as [Hin He]. apply list_elem_of_In in Hin.
    rewrite candidate_components by done. apply path_exists_in_one. exists [c]. split; [|done].
    apply write_all_keys. right. apply existsb_exists in He as (e & He & Heq).
    exists e. split; [by apply list_elem_of_In|]. apply String.eqb_eq in Heq.
    unfold segments. rewrite Heq. by apply candidate_segments.
  - apply not_true_iff_false. change (path_components "index.js") with ["index.js"].
    intros (k & Hk & Hh)%path_exists_in_one. apply write_all_keys in Hk as [Hk|(e & He & <-)].
    { by rewrite lookup_empty, is_Some_alt in Hk. }
    pose proof (Hidx e He Hh) as Heq.
    assert (Hn : existsb (λ e, String.eqb (as_str e.1) "index.js") es = true).
    { apply existsb_exists. exists e. split; [by apply list_elem_of_In|]. by apply String.eqb_eq. }
    by rewrite (find_none _ _ Hf "index.js" (or_introl eq_refl)) in Hn.
Qed.

Definition demo_source (name : string) : SourceFile :=
  mkSource name (Ok [60; 62]) (Ok (2, Some 5000000000, None)).

Definition demo_site : SourceDir :=
  mkSourceDir true true (String.eqb "index.html")
    [demo_source "index.html"; demo_source ".git/.hidden"; demo_source "css/site.css"].

Lemma clean_intro rel :
  new rel = Ok (mkVfsPath rel) → existsb (String.eqb ".") (split slash rel) = false →
  slen rel < MAX_PATH_LENGTH → clean_rel rel.
Proof.
  intros Hn Hd Hl. split; [by apply (new_wf rel)|]. split; [|done].
  rewrite existsb_eqb in Hd. by apply bool_decide_eq_false in Hd.
Qed.

Lemma demo_clean : Forall (clean_rel ∘ sf_relative) (kept (sd_walk demo_site)).
Proof.
  repeat (apply Forall_cons_2 || apply Forall_nil_2); apply clean_intro; vm_compute; reflexivity.
Qed.

Definition demo_create : result (string * list Z) string :=
  @create_sliver_from_directory demo_Tar demo_Json 3 "1.1.0" demo_site (λ _, false)
    (λ _ _, None) "./dist" "site" None None None.

Lemma demo_create_ok : ∃ path data, demo_create = Ok (path, data).
Proof.
  assert (H : is_ok demo_create = true) by (vm_compute; reflexivity).
  destruct demo_create as [[path data]|]; [eauto|done].
Qed.

(** ** Properties *)

(** A sliver made from a directory holds the directory: the archive written to the
    output path, which did not exist before, unpacks to a description that records
    the detected entry point, the cold marker as the heap, and the files that are
    neither hidden nor slivers, in walking order under their relative paths. *)
Theorem directory_sliver_roundtrip `{TarLaws} `{MetadataJsonLaws} (now : Z) (clock : nat → Z)
    (nano_version : string) (dir : SourceDir) (path_exists : string → bool)
    (write_file : string → list Z → option string) (source_dir name : string)
    (tag output hostname : option string) (path : string) (data : list Z)
    (HF : Forall (clean_rel ∘ sf_relative) (kept (sd_walk dir)))
    (Hc : create_sliver_from_directory now nano_version dir path_exists write_file source_dir name
            tag output hostname = Ok (path, data)) :
  path = default (name +:+ ".sliver") output ∧ path_exists path = false ∧
  ∃ u, unpack clock data = Ok u ∧
    md_hostname (us_metadata u) = default name hostname ∧
    md_custom (us_metadata u) !! "entrypoint" = Some (detect_entrypoint (sd_has dir)) ∧
    us_heap_data u = create_cold_sliver_marker (detect_entrypoint (sd_has dir)) ∧
    Forall2 (λ f e, as_str e.1 = sf_relative f ∧ sf_content f = Ok (content e.2))
      (kept (sd_walk dir)) (us_vfs_entries u).
Proof.
  destruct (create_unpack now clock _ _ _ _ _ _ _ _ _ _ _ HF Hc)
    as (es & Hp & Hpe & Hu & Ha & Hfiles).
  split_and!; try done. eexists. split; [exact Hu|]. split_and!; try done.
  cbn [us_vfs_entries]. by apply restamp_files.
Qed.

Lemma directory_sliver_roundtrip_witness :
  ∃ path data, demo_create = Ok (path, data) ∧
    (path = "site.sliver" ∧ false = false ∧
     ∃ u, @unpack demo_Tar demo_Json Z.of_nat data = Ok u ∧
       md_hostname (us_metadata u) = "site" ∧
       md_custom (us_metadata u) !! "entrypoint" = Some "index.html" ∧
       us_heap_data u = create_cold_sliver_marker "index.html" ∧
       Forall2 (λ f e, as_str e.1 = sf_relative f ∧ sf_content f = Ok (content e.2))
         (kept (sd_walk demo_site)) (us_vfs_entries u)).
Proof.
  destruct demo_create_ok as (path & data & H). exists path, data. split; [exact H|].
  exact (@directory_sliver_roundtrip demo_Tar demo_TarLaws demo_Json demo_JsonLaws 3 Z.of_nat "1.1.0"
           demo_site (λ _, false) (λ _ _, None) "./dist" "site" None None None path data demo_clean H).
Defined.

(** What extraction does, for an archive without directory "index.js": when the
    files can be written the temporary directory holds exactly them, and the entry
    point is the first of "index.js", "app.js", "main.js", "server.js" among the
    files, else the first file named "*.js"; without one it is an error.  The entry
    point recorded in the description plays no part. *)
Theorem extract_exact (os_text : string → string) (os_refuses : string → bool)
    (created : result string SliverError) (u : UnpackedSliver)
    (HF : Forall archivable (us_vfs_entries u))
    (Hidx : ∀ e, e ∈ us_vfs_entries u → head (segments e.1) = Some "index.js" →
                 as_str e.1 = "index.js") :
  extract os_text os_refuses created u =
    let? dir := created in
    let? t := write_vfs_entries os_text os_refuses dir ∅ (us_vfs_entries u) in
    match chosen_entrypoint (us_vfs_entries u) with
    | Some name => Ok (mkTempVfs dir (path_join dir name), write_all ∅ (us_vfs_entries u))
    | None => Err (VfsRestore "index.js" "Entrypoint file not found in VFS entries")
    end.
Proof.
  unfold extract. destruct created as [dir|]; [|done]. cbn [result_bind].
  destruct (write_vfs_entries _ _ _ _ _) as [t|] eqn:Ht; [|done]. cbn [result_bind].
  apply write_entries_ok in Ht as ->; [|done]. rewrite entrypoint_exists by done.
  unfold chosen_entrypoint, vfs_detect_entrypoint.
  destruct (List.find _ extractor_candidates) as [c|]; [done|]. cbn [negb default].
  by destruct (List.find _ (us_vfs_entries u)).
Qed.

Lemma extract_exact_witness :
  extract (λ _, "os error") (λ _, false) (Ok "/tmp/x")
    (mkUnpacked (metadata_new 1 "h" "1") [7] demo_entries) =
  Ok (mkTempVfs "/tmp/x" "/tmp/x/index.js", write_all ∅ demo_entries).
Proof.
  rewrite (extract_exact (λ _, "os error") (λ _, false) (Ok "/tmp/x")
             (mkUnpacked (metadata_new 1 "h" "1") [7] demo_entries) demo_archivable).
  - vm_compute. reflexivity.
  - intros e [->|[->|[]%elem_of_nil]%elem_of_cons]%elem_of_cons; done.
Defined.

(** A static site packaged from a directory cannot be run: if no packaged file is
    named "*.js" (or lies below "index.js/"), the sliver is created and unpacks,
    but extracting it is an error whatever the machine does; the packager, which
    records "index.html" as its entry point, says that static sites are supported. *)
Theorem static_site_not_runnable `{TarLaws} `{MetadataJsonLaws} (now : Z) (clock : nat → Z)
    (nano_version : string) (dir : SourceDir) (path_exists : string → bool)
    (write_file : string → list Z → option string) (source_dir name : string)
    (tag output hostname : option string) (path : string) (data : list Z)
    (HF : Forall (clean_rel ∘ sf_relative) (kept (sd_walk dir)))
    (Hjs : Forall (λ f, ends_with ".js" (sf_relative f) = false ∧
                        head (split slash (sf_relative f)) ≠ Some "index.js") (kept (sd_walk dir)))
    (Hc : create_sliver_from_directory now nano_version dir path_exists write_file source_dir name
            tag output hostname = Ok (path, data)) :
  ∃ u, unpack clock data = Ok u ∧
    ∀ os_text os_refuses created, is_ok (extract os_text os_refuses created u) = false.
Proof.
  destruct (create_unpack now clock _ _ _ _ _ _ _ _ _ _ _ HF Hc)
    as (es & Hp & Hpe & Hu & Ha & Hfiles).
  eexists. split; [exact Hu|]. intros. apply no_js_extract; cbn [us_vfs_entries].
  - by apply restamp_archivable.
  - intros (e & He & Hj). pose proof (restamp_files clock _ _ Hfiles) as Hf2.
    destruct (Forall2_elem_r _ _ _ e Hf2 He) as (f & Hf & Heq & _).
    rewrite Forall_forall in Hjs. destruct (Hjs f Hf) as [Hj1 Hj2].
    unfold segments in Hj. rewrite Heq in Hj. destruct Hj; congruence.
Qed.

Lemma static_site_not_runnable_witness :
  ∃ path data, demo_create = Ok (path, data) ∧
    ∃ u, @unpack demo_Tar demo_Json Z.of_nat data = Ok u ∧
      ∀ os_text os_refuses created, is_ok (extract os_text os_refuses created u) = false.
Proof.
  destruct demo_create_ok as (path & data & H). exists path, data. split; [exact H|].
  apply (@static_site_not_runnable demo_Tar demo_TarLaws demo_Json demo_JsonLaws 3 Z.of_nat "1.1.0"
           demo_site (λ _, false) (λ _ _, None) "./dist" "site" None None None path data demo_clean).
  - repeat (apply Forall_cons_2 || apply Forall_nil_2); vm_compute; split; congruence.
  - exact H.
Defined.
