(* ===== verification/SliverCache.v ===== *)
(** * [src/sliver/auto_cache.rs] and [NanoIsolate::from_snapshot]: the cache of
    generated slivers and how a heap blob is used

    The cache is a directory of the file system, modelled as the map from path texts
    to file contents and modification times; the hasher, the environment and the
    engine's version are parameters. *)

From stdpp Require Import base gmap list strings pretty.
From Stdlib Require Import Ascii ZArith Lia.
From S2P Require Import Prelude RustString RustPath RustList VfsPath Config Sliver SliverVfs.
From S2P Require Import SliverCheck SliverFiles.

Open Scope Z_scope.

(** ** Data *)

Inductive JsHandlerSource :=
| Source (entrypoint : string)
| SliverSource (entrypoint : string) (snapshot : list Z) (hostname : string).

Definition is_sliver (s : JsHandlerSource) : bool :=
  match s with SliverSource _ _ _ => true | Source _ => false end.

Definition source_entrypoint (s : JsHandlerSource) : string :=
  match s with Source e => e | SliverSource e _ _ => e end.

Record SliverCache := mkCache { cache_dir : string }.

(** Files with their contents and modification times in nanoseconds. *)
Abbreviation Files := (gmap string (list Z * Z)).

Record SliverCacheStats := mkStats {
  total_size_bytes : Z;
  sliver_count : Z;
  stats_cache_dir : string;
}.

Definition default_cache_dir (home userprofile : option string) : result string string :=
  let? h := ok_or (match home with Some h => Some h | None => userprofile end)
              "Could not determine home directory" in
  Ok (path_join (path_join h ".nano") "sliver-cache").

Section cache.
Context `{TAR : Tar} `{JSON : MetadataJson}.

(** [DefaultHasher] fed with hostname, entry point and the seconds of the entry
    point's modification time; [v8::V8::get_version()]. *)
Context (finish_hash : string → string → option Z → Z) (v8_version : string).

Definition cache_key (fs : Files) (hostname entrypoint : string) : string :=
  let modified := match fs !! entrypoint with
                  | Some (_, t) => if t <? 0 then None else Some (t / nanos_per_sec)
                  | None => None
                  end in
  lower_hex (finish_hash hostname entrypoint modified).

Definition cache_path (c : SliverCache) (fs : Files) (hostname entrypoint : string) : string :=
  path_join (path_join (cache_dir c) hostname) (cache_key fs hostname entrypoint +:+ ".sliver").

Definition generation_lock_path (c : SliverCache) (fs : Files) (hostname entrypoint : string) : string :=
  path_join (path_join (cache_dir c) hostname) (cache_key fs hostname entrypoint +:+ ".sliver.lock").

Definition try_load (clock : nat → Z) (c : SliverCache) (fs : Files) (hostname entrypoint : string)
    : option (list Z) :=
  match fs !! cache_path c fs hostname entrypoint with
  | None => None
  | Some (data, _) =>
      match unpack clock data with
      | Ok unpacked =>
          let sliver_major := head (split dot (md_nano_version (us_metadata unpacked))) in
          let current_major := head (split dot v8_version) in
          if bool_decide (sliver_major = current_major) then Some data else None
      | Err _ => None
      end
  end.

(** [Path::with_extension("tmp")] of a cache path. *)
Definition temp_path (c : SliverCache) (fs : Files) (hostname entrypoint : string) : string :=
  path_join (path_join (cache_dir c) hostname) (cache_key fs hostname entrypoint +:+ ".tmp").

(** [io_refuses] are the requests the operating system refuses. *)
Definition store (io_refuses : string → bool) (now : Z) (c : SliverCache) (fs : Files)
    (hostname entrypoint : string) (data : list Z) : Files * result unit string :=
  let cache := cache_path c fs hostname entrypoint in
  let parent := path_join (cache_dir c) hostname in
  let temp := temp_path c fs hostname entrypoint in
  if io_refuses parent then (fs, Err ("Failed to create cache directory: " +:+ parent))
  else if io_refuses temp then (fs, Err ("Failed to write sliver cache: " +:+ temp))
  else
    let fs1 := <[temp := (data, now)]> fs in
    if io_refuses cache then (fs1, Err ("Failed to finalize sliver cache: " +:+ cache))
    else (<[cache := (data, now)]> (delete temp fs1), Ok tt).

Definition try_acquire_generation_lock (io_refuses : string → bool) (now : Z) (pid : list Z)
    (c : SliverCache) (fs : Files) (hostname entrypoint : string) : Files * bool :=
  let lock := generation_lock_path c fs hostname entrypoint in
  if bool_decide (is_Some (fs !! lock)) || io_refuses lock then (fs, false)
  else (<[lock := (pid, now)]> fs, true).

Definition release_generation_lock (c : SliverCache) (fs : Files) (hostname entrypoint : string)
    : Files * bool :=
  let lock := generation_lock_path c fs hostname entrypoint in
  (delete lock fs, bool_decide (is_Some (fs !! lock))).

Definition is_generation_in_progress (c : SliverCache) (fs : Files) (hostname entrypoint : string)
    : bool :=
  bool_decide (is_Some (fs !! generation_lock_path c fs hostname entrypoint)).

(** The entries of a capture in the map's iteration order; a path that is no valid
    VFS path becomes "unknown". *)
Definition captured_entries `{HashOrder VfsFile} (cap : VfsCapture) : list (VfsPath * VfsFile) :=
  (λ pf, (match new (fst pf) with Ok p => p | Err _ => mkVfsPath "unknown" end, snd pf))
    <$> hash_iter (vc_files cap).

Definition create_sliver `{HashOrder VfsFile} (now : Z) (debug_time : string)
    (hostname entrypoint : string) (heap_data : list Z) (vfs_capture : option VfsCapture)
    : result (list Z) string :=
  let meta := metadata_new now hostname v8_version in
  let meta := mkMetadata (Some ("auto-cache-" +:+ hostname)) (md_hostname meta) (md_created_at meta)
                (md_format_version meta) (md_nano_version meta)
                (Some ("Auto-generated sliver cache for " +:+ (hostname +:+ (newline +:+
                  ("Entrypoint: " +:+ (entrypoint +:+ (newline +:+ ("Generated: " +:+ debug_time))))))))
                (md_custom meta) in
  map_err (λ _, "Failed to pack sliver")
    (pack_sliver now meta heap_data (captured_entries <$> vfs_capture)).

(** The files of a directory itself, as [read_dir] gives them: names without slash. *)
Definition read_dir (dir : string) (fs : Files) : list (string * (string * (list Z * Z))) :=
  omap (λ kf, match strip_prefix (dir +:+ "/") (fst kf) with
              | Some name => if contains_char slash name || is_empty name then None
                             else Some (name, kf)
              | None => None
              end) (map_to_list fs).

Definition stats (c : SliverCache) (fs : Files) : SliverCacheStats :=
  let entries := List.filter (λ e, ends_with ".sliver" (fst e)) (read_dir (cache_dir c) fs) in
  mkStats (foldr (λ e acc, len (fst (snd (snd e))) + acc) 0 entries) (len entries) (cache_dir c).

(** [max_age] in nanoseconds; the result is the file system and the number removed. *)
Definition cleanup (io_refuses : string → bool) (now max_age : Z) (c : SliverCache) (fs : Files)
    : Files * Z :=
  foldl (λ acc e,
    let path := fst (snd e) in
    let modified := snd (snd (snd e)) in
    if bool_decide (path_extension path = Some "sliver") && (modified <=? now) &&
       (now - modified >? max_age) && negb (io_refuses path)
    then (delete path (fst acc), snd acc + 1) else acc) (fs, 0) (read_dir (cache_dir c) fs).

Definition load_and_unpack (clock : nat → Z) (c : SliverCache) (fs : Files)
    (hostname entrypoint : string) : option UnpackedSliver :=
  data ← try_load clock c fs hostname entrypoint; ok_opt (unpack clock data).

(** One attempt to take the sliver of the cache. *)
Definition load_source (clock : nat → Z) (c : SliverCache) (fs : Files) (hostname entrypoint : string)
    : option JsHandlerSource :=
  u ← load_and_unpack clock c fs hostname entrypoint;
  Some (SliverSource entrypoint (us_heap_data u) hostname).

(** The ten rounds of waiting; [fs_at n] is the file system after [n] rounds. *)
Fixpoint poll_cache (clock : nat → Z) (c : SliverCache) (fs_at : nat → Files)
    (hostname entrypoint : string) (round rounds : nat) : option JsHandlerSource :=
  match rounds with
  | O => None
  | S rounds' =>
      match load_source clock c (fs_at (S round)) hostname entrypoint with
      | Some s => Some s
      | None => poll_cache clock c fs_at hostname entrypoint (S round) rounds'
      end
  end.

(** [cache] is what [SliverCache::new] gives. *)
Definition get_optimized_handler_source (clock : nat → Z) (cache : result SliverCache string)
    (fs_at : nat → Files) (hostname entrypoint : string) (prefer_sliver : bool) : JsHandlerSource :=
  match cache with
  | Err _ => Source entrypoint
  | Ok c =>
      match load_source clock c (fs_at 0%nat) hostname entrypoint with
      | Some s => s
      | None =>
          if is_generation_in_progress c (fs_at 0%nat) hostname entrypoint && prefer_sliver
          then default (Source entrypoint)
                 (poll_cache clock c fs_at hostname entrypoint 0 10)
          else Source entrypoint
      end
  end.

Definition is_sliver_available (cache : result SliverCache string) (fs : Files)
    (hostname entrypoint : string) : bool :=
  match cache with
  | Ok c => bool_decide (is_Some (fs !! cache_path c fs hostname entrypoint))
  | Err _ => false
  end.

Definition store_generated_sliver `{HashOrder VfsFile} (io_refuses : string → bool) (now : Z)
    (debug_time : string) (cache : result SliverCache string) (fs : Files)
    (hostname entrypoint : string) (heap_data : list Z) (vfs_capture : option VfsCapture)
    : Files * result unit string :=
  match cache with
  | Err e => (fs, Err e)
  | Ok c =>
      match create_sliver now debug_time hostname entrypoint heap_data vfs_capture with
      | Err e => (fs, Err e)
      | Ok data => store io_refuses now c fs hostname entrypoint data
      end
  end.
End cache.

(** ** [NanoIsolate::from_snapshot]: which isolate a heap blob gives *)

Inductive isolate_source :=
| FreshIsolate
| SnapshotIsolate (blob : list Z).

Definition V8_SNAPSHOT_MAGIC : list Z := [215; 60; 215; 60].

(** [snapshot_valid] is [StartupData::is_valid] of the engine. *)
Definition from_snapshot (snapshot_valid : list Z → bool) (min_snapshot_size : Z)
    (initialized : bool) (namespace : string) (snapshot_data : list Z) : outcome isolate_source :=
  assert! initialized or "V8 platform must be initialized before creating isolates from snapshots" in
  assert! negb (is_empty namespace) or "VFS namespace must not be empty" in
  Done (if bool_decide (snapshot_data = as_bytes "NANO_SNAPSHOT_PLACEHOLDER_V1") then FreshIsolate
        else if len snapshot_data <? min_snapshot_size then FreshIsolate
        else if negb ((4 <=? len snapshot_data) && bool_decide (take 4 snapshot_data = V8_SNAPSHOT_MAGIC))
        then FreshIsolate
        else if negb (snapshot_valid snapshot_data) then FreshIsolate
        else SnapshotIsolate snapshot_data).

(** ** Facts *)

Definition plain_dir (c : SliverCache) (hostname : string) : Prop :=
  cache_dir c ≠ "" ∧ ends_with_char slash (cache_dir c) = false ∧
  hostname ≠ "" ∧ contains_char slash hostname = false.

Lemma ends_with_char_contains ch s : contains_char ch s = false → ends_with_char ch s = false.
Proof.
  intros H. destruct (ends_with_char ch s) eqn:E; [|done].
  apply ends_with_char_true in E as [t ->]. rewrite contains_char_app in H.
  apply orb_false_iff in H as [_ H]. simpl in H. by rewrite char_eqb_refl in H.
Qed.

Lemma ends_with_char_app ch a b : b ≠ "" → ends_with_char ch (a +:+ b) = ends_with_char ch b.
Proof.
  intros Hb. induction a as [|x a IH]; [done|]. rewrite str_app_cons. simpl. rewrite IH.
  destruct (a +:+ b) eqn:E; [|done]. by destruct a, b.
Qed.

Lemma lower_hex_no_slash n : contains_char slash (lower_hex n) = false.
Proof.
  unfold lower_hex. assert (H : ∀ fuel n acc, contains_char slash acc = false →
    contains_char slash (hex_go fuel n acc) = false).
  { induction fuel as [|fuel IH]; intros m acc Hacc; [done|]. simpl.
    assert (Hd : contains_char slash (String (hex_digit (m mod 16)) acc) = false).
    { simpl. rewrite Hacc, orb_false_r. apply char_eqb_neq. intros Heq.
      assert (Hr : 0 ≤ m mod 16 < 16) by (apply Z.mod_pos_bound; lia).
      pose proof (hex_value_digit _ Hr) as Hv. rewrite Heq in Hv. revert Hv Hr.
      change (hex_value slash) with (hex_value "/"%char). vm_compute. intros <-. intros [H _]. by apply H. }
    destruct (m <? 16); [done|]. by apply IH. }
  by apply H.
Qed.

Section facts.
Context `{TAR : Tar} `{JSON : MetadataJson} (finish_hash : string → string → option Z → Z)
  (v8_version : string).

Lemma path_in_host c hostname name :
  plain_dir c hostname → is_absolute name = false →
  path_join (path_join (cache_dir c) hostname) name =
    (cache_dir c +:+ "/") +:+ (hostname +:+ String slash name).
Proof.
  intros (Hd & He & Hh & Hs) Hn. unfold path_join.
  assert (Ha : is_absolute hostname = false).
  { destruct hostname as [|a h]; [done|]. simpl in *. by apply orb_false_iff in Hs as [? _]. }
  rewrite Ha, Hn. rewrite (proj2 (is_empty_false (cache_dir c))), He by done. cbn [orb].
  assert (Hne : is_empty (cache_dir c +:+ "/" +:+ hostname) = false)
    by (apply is_empty_false; by destruct (cache_dir c)).
  rewrite Hne, !ends_with_char_app by done. cbn [orb].
  rewrite (ends_with_char_contains slash hostname) by done. rewrite <- !str_app_assoc. done.
Qed.

Lemma hex_name_relative n ext : is_absolute (lower_hex n +:+ String dot ext) = false.
Proof.
  pose proof (lower_hex_no_slash n) as H. destruct (lower_hex n) as [|a s]; [done|].
  simpl in H. by apply orb_false_iff in H as [H _].
Qed.

Lemma cache_path_eq c fs hostname entrypoint :
  plain_dir c hostname →
  cache_path finish_hash c fs hostname entrypoint =
    (cache_dir c +:+ "/") +:+ (hostname +:+ String slash
      (cache_key finish_hash fs hostname entrypoint +:+ ".sliver")).
Proof. intros Hp. apply path_in_host; [done|]. apply hex_name_relative. Qed.

(** A stored sliver lies below the directory of its host, which [read_dir] of the
    cache directory does not enter. *)
Lemma cache_path_not_listed c fs fs' hostname entrypoint name kf :
  plain_dir c hostname →
  (name, kf) ∈ read_dir (cache_dir c) fs' →
  kf.1 ≠ cache_path finish_hash c fs hostname entrypoint.
Proof.
  intros Hp Hin Heq. unfold read_dir in Hin. apply list_elem_of_omap in Hin as ([k f] & _ & Hk).
  cbn [fst] in Hk. destruct (strip_prefix (cache_dir c +:+ "/") k) as [nm|] eqn:Hs; [|done].
  destruct (contains_char slash nm) eqn:Hc; [done|]. destruct (is_empty nm); [done|].
  cbn in Hk. injection Hk as <- <-. cbn [fst] in Heq. apply strip_prefix_Some in Hs.
  rewrite Heq, (cache_path_eq c fs hostname entrypoint Hp) in Hs. apply str_app_inj_l in Hs.
  subst nm. rewrite contains_char_app in Hc. apply orb_false_iff in Hc as [_ Hc].
  done.
Qed.

Lemma cleanup_fold io_refuses now max_age k l : ∀ fs n,
  (∀ e, e ∈ l → (snd e).1 ≠ k) →
  fst (foldl (λ (acc : Files * Z) (e : string * (string * (list Z * Z))),
    let path := fst (snd e) in
    let modified := snd (snd (snd e)) in
    if bool_decide (path_extension path = Some "sliver") && (modified <=? now) &&
       (now - modified >? max_age) && negb (io_refuses path)
    then (delete path (fst acc), snd acc + 1) else acc) (fs, n) l) !! k = fs !! k.
Proof.
  induction l as [|e l IH]; intros fs n Hl; [done|]. simpl.
  assert (Hne : (snd e).1 ≠ k) by (apply Hl; by left).
  destruct (_ && _); [|apply IH; intros ??; apply Hl; by right].
  rewrite IH by (intros ??; apply Hl; by right). by apply lookup_delete_ne.
Qed.

Lemma omap_perm {A C} (f : A → option C) l k : l ≡ₚ k → omap f l ≡ₚ omap f k.
Proof. by intros ->. Qed.

(** Adding, changing or removing an unlisted file does not change a listing. *)
Lemma read_dir_insert dir k v fs :
  (∀ f, read_dir dir {[k := f]} = []) → read_dir dir (<[k := v]> fs) ≡ₚ read_dir dir (delete k fs).
Proof.
  intros Hk. rewrite <- insert_delete_eq. unfold read_dir at 1.
  rewrite map_to_list_insert by apply lookup_delete_eq. simpl.
  specialize (Hk v). unfold read_dir in Hk. rewrite map_to_list_singleton in Hk. simpl in Hk.
  destruct (strip_prefix _ k) as [nm|]; [|done]. by destruct (_ || _).
Qed.
Definition unlisted (dir k : string) : Prop := ∀ f, read_dir dir {[k := f]} = [].

Lemma nested_unlisted dir host name :
  unlisted dir ((dir +:+ "/") +:+ (host +:+ String slash name)).
Proof.
  intros f. unfold read_dir. rewrite map_to_list_singleton. simpl.
  rewrite (proj2 (strip_prefix_Some _ _ _) eq_refl). rewrite contains_char_app.
  change (contains_char slash (String slash name)) with true. by rewrite orb_true_r.
Qed.

Lemma read_dir_delete_unlisted dir k fs :
  unlisted dir k → read_dir dir (delete k fs) ≡ₚ read_dir dir fs.
Proof.
  intros Hk. destruct (fs !! k) as [v|] eqn:Hv; [|by rewrite delete_id].
  rewrite <- (insert_id fs k v Hv) at 2. by rewrite read_dir_insert.
Qed.

Lemma read_dir_insert_unlisted dir k v fs :
  unlisted dir k → read_dir dir (<[k := v]> fs) ≡ₚ read_dir dir fs.
Proof. intros Hk. rewrite read_dir_insert by done. by apply read_dir_delete_unlisted. Qed.

Lemma stats_perm c fs fs' :
  read_dir (cache_dir c) fs ≡ₚ read_dir (cache_dir c) fs' → stats c fs = stats c fs'.
Proof.
  intros H. unfold stats. set (p := λ e : string * (string * (list Z * Z)), ends_with ".sliver" e.1).
  assert (Hf : List.filter p (read_dir (cache_dir c) fs) ≡ₚ List.filter p (read_dir (cache_dir c) fs')).
  { induction H as [|x l k _ IH|x y l|l k j _ IH1 _ IH2]; simpl; [done| | |by rewrite IH1].
    - destruct (p x); by rewrite IH.
    - destruct (p x), (p y); (done || apply Permutation_swap). }
  f_equal; [|unfold len; by rewrite Hf].
  clear H. induction Hf as [|x l k _ IH|x y l|l k j _ IH1 _ IH2]; simpl; [done|lia|lia|lia].
Qed.

Lemma temp_path_eq c fs hostname entrypoint :
  plain_dir c hostname →
  temp_path finish_hash c fs hostname entrypoint =
    (cache_dir c +:+ "/") +:+ (hostname +:+ String slash
      (cache_key finish_hash fs hostname entrypoint +:+ ".tmp")).
Proof. intros Hp. apply path_in_host; [done|]. apply hex_name_relative. Qed.

Lemma temp_neq_cache c fs hostname entrypoint :
  plain_dir c hostname →
  temp_path finish_hash c fs hostname entrypoint ≠ cache_path finish_hash c fs hostname entrypoint.
Proof.
  intros Hp. rewrite temp_path_eq, cache_path_eq by done.
  intros H%str_app_inj_l%str_app_inj_l. injection H as H. by apply str_app_inj_l in H.
Qed.

Lemma store_result io_refuses now c fs hostname entrypoint data fs' :
  store finish_hash io_refuses now c fs hostname entrypoint data = (fs', Ok tt) →
  fs' = <[cache_path finish_hash c fs hostname entrypoint := (data, now)]>
          (delete (temp_path finish_hash c fs hostname entrypoint)
             (<[temp_path finish_hash c fs hostname entrypoint := (data, now)]> fs)).
Proof.
  unfold store. destruct (io_refuses _); [done|]. destruct (io_refuses _); [done|].
  destruct (io_refuses _); [done|]. by intros [= <-].
Qed.

(** Storing does not touch the entry point's own file, so its key stays. *)
Lemma store_keeps_key io_refuses now c fs hostname entrypoint data fs' :
  store finish_hash io_refuses now c fs hostname entrypoint data = (fs', Ok tt) →
  entrypoint ≠ cache_path finish_hash c fs hostname entrypoint →
  entrypoint ≠ temp_path finish_hash c fs hostname entrypoint →
  cache_path finish_hash c fs' hostname entrypoint = cache_path finish_hash c fs hostname entrypoint ∧
  fs' !! cache_path finish_hash c fs hostname entrypoint = Some (data, now).
Proof.
  intros Hs%store_result Hc Ht.
  assert (Hf : fs' !! entrypoint = fs !! entrypoint).
  { rewrite Hs, lookup_insert_ne, lookup_delete_ne, lookup_insert_ne by done. done. }
  split; [|rewrite Hs; apply lookup_insert_eq].
  unfold cache_path, cache_key. by rewrite Hf.
Qed.
End facts.

Definition demo_cache : SliverCache := mkCache "/c".
Definition demo_hash (h e : string) (m : option Z) : Z := default 7 m.
Definition demo_fs : Files := {["/app/index.js" := ([1], 5000000000)]}.

Lemma demo_plain_dir : plain_dir demo_cache "h".
Proof. by split_and!. Qed.

Definition demo_capture : VfsCapture :=
  add_file capture_new (mkVfsPath "index.js") (new_file 3 [1; 2]).

Lemma demo_captured :
  Forall archivable (default [] (@captured_entries plain_order <$> Some demo_capture)).
Proof.
  change (default [] _) with [(mkVfsPath "index.js", new_file 3 [1; 2])].
  apply Forall_cons_2; [|apply Forall_nil_2].
  pose proof demo_archivable as H. inversion H; subst. done.
Qed.

Definition demo_store : Files * result unit string :=
  @store_generated_sliver demo_Tar demo_Json demo_hash "12.4.1" plain_order (λ _, false) 9 "t"
    (Ok demo_cache) demo_fs "h" "/app/index.js" [7; 7] (Some demo_capture).

Lemma demo_store_ok : ∃ fs', demo_store = (fs', Ok tt).
Proof.
  assert (H : is_ok (snd demo_store) = true) by (vm_compute; reflexivity).
  destruct demo_store as [fs' [[]|]]; [eauto|done].
Qed.

(** ** Properties *)

(** A generated sliver is used: after the sliver of an application was stored
    without an error, the next request for a handler source of the same, unmodified
    entry point gets the stored heap, in the same process or another one. *)
Theorem generated_sliver_is_used `{TarLaws} `{MetadataJsonLaws} `{HashOrder VfsFile}
    (finish_hash : string → string → option Z → Z) (v8_version : string)
    (io_refuses : string → bool) (clock : nat → Z) (now : Z) (debug_time : string)
    (c : SliverCache) (fs fs' : Files) (fs_at : nat → Files) (hostname entrypoint : string)
    (heap_data : list Z) (vfs_capture : option VfsCapture) (prefer_sliver : bool)
    (Hcap : Forall archivable (default [] (captured_entries <$> vfs_capture)))
    (Hc : entrypoint ≠ cache_path finish_hash c fs hostname entrypoint)
    (Ht : entrypoint ≠ temp_path finish_hash c fs hostname entrypoint)
    (Hstore : store_generated_sliver finish_hash v8_version io_refuses now debug_time (Ok c) fs
                hostname entrypoint heap_data vfs_capture = (fs', Ok tt))
    (Hat : fs_at 0%nat = fs') :
  get_optimized_handler_source finish_hash v8_version clock (Ok c) fs_at hostname entrypoint
    prefer_sliver = SliverSource entrypoint heap_data hostname.
Proof.
  unfold store_generated_sliver, create_sliver in Hstore.
  set (m := mkMetadata _ _ _ _ _ _ _) in Hstore.
  destruct (pack_sliver now m heap_data _) as [data|] eqn:Hp; [|done]. cbn [map_err] in Hstore.
  pose proof (pack_unpacks_opt now clock m heap_data _ data eq_refl Hcap Hp) as Hu.
  destruct (store_keeps_key _ _ _ _ _ _ _ _ _ Hstore Hc Ht) as [Hk Hl].
  unfold get_optimized_handler_source, load_source, load_and_unpack, try_load.
  rewrite Hat, Hk, Hl, Hu. simpl md_nano_version. rewrite bool_decide_eq_true_2 by done. simpl.
  by rewrite Hu.
Qed.

Lemma generated_sliver_is_used_witness :
  ∃ fs', demo_store = (fs', Ok tt) ∧
    @get_optimized_handler_source demo_Tar demo_Json demo_hash "12.4.1" Z.of_nat (Ok demo_cache)
      (λ _, fs') "h" "/app/index.js" true = SliverSource "/app/index.js" [7; 7] "h".
Proof.
  destruct demo_store_ok as [fs' H]. exists fs'. split; [exact H|].
  refine (@generated_sliver_is_used demo_Tar demo_TarLaws demo_Json demo_JsonLaws plain_order
    demo_hash "12.4.1" (λ _, false) Z.of_nat 9 "t" demo_cache demo_fs fs' (λ _, fs') "h" "/app/index.js"
    [7; 7] (Some demo_capture) true demo_captured _ _ H eq_refl); vm_compute; congruence.
Defined.

(** The statistics and the clean-up see no stored sliver: slivers are stored in a
    directory per host, while both read the cache directory itself only.  So storing
    a sliver leaves the statistics as they were, and no clean-up, however old the
    files are, removes it. *)
Theorem cache_never_cleaned (finish_hash : string → string → option Z → Z)
    (io_refuses : string → bool) (now later max_age : Z) (c : SliverCache) (fs fs' : Files)
    (hostname entrypoint : string) (data : list Z) (Hd : plain_dir c hostname)
    (Hstore : store finish_hash io_refuses now c fs hostname entrypoint data = (fs', Ok tt)) :
  stats c fs' = stats c fs ∧
  fst (cleanup io_refuses later max_age c fs') !! cache_path finish_hash c fs hostname entrypoint
    = Some (data, now).
Proof.
  pose proof (store_result _ _ _ _ _ _ _ _ _ Hstore) as Hs. split.
  - apply stats_perm. rewrite Hs, cache_path_eq, temp_path_eq by done.
    by rewrite read_dir_insert_unlisted, read_dir_delete_unlisted, read_dir_insert_unlisted
      by apply nested_unlisted.
  - unfold cleanup. rewrite cleanup_fold.
    + rewrite Hs. apply lookup_insert_eq.
    + intros [nm kf] Hin. by apply (cache_path_not_listed _ _ _ _ _ _ nm kf Hd Hin).
Qed.

Lemma cache_never_cleaned_witness :
  ∃ fs', store demo_hash (λ _, false) 9 demo_cache demo_fs "h" "/app/index.js" [1; 2; 3] = (fs', Ok tt) ∧
    stats demo_cache fs' = mkStats 0 0 "/c" ∧
    fst (cleanup (λ _, false) 99999999999999 0 demo_cache fs')
      !! cache_path demo_hash demo_cache demo_fs "h" "/app/index.js" = Some ([1; 2; 3], 9).
Proof.
  eexists. split; [reflexivity|].
  exact (cache_never_cleaned demo_hash (λ _, false) 9 99999999999999 0 demo_cache demo_fs _ "h"
           "/app/index.js" [1; 2; 3] demo_plain_dir eq_refl).
Defined.

(** The generation lock is exclusive: while one process holds it for an entry
    point, no other acquires it and generation shows as in progress; releasing it
    restores the file system, so it can be acquired again. *)
Theorem generation_lock_exclusive (finish_hash : string → string → option Z → Z)
    (io_refuses : string → bool) (now later : Z) (pid pid' : list Z) (c : SliverCache) (fs fs1 : Files)
    (hostname entrypoint : string)
    (Hne : entrypoint ≠ generation_lock_path finish_hash c fs hostname entrypoint)
    (Hacq : try_acquire_generation_lock finish_hash io_refuses now pid c fs hostname entrypoint
              = (fs1, true)) :
  is_generation_in_progress finish_hash c fs hostname entrypoint = false ∧
  is_generation_in_progress finish_hash c fs1 hostname entrypoint = true ∧
  try_acquire_generation_lock finish_hash io_refuses later pid' c fs1 hostname entrypoint = (fs1, false) ∧
  release_generation_lock finish_hash c fs1 hostname entrypoint = (fs, true).
Proof.
  unfold try_acquire_generation_lock in Hacq.
  destruct (bool_decide _) eqn:Hb; [done|]. destruct (io_refuses _); [done|]. injection Hacq as <-.
  set (k := generation_lock_path finish_hash c fs hostname entrypoint) in *.
  assert (Hk : generation_lock_path finish_hash c (<[k := (pid, now)]> fs) hostname entrypoint = k).
  { assert (Hf : <[k := (pid, now)]> fs !! entrypoint = fs !! entrypoint) by (by apply lookup_insert_ne).
    revert Hf. generalize (<[k := (pid, now)]> fs). intros fs2 Hf.
    unfold k, generation_lock_path, cache_key. by rewrite Hf. }
  unfold is_generation_in_progress, try_acquire_generation_lock, release_generation_lock.
  cbv zeta. rewrite Hk. fold k. rewrite Hb, lookup_insert_eq, delete_insert_eq.
  rewrite (bool_decide_eq_true_2 (is_Some (Some _))) by done. split_and!; [done|done|done|].
  apply bool_decide_eq_false in Hb. f_equal. apply delete_id.
  by apply eq_None_not_Some.
Qed.

Lemma generation_lock_exclusive_witness :
  let lock := generation_lock_path demo_hash demo_cache demo_fs "h" "/app/index.js" in
  let fs1 := <[lock := ([42], 9)]> demo_fs in
  is_generation_in_progress demo_hash demo_cache demo_fs "h" "/app/index.js" = false ∧
  is_generation_in_progress demo_hash demo_cache fs1 "h" "/app/index.js" = true ∧
  try_acquire_generation_lock demo_hash (λ _, false) 10 [43] demo_cache fs1 "h" "/app/index.js" = (fs1, false) ∧
  release_generation_lock demo_hash demo_cache fs1 "h" "/app/index.js" = (demo_fs, true).
Proof.
  intros lock fs1.
  refine (generation_lock_exclusive demo_hash (λ _, false) 9 10 [42] [43] demo_cache demo_fs fs1 "h"
            "/app/index.js" _ _).
  - vm_compute. congruence.
  - reflexivity.
Defined.
