(* ===== verification/ModuleSource.v ===== *)
(** * [src/v8/module.rs]: what counts as a module and how its text is rewritten

    Detection, the rewriting of imports and of the default export into a script, and
    the names a built-in exports to modules.  The two regular expressions are
    parameters: their matches are given with the text between them.  [str::trim] is
    modelled on ASCII white space. *)

From stdpp Require Import base gmap list strings.
From Stdlib Require Import Ascii ZArith Lia.
From S2P Require Import Prelude RustString.

(** ** Detection *)

Inductive ModuleType := ESM | Script.

Definition detect_module_type (code : string) : ModuleType :=
  if contains_sub "export default" code || contains_sub "export " code
     || contains_sub "export{" code || contains_sub "import " code
     || contains_sub "import{" code || contains_sub "import(" code
  then ESM else Script.

Definition is_esm_module (code : string) : bool :=
  match detect_module_type code with ESM => true | Script => false end.

Definition is_valid_export_binding (name : string) : bool :=
  let word c := is_upper c || is_lower c || char_eqb c underscore || char_eqb c (ch "$") in
  match name with
  | EmptyString => false
  | String c rest => word c && all_chars (λ c, word c || is_digit c) rest
  end.

(** ** The bridge to built-in modules

    [registered] is the JavaScript registry of built-ins; [keys] are the own property
    names of a built-in's exports and [get] reads one of them. *)

Definition builtin_module_id (registered : string → bool) (specifier : string) : option string :=
  let bare := default specifier (strip_prefix "node:" specifier) in
  if starts_with "." specifier || starts_with "/" specifier then None
  else if registered bare then Some bare else None.

Definition declare_export (export_names : list string) (key_name : string) : list string :=
  if is_valid_export_binding key_name && negb (existsb (String.eqb key_name) export_names)
  then export_names ++ [key_name] else export_names.

Definition builtin_export_names (keys : list string) : list string :=
  foldl declare_export ["default"] keys.

Section bridge.
Context {V : Type}.

(** [set_synthetic_module_export]: fails on a name that was not declared. *)
Definition set_synthetic_export (names : list string) (m : gmap string V) (name : string) (v : V)
    : gmap string V :=
  if existsb (String.eqb name) names then <[name := v]> m else m.

Definition bridge_key (names : list string) (get : string → option V) (m : gmap string V)
    (key_name : string) : gmap string V :=
  if negb (is_valid_export_binding key_name) then m
  else match get key_name with
       | Some val => set_synthetic_export names m key_name val
       | None => m
       end.

Definition synthetic_builtin_evaluation_steps (names keys : list string) (exports : V)
    (get : string → option V) : gmap string V :=
  foldl (bridge_key names get) (set_synthetic_export names ∅ "default" exports) keys.
End bridge.

(** ** Named imports *)

(** [str::trim] on ASCII white space. *)
Definition is_white (a : ascii) : bool :=
  let n := N_of_ascii a in (n =? 32)%N || ((9 <=? n)%N && (n <=? 13)%N).

Fixpoint trim_left (s : string) : string :=
  match s with
  | String a s' => if is_white a then trim_left s' else s
  | EmptyString => EmptyString
  end.

Fixpoint trim_right (s : string) : string :=
  match s with
  | EmptyString => EmptyString
  | String a s' => match trim_right s' with
                   | EmptyString => if is_white a then EmptyString else String a EmptyString
                   | t => String a t
                   end
  end.

Definition trim (s : string) : string := trim_right (trim_left s).

(** [str::split_once(&str)] *)
Definition split_once_str (p s : string) : option (string * string) :=
  match find_sub p s with
  | Some i => Some (stake i s, sdrop (i + String.length p) s)
  | None => None
  end.

Definition destructure_item (item : string) : option string :=
  let item := match strip_prefix "type " item with Some t => trim t | None => item end in
  if is_empty item then None
  else Some match split_once_str " as " item with
            | Some (imported, local) =>
                let imported := trim imported in
                let local := trim local in
                if String.eqb imported local then imported else imported +:+ (": " +:+ local)
            | None => item
            end.

Definition named_import_list_to_destructure (named : string) : string :=
  join ", " (omap destructure_item
    (List.filter (λ s, negb (is_empty s)) (trim <$> split (ch ",") named))).

(** ** Source transformation *)

Definition dquote : string := String (ascii_of_nat 34) "".

Section transform.
(** The matches of the two regular expressions: the text before each match with its
    named groups ([local] for the second), and the text after the last one. *)
Context (import_matches : string → list (string * (string → option string)) * string)
        (default_matches : string → list (string * string) * string).

Definition require_call (spec : string) : string :=
  "require(" +:+ (dquote +:+ (spec +:+ (dquote +:+ ")"))).

(** The closure of [transform_imports]. *)
Definition import_replacement (caps : string → option string) : string :=
  let group name := default "" (caps name) in
  match caps "a_spec" with
  | Some spec =>
      "const " +:+ (group "a_ns" +:+ (" = " +:+ (require_call spec +:+ ("; const " +:+
        (group "a_def" +:+ (" = " +:+ (group "a_ns" +:+ ".default;")))))))
  | None =>
  match caps "b_spec" with
  | Some spec =>
      let named := named_import_list_to_destructure (group "b_named") in
      let req := require_call spec in
      if is_empty named then "const " +:+ (group "b_def" +:+ (" = " +:+ (req +:+ ".default;")))
      else "const { " +:+ (named +:+ (" } = " +:+ (req +:+ ("; const " +:+ (group "b_def" +:+
             (" = " +:+ (req +:+ ".default;")))))))
  | None =>
  match caps "c_spec" with
  | Some spec => "const " +:+ (group "c_ns" +:+ (" = " +:+ (require_call spec +:+ ";")))
  | None =>
  match caps "d_spec" with
  | Some spec =>
      let named := named_import_list_to_destructure (group "d_named") in
      if is_empty named then require_call spec +:+ ";"
      else "const { " +:+ (named +:+ (" } = " +:+ (require_call spec +:+ ";")))
  | None =>
  match caps "e_spec" with
  | Some spec => "const " +:+ (group "e_def" +:+ (" = " +:+ (require_call spec +:+ ".default;")))
  | None =>
  match caps "f_spec" with
  | Some spec => require_call spec +:+ ";"
  | None => ""
  end end end end end end.

(** [Regex::replace_all] from the matches. *)
Definition replace_all {A} (f : A → string) (m : list (string * A) * string) : string :=
  foldr (λ seg acc, seg.1 +:+ (f seg.2 +:+ acc)) m.2 m.1.

Definition transform_imports (code : string) : string :=
  replace_all import_replacement (import_matches code).

Definition nl : string := String (ascii_of_nat 10) "".

Definition handler_suffix : string :=
  nl +:+ (nl +:+ ("// Extract handler function from export" +:+ (nl +:+
  ("var __nano_user_fetch = undefined;" +:+ (nl +:+
  ("if (typeof __nano_handler === 'object' && __nano_handler.fetch) {" +:+ (nl +:+
  ("    __nano_user_fetch = __nano_handler.fetch;" +:+ (nl +:+ "}"))))))))).

Definition default_pattern : string := "export default".
Definition default_replacement : string := "var __nano_handler =".

Definition transform_module_code (source : string) : string :=
  let code := transform_imports source in
  let has_literal_default := contains_sub default_pattern code in
  let ms := default_matches code in
  let export_as_default := match ms.1 with [] => false | _ => true end in
  if has_literal_default || export_as_default then
    let transformed :=
      if export_as_default
      then replace_all (λ local, "var __nano_handler = " +:+ (local +:+ ";")) ms
      else code in
    let transformed := replace_sub default_pattern default_replacement transformed in
    transformed +:+ handler_suffix
  else code.
End transform.

(** ** Lemmas on substrings *)

Lemma contains_sub_true p s : contains_sub p s = true ↔ ∃ a b, s = a +:+ (p +:+ b).
Proof.
  unfold contains_sub. rewrite bool_decide_eq_true. split.
  - intros [i Hi]. revert i Hi. induction s as [|x s IH]; intros i; simpl.
    + destruct (starts_with p "") eqn:E; [|done].
      apply starts_with_true in E as [t ->]. by exists "", t.
    + destruct (starts_with p (String x s)) eqn:E.
      * apply starts_with_true in E as [t ->]. by exists "", t.
      * intros (j & Hj & _)%fmap_Some. destruct (IH j Hj) as (a & b & ->).
        by exists (String x a), b.
  - intros (a & b & ->). induction a as [|x a IH]; [rewrite str_app_nil_l, find_sub_here; eauto|].
    rewrite str_app_cons. simpl. case_if; [eauto|]. destruct IH as [i ->]. simpl. eauto.
Qed.

Lemma contains_sub_cons p x s :
  contains_sub p (String x s) = starts_with p (String x s) || contains_sub p s.
Proof.
  unfold contains_sub. simpl. destruct (starts_with p (String x s)); simpl.
  - done.
  - apply bool_decide_ext. by rewrite fmap_is_Some.
Qed.

(** A pattern without a character starts a text exactly when it starts the part before it. *)
Lemma starts_with_sep c p a b :
  contains_char c p = false → starts_with p (a +:+ String c b) = true → starts_with p a = true.
Proof.
  revert p. induction a as [|x a IH]; intros [|y p] Hc; unfold starts_with in *;
    rewrite ?str_app_nil_l, ?str_app_cons; try done; simpl in *;
    apply orb_false_iff in Hc as [Hy Hc].
  - by rewrite Hy.
  - char_case; [|done]. by apply IH.
Qed.

Lemma starts_with_app_r p a b : starts_with p a = true → starts_with p (a +:+ b) = true.
Proof. intros [t ->]%starts_with_true. rewrite <- str_app_assoc. apply starts_with_app. Qed.

Lemma contains_sub_sep c p a b : p ≠ "" →
  contains_char c p = false →
  contains_sub p (a +:+ String c b) = contains_sub p a || contains_sub p b.
Proof.
  intros Hp Hc. induction a as [|x a IH].
  - rewrite str_app_nil_l, contains_sub_cons.
    destruct p as [|y p]; [done|]. simpl in Hc. apply orb_false_iff in Hc as [Hy _].
    assert (starts_with (String y p) (String c b) = false) as ->.
    { unfold starts_with. simpl. by rewrite Hy. } done.
  - rewrite str_app_cons, !contains_sub_cons, IH, orb_assoc. f_equal. f_equal.
    apply eq_true_iff_eq. split.
    + rewrite <- str_app_cons. by apply starts_with_sep.
    + rewrite <- str_app_cons. apply starts_with_app_r.
Qed.

(** A start of the replaced text that cannot overlap a replacement is a start of the text. *)
Lemma replace_go_starts p c r q s :
  contains_char c q = false →
  starts_with q (replace_go p (String c r) 0 s) = true → starts_with q s = true.
Proof.
  revert q. induction s as [|x s IH]; intros q Hc; [done|]. cbn [replace_go].
  destruct q as [|y q]; [done|]. simpl in Hc. apply orb_false_iff in Hc as [Hy Hc].
  destruct (starts_with p (String x s)).
  - unfold starts_with. rewrite str_app_cons. simpl. by rewrite Hy.
  - unfold starts_with. simpl. char_case; [|done]. by apply IH.
Qed.

(** Replacing leaves no occurrence, when a replacement is fenced by characters that the
    pattern does not have. *)
Lemma replace_go_removes p c d mid k s :
  p ≠ "" → contains_char c p = false → contains_char d p = false → contains_sub p mid = false →
  contains_sub p (replace_go p (String c (mid +:+ String d "")) k s) = false.
Proof.
  intros Hp Hc Hd Hmid. revert k. induction s as [|x s IH]; intros k; cbn [replace_go].
  - by destruct p.
  - destruct k as [|k]; [|apply IH].
    destruct (starts_with p (String x s)) eqn:Es.
    + rewrite str_app_cons, <- str_app_assoc, str_app_cons, str_app_nil_l.
      rewrite <- (str_app_nil_l (String c _)).
      rewrite (contains_sub_sep c), (contains_sub_sep d), Hmid, IH by done. by destruct p.
    + rewrite contains_sub_cons, IH, orb_false_r. apply not_true_iff_false. intros H.
      apply not_true_iff_false in Es. apply Es.
      destruct p as [|y p]; [done|]. revert H. unfold starts_with. simpl.
      simpl in Hc. apply orb_false_iff in Hc as [_ Hc]. char_case; [|done].
      by apply replace_go_starts.
Qed.

Lemma contains_sub_app_r p a b : contains_sub p b = true → contains_sub p (a +:+ b) = true.
Proof.
  intros (u & v & ->)%contains_sub_true. apply contains_sub_true.
  exists (a +:+ u), v. by rewrite str_app_assoc.
Qed.

Lemma contains_sub_app_l p a b : contains_sub p a = true → contains_sub p (a +:+ b) = true.
Proof.
  intros (u & v & ->)%contains_sub_true. apply contains_sub_true.
  exists u, (v +:+ b). by rewrite <- !str_app_assoc.
Qed.

Lemma replace_go_inserts p r s : p ≠ "" →
  contains_sub p s = true → contains_sub r (replace_go p r 0 s) = true.
Proof.
  intros Hp. induction s as [|x s IH]; cbn [replace_go]; [by destruct p|].
  rewrite contains_sub_cons. destruct (starts_with p (String x s)).
  - intros _. apply contains_sub_true. by eexists "", _.
  - intros H. rewrite contains_sub_cons, IH by done. apply orb_true_r.
Qed.

(** A character outside the pattern splits the text into parts replaced separately. *)
Lemma replace_go_sep c p r k a b : p ≠ "" → contains_char c p = false → (k ≤ String.length a)%nat →
  replace_go p r k (a +:+ String c b) = replace_go p r k a +:+ String c (replace_go p r 0 b).
Proof.
  intros Hp Hc. revert k. induction a as [|x a IH]; intros k Hk.
  - rewrite !str_app_nil_l. simpl in Hk. destruct k; [|lia]. cbn [replace_go].
    destruct p as [|y p]; [done|]. simpl in Hc. apply orb_false_iff in Hc as [Hy _].
    assert (starts_with (String y p) (String c b) = false) as ->.
    { unfold starts_with. simpl. by rewrite Hy. } done.
  - rewrite str_app_cons. cbn [replace_go]. destruct k as [|k]; [|apply IH; simpl in Hk; lia].
    assert (starts_with p (String x (a +:+ String c b)) = starts_with p (String x a)) as ->.
    { apply eq_true_iff_eq. rewrite <- str_app_cons.
      split; [by apply starts_with_sep|apply starts_with_app_r]. }
    destruct (starts_with p (String x a)) eqn:E; [|by rewrite str_app_cons, IH by lia].
    rewrite <- str_app_assoc, IH; [done|].
    apply starts_with_true in E as [t E]. apply (f_equal String.length) in E.
    rewrite length_app_string in E. simpl in E. lia.
Qed.

Section transform_proofs.
Context (import_matches : string → list (string * (string → option string)) * string)
        (default_matches : string → list (string * string) * string).

Lemma replaced_text body :
  contains_sub default_pattern
    (replace_sub default_pattern default_replacement body +:+ handler_suffix) = false.
Proof.
  unfold handler_suffix, nl. rewrite str_app_cons, str_app_nil_l.
  rewrite contains_sub_sep by done. unfold replace_sub.
  change default_replacement with
    (String (ch "v") ("ar __nano_handler " +:+ String (ch "=") "")).
  by rewrite replace_go_removes.
Qed.

Lemma handler_kept a b :
  contains_sub default_replacement
    (replace_sub default_pattern default_replacement (a +:+ (default_replacement +:+ b))) = true.
Proof.
  set (r := default_replacement) at 2. unfold replace_sub.
  change (default_replacement +:+ b) with
    (String (ch "v") ("ar __nano_handler " +:+ String (ch "=") b)).
  rewrite replace_go_sep, replace_go_sep by (done || lia).
  apply contains_sub_app_r. apply contains_sub_true. exists "". by eexists.
Qed.

(** Whatever the two regular expressions match, the script made of a module has
    no [export default] left.  A module with a default export, in either form, gets
    a declaration of [__nano_handler] and ends with the lines that take [fetch] out
    of it; any other text only has its imports rewritten. *)
Theorem transform_module_exact source :
  let code := transform_imports import_matches source in
  let out := transform_module_code import_matches default_matches source in
  contains_sub default_pattern out = false ∧
  (if contains_sub default_pattern code || negb (bool_decide ((default_matches code).1 = []))
   then contains_sub default_replacement out = true ∧
        ∃ body, out = body +:+ handler_suffix
   else out = code).
Proof.
  cbv zeta. unfold transform_module_code. set (code := transform_imports import_matches source).
  destruct (contains_sub default_pattern code) eqn:Ec;
    destruct (default_matches code) as [[|[before local] ms] rest]; cbn [orb negb fst].
  3: done.
  all: split; [apply replaced_text|split; [|by eexists]]; apply contains_sub_app_l.
  - by apply replace_go_inserts.
  - apply (handler_kept before (" " +:+ _)).
  - apply (handler_kept before (" " +:+ _)).
Qed.
End transform_proofs.

(** ** Named imports, item by item *)

(** The items of a named-import list: [n], [n as m], [type n] and [type n as m]. *)
Inductive import_item :=
| Plain (n : string)
| Renamed (n m : string)
| TypeOnly (n : string)
| TypeRenamed (n m : string).

Definition render_item (i : import_item) : string :=
  match i with
  | Plain n => n
  | Renamed n m => n +:+ (" as " +:+ m)
  | TypeOnly n => "type " +:+ n
  | TypeRenamed n m => "type " +:+ (n +:+ (" as " +:+ m))
  end.

Definition bind_name (n m : string) : string := if String.eqb n m then n else n +:+ (": " +:+ m).

Definition destructured (i : import_item) : string :=
  match i with
  | Plain n | TypeOnly n => n
  | Renamed n m => if String.eqb n "type" then "as " +:+ m else bind_name n m
  | TypeRenamed n m => bind_name n m
  end.

Definition item_names (i : import_item) : list string :=
  match i with
  | Plain n | TypeOnly n => [n]
  | Renamed n m | TypeRenamed n m => [n; m]
  end.

Definition valid_item (i : import_item) : Prop :=
  Forall (λ n, is_valid_export_binding n = true) (item_names i).

Definition dark (c : ascii) : bool := negb (is_white c || char_eqb c (ch ",")).

Definition word (n : string) : Prop := n ≠ "" ∧ all_chars dark n = true.

Lemma binding_word n : is_valid_export_binding n = true → word n.
Proof.
  intros H. split; [by intros ->|]. destruct n as [|c n]; [done|].
  unfold is_valid_export_binding in H. apply andb_true_iff in H as [Hc Hn].
  assert (∀ c, is_upper c || is_lower c || char_eqb c underscore || char_eqb c (ch "$") || is_digit c
    = true → dark c = true) as Hd by (intros [[] [] [] [] [] [] [] []]; vm_compute; congruence).
  simpl. apply andb_true_iff. split; [apply Hd; by rewrite Hc|].
  clear Hc. induction n as [|x n IH]; [done|]. simpl in *.
  apply andb_true_iff in Hn as [Hx Hn]. rewrite IH, andb_true_r by done. by apply Hd.
Qed.

Lemma word_no c n : dark c = false → word n → contains_char c n = false.
Proof.
  intros Hc [_ Hn]. induction n as [|x n IH]; [done|]. simpl in *.
  apply andb_true_iff in Hn as [Hx Hn]. rewrite IH by done. rewrite orb_false_r.
  apply char_eqb_neq. intros ->. congruence.
Qed.

Lemma trim_right_app_word a n : word n → trim_right (a +:+ n) = a +:+ n.
Proof.
  intros [Hne Hn]. induction a as [|x a IH].
  - rewrite str_app_nil_l. clear Hne. induction n as [|x n IH]; [done|].
    simpl in Hn. apply andb_true_iff in Hn as [Hx Hn]. simpl. rewrite IH by done.
    destruct n; [|done]. unfold dark in Hx. bool_split. by rewrite H.
  - rewrite str_app_cons. simpl. rewrite IH. destruct (a +:+ n) eqn:E; [|done].
    destruct a; [by destruct n|by rewrite str_app_cons in E].
Qed.

(** A text that starts and ends with a word is its own trim. *)
Lemma trim_words a n c rest : a +:+ n = String c rest → dark c = true → word n →
  trim (a +:+ n) = a +:+ n.
Proof.
  intros Heq Hc Hn. unfold trim. rewrite Heq. simpl. unfold dark in Hc. bool_split.
  rewrite H, <- Heq. by apply trim_right_app_word.
Qed.

Lemma trim_word n : word n → trim n = n.
Proof.
  intros Hn. destruct n as [|c n]; [by destruct Hn|]. rewrite <- (str_app_nil_l (String c n)).
  eapply trim_words; [done| |done]. destruct Hn as [_ Hn]. simpl in Hn.
  by apply andb_true_iff in Hn as [? _].
Qed.

Lemma trim_word_app n t m : word n → word m → trim (n +:+ (t +:+ m)) = n +:+ (t +:+ m).
Proof.
  intros Hn Hm. rewrite str_app_assoc. destruct n as [|c n]; [by destruct Hn|].
  eapply trim_words; [by rewrite !str_app_cons| |done]. destruct Hn as [_ Hn]. simpl in Hn.
  by apply andb_true_iff in Hn as [? _].
Qed.

Lemma split_once_as n m : word n → split_once_str " as " (n +:+ (" as " +:+ m)) = Some (n, m).
Proof.
  intros Hn. unfold split_once_str.
  rewrite (find_sub_first (ch " ")) by by apply word_no.
  rewrite stake_app, sdrop_app_plus. done.
Qed.

Lemma find_as_word n : word n → find_sub " as " n = None.
Proof.
  intros Hn%(word_no (ch " ")); [|done]. rewrite <- (str_app_nil_r n).
  by rewrite (find_sub_app_no_head (ch " ")).
Qed.

Lemma strip_type_word n : word n → strip_prefix "type " n = None.
Proof.
  intros Hn. destruct (strip_prefix "type " n) eqn:E; [|done].
  apply strip_prefix_Some in E. pose proof (word_no (ch " ") n eq_refl Hn) as Hc. by rewrite E in Hc.
Qed.

Lemma strip_type_app n t : word n →
  strip_prefix "type " (n +:+ (" " +:+ t)) = if String.eqb n "type" then Some t else None.
Proof.
  intros Hn. destruct (String.eqb_spec n "type") as [->|Hne].
  - by apply strip_prefix_Some.
  - destruct (strip_prefix "type " _) as [u|] eqn:E; [|done].
    apply strip_prefix_Some in E. change ("type " +:+ u) with ("type" +:+ String (ch " ") u) in E.
    change (" " +:+ t) with (String (ch " ") t) in E.
    apply str_app_sep_inj in E as [-> _]; [done|by apply word_no|done].
Qed.

Lemma as_word m : word m → find_sub " as " ("as " +:+ m) = None.
Proof.
  intros Hm. change ("as " +:+ m) with ("as" +:+ (" " +:+ m)).
  rewrite (find_sub_app_no_head (ch " ")) by done.
  change (find_sub (String (ch " ") "as ") (" " +:+ m)) with
    (if starts_with " as " (" " +:+ m) then Some 0%nat else S <$> find_sub " as " m).
  rewrite find_as_word by done. destruct (starts_with _ _) eqn:E; [|done].
  apply starts_with_true in E as [t E]. change (" as " +:+ t) with (" " +:+ ("as " +:+ t)) in E.
  apply str_app_inj_l in E. pose proof (word_no (ch " ") m eq_refl Hm) as Hc. by rewrite E in Hc.
Qed.

(** What becomes of one item. *)
Lemma destructure_rendered i : valid_item i → destructure_item (render_item i) = Some (destructured i).
Proof.
  assert (∀ n m, word n → word m →
    (if String.eqb (trim n) (trim m) then trim n else trim n +:+ (": " +:+ trim m)) = bind_name n m) as Hbind.
  { intros n m Hn Hm. by rewrite !trim_word. }
  assert (∀ n t, word n → is_empty (n +:+ t) = false) as Hne.
  { intros n t [? _]. apply is_empty_false. by destruct n. }
  destruct i as [n|n m|n|n m]; unfold valid_item, item_names, render_item, destructure_item;
    intros Hv; repeat (apply Forall_cons in Hv as [?%binding_word Hv]).
  - rewrite strip_type_word, (proj2 (is_empty_false n) (proj1 H)) by done.
    unfold split_once_str. by rewrite find_as_word.
  - change (" as " +:+ m) with (" " +:+ ("as " +:+ m)). rewrite strip_type_app by done.
    unfold destructured. destruct (String.eqb_spec n "type") as [->|].
    + pose proof (trim_word_app "as" " " m) as Ht.
      change ("as" +:+ (" " +:+ m)) with ("as " +:+ m) in Ht.
      rewrite Ht by (done || split; done). unfold split_once_str.
      by rewrite as_word.
    + rewrite Hne by done. change (" " +:+ ("as " +:+ m)) with (" as " +:+ m).
      rewrite split_once_as by done. by rewrite Hbind.
  - rewrite (proj2 (strip_prefix_Some "type " _ n) eq_refl), trim_word by done.
    rewrite (proj2 (is_empty_false n) (proj1 H)). unfold split_once_str. by rewrite find_as_word.
  - rewrite (proj2 (strip_prefix_Some "type " _ (n +:+ (" as " +:+ m))) eq_refl).
    rewrite trim_word_app, Hne, split_once_as by done. by rewrite Hbind.
Qed.

Lemma render_item_comma i : valid_item i → contains_char (ch ",") (render_item i) = false.
Proof.
  destruct i as [n|n m|n|n m]; unfold valid_item, item_names, render_item; intros Hv;
    repeat (apply Forall_cons in Hv as [?%binding_word%(word_no (ch ",") _ eq_refl) Hv]).
  all: rewrite ?contains_char_app; by rewrite ?H, ?H0.
Qed.

Lemma render_item_trim i : valid_item i → trim (render_item i) = render_item i ∧ trim (" " +:+ render_item i) = render_item i.
Proof.
  intros Hv. assert (trim (render_item i) = render_item i) as Ht; [|by split].
  destruct i as [n|n m|n|n m]; unfold valid_item, item_names, render_item in *;
    repeat (apply Forall_cons in Hv as [?%binding_word Hv]).
  - by apply trim_word.
  - by apply trim_word_app.
  - change ("type " +:+ n) with ("type" +:+ (" " +:+ n)). apply trim_word_app; [by split|done].
  - replace ("type " +:+ (n +:+ (" as " +:+ m))) with ("type" +:+ ((" " +:+ (n +:+ " as ")) +:+ m))
      by (by rewrite <- !str_app_assoc).
    apply trim_word_app; [by split|done].
Qed.

Lemma render_item_nonempty i : valid_item i → is_empty (render_item i) = false.
Proof.
  destruct i as [n|n m|n|n m]; unfold valid_item, item_names, render_item; intros Hv;
    repeat (apply Forall_cons in Hv as [?%binding_word Hv]); try done.
  all: destruct H; by destruct n.
Qed.

Lemma split_items items : items ≠ [] → Forall valid_item items →
  trim <$> split (ch ",") (join ", " (render_item <$> items)) = render_item <$> items.
Proof.
  destruct items as [|i items]; [done|]. intros _ Hv.
  assert (∀ items i w, valid_item i → Forall valid_item items → trim w = render_item i →
    contains_char (ch ",") w = false →
    trim <$> split (ch ",") (join ", " (w :: (render_item <$> items))) = render_item <$> (i :: items)) as Hgen.
  { clear i items Hv. induction items as [|j items IH]; intros i w Hi Hv Hw Hc.
    - simpl. by rewrite split_one, fmap_cons, Hw.
    - inversion Hv; subst. rewrite join_cons by done.
      change (", " +:+ ?t) with (String (ch ",") (" " +:+ t)).
      rewrite split_app_no_sep by done. rewrite !fmap_cons, Hw. f_equal.
      transitivity (trim <$> split (ch ",")
        (join ", " ((" " +:+ render_item j) :: (render_item <$> items)))).
      + f_equal. f_equal. by destruct items.
      + apply IH; [done|done|by apply render_item_trim|by apply render_item_comma]. }
  inversion Hv; subst. rewrite fmap_cons.
  apply Hgen; [done|done|by apply render_item_trim|by apply render_item_comma].
Qed.

(** The destructuring pattern of a named-import list, item by item: [n] binds [n],
    [n as m] gives [n: m].  A binding marked [type] is not dropped but bound like any
    other, and an import of the name [type] under another name becomes the text
    [as m], which is no pattern. *)
Theorem named_imports_exact (items : list import_item) (Hv : Forall valid_item items) :
  named_import_list_to_destructure (join ", " (render_item <$> items)) =
    join ", " (destructured <$> items).
Proof.
  unfold named_import_list_to_destructure. destruct (decide (items = [])) as [->|Hne]; [done|].
  rewrite split_items by done. f_equal. clear Hne.
  induction Hv as [|i items Hi Hv IH]; [done|]. rewrite !fmap_cons. simpl.
  rewrite render_item_nonempty by done. simpl. rewrite destructure_rendered by done. by f_equal.
Qed.

Lemma named_imports_exact_witness :
  Forall valid_item [Plain "a"; Renamed "b" "c"; TypeOnly "T"; Renamed "type" "kind"] ∧
  named_import_list_to_destructure "a, b as c, type T, type as kind" = "a, b: c, T, as kind".
Proof.
  assert (H : Forall valid_item [Plain "a"; Renamed "b" "c"; TypeOnly "T"; Renamed "type" "kind"])
    by (repeat constructor).
  split; [exact H|]. exact (named_imports_exact _ H).
Defined.

(** ** The bridge to built-ins *)

Lemma existsb_elem n l : existsb (String.eqb n) l = bool_decide (n ∈ l).
Proof.
  apply eq_true_iff_eq. rewrite existsb_exists, bool_decide_eq_true, list_elem_of_In. split.
  - intros (x & Hx & ->%String.eqb_eq). done.
  - intros Hn. exists n. by rewrite String.eqb_refl.
Qed.

Lemma declare_exports keys names : NoDup names →
  NoDup (foldl declare_export names keys) ∧ names `prefix_of` foldl declare_export names keys ∧
  ∀ n, n ∈ foldl declare_export names keys ↔ n ∈ names ∨ (n ∈ keys ∧ is_valid_export_binding n = true).
Proof.
  revert names. induction keys as [|k keys IH]; intros names Hnd; simpl.
  { split; [done|]. split; [done|]. intros n. rewrite elem_of_nil. tauto. }
  unfold declare_export at 2 4 6. rewrite existsb_elem.
  destruct (is_valid_export_binding k && negb (bool_decide (k ∈ names))) eqn:E.
  - bool_split. apply bool_decide_eq_false in H0.
    destruct (IH (names ++ [k])) as (H1 & H2 & H3).
    { apply NoDup_app. split; [done|]. split; [|apply NoDup_singleton].
      intros x Hx ->%list_elem_of_singleton. done. }
    split; [done|]. split; [by etrans; [apply prefix_app_r|]|]. intros n. rewrite H3.
    rewrite elem_of_app, list_elem_of_singleton, elem_of_cons. naive_solver.
  - destruct (IH names Hnd) as (H1 & H2 & H3). split; [done|]. split; [done|]. intros n.
    rewrite H3, elem_of_cons. split; [naive_solver|].
    intros [?|[[->|?] Hv]]; [auto| |auto]. rewrite Hv in E. simpl in E.
    apply negb_false_iff, bool_decide_eq_true in E. auto.
Qed.

Section bridge_proofs.
Context {V : Type}.

Lemma bridge_keys names get keys (m : gmap string V) n :
  (∀ k, k ∈ keys → is_valid_export_binding k = true → k ∈ names) →
  foldl (bridge_key names get) m keys !! n =
    if bool_decide (n ∈ keys) && is_valid_export_binding n
    then match get n with Some v => Some v | None => m !! n end
    else m !! n.
Proof.
  revert m. induction keys as [|k keys IH]; intros m Hin; simpl; [done|].
  rewrite IH by (intros; apply Hin; [by constructor|done]).
  assert (bridge_key names get m k !! n =
    if bool_decide (n = k) && is_valid_export_binding n
    then match get n with Some v => Some v | None => m !! n end else m !! n) as ->.
  { unfold bridge_key, set_synthetic_export. rewrite existsb_elem.
    destruct (is_valid_export_binding k) eqn:Ek; simpl.
    - rewrite (bool_decide_true (k ∈ names)) by (apply Hin; [by constructor|done]).
      destruct (decide (n = k)) as [->|Hne].
      + rewrite Ek, bool_decide_true by done. simpl. destruct (get k); [by rewrite lookup_insert_eq|done].
      + rewrite bool_decide_false by done. simpl.
        destruct (get k); [by rewrite lookup_insert_ne by done|done].
    - case_if; [|done]. bool_split. apply bool_decide_eq_true in H. congruence. }
  destruct (is_valid_export_binding n); [|by rewrite !andb_false_r].
  rewrite !andb_true_r. rewrite (bool_decide_ext (n ∈ k :: keys) (n = k ∨ n ∈ keys))
    by apply elem_of_cons.
  destruct (decide (n = k)) as [->|Hne]; [rewrite (bool_decide_true (k = k)) by done|
    rewrite (bool_decide_false (n = k)) by done].
  - rewrite (bool_decide_true (k = k ∨ _)) by auto. by destruct (bool_decide _), (get k).
  - by rewrite (bool_decide_ext (n = k ∨ n ∈ keys) (n ∈ keys)) by tauto.
Qed.

(** The module that bridges a built-in declares [default] and every valid property
    name, each once.  A named export has the property's value; [default] has the whole
    exports object, except when the object has a readable property [default] of its own:
    then that property replaces it. *)
Theorem builtin_bridge_exact keys (exports : V) (get : string → option V) (n : string) :
  let names := builtin_export_names keys in
  NoDup names ∧ head names = Some "default" ∧
  (n ∈ names ↔ n = "default" ∨ (n ∈ keys ∧ is_valid_export_binding n = true)) ∧
  synthetic_builtin_evaluation_steps names keys exports get !! n =
    match (if bool_decide (n ∈ keys) && is_valid_export_binding n then get n else None) with
    | Some v => Some v
    | None => if String.eqb n "default" then Some exports else None
    end.
Proof.
  cbv zeta. unfold builtin_export_names.
  destruct (declare_exports keys ["default"] (NoDup_singleton _)) as (H1 & [rest H2] & H3).
  split; [done|]. split; [by rewrite H2|]. split; [rewrite H3; by rewrite list_elem_of_singleton|].
  unfold synthetic_builtin_evaluation_steps. rewrite bridge_keys by (intros; apply H3; auto).
  unfold set_synthetic_export. rewrite existsb_elem.
  rewrite (bool_decide_true ("default" ∈ _)) by (apply H3; left; by left).
  assert ((<["default" := exports]> ∅ : gmap string V) !! n =
    if String.eqb n "default" then Some exports else None) as ->.
  { destruct (String.eqb_spec n "default") as [->|]; [by rewrite lookup_insert_eq|].
    by rewrite lookup_insert_ne. }
  by destruct (bool_decide _ && _).
Qed.
End bridge_proofs.
