(* ===== verification/ModuleLoader.v ===== *)
(** * [src/v8/module.rs]: import resolution and the module loader

    The engine (compilation, built-in modules, instantiation) is a parameter; the
    loader's own logic is here: how a specifier becomes a path of the isolate's files,
    and what the resolution callback does with its cache. *)

From stdpp Require Import base gmap list strings.
From Stdlib Require Import Ascii ZArith Lia.
From S2P Require Import Prelude RustString VfsPath VfsBackend VfsMemory VfsIsolate ModuleSource.

(** ** Import resolution *)

Definition push_base (stack : list string) (component : string) : list string :=
  if is_empty component || String.eqb component "." then stack else component :: stack.

Definition push_specifier (stack : option (list string)) (component : string) : option (list string) :=
  match stack with
  | None => None
  | Some st =>
      if is_empty component || String.eqb component "." then Some st
      else if String.eqb component ".." then
        match st with [] => None | _ :: st' => Some st' end
      else Some (component :: st)
  end.

(** The directory of a path: the text before its last slash. *)
Definition base_dir (base_path : string) : string :=
  match rfind_char slash base_path with
  | Some i => stake i base_path
  | None => "."
  end.

Definition resolve_components (base_path specifier : string) : option (list string) :=
  foldl push_specifier (Some (foldl push_base [] (split slash (base_dir base_path))))
    (split slash specifier).

Section loader.
Context {B : Type} `{VfsBackend B} (ns : string).

Definition vfs_has (b : B) (path : string) : bool :=
  match iv_exists ns b path with Ok e => e | Err _ => false end.

Definition resolve_import_path (b : B) (base_path specifier : string) : result string string :=
  if starts_with "/" specifier then Ok specifier
  else match resolve_components base_path specifier with
       | None => Err ("Path traversal out of bounds: " +:+ (specifier +:+ (" from " +:+ base_path)))
       | Some stack =>
           let resolved := match stack with
                           | [] => "/"
                           | _ => "/" +:+ join "/" (rev stack)
                           end in
           if contains_char dot resolved then Ok resolved
           else if vfs_has b (resolved +:+ ".js") then Ok (resolved +:+ ".js")
           else if vfs_has b (resolved +:+ ".mjs") then Ok (resolved +:+ ".mjs")
           else Ok resolved
       end.

(** *** The loader and V8's resolution callback *)

Record ModuleLoader (M : Type) := mkLoader {
  module_cache : gmap string M;
  loading_stack : list string;
}.
Arguments mkLoader {M} _ _.
Arguments module_cache {M} _.
Arguments loading_stack {M} _.

Definition loader_new {M} : ModuleLoader M := mkLoader ∅ [].

Context {M : Type}.
(** The engine: which built-ins are registered, the bridge module for one, and
    compilation, which makes a new module object each time ([n] counts the calls). *)
Context (registered : string → bool) (synthetic_module : nat → string → option M)
        (compile_module : nat → string → string → option M) (utf8_lossy : list Z → string).

Definition load_module_from_vfs (b : B) (path : string) : option string :=
  match iv_read ns b path with Ok bytes => Some (utf8_lossy bytes) | Err _ => None end.

Definition is_circular_import (l : ModuleLoader M) (path : string) : bool :=
  existsb (String.eqb path) (loading_stack l).

Definition push_loading (l : ModuleLoader M) (path : string) : ModuleLoader M :=
  mkLoader (module_cache l) (loading_stack l ++ [path]).

Definition pop_loading (l : ModuleLoader M) : ModuleLoader M :=
  mkLoader (module_cache l) (removelast (loading_stack l)).

Definition cache_module (l : ModuleLoader M) (path : string) (m : M) : ModuleLoader M :=
  mkLoader (<[path := m]> (module_cache l)) (loading_stack l).

(** The thread-local current loader and the number of engine calls so far. *)
Record callback_state := mkCallback {
  current_loader : option (ModuleLoader M);
  engine_calls : nat;
}.

Definition with_loader (st : callback_state) (l : ModuleLoader M) : callback_state :=
  mkCallback (Some l) (S (engine_calls st)).

Definition module_resolve_callback (b : B) (st : callback_state) (specifier : string)
    : callback_state * option M :=
  match builtin_module_id registered specifier with
  | Some id => (mkCallback (current_loader st) (S (engine_calls st)),
                synthetic_module (engine_calls st) id)
  | None =>
      match current_loader st with
      | None => (st, None)
      | Some loader =>
          match resolve_import_path b "/handler.js" specifier with
          | Err _ => (st, None)
          | Ok resolved_path =>
              if is_circular_import loader resolved_path then (st, None)
              else match module_cache loader !! resolved_path with
                   | Some cached => (st, Some cached)
                   | None =>
                       match load_module_from_vfs b resolved_path with
                       | None => (st, None)
                       | Some code =>
                           let loading := push_loading loader resolved_path in
                           match compile_module (engine_calls st) resolved_path code with
                           | None => (with_loader st (pop_loading loading), None)
                           | Some m =>
                               (with_loader st (pop_loading (cache_module loading resolved_path m)),
                                Some m)
                           end
                       end
                   end
          end
      end
  end.

(** The callbacks of one instantiation, in whatever order the engine makes them. *)
Fixpoint run_callbacks (b : B) (st : callback_state) (specifiers : list string)
    : callback_state * list (option M) :=
  match specifiers with
  | [] => (st, [])
  | s :: rest =>
      let (st1, m) := module_resolve_callback b st s in
      let (st2, ms) := run_callbacks b st1 rest in (st2, m :: ms)
  end.
End loader.
Arguments mkLoader {M} _ _.
Arguments module_cache {M} _.
Arguments loading_stack {M} _.
Arguments mkCallback {M} _ _.
Arguments current_loader {M} _.
Arguments engine_calls {M} _.

(** ** Relative specifiers *)

(** How far a component moves, and how deep a list of components ends. *)
Definition move (c : string) : Z :=
  if is_empty c || String.eqb c "." then 0 else if String.eqb c ".." then -1 else 1.

Definition depth (cs : list string) : Z := foldr (λ c d, move c + d)%Z 0%Z cs.

Definition proper (c : string) : Prop := c ≠ "" ∧ c ≠ "." ∧ c ≠ "..".

Lemma push_specifier_none cs : foldl push_specifier None cs = None.
Proof. by induction cs. Qed.

(** The stack of components against the count of components: it fails exactly when a
    prefix goes above the root, and keeps proper components only. *)
Lemma push_specifier_spec cs st : Forall proper st →
  match foldl push_specifier (Some st) cs with
  | Some st' => Forall proper st' ∧ Z.of_nat (length st') = (Z.of_nat (length st) + depth cs)%Z ∧
                ∀ pre, pre `prefix_of` cs → (0 ≤ Z.of_nat (length st) + depth pre)%Z
  | None => ∃ pre, pre `prefix_of` cs ∧ (Z.of_nat (length st) + depth pre < 0)%Z
  end.
Proof.
  revert st. induction cs as [|c cs IH]; intros st Hst; simpl.
  - split; [done|]. split; [lia|]. intros pre ->%prefix_nil_inv. simpl. lia.
  - assert (∀ st1, push_specifier (Some st) c = Some st1 →
      Z.of_nat (length st1) = (Z.of_nat (length st) + move c)%Z → Forall proper st1 →
      match foldl push_specifier (push_specifier (Some st) c) cs with
      | Some st' => Forall proper st' ∧
          Z.of_nat (length st') = (Z.of_nat (length st) + (move c + depth cs))%Z ∧
          ∀ pre, pre `prefix_of` c :: cs → (0 ≤ Z.of_nat (length st) + depth pre)%Z
      | None => ∃ pre, pre `prefix_of` c :: cs ∧ (Z.of_nat (length st) + depth pre < 0)%Z
      end) as Hstep.
    { intros st1 -> Hlen Hst1. specialize (IH st1 Hst1). destruct (foldl _ _ _) as [st'|].
      - destruct IH as (? & Hl & Hpre). split; [done|]. split; [lia|].
        intros [|c' pre]; [simpl; lia|]. intros Hp.
        pose proof (prefix_cons_inv_1 _ _ _ _ Hp) as ->.
        apply prefix_cons_inv_2 in Hp. apply Hpre in Hp. simpl. lia.
      - destruct IH as (pre & Hp & Hd). exists (c :: pre). split; [by apply prefix_cons|].
        simpl. lia. }
    unfold move in Hstep |- *. cbn [push_specifier] in Hstep |- *.
    destruct (is_empty c || String.eqb c ".") eqn:E1; [by apply (Hstep st); [|lia|]|].
    destruct (String.eqb_spec c "..") as [->|E2].
    + destruct st as [|x st].
      * rewrite push_specifier_none. exists [".."]. split; [by apply prefix_cons, prefix_nil|done].
      * inversion Hst; subst. apply (Hstep st); [done|simpl; lia|done].
    + apply (Hstep (c :: st)); [done|simpl; lia|]. constructor; [|done].
      apply orb_false_iff in E1 as [?%is_empty_false ?%String.eqb_neq]. by split_and!.
Qed.

Definition base_stack (base_path : string) : list string :=
  foldl push_base [] (split slash (base_dir base_path)).

Lemma push_base_proper cs st :
  Forall proper st → ".." ∉ cs → Forall proper (foldl push_base st cs).
Proof.
  revert st. induction cs as [|c cs IH]; intros st Hst Hin; [done|].
  rewrite not_elem_of_cons in Hin. destruct Hin as [Hc Hin]. simpl. apply IH; [|done].
  unfold push_base. case_if; [done|]. bool_split. constructor; [|done].
  apply is_empty_false in H. apply String.eqb_neq in H0. by split_and!.
Qed.

Lemma split_absolute segs : segs ≠ [] → Forall (λ w, contains_char slash w = false) segs →
  split slash ("/" +:+ join "/" segs) = "" :: segs.
Proof.
  intros Hne Hs. change ("/" +:+ join "/" segs) with ("" +:+ String slash (join "/" segs)).
  rewrite split_app_no_sep by done. f_equal. by apply split_join.
Qed.

Lemma push_specifier_from cs st st' (P : string → Prop) :
  Forall P st → Forall P cs → foldl push_specifier (Some st) cs = Some st' → Forall P st'.
Proof.
  revert st. induction cs as [|c cs IH]; intros st Hst Hcs; [by intros [= <-]|].
  inversion Hcs; subst. cbn [foldl push_specifier].
  destruct (is_empty c || String.eqb c "."); [by apply IH|].
  destruct (String.eqb c "..").
  - destruct st; [by rewrite push_specifier_none|]. inversion Hst; subst. by apply IH.
  - apply IH; [by constructor|done].
Qed.

Lemma push_base_from cs st (P : string → Prop) :
  Forall P st → Forall P cs → Forall P (foldl push_base st cs).
Proof.
  revert st. induction cs as [|c cs IH]; intros st Hst Hcs; [done|].
  inversion Hcs; subst. simpl. apply IH; [|done]. unfold push_base. case_if; [done|by constructor].
Qed.

Lemma resolve_components_no_slash base spec st :
  resolve_components base spec = Some st → Forall (λ w, contains_char slash w = false) st.
Proof.
  apply push_specifier_from; [apply push_base_from; [done|]|]; apply split_no_sep.
Qed.

(** The path of a list of components, with an extension that has no slash. *)
Definition component_path (segs : list string) : string :=
  match segs with [] => "/" | _ => "/" +:+ join "/" segs end.

Lemma component_path_rev st :
  match st with [] => "/" | _ => "/" +:+ join "/" (rev st) end = component_path (rev st).
Proof.
  destruct st as [|x st]; [done|]. unfold component_path.
  destruct (rev (x :: st)) eqn:E; [|done]. apply (f_equal length) in E.
  rewrite length_rev in E. done.
Qed.

Lemma component_path_no_dotdot segs :
  Forall proper segs → Forall (λ w, contains_char slash w = false) segs →
  ".." ∉ split slash (component_path segs).
Proof.
  intros Hp Hs. destruct segs as [|x segs]; [by apply (bool_decide_unpack _)|].
  unfold component_path. rewrite split_absolute by done.
  rewrite not_elem_of_cons. split; [done|]. intros Hin.
  by destruct (proj1 (Forall_forall _ _) Hp _ Hin) as (_ & _ & ?).
Qed.

Lemma split_app_end c x e : contains_char c e = false →
  ∃ ws w, split c x = ws ++ [w] ∧ split c (x +:+ e) = ws ++ [w +:+ e].
Proof.
  intros He. induction x as [|a x (ws & w & H1 & H2)]; [exists [], ""; simpl; by rewrite str_app_nil_l, split_one|].
  rewrite str_app_cons. simpl. rewrite H1, H2. destruct (char_eqb a c); [by exists ("" :: ws), w|].
  destruct ws as [|v ws]; [by exists [], (String a w)|by exists (String a v :: ws), w].
Qed.

(** What a path of components means: empty components and ["."] go away, and a component
    goes away together with a [".."] behind it; nothing is put in and nothing moves. *)
Inductive cancel : list string → list string → Prop :=
| cancel_skip l c l' : c = "" ∨ c = "." → cancel (l ++ c :: l') (l ++ l')
| cancel_up l x l' : proper x → cancel (l ++ x :: ".." :: l') (l ++ l').

(** The components that [l] comes down to, when nothing is left to cancel. *)
Definition comes_down_to (l segs : list string) : Prop := rtc cancel l segs ∧ Forall proper segs.

Lemma push_specifier_cancels cs : ∀ st st',
  Forall proper st → foldl push_specifier (Some st) cs = Some st' → rtc cancel (rev st ++ cs) (rev st').
Proof.
  induction cs as [|c cs IH]; intros st st' Hst; cbn [foldl push_specifier].
  { intros [= <-]. rewrite app_nil_r. reflexivity. }
  destruct (is_empty c || String.eqb c ".") eqn:E1.
  { intros Hf. apply (rtc_l _ _ (rev st ++ cs)); [|by apply IH]. apply cancel_skip.
    apply orb_true_iff in E1 as [?%is_empty_true|?%String.eqb_eq]; auto. }
  apply orb_false_iff in E1 as [?%is_empty_false ?%String.eqb_neq].
  destruct (String.eqb_spec c "..") as [->|Hc].
  - destruct st as [|x st]; [by rewrite push_specifier_none|]. inversion Hst as [|? ? Hx Hst']; subst. intros Hf.
    apply (rtc_l _ _ (rev st ++ cs)); [|by apply IH]. cbn [rev]. rewrite <- app_assoc. by apply cancel_up.
  - intros Hf. specialize (IH (c :: st) st'). cbn [rev] in IH. rewrite <- app_assoc in IH. apply IH; [|done].
    constructor; [|done]. by split_and!.
Qed.

(** Cancelling does not change what the stack is at the end. *)
Lemma cancel_same_stack l l' st : cancel l l' → foldl push_specifier st l = foldl push_specifier st l'.
Proof.
  intros Hc. destruct Hc as [l c l' Hc|l x l' (H1 & H2 & H3)]; rewrite !foldl_app; cbn [foldl];
    (destruct (foldl push_specifier st l) as [st1|]; [|by rewrite ?push_specifier_none]); f_equal.
  - unfold push_specifier. by destruct Hc as [-> | ->].
  - unfold push_specifier. rewrite (proj2 (is_empty_false x)), (proj2 (String.eqb_neq x ".")), (proj2 (String.eqb_neq x "..")) by done.
    done.
Qed.

Lemma proper_pushed segs st : Forall proper segs → foldl push_specifier (Some st) segs = Some (rev segs ++ st).
Proof.
  intros Hs. revert st. induction Hs as [|x segs (H1 & H2 & H3) _ IH]; intros st; [done|]. cbn [foldl push_specifier rev].
  rewrite (proj2 (is_empty_false x)), (proj2 (String.eqb_neq x ".")), (proj2 (String.eqb_neq x "..")) by done.
  cbn [orb]. rewrite IH, <- app_assoc. done.
Qed.

(** A list comes down to the stack's components, and to nothing else. *)
Lemma comes_down_to_stack l st : foldl push_specifier (Some []) l = Some st → Forall proper st →
  ∀ segs, comes_down_to l segs ↔ segs = rev st.
Proof.
  intros Hf Hp segs. split.
  - intros [Hr Hs]. assert (E : foldl push_specifier (Some []) l = foldl push_specifier (Some []) segs).
    { clear -Hr. induction Hr as [|l l' l'' Hc _ IH]; [done|]. by rewrite (cancel_same_stack _ _ _ Hc). }
    rewrite Hf, proper_pushed, app_nil_r in E by done. injection E as ->. by rewrite rev_involutive.
  - intros ->. split; [by apply (push_specifier_cancels l [] st)|]. by apply Forall_rev.
Qed.

Lemma push_base_specifier cs st : ".." ∉ cs → foldl push_specifier (Some st) cs = Some (foldl push_base st cs).
Proof.
  revert st. induction cs as [|c cs IH]; intros st Hin; [done|]. rewrite not_elem_of_cons in Hin. destruct Hin as [Hc Hin].
  cbn [foldl]. unfold push_base at 2. cbn [push_specifier]. destruct (is_empty c || String.eqb c "."); [by apply IH|].
  rewrite (proj2 (String.eqb_neq c "..")) by congruence. by apply IH.
Qed.

Section resolve_proofs.
Context {B : Type} `{VfsBackend B} (ns : string).

(** C13. A relative specifier, against a base path without [".."], is refused exactly
    when some prefix of it climbs above the root of the isolate's files.  Otherwise it
    resolves to the absolute path of the components that those of the base's directory
    followed by those of the specifier come down to, each [".."] taking away the component
    before it, and to no others, with the extension [.js] or [.mjs] only if no component has
    a dot and that file exists; the result never has a [".."] left, so it stays inside the
    namespace. *)
Theorem resolve_import_exact (b : B) (base_path specifier : string)
    (Hrel : starts_with "/" specifier = false) (Hbase : ".." ∉ split slash (base_dir base_path)) :
  let d (pre : list string) := (Z.of_nat (length (base_stack base_path)) + depth pre)%Z in
  match resolve_import_path ns b base_path specifier with
  | Err _ => ∃ pre, pre `prefix_of` split slash specifier ∧ (d pre < 0)%Z
  | Ok p =>
      (∀ pre, pre `prefix_of` split slash specifier → 0 ≤ d pre)%Z ∧
      ".." ∉ split slash p ∧
      ∃ segs ext, p = component_path segs +:+ ext ∧ Forall proper segs ∧
        (∀ segs', comes_down_to (split slash (base_dir base_path) ++ split slash specifier) segs' ↔ segs' = segs) ∧
        Z.of_nat (length segs) = d (split slash specifier) ∧
        (ext = "" ∨ (ext = ".js" ∨ ext = ".mjs") ∧
                    contains_char dot (component_path segs) = false ∧ vfs_has ns b p = true)
  end.
Proof.
  cbv zeta. unfold resolve_import_path. rewrite Hrel.
  pose proof (push_specifier_spec (split slash specifier) (base_stack base_path)
    (push_base_proper _ [] (List.Forall_nil _) Hbase)) as Hspec.
  unfold resolve_components. fold (base_stack base_path).
  destruct (foldl _ _ _) as [st|] eqn:Est; [|done].
  pose proof (resolve_components_no_slash base_path specifier st Est) as Hslash.
  destruct Hspec as (Hprop & Hlen & Hpre). rewrite component_path_rev.
  assert (Hdown : ∀ segs', comes_down_to (split slash (base_dir base_path) ++ split slash specifier) segs' ↔ segs' = rev st).
  { apply comes_down_to_stack; [|done]. rewrite foldl_app, push_base_specifier by done. exact Est. }
  apply Forall_rev in Hprop. apply Forall_rev in Hslash. rewrite <- length_rev in Hlen.
  cbv zeta.
  pose proof (component_path_no_dotdot _ Hprop Hslash) as Hdd.
  assert (∀ ext, ext = ".js" ∨ ext = ".mjs" →
    ".." ∉ split slash (component_path (rev st) +:+ ext)) as Hext.
  { intros ext He. destruct (split_app_end slash (component_path (rev st)) ext)
      as (ws & w & H1 & H2); [by destruct He as [-> | ->]|].
    rewrite H2, not_elem_of_app. rewrite H1, not_elem_of_app in Hdd.
    split; [apply Hdd|]. rewrite list_elem_of_singleton. intros Heq.
    apply (f_equal String.length) in Heq. rewrite length_app_string in Heq.
    destruct He as [-> | ->]; simpl in Heq; lia. }
  destruct (contains_char dot (component_path (rev st))) eqn:Edot;
    [|destruct (vfs_has ns b _) eqn:E1; [|destruct (vfs_has ns b (_ +:+ ".mjs")) eqn:E2]].
  all: split; [done|]; split; [auto|]; exists (rev st).
  - exists "". rewrite str_app_nil_r. split_and!; auto.
  - exists ".js". split_and!; auto 10.
  - exists ".mjs". split_and!; auto 10.
  - exists "". rewrite str_app_nil_r. split_and!; auto.
Qed.
End resolve_proofs.

(** ** The resolution callback *)

Section callback_proofs.
Context {B : Type} `{VfsBackend B} (ns : string) {M : Type}.
Context (registered : string → bool) (synthetic_module : nat → string → option M)
        (compile_module : nat → string → string → option M) (utf8_lossy : list Z → string).
Context (b : B).

#[local] Abbreviation resolve := (resolve_import_path ns b "/handler.js").
#[local] Abbreviation callback :=
  (module_resolve_callback ns registered synthetic_module compile_module utf8_lossy b).
#[local] Abbreviation callbacks :=
  (run_callbacks ns registered synthetic_module compile_module utf8_lossy b).

(** The specifier names the file [p] and no built-in. *)
Definition names_file (specifier p : string) : Prop :=
  builtin_module_id registered specifier = None ∧ resolve specifier = Ok p.

(** Between two callbacks no module is loading. *)
Definition quiet (st : callback_state) (l : ModuleLoader M) : Prop :=
  current_loader st = Some l ∧ loading_stack l = [].

(** One callback keeps the stack empty and the cache growing; what it answers for a
    file is what the cache holds from then on. *)
Lemma callback_step st l specifier : quiet st l →
  ∃ l', quiet (callback st specifier).1 l' ∧ module_cache l ⊆ module_cache l' ∧
    ∀ p, names_file specifier p →
      (∀ m, (callback st specifier).2 = Some m → module_cache l' !! p = Some m) ∧
      (∀ m, module_cache l !! p = Some m → (callback st specifier).2 = Some m).
Proof.
  intros [Hl Hstack]. unfold module_resolve_callback, names_file, quiet. rewrite Hl.
  destruct (builtin_module_id registered specifier).
  { exists l. repeat split; naive_solver. }
  destruct (resolve specifier) as [q|]; [|by exists l; repeat split; naive_solver].
  unfold is_circular_import. rewrite Hstack. simpl.
  destruct (module_cache l !! q) as [m|] eqn:Ecache.
  { exists l. repeat split; naive_solver. }
  destruct (load_module_from_vfs _ _ _ _) as [code|]; [|by exists l; repeat split; naive_solver].
  destruct (compile_module _ _ _) as [m|]; simpl.
  - eexists. split; [split; [done|]; simpl; by rewrite Hstack|]. simpl.
    split; [by apply insert_subseteq|]. intros p [_ [= <-]]. rewrite lookup_insert_eq.
    split; [done|]. congruence.
  - eexists. split; [split; [done|]; simpl; by rewrite Hstack|]. simpl. naive_solver.
Qed.

Lemma callbacks_cached st l specifiers p m : quiet st l → module_cache l !! p = Some m →
  ∀ j s, specifiers !! j = Some s → names_file s p → (callbacks st specifiers).2 !! j = Some (Some m).
Proof.
  revert st l. induction specifiers as [|s0 ss IH]; intros st l Hq Hc j s Hj Hs; [done|].
  destruct (callback_step st l s0 Hq) as (l' & Hq' & Hsub & Hans). cbn [run_callbacks].
  destruct (callback st s0) as [st1 m1]. simpl in Hq', Hans.
  specialize (IH st1 l' Hq' (lookup_weaken _ _ _ _ Hc Hsub)).
  destruct (callbacks st1 ss) as [st2 ms]. simpl in *. destruct j as [|j]; simpl in *.
  - simplify_eq. f_equal. by apply (Hans p Hs).
  - by apply (IH j s).
Qed.

Lemma callbacks_once st l specifiers (i j : nat) si sj p m : quiet st l →
  specifiers !! i = Some si → specifiers !! j = Some sj → (i ≤ j)%nat →
  names_file si p → names_file sj p →
  (callbacks st specifiers).2 !! i = Some (Some m) → (callbacks st specifiers).2 !! j = Some (Some m).
Proof.
  revert st l i j. induction specifiers as [|s0 ss IH]; intros st l i j Hq Hi Hj Hle Hsi Hsj; [done|].
  destruct (callback_step st l s0 Hq) as (l' & Hq' & Hsub & Hans). cbn [run_callbacks].
  destruct (callback st s0) as [st1 m1]. simpl in Hq', Hans.
  specialize (IH st1 l'). pose proof (callbacks_cached st1 l' ss p m Hq') as Hcached.
  destruct (callbacks st1 ss) as [st2 ms]. simpl in *.
  destruct i as [|i], j as [|j]; simpl in *; [congruence| |lia|].
  - simplify_eq. intros [= ->]. apply (Hcached (proj1 (Hans p Hsi) m eq_refl) j sj Hj Hsj).
  - apply (IH i j); auto. lia.
Qed.

Lemma callbacks_quiet st l specifiers : quiet st l → ∃ l', quiet (callbacks st specifiers).1 l'.
Proof.
  revert st l. induction specifiers as [|s0 ss IH]; intros st l Hq; [by exists l|].
  destruct (callback_step st l s0 Hq) as (l' & Hq' & _). cbn [run_callbacks].
  destruct (callback st s0) as [st1 m1]. destruct (IH st1 l' Hq') as (l'' & ?).
  destruct (callbacks st1 ss). by exists l''.
Qed.

(** During one instantiation a file is compiled once: once the callback has answered
    with a module for a file, every later import of that file, from whichever module and
    however it is spelled, gets the same module.  No module is ever loading when the
    callback runs, so the test for circular imports never refuses one. *)
Theorem modules_compiled_once specifiers (i j : nat) si sj p m
    (Hi : specifiers !! i = Some si) (Hj : specifiers !! j = Some sj) (Hle : (i ≤ j)%nat)
    (Hsi : names_file si p) (Hsj : names_file sj p)
    (Hm : (callbacks (mkCallback (Some loader_new) 0) specifiers).2 !! i = Some (Some m)) :
  (callbacks (mkCallback (Some loader_new) 0) specifiers).2 !! j = Some (Some m) ∧
  ∃ l, current_loader (callbacks (mkCallback (Some loader_new) 0) specifiers).1 = Some l ∧
    loading_stack l = [] ∧ ∀ q, is_circular_import l q = false.
Proof.
  assert (quiet (mkCallback (Some loader_new) 0) loader_new) as Hq by done.
  split; [by apply (callbacks_once _ _ _ i j si sj p m Hq)|].
  destruct (callbacks_quiet _ _ specifiers Hq) as (l & Hl & Hs). exists l.
  unfold is_circular_import. by rewrite Hs.
Qed.
End callback_proofs.

Section nested_proofs.
Context {B : Type} `{VfsBackend B} (ns : string) {M : Type}.
Context (registered : string → bool) (synthetic_module : nat → string → option M)
        (compile_module : nat → string → string → option M) (utf8_lossy : list Z → string).
Context (b : B).

Lemma base_dir_app x a : contains_char slash a = false → base_dir (x +:+ String slash a) = x.
Proof.
  intros Ha. unfold base_dir. destruct (rfind_char slash (x +:+ String slash a)) as [i|] eqn:E.
  - destruct (rfind_char_Some _ _ _ E) as [Hs Hc].
    assert (split slash x ++ [a] = split slash (stake i (x +:+ String slash a)) ++ [sdrop (S i) (x +:+ String slash a)]) as Heq.
    { rewrite <- !split_snoc by done. by rewrite <- Hs. }
    apply app_inj_tail in Heq as [Heq _].
    apply (f_equal (join (String slash ""))) in Heq. by rewrite !join_split in Heq.
  - apply rfind_char_None in E. rewrite contains_char_app in E. simpl in E.
    by rewrite orb_true_r in E.
Qed.

Lemma resolve_dir base_path segs d f : 
  base_dir base_path = d → split slash d = segs → Forall (λ c, c = "" ∨ proper c) segs →
  proper f → contains_char slash f = false → contains_char dot f = true →
  resolve_import_path ns b base_path ("./" +:+ f) =
    Ok (component_path (base.filter (λ c, c ≠ "") segs ++ [f])).
Proof.
  intros Hd Hsegs Hp Hf Hs Hdot. unfold resolve_import_path.
  change (starts_with "/" ("./" +:+ f)) with false. cbv iota.
  assert (resolve_components base_path ("./" +:+ f) = Some (f :: rev (base.filter (λ c, c ≠ "") segs))) as ->.
  { unfold resolve_components. rewrite Hd, Hsegs.
    change (split slash ("./" +:+ f)) with ("." :: split slash f). rewrite split_one by done.
    assert (∀ st, foldl push_base st segs = rev (base.filter (λ c, c ≠ "") segs) ++ st) as Hb.
    { clear -Hp. induction segs as [|c segs IH]; intros st; [done|].
      inversion Hp as [|? ? Hc Hcs]; subst. simpl. rewrite IH by done.
      unfold push_base. destruct Hc as [-> | (H1 & H2 & H3)].
      - simpl. by rewrite filter_cons_False by naive_solver.
      - rewrite filter_cons_True by done.
        rewrite (proj2 (is_empty_false c) H1), (proj2 (String.eqb_neq c ".") H2). simpl.
        by rewrite <- app_assoc. }
    rewrite Hb, app_nil_r. destruct Hf as (H1 & H2 & H3). simpl.
    by rewrite (proj2 (is_empty_false f) H1), (proj2 (String.eqb_neq f ".") H2),
      (proj2 (String.eqb_neq f "..") H3). }
  set (l := rev (base.filter (λ c, c ≠ "") segs)).
  change ("/" +:+ join "/" (rev (f :: l))) with
    (match f :: l with [] => "/" | _ => "/" +:+ join "/" (rev (f :: l)) end).
  rewrite component_path_rev. unfold l. cbn [rev]. rewrite rev_involutive.
  assert (contains_char dot (component_path (base.filter (λ c, c ≠ "") segs ++ [f])) = true) as ->; [|done].
  unfold component_path. destruct (_ ++ [f]) eqn:E; [by destruct (base.filter _ _)|].
  rewrite <- E, contains_char_app, contains_char_join by done.
  apply orb_true_iff. right. apply existsb_exists. exists f. split; [|done].
  apply in_or_app. right. by left.
Qed.

(** An import of a sibling from a module in a directory: the loader's own resolution,
    given the importing module's path, finds the sibling, but the callback ignores the
    importing module and answers with the file of that name in the root. *)
Theorem nested_import_from_root (st : callback_state) (d a f : string)
    (Hd : proper d ∧ contains_char slash d = false) (Ha : contains_char slash a = false)
    (Hf : proper f ∧ contains_char slash f = false) (Hdot : contains_char dot f = true) :
  resolve_import_path ns b ("/" +:+ (d +:+ ("/" +:+ a))) ("./" +:+ f) =
    Ok ("/" +:+ (d +:+ ("/" +:+ f))) ∧
  module_resolve_callback ns registered synthetic_module compile_module utf8_lossy b st ("./" +:+ f) =
  module_resolve_callback ns registered synthetic_module compile_module utf8_lossy b st ("/" +:+ f).
Proof.
  destruct Hd as [Hd Hds], Hf as [Hf Hfs]. split.
  - change ("/" +:+ (d +:+ ("/" +:+ a))) with (String slash (d +:+ String slash a)).
    change (String slash (d +:+ String slash a)) with (String slash d +:+ String slash a).
    rewrite (resolve_dir _ ["" ; d] (String slash d) f); auto.
    + rewrite filter_cons_False by naive_solver.
      destruct Hd as (? & ? & ?). by rewrite filter_cons_True by done.
    + by apply base_dir_app.
    + change (String slash d) with ("" +:+ String slash d).
      by rewrite split_app_no_sep, split_one.
  - unfold module_resolve_callback, builtin_module_id.
    change (starts_with "." ("./" +:+ f)) with true.
    change (starts_with "/" ("/" +:+ f)) with true. rewrite orb_true_r. cbv iota.
    destruct (current_loader st) as [loader|]; [|done].
    by rewrite (resolve_dir "/handler.js" [""] "" f) by (auto; by constructor; [left|]).
Qed.
End nested_proofs.

(** ** A concrete loader *)

Definition demo_backend : MemoryBackend :=
  match iv_write 1 "app" (with_limits test_limits) "/util.js" [117%Z] with
  | Done (b1, _) => match iv_write 2 "app" b1 "/lib/util.js" [108%Z] with
                    | Done (b2, _) => b2
                    | Panicked _ => b1
                    end
  | Panicked _ => with_limits test_limits
  end.

Definition demo_compile (n : nat) (path code : string) : option (nat * string) := Some (n, path).
Definition demo_synthetic (n : nat) (id : string) : option (nat * string) := Some (n, id).
Definition demo_utf8 (l : list Z) : string := "".
Definition demo_registered (s : string) : bool := String.eqb s "fs".

Lemma resolve_import_exact_witness :
  resolve_import_path "app" demo_backend "/lib/a.js" "../util" = Ok "/util.js" ∧
  ".." ∉ split slash "/util.js".
Proof.
  pose proof (resolve_import_exact "app" demo_backend "/lib/a.js" "../util" eq_refl
    ltac:(apply (bool_decide_unpack _); reflexivity)) as H.
  assert (Heq : resolve_import_path "app" demo_backend "/lib/a.js" "../util" = Ok "/util.js")
    by (vm_compute; reflexivity).
  rewrite Heq in H. split; [exact Heq|apply H].
Defined.

Lemma modules_compiled_once_witness :
  (run_callbacks "app" demo_registered demo_synthetic demo_compile demo_utf8 demo_backend
    (mkCallback (Some loader_new) 0) ["./util.js"; "node:fs"; "./lib/../util"]).2 !! 2%nat =
  Some (Some (0%nat, "/util.js")).
Proof.
  apply (modules_compiled_once "app" demo_registered demo_synthetic demo_compile demo_utf8
    demo_backend ["./util.js"; "node:fs"; "./lib/../util"] 0 2 "./util.js" "./lib/../util" "/util.js").
  - reflexivity.
  - reflexivity.
  - lia.
  - split; vm_compute; reflexivity.
  - split; vm_compute; reflexivity.
  - vm_compute. reflexivity.
Defined.

Lemma nested_import_from_root_witness :
  resolve_import_path "app" demo_backend "/lib/a.js" "./util.js" = Ok "/lib/util.js" ∧
  (module_resolve_callback "app" demo_registered demo_synthetic demo_compile demo_utf8 demo_backend
    (mkCallback (Some loader_new) 0) "./util.js").2 = Some (0%nat, "/util.js").
Proof.
  pose proof (nested_import_from_root "app" demo_registered demo_synthetic demo_compile demo_utf8
    demo_backend (mkCallback (Some loader_new) 0) "lib" "a.js" "util.js"
    ltac:(split; [repeat split; discriminate|reflexivity]) eq_refl
    ltac:(split; [repeat split; discriminate|reflexivity]) eq_refl) as [H1 H2].
  split; [exact H1|]. apply (f_equal snd) in H2. refine (eq_trans H2 _). vm_compute. reflexivity.
Defined.
