(* ===== verification/Oom.v ===== *)
(** * [src/worker/limits.rs] and [src/worker/oom.rs]: memory limits of an isolate

    What the engine reports ([get_heap_statistics]) is an argument of each check.
    The counters are atomics of one worker thread. *)

From stdpp Require Import base gmap list strings pretty.
From Stdlib Require Import ZArith Lia SpecFloat.
From S2P Require Import Prelude RustString RustFloat VfsPath HttpHeaders Router.

Open Scope Z_scope.

(** ** [limits.rs] *)

Inductive OomError :=
| LimitExceeded (used_bytes limit_bytes : Z) (app_hostname : string)
| V8HeapLimitTriggered.

Definition mib (bytes : Z) : Z := bytes / (1024 * 1024).

Definition display_oom (e : OomError) : string :=
  match e with
  | LimitExceeded used limit _ =>
      "Memory limit exceeded: used " +:+ (pretty (used / 1024 / 1024) +:+ ("MB, limit " +:+
        (pretty (limit / 1024 / 1024) +:+ "MB")))
  | V8HeapLimitTriggered => "V8 heap limit callback triggered"
  end.

Definition oom_used_mb (e : OomError) : Z :=
  match e with LimitExceeded used _ _ => mib used | V8HeapLimitTriggered => 0 end.
Definition oom_limit_mb (e : OomError) : Z :=
  match e with LimitExceeded _ limit _ => mib limit | V8HeapLimitTriggered => 0 end.
Definition oom_hostname (e : OomError) : option string :=
  match e with LimitExceeded _ _ h => Some h | V8HeapLimitTriggered => None end.

Record HeapStatistics := mkHeap {
  used_heap_size : Z;
  total_heap_size : Z;
  heap_size_limit : Z;
  external_memory : Z;
  number_of_native_contexts : Z;
  number_of_detached_contexts : Z;
}.

Definition heap_empty : HeapStatistics := mkHeap 0 0 0 0 0 0.
Definition heap_used_mb (s : HeapStatistics) : Z := mib (used_heap_size s).
Definition heap_total_mb (s : HeapStatistics) : Z := mib (total_heap_size s).
Definition heap_external_mb (s : HeapStatistics) : Z := mib (external_memory s).

Definition total_memory_bytes (s : HeapStatistics) : Z :=
  sat_add (used_heap_size s) (external_memory s).

Definition exceeds_limit (s : HeapStatistics) (limit_bytes : Z) : bool :=
  total_memory_bytes s >? limit_bytes.

Definition percent_of_limit (s : HeapStatistics) (limit_bytes : Z) : f64 :=
  if limit_bytes =? 0 then S754_zero false
  else f64_mul (f64_div (f64_of_Z (total_memory_bytes s)) (f64_of_Z limit_bytes)) (f64_of_Z 100).

Record MemoryLimiter := mkLimiter {
  limit_bytes : Z;
  current_bytes : Z;
  oom_triggered : bool;
  app_hostname : string;
  oom_threshold : f64;
}.

Definition one : f64 := f64_of_Z 1.

(** [f64::clamp(0.0, 1.0)] *)
Definition clamp01 (x : f64) : f64 :=
  if f64_lt x (S754_zero false) then S754_zero false
  else if f64_lt one x then one else x.

Definition limiter_new (limit_mb : Z) (hostname : string) : MemoryLimiter :=
  mkLimiter (limit_mb * 1024 * 1024) 0 false hostname one.

Definition with_threshold (limit_mb : Z) (hostname : string) (threshold : f64) : MemoryLimiter :=
  mkLimiter (limit_mb * 1024 * 1024) 0 false hostname (clamp01 threshold).

Definition limiter_limit_mb (l : MemoryLimiter) : Z := mib (limit_bytes l).

Definition limiter_reset (l : MemoryLimiter) : MemoryLimiter :=
  mkLimiter (limit_bytes l) 0 false (app_hostname l) (oom_threshold l).

Definition trigger_oom (l : MemoryLimiter) : MemoryLimiter :=
  mkLimiter (limit_bytes l) (current_bytes l) true (app_hostname l) (oom_threshold l).

Definition set_current (l : MemoryLimiter) (bytes : Z) : MemoryLimiter :=
  mkLimiter (limit_bytes l) bytes (oom_triggered l) (app_hostname l) (oom_threshold l).

Definition set_oom_threshold (l : MemoryLimiter) (threshold : f64) : MemoryLimiter :=
  mkLimiter (limit_bytes l) (current_bytes l) (oom_triggered l) (app_hostname l) (clamp01 threshold).

Definition check_heap (l : MemoryLimiter) (stats : HeapStatistics)
    : MemoryLimiter * result HeapStatistics OomError :=
  if exceeds_limit stats (limit_bytes l)
  then (trigger_oom l, Err (LimitExceeded (total_memory_bytes stats) (limit_bytes l) (app_hostname l)))
  else (set_current l (total_memory_bytes stats), Ok stats).

Definition peek_memory (l : MemoryLimiter) (stats : HeapStatistics) : HeapStatistics * bool :=
  (stats, exceeds_limit stats (limit_bytes l)).

Definition effective_oom_limit_bytes (l : MemoryLimiter) : Z :=
  f64_to_usize (f64_mul (f64_of_Z (limit_bytes l)) (oom_threshold l)).

Definition effective_oom_limit_mb (l : MemoryLimiter) : Z := mib (effective_oom_limit_bytes l).

Definition check_oom (l : MemoryLimiter) (stats : HeapStatistics)
    : MemoryLimiter * result HeapStatistics OomError :=
  if total_memory_bytes stats >? effective_oom_limit_bytes l
  then (trigger_oom l, Err (LimitExceeded (total_memory_bytes stats) (limit_bytes l) (app_hostname l)))
  else (set_current l (total_memory_bytes stats), Ok stats).

(** *** [RequestMemoryTracker] *)

Record RequestMemoryTracker := mkReqTracker {
  start_stats : option HeapStatistics;
  req_limit_bytes : Z;
  req_hostname : string;
}.

Definition DEFAULT_LIMIT_MB : Z := 16.

Definition req_tracker_new (limit_mb : Z) (hostname : string) : RequestMemoryTracker :=
  let limit := if limit_mb =? 0 then DEFAULT_LIMIT_MB else limit_mb in
  mkReqTracker None (limit * 1024 * 1024) hostname.

Definition req_start (t : RequestMemoryTracker) (stats : HeapStatistics) : RequestMemoryTracker :=
  mkReqTracker (Some stats) (req_limit_bytes t) (req_hostname t).

Definition req_reset (t : RequestMemoryTracker) : RequestMemoryTracker :=
  mkReqTracker None (req_limit_bytes t) (req_hostname t).

Definition current_growth_bytes (t : RequestMemoryTracker) (stats : HeapStatistics) : Z :=
  match start_stats t with
  | None => 0
  | Some start =>
      if used_heap_size stats >? used_heap_size start
      then used_heap_size stats - used_heap_size start else 0
  end.

Definition current_growth_mb (t : RequestMemoryTracker) (stats : HeapStatistics) : Z :=
  mib (current_growth_bytes t stats).

Definition check_limit (t : RequestMemoryTracker) (stats : HeapStatistics) : result Z OomError :=
  let growth := current_growth_bytes t stats in
  if (req_limit_bytes t >? 0) && (growth >? req_limit_bytes t)
  then Err (LimitExceeded growth (req_limit_bytes t) (req_hostname t))
  else Ok growth.

Definition exceeded_limit (t : RequestMemoryTracker) (stats : HeapStatistics) : result Z OomError :=
  check_limit t stats.

Definition check_memory (t : RequestMemoryTracker) (stats : HeapStatistics) : result unit string :=
  let growth := current_growth_bytes t stats in
  if (req_limit_bytes t >? 0) && (growth >? req_limit_bytes t)
  then Err ("Memory growth " +:+ (pretty (mib growth) +:+ ("MB exceeds limit " +:+
             (pretty (mib (req_limit_bytes t)) +:+ ("MB for " +:+ req_hostname t)))))
  else Ok tt.

(** ** [oom.rs] *)

Record OomMonitor := mkOomMonitor {
  limiter : MemoryLimiter;
  monitor_id : string;
  check_count : Z;
  oom_count : Z;
}.

Definition oom_monitor_new (l : MemoryLimiter) (id : string) : OomMonitor := mkOomMonitor l id 0 0.

Definition monitor_check (m : OomMonitor) (stats : HeapStatistics)
    : OomMonitor * result HeapStatistics OomError :=
  let r := check_oom (limiter m) stats in
  match r.2 with
  | Ok s => (mkOomMonitor r.1 (monitor_id m) (add_u64 (check_count m) 1) (oom_count m), Ok s)
  | Err e => (mkOomMonitor r.1 (monitor_id m) (add_u64 (check_count m) 1)
                (add_u64 (oom_count m) 1), Err e)
  end.

Definition is_oom (m : OomMonitor) : bool := oom_triggered (limiter m).

Definition monitor_reset (m : OomMonitor) : OomMonitor :=
  mkOomMonitor (limiter_reset (limiter m)) (monitor_id m) (check_count m) (oom_count m).

Definition newline : string := String (Ascii.ascii_of_nat 10) "".

Definition oom_body (m : OomMonitor) (e : OomError) : string :=
  "Service Unavailable: Resource limit exceeded" +:+ (newline +:+ (newline +:+
  match e with
  | LimitExceeded used limit hostname =>
      "Application: " +:+ (hostname +:+ (newline +:+ ("Memory used: " +:+ (pretty (mib used) +:+
        (" MB" +:+ (newline +:+ ("Memory limit: " +:+ (pretty (mib limit) +:+ (" MB" +:+
        (newline +:+ ("Isolate: " +:+ (monitor_id m +:+ newline))))))))))))
  | V8HeapLimitTriggered =>
      "V8 heap limit callback triggered" +:+ (newline +:+ ("Isolate: " +:+ (monitor_id m +:+ newline)))
  end)).

Section responses.
Context {LC : Lowercase}.

Definition create_oom_response (m : OomMonitor) (e : OomError) : NanoResponse :=
  with_body (with_header (with_header (with_status 503) "Content-Type" "text/plain")
    "Retry-After" "0") (oom_body m e).
End responses.

(** [check_memory_pressure]: the answer, and whether a warning is logged. *)
Definition check_memory_pressure (m : OomMonitor) (warning_threshold : f64) (stats : HeapStatistics)
    : option HeapStatistics * bool :=
  if (peek_memory (limiter m) stats).2 then (Some stats, false)
  else
    let usage_ratio := f64_div (percent_of_limit stats (limit_bytes (limiter m))) (f64_of_Z 100) in
    (Some stats, f64_le warning_threshold usage_ratio).

(** *** [OomMonitorBuilder] *)

Record OomMonitorBuilder := mkBuilder {
  b_monitor_id : string;
  b_limit_mb : Z;
  b_oom_threshold : f64;
  b_hostname : string;
}.

Definition builder_new (id : string) : OomMonitorBuilder := mkBuilder id 128 one "unknown".
Definition with_limit_mb (b : OomMonitorBuilder) (mb : Z) : OomMonitorBuilder :=
  mkBuilder (b_monitor_id b) mb (b_oom_threshold b) (b_hostname b).
Definition with_oom_threshold (b : OomMonitorBuilder) (t : f64) : OomMonitorBuilder :=
  mkBuilder (b_monitor_id b) (b_limit_mb b) (clamp01 t) (b_hostname b).
Definition for_hostname (b : OomMonitorBuilder) (h : string) : OomMonitorBuilder :=
  mkBuilder (b_monitor_id b) (b_limit_mb b) (b_oom_threshold b) h.

(** [f64] equality as the source tests it: false on [NaN]. *)
Definition f64_eqb (x y : f64) : bool := SFeqb x y.

Definition build (b : OomMonitorBuilder) : OomMonitor :=
  oom_monitor_new
    (if negb (f64_eqb (b_oom_threshold b) one)
     then with_threshold (b_limit_mb b) (b_hostname b) (b_oom_threshold b)
     else limiter_new (b_limit_mb b) (b_hostname b)) (b_monitor_id b).

(** A run of checks between two resets. *)
Fixpoint run_checks (m : OomMonitor) (readings : list HeapStatistics)
    : OomMonitor * list (result HeapStatistics OomError) :=
  match readings with
  | [] => (m, [])
  | s :: rest => let r := monitor_check m s in
                 let rs := run_checks r.1 rest in (rs.1, r.2 :: rs.2)
  end.

(** ** What the checks find *)

Definition limit_of (limit_mb : Z) : Z := limit_mb * 1024 * 1024.

(** Heap and external memory together are more than [limit_mb] megabytes. *)
Definition over (limit_mb : Z) (s : HeapStatistics) : bool :=
  used_heap_size s + external_memory s >? limit_of limit_mb.

Definition readable (s : HeapStatistics) : Prop := in_u64 (used_heap_size s) ∧ in_u64 (external_memory s).

Definition verdict (limit_mb : Z) (hostname : string) (s : HeapStatistics)
    : result HeapStatistics OomError :=
  if over limit_mb s then Err (LimitExceeded (total_memory_bytes s) (limit_of limit_mb) hostname)
  else Ok s.

Definition worker_monitor (id hostname : string) (limit_mb : Z) : OomMonitor :=
  build (for_hostname (with_limit_mb (builder_new id) limit_mb) hostname).

Lemma worker_monitor_eq id hostname limit_mb :
  worker_monitor id hostname limit_mb = oom_monitor_new (limiter_new limit_mb hostname) id.
Proof. done. Qed.

(** The limiter of a worker, whatever it has tracked so far. *)
Definition watches (limit_mb : Z) (hostname : string) (l : MemoryLimiter) : Prop :=
  limit_bytes l = limit_of limit_mb ∧ app_hostname l = hostname ∧ oom_threshold l = one.

Lemma effective_limit limit_mb hostname l : in_u32 limit_mb → watches limit_mb hostname l →
  effective_oom_limit_bytes l = limit_of limit_mb.
Proof.
  intros Hmb (Hl & _ & Ht). unfold effective_oom_limit_bytes, one in *. rewrite Hl, Ht.
  apply f64_to_usize_mul_one. unfold limit_of. change (2 ^ 53) with 9007199254740992. zlia.
Qed.

Lemma check_oom_verdict limit_mb hostname l s :
  in_u32 limit_mb → watches limit_mb hostname l → readable s →
  (check_oom l s).2 = verdict limit_mb hostname s ∧
  watches limit_mb hostname (check_oom l s).1 ∧
  oom_triggered (check_oom l s).1 = oom_triggered l || over limit_mb s.
Proof.
  intros Hmb Hw [Hu He]. unfold check_oom, verdict, over.
  rewrite (effective_limit limit_mb hostname) by done. destruct Hw as (Hl & Hh & Ht).
  assert (total_memory_bytes s >? limit_of limit_mb =
          (used_heap_size s + external_memory s >? limit_of limit_mb)) as ->.
  { unfold total_memory_bytes, limit_of. rewrite !Z.gtb_ltb. apply eq_true_iff_eq.
    rewrite !Z.ltb_lt. zlia. }
  destruct (_ >? _); simpl; rewrite ?Hl, ?Hh, ?orb_true_r, ?orb_false_r; by repeat split.
Qed.

Lemma run_checks_exact limit_mb hostname m readings :
  in_u32 limit_mb → watches limit_mb hostname (limiter m) → Forall readable readings →
  let r := run_checks m readings in
  r.2 = verdict limit_mb hostname <$> readings ∧
  check_count r.1 = foldl (λ n _, add_u64 n 1) (check_count m) readings ∧
  oom_count r.1 = foldl (λ n (_ : HeapStatistics), add_u64 n 1) (oom_count m) (List.filter (over limit_mb) readings) ∧
  is_oom r.1 = is_oom m || existsb (over limit_mb) readings.
Proof.
  intros Hmb Hw Hr. revert m Hw. induction Hr as [|s readings Hs Hr IH]; intros m Hw; simpl.
  { by rewrite orb_false_r. }
  destruct (check_oom_verdict limit_mb hostname (limiter m) s Hmb Hw Hs) as (Hv & Hw' & Ht).
  unfold monitor_check. rewrite Hv. unfold verdict at 1.
  assert (∀ c o, let m' := mkOomMonitor (check_oom (limiter m) s).1 (monitor_id m) c o in
    is_oom m' = is_oom m || over limit_mb s) as Hoom by done.
  fold (verdict limit_mb hostname s).
  unfold verdict. destruct (over limit_mb s); simpl;
    match goal with |- context [run_checks ?m' _] => destruct (IH m' Hw') as (H1 & H2 & H3 & H4) end;
    rewrite H1, H2, H3, H4, Hoom, ?orb_true_r, ?orb_false_r; auto.
Qed.

Lemma count_u64 {A} (l : list A) n : foldl (λ n _, add_u64 n 1) n l = if decide (l = []) then n else as_u64 (n + len l).
Proof.
  revert n. induction l as [|x l IH]; intros n; [done|]. simpl. rewrite IH.
  unfold add_u64, as_u64, len. destruct (decide (l = [])) as [->|]; [done|].
  rewrite Z.add_mod_idemp_l by done. f_equal. simpl length. lia.
Qed.

(** The memory checks of a worker, one after another: each refuses exactly when heap
    and external memory together exceed the limit in bytes, with the floating-point
    threshold of one computed exactly for every [u32] limit; the error names the usage,
    the limit and the application.  The counters are the numbers of checks and of
    refusals, modulo 2^64, and the flag stays set after the first refusal. *)
Theorem oom_checks_exact (id hostname : string) (limit_mb : Z) (readings : list HeapStatistics)
    (Hmb : in_u32 limit_mb) (Hr : Forall readable readings) :
  let r := run_checks (worker_monitor id hostname limit_mb) readings in
  r.2 = verdict limit_mb hostname <$> readings ∧
  check_count r.1 = as_u64 (len readings) ∧
  oom_count r.1 = as_u64 (len (List.filter (over limit_mb) readings)) ∧
  is_oom r.1 = existsb (over limit_mb) readings.
Proof.
  cbv zeta. rewrite worker_monitor_eq.
  destruct (run_checks_exact limit_mb hostname (oom_monitor_new (limiter_new limit_mb hostname) id)
    readings Hmb ltac:(done) Hr) as (-> & -> & -> & ->).
  rewrite !count_u64. split; [done|].
  split; [destruct (decide (readings = [])) as [->|]; done|].
  split; [|done]. by destruct (decide (List.filter _ _ = [])) as [->|].
Qed.

Lemma oom_checks_exact_witness :
  let small := mkHeap 1000 0 0 24 1 0 in let big := mkHeap 1048576 0 0 1 1 0 in
  (run_checks (worker_monitor "worker_a.com_0" "a.com" 1) [small; big; small]).2 =
    [Ok small; Err (LimitExceeded 1048577 1048576 "a.com"); Ok small] ∧
  is_oom (run_checks (worker_monitor "worker_a.com_0" "a.com" 1) [small; big; small]).1 = true.
Proof.
  cbv zeta.
  destruct (oom_checks_exact "worker_a.com_0" "a.com" 1
    [mkHeap 1000 0 0 24 1 0; mkHeap 1048576 0 0 1 1 0; mkHeap 1000 0 0 24 1 0]) as (H1 & _ & _ & H4).
  - split; vm_compute; congruence.
  - repeat constructor; vm_compute; congruence.
  - split; [exact (eq_trans H1 eq_refl)|exact (eq_trans H4 eq_refl)].
Defined.

(** The per-request tracker refuses exactly when the heap has grown, since the start
    of the request, by more than the limit (16 MB when none is given).  Memory outside
    the heap, such as array buffers, never counts, and a heap that shrank has grown by
    nothing. *)
Theorem request_growth_exact (limit_mb : Z) (hostname : string) (s0 s1 : HeapStatistics)
    (Hmb : in_u32 limit_mb) :
  let limit := limit_of (if limit_mb =? 0 then 16 else limit_mb) in
  let growth := used_heap_size s1 - used_heap_size s0 in
  check_limit (req_start (req_tracker_new limit_mb hostname) s0) s1 =
    if growth >? limit then Err (LimitExceeded growth limit hostname) else Ok (Z.max 0 growth).
Proof.
  cbv zeta. unfold check_limit, current_growth_bytes, req_start, req_tracker_new, DEFAULT_LIMIT_MB.
  cbn [start_stats req_limit_bytes req_hostname]. fold (limit_of (if limit_mb =? 0 then 16 else limit_mb)).
  set (limit := limit_of _). assert (0 < limit) as Hl.
  { unfold limit, limit_of. destruct (Z.eqb_spec limit_mb 0); zlia. }
  rewrite (proj2 (Z.gtb_lt limit 0)) by lia. rewrite andb_true_l, !Z.gtb_ltb.
  destruct (Z.ltb_spec (used_heap_size s0) (used_heap_size s1));
    destruct (Z.ltb_spec limit (used_heap_size s1 - used_heap_size s0)).
  - done.
  - f_equal. lia.
  - lia.
  - rewrite (proj2 (Z.ltb_ge _ _)) by lia. f_equal. lia.
Qed.

Lemma request_growth_exact_witness :
  check_limit (req_start (req_tracker_new 0 "a.com") (mkHeap 1000 0 0 0 1 0))
    (mkHeap 2000 0 0 1000000000 1 0) = Ok 1000.
Proof.
  rewrite (request_growth_exact 0 "a.com") by (split; vm_compute; congruence). reflexivity.
Defined.
