(* ===== verification/WorkerLoop.v ===== *)
(** * [src/worker/pool.rs], the worker thread, and [src/worker/app_source.rs]

    A worker thread takes tasks from its channel one at a time and runs them in an
    isolate that it replaces from time to time.  The engine is a record of operations
    ([Engine]): creating isolates, compiling, running and calling, reading results.
    What the thread decides itself is here: which isolate it starts from, when it
    replaces it, how a handler is found and cached, what is sent back.

    A handler may change the files of the pool's backend, so its calls thread the
    backend.  The channel's content is the list of arrivals; at its end the channel is
    closed.  Each arrival carries what the system calls made for it see (clock, files,
    heap, the shared code cache), since other threads change those in between.

    Every call into the program may return, end the process or never return ([ends]), and
    so may the thread: its log is of the tasks that it was done with by then. *)

From stdpp Require Import base gmap list strings pretty.
From Stdlib Require Import ZArith Lia.
From S2P Require Import Prelude RustString RustList VfsPath VfsBackend VfsMemory VfsIsolate ControlPlane.
From S2P Require Import HttpHeaders Router DataPlane Sliver SliverVfs SliverCache ModuleSource Oom.

Open Scope Z_scope.

(** ** How a computation ends *)

(** It returns, a panic ends the process, or it does not return. *)
Inductive ends (A : Type) : Type :=
| Ended (a : A)
| Aborted (why : string)
| Busy.
Arguments Ended {A} _.
Arguments Aborted {A} _.
Arguments Busy {A}.

Definition ends_bind {A B} (x : ends A) (f : A → ends B) : ends B :=
  match x with Ended a => f a | Aborted why => Aborted why | Busy => Busy end.

Notation "'let~' x := e 'in' k" := (ends_bind e (fun x => k))
  (at level 10, x name, e at level 100, k at level 200).

Definition of_outcome {A} (o : outcome A) : ends A :=
  match o with Done a => Ended a | Panicked why => Aborted why end.

Lemma ends_bind_ended {A B} (x : ends A) (f : A → ends B) b :
  ends_bind x f = Ended b ↔ ∃ a, x = Ended a ∧ f a = Ended b.
Proof. destruct x; naive_solver. Qed.

(** ** [AppSource] *)

Inductive AppSource :=
| SourceEntrypoint (path : string)
| SourceSliver (data : UnpackedSliver) (temp_entrypoint : option string)
| SourceStatic (root : string).

Definition source_sliver (data : UnpackedSliver) : AppSource := SourceSliver data None.
Definition sliver_with_temp (data : UnpackedSliver) (temp : string) : AppSource :=
  SourceSliver data (Some temp).

Definition needs_isolate (s : AppSource) : bool :=
  match s with SourceEntrypoint _ | SourceSliver _ _ => true | SourceStatic _ => false end.
Definition source_is_entrypoint (s : AppSource) : bool :=
  match s with SourceEntrypoint _ => true | _ => false end.
Definition source_is_sliver (s : AppSource) : bool :=
  match s with SourceSliver _ _ => true | _ => false end.
Definition source_is_static (s : AppSource) : bool :=
  match s with SourceStatic _ => true | _ => false end.
Definition entrypoint_path (s : AppSource) : option string :=
  match s with SourceEntrypoint p => Some p | _ => None end.
Definition sliver_data (s : AppSource) : option UnpackedSliver :=
  match s with SourceSliver d _ => Some d | _ => None end.
Definition temp_entrypoint (s : AppSource) : option string :=
  match s with SourceSliver _ t => t | _ => None end.

(** ** What JavaScript hands back *)

(** Properties of an object by name, in order; [None] for a value that is a function or
    cannot be read as a string. *)
Abbreviation Props := (list (string * option string)).

(** The fields of a response object as the code reads them: [status] as an integer,
    [headers] as an object with its [__headers__] object, if any, and its own properties,
    [body] unless null or undefined. *)
Record JsObject := mkJsObject {
  jo_status : option Z;
  jo_headers : option (option (option Props) * option Props);
  jo_body : option string;
}.

Inductive JsValue := JsObj (o : JsObject) | JsNoObject.

Inductive PromiseState := Fulfilled (v : JsValue) | Rejected (msg : string) | Pending.

(** A call of the handler: an exception, a value, or a promise with the time its loop
    starts and what each poll of it finds (the clock is read when it is pending).  A poll
    runs the program's callbacks. *)
Inductive CallResult :=
| Threw (exception : option string)
| Returned (v : JsValue)
| Promised (start : Z) (polls : nat → ends (PromiseState * Z)).

Record JsRequest := mkJsRequest {
  jr_url : string;
  jr_method : string;
  jr_headers : list (string * string);
  jr_body : option string;
}.

Inductive JsEvent :=
| MessageText (s : string)
| MessageBinary (b : list Z)
| CloseEvent (code : Z) (reason : string)
| ErrorEvent.

Section worker.
Context {LC : Lowercase} {HO : HashOrder (list string)}.
Context {B : Type} `{VfsBackend B} {I F Sc : Type}.

(** The engine; [eng_open] makes the context and binds the runtime's APIs.  The calls that
    run code of the program thread the files and may not return: scripts, functions and
    constructors, and the accessors that the program can put on the global object, on a
    response ([eng_read]) and on its WebSocket ([eng_set_state], which is
    [set_ws_readystate]).  The module WebSocket says when [eng_set_state] and
    [eng_dispatch] end the process. *)
Record Engine := mkEngine {
  eng_create : isolate_source → result I string;
  eng_set_heap_limits : I → Z → Z → I;
  eng_open : I → I;
  eng_heap : I → HeapStatistics;
  eng_string : I → string → bool;
  eng_compile : I → string → option Sc;
  eng_run : I → B → Sc → ends (I * B * bool);
  eng_global_function : I → B → string → ends (I * B * option F);
  eng_call_resolver : I → B → F → ends (I * B * option F);
  eng_construct : I → B → F → ends (I * B * bool);
  eng_call : I → B → F → JsRequest → ends (I * B * CallResult);
  eng_read : I → B → JsValue → ends (I * B);
  eng_call_url : I → B → F → string → ends (I * B);
  eng_set_state : I → B → Z → ends (I * B);
  eng_dispatch : I → B → JsEvent → ends (I * B);
}.

Context (E : Engine) (base64_encode : string → string).
Context (default_matches : string → list (string * string) * string)
        (import_matches : string → list (string * (string → option string)) * string).

(** ** The promise loop *)

(** 30 s and 1 ms in nanoseconds. *)
Definition PROMISE_TIMEOUT : Z := 30000000000.
Definition POLL_SLEEP : Z := 1000000.

(** [Busy] when a poll is, or if the fuel is too small. *)
Fixpoint await_promise (fuel : nat) (deadline : Z) (polls : nat → ends (PromiseState * Z)) (n : nat)
    : ends (result JsValue string) :=
  match fuel with
  | O => Busy
  | S fuel =>
      let~ poll := polls n in
      match poll with
      | (Fulfilled v, _) => Ended (Ok v)
      | (Rejected msg, _) => Ended (Err ("Promise rejected: " +:+ msg))
      | (Pending, now) =>
          if now >? deadline then Ended (Err "Async handler timed out after 30s")
          else await_promise fuel deadline polls (S n)
      end
  end.

(** ** The response *)

Definition hidden_header (k : string) : bool :=
  starts_with "__" k || String.eqb k "set" || String.eqb k "get" || String.eqb k "forEach".

Definition copy_header (r : NanoResponse) (p : string * option string) : NanoResponse :=
  if hidden_header p.1 then r
  else match p.2 with Some v => with_header r p.1 v | None => r end.

Definition extract_response (o : JsObject) : NanoResponse :=
  let status := match jo_status o with Some i => i mod 65536 | None => 200 end in
  let response := with_status status in
  let response :=
    match jo_headers o with
    | Some (inner, own) =>
        let hsrc := match inner with Some p => p | None => own end in
        match hsrc with
        | Some props => foldl copy_header response props
        | None => response
        end
    | None => response
    end in
  match jo_body o with Some b => with_body response b | None => response end.

(** ** One call of a handler *)

(** A closure that can fail, with the isolate and the files as they are then. *)
Abbreviation Attempt A := (ends (I * B * result A string)).

(** [ok_or_else(..)?] *)
Definition need {A} (c : bool) (msg : string) (i : I) (b : B) (k : Attempt A) : Attempt A :=
  if c then k else Ended (i, b, Err msg).

Notation "'need!' c 'or' m 'at' i ',' b 'in' k" := (need c m%string i b k)
  (at level 10, c at level 100, m at level 100, i at level 9, b at level 9, k at level 200).

Definition header_pairs (i : I) (h : NanoHeaders) : list (string * string) :=
  List.filter (λ p, eng_string E i p.1 && eng_string E i p.2)
    (map (λ e : string * list string, (e.1, join ", " e.2)) (hash_iter (headers h))).

(** A global constructor, and an object made with it. *)
Definition construct {A} (i : I) (b : B) (name : string) (k : I → B → Attempt A) : Attempt A :=
  let~ ctor := eng_global_function E i b name in
  match ctor with
  | (i, b, None) => Ended (i, b, Err (name +:+ " constructor not found"))
  | (i, b, Some f) =>
      let~ made := eng_construct E i b f in
      let '(i, b, ok) := made in
      need! ok or (name +:+ " instantiation failed") at i, b in k i b
  end.

Definition build_request (i : I) (b : B) (r : NanoRequest) : Attempt JsRequest :=
  need! eng_string E i (url r) or "URL string alloc failed" at i, b in
  need! eng_string E i "method" or "method key" at i, b in
  need! eng_string E i (method r) or "method val" at i, b in
  need! eng_string E i "headers" or "headers key" at i, b in
  need! eng_string E i "Headers" or "Headers key" at i, b in
  construct i b "Headers" (λ i b,
    need! match req_body r with Some _ => eng_string E i "body" | None => true end or "body key" at i, b in
    need! match req_body r with Some d => eng_string E i (base64_encode d) | None => true end or "body val" at i, b in
    need! eng_string E i "Request" or "Request key" at i, b in
    construct i b "Request" (λ i b,
      Ended (i, b, Ok (mkJsRequest (url r) (method r) (header_pairs i (req_headers r)) (base64_encode <$> req_body r))))).

(** What is made of the value the call settled to. *)
Definition read_response (i : I) (b : B) (v : JsValue) : Attempt NanoResponse :=
  match v with
  | JsNoObject => Ended (i, b, Err "Handler response is not an object")
  | JsObj o =>
      need! eng_string E i "status" or "status key" at i, b in
      let~ r := eng_read E i b v in
      let '(i, b) := r in
      need! eng_string E i "headers" or "headers key" at i, b in
      need! match jo_headers o with Some _ => eng_string E i "__headers__" | None => true end
        or "__headers__ key" at i, b in
      need! eng_string E i "body" or "body key" at i, b in
      Ended (i, b, Ok (extract_response o))
  end.

Definition settle (i : I) (b : B) (c : CallResult) (fuel : nat) : Attempt NanoResponse :=
  match c with
  | Threw msg => Ended (i, b, Err ("JS exception: " +:+ default "unknown JS exception" msg))
  | Returned v => read_response i b v
  | Promised start polls =>
      let~ r := await_promise fuel (start + PROMISE_TIMEOUT) polls 0 in
      match r with Ok v => read_response i b v | Err e => Ended (i, b, Err e) end
  end.

(** The whole closure. *)
Definition call_handler (fuel : nat) (i : I) (b : B) (f : F) (r : NanoRequest) : Attempt NanoResponse :=
  let~ q := build_request i b r in
  match q with
  | (i, b, Err e) => Ended (i, b, Err e)
  | (i, b, Ok js_req) =>
      let~ called := eng_call E i b f js_req in
      let '(i, b, c) := called in settle i b c fuel
  end.

(** ** Finding and caching a handler *)

Definition script_text (code : string) : string :=
  if is_esm_module code then transform_module_code import_matches default_matches code else code.

(** [__nano_user_fetch], else [fetch], else the CommonJS bridge. *)
Definition find_handler (i : I) (b : B) : ends (I * B * option F) :=
  let~ own := eng_global_function E i b "__nano_user_fetch" in
  match own with
  | (i, b, Some f) => Ended (i, b, Some f)
  | (i, b, None) =>
      let~ fetch := eng_global_function E i b "fetch" in
      match fetch with
      | (i, b, Some f) => Ended (i, b, Some f)
      | (i, b, None) =>
          if eng_string E i "__nano_resolve_handler" then
            let~ found := eng_global_function E i b "__nano_resolve_handler" in
            match found with
            | (i, b, Some resolver) => eng_call_resolver E i b resolver
            | (i, b, None) => Ended (i, b, None)
            end
          else Ended (i, b, None)
      end
  end.

Definition load_handler (i : I) (b : B) (entrypoint : string) (code : string) : Attempt F :=
  let transformed := script_text code in
  if negb (eng_string E i transformed) then Ended (i, b, Err "V8 string alloc failed")
  else match eng_compile E i transformed with
  | None => Ended (i, b, Err ("Script compile failed for '" +:+ (entrypoint +:+ "'")))
  | Some script =>
      let~ r := eng_run E i b script in
      let '(i1, b1, ran) := r in
      if negb ran then Ended (i1, b1, Err ("Script execution failed for '" +:+ (entrypoint +:+ "'")))
      else if negb (eng_string E i1 "__nano_user_fetch") then Ended (i1, b1, Err "V8 OOM allocating key")
      else if negb (eng_string E i1 "fetch") then Ended (i1, b1, Err "V8 OOM allocating key")
      else
        let~ found := find_handler i1 b1 in
        let '(i2, b2, handler) := found in
        Ended (i2, b2, ok_or handler ("No fetch handler found in '" +:+ (entrypoint +:+
          "'. Export a 'fetch' function.")))
  end.

(** ** WebSocket mode *)

Inductive WsEvent :=
| WsText (s : string)
| WsBinary (b : list Z)
| WsClose (frame : option (Z * string))
| WsPing
| WsPong
| WsFrame
| WsTimeout
| WsDisconnected.

Definition oom_refuses (oom : option OomMonitor) (s : HeapStatistics) : option OomMonitor * option OomError :=
  match oom with
  | None => (None, None)
  | Some mon => let r := monitor_check mon s in
                (Some r.1, match r.2 with Ok _ => None | Err e => Some e end)
  end.

Definition all_strings (i : I) (l : list string) : bool := forallb (eng_string E i) l.

Definition dispatch_if (c : bool) (i : I) (b : B) (e : JsEvent) : ends (I * B * list JsEvent) :=
  if c then let~ r := eng_dispatch E i b e in Ended (r.1, r.2, [e]) else Ended (i, b, []).

(** A message, the heap as it is received, and whether the channel to the client takes a
    close frame then: [send] waits for room. *)
Record WsArrival := mkWsArrival { ws_event : WsEvent; ws_heap : HeapStatistics; ws_room : bool }.

(** The close frame of the memory check. *)
Definition ws_oom_break (oom : option OomMonitor) (a : WsArrival) (i : I) (b : B)
    (k : option OomMonitor → ends (option OomMonitor * I * B * list JsEvent * bool))
    : ends (option OomMonitor * I * B * list JsEvent * bool) :=
  let (oom1, refused) := oom_refuses oom (ws_heap a) in
  match refused with
  | Some _ => if ws_room a then Ended (oom1, i, b, [], true) else Busy
  | None => k oom1
  end.

(** The messages loop: the events dispatched to the handlers, and whether the connection
    is closed for want of memory.  It does not end with the messages but with one that
    ends it; until then the thread waits for the next. *)
Fixpoint ws_messages (oom : option OomMonitor) (i : I) (b : B) (events : list WsArrival)
    : ends (option OomMonitor * I * B * list JsEvent * bool) :=
  match events with
  | [] => Busy
  | a :: rest =>
      let next oom (r : I * B * list JsEvent) :=
        let~ later := ws_messages oom r.1.1 r.1.2 rest in
        let '(oom, i, b, out, closed) := later in Ended (oom, i, b, r.2 ++ out, closed) in
      let last (r : I * B * list JsEvent) := Ended (oom, r.1.1, r.1.2, r.2, false) in
      match ws_event a with
      | WsText s =>
          ws_oom_break oom a i b (λ oom,
            let~ r := dispatch_if (all_strings i ["type"; "message"; "data"; s]) i b (MessageText s) in next oom r)
      | WsBinary d =>
          ws_oom_break oom a i b (λ oom,
            let~ r := dispatch_if (all_strings i ["type"; "message"; "data"]) i b (MessageBinary d) in next oom r)
      | WsClose frame =>
          let~ s := eng_set_state E i b 3 in
          let (i, b) := (s : I * B) in
          let (code, reason) := default (1000, "") frame in
          let~ r := dispatch_if
            (all_strings i ["type"; "close"; "code"; "reason"; reason; "wasClean"]) i b (CloseEvent code reason) in last r
      | WsPing | WsPong | WsFrame => next oom (i, b, [])
      | WsTimeout => last (i, b, [])
      | WsDisconnected =>
          let~ s := eng_set_state E i b 3 in
          let (i, b) := (s : I * B) in
          let~ r := dispatch_if (all_strings i ["type"; "error"]) i b ErrorEvent in last r
      end
  end.

(** The connection: the handler is called with the URL, the socket is said to be open,
    and the messages are received. *)
Definition ws_connection (oom : option OomMonitor) (i : I) (b : B) (f : F) (url : string) (events : list WsArrival)
    : ends (option OomMonitor * I * B * list JsEvent * bool) :=
  let~ called := if eng_string E i url then eng_call_url E i b f url else Ended (i, b) in
  let~ opened := eng_set_state E called.1 called.2 1 in
  ws_messages oom opened.1 opened.2 events.

(** ** One task *)

Definition MAX_REQUESTS_PER_ISOLATE : Z := 10000.

(** An isolate's lifetime: the isolate with its context, the handlers found, the count. *)
Record Lifetime := mkLifetime {
  iso : I;
  handler_cache : gmap string F;
  served : Z;
}.

(** A task with what the system shows while it is served: the shared code cache, the
    states of its file at the three system calls, the clock, the heap, and the messages
    of its WebSocket. *)
Record Arrival := mkArrival {
  a_task : HandlerTask;
  a_request : NanoRequest;
  a_ws : option (list WsArrival);
  a_cache : CodeCache;
  a_file : string → FileState * FileState * FileState;
  a_now : Z;
}.

(** What happens to a task. *)
Inductive Outcome :=
| OutOfMemory (e : OomError)
| NotLoaded (e : string)
| WebSocket (events : list JsEvent) (closed_for_memory : bool)
| Handled (r : result NanoResponse string).

(** What is sent to the task's [response_tx]; a WebSocket's sender is dropped. *)
Definition reply (mon : option OomMonitor) (o : Outcome) : option (result NanoResponse string) :=
  match o with
  | OutOfMemory e => (λ m, Ok (create_oom_response m e)) <$> mon
  | NotLoaded e => Some (Err e)
  | WebSocket _ _ => None
  | Handled r => Some r
  end.

(** The isolate is given up after the task. *)
Definition gives_up (o : Outcome) : bool :=
  match o with OutOfMemory _ | WebSocket _ _ => true | NotLoaded _ | Handled _ => false end.

Record Served := mkServed {
  s_life : Lifetime;
  s_files : B;
  s_oom : option OomMonitor;
  s_cache : CodeCache;
  s_outcome : Outcome;
}.

Context (worker_hostname : string) (id : Z) (memory_limit : Z) (source : AppSource) (fuel : nat).

Definition isolate_name : string := worker_hostname +:+ (":" +:+ pretty id).

Definition set_ids (r : NanoResponse) : NanoResponse :=
  mkResponse (status r) (status_text r) (resp_headers r) (body r) (Some id) (Some isolate_name).

Definition task_entrypoint (t : HandlerTask) : string :=
  default (entrypoint t) (temp_entrypoint source).

(** Make sure the handler of the entrypoint is cached. *)
Definition ensure_handler (l : Lifetime) (b : B) (e : string) (a : Arrival)
    : ends (Lifetime * B * CodeCache * result F string) :=
  match handler_cache l !! e with
  | Some f => Ended (l, b, a_cache a, Ok f)
  | None =>
      let '(f1, f2, f3) := a_file a e in
      let (cache, code) := read_code_cached (a_cache a) e f1 f2 f3 (a_now a) in
      match code with
      | Err err => Ended (l, b, cache, Err err)
      | Ok c =>
          let~ loaded := load_handler (iso l) b e c in
          match loaded with
          | (i1, b1, Err err) => Ended (mkLifetime i1 (handler_cache l) (served l), b1, cache, Err err)
          | (i1, b1, Ok f) => Ended (mkLifetime i1 (<[e := f]> (handler_cache l)) (served l), b1, cache, Ok f)
          end
      end
  end.

(** What follows the memory check. *)
Definition run_task (l : Lifetime) (b : B) (oom1 : option OomMonitor) (a : Arrival) : ends Served :=
  let~ ensured := ensure_handler l b (task_entrypoint (a_task a)) a in
  let '(l1, b1, cache, handler) := ensured in
  match handler with
  | Err e => Ended (mkServed l1 b1 oom1 cache (NotLoaded e))
  | Ok f =>
      match a_ws a with
      | Some events =>
          let~ r := ws_connection oom1 (iso l1) b1 f (url (a_request a)) events in
          let '(oom2, i2, b2, out, closed) := r in
          Ended (mkServed (mkLifetime i2 (handler_cache l1) (served l1)) b2 oom2 cache (WebSocket out closed))
      | None =>
          let~ r := call_handler fuel (iso l1) b1 f (a_request a) in
          let '(i2, b2, res) := r in
          Ended (mkServed (mkLifetime i2 (handler_cache l1) (add_u32 (served l1) 1)) b2 oom1 cache
            (Handled match res with Ok r => Ok (set_ids r) | Err e => Err e end))
      end
  end.

Definition serve_task (l : Lifetime) (b : B) (oom : option OomMonitor) (a : Arrival) : ends Served :=
  let (oom1, refused) := oom_refuses oom (eng_heap E (iso l)) in
  match refused with
  | Some e => Ended (mkServed l b oom1 (a_cache a) (OutOfMemory e))
  | None => run_task l b oom1 a
  end.

(** ** The thread *)

Context (snapshot_valid : list Z → bool) (min_snapshot_size : Z) (initialized : bool).

Definition worker_ns : string := from_hostname worker_hostname.

(** The first isolate of a sliver is restored from it, with its files; any other isolate
    is fresh.  The error text is the isolate's. *)
Definition create_isolate (first : bool) (now : Z) (b : B) : outcome (B * result I string) :=
  if first then
    match source with
    | SourceEntrypoint _ => Done (b, eng_create E FreshIsolate)
    | SourceSliver data _ =>
        let! restored := restore_to_vfs now worker_ns b data in
        let! from := from_snapshot snapshot_valid min_snapshot_size initialized worker_ns (us_heap_data data) in
        Done (restored.1, match eng_create E from with
                          | Ok i => Ok i
                          | Err _ => eng_create E FreshIsolate
                          end)
    | SourceStatic _ => Done (b, Err "Static source in unified worker")
    end
  else Done (b, eng_create E FreshIsolate).

Definition start_lifetime (first : bool) (now : Z) (b : B) : outcome (B * option Lifetime) :=
  let! r := create_isolate first now b in
  Done (r.1, match r.2 with
             | Err _ => None
             | Ok i =>
                 let i := if memory_limit >? 0
                          then eng_set_heap_limits E i (memory_limit * 1024 * 1024 / 2) (memory_limit * 1024 * 1024)
                          else i in
                 Some (mkLifetime (eng_open E i) ∅ 0)
             end).

Definition worker_oom : option OomMonitor :=
  if memory_limit >? 0
  then Some (worker_monitor ("worker_" +:+ (worker_hostname +:+ ("_" +:+ pretty id))) worker_hostname memory_limit)
  else None.

Definition recycles (l : Lifetime) (o : Outcome) : bool :=
  gives_up o || (served l >=? MAX_REQUESTS_PER_ISOLATE).

(** A task with the number of isolates that were replaced before it. *)
Record Entry := mkEntry { generation : nat; e_arrival : Arrival; e_outcome : Outcome }.

(** The loops: [l] is the isolate of generation [g].  The log ends early if an isolate
    cannot be made: the thread returns and the rest of the channel is dropped.  It also
    ends with a task that ends the process or keeps the thread. *)
Fixpoint run_lifetimes (g : nat) (l : Lifetime) (b : B) (oom : option OomMonitor)
    (arrivals : list Arrival) : list Entry * ends B :=
  match arrivals with
  | [] => ([], Ended b)
  | a :: rest =>
      match serve_task l b oom a with
      | Busy => ([], Busy)
      | Aborted why => ([], Aborted why)
      | Ended s =>
          let entry := mkEntry g a (s_outcome s) in
          let '(log, ending) :=
            if recycles (s_life s) (s_outcome s) then
              match start_lifetime false (a_now a) (s_files s) with
              | Done (b, Some l) => run_lifetimes (S g) l b (s_oom s) rest
              | Done (b, None) => ([], Ended b)
              | Panicked why => ([], Aborted why)
              end
            else run_lifetimes g (s_life s) (s_files s) (s_oom s) rest in
          (entry :: log, ending)
      end
  end.

Definition worker_thread (now : Z) (b : B) (arrivals : list Arrival) : list Entry * ends B :=
  match start_lifetime true now b with
  | Done (b, Some l) => run_lifetimes 0 l b worker_oom arrivals
  | Done (b, None) => ([], Ended b)
  | Panicked why => ([], Aborted why)
  end.

(** ** When the isolate is replaced *)

Definition is_handled (o : Outcome) : bool := match o with Handled _ => true | _ => false end.

Definition handled_in (g : nat) (log : list Entry) : Z :=
  len (List.filter (λ e, Nat.eqb (generation e) g && is_handled (e_outcome e)) log).

Lemma handled_in_cons g e log :
  handled_in g (e :: log) =
    (if Nat.eqb (generation e) g && is_handled (e_outcome e) then 1 else 0) + handled_in g log.
Proof. unfold handled_in, len. simpl. case_if; simpl length; lia. Qed.

Lemma handled_in_above g g' log : Forall (λ e, (g' <= generation e)%nat) log → (g < g')%nat →
  handled_in g log = 0.
Proof.
  intros Hf Hlt. induction Hf as [|e log He Hf IH]; [done|].
  rewrite handled_in_cons, IH. by rewrite (proj2 (Nat.eqb_neq _ _)) by lia.
Qed.

Lemma ensure_handler_served l b e a r : ensure_handler l b e a = Ended r → served r.1.1.1 = served l.
Proof.
  unfold ensure_handler. destruct (handler_cache l !! e); [by intros [= <-]|].
  destruct (a_file a e) as [[f1 f2] f3]. destruct (read_code_cached _ _ _ _ _ _) as [c [code|]]; [|by intros [= <-]].
  intros ([[i1 b1] [f|]] & _ & [= <-])%ends_bind_ended; done.
Qed.

(** What a task that is served comes from. *)
Lemma run_task_cases l b oom1 a s : run_task l b oom1 a = Ended s →
  ∃ l1 b1 cache handler, ensure_handler l b (task_entrypoint (a_task a)) a = Ended (l1, b1, cache, handler) ∧
  match handler with
  | Err e => s = mkServed l1 b1 oom1 cache (NotLoaded e)
  | Ok f =>
      match a_ws a with
      | Some events => ∃ oom2 i2 b2 out closed,
          ws_connection oom1 (iso l1) b1 f (url (a_request a)) events = Ended (oom2, i2, b2, out, closed) ∧
          s = mkServed (mkLifetime i2 (handler_cache l1) (served l1)) b2 oom2 cache (WebSocket out closed)
      | None => ∃ i2 b2 res, s = mkServed (mkLifetime i2 (handler_cache l1) (add_u32 (served l1) 1)) b2 oom1 cache (Handled res)
      end
  end.
Proof.
  intros ([[[l1 b1] cache] handler] & He & Hr)%ends_bind_ended. exists l1, b1, cache, handler. split; [done|].
  destruct handler as [f|e]; [|by injection Hr as <-]. destruct (a_ws a).
  - apply ends_bind_ended in Hr as ([[[[oom2 i2] b2] out] closed] & Hw & [= <-]). by do 5 eexists.
  - apply ends_bind_ended in Hr as ([[i2 b2] res] & Hw & [= <-]). by do 3 eexists.
Qed.

Lemma serve_task_served l b oom a s : serve_task l b oom a = Ended s →
  served (s_life s) = if is_handled (s_outcome s) then add_u32 (served l) 1 else served l.
Proof.
  unfold serve_task. destruct (oom_refuses _ _) as [oom1 [e|]]; [by intros [= <-]|].
  intros (l1 & b1 & cache & handler & He & Hs)%run_task_cases. apply ensure_handler_served in He. cbn [fst] in He.
  destruct handler as [f|e]; [|by subst]. destruct (a_ws a).
  - by destruct Hs as (? & ? & ? & ? & ? & _ & ->).
  - destruct Hs as (? & ? & ? & ->). cbn. by rewrite He.
Qed.

Lemma start_lifetime_served first now b b' l :
  start_lifetime first now b = Done (b', Some l) → served l = 0.
Proof.
  unfold start_lifetime. rewrite outcome_bind_done. by intros ([b1 [i|]] & _ & [= _ <-]).
Qed.

(** Entry [i] of the log is the last of its isolate when the task gave the isolate up or
    was its 10,000th handled one, given [n] handled before in generation [g]. *)
Definition replaced_exactly (g : nat) (n : Z) (log : list Entry) : Prop :=
  ∀ i e1 e2, log !! i = Some e1 → log !! S i = Some e2 →
    let c := handled_in (generation e1) (take (S i) log) + (if Nat.eqb (generation e1) g then n else 0) in
    ((gives_up (e_outcome e1) = true ∨ c = MAX_REQUESTS_PER_ISOLATE) ∧ generation e2 = S (generation e1)) ∨
    (gives_up (e_outcome e1) = false ∧ c < MAX_REQUESTS_PER_ISOLATE ∧ generation e2 = generation e1).

(** How a task and what follows it make a log. *)
Lemma run_lifetimes_cons g l b oom a rest log ending :
  run_lifetimes g l b oom (a :: rest) = (log, ending) →
  (log = [] ∧ ((serve_task l b oom a = Busy ∧ ending = Busy) ∨
               ∃ why, serve_task l b oom a = Aborted why ∧ ending = Aborted why)) ∨
  ∃ s log', serve_task l b oom a = Ended s ∧ log = mkEntry g a (s_outcome s) :: log' ∧
    if recycles (s_life s) (s_outcome s) then
      match start_lifetime false (a_now a) (s_files s) with
      | Done (b, Some l) => run_lifetimes (S g) l b (s_oom s) rest
      | Done (b, None) => ([], Ended b)
      | Panicked why => ([], Aborted why)
      end = (log', ending)
    else run_lifetimes g (s_life s) (s_files s) (s_oom s) rest = (log', ending).
Proof.
  cbn [run_lifetimes]. destruct (serve_task l b oom a) as [s|why|] eqn:Es.
  - intros Hr. right. exists s. destruct (recycles _ _).
    + destruct (match start_lifetime _ _ _ with Done _ => _ | Panicked _ => _ end) as [log' e] eqn:El.
      injection Hr as <- <-. by exists log'.
    + destruct (run_lifetimes _ _ _ _ rest) as [log' e] eqn:El. injection Hr as <- <-. by exists log'.
  - intros [= <- <-]. left. split; [done|]. right. by exists why.
  - intros [= <- <-]. left. split; [done|]. by left.
Qed.

Lemma log_head g l b oom arrivals log ending :
  run_lifetimes g l b oom arrivals = (log, ending) → log = [] ∨ ∃ e log', log = e :: log' ∧ generation e = g.
Proof.
  destruct arrivals as [|a rest]; [intros [= <- <-]; auto|].
  intros [[-> _]|(s & log' & _ & -> & _)]%run_lifetimes_cons; [by left|right; by do 2 eexists].
Qed.

(** The rest of the log, of generation [g'] with [n'] handled, after an entry of generation
    [g] with [n] handled. *)
Lemma replaced_exactly_cons g n e g' n' log :
  generation e = g →
  (log = [] ∨ ∃ e' log', log = e' :: log' ∧ generation e' = g') →
  let n1 := n + (if is_handled (e_outcome e) then 1 else 0) in
  ((gives_up (e_outcome e) = true ∨ n1 = MAX_REQUESTS_PER_ISOLATE) ∧ g' = S g ∧ n' = 0 ∨
   gives_up (e_outcome e) = false ∧ n1 < MAX_REQUESTS_PER_ISOLATE ∧ g' = g ∧ n' = n1) →
  Forall (λ e, (g' <= generation e)%nat) log →
  replaced_exactly g' n' log → replaced_exactly g n (e :: log).
Proof.
  cbv zeta. intros Hg Hhead Hstep Hge IH [|i] e1 e2; simpl.
  - intros [= ->] H2. destruct Hhead as [->|(e' & log' & -> & Hg')]; [done|]. simpl in H2.
    injection H2 as ->. rewrite handled_in_cons, Hg, !Nat.eqb_refl. simpl.
    assert (handled_in g [] = 0) as -> by done. rewrite Hg'.
    destruct Hstep as [(? & -> & _)|(? & ? & -> & _)]; [left|right]; split_and!; auto; try lia.
    destruct H0; [by left|right; lia].
  - intros H1 H2. specialize (IH i e1 e2 H1 H2). cbv zeta in IH.
    rewrite handled_in_cons, Hg.
    pose proof (proj1 (Forall_lookup _ _) Hge i e1 H1) as Hge1. simpl in Hge1.
    destruct Hstep as [(_ & -> & ->)|(_ & _ & -> & ->)].
    + rewrite (proj2 (Nat.eqb_neq g (generation e1))), (proj2 (Nat.eqb_neq (generation e1) g)) by lia.
      rewrite andb_false_l. case_if; simpl in *; replace (0 + _ + 0) with (handled_in (generation e1) (take (S i) log)) by lia;
        rewrite Z.add_0_r in IH; done.
    + rewrite (Nat.eqb_sym g). destruct (Nat.eqb (generation e1) g); simpl in *.
      * replace (_ + handled_in _ _ + n) with (handled_in (generation e1) (take (S i) log) +
          (n + (if is_handled (e_outcome e) then 1 else 0))) by lia. done.
      * done.
Qed.

Record log_spec (g : nat) (n : Z) (arrivals : list Arrival) (log : list Entry) : Prop := {
  log_order : map e_arrival log `prefix_of` arrivals;
  log_above : Forall (λ e, (g <= generation e)%nat) log;
  log_replaced : replaced_exactly g n log;
  log_bound : ∀ g', (if Nat.eqb g' g then n else 0) + handled_in g' log <= MAX_REQUESTS_PER_ISOLATE;
}.

Lemma log_spec_nil g n arrivals : n <= MAX_REQUESTS_PER_ISOLATE → log_spec g n arrivals [].
Proof.
  intros Hn. split; [apply prefix_nil|done|by intros ?|].
  intros g'. assert (handled_in g' [] = 0) as -> by done. unfold MAX_REQUESTS_PER_ISOLATE in *.
  case_if; lia.
Qed.

Lemma run_lifetimes_spec g l b oom arrivals log ending :
  0 <= served l < MAX_REQUESTS_PER_ISOLATE →
  run_lifetimes g l b oom arrivals = (log, ending) → log_spec g (served l) arrivals log.
Proof.
  revert g l b oom log. induction arrivals as [|a rest IH]; intros g l b oom log Hl.
  { intros [= <- _]. apply log_spec_nil. lia. }
  intros [[-> _]|(s & log1 & Es & -> & Hr)]%run_lifetimes_cons; [apply log_spec_nil; lia|].
  pose proof (serve_task_served _ _ _ _ _ Es) as Hserved.
  set (o := s_outcome s) in *. set (h := if is_handled o then 1 else 0).
  assert (served (s_life s) = served l + h) as Hn.
  { rewrite Hserved. unfold h. destruct (is_handled o); [|lia]. unfold add_u32.
    rewrite as_u32_small; [done|]. unfold MAX_REQUESTS_PER_ISOLATE in Hl. zlia. }
  assert (0 <= h <= 1) as Hh by (unfold h; destruct (is_handled o); lia).
  assert (∀ g' n' log',
    ((gives_up o = true ∨ served l + h = MAX_REQUESTS_PER_ISOLATE) ∧ g' = S g ∧ n' = 0 ∨
     gives_up o = false ∧ served l + h < MAX_REQUESTS_PER_ISOLATE ∧ g' = g ∧ n' = served l + h) →
    (log' = [] ∨ ∃ e' log'', log' = e' :: log'' ∧ generation e' = g') →
    log_spec g' n' rest log' → log_spec g (served l) (a :: rest) (mkEntry g a o :: log')) as Hcons.
  { intros g' n' log' Hstep Hhead [H1 H2 H3 H4]. split.
    - by apply prefix_cons.
    - constructor; [simpl; lia|]. eapply Forall_impl; [exact H2|]. simpl. intros e He.
      destruct Hstep as [(_ & -> & _)|(_ & _ & -> & _)]; lia.
    - apply (replaced_exactly_cons g (served l) (mkEntry g a o) g' n'); auto.
    - intros g0. specialize (H4 g0). rewrite handled_in_cons. simpl. rewrite (Nat.eqb_sym g g0).
      destruct Hstep as [(Hup & -> & ->)|(_ & _ & -> & ->)].
      + destruct (Nat.eqb_spec g0 g) as [->|]; simpl; fold h.
        * rewrite (handled_in_above g (S g)) by (done || lia). fold h. lia.
        * destruct (Nat.eqb g0 (S g)); lia.
      + destruct (Nat.eqb_spec g0 g) as [Heq|Heq]; simpl; fold h; lia. }
  destruct (recycles _ _) eqn:Er.
  - assert (gives_up o = true ∨ served l + h = MAX_REQUESTS_PER_ISOLATE) as Hup.
    { unfold recycles in Er. apply orb_true_iff in Er as [?|Er]; [by left|right]. zreflect. 
      apply Z.leb_le in Er. lia. }
    destruct (start_lifetime _ _ _) as [[b1 [l'|]]|why] eqn:Hstart.
    + pose proof (start_lifetime_served _ _ _ _ _ Hstart) as H0.
      apply (Hcons (S g) 0); [by left; split_and!|exact (log_head _ _ _ _ _ _ _ Hr)|].
      pose proof (IH (S g) l' b1 (s_oom s) log1 ltac:(by rewrite H0) Hr) as Hspec.
      by rewrite H0 in Hspec.
    + injection Hr as <- _. apply (Hcons (S g) 0); [by left; split_and!|by left|]. by apply log_spec_nil.
    + injection Hr as <- _. apply (Hcons (S g) 0); [by left; split_and!|by left|]. by apply log_spec_nil.
  - unfold recycles in Er. bool_split. zreflect.
    apply (Hcons g (served l + h)); [right; split_and!; auto; lia|exact (log_head _ _ _ _ _ _ _ Hr)|].
    rewrite <- Hn. eapply IH; [|exact Hr]. lia.
Qed.

(** Making a fresh isolate never fails: then no task is dropped. *)
Lemma run_lifetimes_all g l b oom arrivals log b' i0 :
  eng_create E FreshIsolate = Ok i0 →
  run_lifetimes g l b oom arrivals = (log, Ended b') → map e_arrival log = arrivals.
Proof.
  intros Hc. revert g l b oom log. induction arrivals as [|a rest IH]; intros g l b oom log.
  { by intros [= <- _]. }
  intros [[_ [[_ [=]]|(? & _ & [=])]]|(s & log1 & Es & -> & Hr)]%run_lifetimes_cons.
  cbn. f_equal. destruct (recycles _ _); [|by eapply IH].
  unfold start_lifetime, create_isolate in Hr. cbn in Hr. rewrite Hc in Hr. by eapply IH.
Qed.

(** C4. The log of a worker thread, however it ends, lists the tasks in the order of the
    channel, and all of them when the thread returns and a fresh isolate can always be made.
    An isolate handles at most 10,000 tasks; it is replaced after exactly that many, or right
    after a task that found too much memory in use or was a WebSocket, and never otherwise:
    tasks whose code cannot be loaded do not count. *)
Theorem isolates_recycled_exactly now b arrivals log ending
    (Hrun : worker_thread now b arrivals = (log, ending)) :
  map e_arrival log `prefix_of` arrivals ∧
  (∀ i0 b', eng_create E FreshIsolate = Ok i0 → ending = Ended b' → log ≠ [] → map e_arrival log = arrivals) ∧
  (∀ g, handled_in g log <= MAX_REQUESTS_PER_ISOLATE) ∧
  ∀ i e1 e2, log !! i = Some e1 → log !! S i = Some e2 →
    let c := handled_in (generation e1) (take (S i) log) in
    ((gives_up (e_outcome e1) = true ∨ c = MAX_REQUESTS_PER_ISOLATE) ∧ generation e2 = S (generation e1)) ∨
    (gives_up (e_outcome e1) = false ∧ c < MAX_REQUESTS_PER_ISOLATE ∧ generation e2 = generation e1).
Proof.
  unfold worker_thread in Hrun. destruct (start_lifetime true now b) as [[b1 [l|]]|why] eqn:Hstart.
  2, 3: injection Hrun as <- _; split; [apply prefix_nil|]; split; [done|]; split; [done|]; by intros i e1 e2 ?.
  pose proof (start_lifetime_served _ _ _ _ _ Hstart) as H0.
  destruct (run_lifetimes_spec 0 l b1 worker_oom arrivals log ending) as [H1 H2 H3 H4]; [by rewrite H0|done|].
  rewrite H0 in H3, H4. split; [done|]. split; [intros i0 b' Hc -> _; by eapply run_lifetimes_all|].
  split; [intros g; specialize (H4 g); by destruct (Nat.eqb g 0)|].
  intros i e1 e2 He1 He2. specialize (H3 i e1 e2 He1 He2). cbv zeta in *.
  by destruct (Nat.eqb _ 0); rewrite Z.add_0_r in H3.
Qed.

(** ** Handlers outlive their files *)

Lemma ensure_handler_keeps l b e a l' b' c r : ensure_handler l b e a = Ended (l', b', c, r) →
  handler_cache l ⊆ handler_cache l' ∧ (∀ f, r = Ok f → handler_cache l' !! e = Some f).
Proof.
  unfold ensure_handler. destruct (handler_cache l !! e) as [f|] eqn:Ef.
  { intros [= <- <- <- <-]. split; [done|]. by intros ? [= <-]. }
  destruct (a_file a e) as [[f1 f2] f3]. destruct (read_code_cached _ _ _ _ _ _) as [c1 [code|]].
  2: by intros [= <- <- <- <-].
  intros ([[i1 b1] [f|]] & _ & [= <- <- <- <-])%ends_bind_ended; simpl.
  - split; [by apply insert_subseteq|]. intros ? [= ->]. by rewrite lookup_insert_eq.
  - done.
Qed.

Definition loaded (o : Outcome) : bool := match o with Handled _ | WebSocket _ _ => true | _ => false end.

(** What serving a task does to the handlers: they stay, the task's own is there once it
    was needed, and a cached handler means the code is not looked at. *)
Lemma serve_task_handlers l b oom a s : serve_task l b oom a = Ended s →
  let e := task_entrypoint (a_task a) in
  handler_cache l ⊆ handler_cache (s_life s) ∧
  (loaded (s_outcome s) = true → is_Some (handler_cache (s_life s) !! e)) ∧
  (is_Some (handler_cache l !! e) → ∀ err, s_outcome s ≠ NotLoaded err).
Proof.
  cbv zeta. unfold serve_task. destruct (oom_refuses _ _) as [oom1 [e|]]; [by intros [= <-]|].
  intros (l1 & b1 & cache & handler & He & Hs)%run_task_cases.
  destruct (ensure_handler_keeps _ _ _ _ _ _ _ _ He) as [Hsub Hf].
  destruct handler as [f|e].
  - specialize (Hf f eq_refl). destruct (a_ws a).
    + destruct Hs as (? & ? & ? & ? & ? & _ & ->). simpl. eauto.
    + destruct Hs as (? & ? & ? & ->). simpl. eauto.
  - subst. split; [done|]. split; [done|]. intros [f Hc] err _. unfold ensure_handler in He. by rewrite Hc in He.
Qed.

Lemma cached_stays g l b oom arrivals log ending e :
  run_lifetimes g l b oom arrivals = (log, ending) → is_Some (handler_cache l !! e) →
  ∀ j ej, log !! j = Some ej → generation ej = g →
    task_entrypoint (a_task (e_arrival ej)) = e → ∀ err, e_outcome ej ≠ NotLoaded err.
Proof.
  revert l b oom log. induction arrivals as [|a rest IH]; intros l b oom log.
  { by intros [= <- _]. }
  intros [[-> _]|(s & log1 & Es & -> & Hr)]%run_lifetimes_cons; [done|].
  destruct (serve_task_handlers _ _ _ _ _ Es) as (Hsub & _ & Hno). intros He [|j] ej Hj Hg.
  { injection Hj as <-. simpl. intros <-. by apply Hno. }
  cbn in Hj. destruct (recycles _ _); [|apply (IH _ _ _ _ Hr) with (j := j); [by eapply lookup_weaken_is_Some|done|done]].
  destruct (start_lifetime _ _ _) as [[b1 [l'|]]|why] eqn:Hstart; [|by injection Hr as <- _|by injection Hr as <- _].
  pose proof (start_lifetime_served _ _ _ _ _ Hstart) as H0.
  destruct (run_lifetimes_spec _ _ _ _ _ _ _ ltac:(by rewrite H0) Hr) as [_ Habove _ _].
  pose proof (proj1 (Forall_lookup _ _) Habove j ej Hj) as Hle. simpl in Hle. lia.
Qed.

Lemma loaded_stays g l b oom arrivals log ending :
  run_lifetimes g l b oom arrivals = (log, ending) →
  ∀ i j ei ej, log !! i = Some ei → log !! j = Some ej → (i < j)%nat →
    generation ej = generation ei →
    task_entrypoint (a_task (e_arrival ej)) = task_entrypoint (a_task (e_arrival ei)) →
    loaded (e_outcome ei) = true → ∀ err, e_outcome ej ≠ NotLoaded err.
Proof.
  revert g l b oom log. induction arrivals as [|a rest IH]; intros g l b oom log.
  { by intros [= <- _]. }
  intros [[-> _]|(s & log1 & Es & -> & Hr)]%run_lifetimes_cons; [done|].
  destruct (serve_task_handlers _ _ _ _ _ Es) as (_ & Hloaded & _).
  intros [|i] [|j] ei ej Hi Hj Hlt Hg; try lia; cbn in Hi, Hj; destruct (recycles _ _).
  - destruct (start_lifetime _ _ _) as [[b1 [l'|]]|why] eqn:Hstart; [|by injection Hr as <- _|by injection Hr as <- _].
    injection Hi as <-. simpl in Hg. pose proof (start_lifetime_served _ _ _ _ _ Hstart) as H0.
    destruct (run_lifetimes_spec _ _ _ _ _ _ _ ltac:(by rewrite H0) Hr) as [_ Habove _ _].
    pose proof (proj1 (Forall_lookup _ _) Habove j ej Hj) as Hle. simpl in Hle. lia.
  - injection Hi as <-. simpl in *. intros He Hl. exact (cached_stays _ _ _ _ _ _ _ _ Hr (Hloaded Hl) j ej Hj Hg He).
  - destruct (start_lifetime _ _ _) as [[b1 [l'|]]|why]; [|by injection Hr as <- _|by injection Hr as <- _].
    exact (IH _ _ _ _ _ Hr i j ei ej Hi Hj ltac:(lia) Hg).
  - exact (IH _ _ _ _ _ Hr i j ei ej Hi Hj ltac:(lia) Hg).
Qed.

(** The same arrival, with other contents of its file. *)
Definition with_file (a : Arrival) (file : string → FileState * FileState * FileState) : Arrival :=
  mkArrival (a_task a) (a_request a) (a_ws a) (a_cache a) file (a_now a).

(** In the life of an isolate, once a task has run the handler of an entrypoint, no
    later task of that entrypoint fails to load it, and what the entrypoint's file
    contains no longer matters: a changed or deleted file is served from the handler
    compiled before until the isolate is replaced. *)
Theorem handlers_outlive_code now b arrivals log ending i j ei ej
    (Hrun : worker_thread now b arrivals = (log, ending))
    (Hi : log !! i = Some ei) (Hj : log !! j = Some ej) (Hlt : (i < j)%nat)
    (Hgen : generation ej = generation ei)
    (Hentry : task_entrypoint (a_task (e_arrival ej)) = task_entrypoint (a_task (e_arrival ei)))
    (Hloaded : loaded (e_outcome ei) = true) :
  (∀ err, e_outcome ej ≠ NotLoaded err) ∧
  ∀ l files oom file, is_Some (handler_cache l !! task_entrypoint (a_task (e_arrival ej))) →
    serve_task l files oom (with_file (e_arrival ej) file) = serve_task l files oom (e_arrival ej).
Proof.
  split.
  - unfold worker_thread in Hrun.
    destruct (start_lifetime true now b) as [[b1 [l|]]|why]; [|by injection Hrun as <- _|by injection Hrun as <- _].
    by apply (loaded_stays _ _ _ _ _ _ _ Hrun i j ei ej).
  - intros l files oom file [f Hf]. unfold serve_task, run_task, ensure_handler. simpl. by rewrite Hf.
Qed.

(** ** Memory *)

(** Past the memory check, a task does not end in [OutOfMemory]. *)
Lemma run_not_oom l b oom1 a s e : run_task l b oom1 a = Ended s → s_outcome s ≠ OutOfMemory e.
Proof.
  intros (l1 & b1 & cache & handler & _ & Hs)%run_task_cases. destruct handler as [f|err]; [|by subst].
  destruct (a_ws a); [by destruct Hs as (? & ? & ? & ? & ? & _ & ->)|by destruct Hs as (? & ? & ? & ->)].
Qed.

(** A worker with a memory limit refuses a task exactly when, as the task arrives, heap
    and external memory exceed the limit: the task is answered 503 with [Retry-After: 0]
    without being run, nothing else changes, and the isolate is given up.  A worker
    without a limit never refuses. *)
Theorem oom_refusal_exact l b oom a s (Hmb : in_u32 memory_limit)
    (Hheap : readable (eng_heap E (iso l)))
    (Hoom : match oom with
            | Some m => watches memory_limit worker_hostname (limiter m) ∧ memory_limit <> 0
            | None => memory_limit = 0
            end)
    (Hs : serve_task l b oom a = Ended s) :
  ((∃ e, s_outcome s = OutOfMemory e) ↔
   memory_limit ≠ 0 ∧ over memory_limit (eng_heap E (iso l)) = true) ∧
  (∀ e, s_outcome s = OutOfMemory e →
     s_life s = l ∧ s_files s = b ∧ recycles (s_life s) (s_outcome s) = true ∧
     ∃ r, reply (s_oom s) (s_outcome s) = Some (Ok r) ∧ status r = 503 ∧
          hget (resp_headers r) "Retry-After" = Some "0").
Proof.
  unfold serve_task, oom_refuses in Hs. destruct oom as [m|].
  - destruct Hoom as [Hw Hne].
    destruct (check_oom_verdict memory_limit worker_hostname (limiter m) (eng_heap E (iso l)) Hmb Hw Hheap)
      as (Hv & _ & _).
    unfold monitor_check in Hs. rewrite Hv in Hs. unfold verdict in Hs.
    destruct (over memory_limit (eng_heap E (iso l))); simpl in Hs.
    + injection Hs as <-. simpl. split; [split; [by intros _|by eexists]|]. intros e _.
      split; [done|]. split; [done|]. split; [done|]. eexists. split; [done|]. split; [done|].
      unfold create_oom_response, with_header, with_body, hget, hset. simpl.
      rewrite lookup_insert_eq. unfold shown. by destruct (String.eqb _ _).
    + assert (∀ e, s_outcome s ≠ OutOfMemory e) as Hno by (intros e; exact (run_not_oom _ _ _ _ _ e Hs)).
      split; [split; [intros [e He]; by destruct (Hno e)|by intros [_ ?]]|]. intros e He. by destruct (Hno e).
  - simpl in Hs. assert (∀ e, s_outcome s ≠ OutOfMemory e) as Hno by (intros e; exact (run_not_oom _ _ _ _ _ e Hs)).
    split; [split; [intros [e He]; by destruct (Hno e)|by intros [? _]]|]. intros e He. by destruct (Hno e).
Qed.

(** ** Promises *)

(** What the loop makes of the first poll that ends it. *)
Definition polled (deadline : Z) (poll : ends (PromiseState * Z)) (r : ends (result JsValue string)) : Prop :=
  match poll with
  | Ended (Fulfilled v, _) => r = Ended (Ok v)
  | Ended (Rejected msg, _) => r = Ended (Err ("Promise rejected: " +:+ msg))
  | Ended (Pending, now) => deadline < now ∧ r = Ended (Err "Async handler timed out after 30s")
  | Aborted why => r = Aborted why
  | Busy => r = Busy
  end.

Definition still_pending (deadline : Z) (poll : ends (PromiseState * Z)) : Prop :=
  ∃ now, poll = Ended (Pending, now) ∧ now <= deadline.

Lemma await_promise_spec deadline polls start :
  (∀ n p, polls n = Ended p → p.2 >= start + Z.of_nat n * POLL_SLEEP) →
  start <= deadline →
  ∀ k n, deadline < start + (Z.of_nat n + Z.of_nat k) * POLL_SLEEP - POLL_SLEEP →
  (∀ j, (j < n)%nat → still_pending deadline (polls j)) →
  ∃ m, (∀ j, (j < m)%nat → still_pending deadline (polls j)) ∧ polled deadline (polls m) (await_promise k deadline polls n).
Proof.
  intros Hclock Hstart. induction k as [|k IH]; intros n Hfuel Hbefore; cbn [await_promise].
  { exfalso. unfold POLL_SLEEP in *. destruct n as [|n]; [simpl in *; lia|].
    destruct (Hbefore n ltac:(lia)) as (now & Hp & Hle). pose proof (Hclock n _ Hp) as Hn. cbn in Hn. lia. }
  destruct (polls n) as [[[v|msg|] now]|why|] eqn:Ep; [exists n; by rewrite Ep|exists n; by rewrite Ep| |exists n; by rewrite Ep|exists n; by rewrite Ep].
  cbn [ends_bind]. rewrite Z.gtb_ltb. destruct (Z.ltb_spec deadline now) as [Hgt|Hle].
  - exists n. by rewrite Ep.
  - apply IH; [lia|]. intros j Hj. destruct (decide (j = n)) as [->|]; [|apply Hbefore; lia]. by exists now.
Qed.

(** The fuel that is enough: one poll a millisecond for 30 seconds, and two more. *)
Definition promise_fuel : nat := Z.to_nat (PROMISE_TIMEOUT / POLL_SLEEP) + 2.

Lemma await_promise_enough k start polls (Hk : (promise_fuel <= k)%nat)
    (Hclock : ∀ n p, polls n = Ended p → p.2 >= start + Z.of_nat n * POLL_SLEEP) :
  ∃ m, (∀ j, (j < m)%nat → still_pending (start + PROMISE_TIMEOUT) (polls j)) ∧
    polled (start + PROMISE_TIMEOUT) (polls m) (await_promise k (start + PROMISE_TIMEOUT) polls 0).
Proof.
  apply await_promise_spec with (start := start); [done|unfold PROMISE_TIMEOUT; lia| |intros j Hj; lia].
  revert Hk. unfold promise_fuel. change (PROMISE_TIMEOUT / POLL_SLEEP) with 30000. unfold PROMISE_TIMEOUT, POLL_SLEEP. lia.
Qed.

(** The promise loop ends: with a clock that advances by at least the sleep of one
    millisecond from poll to poll, at most 30,001 polls return with the promise pending.  The
    loop gives the promise's value or rejection at the first poll that finds one, the timeout
    error exactly when a poll still finds it pending more than 30 seconds after the start, and
    does not return only if a poll does not. *)
Theorem promise_loop_ends start polls
    (Hclock : ∀ n p, polls n = Ended p → p.2 >= start + Z.of_nat n * POLL_SLEEP) :
  ∃ m, Z.of_nat m <= 30001 ∧
    (∀ k, (k < m)%nat → still_pending (start + PROMISE_TIMEOUT) (polls k)) ∧
    polled (start + PROMISE_TIMEOUT) (polls m) (await_promise promise_fuel (start + PROMISE_TIMEOUT) polls 0).
Proof.
  destruct (await_promise_enough promise_fuel start polls (le_n _) Hclock) as (m & Hbefore & Hm).
  exists m. split; [|done]. destruct (decide (Z.of_nat m <= 30001)) as [|Hgt]; [done|exfalso].
  destruct (Hbefore (pred m) ltac:(lia)) as (now & Hp & Hle). pose proof (Hclock _ _ Hp) as Hn. cbn in Hn.
  unfold PROMISE_TIMEOUT, POLL_SLEEP in *. lia.
Qed.

(** ** The end of a thread *)

(** An engine whose clock advances by at least the sleep from poll to poll. *)
Definition clock_advances : Prop := ∀ i b f r i' b' start polls,
  eng_call E i b f r = Ended (i', b', Promised start polls) →
  ∀ n p, polls n = Ended p → p.2 >= start + Z.of_nat n * POLL_SLEEP.

(** The calls that run code of the program. *)
Inductive into_program : ∀ {A}, ends A → Prop :=
| script_runs i b sc : into_program (eng_run E i b sc)
| global_read i b name : into_program (eng_global_function E i b name)
| resolver_runs i b f : into_program (eng_call_resolver E i b f)
| constructor_runs i b f : into_program (eng_construct E i b f)
| handler_runs i b f r : into_program (eng_call E i b f r)
| callbacks_run i b f r i' b' start polls n :
    eng_call E i b f r = Ended (i', b', Promised start polls) → into_program (polls n)
| response_read i b v : into_program (eng_read E i b v)
| opener_runs i b f u : into_program (eng_call_url E i b f u)
| state_set i b n : into_program (eng_set_state E i b n)
| listeners_run i b e : into_program (eng_dispatch E i b e).

(** Only code of the program, or [P], keeps a computation from returning. *)
Definition owed (P : Prop) {A} (x : ends A) : Prop :=
  match x with
  | Ended _ => True
  | Aborted why => ∃ C, into_program (@Aborted C why)
  | Busy => P ∨ ∃ C, into_program (@Busy C)
  end.

Lemma owed_call P {A} (x : ends A) : into_program x → owed P x.
Proof. destruct x as [a|why|]; [done|by exists A|right; by exists A]. Qed.

Lemma owed_bind P {A A'} (x : ends A) (f : A → ends A') :
  owed P x → (∀ a, x = Ended a → owed P (f a)) → owed P (ends_bind x f).
Proof. destruct x as [a|why|]; [|done..]. intros _ Hf. by apply Hf. Qed.

Lemma owed_need P {A} c m i b (k : Attempt A) : owed P k → owed P (need c m i b k).
Proof. unfold need. by destruct c. Qed.

#[local] Hint Resolve owed_call owed_need : owed.
#[local] Hint Constructors into_program : owed.

#[local] Ltac owed_step := first [apply owed_bind; [by eauto with owed|intros ? ?] | apply owed_need | done].

Lemma construct_owed P {A} i b name (k : I → B → Attempt A) : (∀ i b, owed P (k i b)) → owed P (construct i b name k).
Proof.
  intros Hk. unfold construct. owed_step. destruct a as [[i1 b1] [f|]]; [|done]. owed_step. destruct a as [[i2 b2] ok].
  by apply owed_need.
Qed.

Lemma build_request_owed P i b r : owed P (build_request i b r).
Proof.
  unfold build_request. do 5 apply owed_need. apply construct_owed. intros i1 b1. do 3 apply owed_need.
  apply construct_owed. by intros i2 b2.
Qed.

Lemma read_response_owed P i b v : owed P (read_response i b v).
Proof. unfold read_response. destruct v as [o|]; [|done]. apply owed_need. owed_step. destruct a as [i1 b1]. by repeat apply owed_need. Qed.

Lemma call_handler_owed P i b f r (Hfuel : (promise_fuel <= fuel)%nat) (Hclock : clock_advances) :
  owed P (call_handler fuel i b f r).
Proof.
  unfold call_handler. apply owed_bind; [apply build_request_owed|]. intros [[i1 b1] [q|e]] _; [|done].
  owed_step. destruct a as [[i2 b2] [msg|v|start polls]]; cbn [settle]; [done|apply read_response_owed|].
  match goal with H : eng_call _ _ _ _ _ = _ |- _ => rename H into Hcall end.
  apply owed_bind; [|intros [v|e] _; [apply read_response_owed|done]].
  destruct (await_promise_enough fuel start polls Hfuel (Hclock _ _ _ _ _ _ _ _ Hcall)) as (m & _ & Hm).
  pose proof (callbacks_run _ _ _ _ _ _ _ _ m Hcall) as Hin. unfold polled in Hm.
  destruct (polls m) as [[[v|msg|] now]|why|]; [by rewrite Hm..|by destruct Hm as [_ ->]| |]; rewrite Hm; exact (owed_call P _ Hin).
Qed.

Lemma load_handler_owed P i b e code : owed P (load_handler i b e code).
Proof.
  unfold load_handler. destruct (negb _); [done|]. destruct (eng_compile E i _); [|done]. owed_step.
  destruct a as [[i1 b1] ran]. destruct (negb ran); [done|]. destruct (negb _); [done|]. destruct (negb _); [done|].
  apply owed_bind; [|by intros [[i2 b2] h] _]. unfold find_handler. owed_step. destruct a as [[i2 b2] [f|]]; [done|].
  owed_step. destruct a as [[i3 b3] [f|]]; [done|]. destruct (eng_string E i3 _); [|done]. owed_step.
  destruct a as [[i4 b4] [f|]]; [eauto with owed|done].
Qed.

Lemma ensure_handler_owed P l b e a : owed P (ensure_handler l b e a).
Proof.
  unfold ensure_handler. destruct (handler_cache l !! e); [done|]. destruct (a_file a e) as [[f1 f2] f3].
  destruct (read_code_cached _ _ _ _ _ _) as [c [code|]]; [|done].
  apply owed_bind; [apply load_handler_owed|]. by intros [[i1 b1] [f|]] _.
Qed.

(** A client that keeps its connection open, or does not take the close frame. *)
Definition keeps_open (a : WsArrival) : bool :=
  match ws_event a with WsClose _ | WsTimeout | WsDisconnected => false | _ => true end.

Definition client_stays (a : Arrival) : Prop :=
  ∃ events, a_ws a = Some events ∧ (forallb keeps_open events = true ∨ existsb (λ e, negb (ws_room e)) events = true).

Lemma dispatch_owed P c i b e : owed P (dispatch_if c i b e).
Proof. unfold dispatch_if. destruct c; [|done]. by owed_step. Qed.

Lemma ws_messages_owed events : ∀ oom i b,
  owed (forallb keeps_open events = true ∨ existsb (λ e, negb (ws_room e)) events = true) (ws_messages oom i b events).
Proof.
  induction events as [|[ev heap room] rest IH]; intros oom i b; [left; by left|]. cbn [ws_messages ws_event ws_heap ws_room].
  set (P := _ ∨ _). assert (Hrest : ∀ oom i b, keeps_open (mkWsArrival ev heap room) = true → owed P (ws_messages oom i b rest)).
  { intros oom1 i1 b1 Hk. specialize (IH oom1 i1 b1). destruct (ws_messages oom1 i1 b1 rest); [done..|].
    destruct IH as [[Hl|Hl]|]; [left; left|left; right|by right]; cbn [forallb existsb]; by rewrite ?Hk, Hl, ?orb_true_r. }
  assert (Hnext : ∀ oom r, keeps_open (mkWsArrival ev heap room) = true → owed P
    (let~ later := ws_messages oom r.1.1 r.1.2 rest in
     let '(oom, i, b, out, closed) := later in Ended (oom, i, b, (r.2 : list JsEvent) ++ out, closed))).
  { intros oom1 r Hk. apply owed_bind; [by apply Hrest|]. by intros [[[[? ?] ?] ?] ?] _. }
  assert (Hoom : ∀ k, (∀ oom, owed P (k oom)) → owed P (ws_oom_break oom (mkWsArrival ev heap room) i b k)).
  { intros k Hk. unfold ws_oom_break. cbn [ws_heap ws_room]. destruct (oom_refuses oom heap) as [oom1 [e|]]; [|done].
    destruct room eqn:Er; [done|]. left. right. cbn [existsb ws_room]. by rewrite orb_true_l. }
  destruct ev as [t|d|f| | | | |].
  - apply Hoom. intros oom1. apply owed_bind; [apply dispatch_owed|]. intros r _. by apply Hnext.
  - apply Hoom. intros oom1. apply owed_bind; [apply dispatch_owed|]. intros r _. by apply Hnext.
  - owed_step. destruct a as [i1 b1]. destruct (default _ f) as [c r]. by apply owed_bind; [apply dispatch_owed|].
  - by apply (Hnext oom (i, b, [])).
  - by apply (Hnext oom (i, b, [])).
  - by apply (Hnext oom (i, b, [])).
  - done.
  - owed_step. destruct a as [i1 b1]. by apply owed_bind; [apply dispatch_owed|].
Qed.

Lemma serve_task_owed l b oom a (Hfuel : (promise_fuel <= fuel)%nat) (Hclock : clock_advances) :
  owed (client_stays a) (serve_task l b oom a).
Proof.
  unfold serve_task, run_task. destruct (oom_refuses _ _) as [oom1 [e|]]; [done|].
  apply owed_bind; [apply ensure_handler_owed|]. intros [[[l1 b1] cache] [f|e]] _; [|done].
  destruct (a_ws a) as [events|] eqn:Ew.
  - apply owed_bind; [|by intros [[[[? ?] ?] ?] ?] _]. unfold ws_connection.
    apply owed_bind; [destruct (eng_string E _ _); [eauto with owed|done]|]. intros called _. owed_step.
    pose proof (ws_messages_owed events oom1 a0.1 a0.2) as Hw. destruct (ws_messages _ _ _ events); [done..|].
    destruct Hw as [Hw|]; [left; by exists events|by right].
  - apply owed_bind; [by apply call_handler_owed|]. by intros [[i2 b2] res] _.
Qed.

(** Why a thread has stopped serving: [n] tasks were served. *)
Definition stopped (arrivals : list Arrival) (log : list Entry) (ending : ends B) : Prop :=
  match ending with
  | Ended _ => map e_arrival log = arrivals ∨ ∃ e, eng_create E FreshIsolate = Err e
  | Aborted why => ∃ C, into_program (@Aborted C why)
  | Busy => (∃ C, into_program (@Busy C)) ∨ ∃ a, arrivals !! length log = Some a ∧ client_stays a
  end.

Lemma run_lifetimes_stopped arrivals (Hfuel : (promise_fuel <= fuel)%nat) (Hclock : clock_advances) :
  ∀ g l b oom log ending, run_lifetimes g l b oom arrivals = (log, ending) → stopped arrivals log ending.
Proof.
  induction arrivals as [|a rest IH]; intros g l b oom log ending; [intros [= <- <-]; by left|].
  pose proof (serve_task_owed l b oom a Hfuel Hclock) as Ho.
  intros [[-> [[Es ->]|(why & Es & ->)]]|(s & log1 & Es & -> & Hr)]%run_lifetimes_cons; rewrite Es in Ho.
  - destruct Ho as [Hc|Hp]; [right; by exists a|by left].
  - exact Ho.
  - assert (Hrest : stopped rest log1 ending ∨ ∃ b0 e, ending = Ended b0 ∧ eng_create E FreshIsolate = Err e).
    { destruct (recycles _ _); [|left; by eapply IH].
      unfold start_lifetime, create_isolate in Hr. cbn in Hr. destruct (eng_create E FreshIsolate) as [i0|e] eqn:Ec; [left; by eapply IH|].
      right. exists (s_files s), e. by injection Hr as _ <-. }
    destruct Hrest as [Hs|(b0 & e & -> & Hc)]; [|right; by exists e].
    destruct ending as [b0|why|]; [destruct Hs as [<-|?]; [by left|by right]|done|].
    destruct Hs as [?|(a0 & Ha & ?)]; [by left|right; by exists a0].
Qed.


(** ** Responses *)

Definition shows (name : string) (p : string * option string) : option string :=
  if hidden_header p.1 then None else if String.eqb (to_lowercase p.1) (to_lowercase name) then p.2 else None.

Lemma copy_headers_get name props r :
  hget (resp_headers (foldl copy_header r props)) name =
    match last (omap (shows name) props) with
    | Some v => Some v
    | None => hget (resp_headers r) name
    end.
Proof.
  revert r. induction props as [|[k v] props IH]; intros r; [done|]. cbn [foldl]. rewrite IH.
  assert (omap (shows name) ((k, v) :: props) =
    match shows name (k, v) with Some x => x :: omap (shows name) props | None => omap (shows name) props end)
    as -> by reflexivity.
  unfold shows at 2, copy_header. cbn [fst snd].
  destruct (hidden_header k); [done|]. destruct v as [v|]; [|by destruct (String.eqb _ _)].
  unfold with_header, hset. cbn [resp_headers]. unfold hget at 1. cbn [headers].
  destruct (String.eqb_spec (to_lowercase k) (to_lowercase name)) as [Heq|Hne].
  - rewrite Heq, lookup_insert_eq, last_cons. destruct (last _); [done|].
    unfold shown. by destruct (String.eqb _ _).
  - by rewrite lookup_insert_ne by done.
Qed.

Lemma extract_response_spec o name :
  let r := extract_response o in
  let props := match jo_headers o with
               | Some (Some p, _) => default [] p
               | Some (None, p) => default [] p
               | None => []
               end in
  status r = match jo_status o with Some i => i mod 65536 | None => 200 end ∧
  0 <= status r < 65536 ∧ body r = jo_body o ∧
  hget (resp_headers r) name = last (omap (shows name) props).
Proof.
  cbv zeta. unfold extract_response.
  set (st := match jo_status o with Some i => i mod 65536 | None => 200 end).
  assert (∀ r props, status (foldl copy_header r props) = status r ∧ body (foldl copy_header r props) = body r) as Hkeep.
  { intros r props. revert r. induction props as [|[k v] props IH]; intros r; [done|]. simpl.
    destruct (IH (copy_header r (k, v))) as [-> ->]. unfold copy_header.
    by destruct (hidden_header _), v. }
  assert (0 <= st < 65536) as Hst.
  { unfold st. destruct (jo_status o); [apply Z.mod_pos_bound; lia|lia]. }
  set (r0 := match jo_headers o with Some _ => _ | None => _ end).
  assert (status r0 = st ∧ body r0 = None ∧ hget (resp_headers r0) name = last (omap (shows name)
    match jo_headers o with
    | Some (Some p, _) => default [] p
    | Some (None, p) => default [] p
    | None => []
    end)) as (H1 & H2 & H3).
  { unfold r0. destruct (jo_headers o) as [[[[p|]|] [q|]]|]; simpl; rewrite ?copy_headers_get;
      try (destruct (Hkeep (with_status st) p) as [-> ->]);
      try (destruct (Hkeep (with_status st) q) as [-> ->]);
      (split; [done|]); (split; [done|]); try done; by destruct (last _). }
  destruct (jo_body o); simpl; rewrite ?H1, ?H2, ?H3; auto.
Qed.

(** What becomes of a response object: the status is the integer modulo 2^16 (200 if
    there is none), the body its text; a header has the value of the last property of
    that name, in any case, that is readable and not one of the object's own helpers;
    [__headers__] is used instead of the object when it is there. *)
Theorem response_exact o name :
  let r := extract_response o in
  let props := match jo_headers o with
               | Some (Some p, _) => default [] p
               | Some (None, p) => default [] p
               | None => []
               end in
  status r = match jo_status o with Some i => i mod 65536 | None => 200 end ∧
  0 <= status r < 65536 ∧ body r = jo_body o ∧
  hget (resp_headers r) name = last (omap (shows name) props).
Proof. apply extract_response_spec. Qed.

(** ** The server's workers *)

Lemma ws_messages_none events : ∀ i b r, ws_messages None i b events = Ended r → r.1.1.1.1 = None.
Proof.
  assert (Hnext : ∀ (r : I * B * list JsEvent) rest z, (∀ i b r, ws_messages None i b rest = Ended r → r.1.1.1.1 = None) →
    (let~ later := ws_messages None r.1.1 r.1.2 rest in
     let '(oom, i, b, out, closed) := later in Ended (oom, i, b, r.2 ++ out, closed)) = Ended z → z.1.1.1.1 = None).
  { intros r rest z IH ([[[[oom2 i2] b2] out] closed] & Hr & [= <-])%ends_bind_ended. by apply IH in Hr. }
  induction events as [|[ev heap room] rest IH]; intros i b r; [done|]. cbn [ws_messages ws_event].
  destruct ev as [t|d|f| | | | |].
  - intros (r1 & _ & Hr)%ends_bind_ended. by eapply Hnext.
  - intros (r1 & _ & Hr)%ends_bind_ended. by eapply Hnext.
  - intros ([i1 b1] & _ & Hr)%ends_bind_ended. destruct (default _ f) as [c t].
    by apply ends_bind_ended in Hr as (r1 & _ & [= <-]).
  - intros Hr. by eapply (Hnext (i, b, [])).
  - intros Hr. by eapply (Hnext (i, b, [])).
  - intros Hr. by eapply (Hnext (i, b, [])).
  - by intros [= <-].
  - intros ([i1 b1] & _ & Hr)%ends_bind_ended. by apply ends_bind_ended in Hr as (r1 & _ & [= <-]).
Qed.

Lemma serve_task_unlimited l b a s : serve_task l b None a = Ended s →
  s_oom s = None ∧ ∀ e, s_outcome s ≠ OutOfMemory e.
Proof.
  unfold serve_task. simpl. intros Hs. split; [|intros e; exact (run_not_oom _ _ _ _ _ e Hs)].
  apply run_task_cases in Hs as (l1 & b1 & cache & handler & _ & Hs). destruct handler as [f|err]; [|by subst].
  destruct (a_ws a) as [events|]; [|by destruct Hs as (? & ? & ? & ->)].
  destruct Hs as (oom2 & i2 & b2 & out & closed & Hw & ->). unfold ws_connection in Hw.
  apply ends_bind_ended in Hw as (called & _ & Hw). apply ends_bind_ended in Hw as (opened & _ & Hw).
  by apply ws_messages_none in Hw.
Qed.

Lemma run_unlimited g l b arrivals log ending : run_lifetimes g l b None arrivals = (log, ending) →
  Forall (λ en, ∀ e, e_outcome en ≠ OutOfMemory e) log.
Proof.
  revert g l b log. induction arrivals as [|a rest IH]; intros g l b log; [by intros [= <- _]|].
  intros [[-> _]|(s & log1 & Es & -> & Hr)]%run_lifetimes_cons; [done|].
  destruct (serve_task_unlimited _ _ _ _ Es) as [Hnone Hno]. rewrite Hnone in Hr. constructor; [done|].
  destruct (recycles _ _); [|by eapply IH]. destruct (start_lifetime _ _ _) as [[b1 [l'|]]|why]; [by eapply IH|by injection Hr as <- _|by injection Hr as <- _].
Qed.
End worker.
(** The thread of a worker of [EntrypointWorkerPool::with_backend], the pools the server
    makes: no memory limit. *)
Definition server_worker {LC : Lowercase} {HO : HashOrder (list string)} {B} `{VfsBackend B} {I F Sc : Type}
    (E : Engine (B := B) (I := I) (F := F) (Sc := Sc)) (base64_encode : string → string)
    (default_matches : string → list (string * string) * string)
    (import_matches : string → list (string * (string → option string)) * string)
    (hostname : string) (id : Z) (now : Z) (b : B) (arrivals : list Arrival)
    : list Entry * ends B :=
  worker_thread E base64_encode default_matches import_matches hostname id 0
    (SourceEntrypoint "index.js") promise_fuel (λ _, false) 0 true now b arrivals.

(** No task of the server's workers is ever refused for memory, however much its
    isolate uses and whatever limit the task carries: the pools are made without a
    limit, so the limit configured for an application is never enforced. *)
Theorem server_memory_unlimited {LC : Lowercase} {HO : HashOrder (list string)} {B} `{VfsBackend B}
    {I F Sc : Type} (E : Engine (B := B) (I := I) (F := F) (Sc := Sc)) base64_encode default_matches import_matches
    hostname id now b arrivals log ending
    (Hrun : server_worker E base64_encode default_matches import_matches hostname id now b arrivals = (log, ending)) :
  Forall (λ en, ∀ e, e_outcome en ≠ OutOfMemory e) log.
Proof.
  unfold server_worker, worker_thread in Hrun.
  destruct (start_lifetime _ _ _ _ _ _ _) as [[b1 [l|]]|why]; [by eapply run_unlimited|by injection Hrun as <- _|by injection Hrun as <- _].
Qed.

(** ** A concrete worker *)

#[local] Instance demo_lower : Lowercase := ascii_Lowercase.
#[local] Instance demo_order : HashOrder (list string) := plain_order.

(** An isolate is the number of bytes of its heap; each call of the handler takes 600 kB
    more, and has the result given.  A script defines [fetch] when it is not empty; a
    listener that is dispatched a text [spin] does not return. *)
Definition demo_engine_with (result : JsRequest → CallResult) : @Engine MemoryBackend Z string string :=
  mkEngine (λ _, Ok 1000) (λ i _ _, i) (λ i, i) (λ i, mkHeap i i 0 0 1 0) (λ _ _, true)
    (λ _ code, if is_empty code then None else Some code)
    (λ i b _, Ended (i, b, true))
    (λ i b name, Ended (i, b, if String.eqb name "__nano_user_fetch" then None else Some name))
    (λ i b _, Ended (i, b, None)) (λ i b _, Ended (i, b, true))
    (λ i b _ r, Ended (i + 600000, b, result r)) (λ i b _, Ended (i, b))
    (λ i b _ _, Ended (i, b)) (λ i b _, Ended (i, b))
    (λ i b e, match e with MessageText "spin" => Busy | _ => Ended (i, b) end).

Definition demo_engine : @Engine MemoryBackend Z string string :=
  demo_engine_with (λ r, Returned (JsObj (mkJsObject (Some 200) None (Some (jr_url r))))).

Definition demo_arrival (rid url : string) (text : result string string) (ws : option (list WsArrival)) : Arrival :=
  let f := mkFile text (Some 1) in
  mkArrival (mkTask "/app/index.js" "GET" None 0 "a.com" 0 50 rid 1)
    (mkRequest "GET" url "/" headers_new None) ws None (λ _, (f, f, f)) 0.

Definition demo_arrivals : list Arrival :=
  [demo_arrival "r1" "http://a.com/1" (Ok "function fetch() {}") None;
   demo_arrival "r2" "http://a.com/2" (Err "deleted") None;
   demo_arrival "r3" "http://a.com/3" (Ok "function fetch() {}") None;
   demo_arrival "r4" "http://a.com/4" (Err "deleted") None].

Definition demo_thread (E : @Engine MemoryBackend Z string string) (fuel : nat) (arrivals : list Arrival)
    : list Entry * ends MemoryBackend :=
  worker_thread E (λ s, s) (λ s, ([], s)) (λ s, ([], s)) "a.com" 0 1
    (SourceEntrypoint "/app/index.js") fuel (λ _, false) 0 true 0 (with_limits test_limits) arrivals.

Definition demo_log : list Entry := (demo_thread demo_engine 1 demo_arrivals).1.
Definition demo_end : ends MemoryBackend := (demo_thread demo_engine 1 demo_arrivals).2.

Lemma demo_run : demo_thread demo_engine 1 demo_arrivals = (demo_log, demo_end).
Proof. apply surjective_pairing. Qed.

(** Two tasks are handled, the second without its file; the third finds too much memory
    in use; the fourth meets a new isolate and no file. *)
Lemma demo_log_outcomes :
  map (λ e, (generation e, is_handled (e_outcome e), gives_up (e_outcome e))) demo_log =
    [(0%nat, true, false); (0%nat, true, false); (0%nat, false, true); (1%nat, false, false)] ∧
  is_Some (match demo_end with Ended b => Some b | _ => None end).
Proof. split; [vm_compute; reflexivity|]. vm_compute. by eexists. Qed.

Lemma isolates_recycled_exactly_witness :
  map e_arrival demo_log = demo_arrivals ∧ handled_in 0 demo_log <= MAX_REQUESTS_PER_ISOLATE.
Proof.
  destruct (isolates_recycled_exactly _ _ _ _ _ _ _ _ _ _ _ _ _ _ _ _ _ demo_run) as (_ & Hall & Hbound & _).
  split; [|apply Hbound]. destruct demo_log_outcomes as [Ho [b Hb]].
  apply (Hall 1000 b); [reflexivity|by destruct demo_end; [injection Hb as ->|..]|].
  intros Hnil. rewrite Hnil in Ho. discriminate Ho.
Defined.

Lemma demo_log_arrivals : map e_arrival demo_log = demo_arrivals.
Proof. vm_compute. reflexivity. Qed.

Lemma handlers_outlive_code_witness :
  ∃ e0 e1, demo_log !! 0%nat = Some e0 ∧ demo_log !! 1%nat = Some e1 ∧
    e_arrival e1 = demo_arrival "r2" "http://a.com/2" (Err "deleted") None ∧
    ∀ err, e_outcome e1 ≠ NotLoaded err.
Proof.
  pose proof demo_run as Hb. pose proof (proj1 demo_log_outcomes) as Ho. pose proof demo_log_arrivals as Ha.
  destruct demo_log as [|e0 [|e1 log]]; [discriminate Ho|discriminate Ho|].
  injection Ho as Hg0 Hh0 _ Hg1 Hh1 _ _. injection Ha as Ha0 Ha1 _.
  exists e0, e1. split; [reflexivity|]. split; [reflexivity|]. split; [exact Ha1|].
  refine (proj1 (handlers_outlive_code _ _ _ _ _ _ _ _ _ _ _ _ _ _ _ _ _ 0 1 e0 e1 Hb eq_refl eq_refl
    ltac:(lia) ltac:(congruence) ltac:(rewrite Ha0, Ha1; reflexivity) _)).
  destruct (e_outcome e0); [discriminate Hh0|discriminate Hh0|discriminate Hh0|reflexivity].
Defined.

Lemma oom_refusal_exact_witness :
  ∃ s, serve_task demo_engine (λ s, s) (λ s, ([], s)) (λ s, ([], s)) "a.com" 0
         (SourceEntrypoint "/app/index.js") 1 (mkLifetime 1200000 ∅ 2) (with_limits test_limits)
         (Some (worker_monitor "worker_a.com_0" "a.com" 1))
         (demo_arrival "r3" "http://a.com/3" (Ok "function fetch() {}") None) = Ended s ∧
    ∃ e, s_outcome s = OutOfMemory e.
Proof.
  destruct (serve_task _ _ _ _ _ _ _ _ _ _ _ _) as [s|why|] eqn:Es; [|vm_compute in Es; discriminate Es..].
  exists s. split; [reflexivity|].
  refine (proj2 (proj1 (oom_refusal_exact demo_engine (λ s, s) (λ s, ([], s)) (λ s, ([], s)) "a.com" 0 1
    (SourceEntrypoint "/app/index.js") 1 _ _ _ _ s _ _ _ Es)) _).
  - split; vm_compute; congruence.
  - repeat split; vm_compute; congruence.
  - repeat split; vm_compute; congruence.
  - split; [discriminate|vm_compute; reflexivity].
Defined.

Definition demo_polls (n : nat) : ends (PromiseState * Z) :=
  Ended (match n with 2%nat => Fulfilled JsNoObject | _ => Pending end, Z.of_nat n * POLL_SLEEP).

Lemma demo_polls_clock n p : demo_polls n = Ended p → p.2 >= 0 + Z.of_nat n * POLL_SLEEP.
Proof. intros [= <-]. simpl. lia. Qed.

Lemma promise_loop_ends_witness :
  ∃ m, Z.of_nat m <= 30001 ∧
    polled (0 + PROMISE_TIMEOUT) (demo_polls m) (await_promise promise_fuel (0 + PROMISE_TIMEOUT) demo_polls 0).
Proof.
  destruct (promise_loop_ends 0 demo_polls demo_polls_clock) as (m & Hm & _ & Hp). exists m. split; [exact Hm|exact Hp].
Defined.

(** A worker whose handler returns a promise, found settled at the third poll, and one of
    whose clients is sent a message that its listener never returns from. *)
Definition demo_async_engine : @Engine MemoryBackend Z string string := demo_engine_with (λ _, Promised 0 demo_polls).

Definition demo_connection (t : string) : Arrival :=
  demo_arrival "w1" "http://a.com/ws" (Ok "function fetch() {}")
    (Some [mkWsArrival WsPing (mkHeap 0 0 0 0 1 0) true; mkWsArrival (WsText t) (mkHeap 0 0 0 0 1 0) true;
           mkWsArrival WsTimeout (mkHeap 0 0 0 0 1 0) true]).

Lemma demo_async_clock : clock_advances demo_async_engine.
Proof. intros i b f r i' b' start polls Hc n p. injection Hc as _ _ <- <-. apply demo_polls_clock. Qed.


(** The same tasks on a worker of the server: all are handled by one isolate, past
    1 MB of heap. *)
Lemma server_memory_unlimited_witness :
  ∃ log b, server_worker demo_engine (λ s, s) (λ s, ([], s)) (λ s, ([], s)) "a.com" 0 0
      (with_limits test_limits) demo_arrivals = (log, Ended b) ∧
    Forall (λ en, ∀ e, e_outcome en ≠ OutOfMemory e) log ∧
    map (λ e, (generation e, is_handled (e_outcome e))) log = replicate 4 (0%nat, true).
Proof.
  destruct (server_worker _ _ _ _ _ _ _ _ _) as [log [b|why|]] eqn:E; [|vm_compute in E; discriminate E..].
  exists log, b. split; [reflexivity|]. split; [exact (server_memory_unlimited _ _ _ _ _ _ _ _ _ _ _ E)|].
  vm_compute in E. injection E as <- _. reflexivity.
Defined.
