(* ===== verification/Metrics.v ===== *)
(** * [src/metrics/types.rs], [src/metrics/collector.rs]: the metrics registry

    Counters and gauges are 64-bit atomics, so they wrap.  A labelled metric is a
    map behind a lock with a fast path (read lock, the cell exists) and a slow path
    (write lock, the cell is made); [vec_step] interleaves the two between threads.
    A histogram counts every observation in the first bucket that holds it; the
    exporter (MetricsText) adds them up. *)

From stdpp Require Import base gmap list strings relations sorting.
From Stdlib Require Import Ascii ZArith Lia SpecFloat.
From S2P Require Import Prelude RustString RustList RustFloat.

Open Scope Z_scope.

(** ** Counters and gauges *)

Record Counter := mkCounter { counter_value : Z }.

Definition counter_new : Counter := mkCounter 0.
Definition counter_inc_by (c : Counter) (value : Z) : Counter :=
  mkCounter (add_u64 (counter_value c) value).
Definition counter_inc (c : Counter) : Counter := counter_inc_by c 1.
Definition counter_get (c : Counter) : Z := counter_value c.
Definition counter_reset (c : Counter) : Counter := mkCounter 0.

Record Gauge := mkGauge { gauge_value : Z }.

Definition gauge_new : Gauge := mkGauge 0.
Definition gauge_set (g : Gauge) (value : Z) : Gauge := mkGauge value.
Definition gauge_inc_by (g : Gauge) (value : Z) : Gauge := mkGauge (add_u64 (gauge_value g) value).
Definition gauge_inc (g : Gauge) : Gauge := gauge_inc_by g 1.
Definition gauge_dec_by (g : Gauge) (value : Z) : Gauge := mkGauge (sub_u64 (gauge_value g) value).
Definition gauge_dec (g : Gauge) : Gauge := gauge_dec_by g 1.
Definition gauge_get (g : Gauge) : Z := gauge_value g.

(** ** Histograms *)

Record Histogram := mkHistogram {
  buckets : list f64;
  bucket_counts : list Z;
  hist_sum : Z;
  hist_count : Z;
}.

(** [sort_by(|a, b| a.partial_cmp(b).unwrap())]: stable, and it panics on a NaN as
    soon as there is anything to compare it with. *)
Fixpoint insert_bound (x : f64) (l : list f64) : list f64 :=
  match l with
  | [] => [x]
  | y :: l' => if f64_le x y then x :: l else y :: insert_bound x l'
  end.

Definition sort_bounds (l : list f64) : outcome (list f64) :=
  if (1 <? Z.of_nat (length l)) && existsb is_nan l
  then Panicked "called `Option::unwrap()` on a `None` value"
  else Done (foldr insert_bound [] l).

Definition histogram_new (bounds : list f64) : outcome Histogram :=
  let! sorted_buckets := sort_bounds bounds in
  Done (mkHistogram sorted_buckets (map (λ _, 0) sorted_buckets) 0 0).

(** The loop of [observe]: the first bucket whose bound is at least the value. *)
Fixpoint count_in_bucket (bounds : list f64) (counts : list Z) (value : f64) : list Z :=
  match bounds, counts with
  | bound :: bounds', c :: counts' =>
      if f64_le value bound then add_u64 c 1 :: counts'
      else c :: count_in_bucket bounds' counts' value
  | _, _ => counts
  end.

Definition observe (h : Histogram) (value : f64) : Histogram :=
  let scaled := f64_to_usize (f64_mul value (f64_of_Z 1000)) in
  mkHistogram (buckets h) (count_in_bucket (buckets h) (bucket_counts h) value)
    (add_u64 (hist_sum h) scaled) (add_u64 (hist_count h) 1).

Definition histogram_get (h : Histogram) : list Z * f64 * Z :=
  (bucket_counts h, f64_div (f64_of_Z (hist_sum h)) (f64_of_Z 1000), hist_count h).

(** ** Labelled metrics *)

Abbreviation Cells A := (gmap (list string) A).

(** Both paths of [CounterVec::inc_by], [GaugeVec::set] and [HistogramVec::observe]
    when no other thread comes between them. *)
Definition update_cell {A} (cells : Cells A) (key : list string) (fresh : A) (op : A → A) : Cells A :=
  match cells !! key with
  | Some cell => <[key := op cell]> cells
  | None => <[key := op fresh]> cells
  end.

Record CounterVec := mkCounterVec {
  cv_label_names : list string;
  counters : Cells Counter;
}.

Definition counter_vec_new (names : list string) : CounterVec := mkCounterVec names ∅.
Definition counter_vec_inc_by (v : CounterVec) (labels : list string) (value : Z) : CounterVec :=
  mkCounterVec (cv_label_names v)
    (update_cell (counters v) labels counter_new (λ c, counter_inc_by c value)).
Definition counter_vec_inc (v : CounterVec) (labels : list string) : CounterVec :=
  counter_vec_inc_by v labels 1.

Record GaugeVec := mkGaugeVec {
  gv_label_names : list string;
  gauges : Cells Gauge;
}.

Definition gauge_vec_new (names : list string) : GaugeVec := mkGaugeVec names ∅.
Definition gauge_vec_set (v : GaugeVec) (labels : list string) (value : Z) : GaugeVec :=
  mkGaugeVec (gv_label_names v) (update_cell (gauges v) labels gauge_new (λ g, gauge_set g value)).

Record HistogramVec := mkHistogramVec {
  hv_label_names : list string;
  hv_buckets : list f64;
  histograms : Cells Histogram;
}.

Definition histogram_vec_new (names : list string) (bounds : list f64) : HistogramVec :=
  mkHistogramVec names bounds ∅.
Definition histogram_vec_observe (v : HistogramVec) (labels : list string) (value : f64) :
    outcome HistogramVec :=
  match histograms v !! labels with
  | Some h => Done (mkHistogramVec (hv_label_names v) (hv_buckets v) (<[labels := observe h value]> (histograms v)))
  | None =>
      let! h := histogram_new (hv_buckets v) in
      Done (mkHistogramVec (hv_label_names v) (hv_buckets v) (<[labels := observe h value]> (histograms v)))
  end.

(** The order in which a map keyed by label values is iterated. *)
Class LabelOrder (A : Type) := {
  label_iter : Cells A → list (list string * A);
  label_iter_perm m : label_iter m ≡ₚ map_to_list m;
}.

Definition plain_label_order {A} : LabelOrder A := {|
  label_iter := map_to_list;
  label_iter_perm m := Permutation_refl (map_to_list m);
|}.

Definition counter_vec_get_all `{LabelOrder Counter} (v : CounterVec) : list (list string * Z) :=
  map (λ '(k, c), (k, counter_get c)) (label_iter (counters v)).
Definition gauge_vec_get_all `{LabelOrder Gauge} (v : GaugeVec) : list (list string * Z) :=
  map (λ '(k, g), (k, gauge_get g)) (label_iter (gauges v)).
Definition histogram_vec_get_all `{LabelOrder Histogram} (v : HistogramVec) :
    list (list string * (list Z * f64 * Z)) :=
  map (λ '(k, h), (k, histogram_get h)) (label_iter (histograms v)).

(** ** The registry ([collector.rs]) *)

Definition REQUEST_DURATION_BUCKETS : list f64 :=
  map f64_of_Z [1; 5; 10; 25; 50; 100; 250; 500; 1000] ++ [S754_infinity false].

Record MetricsRegistry := mkRegistry {
  requests_total : CounterVec;
  request_duration : HistogramVec;
  errors_total : CounterVec;
  isolates_active : GaugeVec;
  memory_bytes : GaugeVec;
  worker_utilization : GaugeVec;
  heap_limit_hits_total : Counter;
  cpu_timeout_total : Counter;
  uptime : Z;
  start_time : Z;
}.

(** [MetricsRegistry::new], at the time [now] *)
Definition registry_new (now : Z) : MetricsRegistry :=
  mkRegistry (counter_vec_new ["hostname"; "status"])
    (histogram_vec_new ["hostname"] REQUEST_DURATION_BUCKETS)
    (counter_vec_new ["hostname"; "code"])
    (gauge_vec_new ["hostname"; "worker_id"])
    (gauge_vec_new ["hostname"; "isolate_id"])
    (gauge_vec_new ["hostname"; "worker_id"])
    counter_new counter_new 0 now.

Definition set_errors (r : MetricsRegistry) (v : CounterVec) : MetricsRegistry :=
  mkRegistry (requests_total r) (request_duration r) v (isolates_active r) (memory_bytes r)
    (worker_utilization r) (heap_limit_hits_total r) (cpu_timeout_total r) (uptime r) (start_time r).

Definition record_error (r : MetricsRegistry) (hostname code : string) : MetricsRegistry :=
  set_errors r (counter_vec_inc (errors_total r) [hostname; code]).

(** [status.starts_with('5') || status.starts_with('4')] *)
Definition counts_as_error (status : string) : bool :=
  starts_with "5" status || starts_with "4" status.

Definition record_request (r : MetricsRegistry) (hostname status : string) (duration_ms : f64) :
    outcome MetricsRegistry :=
  let requests := counter_vec_inc (requests_total r) [hostname; status] in
  let! durations := histogram_vec_observe (request_duration r) [hostname] duration_ms in
  let r := mkRegistry requests durations (errors_total r) (isolates_active r) (memory_bytes r)
             (worker_utilization r) (heap_limit_hits_total r) (cpu_timeout_total r) (uptime r)
             (start_time r) in
  Done (if counts_as_error status
        then set_errors r (counter_vec_inc (errors_total r) [hostname; status]) else r).

Definition set_isolates_active (r : MetricsRegistry) (hostname worker_id : string) (count : Z) :
    MetricsRegistry :=
  mkRegistry (requests_total r) (request_duration r) (errors_total r)
    (gauge_vec_set (isolates_active r) [hostname; worker_id] count) (memory_bytes r)
    (worker_utilization r) (heap_limit_hits_total r) (cpu_timeout_total r) (uptime r) (start_time r).

Definition set_memory_bytes (r : MetricsRegistry) (hostname isolate_id : string) (bytes : Z) :
    MetricsRegistry :=
  mkRegistry (requests_total r) (request_duration r) (errors_total r) (isolates_active r)
    (gauge_vec_set (memory_bytes r) [hostname; isolate_id] bytes)
    (worker_utilization r) (heap_limit_hits_total r) (cpu_timeout_total r) (uptime r) (start_time r).

Definition set_worker_utilization (r : MetricsRegistry) (hostname worker_id : string) (percent : Z) :
    MetricsRegistry :=
  let clamped := Z.min percent 100 in
  mkRegistry (requests_total r) (request_duration r) (errors_total r) (isolates_active r)
    (memory_bytes r) (gauge_vec_set (worker_utilization r) [hostname; worker_id] clamped)
    (heap_limit_hits_total r) (cpu_timeout_total r) (uptime r) (start_time r).

Definition record_heap_limit_hit (r : MetricsRegistry) : MetricsRegistry :=
  mkRegistry (requests_total r) (request_duration r) (errors_total r) (isolates_active r)
    (memory_bytes r) (worker_utilization r) (counter_inc (heap_limit_hits_total r))
    (cpu_timeout_total r) (uptime r) (start_time r).

Definition record_cpu_timeout (r : MetricsRegistry) : MetricsRegistry :=
  mkRegistry (requests_total r) (request_duration r) (errors_total r) (isolates_active r)
    (memory_bytes r) (worker_utilization r) (heap_limit_hits_total r)
    (counter_inc (cpu_timeout_total r)) (uptime r) (start_time r).

Definition update_uptime (now : Z) (r : MetricsRegistry) : MetricsRegistry :=
  mkRegistry (requests_total r) (request_duration r) (errors_total r) (isolates_active r)
    (memory_bytes r) (worker_utilization r) (heap_limit_hits_total r) (cpu_timeout_total r)
    (as_secs (elapsed (start_time r) now)) (start_time r).

(** ** Any sequence of calls *)

Inductive event :=
| Request (hostname status : string) (duration_ms : f64)
| Error (hostname code : string)
| Isolates (hostname worker_id : string) (count : Z)
| Memory (hostname isolate_id : string) (bytes : Z)
| Utilization (hostname worker_id : string) (percent : Z)
| HeapLimitHit
| CpuTimeout
| Uptime (now : Z).

Definition apply_event (r : MetricsRegistry) (e : event) : outcome MetricsRegistry :=
  match e with
  | Request h s d => record_request r h s d
  | Error h c => Done (record_error r h c)
  | Isolates h w n => Done (set_isolates_active r h w n)
  | Memory h i n => Done (set_memory_bytes r h i n)
  | Utilization h w n => Done (set_worker_utilization r h w n)
  | HeapLimitHit => Done (record_heap_limit_hit r)
  | CpuTimeout => Done (record_cpu_timeout r)
  | Uptime now => Done (update_uptime now r)
  end.

Fixpoint run_events (r : MetricsRegistry) (es : list event) : outcome MetricsRegistry :=
  match es with
  | [] => Done r
  | e :: es' => let! r := apply_event r e in run_events r es'
  end.

(** ** Threads on one labelled counter

    [inc_by] in two critical sections: under the read lock the cell is incremented
    if it exists; otherwise the lock is given up, and under the write lock the cell
    is looked up again, made if it is still missing, and incremented. *)

Inductive IncThread :=
| ReadPath (labels : list string) (value : Z)
| WritePath (labels : list string) (value : Z)
| Finished.

Definition inc_section (cells : Cells Counter) (t : IncThread) : Cells Counter * IncThread :=
  match t with
  | ReadPath labels value =>
      match cells !! labels with
      | Some c => (<[labels := counter_inc_by c value]> cells, Finished)
      | None => (cells, WritePath labels value)
      end
  | WritePath labels value =>
      (<[labels := counter_inc_by (default counter_new (cells !! labels)) value]> cells, Finished)
  | Finished => (cells, Finished)
  end.

(** A step: some thread that has not finished runs its next critical section. *)
Inductive vec_step : Cells Counter * list IncThread → Cells Counter * list IncThread → Prop :=
| vec_step_intro cells threads i t
    (Hi : threads !! i = Some t) (Hrun : t ≠ Finished) :
    vec_step (cells, threads)
      ((inc_section cells t).1, <[i := (inc_section cells t).2]> threads).

(** * Theorems *)

(** ** Integers modulo 2^64 *)

Lemma add_u64_as_u64 x y : add_u64 (as_u64 x) y = as_u64 (x + y).
Proof. unfold add_u64, as_u64. by rewrite Zplus_mod_idemp_l. Qed.

Lemma as_u64_eq x y : as_u64 (as_u64 x + y) = as_u64 (x + y).
Proof. apply add_u64_as_u64. Qed.

(** how many elements of a list satisfy a test *)
Definition count {A} (f : A → bool) (l : list A) : Z := Z.of_nat (length (List.filter f l)).

Lemma count_app {A} (f : A → bool) l1 l2 : count f (l1 ++ l2) = count f l1 + count f l2.
Proof. unfold count. rewrite List.filter_app, length_app. lia. Qed.

Lemma count_snoc {A} (f : A → bool) l x : count f (l ++ [x]) = count f l + (if f x then 1 else 0).
Proof. rewrite count_app. unfold count at 2. simpl. by destruct (f x). Qed.

Lemma count_nonneg {A} (f : A → bool) l : 0 ≤ count f l.
Proof. unfold count. lia. Qed.

Definition sum_list (l : list Z) : Z := foldr Z.add 0 l.

(** ** Histograms *)

Definition ascending (bounds : list f64) : Prop :=
  StronglySorted (λ a b, f64_le a b = true) bounds.

Lemma insert_bound_perm x l : insert_bound x l ≡ₚ x :: l.
Proof.
  induction l as [|y l IH]; simpl; [done|]. destruct (f64_le x y); [done|].
  rewrite IH. constructor.
Qed.

Lemma insert_bound_sorted x l : is_nan x = false → Forall (λ y, is_nan y = false) l →
  ascending l → ascending (insert_bound x l).
Proof.
  intros Hx Hl. induction 1 as [|y l Hs IH Hy]; simpl; [repeat constructor|].
  apply Forall_cons in Hl as [Hny Hl]. destruct (f64_le x y) eqn:E.
  - constructor; [by constructor|]. constructor; [done|].
    eapply Forall_impl; [exact Hy|]. intros z Hz. by eapply f64_le_trans.
  - constructor; [by apply IH|]. rewrite insert_bound_perm. constructor; [|done].
    by apply f64_le_total.
Qed.

(** Sorting panics only on a NaN; else it orders the bounds. *)
Lemma sort_bounds_done l l' : sort_bounds l = Done l' → l' ≡ₚ l ∧ ascending l'.
Proof.
  unfold sort_bounds. destruct ((1 <? Z.of_nat (length l)) && existsb is_nan l) eqn:E; [done|].
  intros [= <-]. split.
  - clear E. induction l as [|x l IH]; simpl; [done|]. by rewrite insert_bound_perm, IH.
  - destruct (decide (length l ≤ 1)%nat) as [Hlen|Hlen].
    { destruct l as [|x [|y l]]; simpl in *; [constructor|repeat constructor|lia]. }
    rewrite (proj2 (Z.ltb_lt _ _)) in E by lia. apply existsb_false in E. clear Hlen.
    induction E as [|x l Hx Hl IH]; simpl; [constructor|]. apply insert_bound_sorted; [done| |done].
    assert (foldr insert_bound [] l ≡ₚ l) as ->; [|done].
    clear. induction l as [|y l IH]; simpl; [done|]. by rewrite insert_bound_perm, IH.
Qed.

Lemma count_in_bucket_length bounds counts v :
  length (count_in_bucket bounds counts v) = length counts.
Proof.
  revert counts. induction bounds as [|b bounds IH]; intros [|c counts]; simpl; try done.
  destruct (f64_le v b); simpl; [done|]. by rewrite IH.
Qed.

(** One observation raises the running totals of the buckets that hold it. *)
Lemma count_in_bucket_total bounds counts v i b :
  ascending bounds → length counts = length bounds → bounds !! i = Some b →
  as_u64 (sum_list (take (S i) (count_in_bucket bounds counts v))) =
    as_u64 (sum_list (take (S i) counts) + (if f64_le v b then 1 else 0)).
Proof.
  intros Hs. revert counts i. induction Hs as [|a bounds Hs IH Ha]; intros [|c counts] i Hlen Hi;
    try done.
  simpl count_in_bucket. destruct (f64_le v a) eqn:E.
  - assert (f64_le v b = true) as ->.
    { destruct i as [|i]; simpl in Hi; [congruence|]. eapply f64_le_trans; [exact E|].
      rewrite Forall_forall in Ha. apply Ha. by eapply list_elem_of_lookup_2. }
    change (as_u64 (as_u64 (c + 1) + sum_list (take i counts)) =
            as_u64 (c + sum_list (take i counts) + 1)). rewrite as_u64_eq. f_equal. lia.
  - destruct i as [|i]; simpl in Hi.
    + injection Hi as ->. rewrite E. simpl. f_equal. lia.
    + change (as_u64 (c + sum_list (take (S i) (count_in_bucket bounds counts v))) =
              as_u64 (c + sum_list (take (S i) counts) + (if f64_le v b then 1 else 0))).
      rewrite Z.add_comm, <-as_u64_eq, IH by (simpl in *; done || lia).
      rewrite as_u64_eq. f_equal. lia.
Qed.

Definition observe_all (h : Histogram) (vs : list f64) : Histogram := foldl observe h vs.

(** A histogram after some observations: sorted bounds, and the running total of
    the counts up to each bound is the number of observations it holds. *)
Definition counts_exactly (vs : list f64) (h : Histogram) : Prop :=
  ascending (buckets h) ∧ length (bucket_counts h) = length (buckets h) ∧
  hist_count h = as_u64 (Z.of_nat (length vs)) ∧
  ∀ i b, buckets h !! i = Some b →
    as_u64 (sum_list (take (S i) (bucket_counts h))) = as_u64 (count (λ v, f64_le v b) vs).

Lemma histogram_new_exact bounds h : histogram_new bounds = Done h → counts_exactly [] h.
Proof.
  unfold histogram_new. rewrite outcome_bind_done. intros (l & [_ Hs]%sort_bounds_done & [= <-]).
  split_and!; simpl; [done|by rewrite length_map|done|]. intros i b _. f_equal.
  generalize (S i). intros n. change (count _ []) with 0. clear.
  revert n. induction l as [|x l IH]; intros [|n]; simpl; [done..|]. apply IH.
Qed.

Lemma observe_exact vs h v : counts_exactly vs h → counts_exactly (vs ++ [v]) (observe h v).
Proof.
  intros (Hs & Hl & Hc & Ht). split_and!; simpl.
  - done.
  - by rewrite count_in_bucket_length.
  - rewrite Hc, add_u64_as_u64, length_app. f_equal. simpl. lia.
  - intros i b Hi. rewrite (count_in_bucket_total _ _ _ _ b) by done.
    rewrite count_snoc, <-as_u64_eq, (Ht i b Hi). by rewrite as_u64_eq.
Qed.

Lemma observe_all_exact vs' vs h : counts_exactly vs h → counts_exactly (vs ++ vs') (observe_all h vs').
Proof.
  revert vs h. induction vs' as [|v vs' IH]; intros vs h Hh; simpl; [by rewrite app_nil_r|].
  rewrite cons_middle, app_assoc. by apply IH, observe_exact.
Qed.

(** ** Labelled metrics *)

Lemma update_cell_lookup {A} (cells : Cells A) key fresh (op : A → A) k :
  update_cell cells key fresh op !! k =
    if decide (k = key) then Some (op (default fresh (cells !! key))) else cells !! k.
Proof.
  unfold update_cell. destruct (cells !! key) eqn:E; simpl;
    (case_decide as Hk; [subst k; by rewrite lookup_insert_eq|by rewrite lookup_insert_ne]).
Qed.

(** The histogram of a fresh request-duration cell *)
Definition fresh_durations : Histogram :=
  mkHistogram REQUEST_DURATION_BUCKETS (map (λ _, 0) REQUEST_DURATION_BUCKETS) 0 0.

Lemma fresh_durations_new : histogram_new REQUEST_DURATION_BUCKETS = Done fresh_durations.
Proof. vm_compute. reflexivity. Qed.

Lemma histogram_vec_observe_lookup v labels value v' k :
  hv_buckets v = REQUEST_DURATION_BUCKETS →
  histogram_vec_observe v labels value = Done v' →
  hv_buckets v' = REQUEST_DURATION_BUCKETS ∧ hv_label_names v' = hv_label_names v ∧
  histograms v' !! k =
    if decide (k = labels) then Some (observe (default fresh_durations (histograms v !! labels)) value)
    else histograms v !! k.
Proof.
  intros Hb. unfold histogram_vec_observe. rewrite Hb, fresh_durations_new. cbn [outcome_bind].
  destruct (histograms v !! labels) eqn:E; intros [= <-]; simpl; (split_and!; [done..|]);
    (case_decide as Hk; [subst k; by rewrite lookup_insert_eq|by rewrite lookup_insert_ne]).
Qed.

Lemma histogram_vec_observe_done v labels value :
  hv_buckets v = REQUEST_DURATION_BUCKETS → is_done (histogram_vec_observe v labels value) = true.
Proof.
  intros Hb. unfold histogram_vec_observe. rewrite Hb, fresh_durations_new.
  by destruct (histograms v !! labels).
Qed.

(** ** The registry against the log of calls *)

(** A counter that was raised [n] times: there is no cell before the first. *)
Definition shown (n : Z) : option Counter := if n =? 0 then None else Some (mkCounter (as_u64 n)).

Lemma shown_succ n : 0 ≤ n → Some (counter_inc (default counter_new (shown n))) = shown (n + 1).
Proof.
  intros Hn. unfold shown. rewrite (proj2 (Z.eqb_neq (n + 1) 0)) by lia.
  destruct (n =? 0) eqn:E; zreflect; [by subst n|]. simpl. unfold counter_inc, counter_inc_by. simpl.
  by rewrite add_u64_as_u64.
Qed.

Definition is_request (h s : string) (e : event) : bool :=
  match e with Request h' s' _ => String.eqb h' h && String.eqb s' s | _ => false end.

Definition is_error (h c : string) (e : event) : bool :=
  match e with
  | Request h' s' _ => String.eqb h' h && String.eqb s' c && counts_as_error s'
  | Error h' c' => String.eqb h' h && String.eqb c' c
  | _ => false
  end.

Definition duration_of (h : string) (e : event) : option f64 :=
  match e with Request h' _ d => if String.eqb h' h then Some d else None | _ => None end.

Definition isolates_of (h w : string) (e : event) : option Z :=
  match e with Isolates h' w' n => if String.eqb h' h && String.eqb w' w then Some n else None | _ => None end.
Definition memory_of (h i : string) (e : event) : option Z :=
  match e with Memory h' i' n => if String.eqb h' h && String.eqb i' i then Some n else None | _ => None end.
Definition utilization_of (h w : string) (e : event) : option Z :=
  match e with
  | Utilization h' w' n => if String.eqb h' h && String.eqb w' w then Some (Z.min n 100) else None
  | _ => None
  end.
Definition is_heap_hit (e : event) : bool := match e with HeapLimitHit => true | _ => false end.
Definition is_cpu_timeout (e : event) : bool := match e with CpuTimeout => true | _ => false end.

(** The label names, and the bounds, that [registry_new] sets. *)
Definition standard_names (r : MetricsRegistry) : Prop :=
  cv_label_names (requests_total r) = ["hostname"; "status"] ∧
  cv_label_names (errors_total r) = ["hostname"; "code"] ∧
  hv_label_names (request_duration r) = ["hostname"] ∧
  hv_buckets (request_duration r) = REQUEST_DURATION_BUCKETS ∧
  gv_label_names (isolates_active r) = ["hostname"; "worker_id"] ∧
  gv_label_names (memory_bytes r) = ["hostname"; "isolate_id"] ∧
  gv_label_names (worker_utilization r) = ["hostname"; "worker_id"].

(** What the registry holds after the calls [es]. *)
Record refines_log (es : list event) (r : MetricsRegistry) : Prop := {
  rl_requests h s : counters (requests_total r) !! [h; s] = shown (count (is_request h s) es);
  rl_errors h c : counters (errors_total r) !! [h; c] = shown (count (is_error h c) es);
  rl_durations h : histograms (request_duration r) !! [h] =
    match omap (duration_of h) es with
    | [] => None
    | vs => Some (observe_all fresh_durations vs)
    end;
  rl_isolates h w : gauge_get <$> gauges (isolates_active r) !! [h; w] = last (omap (isolates_of h w) es);
  rl_memory h i : gauge_get <$> gauges (memory_bytes r) !! [h; i] = last (omap (memory_of h i) es);
  rl_utilization h w :
    gauge_get <$> gauges (worker_utilization r) !! [h; w] = last (omap (utilization_of h w) es);
  rl_heap : counter_get (heap_limit_hits_total r) = as_u64 (count is_heap_hit es);
  rl_cpu : counter_get (cpu_timeout_total r) = as_u64 (count is_cpu_timeout es);
  rl_names : standard_names r;
  rl_request_keys k : is_Some (counters (requests_total r) !! k) → ∃ h s, k = [h; s];
  rl_duration_keys k : is_Some (histograms (request_duration r) !! k) → ∃ h, k = [h];
}.

Lemma key2_decide (h s h' s' : string) :
  bool_decide ([h; s] = [h'; s']) = String.eqb h' h && String.eqb s' s.
Proof.
  destruct (String.eqb_spec h' h), (String.eqb_spec s' s); simpl;
    first [apply bool_decide_eq_true; congruence|apply bool_decide_eq_false; congruence].
Qed.

Lemma inc_shown v (n : string → string → Z) (Hn : ∀ h s, 0 ≤ n h s)
    (Hv : ∀ h s, counters v !! [h; s] = shown (n h s)) h' s' h s :
  counters (counter_vec_inc v [h'; s']) !! [h; s] =
    shown (n h s + (if String.eqb h' h && String.eqb s' s then 1 else 0)).
Proof.
  unfold counter_vec_inc, counter_vec_inc_by. simpl. rewrite update_cell_lookup, <-key2_decide.
  case_decide as Hk.
  - rewrite (bool_decide_eq_true_2 _ Hk). injection Hk as -> ->. rewrite Hv. by apply shown_succ.
  - rewrite (bool_decide_eq_false_2 _ Hk), Z.add_0_r. apply Hv.
Qed.

Lemma set_shown v (l : string → string → list Z)
    (Hv : ∀ h w, gauge_get <$> gauges v !! [h; w] = last (l h w)) h' w' n h w :
  gauge_get <$> gauges (gauge_vec_set v [h'; w'] n) !! [h; w] =
    last (l h w ++ (if String.eqb h' h && String.eqb w' w then [n] else [])).
Proof.
  unfold gauge_vec_set. simpl. rewrite update_cell_lookup, <-key2_decide. case_decide as Hk.
  - rewrite (bool_decide_eq_true_2 _ Hk), last_snoc. done.
  - rewrite (bool_decide_eq_false_2 _ Hk), app_nil_r. apply Hv.
Qed.

(** What an event adds to a projection of the log. *)
Lemma omap_snoc_opt {A B} (f : A → option B) es e :
  omap f (es ++ [e]) = omap f es ++ match f e with Some x => [x] | None => [] end.
Proof. rewrite omap_app. simpl. by destruct (f e). Qed.

Ltac log_same :=
  repeat (rewrite ?count_snoc, ?omap_snoc_opt; simpl; rewrite ?Z.add_0_r, ?app_nil_r).

Lemma refines_log_inc_errors es r (e : event) h' c'
    (Hr : refines_log es r) (He : ∀ h c, is_error h c e = String.eqb h' h && String.eqb c' c) h c :
  counters (errors_total (set_errors r (counter_vec_inc (errors_total r) [h'; c']))) !! [h; c] =
    shown (count (is_error h c) (es ++ [e])).
Proof.
  simpl. rewrite count_snoc, He. apply (inc_shown _ (λ h c, count (is_error h c) es)).
  - intros. apply count_nonneg.
  - apply Hr.
Qed.

Lemma refines_log_durations es r h' s' d v'
    (Hr : refines_log es r) (Hv : histogram_vec_observe (request_duration r) [h'] d = Done v') h :
  histograms v' !! [h] =
    match omap (duration_of h) (es ++ [Request h' s' d]) with
    | [] => None
    | vs => Some (observe_all fresh_durations vs)
    end.
Proof.
  destruct (rl_names _ _ Hr) as (_ & _ & _ & Hb & _).
  destruct (histogram_vec_observe_lookup _ _ _ _ [h] Hb Hv) as (_ & _ & ->).
  rewrite omap_snoc_opt, !(rl_durations _ _ Hr). simpl. destruct (String.eqb_spec h' h) as [->|Hne].
  - rewrite decide_True by done. destruct (omap (duration_of h) es) as [|v vs]; [done|].
    simpl. unfold observe_all. simpl. by rewrite foldl_app.
  - rewrite decide_False by congruence. by rewrite app_nil_r.
Qed.

Lemma refines_log_request es r h' s' d (Hr : refines_log es r) :
  ∃ r', record_request r h' s' d = Done r' ∧ refines_log (es ++ [Request h' s' d]) r'.
Proof.
  destruct (rl_names _ _ Hr) as (Hn1 & Hn2 & Hn3 & Hb & Hn4 & Hn5 & Hn6).
  pose proof (histogram_vec_observe_done (request_duration r) [h'] d Hb) as Hd.
  unfold record_request. destruct (histogram_vec_observe _ _ d) as [v'|] eqn:Hv; [clear Hd|done].
  eexists. split; [done|].
  destruct (histogram_vec_observe_lookup _ _ _ _ [h'] Hb Hv) as (Hb' & Hn' & _).
  destruct (counts_as_error s') eqn:E; (split; simpl; intros;
    [ rewrite count_snoc; apply (inc_shown _ (λ h s, count (is_request h s) es)); [intros; apply count_nonneg|apply Hr]
    | | by apply (refines_log_durations es r h' s')
    | log_same; apply Hr..
    | unfold standard_names; simpl; rewrite Hb', Hn'; by split_and!
    | match goal with Hk : is_Some _ |- _ => revert Hk end;
      unfold counter_vec_inc, counter_vec_inc_by; simpl; rewrite update_cell_lookup;
      case_decide; [eauto|apply Hr]
    | match goal with Hk : is_Some _ |- _ => revert Hk end;
      destruct (histogram_vec_observe_lookup _ _ _ _ k Hb Hv) as (_ & _ & ->);
      case_decide; [eauto|apply Hr] ]).
  - rewrite count_snoc. simpl. rewrite E, andb_true_r.
    apply (inc_shown _ (λ h c, count (is_error h c) es)); [intros; apply count_nonneg|apply Hr].
  - rewrite count_snoc. simpl. rewrite E, andb_false_r, Z.add_0_r. apply Hr.
Qed.

Lemma refines_log_step es r e (Hr : refines_log es r) :
  ∃ r', apply_event r e = Done r' ∧ refines_log (es ++ [e]) r'.
Proof.
  destruct e as [h' s' d|h' c'|h' w' n|h' i' n|h' w' n| | |now]; simpl;
    [by apply refines_log_request|..]; eexists; (split; [reflexivity|]);
    (split; simpl; intros; log_same; try (apply Hr; done)).
  - rewrite <-(Z.add_0_r (count (is_error h c) es)), <-Z.add_assoc, Z.add_0_l.
    apply (inc_shown _ (λ h c, count (is_error h c) es)); [intros; apply count_nonneg|apply Hr].
  - etransitivity; [apply (set_shown _ (λ h w, omap (isolates_of h w) es)); apply Hr|].
    by destruct (String.eqb h' h && String.eqb w' w).
  - etransitivity; [apply (set_shown _ (λ h i, omap (memory_of h i) es)); apply Hr|].
    by destruct (String.eqb h' h && String.eqb i' i).
  - etransitivity; [apply (set_shown _ (λ h w, omap (utilization_of h w) es)); apply Hr|].
    by destruct (String.eqb h' h && String.eqb w' w).
  - unfold counter_inc, counter_inc_by, counter_get. simpl.
    rewrite (rl_heap _ _ Hr : counter_value _ = _). apply add_u64_as_u64.
  - unfold counter_inc, counter_inc_by, counter_get. simpl.
    rewrite (rl_cpu _ _ Hr : counter_value _ = _). apply add_u64_as_u64.
Qed.

Lemma run_events_refine now es :
  ∃ r, run_events (registry_new now) es = Done r ∧ refines_log es r.
Proof.
  assert (∀ r es0, refines_log es0 r →
    ∃ r', run_events r es = Done r' ∧ refines_log (es0 ++ es) r') as H.
  { induction es as [|e es IH]; intros r es0 Hr; simpl.
    - exists r. by rewrite app_nil_r.
    - destruct (refines_log_step _ _ e Hr) as (r1 & -> & Hr1). simpl.
      destruct (IH r1 _ Hr1) as (r' & ? & ?). exists r'. by rewrite cons_middle, app_assoc. }
  apply (H (registry_new now) []). split; try done; simpl; intros k; rewrite lookup_empty; by intros [? ?].
Qed.

(** The registry is the log of the calls made on it: recording never panics, and
    after any calls the request and error counters of a pair of labels are the
    numbers of calls with them, modulo 2^64, with no entry before the first; a
    request whose status begins with 4 or 5 is an error too; the histogram of a host
    has its durations in order; each gauge shows its last setting, utilisation
    clamped to 100.  So a host named by any request keeps its entries for good. *)
Theorem registry_refines_log (now : Z) (es : list event) :
  ∃ r, run_events (registry_new now) es = Done r ∧ refines_log es r.
Proof. apply run_events_refine. Qed.

(** ** Threads on one labelled counter *)

Definition value_of (cells : Cells Counter) (k : list string) : Z :=
  counter_value (default counter_new (cells !! k)).

(** What a thread will still add to the counter of [k]. *)
Definition pending (k : list string) (t : IncThread) : Z :=
  match t with
  | ReadPath l v | WritePath l v => if decide (l = k) then v else 0
  | Finished => 0
  end.

Definition sections_left (t : IncThread) : nat :=
  match t with ReadPath _ _ => 2 | WritePath _ _ => 1 | Finished => 0 end.

Lemma inc_section_conserves cells t k :
  as_u64 (value_of (inc_section cells t).1 k + pending k (inc_section cells t).2) =
    as_u64 (value_of cells k + pending k t).
Proof.
  destruct t as [l v|l v|]; simpl; [| |done].
  - destruct (cells !! l) as [c|] eqn:E; simpl; [|done]. unfold value_of. case_decide as Hk.
    + subst l. rewrite lookup_insert_eq, E. simpl. rewrite Z.add_0_r. unfold add_u64, as_u64. by rewrite Zmod_mod.
    + by rewrite lookup_insert_ne.
  - unfold value_of. case_decide as Hk.
    + subst l. rewrite lookup_insert_eq. simpl. rewrite Z.add_0_r. unfold add_u64, as_u64. by rewrite Zmod_mod.
    + by rewrite lookup_insert_ne.
Qed.

Definition to_add (k : list string) (threads : list IncThread) : Z :=
  sum_list (map (pending k) threads).

Lemma sum_map_insert {A} (f : A → Z) (l : list A) i x y :
  l !! i = Some x → sum_list (map f (<[i := y]> l)) = sum_list (map f l) - f x + f y.
Proof.
  revert i. induction l as [|z l IH]; intros [|i] Hi; simpl in *; try done.
  - injection Hi as ->. lia.
  - change (f z + sum_list (map f (<[i := y]> l)) = f z + sum_list (map f l) - f x + f y).
    rewrite IH by done. lia.
Qed.

Lemma vec_step_conserves s1 s2 k : vec_step s1 s2 →
  as_u64 (value_of s2.1 k + to_add k s2.2) = as_u64 (value_of s1.1 k + to_add k s1.2).
Proof.
  intros [cells threads i t Hi _]. simpl. unfold to_add. rewrite (sum_map_insert _ _ _ t) by done.
  pose proof (inc_section_conserves cells t k) as Hc.
  set (S := sum_list (map (pending k) threads)).
  transitivity (as_u64 (as_u64 (value_of (inc_section cells t).1 k + pending k (inc_section cells t).2)
                        + (S - pending k t))); [rewrite as_u64_eq; f_equal; lia|].
  rewrite Hc, as_u64_eq. f_equal. lia.
Qed.

Lemma vec_step_measure s1 s2 : vec_step s1 s2 →
  (list_sum (map sections_left s2.2) < list_sum (map sections_left s1.2))%nat.
Proof.
  intros [cells threads i t Hi Hrun]. simpl.
  assert (sections_left (inc_section cells t).2 < sections_left t)%nat as Hlt.
  { destruct t as [l v|l v|]; simpl; [destruct (cells !! l); simpl; lia|lia|done]. }
  revert i Hi. induction threads as [|u threads IH]; intros [|i] Hi; simpl in *; try done.
  - injection Hi as ->. lia.
  - specialize (IH i Hi). lia.
Qed.

Lemma vec_steps_end n s1 s2 : nsteps vec_step n s1 s2 →
  (n + list_sum (map sections_left s2.2) ≤ list_sum (map sections_left s1.2))%nat.
Proof. induction 1 as [|n s1 s2 s3 Hs Hn IH]; [done|]. apply vec_step_measure in Hs. lia. Qed.

Lemma vec_steps_conserve n s1 s2 k : nsteps vec_step n s1 s2 →
  as_u64 (value_of s2.1 k + to_add k s2.2) = as_u64 (value_of s1.1 k + to_add k s1.2).
Proof. induction 1 as [|n s1 s2 s3 Hs Hn IH]; [done|]. by rewrite IH, (vec_step_conserves s1 s2). Qed.

Lemma vec_step_range s1 s2 : vec_step s1 s2 →
  (∀ k, in_u64 (value_of s1.1 k)) → ∀ k, in_u64 (value_of s2.1 k).
Proof.
  intros [cells threads i t Hi Hrun] Hv k. specialize (Hv k). simpl in *.
  destruct t as [l v|l v|]; simpl; [destruct (cells !! l) eqn:E; simpl; [|done]| |done];
    unfold value_of; (destruct (decide (l = k)) as [->|];
      [rewrite lookup_insert_eq; apply as_u64_range|by rewrite lookup_insert_ne]).
Qed.

Lemma vec_steps_range n s1 s2 : nsteps vec_step n s1 s2 →
  (∀ k, in_u64 (value_of s1.1 k)) → ∀ k, in_u64 (value_of s2.1 k).
Proof. induction 1; eauto using vec_step_range. Qed.

Lemma all_finished_or_step cells threads :
  (∃ s', vec_step (cells, threads) s') ∨ Forall (λ t, t = Finished) threads.
Proof.
  destruct (decide (Exists (λ t, sections_left t ≠ O) threads)) as [He|Hn].
  - left. apply Exists_exists in He as (t & [i Hi]%list_elem_of_lookup_1 & Ht). eexists. econstructor; [done|].
    by intros ->.
  - right. apply not_Exists_Forall in Hn; [|intros t; destruct (decide (sections_left t = O)); [right|left]; lia].
    eapply Forall_impl; [exact Hn|]. intros [] Ht; simpl in Ht; [exfalso; lia..|done].
Qed.

(** Concurrent increments of a labelled counter are never lost, although a
    missing cell is looked up under one lock and made under another: however the
    critical sections of any threads interleave, they all end after at most two
    sections each, and then every counter has grown by exactly the values added to
    its labels, modulo 2^64. *)
Theorem counter_vec_lossless (cells : Cells Counter) (ops : list (list string * Z))
    (n : nat) (s : Cells Counter * list IncThread)
    (Hcells : ∀ k, in_u64 (value_of cells k))
    (Hrun : nsteps vec_step n (cells, map (λ op, ReadPath op.1 op.2) ops) s) :
  (n ≤ 2 * length ops)%nat ∧
  ((∃ s', vec_step s s') ∨
   ∀ k, value_of s.1 k =
     as_u64 (value_of cells k + sum_list (map (λ op, if decide (op.1 = k) then op.2 else 0) ops))).
Proof.
  split.
  - pose proof (vec_steps_end _ _ _ Hrun) as Hend. simpl in Hend. rewrite map_map in Hend.
    assert (list_sum (map (λ op : list string * Z, sections_left (ReadPath op.1 op.2)) ops) =
            2 * length ops)%nat as Hs; [|lia].
    clear. induction ops as [|op ops IH]; [done|].
    change (2 + list_sum (map (λ op : list string * Z, sections_left (ReadPath op.1 op.2)) ops) =
            2 * S (length ops))%nat. rewrite IH. lia.
  - destruct s as [cells' threads]. destruct (all_finished_or_step cells' threads) as [|Hf]; [by left|right].
    intros k. pose proof (vec_steps_conserve _ _ _ k Hrun) as Hc. simpl in Hc.
    pose proof (vec_steps_range _ _ _ Hrun Hcells k) as Hr. simpl in Hr.
    assert (to_add k threads = 0) as Hz.
    { unfold to_add. clear - Hf. induction Hf as [|t threads -> Hf IH]; [done|]. exact IH. }
    rewrite Hz, Z.add_0_r, (as_u64_small _ Hr) in Hc. simpl. rewrite Hc. f_equal. f_equal.
    unfold to_add. by rewrite map_map.
Qed.

Lemma value_of_empty k : in_u64 (value_of ∅ k).
Proof. unfold value_of. rewrite lookup_empty. by vm_compute. Qed.

(** Two threads both find the cell missing before either makes it. *)
Lemma counter_vec_lossless_witness :
  ∃ s : Cells Counter * list IncThread,
    nsteps vec_step 4 (∅, [ReadPath ["a"] 1; ReadPath ["a"] 2]) s ∧ value_of s.1 ["a"] = 3.
Proof.
  assert (nsteps vec_step 4 (∅ : Cells Counter, [ReadPath ["a"] 1; ReadPath ["a"] 2])
           ({[ ["a"] := mkCounter 3 ]}, [Finished; Finished])) as Hrun.
  { eapply nsteps_l; [apply (vec_step_intro _ _ 0 (ReadPath ["a"] 1)); done|].
    eapply nsteps_l; [apply (vec_step_intro _ _ 1 (ReadPath ["a"] 2)); done|].
    eapply nsteps_l; [apply (vec_step_intro _ _ 1 (WritePath ["a"] 2)); done|].
    eapply nsteps_l; [apply (vec_step_intro _ _ 0 (WritePath ["a"] 1)); done|].
    exact (nsteps_O _ _). }
  eexists. split; [exact Hrun|].
  destruct (counter_vec_lossless ∅ [(["a"], 1); (["a"], 2)] 4 _ value_of_empty Hrun)
    as [_ [[s' Hs']|Hv]].
  - exfalso. inversion Hs' as [cells threads i t Hi Ht]. subst. destruct i as [|[|i]]; simpl in Hi; naive_solver.
  - rewrite Hv. vm_compute. reflexivity.
Defined.
