(* ===== verification/MetricsText.v ===== *)
(** * [src/metrics/exporter.rs]: the Prometheus text of the registry

    [export] writes every metric family: two comment lines, a line per entry and an
    empty line.  The reference here is a reader of that format, [parse_exposition],
    written from the description of the format and not from the exporter. *)

From stdpp Require Import base gmap list strings pretty.
From Stdlib Require Import Ascii ZArith Lia SpecFloat.
From S2P Require Import Prelude RustString RustList RustFloat RustFmt Metrics.

Open Scope Z_scope.

(** ** Text *)

Definition quote_char : ascii := ascii_of_nat 34.
Definition newline_char : ascii := ascii_of_nat 10.
Definition quoted (s : string) : string := String quote_char (s +:+ String quote_char "").

(** [writeln!] *)
Definition line (s : string) : string := s +:+ String newline_char "".

Definition concat_text (parts : list string) : string := foldr String.append "" parts.

(** The three [replace] calls on a label value. *)
Definition escape_label (value : string) : string :=
  replace_char newline_char "\n"
    (replace_char quote_char (String backslash (String quote_char ""))
       (replace_char backslash "\\" value)).

Definition label_item (name value : string) : string :=
  name +:+ ("=" +:+ quoted (escape_label value)).

Definition format_labels (names values : list string) : string :=
  match names, values with
  | [], _ | _, [] => ""
  | _, _ => "{" +:+ (join "," (zip_with label_item names values) +:+ "}")
  end.

Definition is_infinite (x : f64) : bool :=
  match x with S754_infinity _ => true | _ => false end.

Definition format_bucket_label (bound : f64) : string :=
  if is_infinite bound then "+Inf" else display_fixed3 bound.

(** ** Families *)

Definition help_line (name help : string) : string := "# HELP " +:+ (name +:+ (" " +:+ help)).
Definition type_line (name kind : string) : string := "# TYPE " +:+ (name +:+ (" " +:+ kind)).

Definition export_counter (name help : string) (value : Z) : string :=
  line (help_line name help) +:+ (line (type_line name "counter") +:+
    (line (name +:+ (" " +:+ pretty value)) +:+ line "")).

Definition export_values (name help kind : string) (names : list string)
    (entries : list (list string * Z)) : string :=
  line (help_line name help) +:+ (line (type_line name kind) +:+
    (match entries with
     | [] => line (name +:+ " 0")
     | _ => concat_text (map (λ e, line (name +:+ (format_labels names e.1 +:+ (" " +:+ pretty e.2)))) entries)
     end +:+ line "")).

Definition export_counter_vec `{LabelOrder Counter} (name help : string) (v : CounterVec) : string :=
  export_values name help "counter" (cv_label_names v) (counter_vec_get_all v).

Definition export_gauge_vec `{LabelOrder Gauge} (name help : string) (v : GaugeVec) : string :=
  export_values name help "gauge" (gv_label_names v) (gauge_vec_get_all v).

(** The loop over the buckets of an entry, with the running total. *)
Fixpoint export_buckets (name base_labels : string) (bounds : list f64) (i : nat) (cumulative : Z)
    (counts : list Z) : string :=
  match counts with
  | [] => ""
  | bucket_count :: counts' =>
      let cumulative := add_u64 cumulative bucket_count in
      let bucket_bound := default (S754_infinity false) (bounds !! i) in
      let bucket_label := format_bucket_label bucket_bound in
      line (if is_empty base_labels
            then name +:+ ("_bucket{le=" +:+ (quoted bucket_label +:+ ("} " +:+ pretty cumulative)))
            else
              let base_without_close := stake (String.length base_labels - 1) base_labels in
              let comma := if 2 <? slen base_labels then "," else "" in
              let bucket_labels :=
                base_without_close +:+ (comma +:+ ("le=" +:+ (quoted bucket_label +:+ "}"))) in
              name +:+ ("_bucket" +:+ (bucket_labels +:+ (" " +:+ pretty cumulative))))
      +:+ export_buckets name base_labels bounds (S i) cumulative counts'
  end.

Definition export_histogram_entry (name : string) (names : list string) (bounds : list f64)
    (e : list string * (list Z * f64 * Z)) : string :=
  let '(labels, (counts, sum, n)) := e in
  let base_labels := format_labels names labels in
  export_buckets name base_labels bounds 0 0 counts +:+
    (line (name +:+ ("_sum" +:+ (base_labels +:+ (" " +:+ display_f64 sum)))) +:+
     line (name +:+ ("_count" +:+ (base_labels +:+ (" " +:+ pretty n))))).

Definition export_histogram_vec `{LabelOrder Histogram} (name help : string) (v : HistogramVec) : string :=
  line (help_line name help) +:+ (line (type_line name "histogram") +:+
    (match histogram_vec_get_all v with
     | [] =>
         concat_text (map (λ b, line (name +:+ ("_bucket{le=" +:+ (quoted (format_bucket_label b) +:+ "} 0"))))
           (hv_buckets v)) +:+ (line (name +:+ "_sum 0") +:+ line (name +:+ "_count 0"))
     | entries => concat_text (map (export_histogram_entry name (hv_label_names v) (hv_buckets v)) entries)
     end +:+ line "")).

Definition export_uptime (r : MetricsRegistry) : string :=
  line "# HELP nano_uptime_seconds Runtime uptime in seconds" +:+
    (line "# TYPE nano_uptime_seconds gauge" +:+
      (line ("nano_uptime_seconds " +:+ pretty (uptime r)) +:+ line "")).

Definition export `{LabelOrder Counter, LabelOrder Gauge, LabelOrder Histogram} (r : MetricsRegistry) : string :=
  concat_text
    [export_counter_vec "nano_requests_total" "Total HTTP requests" (requests_total r);
     export_histogram_vec "nano_request_duration_ms" "Request latency in milliseconds" (request_duration r);
     export_counter_vec "nano_errors_total" "Total errors by status code" (errors_total r);
     export_gauge_vec "nano_isolates_active" "Number of active isolates" (isolates_active r);
     export_gauge_vec "nano_memory_bytes" "Memory usage in bytes" (memory_bytes r);
     export_gauge_vec "nano_worker_utilization" "Worker utilization percentage" (worker_utilization r);
     export_uptime r;
     export_counter "nano_heap_limit_hits_total" "Total heap limit enforcement events"
       (counter_get (heap_limit_hits_total r));
     export_counter "nano_cpu_timeout_total" "Total CPU timeout enforcement events"
       (counter_get (cpu_timeout_total r))].

(** ** A reader of the format

    A sample is a metric name, labels and a value; a line is empty, a comment or a
    sample.  In a label value a backslash makes the next character literal, except
    that [\n] is a new line. *)

Record sample := mkSample {
  sample_name : string;
  sample_labels : list (string * string);
  sample_value : string;
}.

Definition unescape (c : ascii) : ascii := if char_eqb c (ch "n") then newline_char else c.

(** A label value after its opening quote, with what follows the closing one. *)
Fixpoint read_value (s : string) : option (string * string) :=
  match s with
  | EmptyString => None
  | String a s' =>
      if char_eqb a quote_char then Some ("", s')
      else if char_eqb a backslash then
        match s' with
        | EmptyString => None
        | String c s'' => '(v, rest) ← read_value s''; Some (String (unescape c) v, rest)
        end
      else '(v, rest) ← read_value s'; Some (String a v, rest)
  end.

(** Labels after the opening brace; every label takes a character of the fuel. *)
Fixpoint read_labels (fuel : nat) (s : string) : option (list (string * string) * string) :=
  match fuel with
  | O => None
  | S f =>
      '(name, rest) ← split_once (ch "=") s;
      match rest with
      | String q rest' =>
          if char_eqb q quote_char then
            '(value, rest) ← read_value rest';
            match rest with
            | String c rest'' =>
                if char_eqb c (ch ",") then
                  '(labels, rest) ← read_labels f rest''; Some ((name, value) :: labels, rest)
                else if char_eqb c (ch "}") then Some ([(name, value)], rest'')
                else None
            | EmptyString => None
            end
          else None
      | EmptyString => None
      end
  end.

(** The metric name: up to the first brace or space. *)
Fixpoint read_name (s : string) : string * string :=
  match s with
  | EmptyString => ("", "")
  | String a s' =>
      if char_eqb a (ch "{") || char_eqb a (ch " ") then ("", s)
      else let '(name, rest) := read_name s' in (String a name, rest)
  end.

Definition parse_line (l : string) : option sample :=
  let '(name, rest) := read_name l in
  match rest with
  | EmptyString => None
  | String c rest =>
      if char_eqb c (ch "{") then
        '(labels, rest) ← read_labels (String.length rest) rest;
        match rest with
        | String sp value => if char_eqb sp (ch " ") then Some (mkSample name labels value) else None
        | EmptyString => None
        end
      else Some (mkSample name [] rest)
  end.

Definition is_sample_line (l : string) : bool := negb (is_empty l) && negb (starts_with "#" l).

Definition parse_exposition (text : string) : option (list sample) :=
  mapM parse_line (List.filter is_sample_line (split newline_char text)).

(** ** What the registry has to say *)

Definition value_samples (name : string) (names : list string) (entries : list (list string * Z)) :
    list sample :=
  match entries with
  | [] => [mkSample name [] "0"]
  | _ => map (λ e, mkSample name (zip names e.1) (pretty e.2)) entries
  end.

(** [sum (counts[0..=i])], modulo 2^64 *)
Fixpoint running_totals (acc : Z) (counts : list Z) : list Z :=
  match counts with
  | [] => []
  | c :: counts' => add_u64 acc c :: running_totals (add_u64 acc c) counts'
  end.

Definition bucket_samples (name : string) (labels : list (string * string)) (bounds : list f64)
    (totals : list Z) : list sample :=
  imap (λ i n, mkSample (name +:+ "_bucket")
                 (labels ++ [("le", format_bucket_label (default (S754_infinity false) (bounds !! i)))])
                 (pretty n)) totals.

Definition histogram_samples (name : string) (names : list string) (bounds : list f64)
    (entries : list (list string * (list Z * f64 * Z))) : list sample :=
  match entries with
  | [] =>
      map (λ b, mkSample (name +:+ "_bucket") [("le", format_bucket_label b)] "0") bounds ++
      [mkSample (name +:+ "_sum") [] "0"; mkSample (name +:+ "_count") [] "0"]
  | _ =>
      flat_map (λ '(labels, (counts, sum, n)),
        bucket_samples name (zip names labels) bounds (running_totals 0 counts) ++
        [mkSample (name +:+ "_sum") (zip names labels) (display_f64 sum);
         mkSample (name +:+ "_count") (zip names labels) (pretty n)]) entries
  end.

(** The families in the order of [export]: name, help text, type and samples. *)
Definition families `{LabelOrder Counter, LabelOrder Gauge, LabelOrder Histogram} (r : MetricsRegistry) :
    list (string * string * string * list sample) :=
  let of_counters name help (v : CounterVec) :=
    (name, help, "counter", value_samples name (cv_label_names v) (counter_vec_get_all v)) in
  let of_gauges name help (v : GaugeVec) :=
    (name, help, "gauge", value_samples name (gv_label_names v) (gauge_vec_get_all v)) in
  let of_value name help kind n := (name, help, kind, [mkSample name [] (pretty (n : Z))]) in
  [of_counters "nano_requests_total" "Total HTTP requests" (requests_total r);
   ("nano_request_duration_ms", "Request latency in milliseconds", "histogram",
    histogram_samples "nano_request_duration_ms" (hv_label_names (request_duration r))
      (hv_buckets (request_duration r)) (histogram_vec_get_all (request_duration r)));
   of_counters "nano_errors_total" "Total errors by status code" (errors_total r);
   of_gauges "nano_isolates_active" "Number of active isolates" (isolates_active r);
   of_gauges "nano_memory_bytes" "Memory usage in bytes" (memory_bytes r);
   of_gauges "nano_worker_utilization" "Worker utilization percentage" (worker_utilization r);
   of_value "nano_uptime_seconds" "Runtime uptime in seconds" "gauge" (uptime r);
   of_value "nano_heap_limit_hits_total" "Total heap limit enforcement events" "counter"
     (counter_get (heap_limit_hits_total r));
   of_value "nano_cpu_timeout_total" "Total CPU timeout enforcement events" "counter"
     (counter_get (cpu_timeout_total r))].

Definition samples_of `{LabelOrder Counter, LabelOrder Gauge, LabelOrder Histogram} (r : MetricsRegistry) :
    list sample :=
  flat_map snd (families r).

(** * Theorems *)

(** ** Escaping *)

Definition escape_char (a : ascii) : string :=
  if char_eqb a backslash then "\\"
  else if char_eqb a quote_char then String backslash (String quote_char "")
  else if char_eqb a newline_char then "\n"
  else String a "".

Lemma replace_char_app c r (a b : string) :
  replace_char c r (a +:+ b) = replace_char c r a +:+ replace_char c r b.
Proof.
  induction a as [|x a IH]; [done|]. rewrite str_app_cons. simpl. rewrite IH.
  destruct (char_eqb x c); [by rewrite str_app_assoc|done].
Qed.

(** The order of the three replacements matters: backslashes come first. *)
Lemma escape_label_cons a s : escape_label (String a s) = escape_char a +:+ escape_label s.
Proof.
  unfold escape_label, escape_char. simpl. destruct (char_eqb a backslash) eqn:E1.
  - rewrite !replace_char_app. f_equal. 
  - simpl. destruct (char_eqb a quote_char) eqn:E2.
    + rewrite !replace_char_app. f_equal.
    + simpl. by destruct (char_eqb a newline_char).
Qed.

Lemma escape_no_newline v : contains_char newline_char (escape_label v) = false.
Proof.
  induction v as [|a v IH]; [done|]. rewrite escape_label_cons, contains_char_app, IH, orb_false_r.
  unfold escape_char. repeat case_if; try done. simpl. rewrite orb_false_r. apply char_eqb_neq.
  intros ->. by apply char_eqb_neq in Heqb1.
Qed.

Lemma escape_plain v : all_chars number_char v = true → escape_label v = v.
Proof.
  induction v as [|a v IH]; simpl; [done|]. intros [Ha Hv]%andb_true_iff.
  rewrite escape_label_cons, IH by done. unfold escape_char.
  assert (∀ c, number_char c = false → char_eqb a c = false) as Hne
    by (intros c Hc; apply char_eqb_neq; congruence).
  by rewrite !Hne.
Qed.

Lemma read_value_backslash c t :
  read_value (String backslash (String c t)) =
    ('(v, rest) ← read_value t; Some (String (unescape c) v, rest)).
Proof. reflexivity. Qed.

Lemma read_value_escape v rest : read_value (escape_label v +:+ String quote_char rest) = Some (v, rest).
Proof.
  induction v as [|a v IH]; [done|]. rewrite escape_label_cons, <-str_app_assoc. unfold escape_char.
  destruct (char_eqb a backslash) eqn:E1; [|destruct (char_eqb a quote_char) eqn:E2;
    [|destruct (char_eqb a newline_char) eqn:E3]].
  - apply char_eqb_eq in E1 as ->.
    change ("\\" +:+ ?t) with (String backslash (String backslash t)).
    by rewrite read_value_backslash, IH.
  - apply char_eqb_eq in E2 as ->.
    change (String backslash (String quote_char "") +:+ ?t) with (String backslash (String quote_char t)).
    by rewrite read_value_backslash, IH.
  - apply char_eqb_eq in E3 as ->. change ("\n" +:+ ?t) with (String backslash (String (ch "n") t)).
    by rewrite read_value_backslash, IH.
  - rewrite str_app_cons, str_app_nil_l. cbn [read_value]. by rewrite E1, E2, IH.
Qed.

(** ** Lines *)

Definition render_labels (labels : list (string * string)) : string :=
  match labels with
  | [] => ""
  | _ => "{" +:+ (join "," (map (λ p, label_item p.1 p.2) labels) +:+ "}")
  end.

Definition render (s : sample) : string :=
  sample_name s +:+ (render_labels (sample_labels s) +:+ (" " +:+ sample_value s)).

Lemma label_items_zip names values :
  zip_with label_item names values = map (λ p, label_item p.1 p.2) (zip names values).
Proof. revert values. induction names as [|m names IH]; intros [|w values]; simpl; congruence. Qed.

Lemma format_labels_render names values : format_labels names values = render_labels (zip names values).
Proof.
  destruct names as [|n names], values as [|v values]; try done.
  unfold format_labels. by rewrite label_items_zip.
Qed.

Lemma read_labels_join fuel labels rest :
  labels ≠ [] → (length labels ≤ fuel)%nat →
  Forall (λ p, contains_char (ch "=") p.1 = false) labels →
  read_labels fuel (join "," (map (λ p, label_item p.1 p.2) labels) +:+ ("}" +:+ rest)) = Some (labels, rest).
Proof.
  revert labels. induction fuel as [|fuel IH]; intros [|[n v] labels] Hne Hlen HF; simpl in Hlen; try done; [lia|].
  apply Forall_cons in HF as [Hn HF]. simpl in Hn.
  assert (∀ tail, split_once (ch "=") (label_item n v +:+ tail) =
                  Some (n, String quote_char (escape_label v +:+ String quote_char tail))) as Hsplit.
  { intros tail. unfold label_item, quoted. rewrite <-str_app_assoc.
    change ("=" +:+ ?q) with (String (ch "=") q).
    change (String (ch "=") ?q +:+ ?t) with (String (ch "=") (q +:+ t)).
    rewrite split_once_join by done. do 2 f_equal. rewrite str_app_cons, <-str_app_assoc. done. }
  destruct labels as [|p labels].
  - simpl join. cbn [read_labels]. rewrite Hsplit. cbn -[read_value]. by rewrite read_value_escape.
  - change (join "," (map (λ p, label_item p.1 p.2) ((n, v) :: p :: labels)))
      with (label_item n v +:+ ("," +:+ join "," (map (λ p, label_item p.1 p.2) (p :: labels)))).
    rewrite <-str_app_assoc. cbn [read_labels]. rewrite Hsplit. cbn -[read_value join map String.append].
    rewrite read_value_escape. cbn -[join map String.append]. rewrite <-str_app_assoc.
    change ("," +:+ ?t) with (String (ch ",") t). cbn -[join map String.append].
    by rewrite IH by (done || simpl in *; lia).
Qed.

(** Metric and label names are made of letters, digits and underscores. *)
Definition name_char (a : ascii) : bool := is_alphanumeric a || char_eqb a underscore.
Definition name_ok (n : string) : bool := negb (is_empty n) && all_chars name_char n.

Record sample_ok (s : sample) : Prop := {
  so_name : name_ok (sample_name s) = true;
  so_labels : Forall (λ p, name_ok p.1 = true) (sample_labels s);
  so_value : contains_char newline_char (sample_value s) = false;
}.

Lemma name_lacks n c : name_ok n = true → name_char c = false → contains_char c n = false.
Proof. intros [_ Hn]%andb_true_iff Hc. by eapply all_chars_contains. Qed.

Lemma read_name_app n c rest :
  all_chars name_char n = true → c = ch "{" ∨ c = ch " " →
  read_name (n +:+ String c rest) = (n, String c rest).
Proof.
  intros Hn Hc. induction n as [|a n IH].
  - rewrite str_app_nil_l. simpl. by destruct Hc as [-> | ->].
  - simpl in Hn. apply andb_true_iff in Hn as [Ha Hn]. rewrite str_app_cons. simpl.
    assert (∀ d, name_char d = false → char_eqb a d = false) as Hne
      by (intros d Hd; apply char_eqb_neq; congruence).
    by rewrite !Hne, (IH Hn).
Qed.

Lemma length_label_items labels :
  (length labels ≤ String.length (join "," (map (λ p, label_item p.1 p.2) labels)))%nat.
Proof.
  assert (∀ p : string * string, 0 < String.length (label_item p.1 p.2))%nat as Hp.
  { intros p. unfold label_item. rewrite !length_app_string. simpl. lia. }
  induction labels as [|p [|q labels] IH]; simpl; [lia|specialize (Hp p); lia|].
  simpl in IH. rewrite !length_app_string. simpl String.length. specialize (Hp p). lia.
Qed.

Lemma parse_render s : sample_ok s → parse_line (render s) = Some s.
Proof.
  destruct s as [n labels v]. intros [Hn Hl Hv]. unfold render, parse_line. simpl in *.
  pose proof Hn as [_ Hc]%andb_true_iff. destruct labels as [|p labels].
  - simpl. rewrite str_app_nil_l. change (" " +:+ v) with (String (ch " ") v).
    by rewrite read_name_app by auto.
  - unfold render_labels. set (items := join "," _).
    change (("{" +:+ ?t) +:+ ?u) with (String (ch "{") (t +:+ u)). rewrite read_name_app by auto.
    rewrite char_eqb_refl. rewrite <-str_app_assoc. unfold items. rewrite read_labels_join.
    + done.
    + done.
    + pose proof (length_label_items (p :: labels)). rewrite length_app_string. lia.
    + eapply Forall_impl; [exact Hl|]. intros q Hq. by apply name_lacks.
Qed.

Lemma render_is_sample_line s : sample_ok s → is_sample_line (render s) = true.
Proof.
  intros [Hn _ _]. destruct s as [n l v]. unfold render. simpl in *.
  apply andb_true_iff in Hn as [He Hn]. destruct n as [|a n]; [done|]. rewrite str_app_cons.
  unfold is_sample_line. simpl in *. apply andb_true_iff in Hn as [Ha _].
  destruct (starts_with "#" (String a _)) eqn:E; [|done].
  apply starts_with_true in E as [t [= -> _]]. done.
Qed.

Lemma render_no_newline s : sample_ok s → contains_char newline_char (render s) = false.
Proof.
  destruct s as [n labels v]. intros [Hn Hl Hv]. unfold render. simpl in *.
  rewrite !contains_char_app, (name_lacks _ _ Hn) by done. simpl. rewrite Hv, orb_false_r.
  destruct labels as [|p labels]; [done|]. unfold render_labels. rewrite !contains_char_app.
  rewrite contains_char_join by done.
  assert (existsb (contains_char newline_char) (map (λ p, label_item p.1 p.2) (p :: labels)) = false)
    as ->; [|done].
  apply existsb_false, Forall_fmap. eapply Forall_impl; [exact Hl|]. intros [ln lv] Hq. simpl in *.
  unfold label_item, quoted. rewrite !contains_char_app, (name_lacks _ _ Hq) by done. simpl.
  by rewrite contains_char_app, escape_no_newline.
Qed.

(** ** The text as lines *)

Definition text_of_lines (ls : list string) : string := concat_text (map line ls).

Lemma concat_text_app l1 l2 : concat_text (l1 ++ l2) = concat_text l1 +:+ concat_text l2.
Proof. induction l1 as [|x l1 IH]; simpl; [done|]. by rewrite IH, str_app_assoc. Qed.

Lemma text_of_lines_app l1 l2 : text_of_lines (l1 ++ l2) = text_of_lines l1 +:+ text_of_lines l2.
Proof. unfold text_of_lines. by rewrite map_app, concat_text_app. Qed.

Lemma text_of_lines_cons l ls : text_of_lines (l :: ls) = line l +:+ text_of_lines ls.
Proof. done. Qed.

Lemma split_text_of_lines ls :
  Forall (λ l, contains_char newline_char l = false) ls →
  split newline_char (text_of_lines ls) = ls ++ [""].
Proof.
  induction 1 as [|l ls Hl Hls IH]; [done|]. rewrite text_of_lines_cons. unfold line.
  rewrite <-str_app_assoc. change (String newline_char "" +:+ ?t) with (String newline_char t).
  by rewrite split_app, IH, split_one.
Qed.

Lemma concat_text_lines {A} (f : A → list string) (xs : list A) :
  concat_text (map (λ x, text_of_lines (f x)) xs) = text_of_lines (flat_map f xs).
Proof. induction xs as [|x xs IH]; simpl; [done|]. by rewrite text_of_lines_app, IH. Qed.

(** The lines of a family whose samples are [ss]. *)
Definition family (name help kind : string) (ss : list sample) : list string :=
  help_line name help :: type_line name kind :: map render ss ++ [""].

Lemma export_counter_family name help value :
  export_counter name help value = text_of_lines (family name help "counter" [mkSample name [] (pretty value)]).
Proof. unfold export_counter, family, text_of_lines, render. simpl. by rewrite ?str_app_nil_r. Qed.

Lemma family_text name help kind ss :
  text_of_lines (family name help kind ss) =
    line (help_line name help) +:+ (line (type_line name kind) +:+
      (text_of_lines (map render ss) +:+ line "")).
Proof. unfold family. by rewrite !text_of_lines_cons, text_of_lines_app. Qed.

Lemma export_uptime_family r :
  export_uptime r =
    text_of_lines (family "nano_uptime_seconds" "Runtime uptime in seconds" "gauge"
      [mkSample "nano_uptime_seconds" [] (pretty (uptime r))]).
Proof.
  rewrite family_text. unfold export_uptime. do 2 f_equal. f_equal.
  symmetry. apply str_app_nil_r.
Qed.

Lemma export_values_family name help kind names entries :
  export_values name help kind names entries =
    text_of_lines (family name help kind (value_samples name names entries)).
Proof.
  rewrite family_text. unfold export_values. do 2 f_equal. f_equal.
  destruct entries as [|e entries]; [symmetry; apply str_app_nil_r|]. unfold value_samples, text_of_lines.
  rewrite !map_map. f_equal. apply map_ext. intros [labels v]. unfold render. simpl.
  by rewrite format_labels_render.
Qed.

(** The text of a bucket line: the label [le] goes before the closing brace. *)
Lemma bucket_line name labels label total :
  all_chars number_char label = true →
  (if is_empty (render_labels labels)
   then name +:+ ("_bucket{le=" +:+ (quoted label +:+ ("} " +:+ pretty total)))
   else name +:+ ("_bucket" +:+ ((stake (String.length (render_labels labels) - 1) (render_labels labels) +:+
          ((if 2 <? slen (render_labels labels) then "," else "") +:+ ("le=" +:+ (quoted label +:+ "}")))) +:+
          (" " +:+ pretty total)))) =
  render (mkSample (name +:+ "_bucket") (labels ++ [("le", label)]) (pretty (total : Z))).
Proof.
  intros Hl. unfold render. simpl sample_name. simpl sample_labels. simpl sample_value.
  assert (label_item "le" label = "le=" +:+ quoted label) as Hle
    by (unfold label_item; by rewrite escape_plain).
  destruct labels as [|p labels].
  - cbn [render_labels is_empty app map join fst snd]. rewrite Hle, <-!str_app_assoc. reflexivity.
  - set (items := map (λ p : string * string, label_item p.1 p.2) (p :: labels)).
    assert (render_labels (p :: labels) = "{" +:+ (join "," items +:+ "}")) as -> by done.
    assert (render_labels ((p :: labels) ++ [("le", label)]) =
            "{" +:+ ((join "," items +:+ ("," +:+ ("le=" +:+ quoted label))) +:+ "}")) as ->.
    { cbn [app render_labels]. rewrite app_comm_cons, map_app. cbn [map fst snd]. rewrite Hle.
      fold items. by rewrite join_snoc by done. }
    assert (0 < slen (join "," items)) as Hlen.
    { pose proof (length_label_items (p :: labels)) as H. fold items in H. unfold slen.
      change (length (p :: labels)) with (S (length labels)) in H. lia. }
    rewrite (proj2 (Z.ltb_lt _ _)) by (rewrite !slen_app; change (slen "{") with 1; change (slen "}") with 1; lia).
    change (is_empty ("{" +:+ ?t)) with false. cbn iota.
    assert (stake (String.length ("{" +:+ (join "," items +:+ "}")) - 1) ("{" +:+ (join "," items +:+ "}")) =
            "{" +:+ join "," items) as ->.
    { rewrite str_app_assoc, length_app_string. simpl (String.length "}").
      rewrite Nat.add_sub. apply stake_app. }
    by rewrite <-!str_app_assoc.
Qed.

Lemma all_chars_bucket_label b : all_chars number_char (format_bucket_label b) = true.
Proof. unfold format_bucket_label. case_if; [done|]. apply all_chars_display_fixed3. Qed.

Definition bucket_sample (name : string) (labels : list (string * string)) (bounds : list f64)
    (i : nat) (total : Z) : sample :=
  mkSample (name +:+ "_bucket")
    (labels ++ [("le", format_bucket_label (default (S754_infinity false) (bounds !! i)))]) (pretty total).

Lemma export_buckets_lines name labels bounds i acc counts :
  export_buckets name (render_labels labels) bounds i acc counts =
    text_of_lines (map render (imap (λ j, bucket_sample name labels bounds (i + j)) (running_totals acc counts))).
Proof.
  revert i acc. induction counts as [|c counts IH]; intros i acc; [done|].
  cbn [running_totals imap map export_buckets]. rewrite text_of_lines_cons, IH.
  rewrite bucket_line by apply all_chars_bucket_label. f_equal.
  - by rewrite Nat.add_0_r.
  - do 2 f_equal. apply imap_ext. intros j n _. unfold compose. by rewrite Nat.add_succ_r.
Qed.

Definition entry_samples (name : string) (names : list string) (bounds : list f64)
    (e : list string * (list Z * f64 * Z)) : list sample :=
  let '(labels, (counts, sum, n)) := e in
  bucket_samples name (zip names labels) bounds (running_totals 0 counts) ++
  [mkSample (name +:+ "_sum") (zip names labels) (display_f64 sum);
   mkSample (name +:+ "_count") (zip names labels) (pretty n)].

Lemma export_histogram_entry_lines name names bounds e :
  export_histogram_entry name names bounds e = text_of_lines (map render (entry_samples name names bounds e)).
Proof.
  destruct e as [labels [[counts sum] n]]. unfold export_histogram_entry, entry_samples.
  rewrite format_labels_render, export_buckets_lines, map_app, text_of_lines_app. f_equal.
  unfold render. cbn [map sample_name sample_labels sample_value].
  rewrite !text_of_lines_cons, <-!str_app_assoc. f_equal. by rewrite str_app_nil_r.
Qed.

Lemma export_histogram_family `{LabelOrder Histogram} name help v :
  export_histogram_vec name help v =
    text_of_lines (family name help "histogram"
      (histogram_samples name (hv_label_names v) (hv_buckets v) (histogram_vec_get_all v))).
Proof.
  rewrite family_text. unfold export_histogram_vec. do 2 f_equal. f_equal.
  destruct (histogram_vec_get_all v) as [|e entries].
  - unfold histogram_samples. rewrite map_app, text_of_lines_app. f_equal.
    + unfold text_of_lines. rewrite !map_map. f_equal. apply map_ext. intros b. unfold render.
      cbn [sample_name sample_labels sample_value render_labels map join fst snd].
      unfold label_item. rewrite escape_plain by apply all_chars_bucket_label.
      by rewrite <-!str_app_assoc.
    + unfold render. cbn [map sample_name sample_labels sample_value render_labels].
      rewrite !text_of_lines_cons, <-!str_app_assoc. f_equal. by rewrite str_app_nil_r.
  - change (histogram_samples name (hv_label_names v) (hv_buckets v) (e :: entries))
      with (flat_map (entry_samples name (hv_label_names v) (hv_buckets v)) (e :: entries)).
    generalize (e :: entries). clear. intros es.
    rewrite (map_ext _ _ (export_histogram_entry_lines name (hv_label_names v) (hv_buckets v))).
    rewrite concat_text_lines. f_equal. induction es as [|e es IH]; simpl; [done|].
    by rewrite map_app, IH.
Qed.

(** ** The whole text *)

Section exposition.
Context `{LabelOrder Counter, LabelOrder Gauge, LabelOrder Histogram}.

Definition family_lines (f : string * string * string * list sample) : list string :=
  let '(name, help, kind, ss) := f in family name help kind ss.

Lemma export_lines r : export r = text_of_lines (flat_map family_lines (families r)).
Proof.
  rewrite <-concat_text_lines. unfold export. f_equal. unfold families. cbn [map family_lines].
  unfold export_counter_vec, export_gauge_vec.
  by rewrite !export_values_family, export_histogram_family, !export_counter_family, export_uptime_family.
Qed.

(** A family whose comment lines are lines. *)
Definition family_ok (f : string * string * string * list sample) : Prop :=
  let '(name, help, kind, ss) := f in
  contains_char newline_char (help_line name help) = false ∧
  contains_char newline_char (type_line name kind) = false ∧ Forall sample_ok ss.

Lemma family_lines_ok f : family_ok f →
  Forall (λ l, contains_char newline_char l = false) (family_lines f) ∧
  List.filter is_sample_line (family_lines f) = map render (snd f).
Proof.
  destruct f as [[[name help] kind] ss]. intros (Hh & Ht & Hss). cbn [family_lines snd]. unfold family. split.
  - constructor; [done|]. constructor; [done|]. apply Forall_app. split; [|by repeat constructor].
    apply Forall_fmap. eapply Forall_impl; [exact Hss|]. apply render_no_newline.
  - cbn [List.filter]. assert (∀ l, is_sample_line (String (ch "#") l) = false) as Hc.
    { intros l. unfold is_sample_line. assert (starts_with "#" (String (ch "#") l) = true) as ->; [|done].
      apply (starts_with_app "#" l). }
    rewrite (Hc _ : is_sample_line (help_line name help) = false),
      (Hc _ : is_sample_line (type_line name kind) = false), List.filter_app, app_nil_r. clear Hh Ht Hc.
    induction Hss as [|s ss Hs Hss IH]; [done|]. cbn [map List.filter]. rewrite render_is_sample_line by done.
    by rewrite IH.
Qed.

Lemma parse_families fs : Forall family_ok fs →
  parse_exposition (text_of_lines (flat_map family_lines fs)) = Some (flat_map snd fs).
Proof.
  intros Hfs. unfold parse_exposition. rewrite split_text_of_lines.
  - rewrite List.filter_app. change (List.filter is_sample_line [""]) with (@nil string). rewrite app_nil_r.
    assert (List.filter is_sample_line (flat_map family_lines fs) = map render (flat_map snd fs)) as ->.
    { induction Hfs as [|f fs Hf Hfs IH]; [done|]. cbn [flat_map].
      rewrite List.filter_app, map_app, IH. f_equal. by apply family_lines_ok. }
    apply mapM_Some. apply Forall2_fmap_l, Forall_Forall2_diag.
    induction Hfs as [|[[[n h] k] ss] fs (_ & _ & Hf) Hfs IH]; [constructor|]. cbn [flat_map].
    apply Forall_app. split; [|done]. eapply Forall_impl; [exact Hf|]. apply parse_render.
  - induction Hfs as [|f fs Hf Hfs IH]; [constructor|]. cbn [flat_map]. apply Forall_app.
    split; [by apply family_lines_ok|done].
Qed.
Lemma zip_names_ok names (values : list string) :
  Forall (λ n, name_ok n = true) names → Forall (λ p, name_ok p.1 = true) (zip names values).
Proof.
  intros Hn. revert values. induction Hn as [|n names Hn Hns IH]; intros [|v values]; simpl;
    constructor; [done|apply IH].
Qed.

Lemma pretty_no_newline (z : Z) : contains_char newline_char (pretty z) = false.
Proof. apply (all_chars_contains number_char); [apply all_chars_pretty|done]. Qed.

Lemma value_samples_ok name names entries :
  name_ok name = true → Forall (λ n, name_ok n = true) names →
  Forall sample_ok (value_samples name names entries).
Proof.
  intros Hn Hns. destruct entries as [|e entries]; [by repeat constructor|].
  apply Forall_fmap, Forall_true. intros [labels v].
  split; [done|by apply zip_names_ok|apply pretty_no_newline].
Qed.

Lemma name_ok_suffix name suffix : name_ok name = true → all_chars name_char suffix = true →
  name_ok (name +:+ suffix) = true.
Proof.
  unfold name_ok. intros [He Hn]%andb_true_iff Hs. rewrite all_chars_app, Hn, Hs.
  destruct name; [done|]. done.
Qed.

Lemma histogram_samples_ok name names bounds entries :
  name_ok name = true → Forall (λ n, name_ok n = true) names →
  Forall sample_ok (histogram_samples name names bounds entries).
Proof.
  intros Hn Hns. destruct entries as [|e entries].
  - apply Forall_app. split; [apply Forall_fmap, Forall_true; intros b|];
      repeat constructor; by apply name_ok_suffix.
  - change (Forall sample_ok (flat_map (entry_samples name names bounds) (e :: entries))).
    generalize (e :: entries). clear e entries. intros es. induction es as [|[labels [[counts sum] n]] es IH];
      [constructor|]. cbn [flat_map]. apply Forall_app. split; [|done]. unfold entry_samples. apply Forall_app. split.
    + unfold bucket_samples. apply Forall_lookup. intros i s. rewrite list_lookup_imap, fmap_Some.
      intros (t & _ & ->). split; [by apply name_ok_suffix| |apply pretty_no_newline].
      apply Forall_app. split; [by apply zip_names_ok|by repeat constructor].
    + repeat constructor; simpl; try (by apply name_ok_suffix); try (by apply zip_names_ok).
      * apply (all_chars_contains number_char); [apply all_chars_display_f64|done].
      * apply pretty_no_newline.
Qed.

Lemma families_ok r : standard_names r → Forall family_ok (families r).
Proof.
  intros (Hn1 & Hn2 & Hn3 & Hb & Hn4 & Hn5 & Hn6). unfold families. rewrite Hn1, Hn2, Hn3, Hn4, Hn5, Hn6.
  repeat apply Forall_cons_2; try apply Forall_nil_2;
    (split; [done|]; split; [done|];
     first [apply value_samples_ok|apply histogram_samples_ok|by repeat constructor; apply pretty_no_newline];
     by repeat constructor).
Qed.

(** The text of the exporter reads back: for a registry with its own label names,
    whatever hosts, statuses and other label values clients supplied, the reader of
    the format finds exactly the registry's samples, in order.  So no label value can
    break a line, forge a sample or run into another label. *)
Theorem exposition_roundtrip (r : MetricsRegistry) (Hnames : standard_names r) :
  parse_exposition (export r) = Some (samples_of r).
Proof. rewrite export_lines. by apply parse_families, families_ok. Qed.

(** ** From the calls to the text *)

Lemma elem_of_flat_map {A B} (f : A → list B) l x : x ∈ flat_map f l ↔ ∃ y, y ∈ l ∧ x ∈ f y.
Proof. rewrite list_elem_of_In, in_flat_map. by setoid_rewrite list_elem_of_In. Qed.

Lemma value_samples_name name names entries s :
  s ∈ value_samples name names entries → sample_name s = name.
Proof.
  destruct entries as [|e entries].
  - intros ->%list_elem_of_singleton. done.
  - intros (e' & -> & _)%list_elem_of_fmap. done.
Qed.

Lemma entry_samples_elem name names bounds labels counts sum n s :
  s ∈ entry_samples name names bounds (labels, (counts, sum, n)) ↔
  (∃ i t, running_totals 0 counts !! i = Some t ∧ s = bucket_sample name (zip names labels) bounds i t) ∨
  s = mkSample (name +:+ "_sum") (zip names labels) (display_f64 sum) ∨
  s = mkSample (name +:+ "_count") (zip names labels) (pretty n).
Proof.
  unfold entry_samples, bucket_samples. rewrite elem_of_app, list_elem_of_lookup, !elem_of_cons, elem_of_nil.
  setoid_rewrite list_lookup_imap. setoid_rewrite fmap_Some. unfold bucket_sample. naive_solver.
Qed.

Lemma value_samples_elem name names entries labels v :
  labels ≠ [] →
  mkSample name labels v ∈ value_samples name names entries ↔
  ∃ e, e ∈ entries ∧ labels = zip names e.1 ∧ v = pretty e.2.
Proof.
  intros Hne. destruct entries as [|e entries].
  - unfold value_samples. rewrite list_elem_of_singleton.
    split; [by intros [= ->]|by intros (e & He%elem_of_nil & _)].
  - unfold value_samples. rewrite list_elem_of_fmap. split.
    + intros (e' & [= -> ->] & He). eauto.
    + intros (e' & He & -> & ->). eauto.
Qed.

(** A line of a bucket belongs to an entry; the other histogram lines have no [le]. *)
Lemma bucket_samples_elem name names bounds entries labels v :
  (length names < length labels)%nat → (1 < length labels)%nat →
  mkSample (name +:+ "_bucket") labels v ∈ histogram_samples name names bounds entries ↔
  ∃ ls counts sum n i t, (ls, (counts, sum, n)) ∈ entries ∧ running_totals 0 counts !! i = Some t ∧
    mkSample (name +:+ "_bucket") labels v = bucket_sample name (zip names ls) bounds i t.
Proof.
  intros Hlen Hone. destruct entries as [|e entries].
  - split; [|by intros (?&?&?&?&?&?&He%elem_of_nil&_)].
    intros [(b & [= -> ->] & _)%list_elem_of_fmap|Hs]%elem_of_app; [simpl in Hone; lia|].
    repeat (apply elem_of_cons in Hs as [[= _ -> _]|Hs]; [simpl in Hone; lia|]). by apply elem_of_nil in Hs.
  - change (histogram_samples name names bounds (e :: entries))
      with (flat_map (entry_samples name names bounds) (e :: entries)).
    generalize (e :: entries). clear e entries. intros entries. rewrite elem_of_flat_map. split.
    + intros ([ls [[counts sum] n]] & He & Hs). apply entry_samples_elem in Hs.
      destruct Hs as [(i & t & Ht & Hs)|[[= _ -> _]|[= _ -> _]]]; [by do 6 eexists|..];
        rewrite length_zip_with in Hlen; lia.
    + intros (ls & counts & sum & n & i & t & He & Ht & ->). eexists. split; [exact He|].
      apply entry_samples_elem. eauto.
Qed.

Lemma histogram_samples_name name names bounds entries s :
  s ∈ histogram_samples name names bounds entries →
  sample_name s ∈ [name +:+ "_bucket"; name +:+ "_sum"; name +:+ "_count"].
Proof.
  destruct entries as [|e entries].
  - intros [(b & -> & _)%list_elem_of_fmap|Hs]%elem_of_app; simpl; [by left|].
    repeat (apply elem_of_cons in Hs as [->|Hs]; [simpl; set_solver|]). by apply elem_of_nil in Hs.
  - change (histogram_samples name names bounds (e :: entries))
      with (flat_map (entry_samples name names bounds) (e :: entries)).
    rewrite elem_of_flat_map. intros ([ls [[counts sum] n]] & _ & Hs). apply entry_samples_elem in Hs.
    destruct Hs as [(i & t & _ & ->)|[->| ->]]; simpl; set_solver.
Qed.

Lemma running_totals_lookup acc counts i t :
  running_totals acc counts !! i = Some t ↔
  (i < length counts)%nat ∧ t = as_u64 (acc + sum_list (take (S i) counts)).
Proof.
  revert acc i. induction counts as [|c counts IH]; intros acc i; simpl.
  - rewrite lookup_nil. split; [done|lia].
  - destruct i as [|i]; simpl.
    + rewrite Z.add_0_r. split; [intros [= <-]; split; [lia|done]|by intros [_ ->]].
    + rewrite IH. change (sum_list (c :: ?l)) with (c + sum_list l). unfold add_u64 at 1.
      rewrite as_u64_eq, Z.add_assoc. split; intros [? ->]; (split; [lia|done]).
Qed.

(** The samples with a name belong to the family of that name. *)
Lemma request_sample_family r h s v :
  mkSample "nano_requests_total" [("hostname", h); ("status", s)] v ∈ samples_of r ↔
  mkSample "nano_requests_total" [("hostname", h); ("status", s)] v ∈
    value_samples "nano_requests_total" (cv_label_names (requests_total r)) (counter_vec_get_all (requests_total r)).
Proof.
  unfold samples_of, families. cbn [flat_map snd]. rewrite !elem_of_app. split; [|tauto].
  intros [Hs|[Hs|[Hs|[Hs|[Hs|[Hs|Hs]]]]]]; [done|exfalso..];
    [by apply histogram_samples_name in Hs; set_solver
    |by apply value_samples_name in Hs..|].
  set_solver.
Qed.

Lemma bucket_sample_family r labels v :
  mkSample "nano_request_duration_ms_bucket" labels v ∈ samples_of r ↔
  mkSample "nano_request_duration_ms_bucket" labels v ∈
    histogram_samples "nano_request_duration_ms" (hv_label_names (request_duration r))
      (hv_buckets (request_duration r)) (histogram_vec_get_all (request_duration r)).
Proof.
  unfold samples_of, families. cbn [flat_map snd]. rewrite !elem_of_app. split; [|tauto].
  intros [Hs|[Hs|[Hs|[Hs|[Hs|[Hs|Hs]]]]]]; [by apply value_samples_name in Hs|done|exfalso..];
    [by apply value_samples_name in Hs..|].
  set_solver.
Qed.

Lemma counter_entries_elem (v : CounterVec) k n :
  (k, n) ∈ counter_vec_get_all v ↔ counter_get <$> counters v !! k = Some n.
Proof.
  unfold counter_vec_get_all. rewrite list_elem_of_fmap, fmap_Some. split.
  - intros ([k' c] & [= -> ->] & Hk). rewrite label_iter_perm, elem_of_map_to_list in Hk. eauto.
  - intros (c & Hc & ->). exists (k, c). split; [done|]. by rewrite label_iter_perm, elem_of_map_to_list.
Qed.

Lemma histogram_entries_elem (v : HistogramVec) k e :
  (k, e) ∈ histogram_vec_get_all v ↔ histogram_get <$> histograms v !! k = Some e.
Proof.
  unfold histogram_vec_get_all. rewrite list_elem_of_fmap, fmap_Some. split.
  - intros ([k' h] & [= -> ->] & Hk). rewrite label_iter_perm, elem_of_map_to_list in Hk. eauto.
  - intros (h & Hh & ->). exists (k, h). split; [done|]. by rewrite label_iter_perm, elem_of_map_to_list.
Qed.

(** The numbers of requests in the text are those of the log. *)
Lemma request_samples es r h s v (Hr : refines_log es r) :
  mkSample "nano_requests_total" [("hostname", h); ("status", s)] v ∈ samples_of r ↔
  count (is_request h s) es ≠ 0 ∧ v = pretty (as_u64 (count (is_request h s) es)).
Proof.
  destruct (rl_names _ _ Hr) as (Hn & _). rewrite request_sample_family, Hn, value_samples_elem by done.
  pose proof (rl_requests _ _ Hr h s) as Hc. unfold shown in Hc. split.
  - intros ([k n] & (c & Hk & ->)%counter_entries_elem%fmap_Some & Hz & ->).
    destruct (rl_request_keys _ _ Hr k) as (h' & s' & ->); [eauto|]. injection Hz as <- <-.
    rewrite Hk in Hc. destruct (_ =? 0) eqn:E; [done|]. zreflect. injection Hc as ->. done.
  - intros [Hne ->]. rewrite (proj2 (Z.eqb_neq _ _)) in Hc by done.
    exists ([h; s], as_u64 (count (is_request h s) es)). split; [|done].
    apply counter_entries_elem. by rewrite Hc.
Qed.

Lemma observe_all_buckets h vs : buckets (observe_all h vs) = buckets h.
Proof. revert h. induction vs as [|v vs IH]; intros h; simpl; [done|]. by rewrite IH. Qed.

Lemma durations_counted vs :
  let h := observe_all fresh_durations vs in
  ∀ i b t, REQUEST_DURATION_BUCKETS !! i = Some b →
    running_totals 0 (bucket_counts h) !! i = Some t ↔ t = as_u64 (count (λ d, f64_le d b) vs).
Proof.
  intros h i b t Hi.
  destruct (observe_all_exact vs [] _ (histogram_new_exact _ _ fresh_durations_new)) as (_ & Hl & _ & Ht).
  rewrite observe_all_buckets in Hl, Ht. rewrite app_nil_l in Ht.
  unfold h. rewrite running_totals_lookup, <-(Ht i b Hi). split; [by intros [_ ->]|].
  intros ->. split; [|done]. rewrite Hl. by apply lookup_lt_Some in Hi.
Qed.

Lemma bucket_labels_distinct i j b c :
  REQUEST_DURATION_BUCKETS !! i = Some b → REQUEST_DURATION_BUCKETS !! j = Some c →
  format_bucket_label b = format_bucket_label c → i = j.
Proof.
  intros Hi Hj Hl.
  assert (NoDup (map format_bucket_label REQUEST_DURATION_BUCKETS)) as Hnd
    by (apply (bool_decide_unpack _); vm_compute; reflexivity).
  eapply (NoDup_lookup _ i j); [exact Hnd| |]; rewrite list_lookup_fmap; [by rewrite Hi|].
  by rewrite Hj, Hl.
Qed.

Lemma bucket_samples_exact es r h i b v (Hr : refines_log es r) (Hi : REQUEST_DURATION_BUCKETS !! i = Some b) :
  mkSample "nano_request_duration_ms_bucket" [("hostname", h); ("le", format_bucket_label b)] v ∈ samples_of r ↔
  omap (duration_of h) es ≠ [] ∧ v = pretty (as_u64 (count (λ d, f64_le d b) (omap (duration_of h) es))).
Proof.
  destruct (rl_names _ _ Hr) as (_ & _ & Hn & Hb & _). rewrite bucket_sample_family, Hn, Hb.
  change "nano_request_duration_ms_bucket" with ("nano_request_duration_ms" +:+ "_bucket").
  rewrite bucket_samples_elem by (simpl; lia). pose proof (rl_durations _ _ Hr h) as Hd. split.
  - intros (ls & counts & sum & n & j & t & Hin & Ht & [= Hz ->]).
    apply histogram_entries_elem, fmap_Some in Hin as (hist & Hh & [= -> _ _]).
    destruct (rl_duration_keys _ _ Hr ls) as (h' & ->); [eauto|]. simpl in Hz. injection Hz as <- Hle.
    rewrite Hh in Hd. destruct (omap (duration_of h) es) as [|d ds] eqn:E; [done|]. injection Hd as ->.
    split; [done|]. f_equal.
    destruct (REQUEST_DURATION_BUCKETS !! j) as [c|] eqn:Hj.
    + assert (j = i) as -> by (eapply bucket_labels_distinct; eauto). by apply (durations_counted (d :: ds) i b t).
    + exfalso. apply running_totals_lookup in Ht as [Hlt _].
      destruct (observe_all_exact (d :: ds) [] _ (histogram_new_exact _ _ fresh_durations_new)) as (_ & Hl & _).
      rewrite observe_all_buckets in Hl. apply lookup_ge_None in Hj.
      exact (Nat.lt_irrefl _ (Nat.lt_le_trans _ _ _ (eq_ind _ _ Hlt _ Hl) Hj)).
  - intros [Hne ->]. destruct (omap (duration_of h) es) as [|d ds] eqn:E; [done|].
    set (hist := observe_all fresh_durations (d :: ds)) in *.
    do 5 eexists. exists (as_u64 (count (λ x, f64_le x b) (d :: ds))). split_and!.
    + apply (histogram_entries_elem _ [h]). rewrite Hd. reflexivity.
    + by apply (durations_counted (d :: ds) i b).
    + unfold bucket_sample, f64 in *. cbn [zip zip_with app]. by rewrite Hi.
Qed.

(** C7. A scrape shows what happened: after any calls on the registry, reading back the
    exported text gives, for every host and status, one request count, which is the
    number of such requests (and no line when there was none), and for every host with
    requests and every bucket bound the number of its requests that took at most that
    long, all modulo 2^64. *)
Theorem scrape_exact (now : Z) (es : list event) :
  ∃ r ss, run_events (registry_new now) es = Done r ∧ parse_exposition (export r) = Some ss ∧
    (∀ h s v, mkSample "nano_requests_total" [("hostname", h); ("status", s)] v ∈ ss ↔
       count (is_request h s) es ≠ 0 ∧ v = pretty (as_u64 (count (is_request h s) es))) ∧
    ∀ h i b v, REQUEST_DURATION_BUCKETS !! i = Some b →
      mkSample "nano_request_duration_ms_bucket" [("hostname", h); ("le", format_bucket_label b)] v ∈ ss ↔
      omap (duration_of h) es ≠ [] ∧ v = pretty (as_u64 (count (λ d, f64_le d b) (omap (duration_of h) es))).
Proof.
  destruct (run_events_refine now es) as (r & Hrun & Hr). exists r, (samples_of r). split_and!; [done| | |].
  - rewrite export_lines. apply parse_families, families_ok, (rl_names _ _ Hr).
  - intros. by apply request_samples.
  - intros. by apply bucket_samples_exact with (i := i).
Qed.
End exposition.

(** A host that tries to close its label, break the line and add a sample. *)
Definition forged_host : string :=
  "a" +:+ String quote_char (String backslash ("} 1" +:+ String newline_char ("nano_requests_total 0"))).

Definition forged_registry : MetricsRegistry :=
  let r := registry_new 0 in
  mkRegistry (counter_vec_inc (requests_total r) [forged_host; "200"]) (request_duration r)
    (errors_total r) (isolates_active r) (memory_bytes r) (worker_utilization r)
    (heap_limit_hits_total r) (cpu_timeout_total r) (uptime r) (start_time r).

Lemma exposition_roundtrip_witness :
  ∃ ss, parse_exposition (@export plain_label_order plain_label_order plain_label_order forged_registry) =
    Some (mkSample "nano_requests_total" [("hostname", forged_host); ("status", "200")] "1" :: ss).
Proof.
  eexists.
  rewrite (@exposition_roundtrip plain_label_order plain_label_order plain_label_order forged_registry);
    [vm_compute; reflexivity|by split_and!].
Defined.
