(* ===== verification/TenantMetrics.v ===== *)
(** * [src/metrics/tenant.rs]: metrics per tenant

    Counters, gauges and histograms of every host, and totals over all hosts.  The
    collector creates the metrics of a host on first use and never removes them.
    Recording takes the write lock of the tenant, so it is one step; updating the
    memory figures takes the read lock, so the read and the compare-and-swap of the
    peak may interleave with those of other threads ([PeakThread]). *)

From stdpp Require Import base gmap list strings pretty relations.
From Stdlib Require Import Ascii ZArith Lia SpecFloat.
From S2P Require Import Prelude RustString RustList RustFloat MemoryMonitor Metrics MetricsText.

Open Scope Z_scope.

(** ** Data *)

Definition CPU_TIME_BUCKETS : list f64 :=
  map (λ '(n, d), f64_lit n d)
    [(1, 1000); (5, 1000); (10, 1000); (25, 1000); (50, 1000); (100, 1000); (250, 1000); (500, 1000); (1, 1)]
  ++ [S754_infinity false].

Definition MEMORY_BUCKETS : list f64 :=
  map f64_of_Z [1024; 10240; 102400; 1048576; 10485760; 52428800; 104857600] ++ [S754_infinity false].

Inductive RequestResult := Success | Error | Timeout.

Record TenantMetrics := mkTenant {
  t_hostname : string;
  t_requests_total : Counter;
  t_requests_success : Counter;
  t_requests_error : Counter;
  t_requests_timeout : Counter;
  cpu_seconds_total : Counter;
  context_resets_total : Counter;
  pressure_warning : Counter;
  pressure_critical : Counter;
  pressure_emergency : Counter;
  memory_used_bytes : Gauge;
  memory_external_bytes : Gauge;
  requests_active : Gauge;
  t_isolates_active : Gauge;
  memory_peak_bytes : Z;
  request_duration_seconds : Histogram;
  cpu_time_per_request_seconds : Histogram;
  memory_per_request_bytes : Histogram;
}.

Definition tenant_new (hostname : string) : outcome TenantMetrics :=
  let! durations := histogram_new REQUEST_DURATION_BUCKETS in
  let! cpu := histogram_new CPU_TIME_BUCKETS in
  let! memory := histogram_new MEMORY_BUCKETS in
  Done (mkTenant hostname counter_new counter_new counter_new counter_new counter_new counter_new
          counter_new counter_new counter_new gauge_new gauge_new gauge_new gauge_new 0
          durations cpu memory).

(** ** Recording *)

(** [cpu_time_us as f64 / 1_000_000.0], and [as u64] of it *)
Definition cpu_seconds (cpu_time_us : Z) : f64 := f64_div (f64_of_Z cpu_time_us) (f64_of_Z 1000000).

Definition tenant_record_request (m : TenantMetrics) (result : RequestResult)
    (cpu_time_us memory_bytes duration_ms : Z) : TenantMetrics :=
  let bump (c : Counter) (mine : bool) := if mine then counter_inc c else c in
  mkTenant (t_hostname m)
    (counter_inc (t_requests_total m))
    (bump (t_requests_success m) match result with Success => true | _ => false end)
    (bump (t_requests_error m) match result with Error => true | _ => false end)
    (bump (t_requests_timeout m) match result with Timeout => true | _ => false end)
    (counter_inc_by (cpu_seconds_total m) (f64_to_usize (cpu_seconds cpu_time_us)))
    (context_resets_total m) (pressure_warning m) (pressure_critical m) (pressure_emergency m)
    (memory_used_bytes m) (memory_external_bytes m) (requests_active m) (t_isolates_active m)
    (if memory_bytes >? memory_peak_bytes m then memory_bytes else memory_peak_bytes m)
    (observe (request_duration_seconds m) (f64_div (f64_of_Z duration_ms) (f64_of_Z 1000)))
    (observe (cpu_time_per_request_seconds m) (cpu_seconds cpu_time_us))
    (observe (memory_per_request_bytes m) (f64_of_Z memory_bytes)).

(** [update_memory] when no other thread comes between its two accesses to the peak *)
Definition tenant_update_memory (m : TenantMetrics) (heap_bytes external_bytes : Z) : TenantMetrics :=
  let total := add_u64 heap_bytes external_bytes in
  mkTenant (t_hostname m) (t_requests_total m) (t_requests_success m) (t_requests_error m)
    (t_requests_timeout m) (cpu_seconds_total m) (context_resets_total m) (pressure_warning m)
    (pressure_critical m) (pressure_emergency m)
    (gauge_set (memory_used_bytes m) heap_bytes) (gauge_set (memory_external_bytes m) external_bytes)
    (requests_active m) (t_isolates_active m)
    (if total >? memory_peak_bytes m then total else memory_peak_bytes m)
    (request_duration_seconds m) (cpu_time_per_request_seconds m) (memory_per_request_bytes m).

Definition tenant_record_context_reset (m : TenantMetrics) : TenantMetrics :=
  mkTenant (t_hostname m) (t_requests_total m) (t_requests_success m) (t_requests_error m)
    (t_requests_timeout m) (cpu_seconds_total m) (counter_inc (context_resets_total m))
    (pressure_warning m) (pressure_critical m) (pressure_emergency m) (memory_used_bytes m)
    (memory_external_bytes m) (requests_active m) (t_isolates_active m) (memory_peak_bytes m)
    (request_duration_seconds m) (cpu_time_per_request_seconds m) (memory_per_request_bytes m).

Definition tenant_record_pressure_event (m : TenantMetrics) (level : MemoryPressureLevel) : TenantMetrics :=
  let bump (c : Counter) (mine : bool) := if mine then counter_inc c else c in
  mkTenant (t_hostname m) (t_requests_total m) (t_requests_success m) (t_requests_error m)
    (t_requests_timeout m) (cpu_seconds_total m) (context_resets_total m)
    (bump (pressure_warning m) match level with Warning => true | _ => false end)
    (bump (pressure_critical m) match level with Critical => true | _ => false end)
    (bump (pressure_emergency m) match level with Emergency => true | _ => false end)
    (memory_used_bytes m) (memory_external_bytes m) (requests_active m) (t_isolates_active m)
    (memory_peak_bytes m) (request_duration_seconds m) (cpu_time_per_request_seconds m)
    (memory_per_request_bytes m).

Definition set_requests_active (m : TenantMetrics) (g : Gauge) : TenantMetrics :=
  mkTenant (t_hostname m) (t_requests_total m) (t_requests_success m) (t_requests_error m)
    (t_requests_timeout m) (cpu_seconds_total m) (context_resets_total m) (pressure_warning m)
    (pressure_critical m) (pressure_emergency m) (memory_used_bytes m) (memory_external_bytes m)
    g (t_isolates_active m) (memory_peak_bytes m) (request_duration_seconds m)
    (cpu_time_per_request_seconds m) (memory_per_request_bytes m).

Definition inc_active_requests (m : TenantMetrics) : TenantMetrics :=
  set_requests_active m (gauge_inc (requests_active m)).
Definition dec_active_requests (m : TenantMetrics) : TenantMetrics :=
  set_requests_active m (gauge_dec (requests_active m)).

Definition calculate_rps (m : TenantMetrics) (elapsed_seconds : f64) : f64 :=
  if f64_lt (f64_of_Z 0) elapsed_seconds
  then f64_div (f64_of_Z (counter_get (t_requests_total m))) elapsed_seconds else f64_of_Z 0.

(** The loop of [request_duration_p99] *)
Fixpoint percentile_bound (i : nat) (cumulative target : Z) (counts : list Z) : f64 :=
  match counts with
  | [] => S754_infinity false
  | c :: counts' =>
      let cumulative := add_u64 cumulative c in
      if cumulative >=? target then default (S754_infinity false) (REQUEST_DURATION_BUCKETS !! i)
      else percentile_bound (S i) cumulative target counts'
  end.

Definition request_duration_p99 (m : TenantMetrics) : f64 :=
  let '(counts, _, count) := histogram_get (request_duration_seconds m) in
  if count =? 0 then f64_of_Z 0
  else percentile_bound 0 0 (f64_to_usize (f64_mul (f64_of_Z count) (f64_lit 99 100))) counts.

(** ** The collector *)

Record GlobalMetrics := mkGlobal {
  total_requests : Counter;
  total_cpu_seconds : Counter;
  total_memory_bytes : Gauge;
  active_isolates : Gauge;
  g_pressure_warning : Counter;
  g_pressure_critical : Counter;
  g_pressure_emergency : Counter;
}.

Definition global_new : GlobalMetrics :=
  mkGlobal counter_new counter_new gauge_new gauge_new counter_new counter_new counter_new.

Definition global_record_request (g : GlobalMetrics) (seconds : f64) : GlobalMetrics :=
  mkGlobal (counter_inc (total_requests g)) (counter_inc_by (total_cpu_seconds g) (f64_to_usize seconds))
    (total_memory_bytes g) (active_isolates g) (g_pressure_warning g) (g_pressure_critical g)
    (g_pressure_emergency g).

Definition global_record_pressure_event (g : GlobalMetrics) (level : MemoryPressureLevel) : GlobalMetrics :=
  let bump (c : Counter) (mine : bool) := if mine then counter_inc c else c in
  mkGlobal (total_requests g) (total_cpu_seconds g) (total_memory_bytes g) (active_isolates g)
    (bump (g_pressure_warning g) match level with Warning => true | _ => false end)
    (bump (g_pressure_critical g) match level with Critical => true | _ => false end)
    (bump (g_pressure_emergency g) match level with Emergency => true | _ => false end).

Record TenantMetricsCollector := mkCollector {
  tenants : gmap string TenantMetrics;
  global : GlobalMetrics;
}.

Definition collector_new : TenantMetricsCollector := mkCollector ∅ global_new.

(** [get_or_create] followed by an update of the tenant it gives *)
Definition get_or_create (c : TenantMetricsCollector) (hostname : string) : outcome TenantMetrics :=
  match tenants c !! hostname with
  | Some m => Done m
  | None => tenant_new hostname
  end.

Definition with_tenant (c : TenantMetricsCollector) (hostname : string)
    (f : TenantMetrics → TenantMetrics) (g : GlobalMetrics) : outcome TenantMetricsCollector :=
  let! m := get_or_create c hostname in
  Done (mkCollector (<[hostname := f m]> (tenants c)) g).

Definition collector_record_request (c : TenantMetricsCollector) (hostname : string)
    (result : RequestResult) (cpu_time_us memory_bytes duration_ms : Z) : outcome TenantMetricsCollector :=
  with_tenant c hostname
    (λ m, tenant_record_request m result cpu_time_us memory_bytes duration_ms)
    (global_record_request (global c) (cpu_seconds cpu_time_us)).

Definition collector_update_memory (c : TenantMetricsCollector) (hostname : string)
    (heap_bytes external_bytes : Z) : outcome TenantMetricsCollector :=
  with_tenant c hostname (λ m, tenant_update_memory m heap_bytes external_bytes) (global c).

Definition collector_record_context_reset (c : TenantMetricsCollector) (hostname : string) :
    outcome TenantMetricsCollector :=
  with_tenant c hostname tenant_record_context_reset (global c).

Definition collector_record_pressure_event (c : TenantMetricsCollector) (hostname : string)
    (level : MemoryPressureLevel) : outcome TenantMetricsCollector :=
  with_tenant c hostname (λ m, tenant_record_pressure_event m level)
    (global_record_pressure_event (global c) level).

Definition tenant_count (c : TenantMetricsCollector) : Z := Z.of_nat (size (tenants c)).

Section reading.
Context `{HashOrder TenantMetrics}.

Definition tenant_hostnames (c : TenantMetricsCollector) : list string := (hash_iter (tenants c)).*1.

(** [sort_by(|a, b| b.1.cmp(&a.1))] and [truncate(n)] *)
Definition top_tenants_by (value : TenantMetrics → Z) (c : TenantMetricsCollector) (n : nat) :
    list (string * Z) :=
  take n (sort_by_key (λ p, - p.2) (map (λ '(h, m), (h, value m)) (hash_iter (tenants c)))).

Definition top_tenants_by_requests : TenantMetricsCollector → nat → list (string * Z) :=
  top_tenants_by (λ m, counter_get (t_requests_total m)).
Definition top_tenants_by_cpu : TenantMetricsCollector → nat → list (string * Z) :=
  top_tenants_by (λ m, counter_get (cpu_seconds_total m)).

(** [to_prometheus]: the host names are not escaped here. *)
Definition tenant_line (metric hostname : string) (value : Z) : string :=
  line (metric +:+ ("{hostname=" +:+ (quoted hostname +:+ ("} " +:+ pretty value)))).

Definition tenant_section (c : TenantMetricsCollector) (name help kind : string)
    (values : list (string * (TenantMetrics → Z))) : string :=
  line (help_line name help) +:+ (line (type_line name kind) +:+
    concat_text (map (λ '(hostname, m),
      concat_text (map (λ '(metric, value), tenant_line metric hostname (value m)) values))
      (hash_iter (tenants c)))).

Definition to_prometheus (c : TenantMetricsCollector) : string :=
  tenant_section c "nano_tenant_requests_total" "Total requests per tenant" "counter"
    [("nano_tenant_requests_total", λ m, counter_get (t_requests_total m));
     ("nano_tenant_requests_success", λ m, counter_get (t_requests_success m));
     ("nano_tenant_requests_error", λ m, counter_get (t_requests_error m));
     ("nano_tenant_requests_timeout", λ m, counter_get (t_requests_timeout m))] +:+ (line "" +:+
  (tenant_section c "nano_tenant_cpu_seconds_total" "Total CPU seconds per tenant" "counter"
    [("nano_tenant_cpu_seconds_total", λ m, counter_get (cpu_seconds_total m))] +:+ (line "" +:+
  (tenant_section c "nano_tenant_memory_used_bytes" "Current memory usage per tenant" "gauge"
    [("nano_tenant_memory_used_bytes", λ m, gauge_get (memory_used_bytes m));
     ("nano_tenant_memory_external_bytes", λ m, gauge_get (memory_external_bytes m))] +:+ (line "" +:+
  (tenant_section c "nano_tenant_requests_active" "Active requests per tenant" "gauge"
    [("nano_tenant_requests_active", λ m, gauge_get (requests_active m))] +:+ (line "" +:+
  tenant_section c "nano_tenant_context_resets_total" "Total context resets per tenant" "counter"
    [("nano_tenant_context_resets_total", λ m, counter_get (context_resets_total m))]))))))).

Record TenantMetricsSnapshot := mkTenantSnapshot {
  sn_hostname : string;
  sn_requests_total : Z;
  sn_requests_success : Z;
  sn_requests_error : Z;
  sn_requests_timeout : Z;
  sn_requests_active : Z;
  sn_cpu_seconds_total : Z;
  sn_cpu_avg_ms : f64;
  sn_memory_used_bytes : Z;
  sn_memory_external_bytes : Z;
  sn_memory_peak_bytes : Z;
  sn_context_resets_total : Z;
  sn_latency_p50_ms : f64;
  sn_latency_p95_ms : f64;
  sn_latency_p99_ms : f64;
  sn_isolates_active : Z;
}.

Definition tenant_snapshot (hostname : string) (m : TenantMetrics) : TenantMetricsSnapshot :=
  let '(_, cpu_sum, cpu_count) := histogram_get (cpu_time_per_request_seconds m) in
  mkTenantSnapshot hostname (counter_get (t_requests_total m)) (counter_get (t_requests_success m))
    (counter_get (t_requests_error m)) (counter_get (t_requests_timeout m)) (gauge_get (requests_active m))
    (counter_get (cpu_seconds_total m))
    (if cpu_count >? 0 then f64_div (f64_mul cpu_sum (f64_of_Z 1000)) (f64_of_Z cpu_count) else f64_of_Z 0)
    (gauge_get (memory_used_bytes m)) (gauge_get (memory_external_bytes m)) (memory_peak_bytes m)
    (counter_get (context_resets_total m)) (f64_of_Z 0) (f64_of_Z 0)
    (f64_mul (request_duration_p99 m) (f64_of_Z 1000)) (gauge_get (t_isolates_active m)).

Record MetricsSnapshot := mkMetricsSnapshot {
  ms_tenants : list TenantMetricsSnapshot;
  ms_total_requests : Z;
  ms_total_cpu_seconds : Z;
}.

(** the sums wrap as the [u64] additions of [Iterator::sum] do *)
Definition snapshot (c : TenantMetricsCollector) : MetricsSnapshot :=
  let ts := map (λ '(h, m), tenant_snapshot h m) (hash_iter (tenants c)) in
  mkMetricsSnapshot ts (foldl (λ n t, add_u64 n (sn_requests_total t)) 0 ts)
    (foldl (λ n t, add_u64 n (sn_cpu_seconds_total t)) 0 ts).
End reading.

(** ** Threads raising the peak

    [memory_peak_bytes] is read, and if the new figure is larger, swapped for it
    provided that it still has the value read; the result of the swap is ignored. *)

Inductive PeakThread :=
| LoadPeak (bytes : Z)
| SwapPeak (bytes current_peak : Z)
| PeakDone.

Definition peak_access (peak : Z) (t : PeakThread) : Z * PeakThread :=
  match t with
  | LoadPeak bytes => (peak, if bytes >? peak then SwapPeak bytes peak else PeakDone)
  | SwapPeak bytes current_peak => (if peak =? current_peak then bytes else peak, PeakDone)
  | PeakDone => (peak, PeakDone)
  end.

Inductive peak_step : Z * list PeakThread → Z * list PeakThread → Prop :=
| peak_step_intro peak threads i t
    (Hi : threads !! i = Some t) (Hrun : t ≠ PeakDone) :
    peak_step (peak, threads) ((peak_access peak t).1, <[i := (peak_access peak t).2]> threads).

(** ** Any sequence of completed requests *)

Record call := mkCall {
  c_hostname : string;
  c_result : RequestResult;
  c_cpu_time_us : Z;
  c_memory_bytes : Z;
  c_duration_ms : Z;
}.

Definition apply_call (c : TenantMetricsCollector) (x : call) : outcome TenantMetricsCollector :=
  collector_record_request c (c_hostname x) (c_result x) (c_cpu_time_us x) (c_memory_bytes x) (c_duration_ms x).

Fixpoint run_calls (c : TenantMetricsCollector) (xs : list call) : outcome TenantMetricsCollector :=
  match xs with
  | [] => Done c
  | x :: xs' => let! c := apply_call c x in run_calls c xs'
  end.

(** * Theorems *)

Definition for_host (h : string) (xs : list call) : list call :=
  List.filter (λ x, String.eqb (c_hostname x) h) xs.

Definition record_call (m : TenantMetrics) (x : call) : TenantMetrics :=
  tenant_record_request m (c_result x) (c_cpu_time_us x) (c_memory_bytes x) (c_duration_ms x).

Definition fresh_histogram (bounds : list f64) : Histogram := mkHistogram bounds (map (λ _, 0) bounds) 0 0.

Definition fresh_tenant (h : string) : TenantMetrics :=
  mkTenant h counter_new counter_new counter_new counter_new counter_new counter_new
    counter_new counter_new counter_new gauge_new gauge_new gauge_new gauge_new 0
    (fresh_histogram REQUEST_DURATION_BUCKETS) (fresh_histogram CPU_TIME_BUCKETS)
    (fresh_histogram MEMORY_BUCKETS).

Lemma tenant_new_fresh h : tenant_new h = Done (fresh_tenant h).
Proof.
  unfold tenant_new.
  rewrite (eq_refl : histogram_new REQUEST_DURATION_BUCKETS = Done (fresh_histogram REQUEST_DURATION_BUCKETS)).
  assert (histogram_new CPU_TIME_BUCKETS = Done (fresh_histogram CPU_TIME_BUCKETS)) as -> by (vm_compute; done).
  assert (histogram_new MEMORY_BUCKETS = Done (fresh_histogram MEMORY_BUCKETS)) as -> by (vm_compute; done).
  reflexivity.
Qed.

(** What the collector holds after the requests [xs]. *)
Definition holds (xs : list call) (c : TenantMetricsCollector) : Prop :=
  (∀ h, tenants c !! h =
     match for_host h xs with
     | [] => None
     | ys => Some (foldl record_call (fresh_tenant h) ys)
     end) ∧
  global c = foldl (λ g x, global_record_request g (cpu_seconds (c_cpu_time_us x))) global_new xs.

Lemma holds_step xs c x : holds xs c → ∃ c', apply_call c x = Done c' ∧ holds (xs ++ [x]) c'.
Proof.
  intros [Ht Hg]. unfold apply_call, collector_record_request, with_tenant.
  assert (get_or_create c (c_hostname x) =
          Done (foldl record_call (fresh_tenant (c_hostname x)) (for_host (c_hostname x) xs))) as ->.
  { unfold get_or_create. rewrite Ht, tenant_new_fresh. by destruct (for_host (c_hostname x) xs). }
  eexists. split; [reflexivity|]. split; cbn [tenants global outcome_bind].
  - intros h. unfold for_host at 2. rewrite List.filter_app. fold (for_host h xs). simpl.
    destruct (String.eqb_spec (c_hostname x) h) as [<-|Hne].
    + rewrite lookup_insert_eq.
      destruct (for_host (c_hostname x) xs) as [|y ys]; [done|].
      simpl. by rewrite foldl_app.
    + rewrite lookup_insert_ne, app_nil_r by done. apply Ht.
  - by rewrite Hg, foldl_app.
Qed.

Lemma run_calls_holds xs : ∃ c, run_calls collector_new xs = Done c ∧ holds xs c.
Proof.
  assert (∀ ys c, holds ys c → ∃ c', run_calls c xs = Done c' ∧ holds (ys ++ xs) c') as H.
  { induction xs as [|x xs IH]; intros ys c Hc; simpl.
    - exists c. by rewrite app_nil_r.
    - destruct (holds_step ys c x Hc) as (c1 & -> & H1). simpl.
      destruct (IH _ _ H1) as (c' & ? & ?). exists c'. by rewrite cons_middle, app_assoc. }
  apply (H [] collector_new). split; [|done]. intros h. apply lookup_empty.
Qed.

(** A counter raised along a list. *)
Lemma foldl_counter {A X} (step : A → X → A) (get : A → Counter) (by_ : X → Z) xs
    (Hstep : ∀ a x n, x ∈ xs → counter_get (get a) = as_u64 n →
                      counter_get (get (step a x)) = as_u64 (n + by_ x)) a n :
  counter_get (get a) = as_u64 n →
  counter_get (get (foldl step a xs)) = as_u64 (n + sum_list (map by_ xs)).
Proof.
  revert a n. induction xs as [|x xs IH]; intros a n Hn; simpl; [by rewrite Z.add_0_r|].
  change (sum_list (by_ x :: map by_ xs)) with (by_ x + sum_list (map by_ xs)).
  rewrite (IH (λ a x n Hx, Hstep a x n (list_elem_of_further _ _ _ Hx)) _ (n + by_ x)); [f_equal; lia|].
  apply Hstep; [by left|done].
Qed.

Lemma sum_indicator {A} (f : A → bool) (l : list A) :
  sum_list (map (λ x, if f x then 1 else 0) l) = count f l.
Proof.
  induction l as [|x l IH]; [done|]. change (sum_list (map ?g (x :: l))) with (g x + sum_list (map g l)).
  rewrite IH. unfold count. simpl. destruct (f x); simpl length; lia.
Qed.

Lemma sum_ones {A} (l : list A) : sum_list (map (λ _, 1) l) = Z.of_nat (length l).
Proof. induction l as [|x l IH]; [done|]. change (1 + sum_list (map (λ _, 1) l) = Z.of_nat (S (length l))). lia. Qed.

Definition of_result (r : RequestResult) (x : call) : bool :=
  match r, c_result x with
  | Success, Success | Error, Error | Timeout, Timeout => true
  | _, _ => false
  end.

Lemma counter_inc_by_value c v n :
  counter_get c = as_u64 n → counter_get (counter_inc_by c v) = as_u64 (n + v).
Proof. unfold counter_get, counter_inc_by. intros Hn. simpl. by rewrite Hn, add_u64_as_u64. Qed.

(** seconds counted for a request *)
Definition whole_seconds (x : call) : Z := c_cpu_time_us x / 1000000.

Lemma cpu_seconds_whole us : 0 ≤ us < 2 ^ 51 → f64_to_usize (cpu_seconds us) = us / 1000000.
Proof. intros H. unfold cpu_seconds. apply f64_div_to_usize; lia. Qed.

(** The figures of a tenant after the requests [xs]. *)
Record accounts (xs : list call) (m : TenantMetrics) : Prop := {
  ac_total : counter_get (t_requests_total m) = as_u64 (Z.of_nat (length xs));
  ac_success : counter_get (t_requests_success m) = as_u64 (count (of_result Success) xs);
  ac_error : counter_get (t_requests_error m) = as_u64 (count (of_result Error) xs);
  ac_timeout : counter_get (t_requests_timeout m) = as_u64 (count (of_result Timeout) xs);
  ac_cpu : counter_get (cpu_seconds_total m) = as_u64 (sum_list (map whole_seconds xs));
  ac_peak : memory_peak_bytes m = foldr Z.max 0 (map c_memory_bytes xs);
}.

Lemma foldl_peak xs m :
  memory_peak_bytes (foldl record_call m xs) =
    Z.max (memory_peak_bytes m) (foldr Z.max (memory_peak_bytes m) (map c_memory_bytes xs)).
Proof.
  revert m. induction xs as [|x xs IH]; intros m; simpl; [lia|]. rewrite IH. simpl.
  assert (∀ a b l, foldr Z.max (Z.max a b) l = Z.max a (foldr Z.max b l)) as Hm
    by (intros a b l; induction l; simpl; lia).
  assert ((if c_memory_bytes x >? memory_peak_bytes m then c_memory_bytes x else memory_peak_bytes m) =
          Z.max (c_memory_bytes x) (memory_peak_bytes m)) as ->
    by (destruct (c_memory_bytes x >? memory_peak_bytes m) eqn:E; zreflect; lia).
  rewrite Hm. lia.
Qed.

Lemma tenant_accounts h xs (Hus : Forall (λ x, 0 ≤ c_cpu_time_us x < 2 ^ 51) xs) :
  accounts xs (foldl record_call (fresh_tenant h) xs).
Proof.
  assert (∀ (get : TenantMetrics → Counter) (f : call → bool), (∀ m x, get (record_call m x) = if f x then counter_inc (get m) else get m) →
            get (fresh_tenant h) = counter_new →
            counter_get (get (foldl record_call (fresh_tenant h) xs)) = as_u64 (count f xs)) as Hresult.
  { intros get f Hget Hnew. rewrite (foldl_counter _ _ (λ x, if f x then 1 else 0) _) with (n := 0).
    - by rewrite sum_indicator.
    - intros m x n _ Hn. rewrite Hget. destruct (f x); [by apply counter_inc_by_value|by rewrite Z.add_0_r].
    - by rewrite Hnew. }
  split.
  - rewrite (foldl_counter _ _ (λ _, 1) _) with (n := 0); [by rewrite sum_ones| |done].
    intros m x n _ Hn. by apply counter_inc_by_value.
  - apply (Hresult t_requests_success); [|done]. intros m x. unfold of_result. simpl. by destruct (c_result x).
  - apply (Hresult t_requests_error); [|done]. intros m x. unfold of_result. simpl. by destruct (c_result x).
  - apply (Hresult t_requests_timeout); [|done]. intros m x. unfold of_result. simpl. by destruct (c_result x).
  - rewrite (foldl_counter _ _ whole_seconds _) with (n := 0); [done| |done].
    intros m x n Hx Hn. rewrite Forall_forall in Hus. simpl.
    rewrite cpu_seconds_whole by (by apply Hus). by apply counter_inc_by_value.
  - rewrite foldl_peak. simpl. assert (0 ≤ foldr Z.max 0 (map c_memory_bytes xs)); [|lia].
    clear. induction xs; simpl; lia.
Qed.

(** What the metrics of a tenant say after any completed requests: there are none
    before its first request; then the counters are the numbers of its requests and of
    those with each result, modulo 2^64, the peak is the largest memory figure, and the
    CPU counter, said to be kept in microseconds, is the sum of the whole seconds of
    each request: a tenant whose requests take less than a second each is charged
    nothing, however many they are.  The totals over all tenants have the same sums. *)
Theorem tenant_accounting (xs : list call) (Hus : Forall (λ x, 0 ≤ c_cpu_time_us x < 2 ^ 51) xs) :
  ∃ c, run_calls collector_new xs = Done c ∧
    (∀ h, match for_host h xs with
          | [] => tenants c !! h = None
          | ys => ∃ m, tenants c !! h = Some m ∧ accounts ys m ∧
              (Forall (λ x, c_cpu_time_us x < 1000000) ys → counter_get (cpu_seconds_total m) = 0)
          end) ∧
    counter_get (total_requests (global c)) = as_u64 (Z.of_nat (length xs)) ∧
    counter_get (total_cpu_seconds (global c)) = as_u64 (sum_list (map whole_seconds xs)).
Proof.
  destruct (run_calls_holds xs) as (c & Hrun & Ht & Hg). exists c. split; [done|]. split_and!.
  - intros h. specialize (Ht h).
    assert (Forall (λ x, 0 ≤ c_cpu_time_us x < 2 ^ 51) (for_host h xs)) as Hh.
    { apply Forall_forall. intros x [Hx _]%elem_of_filter_b. rewrite Forall_forall in Hus. by apply Hus. }
    pose proof (tenant_accounts h (for_host h xs) Hh) as Ha.
    destruct (for_host h xs) as [|y ys]; [done|]. eexists. split; [exact Ht|]. split; [done|].
    intros Hsmall. rewrite (ac_cpu _ _ Ha).
    assert (sum_list (map whole_seconds (y :: ys)) = 0) as ->; [|done].
    clear - Hh Hsmall. induction (y :: ys) as [|z zs IH]; [done|].
    apply Forall_cons in Hh as [Hz Hh]. apply Forall_cons in Hsmall as [Hz' Hsmall].
    change (whole_seconds z + sum_list (map whole_seconds zs) = 0). rewrite IH by done.
    unfold whole_seconds. rewrite Z.div_small by lia. done.
  - rewrite Hg, (foldl_counter _ _ (λ _, 1) _) with (n := 0); [by rewrite sum_ones| |done].
    intros g x n _ Hn. by apply counter_inc_by_value.
  - rewrite Hg, (foldl_counter _ _ whole_seconds _) with (n := 0); [done| |done].
    intros g x n Hx Hn. rewrite Forall_forall in Hus. simpl.
    rewrite cpu_seconds_whole by (by apply Hus). by apply counter_inc_by_value.
Qed.

Lemma tenant_accounting_witness :
  ∃ c m, run_calls collector_new
           [mkCall "a" Success 900000 10 5; mkCall "b" Error 2500000 7 9; mkCall "a" Timeout 999999 30 5] = Done c ∧
    tenants c !! "a" = Some m ∧ memory_peak_bytes m = 30 ∧ counter_get (cpu_seconds_total m) = 0 ∧
    counter_get (total_cpu_seconds (global c)) = 2.
Proof.
  destruct (tenant_accounting
    [mkCall "a" Success 900000 10 5; mkCall "b" Error 2500000 7 9; mkCall "a" Timeout 999999 30 5])
    as (c & Hrun & Ht & _ & Hg); [by repeat constructor|].
  specialize (Ht "a"). simpl in Ht. destruct Ht as (m & Hm & Ha & Hz).
  exists c, m. split_and!; [exact Hrun|exact Hm|exact (ac_peak _ _ Ha)|apply Hz; by repeat constructor|].
  rewrite Hg. vm_compute. reflexivity.
Defined.

(** Two threads can leave the peak at the smaller of their figures: both read the
    old peak, the smaller swaps first and the swap of the larger then fails. *)
Theorem peak_may_be_lost (peak small large : Z) (H : peak < small < large) :
  ∃ s, nsteps peak_step 4 (peak, [LoadPeak small; LoadPeak large]) s ∧
    s.1 = small ∧ Forall (λ t, t = PeakDone) s.2.
Proof.
  exists (small, [PeakDone; PeakDone]). split; [|by repeat constructor].
  assert ((small >? peak) = true) as H1 by (rewrite Z.gtb_ltb; apply Z.ltb_lt; lia).
  assert ((large >? peak) = true) as H2 by (rewrite Z.gtb_ltb; apply Z.ltb_lt; lia).
  eapply nsteps_l; [apply (peak_step_intro _ _ 0 (LoadPeak small)); done|]. simpl. rewrite H1.
  eapply nsteps_l; [apply (peak_step_intro _ _ 1 (LoadPeak large)); done|]. simpl. rewrite H2.
  eapply nsteps_l; [apply (peak_step_intro _ _ 0 (SwapPeak small peak)); done|]. simpl.
  rewrite Z.eqb_refl.
  eapply nsteps_l; [apply (peak_step_intro _ _ 1 (SwapPeak large peak)); done|]. simpl.
  rewrite (proj2 (Z.eqb_neq small peak)) by lia. constructor.
Qed.

(** [to_prometheus] does not escape host names: a tenant whose name closes the label
    and breaks the line adds a sample that was never recorded. *)
Definition forged_tenant : string :=
  "a" +:+ String quote_char ("} 0" +:+ String newline_char "nano_tenant_requests_total 7 #").

Lemma tenant_text_forged :
  mkSample "nano_tenant_requests_total" [] ("7 #" +:+ String quote_char "} 0") ∈
    default [] (parse_exposition (@to_prometheus plain_order
      (mkCollector {[ forged_tenant := fresh_tenant forged_tenant ]} global_new))).
Proof. apply list_elem_of_lookup. exists 1%nat. vm_compute. reflexivity. Qed.
