(* ===== verification/Stream.v ===== *)
(** * [src/runtime/stream.rs]: stream resources and writable streams

    A writable stream is shared by reference: any number of tasks call [get_writer]
    on it, the writer they get sends commands over a bounded channel, and a spawned
    task hands them to the sink.  The model keeps every atomic access, channel
    operation and call of the sink as one step, so that tasks interleave between
    them: [client_next] is what a task does next inside a call, [client_call] the
    calls it may make, [task_next] the loop of the spawned task. *)

From stdpp Require Import base gmap list strings relations.
From Stdlib Require Import ZArith Lia.
From S2P Require Import Prelude.

Open Scope Z_scope.

(** ** [StreamResourceTable] *)

Record StreamResource := mkResource { rid : Z; res_closed : bool }.

Record StreamResourceTable := mkTable {
  resources : gmap Z StreamResource;
  next_rid : Z;
}.

Definition table_new : StreamResourceTable := mkTable ∅ 1.

Definition table_add (t : StreamResourceTable) : StreamResourceTable * Z :=
  let id := next_rid t in
  (mkTable (<[id := mkResource id false]> (resources t)) (add_u32 id 1), id).

Definition table_close (t : StreamResourceTable) (id : Z) : StreamResourceTable * bool :=
  match resources t !! id with
  | Some r => (mkTable (<[id := mkResource (rid r) true]> (resources t)) (next_rid t), true)
  | None => (t, false)
  end.

Definition table_has (t : StreamResourceTable) (id : Z) : bool := bool_decide (is_Some (resources t !! id)).

(** ** Writable streams: data *)

Abbreviation Bytes := (list Z).

Inductive StreamCommand :=
| Write (chunk : Bytes)
| Close
| Abort (reason : option string).

Inductive WriteError :=
| Closed
| Aborted (reason : option string)
| Internal (msg : string).

(** The spawned task: before [sink.start()], waiting in [recv], inside a call of the
    sink for a command, or finished with the receiver dropped. *)
Inductive SinkTask :=
| Starting
| Receiving
| Handling (cmd : StreamCommand)
| Finished.

(** The fields of [WritableStream], its channel and its task.  [live] tells whether
    the stream still exists; [accepted] and [handled] log the commands that entered
    the channel and those the sink was called with. *)
Record WritableStream := mkStream {
  locked : bool;
  high_water_mark : nat;
  closed : bool;
  aborted : bool;
  abort_reason : option string;
  live : bool;
  queue : list StreamCommand;
  task : SinkTask;
  accepted : list StreamCommand;
  handled : list StreamCommand;
}.

(** [WritableStream::new]: the default mark is 4, and a channel of no slots panics. *)
Definition stream_new (mark : option nat) : outcome WritableStream :=
  let high_water_mark := default 4%nat mark in
  assert! (0 <? Z.of_nat high_water_mark) or "mpsc bounded channel requires buffer > 0" in
  Done (mkStream false high_water_mark false false None true [] Starting [] []).

Definition set_locked (s : WritableStream) (b : bool) : WritableStream :=
  mkStream b (high_water_mark s) (closed s) (aborted s) (abort_reason s) (live s) (queue s) (task s)
    (accepted s) (handled s).
Definition set_closed (s : WritableStream) : WritableStream :=
  mkStream (locked s) (high_water_mark s) true (aborted s) (abort_reason s) (live s) (queue s) (task s)
    (accepted s) (handled s).
Definition set_aborted (s : WritableStream) : WritableStream :=
  mkStream (locked s) (high_water_mark s) (closed s) true (abort_reason s) (live s) (queue s) (task s)
    (accepted s) (handled s).
Definition set_abort_reason (s : WritableStream) (reason : option string) : WritableStream :=
  mkStream (locked s) (high_water_mark s) (closed s) (aborted s) reason (live s) (queue s) (task s)
    (accepted s) (handled s).
Definition set_task (s : WritableStream) (queue : list StreamCommand) (t : SinkTask)
    (handled : list StreamCommand) : WritableStream :=
  mkStream (locked s) (high_water_mark s) (closed s) (aborted s) (abort_reason s) (live s) queue t
    (accepted s) handled.
Definition drop_stream (s : WritableStream) : WritableStream :=
  mkStream (locked s) (high_water_mark s) (closed s) (aborted s) (abort_reason s) false (queue s) (task s)
    (accepted s) (handled s).

(** ** The channel *)

Inductive SendResult := Sent | Full | Disconnected.

Definition push (s : WritableStream) (cmd : StreamCommand) : WritableStream :=
  mkStream (locked s) (high_water_mark s) (closed s) (aborted s) (abort_reason s) (live s)
    (queue s ++ [cmd]) (task s) (accepted s ++ [cmd]) (handled s).

Definition receiver_gone (s : WritableStream) : bool :=
  match task s with Finished => true | _ => false end.

(** [Sender::try_send]; [send] is the same, but waits while the channel is full. *)
Definition try_send (s : WritableStream) (cmd : StreamCommand) : WritableStream * SendResult :=
  if receiver_gone s then (s, Disconnected)
  else if (length (queue s) <? high_water_mark s)%nat then (push s cmd, Sent)
  else (s, Full).

(** ** The spawned task *)

(** [ok] is the answer of the sink to the call in progress.  [None] while the task
    waits for a command. *)
Definition task_next (s : WritableStream) (ok : bool) : option WritableStream :=
  match task s with
  | Starting => Some (if ok then set_task s (queue s) Receiving (handled s) else set_task s [] Finished (handled s))
  | Receiving =>
      match queue s with
      | cmd :: queue' => Some (set_task s queue' (Handling cmd) (handled s ++ [cmd]))
      | [] => if live s then None else Some (set_task s [] Finished (handled s))
      end
  | Handling (Write _) =>
      Some (if ok then set_task s (queue s) Receiving (handled s) else set_task s [] Finished (handled s))
  | Handling _ => Some (set_task s [] Finished (handled s))
  | Finished => None
  end.

(** ** Tasks that use the stream *)

(** Where a task stands: in [get_writer] after the compare-and-swap ([Acquired]),
    after reading [closed] ([NotClosed]) or about to undo the swap ([Refused]);
    with a writer; in [send]; after a sent [Close] or [Abort], before each store of
    [mark_closed] and [mark_aborted]; in the writer's [drop], before the attempt to
    send and before the release of the lock. *)
Inductive Client :=
| Idle
| Acquired
| NotClosed
| Refused
| Writer
| Sending (cmd : StreamCommand)
| MarkClosed1
| MarkClosed2
| MarkAborted1 (reason : option string)
| MarkAborted2 (reason : option string)
| MarkAborted3
| Dropping
| Releasing.

Definition dropped_without_close : StreamCommand := Abort (Some "Writer dropped without close").

(** What follows a [send] that succeeded, or failed because the task has ended. *)
Definition after_send (cmd : StreamCommand) (sent : bool) : Client :=
  match cmd, sent with
  | Write _, _ => Writer
  | Close, true => MarkClosed1
  | Abort reason, true => MarkAborted1 reason
  | _, false => Dropping
  end.

(** The next access of a task inside a call; [None] where it waits or is in no call. *)
Definition client_next (s : WritableStream) (c : Client) : option (WritableStream * Client) :=
  match c with
  | Idle | Writer => None
  | Acquired => Some (s, if closed s then Refused else NotClosed)
  | NotClosed => Some (s, if aborted s then Refused else Writer)
  | Refused => Some (set_locked s false, Idle)
  | Sending cmd =>
      match try_send s cmd with
      | (s', Sent) => Some (s', after_send cmd true)
      | (_, Disconnected) => Some (s, after_send cmd false)
      | (_, Full) => None
      end
  | MarkClosed1 => Some (set_closed s, MarkClosed2)
  | MarkClosed2 => Some (set_locked s false, Releasing)
  | MarkAborted1 reason => Some (set_aborted s, MarkAborted2 reason)
  | MarkAborted2 reason => Some (set_abort_reason s reason, MarkAborted3)
  | MarkAborted3 => Some (set_locked s false, Releasing)
  | Dropping => Some ((try_send s dropped_without_close).1, Releasing)
  | Releasing => Some (set_locked s false, Idle)
  end.

(** The calls a task may start, and the calls it may give up: a future of [write]
    that is dropped leaves the writer, one of [close] or [abort] drops it. *)
Inductive client_call : WritableStream → Client → WritableStream → Client → Prop :=
| call_get_writer s : locked s = false → client_call s Idle (set_locked s true) Acquired
| call_write s chunk : client_call s Writer s (Sending (Write chunk))
| call_close s : client_call s Writer s (Sending Close)
| call_abort s reason : client_call s Writer s (Sending (Abort reason))
| call_drop s : client_call s Writer s Dropping
| cancel_send s cmd : client_call s (Sending cmd) s (after_send cmd false).

Inductive step : WritableStream * list Client → WritableStream * list Client → Prop :=
| step_call s clients i c s' c'
    (Hi : clients !! i = Some c) (Hc : client_call s c s' c') :
    step (s, clients) (s', <[i := c']> clients)
| step_next s clients i c s' c'
    (Hi : clients !! i = Some c) (Hc : client_next s c = Some (s', c')) :
    step (s, clients) (s', <[i := c']> clients)
| step_task s clients ok s' (Ht : task_next s ok = Some s') :
    step (s, clients) (s', clients)
| step_drop_stream s clients (Hidle : Forall (λ c, c = Idle) clients) :
    step (s, clients) (drop_stream s, []).

(** A new stream and any number of tasks *)
Definition start_of (mark : option nat) (n : nat) (w : WritableStream * list Client) : Prop :=
  stream_new mark = Done w.1 ∧ w.2 = replicate n Idle.

Definition reachable (mark : option nat) (n : nat) (w : WritableStream * list Client) : Prop :=
  ∃ w0, start_of mark n w0 ∧ rtc step w0 w.

(** ** What the writer says of itself *)

(** [desired_size] of a writer that is not closed *)
Definition desired_size (s : WritableStream) : nat := high_water_mark s - 1.

(** * Theorems *)

(** ** One writer at a time *)

Definition ended (s : WritableStream) : bool := closed s || aborted s.

(** A task that holds the lock of a stream that has not ended *)
Definition holds_lock (c : Client) : bool :=
  match c with
  | Acquired | NotClosed | Writer | Sending _ | MarkClosed1 | MarkAborted1 _ | Dropping | Releasing => true
  | _ => false
  end.

(** Where a task may stand once the stream has ended *)
Definition late (s : WritableStream) (c : Client) : bool :=
  match c with
  | Idle | Acquired | Refused | MarkClosed2 | MarkAborted2 _ | MarkAborted3 | Releasing => true
  | NotClosed => aborted s
  | _ => false
  end.

(** The tasks that may still put a command into the channel *)
Definition can_send (c : Client) : bool :=
  match c with Writer | Sending _ | Dropping => true | _ => false end.

Definition alone (clients : list Client) (i : nat) (c : Client) : Prop :=
  clients !! i = Some c ∧ ∀ j d, clients !! j = Some d → j ≠ i → d = Idle.

Definition lock_inv (w : WritableStream * list Client) : Prop :=
  if ended w.1 then Forall (λ c, late w.1 c = true) w.2
  else if locked w.1 then ∃ i c, alone w.2 i c ∧ holds_lock c = true
  else Forall (λ c, c = Idle) w.2.

Lemma alone_insert clients i c c' : alone clients i c → alone (<[i := c']> clients) i c'.
Proof.
  intros [Hi Ho]. split.
  - apply list_lookup_insert_eq. by eapply lookup_lt_Some.
  - intros j d Hj Hne. rewrite list_lookup_insert_ne in Hj by done. eauto.
Qed.

Lemma alone_late s clients i c : alone clients i c → late s c = true → Forall (λ c, late s c = true) clients.
Proof.
  intros [Hi Ho] Hc. apply Forall_lookup. intros j d Hj. destruct (decide (j = i)) as [->|Hne]; [congruence|].
  by rewrite (Ho j d Hj Hne).
Qed.

Lemma alone_idle clients i : alone clients i Idle → Forall (λ c, c = Idle) clients.
Proof.
  intros [Hi Ho]. apply Forall_lookup. intros j d Hj. destruct (decide (j = i)) as [->|Hne]; [congruence|eauto].
Qed.

Lemma idle_alone clients i c : Forall (λ c, c = Idle) clients → clients !! i = Some c → alone clients i c.
Proof. intros HF Hi. split; [done|]. intros j d Hj _. rewrite Forall_lookup in HF. eauto. Qed.

(** A task that is not idle is the one that holds the lock. *)
Lemma locked_alone s clients i c (Hinv : lock_inv (s, clients)) (He : ended s = false)
    (Hi : clients !! i = Some c) (Hc : c ≠ Idle) :
  locked s = true ∧ alone clients i c ∧ holds_lock c = true.
Proof.
  unfold lock_inv in Hinv. simpl in Hinv. rewrite He in Hinv. destruct (locked s).
  - destruct Hinv as (k & d & Hk & Hd). destruct (decide (i = k)) as [->|Hne].
    + destruct Hk as [Hk Ho]. split; [done|]. assert (d = c) as -> by congruence. by split.
    + exfalso. apply Hc, (proj2 Hk i c Hi Hne).
  - exfalso. rewrite Forall_lookup in Hinv. eauto.
Qed.

(** While the stream has not ended, a task that goes on holding the lock keeps the
    invariant, and so does one that gives it up as its last act. *)
Lemma lock_inv_hold s s' clients i c c' (Hinv : lock_inv (s, clients)) (He : ended s = false)
    (Hi : clients !! i = Some c) (Hc : c ≠ Idle) (He' : ended s' = false)
    (Hl : locked s' = true) (Hh : holds_lock c' = true) : lock_inv (s', <[i := c']> clients).
Proof.
  destruct (locked_alone s clients i c) as (_ & Ha & _); [done..|].
  unfold lock_inv. simpl. rewrite He', Hl. exists i, c'. split; [|done]. by eapply alone_insert.
Qed.

Lemma try_send_same s cmd :
  closed (try_send s cmd).1 = closed s ∧ aborted (try_send s cmd).1 = aborted s ∧
  locked (try_send s cmd).1 = locked s.
Proof. unfold try_send. by repeat case_match. Qed.

Lemma lock_inv_late s s' clients i c' (He : ended s' = true)
    (HF : Forall (λ c, late s c = true) clients) (Ha : aborted s' = aborted s) (Hc : late s' c' = true) :
  lock_inv (s', <[i := c']> clients).
Proof.
  unfold lock_inv. simpl. rewrite He. apply Forall_insert; [|done].
  eapply Forall_impl; [exact HF|]. intros []; simpl; congruence.
Qed.

Lemma lock_inv_call s clients i c s' c' :
  lock_inv (s, clients) → clients !! i = Some c → client_call s c s' c' →
  lock_inv (s', <[i := c']> clients).
Proof.
  intros Hinv Hi Hc. destruct (ended s) eqn:He.
  - unfold lock_inv in Hinv. simpl in Hinv. rewrite He in Hinv.
    pose proof Hinv as HF. rewrite Forall_lookup in HF. specialize (HF i c Hi).
    inversion Hc; subst; try discriminate HF. by apply (lock_inv_late s).
  - inversion Hc; subst; try (by apply (lock_inv_hold _ s' clients i _ _ Hinv He Hi); try done;
      apply (locked_alone _ _ _ _ Hinv He Hi)).
    + unfold lock_inv in Hinv |- *. simpl in Hinv |- *. unfold ended in He |- *. simpl. rewrite He.
      unfold ended in Hinv. rewrite He, H in Hinv.
      exists i, Acquired. split; [|done]. eapply alone_insert. by apply idle_alone.
    + apply (lock_inv_hold _ s' clients i _ _ Hinv He Hi); try done.
      * apply (locked_alone _ _ _ _ Hinv He Hi). done.
      * by destruct cmd.
Qed.

Lemma lock_inv_next s clients i c s' c' :
  lock_inv (s, clients) → clients !! i = Some c → client_next s c = Some (s', c') →
  lock_inv (s', <[i := c']> clients).
Proof.
  intros Hinv Hi Hc. destruct (ended s) eqn:He.
  - unfold lock_inv in Hinv. simpl in Hinv. rewrite He in Hinv.
    pose proof Hinv as HF. rewrite Forall_lookup in HF. specialize (HF i c Hi).
    destruct c as [| | | | |cmd| | |reason|reason| | |]; try discriminate; simpl in Hc, HF;
      injection Hc as <- <-; apply (lock_inv_late s); try done.
    + destruct (closed s) eqn:E; [done|]. unfold ended in He. by rewrite E in He.
    + by rewrite HF.
  - assert (c ≠ Idle) as Hne by (by intros ->).
    destruct (locked_alone s clients i c Hinv He Hi Hne) as (Hl & Ha & Hh).
    pose proof (lock_inv_hold s s' clients i c c' Hinv He Hi Hne) as Hhold.
    unfold ended in He. apply orb_false_iff in He as [Ec Ea].
    destruct c as [| | | | |cmd| | |reason|reason| | |]; try discriminate; simpl in Hc.
    + injection Hc as <- <-. rewrite Ec in *. apply Hhold; [by unfold ended; rewrite Ec|done..].
    + injection Hc as <- <-. rewrite Ea in *. apply Hhold; [by unfold ended; rewrite Ec, Ea|done..].
    + pose proof (try_send_same s cmd) as (H1 & H2 & H3).
      destruct (try_send s cmd) as [s1 []]; [| |]; try discriminate; injection Hc as <- <-; simpl in *;
        apply Hhold; try (unfold ended; by rewrite ?H1, ?H2, Ec, Ea); try congruence; by destruct cmd.
    + injection Hc as <- <-. unfold lock_inv. simpl. eapply alone_late; [by eapply alone_insert|done].
    + injection Hc as <- <-. unfold lock_inv, ended. simpl. rewrite Ec. simpl.
      eapply alone_late; [by eapply alone_insert|done].
    + pose proof (try_send_same s dropped_without_close) as (H1 & H2 & H3). injection Hc as <- <-.
      apply Hhold; [unfold ended; by rewrite H1, H2, Ec|congruence|done].
    + injection Hc as <- <-. unfold lock_inv, ended. simpl. rewrite Ec, Ea. simpl.
      eapply alone_idle. by eapply alone_insert.
Qed.

Lemma task_next_same s ok s' : task_next s ok = Some s' →
  closed s' = closed s ∧ aborted s' = aborted s ∧ locked s' = locked s ∧
  high_water_mark s' = high_water_mark s ∧ accepted s' = accepted s.
Proof. unfold task_next. intros H. repeat case_match; simplify_eq; by split_and!. Qed.

Lemma lock_inv_step w w' : step w w' → lock_inv w → lock_inv w'.
Proof.
  intros Hs Hinv. destruct Hs as [s clients i c s' c' Hi Hc|s clients i c s' c' Hi Hc|s clients ok s' Ht|s clients Hidle].
  - by eapply lock_inv_call.
  - by eapply lock_inv_next.
  - destruct (task_next_same _ _ _ Ht) as (H1 & H2 & H3 & _). unfold lock_inv, ended in *. simpl in *.
    rewrite H1, H2, H3. destruct (closed s || aborted s) eqn:E; [|done].
    eapply Forall_impl; [exact Hinv|]. intros []; simpl; congruence.
  - unfold lock_inv in *. simpl in *. change (ended (drop_stream s)) with (ended s).
    destruct (ended s); [constructor|]. destruct (locked s); [|constructor].
    destruct Hinv as (i & c & [Hi _] & Hc). rewrite Forall_lookup in Hidle. by rewrite (Hidle i c Hi) in Hc.
Qed.

Lemma start_lock_inv mark n w : start_of mark n w → lock_inv w.
Proof.
  destruct w as [s clients]. intros [Hnew Hw]. simpl in *. subst clients. unfold stream_new in Hnew.
  apply assert_done in Hnew as [_ [= <-]]. apply Forall_replicate. done.
Qed.

Lemma steps_lock_inv w w' : rtc step w w' → lock_inv w → lock_inv w'.
Proof. induction 1; eauto using lock_inv_step. Qed.

Lemma reachable_lock_inv mark n w : reachable mark n w → lock_inv w.
Proof. intros (w0 & Hs & Hrun). eauto using steps_lock_inv, start_lock_inv. Qed.

(** C12. A stream has one writer at a time: however any number of tasks interleave in
    [get_writer], [write], [close], [abort] and the drop of a writer, and whenever the
    compare-and-swap and the reads and stores of the flags happen, never two of them
    can send.  Once the stream is closed or aborted, no task can send any more. *)
Theorem one_writer (mark : option nat) (n : nat) (w : WritableStream * list Client)
    (Hw : reachable mark n w) :
  (∀ i j c d, w.2 !! i = Some c → w.2 !! j = Some d → can_send c = true → can_send d = true → i = j) ∧
  (ended w.1 = true → Forall (λ c, can_send c = false) w.2).
Proof.
  apply reachable_lock_inv in Hw. unfold lock_inv in Hw. split.
  - intros i j c d Hi Hj Hc Hd. destruct (ended w.1); [|destruct (locked w.1)].
    + rewrite Forall_lookup in Hw. specialize (Hw i c Hi). by destruct c.
    + destruct Hw as (k & e & [Hk Ho] & _).
      assert (i = k) as -> by (destruct (decide (i = k)); [done|]; by rewrite (Ho i c Hi) in Hc).
      destruct (decide (j = k)) as [->|Hne]; [done|]. by rewrite (Ho j d Hj Hne) in Hd.
    + rewrite Forall_lookup in Hw. by rewrite (Hw i c Hi) in Hc.
  - intros He. rewrite He in Hw. eapply Forall_impl; [exact Hw|]. by intros [].
Qed.

(** ** What the sink sees *)

(** The commands up to the first [Close] or [Abort], with it *)
Fixpoint until_end (cmds : list StreamCommand) : list StreamCommand :=
  match cmds with
  | [] => []
  | Write chunk :: cmds' => Write chunk :: until_end cmds'
  | cmd :: _ => [cmd]
  end.

Definition is_write (c : StreamCommand) : bool := match c with Write _ => true | _ => false end.

Lemma until_end_writes l q : Forall (λ c, is_write c = true) l → until_end (l ++ q) = l ++ until_end q.
Proof. induction 1 as [|[chunk| |reason] l Hc Hl IH]; simpl; try done. by rewrite IH. Qed.

Lemma until_end_app l q : until_end l `prefix_of` until_end (l ++ q).
Proof. induction l as [|[chunk| |reason] l IH]; simpl; [apply prefix_nil|by apply prefix_cons|done..]. Qed.

(** After a command that ends the stream, nothing more is handled. *)
Lemma until_end_stops l c q : is_write c = false → until_end (l ++ c :: q) = until_end (l ++ [c]).
Proof. intros Hc. induction l as [|[chunk| |reason] l IH]; simpl; [by destruct c|by rewrite IH|done..]. Qed.

Definition fifo_inv (s : WritableStream) : Prop :=
  (length (queue s) ≤ high_water_mark s)%nat ∧
  handled s `prefix_of` until_end (accepted s) ∧
  match task s with
  | Starting => handled s = [] ∧ accepted s = queue s
  | Receiving => Forall (λ c, is_write c = true) (handled s) ∧ accepted s = handled s ++ queue s
  | Handling cmd => ∃ l, handled s = l ++ [cmd] ∧ Forall (λ c, is_write c = true) l ∧
                         accepted s = handled s ++ queue s
  | Finished => queue s = []
  end.

(** What the invariant speaks of *)
Definition same_channel (s s' : WritableStream) : Prop :=
  high_water_mark s' = high_water_mark s ∧ queue s' = queue s ∧ task s' = task s ∧
  accepted s' = accepted s ∧ handled s' = handled s.

Lemma fifo_inv_same s s' : same_channel s s' → fifo_inv s → fifo_inv s'.
Proof. intros (H1 & H2 & H3 & H4 & H5). unfold fifo_inv. by rewrite H1, H2, H3, H4, H5. Qed.

Lemma fifo_inv_try_send s cmd : fifo_inv s → fifo_inv (try_send s cmd).1.
Proof.
  intros Hs. unfold try_send, receiver_gone. destruct (task s) as [| |c|] eqn:Ht; simpl; try done;
    (destruct (Nat.ltb_spec (length (queue s)) (high_water_mark s)) as [Hlt|Hge]; simpl; [|done]);
    destruct Hs as (Hlen & Hp & Hsh); rewrite Ht in Hsh;
    (split; [simpl; rewrite length_app; simpl; lia|]); (split; [simpl; etransitivity; [exact Hp|apply until_end_app]|]);
    simpl; rewrite Ht.
  - destruct Hsh as [-> ->]. done.
  - destruct Hsh as [? ->]. by rewrite app_assoc.
  - destruct Hsh as (l & -> & ? & ->). exists l. by rewrite !app_assoc.
Qed.

Lemma fifo_inv_task s ok s' : task_next s ok = Some s' → fifo_inv s → fifo_inv s'.
Proof.
  intros Ht (Hlen & Hp & Hsh). unfold task_next in Ht. destruct (task s) as [| |c|] eqn:E.
  - injection Ht as <-. destruct Hsh as [Hh Ha]. destruct ok.
    + split; [exact Hlen|]. split; [exact Hp|]. simpl. by rewrite Hh.
    + split; [simpl; lia|]. by split.
  - destruct Hsh as [HF Ha]. destruct (queue s) as [|cmd q] eqn:Eq.
    + destruct (live s); [done|]. injection Ht as <-. split; [simpl; lia|]. by split.
    + injection Ht as <-. simpl in Hlen. split; [simpl; lia|]. split; simpl.
      * rewrite Ha, until_end_writes by done. apply prefix_app. simpl.
        destruct cmd; [by apply prefix_cons, prefix_nil|done..].
      * exists (handled s). by rewrite Ha, <-app_assoc.
  - destruct Hsh as (l & Hh & HF & Ha).
    assert (fifo_inv (set_task s [] Finished (handled s))) as Hfin by (split; [simpl; lia|by split]).
    destruct c; [|by injection Ht as <-..]. destruct ok; injection Ht as <-; [|done].
    split; [exact Hlen|]. split; [exact Hp|]. split; [simpl|done]. rewrite Hh. apply Forall_app. split; [done|by repeat constructor].
  - done.
Qed.

Lemma fifo_inv_step w w' : step w w' → fifo_inv w.1 → fifo_inv w'.1.
Proof.
  intros Hs Hinv. destruct Hs as [s clients i c s' c' Hi Hc|s clients i c s' c' Hi Hc|s clients ok s' Ht|s clients Hidle]; simpl in *.
  - by destruct Hc; try done; apply (fifo_inv_same s).
  - pose proof (fifo_inv_try_send s) as Hsend.
    destruct c as [| | | | |cmd| | |reason|reason| | |]; simpl in Hc; try discriminate;
      try (injection Hc as <- <-; first [done|by apply (fifo_inv_same s)|by apply Hsend]).
    specialize (Hsend cmd Hinv). destruct (try_send s cmd) as [s1 []]; simplify_eq; done.
  - by eapply fifo_inv_task.
  - by apply (fifo_inv_same s).
Qed.

Lemma steps_fifo_inv w w' : rtc step w w' → fifo_inv w.1 → fifo_inv w'.1.
Proof. induction 1; eauto using fifo_inv_step. Qed.

Lemma reachable_fifo_inv mark n w : reachable mark n w → fifo_inv w.1.
Proof.
  intros (w0 & [Hnew _] & Hrun). eapply steps_fifo_inv; [exact Hrun|]. unfold stream_new in Hnew.
  apply assert_done in Hnew as [_ [= <-]]. split; [simpl; lia|]. by split.
Qed.

(** The spawned task on its own, with a sink that accepts every call. *)
Fixpoint task_run (fuel : nat) (s : WritableStream) : WritableStream :=
  match fuel with
  | O => s
  | S f => match task_next s true with Some s' => task_run f s' | None => s end
  end.

Definition at_rest (s : WritableStream) : Prop := task_next s true = None.

Lemma task_run_rest fuel s : at_rest s → task_run fuel s = s.
Proof. intros Hs. destruct fuel; simpl; [done|]. by rewrite Hs. Qed.

Lemma task_run_receiving q : ∀ s fuel,
  task s = Receiving → queue s = q → (2 * length q + 1 ≤ fuel)%nat →
  handled (task_run fuel s) = handled s ++ until_end q ∧ at_rest (task_run fuel s).
Proof.
  induction q as [|cmd q IH]; intros s fuel Ht Hq Hf; (destruct fuel as [|fuel]; [simpl in Hf; lia|]).
  - simpl. unfold task_next. rewrite Ht, Hq. destruct (live s) eqn:El.
    + rewrite app_nil_r. split; [done|]. unfold at_rest, task_next. by rewrite Ht, Hq, El.
    + by rewrite task_run_rest, app_nil_r.
  - cbn [task_run]. assert (task_next s true = Some (set_task s q (Handling cmd) (handled s ++ [cmd]))) as ->
      by (unfold task_next; by rewrite Ht, Hq).
    destruct fuel as [|fuel]; [simpl in Hf; lia|]. cbn [task_run]. destruct cmd as [chunk| |reason].
    + change (task_next _ true) with (Some (set_task s q Receiving (handled s ++ [Write chunk]))) at 1.
      cbn iota. destruct (IH (set_task s q Receiving (handled s ++ [Write chunk])) fuel) as [Hh Hr]; [done..|simpl in Hf; lia|].
      split; [|exact Hr]. rewrite Hh. simpl. by rewrite <-app_assoc.
    + simpl. by rewrite task_run_rest.
    + simpl. by rewrite task_run_rest.
Qed.

(** C25. What the sink gets, and that it gets it: in every reachable state at most
    [high_water_mark] commands wait, and the calls of the sink so far are, in order, an
    initial part of the accepted commands up to the first [Close] or [Abort].  Unless
    the task has ended, letting it run with a sink that accepts every call comes to
    rest within two steps per waiting command and two more, and then the sink has been
    called with all of them: no accepted chunk before a [Close] is lost, and none
    after it is written. *)
Theorem sink_gets_accepted (mark : option nat) (n : nat) (w : WritableStream * list Client)
    (Hw : reachable mark n w) :
  (length (queue w.1) ≤ high_water_mark w.1)%nat ∧
  handled w.1 `prefix_of` until_end (accepted w.1) ∧
  (task w.1 ≠ Finished →
   let s := task_run (2 * length (queue w.1) + 2) w.1 in
   at_rest s ∧ handled s = until_end (accepted w.1)).
Proof.
  apply reachable_fifo_inv in Hw as (Hlen & Hp & Hsh). split; [done|]. split; [done|]. intros Hne s.
  destruct w as [s0 clients]. cbn [fst snd] in *.
  destruct (task s0) as [| |cmd|] eqn:Ht; [| | |done].
  - destruct Hsh as [Hh Ha].
    assert (s = task_run (2 * length (queue s0) + 1) (set_task s0 (queue s0) Receiving (handled s0))) as ->.
    { unfold s. replace (2 * length (queue s0) + 2)%nat with (S (2 * length (queue s0) + 1)) by lia.
      cbn [task_run]. unfold task_next at 1. by rewrite Ht. }
    destruct (task_run_receiving (queue s0) (set_task s0 (queue s0) Receiving (handled s0))
      (2 * length (queue s0) + 1)) as [Hr1 Hr2]; [done..|]. split; [done|]. rewrite Hr1. simpl. by rewrite Hh, Ha.
  - destruct Hsh as [HF Ha]. destruct (task_run_receiving (queue s0) s0 (2 * length (queue s0) + 2)) as [Hr1 Hr2];
      [done..|lia|]. split; [done|]. unfold s. rewrite Hr1. by rewrite Ha, until_end_writes.
  - destruct Hsh as (l & Hh & HF & Ha).
    assert (s = match cmd with
                | Write _ => task_run (2 * length (queue s0) + 1) (set_task s0 (queue s0) Receiving (handled s0))
                | _ => set_task s0 [] Finished (handled s0)
                end) as ->.
    { unfold s. replace (2 * length (queue s0) + 2)%nat with (S (2 * length (queue s0) + 1)) by lia.
      cbn [task_run]. unfold task_next at 1. rewrite Ht. destruct cmd; [done|by rewrite task_run_rest..]. }
    destruct cmd as [chunk| |reason].
    + destruct (task_run_receiving (queue s0) (set_task s0 (queue s0) Receiving (handled s0))
        (2 * length (queue s0) + 1)) as [Hr1 Hr2]; [done..|]. split; [done|]. rewrite Hr1. simpl.
      rewrite Ha, Hh, until_end_writes; [done|]. apply Forall_app. split; [done|by repeat constructor].
    + split; [done|]. simpl. by rewrite Ha, Hh, <-app_assoc, until_end_writes.
    + split; [done|]. simpl. by rewrite Ha, Hh, <-app_assoc, until_end_writes.
Qed.

(** ** A writer dropped without closing *)

Lemma steps_accepted w w' : rtc step w w' → accepted w.1 `prefix_of` accepted w'.1.
Proof.
  induction 1 as [w|w1 w2 w3 Hs Hrun IH]; [done|]. etransitivity; [|exact IH]. clear IH Hrun.
  destruct Hs as [s clients i c s' c' Hi Hc|s clients i c s' c' Hi Hc|s clients ok s' Ht|s clients Hidle]; simpl.
  - by destruct Hc.
  - assert (∀ cmd, accepted s `prefix_of` accepted (try_send s cmd).1) as Hp.
    { intros cmd. unfold try_send. repeat case_match; simpl; try done. by apply prefix_app_r. }
    destruct c as [| | | | |cmd| | |reason|reason| | |]; simpl in Hc; try discriminate;
      try (injection Hc as <- <-; first [done|apply Hp]).
    specialize (Hp cmd). destruct (try_send s cmd) as [s1 []]; simplify_eq; done.
  - by destruct (task_next_same _ _ _ Ht) as (_ & _ & _ & _ & ->).
  - done.
Qed.

(** The state after one task got a writer, dropped it, got another and wrote. *)
Definition abandoned (mark : nat) (n : nat) (chunk : Bytes) : WritableStream * list Client :=
  (mkStream true mark false false None true [dropped_without_close; Write chunk] Starting
     [dropped_without_close; Write chunk] [], Writer :: replicate n Idle).

Lemma abandoned_reachable mark n chunk : (2 ≤ mark)%nat → reachable (Some mark) (S n) (abandoned mark n chunk).
Proof.
  intros Hm. eexists (mkStream false mark false false None true [] Starting [] [], replicate (S n) Idle). split.
  { split; [|done]. unfold stream_new. simpl. by rewrite assert_true by (apply Z.ltb_lt; lia). }
  assert ((0 <? mark)%nat = true) as H0 by (apply Nat.ltb_lt; lia).
  assert ((1 <? mark)%nat = true) as H1 by (apply Nat.ltb_lt; lia).
  assert (∀ s, locked s = false → aborted s = false → closed s = false →
    rtc step (s, replicate (S n) Idle) (set_locked s true, Writer :: replicate n Idle)) as Hget.
  { intros s Hl Ha Hc. eapply rtc_l; [eapply (step_call _ _ 0); [done|by constructor]|].
    eapply rtc_l; [eapply (step_next _ _ 0); [done|reflexivity]|]. simpl. rewrite Hc.
    eapply rtc_l; [eapply (step_next _ _ 0); [done|reflexivity]|]. simpl. rewrite Ha. reflexivity. }
  etransitivity; [by apply Hget|].
  eapply rtc_l; [eapply (step_call _ _ 0); [done|apply call_drop]|].
  eapply rtc_l; [eapply (step_next _ _ 0); [done|reflexivity]|]. unfold try_send. simpl. rewrite H0.
  eapply rtc_l; [eapply (step_next _ _ 0); [done|reflexivity]|].
  etransitivity; [by apply Hget|].
  eapply rtc_l; [eapply (step_call _ _ 0); [done|apply (call_write _ chunk)]|].
  apply rtc_once. unfold abandoned.
  match goal with |- step (?s, ?cs) _ =>
    apply (step_next s cs 0 (Sending (Write chunk)) (push s (Write chunk)) Writer); [done|] end.
  simpl. unfold try_send. simpl. by rewrite H1.
Qed.

(** Dropping a writer without closing it loses writes: the drop puts an [Abort] into
    the channel but leaves the stream unmarked, so a task can get another writer, and
    its write is accepted, in a stream that is neither closed nor aborted; yet in no
    execution is the sink ever called with it. *)
Theorem write_after_drop_lost (mark n : nat) (chunk : Bytes) (Hmark : (2 ≤ mark)%nat) :
  ∃ w, reachable (Some mark) (S n) w ∧ w.2 !! 0%nat = Some Writer ∧ ended w.1 = false ∧
    last (accepted w.1) = Some (Write chunk) ∧
    ∀ w', rtc step w w' → Write chunk ∉ handled w'.1.
Proof.
  exists (abandoned mark n chunk). pose proof (abandoned_reachable mark n chunk Hmark) as Hreach.
  split_and!; try done. intros w' Hrun Hin.
  destruct (steps_fifo_inv _ _ Hrun (reachable_fifo_inv _ _ _ Hreach)) as (_ & Hp & _).
  destruct (steps_accepted _ _ Hrun) as [k Hk]. rewrite Hk in Hp. simpl in Hp.
  destruct Hp as [m Hm]. assert (Write chunk ∈ [dropped_without_close]) as Hin'
    by (rewrite Hm; apply elem_of_app; by left).
  apply list_elem_of_singleton in Hin'. discriminate.
Qed.

Lemma one_writer_witness :
  ended (abandoned 4 1 [1]).1 = false ∧
  ∀ j d, (abandoned 4 1 [1]).2 !! j = Some d → can_send d = true → 0%nat = j.
Proof.
  split; [reflexivity|]. intros j d Hj Hd.
  exact (proj1 (one_writer (Some 4%nat) 2 (abandoned 4 1 [1]) (abandoned_reachable 4 1 [1] ltac:(lia)))
    0%nat j Writer d eq_refl Hj eq_refl Hd).
Defined.

Lemma sink_gets_accepted_witness :
  handled (task_run 6 (abandoned 4 1 [1]).1) = [dropped_without_close].
Proof.
  exact (proj2 (proj2 (proj2 (sink_gets_accepted (Some 4%nat) 2 (abandoned 4 1 [1])
    (abandoned_reachable 4 1 [1] ltac:(lia)))) ltac:(discriminate))).
Defined.

Lemma write_after_drop_lost_witness :
  ∃ w, reachable (Some 2%nat) 1 w ∧ ∀ w', rtc step w w' → Write [7] ∉ handled w'.1.
Proof.
  destruct (write_after_drop_lost 2 0 [7]) as (w & Hw & _ & _ & _ & Hl); [lia|]. by exists w.
Defined.
