(* ===== verification/Admin.v ===== *)
(** * [src/admin/]: the Admin API

    Who is let in ([auth.rs], the two routers of [server.rs] and [unix_socket.rs]),
    what each handler answers ([handlers/apps.rs], [handlers/health.rs]) and where the
    figures of the isolate listing come from ([diagnostics.rs]).  Axum matches paths
    and methods and parses the bodies, so a request here is a route with its
    parameters; [key_header] is the first [X-Admin-Key] header if it is visible text,
    and [connect_info] whether axum attached the peer's address to the request. *)

From stdpp Require Import base gmap list strings pretty.
From Stdlib Require Import Ascii ZArith Lia.
From S2P Require Import Prelude RustString RustList RustFloat RustFmt Config ConfigProps Registry.
From S2P Require Import MemoryMonitor Metrics MetricsText TenantMetrics.
Import ModRs.

Open Scope Z_scope.

(** ** [auth.rs] *)

Record AdminAuth := mkAuth { api_key : string }.

Definition validate (a : AdminAuth) (key : string) : bool :=
  if is_empty key || is_empty (api_key a) then false else String.eqb key (api_key a).

Definition is_configured (a : AdminAuth) : bool := negb (is_empty (api_key a)).

Record AuthError := mkAuthError { ae_error : string; ae_message : string; ae_code : Z }.

Definition auth_error_new (message : string) : AuthError := mkAuthError "Unauthorized" message 401.

(** ** [diagnostics.rs] *)

Record IsolateInfo := mkIsolate {
  i_hostname : string;
  i_worker_id : Z;
  i_uptime_secs : Z;
  i_request_count : Z;
  i_memory_bytes : option Z;
  i_busy : bool;
  i_env_keys : list string;
}.

Record AppStats := mkStats {
  a_hostname : string;
  a_worker_count : Z;
  a_total_requests : Z;
  a_avg_memory_mb : f64;
  a_uptime : string;
  a_memory_limit_mb : Z;
  a_timeout_secs : Z;
  a_workers : Z;
}.

Record SystemDiagnostics := mkDiagnostics {
  isolates : list IsolateInfo;
  app_stats : list AppStats;
  total_isolates : Z;
  total_requests : Z;
}.

Definition format_duration (secs : Z) : string :=
  if secs <? 60 then pretty secs +:+ "s"
  else if secs <? 3600 then pretty (secs / 60) +:+ ("m " +:+ (pretty (secs mod 60) +:+ "s"))
  else pretty (secs / 3600) +:+ ("h " +:+ (pretty ((secs mod 3600) / 60) +:+ "m")).

(** [Iterator::sum] of [u64]s wraps as the additions do. *)
Definition sum_u64 (l : list Z) : Z := foldl add_u64 0 l.

Section admin.
Context {OS : OsFiles} {HO : HashOrder string} {SO : HashOrder ()} {TO : HashOrder TenantMetrics}.
Context `{LabelOrder Counter, LabelOrder Gauge, LabelOrder Histogram} {Sliver : Type}.

(** One isolate of the listing; the figures are the source's own constants. *)
Definition simulated_isolate (app : AppConfig) (hostname : string) (worker_id : Z) : IsolateInfo :=
  mkIsolate hostname worker_id 60 (add_u64 42 (mul_u64 worker_id 10))
    (Some (mul_u64 (mul_u64 (memory_mb (limits app)) 1024) 1024 / 4))
    (worker_id mod 2 =? 0) (hash_iter (env_vars app)).*1.

(** The body of the loop of [collect] for a registered host *)
Definition collect_app (acc : list IsolateInfo * list AppStats) (hostname : string) (app : AppConfig) :
    list IsolateInfo * list AppStats :=
  let worker_count := workers (limits app) in
  let isolates := acc.1 ++ map (λ i, simulated_isolate app hostname (Z.of_nat i)) (seq 0 (Z.to_nat worker_count)) in
  let mine := List.filter (λ i, String.eqb (i_hostname i) hostname) isolates in
  (isolates,
   acc.2 ++ [mkStats hostname worker_count (sum_u64 (map i_request_count mine))
               (f64_mul (f64_of_Z (memory_mb (limits app))) (f64_lit 25 100)) (format_duration 60)
               (memory_mb (limits app)) (timeout_secs (limits app)) (workers (limits app))]).

Definition collect (r : AppRegistry (Sliver := Sliver)) : SystemDiagnostics :=
  let '(isolates, app_stats) :=
    foldl (λ acc hostname,
             match get r hostname with
             | Some app => collect_app acc hostname app
             | None => acc
             end) ([], []) (set_iter (all_hostnames r)) in
  mkDiagnostics isolates app_stats (Z.of_nat (length isolates)) (sum_u64 (map a_total_requests app_stats)).

(** ** [handlers/apps.rs] *)

Inductive AppStatus := Pending | Active | Disabled.

Record AppInfo := mkInfo {
  info_hostname : string;
  info_entrypoint : string;
  info_env_vars : gmap string string;
  info_limits : AppLimits;
  info_status : AppStatus;
  info_created_at : string;
  info_is_active : bool;
}.

Record CreateAppRequest := mkCreate {
  cr_hostname : string;
  cr_entrypoint : string;
  cr_env_vars : gmap string string;
  cr_limits : AppLimits;
  cr_activate : bool;
}.

Record UpdateAppRequest := mkUpdate {
  up_entrypoint : option string;
  up_env_vars : option (gmap string string);
  up_limits : option AppLimits;
}.

Record AppError := mkAppError { er_error : string; er_message : string; er_code : Z }.

Definition not_found (hostname : string) : AppError :=
  mkAppError "NotFound" ("App '" +:+ (hostname +:+ "' not found")) 404.
Definition validation (message : string) : AppError := mkAppError "ValidationError" message 400.
Definition conflict (message : string) : AppError := mkAppError "Conflict" message 409.
Definition internal (message : string) : AppError := mkAppError "InternalError" message 500.

(** Seconds and nanoseconds since 1970, with years of 365 and months of 30 days *)
Definition timestamp (secs nanos : Z) : string :=
  pretty (1970 + secs / 31536000) +:+ ("-" +:+
  (pad_left 2 ((secs mod 31536000) / 2592000 + 1) +:+ ("-" +:+
  (pad_left 2 ((secs mod 2592000) / 86400 + 1) +:+ ("T" +:+
  (pad_left 2 ((secs mod 86400) / 3600) +:+ (":" +:+
  (pad_left 2 ((secs mod 3600) / 60) +:+ (":" +:+
  (pad_left 2 (secs mod 60) +:+ ("." +:+ (pad_left 3 (nanos / 1000000) +:+ "Z")))))))))))).

Definition config_to_info (config : AppConfig) (status : AppStatus) (created_at : string) : AppInfo :=
  mkInfo (hostname config) (entrypoint config) (env_vars config) (limits config) status created_at
    match status with Active => true | _ => false end.

(** What a handler answers: a status and one of the JSON bodies *)
Inductive Body :=
| BText (text : string)
| BHealth (status version service : string)
| BReady (ready : bool) (message : string)
| BAuthError (e : AuthError)
| BAppError (e : AppError)
| BApps (total : Z) (apps : list AppInfo)
| BApp (app : AppInfo)
| BAppWith (app : AppInfo) (message : string)
| BAction (hostname action message : string) (status : AppStatus)
| BIsolates (d : SystemDiagnostics) (timestamp : string)
| BTenants (s : MetricsSnapshot) (timestamp : string)
| BTenant (s : TenantMetricsSnapshot)
| BSummary (requests : Z) (requests_per_second : f64) (uptime_secs : Z) (tenant_count : Z)
    (hostnames : list string) (top_by_requests top_by_cpu : list (string * Z)) (timestamp version : string)
| BEmpty.

Record Reply := mkReply { status : Z; body : Body }.

Definition error_reply (e : AppError) : Reply := mkReply (er_code e) (BAppError e).

(** [Display] of the validation errors *)
Definition display_errors (errors : list string) : string :=
  join (String (ascii_of_nat 10) "") (map (λ e, "- " +:+ e) errors).

Definition list_apps (now : string) (r : AppRegistry (Sliver := Sliver)) : Reply :=
  let apps := omap (λ h, (λ c, config_to_info c Active now) <$> get r h) (set_iter (all_hostnames r)) in
  mkReply 200 (BApps (Z.of_nat (length apps)) apps).

Definition get_app (now : string) (r : AppRegistry (Sliver := Sliver)) (h : string) : Reply :=
  match get r h with
  | Some config => mkReply 200 (BApp (config_to_info config Active now))
  | None => error_reply (not_found h)
  end.

Definition create_app (now : string) (r : AppRegistry (Sliver := Sliver)) (q : CreateAppRequest) : Reply :=
  if contains r (cr_hostname q) then
    error_reply (conflict ("App '" +:+ (cr_hostname q +:+ "' already exists")))
  else
    let config := mkApp (cr_hostname q) (cr_entrypoint q) None (cr_env_vars q) (cr_limits q) BMemory None None in
    match validate_config config None with
    | Err errors => error_reply (validation ("Configuration validation failed: " +:+ display_errors errors))
    | Ok _ =>
        let status := if cr_activate q then Active else Pending in
        let app_info := config_to_info config status now in
        let message :=
          if cr_activate q then "App '" +:+ (cr_hostname q +:+ "' created and activated")
          else "App '" +:+ (cr_hostname q +:+ ("' created in pending status. Use POST /admin/apps/" +:+
                 (cr_hostname q +:+ "/activate to activate."))) in
        mkReply 201 (BAppWith app_info message)
    end.

Definition apply_update (config : AppConfig) (q : UpdateAppRequest) : AppConfig :=
  mkApp (hostname config) (default (entrypoint config) (up_entrypoint q)) (sliver config)
    (default (env_vars config) (up_env_vars q)) (default (limits config) (up_limits q))
    (vfs_backend config) (vfs_disk config) (vfs_s3 config).

Definition update_app (now : string) (r : AppRegistry (Sliver := Sliver)) (h : string) (q : UpdateAppRequest) :
    Reply :=
  match get r h with
  | None => error_reply (not_found h)
  | Some config =>
      let config := apply_update config q in
      match validate_config config None with
      | Err errors => error_reply (validation ("Updated configuration is invalid: " +:+ display_errors errors))
      | Ok _ => mkReply 200 (BAppWith (config_to_info config Active now)
                               ("App '" +:+ (h +:+ "' updated successfully")))
      end
  end.

Definition delete_app (r : AppRegistry (Sliver := Sliver)) (h : string) : Reply :=
  match get r h with
  | None => error_reply (not_found h)
  | Some _ => mkReply 200 (BAction h "delete" "App deleted successfully" Active)
  end.

Definition activate_app (h : string) : Reply := mkReply 200 (BAction h "activate" "App activated successfully" Active).
Definition disable_app (h : string) : Reply := mkReply 200 (BAction h "disable" "App disabled successfully" Disabled).
Definition enable_app (h : string) : Reply := mkReply 200 (BAction h "enable" "App enabled successfully" Active).
Definition reload_app (h : string) : Reply := mkReply 200 (BAction h "reload" "App reloaded successfully" Active).
Definition drain_app (h : string) : Reply := mkReply 200 (BAction h "drain" "App drained and disabled" Disabled).

Definition scale_app (h : string) (workers : Z) : Reply :=
  if (workers <? 1) || (workers >? 32) then error_reply (validation "Workers must be between 1 and 32")
  else mkReply 200 (BAction h "scale" ("App scaled to " +:+ (pretty workers +:+ " workers")) Active).

(** ** [handlers/health.rs] *)

Definition health_handler (version : string) : Reply := mkReply 200 (BHealth "healthy" version "nano-admin").
Definition ready_handler : Reply := mkReply 200 (BReady true "Admin API is ready").
Definition ready_handler_with_state (is_shutting_down : bool) : Reply :=
  if is_shutting_down then mkReply 503 (BReady false "Server is shutting down")
  else mkReply 200 (BReady true "Admin API is ready").

(** ** The routers *)

Inductive AdminRoute :=
| RHealth
| RReady
| RIsolates
| RListApps
| RCreateApp (q : CreateAppRequest)
| RGetApp (h : string)
| RUpdateApp (h : string) (q : UpdateAppRequest)
| RDeleteApp (h : string)
| RActivate (h : string)
| RDisable (h : string)
| REnable (h : string)
| RReload (h : string)
| RScale (h : string) (workers : Z)
| RDrain (h : string)
| RMetrics
| RTenantMetrics
| RMetricsSummary
| RAppMetrics (h : string).

Record Request := mkRequest {
  route : AdminRoute;
  key_header : option string;
  connect_info : bool;
}.

Definition is_public (r : AdminRoute) : bool := match r with RHealth | RReady => true | _ => false end.

(** What the handlers share: the registry and the two global sets of metrics *)
Record World := mkWorld {
  registry : AppRegistry (Sliver := Sliver);
  metrics : MetricsRegistry;
  tenant_metrics : TenantMetricsCollector;
}.

(** When the request is handled: the text of the time and the clock of the uptime *)
Record Moment := mkMoment { now_text : string; instant : Z; version : string }.

(** ** The metrics handlers ([handlers/isolates.rs]) *)

Definition list_isolates (t : Moment) (w : World) : Reply :=
  mkReply 200 (BIsolates (collect (registry w)) (now_text t)).

Definition prometheus_metrics_handler (t : Moment) (w : World) : World * Reply :=
  let m := update_uptime (instant t) (metrics w) in
  (mkWorld (registry w) m (tenant_metrics w),
   mkReply 200 (BText (export m +:+ (String (ascii_of_nat 10) (to_prometheus (tenant_metrics w)))))).

Definition tenant_metrics_json (t : Moment) (w : World) : Reply :=
  mkReply 200 (BTenants (snapshot (tenant_metrics w)) (now_text t)).

Definition metrics_summary (t : Moment) (w : World) : Reply :=
  let uptime_secs := uptime (metrics w) in
  let global_requests := sum_u64 (map snd (counter_vec_get_all (requests_total (metrics w)))) in
  let rps := if uptime_secs >? 0 then f64_div (f64_of_Z global_requests) (f64_of_Z uptime_secs) else f64_of_Z 0 in
  let c := tenant_metrics w in
  mkReply 200 (BSummary global_requests rps uptime_secs (tenant_count c) (tenant_hostnames c)
                 (top_tenants_by_requests c 10) (top_tenants_by_cpu c 10) (now_text t) (version t)).

Definition app_metrics_handler (w : World) (h : string) : Reply :=
  match tenants (tenant_metrics w) !! h with
  | Some m => mkReply 200 (BTenant (tenant_snapshot h m))
  | None => mkReply 404 BEmpty
  end.

(** The handlers behind the routes *)
Definition run_handler (t : Moment) (w : World) (route : AdminRoute) : World * Reply :=
  let now := now_text t in
  let r := registry w in
  match route with
  | RHealth => (w, health_handler (version t))
  | RReady => (w, ready_handler)
  | RIsolates => (w, list_isolates t w)
  | RListApps => (w, list_apps now r)
  | RCreateApp q => (w, create_app now r q)
  | RGetApp h => (w, get_app now r h)
  | RUpdateApp h q => (w, update_app now r h q)
  | RDeleteApp h => (w, delete_app r h)
  | RActivate h => (w, activate_app h)
  | RDisable h => (w, disable_app h)
  | REnable h => (w, enable_app h)
  | RReload h => (w, reload_app h)
  | RScale h workers => (w, scale_app h workers)
  | RDrain h => (w, drain_app h)
  | RMetrics => prometheus_metrics_handler t w
  | RTenantMetrics => (w, tenant_metrics_json t w)
  | RMetricsSummary => (w, metrics_summary t w)
  | RAppMetrics h => (w, app_metrics_handler w h)
  end.

Definition Handler : Type := World → Request → World * Reply.

Definition api_key_middleware (a : AdminAuth) (next : Handler) : Handler := λ w q,
  if negb (is_configured a) then next w q
  else match key_header q with
       | Some k =>
           if validate a k then next w q
           else (w, mkReply 401 (BAuthError (auth_error_new "Invalid API key")))
       | None => (w, mkReply 401 (BAuthError (auth_error_new "Missing X-Admin-Key header")))
       end.

Definition api_key_middleware_forbidden (a : AdminAuth) (next : Handler) : Handler := λ w q,
  let forbidden := mkReply 403 (BAuthError (mkAuthError "Forbidden" "Access denied" 403)) in
  match key_header q with
  | Some k => if validate a k then next w q else (w, forbidden)
  | None => (w, forbidden)
  end.

Definition create_admin_router (t : Moment) (a : AdminAuth) : Handler := λ w q,
  let next : Handler := λ w q, run_handler t w (route q) in
  if is_public (route q) then next w q else api_key_middleware a next w q.

(** The extractor of the peer's address answers 500 when axum attached none. *)
Definition missing_connect_info : Reply := mkReply 500 (BText (
  "Missing request extension: Extension of type `axum::extract::connect_info::ConnectInfo<" +:+
  "core::net::socket_addr::SocketAddr>` was not found. Perhaps you forgot to add it? See `axum::Extension`.")).

Definition mark_unix_socket_request (next : Handler) : Handler := λ w q,
  if connect_info q then next w q else (w, missing_connect_info).

Definition create_unix_socket_router (t : Moment) (a : AdminAuth) : Handler :=
  mark_unix_socket_request (create_admin_router t a).

(** The router without authentication, which nothing starts; it has no tenant metrics. *)
Definition create_unix_socket_router_no_auth (t : Moment) : Handler := λ w q,
  match route q with
  | RMetrics =>
      let m := update_uptime (instant t) (metrics w) in
      (mkWorld (registry w) m (tenant_metrics w), mkReply 200 (BText (export m)))
  | RTenantMetrics | RMetricsSummary | RAppMetrics _ => (w, mkReply 404 BEmpty)
  | r => run_handler t w r
  end.

(** ** Starting ([server.rs], [unix_socket.rs], [main.rs]) *)

Record AdminConfig := mkAdminConfig { port : Z; admin_host : string; config_api_key : string }.

Definition admin_config_new (key : string) : AdminConfig := mkAdminConfig 8889 "0.0.0.0" key.

Definition admin_config_validate (c : AdminConfig) : result () string :=
  if is_empty (config_api_key c) then Err "Admin API key is required" else Ok ().

(** [start_admin_server], when the address parses and can be bound: the key its
    router asks for.  [axum::serve] attaches no address. *)
Definition start_admin_server (c : AdminConfig) : result AdminAuth string :=
  let? _ := admin_config_validate c in
  Ok (mkAuth (config_api_key c)).

(** [run_server]: the TCP server is started for a non-empty [NANO_ADMIN_API_KEY]; the
    key of the Unix socket's router is fixed. *)
Definition main_admin_server (env_key : string) : option (result AdminAuth string) :=
  if is_empty env_key then None else Some (start_admin_server (admin_config_new env_key)).

Definition unix_auth : AdminAuth := mkAuth "unix-socket-unused".

(** The registry [run_server] makes for the Admin API *)
Definition main_registry : AppRegistry (Sliver := Sliver) := Registry.registry_new ∅.

(** A request as the listeners pass it on *)
Definition received (route : AdminRoute) (key : option string) : Request := mkRequest route key false.

(** * Theorems *)

(** ** Access *)

Lemma validate_exact a k : api_key a ≠ "" → validate a k = bool_decide (k = api_key a).
Proof.
  intros Ha. unfold validate. rewrite (proj2 (is_empty_false _) Ha), orb_false_r.
  destruct (is_empty k) eqn:E.
  - apply is_empty_true in E as ->. symmetry. apply bool_decide_eq_false. congruence.
  - symmetry. destruct (String.eqb_spec k (api_key a)); [by apply bool_decide_eq_true|by apply bool_decide_eq_false].
Qed.

(** C9. Who reaches the Admin API.  The TCP server is only started with a non-empty key,
    and then a request to any route but the two health probes is handled exactly when
    its [X-Admin-Key] is that key; otherwise it is answered 401, which says whether the
    key was missing or wrong, and nothing changes.  On the Unix socket no request is
    ever handled, not even a health probe: its router wants the peer's address, which
    its listener does not attach, so everything is answered 500. *)
Theorem admin_access_exact (t : Moment) (w : World) (env_key : string) (rt : AdminRoute) (key : option string) :
  match main_admin_server env_key with
  | None => env_key = ""
  | Some (Err _) => False
  | Some (Ok a) =>
      create_admin_router t a w (received rt key) =
        if is_public rt || bool_decide (key = Some env_key) then run_handler t w rt
        else (w, mkReply 401 (BAuthError (auth_error_new
                match key with Some _ => "Invalid API key" | None => "Missing X-Admin-Key header" end)))
  end ∧
  create_unix_socket_router t unix_auth w (received rt key) = (w, missing_connect_info).
Proof.
  split; [|done]. unfold main_admin_server. destruct (is_empty env_key) eqn:E; [by apply is_empty_true|].
  unfold start_admin_server, admin_config_validate. simpl. rewrite E. cbn [result_bind].
  pose proof E as Hne. apply is_empty_false in Hne.
  unfold create_admin_router, received. cbn [route]. destruct (is_public rt); [done|]. simpl.
  unfold api_key_middleware, is_configured. simpl. rewrite E. simpl. destruct key as [k|]; [|done].
  rewrite validate_exact by done. simpl. destruct (decide (k = env_key)) as [->|Hk].
  - by rewrite !bool_decide_eq_true_2.
  - by rewrite !bool_decide_eq_false_2 by congruence.
Qed.

(** ** What the API changes *)

Definition serve (listener : bool) (a : AdminAuth) (w : World) (q : Moment * Request) : World :=
  (if listener then create_admin_router q.1 a w q.2 else create_unix_socket_router q.1 a w q.2).1.

Lemma run_handler_same t w rt :
  registry (run_handler t w rt).1 = registry w ∧ tenant_metrics (run_handler t w rt).1 = tenant_metrics w.
Proof. by destruct rt. Qed.

Lemma admin_router_same t a w q :
  registry (create_admin_router t a w q).1 = registry w ∧
  tenant_metrics (create_admin_router t a w q).1 = tenant_metrics w.
Proof.
  unfold create_admin_router, api_key_middleware. pose proof (run_handler_same t w (route q)) as Hh.
  destruct (is_public (route q)); [done|]. destruct (negb (is_configured a)); [done|].
  destruct (key_header q) as [k|]; [|done]. by destruct (validate a k).
Qed.

(** What [create_app] answers, on every branch *)
Lemma create_app_exact now r q :
  let config := mkApp (cr_hostname q) (cr_entrypoint q) None (cr_env_vars q) (cr_limits q) BMemory None None in
  status (create_app now r q) =
    if contains r (cr_hostname q) then 409
    else if is_ok (validate_config config None) then 201 else 400.
Proof.
  unfold create_app. destruct (contains r (cr_hostname q)); [done|]. simpl.
  by destruct (validate_config _ None).
Qed.

Lemma served_same listener a qs w :
  registry (foldl (serve listener a) w qs) = registry w ∧
  tenant_metrics (foldl (serve listener a) w qs) = tenant_metrics w.
Proof.
  revert w. induction qs as [|q qs IH]; intros w; [done|]. simpl.
  destruct (IH (serve listener a w q)) as [-> ->]. unfold serve. destruct listener; [apply admin_router_same|].
  unfold create_unix_socket_router, mark_unix_socket_request. destruct (connect_info q.2); [|done].
  apply admin_router_same.
Qed.

(** The Admin API manages nothing.  After any requests, on either listener and with
    any keys, the registry is what it was (so an update that was accepted is not there).
    A request to create a host is answered 409 if the host is registered, else 201 if its
    configuration is valid, else 400; but a host that was created, even if it asked to be
    activated, is not found.  A host that was deleted, with status 200, is found
    unchanged.  Activating, disabling, enabling, reloading or draining any host succeeds,
    even one that is not registered. *)
Theorem admin_changes_nothing (listener : bool) (a : AdminAuth) (w : World) (qs : list (Moment * Request)) :
  let w' := foldl (serve listener a) w qs in
  registry w' = registry w ∧ tenant_metrics w' = tenant_metrics w ∧
  (∀ t q, let reply := (run_handler t w' (RCreateApp q)).2 in
     let config := mkApp (cr_hostname q) (cr_entrypoint q) None (cr_env_vars q) (cr_limits q) BMemory None None in
     status reply =
       match get (registry w) (cr_hostname q) with
       | Some _ => 409
       | None => if is_ok (validate_config config None) then 201 else 400
       end ∧
     (status reply = 201 → status (run_handler t (run_handler t w' (RCreateApp q)).1 (RGetApp (cr_hostname q))).2 = 404)) ∧
  (∀ t h, status (run_handler t w' (RDeleteApp h)).2 = 200 →
     ∃ c, get (registry w) h = Some c ∧
       (run_handler t (run_handler t w' (RDeleteApp h)).1 (RGetApp h)).2 =
         mkReply 200 (BApp (config_to_info c Active (now_text t)))) ∧
  (∀ t h rt, rt ∈ [RActivate h; RDisable h; REnable h; RReload h; RDrain h] →
     status (run_handler t w' rt).2 = 200).
Proof.
  intros w'. destruct (served_same listener a qs w) as [Hr Ht]. fold w' in Hr, Ht.
  split; [done|]. split; [done|]. split_and!.
  - intros t q reply config. unfold reply, run_handler. cbn [snd fst]. rewrite Hr, create_app_exact.
    fold config. unfold contains, get_app, get. destruct (reg_apps (registry w) !! cr_hostname q) as [c|] eqn:Eg.
    + by rewrite bool_decide_eq_true_2 by eauto.
    + rewrite bool_decide_eq_false_2 by (by intros [? ?]). by destruct (is_ok _).
  - intros t h. unfold run_handler. cbn [snd fst]. unfold delete_app, get_app. rewrite Hr.
    destruct (get (registry w) h) as [c|]; [|done]. intros _. by exists c.
  - intros t h rt Hin. repeat (apply elem_of_cons in Hin as [->|Hin]; [done|]). by apply elem_of_nil in Hin.
Qed.

(** The Admin API of a running server sees no application: [run_server] hands it an
    empty registry that the HTTP server does not share.  So after any requests the list
    of applications and that of isolates are empty, every host is unknown to the reading,
    updating and deleting routes (404), and a valid new host is created again each time. *)
Theorem admin_sees_no_app (listener : bool) (a : AdminAuth) (m : MetricsRegistry) (c : TenantMetricsCollector)
    (qs : list (Moment * Request)) (t : Moment) :
  let w := foldl (serve listener a) (mkWorld main_registry m c) qs in
  (run_handler t w RListApps).2 = mkReply 200 (BApps 0 []) ∧
  (run_handler t w RIsolates).2 = mkReply 200 (BIsolates (mkDiagnostics [] [] 0 0) (now_text t)) ∧
  (∀ h, (run_handler t w (RGetApp h)).2 = error_reply (not_found h) ∧
        (∀ q, (run_handler t w (RUpdateApp h q)).2 = error_reply (not_found h)) ∧
        (run_handler t w (RDeleteApp h)).2 = error_reply (not_found h)) ∧
  (∀ q, status (run_handler t w (RCreateApp q)).2 ≠ 409).
Proof.
  intros w. destruct (served_same listener a qs (mkWorld main_registry m c)) as [Hr _]. fold w in Hr.
  assert (set_iter (all_hostnames (registry w)) = []) as He.
  { apply elem_of_nil_inv. intros h. rewrite Hr. unfold all_hostnames, main_registry. simpl.
    rewrite elem_of_set_iter, dom_empty. set_solver. }
  unfold run_handler, list_apps, list_isolates, collect, get_app, update_app, delete_app. cbn [snd fst].
  rewrite He, Hr. unfold get, main_registry. simpl. split_and!; [done|done| |].
  - intros h. by rewrite lookup_empty.
  - intros q. change (mkReg ∅ ∅) with main_registry. rewrite create_app_exact. unfold contains. simpl.
    rewrite lookup_empty, bool_decide_eq_false_2 by (by intros [? ?]). by destruct (is_ok _).
Qed.

(** ** The figures of the isolate listing *)

Lemma sum_u64_exact l : sum_u64 l = as_u64 (sum_list l).
Proof.
  unfold sum_u64. assert (∀ n, foldl add_u64 (as_u64 n) l = as_u64 (n + sum_list l)) as H'.
  { induction l as [|x l IH]; intros n; simpl; [by rewrite Z.add_0_r|].
    rewrite add_u64_as_u64, IH. f_equal. change (sum_list (x :: l)) with (x + sum_list l). lia. }
  apply (H' 0).
Qed.

(** [42 + (42 + 10) + ...] over the workers of an application *)
Definition made_up_requests (workers : Z) : Z := 42 * workers + 5 * workers * (workers - 1).

Lemma simulated_requests app h (n : nat) : Z.of_nat n < two32 →
  sum_list (map i_request_count (map (λ i, simulated_isolate app h (Z.of_nat i)) (seq 0 n))) =
    made_up_requests (Z.of_nat n).
Proof.
  induction n as [|n IH]; intros Hn; [done|]. rewrite seq_S, !map_app. simpl.
  assert (∀ l x, sum_list (l ++ [x]) = sum_list l + x) as Happ
    by (intros l x; induction l as [|y l IHl]; simpl; unfold sum_list in *; simpl; lia).
  rewrite Happ, IH by lia. unfold add_u64, mul_u64. rewrite (as_u64_small (_ * 10)) by zlia.
  rewrite as_u64_small by zlia. unfold made_up_requests. rewrite Nat2Z.inj_succ. generalize (Z.of_nat n). intros z. ring.
Qed.

Definition app_of (r : AppRegistry (Sliver := Sliver)) (h : string) : AppConfig := default default_app (get r h).
Definition app_isolates (r : AppRegistry (Sliver := Sliver)) (h : string) : list IsolateInfo :=
  map (λ i, simulated_isolate (app_of r h) h (Z.of_nat i)) (seq 0 (Z.to_nat (workers (limits (app_of r h))))).
Definition made_up_stats (r : AppRegistry (Sliver := Sliver)) (h : string) : AppStats :=
  let c := app_of r h in
  mkStats h (workers (limits c)) (as_u64 (made_up_requests (workers (limits c))))
    (f64_mul (f64_of_Z (memory_mb (limits c))) (f64_lit 25 100)) "1m 0s"
    (memory_mb (limits c)) (timeout_secs (limits c)) (workers (limits c)).

Lemma filter_isolates r (hosts : list string) h :
  h ∉ hosts → List.filter (λ i, String.eqb (i_hostname i) h) (flat_map (app_isolates r) hosts) = [].
Proof.
  intros Hh. induction hosts as [|k hosts IH]; [done|]. cbn [flat_map].
  apply not_elem_of_cons in Hh as [Hk Hh]. rewrite List.filter_app, IH, app_nil_r by done.
  unfold app_isolates. induction (seq _ _) as [|i l IHl]; [done|]. simpl.
  by destruct (String.eqb_spec k h); [congruence|].
Qed.

Lemma filter_own_isolates r h : List.filter (λ i, String.eqb (i_hostname i) h) (app_isolates r h) = app_isolates r h.
Proof.
  unfold app_isolates. induction (seq _ _) as [|i l IHl]; [done|]. simpl. by rewrite String.eqb_refl, IHl.
Qed.

Lemma collect_fold r (hosts done_ : list string)
    (Hreg : Forall (λ h, is_Some (get r h) ∧ in_u32 (workers (limits (app_of r h)))) hosts)
    (Hnd : NoDup (done_ ++ hosts)) :
  foldl (λ acc hostname, match get r hostname with Some app => collect_app acc hostname app | None => acc end)
    (flat_map (app_isolates r) done_, map (made_up_stats r) done_) hosts =
  (flat_map (app_isolates r) (done_ ++ hosts), map (made_up_stats r) (done_ ++ hosts)).
Proof.
  revert done_ Hnd. induction hosts as [|h hosts IH]; intros done_ Hnd; [by rewrite app_nil_r|].
  apply Forall_cons in Hreg as [[[c Hc] Hw] Hreg]. cbn [foldl]. rewrite Hc.
  assert (app_of r h = c) as Happ by (unfold app_of; by rewrite Hc). rewrite Happ in Hw.
  assert (collect_app (flat_map (app_isolates r) done_, map (made_up_stats r) done_) h c =
          (flat_map (app_isolates r) (done_ ++ [h]), map (made_up_stats r) (done_ ++ [h]))) as ->.
  { unfold collect_app. cbn [fst snd].
    assert (map (λ i, simulated_isolate c h (Z.of_nat i)) (seq 0 (Z.to_nat (workers (limits c)))) = app_isolates r h) as ->
      by (unfold app_isolates; by rewrite Happ).
    rewrite flat_map_app, map_app. cbn [flat_map map]. rewrite app_nil_r. f_equal. f_equal. f_equal.
    unfold made_up_stats. rewrite Happ. cbn [limits]. f_equal.
    rewrite sum_u64_exact. f_equal. rewrite List.filter_app, filter_isolates.
    - rewrite filter_own_isolates. unfold app_isolates. rewrite Happ. cbn [app].
      rewrite simulated_requests by zlia. rewrite Z2Nat.id by zlia. done.
    - apply NoDup_app in Hnd as (_ & Hnd & _). intros Hin. apply (Hnd h Hin). by left. }
  rewrite IH; [by rewrite <-app_assoc|done|by rewrite <-app_assoc].
Qed.

(** The isolate listing is made up.  Whatever runs, its isolates are as many as the
    configured workers of the registered applications, each up for a minute, every other
    one busy, the i-th with 42 + 10i requests; so the totals are these sums.  No other
    state of the process plays a part. *)
Theorem isolates_made_up (r : AppRegistry (Sliver := Sliver))
    (Hw : ∀ h c, get r h = Some c → in_u32 (workers (limits c))) :
  let d := collect r in
  let hosts := set_iter (all_hostnames r) in
  total_isolates d = sum_list (map (λ h, workers (limits (app_of r h))) hosts) ∧
  app_stats d = map (made_up_stats r) hosts ∧
  total_requests d = as_u64 (sum_list (map (λ h, as_u64 (made_up_requests (workers (limits (app_of r h))))) hosts)) ∧
  Forall (λ i, i_uptime_secs i = 60 ∧ i_busy i = (i_worker_id i mod 2 =? 0)) (isolates d).
Proof.
  intros d hosts.
  assert (∀ h, h ∈ hosts → is_Some (get r h)) as Hin.
  { intros h Hh. unfold hosts, all_hostnames in Hh. apply elem_of_set_iter, elem_of_dom in Hh. exact Hh. }
  assert (d = mkDiagnostics (flat_map (app_isolates r) hosts) (map (made_up_stats r) hosts)
                (Z.of_nat (length (flat_map (app_isolates r) hosts)))
                (sum_u64 (map a_total_requests (map (made_up_stats r) hosts)))) as ->.
  { unfold d, collect. fold hosts. pose proof (collect_fold r hosts []) as Hf. cbn [flat_map map app] in Hf.
    rewrite Hf; [done| |apply NoDup_set_iter].
    apply Forall_forall. intros h Hh. destruct (Hin h Hh) as [c Hc]. split; [eauto|].
    apply (Hw h). unfold app_of. by rewrite Hc. }
  cbn [total_isolates app_stats total_requests isolates]. split_and!.
  - assert (∀ h, h ∈ hosts → 0 ≤ workers (limits (app_of r h))) as Hpos.
    { intros h Hh. destruct (Hin h Hh) as [c Hc]. unfold app_of. rewrite Hc. simpl. by destruct (Hw h c Hc). }
    clear - Hpos. induction hosts as [|h hosts IH]; [done|]. cbn [flat_map map].
    change (sum_list (?x :: ?l)) with (x + sum_list l). rewrite length_app, Nat2Z.inj_add, IH by (intros; apply Hpos; by right).
    f_equal. unfold app_isolates. rewrite length_map, length_seq. apply Z2Nat.id, Hpos. by left.
  - done.
  - rewrite sum_u64_exact. by rewrite map_map.
  - apply Forall_forall. intros i Hi. apply list_elem_of_In, in_flat_map in Hi as (h & _ & Hi).
    apply list_elem_of_In, list_elem_of_fmap in Hi as (k & -> & _). done.
Qed.
End admin.

Section demo.
#[local] Instance demo_env_order : HashOrder string := plain_order.
#[local] Instance demo_set_order : HashOrder () := plain_order.

Definition demo_registry : AppRegistry (Sliver := ()) := from_config (mkNano [ConfigProps.demo_app] default_server).

Lemma isolates_made_up_witness :
  total_isolates (collect demo_registry) = workers (limits ConfigProps.demo_app) ∧
  total_requests (collect demo_registry) = made_up_requests (workers (limits ConfigProps.demo_app)).
Proof.
  destruct (isolates_made_up demo_registry) as (Hn & _ & Hr & _).
  - intros h c Hc. change (<["api.example.com" := ConfigProps.demo_app]> (∅ : gmap string AppConfig) !! h = Some c) in Hc.
    apply lookup_insert_Some in Hc as [[_ <-]|[_ Hc]]; [vm_compute; split; [done|reflexivity]|].
    by rewrite lookup_empty in Hc.
  - rewrite Hn, Hr. change (set_iter (all_hostnames demo_registry)) with ["api.example.com"]. split; reflexivity.
Defined.
End demo.
