(* ===== verification/Timers.v ===== *)
(** * The timers of [src/runtime/apis.rs] and the pump of [src/worker/pool.rs]

    [setTimeout], [setInterval] and their clearing counterparts keep their entries in
    variables of the worker thread; while the promise of a handler is pending, the
    thread fires the due entries once a millisecond.

    What JavaScript does is not the model's business but what it does to the timers is:
    a call of the engine ([JsEngine]) answers with the timer operations it issued, each
    at the time it read.  The functions return with their result the list of what
    happened, in order; nothing in them depends on that list.  The second half gives
    the same code as a transition system over these events, on which the theorems about
    whole requests are proved by induction over the events. *)

From stdpp Require Import base list strings.
From Stdlib Require Import ZArith Lia SpecFloat.
From S2P Require Import Prelude RustString RustFloat WorkerLoop.

Open Scope Z_scope.

(** [x.max(y)] on [f64]: the other argument if one is not a number *)
Definition f64_max (x y : f64) : f64 :=
  if is_nan x then y else if is_nan y then x else if f64_lt x y then y else x.

(** [x as u32], saturating *)
Definition f64_to_u32 (x : f64) : Z := Z.min u32_max (f64_to_usize x).

(** [Duration::from_millis] in nanoseconds *)
Definition from_millis (ms : Z) : Z := ms * 1000000.

(** A value passed to one of the functions: the function it is, if it is one, and its
    conversion to a number, if that does not throw. *)
Record TimerArg {F : Type} := mkArg { arg_function : option F; arg_number : option f64 }.
Arguments TimerArg : clear implicits.
Arguments mkArg {F}.

Section timers.
Context {F J : Type}.

(** ** The entries and the variables of the thread *)

Record TimeoutEntry := mkTimeout { to_id : Z; to_func : F; fire_at : Z }.

Record IntervalEntry := mkInterval { iv_id : Z; iv_func : F; interval_ms : Z; next_fire : Z }.

Record TimerState := mkTimers {
  PENDING_TIMEOUTS : list TimeoutEntry;
  TIMEOUT_ID_COUNTER : Z;
  PENDING_INTERVALS : list IntervalEntry;
  INTERVALS_CLEARED_DURING_FIRE : list Z;
  INTERVAL_ID_COUNTER : Z;
}.

Definition initial_timers : TimerState := mkTimers [] 1 [] [] 100.

Definition with_timeouts (l : list TimeoutEntry) (t : TimerState) : TimerState :=
  mkTimers l (TIMEOUT_ID_COUNTER t) (PENDING_INTERVALS t) (INTERVALS_CLEARED_DURING_FIRE t)
           (INTERVAL_ID_COUNTER t).
Definition with_intervals (l : list IntervalEntry) (t : TimerState) : TimerState :=
  mkTimers (PENDING_TIMEOUTS t) (TIMEOUT_ID_COUNTER t) l (INTERVALS_CLEARED_DURING_FIRE t)
           (INTERVAL_ID_COUNTER t).
Definition with_cleared (l : list Z) (t : TimerState) : TimerState :=
  mkTimers (PENDING_TIMEOUTS t) (TIMEOUT_ID_COUNTER t) (PENDING_INTERVALS t) l (INTERVAL_ID_COUNTER t).

(** ** The functions JavaScript calls *)

(** The callback of [args], if the first argument is a function. *)
Definition callback_arg (args : list (TimerArg F)) : option F :=
  match args with [] => None | a :: _ => arg_function a end.

Definition delay_arg (args : list (TimerArg F)) : Z :=
  match args with
  | _ :: a :: _ =>
      match arg_number a with Some n => f64_to_usize (f64_max n (f64_of_Z 0)) | None => 0 end
  | _ => 0
  end.

Definition id_arg (args : list (TimerArg F)) : option Z :=
  match args with [] => None | a :: _ => f64_to_u32 <$> arg_number a end.

Definition set_timeout_callback (now : Z) (args : list (TimerArg F)) (t : TimerState)
    : TimerState * Z :=
  match callback_arg args with
  | None => (t, 0)
  | Some func =>
      let id := TIMEOUT_ID_COUNTER t in
      (mkTimers (PENDING_TIMEOUTS t ++ [mkTimeout id func (now + from_millis (delay_arg args))])
                (if id >=? 99 then 1 else id + 1)
                (PENDING_INTERVALS t) (INTERVALS_CLEARED_DURING_FIRE t) (INTERVAL_ID_COUNTER t),
       id)
  end.

Definition set_interval_callback (now : Z) (args : list (TimerArg F)) (t : TimerState)
    : TimerState * Z :=
  match callback_arg args with
  | None => (t, 0)
  | Some func =>
      let id := INTERVAL_ID_COUNTER t in
      let ms := delay_arg args in
      (mkTimers (PENDING_TIMEOUTS t) (TIMEOUT_ID_COUNTER t)
                (PENDING_INTERVALS t ++ [mkInterval id func ms (now + from_millis ms)])
                (INTERVALS_CLEARED_DURING_FIRE t) (as_u32 (id + 1)),
       id)
  end.

Definition clear_timeout_callback (args : list (TimerArg F)) (t : TimerState) : TimerState :=
  match id_arg args with
  | None => t
  | Some target_id =>
      with_timeouts (base.filter (λ e, to_id e ≠ target_id) (PENDING_TIMEOUTS t)) t
  end.

Definition clear_interval_callback (args : list (TimerArg F)) (t : TimerState) : TimerState :=
  match id_arg args with
  | None => t
  | Some target_id =>
      let t := with_intervals (base.filter (λ e, iv_id e ≠ target_id) (PENDING_INTERVALS t)) t in
      if decide (target_id ∈ INTERVALS_CLEARED_DURING_FIRE t) then t
      else with_cleared (INTERVALS_CLEARED_DURING_FIRE t ++ [target_id]) t
  end.

Inductive TimerOp :=
| SetTimeout (args : list (TimerArg F))
| SetInterval (args : list (TimerArg F))
| ClearTimeout (args : list (TimerArg F))
| ClearInterval (args : list (TimerArg F)).

Definition run_op (t : TimerState) (p : Z * TimerOp) : TimerState :=
  match p.2 with
  | SetTimeout args => (set_timeout_callback p.1 args t).1
  | SetInterval args => (set_interval_callback p.1 args t).1
  | ClearTimeout args => clear_timeout_callback args t
  | ClearInterval args => clear_interval_callback args t
  end.

Definition run_ops (ops : list (Z * TimerOp)) (t : TimerState) : TimerState := foldl run_op t ops.

(** ** The start of a request *)

Definition clear_pending_intervals (t : TimerState) : TimerState :=
  mkTimers (PENDING_TIMEOUTS t) (TIMEOUT_ID_COUNTER t) [] [] 100.

Definition clear_pending_timeouts (t : TimerState) : TimerState :=
  mkTimers [] 1 (PENDING_INTERVALS t) (INTERVALS_CLEARED_DURING_FIRE t) (INTERVAL_ID_COUNTER t).

(** ** Firing *)

(** The loop over the index [i]: due entries are removed and kept in their order. *)
Fixpoint drain_due {E} (fuel : nat) (deadline : E → Z) (now : Z) (i : nat) (entries due : list E)
    : list E * list E :=
  match fuel with
  | O => (due, entries)
  | S fuel =>
      match entries !! i with
      | None => (due, entries)
      | Some e =>
          if now >=? deadline e then drain_due fuel deadline now i (delete i entries) (due ++ [e])
          else drain_due fuel deadline now (S i) entries due
      end
  end.

Inductive HandlerResult :=
| HandlerThrew (exception : option string)
| HandlerReturned (v : JsValue)
| HandlerPromised.

(** [Some] answer of [func_call]: the callback returned; [false] stands for [None], an
    exception or a termination by the CPU guard.  [microtasks] are the five rounds of
    the message loop and the microtask checkpoint of one poll. *)
Class JsEngine := {
  clock : J → Z;
  func_call : F → J → TimerState → bool * J * list (Z * TimerOp);
  microtasks : J → TimerState → J * list (Z * TimerOp);
  handler_call : J → TimerState → HandlerResult * J * list (Z * TimerOp);
  promise_state : J → PromiseState;
  sleep_1ms : J → J;
}.

(** What happens to the timers, in order; [now] are the readings of the clock. *)
Inductive Event :=
| Issued (now : Z) (op : TimerOp)
| IntervalsBegin (now : Z)
| IntervalCalled (e : IntervalEntry) (now : Z)
| IntervalReturned (e : IntervalEntry) (now : Z)
| IntervalsEnd
| TimeoutsBegin (now : Z)
| TimeoutCalled (e : TimeoutEntry) (now : Z)
| TimeoutReturned (e : TimeoutEntry) (completed : bool)
| TimeoutsEnd.

Definition issued (ops : list (Z * TimerOp)) : list Event := (λ p, Issued p.1 p.2) <$> ops.

Context `{JsEngine}.

Fixpoint dispatch_intervals (due : list IntervalEntry) (j : J) (t : TimerState)
    : J * TimerState * list Event :=
  match due with
  | [] => (j, t, [])
  | e :: rest =>
      let '(_, j1, ops) := func_call (iv_func e) j t in
      let t1 := run_ops ops t in
      let t2 := if decide (iv_id e ∈ INTERVALS_CLEARED_DURING_FIRE t1) then t1
                else with_intervals (PENDING_INTERVALS t1
                       ++ [mkInterval (iv_id e) (iv_func e) (interval_ms e)
                             (clock j1 + from_millis (interval_ms e))]) t1 in
      let '(j', t', log) := dispatch_intervals rest j1 t2 in
      (j', t', IntervalCalled e (clock j) :: issued ops ++ IntervalReturned e (clock j1) :: log)
  end.

Definition fire_pending_intervals (j : J) (t : TimerState) : J * TimerState * list Event :=
  let now := clock j in
  let '(due, entries) :=
    drain_due (length (PENDING_INTERVALS t)) next_fire now 0 (PENDING_INTERVALS t) [] in
  let '(j', t', log) := dispatch_intervals due j (with_intervals entries t) in
  (j', with_cleared [] t', IntervalsBegin now :: log ++ [IntervalsEnd]).

(** The second list are the entries whose callback did not return. *)
Fixpoint dispatch_timeouts (due : list TimeoutEntry) (j : J) (t : TimerState)
    : J * TimerState * list TimeoutEntry * list Event :=
  match due with
  | [] => (j, t, [], [])
  | e :: rest =>
      let '(ok, j1, ops) := func_call (to_func e) j t in
      let '(j', t', failed, log) := dispatch_timeouts rest j1 (run_ops ops t) in
      (j', t', (if ok : bool then failed else e :: failed),
       TimeoutCalled e (clock j) :: issued ops ++ TimeoutReturned e ok :: log)
  end.

Definition fire_pending_timeouts (j : J) (t : TimerState) : J * TimerState * list Event :=
  let now := clock j in
  let '(due, entries) :=
    drain_due (length (PENDING_TIMEOUTS t)) fire_at now 0 (PENDING_TIMEOUTS t) [] in
  let '(j', t', failed, log) := dispatch_timeouts due j (with_timeouts entries t) in
  (j', with_timeouts (PENDING_TIMEOUTS t' ++ failed) t', TimeoutsBegin now :: log ++ [TimeoutsEnd]).

(** ** The pump *)

(** What one round of the loop over a pending promise does after the promise is looked
    at: both queues, then a sleep. *)
Definition pump_round (j : J) (t : TimerState) : J * TimerState * list Event :=
  let '(j1, t1, l1) := fire_pending_intervals j t in
  let '(j2, t2, l2) := fire_pending_timeouts j1 t1 in
  (sleep_1ms j2, t2, l1 ++ l2).

Fixpoint pump (fuel : nat) (deadline : Z) (j : J) (t : TimerState)
    : option (result JsValue string * J * TimerState * list Event) :=
  match fuel with
  | O => None
  | S fuel =>
      let '(j1, ops) := microtasks j t in
      let t1 := run_ops ops t in
      match promise_state j1 with
      | Fulfilled v => Some (Ok v, j1, t1, issued ops)
      | Rejected msg => Some (Err ("Promise rejected: " +:+ msg), j1, t1, issued ops)
      | Pending =>
          if clock j1 >? deadline then
            Some (Err "Async handler timed out after 30s", j1, t1, issued ops)
          else
            let '(j2, t2, log) := pump_round j1 t1 in
            (λ r, (r.1.1.1, r.1.1.2, r.1.2, issued ops ++ log ++ r.2)) <$> pump fuel deadline j2 t2
      end
  end.

(** One request: [None] only if the fuel is too small. *)
Definition run_request (fuel : nat) (j : J) (t : TimerState)
    : option (result JsValue string * J * TimerState * list Event) :=
  let t0 := clear_pending_timeouts (clear_pending_intervals t) in
  let '(c, j1, ops) := handler_call j t0 in
  let t1 := run_ops ops t0 in
  match c with
  | HandlerThrew msg => Some (Err ("JS exception: " +:+ default "unknown JS exception" msg), j1, t1, issued ops)
  | HandlerReturned v => Some (Ok v, j1, t1, issued ops)
  | HandlerPromised =>
      (λ r, (r.1.1.1, r.1.1.2, r.1.2, issued ops ++ r.2)) <$> pump fuel (clock j1 + PROMISE_TIMEOUT) j1 t1
  end.

(** ** The transition system *)

Inductive Phase :=
| Idle
| Intervals (due : list IntervalEntry) (current : option IntervalEntry)
| Timeouts (due : list TimeoutEntry) (current : option TimeoutEntry) (failed : list TimeoutEntry).

Record Config := mkConfig { tm : TimerState; phase : Phase }.

Definition is_due {E} (deadline : E → Z) (now : Z) (e : E) : Prop := deadline e <= now.

#[local] Instance is_due_dec {E} (deadline : E → Z) now e : Decision (is_due deadline now e).
Proof. unfold is_due. apply _. Defined.

Definition due_of {E} (deadline : E → Z) (now : Z) (l : list E) : list E :=
  base.filter (is_due deadline now) l.
Definition rest_of {E} (deadline : E → Z) (now : Z) (l : list E) : list E :=
  base.filter (λ e, ¬ is_due deadline now e) l.

(** An interval whose callback returned at [now], unless it was cleared meanwhile. *)
Definition reinsert (e : IntervalEntry) (now : Z) (t : TimerState) : TimerState :=
  if decide (iv_id e ∈ INTERVALS_CLEARED_DURING_FIRE t) then t
  else with_intervals (PENDING_INTERVALS t
         ++ [mkInterval (iv_id e) (iv_func e) (interval_ms e) (now + from_millis (interval_ms e))]) t.

Inductive step : Config → Event → Config → Prop :=
| step_issued t ph now op : step (mkConfig t ph) (Issued now op) (mkConfig (run_op t (now, op)) ph)
| step_intervals_begin t now :
    step (mkConfig t Idle) (IntervalsBegin now)
      (mkConfig (with_intervals (rest_of next_fire now (PENDING_INTERVALS t)) t)
                (Intervals (due_of next_fire now (PENDING_INTERVALS t)) None))
| step_interval_called t e due now :
    step (mkConfig t (Intervals (e :: due) None)) (IntervalCalled e now)
      (mkConfig t (Intervals due (Some e)))
| step_interval_returned t e due now :
    step (mkConfig t (Intervals due (Some e))) (IntervalReturned e now)
      (mkConfig (reinsert e now t) (Intervals due None))
| step_intervals_end t :
    step (mkConfig t (Intervals [] None)) IntervalsEnd (mkConfig (with_cleared [] t) Idle)
| step_timeouts_begin t now :
    step (mkConfig t Idle) (TimeoutsBegin now)
      (mkConfig (with_timeouts (rest_of fire_at now (PENDING_TIMEOUTS t)) t)
                (Timeouts (due_of fire_at now (PENDING_TIMEOUTS t)) None []))
| step_timeout_called t e due failed now :
    step (mkConfig t (Timeouts (e :: due) None failed)) (TimeoutCalled e now)
      (mkConfig t (Timeouts due (Some e) failed))
| step_timeout_returned t e due failed (ok : bool) :
    step (mkConfig t (Timeouts due (Some e) failed)) (TimeoutReturned e ok)
      (mkConfig t (Timeouts due None (if ok then failed else failed ++ [e])))
| step_timeouts_end t failed :
    step (mkConfig t (Timeouts [] None failed)) TimeoutsEnd
      (mkConfig (with_timeouts (PENDING_TIMEOUTS t ++ failed) t) Idle).

Inductive steps : Config → list Event → Config → Prop :=
| steps_nil c : steps c [] c
| steps_cons c1 ev c2 l c3 : step c1 ev c2 → steps c2 l c3 → steps c1 (ev :: l) c3.

#[local] Hint Constructors step steps : timers.

Lemma steps_app c1 l1 c2 l2 c3 : steps c1 l1 c2 → steps c2 l2 c3 → steps c1 (l1 ++ l2) c3.
Proof. induction 1; simpl; eauto with timers. Qed.

Lemma steps_app_inv c1 l1 l2 c3 : steps c1 (l1 ++ l2) c3 → ∃ c2, steps c1 l1 c2 ∧ steps c2 l2 c3.
Proof.
  revert c1. induction l1 as [|ev l1 IH]; intros c1 Hs; simpl in *; [by exists c1; eauto with timers|].
  inversion Hs as [|? ? c ? ? H1 H2]; subst. destruct (IH _ H2) as (c' & ? & ?).
  exists c'. eauto with timers.
Qed.

(** ** The code runs the transition system *)

Lemma drain_due_loop {E} (deadline : E → Z) now fuel i entries due :
  (length entries <= i + fuel)%nat →
  drain_due fuel deadline now i entries due =
    (due ++ due_of deadline now (drop i entries),
     take i entries ++ rest_of deadline now (drop i entries)).
Proof.
  revert i entries due. induction fuel as [|fuel IH]; intros i entries due Hlen; simpl.
  { rewrite (drop_ge entries i), (take_ge entries i) by lia. unfold due_of, rest_of. simpl.
    by rewrite !app_nil_r. }
  destruct (entries !! i) as [e|] eqn:Ei.
  2: { apply lookup_ge_None in Ei. rewrite (drop_ge entries i), (take_ge entries i) by lia.
       unfold due_of, rest_of. simpl. by rewrite !app_nil_r. }
  rewrite Z.geb_leb. pose proof (lookup_lt_Some _ _ _ Ei) as Hlt.
  assert (drop i entries = e :: drop (S i) entries) as Hd by (by apply drop_S).
  rewrite Hd. unfold due_of, rest_of. destruct (Z.leb_spec (deadline e) now) as [Hle|Hgt].
  - rewrite filter_cons_True by done. rewrite (filter_cons_False (λ e, ¬ _)) by (intros Hn; by apply Hn).
    rewrite IH by (rewrite length_delete by eauto; lia).
    rewrite delete_take_drop, drop_app_length', take_app_length' by (rewrite length_take; lia).
    by rewrite <- (assoc_L app).
  - rewrite filter_cons_False by (unfold is_due; lia). rewrite filter_cons_True by (unfold is_due; lia).
    rewrite IH by lia. rewrite (take_S_r _ _ _ Ei). unfold due_of, rest_of. by rewrite <- (assoc_L app).
Qed.

Lemma drain_due_exact {E} (deadline : E → Z) now l :
  drain_due (length l) deadline now 0 l [] = (due_of deadline now l, rest_of deadline now l).
Proof. by rewrite drain_due_loop by lia. Qed.

Lemma issued_steps ops t ph : steps (mkConfig t ph) (issued ops) (mkConfig (run_ops ops t) ph).
Proof.
  revert t. induction ops as [|[now op] ops IH]; intros t; simpl; [constructor|].
  econstructor; [constructor|]. apply IH.
Qed.
Lemma dispatch_intervals_steps due : ∀ j t j' t' log,
  dispatch_intervals due j t = (j', t', log) →
  steps (mkConfig t (Intervals due None)) log (mkConfig t' (Intervals [] None)).
Proof.
  induction due as [|e due IH]; intros j t j' t' log; simpl; [intros [= <- <- <-]; constructor|].
  destruct (func_call (iv_func e) j t) as [[? j1] ops].
  destruct (dispatch_intervals due j1 _) as [[j2 t2] log2] eqn:Ed. intros [= <- <- <-].
  econstructor; [constructor|]. eapply steps_app; [apply issued_steps|].
  econstructor; [constructor|]. exact (IH _ _ _ _ _ Ed).
Qed.

Lemma fire_pending_intervals_steps j t j' t' log :
  fire_pending_intervals j t = (j', t', log) → steps (mkConfig t Idle) log (mkConfig t' Idle).
Proof.
  unfold fire_pending_intervals. rewrite drain_due_exact.
  destruct (dispatch_intervals _ _ _) as [[j1 t1] log1] eqn:Ed. intros [= <- <- <-].
  econstructor; [constructor|]. eapply steps_app; [exact (dispatch_intervals_steps _ _ _ _ _ _ Ed)|].
  eauto with timers.
Qed.

Lemma dispatch_timeouts_steps due : ∀ j t j' t' failed0 failed log,
  dispatch_timeouts due j t = (j', t', failed, log) →
  steps (mkConfig t (Timeouts due None failed0)) log (mkConfig t' (Timeouts [] None (failed0 ++ failed))).
Proof.
  induction due as [|e due IH]; intros j t j' t' failed0 failed log; simpl.
  { intros [= <- <- <- <-]. rewrite app_nil_r. constructor. }
  destruct (func_call (to_func e) j t) as [[ok j1] ops].
  destruct (dispatch_timeouts due j1 _) as [[[j2 t2] failed2] log2] eqn:Ed. intros [= <- <- <- <-].
  econstructor; [constructor|]. eapply steps_app; [apply issued_steps|].
  econstructor; [constructor|].
  pose proof (IH _ _ _ _ (if ok then failed0 else failed0 ++ [e]) _ _ Ed) as IHs.
  destruct ok; [done|]. by rewrite <- (assoc_L app) in IHs.
Qed.

Lemma fire_pending_timeouts_steps j t j' t' log :
  fire_pending_timeouts j t = (j', t', log) → steps (mkConfig t Idle) log (mkConfig t' Idle).
Proof.
  unfold fire_pending_timeouts. rewrite drain_due_exact.
  destruct (dispatch_timeouts _ _ _) as [[[j1 t1] failed] log1] eqn:Ed. intros [= <- <- <-].
  econstructor; [constructor|].
  eapply steps_app; [exact (dispatch_timeouts_steps _ _ _ _ _ [] _ _ Ed)|].
  eauto with timers.
Qed.

Lemma pump_round_steps j t j' t' log :
  pump_round j t = (j', t', log) → steps (mkConfig t Idle) log (mkConfig t' Idle).
Proof.
  unfold pump_round. destruct (fire_pending_intervals j t) as [[j1 t1] l1] eqn:E1.
  destruct (fire_pending_timeouts j1 t1) as [[j2 t2] l2] eqn:E2. intros [= <- <- <-].
  eapply steps_app; [exact (fire_pending_intervals_steps _ _ _ _ _ E1)
                    |exact (fire_pending_timeouts_steps _ _ _ _ _ E2)].
Qed.

Lemma pump_steps fuel deadline : ∀ j t r j' t' log,
  pump fuel deadline j t = Some (r, j', t', log) → steps (mkConfig t Idle) log (mkConfig t' Idle).
Proof.
  induction fuel as [|fuel IH]; intros j t r j' t' log; cbn [pump]; [done|].
  destruct (microtasks j t) as [j1 ops]. pose proof (issued_steps ops t Idle) as Hops.
  destruct (promise_state j1) as [v|msg|]; [by intros [= <- <- <- <-]..|].
  destruct (clock j1 >? deadline); [by intros [= <- <- <- <-]|].
  destruct (pump_round j1 _) as [[j2 t2] log2] eqn:Er.
  destruct (pump fuel deadline j2 t2) as [[[[r3 j3] t3] log3]|] eqn:Ep; simpl; [|done].
  intros [= <- <- <- <-]. eapply steps_app; [exact Hops|].
  eapply steps_app; [exact (pump_round_steps _ _ _ _ _ Er)|exact (IH _ _ _ _ _ _ Ep)].
Qed.

(** Whatever the timers held, a request starts from the initial ones and what happens to
    them is a run of the transition system that ends between two dispatches. *)
Lemma request_steps fuel j t r j' t' log :
  run_request fuel j t = Some (r, j', t', log) →
  steps (mkConfig initial_timers Idle) log (mkConfig t' Idle).
Proof.
  unfold run_request. change (clear_pending_timeouts _) with initial_timers.
  destruct (handler_call j initial_timers) as [[c j1] ops].
  pose proof (issued_steps ops initial_timers Idle) as Hops.
  destruct c as [msg|v|]; [by intros [= <- <- <- <-]..|].
  destruct (pump _ _ _ _) as [[[[r3 j3] t3] log3]|] eqn:Ep; simpl; [|done].
  intros [= <- <- <- <-]. eapply steps_app; [exact Hops|exact (pump_steps _ _ _ _ _ _ _ _ Ep)].
Qed.

(** ** Interval handles *)

(** The intervals set by an event: their handles are 100, 101, ... in order. *)
Definition sets_interval (ev : Event) : Z :=
  match ev with
  | Issued _ (SetInterval args) => if callback_arg args is Some _ then 1 else 0
  | _ => 0
  end.
Definition intervals_set (log : list Event) : Z := foldr (λ ev n, sets_interval ev + n) 0 log.

Definition clears_interval (k : Z) (ev : Event) : bool :=
  match ev with
  | Issued _ (ClearInterval args) => bool_decide (id_arg args = Some k)
  | _ => false
  end.

Definition phase_intervals (ph : Phase) : list Z :=
  match ph with
  | Intervals due current => option_list (iv_id <$> current) ++ (iv_id <$> due)
  | _ => []
  end.

Definition interval_handles (c : Config) : list Z :=
  (iv_id <$> PENDING_INTERVALS (tm c)) ++ phase_intervals (phase c).

(** After [n] intervals were set: the entries at hand have distinct handles below the
    counter. *)
Definition handles_wf (n : Z) (c : Config) : Prop :=
  INTERVAL_ID_COUNTER (tm c) = 100 + n ∧ NoDup (interval_handles c) ∧
  Forall (λ k, 100 <= k < 100 + n) (interval_handles c).

(** A handle that was cleared: it is not pending, and while its interval is being
    dispatched the thread remembers it is cleared. *)
Definition cleared_handle (k : Z) (c : Config) : Prop :=
  k < INTERVAL_ID_COUNTER (tm c) ∧ k ∉ (iv_id <$> PENDING_INTERVALS (tm c)) ∧
  (k ∈ phase_intervals (phase c) → k ∈ INTERVALS_CLEARED_DURING_FIRE (tm c)).

Definition silent_handle (k : Z) (c : Config) : Prop :=
  cleared_handle k c ∧ k ∉ phase_intervals (phase c).

(** A handle that was never cleared is at hand from its issue on. *)
Definition kept_handle (k : Z) (c : Config) : Prop :=
  k ∉ INTERVALS_CLEARED_DURING_FIRE (tm c) ∧
  (100 <= k < INTERVAL_ID_COUNTER (tm c) → k ∈ interval_handles c).

Lemma sets_interval_nonneg ev : 0 <= sets_interval ev.
Proof. destruct ev as [? [|args| |]| | | | | | | |]; simpl; try lia. destruct (callback_arg args); lia. Qed.

Lemma intervals_set_nonneg log : 0 <= intervals_set log.
Proof. induction log as [|ev log IH]; simpl; [lia|]. pose proof (sets_interval_nonneg ev). lia. Qed.

Lemma intervals_set_app l1 l2 : intervals_set (l1 ++ l2) = intervals_set l1 + intervals_set l2.
Proof. induction l1 as [|ev l1 IH]; simpl; [done|]. rewrite IH. lia. Qed.

Lemma filter_complement {E} (P : E → Prop) `{∀ e, Decision (P e)} l :
  base.filter P l ++ base.filter (λ e, ¬ P e) l ≡ₚ l.
Proof.
  induction l as [|e l IH]; [done|]. destruct (decide (P e)) as [Hd|Hd].
  - rewrite (filter_cons_False (λ e, ¬ _)) by (intros Hn; by apply Hn). rewrite filter_cons_True by done.
    simpl. by f_equiv.
  - rewrite (filter_cons_True (λ e, ¬ _)) by done. rewrite filter_cons_False by done.
    rewrite <- Permutation_middle. by f_equiv.
Qed.

Lemma due_rest_perm {E} (deadline : E → Z) now l : rest_of deadline now l ++ due_of deadline now l ≡ₚ l.
Proof. rewrite (comm app). apply filter_complement. Qed.

Lemma fmap_filter_ne {E} (f : E → Z) k (l : list E) :
  f <$> base.filter (λ e, f e ≠ k) l = base.filter (λ k', k' ≠ k) (f <$> l).
Proof.
  induction l as [|e l IH]; [done|]. rewrite fmap_cons. destruct (decide (f e ≠ k)).
  - rewrite !filter_cons_True by done. by rewrite fmap_cons, IH.
  - by rewrite !filter_cons_False by done.
Qed.

(** How the handles at hand and the cleared ones change with each event. *)
Lemma step_handles c ev c' : step c ev c' →
  match ev with
  | Issued _ (SetInterval args) =>
      match callback_arg args with
      | None => c' = c
      | Some _ =>
          interval_handles c' ≡ₚ INTERVAL_ID_COUNTER (tm c) :: interval_handles c ∧
          INTERVAL_ID_COUNTER (tm c') = as_u32 (INTERVAL_ID_COUNTER (tm c) + 1) ∧
          INTERVALS_CLEARED_DURING_FIRE (tm c') = INTERVALS_CLEARED_DURING_FIRE (tm c)
      end
  | Issued _ (ClearInterval args) =>
      INTERVAL_ID_COUNTER (tm c') = INTERVAL_ID_COUNTER (tm c) ∧
      match id_arg args with
      | None => c' = c
      | Some k =>
          interval_handles c' =
            base.filter (λ k', k' ≠ k) (iv_id <$> PENDING_INTERVALS (tm c)) ++ phase_intervals (phase c) ∧
          ∀ k', k' ∈ INTERVALS_CLEARED_DURING_FIRE (tm c') ↔
                k' = k ∨ k' ∈ INTERVALS_CLEARED_DURING_FIRE (tm c)
      end
  | IntervalReturned e _ =>
      INTERVAL_ID_COUNTER (tm c') = INTERVAL_ID_COUNTER (tm c) ∧
      INTERVALS_CLEARED_DURING_FIRE (tm c') = INTERVALS_CLEARED_DURING_FIRE (tm c) ∧
      if decide (iv_id e ∈ INTERVALS_CLEARED_DURING_FIRE (tm c))
      then interval_handles c ≡ₚ iv_id e :: interval_handles c'
      else interval_handles c' ≡ₚ interval_handles c
  | IntervalsEnd =>
      INTERVAL_ID_COUNTER (tm c') = INTERVAL_ID_COUNTER (tm c) ∧
      interval_handles c' = interval_handles c ∧ INTERVALS_CLEARED_DURING_FIRE (tm c') = []
  | _ =>
      INTERVAL_ID_COUNTER (tm c') = INTERVAL_ID_COUNTER (tm c) ∧
      interval_handles c' ≡ₚ interval_handles c ∧
      INTERVALS_CLEARED_DURING_FIRE (tm c') = INTERVALS_CLEARED_DURING_FIRE (tm c)
  end.
Proof.
  unfold interval_handles. intros Hs. destruct Hs as [t ph now op|t now| |t e due now|t|t now| | |]; simpl; try done.
  - destruct op as [args|args|args|args]; unfold run_op; simpl.
    + unfold set_timeout_callback. by destruct (callback_arg args).
    + unfold set_interval_callback. destruct (callback_arg args) as [f|]; simpl; [|done].
      split; [|done]. rewrite fmap_app. simpl. rewrite <- (assoc_L app). simpl.
      by rewrite Permutation_middle.
    + unfold clear_timeout_callback. by destruct (id_arg args).
    + unfold clear_interval_callback. destruct (id_arg args) as [k|]; simpl; [|done].
      destruct (decide _) as [Hin|Hin]; simpl;
        (split; [done|]; split;
          [by rewrite fmap_filter_ne|]); intros k'; simpl in *.
      * split; [by right|]. by intros [->|].
      * rewrite elem_of_app, list_elem_of_singleton. tauto.
  - split; [done|]. split; [|done]. rewrite app_nil_r.
    rewrite <- fmap_app. by rewrite due_rest_perm.
  - unfold reinsert. case_decide as Hin; simpl; (split; [done|]); (split; [done|]).
    + by rewrite Permutation_middle.
    + rewrite fmap_app. simpl. rewrite <- (assoc_L app). simpl. done.
Qed.

Lemma handles_wf_step n c ev c' :
  step c ev c' → 0 <= n → 100 + (n + sets_interval ev) <= u32_max →
  handles_wf n c → handles_wf (n + sets_interval ev) c'.
Proof.
  unfold handles_wf. intros Hs Hn Hmax (Hc & Hd & Hr). pose proof (step_handles _ _ _ Hs) as Hh.
  destruct ev as [now [args|args|args|args]|now|e now|e now| |now|e now|e ok|]; simpl in *;
    rewrite ?Z.add_0_r;
    try (destruct Hh as (-> & Hp & _); by rewrite Hp).
  - destruct (callback_arg args); [|by subst; rewrite Z.add_0_r].
    destruct Hh as (Hp & -> & _). rewrite Hp, Hc, as_u32_small by zlia.
    split; [lia|]. split.
    + constructor; [|done]. intros Hin. rewrite Forall_forall in Hr. apply Hr in Hin. lia.
    + constructor; [lia|]. eapply Forall_impl; [exact Hr|]. simpl. lia.
  - destruct Hh as (-> & Hh). split; [done|]. destruct (id_arg args) as [k|]; [|by subst].
    destruct Hh as [-> _]. unfold interval_handles in Hd, Hr.
    assert (Hsub : base.filter (λ k', k' ≠ k) (iv_id <$> PENDING_INTERVALS (tm c)) ++ phase_intervals (phase c)
              `sublist_of` (iv_id <$> PENDING_INTERVALS (tm c)) ++ phase_intervals (phase c)).
    { apply sublist_app; [apply sublist_filter|done]. }
    split; [by eapply sublist_NoDup|]. rewrite Forall_forall in *. intros x Hx. apply Hr.
    by eapply elem_of_sublist.
  - destruct Hh as (-> & _ & Hh). split; [done|]. case_decide; [|by rewrite Hh].
    rewrite Hh in Hd, Hr. by split; [apply NoDup_cons in Hd as [_ ?]|inversion Hr].
Qed.

Lemma counter_step c ev c' :
  step c ev c' → INTERVAL_ID_COUNTER (tm c) + sets_interval ev <= u32_max → 0 <= INTERVAL_ID_COUNTER (tm c) →
  INTERVAL_ID_COUNTER (tm c') = INTERVAL_ID_COUNTER (tm c) + sets_interval ev.
Proof.
  intros Hs. pose proof (step_handles _ _ _ Hs) as Hh.
  destruct ev as [now [args|args|args|args]|now|e now|e now| |now|e now|e ok|]; simpl in *;
    rewrite ?Z.add_0_r; try (by destruct Hh as (-> & _)).
  destruct (callback_arg args); [|by subst; rewrite Z.add_0_r].
  destruct Hh as (_ & -> & _). intros. rewrite as_u32_small by zlia. done.
Qed.

Lemma kept_handle_step k c ev c' :
  step c ev c' → INTERVAL_ID_COUNTER (tm c) + sets_interval ev <= u32_max → 0 <= INTERVAL_ID_COUNTER (tm c) →
  clears_interval k ev = false → kept_handle k c → kept_handle k c'.
Proof.
  unfold kept_handle. intros Hs Hmax H0 Hk [Hnc Hin].
  pose proof (counter_step _ _ _ Hs Hmax H0) as Hcnt. pose proof (step_handles _ _ _ Hs) as Hh.
  destruct ev as [now [args|args|args|args]|now|e now|e now| |now|e now|e ok|]; simpl in *;
    try (destruct Hh as (_ & Hp & ->); rewrite Hp, Hcnt, Z.add_0_r; by split).
  - destruct (callback_arg args); [|by subst].
    destruct Hh as (Hp & _ & ->). split; [done|]. rewrite Hp, Hcnt, elem_of_cons. intros Hr.
    destruct (decide (k = INTERVAL_ID_COUNTER (tm c))); [by left|right]. apply Hin. lia.
  - destruct Hh as (_ & Hh). rewrite Hcnt, Z.add_0_r. destruct (id_arg args) as [k'|]; [|by subst].
    apply bool_decide_eq_false_1 in Hk. destruct Hh as [-> Hc]. split.
    + rewrite Hc. intros [->|?]; by try apply Hk.
    + intros Hr. specialize (Hin Hr). unfold interval_handles in Hin. rewrite elem_of_app in *.
      destruct Hin as [Hin|Hin]; [left|by right]. apply list_elem_of_filter. split; [congruence|done].
  - destruct Hh as (_ & -> & Hh). rewrite Hcnt, Z.add_0_r. split; [done|]. intros Hr. specialize (Hin Hr).
    case_decide as He; [|by rewrite Hh]. rewrite Hh in Hin. apply elem_of_cons in Hin as [->|?]; [|done].
    by destruct Hnc.
  - destruct Hh as (_ & -> & ->). rewrite Hcnt, Z.add_0_r. split; [apply not_elem_of_nil|done].
Qed.

(** The event that clears a handle. *)
Lemma clear_event k c now args c' :
  step c (Issued now (ClearInterval args)) c' → id_arg args = Some k → k < INTERVAL_ID_COUNTER (tm c) →
  cleared_handle k c'.
Proof.
  intros Hs Hk Hlt. inversion Hs; subst. unfold cleared_handle, run_op, clear_interval_callback. simpl.
  rewrite Hk.
  assert (Hout : k ∉ base.filter (λ k', k' ≠ k) (iv_id <$> PENDING_INTERVALS t)) by
    (rewrite list_elem_of_filter; intros [? _]; done).
  case_decide as Hd; simpl in *; rewrite fmap_filter_ne; (split; [done|]); (split; [done|]); intros _; [done|].
  rewrite elem_of_app, list_elem_of_singleton. by right.
Qed.

Lemma cleared_handle_step k c ev c' :
  step c ev c' → INTERVAL_ID_COUNTER (tm c) + sets_interval ev <= u32_max → 0 <= INTERVAL_ID_COUNTER (tm c) →
  cleared_handle k c → cleared_handle k c'.
Proof.
  unfold cleared_handle. intros Hs Hmax H0 (Hlt & Hp & Hph).
  pose proof (counter_step _ _ _ Hs Hmax H0) as ->. pose proof (sets_interval_nonneg ev).
  split; [lia|]. clear Hmax. destruct Hs as [t ph now op|t now|t e due now|t e due now|t|t now|t e due fl now|t e due fl ok|t fl];
    simpl in *; try done.
  - destruct op as [args|args|args|args]; unfold run_op; simpl.
    + unfold set_timeout_callback. by destruct (callback_arg args).
    + unfold set_interval_callback. destruct (callback_arg args); [simpl|done].
      split; [|done]. rewrite fmap_app, elem_of_app. simpl. rewrite list_elem_of_singleton. intros [?| ->]; [done|lia].
    + unfold clear_timeout_callback. by destruct (id_arg args).
    + unfold clear_interval_callback. destruct (id_arg args) as [k'|]; [|done].
      assert (Hout : k ∉ base.filter (λ x, x ≠ k') (iv_id <$> PENDING_INTERVALS t)) by
        (rewrite list_elem_of_filter; intros [_ ?]; done).
      case_decide; simpl; rewrite fmap_filter_ne; (split; [done|]); [done|].
      intros Hin. rewrite elem_of_app. left. by apply Hph.
  - split; intros Hin; destruct Hp; revert Hin; rewrite !list_elem_of_fmap;
      intros (e & ? & [_ ?]%list_elem_of_filter); eauto.
  - unfold reinsert. case_decide as He; simpl; [by split; [|auto with *]|]. split.
    + rewrite fmap_app, elem_of_app. simpl. rewrite list_elem_of_singleton. intros [?| ->]; [done|].
      apply He, Hph. by left.
    + intros Hin. apply Hph. by right.
Qed.

(** The counter stays in range for [log]. *)
Definition in_range (c : Config) (log : list Event) : Prop :=
  0 <= INTERVAL_ID_COUNTER (tm c) ∧ INTERVAL_ID_COUNTER (tm c) + intervals_set log <= u32_max.

Lemma in_range_cons c ev log c' : step c ev c' → in_range c (ev :: log) →
  INTERVAL_ID_COUNTER (tm c) + sets_interval ev <= u32_max ∧ in_range c' log.
Proof.
  unfold in_range. simpl. intros Hs [H0 Hle]. pose proof (intervals_set_nonneg log).
  pose proof (sets_interval_nonneg ev).
  assert (Hm : INTERVAL_ID_COUNTER (tm c) + sets_interval ev <= u32_max) by lia.
  rewrite (counter_step _ _ _ Hs Hm H0). lia.
Qed.

(** Induction over the events of a run whose counter stays in range. *)
Lemma steps_invariant (P : Config → Prop) (Q : Event → Prop) :
  (∀ c ev c', step c ev c' → 0 <= INTERVAL_ID_COUNTER (tm c) →
     INTERVAL_ID_COUNTER (tm c) + sets_interval ev <= u32_max → Q ev → P c → P c') →
  ∀ c log c', steps c log c' → in_range c log → Forall Q log → P c → P c'.
Proof.
  intros Hstep c log c' Hs. induction Hs as [c|c1 ev c2 l c3 H1 _ IH]; intros Hr HQ HP; [done|].
  apply Forall_cons in HQ as [HQ HQs]. destruct (in_range_cons _ _ _ _ H1 Hr) as [Hm Hr2].
  apply IH; [done..|]. destruct Hr as [H0 _]. by eapply Hstep.
Qed.

Lemma counter_steps c log c' : steps c log c' → in_range c log →
  INTERVAL_ID_COUNTER (tm c') = INTERVAL_ID_COUNTER (tm c) + intervals_set log.
Proof.
  induction 1 as [c|c1 ev c2 l c3 H1 _ IH]; intros Hr; simpl; [lia|].
  destruct (in_range_cons _ _ _ _ H1 Hr) as [Hm Hr2]. rewrite IH by done.
  rewrite (counter_step _ _ _ H1 Hm (proj1 Hr)). lia.
Qed.

Lemma in_range_app c l1 l2 c' : steps c l1 c' → in_range c (l1 ++ l2) → in_range c l1 ∧ in_range c' l2.
Proof.
  intros Hs [H0 Hle]. rewrite intervals_set_app in Hle. pose proof (intervals_set_nonneg l2).
  pose proof (intervals_set_nonneg l1).
  assert (Hr : in_range c l1) by (unfold in_range; lia). split; [done|].
  unfold in_range. rewrite (counter_steps _ _ _ Hs Hr). lia.
Qed.

Lemma handles_wf_steps c log c' n : steps c log c' → 0 <= n → handles_wf n c → in_range c log →
  handles_wf (n + intervals_set log) c'.
Proof.
  intros Hs. revert n. induction Hs as [c|c1 ev c2 l c3 H1 _ IH]; intros n Hn Hw Hr; simpl.
  { by rewrite Z.add_0_r. }
  destruct (in_range_cons _ _ _ _ H1 Hr) as [Hm Hr2]. rewrite Z.add_assoc.
  pose proof (sets_interval_nonneg ev). apply IH; [lia| |done].
  apply (handles_wf_step _ _ _ _ H1); [done| |done]. destruct Hw as [Hc _]. rewrite Hc in Hm. lia.
Qed.

Lemma silent_handle_step k c ev c' :
  step c ev c' → 0 <= INTERVAL_ID_COUNTER (tm c) → INTERVAL_ID_COUNTER (tm c) + sets_interval ev <= u32_max →
  (silent_handle k c ∨ (cleared_handle k c ∧ ∃ now, ev = IntervalsBegin now)) →
  silent_handle k c' ∧ ∀ e now, ev = IntervalCalled e now → iv_id e ≠ k.
Proof.
  intros Hs H0 Hmax Hk.
  assert (Hc : cleared_handle k c) by (by destruct Hk as [[? _]|[? _]]).
  split; [split; [by eapply cleared_handle_step|]|].
  - destruct Hk as [[_ Hph]|[_ [now' ->]]].
    + destruct Hs; simpl in *; try done; try (rewrite not_elem_of_cons in Hph; by destruct Hph).
      destruct Hc as (_ & Hp & _). simpl in Hp. intros Hin. destruct Hp. revert Hin.
      unfold due_of. rewrite !list_elem_of_fmap. intros (e & ? & [_ ?]%list_elem_of_filter). eauto.
    + inversion Hs; subst. simpl in *. destruct Hc as (_ & Hp & _). simpl in Hp. intros Hin. destruct Hp.
      revert Hin. unfold due_of. rewrite !list_elem_of_fmap. intros (e & ? & [_ ?]%list_elem_of_filter). eauto.
  - intros e now ->. destruct Hk as [[_ Hph]|[_ [? ?]]]; [|done]. inversion Hs; subst. simpl in Hph.
    rewrite not_elem_of_cons in Hph. naive_solver.
Qed.

Lemma silent_handle_steps k c log c' : steps c log c' → in_range c log → silent_handle k c →
  ∀ e now, IntervalCalled e now ∈ log → iv_id e ≠ k.
Proof.
  induction 1 as [c|c1 ev c2 l c3 H1 _ IH]; intros Hr Hk e now; [by intros []%not_elem_of_nil|].
  destruct (in_range_cons _ _ _ _ H1 Hr) as [Hm Hr2].
  destruct (silent_handle_step k _ _ _ H1 (proj1 Hr) Hm (or_introl Hk)) as [Hk2 Hev].
  rewrite elem_of_cons. intros [<-|Hin]; [by apply (Hev e now)|by eapply IH].
Qed.

Lemma initial_in_range log : intervals_set log <= u32_max - 100 → in_range (mkConfig initial_timers Idle) log.
Proof. unfold in_range. simpl. zlia. Qed.

Definition pending_handles (t : TimerState) : list Z := iv_id <$> PENDING_INTERVALS t.

(** C32. The life of an interval in a request that sets fewer than 2{^32} - 100 of them:
    their handles are 100, 101 and so on.  At the end of the request the pending ones
    are distinct; an interval that was never cleared is among them, whatever its
    callback did.  Once [clearInterval] has been called with the handle of an interval,
    from anywhere, even from a callback that runs while that interval is waiting to be
    called, it is not pending at the end, and no later dispatch calls it. *)
Theorem interval_lifecycle fuel j t r j' t' log
    (Hrun : run_request fuel j t = Some (r, j', t', log))
    (Hmax : intervals_set log <= u32_max - 100) :
  NoDup (pending_handles t') ∧
  (∀ k, 100 <= k < 100 + intervals_set log → Forall (λ ev, clears_interval k ev = false) log →
     k ∈ pending_handles t') ∧
  ∀ l1 now args l2 k, log = l1 ++ Issued now (ClearInterval args) :: l2 → id_arg args = Some k →
    100 <= k < 100 + intervals_set l1 →
    k ∉ pending_handles t' ∧
    ∀ a now1 b e now2, l2 = a ++ IntervalsBegin now1 :: b → IntervalCalled e now2 ∈ b → iv_id e ≠ k.
Proof.
  apply request_steps in Hrun. pose proof (initial_in_range _ Hmax) as Hr.
  assert (Hh : interval_handles (mkConfig t' Idle) = pending_handles t') by apply app_nil_r.
  split; [|split].
  - destruct (handles_wf_steps _ _ _ 0 Hrun) as (_ & Hd & _); [done| |done|by rewrite <- Hh].
    split; [done|]. by split; constructor.
  - intros k Hk Hc. destruct (steps_invariant (kept_handle k) _
      (λ c ev c' Hs H0 Hm HQ HP, kept_handle_step k c ev c' Hs Hm H0 HQ HP) _ _ _ Hrun Hr Hc) as [_ Hin].
    + split; [apply not_elem_of_nil|simpl; lia].
    + rewrite <- Hh. apply Hin. rewrite (counter_steps _ _ _ Hrun Hr). simpl. lia.
  - intros l1 now args l2 k -> Hk Hrange.
    destruct (steps_app_inv _ _ _ _ Hrun) as (c1 & Hs1 & Hs2).
    destruct (in_range_app _ _ _ _ Hs1 Hr) as [Hr1 Hr2].
    inversion Hs2 as [|? ? c2 ? ? Hev Hs3]; subst. destruct (in_range_cons _ _ _ _ Hev Hr2) as [Hm Hr3].
    assert (Hclr : cleared_handle k c2).
    { apply (clear_event _ _ _ _ _ Hev Hk). rewrite (counter_steps _ _ _ Hs1 Hr1). simpl. lia. }
    assert (HQ : ∀ l : list Event, Forall (λ _, True) l) by (intros l; induction l; by constructor).
    pose proof (λ c ev c' Hs H0 Hm (_ : True) HP, cleared_handle_step k c ev c' Hs Hm H0 HP) as Hstep.
    split; [by destruct (steps_invariant _ _ Hstep _ _ _ Hs3 Hr3 (HQ _) Hclr) as (_ & ? & _)|].
    intros a now1 b e now2 -> Hin. destruct (steps_app_inv _ _ _ _ Hs3) as (c3 & Hs4 & Hs5).
    destruct (in_range_app _ _ _ _ Hs4 Hr3) as [Hr4 Hr5].
    pose proof (steps_invariant _ _ Hstep _ _ _ Hs4 Hr4 (HQ _) Hclr) as Hclr3.
    inversion Hs5 as [|? ? c4 ? ? Hb Hs6]; subst. destruct (in_range_cons _ _ _ _ Hb Hr5) as [Hm4 Hr6].
    destruct (silent_handle_step k _ _ _ Hb (proj1 Hr5) Hm4) as [Hsil _]; [right; eauto|].
    by eapply silent_handle_steps.
Qed.

(** ** Timeouts *)

(** A timeout by its callback and its time. *)
Definition timeout_of (e : TimeoutEntry) : F * Z := (to_func e, fire_at e).

Definition created_by (ev : Event) : list (F * Z) :=
  match ev with
  | Issued now (SetTimeout args) =>
      if callback_arg args is Some f then [(f, now + from_millis (delay_arg args))] else []
  | _ => []
  end.
Definition completed_by (ev : Event) : list (F * Z) :=
  match ev with TimeoutReturned e true => [timeout_of e] | _ => [] end.
Definition called_by (ev : Event) : list TimeoutEntry :=
  match ev with TimeoutCalled e _ => [e] | _ => [] end.

Definition created (log : list Event) : list (F * Z) := log ≫= created_by.
Definition completed (log : list Event) : list (F * Z) := log ≫= completed_by.
Definition called (log : list Event) : list TimeoutEntry := log ≫= called_by.

Definition clears_timeout (ev : Event) : bool :=
  match ev with Issued _ (ClearTimeout _) => true | _ => false end.

Definition phase_timeouts (ph : Phase) : list TimeoutEntry :=
  match ph with
  | Timeouts due current failed => due ++ option_list current ++ failed
  | _ => []
  end.

(** The timeouts the thread still holds. *)
Definition held (c : Config) : list (F * Z) :=
  timeout_of <$> PENDING_TIMEOUTS (tm c) ++ phase_timeouts (phase c).

(** Each event creates, completes or removes timeouts and loses none. *)
Lemma held_step c ev c' : step c ev c' →
  ∃ removed, held c' ++ completed_by ev ++ removed ≡ₚ created_by ev ++ held c ∧
    (clears_timeout ev = false → removed = []).
Proof.
  unfold held. intros Hs.
  destruct Hs as [t ph now op|t now|t e due now|t e due now|t|t now|t e due fl now|t e due fl ok|t fl]; simpl;
    try (exists []; by rewrite !app_nil_r).
  - destruct op as [args|args|args|args]; unfold run_op; simpl.
    + unfold set_timeout_callback. exists []. split; [|done]. destruct (callback_arg args) as [f|]; simpl;
        rewrite !app_nil_r; [|done]. rewrite <- (assoc_L app), !fmap_app. simpl. by rewrite Permutation_middle.
    + unfold set_interval_callback. exists []. destruct (callback_arg args); by rewrite !app_nil_r.
    + unfold clear_timeout_callback. destruct (id_arg args) as [k|]; simpl; [|exists []; by rewrite !app_nil_r].
      exists (timeout_of <$> base.filter (λ e, ¬ to_id e ≠ k) (PENDING_TIMEOUTS t)). split; [|done].
      rewrite <- fmap_app. f_equiv. rewrite <- (assoc_L app), (comm app (phase_timeouts ph)), (assoc_L app).
      f_equiv. apply filter_complement.
    + unfold clear_interval_callback. exists []. destruct (id_arg args); [case_decide|]; by rewrite !app_nil_r.
  - exists []. unfold reinsert. case_decide; by rewrite !app_nil_r.
  - exists []. rewrite !app_nil_r. split; [|done]. by rewrite due_rest_perm.
  - exists []. rewrite !app_nil_r. split; [|done]. do 2 f_equiv. by rewrite Permutation_middle.
  - exists []. rewrite !app_nil_r. split; [|done]. destruct ok.
    + change [timeout_of e] with (timeout_of <$> [e]). rewrite <- fmap_app. f_equiv.
      rewrite <- (assoc_L app). f_equiv. rewrite <- (assoc_L app). f_equiv. simpl. by rewrite (comm app fl).
    + rewrite app_nil_r. do 2 f_equiv. simpl. f_equiv. by rewrite (comm app fl).
Qed.

Lemma perm_compose {E} (h1 h2 h3 c1 c2 k1 k2 r1 r2 : list E) :
  h2 ++ k1 ++ r1 ≡ₚ c1 ++ h1 → h3 ++ k2 ++ r2 ≡ₚ c2 ++ h2 →
  h3 ++ (k1 ++ k2) ++ (r1 ++ r2) ≡ₚ (c1 ++ c2) ++ h1.
Proof.
  intros H1 H2. trans ((h3 ++ k2 ++ r2) ++ k1 ++ r1).
  { rewrite <- !(assoc_L app). f_equiv. rewrite (comm app k1). rewrite <- !(assoc_L app). f_equiv.
    rewrite (comm app r1), !(assoc_L app). f_equiv. }
  rewrite H2, <- !(assoc_L app), H1, !(assoc_L app). f_equiv. by rewrite (comm app c2).
Qed.

Lemma held_steps c log c' : steps c log c' →
  ∃ removed, held c' ++ completed log ++ removed ≡ₚ created log ++ held c ∧
    (Forall (λ ev, clears_timeout ev = false) log → removed = []).
Proof.
  induction 1 as [c|c1 ev c2 l c3 H1 _ (rm & Hp & Hn)]; [exists []; by rewrite !app_nil_r|].
  destruct (held_step _ _ _ H1) as (rm1 & Hp1 & Hn1). exists (rm1 ++ rm).
  unfold completed, created in *. rewrite !bind_cons. split; [by eapply perm_compose|].
  intros [Hc Hcs]%Forall_cons. by rewrite Hn1, Hn.
Qed.

(** A dispatch of timeouts that ends has called all that were due at its start. *)
Lemma due_called c log c' e : steps c log c' → TimeoutsEnd ∉ log →
  (∃ due current failed, phase c = Timeouts due current failed ∧ e ∈ due) →
  e ∈ called log ∨ (∃ due current failed, phase c' = Timeouts due current failed ∧ e ∈ due).
Proof.
  induction 1 as [c|c1 ev c2 l c3 H1 _ IH]; intros Hno Hph; [by right|].
  apply not_elem_of_cons in Hno as [Hev Hno]. unfold called. rewrite bind_cons, elem_of_app.
  destruct Hph as (due & cur & fl & Hph & He).
  assert (Hk : e ∈ called_by ev ∨ ∃ due current failed, phase c2 = Timeouts due current failed ∧ e ∈ due).
  { destruct H1; simpl in *; try done; simplify_eq; try (by right; eauto).
    apply elem_of_cons in He as [->|He]; [left; by left|right; eauto]. }
  destruct Hk as [Hk|Hk]; [by left; left|]. destruct (IH Hno Hk) as [?|?]; [left; by right|by right].
Qed.

Lemma completed_called c log c' : steps c log c' →
  (∀ due e failed, phase c = Timeouts due (Some e) failed → False) →
  ∀ p, p ∈ completed log → p ∈ timeout_of <$> called log.
Proof.
  intros Hs. revert Hs.
  assert (Hg : steps c log c' → ∀ p, p ∈ completed log →
    p ∈ timeout_of <$> called log ∨ ∃ due e failed, phase c = Timeouts due (Some e) failed ∧ p = timeout_of e).
  { induction 1 as [c|c1 ev c2 l c3 H1 _ IH]; intros p Hp; [by apply not_elem_of_nil in Hp|].
    unfold completed, called in *. rewrite bind_cons in *. rewrite fmap_app, elem_of_app.
    apply elem_of_app in Hp as [Hp|Hp].
    - right. destruct H1; simpl in Hp; try by apply not_elem_of_nil in Hp.
      destruct ok; [|by apply not_elem_of_nil in Hp]. apply list_elem_of_singleton in Hp as ->. simpl. eauto.
    - destruct (IH p Hp) as [?|(due & e & fl & Hph & ->)]; [left; by right|].
      destruct H1; simpl in *; try done; simplify_eq; try (right; eauto; done).
      left. left. by left. }
  intros Hs Hno p Hp. destruct (Hg Hs p Hp) as [?|(? & ? & ? & ? & _)]; [done|]. by destruct (Hno _ _ _ H0).
Qed.

(** ** Time *)

(** The clock does not go back, and a sleep of a millisecond takes at least that. *)
Class JsLaws : Prop := {
  func_call_clock : ∀ f j t, clock j <= clock (func_call f j t).1.2;
  microtasks_clock : ∀ j t, clock j <= clock (microtasks j t).1;
  sleep_clock : ∀ j, clock j + POLL_SLEEP <= clock (sleep_1ms j);
}.

Context `{JsLaws}.

(** No callback is called before its time. *)
Definition on_time (ev : Event) : Prop :=
  match ev with
  | IntervalCalled e now => next_fire e <= now
  | TimeoutCalled e now => fire_at e <= now
  | _ => True
  end.

Lemma issued_on_time ops : Forall on_time (issued ops).
Proof. unfold issued. rewrite Forall_fmap. apply Forall_true. done. Qed.

Lemma dispatch_intervals_time due : ∀ j t j' t' log,
  dispatch_intervals due j t = (j', t', log) →
  clock j <= clock j' ∧ (Forall (λ e, next_fire e <= clock j) due → Forall on_time log).
Proof.
  induction due as [|e due IH]; intros j t j' t' log; simpl; [intros [= <- <- <-]; done|].
  pose proof (func_call_clock (iv_func e) j t) as Hc.
  destruct (func_call (iv_func e) j t) as [[? j1] ops]. simpl in Hc.
  destruct (dispatch_intervals due j1 _) as [[j2 t2] log2] eqn:Ed. intros [= <- <- <-].
  destruct (IH _ _ _ _ _ Ed) as [Hj Hl]. split; [lia|]. intros [He Hd]%Forall_cons.
  constructor; [done|]. apply Forall_app. split; [apply issued_on_time|]. constructor; [done|].
  apply Hl. eapply Forall_impl; [exact Hd|]. simpl. lia.
Qed.

Lemma dispatch_timeouts_time due : ∀ j t j' t' failed log,
  dispatch_timeouts due j t = (j', t', failed, log) →
  clock j <= clock j' ∧ (Forall (λ e, fire_at e <= clock j) due → Forall on_time log).
Proof.
  induction due as [|e due IH]; intros j t j' t' failed log; simpl; [intros [= <- <- <- <-]; done|].
  pose proof (func_call_clock (to_func e) j t) as Hc.
  destruct (func_call (to_func e) j t) as [[ok j1] ops]. simpl in Hc.
  destruct (dispatch_timeouts due j1 _) as [[[j2 t2] failed2] log2] eqn:Ed. intros [= <- <- <- <-].
  destruct (IH _ _ _ _ _ _ Ed) as [Hj Hl]. split; [lia|]. intros [He Hd]%Forall_cons.
  constructor; [done|]. apply Forall_app. split; [apply issued_on_time|]. constructor; [done|].
  apply Hl. eapply Forall_impl; [exact Hd|]. simpl. lia.
Qed.

Lemma due_of_Forall {E} (deadline : E → Z) now l : Forall (λ e, deadline e <= now) (due_of deadline now l).
Proof. apply Forall_forall. by intros e [? _]%list_elem_of_filter. Qed.

Lemma pump_round_time j t j' t' log : pump_round j t = (j', t', log) →
  clock j + POLL_SLEEP <= clock j' ∧ Forall on_time log.
Proof.
  unfold pump_round, fire_pending_intervals, fire_pending_timeouts. rewrite drain_due_exact.
  destruct (dispatch_intervals _ _ _) as [[j1 t1] log1] eqn:E1. rewrite drain_due_exact.
  destruct (dispatch_timeouts _ _ _) as [[[j2 t2] failed] log2] eqn:E2. intros [= <- <- <-].
  destruct (dispatch_intervals_time _ _ _ _ _ _ E1) as [H1 Hl1].
  destruct (dispatch_timeouts_time _ _ _ _ _ _ _ E2) as [H2 Hl2].
  pose proof (sleep_clock j2). split; [lia|].
  specialize (Hl1 (due_of_Forall _ _ _)). specialize (Hl2 (due_of_Forall _ _ _)).
  repeat (rewrite Forall_cons || rewrite Forall_app). by repeat split.
Qed.

Lemma pump_on_time fuel deadline : ∀ j t r j' t' log,
  pump fuel deadline j t = Some (r, j', t', log) → Forall on_time log.
Proof.
  induction fuel as [|fuel IH]; intros j t r j' t' log; cbn [pump]; [done|].
  destruct (microtasks j t) as [j1 ops]. pose proof (issued_on_time ops) as Hops.
  destruct (promise_state j1) as [v|msg|]; [by intros [= <- <- <- <-]..|].
  destruct (clock j1 >? deadline); [by intros [= <- <- <- <-]|].
  destruct (pump_round j1 _) as [[j2 t2] log2] eqn:Er.
  destruct (pump fuel deadline j2 t2) as [[[[r3 j3] t3] log3]|] eqn:Ep; simpl; [|done].
  intros [= <- <- <- <-]. apply Forall_app. split; [done|]. apply Forall_app.
  split; [exact (proj2 (pump_round_time _ _ _ _ _ Er))|exact (IH _ _ _ _ _ _ Ep)].
Qed.

Lemma request_on_time fuel j t r j' t' log :
  run_request fuel j t = Some (r, j', t', log) → Forall on_time log.
Proof.
  unfold run_request. destruct (handler_call j _) as [[c j1] ops]. pose proof (issued_on_time ops) as Hops.
  destruct c as [msg|v|]; [by intros [= <- <- <- <-]..|].
  destruct (pump _ _ _ _) as [[[[r3 j3] t3] log3]|] eqn:Ep; simpl; [|done].
  intros [= <- <- <- <-]. apply Forall_app. split; [done|exact (pump_on_time _ _ _ _ _ _ _ _ Ep)].
Qed.

(** The timeouts of a request, in which [clearTimeout] is not called: those set are
    the ones whose callback returned and the ones still pending at the end, so each
    returns at most once and none is lost.  None is called early.  Each one is called by
    the end of the first dispatch that begins at its time or later. *)
Theorem timeouts_exactly_once fuel j t r j' t' log
    (Hrun : run_request fuel j t = Some (r, j', t', log))
    (Hno : Forall (λ ev, clears_timeout ev = false) log) :
  completed log ++ (timeout_of <$> PENDING_TIMEOUTS t') ≡ₚ created log ∧
  (∀ e now, TimeoutCalled e now ∈ log → fire_at e <= now) ∧
  ∀ l1 now m l2 p, log = l1 ++ TimeoutsBegin now :: m ++ TimeoutsEnd :: l2 → TimeoutsEnd ∉ m →
    p ∈ created l1 → p.2 <= now → p ∈ timeout_of <$> called (l1 ++ m).
Proof.
  pose proof (request_on_time _ _ _ _ _ _ _ Hrun) as Htime. apply request_steps in Hrun.
  split; [|split].
  - destruct (held_steps _ _ _ Hrun) as (rm & Hp & Hn). rewrite (Hn Hno) in Hp.
    unfold held in Hp. simpl in Hp. rewrite !app_nil_r in Hp. by rewrite (comm app).
  - intros e now Hin. rewrite Forall_forall in Htime. exact (Htime _ Hin).
  - intros l1 now m l2 p -> Hm Hp Hle. apply Forall_app in Hno as [Hno1 _].
    destruct (steps_app_inv _ _ _ _ Hrun) as (c1 & Hs1 & Hs2).
    inversion Hs2 as [|? ? c2 ? ? Hev Hs3]; subst. inversion Hev; subst.
    destruct (steps_app_inv _ _ _ _ Hs3) as (c3 & Hs4 & Hs5).
    destruct (held_steps _ _ _ Hs1) as (rm & Hheld & Hn). rewrite (Hn Hno1) in Hheld.
    unfold held in Hheld. simpl in Hheld. rewrite !app_nil_r in Hheld.
    unfold called. rewrite bind_app, fmap_app, elem_of_app.
    rewrite <- Hheld in Hp. apply elem_of_app in Hp as [Hp|Hp].
    + right. apply list_elem_of_fmap in Hp as (e & -> & He). apply list_elem_of_fmap. exists e.
      split; [done|]. destruct (due_called _ _ _ e Hs4 Hm) as [?|(due & cur & fl & Hph & He')]; [|done|].
      * simpl. do 3 eexists. split; [done|]. by apply list_elem_of_filter.
      * inversion Hs5 as [|? ? c4 ? ? Hend _]; subst. inversion Hend; subst. simplify_eq.
        simpl in Hph. simplify_eq. by apply not_elem_of_nil in He'.
    + left. by apply (completed_called _ _ _ Hs1).
Qed.

(** *** A callback that throws *)

Definition holds (e : TimeoutEntry) (c : Config) : Prop :=
  e ∈ PENDING_TIMEOUTS (tm c) ++ phase_timeouts (phase c).

Lemma handle_holds_step e c ev c' : step c ev c' → clears_timeout ev = false → ev ≠ TimeoutReturned e true →
  holds e c → holds e c'.
Proof.
  unfold holds. intros Hs Hno Hret.
  destruct Hs as [t ph now op|t now|t e' due now|t e' due now|t|t now|t e' due fl now|t e' due fl ok|t fl]; simpl; try done.
  - destruct op as [args|args|args|args]; unfold run_op; simpl; [|by unfold set_interval_callback; destruct (callback_arg args)|done|].
    + unfold set_timeout_callback. destruct (callback_arg args); [simpl|done]. rewrite !elem_of_app. tauto.
    + unfold clear_interval_callback. destruct (id_arg args); [case_decide|]; done.
  - unfold reinsert. by case_decide.
  - rewrite app_nil_r. by rewrite app_nil_r, due_rest_perm.
  - rewrite !elem_of_app, !elem_of_cons, !elem_of_app. tauto.
  - destruct ok; rewrite !elem_of_app, ?elem_of_cons, ?list_elem_of_singleton; [|tauto].
    intros [?|[?|[->|?]]]; [tauto|tauto|by destruct Hret|tauto].
  - by rewrite app_nil_r.
Qed.

Lemma holds_steps e c log c' : steps c log c' → Forall (λ ev, clears_timeout ev = false) log →
  TimeoutReturned e true ∉ log → holds e c → holds e c'.
Proof.
  induction 1 as [c|c1 ev c2 l c3 H1 _ IH]; [done|].
  intros [Hc Hcs]%Forall_cons [Hr Hrs]%not_elem_of_cons Hh. apply IH; [done..|].
  by apply (handle_holds_step _ _ _ _ H1).
Qed.

(** A timeout whose callback throws fires again.  The entry goes back to the queue
    whenever the call does not return, whatever the reason, with its time in the past:
    as long as it is not cleared and does not return, every later dispatch calls it, and
    it is still pending when the request ends. *)
Theorem throwing_timeout_refires fuel j t r j' t' log l1 e l2
    (Hrun : run_request fuel j t = Some (r, j', t', log))
    (Hlog : log = l1 ++ TimeoutReturned e false :: l2)
    (Hno : Forall (λ ev, clears_timeout ev = false) l2)
    (Hret : TimeoutReturned e true ∉ l2) :
  e ∈ PENDING_TIMEOUTS t' ∧
  ∀ a now m b, l2 = a ++ TimeoutsBegin now :: m ++ TimeoutsEnd :: b → TimeoutsEnd ∉ m →
    fire_at e <= now → e ∈ called m.
Proof.
  apply request_steps in Hrun. subst log.
  destruct (steps_app_inv _ _ _ _ Hrun) as (c1 & Hs1 & Hs2).
  inversion Hs2 as [|? ? c2 ? ? Hev Hs3]; subst.
  assert (Hh : holds e c2).
  { inversion Hev; subst. unfold holds. simpl. rewrite !elem_of_app, list_elem_of_singleton. tauto. }
  split; [pose proof (holds_steps _ _ _ _ Hs3 Hno Hret Hh) as He; unfold holds in He; simpl in He;
          by rewrite app_nil_r in He|].
  intros a now m b -> Hm Hle. apply Forall_app in Hno as [Hno _]. rewrite not_elem_of_app in Hret.
  destruct Hret as [Hret _]. destruct (steps_app_inv _ _ _ _ Hs3) as (c3 & Hs4 & Hs5).
  pose proof (holds_steps _ _ _ _ Hs4 Hno Hret Hh) as Hh3.
  inversion Hs5 as [|? ? c4 ? ? Hb Hs6]; subst. inversion Hb; subst. unfold holds in Hh3. simpl in Hh3.
  rewrite app_nil_r in Hh3. destruct (steps_app_inv _ _ _ _ Hs6) as (c5 & Hs7 & Hs8).
  destruct (due_called _ _ _ e Hs7 Hm) as [?|(due & cur & fl & Hph & He')]; [|done|].
  - simpl. do 3 eexists. split; [done|]. by apply list_elem_of_filter.
  - inversion Hs8 as [|? ? c6 ? ? Hend _]; subst. inversion Hend; subst. simpl in Hph. simplify_eq.
    by apply not_elem_of_nil in He'.
Qed.

(** *** The handles of timeouts *)

(** What [n] further calls of [setTimeout] append, with [c] the counter at the start. *)
Lemma run_set_timeouts ops : ∀ t, 1 <= TIMEOUT_ID_COUNTER t <= 99 →
  Forall (λ p, ∃ args, p.2 = SetTimeout args ∧ is_Some (callback_arg args)) ops →
  ∃ added, PENDING_TIMEOUTS (run_ops ops t) = PENDING_TIMEOUTS t ++ added ∧
    length added = length ops ∧
    ∀ i e, added !! i = Some e →
      to_id e = 1 + (TIMEOUT_ID_COUNTER t - 1 + Z.of_nat i) mod 99.
Proof.
  induction ops as [|[now op] ops IH]; intros t Ht Hops.
  { exists []. rewrite app_nil_r. split; [done|]. split; [done|]. by intros i e ?. }
  apply Forall_cons in Hops as [(args & Hop & [f Hf]) Hops]. simpl in Hop. subst op.
  change (run_ops ((now, SetTimeout args) :: ops) t) with (run_ops ops (set_timeout_callback now args t).1).
  unfold set_timeout_callback. rewrite Hf. simpl.
  set (e0 := mkTimeout (TIMEOUT_ID_COUNTER t) f (now + from_millis (delay_arg args))).
  set (t1 := mkTimers _ _ _ _ _). destruct (IH t1) as (added & Hp & Hl & Hid); [|done|].
  { unfold t1. simpl. rewrite Z.geb_leb. destruct (Z.leb_spec 99 (TIMEOUT_ID_COUNTER t)); lia. }
  exists (e0 :: added). rewrite Hp. unfold t1. simpl. rewrite <- (assoc_L app). split; [done|].
  split; [by f_equal|]. intros [|i] e He; simpl in He.
  - injection He as <-. simpl. rewrite Z.add_0_r, Z.mod_small by lia. lia.
  - rewrite (Hid i e He). unfold t1. simpl. rewrite Z.geb_leb. f_equal.
    destruct (Z.leb_spec 99 (TIMEOUT_ID_COUNTER t)).
    + rewrite <- (Z.mod_add (1 - 1 + Z.of_nat i) 1 99) by lia. f_equal. lia.
    + f_equal. lia.
Qed.

(** With more than 99 timeouts in a request handles repeat: of 100 calls of
    [setTimeout] in a row the first and the last return the same handle, and clearing it
    removes both entries. *)
Theorem timeout_handles_collide ops t
    (Ht : 1 <= TIMEOUT_ID_COUNTER t <= 99) (Hn : length ops = 100%nat)
    (Hops : Forall (λ p, ∃ args, p.2 = SetTimeout args ∧ is_Some (callback_arg args)) ops) :
  ∃ first others last,
    PENDING_TIMEOUTS (run_ops ops t) = PENDING_TIMEOUTS t ++ first :: others ++ [last] ∧
    to_id first = TIMEOUT_ID_COUNTER t ∧ to_id last = to_id first ∧
    ∀ args, id_arg args = Some (to_id first) →
      first ∉ PENDING_TIMEOUTS (clear_timeout_callback args (run_ops ops t)) ∧
      last ∉ PENDING_TIMEOUTS (clear_timeout_callback args (run_ops ops t)).
Proof.
  destruct (run_set_timeouts ops t Ht Hops) as (added & Hp & Hl & Hid). rewrite Hn in Hl.
  destruct added as [|first rest]; [done|]. destruct rest as [|last others _] using rev_ind; [done|].
  exists first, others, last. split; [done|].
  pose proof (Hid 0%nat first eq_refl) as Hf. rewrite Z.add_0_r, Z.mod_small in Hf by lia.
  assert (Hlast : to_id last = to_id first).
  { rewrite (Hid 99%nat last), Hf.
    - change (Z.of_nat 99) with (1 * 99). rewrite Z.mod_add, Z.mod_small by lia. lia.
    - simpl. simpl in Hl. rewrite length_app in Hl. simpl in Hl. apply list_lookup_middle. lia. }
  split; [lia|]. split; [done|]. intros args Hargs. unfold clear_timeout_callback. rewrite Hargs. simpl.
  rewrite !list_elem_of_filter. split; intros [? _]; congruence.
Qed.

(** ** The end of a request *)

(** What the [n]-th poll of the pump finds. *)
Definition poll_result (s : J * TimerState) : PromiseState * Z :=
  let j1 := (microtasks s.1 s.2).1 in (promise_state j1, clock j1).
Definition next_poll (s : J * TimerState) : J * TimerState :=
  let '(j1, ops) := microtasks s.1 s.2 in
  let '(j2, t2, _) := pump_round j1 (run_ops ops s.2) in (j2, t2).
Definition polls (s : J * TimerState) (n : nat) : ends (PromiseState * Z) := Ended (poll_result (Nat.iter n next_poll s)).

Lemma iter_shift {X} (f : X → X) n x : Nat.iter n f (f x) = Nat.iter (S n) f x.
Proof. induction n as [|n IH]; simpl; [done|by rewrite IH]. Qed.

(** A pump that has no result is still going on. *)
Definition of_option {A} (x : option A) : ends A := match x with Some a => Ended a | None => Busy end.

Lemma pump_await fuel deadline j t n s : (j, t) = Nat.iter n next_poll s →
  of_option ((λ r, r.1.1.1) <$> pump fuel deadline j t) = await_promise fuel deadline (polls s) n.
Proof.
  revert j t n. induction fuel as [|fuel IH]; intros j t n Hs; [done|]. cbn [pump await_promise].
  unfold polls at 1, poll_result at 1. rewrite <- Hs. simpl.
  destruct (microtasks j t) as [j1 ops] eqn:Em. simpl.
  destruct (promise_state j1); [done..|]. destruct (clock j1 >? deadline); [done|].
  destruct (pump_round j1 _) as [[j2 t2] log2] eqn:Er. rewrite <- option_fmap_compose. apply IH.
  simpl. rewrite <- Hs. unfold next_poll. simpl. by rewrite Em, Er.
Qed.

Lemma polls_clock j t n p : polls (j, t) n = Ended p → p.2 >= clock j + Z.of_nat n * POLL_SLEEP.
Proof.
  unfold polls, poll_result. intros [= <-]. pose proof (microtasks_clock (Nat.iter n next_poll (j, t)).1
    (Nat.iter n next_poll (j, t)).2) as Hm. simpl.
  assert (Hc : clock j + Z.of_nat n * POLL_SLEEP <= clock (Nat.iter n next_poll (j, t)).1); [|lia].
  clear Hm. induction n as [|n IH]; simpl; [lia|]. revert IH.
  generalize (Nat.iter n next_poll (j, t)). intros [j0 t0] IH. unfold next_poll. simpl in *.
  pose proof (microtasks_clock j0 t0) as Hm. destruct (microtasks j0 t0) as [j1 ops]. simpl in Hm.
  destruct (pump_round j1 _) as [[j2 t2] log2] eqn:Er. pose proof (proj1 (pump_round_time _ _ _ _ _ Er)). simpl. lia.
Qed.

(** The result of a request as the worker's loop computes it from the polls. *)
Definition request_result (fuel : nat) (j : J) : ends (result JsValue string) :=
  let '(c, j1, ops) := handler_call j initial_timers in
  match c with
  | HandlerThrew msg => Ended (Err ("JS exception: " +:+ default "unknown JS exception" msg))
  | HandlerReturned v => Ended (Ok v)
  | HandlerPromised =>
      await_promise fuel (clock j1 + PROMISE_TIMEOUT) (polls (j1, run_ops ops initial_timers)) 0
  end.

(** Whatever the timers do, a request ends: with a clock that does not go back and
    sleeps that last, the fuel of the worker's loop is enough, its result is the one the
    worker computes, and it does not depend on the timers left by earlier requests.
    Between requests no dispatch is under way. *)
Theorem request_returns fuel j t (Hfuel : (promise_fuel <= fuel)%nat) :
  ∃ r j' t' log, run_request fuel j t = Some (r, j', t', log) ∧ request_result fuel j = Ended r ∧
    run_request fuel j t = run_request fuel j initial_timers ∧
    steps (mkConfig initial_timers Idle) log (mkConfig t' Idle).
Proof.
  assert (Hr : ∃ r j' t' log, run_request fuel j t = Some (r, j', t', log) ∧ request_result fuel j = Ended r).
  { unfold run_request, request_result. change (clear_pending_timeouts _) with initial_timers.
    destruct (handler_call j initial_timers) as [[c j1] ops].
    destruct c as [msg|v|]; [do 4 eexists; by split..|].
    pose proof (pump_await fuel (clock j1 + PROMISE_TIMEOUT) j1 (run_ops ops initial_timers) 0 _ eq_refl) as Ha.
    destruct (await_promise_enough fuel (clock j1) (polls (j1, run_ops ops initial_timers)) Hfuel (polls_clock _ _)) as (m & _ & Hm).
    rewrite <- Ha in Hm |- *. destruct (pump _ _ _ _) as [[[[r1 j2] t2] log2]|]; [do 4 eexists; by split|].
    exfalso. unfold polled, polls in Hm. cbn in Hm. by destruct (promise_state _); [..|destruct Hm]. }
  destruct Hr as (r & j' & t' & log & Hr & Hres). exists r, j', t', log.
  split; [done|]. split; [done|]. split; [done|]. by eapply request_steps.
Qed.
End timers.

(** ** A scripted engine *)

Section script.

(** A program: the operations each callback issues and whether it returns. *)
Context (prog : nat → list (@TimerOp nat) * bool) (handler : list (@TimerOp nat)) (settles : Z).

(** Its state is the clock; a call takes a microsecond, a sleep a millisecond, and the
    promise of the handler is fulfilled at [settles]. *)
Definition script_engine : @JsEngine nat Z := {|
  clock := λ j, j;
  func_call := λ f j _, ((prog f).2, j + 1000, (λ op, (j, op)) <$> (prog f).1);
  microtasks := λ j _, (j, []);
  handler_call := λ j _, (HandlerPromised, j, (λ op, (j, op)) <$> handler);
  promise_state := λ j, if settles <=? j then Fulfilled JsNoObject else Pending;
  sleep_1ms := λ j, j + POLL_SLEEP;
|}.

Lemma script_laws : @JsLaws nat Z script_engine.
Proof. split; simpl; intros; lia. Qed.

End script.

Definition fn (n : nat) : TimerArg nat := mkArg (Some n) (Some S754_nan).
Definition num (z : Z) : TimerArg nat := mkArg None (Some (f64_of_Z z)).

(** Callback 0 throws, callback 1 clears the interval with handle 100, the others
    return. *)
Definition demo_prog (n : nat) : list (@TimerOp nat) * bool :=
  match n with
  | 0%nat => ([], false)
  | 1%nat => ([ClearInterval [num 100]], true)
  | _ => ([], true)
  end.

Definition demo_script : list (@TimerOp nat) :=
  [SetInterval [fn 2; num 1]; SetInterval [fn 3; num 2]; SetTimeout [fn 0; num 1]; SetTimeout [fn 1; num 3];
   SetTimeout [fn 4; num 3]].

#[local] Existing Instance script_engine.

Definition demo_request : option (result JsValue string * Z * @TimerState nat * list (@Event nat)) :=
  @run_request nat Z (script_engine demo_prog demo_script 6000000) 10 0 initial_timers.

Definition demo_events : list (@Event nat) := from_option (λ r, r.2) [] demo_request.
Definition demo_timers : @TimerState nat := from_option (λ r, r.1.2) initial_timers demo_request.

Lemma demo_runs : @run_request nat Z (script_engine demo_prog demo_script 6000000) 10 0 initial_timers =
  Some (Ok JsNoObject, from_option (λ r, r.1.1.2) 0 demo_request, demo_timers, demo_events).
Proof. vm_compute. reflexivity. Qed.

Lemma Forall_by_forallb {E} (P : E → bool) (b : bool) l :
  forallb (λ x, Bool.eqb (P x) b) l = true → Forall (λ x, P x = b) l.
Proof. rewrite forallb_Forall. intros Hf. eapply Forall_impl; [exact Hf|]. intros x. apply eqb_prop. Qed.

Lemma not_in_by {E} (f : E → bool) x l : f x = false → forallb f l = true → x ∉ l.
Proof.
  intros Hx Hf Hin. rewrite forallb_forall in Hf.
  rewrite (Hf x) in Hx by (by apply list_elem_of_In). done.
Qed.

Definition ends_dispatch (ev : @Event nat) : bool := match ev with TimeoutsEnd => true | _ => false end.
Definition returns_one (ev : @Event nat) : bool :=
  match ev with TimeoutReturned e true => to_id e =? 1 | _ => false end.

Lemma demo_split n ev : demo_events !! n = Some ev →
  demo_events = take n demo_events ++ ev :: drop (S n) demo_events.
Proof. intros He. by rewrite <- drop_S, take_drop. Qed.

Lemma demo_max : intervals_set demo_events <= u32_max - 100.
Proof. assert (intervals_set demo_events = 2) as -> by (vm_compute; reflexivity). zlia. Qed.

(** The interval with handle 100 is cleared by the timeout at 3 ms and never called
    again, the one with handle 101 stays. *)
Lemma interval_lifecycle_witness :
  101 ∈ pending_handles demo_timers ∧ 100 ∉ pending_handles demo_timers ∧
  ∀ a now1 b e now2, drop 34 demo_events = a ++ IntervalsBegin now1 :: b → IntervalCalled e now2 ∈ b →
    iv_id e ≠ 100.
Proof.
  destruct (interval_lifecycle _ _ _ _ _ _ _ demo_runs demo_max) as (_ & Hkept & Hclear).
  split; [apply Hkept|apply (Hclear (take 33 demo_events) 3006000 [num 100])].
  - assert (intervals_set demo_events = 2) as -> by (vm_compute; reflexivity). lia.
  - apply Forall_by_forallb. vm_compute. reflexivity.
  - apply demo_split. vm_compute. reflexivity.
  - vm_compute. reflexivity.
  - assert (intervals_set (take 33 demo_events) = 2) as -> by (vm_compute; reflexivity). lia.
Defined.

(** The timeouts of the same request: the throwing one is pending at the end, the other
    two were called by the dispatch that began at 3.006 ms. *)
Lemma timeouts_exactly_once_witness :
  completed demo_events ++ (timeout_of <$> PENDING_TIMEOUTS demo_timers) ≡ₚ created demo_events ∧
  (4%nat, 3000000) ∈ timeout_of <$> called (take 31 demo_events ++ take 7 (drop 32 demo_events)).
Proof.
  assert (Hno : Forall (λ ev, clears_timeout ev = false) demo_events) by
    (apply Forall_by_forallb; vm_compute; reflexivity).
  destruct (@timeouts_exactly_once _ _ _ (script_laws demo_prog demo_script 6000000) _ _ _ _ _ _ _ demo_runs Hno)
    as (Hp & _ & Hprompt).
  split; [exact Hp|].
  apply (Hprompt _ 3006000 _ (drop 40 demo_events)).
  - vm_compute. reflexivity.
  - apply (not_in_by (λ ev, negb (ends_dispatch ev))); vm_compute; reflexivity.
  - vm_compute. repeat constructor.
  - simpl. lia.
Defined.

(** The timeout with handle 1 throws at 1 ms and is called again at 4.01 ms. *)
Lemma throwing_timeout_refires_witness :
  mkTimeout 1 0%nat 1000000 ∈ PENDING_TIMEOUTS demo_timers ∧
  mkTimeout 1 0%nat 1000000 ∈ called (take 2 (drop 45 demo_events)).
Proof.
  destruct (throwing_timeout_refires _ _ _ _ _ _ _ (take 15 demo_events) (mkTimeout 1 0%nat 1000000)
    (drop 16 demo_events) demo_runs) as [Hp Hcall].
  - apply demo_split. vm_compute. reflexivity.
  - apply Forall_by_forallb. vm_compute. reflexivity.
  - apply (not_in_by (λ ev, negb (returns_one ev))); vm_compute; reflexivity.
  - split; [exact Hp|]. 
    apply (Hcall (take 28 (drop 16 demo_events)) 4010000 _ (drop 48 demo_events)).
    + vm_compute. reflexivity.
    + apply (not_in_by (λ ev, negb (ends_dispatch ev))); vm_compute; reflexivity.
    + simpl. lia.
Defined.

(** A hundred timeouts. *)
Lemma timeout_handles_collide_witness :
  ∃ first others last,
    PENDING_TIMEOUTS (run_ops (replicate 100 (0, SetTimeout [fn 0; num 1000])) initial_timers) =
      first :: others ++ [last] ∧ to_id first = 1 ∧ to_id last = 1.
Proof.
  destruct (timeout_handles_collide (replicate 100 (0, SetTimeout [fn 0; num 1000])) initial_timers)
    as (first & others & last & Hp & Hf & Hl & _).
  - simpl. lia.
  - reflexivity.
  - apply Forall_replicate. eexists. split; [reflexivity|]. by eexists.
  - exists first, others, last. split; [exact Hp|]. split; [exact Hf|]. rewrite Hl. exact Hf.
Defined.

Lemma request_returns_witness : ∃ r j' t' log,
  @run_request nat Z (script_engine demo_prog demo_script 6000000) promise_fuel 0 demo_timers = Some (r, j', t', log).
Proof.
  destruct (@request_returns _ _ _ (script_laws demo_prog demo_script 6000000) promise_fuel 0 demo_timers (le_n _))
    as (r & j' & t' & log & Hr & _).
  exists r, j', t', log. exact Hr.
Defined.
