(* ===== verification/CryptoKeys.v ===== *)
(** * [src/runtime/crypto]: keys, JWK, AES-GCM and HMAC

    [mod.rs], [crypto_key.rs], [aes_gcm.rs] and [hmac.rs].  The primitives of the
    [ring], [base64] and [serde_json] crates are the class [Primitives], with what their
    documentation promises in [PrimitiveLaws]; the system's random source is an argument
    that answers each request for bytes, or fails. *)

From stdpp Require Import base list strings pretty.
From Stdlib Require Import ZArith Lia.
From Stdlib.Strings Require Byte.
From S2P Require Import Prelude RustString.

Open Scope Z_scope.

Abbreviation bytes := (list Byte.byte).

(** ** [mod.rs]: errors *)

Inductive CryptoError :=
| InvalidAlgorithm (msg : string)
| InvalidKey
| OperationFailed
| NotSupported
| InvalidAccess
| DataError (msg : string)
| SyntaxError (msg : string).

Definition error_name (e : CryptoError) : string :=
  match e with
  | InvalidAlgorithm _ => "NotSupportedError"
  | InvalidKey => "InvalidAccessError"
  | OperationFailed => "OperationError"
  | NotSupported => "NotSupportedError"
  | InvalidAccess => "InvalidAccessError"
  | DataError _ => "DataError"
  | SyntaxError _ => "SyntaxError"
  end.

(** The [#[error]] attributes, [to_string]. *)
Definition error_text (e : CryptoError) : string :=
  match e with
  | InvalidAlgorithm m => "Invalid algorithm: " +:+ m
  | InvalidKey => "Invalid key"
  | OperationFailed => "Operation failed"
  | NotSupported => "Not supported"
  | InvalidAccess => "Invalid access"
  | DataError m => "Data error: " +:+ m
  | SyntaxError m => "Syntax error: " +:+ m
  end.

(** ** [crypto_key.rs] *)

Inductive HashAlgorithm := Sha256 | Sha384 | Sha512.

#[global] Instance HashAlgorithm_eq_dec : EqDecision HashAlgorithm.
Proof. solve_decision. Defined.

Module HashAlgorithmImpl.
Definition name (h : HashAlgorithm) : string :=
  match h with Sha256 => "SHA-256" | Sha384 => "SHA-384" | Sha512 => "SHA-512" end.

Definition output_size (h : HashAlgorithm) : nat :=
  match h with Sha256 => 32 | Sha384 => 48 | Sha512 => 64 end.

Definition from_name (s : string) : option HashAlgorithm :=
  if String.eqb s "SHA-256" then Some Sha256
  else if String.eqb s "SHA-384" then Some Sha384
  else if String.eqb s "SHA-512" then Some Sha512
  else None.
End HashAlgorithmImpl.

Inductive AlgorithmIdentifier :=
| AesGcm (length : Z)
| Hmac (hash : HashAlgorithm) (length : option Z)
| RsaOaep (hash : HashAlgorithm)
| RsaPss (hash : HashAlgorithm) (salt_length : option Z)
| RsaSsaPkcs1V1_5 (hash : HashAlgorithm)
| Ecdsa (named_curve : string) (hash : HashAlgorithm)
| Ecdh (named_curve : string).

Definition name (a : AlgorithmIdentifier) : string :=
  match a with
  | AesGcm _ => "AES-GCM"
  | Hmac _ _ => "HMAC"
  | RsaOaep _ => "RSA-OAEP"
  | RsaPss _ _ => "RSA-PSS"
  | RsaSsaPkcs1V1_5 _ => "RSASSA-PKCS1-v1_5"
  | Ecdsa _ _ => "ECDSA"
  | Ecdh _ => "ECDH"
  end.

(** [length.map(|l| l as u16)] wraps. *)
Definition key_length (a : AlgorithmIdentifier) : option Z :=
  match a with
  | AesGcm l => Some l
  | Hmac _ l => (λ l, l mod 65536) <$> l
  | _ => None
  end.

Inductive KeyUsage := Encrypt | Decrypt | Sign | Verify | DeriveKey | DeriveBits | WrapKey | UnwrapKey.

#[global] Instance KeyUsage_eq_dec : EqDecision KeyUsage.
Proof. solve_decision. Defined.

Definition usage_str (u : KeyUsage) : string :=
  match u with
  | Encrypt => "encrypt" | Decrypt => "decrypt" | Sign => "sign" | Verify => "verify"
  | DeriveKey => "deriveKey" | DeriveBits => "deriveBits" | WrapKey => "wrapKey" | UnwrapKey => "unwrapKey"
  end.

Definition usage_from_str (s : string) : option KeyUsage :=
  if String.eqb s "encrypt" then Some Encrypt
  else if String.eqb s "decrypt" then Some Decrypt
  else if String.eqb s "sign" then Some Sign
  else if String.eqb s "verify" then Some Verify
  else if String.eqb s "deriveKey" then Some DeriveKey
  else if String.eqb s "deriveBits" then Some DeriveBits
  else if String.eqb s "wrapKey" then Some WrapKey
  else if String.eqb s "unwrapKey" then Some UnwrapKey
  else None.

Inductive CryptoKeyHandle :=
| AesGcmKey (b : bytes)
| HmacKey (b : bytes)
| RsaPrivateKey (b : bytes)
| RsaPublicKey (b : bytes)
| EcdsaPrivateKey (b : bytes)
| EcdsaPublicKey (b : bytes).

Definition as_bytes (h : CryptoKeyHandle) : bytes :=
  match h with
  | AesGcmKey b | HmacKey b | RsaPrivateKey b | RsaPublicKey b | EcdsaPrivateKey b | EcdsaPublicKey b => b
  end.

Definition algorithm_type (h : CryptoKeyHandle) : string :=
  match h with
  | AesGcmKey _ => "AES-GCM"
  | HmacKey _ => "HMAC"
  | RsaPrivateKey _ | RsaPublicKey _ => "RSA"
  | EcdsaPrivateKey _ | EcdsaPublicKey _ => "ECDSA"
  end.

Record CryptoKey := mkKey {
  handle : CryptoKeyHandle;
  algorithm : AlgorithmIdentifier;
  extractable : bool;
  usages : list KeyUsage;
}.

Definition key_type (k : CryptoKey) : string :=
  match handle k with
  | AesGcmKey _ | HmacKey _ => "secret"
  | RsaPrivateKey _ | EcdsaPrivateKey _ => "private"
  | RsaPublicKey _ | EcdsaPublicKey _ => "public"
  end.

Definition has_usage (k : CryptoKey) (u : KeyUsage) : bool := bool_decide (u ∈ usages k).

Definition new_rsa_private (a : AlgorithmIdentifier) (b : bytes) (ext : bool) (us : list KeyUsage) : CryptoKey :=
  mkKey (RsaPrivateKey b) a ext us.
Definition new_rsa_public (a : AlgorithmIdentifier) (b : bytes) (ext : bool) (us : list KeyUsage) : CryptoKey :=
  mkKey (RsaPublicKey b) a ext us.
Definition new_ecdsa_private (a : AlgorithmIdentifier) (b : bytes) (ext : bool) (us : list KeyUsage) : CryptoKey :=
  mkKey (EcdsaPrivateKey b) a ext us.
Definition new_ecdsa_public (a : AlgorithmIdentifier) (b : bytes) (ext : bool) (us : list KeyUsage) : CryptoKey :=
  mkKey (EcdsaPublicKey b) a ext us.

Record JwkObject := mkJwk {
  kty : string;
  alg : option string;
  jwk_k : option string;
  ext : option bool;
  key_ops : option (list string);
}.

Definition new_symmetric (a k : string) (extractable : bool) (ops : list string) : JwkObject :=
  mkJwk "oct" (Some a) (Some k) (Some extractable) (Some ops).

(** ** The crates *)

(** [ring::aead] ([unbound_key] is [UnboundKey::new(..).is_ok()], [nonce_ok]
    [Nonce::try_assume_unique_for_key(..).is_ok()]; [seal] gives ciphertext and tag),
    [ring::hmac], [sha2], the base64url engine without padding, and the JSON of a JWK. *)
Class Primitives := {
  unbound_key : Z → bytes → bool;
  nonce_ok : bytes → bool;
  tag_len : nat;
  seal : Z → bytes → bytes → bytes → bytes → option (bytes * bytes);
  open_aead : Z → bytes → bytes → bytes → bytes → option bytes;
  ring_hmac_sign : HashAlgorithm → bytes → bytes → bytes;
  ring_hmac_verify : HashAlgorithm → bytes → bytes → bytes → bool;
  sha2 : HashAlgorithm → bytes → bytes;
  base64url_encode : bytes → string;
  base64url_decode : string → result bytes string;
  jwk_from_slice : bytes → result JwkObject string;
  jwk_to_vec : JwkObject → result bytes string;
}.

(** What the documentation of the crates promises: AES-128 and AES-256 keys of their
    length, nonces of 12 bytes, that opening undoes sealing and that sealing a plaintext
    within the limit of GCM succeeds, verification by comparison with the tag, and the
    round trips of the encodings. *)
Class PrimitiveLaws `{Primitives} : Prop := {
  unbound_key_iff : ∀ bits k, bits = 128 ∨ bits = 256 →
    (unbound_key bits k = true ↔ Z.of_nat (length k) * 8 = bits);
  nonce_ok_iff : ∀ n, nonce_ok n = true ↔ length n = 12%nat;
  seal_small : ∀ bits k n a p, unbound_key bits k = true → nonce_ok n = true →
    Z.of_nat (length p) <= 68719476704 → is_Some (seal bits k n a p);
  open_seal : ∀ bits k n a p c t, seal bits k n a p = Some (c, t) →
    length t = tag_len ∧ open_aead bits k n a (c ++ t) = Some p;
  hmac_verify_iff : ∀ h k d s, ring_hmac_verify h k d s = true ↔ s = ring_hmac_sign h k d;
  base64url_round : ∀ b, base64url_decode (base64url_encode b) = Ok b;
  jwk_round : ∀ j, ∃ v, jwk_to_vec j = Ok v ∧ jwk_from_slice v = Ok j;
}.

(** [JwkObject::from_slice] *)
Definition from_slice `{Primitives} (data : bytes) : result JwkObject CryptoError :=
  match jwk_from_slice data with Ok j => Ok j | Err e => Err (DataError ("Invalid JWK: " +:+ e)) end.

(** [SystemRandom::fill] for a buffer of a length; it may fail. *)
Abbreviation Entropy := (nat → option bytes).

Definition lawful_entropy (rng : Entropy) : Prop := ∀ n b, rng n = Some b → length b = n.

(** ** [aes_gcm.rs] *)

Module AesGcmRs.
Section aes_gcm.
Context `{Primitives}.

Record AesGcmParams := mkParams { iv : bytes; additional_data : option bytes; tag_length : Z }.

Definition VALID_TAG_LENGTHS : list Z := [32; 64; 96; 104; 112; 120; 128].

Definition validate (p : AesGcmParams) : result unit CryptoError :=
  if negb (existsb (Z.eqb (tag_length p)) VALID_TAG_LENGTHS)
  then Err (InvalidAlgorithm ("Invalid tag length: " +:+ pretty (tag_length p)))
  else Ok tt.

Definition generate_key (rng : Entropy) (length : Z) (extractable : bool) (usages : list KeyUsage)
    : result CryptoKey CryptoError :=
  let? key_bytes :=
    if length =? 128 then Ok 16%nat
    else if length =? 192 then Ok 24%nat
    else if length =? 256 then Ok 32%nat
    else Err (InvalidAlgorithm ("Invalid AES-GCM key length: " +:+ pretty length)) in
  match rng key_bytes with
  | None => Err OperationFailed
  | Some key_material => Ok (mkKey (AesGcmKey key_material) (AesGcm length) extractable usages)
  end.

Definition import_key_jwk (jwk : JwkObject) (extractable : bool) (usages : list KeyUsage)
    : result CryptoKey CryptoError :=
  if negb (String.eqb (kty jwk) "oct")
  then Err (DataError ("Invalid JWK kty: expected 'oct', got '" +:+ (kty jwk +:+ "'")))
  else
  match jwk_k jwk with
  | None => Err (DataError "Missing 'k' field in JWK")
  | Some k =>
      match base64url_decode k with
      | Err _ => Err (DataError "Invalid base64url encoding in JWK 'k' field")
      | Ok key_material =>
          let? length :=
            match alg jwk with
            | Some a =>
                if String.eqb a "A128GCM" then Ok 128
                else if String.eqb a "A192GCM" then Ok 192
                else if String.eqb a "A256GCM" then Ok 256
                else Err (DataError ("Unknown JWK algorithm: " +:+ a))
            | None =>
                let n := List.length key_material in
                if (n =? 16)%nat then Ok 128
                else if (n =? 24)%nat then Ok 192
                else if (n =? 32)%nat then Ok 256
                else Err (DataError ("Invalid key length: " +:+ (pretty n +:+ " bytes")))
            end in
          Ok (mkKey (AesGcmKey key_material) (AesGcm length) extractable usages)
      end
  end.

Definition export_key_jwk (key : CryptoKey) : result JwkObject CryptoError :=
  if negb (extractable key) then Err InvalidAccess
  else
  match handle key with
  | AesGcmKey key_bytes =>
      let? a :=
        match algorithm key with
        | AesGcm l =>
            if l =? 128 then Ok "A128GCM"
            else if l =? 192 then Ok "A192GCM"
            else if l =? 256 then Ok "A256GCM"
            else Err InvalidKey
        | _ => Err InvalidKey
        end in
      Ok (new_symmetric a (base64url_encode key_bytes) (extractable key) (usage_str <$> usages key))
  | _ => Err InvalidKey
  end.

(** [&AES_128_GCM] and [&AES_256_GCM] by their key bits. *)
Definition ring_algorithm (a : AlgorithmIdentifier) : result Z CryptoError :=
  match a with
  | AesGcm l =>
      if l =? 128 then Ok 128
      else if l =? 256 then Ok 256
      else if l =? 192 then Err NotSupported
      else Err (InvalidAlgorithm "Invalid AES key length")
  | _ => Err (InvalidAlgorithm "Invalid AES key length")
  end.

Definition encrypt (key : CryptoKey) (params : AesGcmParams) (plaintext : bytes) : result bytes CryptoError :=
  let? _ := validate params in
  match handle key with
  | AesGcmKey key_bytes =>
      if negb (has_usage key Encrypt) then Err InvalidAccess
      else
      let? bits := ring_algorithm (algorithm key) in
      if negb (unbound_key bits key_bytes) then Err OperationFailed
      else if negb (nonce_ok (iv params)) then Err (DataError "Invalid IV length")
      else
      match seal bits key_bytes (iv params) (default [] (additional_data params)) plaintext with
      | None => Err OperationFailed
      | Some (in_out, tag) => Ok (in_out ++ tag)
      end
  | _ => Err InvalidKey
  end.

Definition decrypt (key : CryptoKey) (params : AesGcmParams) (ciphertext : bytes) : result bytes CryptoError :=
  let? _ := validate params in
  match handle key with
  | AesGcmKey key_bytes =>
      if negb (has_usage key Decrypt) then Err InvalidAccess
      else
      let? bits := ring_algorithm (algorithm key) in
      if negb (unbound_key bits key_bytes) then Err OperationFailed
      else if negb (nonce_ok (iv params)) then Err (DataError "Invalid IV length")
      else if (length ciphertext <? tag_len)%nat then Err OperationFailed
      else
      match open_aead bits key_bytes (iv params) (default [] (additional_data params)) ciphertext with
      | None => Err OperationFailed
      | Some plaintext => Ok plaintext
      end
  | _ => Err InvalidKey
  end.

Definition generate_iv (rng : Entropy) : result bytes CryptoError :=
  match rng 12%nat with None => Err OperationFailed | Some v => Ok v end.

End aes_gcm.
End AesGcmRs.

(** ** [hmac.rs] *)

Module HmacRs.
Section hmac.
Context `{Primitives}.

Record HmacParams := mkHmacParams { hash : HashAlgorithm; length : option Z }.

Definition default_key_length (p : HmacParams) : Z :=
  match length p with
  | Some len => len
  | None => match hash p with Sha256 => 256 | Sha384 => 384 | Sha512 => 512 end
  end.

Definition validate (p : HmacParams) : result unit CryptoError :=
  let key_len := default_key_length p in
  let min_len := Z.of_nat (HashAlgorithmImpl.output_size (hash p)) * 8 in
  if key_len <? min_len
  then Err (DataError ("HMAC key length " +:+ (pretty key_len +:+ (" is less than minimum "
         +:+ (pretty min_len +:+ " bits")))))
  else Ok tt.

Definition generate_key (rng : Entropy) (hash : HashAlgorithm) (length : option Z) (extractable : bool)
    (usages : list KeyUsage) : result CryptoKey CryptoError :=
  let params := mkHmacParams hash length in
  let? _ := validate params in
  let key_bits := default_key_length params in
  let key_bytes := Z.to_nat (key_bits / 8) in
  match rng key_bytes with
  | None => Err OperationFailed
  | Some key_material => Ok (mkKey (HmacKey key_material) (Hmac hash (Some key_bits)) extractable usages)
  end.

Definition jwk_hash (a : string) : option HashAlgorithm :=
  if String.eqb a "HS256" then Some Sha256
  else if String.eqb a "HS384" then Some Sha384
  else if String.eqb a "HS512" then Some Sha512
  else None.

(** [key_material.len() * 8] is cast to [u32]. *)
Definition import_key_jwk (jwk : JwkObject) (extractable : bool) (usages : list KeyUsage)
    : result CryptoKey CryptoError :=
  if negb (String.eqb (kty jwk) "oct")
  then Err (DataError ("Invalid JWK kty: expected 'oct', got '" +:+ (kty jwk +:+ "'")))
  else
  match alg jwk ≫= jwk_hash with
  | None => Err (DataError "Missing or invalid 'alg' field in JWK for HMAC")
  | Some hash =>
      match jwk_k jwk with
      | None => Err (DataError "Missing 'k' field in JWK")
      | Some k =>
          match base64url_decode k with
          | Err _ => Err (DataError "Invalid base64url encoding in JWK 'k' field")
          | Ok key_material =>
              let min_len := HashAlgorithmImpl.output_size hash in
              if (List.length key_material <? min_len)%nat
              then Err (DataError ("HMAC key must be at least " +:+ (pretty min_len +:+ (" bytes for "
                     +:+ HashAlgorithmImpl.name hash))))
              else Ok (mkKey (HmacKey key_material)
                         (Hmac hash (Some (as_u32 (Z.of_nat (List.length key_material) * 8))))
                         extractable usages)
          end
      end
  end.

Definition export_key_jwk (key : CryptoKey) : result JwkObject CryptoError :=
  if negb (extractable key) then Err InvalidAccess
  else
  match handle key with
  | HmacKey key_bytes =>
      let? a :=
        match algorithm key with
        | Hmac Sha256 _ => Ok "HS256"
        | Hmac Sha384 _ => Ok "HS384"
        | Hmac Sha512 _ => Ok "HS512"
        | _ => Err InvalidKey
        end in
      Ok (new_symmetric a (base64url_encode key_bytes) (extractable key) (usage_str <$> usages key))
  | _ => Err InvalidKey
  end.

Definition sign (key : CryptoKey) (data : bytes) : result bytes CryptoError :=
  match algorithm key, handle key with
  | Hmac hash _, HmacKey key_bytes =>
      if negb (has_usage key Sign) then Err InvalidAccess
      else Ok (ring_hmac_sign hash key_bytes data)
  | _, _ => Err InvalidKey
  end.

Definition verify (key : CryptoKey) (data signature : bytes) : result bool CryptoError :=
  match algorithm key, handle key with
  | Hmac hash _, HmacKey key_bytes =>
      if negb (has_usage key Verify) then Err InvalidAccess
      else Ok (ring_hmac_verify hash key_bytes data signature)
  | _, _ => Err InvalidKey
  end.

End hmac.
End HmacRs.
