(* ===== verification/CryptoAsym.v ===== *)
(** * [src/runtime/crypto]: RSA, ECDSA and ECDH

    [rsa.rs] and [ecdsa.rs].  The keys of the [rsa], [p256] and [p384] crates, their
    encodings and primitives are the classes [RsaCrate] and [EcCrate].  The code spells
    out its two curves one after the other; they differ in the constants [curve_hash]
    and [coordinate_length]. *)

From stdpp Require Import base list strings pretty.
From Stdlib Require Import ZArith Lia.
From Stdlib.Strings Require Byte.
From S2P Require Import Prelude RustString CryptoKeys.

Open Scope Z_scope.

(** The crates' errors as text; a signer that fails panics, as documented. *)
Class RsaCrate := {
  RsaPriv : Type;
  RsaPub : Type;
  RsaSig : Type;
  BigUint : Type;
  from_bytes_be : bytes → BigUint;
  rsa_new_with_exp : Entropy → Z → BigUint → option RsaPriv;
  rsa_from_components : BigUint → BigUint → BigUint → option RsaPriv;
  rsa_public_new : BigUint → BigUint → option RsaPub;
  rsa_public_of : RsaPriv → RsaPub;
  rsa_to_pkcs8_der : RsaPriv → option bytes;
  rsa_from_pkcs8_der : bytes → result RsaPriv string;
  rsa_to_public_key_der : RsaPub → option bytes;
  rsa_from_public_key_der : bytes → result RsaPub string;
  oaep_encrypt : HashAlgorithm → Entropy → RsaPub → bytes → option bytes;
  oaep_decrypt : HashAlgorithm → RsaPriv → bytes → option bytes;
  pss_sign : Entropy → RsaPriv → bytes → option bytes;
  pss_parse : bytes → option RsaSig;
  pss_verify : RsaPub → bytes → RsaSig → bool;
  pkcs1v15_sign : HashAlgorithm → RsaPriv → bytes → option bytes;
  pkcs1v15_parse : HashAlgorithm → bytes → option RsaSig;
  pkcs1v15_verify : HashAlgorithm → RsaPub → bytes → RsaSig → bool;
}.

(** [serde_json::Value]: [value.get(name).and_then(as_str)] *)
Class JsonCrate := {
  Json : Type;
  json_from_slice : bytes → result Json string;
  json_str : Json → string → option string;
}.

Inductive Curve := P256 | P384.

#[global] Instance Curve_eq_dec : EqDecision Curve.
Proof. solve_decision. Defined.

Class EcCrate := {
  EcSecret : Type;
  EcPublic : Type;
  EcSig : Type;
  ec_random : Curve → Entropy → EcSecret;
  ec_from_slice : Curve → bytes → result EcSecret string;
  ec_to_sec1_der : Curve → EcSecret → option bytes;
  ec_from_sec1_der : Curve → bytes → result EcSecret string;
  ec_public_of : Curve → EcSecret → EcPublic;
  ec_from_sec1_bytes : Curve → bytes → result EcPublic string;
  ec_to_public_key_der : Curve → EcPublic → option bytes;
  ec_from_public_key_der : Curve → bytes → result EcPublic string;
  ec_sign : Curve → EcSecret → bytes → bytes;
  ec_sig_parse : Curve → bytes → option EcSig;
  ec_verify : Curve → EcPublic → bytes → EcSig → bool;
  ec_diffie_hellman : Curve → EcSecret → EcPublic → bytes;
}.

(** What the documentation promises of them: encodings are read back, decryption undoes
    encryption, a signature made with a key is accepted by its public key, and both
    sides of a key agreement get the same secret, as long as a coordinate. *)
Class RsaLaws `{RsaCrate} : Prop := {
  rsa_pkcs8_round : ∀ k b, rsa_to_pkcs8_der k = Some b → rsa_from_pkcs8_der b = Ok k;
  rsa_spki_round : ∀ k b, rsa_to_public_key_der k = Some b → rsa_from_public_key_der b = Ok k;
  oaep_round : ∀ h rng k m c, oaep_encrypt h rng (rsa_public_of k) m = Some c → oaep_decrypt h k c = Some m;
  pss_sound : ∀ rng k m s, pss_sign rng k m = Some s →
    ∃ sig, pss_parse s = Some sig ∧ pss_verify (rsa_public_of k) m sig = true;
  pkcs1v15_sound : ∀ h k m s, pkcs1v15_sign h k m = Some s →
    ∃ sig, pkcs1v15_parse h s = Some sig ∧ pkcs1v15_verify h (rsa_public_of k) m sig = true;
}.

Definition coordinate_length (c : Curve) : nat := match c with P256 => 32 | P384 => 48 end.

Class EcLaws `{EcCrate} : Prop := {
  ec_sec1_round : ∀ c k b, ec_to_sec1_der c k = Some b → ec_from_sec1_der c b = Ok k;
  ec_spki_round : ∀ c k b, ec_to_public_key_der c k = Some b → ec_from_public_key_der c b = Ok k;
  ec_sign_sound : ∀ c k m, ∃ sig, ec_sig_parse c (ec_sign c k m) = Some sig ∧ ec_verify c (ec_public_of c k) m sig = true;
  ec_dh_agree : ∀ c k1 k2, ec_diffie_hellman c k1 (ec_public_of c k2) = ec_diffie_hellman c k2 (ec_public_of c k1);
  ec_dh_length : ∀ c k p, length (ec_diffie_hellman c k p) = coordinate_length c;
}.

Definition ok_or {A E} (o : option A) (e : E) : result A E := match o with Some a => Ok a | None => Err e end.
Definition map_err {A E E'} (f : E → E') (r : result A E) : result A E' :=
  match r with Ok a => Ok a | Err e => Err (f e) end.

(** [base64_decode_url_safe], the same function in both files *)
Definition base64_decode_url_safe `{Primitives} (input : string) : result bytes CryptoError :=
  map_err (λ e, DataError ("Base64 decode error: " +:+ e)) (base64url_decode input).

(** ** [rsa.rs] *)

Module RsaRs.
Section rsa.
Context `{Primitives} `{RsaCrate} `{JsonCrate}.

Record RsaOaepParams := mkOaep { hash : string; label : option bytes }.
Record RsaPssParams := mkPss { salt_length : Z }.

Definition alg_id (a : string) : result AlgorithmIdentifier CryptoError :=
  if String.eqb a "RSA-OAEP" then Ok (RsaOaep Sha256)
  else if String.eqb a "RSA-PSS" then Ok (RsaPss Sha256 None)
  else if String.eqb a "RSASSA-PKCS1-v1_5" then Ok (RsaSsaPkcs1V1_5 Sha256)
  else Err (InvalidAlgorithm a).

Definition generate_key (rng : Entropy) (modulus_length : Z) (public_exponent : bytes) (a : string)
    (extractable : bool) (usages : list KeyUsage) : result CryptoKey CryptoError :=
  if modulus_length <? 256 then Err (DataError "RSA modulus length must be at least 256")
  else
  let exp := from_bytes_be public_exponent in
  let? private_key := ok_or (rsa_new_with_exp rng modulus_length exp) OperationFailed in
  let? private_key_bytes := ok_or (rsa_to_pkcs8_der private_key) OperationFailed in
  let? id := alg_id a in
  Ok (new_rsa_private id private_key_bytes extractable usages).

Definition import_spki (id : AlgorithmIdentifier) (key_data : bytes) (extractable : bool) (usages : list KeyUsage)
    : result CryptoKey CryptoError :=
  let? public_key := map_err (λ e, DataError ("Failed to parse SPKI: " +:+ e)) (rsa_from_public_key_der key_data) in
  let? public_key_bytes := ok_or (rsa_to_public_key_der public_key) OperationFailed in
  Ok (new_rsa_public id public_key_bytes extractable usages).

Definition import_jwk (id : AlgorithmIdentifier) (key_data : bytes) (extractable : bool) (usages : list KeyUsage)
    : result CryptoKey CryptoError :=
  let? jwk := map_err (λ e, DataError ("Invalid JWK: " +:+ e)) (json_from_slice key_data) in
  let? n := ok_or (json_str jwk "n") (DataError "Missing 'n' in JWK") in
  let? e := ok_or (json_str jwk "e") (DataError "Missing 'e' in JWK") in
  let? n_bytes := base64_decode_url_safe n in
  let? e_bytes := base64_decode_url_safe e in
  let modulus := from_bytes_be n_bytes in
  let exponent := from_bytes_be e_bytes in
  match json_str jwk "d" with
  | Some d =>
      let? d_bytes := base64_decode_url_safe d in
      let? private_key := ok_or (rsa_from_components modulus exponent (from_bytes_be d_bytes)) OperationFailed in
      let? private_key_bytes := ok_or (rsa_to_pkcs8_der private_key) OperationFailed in
      Ok (new_rsa_private id private_key_bytes extractable usages)
  | None =>
      let? public_key := ok_or (rsa_public_new modulus exponent) OperationFailed in
      let? public_key_bytes := ok_or (rsa_to_public_key_der public_key) OperationFailed in
      Ok (new_rsa_public id public_key_bytes extractable usages)
  end.

Definition import_key (format : string) (key_data : bytes) (a : string) (extractable : bool)
    (usages : list KeyUsage) : result CryptoKey CryptoError :=
  let? id := alg_id a in
  if String.eqb format "pkcs8" then Ok (new_rsa_private id key_data extractable usages)
  else if String.eqb format "spki" then import_spki id key_data extractable usages
  else if String.eqb format "jwk" then import_jwk id key_data extractable usages
  else Err NotSupported.

Definition export_key (format : string) (key : CryptoKey) : result bytes CryptoError :=
  if negb (extractable key) then Err InvalidAccess else Err NotSupported.

Definition get_private_key (key : CryptoKey) : result RsaPriv CryptoError :=
  match handle key with
  | CryptoKeys.RsaPrivateKey b =>
      map_err (λ e, DataError ("Failed to parse RSA private key: " +:+ e)) (rsa_from_pkcs8_der b)
  | _ => Err InvalidKey
  end.

Definition get_public_key (key : CryptoKey) : result RsaPub CryptoError :=
  match handle key with
  | CryptoKeys.RsaPublicKey b =>
      map_err (λ e, DataError ("Failed to parse RSA public key: " +:+ e)) (rsa_from_public_key_der b)
  | CryptoKeys.RsaPrivateKey _ => let? private_key := get_private_key key in Ok (rsa_public_of private_key)
  | _ => Err InvalidKey
  end.

(** The digest of [Oaep::new::<_>()] by the name in the parameters. *)
Definition oaep_hash (params : RsaOaepParams) : result HashAlgorithm CryptoError :=
  ok_or (HashAlgorithmImpl.from_name (hash params)) (InvalidAlgorithm (hash params)).

Definition encrypt (rng : Entropy) (key : CryptoKey) (data : bytes) (params : RsaOaepParams)
    : result bytes CryptoError :=
  let? public_key := get_public_key key in
  let? h := oaep_hash params in
  ok_or (oaep_encrypt h rng public_key data) OperationFailed.

Definition decrypt (key : CryptoKey) (data : bytes) (params : RsaOaepParams) : result bytes CryptoError :=
  let? private_key := get_private_key key in
  let? h := oaep_hash params in
  ok_or (oaep_decrypt h private_key data) OperationFailed.

Definition key_hash (key : CryptoKey) : HashAlgorithm :=
  match algorithm key with RsaSsaPkcs1V1_5 h => h | _ => Sha256 end.

(** [sign] and [sign_with_rng] panic when signing fails.  The salt length is read and
    not used. *)
Definition expect_signature (o : option bytes) : outcome (result bytes CryptoError) :=
  match o with Some s => Done (Ok s) | None => Panicked "signature operation failed" end.

Definition sign (rng : Entropy) (key : CryptoKey) (data : bytes) (a : string) (params : option RsaPssParams)
    : outcome (result bytes CryptoError) :=
  match get_private_key key with
  | Err e => Done (Err e)
  | Ok private_key =>
      if String.eqb a "RSA-PSS" then expect_signature (pss_sign rng private_key data)
      else if String.eqb a "RSASSA-PKCS1-v1_5" then
        expect_signature (pkcs1v15_sign (key_hash key) private_key data)
      else Done (Err (InvalidAlgorithm a))
  end.

Definition verify (key : CryptoKey) (signature data : bytes) (a : string) (params : option RsaPssParams)
    : result bool CryptoError :=
  let? public_key := get_public_key key in
  if String.eqb a "RSA-PSS" then
    let? sig := ok_or (pss_parse signature) (DataError "Invalid signature") in
    Ok (pss_verify public_key data sig)
  else if String.eqb a "RSASSA-PKCS1-v1_5" then
    let h := key_hash key in
    let? sig := ok_or (pkcs1v15_parse h signature) (DataError "Invalid signature") in
    Ok (pkcs1v15_verify h public_key data sig)
  else Err (InvalidAlgorithm a).

End rsa.
End RsaRs.

(** ** [ecdsa.rs] *)

Module EcdsaRs.
Section ecdsa.
Context `{Primitives} `{EcCrate} `{JsonCrate}.

Record EcdsaParams := mkEcdsa { named_curve : string; hash : HashAlgorithm }.

Definition curve_of (s : string) : option Curve :=
  if String.eqb s "P-256" then Some P256 else if String.eqb s "P-384" then Some P384 else None.
Definition curve_name (c : Curve) : string := match c with P256 => "P-256" | P384 => "P-384" end.
Definition curve_hash (c : Curve) : HashAlgorithm := match c with P256 => Sha256 | P384 => Sha384 end.

Definition ec_alg (c : Curve) (a : string) : AlgorithmIdentifier :=
  if String.eqb a "ECDH" then Ecdh (curve_name c) else Ecdsa (curve_name c) (curve_hash c).

Definition unsupported (s : string) : CryptoError := InvalidAlgorithm ("Unsupported named curve: " +:+ s).

Definition generate_key (rng : Entropy) (named_curve a : string) (extractable : bool) (usages : list KeyUsage)
    : result CryptoKey CryptoError :=
  match curve_of named_curve with
  | Some c =>
      let? private_key_bytes := ok_or (ec_to_sec1_der c (ec_random c rng)) OperationFailed in
      Ok (new_ecdsa_private (ec_alg c a) private_key_bytes extractable usages)
  | None => Err (unsupported named_curve)
  end.

Definition import_pkcs8 (key_data : bytes) (a named_curve : string) (extractable : bool) (usages : list KeyUsage)
    : result CryptoKey CryptoError :=
  match curve_of named_curve with
  | Some c =>
      let? _ := map_err (λ e, DataError ("Failed to parse SEC1 key: " +:+ e)) (ec_from_sec1_der c key_data) in
      Ok (new_ecdsa_private (ec_alg c a) key_data extractable usages)
  | None => Err (unsupported named_curve)
  end.

Definition import_spki (key_data : bytes) (a named_curve : string) (extractable : bool) (usages : list KeyUsage)
    : result CryptoKey CryptoError :=
  match curve_of named_curve with
  | Some c =>
      let? public_key :=
        map_err (λ e, DataError ("Failed to parse SPKI key: " +:+ e)) (ec_from_public_key_der c key_data) in
      let? spki_bytes := ok_or (ec_to_public_key_der c public_key) OperationFailed in
      Ok (new_ecdsa_public (ec_alg c a) spki_bytes extractable usages)
  | None => Err (unsupported named_curve)
  end.

Definition import_jwk (key_data : bytes) (a named_curve : string) (extractable : bool) (usages : list KeyUsage)
    : result CryptoKey CryptoError :=
  let? jwk := map_err (λ e, DataError ("Invalid JWK: " +:+ e)) (json_from_slice key_data) in
  let? crv := ok_or (json_str jwk "crv") (DataError "Missing 'crv' in JWK") in
  if negb (String.eqb crv named_curve) then
    Err (DataError ("JWK curve '" +:+ (crv +:+ ("' does not match expected '" +:+ (named_curve +:+ "'")))))
  else
  let? x := ok_or (json_str jwk "x") (DataError "Missing 'x' in JWK") in
  let? y := ok_or (json_str jwk "y") (DataError "Missing 'y' in JWK") in
  let? x_bytes := base64_decode_url_safe x in
  let? y_bytes := base64_decode_url_safe y in
  match curve_of named_curve with
  | None => Err (unsupported named_curve)
  | Some c =>
      if negb (length x_bytes =? coordinate_length c)%nat || negb (length y_bytes =? coordinate_length c)%nat
      then Err (DataError ("Invalid " +:+ (curve_name c +:+ " JWK coordinate length")))
      else
      let? public_key :=
        map_err (λ e, DataError ("Invalid JWK public key: " +:+ e))
          (ec_from_sec1_bytes c (Byte.x04 :: x_bytes ++ y_bytes)) in
      let? spki_bytes := ok_or (ec_to_public_key_der c public_key) OperationFailed in
      match json_str jwk "d" with
      | Some d =>
          let? d_bytes := base64_decode_url_safe d in
          if negb (length d_bytes =? coordinate_length c)%nat
          then Err (DataError ("Invalid " +:+ (curve_name c +:+ " JWK private key length")))
          else
          let? secret_key := map_err (λ e, DataError ("Invalid JWK private key: " +:+ e)) (ec_from_slice c d_bytes) in
          let? private_key_bytes := ok_or (ec_to_sec1_der c secret_key) OperationFailed in
          Ok (new_ecdsa_private (ec_alg c a) private_key_bytes extractable usages)
      | None => Ok (new_ecdsa_public (ec_alg c a) spki_bytes extractable usages)
      end
  end.

Definition import_key (format : string) (key_data : bytes) (a named_curve : string) (extractable : bool)
    (usages : list KeyUsage) : result CryptoKey CryptoError :=
  if String.eqb format "pkcs8" then import_pkcs8 key_data a named_curve extractable usages
  else if String.eqb format "spki" then import_spki key_data a named_curve extractable usages
  else if String.eqb format "jwk" then import_jwk key_data a named_curve extractable usages
  else Err NotSupported.

Definition private_bytes (key : CryptoKey) : result bytes CryptoError :=
  match handle key with CryptoKeys.EcdsaPrivateKey b => Ok b | _ => Err InvalidKey end.

Definition sign (key : CryptoKey) (data : bytes) (params : EcdsaParams) : result bytes CryptoError :=
  let? private_key_bytes := private_bytes key in
  match curve_of (named_curve params) with
  | Some c =>
      let? secret_key := map_err (λ _, InvalidKey) (ec_from_sec1_der c private_key_bytes) in
      Ok (ec_sign c secret_key data)
  | None => Err (InvalidAlgorithm (named_curve params))
  end.

Definition verify (key : CryptoKey) (signature data : bytes) (params : EcdsaParams) : result bool CryptoError :=
  let? private_key_bytes := private_bytes key in
  match curve_of (named_curve params) with
  | Some c =>
      let? secret_key := map_err (λ _, InvalidKey) (ec_from_sec1_der c private_key_bytes) in
      let? sig := ok_or (ec_sig_parse c signature) (DataError "Invalid signature") in
      Ok (ec_verify c (ec_public_of c secret_key) data sig)
  | None => Err (InvalidAlgorithm (named_curve params))
  end.

(** The secret, or its first bytes when a number of bits below its size is asked for. *)
Definition truncate_secret (length : option Z) (shared_secret : bytes) : bytes :=
  match length with
  | Some len =>
      if (len >? 0) && (len <? Z.of_nat (List.length shared_secret) * 8)
      then take (Z.to_nat ((len + 7) / 8)) shared_secret
      else shared_secret
  | None => shared_secret
  end.

Definition derive_bits (private_key public_key : CryptoKey) (length : option Z) : result bytes CryptoError :=
  let? priv_bytes := private_bytes private_key in
  let? pub_bytes :=
    match handle public_key with CryptoKeys.EcdsaPublicKey b => Ok b | _ => Err InvalidKey end in
  let? named_curve :=
    match algorithm private_key with
    | Ecdh nc | Ecdsa nc _ => Ok nc
    | _ => Err (InvalidAlgorithm "ECDH key required")
    end in
  match curve_of named_curve with
  | Some c =>
      let? secret_key :=
        map_err (λ _, DataError ("Invalid " +:+ (curve_name c +:+ " private key"))) (ec_from_sec1_der c priv_bytes) in
      let? public :=
        map_err (λ _, DataError ("Invalid " +:+ (curve_name c +:+ " public key"))) (ec_from_public_key_der c pub_bytes) in
      Ok (truncate_secret length (ec_diffie_hellman c secret_key public))
  | None => Err (InvalidAlgorithm ("Unsupported curve for ECDH: " +:+ named_curve))
  end.

End ecdsa.
End EcdsaRs.
