(* ===== verification/Subtle.v ===== *)
(** * [src/runtime/crypto/subtle.rs]: [SubtleCrypto]

    The functions that choose the algorithm of a key, wrapping and derivation of keys,
    and what holds of all of them: which usages are enforced, that exported keys can be
    imported again, that decryption undoes encryption, what a key that must not be
    extracted still gives away. *)

From stdpp Require Import base list strings pretty countable.
From Stdlib Require Import ZArith Lia.
From Stdlib.Strings Require Byte.
From S2P Require Import Prelude RustString CryptoKeys CryptoAsym.

Open Scope Z_scope.

Section subtle.
Context `{Primitives} `{RsaCrate} `{JsonCrate} `{EcCrate}.

(** 65537, big endian *)
Definition public_exponent : bytes := [Byte.x01; Byte.x00; Byte.x01].

Definition generate_key (rng : Entropy) (a : AlgorithmIdentifier) (extractable : bool) (usages : list KeyUsage)
    : result CryptoKey CryptoError :=
  match a with
  | AesGcm length => AesGcmRs.generate_key rng length extractable usages
  | Hmac hash length => HmacRs.generate_key rng hash length extractable usages
  | RsaOaep _ => RsaRs.generate_key rng 2048 public_exponent "RSA-OAEP" extractable usages
  | RsaPss _ _ => RsaRs.generate_key rng 2048 public_exponent "RSA-PSS" extractable usages
  | RsaSsaPkcs1V1_5 _ => RsaRs.generate_key rng 2048 public_exponent "RSASSA-PKCS1-v1_5" extractable usages
  | Ecdsa named_curve _ => EcdsaRs.generate_key rng named_curve "ECDSA" extractable usages
  | Ecdh named_curve => EcdsaRs.generate_key rng named_curve "ECDH" extractable usages
  end.

Definition import_key (format : string) (key_data : bytes) (a : AlgorithmIdentifier) (extractable : bool)
    (usages : list KeyUsage) : result CryptoKey CryptoError :=
  match a with
  | AesGcm _ =>
      if String.eqb format "jwk" then
        let? jwk := from_slice key_data in AesGcmRs.import_key_jwk jwk extractable usages
      else Err NotSupported
  | Hmac _ _ =>
      if String.eqb format "jwk" then
        let? jwk := from_slice key_data in HmacRs.import_key_jwk jwk extractable usages
      else Err NotSupported
  | RsaOaep _ => RsaRs.import_key format key_data "RSA-OAEP" extractable usages
  | RsaPss _ _ => RsaRs.import_key format key_data "RSA-PSS" extractable usages
  | RsaSsaPkcs1V1_5 _ => RsaRs.import_key format key_data "RSASSA-PKCS1-v1_5" extractable usages
  | Ecdsa named_curve _ => EcdsaRs.import_key format key_data "ECDSA" named_curve extractable usages
  | Ecdh named_curve => EcdsaRs.import_key format key_data "ECDH" named_curve extractable usages
  end.

Definition export_key (format : string) (key : CryptoKey) : result bytes CryptoError :=
  if negb (extractable key) then Err InvalidAccess
  else if negb (String.eqb format "jwk") then Err NotSupported
  else
  let? jwk :=
    match algorithm key with
    | AesGcm _ => AesGcmRs.export_key_jwk key
    | Hmac _ _ => HmacRs.export_key_jwk key
    | _ => Err NotSupported
    end in
  map_err (λ e, DataError ("JWK serialization failed: " +:+ e)) (jwk_to_vec jwk).

(** [iv.map(to_vec).unwrap_or_else(|| generate_iv().expect(..))] *)
Definition iv_or_random (rng : Entropy) (iv : option bytes) : outcome bytes :=
  match iv with
  | Some v => Done v
  | None => match AesGcmRs.generate_iv rng with Ok v => Done v | Err _ => Panicked "Failed to generate IV" end
  end.

Definition not_supported (what : string) (key : CryptoKey) : CryptoError :=
  InvalidAlgorithm (what +:+ (" not supported for " +:+ name (algorithm key))).

Definition encrypt (rng : Entropy) (key : CryptoKey) (data : bytes) (iv additional_data : option bytes)
    : outcome (result bytes CryptoError) :=
  match algorithm key with
  | AesGcm _ =>
      let! iv := iv_or_random rng iv in
      Done (AesGcmRs.encrypt key (AesGcmRs.mkParams iv additional_data 128) data)
  | RsaOaep hash =>
      Done (RsaRs.encrypt rng key data (RsaRs.mkOaep (HashAlgorithmImpl.name hash) None))
  | _ => Done (Err (not_supported "Encryption" key))
  end.

Definition decrypt (key : CryptoKey) (data : bytes) (iv additional_data : option bytes)
    : result bytes CryptoError :=
  match algorithm key with
  | AesGcm _ =>
      let? iv := ok_or iv (DataError "IV is required for AES-GCM decryption") in
      AesGcmRs.decrypt key (AesGcmRs.mkParams iv additional_data 128) data
  | RsaOaep hash => RsaRs.decrypt key data (RsaRs.mkOaep (HashAlgorithmImpl.name hash) None)
  | _ => Err (not_supported "Decryption" key)
  end.

Definition sign (rng : Entropy) (key : CryptoKey) (data : bytes) : outcome (result bytes CryptoError) :=
  match algorithm key with
  | Hmac _ _ => Done (HmacRs.sign key data)
  | RsaPss _ _ => RsaRs.sign rng key data "RSA-PSS" (Some (RsaRs.mkPss 32))
  | RsaSsaPkcs1V1_5 _ => RsaRs.sign rng key data "RSASSA-PKCS1-v1_5" None
  | Ecdsa named_curve hash => Done (EcdsaRs.sign key data (EcdsaRs.mkEcdsa named_curve hash))
  | _ => Done (Err (not_supported "Signing" key))
  end.

Definition verify (key : CryptoKey) (signature data : bytes) : result bool CryptoError :=
  match algorithm key with
  | Hmac _ _ => HmacRs.verify key data signature
  | RsaPss _ _ => RsaRs.verify key signature data "RSA-PSS" (Some (RsaRs.mkPss 32))
  | RsaSsaPkcs1V1_5 _ => RsaRs.verify key signature data "RSASSA-PKCS1-v1_5" None
  | Ecdsa named_curve hash => EcdsaRs.verify key signature data (EcdsaRs.mkEcdsa named_curve hash)
  | _ => Err (not_supported "Verification" key)
  end.

(** [to_uppercase] on the names that matter is ASCII. *)
Definition digest_hash (normalized : string) : option HashAlgorithm :=
  if String.eqb normalized "SHA-256" || String.eqb normalized "SHA256" then Some Sha256
  else if String.eqb normalized "SHA-384" || String.eqb normalized "SHA384" then Some Sha384
  else if String.eqb normalized "SHA-512" || String.eqb normalized "SHA512" then Some Sha512
  else None.

Definition digest (to_uppercase : string → string) (a : string) (data : bytes) : result bytes CryptoError :=
  match digest_hash (to_uppercase a) with
  | Some h => Ok (sha2 h data)
  | None => Err (InvalidAlgorithm ("Digest algorithm: " +:+ a))
  end.

Definition curve_name_of (a : AlgorithmIdentifier) : option string :=
  match a with Ecdh nc | Ecdsa nc _ => Some nc | _ => None end.

Definition derive_bits (base_key public_key : CryptoKey) (length : option Z) : result bytes CryptoError :=
  match curve_name_of (algorithm base_key), curve_name_of (algorithm public_key) with
  | Some nc1, Some nc2 =>
      if negb (String.eqb nc1 nc2) then Err (InvalidAlgorithm "Curve mismatch in ECDH key agreement")
      else EcdsaRs.derive_bits base_key public_key length
  | _, _ => Err (InvalidAlgorithm "deriveBits only supports ECDH")
  end.

(** [derived_key_length] is a [u16]. *)
Definition derive_key (base_key public_key : CryptoKey) (derived_key_length : Z) (extractable : bool)
    (usages : list KeyUsage) : result CryptoKey CryptoError :=
  let? bits := derive_bits base_key public_key (Some (derived_key_length / 8)) in
  if Z.of_nat (length bits) <? derived_key_length / 8 then Err OperationFailed
  else
  let key_material := take (Z.to_nat (derived_key_length / 8)) bits in
  Ok (mkKey (AesGcmKey key_material) (AesGcm derived_key_length) extractable usages).

Definition wrap_key (rng : Entropy) (format : string) (key wrapping_key : CryptoKey) (iv : option bytes)
    : outcome (result bytes CryptoError) :=
  let key_bytes :=
    if String.eqb format "raw" then
      match handle key with
      | AesGcmKey b => Ok b
      | HmacKey b => Ok b
      | _ => Err InvalidKey
      end
    else if String.eqb format "jwk" then export_key format key
    else Err NotSupported in
  match key_bytes with
  | Err e => Done (Err e)
  | Ok key_bytes =>
      let! iv := iv_or_random rng iv in
      Done (AesGcmRs.encrypt wrapping_key (AesGcmRs.mkParams iv None 128) key_bytes)
  end.

Definition hmac_alg (h : HashAlgorithm) : string :=
  match h with Sha256 => "HS256" | Sha384 => "HS384" | Sha512 => "HS512" end.

Definition unwrap_key (format : string) (wrapped_key : bytes) (unwrapping_key : CryptoKey)
    (a : AlgorithmIdentifier) (extractable : bool) (usages : list KeyUsage) (iv : option bytes)
    : result CryptoKey CryptoError :=
  let? iv := ok_or iv (DataError "IV is required for AES-GCM unwrap") in
  let? decrypted := AesGcmRs.decrypt unwrapping_key (AesGcmRs.mkParams iv None 128) wrapped_key in
  match a with
  | AesGcm _ =>
      if String.eqb format "raw" then
        AesGcmRs.import_key_jwk
          (new_symmetric "A256GCM" (base64url_encode decrypted) extractable (usage_str <$> usages))
          extractable usages
      else import_key format decrypted a extractable usages
  | Hmac hash _ =>
      if String.eqb format "raw" then
        HmacRs.import_key_jwk
          (new_symmetric (hmac_alg hash) (base64url_encode decrypted) extractable (usage_str <$> usages))
          extractable usages
      else import_key format decrypted a extractable usages
  | _ => import_key format decrypted a extractable usages
  end.

End subtle.

(** ** Usages *)

Section usages.
Context `{Primitives} `{RsaCrate} `{JsonCrate} `{EcCrate}.

Definition symmetric (a : AlgorithmIdentifier) : bool :=
  match a with AesGcm _ | Hmac _ _ => true | _ => false end.

Lemma has_usage_spec k u : has_usage k u = true ↔ u ∈ usages k.
Proof. unfold has_usage. apply bool_decide_eq_true. Qed.

Lemma aes_encrypt_usage key params data c :
  AesGcmRs.encrypt key params data = Ok c → Encrypt ∈ usages key.
Proof.
  unfold AesGcmRs.encrypt. destruct (AesGcmRs.validate params); simpl; [|done].
  destruct (handle key); try done. destruct (has_usage key Encrypt) eqn:Hu; simpl; [|done].
  intros _. by apply has_usage_spec.
Qed.

Lemma aes_decrypt_usage key params data p :
  AesGcmRs.decrypt key params data = Ok p → Decrypt ∈ usages key.
Proof.
  unfold AesGcmRs.decrypt. destruct (AesGcmRs.validate params); simpl; [|done].
  destruct (handle key); try done. destruct (has_usage key Decrypt) eqn:Hu; simpl; [|done].
  intros _. by apply has_usage_spec.
Qed.

Lemma hmac_sign_usage key data s : HmacRs.sign key data = Ok s → Sign ∈ usages key.
Proof.
  unfold HmacRs.sign. destruct (algorithm key), (handle key); try done.
  destruct (has_usage key Sign) eqn:Hu; simpl; [|done]. intros _. by apply has_usage_spec.
Qed.

Lemma hmac_verify_usage key data s b : HmacRs.verify key data s = Ok b → Verify ∈ usages key.
Proof.
  unfold HmacRs.verify. destruct (algorithm key), (handle key); try done.
  destruct (has_usage key Verify) eqn:Hu; simpl; [|done]. intros _. by apply has_usage_spec.
Qed.

(** The same key with other usages. *)
Definition with_usages (us : list KeyUsage) (k : CryptoKey) : CryptoKey :=
  mkKey (handle k) (algorithm k) (extractable k) us.

(** The usages of a key decide what it can do exactly when it is symmetric.  An
    AES-GCM or HMAC key encrypts, decrypts, signs and verifies only with that usage; so
    does the key that wraps or unwraps another, for which the usages needed are encrypt
    and decrypt and not wrapKey and unwrapKey.  For RSA and elliptic-curve keys, and for
    derivation, the usages make no difference at all. *)
Theorem usages_enforced rng key us :
  (symmetric (algorithm key) = true →
     (∀ data iv aad c, encrypt rng key data iv aad = Done (Ok c) → Encrypt ∈ usages key) ∧
     (∀ data iv aad p, decrypt key data iv aad = Ok p → Decrypt ∈ usages key) ∧
     (∀ data s, sign rng key data = Done (Ok s) → Sign ∈ usages key) ∧
     (∀ data s b, verify key s data = Ok b → Verify ∈ usages key)) ∧
  (∀ format k iv c, wrap_key rng format k key iv = Done (Ok c) → Encrypt ∈ usages key) ∧
  (∀ format w a ext us' iv k, unwrap_key format w key a ext us' iv = Ok k → Decrypt ∈ usages key) ∧
  (symmetric (algorithm key) = false →
     (∀ data iv aad, encrypt rng (with_usages us key) data iv aad = encrypt rng key data iv aad) ∧
     (∀ data iv aad, decrypt (with_usages us key) data iv aad = decrypt key data iv aad) ∧
     (∀ data, sign rng (with_usages us key) data = sign rng key data) ∧
     (∀ data s, verify (with_usages us key) s data = verify key s data)) ∧
  (∀ peer l, derive_bits (with_usages us key) peer l = derive_bits key peer l) ∧
  (∀ peer l ext us', derive_key (with_usages us key) peer l ext us' = derive_key key peer l ext us').
Proof.
  split; [|split; [|split; [|split; [|split; [done|done]]]]].
  - intros Hsym. unfold encrypt, decrypt, sign, verify.
    destruct (algorithm key) eqn:Ha; try done; repeat split; intros *; try done.
    + destruct (iv_or_random rng iv); simpl; [|done]. intros [= He]. by eapply aes_encrypt_usage.
    + destruct iv; simpl; [|done]. apply aes_decrypt_usage.
    + intros [= He]. by eapply hmac_sign_usage.
    + apply hmac_verify_usage.
  - intros format k iv c. unfold wrap_key.
    destruct (if String.eqb format "raw" then _ else _); [|done].
    destruct (iv_or_random rng iv); simpl; [|done]. intros [= He]. by eapply aes_encrypt_usage.
  - intros format w a ext us' iv k. unfold unwrap_key. destruct iv as [v|]; simpl; [|done].
    destruct (AesGcmRs.decrypt _ _ _) eqn:Hd; simpl; [|done]. intros _. by eapply aes_decrypt_usage.
  - intros Hsym. unfold encrypt, decrypt, sign, verify. simpl.
    destruct (algorithm key); try done; repeat split; intros *; done.
Qed.

End usages.

(** ** Round trips *)

Section laws.
Context `{PrimitiveLaws} `{RsaCrate} `{JsonCrate} `{EcCrate}.

(** The longest plaintext of AES-GCM. *)
Definition MAX_PLAINTEXT : Z := 68719476704.

Lemma aes_round_trip kb l iv aad data key :
  handle key = AesGcmKey kb → algorithm key = AesGcm l → l = 128 ∨ l = 256 →
  Z.of_nat (length kb) * 8 = l → Encrypt ∈ usages key → length iv = 12%nat →
  Z.of_nat (length data) <= MAX_PLAINTEXT →
  ∃ c, AesGcmRs.encrypt key (AesGcmRs.mkParams iv aad 128) data = Ok c ∧
    ∀ key', handle key' = AesGcmKey kb → algorithm key' = AesGcm l → Decrypt ∈ usages key' →
      AesGcmRs.decrypt key' (AesGcmRs.mkParams iv aad 128) c = Ok data.
Proof.
  intros Hh Ha Hl Hkb Hu Hiv Hd.
  pose proof (proj2 (unbound_key_iff l kb Hl) Hkb) as Hub. pose proof (proj2 (nonce_ok_iff iv) Hiv) as Hn.
  destruct (seal_small l kb iv (default [] aad) data Hub Hn Hd) as [[c t] Hs].
  destruct (open_seal _ _ _ _ _ _ _ Hs) as [Ht Ho].
  assert (Hring : AesGcmRs.ring_algorithm (AesGcm l) = Ok l) by (by destruct Hl as [->| ->]).
  exists (c ++ t). unfold AesGcmRs.encrypt, AesGcmRs.decrypt. simpl. rewrite Hh, Ha, Hring.
  rewrite (proj2 (has_usage_spec key Encrypt) Hu). simpl. rewrite Hub, Hn. simpl. rewrite Hs.
  split; [done|]. intros key' Hh' Ha' Hu'. rewrite Hh', Ha', Hring.
  rewrite (proj2 (has_usage_spec key' Decrypt) Hu'). simpl. rewrite ?Hub, ?Hn. simpl.
  rewrite (proj2 (Nat.ltb_ge _ _)) by (rewrite length_app; lia). by rewrite Ho.
Qed.

Lemma aes_generated rng l ext us key : lawful_entropy rng →
  AesGcmRs.generate_key rng l ext us = Ok key →
  ∃ kb, key = mkKey (AesGcmKey kb) (AesGcm l) ext us ∧ Z.of_nat (length kb) * 8 = l ∧
    (l = 128 ∨ l = 192 ∨ l = 256).
Proof.
  intros Hrng. unfold AesGcmRs.generate_key.
  destruct (Z.eqb_spec l 128) as [->|]; [|destruct (Z.eqb_spec l 192) as [->|]; [|destruct (Z.eqb_spec l 256) as [->|]]];
    cbn [result_bind]; try done;
    (destruct (rng _) as [kb|] eqn:Hr; [|done]); intros [= <-]; exists kb; pose proof (Hrng _ _ Hr);
    (split; [done|]); (split; [lia|]); tauto.
Qed.

Lemma hmac_generated rng h l ext us key : lawful_entropy rng →
  HmacRs.generate_key rng h l ext us = Ok key →
  let bits := default (Z.of_nat (HashAlgorithmImpl.output_size h) * 8) l in
  ∃ kb, key = mkKey (HmacKey kb) (Hmac h (Some bits)) ext us ∧ Z.of_nat (length kb) = bits / 8 ∧
    Z.of_nat (HashAlgorithmImpl.output_size h) * 8 <= bits.
Proof.
  intros Hrng. unfold HmacRs.generate_key, HmacRs.validate.
  set (bits := HmacRs.default_key_length _).
  assert (Hb : bits = default (Z.of_nat (HashAlgorithmImpl.output_size h) * 8) l).
  { unfold bits, HmacRs.default_key_length. simpl. destruct l; [done|by destruct h]. }
  simpl. destruct (Z.ltb_spec bits (Z.of_nat (HashAlgorithmImpl.output_size h) * 8)) as [|Hle]; cbn [result_bind]; [done|].
  destruct (rng _) as [kb|] eqn:Hr; [|done]. intros [= <-]. rewrite <- Hb. exists kb.
  split; [done|]. pose proof (Hrng _ _ Hr) as ->. split; [|lia]. rewrite Z2Nat.id; [done|].
  apply Z.div_pos; lia.
Qed.

(** What is encrypted is decrypted: with a generated AES-GCM key of 128 or 256 bits
    that has both usages, a nonce of 12 bytes and any additional data, encryption
    succeeds and decryption gives the data back.  A key of 192 bits is generated as well,
    but nothing can be done with it: encryption and decryption are refused. *)
Theorem aes_gcm_round_trip rng rng2 l ext us key data iv aad
    (Hrng : lawful_entropy rng) (Hgen : generate_key rng (AesGcm l) ext us = Ok key)
    (Henc : Encrypt ∈ us) (Hdec : Decrypt ∈ us)
    (Hiv : length iv = 12%nat) (Hlen : Z.of_nat (length data) <= MAX_PLAINTEXT) :
  if l =? 192 then
    encrypt rng2 key data (Some iv) aad = Done (Err NotSupported) ∧
    ∀ c, decrypt key c (Some iv) aad = Err NotSupported
  else
    ∃ c, encrypt rng2 key data (Some iv) aad = Done (Ok c) ∧ decrypt key c (Some iv) aad = Ok data.
Proof.
  destruct (aes_generated _ _ _ _ _ Hrng Hgen) as (kb & -> & Hkb & Hl).
  destruct (Z.eqb_spec l 192) as [->|Hne].
  - unfold encrypt, decrypt, AesGcmRs.encrypt, AesGcmRs.decrypt. simpl.
    rewrite (proj2 (has_usage_spec (mkKey (AesGcmKey kb) (AesGcm 192) ext us) Encrypt) Henc).
    by rewrite (proj2 (has_usage_spec (mkKey (AesGcmKey kb) (AesGcm 192) ext us) Decrypt) Hdec).
  - destruct (aes_round_trip kb l iv aad data (mkKey (AesGcmKey kb) (AesGcm l) ext us)) as (c & Hc & Hd);
      [done|done|lia|done|done|done|done|].
    exists c. unfold encrypt, decrypt. simpl. rewrite Hc. split; [done|]. by apply Hd.
Qed.

(** The key as exporting and importing it again gives it. *)
Lemma hmac_import_export ext us h kb n key v : HmacRs.export_key_jwk key = Ok v →
  handle key = HmacKey kb → algorithm key = Hmac h n → (HashAlgorithmImpl.output_size h <= length kb)%nat →
  HmacRs.import_key_jwk v ext us =
    Ok (mkKey (HmacKey kb) (Hmac h (Some (as_u32 (Z.of_nat (length kb) * 8)))) ext us).
Proof.
  unfold HmacRs.export_key_jwk. destruct (extractable key); simpl; [|done]. intros Hv Hh Ha Hlen. revert Hv. rewrite Hh, Ha.
  destruct h; cbn [result_bind]; intros [= <-]; unfold HmacRs.import_key_jwk; simpl;
    rewrite base64url_round, (proj2 (Nat.ltb_ge _ _)) by done; done.
Qed.

Lemma aes_import_export ext us l kb key v : AesGcmRs.export_key_jwk key = Ok v →
  handle key = AesGcmKey kb → algorithm key = AesGcm l →
  AesGcmRs.import_key_jwk v ext us = Ok (mkKey (AesGcmKey kb) (AesGcm l) ext us).
Proof.
  unfold AesGcmRs.export_key_jwk. destruct (extractable key); simpl; [|done]. intros Hv Hh Ha. revert Hv. rewrite Hh, Ha.
  destruct (Z.eqb_spec l 128) as [->|]; [|destruct (Z.eqb_spec l 192) as [->|]; [|destruct (Z.eqb_spec l 256) as [->|]]];
    cbn [result_bind]; try done; intros [= <-]; unfold AesGcmRs.import_key_jwk; simpl; by rewrite base64url_round.
Qed.

Lemma generated_asymmetric rng a ext us key : generate_key rng a ext us = Ok key → symmetric a = false →
  symmetric (algorithm key) = false.
Proof.
  assert (Hrsa : ∀ n e s, RsaRs.generate_key rng n e s ext us = Ok key → symmetric (algorithm key) = false).
  { intros n e s. unfold RsaRs.generate_key, RsaRs.alg_id. destruct (n <? 256); [done|].
    destruct (rsa_new_with_exp _ _ _); simpl; [|done]. destruct (rsa_to_pkcs8_der _); simpl; [|done].
    repeat case_if; simpl; try done; by intros [= <-]. }
  assert (Hec : ∀ c s, EcdsaRs.generate_key rng c s ext us = Ok key → symmetric (algorithm key) = false).
  { intros c s. unfold EcdsaRs.generate_key, EcdsaRs.ec_alg. destruct (EcdsaRs.curve_of c); [|done].
    destruct (ec_to_sec1_der _ _); simpl; [|done]. intros [= <-]. simpl. by case_if. }
  destruct a; simpl; try done; intros Hg _; first [by eapply Hrsa|by eapply Hec].
Qed.

Lemma export_asymmetric key : symmetric (algorithm key) = false → ∃ e, export_key "jwk" key = Err e.
Proof.
  intros Hs. unfold export_key. destruct (extractable key); simpl; [|by eexists].
  destruct (algorithm key); try done; by eexists.
Qed.

Lemma export_not_extractable f key : extractable key = false → export_key f key = Err InvalidAccess.
Proof. unfold export_key. by intros ->. Qed.

(** A generated symmetric key can be exported exactly when it is extractable, and
    importing the exported JWK gives the same key, with the flag and usages asked for,
    for AES-GCM and for HMAC keys of whole bytes.  No asymmetric key is ever exported,
    and there is no other format. *)
Theorem jwk_round_trip rng a ext us key ext' us'
    (Hrng : lawful_entropy rng) (Hgen : generate_key rng a ext us = Ok key)
    (Hbits : ∀ h l, a = Hmac h (Some l) → l mod 8 = 0 ∧ in_u32 l) :
  (if ext && symmetric a then
    ∃ v, export_key "jwk" key = Ok v ∧
      import_key "jwk" v a ext' us' = Ok (mkKey (handle key) (algorithm key) ext' us')
   else ∃ e, export_key "jwk" key = Err e) ∧
  ∀ format, format ≠ "jwk" → ∃ e, export_key format key = Err e.
Proof.
  split.
  2: { intros f Hf. unfold export_key. destruct (extractable key); simpl; [|by eexists].
       rewrite (proj2 (String.eqb_neq f "jwk") Hf). by eexists. }
  destruct (symmetric a) eqn:Hsym; rewrite ?andb_true_r, ?andb_false_r;
    [|by eapply export_asymmetric, generated_asymmetric].
  destruct a as [l|h l|h|h s|h|c h|c]; try done; simpl in Hgen.
  - destruct (aes_generated _ _ _ _ _ Hrng Hgen) as (kb & -> & Hkb & Hl).
    destruct ext; [|eexists; by apply export_not_extractable]. unfold export_key. simpl.
    assert (He : ∃ v, AesGcmRs.export_key_jwk (mkKey (AesGcmKey kb) (AesGcm l) true us) = Ok v).
    { unfold AesGcmRs.export_key_jwk. simpl. destruct Hl as [->|[->| ->]]; by eexists. }
    destruct He as [v Hv]. rewrite Hv. simpl. destruct (jwk_round v) as (w & -> & Hw). exists w.
    split; [done|]. unfold from_slice. rewrite Hw. simpl. by apply (aes_import_export _ _ l kb _ _ Hv).
  - destruct (hmac_generated _ _ _ _ _ _ Hrng Hgen) as (kb & -> & Hkb & Hmin).
    destruct ext; [|eexists; by apply export_not_extractable]. unfold export_key. simpl.
    revert Hkb Hmin. set (bits := default _ l). intros Hkb Hmin.
    assert (Hb : bits mod 8 = 0 ∧ in_u32 bits).
    { unfold bits. destruct l as [l|]; simpl; [by apply (Hbits h)|]. destruct h; split; (done || zlia). }
    assert (He : ∃ v, HmacRs.export_key_jwk (mkKey (HmacKey kb) (Hmac h (Some bits)) true us) = Ok v).
    { unfold HmacRs.export_key_jwk. simpl. destruct h; by eexists. }
    destruct He as [v Hv]. rewrite Hv. simpl. destruct (jwk_round v) as (w & -> & Hw). exists w.
    split; [done|]. unfold from_slice. rewrite Hw. simpl. pose proof (Z_div_mod_eq_full bits 8) as Hdm.
    rewrite (hmac_import_export ext' us' h kb _ _ _ Hv eq_refl eq_refl) by lia.
    assert (Z.of_nat (length kb) * 8 = bits) as -> by lia. by rewrite as_u32_small by (destruct Hb; zlia).
Qed.

(** ** Wrapping *)

(** The bytes of a symmetric key. *)
Definition secret_bytes (k : CryptoKey) : option bytes :=
  match handle k with AesGcmKey b | HmacKey b => Some b | _ => None end.

Lemma wrap_raw rng k w iv b : secret_bytes k = Some b →
  wrap_key rng "raw" k w (Some iv) = Done (AesGcmRs.encrypt w (AesGcmRs.mkParams iv None 128) b).
Proof. unfold wrap_key, secret_bytes. simpl. destruct (handle k); intros [= <-]; done. Qed.

(** Wrapping in the raw format ignores that a key must not be extracted: with a key
    of its own a caller gets the bytes of any symmetric key, although exporting the key
    and wrapping it as JWK are refused. *)
Theorem raw_wrap_leaks rng rng2 k b l ext us w iv
    (Hk : secret_bytes k = Some b) (Hext : extractable k = false)
    (Hlen : Z.of_nat (length b) <= MAX_PLAINTEXT)
    (Hrng : lawful_entropy rng) (Hgen : generate_key rng (AesGcm l) ext us = Ok w) (Hl : l ≠ 192)
    (Henc : Encrypt ∈ us) (Hdec : Decrypt ∈ us) (Hiv : length iv = 12%nat) :
  (∃ c, wrap_key rng2 "raw" k w (Some iv) = Done (Ok c) ∧ decrypt w c (Some iv) None = Ok b) ∧
  wrap_key rng2 "jwk" k w (Some iv) = Done (Err InvalidAccess) ∧
  ∀ format, export_key format k = Err InvalidAccess.
Proof.
  split; [|split; [unfold wrap_key; simpl; by rewrite (export_not_extractable _ _ Hext)|
                   intros f; by apply export_not_extractable]].
  destruct (aes_generated _ _ _ _ _ Hrng Hgen) as (kb & -> & Hkb & Hl').
  destruct (aes_round_trip kb l iv None b (mkKey (AesGcmKey kb) (AesGcm l) ext us)) as (c & Hc & Hd);
    [done|done|lia|done|done|done|done|].
  exists c. rewrite (wrap_raw _ _ _ _ _ Hk), Hc. split; [done|]. unfold decrypt. simpl. by apply Hd.
Qed.

Lemma aes_import_raw ext us kb ops :
  AesGcmRs.import_key_jwk (new_symmetric "A256GCM" (base64url_encode kb) ext ops) ext us =
    Ok (mkKey (AesGcmKey kb) (AesGcm 256) ext us).
Proof. unfold AesGcmRs.import_key_jwk. simpl. by rewrite base64url_round. Qed.

Lemma aes_wrong_length kb ext us params data : Z.of_nat (length kb) * 8 ≠ 256 →
  ∃ e, AesGcmRs.encrypt (mkKey (AesGcmKey kb) (AesGcm 256) ext us) params data = Err e.
Proof.
  intros Hkb. unfold AesGcmRs.encrypt. destruct (AesGcmRs.validate params); simpl; [|by eexists].
  destruct (has_usage _ _); simpl; [|by eexists].
  destruct (unbound_key 256 kb) eqn:Hu; [|by eexists].
  apply unbound_key_iff in Hu; [done|by right].
Qed.

(** Unwrapping what was wrapped in the raw format: an HMAC key comes back as it was
    (with a length in whole bytes); an AES-GCM key comes back as a key of 256 bits
    whatever its length, so that one of 128 bits can no longer encrypt anything. *)
Theorem raw_unwrap_exact rng rng2 rng3 a ext us k l extw usw w iv ext' us'
    (Hrng : lawful_entropy rng) (Hgen : generate_key rng a ext us = Ok k) (Hsym : symmetric a = true)
    (Hbits : ∀ h n, a = Hmac h (Some n) → n mod 8 = 0 ∧ in_u32 n)
    (Hrng2 : lawful_entropy rng2) (Hgenw : generate_key rng2 (AesGcm l) extw usw = Ok w) (Hl : l ≠ 192)
    (Henc : Encrypt ∈ usw) (Hdec : Decrypt ∈ usw) (Hiv : length iv = 12%nat) :
  ∃ c, wrap_key rng3 "raw" k w (Some iv) = Done (Ok c) ∧
    match a with
    | AesGcm n =>
        let k' := mkKey (handle k) (AesGcm 256) ext' us' in
        unwrap_key "raw" c w a ext' us' (Some iv) = Ok k' ∧
        (n ≠ 256 → ∀ data iv' aad, ∃ e, encrypt rng3 k' data (Some iv') aad = Done (Err e))
    | _ => unwrap_key "raw" c w a ext' us' (Some iv) = Ok (mkKey (handle k) (algorithm k) ext' us')
    end.
Proof.
  destruct (aes_generated _ _ _ _ _ Hrng2 Hgenw) as (kw & -> & Hkw & Hlw).
  assert (Hw : ∀ b, Z.of_nat (length b) <= MAX_PLAINTEXT → ∃ c,
    AesGcmRs.encrypt (mkKey (AesGcmKey kw) (AesGcm l) extw usw) (AesGcmRs.mkParams iv None 128) b = Ok c ∧
    AesGcmRs.decrypt (mkKey (AesGcmKey kw) (AesGcm l) extw usw) (AesGcmRs.mkParams iv None 128) c = Ok b).
  { intros b Hb. destruct (aes_round_trip kw l iv None b (mkKey (AesGcmKey kw) (AesGcm l) extw usw)) as (c & Hc & Hd);
      [done|done|lia|done|done|done|done|]. exists c. split; [done|by apply Hd]. }
  destruct a as [n|h n|h|h s|h|c h|c]; try done; simpl in Hgen.
  - destruct (aes_generated _ _ _ _ _ Hrng Hgen) as (kb & -> & Hkb & Hn).
    destruct (Hw kb) as (c & Hc & Hd); [unfold MAX_PLAINTEXT; lia|]. exists c.
    rewrite (wrap_raw _ _ _ _ kb), Hc by done. split; [done|]. unfold unwrap_key. simpl. rewrite Hd. simpl.
    split; [apply aes_import_raw|]. intros Hne data iv' aad. unfold encrypt. simpl.
    destruct (aes_wrong_length kb ext' us' (AesGcmRs.mkParams iv' aad 128) data) as [e ->]; [lia|by exists e].
  - destruct (hmac_generated _ _ _ _ _ _ Hrng Hgen) as (kb & -> & Hkb & Hmin). revert Hkb Hmin.
    set (bits := default _ n). intros Hkb Hmin.
    assert (Hb : bits mod 8 = 0 ∧ in_u32 bits).
    { unfold bits. destruct n as [n|]; simpl; [by apply (Hbits h)|]. destruct h; split; (done || zlia). }
    pose proof (Z_div_mod_eq_full bits 8) as Hdm. destruct Hb as [Hb8 Hbr].
    destruct (Hw kb) as (c & Hc & Hd); [unfold MAX_PLAINTEXT; zlia|]. exists c.
    rewrite (wrap_raw _ _ _ _ kb), Hc by done. split; [done|]. unfold unwrap_key. simpl. rewrite Hd. simpl.
    assert (Hbytes : Z.of_nat (length kb) * 8 = bits) by lia.
    unfold HmacRs.import_key_jwk. simpl. rewrite base64url_round.
    destruct h; simpl in *; rewrite (proj2 (Nat.ltb_ge _ _)) by lia; rewrite Hbytes, as_u32_small by zlia; done.
Qed.

(** ** Key agreement and signatures *)

Context `{!RsaLaws} `{!EcLaws}.

(** The two halves of a key pair of a curve as this module stores them. *)
Definition ec_private (c : Curve) (s : EcSecret) (k : CryptoKey) : Prop :=
  algorithm k = Ecdh (EcdsaRs.curve_name c) ∧
  ∃ b, handle k = EcdsaPrivateKey b ∧ ec_from_sec1_der c b = Ok s.
Definition ec_public (c : Curve) (q : EcPublic) (k : CryptoKey) : Prop :=
  algorithm k = Ecdh (EcdsaRs.curve_name c) ∧
  ∃ b, handle k = EcdsaPublicKey b ∧ ec_from_public_key_der c b = Ok q.

Lemma curve_of_name c : EcdsaRs.curve_of (EcdsaRs.curve_name c) = Some c.
Proof. by destruct c. Qed.

Lemma derive_bits_value c s q k1 k2 len : ec_private c s k1 → ec_public c q k2 →
  derive_bits k1 k2 len = Ok (EcdsaRs.truncate_secret len (ec_diffie_hellman c s q)).
Proof.
  intros (Ha1 & b1 & Hh1 & Hs) (Ha2 & b2 & Hh2 & Hq). unfold derive_bits. rewrite Ha1, Ha2. simpl.
  rewrite String.eqb_refl. simpl. unfold EcdsaRs.derive_bits, EcdsaRs.private_bytes.
  rewrite Hh1, Hh2, Ha1. simpl. by rewrite curve_of_name, Hs, Hq.
Qed.

(** Key agreement: both sides derive the same bits, for any length asked for.  Keys
    are another matter: the number of bytes of the key is passed on as the number of
    bits wanted, so deriving a key succeeds only for lengths below 16 bits, and for the
    lengths of AES-GCM keys it always fails. *)
Theorem ecdh_derivation c s1 s2 k1 p1 k2 p2 len l ext us
    (Hk1 : ec_private c s1 k1) (Hp1 : ec_public c (ec_public_of c s1) p1)
    (Hk2 : ec_private c s2 k2) (Hp2 : ec_public c (ec_public_of c s2) p2) (Hl : 0 <= l < 65536) :
  derive_bits k1 p2 len = derive_bits k2 p1 len ∧
  (∃ secret, derive_bits k1 p2 None = Ok secret ∧ length secret = coordinate_length c) ∧
  (if l <? 16 then ∃ b, derive_key k1 p2 l ext us = Ok (mkKey (AesGcmKey b) (AesGcm l) ext us) ∧
                        Z.of_nat (length b) = l / 8
   else derive_key k1 p2 l ext us = Err OperationFailed).
Proof.
  rewrite !(derive_bits_value c s1 _ _ _ _ Hk1 Hp2), (derive_bits_value c s2 _ _ _ _ Hk2 Hp1).
  split; [by rewrite ec_dh_agree|]. split; [eexists; split; [done|simpl; by apply ec_dh_length]|].
  unfold derive_key. rewrite (derive_bits_value c s1 _ _ _ _ Hk1 Hp2). cbn [result_bind].
  pose proof (ec_dh_length c s1 (ec_public_of c s2)) as Hlen.
  set (secret := ec_diffie_hellman _ _ _) in *. pose proof (Z_div_mod_eq_full l 8) as Hdm.
  pose proof (Z.mod_pos_bound l 8 ltac:(lia)) as Hmod. set (n := l / 8) in *.
  assert (Hc : (32 <= length secret <= 48)%nat) by (rewrite Hlen; destruct c; simpl; lia).
  unfold EcdsaRs.truncate_secret. rewrite Z.gtb_ltb. destruct (Z.ltb_spec l 16) as [Hlt|Hge].
  - destruct (Z.ltb_spec 0 n); simpl.
    + assert (n = 1) as -> by lia. rewrite (proj2 (Z.ltb_lt 1 (Z.of_nat (length secret) * 8))) by lia. change ((1 + 7) / 8) with 1.
      rewrite (proj2 (Z.ltb_ge _ _)) by (rewrite length_take; lia). eexists. split; [done|].
      rewrite !length_take. lia.
    + assert (n = 0) as -> by lia. rewrite (proj2 (Z.ltb_ge _ _)) by lia. eexists. by split.
  - rewrite (proj2 (Z.ltb_lt 0 n)) by lia. simpl.
    assert (Hq : (n + 7) / 8 < n) by (apply Z.div_lt_upper_bound; lia).
    destruct (Z.ltb_spec n (Z.of_nat (length secret) * 8)).
    + rewrite (proj2 (Z.ltb_lt _ n)); [done|]. rewrite length_take. lia.
    + by rewrite (proj2 (Z.ltb_lt _ n)) by lia.
Qed.

(** A signature made with a generated key is accepted by that key, for HMAC, RSA-PSS,
    RSASSA-PKCS1-v1_5 and ECDSA.  The public half of an elliptic-curve key verifies
    nothing: the code asks for the private key. *)
Theorem signatures_verify rng rng2 a ext us key data s
    (Hrng : lawful_entropy rng) (Hgen : generate_key rng a ext us = Ok key)
    (Hver : symmetric a = true → Verify ∈ us)
    (Hsign : sign rng2 key data = Done (Ok s)) :
  verify key s data = Ok true ∧
  ∀ k b nc h, handle k = EcdsaPublicKey b → algorithm k = Ecdsa nc h → verify k s data = Err InvalidKey.
Proof.
  split.
  2: { intros k b nc h Hh Ha. unfold verify. rewrite Ha. unfold EcdsaRs.verify, EcdsaRs.private_bytes. by rewrite Hh. }
  destruct a as [l|h l|h|h sl|h|c h|c]; simpl in Hgen.
  - destruct (aes_generated _ _ _ _ _ Hrng Hgen) as (kb & -> & _). done.
  - destruct (hmac_generated _ _ _ _ _ _ Hrng Hgen) as (kb & -> & _). revert Hsign. unfold sign, verify, HmacRs.sign, HmacRs.verify. simpl.
    destruct (has_usage _ Sign); simpl; [|done]. intros [= <-].
    rewrite (proj2 (has_usage_spec (mkKey (HmacKey kb) _ ext us) Verify) (Hver eq_refl)). simpl.
    by rewrite (proj2 (hmac_verify_iff h kb data _) eq_refl).
  - revert Hgen. unfold RsaRs.generate_key. simpl. destruct (rsa_new_with_exp _ _ _); simpl; [|done].
    destruct (rsa_to_pkcs8_der _); simpl; [|done]. intros [= <-]. discriminate Hsign.
  - revert Hgen. unfold RsaRs.generate_key. simpl. destruct (rsa_new_with_exp _ _ _) as [pk|]; simpl; [|done].
    destruct (rsa_to_pkcs8_der pk) as [pb|] eqn:Hp; simpl; [|done]. intros [= <-]. revert Hsign.
    unfold sign, verify, RsaRs.sign, RsaRs.verify, RsaRs.get_private_key, RsaRs.get_public_key, RsaRs.get_private_key. simpl.
    rewrite (rsa_pkcs8_round _ _ Hp). simpl. destruct (pss_sign rng2 pk data) as [sg|] eqn:Hs; simpl; [|done].
    intros [= <-]. destruct (pss_sound _ _ _ _ Hs) as (sig & -> & Hv). simpl. by rewrite Hv.
  - revert Hgen. unfold RsaRs.generate_key. simpl. destruct (rsa_new_with_exp _ _ _) as [pk|]; simpl; [|done].
    destruct (rsa_to_pkcs8_der pk) as [pb|] eqn:Hp; simpl; [|done]. intros [= <-]. revert Hsign.
    unfold sign, verify, RsaRs.sign, RsaRs.verify, RsaRs.get_private_key, RsaRs.get_public_key, RsaRs.get_private_key, RsaRs.key_hash. simpl.
    rewrite (rsa_pkcs8_round _ _ Hp). simpl. destruct (pkcs1v15_sign Sha256 pk data) as [sg|] eqn:Hs; simpl; [|done].
    intros [= <-]. destruct (pkcs1v15_sound _ _ _ _ Hs) as (sig & Hparse & Hv).
    rewrite Hparse. simpl. by rewrite Hv.
  - revert Hgen. unfold EcdsaRs.generate_key. destruct (EcdsaRs.curve_of c) as [cv|] eqn:Hcv; [|done].
    destruct (ec_to_sec1_der cv _) as [pb|] eqn:Hp; simpl; [|done]. intros [= <-]. revert Hsign.
    unfold sign, verify, EcdsaRs.sign, EcdsaRs.verify. simpl. rewrite curve_of_name, (ec_sec1_round _ _ _ Hp). simpl.
    intros [= <-]. destruct (ec_sign_sound cv (ec_random cv rng) data) as (sig & -> & Hv). simpl. by rewrite Hv.
  - revert Hgen. unfold EcdsaRs.generate_key. destruct (EcdsaRs.curve_of c); [|done].
    destruct (ec_to_sec1_der _ _); simpl; [|done]. intros [= <-]. discriminate Hsign.
Qed.

End laws.

(** ** Concrete primitives *)

#[local] Instance byte_eq_dec : EqDecision Byte.byte := Byte.byte_eq_dec.

Fixpoint positive_bytes (p : positive) : bytes :=
  match p with xH => [] | xO p => Byte.x00 :: positive_bytes p | xI p => Byte.x01 :: positive_bytes p end.

Fixpoint bytes_positive (b : bytes) : positive :=
  match b with [] => xH | Byte.x00 :: b => xO (bytes_positive b) | _ :: b => xI (bytes_positive b) end.

Lemma bytes_positive_bytes p : bytes_positive (positive_bytes p) = p.
Proof. induction p as [p IH|p IH|]; simpl; by rewrite ?IH. Qed.

Definition jwk_tuple (j : JwkObject) : string * option string * option string * option bool * option (list string) :=
  (kty j, alg j, jwk_k j, ext j, key_ops j).
Definition tuple_jwk (p : string * option string * option string * option bool * option (list string)) : JwkObject :=
  let '(a, b, c, d, e) := p in mkJwk a b c d e.

Definition demo_primitives : Primitives := {|
  unbound_key := λ bits k, Z.of_nat (length k) * 8 =? bits;
  nonce_ok := λ n, (length n =? 12)%nat;
  tag_len := 16;
  seal := λ _ _ _ _ p, Some (p, replicate 16 Byte.x00);
  open_aead := λ _ _ _ _ c, Some (take (length c - 16) c);
  ring_hmac_sign := λ _ k d, k ++ d;
  ring_hmac_verify := λ _ k d s, bool_decide (s = k ++ d);
  sha2 := λ h d, take (HashAlgorithmImpl.output_size h) (d ++ replicate 64 Byte.x00);
  base64url_encode := String.string_of_list_byte;
  base64url_decode := λ s, Ok (String.list_byte_of_string s);
  jwk_from_slice := λ b,
    match decode (bytes_positive b) with Some t => Ok (tuple_jwk t) | None => Err "not a JWK" end;
  jwk_to_vec := λ j, Ok (positive_bytes (encode (jwk_tuple j)));
|}.

Lemma demo_primitive_laws : @PrimitiveLaws demo_primitives.
Proof.
  split; simpl.
  - intros bits k _. apply Z.eqb_eq.
  - intros n. apply Nat.eqb_eq.
  - intros. by eexists.
  - intros bits k n a p c t [= <- <-]. split; [done|]. f_equal. rewrite length_app. simpl.
    by rewrite Nat.add_sub, take_app_length.
  - intros. apply bool_decide_eq_true.
  - intros b. by rewrite String.list_byte_of_string_of_list_byte.
  - intros j. eexists. split; [done|]. rewrite bytes_positive_bytes, decode_encode. by destruct j.
Qed.

Definition demo_rsa : RsaCrate := {|
  RsaPriv := bytes; RsaPub := bytes; RsaSig := bytes; BigUint := bytes;
  from_bytes_be := λ b, b;
  rsa_new_with_exp := λ rng _ _, rng 32%nat;
  rsa_from_components := λ _ _ d, Some d;
  rsa_public_new := λ n _, Some n;
  rsa_public_of := λ k, k;
  rsa_to_pkcs8_der := Some; rsa_from_pkcs8_der := Ok;
  rsa_to_public_key_der := Some; rsa_from_public_key_der := Ok;
  oaep_encrypt := λ _ _ _ m, Some m; oaep_decrypt := λ _ _ c, Some c;
  pss_sign := λ _ k m, Some (k ++ m); pss_parse := Some;
  pss_verify := λ k m s, bool_decide (s = k ++ m);
  pkcs1v15_sign := λ _ k m, Some (k ++ m); pkcs1v15_parse := λ _ s, Some s;
  pkcs1v15_verify := λ _ k m s, bool_decide (s = k ++ m);
|}.

Lemma demo_rsa_laws : @RsaLaws demo_rsa.
Proof.
  split; simpl; try (by intros ? ? [= ->]).
  - by intros ? ? ? ? ? [= ->].
  - intros ? ? ? ? [= <-]. eexists. split; [done|]. by apply bool_decide_eq_true.
  - intros ? ? ? ? [= <-]. eexists. split; [done|]. by apply bool_decide_eq_true.
Qed.

Definition demo_ec : EcCrate := {|
  EcSecret := bytes; EcPublic := bytes; EcSig := bytes;
  ec_random := λ c rng, default [] (rng (coordinate_length c));
  ec_from_slice := λ _, Ok;
  ec_to_sec1_der := λ _, Some; ec_from_sec1_der := λ _, Ok;
  ec_public_of := λ _ k, k;
  ec_from_sec1_bytes := λ _, Ok;
  ec_to_public_key_der := λ _, Some; ec_from_public_key_der := λ _, Ok;
  ec_sign := λ _ k m, k ++ m; ec_sig_parse := λ _, Some;
  ec_verify := λ _ k m s, bool_decide (s = k ++ m);
  ec_diffie_hellman := λ c _ _, replicate (coordinate_length c) Byte.x00;
|}.

Lemma demo_ec_laws : @EcLaws demo_ec.
Proof.
  split; simpl; try (by intros ? ? ? [= ->]).
  - intros c k m. eexists. split; [done|]. by apply bool_decide_eq_true.
  - done.
  - intros c k p. apply length_replicate.
Qed.

Definition demo_json : JsonCrate := {| Json := unit; json_from_slice := λ _, Ok tt; json_str := λ _ _, None |}.

Definition demo_rng : Entropy := λ n, Some (replicate n Byte.x2a).

Lemma demo_rng_lawful : lawful_entropy demo_rng.
Proof. intros n b [= <-]. apply length_replicate. Qed.

Definition demo_iv : bytes := replicate 12 Byte.x01.
Definition demo_data : bytes := [Byte.x61; Byte.x62].

(** A key of 128 bits that must not be extracted, and one to wrap it with. *)
Definition demo_key : CryptoKey := mkKey (AesGcmKey (replicate 16 Byte.x2a)) (AesGcm 128) false [Encrypt].
Definition demo_wrapper : CryptoKey := mkKey (AesGcmKey (replicate 32 Byte.x2a)) (AesGcm 256) true [Encrypt; Decrypt].

Ltac in_list := first [left; reflexivity | right; in_list].

#[local] Existing Instance demo_primitives.
#[local] Existing Instance demo_primitive_laws.
#[local] Existing Instance demo_rsa.
#[local] Existing Instance demo_rsa_laws.
#[local] Existing Instance demo_ec.
#[local] Existing Instance demo_ec_laws.
#[local] Existing Instance demo_json.

Lemma aes_gcm_round_trip_witness :
  ∃ c, encrypt demo_rng demo_wrapper demo_data (Some demo_iv) None = Done (Ok c) ∧
       decrypt demo_wrapper c (Some demo_iv) None = Ok demo_data.
Proof.
  apply (aes_gcm_round_trip demo_rng demo_rng 256 true [Encrypt; Decrypt] demo_wrapper demo_data demo_iv None
    demo_rng_lawful); [reflexivity|in_list|in_list|reflexivity|vm_compute; discriminate].
Defined.

Lemma jwk_round_trip_witness :
  ∃ v, export_key "jwk" demo_wrapper = Ok v ∧
    import_key "jwk" v (AesGcm 256) false [Decrypt] =
      Ok (mkKey (AesGcmKey (replicate 32 Byte.x2a)) (AesGcm 256) false [Decrypt]).
Proof.
  destruct (jwk_round_trip demo_rng (AesGcm 256) true [Encrypt; Decrypt] demo_wrapper false [Decrypt] demo_rng_lawful)
    as [(v & Hv & Hi) _]; [reflexivity|intros; discriminate|].
  exists v. split; [exact Hv|exact Hi].
Defined.

Lemma raw_wrap_leaks_witness :
  (∃ c, wrap_key demo_rng "raw" demo_key demo_wrapper (Some demo_iv) = Done (Ok c) ∧
        decrypt demo_wrapper c (Some demo_iv) None = Ok (replicate 16 Byte.x2a)) ∧
  export_key "jwk" demo_key = Err InvalidAccess.
Proof.
  destruct (raw_wrap_leaks demo_rng demo_rng demo_key (replicate 16 Byte.x2a) 256 true [Encrypt; Decrypt] demo_wrapper demo_iv)
    as (Hc & _ & He);
    [reflexivity|reflexivity|vm_compute; discriminate|exact demo_rng_lawful|reflexivity|lia|in_list|in_list|reflexivity|].
  split; [exact Hc|apply He].
Defined.

Lemma raw_unwrap_exact_witness :
  ∃ c, wrap_key demo_rng "raw" (mkKey (AesGcmKey (replicate 16 Byte.x2a)) (AesGcm 128) true []) demo_wrapper (Some demo_iv)
         = Done (Ok c) ∧
       unwrap_key "raw" c demo_wrapper (AesGcm 128) true [Encrypt] (Some demo_iv)
         = Ok (mkKey (AesGcmKey (replicate 16 Byte.x2a)) (AesGcm 256) true [Encrypt]).
Proof.
  destruct (raw_unwrap_exact demo_rng demo_rng demo_rng (AesGcm 128) true []
    (mkKey (AesGcmKey (replicate 16 Byte.x2a)) (AesGcm 128) true []) 256 true [Encrypt; Decrypt] demo_wrapper demo_iv
    true [Encrypt]) as (c & Hc & Hu & _);
    [exact demo_rng_lawful|reflexivity|reflexivity|intros; discriminate|exact demo_rng_lawful|reflexivity|lia
    |in_list|in_list|reflexivity|].
  exists c. split; [exact Hc|exact Hu].
Defined.

Definition demo_private : CryptoKey := mkKey (EcdsaPrivateKey [Byte.x01]) (Ecdh "P-256") true [].
Definition demo_public : CryptoKey := mkKey (EcdsaPublicKey [Byte.x01]) (Ecdh "P-256") true [].

Lemma ecdh_derivation_witness :
  derive_bits demo_private demo_public (Some 9) = Ok [Byte.x00; Byte.x00] ∧
  derive_key demo_private demo_public 256 true [] = Err OperationFailed.
Proof.
  destruct (@ecdh_derivation demo_ec demo_ec_laws P256 [Byte.x01] [Byte.x01] demo_private demo_public demo_private demo_public
    (Some 9) 256 true []) as (_ & _ & Hk);
    [split; [reflexivity|eexists; split; reflexivity]..|lia|].
  split; [reflexivity|exact Hk].
Defined.

Lemma signatures_verify_witness :
  verify (mkKey (HmacKey (replicate 32 Byte.x2a)) (Hmac Sha256 (Some 256)) false [Sign; Verify])
    (replicate 32 Byte.x2a ++ demo_data) demo_data = Ok true.
Proof.
  apply (signatures_verify demo_rng demo_rng (Hmac Sha256 None) false [Sign; Verify]
    (mkKey (HmacKey (replicate 32 Byte.x2a)) (Hmac Sha256 (Some 256)) false [Sign; Verify]));
    [exact demo_rng_lawful|reflexivity|intros _; in_list|reflexivity].
Defined.
