(* ===== verification/CryptoApi.v ===== *)
(** * [crypto.subtle] of [src/runtime/apis.rs]

    The callbacks behind [crypto.subtle], from the values of JavaScript to the functions
    of [src/runtime/crypto] and back.  The values are those whose conversions run no
    code of the program and do not throw; [JsText] are the engine's conversions between
    numbers and text, and which allocations succeed.  What ends the process is a result of
    its own: an array whose length no [Vec] can have, and an error text too long for a
    string of the engine, which the callbacks unwrap.

    A key lives in a box that is never freed; its object has the address in the ordinary
    property [__crypto_key_ptr__].  [fetch] keeps the body of a response in the same way
    ([BoxedResponse]), so the memory of the model holds both, and reading a key where a
    response is has no defined behaviour. *)

From stdpp Require Import base list strings pretty.
From Stdlib Require Import ZArith Lia SpecFloat.
From Stdlib.Strings Require Byte.
From S2P Require Import Prelude RustString RustFloat Timers CryptoKeys CryptoAsym Subtle.

Open Scope Z_scope.

(** ** Values *)

Inductive ErrorKind := PlainError | TypeError.

Inductive JsVal :=
| VUndefined
| VNull
| VBool (b : bool)
| VNumber (n : f64)
| VString (s : string)
| VUint8Array (b : bytes)
| VArrayBuffer (b : bytes)
| VArray (items : list JsVal)
| VObject (props : list (string * JsVal))
| VExternal (address : nat)
| VError (kind : ErrorKind) (msg : string).

(** The engine's conversions of numbers, a string as its UTF-16 units, and whether the
    allocator has that many bytes. *)
Class JsText := {
  number_text : f64 → string;
  text_number : string → f64;
  utf16_units : string → list string;
  external_text : string;
  allocates : Z → bool;
}.

(** [v8::String::MAX_LENGTH], in bytes of UTF-8: [v8::String::new] gives nothing for a
    longer text. *)
Definition MAX_STRING_LENGTH : Z := 536870888.
Definition string_fits (s : string) : bool := slen s <=? MAX_STRING_LENGTH.

#[global] Arguments string_fits _ : simpl never.

Lemma not_fits s : string_fits s = false → MAX_STRING_LENGTH < slen s.
Proof. unfold string_fits. intros Hl. by apply Z.leb_gt in Hl. Qed.

(** What ends the process: [Vec::with_capacity] of more than [isize::MAX] bytes, an
    allocation that fails, and [unwrap] on the string of a text that does not fit. *)
Inductive Fatal := CapacityOverflow | OutOfMemory (size : Z) | LongText (text : string).

Definition is_nullish (v : JsVal) : bool := match v with VUndefined | VNull => true | _ => false end.
Definition is_true (v : JsVal) : bool := match v with VBool b => b | _ => false end.

Fixpoint join_comma (l : list string) : string :=
  match l with [] => "" | [s] => s | s :: l => s +:+ ("," +:+ join_comma l) end.

Fixpoint lookup_prop (name : string) (props : list (string * JsVal)) : option JsVal :=
  match props with
  | [] => None
  | (n, v) :: props => if String.eqb n name then Some v else lookup_prop name props
  end.

Section values.
Context `{JsText}.

Definition bool_text (b : bool) : string := if b then "true" else "false".

(** [ToString] *)
Fixpoint to_string (v : JsVal) : string :=
  match v with
  | VUndefined => "undefined"
  | VNull => "null"
  | VBool b => bool_text b
  | VNumber n => number_text n
  | VString s => s
  | VUint8Array b => join_comma ((λ x, pretty (Byte.to_N x)) <$> b)
  | VArrayBuffer _ => "[object ArrayBuffer]"
  | VArray items =>
      join_comma ((fix go l := match l with
                               | [] => []
                               | x :: l => (if is_nullish x then "" else to_string x) :: go l
                               end) items)
  | VObject _ => "[object Object]"
  | VExternal _ => external_text
  | VError PlainError msg => "Error: " +:+ msg
  | VError TypeError msg => "TypeError: " +:+ msg
  end.

(** [ToNumber] *)
Definition to_number (v : JsVal) : f64 :=
  match v with
  | VUndefined => S754_nan
  | VNull => f64_of_Z 0
  | VBool b => f64_of_Z (if b then 1 else 0)
  | VNumber n => n
  | VString s => text_number s
  | _ => text_number (to_string v)
  end.

(** A property of the object a value is converted to; the names are those the callbacks
    ask for. *)
Definition get (v : JsVal) (name : string) : JsVal :=
  match v with
  | VObject props => default VUndefined (lookup_prop name props)
  | VArray items => if String.eqb name "length" then VNumber (f64_of_Z (Z.of_nat (length items))) else VUndefined
  | VString s => if String.eqb name "length" then VNumber (f64_of_Z (Z.of_nat (length (utf16_units s)))) else VUndefined
  | VUint8Array b => if String.eqb name "length" then VNumber (f64_of_Z (Z.of_nat (length b))) else VUndefined
  | VError PlainError msg => if String.eqb name "name" then VString "Error" else VUndefined
  | VError TypeError msg => if String.eqb name "name" then VString "TypeError" else VUndefined
  | _ => VUndefined
  end.

(** An element by its index. *)
Definition get_index (v : JsVal) (i : nat) : JsVal :=
  match v with
  | VArray items => default VUndefined (items !! i)
  | VString s => default VUndefined (VString <$> utf16_units s !! i)
  | VUint8Array b => default VUndefined ((λ x, VNumber (f64_of_Z (Z.of_N (Byte.to_N x)))) <$> b !! i)
  | VObject props => default VUndefined (lookup_prop (pretty i) props)
  | _ => VUndefined
  end.

(** [n.value() as u16], saturating *)
Definition f64_to_u16 (x : f64) : Z := Z.min 65535 (f64_to_usize x).

(** [to_integer(..).value() as u32]: truncated and saturated to 64 bits, then wrapped *)
Definition f64_to_i64 (x : f64) : Z :=
  match x with
  | S754_finite true _ _ | S754_infinity true => - Z.min two63 (f64_to_usize (SFopp x))
  | _ => Z.min (two63 - 1) (f64_to_usize x)
  end.
Definition integer_as_u32 (x : f64) : Z := as_u32 (f64_to_i64 x).

(** The array-like value of key usages: names that are not usages are skipped.  How long
    the loop takes for a length the program made up is not modelled. *)
Definition usages_arg (v : JsVal) : list KeyUsage :=
  if is_nullish v then []
  else omap (λ i, usage_from_str (to_string (get_index v i)))
            (seq 0 (Z.to_nat (f64_to_usize (to_number (get v "length"))))).

Definition extract_array_buffer_view (v : JsVal) : option bytes :=
  match v with VUint8Array b | VArrayBuffer b => Some b | _ => None end.

(** ** [JwkObject] and objects *)

Definition get_string_property (v : JsVal) (name : string) : option string :=
  let x := get v name in if is_nullish x then None else Some (to_string x).

Definition get_bool_property (v : JsVal) (name : string) : option bool :=
  let x := get v name in if is_nullish x then None else Some (is_true x).

Definition array_length (v : JsVal) : Z := f64_to_usize (to_number (get v "length")).

(** [Vec::with_capacity(length)] for strings, of 24 bytes each *)
Definition with_capacity (length : Z) : result unit Fatal :=
  let size := 24 * length in
  if two63 - 1 <? size then Err CapacityOverflow
  else if (size =? 0) || allocates size then Ok tt
  else Err (OutOfMemory size).

Definition get_string_array_property (v : JsVal) (name : string) : result (option (list string)) Fatal :=
  let x := get v name in
  if is_nullish x then Ok None
  else
  let length := array_length x in
  let? _ := with_capacity length in
  Ok (Some ((λ i, to_string (get_index x i)) <$> seq 0 (Z.to_nat length))).

Definition from_v8_object (v : JsVal) : result (option JwkObject) Fatal :=
  match get_string_property v "kty" with
  | None => Ok None
  | Some kty =>
      let alg := get_string_property v "alg" in
      let k := get_string_property v "k" in
      let ext := get_bool_property v "ext" in
      let? key_ops := get_string_array_property v "key_ops" in
      Ok (Some (mkJwk kty alg k ext key_ops))
  end.

Definition optional_prop (name : string) (v : option JsVal) : list (string * JsVal) :=
  match v with Some v => [(name, v)] | None => [] end.

(** [v8::String::new] *)
Definition new_string (s : string) : option JsVal := if string_fits s then Some (VString s) else None.

(** A text that does not fit is left out; in the array it leaves a hole. *)
Definition to_v8_object (j : JwkObject) : JsVal :=
  VObject (optional_prop "kty" (new_string (kty j)) ++ optional_prop "alg" (alg j ≫= new_string)
    ++ optional_prop "k" (jwk_k j ≫= new_string) ++ optional_prop "ext" (VBool <$> ext j)
    ++ optional_prop "key_ops" ((λ l, VArray ((λ op, default VUndefined (new_string op)) <$> l)) <$> key_ops j)).

(** ** Memory and results *)

Inductive Boxed := BoxedKey (k : CryptoKey) | BoxedResponse (body : bytes).

(** The result of a call: a value, which may well be an error, an exception, an access
    to memory of another type, or the end of the process. *)
Inductive Call :=
| CallReturned (heap : list Boxed) (v : JsVal)
| CallThrew (heap : list Boxed) (v : JsVal)
| CallUndefined
| CallAborted (why : Fatal).

(** The texts of type errors are constants. *)
Definition type_error (heap : list Boxed) (msg : string) : Call := CallReturned heap (VError TypeError msg).
Definition returned_error (heap : list Boxed) (msg : string) : Call :=
  if string_fits msg then CallReturned heap (VError PlainError msg) else CallAborted (LongText msg).
Definition threw_error (heap : list Boxed) (msg : string) : Call :=
  if string_fits msg then CallThrew heap (VError PlainError msg) else CallAborted (LongText msg).

Inductive Extracted := ExtractedKey (k : CryptoKey) | NoKey | ForeignBox.

Definition extract_crypto_key (heap : list Boxed) (obj : JsVal) : Extracted :=
  match get obj "__crypto_key_ptr__" with
  | VExternal a =>
      match heap !! a with Some (BoxedKey k) => ExtractedKey k | _ => ForeignBox end
  | _ => NoKey
  end.

(** The argument that must be a [CryptoKey]. *)
Definition with_key (heap : list Boxed) (v : JsVal) (no_object no_key : string) (f : CryptoKey → Call) : Call :=
  if is_nullish v then type_error heap no_object
  else match extract_crypto_key heap v with
       | ExtractedKey k => f k
       | NoKey => type_error heap no_key
       | ForeignBox => CallUndefined
       end.

Definition with_bytes (heap : list Boxed) (v : JsVal) (msg : string) (f : bytes → Call) : Call :=
  match extract_array_buffer_view v with Some b => f b | None => type_error heap msg end.

(** The JavaScript object of a new key. *)
Definition algorithm_object (a : AlgorithmIdentifier) : JsVal :=
  VObject ([("name", VString (name a))] ++
    match a with
    | AesGcm length => [("length", VNumber (f64_of_Z length))]
    | Hmac hash length =>
        [("hash", VObject [("name", VString (HashAlgorithmImpl.name hash))])]
        ++ optional_prop "length" ((λ l, VNumber (f64_of_Z l)) <$> length)
    | _ => []
    end).

Definition key_object (address : nat) (k : CryptoKey) : JsVal :=
  VObject [("__crypto_key_ptr__", VExternal address); ("type", VString (key_type k));
           ("extractable", VBool (extractable k)); ("algorithm", algorithm_object (algorithm k));
           ("usages", VArray ((λ u, VString (usage_str u)) <$> usages k))].

Definition new_key (heap : list Boxed) (k : CryptoKey) : Call :=
  CallReturned (heap ++ [BoxedKey k]) (key_object (length heap) k).
End values.

(** ** The callbacks *)

Section callbacks.
Context `{JsText} `{Primitives} `{EcCrate} (to_uppercase : string → string).

Definition arg (args : list JsVal) (i : nat) : JsVal := default VUndefined (args !! i).

Definition algorithm_name (v : JsVal) : string := to_string (get v "name").

Definition finish_key (heap : list Boxed) (r : result CryptoKey CryptoError) : Call :=
  match r with
  | Ok key => new_key heap key
  | Err e => returned_error heap (error_text e)
  end.

Definition hash_arg (v : JsVal) : HashAlgorithm :=
  default Sha256 (HashAlgorithmImpl.from_name (to_string (get v "hash"))).

Definition length_arg (v : JsVal) : option Z :=
  let x := get v "length" in
  if is_nullish x then None
  else let n := f64_to_u32 (to_number x) in if n >? 0 then Some n else None.

Definition subtle_generate_key (rng : Entropy) (heap : list Boxed) (args : list JsVal) : Call :=
  if (length args <? 3)%nat then
    type_error heap "generateKey requires 3 arguments: algorithm, extractable, keyUsages"
  else
  let algorithm_obj := arg args 0 in
  if is_nullish algorithm_obj then type_error heap "First argument must be an algorithm object"
  else
  let name := algorithm_name algorithm_obj in
  let extractable := is_true (arg args 1) in
  let usages := usages_arg (arg args 2) in
  if String.eqb name "AES-GCM" then
    finish_key heap
      (AesGcmRs.generate_key rng (f64_to_u16 (to_number (get algorithm_obj "length"))) extractable usages)
  else if String.eqb name "HMAC" then
    finish_key heap
      (HmacRs.generate_key rng (hash_arg algorithm_obj) (length_arg algorithm_obj) extractable usages)
  else returned_error heap ("Algorithm '" +:+ (name +:+ "' not supported")).

Definition subtle_import_key (heap : list Boxed) (args : list JsVal) : Call :=
  if (length args <? 5)%nat then
    type_error heap "importKey requires 5 arguments: format, keyData, algorithm, extractable, keyUsages"
  else
  let format := to_string (arg args 0) in
  let key_data := arg args 1 in
  let algorithm_obj := arg args 2 in
  if is_nullish algorithm_obj then type_error heap "Third argument must be an algorithm object"
  else
  let name := algorithm_name algorithm_obj in
  let extractable := is_true (arg args 3) in
  let usages := usages_arg (arg args 4) in
  if String.eqb format "jwk" then
    if is_nullish key_data then type_error heap "JWK key data must be an object"
    else
    match from_v8_object key_data with
    | Err why => CallAborted why
    | Ok None => type_error heap "Invalid JWK format"
    | Ok (Some jwk) =>
        finish_key heap
          (if String.eqb name "AES-GCM" then AesGcmRs.import_key_jwk jwk extractable usages
           else if String.eqb name "HMAC" then HmacRs.import_key_jwk jwk extractable usages
           else Err (InvalidAlgorithm name))
    end
  else finish_key heap (Err NotSupported).

Definition subtle_export_key (heap : list Boxed) (args : list JsVal) : Call :=
  if (length args <? 2)%nat then type_error heap "exportKey requires 2 arguments: format, key"
  else
  let format := to_string (arg args 0) in
  with_key heap (arg args 1) "Second argument must be a CryptoKey" "Invalid CryptoKey" (λ key,
    if negb (extractable key) then threw_error heap "The CryptoKey is not extractable"
    else if String.eqb format "jwk" then
      match (match algorithm key with
             | AesGcm _ => AesGcmRs.export_key_jwk key
             | Hmac _ _ => HmacRs.export_key_jwk key
             | _ => Err InvalidKey
             end) with
      | Ok jwk => CallReturned heap (to_v8_object jwk)
      | Err e => threw_error heap (error_text e)
      end
    else type_error heap "Only JWK format is supported for export").

Definition finish_bytes (heap : list Boxed) (r : result bytes CryptoError) : Call :=
  match r with
  | Ok b => CallReturned heap (VArrayBuffer b)
  | Err e => threw_error heap (error_text e)
  end.

Definition tag_length_arg (v : JsVal) : Z :=
  let x := get v "tagLength" in
  if is_nullish x then 128
  else let n := f64_to_u16 (to_number x) in if n >? 0 then n else 128.

Definition aes_params (algorithm_obj : JsVal) : AesGcmRs.AesGcmParams :=
  AesGcmRs.mkParams (default [] (extract_array_buffer_view (get algorithm_obj "iv")))
                    (extract_array_buffer_view (get algorithm_obj "additionalData"))
                    (tag_length_arg algorithm_obj).

Definition subtle_encrypt (heap : list Boxed) (args : list JsVal) : Call :=
  if (length args <? 3)%nat then type_error heap "encrypt requires 3 arguments: algorithm, key, data"
  else
  let algorithm_obj := arg args 0 in
  if is_nullish algorithm_obj then type_error heap "First argument must be an algorithm object"
  else
  let name := algorithm_name algorithm_obj in
  with_key heap (arg args 1) "Second argument must be a CryptoKey" "Invalid CryptoKey" (λ key,
    with_bytes heap (arg args 2) "Third argument must be an ArrayBufferView" (λ data,
      finish_bytes heap
        (if String.eqb name "AES-GCM" then AesGcmRs.encrypt key (aes_params algorithm_obj) data
         else Err NotSupported))).

Definition subtle_decrypt (heap : list Boxed) (args : list JsVal) : Call :=
  if (length args <? 3)%nat then type_error heap "decrypt requires 3 arguments: algorithm, key, data"
  else
  let algorithm_obj := arg args 0 in
  if is_nullish algorithm_obj then type_error heap "First argument must be an algorithm object"
  else
  let name := algorithm_name algorithm_obj in
  with_key heap (arg args 1) "Second argument must be a CryptoKey" "Invalid CryptoKey" (λ key,
    with_bytes heap (arg args 2) "Third argument must be an ArrayBufferView" (λ data,
      finish_bytes heap
        (if String.eqb name "AES-GCM" then AesGcmRs.decrypt key (aes_params algorithm_obj) data
         else Err NotSupported))).

Definition subtle_sign (heap : list Boxed) (args : list JsVal) : Call :=
  if (length args <? 3)%nat then type_error heap "sign requires 3 arguments: algorithm, key, data"
  else
  with_key heap (arg args 1) "Second argument must be a CryptoKey" "Invalid CryptoKey" (λ key,
    with_bytes heap (arg args 2) "Third argument must be an ArrayBufferView" (λ data,
      finish_bytes heap
        (match algorithm key with Hmac _ _ => HmacRs.sign key data | _ => Err InvalidKey end))).

Definition subtle_verify (heap : list Boxed) (args : list JsVal) : Call :=
  if (length args <? 4)%nat then type_error heap "verify requires 4 arguments: algorithm, key, signature, data"
  else
  with_key heap (arg args 1) "Second argument must be a CryptoKey" "Invalid CryptoKey" (λ key,
    with_bytes heap (arg args 2) "Third argument (signature) must be an ArrayBufferView" (λ signature,
      with_bytes heap (arg args 3) "Fourth argument (data) must be an ArrayBufferView" (λ data,
        match (match algorithm key with Hmac _ _ => HmacRs.verify key data signature | _ => Err InvalidKey end) with
        | Ok valid => CallReturned heap (VBool valid)
        | Err e => threw_error heap (error_text e)
        end))).

(** The buffer is handed to [Promise.resolve]; the promise it is wrapped in is left out. *)
Definition subtle_digest (heap : list Boxed) (args : list JsVal) : Call :=
  let a := to_string (arg args 0) in
  with_bytes heap (arg args 1) "Second argument (data) must be an ArrayBufferView" (λ data,
    finish_bytes heap (digest to_uppercase a data)).

(** The part [deriveBits] and [deriveKey] share: the two keys. *)
Definition with_derivation (heap : list Boxed) (what : string) (args : list JsVal)
    (f : CryptoKey → CryptoKey → Call) : Call :=
  let algorithm_obj := arg args 0 in
  if is_nullish algorithm_obj then type_error heap "First argument must be an algorithm object"
  else
  let name := algorithm_name algorithm_obj in
  if negb (String.eqb name "ECDH") then
    threw_error heap (what +:+ (": unsupported algorithm '" +:+ (name +:+ "'")))
  else
  with_key heap (get algorithm_obj "public") "algorithm.public must be a CryptoKey"
    "algorithm.public is not a valid CryptoKey" (λ public_key,
    with_key heap (arg args 1) "Second argument must be a CryptoKey" "Invalid CryptoKey" (λ base_key,
      f base_key public_key)).

Definition subtle_derive_bits (heap : list Boxed) (args : list JsVal) : Call :=
  if (length args <? 3)%nat then
    type_error heap "deriveBits requires 3 arguments: algorithm, baseKey, length"
  else
  with_derivation heap "deriveBits" args (λ base_key public_key,
    let length_val := arg args 2 in
    let length := if is_nullish length_val then None else Some (integer_as_u32 (to_number length_val)) in
    finish_bytes heap (derive_bits base_key public_key length)).

Definition subtle_derive_key (heap : list Boxed) (args : list JsVal) : Call :=
  if (length args <? 5)%nat then
    type_error heap
      "deriveKey requires 5 arguments: algorithm, baseKey, derivedKeyAlgorithm, extractable, keyUsages"
  else
  with_derivation heap "deriveKey" args (λ base_key public_key,
    let derived_alg_obj := arg args 2 in
    if is_nullish derived_alg_obj then type_error heap "Third argument must be a derivedKeyAlgorithm object"
    else
    let derived_length := f64_to_u16 (to_number (get derived_alg_obj "length")) in
    match derive_key base_key public_key derived_length (is_true (arg args 3)) (usages_arg (arg args 4)) with
    | Ok key => new_key heap key
    | Err e => threw_error heap (error_text e)
    end).

(** ** What a program can do *)

(** The functions [bind_crypto] puts on [crypto.subtle]. *)
Inductive ApiFunction :=
| GenerateKey | ImportKey | ExportKey | EncryptData | DecryptData | SignData | VerifyData | Digest
| DeriveBitsOf | DeriveKeyOf.

Definition bind_crypto (f : ApiFunction) (rng : Entropy) (heap : list Boxed) (args : list JsVal) : Call :=
  match f with
  | GenerateKey => subtle_generate_key rng heap args
  | ImportKey => subtle_import_key heap args
  | ExportKey => subtle_export_key heap args
  | EncryptData => subtle_encrypt heap args
  | DecryptData => subtle_decrypt heap args
  | SignData => subtle_sign heap args
  | VerifyData => subtle_verify heap args
  | Digest => subtle_digest heap args
  | DeriveBitsOf => subtle_derive_bits heap args
  | DeriveKeyOf => subtle_derive_key heap args
  end.

(** The memory after any calls, and the responses [fetch] boxes in between. *)
Inductive reachable : list Boxed → Prop :=
| reachable_start : reachable []
| reachable_fetch heap body : reachable heap → reachable (heap ++ [BoxedResponse body])
| reachable_call heap f rng args heap' v : reachable heap → lawful_entropy rng →
    bind_crypto f rng heap args = CallReturned heap' v ∨ bind_crypto f rng heap args = CallThrew heap' v →
    reachable heap'.

End callbacks.

(** ** Keys JavaScript can hold *)

(** A key for AES-GCM with one of the three lengths as its label, or an HMAC key at least
    as long as the hash. *)
Definition js_key (k : CryptoKey) : Prop :=
  match handle k, algorithm k with
  | AesGcmKey _, AesGcm l => l = 128 ∨ l = 192 ∨ l = 256
  | HmacKey b, Hmac h (Some _) => (HashAlgorithmImpl.output_size h <= length b)%nat
  | _, _ => False
  end.

(** The bytes are as many as the label says, in whole bytes. *)
Definition whole (k : CryptoKey) : Prop :=
  match algorithm k with
  | AesGcm l | Hmac _ (Some l) => Z.of_nat (length (as_bytes (handle k))) = l / 8
  | _ => False
  end.

Definition key_boxes (heap : list Boxed) : Prop :=
  Forall (λ b, match b with BoxedKey k => js_key k | BoxedResponse _ => True end) heap.

Definition is_error (v : JsVal) : bool := match v with VError _ _ => true | _ => false end.

Section calls.
Context `{JsText} `{Primitives}.

(** A value with the address of a box that does not hold a key. *)
Definition misread (heap : list Boxed) (v : JsVal) : Prop :=
  ∃ a, get v "__crypto_key_ptr__" = VExternal a ∧ ∀ k, heap !! a ≠ Some (BoxedKey k).

(** The values a function reads keys from. *)
Definition key_args (f : ApiFunction) (args : list JsVal) : list JsVal :=
  match f with
  | ExportKey | EncryptData | DecryptData | SignData | VerifyData => [arg args 1]
  | DeriveBitsOf | DeriveKeyOf => [get (arg args 0) "public"; arg args 1]
  | GenerateKey | ImportKey | Digest => []
  end.

(** Where the bytes of a new key are from: the random source, in the number asked for, or
    the text of the JWK, whatever its length. *)
Definition origin (f : ApiFunction) (args : list JsVal) (k : CryptoKey) : Prop :=
  match f with
  | GenerateKey => whole k
  | ImportKey => ∃ s, get_string_property (arg args 1) "k" = Some s ∧
                      base64url_decode s = Ok (as_bytes (handle k))
  | _ => False
  end.

(** Why a call can end the process. *)
Definition fatal (f : ApiFunction) (args : list JsVal) (why : Fatal) : Prop :=
  let size := 24 * array_length (get (arg args 1) "key_ops") in
  match why with
  | CapacityOverflow => f = ImportKey ∧ two63 <= size
  | OutOfMemory n => f = ImportKey ∧ n = size ∧ allocates size = false
  | LongText text => MAX_STRING_LENGTH < slen text
  end.

(** What a call does to the memory: nothing, or it adds the key it returns. *)
Definition grows (heap : list Boxed) (f : ApiFunction) (args : list JsVal) (c : Call) : Prop :=
  match c with
  | CallReturned heap' v =>
      heap' = heap ∨
      ∃ k, heap' = heap ++ [BoxedKey k] ∧ v = key_object (length heap) k ∧ js_key k ∧ origin f args k
  | CallThrew heap' _ => heap' = heap
  | CallUndefined => Exists (misread heap) (key_args f args)
  | CallAborted why => fatal f args why
  end.

(** Nothing but an error is returned. *)
Definition refuses (c : Call) : Prop := match c with CallReturned _ v => is_error v = true | _ => True end.
End calls.

Section safety.
Context `{JsText} `{Primitives} `{EcCrate} (to_uppercase : string → string).

Lemma with_key_ind (P : Call → Prop) heap v m1 m2 f :
  (∀ m, P (type_error heap m)) → (misread heap v → P CallUndefined) →
  (∀ a k, get v "__crypto_key_ptr__" = VExternal a → heap !! a = Some (BoxedKey k) → P (f k)) →
  P (with_key heap v m1 m2 f).
Proof.
  intros Ht Hu Hk. unfold with_key, extract_crypto_key. destruct (is_nullish v); [done|].
  destruct (get v _) eqn:Hv; try done.
  destruct (heap !! address) as [[k|]|] eqn:Ha; [by eapply Hk|..];
    (apply Hu; exists address; split; [done|]; by rewrite Ha).
Qed.

Lemma with_bytes_ind (P : Call → Prop) heap v m f :
  (∀ m, P (type_error heap m)) → (∀ b, P (f b)) → P (with_bytes heap v m f).
Proof. intros Ht Hf. unfold with_bytes. by destruct (extract_array_buffer_view v). Qed.

Lemma returned_error_grows heap f args msg : grows heap f args (returned_error heap msg).
Proof. unfold returned_error. destruct (string_fits msg) eqn:Hm; [by left|by apply not_fits]. Qed.

Lemma threw_error_grows heap f args msg : grows heap f args (threw_error heap msg).
Proof. unfold threw_error. destruct (string_fits msg) eqn:Hm; [done|by apply not_fits]. Qed.

Lemma threw_error_refuses heap msg : refuses (threw_error heap msg).
Proof. unfold threw_error. by destruct (string_fits msg). Qed.

Lemma type_error_grows heap f args msg : grows heap f args (type_error heap msg).
Proof. by left. Qed.

Lemma finish_bytes_grows heap f args r : grows heap f args (finish_bytes heap r).
Proof. destruct r; [by left|apply threw_error_grows]. Qed.

Lemma finish_key_grows heap f args r : (∀ k, r = Ok k → js_key k ∧ origin f args k) →
  grows heap f args (finish_key heap r).
Proof. destruct r as [k|e]; intros Hk; [right|apply returned_error_grows]. exists k. split_and!; by try apply Hk. Qed.

Lemma aes_generated_js rng l e us args k : lawful_entropy rng →
  AesGcmRs.generate_key rng l e us = Ok k → js_key k ∧ origin GenerateKey args k.
Proof.
  intros Hr Hg. destruct (aes_generated _ _ _ _ _ Hr Hg) as (kb & -> & Hkb & Hl). split; [exact Hl|].
  unfold origin, whole. simpl. rewrite <- Hkb. by rewrite Z.div_mul.
Qed.

Lemma hmac_generated_js rng h l e us args k : lawful_entropy rng →
  HmacRs.generate_key rng h l e us = Ok k → js_key k ∧ origin GenerateKey args k.
Proof.
  intros Hr Hg. destruct (hmac_generated _ _ _ _ _ _ Hr Hg) as (kb & -> & Hkb & Hmin). unfold js_key, origin, whole. simpl.
  revert Hkb Hmin. generalize (default (Z.of_nat (HashAlgorithmImpl.output_size h) * 8) l). intros bits Hkb Hmin.
  split; [|done]. assert (Z.of_nat (HashAlgorithmImpl.output_size h) <= bits / 8); [|lia].
  apply Z.div_le_lower_bound; lia.
Qed.

Lemma aes_imported_js j e us k : AesGcmRs.import_key_jwk j e us = Ok k →
  js_key k ∧ ∃ s, jwk_k j = Some s ∧ base64url_decode s = Ok (as_bytes (handle k)).
Proof.
  unfold AesGcmRs.import_key_jwk. destruct (negb _); [done|]. destruct (jwk_k j) as [s|]; [|done].
  destruct (base64url_decode s) as [b|] eqn:Hb; [|done].
  destruct (alg j); repeat (case_if; cbn [result_bind]; try done); intros [= <-]; unfold js_key; simpl;
    (split; [tauto|by exists s]).
Qed.

Lemma hmac_imported_js j e us k : HmacRs.import_key_jwk j e us = Ok k →
  js_key k ∧ ∃ s, jwk_k j = Some s ∧ base64url_decode s = Ok (as_bytes (handle k)).
Proof.
  unfold HmacRs.import_key_jwk. destruct (negb _); [done|]. destruct (alg j ≫= _) as [h|]; [|done].
  destruct (jwk_k j) as [s|]; [|done]. destruct (base64url_decode s) as [b|] eqn:Hb; [|done].
  destruct (Nat.ltb_spec (length b) (HashAlgorithmImpl.output_size h)); [done|].
  intros [= <-]. split; [done|by exists s].
Qed.

Lemma from_v8_object_k v j : from_v8_object v = Ok (Some j) → jwk_k j = get_string_property v "k".
Proof.
  unfold from_v8_object. destruct (get_string_property v "kty"); [|done].
  destruct (get_string_array_property v "key_ops"); simpl; [|done]. by intros [= <-].
Qed.

Lemma from_v8_object_fatal args why : from_v8_object (arg args 1) = Err why → fatal ImportKey args why.
Proof.
  unfold from_v8_object. destruct (get_string_property (arg args 1) "kty"); [|done].
  unfold get_string_array_property, with_capacity, fatal. destruct (is_nullish _); [done|].
  destruct (Z.ltb_spec (two63 - 1) (24 * array_length (get (arg args 1) "key_ops"))) as [Hl|Hl]; simpl;
    [intros [= <-]; split; [done|lia]|].
  destruct (_ =? 0); simpl; [done|]. destruct (allocates _) eqn:Ha; simpl; [done|]. by intros [= <-].
Qed.

Lemma symmetric_no_curve k : js_key k → curve_name_of (algorithm k) = None.
Proof. unfold js_key. destruct (handle k), (algorithm k); done. Qed.

(** [deriveBits] and [deriveKey] read two keys and, for those of a program, fail. *)
Lemma derivation_grows f heap what args use : f = DeriveBitsOf ∨ f = DeriveKeyOf → key_boxes heap →
  (∀ k1 k2, js_key k1 → js_key k2 → grows heap f args (use k1 k2) ∧ refuses (use k1 k2)) →
  grows heap f args (with_derivation heap what args use) ∧ refuses (with_derivation heap what args use).
Proof.
  intros Hf Hh Huse. unfold with_derivation. case_if; [by split; [left|]|].
  case_if; [split; [apply threw_error_grows|apply threw_error_refuses]|].
  assert (Hargs : key_args f args = [get (arg args 0) "public"; arg args 1]) by (by destruct Hf as [->| ->]).
  apply with_key_ind; [by split; [left|]| |].
  { intros Hm. split; [|done]. unfold grows. rewrite Hargs. by apply Exists_cons_hd. }
  intros a k _ Ha. apply with_key_ind; [by split; [left|]| |].
  { intros Hm. split; [|done]. unfold grows. rewrite Hargs. by apply Exists_cons_tl, Exists_cons_hd. }
  intros a' k' _ Ha'. unfold key_boxes in Hh. rewrite Forall_lookup in Hh.
  apply Huse; [exact (Hh _ _ Ha')|exact (Hh _ _ Ha)].
Qed.

Lemma derive_bits_fails k1 k2 l : js_key k1 → ∃ e, derive_bits k1 k2 l = Err e.
Proof. intros Hk. unfold derive_bits. rewrite (symmetric_no_curve _ Hk). by eexists. Qed.

Lemma derive_bits_call heap args : key_boxes heap →
  grows heap DeriveBitsOf args (subtle_derive_bits heap args) ∧ refuses (subtle_derive_bits heap args).
Proof.
  intros Hh. unfold subtle_derive_bits. case_if; [by split; [left|]|]. apply derivation_grows; [by left|done|].
  intros k1 k2 Hk1 _. cbv zeta. destruct (derive_bits_fails k1 k2 (if is_nullish (arg args 2) then None
    else Some (integer_as_u32 (to_number (arg args 2)))) Hk1) as [e ->].
  split; [apply threw_error_grows|apply threw_error_refuses].
Qed.

Lemma derive_key_call heap args : key_boxes heap →
  grows heap DeriveKeyOf args (subtle_derive_key heap args) ∧ refuses (subtle_derive_key heap args).
Proof.
  intros Hh. unfold subtle_derive_key. case_if; [by split; [left|]|]. apply derivation_grows; [by right|done|].
  intros k1 k2 Hk1 _. cbv zeta. case_if; [by split; [left|]|]. unfold derive_key.
  destruct (derive_bits_fails k1 k2 (Some (f64_to_u16 (to_number (get (arg args 2) "length")) / 8)) Hk1) as [e ->].
  split; [apply threw_error_grows|apply threw_error_refuses].
Qed.

Lemma generate_key_grows rng heap args : lawful_entropy rng →
  grows heap GenerateKey args (subtle_generate_key rng heap args).
Proof.
  intros Hrng. unfold subtle_generate_key. do 2 (case_if; [by left|]). case_if; [|case_if].
  - apply finish_key_grows. intros k. by apply aes_generated_js.
  - apply finish_key_grows. intros k. by apply hmac_generated_js.
  - apply returned_error_grows.
Qed.

Lemma import_key_grows heap args : grows heap ImportKey args (subtle_import_key heap args).
Proof.
  unfold subtle_import_key. do 2 (case_if; [by left|]). case_if; [|apply (finish_key_grows _ _ _ (Err _)); done].
  case_if; [by left|]. destruct (from_v8_object (arg args 1)) as [[jwk|]|why] eqn:Hj; [|by left|by apply from_v8_object_fatal].
  apply from_v8_object_k in Hj. apply finish_key_grows. intros k Hk. unfold origin. rewrite <- Hj. revert Hk.
  do 2 (case_if; [first [apply aes_imported_js|apply hmac_imported_js]|]). done.
Qed.

(** The functions that read one key and give no new one. *)
Lemma reads_key_grows f heap args m1 m2 use :
  key_args f args = [arg args 1] → (∀ k, grows heap f args (use k)) →
  grows heap f args (with_key heap (arg args 1) m1 m2 use).
Proof.
  intros Hf Huse. apply with_key_ind; [by left| |done]. intros Hm. unfold grows. rewrite Hf. by apply Exists_cons_hd.
Qed.

Lemma call_grows f rng heap args : lawful_entropy rng → key_boxes heap →
  grows heap f args (bind_crypto to_uppercase f rng heap args).
Proof.
  intros Hrng Hh.
  destruct f; cbn [bind_crypto]; [by apply generate_key_grows|apply import_key_grows| | | | | |
    |by apply derive_bits_call|by apply derive_key_call].
  - unfold subtle_export_key. case_if; [by left|]. apply reads_key_grows; [done|]. intros k.
    case_if; [apply threw_error_grows|]. case_if; [|by left].
    destruct (match algorithm k with AesGcm _ => _ | _ => _ end); [by left|apply threw_error_grows].
  - unfold subtle_encrypt. do 2 (case_if; [by left|]). apply reads_key_grows; [done|]. intros k.
    apply with_bytes_ind; [by left|]. intros b. apply finish_bytes_grows.
  - unfold subtle_decrypt. do 2 (case_if; [by left|]). apply reads_key_grows; [done|]. intros k.
    apply with_bytes_ind; [by left|]. intros b. apply finish_bytes_grows.
  - unfold subtle_sign. case_if; [by left|]. apply reads_key_grows; [done|]. intros k.
    apply with_bytes_ind; [by left|]. intros b. apply finish_bytes_grows.
  - unfold subtle_verify. case_if; [by left|]. apply reads_key_grows; [done|]. intros k.
    do 2 (apply with_bytes_ind; [by left|]; intros ?).
    destruct (match algorithm k with Hmac _ _ => _ | _ => _ end); [by left|apply threw_error_grows].
  - unfold subtle_digest. apply with_bytes_ind; [by left|]. intros b. apply finish_bytes_grows.
Qed.

Lemma grows_boxes heap heap' f args c : grows heap f args c → key_boxes heap →
  (∃ v, c = CallReturned heap' v ∨ c = CallThrew heap' v) → key_boxes heap'.
Proof.
  intros Hg Hh [v [->| ->]]; simpl in Hg; [|by subst].
  destruct Hg as [->|(k & -> & _ & Hk & _)]; [done|]. apply Forall_app. split; [done|]. by apply Forall_singleton.
Qed.

Lemma reachable_boxes heap : reachable to_uppercase heap → key_boxes heap.
Proof.
  induction 1 as [|heap body _ IH|heap f rng args heap' v _ IH Hrng Hc]; [constructor| |].
  - apply Forall_app. split; [done|]. by apply Forall_singleton.
  - eapply grows_boxes; [by eapply (call_grows f rng heap args)|done|eauto].
Qed.
End safety.

(** ** Exporting *)

Section exporting.
Context `{JsText} `{PrimitiveLaws} `{EcCrate} (to_uppercase : string → string).

Definition jwk_alg (a : AlgorithmIdentifier) : string :=
  match a with
  | AesGcm l => if l =? 128 then "A128GCM" else if l =? 192 then "A192GCM" else "A256GCM"
  | Hmac h _ => hmac_alg h
  | _ => ""
  end.

Lemma js_key_exports k : js_key k → extractable k = true →
  match algorithm k with
  | AesGcm _ => AesGcmRs.export_key_jwk k
  | Hmac _ _ => HmacRs.export_key_jwk k
  | _ => Err InvalidKey
  end = Ok (new_symmetric (jwk_alg (algorithm k)) (base64url_encode (as_bytes (handle k))) true
              (usage_str <$> usages k)).
Proof.
  unfold js_key, AesGcmRs.export_key_jwk, HmacRs.export_key_jwk. intros Hk ->. revert Hk.
  destruct (handle k), (algorithm k) as [l|h [n|]|h|h s|h|c h|c]; simpl; try done.
  - by intros [->|[->| ->]].
  - by destruct h.
Qed.

Lemma export_call heap a k v format : js_key k → heap !! a = Some (BoxedKey k) →
  get v "__crypto_key_ptr__" = VExternal a →
  subtle_export_key heap [VString format; v] =
    (if extractable k then
       if String.eqb format "jwk" then
         CallReturned heap (to_v8_object (new_symmetric (jwk_alg (algorithm k))
           (base64url_encode (as_bytes (handle k))) true (usage_str <$> usages k)))
       else type_error heap "Only JWK format is supported for export"
     else threw_error heap "The CryptoKey is not extractable").
Proof.
  intros Hk Ha Hv. unfold subtle_export_key, with_key, extract_crypto_key.
  change (arg [VString format; v] 1) with v. change (to_string (arg [VString format; v] 0)) with format.
  rewrite Hv, Ha. assert (is_nullish v = false) as -> by (by destruct v). cbn [length Nat.ltb Nat.leb].
  destruct (extractable k) eqn:He; simpl; [|done]. destruct (String.eqb format "jwk"); [|done].
  by rewrite (js_key_exports k Hk He).
Qed.

(** An AES key works only if its bytes are as many as its label says. *)
Lemma aes_uses_whole k params data c :
  AesGcmRs.encrypt k params data = Ok c ∨ AesGcmRs.decrypt k params data = Ok c → whole k.
Proof.
  assert (Hring : ∀ kb, handle k = AesGcmKey kb → ∀ bits, AesGcmRs.ring_algorithm (algorithm k) = Ok bits →
    unbound_key bits kb = true → whole k).
  { intros kb Hh bits Hr Hu. unfold whole. rewrite Hh. destruct (algorithm k) as [l|?|?|?|?|?|?]; try done.
    revert Hr. unfold AesGcmRs.ring_algorithm.
    destruct (Z.eqb_spec l 128) as [->|]; [|destruct (Z.eqb_spec l 256) as [->|]; [|by case_if]]; intros [= <-];
      apply unbound_key_iff in Hu; (lia || tauto || (simpl; rewrite <- Hu, Z.div_mul; lia)). }
  intros [He|He]; revert He; unfold AesGcmRs.encrypt, AesGcmRs.decrypt; (destruct (AesGcmRs.validate params); [|done]);
    cbn [result_bind]; destruct (handle k) as [kb| | | | |] eqn:Hh; try done;
    (case_if; [done|]); (destruct (AesGcmRs.ring_algorithm (algorithm k)) as [bits|] eqn:Hr; [|done]);
    cbn [result_bind]; (destruct (unbound_key bits kb) eqn:Hu; [|done]); intros _; by apply (Hring kb eq_refl bits).
Qed.

Lemma finish_bytes_ok heap r heap' w : finish_bytes heap r = CallReturned heap' w → ∃ c, r = Ok c.
Proof. destruct r as [c|e]; [by exists c|]. simpl. unfold threw_error. by case_if. Qed.

Lemma with_key_at heap v a k m1 m2 use : get v "__crypto_key_ptr__" = VExternal a →
  heap !! a = Some (BoxedKey k) → with_key heap v m1 m2 use = use k.
Proof.
  intros Hv Ha. unfold with_key, extract_crypto_key. rewrite Hv, Ha. by destruct v.
Qed.

Lemma cipher_call_whole f rng heap a k v algorithm data heap' w : f = EncryptData ∨ f = DecryptData →
  heap !! a = Some (BoxedKey k) → get v "__crypto_key_ptr__" = VExternal a →
  bind_crypto to_uppercase f rng heap [algorithm; v; data] = CallReturned heap' w → is_error w = true ∨ whole k.
Proof.
  intros Hf Ha Hv. destruct Hf as [->| ->]; cbn [bind_crypto]; unfold subtle_encrypt, subtle_decrypt;
    cbn [length Nat.ltb Nat.leb]; change (arg [algorithm; v; data] 0) with algorithm;
    change (arg [algorithm; v; data] 1) with v; change (arg [algorithm; v; data] 2) with data;
    (destruct (is_nullish algorithm); [intros [= <- <-]; by left|]); rewrite (with_key_at _ _ a k) by done;
    unfold with_bytes; (destruct (extract_array_buffer_view data) as [d|]; [|intros [= <- <-]; by left]);
    intros Hc; apply finish_bytes_ok in Hc as [c Hc]; right; revert Hc; (case_if; [|done]); intros Hc;
    eapply aes_uses_whole; eauto.
Qed.

(** A JWK of any bytes under the name of an AES-GCM key. *)
Definition aes_jwk (l : Z) (kb : bytes) : JsVal :=
  VObject [("kty", VString "oct"); ("alg", VString (jwk_alg (AesGcm l))); ("k", VString (base64url_encode kb))].

Definition aes_name : JsVal := VObject [("name", VString "AES-GCM")].

Lemma import_any_bytes heap l kb e us : l = 128 ∨ l = 192 ∨ l = 256 →
  subtle_import_key heap [VString "jwk"; aes_jwk l kb; aes_name; e; us] =
    new_key heap (mkKey (AesGcmKey kb) (AesGcm l) (is_true e) (usages_arg us)).
Proof.
  intros Hl. unfold subtle_import_key. cbn [length Nat.ltb Nat.leb]. set (args := [_; _; _; _; _]).
  change (to_string (arg args 0)) with "jwk". change (arg args 1) with (aes_jwk l kb). change (arg args 2) with aes_name.
  change (arg args 3) with e. change (arg args 4) with us. cbn [is_nullish aes_name aes_jwk]. fold (aes_jwk l kb).
  fold aes_name. change (algorithm_name aes_name) with "AES-GCM". cbn [String.eqb Ascii.eqb Bool.eqb].
  change (from_v8_object (aes_jwk l kb)) with
    (@Ok (option JwkObject) Fatal (Some (mkJwk "oct" (Some (jwk_alg (AesGcm l))) (Some (base64url_encode kb)) None None))).
  cbv iota beta. unfold AesGcmRs.import_key_jwk. cbn [kty jwk_k alg]. rewrite base64url_round.
  by destruct Hl as [->|[->| ->]].
Qed.

(** C33. What programs hold as keys, and what calls do to them.  Every key in memory is
    labelled an AES-GCM key of 128, 192 or 256 bits, or is an HMAC key at least as long as
    its hash.  A call of any function of [crypto.subtle] with any arguments leaves the
    memory as it is or adds the one key it returns; the bytes of a generated key are as
    many as its label says, those of an imported key are what the text of the JWK decodes
    to.  A call has no defined behaviour only if one of the values it reads a key from
    carries the address of something else, and ends the process only if it is an
    [importKey] with a length of [key_ops] no memory can be reserved for or if the error
    to report is longer than a string can be.  [deriveBits] and [deriveKey], which need
    elliptic-curve keys, return nothing but errors.  Importing does not compare the bytes
    with the label: a JWK of any bytes makes a key of any of the three labels, and a key
    whose bytes are not as many as its label says encrypts and decrypts nothing. *)
Theorem js_keys_symmetric heap (Hreach : reachable to_uppercase heap) :
  key_boxes heap ∧
  (∀ f rng args, lawful_entropy rng → grows heap f args (bind_crypto to_uppercase f rng heap args)) ∧
  (∀ rng args, refuses (bind_crypto to_uppercase DeriveBitsOf rng heap args) ∧
               refuses (bind_crypto to_uppercase DeriveKeyOf rng heap args)) ∧
  (∀ rng l kb e us, l = 128 ∨ l = 192 ∨ l = 256 →
     bind_crypto to_uppercase ImportKey rng heap [VString "jwk"; aes_jwk l kb; aes_name; e; us] =
       new_key heap (mkKey (AesGcmKey kb) (AesGcm l) (is_true e) (usages_arg us))) ∧
  ∀ f rng a k v algorithm data heap' w, f = EncryptData ∨ f = DecryptData →
    heap !! a = Some (BoxedKey k) → get v "__crypto_key_ptr__" = VExternal a →
    bind_crypto to_uppercase f rng heap [algorithm; v; data] = CallReturned heap' w → is_error w = true ∨ whole k.
Proof.
  pose proof (reachable_boxes _ _ Hreach) as Hh. split; [done|]. split; [by intros; apply call_grows|]. split.
  { intros rng args. split; [by apply derive_bits_call|by apply derive_key_call]. }
  split; [intros rng l kb e us Hl; by apply import_any_bytes|].
  intros f rng a k v algorithm data heap' w. by apply cipher_call_whole.
Qed.

(** C34. Exporting follows the key in memory and nothing else: for any object that carries
    the address of a key, whatever its other properties claim, a key that must not be
    extracted is refused with an exception, and otherwise the JWK holds the bytes of the
    key, its algorithm and its usages; bytes whose text is longer than a string of the
    engine are left out. *)
Theorem export_key_exact rng heap a k v format
    (Hreach : reachable to_uppercase heap) (Ha : heap !! a = Some (BoxedKey k))
    (Hv : get v "__crypto_key_ptr__" = VExternal a) :
  bind_crypto to_uppercase ExportKey rng heap [VString format; v] =
    (if extractable k then
       if String.eqb format "jwk" then
         CallReturned heap (to_v8_object (new_symmetric (jwk_alg (algorithm k))
           (base64url_encode (as_bytes (handle k))) true (usage_str <$> usages k)))
       else type_error heap "Only JWK format is supported for export"
     else threw_error heap "The CryptoKey is not extractable").
Proof.
  pose proof (reachable_boxes to_uppercase _ Hreach) as Hh. unfold key_boxes in Hh. rewrite Forall_lookup in Hh.
  by apply (export_call _ a); [exact (Hh _ _ Ha)|..].
Qed.

(** ** A round trip through JavaScript *)

Definition aes_algorithm (l : Z) : JsVal := VObject [("name", VString "AES-GCM"); ("length", VNumber (f64_of_Z l))].
Definition aes_call (iv : bytes) : JsVal := VObject [("name", VString "AES-GCM"); ("iv", VUint8Array iv)].

Lemma f64_to_usize_of_Z z : 0 <= z < 2 ^ 53 → f64_to_usize (f64_of_Z z) = z.
Proof.
  intros [H0' Hz]. destruct z as [|p|p]; [by vm_compute| |lia].
  destruct (f64_of_pos p Hz) as (m & e & -> & Hd & He & Hm).
  unfold f64_to_usize. rewrite Hm. replace e with (- (- e)) at 2 by lia.
  rewrite Z.shiftl_opp_r, Z.shiftr_div_pow2, Z.div_mul by lia.
  change (2 ^ 53) with 9007199254740992 in Hz. zlia.
Qed.

(** Arrays JavaScript can make are shorter than 2{^53}. *)
Definition js_length {A} (l : list A) : Prop := Z.of_nat (length l) < 2 ^ 53.

Lemma array_indices l : js_length l →
  seq 0 (Z.to_nat (f64_to_usize (to_number (get (VArray l) "length")))) = seq 0 (length l).
Proof. intros Hl. simpl. rewrite f64_to_usize_of_Z by (unfold js_length in Hl; lia). by rewrite Nat2Z.id. Qed.

Lemma array_length_strings (l : list string) : js_length l → array_length (VArray (VString <$> l)) = Z.of_nat (length l).
Proof.
  intros Hl. unfold array_length. simpl. rewrite length_fmap.
  apply f64_to_usize_of_Z. unfold js_length in Hl. lia.
Qed.

(** The strings of a JWK exist, and the memory for reading its operations. *)
Definition representable (j : JwkObject) : Prop :=
  string_fits (kty j) = true ∧ (∀ a, alg j = Some a → string_fits a = true) ∧
  (∀ k, jwk_k j = Some k → string_fits k = true) ∧
  ∀ l, key_ops j = Some l → js_length l ∧ Forall (λ op, string_fits op = true) l ∧
                            with_capacity (Z.of_nat (length l)) = Ok tt.

Lemma new_strings l : Forall (λ op, string_fits op = true) l →
  (λ op, default VUndefined (new_string op)) <$> l = VString <$> l.
Proof.
  intros Hl. induction Hl as [|op l Hop _ IH]; [done|]. rewrite !fmap_cons, IH. unfold new_string. by rewrite Hop.
Qed.

Lemma indexed_strings (l : list string) :
  (λ i, to_string (get_index (VArray (VString <$> l)) i)) <$> seq 0 (length l) = l.
Proof.
  apply list_eq. intros i. rewrite list_lookup_fmap. destruct (decide (i < length l)%nat) as [Hi|Hi].
  - rewrite lookup_seq_lt by done. simpl. rewrite list_lookup_fmap.
    destruct (lookup_lt_is_Some_2 l i Hi) as [s Hs]. by rewrite Hs.
  - rewrite lookup_seq_ge by lia. symmetry. apply lookup_ge_None. lia.
Qed.

Lemma omap_compose {A B C} (f : B → option C) (g : A → B) (l : list A) : omap (λ x, f (g x)) l = omap f (g <$> l).
Proof.
  induction l as [|x l IH]; [done|]. rewrite fmap_cons. simpl. destruct (f (g x)); [f_equal|]; apply IH.
Qed.

Lemma usages_of_strings l : js_length l → usages_arg (VArray (VString <$> l)) = omap usage_from_str l.
Proof.
  intros Hl. unfold usages_arg. rewrite array_indices by (unfold js_length; by rewrite length_fmap).
  cbn [is_nullish]. rewrite length_fmap, (omap_compose usage_from_str), indexed_strings. done.
Qed.

(** A JWK survives the way into an object of JavaScript and back. *)
Lemma jwk_object_round j : representable j → from_v8_object (to_v8_object j) = Ok (Some j).
Proof.
  intros (Ht & Ha & Hk & Hops). destruct j as [t a k e o]. simpl in Ht, Ha, Hk, Hops.
  assert (Hobj : to_v8_object (mkJwk t a k e o) = VObject ([("kty", VString t)]
    ++ optional_prop "alg" (VString <$> a) ++ optional_prop "k" (VString <$> k) ++ optional_prop "ext" (VBool <$> e)
    ++ optional_prop "key_ops" ((λ l, VArray (VString <$> l)) <$> o))).
  { unfold to_v8_object, new_string. cbn [kty alg jwk_k ext key_ops]. rewrite Ht.
    assert (a ≫= (λ s, if string_fits s then Some (VString s) else None) = VString <$> a) as ->
      by (destruct a as [a|]; [simpl; by rewrite (Ha a)|done]).
    assert (k ≫= (λ s, if string_fits s then Some (VString s) else None) = VString <$> k) as ->
      by (destruct k as [k|]; [simpl; by rewrite (Hk k)|done]).
    destruct o as [l|]; [|done]. destruct (Hops l eq_refl) as (_ & Hl & _).
    cbn [fmap option_fmap option_map]. pose proof (new_strings l Hl) as Hn. unfold new_string in Hn. by rewrite Hn. }
  rewrite Hobj. unfold from_v8_object. set (v := VObject _).
  assert (Ho : get_string_array_property v "key_ops" = Ok o).
  { unfold get_string_array_property.
    assert (get v "key_ops" = match o with Some l => VArray (VString <$> l) | None => VUndefined end) as ->
      by (unfold v; destruct a, k, e, o; reflexivity).
    destruct o as [l|]; [|done]. destruct (Hops l eq_refl) as (Hjs & _ & Hcap). cbn [is_nullish].
    rewrite array_length_strings, Hcap by done. cbn [result_bind]. by rewrite Nat2Z.id, indexed_strings. }
  rewrite Ho. unfold v. destruct a, k, e, o; reflexivity.
Qed.

Lemma usage_round u : usage_from_str (usage_str u) = Some u.
Proof. by destruct u. Qed.

Lemma extract_key_object heap a k : heap !! a = Some (BoxedKey k) →
  extract_crypto_key heap (key_object a k) = ExtractedKey k.
Proof.
  intros Ha. unfold extract_crypto_key.
  change (get (key_object a k) "__crypto_key_ptr__") with (VExternal a). cbv iota. by rewrite Ha.
Qed.

Lemma omap_length_le {A B} (f : A → option B) l : (length (omap f l) <= length l)%nat.
Proof. induction l as [|x l IH]; [done|]. unfold omap in *. simpl. destruct (f x); simpl; lia. Qed.

(** A key made, used and moved by a program: [generateKey] answers with a key object,
    [encrypt] with it and a nonce of 12 bytes with a buffer, [decrypt] with the data
    again, and what [exportKey] gives [importKey] reads as a key with the same bytes. *)
Theorem js_key_round_trip rng rng2 heap l us iv data
    (Hrng : lawful_entropy rng) (Hreach : reachable to_uppercase heap) (Hl : l = 128 ∨ l = 256)
    (Hus : js_length us) (Henc : "encrypt" ∈ us) (Hdec : "decrypt" ∈ us)
    (Hiv : length iv = 12%nat) (Hdata : Z.of_nat (length data) <= MAX_PLAINTEXT)
    (Hfill : ∀ n, is_Some (rng n)) (Hmem : ∀ n, n <= 24 * Z.of_nat (length us) → allocates n = true)
    (Htext : ∀ b, (length b <= 32)%nat → string_fits (base64url_encode b) = true) :
  ∃ heap1 k c jwk,
    let a := length heap in
    heap1 = heap ++ [BoxedKey k] ∧
    bind_crypto to_uppercase GenerateKey rng heap [aes_algorithm l; VBool true; VArray (VString <$> us)] =
      CallReturned heap1 (key_object a k) ∧
    bind_crypto to_uppercase EncryptData rng2 heap1 [aes_call iv; key_object a k; VUint8Array data] =
      CallReturned heap1 (VArrayBuffer c) ∧
    bind_crypto to_uppercase DecryptData rng2 heap1 [aes_call iv; key_object a k; VArrayBuffer c] =
      CallReturned heap1 (VArrayBuffer data) ∧
    bind_crypto to_uppercase ExportKey rng2 heap1 [VString "jwk"; key_object a k] = CallReturned heap1 jwk ∧
    bind_crypto to_uppercase ImportKey rng2 heap1
        [VString "jwk"; jwk; aes_algorithm l; VBool true; VArray (VString <$> us)] =
      CallReturned (heap1 ++ [BoxedKey k]) (key_object (length heap1) k).
Proof.
  destruct (Hfill (Z.to_nat (l / 8))) as [kb Hkb]. pose proof (Hrng _ _ Hkb) as Hlen.
  set (uss := omap usage_from_str us).
  assert (Hgen : AesGcmRs.generate_key rng l true uss = Ok (mkKey (AesGcmKey kb) (AesGcm l) true uss)).
  { unfold AesGcmRs.generate_key. destruct Hl as [->| ->];
      [change (rng 16%nat = Some kb) in Hkb|change (rng 32%nat = Some kb) in Hkb]; simpl; by rewrite Hkb. }
  set (k := mkKey (AesGcmKey kb) (AesGcm l) true uss) in *.
  assert (Hkl : Z.of_nat (length kb) * 8 = l) by (destruct Hl as [->| ->]; rewrite Hlen; reflexivity).
  assert (Hin : ∀ u, usage_str u ∈ us → u ∈ uss).
  { intros u Hu. unfold uss. apply list_elem_of_omap. exists (usage_str u). by rewrite usage_round. }
  destruct (aes_round_trip kb l iv None data k eq_refl eq_refl Hl Hkl (Hin Encrypt Henc) Hiv Hdata) as (c & Hc & Hd).
  assert (Ha : (heap ++ [BoxedKey k]) !! length heap = Some (BoxedKey k)) by (by apply list_lookup_middle).
  pose proof (extract_key_object _ _ _ Ha) as Hx.
  assert (Hnum : f64_to_u16 (to_number (get (aes_algorithm l) "length")) = l).
  { unfold f64_to_u16. simpl. rewrite f64_to_usize_of_Z by lia. lia. }
  assert (Hjs : js_key k) by (unfold js_key; simpl; tauto).
  exists (heap ++ [BoxedKey k]), k, c, (to_v8_object (new_symmetric (jwk_alg (AesGcm l)) (base64url_encode kb) true
    (usage_str <$> uss))). cbv zeta.
  split; [done|]. split; [|split; [|split; [|split]]].
  - unfold bind_crypto, subtle_generate_key. cbn [length Nat.ltb Nat.leb].
    change (arg _ 0) with (aes_algorithm l). change (arg _ 1) with (VBool true).
    change (arg _ 2) with (VArray (VString <$> us)). cbn [is_nullish aes_algorithm].
    change (algorithm_name _) with "AES-GCM". cbn [String.eqb Ascii.eqb Bool.eqb is_true].
    rewrite usages_of_strings by done. fold (aes_algorithm l). rewrite Hnum. fold uss. by rewrite Hgen.
  - unfold bind_crypto, subtle_encrypt. cbn [length Nat.ltb Nat.leb].
    change (arg _ 0) with (aes_call iv). change (arg _ 1) with (key_object (length heap) k).
    change (arg _ 2) with (VUint8Array data). cbn [is_nullish aes_call].
    change (algorithm_name _) with "AES-GCM". cbn [String.eqb Ascii.eqb Bool.eqb].
    unfold with_key. cbn [is_nullish key_object]. fold (key_object (length heap) k). rewrite Hx.
    unfold with_bytes. cbn [extract_array_buffer_view]. fold (aes_call iv).
    change (aes_params (aes_call iv)) with (AesGcmRs.mkParams iv None 128). by rewrite Hc.
  - unfold bind_crypto, subtle_decrypt. cbn [length Nat.ltb Nat.leb].
    change (arg _ 0) with (aes_call iv). change (arg _ 1) with (key_object (length heap) k).
    change (arg _ 2) with (VArrayBuffer c). cbn [is_nullish aes_call].
    change (algorithm_name _) with "AES-GCM". cbn [String.eqb Ascii.eqb Bool.eqb].
    unfold with_key. cbn [is_nullish key_object]. fold (key_object (length heap) k). rewrite Hx.
    unfold with_bytes. cbn [extract_array_buffer_view]. fold (aes_call iv).
    change (aes_params (aes_call iv)) with (AesGcmRs.mkParams iv None 128).
    by rewrite (Hd k eq_refl eq_refl (Hin Decrypt Hdec)).
  - unfold bind_crypto. by rewrite (export_call _ (length heap) k).
  - unfold bind_crypto, subtle_import_key. cbn [length Nat.ltb Nat.leb].
    set (jwk := new_symmetric _ _ _ _). change (to_string (arg _ 0)) with "jwk".
    change (arg _ 1) with (to_v8_object jwk). change (arg _ 2) with (aes_algorithm l).
    change (arg _ 3) with (VBool true). change (arg _ 4) with (VArray (VString <$> us)).
    cbn [is_nullish aes_algorithm to_v8_object]. fold (aes_algorithm l). fold (to_v8_object jwk).
    change (algorithm_name _) with "AES-GCM". cbn [String.eqb Ascii.eqb Bool.eqb is_true].
    rewrite usages_of_strings by done. fold uss. rewrite jwk_object_round.
    + rewrite (aes_import_export true uss l kb k jwk); [done| |done|done].
      exact (js_key_exports k Hjs eq_refl).
    + assert (Huss : (length uss <= length us)%nat) by apply omap_length_le. split_and!; [done|..].
      * intros s [= <-]. by destruct Hl as [->| ->].
      * intros s [= <-]. apply Htext. simpl. lia.
      * intros ops [= <-]. unfold js_length in *. rewrite length_fmap. split; [lia|]. split.
        -- apply Forall_fmap, Forall_true. by intros [].
        -- unfold with_capacity. assert (24 * Z.of_nat (length uss) <= 24 * Z.of_nat (length us)) by lia.
           rewrite (proj2 (Z.ltb_ge _ _)) by (unfold two63; lia). by rewrite Hmem, orb_true_r.
Qed.
End exporting.

Section mistakes.
Context `{JsText} `{Primitives} `{EcCrate} (to_uppercase : string → string).

(** The errors of [generateKey] and [importKey] are not thrown: they are handed back
    as if they were the key.  The length of an AES-GCM key has no default: without one the
    call fails with "key length: 0".  A hash given as an object is not looked into: the
    HMAC key is made for SHA-256 whatever the object says. *)
Theorem generate_key_errors rng heap args extractable us :
  (∀ heap' v, bind_crypto to_uppercase GenerateKey rng heap args ≠ CallThrew heap' v) ∧
  (∀ heap' v, bind_crypto to_uppercase ImportKey rng heap args ≠ CallThrew heap' v) ∧
  bind_crypto to_uppercase GenerateKey rng heap [VObject [("name", VString "AES-GCM")]; extractable; us] =
    CallReturned heap (VError PlainError "Invalid algorithm: Invalid AES-GCM key length: 0") ∧
  ∀ h heap' v, bind_crypto to_uppercase GenerateKey rng heap
      [VObject [("name", VString "HMAC"); ("hash", VObject [("name", VString h)])]; extractable; us]
      = CallReturned heap' v →
    is_error v = true ∨ ∃ kb, heap' = heap ++ [BoxedKey (mkKey (HmacKey kb) (Hmac Sha256 (Some 256))
      (is_true extractable) (usages_arg us))].
Proof.
  assert (He : ∀ m heap' v, returned_error heap m ≠ CallThrew heap' v) by (intros; unfold returned_error; by case_if).
  assert (Hf : ∀ r heap' v, finish_key heap r ≠ CallThrew heap' v) by (intros []; [done|intros; apply He]).
  split; [|split; [|split]].
  - intros heap' v. simpl. unfold subtle_generate_key. repeat (case_if; [done||apply Hf|]). apply He.
  - intros heap' v. simpl. unfold subtle_import_key. do 2 (case_if; [done|]). case_if; [|apply Hf].
    case_if; [done|]. destruct (from_v8_object _) as [[]|]; [apply Hf|done|done].
  - reflexivity.
  - intros h heap' v. unfold bind_crypto, subtle_generate_key. cbn [length Nat.ltb Nat.leb].
    set (o := VObject [("name", VString "HMAC"); ("hash", VObject [("name", VString h)])]).
    change (arg _ 0) with o. change (arg _ 1) with extractable. change (arg _ 2) with us.
    change (algorithm_name o) with "HMAC". change (is_nullish o) with false.
    cbn [String.eqb Ascii.eqb Bool.eqb]. change (hash_arg o) with Sha256. change (length_arg o) with (@None Z).
    unfold HmacRs.generate_key. change (HmacRs.validate _) with (@Ok unit CryptoError tt). cbn [result_bind].
    destruct (rng _) as [kb|]; intros [= <- <-]; [right; by exists kb|by left].
Qed.

(** Any address will do for a key: an object that carries the address of a response
    body as its key, which a program can build from a response [fetch] gave it, is read
    as a key although none is there. *)
Theorem forged_key_undefined heap a body v rng args
    (Ha : heap !! a = Some (BoxedResponse body)) (Hv : get v "__crypto_key_ptr__" = VExternal a) :
  bind_crypto to_uppercase ExportKey rng heap (args :: [v]) = CallUndefined ∧
  (∀ d, bind_crypto to_uppercase SignData rng heap [args; v; d] = CallUndefined) ∧
  reachable to_uppercase [BoxedResponse body].
Proof.
  assert (Hn : is_nullish v = false) by (by destruct v).
  assert (Hx : extract_crypto_key heap v = ForeignBox) by (unfold extract_crypto_key; by rewrite Hv, Ha).
  assert (Hw : ∀ m1 m2 f, with_key heap v m1 m2 f = CallUndefined) by (intros; unfold with_key; by rewrite Hn, Hx).
  split; [apply Hw|]. split; [intros d; apply Hw|]. apply (reachable_fetch _ []). constructor.
Qed.

End mistakes.

(** ** Examples *)

Definition demo_text : JsText := {|
  number_text := λ _, "0"; text_number := λ _, S754_nan; utf16_units := λ _, []; external_text := "[object Object]";
  allocates := λ n, n <? 1000000;
|}.

#[local] Existing Instance demo_text.
#[local] Existing Instance demo_primitives.
#[local] Existing Instance demo_primitive_laws.
#[local] Existing Instance demo_ec.

Definition upper (s : string) : string := s.

(** A key that must not be extracted, made by a program. *)
Definition demo_secret : CryptoKey := mkKey (AesGcmKey (replicate 16 Byte.x2a)) (AesGcm 128) false [Encrypt].

Lemma demo_reachable : reachable upper [BoxedKey demo_secret].
Proof.
  apply (reachable_call upper [] GenerateKey demo_rng
    [aes_algorithm 128; VBool false; VArray [VString "encrypt"]] _ (key_object 0 demo_secret));
    [constructor|exact demo_rng_lawful|left; vm_compute; reflexivity].
Qed.

(** A key of one byte under the label of 256 bits, and its use. *)
Definition byte_key : CryptoKey := mkKey (AesGcmKey [Byte.x2a]) (AesGcm 256) true [Encrypt].

Lemma js_keys_symmetric_witness :
  js_key demo_secret ∧
  refuses (bind_crypto upper DeriveKeyOf demo_rng [BoxedKey demo_secret]
    [VObject [("name", VString "ECDH"); ("public", key_object 0 demo_secret)]; key_object 0 demo_secret;
     aes_algorithm 256; VBool true; VArray []]) ∧
  bind_crypto upper ImportKey demo_rng [BoxedKey demo_secret]
    [VString "jwk"; aes_jwk 256 [Byte.x2a]; aes_name; VBool true; VArray [VString "encrypt"]] =
    new_key [BoxedKey demo_secret] byte_key.
Proof.
  destruct (js_keys_symmetric upper _ demo_reachable) as (Hk & _ & Hd & Hi & _).
  split; [exact (proj1 (Forall_singleton _ _) Hk)|]. split; [apply Hd|].
  rewrite (Hi demo_rng 256 [Byte.x2a] (VBool true) (VArray [VString "encrypt"])) by (right; right; reflexivity).
  reflexivity.
Defined.

(** The object claims the key is extractable. *)
Lemma export_key_exact_witness :
  bind_crypto upper ExportKey demo_rng [BoxedKey demo_secret]
    [VString "jwk"; VObject [("extractable", VBool true); ("__crypto_key_ptr__", VExternal 0)]] =
  CallThrew [BoxedKey demo_secret] (VError PlainError "The CryptoKey is not extractable").
Proof.
  apply (export_key_exact upper demo_rng _ 0 demo_secret
    (VObject [("extractable", VBool true); ("__crypto_key_ptr__", VExternal 0)]) "jwk" demo_reachable); reflexivity.
Defined.

Lemma demo_texts_fit (b : bytes) : (length b <= 32)%nat → string_fits (base64url_encode b) = true.
Proof.
  intros Hb. unfold string_fits, slen. apply Z.leb_le.
  assert (String.length (base64url_encode b) = length b) as -> by (clear Hb; simpl; induction b as [|x b IH]; [done|]; destruct x; cbn; by f_equal).
  unfold MAX_STRING_LENGTH. lia.
Qed.

Lemma js_key_round_trip_witness : ∃ heap1 k c,
  bind_crypto upper EncryptData demo_rng heap1 [aes_call demo_iv; key_object 1 k; VUint8Array demo_data] =
    CallReturned heap1 (VArrayBuffer c) ∧
  bind_crypto upper DecryptData demo_rng heap1 [aes_call demo_iv; key_object 1 k; VArrayBuffer c] =
    CallReturned heap1 (VArrayBuffer demo_data).
Proof.
  destruct (js_key_round_trip upper demo_rng demo_rng [BoxedKey demo_secret] 256 ["encrypt"; "decrypt"] demo_iv demo_data)
    as (heap1 & k & c & jwk & _ & _ & He & Hd & _);
    [exact demo_rng_lawful|exact demo_reachable|right; reflexivity|vm_compute; reflexivity|in_list|in_list
    |reflexivity|vm_compute; discriminate|intros n; eexists; reflexivity
    |intros n Hn; apply Z.ltb_lt; change (24 * Z.of_nat (length ["encrypt"; "decrypt"])) with 48 in Hn; lia|exact demo_texts_fit|].
  exists heap1, k, c. split; [exact He|exact Hd].
Defined.


Lemma forged_key_undefined_witness :
  bind_crypto upper ExportKey demo_rng [BoxedKey demo_secret; BoxedResponse []]
    [VString "jwk"; VObject [("__crypto_key_ptr__", VExternal 1)]] = CallUndefined.
Proof.
  apply (forged_key_undefined upper [BoxedKey demo_secret; BoxedResponse []] 1 []); reflexivity.
Defined.
