(* ===== verification/NodeFs.v ===== *)
(** * node:fs over the VFS: [src/runtime/node_compat/hooks_fs.rs] and [helpers.rs]

    The host functions behind [require('fs')], over values of JavaScript and the isolate's
    view of the storage.  A hook gets the clock, the namespace of the VFS of the thread
    (none when no VFS is set), the backend and its arguments, and gives the backend after
    it with what it returns or throws.

    The VFS has no directories.  A directory is a prefix of some file's path, or a file
    named [.__nano_dir__] below it, which listings leave out; [is_dir] says so of the
    contents of the backend and the theorems are about it.

    The operations of the VFS are futures.  [block_on] runs them in the Tokio runtime of
    the thread or, without one, by polling them there, which operations that need a runtime
    do not survive ([Executor]). *)

From stdpp Require Import base gmap list strings pretty sorting.
From Stdlib Require Import Ascii ZArith Lia SpecFloat.
From Stdlib.Strings Require Byte.
From S2P Require Import Prelude RustString RustList RustFloat VfsPath VfsBackend VfsMemory VfsIsolate CryptoKeys CryptoApi.

Open Scope Z_scope.

(** ** Arguments and exceptions ([helpers.rs]) *)

(** A thrown [Error] with the properties the hooks attach. *)
Record Thrown := mkThrown {
  th_kind : ErrorKind;
  th_message : string;
  th_code : option string;
  th_syscall : option string;
  th_path : option string;
  th_errno : option Z;
}.

Inductive NodeCall := NReturned (v : JsVal) | NThrew (e : Thrown).

(** JavaScript truthiness *)
Definition boolean_value (v : JsVal) : bool :=
  match v with
  | VUndefined | VNull => false
  | VBool b => b
  | VNumber n => match n with S754_zero _ | S754_nan => false | _ => true end
  | VString s => negb (is_empty s)
  | _ => true
  end.

(** Bytes in the VFS are integers. *)
Definition byte_values (b : bytes) : list Z := (λ x, Z.of_N (Byte.to_N x)) <$> b.
Definition bytes_of (l : list Z) : bytes := (λ z, default Byte.x00 (Byte.of_N (Z.to_N z))) <$> l.

Definition bytes_arg (args : list JsVal) (index : nat) : option bytes :=
  match args !! index with
  | Some (VUint8Array b) => Some b
  | Some (VArrayBuffer b) => Some b
  | _ => None
  end.

Definition opt_bytes_arg (args : list JsVal) (index : nat) : result (option bytes) unit :=
  match args !! index with
  | None => Ok None
  | Some arg =>
      if is_nullish arg then Ok None
      else match bytes_arg args index with Some b => Ok (Some b) | None => Err tt end
  end.

Definition str_arg (args : list JsVal) (index : nat) : option string :=
  match args !! index with Some (VString s) => Some s | _ => None end.

Definition num_arg `{JsText} (args : list JsVal) (index : nat) : option f64 :=
  match args !! index with
  | Some arg =>
      match to_number arg with
      | S754_nan | S754_infinity _ => None
      | x => Some x
      end
  | None => None
  end.

Definition bool_arg (args : list JsVal) (index : nat) : bool :=
  match args !! index with Some arg => boolean_value arg | None => false end.

Definition make_uint8array (l : list Z) : JsVal := VUint8Array (bytes_of l).

Definition errno_for_code (code : string) : option Z :=
  if String.eqb code "EPERM" then Some (-1)
  else if String.eqb code "ENOENT" then Some (-2)
  else if String.eqb code "EIO" then Some (-5)
  else if String.eqb code "EACCES" then Some (-13)
  else if String.eqb code "EEXIST" then Some (-17)
  else if String.eqb code "ENOTDIR" then Some (-20)
  else if String.eqb code "EISDIR" then Some (-21)
  else if String.eqb code "EINVAL" then Some (-22)
  else if String.eqb code "ENOSPC" then Some (-28)
  else if String.eqb code "ENOSYS" then Some (-38)
  else if String.eqb code "ENOTEMPTY" then Some (-39)
  else if String.eqb code "ENOTFOUND" then Some (-3008)
  else None.

(** A message that does not fit is replaced by the empty one. *)
Definition coded_error (code message : string) (syscall path : option string) : NodeCall :=
  NThrew (mkThrown PlainError (if string_fits message then message else "") (Some code) syscall path (errno_for_code code)).

(** The other texts are unwrapped; of them only the path can be too long. *)
Definition throw_coded_full (code message : string) (syscall path : option string) : outcome NodeCall :=
  assert! from_option string_fits true path or "called `Option::unwrap()` on a `None` value" in
  Done (coded_error code message syscall path).

Definition throw_coded (code message : string) : NodeCall := coded_error code message None None.

Lemma throw_coded_is_full code message : throw_coded_full code message None None = Done (throw_coded code message).
Proof. done. Qed.

Definition throw_bad_args (hook : string) : NodeCall :=
  throw_coded "ERR_INVALID_ARG_TYPE"
    ("__nano_node_host." +:+ (hook +:+ ": invalid argument types")).

(** ** Paths and errors *)

Definition DIR_MARKER : string := ".__nano_dir__".

(** The segments [normalize] keeps; [..] takes the last one away. *)
Fixpoint kept (acc segments : list string) : list string :=
  match segments with
  | [] => acc
  | seg :: segments =>
      if String.eqb seg "" || String.eqb seg "." then kept acc segments
      else if String.eqb seg ".." then kept (removelast acc) segments
      else kept (acc ++ [seg]) segments
  end.

Definition node_segments (path : string) : list string := kept [] (split slash path).

Definition normalize (path : string) : string := "/" +:+ join "/" (node_segments path).

Definition throw_uv (code syscall path : string) : outcome NodeCall :=
  throw_coded_full code (code +:+ (": " +:+ (syscall +:+ (" '" +:+ (path +:+ "'")))))
                   (Some syscall) (Some path).

#[global] Arguments throw_uv _ _ _ : simpl never.

Definition uv_code (err : VfsError) : string :=
  match err with
  | NotFound _ => "ENOENT"
  | AlreadyExists _ => "EEXIST"
  | InvalidPath _ _ => "EINVAL"
  | PermissionDenied _ => "EACCES"
  | QuotaExceeded _ _ _ => "ENOSPC"
  | _ => "EIO"
  end.

Definition throw_vfs_error (err : VfsError) (syscall path : string) : outcome NodeCall :=
  throw_uv (uv_code err) syscall path.

Definition path_arg (args : list JsVal) (index : nat) : option string := normalize <$> str_arg args index.

(** The entry of a directory below a path. *)
Definition in_dir (path name : string) : string := path +:+ ("/" +:+ name).
Definition marker_of (path : string) : string := in_dir path DIR_MARKER.

(** [Vec::dedup] *)
Fixpoint dedup (l : list string) : list string :=
  match l with
  | [] => []
  | x :: l' => match dedup l' with
               | (y :: _) as r => if String.eqb x y then r else x :: r
               | [] => [x]
               end
  end.

(** ** The hooks *)

(** Whether a Tokio runtime is entered on the thread: not, entered, or entered by a task
    that the thread runs. *)
Inductive TokioContext := NotEntered | EnteredRuntime | InTask.

(** The context of the thread, and whether the operations of the backend need a runtime, as
    those of the disk do and those of the memory do not. *)
Class Executor := mkExecutor { tokio_context : TokioContext; needs_runtime : bool }.

Definition NO_REACTOR : string := "there is no reactor running, must be called from the context of a Tokio 1.x runtime".
Definition NESTED_RUNTIME : string := "Cannot start a runtime from within a runtime.".

(** [rt.block_on] or [pollster::block_on] of an operation on a path; one whose path the
    namespace refuses does not reach the backend. *)
Definition block_on `{Executor} {A} (ns path : string) (op : outcome A) : outcome A :=
  match tokio_context with
  | EnteredRuntime => op
  | InTask => Panicked NESTED_RUNTIME
  | NotEntered => if needs_runtime && is_ok (prefix_namespace ns path) then Panicked NO_REACTOR else op
  end.

Section hooks.
Context {B : Type} `{VfsBackend B} `{Executor}.

(** What an operation gives: the storage after it and its result. *)
Abbreviation Io A := (outcome (B * A)).

Definition with_vfs {R} (vfs : option string) (b : B) (f : string → Io (VfsResult R)) : Io (VfsResult R) :=
  match vfs with
  | Some ns => f ns
  | None => Done (b, Err (IoError "No VFS available in this context"))
  end.

(** The operations of the view of the storage that the hooks wait for. *)
Definition vfs_read (ns : string) (b : B) (path : string) : outcome (VfsResult (list Z)) :=
  block_on ns path (Done (iv_read ns b path)).
Definition vfs_write (now : Z) (ns : string) (b : B) (path : string) (data : list Z) : Io (VfsResult unit) :=
  block_on ns path (iv_write now ns b path data).
Definition vfs_delete (ns : string) (b : B) (path : string) : Io (VfsResult unit) :=
  block_on ns path (Done (iv_delete ns b path)).

Definition file_exists (ns : string) (b : B) (path : string) : outcome bool :=
  let! r := block_on ns path (Done (iv_exists ns b path)) in
  Done match r with Ok e => e | Err _ => false end.

(** The last component of a listed path, if it is a name to show. *)
Definition listed_name (p : VfsPath) : option string :=
  let name := default (as_str p) (last (split slash (as_str p))) in
  if String.eqb name DIR_MARKER || is_empty name then None else Some name.

Definition list_children (ns : string) (b : B) (path : string) : outcome (VfsResult (list string)) :=
  let! r := block_on ns path (iv_list_dir ns b path) in
  Done (let? entries := r in Ok (dedup (merge_sort String.le (omap listed_name entries)))).

Definition dir_exists (ns : string) (b : B) (path : string) : outcome bool :=
  if String.eqb path "/" then Done true
  else
    let! marker := file_exists ns b (marker_of path) in
    if marker then Done true
    else let! r := list_children ns b path in
         Done (match r with Ok (_ :: _) => true | _ => false end).

(** What a hook hands back, with the storage then. *)
Definition finish (b : B) (v : outcome NodeCall) : Io NodeCall := let! v := v in Done (b, v).

(** A call that only throws or returns nothing. *)
Definition settle (syscall path : string) (r : VfsResult unit) : outcome NodeCall :=
  match r with Ok _ => Done (NReturned VUndefined) | Err e => throw_vfs_error e syscall path end.

Definition fs_read_file (vfs : option string) (b : B) (args : list JsVal) : Io NodeCall :=
  match path_arg args 0 with
  | None => Done (b, throw_bad_args "fsReadFile")
  | Some path =>
      let! r := with_vfs vfs b (λ ns, let! r := vfs_read ns b path in Done (b, r)) in
      finish (fst r) match snd r with
                     | Ok bytes => Done (NReturned (make_uint8array bytes))
                     | Err e => throw_vfs_error e "open" path
                     end
  end.

Definition fs_write_file (now : Z) (vfs : option string) (b : B) (args : list JsVal) : Io NodeCall :=
  match path_arg args 0, bytes_arg args 1 with
  | Some path, Some data =>
      let! d := with_vfs vfs b (λ ns, let! d := dir_exists ns b path in Done (b, Ok d)) in
      match snd d with
      | Err e => finish b (throw_vfs_error e "open" path)
      | Ok true => finish b (throw_uv "EISDIR" "open" path)
      | Ok false =>
          let! r := with_vfs vfs b (λ ns, vfs_write now ns b path (byte_values data)) in
          finish (fst r) (settle "open" path (snd r))
      end
  | _, _ => Done (b, throw_bad_args "fsWriteFile")
  end.

Definition fs_exists (vfs : option string) (b : B) (args : list JsVal) : Io NodeCall :=
  match path_arg args 0 with
  | None => Done (b, throw_bad_args "fsExists")
  | Some path =>
      let! r := with_vfs vfs b (λ ns,
        let! e := file_exists ns b path in
        if e : bool then Done (b, Ok true)
        else let! d := dir_exists ns b path in Done (b, Ok d)) in
      Done (fst r, NReturned (VBool (match snd r with Ok e => e | Err _ => false end)))
  end.

Inductive UnlinkFail := UnlinkIsDir | UnlinkVfs (e : VfsError).

Definition fs_unlink (vfs : option string) (b : B) (args : list JsVal) : Io NodeCall :=
  match path_arg args 0 with
  | None => Done (b, throw_bad_args "fsUnlink")
  | Some path =>
      let! r := with_vfs vfs b (λ ns,
        let! e := file_exists ns b path in
        if negb e then
          let! d := dir_exists ns b path in
          Done (b, Ok (Err (if d : bool then UnlinkIsDir else UnlinkVfs (NotFound path))))
        else
          let! br := vfs_delete ns b path in
          Done (fst br, Ok (map_err UnlinkVfs (snd br)))) in
      finish (fst r) match snd r with
                     | Ok (Ok _) => Done (NReturned VUndefined)
                     | Ok (Err UnlinkIsDir) => throw_uv "EISDIR" "unlink" path
                     | Ok (Err (UnlinkVfs e)) | Err e => throw_vfs_error e "unlink" path
                     end
  end.

Inductive MkdirFail := MkdirExists | MkdirNoParent | MkdirNotDirParent | MkdirVfs (e : VfsError).

Definition parent_of (path : string) : string :=
  match rfind_char slash path with
  | Some O => "/"
  | Some i => stake i path
  | None => "/"
  end.

(** What [mkdir] asks of the parent. *)
Definition parent_check (ns : string) (b : B) (path : string) : outcome (option MkdirFail) :=
  let parent := parent_of path in
  let! e := file_exists ns b parent in
  if e : bool then Done (Some MkdirNotDirParent)
  else let! d := dir_exists ns b parent in
       Done (if d : bool then None else Some MkdirNoParent).

Definition fs_mkdir (now : Z) (vfs : option string) (b : B) (args : list JsVal) : Io NodeCall :=
  match path_arg args 0 with
  | None => Done (b, throw_bad_args "fsMkdir")
  | Some path =>
      let recursive := bool_arg args 1 in
      let! r := with_vfs vfs b (λ ns,
        let! e := file_exists ns b path in
        if e : bool then Done (b, Ok (Err MkdirExists))
        else
        let! d := dir_exists ns b path in
        if d : bool then Done (b, Ok (if recursive then Ok tt else Err MkdirExists))
        else
        let! parent := if recursive then Done None else parent_check ns b path in
        match parent with
        | Some fail => Done (b, Ok (Err fail))
        | None =>
            let! br := vfs_write now ns b (marker_of path) [] in
            Done (fst br, Ok (map_err MkdirVfs (snd br)))
        end) in
      finish (fst r) match snd r with
                     | Ok (Ok _) => Done (NReturned VUndefined)
                     | Ok (Err MkdirExists) => throw_uv "EEXIST" "mkdir" path
                     | Ok (Err MkdirNoParent) => throw_uv "ENOENT" "mkdir" path
                     | Ok (Err MkdirNotDirParent) => throw_uv "ENOTDIR" "mkdir" path
                     | Ok (Err (MkdirVfs e)) | Err e => throw_vfs_error e "mkdir" path
                     end
  end.

Inductive RmdirFail := RmdirNotFound | RmdirNotDir | RmdirNotEmpty | RmdirVfs (e : VfsError).

Definition fs_rmdir (vfs : option string) (b : B) (args : list JsVal) : Io NodeCall :=
  match path_arg args 0 with
  | None => Done (b, throw_bad_args "fsRmdir")
  | Some path =>
      let! r := with_vfs vfs b (λ ns,
        let! e := file_exists ns b path in
        if e : bool then Done (b, Ok (Err RmdirNotDir))
        else
        let! d := dir_exists ns b path in
        if negb d then Done (b, Ok (Err RmdirNotFound))
        else
        let! names := list_children ns b path in
        match names with
        | Ok (_ :: _) => Done (b, Ok (Err RmdirNotEmpty))
        | Ok [] =>
            let! m := file_exists ns b (marker_of path) in
            if m : bool then
              let! br := vfs_delete ns b (marker_of path) in
              Done (fst br, Ok (map_err RmdirVfs (snd br)))
            else Done (b, Ok (Ok tt))
        | Err e => Done (b, Ok (Err (RmdirVfs e)))
        end) in
      finish (fst r) match snd r with
                     | Ok (Ok _) => Done (NReturned VUndefined)
                     | Ok (Err RmdirNotFound) => throw_uv "ENOENT" "rmdir" path
                     | Ok (Err RmdirNotDir) => throw_uv "ENOTDIR" "rmdir" path
                     | Ok (Err RmdirNotEmpty) => throw_uv "ENOTEMPTY" "rmdir" path
                     | Ok (Err (RmdirVfs e)) | Err e => throw_vfs_error e "rmdir" path
                     end
  end.

Inductive ReaddirFail := ReaddirNotFound | ReaddirNotDir | ReaddirVfs (e : VfsError).

Definition fs_readdir (vfs : option string) (b : B) (args : list JsVal) : Io NodeCall :=
  match path_arg args 0 with
  | None => Done (b, throw_bad_args "fsReaddir")
  | Some path =>
      let! r := with_vfs vfs b (λ ns,
        let! e := file_exists ns b path in
        if e : bool then Done (b, Ok (Err ReaddirNotDir))
        else
        let! d := dir_exists ns b path in
        if negb d then Done (b, Ok (Err ReaddirNotFound))
        else let! names := list_children ns b path in Done (b, Ok (map_err ReaddirVfs names))) in
      finish (fst r) match snd r with
                     | Ok (Ok names) => Done (NReturned (VArray (VString <$> names)))
                     | Ok (Err ReaddirNotFound) => throw_uv "ENOENT" "scandir" path
                     | Ok (Err ReaddirNotDir) => throw_uv "ENOTDIR" "scandir" path
                     | Ok (Err (ReaddirVfs e)) | Err e => throw_vfs_error e "scandir" path
                     end
  end.

Inductive StatResult :=
| StatFile (size mtime_ms birthtime_ms : f64)
| StatDir
| StatNotFound
| StatVfs (e : VfsError).

(** Times are in nanoseconds since the epoch; earlier ones count as the epoch. *)
Definition millis_of (t : Z) : f64 := if t <? 0 then f64_of_Z 0 else f64_of_Z (as_millis t).

Definition stat_object (size mtime_ms birthtime_ms : f64) (is_file : bool) : JsVal :=
  VObject [("size", VNumber size); ("mtimeMs", VNumber mtime_ms); ("birthtimeMs", VNumber birthtime_ms);
           ("isFile", VBool is_file); ("isDirectory", VBool (negb is_file))].

Definition fs_stat (vfs : option string) (b : B) (args : list JsVal) : Io NodeCall :=
  match path_arg args 0 with
  | None => Done (b, throw_bad_args "fsStat")
  | Some path =>
      let! r := with_vfs vfs b (λ ns,
        let! e := file_exists ns b path in
        if e : bool then
          let! meta := block_on ns path (Done (iv_metadata ns b path)) in
          Done (b, Ok match meta with
                      | Ok meta => StatFile (f64_of_Z (file_size meta)) (millis_of (modified_at meta))
                                            (millis_of (created_at meta))
                      | Err e => StatVfs e
                      end)
        else
        let! d := dir_exists ns b path in
        Done (b, Ok (if d : bool then StatDir else StatNotFound))) in
      finish (fst r) match snd r with
                     | Ok (StatFile size mtime birth) => Done (NReturned (stat_object size mtime birth true))
                     | Ok StatDir => Done (NReturned (stat_object (f64_of_Z 0) (f64_of_Z 0) (f64_of_Z 0) false))
                     | Ok StatNotFound => throw_uv "ENOENT" "stat" path
                     | Ok (StatVfs e) | Err e => throw_vfs_error e "stat" path
                     end
  end.

Definition fs_rename (now : Z) (vfs : option string) (b : B) (args : list JsVal) : Io NodeCall :=
  match path_arg args 0, path_arg args 1 with
  | Some from, Some to =>
      let! r := with_vfs vfs b (λ ns,
        let! data := vfs_read ns b from in
        match data with
        | Err e => Done (b, Err e)
        | Ok data =>
            let! br := vfs_write now ns b to data in
            match snd br with
            | Err e => Done (fst br, Err e)
            | Ok _ => vfs_delete ns (fst br) from
            end
        end) in
      finish (fst r) (settle "rename" from (snd r))
  | _, _ => Done (b, throw_bad_args "fsRename")
  end.

Definition fs_copy_file (now : Z) (vfs : option string) (b : B) (args : list JsVal) : Io NodeCall :=
  match path_arg args 0, path_arg args 1 with
  | Some from, Some to =>
      let! r := with_vfs vfs b (λ ns,
        let! data := vfs_read ns b from in
        match data with
        | Err e => Done (b, Err e)
        | Ok data => vfs_write now ns b to data
        end) in
      finish (fst r) (settle "copyfile" from (snd r))
  | _, _ => Done (b, throw_bad_args "fsCopyFile")
  end.

(** The functions [bind] puts on the host object. *)
Inductive Hook :=
| FsReadFile | FsWriteFile | FsExists | FsUnlink | FsMkdir | FsRmdir | FsReaddir | FsStat
| FsRename | FsCopyFile.

Definition bind (h : Hook) (now : Z) (vfs : option string) (b : B) (args : list JsVal) : Io NodeCall :=
  match h with
  | FsReadFile => fs_read_file vfs b args
  | FsWriteFile => fs_write_file now vfs b args
  | FsExists => fs_exists vfs b args
  | FsUnlink => fs_unlink vfs b args
  | FsMkdir => fs_mkdir now vfs b args
  | FsRmdir => fs_rmdir vfs b args
  | FsReaddir => fs_readdir vfs b args
  | FsStat => fs_stat vfs b args
  | FsRename => fs_rename now vfs b args
  | FsCopyFile => fs_copy_file now vfs b args
  end.

(** A program's calls in order, with what each gave. *)
Fixpoint run_hooks (vfs : option string) (b : B) (calls : list (Hook * Z * list JsVal))
    : Io (list NodeCall) :=
  match calls with
  | [] => Done (b, [])
  | (h, now, args) :: calls =>
      let! br := bind h now vfs b args in
      let! rest := run_hooks vfs (fst br) calls in
      Done (fst rest, snd br :: snd rest)
  end.
End hooks.

(** The operations of the backend run: a runtime is entered, or they need none. *)
Definition runs_freely `{Executor} : Prop :=
  match tokio_context with
  | EnteredRuntime => True
  | InTask => False
  | NotEntered => needs_runtime = false
  end.

Lemma block_on_free `{Executor} {A} ns path (op : outcome A) : runs_freely → block_on ns path op = op.
Proof. unfold runs_freely, block_on. destruct tokio_context; [by intros ->|done|done]. Qed.

(** ** What the storage says of paths *)

(** A backend whose listings are exact: the names below a path are the segments after it
    in the paths of the files. *)
Class VfsDirLaws (B : Type) `{VfsBackendLaws B} := {
  bk_list_view : ∀ b p, bk_inv b → wf_path p →
    ∃ names, bk_list_dir b p = Done (Ok ((λ n, mkVfsPath (as_str p +:+ ("/" +:+ n))) <$> names)) ∧
      ∀ n, n ∈ names ↔
        ∃ key rest, is_Some (bk_view b !! key) ∧ split slash key = segments p ++ n :: rest;
  bk_metadata_view : ∀ b p, bk_inv b →
    match bk_metadata b p with
    | Ok f => bk_view b !! as_str p = Some (content f) ∧ file_size f = len (content f)
    | Err e => bk_view b !! as_str p = None ∧ e = NotFound (as_str p)
    end;
  bk_keys_view : ∀ b key, bk_inv b → is_Some (bk_view b !! key) → wf_path (mkVfsPath key);
}.

#[export] Instance memory_dir_laws : VfsDirLaws MemoryBackend.
Proof.
  split.
  - intros b p [_ Hk] Hp. exists (elements (dir_names b p)). split.
    + simpl. rewrite list_dir_eq by done. f_equal. f_equal. apply list_fmap_ext.
      intros i n _. rewrite wf_prefix_with_slash by done. f_equal. by rewrite str_app_assoc.
    + intros n. rewrite elem_of_elements, dir_names_spec by done. simpl.
      split; intros (key & rest & Hv & Hs); exists key, rest; (split; [|done]); by apply view_is_Some.
  - intros b p [Hok _]. simpl. unfold metadata. rewrite view_lookup.
    destruct (storage b !! as_str p) as [f|] eqn:Hf; [|done]. split; [done|].
    exact (ok_sizes b Hok _ _ Hf).
  - intros b key [_ Hk] [f Hf]%view_is_Some. exact (Hk key f Hf).
Defined.

(** *** Listings: names in order *)

Lemma dedup_elem l x : x ∈ dedup l ↔ x ∈ l.
Proof.
  induction l as [|y l IH]; [done|]. simpl. rewrite elem_of_cons, <-IH. clear IH.
  destruct (dedup l) as [|z r]; [by rewrite elem_of_cons|].
  destruct (String.eqb_spec y z) as [->|]; rewrite !elem_of_cons; naive_solver.
Qed.

Definition lt_string (x y : string) : Prop := String.le x y ∧ x ≠ y.

(** Sorted, so that removing equal neighbours leaves the names strictly ascending. *)
Lemma dedup_sorted l : StronglySorted String.le l → StronglySorted lt_string (dedup l).
Proof.
  induction 1 as [|x l Hs IH Hx]; simpl; [constructor|].
  assert (Hin : ∀ z, z ∈ dedup l → String.le x z).
  { intros z Hz. rewrite dedup_elem in Hz. rewrite Forall_forall in Hx. by apply Hx. }
  destruct (dedup l) as [|y r]; [repeat constructor|].
  destruct (String.eqb_spec x y) as [->|Hne]; [done|].
  constructor; [done|]. apply Forall_forall. intros z Hz. split; [by apply Hin|]. intros ->.
  apply elem_of_cons in Hz as [->|Hz]; [done|].
  inversion IH as [|? ? _ Hy]; subst. rewrite Forall_forall in Hy. destruct (Hy _ Hz) as [Hyz _].
  apply Hne. apply (anti_symm String.le); [|done]. apply Hin. by left.
Qed.

Lemma lt_string_NoDup l : StronglySorted lt_string l → NoDup l.
Proof.
  induction 1 as [|x l Hs IH Hx]; constructor; [|done]. intros Hin.
  rewrite Forall_forall in Hx. by destruct (Hx _ Hin).
Qed.

Lemma listed_name_below p n :
  contains_char slash n = false → listed_name (mkVfsPath (p +:+ ("/" +:+ n))) =
    if String.eqb n DIR_MARKER || is_empty n then None else Some n.
Proof.
  intros Hn. unfold listed_name; simpl as_str.
  change (p +:+ ("/" +:+ n)) with (p +:+ String slash n).
  rewrite split_app, (split_one slash n Hn), last_snoc. done.
Qed.

Section specs.
Context {B : Type} `{HB : VfsDirLaws B} `{Executor} (Hfree : runs_freely).

(** The content of the file a path names in a namespace. *)
Definition file_at (ns : string) (v : fs_view) (path : string) : option (list Z) :=
  match prefix_namespace ns path with Ok q => v !! as_str q | Err _ => None end.

(** The names the files put below a path. *)
Definition child (ns : string) (v : fs_view) (path name : string) : Prop :=
  ∃ q key rest, prefix_namespace ns path = Ok q ∧ is_Some (v !! key) ∧
    split slash key = segments q ++ name :: rest.

Definition is_dir (ns : string) (v : fs_view) (path : string) : Prop :=
  path = "/" ∨ is_Some (file_at ns v (marker_of path)) ∨
  ∃ name, name ≠ DIR_MARKER ∧ child ns v path name.

Lemma iv_read_file ns b path :
  bk_inv b → iv_read ns b path =
    match prefix_namespace ns path with
    | Ok q => ok_or (bk_view b !! as_str q) (NotFound (as_str q))
    | Err e => Err e
    end.
Proof.
  intros Hi. unfold iv_read. destruct (prefix_namespace ns path) as [q|]; [|done]. simpl.
  by apply bk_read_view.
Qed.

Lemma iv_read_at ns b path c :
  bk_inv b → iv_read ns b path = Ok c ↔ file_at ns (bk_view b) path = Some c.
Proof.
  intros Hi. rewrite iv_read_file by done. unfold file_at.
  destruct (prefix_namespace ns path); [|naive_solver].
  destruct (bk_view b !! _); simpl; naive_solver.
Qed.

Lemma file_exists_at ns b path :
  bk_inv b → file_exists ns b path = Done (bool_decide (is_Some (file_at ns (bk_view b) path))).
Proof.
  intros Hi. unfold file_exists, iv_exists, file_at. rewrite block_on_free by done. cbn [outcome_bind].
  destruct (prefix_namespace ns path) as [q|]; simpl; [by rewrite bk_exists_view|done].
Qed.

Lemma child_simple ns b path n :
  bk_inv b → child ns (bk_view b) path n → contains_char slash n = false ∧ n ≠ "".
Proof.
  intros Hi (q & key & rest & _ & Hk & Hs).
  pose proof (bk_keys_view b key Hi Hk) as [_ _ Hw]. unfold segments in Hw. simpl in Hw.
  pose proof (split_no_sep slash key) as Hf. rewrite Hs in Hf, Hw.
  apply Forall_app in Hf as [_ Hf]. apply Forall_app in Hw as [_ Hw].
  inversion Hf; inversion Hw as [|? ? [? _]]; subst. done.
Qed.

(** The names [list_children] gives: those below the path but the marker, in order. *)
Lemma list_children_spec ns b path :
  bk_inv b → good_ns ns →
  match prefix_namespace ns path with
  | Ok _ => ∃ names, list_children ns b path = Done (Ok names) ∧ StronglySorted lt_string names ∧
      ∀ n, n ∈ names ↔ n ≠ DIR_MARKER ∧ child ns (bk_view b) path n
  | Err e => list_children ns b path = Done (Err e)
  end.
Proof.
  intros Hi Hns. unfold list_children, iv_list_dir. rewrite block_on_free by done.
  destruct (prefix_namespace ns path) as [q|e] eqn:Hq; [|done].
  destruct (prefix_namespace_ok _ _ _ Hns Hq) as (_ & _ & _ & Hwq).
  destruct (bk_list_view b q Hi Hwq) as (names & -> & Hn). simpl.
  eexists. split; [done|]. split.
  - apply dedup_sorted. apply (StronglySorted_merge_sort _).
  - intros n. rewrite dedup_elem, merge_sort_Permutation, list_elem_of_omap.
    assert (Hc : ∀ m, m ∈ names ↔ child ns (bk_view b) path m).
    { intros m. rewrite Hn. unfold child. split.
      - intros (key & rest & ? & ?). by exists q, key, rest.
      - intros (q' & key & rest & Hq' & ? & ?). rewrite Hq in Hq'. injection Hq' as <-. eauto. }
    split.
    + intros (p & Hp & Hl). apply list_elem_of_fmap in Hp as (m & -> & Hm%Hc).
      destruct (child_simple _ _ _ _ Hi Hm) as [Hs Hne].
      rewrite listed_name_below, (proj2 (is_empty_false m)), orb_false_r in Hl by done.
      destruct (String.eqb_spec m DIR_MARKER) as [?|?]; [done|]. by injection Hl as ->.
    + intros [Hne Hm]. eexists. split; [apply list_elem_of_fmap; eexists; split; [done|by apply Hc]|].
      destruct (child_simple _ _ _ _ Hi Hm) as [Hs He].
      rewrite listed_name_below, (proj2 (is_empty_false n)), orb_false_r by done.
      by destruct (String.eqb_spec n DIR_MARKER).
Qed.

Lemma dir_exists_spec ns b path :
  bk_inv b → good_ns ns →
  ∃ d : bool, dir_exists ns b path = Done d ∧ (d = true ↔ is_dir ns (bk_view b) path).
Proof.
  intros Hi Hns. unfold dir_exists, is_dir.
  destruct (String.eqb_spec path "/") as [->|Hne]; [exists true; naive_solver|].
  rewrite file_exists_at by done. cbn [outcome_bind]. case_bool_decide as Hm; [exists true; naive_solver|].
  pose proof (list_children_spec ns b path Hi Hns) as Hl.
  destruct (prefix_namespace ns path) as [q|e] eqn:Hq.
  - destruct Hl as (names & -> & _ & Hn). simpl. eexists. split; [done|].
    destruct names as [|n names].
    + split; [done|]. intros [?|[?|(n & Hn1 & Hn2)]]; [done|done|]. exfalso.
      assert (n ∈ []) as Hin by (by apply Hn). by apply not_elem_of_nil in Hin.
    + split; [|done]. intros _. right. right. exists n. apply Hn. by left.
  - rewrite Hl. simpl. exists false. split; [done|]. split; [done|].
    intros [?|[?|(n & _ & (q & key & rest & Hq' & _))]]; congruence.
Qed.

(** *** Reading and writing through a namespace *)

Lemma iv_write_spec now ns b path c :
  bk_inv b → good_ns ns → ∃ b' r, iv_write now ns b path c = Done (b', r) ∧ bk_inv b' ∧
    match r with
    | Ok _ => ∃ q, prefix_namespace ns path = Ok q ∧ bk_view b' = <[as_str q := c]> (bk_view b)
    | Err _ => bk_view b' = bk_view b
    end.
Proof.
  intros Hi Hns. unfold iv_write. destruct (prefix_namespace ns path) as [q|e] eqn:Hq.
  - destruct (prefix_namespace_ok _ _ _ Hns Hq) as (_ & _ & _ & Hwq).
    destruct (bk_write_view now b q c Hi Hwq) as (b' & r & -> & Hi' & Hv). exists b', r.
    split; [done|]. split; [done|]. destruct r; [by exists q|done].
  - by exists b, (Err e).
Qed.

Lemma iv_delete_spec ns b path :
  bk_inv b → ∃ b' r, iv_delete ns b path = (b', r) ∧ bk_inv b' ∧
    match prefix_namespace ns path with
    | Ok q => bk_view b' = delete (as_str q) (bk_view b)
    | Err _ => bk_view b' = bk_view b
    end ∧ (is_ok r = true ↔ is_Some (file_at ns (bk_view b) path)).
Proof.
  intros Hi. unfold iv_delete, file_at. destruct (prefix_namespace ns path) as [q|e].
  - destruct (bk_delete b q) as [b' r] eqn:Hd. exists b', r.
    by destruct (bk_delete_view b q b' r Hi Hd) as (? & ? & ?).
  - exists b, (Err e). split_and!; [done|done|done|]. simpl. split; [done|by intros [? ?]].
Qed.

(** A hook calls the VFS of its namespace a number of times and nothing else. *)
Lemma write_is_call now ns b path c b' r :
  iv_write now ns b path c = Done (b', r) → run_calls ns b [VWrite now path c] = Done b'.
Proof. intros Hw. simpl. by rewrite Hw. Qed.

Lemma delete_is_call ns b path b' r :
  iv_delete ns b path = (b', r) → run_calls ns b [VDelete path] = Done b'.
Proof. intros Hd. simpl. by rewrite Hd. Qed.

Lemma run_calls_app ns b b1 cs1 cs2 :
  run_calls ns b cs1 = Done b1 → run_calls ns b (cs1 ++ cs2) = run_calls ns b1 cs2.
Proof.
  revert b. induction cs1 as [|c cs1 IH]; intros b; simpl; [by intros [= ->]|].
  destruct (run_call ns b c) as [b2|]; [|done]. simpl. apply IH.
Qed.

(** What every hook does to the storage, and that it panics only if [P]. *)
Definition hook_effect (P : Prop) (vfs : option string) (b : B) (r : outcome (B * NodeCall)) : Prop :=
  match r with
  | Done (b', v) =>
      bk_inv b' ∧
      match vfs with
      | Some ns => ∃ cs, run_calls ns b cs = Done b'
      | None => b' = b ∧ ∀ x, v = NReturned x → x = VBool false
      end
  | Panicked why => why = "called `Option::unwrap()` on a `None` value" ∧ P
  end.

Definition throws (P : Prop) (v : outcome NodeCall) : Prop :=
  match v with Done _ => True | Panicked why => why = "called `Option::unwrap()` on a `None` value" ∧ P end.

Lemma throws_uv (P : Prop) code syscall path : (string_fits path = false → P) → throws P (throw_uv code syscall path).
Proof. unfold throw_uv, throw_coded_full. cbn [from_option]. destruct (string_fits path); [done|]. intros HP. split; [done|by apply HP]. Qed.

Lemma throw_not_returned code syscall path x : throw_uv code syscall path ≠ Done (NReturned x).
Proof. unfold throw_uv, throw_coded_full. cbn [from_option]. by destruct (string_fits path). Qed.

Lemma throw_vfs_not_returned e syscall path x : throw_vfs_error e syscall path ≠ Done (NReturned x).
Proof. apply throw_not_returned. Qed.

Lemma throws_vfs (P : Prop) e syscall path : (string_fits path = false → P) → throws P (throw_vfs_error e syscall path).
Proof. apply throws_uv. Qed.

Lemma throws_settle (P : Prop) r syscall path : (string_fits path = false → P) → throws P (settle syscall path r).
Proof. destruct r; [done|]. apply throws_uv. Qed.

Lemma effect_pure P ns b v : bk_inv b → hook_effect P (Some ns) b (Done (b, v)).
Proof. intros Hi. split; [done|]. by exists []. Qed.

Lemma effect_finish P ns b b' cs v :
  bk_inv b' → run_calls ns b cs = Done b' → throws P v → hook_effect P (Some ns) b (finish b' v).
Proof. intros Hi Hr Hv. destruct v as [v|why]; [|done]. split; [done|]. by exists cs. Qed.

Lemma effect_none P b v : bk_inv b → throws P v → (∀ x, v = Done (NReturned x) → x = VBool false) →
  hook_effect P None b (finish b v).
Proof. intros Hi Hv Hx. destruct v as [v|why]; [|done]. split; [done|]. split; [done|]. intros x ->. by apply Hx. Qed.

(** *** Paths *)

Lemma pieces_in_dir path n :
  n ≠ "" → contains_char slash n = false →
  nonempty_pieces (in_dir path n) = nonempty_pieces path ++ [n].
Proof.
  intros Hn Hs. unfold nonempty_pieces, in_dir.
  change (path +:+ ("/" +:+ n)) with (path +:+ String slash n).
  rewrite split_app, (split_one slash n Hs), filter_app. f_equal.
  rewrite filter_cons_True by done. done.
Qed.

(** Below a path that names something, the storage path is below the storage path. *)
Lemma in_dir_prefix ns path n q' :
  good_ns ns → n ≠ "" → contains_char slash n = false → nonempty_pieces path ≠ [] →
  prefix_namespace ns (in_dir path n) = Ok q' →
  ∃ q, prefix_namespace ns path = Ok q ∧ as_str q' = in_dir (as_str q) n.
Proof.
  intros Hns Hn Hs Hp Hq'.
  destruct (prefix_namespace_ok _ _ _ Hns Hq') as (p' & Hp' & Hs' & Hw').
  pose proof Hp' as [(Hl & Hc & Hd & _) Ha]%new_inv.
  assert (Hlen : slen path ≤ slen (in_dir path n)).
  { unfold in_dir. rewrite !slen_app. pose proof (slen_nonneg n). change (slen "/") with 1. lia. }
  assert (Hnew : new path = Ok (mkVfsPath (join "/" (nonempty_pieces path)))).
  { apply new_inv. split; [|done]. split_and!; [lia| | |done].
    - unfold in_dir in Hc. rewrite !contains_char_app in Hc. by apply orb_false_elim in Hc as [? _].
    - intros Hin. apply Hd. unfold in_dir.
      change (path +:+ ("/" +:+ n)) with (path +:+ String slash n). rewrite split_app.
      apply elem_of_app. by left. }
  rewrite pieces_in_dir, join_snoc in Ha by done.
  destruct (nonempty_pieces path) as [|w ws] eqn:Hws; [done|]. rewrite <-Hws in *.
  unfold prefix_namespace. rewrite Hnew. cbn [result_bind].
  rewrite (proj2 (is_empty_false ns)) by (by apply ns_nonempty).
  rewrite new_ns by (try done; exact (new_wf _ _ Hnew)). simpl as_str.
  assert (Heq : as_str q' = in_dir (ns +:+ ("::" +:+ join "/" (nonempty_pieces path))) n).
  { rewrite Hs', Ha. unfold in_dir. by rewrite !str_app_assoc. }
  rewrite Z.gtb_ltb, (proj2 (Z.ltb_ge _ _)); [eexists; split; [done|exact Heq]|].
  destruct Hw' as [Hl' _ _]. rewrite Heq in Hl'. unfold in_dir in Hl'.
  rewrite slen_app in Hl'. pose proof (slen_nonneg ("/" +:+ n)). lia.
Qed.

(** The tests of a hook: the answers of [dir_exists] and [list_children], then the rest. *)
Ltac hook_dir :=
  match goal with
  | Hi : bk_inv ?b, Hns : good_ns ?ns |- context [dir_exists ?ns ?b ?p] =>
      destruct (dir_exists_spec ns b p Hi Hns) as ([] & -> & _)
  | Hi : bk_inv ?b, Hns : good_ns ?ns |- context [list_children ?ns ?b ?p] =>
      let Hl := fresh "Hl" in
      pose proof (list_children_spec ns b p Hi Hns) as Hl;
      destruct (prefix_namespace ns p); [destruct Hl as ([|??] & -> & _)|rewrite Hl]
  | Hi : bk_inv ?b |- context [file_exists ?ns ?b ?p] =>
      rewrite (file_exists_at ns b p Hi); destruct (bool_decide (is_Some (file_at ns (bk_view b) p)))
  | |- context [bool_arg ?a ?i] => destruct (bool_arg a i)
  end; cbn [negb outcome_bind result_bind fst snd].

Ltac hook_io :=
  match goal with
  | Hi : bk_inv ?b, Hns : good_ns ?ns |- context [iv_write ?now ?ns ?b ?p ?c] =>
      let Hw := fresh "Hw" in let r := fresh "r" in let Hi' := fresh "Hi" in
      destruct (iv_write_spec now ns b p c Hi Hns) as (? & r & Hw & Hi' & _);
      rewrite Hw; apply write_is_call in Hw; destruct r
  | Hi : bk_inv ?b |- context [iv_delete ?ns ?b ?p] =>
      let Hd := fresh "Hd" in let r := fresh "r" in let Hi' := fresh "Hi" in
      destruct (iv_delete_spec ns b p Hi) as (? & r & Hd & Hi' & _);
      rewrite Hd; apply delete_is_call in Hd
  | |- context [iv_read ?ns ?b ?p] => destruct (iv_read ns b p)
  | |- context [iv_metadata ?ns ?b ?p] => destruct (iv_metadata ns b p)
  end; cbn [outcome_bind fst snd].

(** A path argument that the engine cannot make a string of. *)
Definition too_long (args : list JsVal) : Prop := ∃ s, VString s ∈ args ∧ string_fits (normalize s) = false.

Lemma path_arg_long args i p : path_arg args i = Some p → string_fits p = false → too_long args.
Proof.
  unfold path_arg, str_arg. destruct (args !! i) as [v|] eqn:Hv; [|done].
  destruct v; try done. intros [= <-] Hp. eexists. split; [|exact Hp]. by eapply list_elem_of_lookup_2.
Qed.

Lemma bind_effect h now vfs b args :
  bk_inv b → (∀ ns, vfs = Some ns → good_ns ns) → hook_effect (too_long args) vfs b (bind h now vfs b args).
Proof.
  intros Hi Hgood.
  assert (Hthrow : ∀ i p code sc, path_arg args i = Some p → throws (too_long args) (throw_uv code sc p)).
  { intros i p code sc Hp. apply throws_uv. by apply (path_arg_long args i). }
  assert (Hverr : ∀ i p e sc, path_arg args i = Some p → throws (too_long args) (throw_vfs_error e sc p)).
  { intros i p e sc Hp. apply throws_vfs. by apply (path_arg_long args i). }
  destruct vfs as [ns|]; [specialize (Hgood ns eq_refl)|].
  2: { destruct h; simpl; unfold fs_read_file, fs_write_file, fs_exists, fs_unlink, fs_mkdir,
         fs_rmdir, fs_readdir, fs_stat, fs_rename, fs_copy_file, with_vfs;
       repeat match goal with |- context [match ?x with Some _ => _ | None => _ end] => destruct x eqn:? end;
       cbn [outcome_bind fst snd settle]; try (by split; [done|]; split; [done|]; intros x [= <-]); try (by split; [done|]; split);
       (apply effect_none; [done|first [eapply Hthrow; eassumption|eapply Hverr; eassumption]|]); intros x Hx; by apply throw_vfs_not_returned in Hx. }
  destruct h; simpl; unfold fs_read_file, fs_write_file, fs_exists, fs_unlink, fs_mkdir,
    fs_rmdir, fs_readdir, fs_stat, fs_rename, fs_copy_file, with_vfs, parent_check, vfs_read, vfs_write, vfs_delete;
    repeat match goal with
    | |- context [match path_arg ?a ?i with Some _ => _ | None => _ end] => destruct (path_arg a i) eqn:?
    | |- context [match bytes_arg ?a ?i with Some _ => _ | None => _ end] => destruct (bytes_arg a i)
    end; try (by apply effect_pure).
  all: rewrite ?block_on_free by done; cbn [outcome_bind].
  all: repeat (hook_dir; rewrite ?block_on_free by done; cbn [outcome_bind]).
  all: repeat (hook_io; rewrite ?block_on_free by done; cbn [outcome_bind]).
  all: cbn [fst snd settle map_err]; try (by apply effect_pure).
  all: try (eapply (effect_finish _ _ _ _ []); [done|done|]; (done || (first [eapply Hthrow; eassumption|eapply Hverr; eassumption]))).
  all: try (eapply effect_finish; [done|eassumption|]; (done || (first [eapply Hthrow; eassumption|eapply Hverr; eassumption]) || idtac)).
  all: try (destruct r; [done|first [eapply Hthrow; eassumption|eapply Hverr; eassumption]]).
  eapply effect_finish; [done| |apply throws_settle; intros Hl; by apply (path_arg_long args 0 s)].
  erewrite run_calls_app by eassumption. eassumption.
Qed.

Lemma run_hooks_calls vfs calls b :
  bk_inv b → (∀ ns, vfs = Some ns → good_ns ns) →
  match run_hooks vfs b calls with
  | Done (b', rs) =>
      bk_inv b' ∧ length rs = length calls ∧
      match vfs with
      | Some ns => ∃ cs, run_calls ns b cs = Done b'
      | None => b' = b ∧ ∀ x, NReturned x ∈ rs → x = VBool false
      end
  | Panicked why => why = "called `Option::unwrap()` on a `None` value" ∧ ∃ h now args, (h, now, args) ∈ calls ∧ too_long args
  end.
Proof.
  intros Hi Hgood. revert b Hi. induction calls as [|[[h now] args] calls IH]; intros b Hi; cbn [run_hooks].
  - split_and!; [done|done|]. destruct vfs; [by exists []|].
    split; [done|]. by intros x ?%not_elem_of_nil.
  - pose proof (bind_effect h now vfs b args Hi Hgood) as He.
    destruct (bind h now vfs b args) as [[b1 v]|why]; cbn [outcome_bind fst snd].
    2: { destruct He as [-> Hl]. split; [done|]. exists h, now, args. split; [by left|done]. }
    destruct He as [Hi1 He1]. specialize (IH b1 Hi1). destruct (run_hooks vfs b1 calls) as [[b2 rs]|why]; cbn [outcome_bind fst snd].
    2: { destruct IH as (-> & h' & now' & args' & Hin & Hl). split; [done|]. exists h', now', args'. split; [by right|done]. }
    destruct IH as (Hi2 & Hlen & He2). split_and!; [done|cbn; by rewrite Hlen|]. destruct vfs.
    + destruct He1 as [cs1 Hc1], He2 as [cs2 Hc2]. exists (cs1 ++ cs2).
      by rewrite (run_calls_app _ _ b1).
    + destruct He1 as [-> Hv], He2 as [-> Hvs]. split; [done|].
      intros x [<-|?]%elem_of_cons; [by apply Hv|by apply Hvs].
Qed.


(** *** Normal paths *)

Definition node_name (w : string) : Prop := w ≠ "" ∧ contains_char slash w = false.

Lemma segments_no_slash acc l :
  Forall node_name acc → Forall (λ w, contains_char slash w = false) l → Forall node_name (kept acc l).
Proof.
  intros Hacc Hl. revert acc Hacc. induction Hl as [|w l Hw Hl IH]; intros acc Hacc; simpl; [done|].
  destruct (String.eqb_spec w "") as [->|He]; simpl; [by apply IH|].
  destruct (String.eqb w "."); [by apply IH|]. destruct (String.eqb w "..").
  - apply IH. destruct acc as [|a acc _] using rev_ind; [done|].
    rewrite removelast_last. by apply Forall_app in Hacc as [? _].
  - apply IH. apply Forall_app. split; [done|]. repeat constructor; done.
Qed.

Lemma node_segments_names s : Forall node_name (node_segments s).
Proof. apply segments_no_slash; [constructor|apply split_no_sep]. Qed.

Lemma pieces_normalize s : nonempty_pieces (normalize s) = node_segments s.
Proof.
  unfold normalize, nonempty_pieces. pose proof (node_segments_names s) as Hs.
  change ("/" +:+ join "/" (node_segments s)) with ("" +:+ String slash (join "/" (node_segments s))).
  rewrite split_app. change (split slash "") with [""].
  destruct (node_segments s) as [|w ws] eqn:Hw; [done|]. rewrite <-Hw in *.
  change "/" with (String slash ""). rewrite split_join.
  - rewrite filter_app, (filter_all _ (node_segments s)); [done|].
    eapply Forall_impl; [exact Hs|]. by intros x [? _].
  - by rewrite Hw.
  - eapply Forall_impl; [exact Hs|]. by intros x [_ ?].
Qed.

Lemma normalize_root s : normalize s = "/" ↔ node_segments s = [].
Proof.
  split; [|by unfold normalize; intros ->]. intros Hn. rewrite <-pieces_normalize, Hn. done.
Qed.

Lemma prefix_normal_inj ns s1 s2 q1 q2 :
  good_ns ns → prefix_namespace ns (normalize s1) = Ok q1 → prefix_namespace ns (normalize s2) = Ok q2 →
  as_str q1 = as_str q2 → normalize s1 = normalize s2.
Proof.
  intros Hns Hq1 Hq2 Heq.
  destruct (storage_path_injective _ _ _ _ _ _ Hns Hns Hq1 Hq2 Heq) as [_ Hnew].
  destruct (prefix_namespace_ok _ _ _ Hns Hq1) as (p & Hp & _ & _).
  pose proof Hp as [_ Ha1]%new_inv. rewrite Hnew in Hp. apply new_inv in Hp as [_ Ha2].
  rewrite pieces_normalize in Ha1, Ha2. unfold normalize. congruence.
Qed.

Lemma file_at_insert ns q c v s1 s2 :
  good_ns ns → prefix_namespace ns (normalize s1) = Ok q →
  file_at ns (<[as_str q := c]> v) (normalize s2) =
    if decide (normalize s2 = normalize s1) then Some c else file_at ns v (normalize s2).
Proof.
  intros Hns Hq. unfold file_at. case_decide as Hd.
  - rewrite Hd, Hq. by rewrite lookup_insert_eq.
  - destruct (prefix_namespace ns (normalize s2)) as [q2|] eqn:Hq2; [|done].
    rewrite lookup_insert_ne; [done|]. intros Heq. apply Hd. symmetry.
    by apply (prefix_normal_inj ns _ _ q q2).
Qed.

Lemma file_at_delete ns q v s1 s2 :
  good_ns ns → prefix_namespace ns (normalize s1) = Ok q →
  file_at ns (delete (as_str q) v) (normalize s2) =
    if decide (normalize s2 = normalize s1) then None else file_at ns v (normalize s2).
Proof.
  intros Hns Hq. unfold file_at. case_decide as Hd.
  - rewrite Hd, Hq. by rewrite lookup_delete_eq.
  - destruct (prefix_namespace ns (normalize s2)) as [q2|] eqn:Hq2; [|done].
    rewrite lookup_delete_ne; [done|]. intros Heq. apply Hd. symmetry.
    by apply (prefix_normal_inj ns _ _ q q2).
Qed.

Lemma file_at_prefix ns v path c : file_at ns v path = Some c → ∃ q, prefix_namespace ns path = Ok q.
Proof. unfold file_at. destruct (prefix_namespace ns path); [by eexists|done]. Qed.

(** *** Directories and their marker *)

Lemma marker_prefix ns s q' :
  good_ns ns → normalize s ≠ "/" → prefix_namespace ns (marker_of (normalize s)) = Ok q' →
  ∃ q, prefix_namespace ns (normalize s) = Ok q ∧ as_str q' = marker_of (as_str q).
Proof.
  intros Hns Hr. apply in_dir_prefix; [done|done|done|].
  rewrite pieces_normalize. by rewrite <-normalize_root.
Qed.

Lemma is_dir_prefix ns v s :
  good_ns ns → normalize s ≠ "/" → is_dir ns v (normalize s) →
  ∃ q, prefix_namespace ns (normalize s) = Ok q.
Proof.
  intros Hns Hr [?|[[c Hc]|(n & _ & (q & ? & ? & Hq & _))]]; [done| |by exists q].
  destruct (file_at_prefix _ _ _ _ Hc) as [q' Hq'].
  destruct (marker_prefix ns s q' Hns Hr Hq') as (q & ? & _). by exists q.
Qed.

Lemma marker_of_ne x : marker_of x ≠ x.
Proof.
  intros Heq. apply (f_equal slen) in Heq. unfold marker_of, in_dir in Heq.
  rewrite !slen_app in Heq. change (slen "/") with 1 in Heq. change (slen DIR_MARKER) with 13 in Heq. lia.
Qed.

Lemma marker_segments q : split slash (marker_of (as_str q)) = segments q ++ [DIR_MARKER].
Proof.
  unfold marker_of, in_dir.
  change (as_str q +:+ ("/" +:+ DIR_MARKER)) with (as_str q +:+ String slash DIR_MARKER).
  by rewrite split_app.
Qed.

(** The marker below a path adds no name to show. *)
Lemma child_marker ns v s q n c :
  prefix_namespace ns (normalize s) = Ok q → n ≠ DIR_MARKER →
  child ns (<[marker_of (as_str q) := c]> v) (normalize s) n ↔ child ns v (normalize s) n.
Proof.
  intros Hq Hn. unfold child. split; intros (q' & key & rest & Hq' & Hk & Hs).
  - exists q', key, rest. split; [done|]. split; [|done].
    destruct (decide (key = marker_of (as_str q))) as [->|Hne]; [|by rewrite lookup_insert_ne in Hk].
    rewrite Hq in Hq'. injection Hq' as <-. rewrite marker_segments in Hs.
    apply (inj (segments q ++.)) in Hs. congruence.
  - exists q', key, rest. split; [done|]. split; [|done].
    destruct (decide (key = marker_of (as_str q))) as [->|Hne].
    + rewrite lookup_insert_eq. by eexists.
    + by rewrite lookup_insert_ne.
Qed.
End specs.

(** Nothing below depends on what is thrown. *)
#[local] Opaque throw_uv throw_vfs_error.

Section facts.
Context {B : Type} `{HB : VfsDirLaws B} `{Executor} (Hfree : runs_freely).

Lemma bytes_of_values b : bytes_of (byte_values b) = b.
Proof.
  induction b as [|x b IH]; [done|]. unfold bytes_of, byte_values in *. rewrite !fmap_cons, IH.
  by rewrite N2Z.id, Byte.of_to_N.
Qed.

(** What reading answers, from the contents of the storage. *)
Lemma fs_read_file_at ns b path :
  bk_inv b → ∃ r, fs_read_file (Some ns) b [VString path] = finish b r ∧
    match file_at ns (bk_view b) (normalize path) with
    | Some c => r = Done (NReturned (VUint8Array (bytes_of c)))
    | None => ∃ e, iv_read ns b (normalize path) = Err e ∧ r = throw_vfs_error e "open" (normalize path)
    end.
Proof.
  intros Hi. unfold fs_read_file, vfs_read. simpl. rewrite block_on_free by done. simpl. rewrite iv_read_file by done. unfold file_at.
  eexists. split; [done|]. destruct (prefix_namespace ns (normalize path)); [|by eexists].
  destruct (bk_view b !! _); simpl; [done|]. by eexists.
Qed.

(** The error of a read follows from the path alone. *)
Lemma iv_read_err ns b1 b2 path :
  bk_inv b1 → bk_inv b2 → file_at ns (bk_view b1) path = file_at ns (bk_view b2) path →
  iv_read ns b1 path = iv_read ns b2 path.
Proof.
  intros Hi1 Hi2. rewrite !iv_read_file by done. unfold file_at.
  destruct (prefix_namespace ns path); [|done]. by intros ->.
Qed.

Lemma finish_returned (b b' : B) v x : finish b v = Done (b', NReturned x) → b' = b ∧ v = Done (NReturned x).
Proof. destruct v; [|done]. by intros [= -> ->]. Qed.

Lemma settle_returned syscall path r x : settle syscall path r = Done (NReturned x) → r = Ok tt.
Proof. destruct r as [[]|e]; [done|]. intros Hx. by apply throw_vfs_not_returned in Hx. Qed.

Lemma fs_write_file_inv now ns b path data b' v :
  bk_inv b → good_ns ns →
  fs_write_file now (Some ns) b [VString path; VUint8Array data] = Done (b', NReturned v) →
  bk_inv b' ∧ ∃ q, prefix_namespace ns (normalize path) = Ok q ∧
    bk_view b' = <[as_str q := byte_values data]> (bk_view b).
Proof.
  intros Hi Hns. unfold fs_write_file.
  change (path_arg [VString path; VUint8Array data] 0) with (Some (normalize path)).
  change (bytes_arg [VString path; VUint8Array data] 1) with (Some data). cbn [with_vfs].
  destruct (dir_exists_spec Hfree ns b (normalize path) Hi Hns) as (d & -> & _). cbn [outcome_bind fst snd].
  destruct d; [intros [_ Hx]%finish_returned; by apply throw_not_returned in Hx|].
  unfold vfs_write. rewrite block_on_free by done.
  destruct (iv_write_spec now ns b (normalize path) (byte_values data) Hi Hns) as (b1 & r & -> & Hi1 & Hv).
  cbn [outcome_bind fst snd]. intros [-> Hx]%finish_returned. apply settle_returned in Hx as ->. done.
Qed.
End facts.

(** ** Executors *)

(** On any thread a call gives what it gives where operations run, or it panics as the
    thread cannot run the operation. *)
Definition cannot_block `{Executor} (why : string) : Prop :=
  (why = NO_REACTOR ∧ tokio_context = NotEntered ∧ needs_runtime = true) ∨ (why = NESTED_RUNTIME ∧ tokio_context = InTask).

Definition entered (e : Executor) : Executor := mkExecutor EnteredRuntime (@needs_runtime e).

Create HintDb agrees.

Section executors.
Context {B : Type} `{VfsBackend B} (e : Executor).

Definition agrees {A} (x y : outcome A) : Prop := x = y ∨ ∃ why, x = Panicked why ∧ @cannot_block e why.

Lemma agrees_refl {A} (x : outcome A) : agrees x x.
Proof. by left. Qed.

Lemma agrees_bind {A C} (x y : outcome A) (f g : A → outcome C) :
  agrees x y → (∀ a, agrees (f a) (g a)) → agrees (outcome_bind x f) (outcome_bind y g).
Proof.
  intros [->|(why & -> & Hw)] Hf; [|right; by exists why]. destruct y as [a|why]; [apply Hf|by left].
Qed.

Lemma agrees_block {A} ns path (op : outcome A) : agrees (@block_on e A ns path op) (@block_on (entered e) A ns path op).
Proof.
  unfold block_on at 1, agrees, cannot_block. destruct tokio_context; [|by left|right; exists NESTED_RUNTIME; split; [done|by right]].
  destruct needs_runtime; [|by left]. destruct (is_ok _); [|by left]. right. exists NO_REACTOR. split; [done|]. by left.
Qed.

#[local] Hint Resolve agrees_refl agrees_block : agrees.

#[local] Ltac agree := repeat first
  [ by eauto with agrees
  | apply agrees_bind; [|intros ?]
  | match goal with
    | |- context [match ?x with Ok _ => _ | Err _ => _ end] => destruct x
    | |- context [match ?x with Some _ => _ | None => _ end] => destruct x
    | |- context [if ?x then _ else _] => destruct x
    | |- context [match ?x with [] => _ | _ :: _ => _ end] => destruct x
    end ].

Lemma file_exists_agrees ns b path : agrees (@file_exists B _ e ns b path) (@file_exists B _ (entered e) ns b path).
Proof. unfold file_exists. agree. Qed.

Lemma list_children_agrees ns b path : agrees (@list_children B _ e ns b path) (@list_children B _ (entered e) ns b path).
Proof. unfold list_children. agree. Qed.

#[local] Hint Resolve file_exists_agrees list_children_agrees : agrees.

Lemma dir_exists_agrees ns b path : agrees (@dir_exists B _ e ns b path) (@dir_exists B _ (entered e) ns b path).
Proof. unfold dir_exists. agree. Qed.

#[local] Hint Resolve dir_exists_agrees : agrees.

Lemma bind_agrees h now vfs b args : agrees (@bind B _ e h now vfs b args) (@bind B _ (entered e) h now vfs b args).
Proof.
  destruct h; simpl; unfold fs_read_file, fs_write_file, fs_exists, fs_unlink, fs_mkdir, fs_rmdir, fs_readdir, fs_stat,
    fs_rename, fs_copy_file, with_vfs, parent_check, vfs_read, vfs_write, vfs_delete; agree.
Qed.

Lemma run_hooks_agrees vfs calls : ∀ b, agrees (@run_hooks B _ e vfs b calls) (@run_hooks B _ (entered e) vfs b calls).
Proof.
  induction calls as [|[[h now] args] calls IH]; intros b; cbn [run_hooks]; [by left|].
  apply agrees_bind; [apply bind_agrees|]. intros br. apply agrees_bind; [apply IH|]. by left.
Qed.
End executors.

(** ** Theorems *)

(** A file that was written reads back: when [writeFile] returns, [readFile] of any
    spelling of the path gives the bytes, and every other path reads as it did before. *)
Theorem node_read_after_write {B} `{VfsDirLaws B} `{Executor} (now : Z) (ns : string) (b b' : B)
    (path path2 : string) (data : bytes) (v : JsVal)
    (Hfree : runs_freely) (Hns : good_ns ns) (Hi : bk_inv b)
    (Hw : fs_write_file now (Some ns) b [VString path; VUint8Array data] = Done (b', NReturned v)) :
  if decide (normalize path2 = normalize path)
  then fs_read_file (Some ns) b' [VString path2] = Done (b', NReturned (VUint8Array data))
  else ∃ r, fs_read_file (Some ns) b [VString path2] = finish b r ∧
            fs_read_file (Some ns) b' [VString path2] = finish b' r.
Proof.
  destruct (fs_write_file_inv Hfree _ _ _ _ _ _ _ Hi Hns Hw) as (Hi' & q & Hq & Hv).
  pose proof (file_at_insert ns q (byte_values data) (bk_view b) path path2 Hns Hq) as Hf.
  rewrite <-Hv in Hf. case_decide as Hd.
  - destruct (fs_read_file_at Hfree ns b' path2 Hi') as (r & -> & Hr). rewrite Hf in Hr. subst r.
    by rewrite bytes_of_values.
  - unfold fs_read_file, vfs_read. simpl. rewrite !block_on_free by done. simpl. rewrite (iv_read_err ns b' b) by done. by eexists.
Qed.

(** C36. Hooks stay in their namespace.  Whatever a program does with them and with whatever
    arguments, when its calls have returned every other namespace reads as before, and
    without a VFS on the thread nothing has changed and every call has thrown or answered
    [false].  A call ends the process in three cases only: the backend needs a runtime, as
    the disk does, and none is entered on the thread, as none is on the worker threads; one
    is entered by a task that the thread runs; or a path is too long to be put on an
    exception.  So with the backend in memory none does, for paths that fit; with one that
    needs a runtime, on a worker thread every read that reaches it does.  The backend is
    any with exact listings, as the one in memory has. *)
Theorem node_fs_confined {B} `{VfsDirLaws B} (e : Executor) (vfs : option string) (b : B)
    (calls : list (Hook * Z * list JsVal))
    (Hi : bk_inv b) (Hns : ∀ ns, vfs = Some ns → good_ns ns) :
  (∀ ns path q, vfs = Some ns → prefix_namespace ns (normalize path) = Ok q →
     tokio_context = NotEntered → needs_runtime = true →
     bind FsReadFile 0 vfs b [VString path] = Panicked NO_REACTOR) ∧
  match run_hooks vfs b calls with
  | Done (b', rs) =>
      length rs = length calls ∧
      (∀ ns2 path, good_ns ns2 → vfs ≠ Some ns2 → iv_read ns2 b' path = iv_read ns2 b path) ∧
      (vfs = None → b' = b ∧ ∀ x, NReturned x ∈ rs → x = VBool false)
  | Panicked why =>
      (why = NO_REACTOR ∧ tokio_context = NotEntered ∧ needs_runtime = true) ∨
      (why = NESTED_RUNTIME ∧ tokio_context = InTask) ∨
      (why = "called `Option::unwrap()` on a `None` value" ∧
       ∃ h now args s, (h, now, args) ∈ calls ∧ VString s ∈ args ∧ slen (normalize s) > MAX_STRING_LENGTH)
  end.
Proof.
  split.
  { intros ns path q -> Hq Hc Hneed. simpl. unfold fs_read_file, vfs_read, block_on. simpl. by rewrite Hc, Hneed, Hq. }
  pose proof (@run_hooks_calls B _ _ _ (entered e) I vfs calls b Hi Hns) as Hr.
  destruct (run_hooks_agrees e vfs calls b) as [->|(why & -> & [Hw|Hw])]; [|by left|by right; left].
  destruct (run_hooks vfs b calls) as [[b' rs]|why].
  - destruct Hr as (Hi' & Hlen & He). split; [done|]. destruct vfs as [ns|].
    + split; [|done]. intros ns2 path Hns2 Hne. destruct He as [cs Hc].
      destruct (run_calls_frame ns cs b Hi (Hns ns eq_refl)) as (b'' & Hc' & _ & Hf).
      rewrite Hc in Hc'. injection Hc' as <-. unfold iv_read.
      destruct (prefix_namespace ns2 path) as [q|] eqn:Hq; [|done]. simpl.
      rewrite !bk_read_view by done. f_equal. apply (Hf ns2 path q); [done|congruence|done].
    + destruct He as [-> Hv]. done.
  - destruct Hr as (-> & h & now & args & Hin & s & Hs & Hl). right. right. split; [done|].
    exists h, now, args, s. split_and!; [done|done|]. apply Z.lt_gt. by apply not_fits.
Qed.

(** What a path is, by the hooks: a file is one to [stat], [exists] and [readdir]; a
    path with files or the marker below it is a directory, and [readdir] gives exactly the
    names below it but the marker, in strictly ascending order; anything else is not
    found.  The root is a directory to [stat] and yet cannot be listed, [readdir] throws
    [EINVAL], as the VFS has no path for it. *)
Theorem path_kinds_exact {B} `{VfsDirLaws B} `{Executor} (ns : string) (b : B) (path : string)
    (Hfree : runs_freely) (Hns : good_ns ns) (Hi : bk_inv b) :
  let p := normalize path in
  match file_at ns (bk_view b) p with
  | Some c =>
      (∃ mtime birth, fs_stat (Some ns) b [VString path]
         = Done (b, NReturned (stat_object (f64_of_Z (len c)) mtime birth true))) ∧
      fs_exists (Some ns) b [VString path] = Done (b, NReturned (VBool true)) ∧
      fs_readdir (Some ns) b [VString path] = finish b (throw_uv "ENOTDIR" "scandir" p)
  | None =>
      (is_dir ns (bk_view b) p ∧
       fs_stat (Some ns) b [VString path]
         = Done (b, NReturned (stat_object (f64_of_Z 0) (f64_of_Z 0) (f64_of_Z 0) false)) ∧
       fs_exists (Some ns) b [VString path] = Done (b, NReturned (VBool true)) ∧
       if decide (p = "/")
       then fs_readdir (Some ns) b [VString path] = finish b (throw_uv "EINVAL" "scandir" p)
       else ∃ names, fs_readdir (Some ns) b [VString path] = Done (b, NReturned (VArray (VString <$> names))) ∧
              StronglySorted lt_string names ∧
              ∀ n, n ∈ names ↔ n ≠ DIR_MARKER ∧ child ns (bk_view b) p n) ∨
      (¬ is_dir ns (bk_view b) p ∧
       fs_stat (Some ns) b [VString path] = finish b (throw_uv "ENOENT" "stat" p) ∧
       fs_exists (Some ns) b [VString path] = Done (b, NReturned (VBool false)) ∧
       fs_readdir (Some ns) b [VString path] = finish b (throw_uv "ENOENT" "scandir" p))
  end.
Proof.
  intros p. unfold fs_stat, fs_exists, fs_readdir.
  change (path_arg [VString path] 0) with (Some p). cbn [with_vfs].
  rewrite !(file_exists_at Hfree) by done. cbn [outcome_bind].
  destruct (file_at ns (bk_view b) p) as [c|] eqn:Hf.
  - rewrite !bool_decide_true by done. cbn [outcome_bind fst snd].
    split; [|done]. rewrite block_on_free by done. unfold iv_metadata. destruct (file_at_prefix _ _ _ _ Hf) as [q Hq].
    rewrite Hq. cbn [result_bind outcome_bind fst snd]. pose proof (bk_metadata_view b q Hi) as Hm.
    unfold file_at in Hf. rewrite Hq in Hf. destruct (bk_metadata b q) as [f|e]; destruct Hm as [Hm Hsz].
    + exists (millis_of (modified_at f)), (millis_of (created_at f)). rewrite Hf in Hm. injection Hm as ->. by rewrite Hsz.
    + congruence.
  - rewrite !bool_decide_false by (by intros []). destruct (dir_exists_spec Hfree ns b p Hi Hns) as (d & Hd & Hdir). rewrite Hd.
    cbn [outcome_bind fst snd]. destruct d; cbn [negb outcome_bind fst snd].
    + left. split; [by apply Hdir|]. split; [done|]. split; [done|].
      pose proof (list_children_spec Hfree ns b p Hi Hns) as Hl. case_decide as Hr.
      * rewrite Hr in *. unfold prefix_namespace in Hl. change (new "/") with
          (Err (InvalidPath "/" "Path is empty after normalization") : VfsResult VfsPath) in Hl.
        cbn [result_bind] in Hl. by rewrite Hl.
      * destruct (is_dir_prefix ns (bk_view b) path Hns Hr) as [q Hq]; [by apply Hdir|].
        fold p in Hq. rewrite Hq in Hl. destruct Hl as (names & -> & Hs & Hn). by exists names.
    + right. split; [|done]. intros Hx%Hdir. done.
Qed.

Section directories.
Context {B : Type} `{HB : VfsDirLaws B} `{Executor} (Hfree : runs_freely).

(** A [mkdir] that makes something writes the marker. *)
Lemma fs_mkdir_inv now ns b path rest b1 v :
  bk_inv b → good_ns ns →
  fs_exists (Some ns) b [VString path] = Done (b, NReturned (VBool false)) →
  fs_mkdir now (Some ns) b (VString path :: rest) = Done (b1, NReturned v) →
  bk_inv b1 ∧ file_at ns (bk_view b) (normalize path) = None ∧ ¬ is_dir ns (bk_view b) (normalize path) ∧
  ∃ q, prefix_namespace ns (marker_of (normalize path)) = Ok q ∧ bk_view b1 = <[as_str q := []]> (bk_view b).
Proof.
  intros Hi Hns Hex. unfold fs_exists in Hex. unfold fs_mkdir.
  change (path_arg [VString path] 0) with (Some (normalize path)) in Hex.
  change (path_arg (VString path :: rest) 0) with (Some (normalize path)). cbn [with_vfs] in *.
  rewrite (file_exists_at Hfree) in * by done. cbn [outcome_bind fst snd] in *.
  destruct (file_at ns (bk_view b) (normalize path)) as [c|] eqn:Hf; [by rewrite bool_decide_true in Hex|].
  rewrite bool_decide_false in * by (by intros []).
  destruct (dir_exists_spec Hfree ns b (normalize path) Hi Hns) as (d & Hd & Hdir). rewrite Hd in *. cbn [outcome_bind fst snd] in *.
  destruct d; [done|]. intros Hm.
  assert (Hpar : ∃ par, (if bool_arg (VString path :: rest) 1 then Done None
                         else parent_check ns b (normalize path)) = Done par ∧
                        (par = None ∨ ∃ e, par = Some e)).
  { unfold parent_check. destruct (bool_arg _ 1); [by eexists; eauto|]. rewrite (file_exists_at Hfree) by done. cbn [outcome_bind].
    destruct (bool_decide _); [by eexists; eauto|].
    destruct (dir_exists_spec Hfree ns b (parent_of (normalize path)) Hi Hns) as ([] & -> & _); cbn; eauto. }
  destruct Hpar as (par & Hpar & Hcase). rewrite Hpar in Hm. cbn [outcome_bind fst snd] in Hm.
  destruct Hcase as [->|[e ->]]; cbn [outcome_bind fst snd] in Hm.
  2: { apply finish_returned in Hm as [_ Hm]. destruct e; cbn [map_err] in Hm; [by apply throw_not_returned in Hm..|by apply throw_vfs_not_returned in Hm]. }
  unfold vfs_write in Hm. rewrite block_on_free in Hm by done.
  destruct (iv_write_spec now ns b (marker_of (normalize path)) [] Hi Hns) as (b2 & r & Hw & Hi2 & Hv).
  rewrite Hw in Hm. cbn [outcome_bind fst snd] in Hm. apply finish_returned in Hm as [-> Hm].
  destruct r; cbn [map_err] in Hm; [|by apply throw_vfs_not_returned in Hm].
  split; [done|]. split; [done|]. split; [|done]. intros Hx%Hdir. done.
Qed.

(** The storage with the marker of an empty directory in it. *)
Lemma marker_only ns v s q :
  good_ns ns → file_at ns v (normalize s) = None → ¬ is_dir ns v (normalize s) →
  prefix_namespace ns (marker_of (normalize s)) = Ok q →
  file_at ns (<[as_str q := []]> v) (normalize s) = None ∧
  file_at ns (<[as_str q := []]> v) (marker_of (normalize s)) = Some [] ∧
  v !! as_str q = None ∧
  ∀ n, n ≠ DIR_MARKER → ¬ child ns (<[as_str q := []]> v) (normalize s) n.
Proof.
  intros Hns Hf Hd Hq.
  assert (Hr : normalize s ≠ "/") by (intros He; apply Hd; by left).
  destruct (marker_prefix ns s q Hns Hr Hq) as (p & Hp & Has). split_and!.
  - unfold file_at in *. rewrite Hp in *. rewrite lookup_insert_ne; [done|].
    rewrite Has. apply marker_of_ne.
  - unfold file_at. rewrite Hq. by rewrite lookup_insert_eq.
  - apply eq_None_not_Some. intros Hs. apply Hd. right. left. unfold file_at. by rewrite Hq.
  - intros n Hn Hc. rewrite Has, child_marker in Hc by done. apply Hd. right. right. by exists n.
Qed.

Lemma list_children_nil ns b s :
  bk_inv b → good_ns ns → is_Some (file_at ns (bk_view b) (marker_of (normalize s))) →
  normalize s ≠ "/" → (∀ n, n ≠ DIR_MARKER → ¬ child ns (bk_view b) (normalize s) n) →
  list_children ns b (normalize s) = Done (Ok []).
Proof.
  intros Hi Hns [c Hm] Hr Hn. destruct (file_at_prefix _ _ _ _ Hm) as [q' Hq'].
  destruct (marker_prefix ns s q' Hns Hr Hq') as (q & Hq & _).
  pose proof (list_children_spec Hfree ns b (normalize s) Hi Hns) as Hl. rewrite Hq in Hl.
  destruct Hl as (names & -> & _ & Hnames). destruct names as [|n names]; [done|].
  exfalso. apply (Hn n); apply Hnames; by left.
Qed.
End directories.

(** Making and removing a directory: when [mkdir], recursive or not, returns for a
    path at which there was nothing, the path is an empty directory, a second [mkdir]
    throws [EEXIST], and [rmdir] takes the storage back to exactly what it was.  So the
    parents a recursive [mkdir] is to make along the way are gone with the last directory. *)
Theorem mkdir_rmdir_round_trip {B} `{VfsDirLaws B} `{Executor} (now : Z) (ns : string) (b b1 : B)
    (path : string) (rest : list JsVal) (v : JsVal)
    (Hfree : runs_freely) (Hns : good_ns ns) (Hi : bk_inv b)
    (Hnew : fs_exists (Some ns) b [VString path] = Done (b, NReturned (VBool false)))
    (Hmk : fs_mkdir now (Some ns) b (VString path :: rest) = Done (b1, NReturned v)) :
  fs_stat (Some ns) b1 [VString path]
    = Done (b1, NReturned (stat_object (f64_of_Z 0) (f64_of_Z 0) (f64_of_Z 0) false)) ∧
  fs_readdir (Some ns) b1 [VString path] = Done (b1, NReturned (VArray [])) ∧
  fs_mkdir now (Some ns) b1 [VString path] = finish b1 (throw_uv "EEXIST" "mkdir" (normalize path)) ∧
  ∃ b2, fs_rmdir (Some ns) b1 [VString path] = Done (b2, NReturned VUndefined) ∧
        bk_inv b2 ∧ bk_view b2 = bk_view b.
Proof.
  destruct (fs_mkdir_inv Hfree _ _ _ _ _ _ _ Hi Hns Hnew Hmk) as (Hi1 & Hf & Hd & q & Hq & Hv).
  assert (Hr : normalize path ≠ "/") by (intros He; apply Hd; by left).
  destruct (marker_only ns _ path q Hns Hf Hd Hq) as (Hf1 & Hm1 & Hq0 & Hc1). rewrite <-Hv in *.
  assert (Hl : list_children ns b1 (normalize path) = Done (Ok []))
    by (apply (list_children_nil Hfree); try done; by rewrite Hm1).
  assert (Hdir : dir_exists ns b1 (normalize path) = Done true).
  { destruct (dir_exists_spec Hfree ns b1 (normalize path) Hi1 Hns) as (d & -> & Hx). f_equal. apply Hx.
    right. left. by rewrite Hm1. }
  unfold fs_stat, fs_readdir, fs_mkdir, fs_rmdir, vfs_delete.
  change (path_arg [VString path] 0) with (Some (normalize path)). cbn [with_vfs].
  rewrite !(file_exists_at Hfree), Hf1, Hm1, Hl, Hdir by done. rewrite block_on_free by done.
  rewrite bool_decide_false by (by intros []). rewrite bool_decide_true by done. cbn [outcome_bind negb fst snd].
  destruct (iv_delete_spec ns b1 (marker_of (normalize path)) Hi1) as (b2 & r & -> & Hi2 & Hv2 & Hok).
  rewrite Hq in Hv2. cbn [outcome_bind negb fst snd]. split_and!; [done|done|done|]. exists b2.
  assert (Hok' : is_ok r = true) by (apply Hok; by rewrite Hm1).
  rewrite block_on_free by done. cbn [outcome_bind fst snd]. destruct r as [[]|]; [|done]. split; [done|]. split; [done|].
  rewrite Hv2, Hv. by apply delete_insert_id.
Qed.

(** What [rename] does when it returns: the source held a file, the destination holds
    its bytes and the source is gone; no other path changes.  The source goes last, so
    renaming a file to any spelling of its own path destroys it.  Nothing asks whether the
    destination is a directory. *)
Theorem rename_exact {B} `{VfsDirLaws B} `{Executor} (now : Z) (ns : string) (b b' : B) (from to : string) (v : JsVal)
    (Hfree : runs_freely) (Hns : good_ns ns) (Hi : bk_inv b)
    (Hren : fs_rename now (Some ns) b [VString from; VString to] = Done (b', NReturned v)) :
  ∃ c, file_at ns (bk_view b) (normalize from) = Some c ∧
    ∀ path, file_at ns (bk_view b') (normalize path) =
      if decide (normalize path = normalize from) then None
      else if decide (normalize path = normalize to) then Some c
      else file_at ns (bk_view b) (normalize path).
Proof.
  revert Hren. unfold fs_rename, vfs_read, vfs_write, vfs_delete.
  change (path_arg [VString from; VString to] 0) with (Some (normalize from)).
  change (path_arg [VString from; VString to] 1) with (Some (normalize to)). cbn [with_vfs].
  rewrite block_on_free by done. cbn [outcome_bind].
  destruct (iv_read ns b (normalize from)) as [c|] eqn:Hrd.
  2: { cbn [outcome_bind fst snd]. intros [_ Hx]%finish_returned. apply settle_returned in Hx. discriminate Hx. }
  rewrite block_on_free by done.
  apply iv_read_at in Hrd; [|done].
  destruct (iv_write_spec now ns b (normalize to) c Hi Hns) as (b1 & r & -> & Hi1 & Hv1). cbn [outcome_bind fst snd].
  destruct r; cbn [outcome_bind fst snd]; [|intros [_ Hx]%finish_returned; apply settle_returned in Hx; discriminate Hx].
  destruct Hv1 as (qt & Hqt & Hv1). rewrite block_on_free by done.
  destruct (iv_delete_spec ns b1 (normalize from) Hi1) as (b2 & r & -> & Hi2 & Hv2 & Hok). cbn [outcome_bind fst snd].
  intros [-> _]%finish_returned. exists c. split; [done|]. intros path.
  destruct (file_at_prefix _ _ _ _ Hrd) as [qf Hqf]. rewrite Hqf in Hv2.
  rewrite Hv2, (file_at_delete ns qf _ from path Hns Hqf), Hv1.
  by rewrite (file_at_insert ns qt c _ to path Hns Hqt).
Qed.

(** ** Witnesses: the memory backend *)

(** A worker thread: no runtime is entered, and the memory needs none. *)
#[local] Instance worker_executor : Executor := mkExecutor NotEntered false.

Lemma worker_free : runs_freely.
Proof. reflexivity. Qed.

Definition demo_fs (calls : list (Hook * Z * list JsVal)) : MemoryBackend :=
  match run_hooks (Some "app") (with_limits test_limits) calls with
  | Done (b, _) => b
  | Panicked _ => with_limits test_limits
  end.

Lemma demo_app : good_ns "app".
Proof. apply good_ns_dec. reflexivity. Qed.

Lemma demo_fs_inv calls : mem_inv (demo_fs calls).
Proof.
  assert (Hi : mem_inv (with_limits test_limits)).
  { apply with_limits_inv. repeat split; vm_compute; congruence. }
  unfold demo_fs.
  pose proof (run_hooks_calls (H0 := memory_backend_laws) worker_free (Some "app") calls (with_limits test_limits) Hi
    ltac:(intros ns [= <-]; exact demo_app)) as Hr.
  destruct (run_hooks _ _ _) as [[b rs]|why]; [exact (proj1 Hr)|exact Hi].
Qed.

Definition demo_bytes : bytes := [Byte.x68; Byte.x69].
Definition demo_write (path : string) : Hook * Z * list JsVal :=
  (FsWriteFile, 1, [VString path; VUint8Array demo_bytes]).

Lemma node_read_after_write_witness :
  fs_read_file (Some "app") (demo_fs [demo_write "/d/../a.txt"]) [VString "./a.txt"]
  = Done (demo_fs [demo_write "/d/../a.txt"], NReturned (VUint8Array demo_bytes)).
Proof.
  exact (node_read_after_write (H0 := memory_backend_laws) 1 "app" (demo_fs []) (demo_fs [demo_write "/d/../a.txt"])
           "/d/../a.txt" "./a.txt" demo_bytes VUndefined worker_free demo_app (demo_fs_inv [])
           ltac:(vm_compute; reflexivity)).
Defined.

Definition demo_calls : list (Hook * Z * list JsVal) :=
  [demo_write "../../other::x"; (FsMkdir, 2, [VString "/d"; VBool true]); (FsReaddir, 3, [VString "/"]);
   (FsUnlink, 4, [VNumber (f64_of_Z 1)])].

Lemma node_fs_confined_witness :
  (∃ b' rs, run_hooks (Some "app") (demo_fs []) demo_calls = Done (b', rs) ∧
    length rs = 4%nat ∧ iv_read "other" b' "x" = iv_read "other" (demo_fs []) "x") ∧
  @run_hooks _ _ (mkExecutor NotEntered true) (Some "app") (demo_fs []) demo_calls = Panicked NO_REACTOR.
Proof.
  split; [|vm_compute; reflexivity].
  pose proof (node_fs_confined (H0 := memory_backend_laws) worker_executor (Some "app") (demo_fs []) demo_calls
    (demo_fs_inv []) ltac:(intros ? [= <-]; exact demo_app)) as [_ Hc].
  destruct (run_hooks (Some "app") (demo_fs []) demo_calls) as [[b' rs]|why] eqn:E; [|vm_compute in E; discriminate E].
  destruct Hc as (Hl & Hf & _). exists b', rs. split; [reflexivity|]. split; [exact Hl|].
  apply Hf; [apply good_ns_dec; reflexivity|done].
Defined.

Lemma path_kinds_exact_witness :
  file_at "app" (view (demo_fs [demo_write "/d/x"])) "/d" = None ∧
  fs_exists (Some "app") (demo_fs [demo_write "/d/x"]) [VString "d/"]
    = Done (demo_fs [demo_write "/d/x"], NReturned (VBool true)).
Proof.
  pose proof (path_kinds_exact (H0 := memory_backend_laws) "app" (demo_fs [demo_write "/d/x"]) "d/" worker_free demo_app (demo_fs_inv _)) as Hk.
  assert (Hf : file_at "app" (view (demo_fs [demo_write "/d/x"])) "/d" = None) by (vm_compute; reflexivity).
  split; [exact Hf|]. cbv zeta in Hk. change (normalize "d/") with "/d" in Hk.
  change (bk_view (demo_fs [demo_write "/d/x"])) with (view (demo_fs [demo_write "/d/x"])) in Hk.
  rewrite Hf in Hk. destruct Hk as [(_ & _ & He & _)|(_ & _ & He & _)]; [exact He|].
  exfalso. vm_compute in He. discriminate.
Defined.

Lemma mkdir_rmdir_round_trip_witness :
  let made := demo_fs [(FsMkdir, 5, [VString "/a/b"; VBool true])] in
  ∃ b2, fs_rmdir (Some "app") made [VString "/a/b"] = Done (b2, NReturned VUndefined) ∧ view b2 = ∅.
Proof.
  intros made.
  destruct (mkdir_rmdir_round_trip (H0 := memory_backend_laws) 5 "app" (demo_fs []) made "/a/b" [VBool true] VUndefined
              worker_free demo_app (demo_fs_inv []) ltac:(vm_compute; reflexivity) ltac:(vm_compute; reflexivity))
    as (_ & _ & _ & b2 & Hr & _ & Hv).
  exists b2. split; [exact Hr|]. exact Hv.
Defined.

Lemma rename_exact_witness :
  let before := demo_fs [demo_write "/a.txt"] in
  let after := demo_fs [demo_write "/a.txt"; (FsRename, 6, [VString "/a.txt"; VString "a.txt"])] in
  file_at "app" (view before) "/a.txt" = Some [104; 105] ∧ file_at "app" (view after) "/a.txt" = None.
Proof.
  intros before after.
  destruct (rename_exact (H0 := memory_backend_laws) 6 "app" before after "/a.txt" "a.txt" VUndefined
              worker_free demo_app (demo_fs_inv _) ltac:(vm_compute; reflexivity)) as (c & Hc & Hafter).
  split; [vm_compute; reflexivity|]. exact (Hafter "a.txt").
Defined.
