(* ===== verification/NanoFs.v ===== *)
(** * [Nano.fs] and the fs polyfill: [src/runtime/vfs_bindings.rs], [src/runtime/fs_polyfill.rs]

    Two sets of callbacks over the VFS of the thread, each with a thread-local variable of
    its own for it; [Threads] are the two variables.  [vfs_bindings.rs] is what [Nano.fs]
    and, through [with_current_vfs], the hooks of NodeFs use.

    Paths go to the VFS as they are given.  Strings are the UTF-8 text the engine gives;
    [String::from_utf8_lossy] is the parameter [utf8_lossy] and [utf8_lossy_text] is what
    its documentation says of it. *)

From stdpp Require Import base gmap list strings pretty.
From Stdlib Require Import Ascii ZArith Lia SpecFloat.
From Stdlib.Strings Require Byte.
From S2P Require Import Prelude RustString RustFloat Sliver SliverVfs VfsPath VfsBackend VfsMemory VfsIsolate CryptoKeys CryptoApi NodeFs.

Open Scope Z_scope.

(** ** Arguments and results *)

(** An argument: a value, or a function, which converts to its source text. *)
Inductive JsArg := AVal (v : JsVal) | AFunction (f : nat) (source : string).

(** What a callback of the program is given. *)
Inductive CbArg := CbVal (v : JsVal) | CbError (e : Thrown).

(** A call returns a value or a promise that is already resolved, or throws; it may have
    called one function of the program. *)
Inductive Answer :=
| Returned (v : JsVal)
| Resolved (v : JsVal)
| Threw (e : Thrown).

Record FsCall := mkCall { answer : Answer; called : option (nat * list CbArg) }.

Definition just (a : Answer) : FsCall := mkCall a None.

(** The bytes of a Rust string *)
Definition text_bytes (s : string) : list Z := (λ c, Z.of_N (N_of_ascii c)) <$> String.list_ascii_of_string s.

Section arguments.
Context `{JsText}.

Definition extract_string_arg (args : list JsArg) (index : nat) : option string :=
  match args !! index with
  | Some (AVal v) => Some (to_string v)
  | Some (AFunction _ source) => Some source
  | None => None
  end.

(** [Nano.fs]: every argument of the model converts to a string, which is tried first. *)
Definition nano_extract_bytes_arg (args : list JsArg) (index : nat) : option (list Z) :=
  text_bytes <$> extract_string_arg args index.

(** The polyfill looks at the bytes first. *)
Definition extract_bytes_arg (args : list JsArg) (index : nat) : option (list Z) :=
  match args !! index with
  | Some (AVal (VUint8Array b)) | Some (AVal (VArrayBuffer b)) => Some (byte_values b)
  | _ => text_bytes <$> extract_string_arg args index
  end.
End arguments.

Definition fs_error (error : VfsError) : Thrown :=
  mkThrown PlainError (display_vfs_error error) (Some (error_code error)) None (error_path error) None.

Definition missing (msg : string) : Thrown := mkThrown TypeError msg None None None None.

(** The thread-local variables: the namespace of the VFS of each, if set. *)
Record Threads := mkThreads { nano_vfs : option string; polyfill_vfs : option string }.

Definition initial_threads : Threads := mkThreads None None.

(** [vfs_bindings::set_current_vfs] *)
Definition set_current_vfs (vfs : option string) (t : Threads) : Threads := mkThreads vfs (polyfill_vfs t).

(** ** [Nano.fs] *)

Section nano.
Context {B : Type} `{VfsBackend B} `{JsText} (utf8_lossy : list Z → string).

Abbreviation Io A := (outcome (B * A)).

(** [with_current_vfs] and the operation of the VFS in a block *)
Definition on_vfs {R} (vfs : option string) (b : B) (none : VfsResult R) (f : string → Io (VfsResult R))
    : Io (VfsResult R) :=
  match vfs with Some ns => f ns | None => Done (b, none) end.

Definition no_vfs {R} : VfsResult R := Err (IoError "No VFS available for this isolate").

Definition returns_string (encoding : option string) : bool :=
  match encoding with Some e => String.eqb e "utf8" || String.eqb e "utf-8" | None => false end.

Definition read_value (return_string : bool) (bytes : list Z) : JsVal :=
  if return_string then VString (utf8_lossy bytes) else make_uint8array bytes.

Definition nano_read (what : string) (wrap : JsVal → Answer) (vfs : option string) (b : B)
    (args : list JsArg) : Io FsCall :=
  match extract_string_arg args 0 with
  | None => Done (b, just (Threw (missing (what +:+ " requires a path argument"))))
  | Some path =>
      let return_string := returns_string (extract_string_arg args 1) in
      let! r := on_vfs vfs b no_vfs (λ ns, Done (b, iv_read ns b path)) in
      Done (fst r, just (match snd r with
                         | Ok bytes => wrap (read_value return_string bytes)
                         | Err e => Threw (fs_error e)
                         end))
  end.

Definition nano_fs_read_file_sync := nano_read "readFileSync" Returned.
Definition nano_fs_read_file := nano_read "readFile" Resolved.

Definition nano_write (what : string) (wrap : JsVal → Answer) (now : Z) (vfs : option string) (b : B)
    (args : list JsArg) : Io FsCall :=
  match extract_string_arg args 0 with
  | None => Done (b, just (Threw (missing (what +:+ " requires a path argument"))))
  | Some path =>
      match nano_extract_bytes_arg args 1 with
      | None => Done (b, just (Threw (missing (what +:+ " requires data argument"))))
      | Some data =>
          let! r := on_vfs vfs b no_vfs (λ ns, iv_write now ns b path data) in
          Done (fst r, just (match snd r with
                             | Ok _ => wrap VUndefined
                             | Err e => Threw (fs_error e)
                             end))
      end
  end.

Definition nano_fs_write_file_sync := nano_write "writeFileSync" Returned.
Definition nano_fs_write_file := nano_write "writeFile" Resolved.

Definition nano_fs_exists_sync (vfs : option string) (b : B) (args : list JsArg) : Io FsCall :=
  match extract_string_arg args 0 with
  | None => Done (b, just (Threw (missing "existsSync requires a path argument")))
  | Some path =>
      let! r := on_vfs vfs b no_vfs (λ ns, Done (b, iv_exists ns b path)) in
      Done (fst r, just (match snd r with Ok e => Returned (VBool e) | Err e => Threw (fs_error e) end))
  end.

Definition nano_fs_delete_sync (vfs : option string) (b : B) (args : list JsArg) : Io FsCall :=
  match extract_string_arg args 0 with
  | None => Done (b, just (Threw (missing "deleteSync requires a path argument")))
  | Some path =>
      let! r := on_vfs vfs b no_vfs (λ ns, Done (iv_delete ns b path)) in
      Done (fst r, just (match snd r with Ok _ => Returned VUndefined | Err e => Threw (fs_error e) end))
  end.

(** ** The polyfill *)

Definition polyfill_no_vfs {R} : VfsResult R := Err (IoError "No VFS available").

(** An encoding is asked for whenever there is a second argument, of any kind. *)
Definition fs_read_file_sync (vfs : option string) (b : B) (args : list JsArg) : Io FsCall :=
  match extract_string_arg args 0 with
  | None => Done (b, just (Threw (missing "readFileSync requires a path argument")))
  | Some path =>
      let encoding := if (1 <? length args)%nat then extract_string_arg args 1 else None in
      let! r := on_vfs vfs b polyfill_no_vfs (λ ns, Done (b, iv_read ns b path)) in
      Done (fst r, just (match snd r with
                         | Ok bytes => Returned (read_value (bool_decide (is_Some encoding)) bytes)
                         | Err e => Threw (fs_error e)
                         end))
  end.

Definition fs_write_file_sync (now : Z) (vfs : option string) (b : B) (args : list JsArg) : Io FsCall :=
  match extract_string_arg args 0 with
  | None => Done (b, just (Threw (missing "writeFileSync requires a path argument")))
  | Some path =>
      match extract_bytes_arg args 1 with
      | None => Done (b, just (Threw (missing "writeFileSync requires data argument")))
      | Some data =>
          let! r := on_vfs vfs b polyfill_no_vfs (λ ns, iv_write now ns b path data) in
          Done (fst r, just (match snd r with Ok _ => Returned VUndefined | Err e => Threw (fs_error e) end))
      end
  end.

Definition fs_exists_sync (vfs : option string) (b : B) (args : list JsArg) : Io FsCall :=
  match extract_string_arg args 0 with
  | None => Done (b, just (Returned (VBool false)))
  | Some path =>
      let! r := on_vfs vfs b (Ok false) (λ ns, Done (b, iv_exists ns b path)) in
      Done (fst r, just (Returned (VBool (match snd r with Ok e => e | Err _ => false end))))
  end.

Definition fs_unlink_sync (vfs : option string) (b : B) (args : list JsArg) : Io FsCall :=
  match extract_string_arg args 0 with
  | None => Done (b, just (Threw (missing "unlinkSync requires a path argument")))
  | Some path =>
      let! r := on_vfs vfs b polyfill_no_vfs (λ ns, Done (iv_delete ns b path)) in
      Done (fst r, just (match snd r with Ok _ => Returned VUndefined | Err e => Threw (fs_error e) end))
  end.

(** *** With callbacks *)

Definition function_at (args : list JsArg) (index : nat) : option nat :=
  match args !! index with Some (AFunction f _) => Some f | _ => None end.

(** The last argument, when there are enough. *)
Definition last_callback (least : nat) (args : list JsArg) : option nat :=
  if (least <=? length args)%nat then function_at args (length args - 1) else None.

(** The callback is called before the function returns [undefined]; what it throws is dropped. *)
Definition call_back {R} (cb : option nat) (r : VfsResult R) (ok : R → list CbArg) (err : VfsError → list CbArg)
    : FsCall :=
  mkCall (Returned VUndefined) ((λ f, (f, match r with Ok x => ok x | Err e => err e end)) <$> cb).

Definition fs_read_file (vfs : option string) (b : B) (args : list JsArg) : Io FsCall :=
  match extract_string_arg args 0 with
  | None => Done (b, just (Threw (missing "readFile requires a path argument")))
  | Some path =>
      let callback := last_callback 2 args in
      let! r := on_vfs vfs b polyfill_no_vfs (λ ns, Done (b, iv_read ns b path)) in
      Done (fst r, call_back callback (snd r)
        (λ bytes, [CbVal VNull; CbVal (make_uint8array bytes)])
        (λ e, [CbError (fs_error e); CbVal VUndefined]))
  end.

Definition fs_write_file (now : Z) (vfs : option string) (b : B) (args : list JsArg) : Io FsCall :=
  match extract_string_arg args 0 with
  | None => Done (b, just (Threw (missing "writeFile requires a path argument")))
  | Some path =>
      match extract_bytes_arg args 1 with
      | None => Done (b, just (Threw (missing "writeFile requires data argument")))
      | Some data =>
          let callback := last_callback 3 args in
          let! r := on_vfs vfs b polyfill_no_vfs (λ ns, iv_write now ns b path data) in
          Done (fst r, call_back callback (snd r) (λ _, [CbVal VNull]) (λ e, [CbError (fs_error e)]))
      end
  end.

Definition fs_exists (vfs : option string) (b : B) (args : list JsArg) : Io FsCall :=
  match extract_string_arg args 0 with
  | None => Done (b, just (Returned (VBool false)))
  | Some path =>
      let callback := function_at args 1 in
      let! r := on_vfs vfs b (Ok false) (λ ns, Done (b, iv_exists ns b path)) in
      Done (fst r, call_back callback (snd r) (λ e, [CbVal (VBool e)]) (λ _, [CbVal (VBool false)]))
  end.

Definition fs_unlink (vfs : option string) (b : B) (args : list JsArg) : Io FsCall :=
  match extract_string_arg args 0 with
  | None => Done (b, just (Threw (missing "unlink requires a path argument")))
  | Some path =>
      let callback := function_at args 1 in
      let! r := on_vfs vfs b polyfill_no_vfs (λ ns, Done (iv_delete ns b path)) in
      Done (fst r, call_back callback (snd r) (λ _, [CbVal VNull]) (λ e, [CbError (fs_error e)]))
  end.

(** ** What is bound *)

Inductive NanoFn :=
| NanoReadFileSync | NanoReadFile | NanoWriteFileSync | NanoWriteFile | NanoExistsSync | NanoDeleteSync.

Definition bind_nano_fs (f : NanoFn) (now : Z) (t : Threads) (b : B) (args : list JsArg) : Io FsCall :=
  let vfs := nano_vfs t in
  match f with
  | NanoReadFileSync => nano_fs_read_file_sync vfs b args
  | NanoReadFile => nano_fs_read_file vfs b args
  | NanoWriteFileSync => nano_fs_write_file_sync now vfs b args
  | NanoWriteFile => nano_fs_write_file now vfs b args
  | NanoExistsSync => nano_fs_exists_sync vfs b args
  | NanoDeleteSync => nano_fs_delete_sync vfs b args
  end.

Inductive PolyfillFn :=
| ReadFileSync | WriteFileSync | ExistsSync | UnlinkSync | ReadFile | WriteFile | Exists_ | Unlink.

Definition bind_fs_polyfill (f : PolyfillFn) (now : Z) (t : Threads) (b : B) (args : list JsArg) : Io FsCall :=
  let vfs := polyfill_vfs t in
  match f with
  | ReadFileSync => fs_read_file_sync vfs b args
  | WriteFileSync => fs_write_file_sync now vfs b args
  | ExistsSync => fs_exists_sync vfs b args
  | UnlinkSync => fs_unlink_sync vfs b args
  | ReadFile => fs_read_file vfs b args
  | WriteFile => fs_write_file now vfs b args
  | Exists_ => fs_exists vfs b args
  | Unlink => fs_unlink vfs b args
  end.
End nano.

(** [require_callback]: the module, or why there is none. *)
Definition require_callback `{JsText} (args : list JsArg) : result unit Thrown :=
  match args with
  | [] => Err (missing "require() requires a module name")
  | _ =>
      let module_name := default "" (extract_string_arg args 0) in
      if String.eqb module_name "fs" then Ok tt
      else Err (mkThrown PlainError ("Module '" +:+ (module_name +:+ "' not found")) None None None None)
  end.

(** ** Theorems *)

Section facts.
Context {B : Type} `{HB : VfsBackendLaws B}.

Lemma write_then_read now ns b b' path data (r : VfsResult unit) :
  bk_inv b → good_ns ns → iv_write now ns b path data = Done (b', r) → is_ok r = true →
  bk_inv b' ∧ iv_read ns b' path = Ok data.
Proof.
  intros Hi Hns. unfold iv_write, iv_read. destruct (prefix_namespace ns path) as [q|] eqn:Hq; [|by intros [= _ <-]].
  destruct (prefix_namespace_ok _ _ _ Hns Hq) as (_ & _ & _ & Hwq).
  destruct (bk_write_view now b q data Hi Hwq) as (b1 & r1 & -> & Hi1 & Hv). intros [= -> ->].
  destruct r; [|done]. intros _. split; [done|]. simpl. by rewrite bk_read_view, Hv, lookup_insert_eq.
Qed.
End facts.

(** Bytes through the two APIs.  [Nano.fs.writeFileSync] stores the text its data
    converts to: what was written as a string reads back as it was, and a [Uint8Array]
    reads back as the decimal numbers of its bytes.  The polyfill stores the bytes. *)
Theorem binary_data {B} `{VfsBackendLaws B} `{JsText} (utf8_lossy : list Z → string)
    (now : Z) (ns : string) (b b1 b2 : B) (path : string) (v : JsVal) (data : bytes) (c1 c2 : FsCall)
    (Hns : good_ns ns) (Hi : bk_inv b)
    (Hw1 : nano_fs_write_file_sync now (Some ns) b [AVal (VString path); AVal v] = Done (b1, c1))
    (Hw2 : fs_write_file_sync now (Some ns) b [AVal (VString path); AVal (VUint8Array data)] = Done (b2, c2)) :
  (∃ e, answer c1 = Threw e) ∨
  nano_fs_read_file_sync utf8_lossy (Some ns) b1 [AVal (VString path)]
    = Done (b1, just (Returned (make_uint8array (text_bytes (to_string v))))) ∧
  (utf8_lossy (text_bytes (to_string v)) = to_string v →
   nano_fs_read_file_sync utf8_lossy (Some ns) b1 [AVal (VString path); AVal (VString "utf8")]
    = Done (b1, just (Returned (VString (to_string v))))) ∧
  ((∃ e, answer c2 = Threw e) ∨
   fs_read_file_sync utf8_lossy (Some ns) b2 [AVal (VString path)]
    = Done (b2, just (Returned (VUint8Array data)))).
Proof.
  revert Hw1 Hw2. unfold nano_fs_write_file_sync, nano_write, fs_write_file_sync. simpl.
  destruct (iv_write now ns b path (text_bytes (to_string v))) as [[b1' r1]|] eqn:Hw1; [|done].
  destruct (iv_write now ns b path (byte_values data)) as [[b2' r2]|] eqn:Hw2; [|done].
  simpl. intros [= -> <-] [= -> <-]. destruct r1 as [[]|e1]; simpl; [right|by left; eexists].
  destruct (write_then_read _ _ _ _ _ _ _ Hi Hns Hw1 eq_refl) as [_ Hr1].
  unfold nano_fs_read_file_sync, nano_read, fs_read_file_sync. simpl. rewrite Hr1. simpl.
  split; [done|]. split; [by intros ->|]. destruct r2 as [[]|e2]; simpl; [right|by left; eexists].
  destruct (write_then_read _ _ _ _ _ _ _ Hi Hns Hw2 eq_refl) as [_ Hr2]. rewrite Hr2. simpl.
  unfold make_uint8array. by rewrite bytes_of_values.
Qed.

(** A call that tells nothing of any file. *)
Definition tells_nothing (c : FsCall) : Prop :=
  (∃ e, answer c = Threw e) ∨
  ((answer c = Returned VUndefined ∨ answer c = Returned (VBool false)) ∧
   ∀ f args, called c = Some (f, args) → args = [CbVal (VBool false)] ∨ ∃ e rest, args = CbError e :: rest).

(** The polyfill has no VFS: the variable it reads is its own and nothing but tests
    sets it, so whatever VFS the thread was given, no function of the polyfill reads or
    changes a file; it throws, answers [false], or calls back with an error. *)
Theorem polyfill_has_no_vfs {B} `{VfsBackend B} `{JsText} (utf8_lossy : list Z → string)
    (f : PolyfillFn) (now : Z) (given : list (option string)) (b : B) (args : list JsArg) :
  ∃ c, bind_fs_polyfill utf8_lossy f now (foldr set_current_vfs initial_threads given) b args = Done (b, c) ∧
    tells_nothing c.
Proof.
  assert (Hp : polyfill_vfs (foldr set_current_vfs initial_threads given) = None)
    by (by induction given).
  unfold bind_fs_polyfill. rewrite Hp. unfold tells_nothing.
  destruct f; unfold fs_read_file_sync, fs_write_file_sync, fs_exists_sync, fs_unlink_sync,
    fs_read_file, fs_write_file, fs_exists, fs_unlink;
    destruct (extract_string_arg args 0); try destruct (extract_bytes_arg args 1);
    cbn; (eexists; split; [reflexivity|]); cbn; try (left; by eexists).
  all: right; (split; [by auto|]); intros f args'; try destruct (last_callback _ args);
    try destruct (function_at args 1); cbn; try (intros [=]; fail); intros [= <- <-]; eauto.
Qed.

(** The functions of [Nano.fs] that answer with a promise do the same as the
    synchronous ones: where those return they answer with a promise that is resolved
    already, and where those throw they throw the same error, so a failure is never a
    rejection.  The message about a missing argument alone is different. *)
Theorem async_forms_are_sync {B} `{VfsBackend B} `{JsText} (utf8_lossy : list Z → string)
    (now : Z) (vfs : option string) (b : B) (args : list JsArg) (Hargs : (2 <= length args)%nat) :
  match nano_fs_read_file_sync utf8_lossy vfs b args, nano_fs_read_file utf8_lossy vfs b args with
  | Done (b1, c1), Done (b2, c2) =>
      b1 = b2 ∧ match answer c1 with Returned v => answer c2 = Resolved v | a => answer c2 = a end
  | _, _ => False
  end ∧
  match nano_fs_write_file_sync now vfs b args, nano_fs_write_file now vfs b args with
  | Done (b1, c1), Done (b2, c2) =>
      b1 = b2 ∧ match answer c1 with Returned v => answer c2 = Resolved v | a => answer c2 = a end
  | Panicked e1, Panicked e2 => e1 = e2
  | _, _ => False
  end.
Proof.
  destruct args as [|a1 [|a2 args]]; simpl in Hargs; [lia|lia|].
  unfold nano_fs_read_file_sync, nano_fs_read_file, nano_fs_write_file_sync, nano_fs_write_file,
    nano_read, nano_write, nano_extract_bytes_arg.
  assert (Hs : ∀ i, (i < 2)%nat → ∃ s, extract_string_arg (a1 :: a2 :: args) i = Some s).
  { intros [|[|i]] Hi; [destruct a1|destruct a2|lia]; by eexists. }
  destruct (Hs 0%nat) as [s0 ->]; [lia|]. destruct (Hs 1%nat) as [s1 ->]; [lia|]. simpl.
  destruct vfs as [ns|]; simpl; [|done]. split.
  - split; [done|]. by destruct (iv_read ns b s0).
  - destruct (iv_write now ns b s0 (text_bytes s1)) as [[b' r]|]; [|done]. simpl.
    split; [done|]. by destruct r.
Qed.

(** ** Witnesses *)

#[local] Existing Instance demo_text.

Definition demo_lossy (l : list Z) : string :=
  String.string_of_list_ascii ((λ z, ascii_of_N (Z.to_N z)) <$> l).

Definition demo_state (r : outcome (MemoryBackend * FsCall)) : MemoryBackend :=
  match r with Done (b, _) => b | Panicked _ => demo_fs [] end.

Lemma binary_data_witness :
  let b1 := demo_state (nano_fs_write_file_sync 1 (Some "app") (demo_fs [])
                          [AVal (VString "a"); AVal (VUint8Array demo_bytes)]) in
  nano_fs_read_file_sync demo_lossy (Some "app") b1 [AVal (VString "a"); AVal (VString "utf8")]
  = Done (b1, just (Returned (VString "104,105"))).
Proof.
  intros b1.
  destruct (binary_data (H0 := memory_backend_laws) demo_lossy 1 "app" (demo_fs []) b1
    (demo_state (fs_write_file_sync 1 (Some "app") (demo_fs [])
                   [AVal (VString "a"); AVal (VUint8Array demo_bytes)]))
    "a" (VUint8Array demo_bytes) demo_bytes (just (Returned VUndefined)) (just (Returned VUndefined))
    demo_app (demo_fs_inv []) ltac:(vm_compute; reflexivity) ltac:(vm_compute; reflexivity))
    as [[e He]|(_ & Hr & _)]; [discriminate He|].
  apply Hr. vm_compute. reflexivity.
Defined.

Lemma async_forms_are_sync_witness :
  ∃ b c, nano_fs_read_file demo_lossy None (demo_fs []) [AVal (VString "a"); AVal VUndefined] = Done (b, c) ∧
    ∃ e, answer c = Threw e.
Proof.
  pose proof (async_forms_are_sync demo_lossy 1 None (demo_fs []) [AVal (VString "a"); AVal VUndefined]
                ltac:(simpl; lia)) as [Hr _].
  eexists _, _. split; [reflexivity|]. vm_compute in Hr. destruct Hr as [_ Hr]. by eexists.
Defined.
