(* ===== verification/TenantPool.v ===== *)
(** * [src/worker/tenant_pool.rs]: a pool of threads for one tenant

    The pool keeps a fixed number of threads for HTTP requests and one more for every
    WebSocket connection.  Threads are lists of waiting tasks with a phase; what the
    program of the tenant does only decides which of a thread's steps comes next, so the
    steps are events.  A thread whose channel is empty waits in [recv] until the sender,
    which the pool owns, is dropped.

    The model holds everything that decides which thread gets a task, what is answered,
    when an isolate is replaced, how connections are counted, and how the pool is dropped.
    The calls of the engine inside a request are those of WorkerLoop. *)

From stdpp Require Import base list strings pretty.
From Stdlib Require Import ZArith Lia.
From S2P Require Import Prelude RustString Config.

Open Scope Z_scope.

Definition MAX_REQUESTS_PER_ISOLATE : Z := 10000.

(** ** State *)

(** What the pool looks at in a [HandlerTask]: [task_ws] is [task.ws.is_some()]. *)
Record Task := mkTask { request_id : string; task_ws : bool }.

(** Where the thread is: making its runtime, at the top of ['isolate], in ['requests]
    with [served] requests counted, in ['ws_messages], or gone. *)
Inductive Phase := Starting | Creating | Waiting (served : Z) | Connected | Exited.

Record Worker := mkWorker { inbox : list Task; phase : Phase }.

Definition spawned (tasks : list Task) : Worker := mkWorker tasks Starting.

(** What is sent to [response_tx]. *)
Inductive Reply := SwitchingProtocols | OomResponse | HandlerAnswer (ok : bool).

(** Where [drop] is, if it is called: the next thread to join in either list. *)
Inductive Dropping := Live | JoinHttp (i : nat) | JoinWs (i : nat) | Dropped.

Record TenantPool := mkPool {
  hostname : string;
  memory_limit_mb : Z;
  workers : list Worker;
  next_worker : Z;
  ws_workers : list Worker;
  ws_busy : Z;
  max_ws_connections : Z;
  ws_idle_timeout_ms : Z;
  dropping : Dropping;
  replies : list (string * Reply);
}.

Definition new_pool (hostname : string) (worker_count memory_limit_mb : Z) (limits : Config.AppRs.AppLimits) : TenantPool :=
  mkPool hostname memory_limit_mb (replicate (Z.to_nat worker_count) (spawned [])) 0 [] 0
         (Config.AppRs.effective_max_ws_connections limits) (Config.AppRs.effective_ws_idle_timeout_ms limits) Live [].

(** How long a connection may be silent, in milliseconds. *)
Definition idle_duration (p : TenantPool) : Z :=
  if ws_idle_timeout_ms p >? 0 then ws_idle_timeout_ms p else 30000.

(** ** A thread *)

(** What [run_worker] does with a task it received. *)
Inductive Outcome := RefusedForMemory | NotLoaded | AnsweredHttp (ok : bool) | AcceptedWs.

Inductive WorkerEvent :=
| RuntimeReady
| RuntimeFailed
| IsolateReady
| IsolateFailed
| Recycled
| ChannelClosed
| Received (o : Outcome)
| ConnectionEnded.

(** The thread is gone and its receiver with it: tasks in the channel are dropped. *)
Definition exited : Worker := mkWorker [] Exited.

(** A step of a thread, if the event can happen: the thread after it, the change of
    [ws_busy] and what it answered.  [senders] says that the sender is alive.  A handler
    that cannot be loaded answers without counting the request; a connection that cannot
    be set up ends like any other, by giving up the isolate. *)
Definition run_worker (memory_limit_mb : Z) (senders : bool) (e : WorkerEvent) (w : Worker)
    : option (Worker * Z * list (string * Reply)) :=
  match e, phase w with
  | RuntimeReady, Starting => Some (mkWorker (inbox w) Creating, 0, [])
  | RuntimeFailed, Starting => Some (exited, 0, [])
  | IsolateReady, Creating => Some (mkWorker (inbox w) (Waiting 0), 0, [])
  | IsolateFailed, Creating => Some (exited, 0, [])
  | Recycled, Waiting served =>
      if served >=? MAX_REQUESTS_PER_ISOLATE then Some (mkWorker (inbox w) Creating, 0, []) else None
  | ChannelClosed, Waiting served =>
      if served >=? MAX_REQUESTS_PER_ISOLATE then None
      else match inbox w with
           | [] => if senders then None else Some (exited, 0, [])
           | _ => None
           end
  | Received o, Waiting served =>
      if served >=? MAX_REQUESTS_PER_ISOLATE then None
      else match inbox w with
           | [] => None
           | task :: rest =>
               match o with
               | RefusedForMemory =>
                   if memory_limit_mb >? 0
                   then Some (mkWorker rest Creating, 0, [(request_id task, OomResponse)]) else None
               | NotLoaded =>
                   if task_ws task then None
                   else Some (mkWorker rest (Waiting served), 0, [(request_id task, HandlerAnswer false)])
               | AnsweredHttp ok =>
                   if task_ws task then None
                   else Some (mkWorker rest (Waiting (served + 1)), 0, [(request_id task, HandlerAnswer ok)])
               | AcceptedWs =>
                   if task_ws task
                   then Some (mkWorker rest Connected, 1, [(request_id task, SwitchingProtocols)]) else None
               end
           end
  | ConnectionEnded, Connected => Some (mkWorker (inbox w) Creating, -1, [])
  | _, _ => None
  end.

(** ** The pool *)

(** Sending fails exactly when the receiver is gone. *)
Definition send (w : Worker) (t : Task) : option Worker :=
  match phase w with Exited => None | ph => Some (mkWorker (inbox w ++ [t]) ph) end.

Definition set_next (p : TenantPool) (n : Z) : TenantPool :=
  mkPool (hostname p) (memory_limit_mb p) (workers p) n (ws_workers p) (ws_busy p) (max_ws_connections p)
         (ws_idle_timeout_ms p) (dropping p) (replies p).
Definition set_workers (p : TenantPool) (ws : list Worker) : TenantPool :=
  mkPool (hostname p) (memory_limit_mb p) ws (next_worker p) (ws_workers p) (ws_busy p) (max_ws_connections p)
         (ws_idle_timeout_ms p) (dropping p) (replies p).
Definition set_ws_workers (p : TenantPool) (ws : list Worker) : TenantPool :=
  mkPool (hostname p) (memory_limit_mb p) (workers p) (next_worker p) ws (ws_busy p) (max_ws_connections p)
         (ws_idle_timeout_ms p) (dropping p) (replies p).
Definition set_dropping (p : TenantPool) (d : Dropping) : TenantPool :=
  mkPool (hostname p) (memory_limit_mb p) (workers p) (next_worker p) (ws_workers p) (ws_busy p)
         (max_ws_connections p) (ws_idle_timeout_ms p) d (replies p).
Definition record (p : TenantPool) (busy : Z) (rs : list (string * Reply)) : TenantPool :=
  mkPool (hostname p) (memory_limit_mb p) (workers p) (next_worker p) (ws_workers p)
         (as_u64 (ws_busy p + busy)) (max_ws_connections p) (ws_idle_timeout_ms p) (dropping p) (replies p ++ rs).

Definition dispatch (p : TenantPool) (t : Task) : TenantPool * outcome (result unit string) :=
  let n := length (workers p) in
  let p1 := set_next p (add_u64 (next_worker p) 1) in
  if (n =? 0)%nat then (p1, Panicked "attempt to calculate the remainder with a divisor of zero")
  else
    let i := Z.to_nat (next_worker p mod Z.of_nat n) in
    match w ← workers p !! i; send w t with
    | Some w => (set_workers p1 (<[i := w]> (workers p)), Done (Ok tt))
    | None => (p1, Done (Err "Worker channel closed"))
    end.

Definition is_finished (w : Worker) : bool := match phase w with Exited => true | _ => false end.

(** The handles kept by [retain_mut]. *)
Definition prune (ws : list Worker) : list Worker := List.filter (λ w, negb (is_finished w)) ws.

Definition dispatch_ws (p : TenantPool) (t : Task) : TenantPool * result unit string :=
  let busy := ws_busy p in
  if busy >=? max_ws_connections p then
    (p, Err ("WebSocket connection limit reached (" +:+ (pretty busy +:+ ("/" +:+
               (pretty (max_ws_connections p) +:+ ")")))))
  else (set_ws_workers p (prune (ws_workers p) ++ [spawned [t]]), Ok tt).

Definition worker_count (p : TenantPool) : nat := length (workers p).

(** ** Steps *)

Inductive PoolEvent :=
| Dispatch (t : Task)
| DispatchWs (t : Task)
| HttpThread (i : nat) (e : WorkerEvent)
| WsThread (i : nat) (e : WorkerEvent)
| DropPool
| Joined.

(** The senders are fields of the pool: they live until [drop] has returned. *)
Definition senders (p : TenantPool) : bool := match dropping p with Dropped => false | _ => true end.

(** The threads of WebSockets have no memory limit. *)
Definition http_thread (p : TenantPool) (i : nat) (e : WorkerEvent) : option TenantPool :=
  w ← workers p !! i;
  r ← run_worker (memory_limit_mb p) (senders p) e w;
  Some (record (set_workers p (<[i := r.1.1]> (workers p))) r.1.2 r.2).

Definition ws_thread (p : TenantPool) (i : nat) (e : WorkerEvent) : option TenantPool :=
  w ← ws_workers p !! i;
  r ← run_worker 0 (senders p) e w;
  Some (record (set_ws_workers p (<[i := r.1.1]> (ws_workers p))) r.1.2 r.2).

(** [drop] joins one thread after the other; [join] returns when the thread is gone. *)
Definition join_next (p : TenantPool) : option TenantPool :=
  match dropping p with
  | JoinHttp i =>
      match workers p !! i with
      | Some w => if is_finished w then Some (set_dropping p (JoinHttp (S i))) else None
      | None => Some (set_dropping p (JoinWs 0))
      end
  | JoinWs i =>
      match ws_workers p !! i with
      | Some w => if is_finished w then Some (set_dropping p (JoinWs (S i))) else None
      | None => Some (set_dropping p Dropped)
      end
  | _ => None
  end.

Definition is_live (p : TenantPool) : bool := match dropping p with Live => true | _ => false end.

(** One step, if it can happen; a pool being dropped takes no more tasks. *)
Definition step (p : TenantPool) (e : PoolEvent) : option TenantPool :=
  match e with
  | Dispatch t => if is_live p then Some (fst (dispatch p t)) else None
  | DispatchWs t => if is_live p then Some (fst (dispatch_ws p t)) else None
  | HttpThread i e => http_thread p i e
  | WsThread i e => ws_thread p i e
  | DropPool => if is_live p then Some (set_dropping p (JoinHttp 0)) else None
  | Joined => join_next p
  end.

Fixpoint run (p : TenantPool) (es : list PoolEvent) : option TenantPool :=
  match es with
  | [] => Some p
  | e :: es => p' ← step p e; run p' es
  end.

(** ** Lemmas *)

(** *** Connections *)

Definition connected_one (w : Worker) : Z := match phase w with Connected => 1 | _ => 0 end.
Definition connections (ws : list Worker) : Z := foldr (λ w n, connected_one w + n) 0 ws.

Lemma connections_app ws1 ws2 : connections (ws1 ++ ws2) = connections ws1 + connections ws2.
Proof. induction ws1 as [|w ws1 IH]; simpl; [done|]. rewrite IH. lia. Qed.

Lemma connections_insert ws i w w' :
  ws !! i = Some w → connections (<[i := w']> ws) = connections ws - connected_one w + connected_one w'.
Proof.
  revert i. induction ws as [|x ws IH]; intros [|i] Hi; simpl in *; try done.
  - injection Hi as ->. lia.
  - rewrite (IH i Hi). lia.
Qed.

Lemma connections_prune ws : connections (prune ws) = connections ws.
Proof.
  induction ws as [|w ws IH]; [done|]. unfold prune in *. simpl. unfold is_finished at 1, connected_one at 1.
  destruct (phase w) eqn:Hp; simpl; rewrite ?IH; try done; unfold connected_one; by rewrite Hp.
Qed.

Lemma connections_new k : connections (replicate k (spawned [])) = 0.
Proof. induction k; [done|]. exact IHk. Qed.

Ltac run_worker_cases :=
  unfold run_worker;
  repeat match goal with
  | |- context [match ?e with _ => _ end] => is_var e; destruct e
  | |- context [match phase ?w with _ => _ end] => destruct (phase w) eqn:?
  | |- context [match inbox ?w with _ => _ end] => destruct (inbox w) eqn:?
  | |- context [if ?c then _ else _] => destruct c eqn:?
  end; intros [= <- <- <-].

Lemma run_worker_busy m s e w w' d rs :
  run_worker m s e w = Some (w', d, rs) → d = connected_one w' - connected_one w.
Proof.
  run_worker_cases; unfold connected_one; simpl; repeat match goal with H : phase w = _ |- _ => rewrite H end; lia.
Qed.

(** A thread with its sender alive ends only for want of a runtime or an isolate. *)
Definition failure (e : WorkerEvent) : bool :=
  match e with RuntimeFailed | IsolateFailed => true | _ => false end.

Lemma run_worker_alive m e w w' d rs :
  run_worker m true e w = Some (w', d, rs) → failure e = false → is_finished w' = false.
Proof. run_worker_cases; done. Qed.

(** *** The state along a run *)

Definition busy_exact (p : TenantPool) : Prop :=
  ws_busy p = as_u64 (connections (workers p) + connections (ws_workers p)).

Lemma busy_record p d x :
  ws_busy p = as_u64 x → as_u64 (ws_busy p + d) = as_u64 (x + d).
Proof. intros ->. unfold as_u64. by rewrite Z.add_mod_idemp_l. Qed.

Lemma send_connected w t w' : send w t = Some w' → connected_one w' = connected_one w ∧ is_finished w' = is_finished w.
Proof. unfold send, connected_one, is_finished. destruct (phase w); by intros [= <-]. Qed.

Lemma dispatch_effect p t :
  let p' := fst (dispatch p t) in
  ws_workers p' = ws_workers p ∧ ws_busy p' = ws_busy p ∧ dropping p' = dropping p ∧
  max_ws_connections p' = max_ws_connections p ∧
  connections (workers p') = connections (workers p) ∧ length (workers p') = length (workers p) ∧
  (Forall (λ w, is_finished w = false) (workers p) → Forall (λ w, is_finished w = false) (workers p')).
Proof.
  unfold dispatch. destruct (_ =? 0)%nat; [done|]. simpl.
  destruct (workers p !! _) as [w|] eqn:Hw; simpl; [|done].
  destruct (send w t) as [w'|] eqn:Hs; simpl; [|done]. destruct (send_connected _ _ _ Hs) as [Hc Hf].
  split_and!; try done.
  - rewrite (connections_insert _ _ w) by done. lia.
  - apply length_insert.
  - intros Ha. apply Forall_insert; [done|]. rewrite Hf. by eapply (Forall_lookup_1 _ _ _ _ Ha Hw).
Qed.

Lemma busy_step p e p' : busy_exact p → step p e = Some p' → busy_exact p'.
Proof.
  unfold busy_exact. intros Hb. destruct e as [t|t|i e|i e| |]; simpl.
  - destruct (is_live p); [|done]. intros [= <-].
    destruct (dispatch_effect p t) as (-> & -> & _ & _ & -> & _). done.
  - destruct (is_live p); [|done]. intros [= <-]. unfold dispatch_ws.
    destruct (_ >=? _); [done|]. simpl. rewrite connections_app, connections_prune.
    change (connections [spawned [t]]) with 0. by rewrite Hb, Z.add_0_r.
  - unfold http_thread. destruct (workers p !! i) as [w|] eqn:Hw; [|done]. simpl.
    destruct (run_worker _ _ e w) as [[[w' d] rs]|] eqn:Hr; [|done]. simpl. intros [= <-]. simpl.
    rewrite (busy_record _ _ _ Hb), (connections_insert _ _ w) by done.
    rewrite (run_worker_busy _ _ _ _ _ _ _ Hr). f_equal. lia.
  - unfold ws_thread. destruct (ws_workers p !! i) as [w|] eqn:Hw; [|done]. simpl.
    destruct (run_worker _ _ e w) as [[[w' d] rs]|] eqn:Hr; [|done]. simpl. intros [= <-]. simpl.
    rewrite (busy_record _ _ _ Hb), (connections_insert _ _ w) by done.
    rewrite (run_worker_busy _ _ _ _ _ _ _ Hr). f_equal. lia.
  - destruct (is_live p); [|done]. by intros [= <-].
  - unfold join_next. destruct (dropping p) as [|i|i|]; try done.
    + destruct (workers p !! i) as [w|]; [destruct (is_finished w)|]; by intros [= <-].
    + destruct (ws_workers p !! i) as [w|]; [destruct (is_finished w)|]; by intros [= <-].
Qed.

Lemma tenant_run_inv (P : TenantPool → Prop) p es p' :
  (∀ p e p', P p → step p e = Some p' → P p') → P p → run p es = Some p' → P p'.
Proof.
  intros Hstep. revert p. induction es as [|e es IH]; intros p Hp; simpl; [by intros [= <-]|].
  destruct (step p e) as [p1|] eqn:He; [|done]. simpl. apply IH. by apply (Hstep p e).
Qed.

(** *** Runs in which no thread fails to make its runtime or an isolate *)

Definition event_failure (e : PoolEvent) : bool :=
  match e with HttpThread _ e | WsThread _ e => failure e | _ => false end.
Definition failure_free (es : list PoolEvent) : bool := forallb (λ e, negb (event_failure e)) es.

Definition all_alive (ws : list Worker) : Prop := Forall (λ w, is_finished w = false) ws.

Definition alive_inv (p : TenantPool) : Prop :=
  all_alive (workers p) ∧ all_alive (ws_workers p) ∧
  match dropping p with
  | Live => True
  | JoinHttp i => i = O
  | JoinWs i => i = O ∧ workers p = []
  | Dropped => workers p = [] ∧ ws_workers p = []
  end.

(** The connections a run hands to new threads. *)
Fixpoint accepted (p : TenantPool) (es : list PoolEvent) : nat :=
  match es with
  | [] => O
  | e :: es =>
      ((match e with DispatchWs t => if is_ok (snd (dispatch_ws p t)) then 1 else 0 | _ => 0 end)
       + match step p e with Some p' => accepted p' es | None => 0 end)%nat
  end.

Lemma prune_alive ws : all_alive ws → prune ws = ws.
Proof. induction 1 as [|w ws Hw Hws IH]; [done|]. unfold prune in *. simpl. by rewrite Hw, IH. Qed.

Lemma thread_alive m p i ws e r w :
  match dropping p with Dropped => ws = [] | _ => True end →
  all_alive ws → failure e = false → ws !! i = Some w → run_worker m (senders p) e w = Some r →
  all_alive (<[i := r.1.1]> ws) ∧ length (<[i := r.1.1]> ws) = length ws.
Proof.
  intros Hd Ha He Hw Hr. destruct r as [[w' d] rs]. split; [|apply length_insert].
  apply Forall_insert; [done|]. apply (run_worker_alive m e w _ d rs); [|done].
  unfold senders in Hr. destruct (dropping p); try done. by subst.
Qed.

Lemma alive_step p e p' :
  alive_inv p → event_failure e = false → step p e = Some p' →
  alive_inv p' ∧ length (ws_workers p') =
    (length (ws_workers p) + match e with DispatchWs t => if is_ok (snd (dispatch_ws p t)) then 1 else 0 | _ => 0 end)%nat.
Proof.
  intros (Hw & Hws & Hd) He. unfold alive_inv. destruct e as [t|t|i e|i e| |]; simpl in *.
  - unfold is_live. destruct (dropping p) eqn:Hdr; try done. intros [= <-].
    destruct (dispatch_effect p t) as (-> & _ & -> & _ & _ & _ & Ha). rewrite Hdr.
    split; [|lia]. split_and!; [by apply Ha|done|done].
  - unfold is_live. destruct (dropping p) eqn:Hdr; try done. intros [= <-]. unfold dispatch_ws.
    destruct (_ >=? _); simpl; rewrite ?Hdr; [split; [auto|lia]|]. rewrite prune_alive by done.
    rewrite length_app. split; [|done]. split; [done|]. split; [|done].
    apply Forall_app. split; [done|]. by repeat constructor.
  - unfold http_thread. destruct (workers p !! i) as [w|] eqn:Hi; [|done]. simpl.
    destruct (run_worker _ _ e w) as [r|] eqn:Hr; [|done]. simpl. intros [= <-]. simpl.
    destruct (thread_alive (memory_limit_mb p) p i (workers p) e r w) as [Ha Hl]; try done.
    { by destruct (dropping p); [| | |destruct Hd]. }
    split; [|lia]. split; [done|]. split; [done|].
    destruct (dropping p); [done|done| |]; destruct Hd as [Hd0 Hd1]; rewrite ?Hd0, ?Hd1 in Hi; done.
  - unfold ws_thread. destruct (ws_workers p !! i) as [w|] eqn:Hi; [|done]. simpl.
    destruct (run_worker _ _ e w) as [r|] eqn:Hr; [|done]. simpl. intros [= <-]. simpl.
    destruct (thread_alive 0 p i (ws_workers p) e r w) as [Ha Hl]; try done.
    { by destruct (dropping p); [| | |destruct Hd]. }
    split; [|lia]. split; [done|]. split; [done|].
    destruct (dropping p); [done|done|done|]. destruct Hd as [_ Hd]. by rewrite Hd in Hi.
  - unfold is_live. destruct (dropping p) eqn:Hdr; try done. intros [= <-]. simpl. split; [auto|lia].
  - unfold join_next. destruct (dropping p) as [|i|i|] eqn:Hdr; try done; simpl in Hd.
    + subst i. destruct (workers p) as [|w ws] eqn:Hwk; simpl.
      * intros [= <-]. simpl. rewrite Hwk. split; [auto|lia].
      * inversion Hw as [|? ? Hf _]; subst. by rewrite Hf.
    + destruct Hd as [-> Hd]. destruct (ws_workers p) as [|w ws] eqn:Hwk; simpl.
      * intros [= <-]. simpl. rewrite Hwk, Hd. split; [|done]. by repeat split.
      * inversion Hws as [|? ? Hf _]; subst. by rewrite Hf.
Qed.

Lemma alive_run es p p' :
  alive_inv p → failure_free es = true → run p es = Some p' →
  alive_inv p' ∧ length (ws_workers p') = (length (ws_workers p) + accepted p es)%nat.
Proof.
  revert p. induction es as [|e es IH]; intros p Hp; simpl; [intros _ [= <-]; split; [done|lia]|].
  intros [He Hes]%andb_true_iff. apply negb_true_iff in He.
  destruct (step p e) as [p1|] eqn:Hs; [|done]. simpl. intros Hr.
  destruct (alive_step p e p1 Hp He Hs) as [Hp1 Hl1]. destruct (IH p1 Hp1 Hes Hr) as [Hp' Hl'].
  split; [done|]. rewrite Hl', Hl1. lia.
Qed.

Lemma new_pool_alive h count mem limits : alive_inv (new_pool h count mem limits).
Proof.
  split_and!; simpl; [|constructor|done]. apply Forall_forall. by intros w [-> _]%elem_of_replicate.
Qed.

(** *** Making connections *)

Definition ws_task : Task := mkTask "ws" true.

(** The steps of one new thread up to its connection. *)
Definition connect (i : nat) : list PoolEvent :=
  [WsThread i RuntimeReady; WsThread i IsolateReady; WsThread i (Received AcceptedWs)].

Lemma tenant_run_app p es1 es2 p1 : run p es1 = Some p1 → run p (es1 ++ es2) = run p1 es2.
Proof.
  revert p. induction es1 as [|e es1 IH]; intros p; simpl; [by intros [= ->]|].
  destruct (step p e); [|done]. simpl. apply IH.
Qed.

Lemma dispatch_many n p :
  is_live p = true → ws_busy p < max_ws_connections p → all_alive (ws_workers p) →
  ∃ p', run p (replicate n (DispatchWs ws_task)) = Some p' ∧
    ws_workers p' = ws_workers p ++ replicate n (spawned [ws_task]).
Proof.
  revert p. induction n as [|n IH]; intros p Hl Hb Ha; simpl.
  - exists p. by rewrite app_nil_r.
  - rewrite Hl. simpl. unfold dispatch_ws. rewrite Z.geb_leb, (proj2 (Z.leb_gt _ _)) by done. simpl.
    rewrite prune_alive by done.
    destruct (IH (set_ws_workers p (ws_workers p ++ [spawned [ws_task]]))) as (p' & Hr & Hw); [done|done| |].
    { apply Forall_app. split; [done|]. by repeat constructor. }
    exists p'. split; [exact Hr|]. rewrite Hw. simpl. by rewrite <-app_assoc.
Qed.

Lemma connect_one p ws1 ws2 :
  ws_workers p = ws1 ++ spawned [ws_task] :: ws2 →
  ∃ p', run p (connect (length ws1)) = Some p' ∧ ws_workers p' = ws1 ++ mkWorker [] Connected :: ws2.
Proof.
  intros Hw. unfold connect. simpl. unfold ws_thread.
  rewrite Hw, list_lookup_middle by done. simpl.
  rewrite insert_app_r_alt, Nat.sub_diag by done. simpl.
  rewrite list_lookup_middle by done. simpl.
  rewrite insert_app_r_alt, Nat.sub_diag by done. simpl.
  rewrite list_lookup_middle by done. simpl.
  rewrite insert_app_r_alt, Nat.sub_diag by done. simpl. by eexists.
Qed.

Lemma connect_all n k p :
  ws_workers p = replicate k (mkWorker [] Connected) ++ replicate n (spawned [ws_task]) →
  ∃ es p', run p es = Some p' ∧ ws_workers p' = replicate (k + n) (mkWorker [] Connected).
Proof.
  revert k p. induction n as [|n IH]; intros k p Hw.
  - exists [], p. rewrite Nat.add_0_r. simpl in Hw. by rewrite app_nil_r in Hw.
  - destruct (connect_one p _ _ Hw) as (p1 & Hr1 & Hw1).
    destruct (IH (S k) p1) as (es & p2 & Hr2 & Hw2).
    { rewrite Hw1, replicate_S_end, <-app_assoc. done. }
    exists (connect (length (replicate k (mkWorker [] Connected))) ++ es), p2.
    split; [by rewrite (tenant_run_app _ _ _ p1)|]. rewrite Hw2. f_equal. lia.
Qed.

Lemma connections_replicate n : connections (replicate n (mkWorker [] Connected)) = Z.of_nat n.
Proof. induction n as [|n IH]; [done|]. simpl. rewrite IH. unfold connected_one. simpl. lia. Qed.

(** ** Theorems *)

(** Dropping a pool: [drop] joins every thread while the senders of their channels are
    still fields of the pool, so no thread can end, whatever tasks come and go.  If no
    thread failed to make its runtime or an isolate, a pool with a thread is never dropped;
    and once its threads wait for tasks nothing can happen any more. *)
Theorem drop_never_returns (h : string) (count mem : Z) (limits : Config.AppRs.AppLimits)
    (es : list PoolEvent) (p : TenantPool)
    (Hrun : run (new_pool h count mem limits) es = Some p) (Hfree : failure_free es = true)
    (Hthread : workers p ≠ []) :
  dropping p ≠ Dropped ∧
  (dropping p ≠ Live → Forall (λ w, inbox w = [] ∧ ∃ n, phase w = Waiting n ∧ n < MAX_REQUESTS_PER_ISOLATE)
                              (workers p ++ ws_workers p) →
   ∀ e, step p e = None).
Proof.
  destruct (alive_run es _ p (new_pool_alive h count mem limits) Hfree Hrun) as [(Hw & Hws & Hd) _].
  assert (Hnd : dropping p ≠ Dropped).
  { intros Hd'. rewrite Hd' in Hd. by destruct Hd. }
  split; [done|]. intros Hnl [Hidle Hidlews]%Forall_app.
  assert (Hstuck : ∀ m ws i e w, Forall (λ w, inbox w = [] ∧ ∃ n, phase w = Waiting n ∧ n < MAX_REQUESTS_PER_ISOLATE) ws →
    ws !! i = Some w → run_worker m (senders p) e w = None).
  { intros m ws i e w Hall Hi. destruct (Forall_lookup_1 _ _ _ _ Hall Hi) as (Hin & n & Hp & Hn).
    unfold run_worker. rewrite Hp, Hin, Z.geb_leb, (proj2 (Z.leb_gt _ _)) by done.
    unfold senders. destruct (dropping p), e; done. }
  intros [t|t|i e|i e| |]; simpl.
  1,2,5: unfold is_live; by destruct (dropping p).
  - unfold http_thread. destruct (workers p !! i) as [w|] eqn:Hi; [|done]. simpl. by rewrite (Hstuck _ _ _ _ _ Hidle Hi).
  - unfold ws_thread. destruct (ws_workers p !! i) as [w|] eqn:Hi; [|done]. simpl. by rewrite (Hstuck _ _ _ _ _ Hidlews Hi).
  - unfold join_next. destruct (dropping p) as [|i|i|]; try done.
    + subst i. destruct (workers p) as [|w ws]; [done|]. simpl.
      inversion Hw as [|? ? Hf _]; subst. by rewrite Hf.
    + by destruct Hd.
Qed.

Lemma max_step p e p' : step p e = Some p' → max_ws_connections p' = max_ws_connections p.
Proof.
  destruct e as [t|t|i e|i e| |]; simpl; try (destruct (is_live p); [|done]).
  - intros [= <-]. by destruct (dispatch_effect p t) as (_ & _ & _ & -> & _).
  - intros [= <-]. unfold dispatch_ws. by destruct (_ >=? _).
  - unfold http_thread. destruct (workers p !! i) as [w|]; [|done]. simpl. destruct (run_worker _ _ e w); [|done].
    by intros [= <-].
  - unfold ws_thread. destruct (ws_workers p !! i) as [w|]; [|done]. simpl. destruct (run_worker _ _ e w); [|done].
    by intros [= <-].
  - by intros [= <-].
  - unfold join_next. destruct (dropping p) as [|i|i|]; try done.
    + destruct (workers p !! i) as [w|]; [destruct (is_finished w)|]; by intros [= <-].
    + destruct (ws_workers p !! i) as [w|]; [destruct (is_finished w)|]; by intros [= <-].
Qed.

Lemma accepted_none p es : busy_exact p → max_ws_connections p ≤ 0 → accepted p es = O.
Proof.
  revert p. induction es as [|e es IH]; intros p Hb Hm; [done|]. simpl.
  assert (Hhere : ∀ t, is_ok (snd (dispatch_ws p t)) = false).
  { intros t. unfold dispatch_ws. pose proof (as_u64_range (connections (workers p) + connections (ws_workers p))) as [? _].
    rewrite Z.geb_leb, (proj2 (Z.leb_le _ _)); [done|]. unfold busy_exact in Hb. lia. }
  destruct (step p e) as [p1|] eqn:Hs.
  - rewrite (IH p1); [|by apply (busy_step p e)|by rewrite (max_step p e p1)].
    destruct e; try done. by rewrite Hhere.
  - destruct e; try done. by rewrite Hhere.
Qed.

Lemma new_pool_busy h count mem limits : busy_exact (new_pool h count mem limits).
Proof. unfold busy_exact. simpl. by rewrite connections_new. Qed.

(** C37. The bookkeeping of connections, in any run: [ws_busy] is the number of threads
    that hold a connection.  Unless a thread fails for want of a runtime or an isolate,
    every connection accepted since the pool was made still has its thread, even when it
    ended long ago: the threads of connections are never reused and never end. *)
Theorem ws_accounting (h : string) (count mem : Z) (limits : Config.AppRs.AppLimits)
    (es : list PoolEvent) (p : TenantPool)
    (Hrun : run (new_pool h count mem limits) es = Some p) :
  ws_busy p = as_u64 (connections (workers p) + connections (ws_workers p)) ∧
  (failure_free es = true →
   length (ws_workers p) = accepted (new_pool h count mem limits) es ∧
   Forall (λ w, is_finished w = false) (ws_workers p)).
Proof.
  split.
  - exact (tenant_run_inv busy_exact _ es p busy_step (new_pool_busy h count mem limits) Hrun).
  - intros Hfree. destruct (alive_run es _ p (new_pool_alive h count mem limits) Hfree Hrun) as [(_ & Hws & _) Hl].
    done.
Qed.

(** The limit of connections.  A tenant with a limit of 0, as every tenant with one
    worker has by default, gets no connection at all.  Any other limit can be passed by
    any number, as [ws_busy] only counts a connection once its thread has started. *)
Theorem connection_limit (h : string) (count mem : Z) (limits : Config.AppRs.AppLimits) :
  (Config.AppRs.effective_max_ws_connections limits ≤ 0 →
   ∀ es, accepted (new_pool h count mem limits) es = O) ∧
  (0 < Config.AppRs.effective_max_ws_connections limits →
   ∀ n, ∃ es p, run (new_pool h count mem limits) es = Some p ∧ connections (ws_workers p) = Z.of_nat n).
Proof.
  split.
  - intros Hm es. apply accepted_none; [apply new_pool_busy|done].
  - intros Hm n.
    destruct (dispatch_many n (new_pool h count mem limits)) as (p1 & Hr1 & Hw1); [done|done|constructor|].
    destruct (connect_all n O p1 Hw1) as (es & p2 & Hr2 & Hw2).
    exists (replicate n (DispatchWs ws_task) ++ es), p2. split; [by rewrite (tenant_run_app _ _ _ p1)|].
    rewrite Hw2. apply connections_replicate.
Qed.

(** Dispatching a request: it goes to the thread whose turn it is, also when others
    wait idle, and is refused exactly when that thread is gone; a pool without threads
    panics. *)
Theorem tenant_dispatch_exact (p : TenantPool) (t : Task) (w : Worker)
    (Hturn : workers p !! Z.to_nat (next_worker p mod Z.of_nat (length (workers p))) = Some w) :
  next_worker (fst (dispatch p t)) = add_u64 (next_worker p) 1 ∧
  if is_finished w
  then snd (dispatch p t) = Done (Err "Worker channel closed") ∧ workers (fst (dispatch p t)) = workers p
  else snd (dispatch p t) = Done (Ok tt) ∧
    workers (fst (dispatch p t)) =
      <[Z.to_nat (next_worker p mod Z.of_nat (length (workers p))) := mkWorker (inbox w ++ [t]) (phase w)]> (workers p).
Proof.
  unfold dispatch. destruct (length (workers p) =? 0)%nat eqn:Hn.
  { apply Nat.eqb_eq, nil_length_inv in Hn. by rewrite Hn in Hturn. }
  rewrite Hturn. simpl. unfold send, is_finished. by destruct (phase w).
Qed.

(** ** Witnesses *)

Definition demo_limits : Config.AppRs.AppLimits := Config.AppRs.default_limits.

Definition demo_idle : list PoolEvent :=
  [HttpThread 0 RuntimeReady; HttpThread 0 IsolateReady; Dispatch (mkTask "r1" false);
   HttpThread 0 (Received (AnsweredHttp true)); DropPool].

Definition demo_pool (es : list PoolEvent) : TenantPool :=
  default (new_pool "h" 1 0 demo_limits) (run (new_pool "h" 1 0 demo_limits) es).

Lemma drop_never_returns_witness : dropping (demo_pool demo_idle) ≠ Dropped ∧ ∀ e, step (demo_pool demo_idle) e = None.
Proof.
  destruct (drop_never_returns "h" 1 0 demo_limits demo_idle (demo_pool demo_idle)
              ltac:(vm_compute; reflexivity) ltac:(vm_compute; reflexivity) ltac:(discriminate)) as [Hd Hs].
  split; [exact Hd|]. apply Hs; [discriminate|]. vm_compute. constructor; [|constructor].
  split; [reflexivity|]. exists 1. split; reflexivity.
Defined.

Lemma ws_accounting_witness :
  let es := [DispatchWs ws_task; WsThread 0 RuntimeReady; WsThread 0 IsolateReady; WsThread 0 (Received AcceptedWs);
             WsThread 0 ConnectionEnded; DispatchWs ws_task] in
  ws_busy (demo_pool es) = 0 ∧ length (ws_workers (demo_pool es)) = 2%nat.
Proof.
  intros es.
  destruct (ws_accounting "h" 1 0 demo_limits es (demo_pool es) ltac:(vm_compute; reflexivity)) as [Hb Hl].
  split; [rewrite Hb; vm_compute; reflexivity|].
  destruct (Hl ltac:(vm_compute; reflexivity)) as [-> _]. vm_compute. reflexivity.
Defined.

Lemma tenant_dispatch_exact_witness :
  snd (dispatch (demo_pool []) (mkTask "r1" false)) = Done (Ok tt).
Proof.
  destruct (tenant_dispatch_exact (demo_pool []) (mkTask "r1" false) (spawned []) ltac:(vm_compute; reflexivity)) as [_ [Hd _]].
  exact Hd.
Defined.
