(* ===== verification/Shutdown.v ===== *)
(** * Shutting down: [src/signal.rs] and the ends of the three servers of [src/main.rs]

    The coordinator of [signal.rs] over the drain counter of Drain, and the process around
    it: the task that listens for signals, the server's task, the requests it has in
    flight, and the main function after it started them.  [tokio]'s broadcast channel has
    capacity one; a receiver is the number of messages sent since it last looked.

    Two facts about [axum] are built into the steps, as its documentation states them:
    [serve] without a graceful-shutdown signal does not complete, and with one it completes
    when the signal has come and no request is in flight.  The server's task can also end
    because its address cannot be bound. *)

From stdpp Require Import base list.
From Stdlib Require Import ZArith Lia.
From S2P Require Import Prelude RustList Drain.

Open Scope Z_scope.

(** ** [ShutdownConfig] *)

Record ShutdownConfig := mkConfig { drain_timeout_secs : Z }.

Definition default_config : ShutdownConfig := mkConfig 30.
Definition config_new (drain_timeout_secs : Z) : ShutdownConfig :=
  mkConfig (Z.max 5 (Z.min 300 drain_timeout_secs)).
Definition drain_timeout (c : ShutdownConfig) : Z := from_secs (drain_timeout_secs c).

Section shutdown.
Context `{Semaphore}.

(** ** [ShutdownState] *)

Record ShutdownState := mkState { shutting_down : bool; drain : RequestDrain }.

Definition state_new (d : RequestDrain) : ShutdownState := mkState false d.
Definition mark_shutting_down (s : ShutdownState) : ShutdownState := mkState true (drain s).
Definition is_shutting_down (s : ShutdownState) : bool := shutting_down s.
Definition active_requests (s : ShutdownState) : Z := active_count (drain s).

(** ** [GracefulShutdown] *)

Record GracefulShutdown := mkShutdown {
  config : ShutdownConfig;
  state : ShutdownState;
  receivers : list nat;
}.

Definition shutdown_new (c : ShutdownConfig) (d : RequestDrain) : GracefulShutdown :=
  mkShutdown c (state_new d) [].

(** A new receiver, by its index; it sees what is sent from now on. *)
Definition subscribe (g : GracefulShutdown) : GracefulShutdown * nat :=
  (mkShutdown (config g) (state g) (receivers g ++ [O]), length (receivers g)).

Definition send (g : GracefulShutdown) : GracefulShutdown :=
  mkShutdown (config g) (state g) (S <$> receivers g).

(** [recv] returns when there is a message; one that missed messages is told so and finds
    the last one next time.  The callers ignore which of the two it was. *)
Definition recv (g : GracefulShutdown) (i : nat) : option GracefulShutdown :=
  match receivers g !! i with
  | Some (S missed) =>
      Some (mkShutdown (config g) (state g) (<[i := if (0 <? missed)%nat then 1%nat else O]> (receivers g)))
  | _ => None
  end.

(** What the drain sees while it waits, up to its timeout, is [es]. *)
Definition shutdown (g : GracefulShutdown) (es : list DrainEvent) : GracefulShutdown * bool :=
  let g := send (mkShutdown (config g) (mark_shutting_down (state g)) (receivers g)) in
  let (d, drained) := await_complete (drain (state g)) es in
  (mkShutdown (config g) (mkState (shutting_down (state g)) d) (receivers g), drained).

Definition shutdown_signal (g : GracefulShutdown) (i : nat) (es : list DrainEvent)
    : option (GracefulShutdown * bool) :=
  (λ g, shutdown g es) <$> recv g i.

(** [setup_shutdown]: the coordinator with the caller's receiver, and the task that waits
    for the first SIGINT or SIGTERM, which is there until it has sent. *)
Definition setup_shutdown (c : ShutdownConfig) (d : RequestDrain) : GracefulShutdown * nat * bool :=
  let (g, rx) := subscribe (shutdown_new c d) in (g, rx, true).

(** ** The readiness probe of the server ([/_admin/ready]) *)

Definition ready_handler (s : ShutdownState) : Z := if is_shutting_down s then 503 else 200.

(** ** The process *)

(** [run_server], [run_from_sliver], [run_server_with_config] *)
Inductive Mode := DefaultServer | FromSliver | WithConfig.

Inductive ServerTask := Binding | Serving | Ended.

(** Where [main] is: waiting for the signal, waiting for the server's task, or back. *)
Inductive MainPhase := AwaitSignal | AwaitServer (drained : bool) | Finished (drained : bool).

Record Process := mkProcess {
  coordinator : GracefulShutdown;
  main_rx : nat;
  server_rx : option nat;
  listening : bool;
  server : ServerTask;
  in_flight : nat;
  phase : MainPhase;
}.

(** The sliver server gets a receiver of its own as graceful-shutdown signal. *)
Definition process_new (m : Mode) : Process :=
  let '(g, rx, listening) := setup_shutdown default_config drain_new in
  match m with
  | FromSliver => let (g, srx) := subscribe g in mkProcess g rx (Some srx) listening Binding 0 AwaitSignal
  | _ => mkProcess g rx None listening Binding 0 AwaitSignal
  end.

(** The server has been told to stop. *)
Definition told_to_stop (p : Process) : bool :=
  match server_rx p with
  | Some i => match receivers (coordinator p) !! i with Some (S _) => true | _ => false end
  | None => false
  end.

Inductive Event :=
| Signal
| Bound
| BindFailed
| RequestStarts
| RequestEnds
| MainProceeds
| ServerStops
| ThreeSecondsPass.

#[local] Instance event_eq : EqDecision Event.
Proof. solve_decision. Defined.

Definition with_coordinator (p : Process) (g : GracefulShutdown) (listening : bool) : Process :=
  mkProcess g (main_rx p) (server_rx p) listening (server p) (in_flight p) (phase p).
Definition with_server (p : Process) (s : ServerTask) (n : nat) : Process :=
  mkProcess (coordinator p) (main_rx p) (server_rx p) (listening p) s n (phase p).
Definition with_phase (p : Process) (g : GracefulShutdown) (ph : MainPhase) : Process :=
  mkProcess g (main_rx p) (server_rx p) (listening p) (server p) (in_flight p) ph.

(** After [recv], [main] calls [shutdown] and then waits for the server's task, for three
    seconds unless it is [run_server].  Requests are served without touching the drain. *)
Definition step (m : Mode) (p : Process) (e : Event) : option Process :=
  match e with
  | Signal =>
      Some (if listening p then with_coordinator p (send (coordinator p)) false else p)
  | Bound => match server p with Binding => Some (with_server p Serving 0) | _ => None end
  | BindFailed => match server p with Binding => Some (with_server p Ended 0) | _ => None end
  | RequestStarts =>
      match server p with
      | Serving => if told_to_stop p then None else Some (with_server p Serving (S (in_flight p)))
      | _ => None
      end
  | RequestEnds =>
      match server p, in_flight p with Serving, S n => Some (with_server p Serving n) | _, _ => None end
  | MainProceeds =>
      match phase p with
      | AwaitSignal =>
          match recv (coordinator p) (main_rx p) with
          | Some g => let (g, drained) := shutdown g [] in Some (with_phase p g (AwaitServer drained))
          | None => None
          end
      | AwaitServer drained =>
          match server p with Ended => Some (with_phase p (coordinator p) (Finished drained)) | _ => None end
      | Finished _ => None
      end
  | ServerStops =>
      match server p, in_flight p with
      | Serving, O => if told_to_stop p then Some (with_server p Ended 0) else None
      | _, _ => None
      end
  | ThreeSecondsPass =>
      match m, phase p with
      | DefaultServer, _ => None
      | _, AwaitServer drained => Some (with_phase p (coordinator p) (Finished drained))
      | _, _ => None
      end
  end.

Fixpoint run (m : Mode) (p : Process) (es : list Event) : option Process :=
  match es with
  | [] => Some p
  | e :: es => p' ← step m p e; run m p' es
  end.

(** ** Invariants *)

(** Nothing counts requests, so the drain is as it was made. *)
Definition idle_drain (p : Process) : Prop :=
  drain (state (coordinator p)) = drain_new ∧
  match phase p with
  | AwaitSignal => shutting_down (state (coordinator p)) = false
  | AwaitServer drained | Finished drained => drained = true ∧ shutting_down (state (coordinator p)) = true
  end.

Lemma idle_new m : idle_drain (process_new m).
Proof. by destruct m. Qed.

Lemma recv_state g i g' : recv g i = Some g' → state g' = state g ∧ config g' = config g.
Proof. unfold recv. destruct (receivers g !! i) as [[|n]|]; by intros [= <-]. Qed.

Lemma shutdown_idle g es :
  drain (state g) = drain_new →
  let '(g', drained) := shutdown g es in
  drained = true ∧ drain (state g') = drain_new ∧ shutting_down (state g') = true.
Proof. intros Hd. unfold shutdown. simpl. rewrite Hd. done. Qed.

Lemma idle_step m p e p' : idle_drain p → step m p e = Some p' → idle_drain p'.
Proof.
  intros [Hd Hp]. unfold idle_drain. destruct e; simpl.
  - intros [= <-]. by destruct (listening p).
  - destruct (server p); by intros [= <-].
  - destruct (server p); by intros [= <-].
  - destruct (server p); try done. destruct (told_to_stop p); by intros [= <-].
  - destruct (server p); try done. destruct (in_flight p); by intros [= <-].
  - destruct (phase p) as [|dr|dr] eqn:Hph; try done.
    + destruct (recv _ _) as [g|] eqn:Hr; [|done]. destruct (recv_state _ _ _ Hr) as [Hs _].
      pose proof (shutdown_idle g [] ltac:(by rewrite Hs)) as Hsh.
      destruct (shutdown g []) as [g' drained]. destruct Hsh as (-> & Hd' & Hs'). intros [= <-]. done.
    + destruct (server p); try done. intros [= <-]. done.
  - destruct (server p); try done. destruct (in_flight p); [|done]. destruct (told_to_stop p); by intros [= <-].
  - destruct m; [done| |]; destruct (phase p) as [|dr|dr]; try done; intros [= <-]; done.
Qed.

Lemma process_run_inv (m : Mode) (P : Process → Prop) p es p' :
  (∀ p e p', P p → step m p e = Some p' → P p') → P p → run m p es = Some p' → P p'.
Proof.
  intros Hstep. revert p. induction es as [|e es IH]; intros p Hp; simpl; [by intros [= <-]|].
  destruct (step m p e) as [p1|] eqn:He; [|done]. simpl. apply IH. by apply (Hstep p e).
Qed.

Lemma process_run_app m p es1 es2 p1 : run m p es1 = Some p1 → run m p (es1 ++ es2) = run m p1 es2.
Proof.
  revert p. induction es1 as [|e es1 IH]; intros p; simpl; [by intros [= ->]|].
  destruct (step m p e); [|done]. simpl. apply IH.
Qed.

Lemma idle_run m es p : run m (process_new m) es = Some p → idle_drain p.
Proof. apply (process_run_inv m idle_drain); [intros; by eapply idle_step|apply idle_new]. Qed.

(** Only the sliver server has a receiver, so no other is ever told to stop; its task can
    then only have ended at its bind. *)
Definition deaf (es : list Event) (p : Process) : Prop :=
  server_rx p = None ∧ (server p = Ended → BindFailed ∈ es) ∧
  (∀ drained, phase p = Finished drained → server p = Ended).

Lemma deaf_told p es : deaf es p → told_to_stop p = false.
Proof. intros [Hr _]. unfold told_to_stop. by rewrite Hr. Qed.

Lemma deaf_working es p :
  server_rx p = None → server p ≠ Ended → (∀ dr, phase p ≠ Finished dr) → deaf es p.
Proof. intros Hr Hs Hf. split_and!; [done|by intros ?|]. intros dr Hph. by destruct (Hf dr). Qed.

Lemma deaf_step es p e p' :
  deaf es p → step DefaultServer p e = Some p' → deaf (es ++ [e]) p'.
Proof.
  intros Hd Hs. pose proof (deaf_told _ _ Hd) as Ht. destruct Hd as (Hr & He & Hf).
  assert (He' : server p = Ended → BindFailed ∈ es ++ [e]).
  { intros Hx. apply elem_of_app. left. by apply He. }
  assert (Hf' : server p ≠ Ended → ∀ dr, phase p ≠ Finished dr).
  { intros Hne dr Hph. by apply Hne, (Hf dr). }
  destruct e; simpl in Hs.
  - destruct (listening p); by simplify_eq/=.
  - destruct (server p) eqn:Hsv; simplify_eq/=. apply deaf_working; simpl; [done|done|by apply Hf'].
  - destruct (server p) eqn:Hsv; simplify_eq/=. split_and!; [done| |done].
    intros _. apply elem_of_app. right. by apply list_elem_of_singleton.
  - destruct (server p) eqn:Hsv; simplify_eq/=. rewrite Ht in Hs. simplify_eq/=.
    apply deaf_working; simpl; [done|done|by apply Hf'].
  - destruct (server p) eqn:Hsv; try done. destruct (in_flight p); simplify_eq/=.
    apply deaf_working; simpl; [done|done|by apply Hf'].
  - destruct (phase p) as [|dr|dr] eqn:Hph; simplify_eq/=.
    + destruct (recv _ _) as [g|]; [|done]. destruct (shutdown g []) as [g' dr].
      injection Hs as <-. by split_and!.
    + destruct (server p) eqn:Hsv; [done|done|]. injection Hs as <-.
      split_and!; [done|intros _; by apply He'|done].
  - destruct (server p); try done. destruct (in_flight p); simplify_eq/=. by rewrite Ht in Hs.
  - done.
Qed.

Lemma deaf_run es p : run DefaultServer (process_new DefaultServer) es = Some p → deaf es p.
Proof.
  revert p. induction es as [|e es IH] using rev_ind; intros p.
  - intros [= <-]. split_and!; done.
  - destruct (run DefaultServer (process_new DefaultServer) es) as [p1|] eqn:Hr.
    + rewrite (process_run_app _ _ _ _ _ Hr). simpl.
      destruct (step DefaultServer p1 e) as [p2|] eqn:Hs; simpl; intros [= <-].
      exact (deaf_step es p1 e p2 (IH p1 eq_refl) Hs).
    + intros Hx. exfalso. revert Hr Hx. generalize (process_new DefaultServer). clear IH.
      induction es as [|e1 es IH]; intros q; simpl; [done|].
      destruct (step DefaultServer q e1); simpl; [apply IH|done].
Qed.

(** Several requests arrive. *)
Lemma run_starts m p n :
  server p = Serving → told_to_stop p = false →
  run m p (replicate n RequestStarts) = Some (with_server p Serving (n + in_flight p)).
Proof.
  revert p. induction n as [|n IH]; intros p Hs Ht; simpl.
  - destruct p; simpl in *. by subst.
  - rewrite Hs, Ht. simpl. rewrite IH by done. simpl. by rewrite Nat.add_succ_r.
Qed.

(** Until a signal comes nothing has been sent. *)
Definition quiet (p : Process) : Prop :=
  phase p = AwaitSignal ∧ Forall (eq O) (receivers (coordinator p)).

Lemma quiet_new m : quiet (process_new m).
Proof. split; [by destruct m|]. destruct m; repeat constructor. Qed.

Lemma quiet_recv g i : Forall (eq O) (receivers g) → recv g i = None.
Proof.
  intros Hq. unfold recv. destruct (receivers g !! i) as [n|] eqn:Hi; [|done].
  by rewrite <- (Forall_lookup_1 _ _ _ _ Hq Hi).
Qed.

Lemma quiet_step m p e p' : quiet p → e ≠ Signal → step m p e = Some p' → quiet p'.
Proof.
  intros [Hp Hq] He. unfold quiet. destruct e; simpl; try done.
  - destruct (server p); by intros [= <-].
  - destruct (server p); by intros [= <-].
  - destruct (server p); try done. destruct (told_to_stop p); by intros [= <-].
  - destruct (server p), (in_flight p); by intros [= <-].
  - by rewrite Hp, quiet_recv.
  - destruct (server p); try done. destruct (in_flight p); [|done]. destruct (told_to_stop p); by intros [= <-].
  - destruct m; [done| |]; by rewrite Hp.
Qed.

Lemma quiet_run m p es p' : Signal ∉ es → quiet p → run m p es = Some p' → quiet p'.
Proof.
  revert p. induction es as [|e es IH]; intros p Hs Hq; simpl; [by intros [= <-]|].
  apply not_elem_of_cons in Hs as [Hne Hs].
  destruct (step m p e) as [p1|] eqn:He; [|done]. simpl. apply IH; [done|].
  by apply (quiet_step m p e).
Qed.

(** ** Properties *)

(** In each of the three ways to run, at every moment, the drain counts no request,
    whatever is in flight; the readiness probe answers 200 exactly until [main] has
    received the shutdown notice, and [main] receives it only if a signal came; when it
    goes on, it believes every request to have been drained. *)
Theorem readiness_exact m es p :
  run m (process_new m) es = Some p →
  active_requests (state (coordinator p)) = 0 ∧
  match phase p with
  | AwaitSignal => ready_handler (state (coordinator p)) = 200
  | AwaitServer drained | Finished drained =>
      Signal ∈ es ∧ drained = true ∧ ready_handler (state (coordinator p)) = 503
  end.
Proof.
  intros Hr. destruct (idle_run _ _ _ Hr) as [Hd Hp].
  unfold active_requests, ready_handler, is_shutting_down. rewrite Hd. split; [done|].
  assert (Hs : phase p ≠ AwaitSignal → Signal ∈ es).
  { intros Hne. destruct (decide (Signal ∈ es)) as [?|Hn]; [done|]. exfalso. apply Hne.
    apply (quiet_run m _ es p Hn (quiet_new m) Hr). }
  destruct (phase p); [by rewrite Hp| |]; destruct Hp as [-> ->]; split; try done; by apply Hs.
Qed.

(** C38. The default server never returns after a signal: as long as its address could be
    bound, in no run does [main] get past waiting for the server's task, however many
    signals come.  And the server goes on taking requests: once it serves, any number of
    further requests is taken in at any moment, before and after the signal. *)
Theorem sigterm_never_ends_default es p :
  BindFailed ∉ es →
  run DefaultServer (process_new DefaultServer) es = Some p →
  (∀ drained, phase p ≠ Finished drained) ∧
  (server p = Serving → ∀ n, ∃ p',
    run DefaultServer (process_new DefaultServer) (es ++ replicate n RequestStarts) = Some p' ∧
    in_flight p' = (n + in_flight p)%nat).
Proof.
  intros Hb Hr. pose proof (deaf_run _ _ Hr) as Hd. split.
  - intros dr Hph. apply Hb. destruct Hd as (_ & He & Hf). by apply He, (Hf dr).
  - intros Hs n. rewrite (process_run_app _ _ _ _ _ Hr).
    rewrite run_starts by (done || by apply (deaf_told p es)). by eexists.
Qed.

(** The servers from a sliver and from a configuration end with requests in flight:
    for every number [n] there is a run in which [n] requests have started, none has
    ended, and [main] is past its wait for the server believing all of them drained. *)
Theorem shutdown_abandons_requests m n :
  m ≠ DefaultServer →
  ∃ p, run m (process_new m) ([Bound] ++ replicate n RequestStarts ++ [Signal; MainProceeds; ThreeSecondsPass])
         = Some p ∧
       phase p = Finished true ∧ server p = Serving ∧ in_flight p = n.
Proof.
  intros Hm. set (p1 := with_server (process_new m) Serving 0).
  assert (H1 : run m (process_new m) [Bound] = Some p1) by (by destruct m).
  rewrite (process_run_app _ _ _ _ _ H1).
  rewrite (process_run_app _ _ _ _ _ (run_starts m p1 n ltac:(by destruct m) ltac:(by destruct m))).
  unfold p1. destruct m; [done| |]; simpl; eexists; rewrite Nat.add_0_r; done.
Qed.
End shutdown.

(** ** Witnesses *)

#[local] Existing Instance count_semaphore.

(** [shutdown] itself does wait, for whoever counts requests in the drain. *)
Example shutdown_waits :
  let g := shutdown_new (config_new 1) (request_started drain_new) in
  drain_timeout (config g) = from_secs 5 ∧
  (shutdown g [Started; Completed]).2 = false ∧ (shutdown g [Completed]).2 = true ∧
  shutdown_signal g 0 [] = None ∧
  (∃ g', shutdown_signal (send (subscribe g).1) 0 [Completed] = Some (g', true) ∧
         is_shutting_down (state g') = true).
Proof. vm_compute. repeat split. eexists. split; reflexivity. Qed.

Lemma readiness_exact_witness :
  ∃ p, run WithConfig (process_new WithConfig) [Bound; RequestStarts; Signal; MainProceeds] = Some p ∧
       ready_handler (state (coordinator p)) = 503 ∧ in_flight p = 1%nat.
Proof.
  eexists. split; [vm_compute; reflexivity|]. split; [|reflexivity].
  exact (proj2 (proj2 (proj2 (readiness_exact WithConfig [Bound; RequestStarts; Signal; MainProceeds] _
    ltac:(vm_compute; reflexivity))))).
Defined.

Lemma sigterm_never_ends_default_witness :
  ∃ p, run DefaultServer (process_new DefaultServer) [Bound; Signal; MainProceeds; Signal; RequestStarts] = Some p ∧
       ∀ drained, phase p ≠ Finished drained.
Proof.
  eexists. split; [vm_compute; reflexivity|].
  exact (proj1 (sigterm_never_ends_default [Bound; Signal; MainProceeds; Signal; RequestStarts] _
    ltac:(rewrite !not_elem_of_cons; split_and!; try done; by apply not_elem_of_nil) ltac:(vm_compute; reflexivity))).
Defined.

Lemma shutdown_abandons_requests_witness :
  ∃ p, run FromSliver (process_new FromSliver) [Bound; RequestStarts; Signal; MainProceeds; ThreeSecondsPass] = Some p ∧
       phase p = Finished true ∧ server p = Serving ∧ in_flight p = 1%nat.
Proof. exact (shutdown_abandons_requests FromSliver 1 ltac:(done)). Defined.
