(* ===== verification/Watcher.v ===== *)
(** * Watching the configuration: [src/config/watcher.rs]

    The watcher looks at a path every so often and compares a checksum of the contents
    with the last one it saw.  What the file system answers at one poll is a look: whether
    the path exists, and then what reading it and its metadata gives, which can already be
    another state of the file.  The checksum of the [sha2] crate is a parameter. *)

From stdpp Require Import base list strings pretty.
From Stdlib Require Import ZArith Lia.
From S2P Require Import Prelude RustList.

Open Scope Z_scope.

(** [format!("{:x}", hasher.finalize())] of the bytes of a file *)
Class Sha256 := { sha256_hex : list Z → string }.

Section watcher.
Context `{Sha256}.

Inductive ConfigEvent :=
| Modified (path : string) (checksum : string)
| Deleted (path : string)
| Created (path : string).

Record ConfigWatcher := mkWatcher {
  watch_path : string;
  poll_interval : Z;
  last_checksum : option string;
  last_modified : option Z;
  was_present : bool;
}.

(** The answers of [exists] and, read after it, of [fs::read] and the modification time. *)
Record Look := mkLook { present : bool; contents : option (list Z * Z) }.

Definition compute_checksum (l : Look) : option (string * Z) :=
  (λ cm, (sha256_hex cm.1, cm.2)) <$> contents l.

Definition new (path : string) (l : Look) : ConfigWatcher :=
  let sum := if present l then compute_checksum l else None in
  mkWatcher path (from_secs 2) (fst <$> sum) (snd <$> sum) (present l).

Definition with_interval (w : ConfigWatcher) (secs : Z) : ConfigWatcher :=
  mkWatcher (watch_path w) (from_secs secs) (last_checksum w) (last_modified w) (was_present w).

Definition check_now (w : ConfigWatcher) (l : Look) : ConfigWatcher * option ConfigEvent :=
  let is_present := present l in
  if is_present && negb (was_present w) then
    match compute_checksum l with
    | Some (checksum, modified) =>
        (mkWatcher (watch_path w) (poll_interval w) (Some checksum) (Some modified) true,
         Some (Created (watch_path w)))
    | None =>
        (mkWatcher (watch_path w) (poll_interval w) (last_checksum w) (last_modified w) true,
         Some (Created (watch_path w)))
    end
  else if negb is_present && was_present w then
    (mkWatcher (watch_path w) (poll_interval w) None None false, Some (Deleted (watch_path w)))
  else if negb is_present then (w, None)
  else
    match compute_checksum l with
    | Some (checksum, modified) =>
        if decide (last_checksum w = Some checksum) then (w, None)
        else (mkWatcher (watch_path w) (poll_interval w) (Some checksum) (Some modified) (was_present w),
              Some (Modified (watch_path w) checksum))
    | None => (w, None)
    end.

(** [watch] over the looks of its polls: what is left of them when it returns. *)
Fixpoint watch (w : ConfigWatcher) (ls : list Look) : option (ConfigWatcher * ConfigEvent * list Look) :=
  match ls with
  | [] => None
  | l :: ls =>
      match check_now w l with
      | (w', Some e) => Some (w', e, ls)
      | (w', None) => watch w' ls
      end
  end.

(** ** Specification *)

Definition after (w : ConfigWatcher) (ls : list Look) : ConfigWatcher := foldl (λ w l, fst (check_now w l)) w ls.

(** The checksum of the last look that could be read, among the looks since the file was
    last absent. *)
Definition known_step (k : option string) (l : Look) : option string :=
  if present l then match compute_checksum l with Some (c, _) => Some c | None => k end else None.
Definition known (ls : list Look) : option string := foldl known_step None ls.

Definition last_present (ls : list Look) : bool := match last ls with Some l => present l | None => false end.

(** What a watcher is to report at a look after others. *)
Definition change (path : string) (ls : list Look) (l : Look) : option ConfigEvent :=
  match last_present ls, present l with
  | false, true => Some (Created path)
  | true, false => Some (Deleted path)
  | false, false => None
  | true, true =>
      match compute_checksum l with
      | Some (c, _) => if decide (known ls = Some c) then None else Some (Modified path c)
      | None => None
      end
  end.

(** ** Lemmas *)

Definition tracks (path : string) (ls : list Look) (w : ConfigWatcher) : Prop :=
  watch_path w = path ∧ was_present w = last_present ls ∧ last_checksum w = known ls ∧
  (was_present w = false → last_checksum w = None).

Lemma last_present_snoc ls l : last_present (ls ++ [l]) = present l.
Proof. unfold last_present. by rewrite last_snoc. Qed.

Lemma known_snoc ls l : known (ls ++ [l]) = known_step (known ls) l.
Proof. unfold known. by rewrite foldl_app. Qed.

Lemma new_tracks path l : tracks path [l] (new path l).
Proof.
  unfold tracks, new, known, last_present. simpl. unfold known_step.
  destruct (present l); [|done]. by destruct (compute_checksum l) as [[c m]|].
Qed.

Lemma check_now_tracks path ls w l :
  tracks path ls w →
  tracks path (ls ++ [l]) (fst (check_now w l)) ∧ snd (check_now w l) = change path ls l.
Proof.
  intros (Hp & Hw & Hk & Hn). unfold tracks, change. rewrite last_present_snoc, known_snoc.
  rewrite <- Hw, <- Hk. unfold check_now, known_step.
  destruct (present l) eqn:Hl, (was_present w) eqn:Hww; cbn [andb negb].
  - destruct (compute_checksum l) as [[c m]|]; [|simpl; rewrite ?Hww; by split_and!].
    destruct (decide (last_checksum w = Some c)) as [He|He]; simpl; rewrite ?Hp, ?Hww; by split_and!.
  - destruct (compute_checksum l) as [[c m]|]; simpl; rewrite ?Hp; by split_and!.
  - simpl. rewrite Hp. by split_and!.
  - simpl. rewrite Hww. split_and!; try done. by apply Hn.
Qed.

Lemma after_tracks path ls0 w ls : tracks path ls0 w → tracks path (ls0 ++ ls) (after w ls).
Proof.
  revert ls0 w. induction ls as [|l ls IH]; intros ls0 w Hw; [by rewrite app_nil_r|].
  rewrite (assoc_L (++) ls0 [l] ls : ls0 ++ l :: ls = (ls0 ++ [l]) ++ ls). simpl.
  apply IH. by apply check_now_tracks.
Qed.

Lemma watch_spec w ls : 
  match watch w ls with
  | Some (w', e, rest) => ∃ quiet l, ls = quiet ++ l :: rest ∧ w' = after w (quiet ++ [l]) ∧
      (∀ q1 q q2, quiet = q1 ++ q :: q2 → snd (check_now (after w q1) q) = None) ∧
      snd (check_now (after w quiet) l) = Some e
  | None => ∀ q1 q q2, ls = q1 ++ q :: q2 → snd (check_now (after w q1) q) = None
  end.
Proof.
  revert w. induction ls as [|l ls IH]; intros w; simpl; [by intros [|] ??|].
  destruct (check_now w l) as [w1 [e|]] eqn:Hc.
  - exists [], l. split_and!; [done|by simpl; rewrite Hc| |by simpl; rewrite Hc].
    by intros [|] ??.
  - specialize (IH w1). destruct (watch w1 ls) as [[[w' e] rest]|].
    + destruct IH as (q & x & -> & -> & Hq & He). exists (l :: q), x. simpl. rewrite Hc. simpl.
      split_and!; try done. intros q1 y q2 Heq. destruct q1 as [|z q1]; simplify_eq/=; [by rewrite Hc|].
      rewrite Hc. by apply (Hq q1 y q2).
    + intros q1 y q2 Heq. destruct q1 as [|z q1]; simplify_eq/=; [by rewrite Hc|].
      rewrite Hc. by apply (IH q1 y q2).
Qed.

(** ** A client that loads the file when it is told to *)

(** It holds what the file was at the last event that was not a deletion. *)
Definition load (w : ConfigWatcher) (held : option (list Z)) (l : Look) : ConfigWatcher * option (list Z) :=
  match check_now w l with
  | (w', Some (Deleted _)) => (w', None)
  | (w', Some _) => (w', fst <$> contents l)
  | (w', None) => (w', held)
  end.
Definition client (path : string) (l0 : Look) (ls : list Look) : ConfigWatcher * option (list Z) :=
  foldl (λ wh l, load (fst wh) (snd wh) l)
    (new path l0, if present l0 then fst <$> contents l0 else None) ls.

(** The client holds the contents whose checksum the watcher has. *)
Definition in_step (wh : ConfigWatcher * option (list Z)) : Prop :=
  last_checksum wh.1 = sha256_hex <$> wh.2 ∧ (was_present wh.1 = false → wh.2 = None).

Lemma checksum_contents l : fst <$> compute_checksum l = sha256_hex <$> (fst <$> contents l).
Proof. unfold compute_checksum. by destruct (contents l) as [[]|]. Qed.

Lemma load_in_step w held l : in_step (w, held) → in_step (load w held l).
Proof.
  unfold in_step, load, check_now. simpl. intros [Hs Hp]. pose proof (checksum_contents l) as Hc.
  destruct (present l), (was_present w) eqn:Hw; cbn [andb negb].
  - destruct (compute_checksum l) as [[c m]|] eqn:Hl; [|simpl; by rewrite Hw].
    destruct (decide (last_checksum w = Some c)); simpl; by rewrite ?Hw.
  - rewrite (Hp eq_refl) in Hs. destruct (compute_checksum l) as [[c m]|]; simpl in *; [done|].
    by rewrite Hs, <- Hc.
  - done.
  - simpl. by rewrite Hw.
Qed.

Lemma client_in_step path l0 ls : in_step (client path l0 ls).
Proof.
  unfold client. induction ls as [|l ls IH] using rev_ind.
  - unfold in_step, new. simpl. pose proof (checksum_contents l0). by destruct (present l0).
  - rewrite foldl_app. simpl. apply load_in_step. by destruct (foldl _ _ ls).
Qed.

Lemma client_after path l0 ls : fst (client path l0 ls) = after (new path l0) ls.
Proof.
  unfold client, after. induction ls as [|l ls IH] using rev_ind; [done|].
  rewrite !foldl_app. simpl. rewrite <- IH. unfold load.
  by destruct (check_now _ l) as [w' [[]|]].
Qed.

(** ** Properties *)

(** The watcher reports what changed between looks and nothing else: whatever it saw
    before, at the next look a file that came or went is reported as created or deleted,
    one that was there before is reported as modified exactly when it can be read and its
    checksum is not that of the last look since it appeared that could be read, and
    otherwise nothing is reported.  A second look at the same state is silent. *)
Theorem watcher_reports_changes path l0 ls l :
  let '(w, e) := check_now (after (new path l0) ls) l in
  e = change path (l0 :: ls) l ∧ check_now w l = (w, None).
Proof.
  pose proof (after_tracks path [l0] _ ls (new_tracks path l0)) as Ht.
  pose proof (check_now_tracks path _ _ l Ht) as [Ht1 He].
  destruct (check_now (after (new path l0) ls) l) as [w e]. cbn [fst snd] in Ht1, He. split; [done|].
  destruct Ht1 as (_ & Hw & Hk & _). rewrite last_present_snoc in Hw. rewrite known_snoc in Hk.
  unfold check_now. rewrite Hw. unfold known_step in Hk.
  destruct (present l); simpl; [|done]. destruct (compute_checksum l) as [[c m]|]; [|done].
  by rewrite decide_True.
Qed.

(** [watch] returns at the first look at which something changed, with that change,
    and waits for ever exactly if there is none; a directory, which cannot be read, is
    only ever reported as created or deleted. *)
Theorem watch_first_change path l0 ls :
  match watch (new path l0) ls with
  | Some (w, e, rest) => ∃ quiet l, ls = quiet ++ l :: rest ∧
      change path (l0 :: quiet) l = Some e ∧ w = after (new path l0) (quiet ++ [l]) ∧
      (∀ q1 q q2, quiet = q1 ++ q :: q2 → change path (l0 :: q1) q = None) ∧
      (contents l = None → e = Created path ∨ e = Deleted path)
  | None => ∀ q1 q q2, ls = q1 ++ q :: q2 → change path (l0 :: q1) q = None
  end.
Proof.
  assert (Hc : ∀ q1 q, snd (check_now (after (new path l0) q1) q) = change path (l0 :: q1) q).
  { intros q1 q. apply check_now_tracks. apply (after_tracks path [l0]). apply new_tracks. }
  pose proof (watch_spec (new path l0) ls) as Hs.
  destruct (watch (new path l0) ls) as [[[w e] rest]|].
  - destruct Hs as (quiet & l & Hls & Hw & Hq & He). rewrite Hc in He. exists quiet, l.
    split_and!; try done.
    + intros q1 q q2 Hx. rewrite <- Hc. by apply (Hq q1 q q2).
    + intros Hn. revert He. unfold change, compute_checksum. rewrite Hn. simpl.
      destruct (last_present _), (present l); intros [= <-]; auto.
  - intros q1 q q2 Hx. rewrite <- Hc. by apply (Hs q1 q q2).
Qed.

(** A client that loads the file at each event, and sees what the watcher saw, is never
    behind: after any looks, whenever the file is there and can be read, what the client
    holds has the checksum of the file; and it holds nothing when the file is gone.  This
    needs both events for a file that appears before it can be read. *)
Theorem client_keeps_up path l0 ls l :
  let held := snd (client path l0 (ls ++ [l])) in
  (present l = false → held = None) ∧
  (∀ c m, present l = true → contents l = Some (c, m) → ∃ c', held = Some c' ∧ sha256_hex c' = sha256_hex c).
Proof.
  pose proof (client_in_step path l0 (ls ++ [l])) as [Hs Hp]. rewrite client_after in Hs, Hp.
  pose proof (after_tracks path [l0] _ (ls ++ [l]) (new_tracks path l0)) as (_ & Hw & Hk & _).
  rewrite (assoc_L (++) [l0] ls [l]) in Hw, Hk. rewrite last_present_snoc in Hw. rewrite known_snoc in Hk.
  simpl. split.
  - intros Hl. apply Hp. by rewrite Hw.
  - intros c m Hl Hc. rewrite Hk in Hs. unfold known_step, compute_checksum in Hs.
    rewrite Hl, Hc in Hs. simpl in Hs.
    destruct (client path l0 (ls ++ [l])).2 as [c'|]; simplify_eq/=. by exists c'.
Qed.
End watcher.

(** ** Witnesses *)

#[local] Instance demo_sha256 : Sha256 := {| sha256_hex := λ c, String.concat "." (pretty <$> c) |}.

(** A file appears half written, is completed, touched, rewritten within a second, and
    replaced between two looks by another with the same text: five looks, three events. *)
Example watching :
  let w := new "apps.json" (mkLook false None) in
  let absent := mkLook false None in
  let at_time m c := mkLook true (Some (c, m)) in
  snd (check_now w absent) = None ∧
  (λ r, (r.1.2, length r.2)) <$> watch w [absent; mkLook true None; at_time 1 [1]]
    = Some (Created "apps.json", 1%nat) ∧
  (λ r, (r.1.2, length r.2)) <$>
    watch (after w [absent; mkLook true None]) [at_time 1 [1]; at_time 2 [1]; at_time 2 [2]; absent]
    = Some (Modified "apps.json" "1", 3%nat) ∧
  (λ r, (r.1.2, length r.2)) <$>
    watch (after w [at_time 1 [1]]) [at_time 2 [1]; at_time 2 [2]; absent] = Some (Modified "apps.json" "2", 1%nat) ∧
  watch (after w [at_time 1 [1]]) [at_time 2 [1]; at_time 3 [1]] = None ∧
  poll_interval (with_interval w 5) = from_secs 5.
Proof. vm_compute. repeat split; reflexivity. Qed.
