(* ===== verification/Watchdog.v ===== *)
(** * The request watchdog: [src/app/timeout.rs]

    Instants and durations are nanoseconds.  Each method that asks the clock gets the
    answers as arguments.  A future under [select!] is looked at whenever its task is
    woken: a poll is the moment and whether the future is ready then; the timer is ready
    once its whole milliseconds are over, and when both are, [select!], which is not
    biased here, picks one at random, so the choice is part of the poll. *)

From stdpp Require Import base list strings.
From Stdlib Require Import ZArith Lia.
From S2P Require Import Prelude RustList.

Open Scope Z_scope.

(** ** Errors and configuration *)

Inductive TimeoutError :=
| RequestTimeout (timeout_secs elapsed_ms : Z) (app_hostname : string)
| Cancelled
| Internal (what : string).

Definition error_timeout_secs (e : TimeoutError) : option Z :=
  match e with RequestTimeout s _ _ => Some s | _ => None end.
Definition error_elapsed_ms (e : TimeoutError) : option Z :=
  match e with RequestTimeout _ ms _ => Some ms | _ => None end.
Definition error_app_hostname (e : TimeoutError) : option string :=
  match e with RequestTimeout _ _ h => Some h | _ => None end.
Definition is_timeout (e : TimeoutError) : bool :=
  match e with RequestTimeout _ _ _ => true | _ => false end.

Record TimeoutConfig := mkConfig { timeout_secs : Z; enabled : bool; grace_period_ms : Z }.

Definition config_new (timeout_secs : Z) : TimeoutConfig := mkConfig timeout_secs true 100.
Definition disabled : TimeoutConfig := mkConfig 0 false 0.
Definition config_duration (c : TimeoutConfig) : Z := from_secs (timeout_secs c).
Definition is_valid (c : TimeoutConfig) : bool := enabled c && (timeout_secs c >? 0).
Definition default_config : TimeoutConfig := config_new 30.

(** ** [TimeoutWatchdog] *)

Record TimeoutWatchdog := mkWatchdog {
  deadline : Z;
  timeout_duration : Z;
  app_hostname : string;
  expired : bool;
}.

Definition new (now timeout_secs : Z) (app_hostname : string) : TimeoutWatchdog :=
  mkWatchdog (now + from_secs timeout_secs) (from_secs timeout_secs) app_hostname false.

Definition from_config (now : Z) (c : TimeoutConfig) (app_hostname : string) : option TimeoutWatchdog :=
  if negb (is_valid c) then None else Some (new now (timeout_secs c) app_hostname).

Definition set_expired (w : TimeoutWatchdog) : TimeoutWatchdog :=
  mkWatchdog (deadline w) (timeout_duration w) (app_hostname w) true.

Definition check_expired (now : Z) (w : TimeoutWatchdog) : TimeoutWatchdog * bool :=
  let expired := now >? deadline w in
  (if expired then set_expired w else w, expired).

Definition remaining_ms (now : Z) (w : TimeoutWatchdog) : Z :=
  if now >=? deadline w then 0 else as_u64 (as_millis (deadline w - now)).

Definition elapsed_ms (now : Z) (w : TimeoutWatchdog) : Z :=
  as_u64 (as_millis (Z.max 0 (timeout_duration w - from_millis (remaining_ms now w)))).

Definition cancel (w : TimeoutWatchdog) : TimeoutWatchdog := set_expired w.
Definition is_cancelled (w : TimeoutWatchdog) : bool := expired w.

Definition timeout_error (now : Z) (w : TimeoutWatchdog) : TimeoutError :=
  RequestTimeout (as_u32 (as_secs (timeout_duration w))) (elapsed_ms now w) (app_hostname w).

(** ** Races *)

Record Poll (T : Type) := mkPoll { at_time : Z; ready : option T; timer_first : bool }.
Arguments mkPoll {T} _ _ _.
Arguments at_time {T} _.
Arguments ready {T} _.
Arguments timer_first {T} _.

(** [select!] of a future and [sleep] until [wake]: which was taken, and when; [None] if
    neither is ready at any of the polls. *)
Fixpoint select {T} (wake : Z) (polls : list (Poll T)) : option (option T * Z) :=
  match polls with
  | [] => None
  | p :: polls =>
      let timer := at_time p >=? wake in
      match ready p with
      | Some v => Some (if timer && timer_first p then None else Some v, at_time p)
      | None => if timer then Some (None, at_time p) else select wake polls
      end
  end.

(** [run_future] at [now]: the watchdog and the result, once there is one. *)
Definition run_future {T} (now : Z) (w : TimeoutWatchdog) (polls : list (Poll T))
    : option (TimeoutWatchdog * result T TimeoutError) :=
  let remaining := remaining_ms now w in
  if remaining =? 0 then Some (w, Err (timeout_error now w))
  else match select (now + from_millis remaining) polls with
       | Some (Some v, _) => Some (w, Ok v)
       | Some (None, t) => Some (set_expired w, Err (timeout_error t w))
       | None => None
       end.

(** The task of [run_blocking] runs to its end in any case.  The receiver is ready with
    the result, or with an error when the task panicked and dropped the sender. *)
Definition run_blocking {T} (now : Z) (w : TimeoutWatchdog) (polls : list (Poll (option T)))
    : option (TimeoutWatchdog * result T TimeoutError) :=
  let remaining := remaining_ms now w in
  if remaining =? 0 then Some (w, Err (timeout_error now w))
  else match select (now + from_millis remaining) polls with
       | Some (Some (Some v), _) => Some (w, Ok v)
       | Some (Some None, _) => Some (w, Err (Internal "Result channel closed"))
       | Some (None, t) => Some (set_expired w, Err (timeout_error t w))
       | None => None
       end.

Definition with_timeout {T} (created now timeout_secs : Z) (app_hostname : string) (polls : list (Poll T)) :=
  run_future now (new created timeout_secs app_hostname) polls.
Definition with_blocking_timeout {T} (created now timeout_secs : Z) (app_hostname : string)
    (polls : list (Poll (option T))) :=
  run_blocking now (new created timeout_secs app_hostname) polls.

(** ** [V8TerminationGuard] *)

(** [terminations] counts the calls of [terminate_execution] on the isolate. *)
Record V8TerminationGuard := mkGuard { watchdog : TimeoutWatchdog; isolate_handle : bool; terminations : nat }.

Definition guard_new (now timeout_secs : Z) (app_hostname : string) : V8TerminationGuard :=
  mkGuard (new now timeout_secs app_hostname) true 0.

Definition check_and_terminate (now : Z) (g : V8TerminationGuard) : V8TerminationGuard * bool :=
  let (w, late) := check_expired now (watchdog g) in
  (mkGuard w (isolate_handle g) (if late && isolate_handle g then S (terminations g) else terminations g), late).

Definition guard_cancel (g : V8TerminationGuard) : V8TerminationGuard :=
  mkGuard (cancel (watchdog g)) (isolate_handle g) (terminations g).

Definition guard_drop (now : Z) (g : V8TerminationGuard) : V8TerminationGuard :=
  let (w, late) := check_expired now (watchdog g) in
  if late && isolate_handle g then mkGuard w false (S (terminations g))
  else mkGuard w (isolate_handle g) (terminations g).

Inductive GuardCall := CheckAt (now : Z) | CancelGuard.
Definition guard_call (g : V8TerminationGuard) (c : GuardCall) : V8TerminationGuard :=
  match c with CheckAt now => fst (check_and_terminate now g) | CancelGuard => guard_cancel g end.

(** ** Lemmas *)

Lemma select_spec {T} wake (polls : list (Poll T)) :
  match select wake polls with
  | Some (o, t) => ∃ before p later, polls = before ++ p :: later ∧ t = at_time p ∧
      Forall (λ q, ready q = None ∧ at_time q < wake) before ∧
      match o with
      | Some v => ready p = Some v ∧ (at_time p < wake ∨ timer_first p = false)
      | None => wake ≤ at_time p ∧ (ready p = None ∨ timer_first p = true)
      end
  | None => Forall (λ q, ready q = None ∧ at_time q < wake) polls
  end.
Proof.
  induction polls as [|p polls IH]; simpl; [constructor|].
  destruct (Z.geb_spec (at_time p) wake) as [Ht|Ht], (ready p) as [v|] eqn:Hr; cbn [andb].
  - exists [], p, polls. destruct (timer_first p); split_and!; auto.
  - exists [], p, polls. by split_and!; auto.
  - exists [], p, polls. by split_and!; auto.
  - destruct (select wake polls) as [[o t]|].
    + destruct IH as (before & q & later & -> & Hq & Hb & Ho). exists (p :: before), q, later.
      split_and!; try done. by constructor.
    + by constructor.
Qed.

(** What is left of a new watchdog at [now], and the milliseconds it says are left. *)
Definition left_at (created secs now : Z) : Z := created + from_secs secs - now.

Lemma remaining_new created secs h now :
  0 ≤ secs ≤ u32_max → created ≤ now →
  remaining_ms now (new created secs h) = Z.max 0 (left_at created secs now / nanos_per_milli).
Proof.
  intros Hs Hn. unfold remaining_ms, new, left_at. cbn [deadline].
  assert (Hb : from_secs secs ≤ 4294967295 * nanos_per_sec) by (unfold from_secs, nanos_per_sec, u32_max, two32 in *; lia).
  unfold as_millis, nanos_per_milli, nanos_per_sec in *.
  destruct (Z.geb_spec now (created + from_secs secs)).
  - assert ((created + from_secs secs - now) / 1000000 ≤ 0) by (apply Z.div_le_upper_bound; lia). lia.
  - assert (0 ≤ (created + from_secs secs - now) / 1000000) by (apply Z.div_pos; lia).
    assert ((created + from_secs secs - now) / 1000000 ≤ 4294967295000) by (apply Z.div_le_upper_bound; lia).
    unfold as_u64, two64. rewrite Z.mod_small; lia.
Qed.

Lemma remaining_zero created secs h now :
  0 ≤ secs ≤ u32_max → created ≤ now →
  remaining_ms now (new created secs h) = 0 ↔ left_at created secs now < nanos_per_milli.
Proof.
  intros Hs Hn. rewrite remaining_new by done.
  pose proof (Z.mul_div_le (left_at created secs now) nanos_per_milli ltac:(done)).
  pose proof (Z.mul_succ_div_gt (left_at created secs now) nanos_per_milli ltac:(done)).
  unfold nanos_per_milli in *. lia.
Qed.

(** An error made when no whole millisecond is left says that all the time was used. *)
Lemma timeout_error_new created secs h now :
  0 ≤ secs ≤ u32_max → created ≤ now → left_at created secs now < nanos_per_milli →
  timeout_error now (new created secs h) = RequestTimeout secs (1000 * secs) h.
Proof.
  intros Hs Hn Hl. unfold timeout_error, elapsed_ms.
  rewrite (proj2 (remaining_zero created secs h now Hs Hn) Hl). cbn [timeout_duration app_hostname new].
  unfold as_secs, as_millis, from_millis, from_secs. rewrite Z.mul_0_l, Z.sub_0_r, Z.div_mul by done.
  assert (Hx : 0 ≤ secs * nanos_per_sec) by (unfold nanos_per_sec; lia). rewrite Z.max_r by done.
  replace (secs * nanos_per_sec) with (1000 * secs * nanos_per_milli) by (unfold nanos_per_sec, nanos_per_milli; lia).
  rewrite Z.div_mul by done. unfold as_u32, as_u64, two32, two64, u32_max, two32 in *. by rewrite !Z.mod_small by lia.
Qed.

(** The whole milliseconds left reach to less than one before the deadline. *)
Lemma wake_near created secs now :
  let wake := now + from_millis (left_at created secs now / nanos_per_milli) in
  wake ≤ created + from_secs secs < wake + nanos_per_milli.
Proof.
  simpl. pose proof (Z.mul_div_le (left_at created secs now) nanos_per_milli ltac:(done)).
  pose proof (Z.mul_succ_div_gt (left_at created secs now) nanos_per_milli ltac:(done)).
  unfold from_millis, left_at in *. unfold nanos_per_milli in *. lia.
Qed.

(** ** Properties *)

(** What [run_future] does, for any future: with less than a millisecond left it gives
    up at once, without looking at the future and without marking the watchdog.  Otherwise
    the first poll that finds the future or the timer ready decides: the result is that of
    the future if only it is ready, the timer is ready within the last millisecond before
    the deadline, and the choice is open when both are.  Until such a poll it waits.  A
    timeout error always says that the request ran for exactly its limit, whenever it was
    made. *)
Theorem run_future_exact {T} created now secs h (polls : list (Poll T))
    (Hsecs : 0 ≤ secs ≤ u32_max) (Hnow : created ≤ now) (Hlater : Forall (λ q, now ≤ at_time q) polls) :
  let w := new created secs h in
  let wake := now + from_millis (left_at created secs now / nanos_per_milli) in
  let waiting q := ready q = None ∧ at_time q < wake in
  deadline w - nanos_per_milli < wake ≤ deadline w ∧
  match run_future now w polls with
  | Some (w', Ok v) => w' = w ∧ nanos_per_milli ≤ left_at created secs now ∧
      ∃ before p later, polls = before ++ p :: later ∧ Forall waiting before ∧
        ready p = Some v ∧ (at_time p < wake ∨ timer_first p = false)
  | Some (w', Err e) => e = RequestTimeout secs (1000 * secs) h ∧
      (left_at created secs now < nanos_per_milli ∧ is_cancelled w' = false ∨
       nanos_per_milli ≤ left_at created secs now ∧ is_cancelled w' = true ∧
       ∃ before p later, polls = before ++ p :: later ∧ Forall waiting before ∧
         wake ≤ at_time p ∧ (ready p = None ∨ timer_first p = true))
  | None => nanos_per_milli ≤ left_at created secs now ∧ Forall waiting polls
  end.
Proof.
  pose proof (wake_near created secs now) as Hwake. cbn zeta in *. split; [simpl; lia|].
  unfold run_future. pose proof (remaining_zero created secs h now Hsecs Hnow) as Hz.
  destruct (Z.eqb_spec (remaining_ms now (new created secs h)) 0) as [Hr|Hr].
  - apply Hz in Hr. split; [by apply timeout_error_new|]. by left.
  - assert (Hl : nanos_per_milli ≤ left_at created secs now) by lia.
    rewrite remaining_new, Z.max_r by (done || (apply Z.div_pos; unfold nanos_per_milli in *; lia)).
    match goal with |- context [select ?wk polls] => pose proof (select_spec wk polls) as Hs; destruct (select wk polls) as [[[v|] t]|] end.
    + destruct Hs as (before & p & later & -> & _ & Hb & Hv & Ht). split_and!; try done.
      by exists before, p, later.
    + destruct Hs as (before & p & later & -> & -> & Hb & Hp & Ht). split.
      * apply timeout_error_new; [done| |unfold left_at in *; lia].
        apply Forall_app in Hlater as [_ Hlater]. apply Forall_cons in Hlater as [Hp1 _]. lia.
      * right. split_and!; try done. by exists before, p, later.
    + by split.
Qed.

(** [run_blocking] is [run_future] on the channel to its thread: the same moments
    decide, and a task that panicked is an internal error.  What the task does does not
    depend on any of it: on a timeout it is left running. *)
Theorem run_blocking_is_run_future {T} now w (polls : list (Poll (option T))) :
  run_blocking now w polls =
    (λ wr, (wr.1, match wr.2 with
                  | Ok (Some v) => Ok v
                  | Ok None => Err (Internal "Result channel closed")
                  | Err e => Err e
                  end)) <$> run_future now w polls.
Proof.
  unfold run_blocking, run_future. case_if; [done|].
  by destruct (select _ polls) as [[[[v|]|] t]|].
Qed.

Definition late_check (d : Z) (c : GuardCall) : bool := match c with CheckAt now => now >? d | CancelGuard => false end.
Definition marks (d : Z) (c : GuardCall) : bool := match c with CheckAt now => now >? d | CancelGuard => true end.

Lemma guard_calls_spec g calls :
  let g' := foldl guard_call g calls in
  deadline (watchdog g') = deadline (watchdog g) ∧ isolate_handle g' = isolate_handle g ∧
  (isolate_handle g = true →
   terminations g' = (length (List.filter (late_check (deadline (watchdog g))) calls) + terminations g)%nat) ∧
  is_cancelled (watchdog g') = existsb (marks (deadline (watchdog g))) calls || is_cancelled (watchdog g).
Proof.
  revert g. induction calls as [|c calls IH]; intros g; simpl; [done|].
  destruct (IH (guard_call g c)) as (Hd & Hh & Ht & Hc). rewrite Hd, Hh, Hc.
  destruct c as [now|]; simpl in *; unfold check_and_terminate, check_expired in *; simpl in *.
  - destruct (now >? deadline (watchdog g)); simpl in *; split_and!; try done.
    + intros Hi. rewrite Hi in *. rewrite (Ht eq_refl). simpl. lia.
    + by rewrite orb_true_r.
  - split_and!; try done. by rewrite orb_true_r.
Qed.

(** A termination guard terminates execution exactly once for each check made after
    the deadline and once more when it is dropped after it; no timer makes it do so in
    between.  Cancelling marks the guard and changes nothing else: a cancelled guard still
    terminates after the deadline, and does not terminate anything before it. *)
Theorem guard_terminates_exact created secs h calls t :
  let g := foldl guard_call (guard_new created secs h) calls in
  let d := created + from_secs secs in
  terminations (guard_drop t g) =
    (length (List.filter (late_check d) calls) + (if t >? d then 1 else 0))%nat ∧
  is_cancelled (watchdog g) = existsb (marks d) calls.
Proof.
  pose proof (guard_calls_spec (guard_new created secs h) calls) as (Hd & Hh & Ht & Hc). cbn zeta.
  split; [|by rewrite Hc, orb_false_r]. unfold guard_drop, check_expired. rewrite Hd, Hh. simpl in *.
  specialize (Ht eq_refl). destruct (t >? created + from_secs secs); simpl; lia.
Qed.

(** ** Witnesses *)

Lemma run_future_exact_witness :
  let polls := [mkPoll 7 None true; mkPoll (from_millis 10) (Some "done") true] in
  let w := new 0 5 "app.example.com" in
  run_future 0 w polls = Some (w, Ok "done") ∧
  ∃ before p later, polls = before ++ p :: later ∧
    Forall (λ q, ready q = None ∧ at_time q < 0 + from_millis (left_at 0 5 0 / nanos_per_milli)) before ∧
    ready p = Some "done" ∧ (at_time p < 0 + from_millis (left_at 0 5 0 / nanos_per_milli) ∨ timer_first p = false).
Proof.
  split; [by vm_compute|].
  exact (proj2 (proj2 (proj2 (run_future_exact 0 0 5 "app.example.com"
    [mkPoll 7 None true; mkPoll (from_millis 10) (Some "done") true]
    ltac:(by vm_compute) ltac:(lia) ltac:(repeat constructor; by vm_compute))))).
Defined.

(** A request that ran for an hour is said to have run for five seconds; one with less
    than a millisecond left is refused although its watchdog has not expired. *)
Example watchdog_errors :
  run_future 0 (new 0 5 "a") [mkPoll (from_secs 3600) (Some tt) true]
    = Some (set_expired (new 0 5 "a"), Err (RequestTimeout 5 5000 "a")) ∧
  (let now := from_secs 5 - 1 in
   snd (check_expired now (new 0 5 "a")) = false ∧
   run_future now (new 0 5 "a") [mkPoll now (Some tt) false] = Some (new 0 5 "a", Err (RequestTimeout 5 5000 "a"))) ∧
  with_blocking_timeout 0 0 5 "a" [mkPoll 1 (Some (None : option unit)) false]
    = Some (new 0 5 "a", Err (Internal "Result channel closed")) ∧
  from_config 0 disabled "a" = None ∧ is_valid default_config = true ∧
  (error_elapsed_ms <$> [timeout_error 0 (new 0 5 "a"); Cancelled]) = [Some 0; None].
Proof. vm_compute. repeat split; reflexivity. Qed.
