(* ===== verification/JsObjects.v ===== *)
(** * JavaScript objects as the callbacks of the runtime see them

    What the files of [src/runtime/] use of the engine's objects: a heap of objects with
    own properties and a prototype, reading and writing a property by name, the order of
    the own names, and the conversions to strings and numbers.  An object is a location of
    the heap, so two references to it share what is written.

    The prototypes of the language and of the runtime's classes are fixed tables: programs
    that change them, proxies and getters are outside the model.  A conversion that runs
    code of the program ([toString] of its own) is the parameter [program_text]. *)

From stdpp Require Import base list strings pretty.
From Stdlib Require Import Ascii ZArith Lia SpecFloat.
From Stdlib.Strings Require Byte.
From S2P Require Import Prelude RustString RustList RustFloat.

Open Scope Z_scope.

Abbreviation bytes := (list Byte.byte).

(** ** Values and objects *)

(** A function of the runtime or the engine by its name, or one of the program. *)
Inductive Fn := Native (name : string) | Program (n : nat).

(** The prototype an object was made with. *)
Inductive Class := CObject | CHeaders | CSearchParams | CUrl | CResponse | CRequest.

Inductive Val :=
| VUndefined
| VNull
| VBool (b : bool)
| VNumber (n : f64)
| VString (s : string)
| VFun (f : Fn)
| VRef (l : nat)
| VPrototype (c : Class).

Inductive Kind := Ordinary | Uint8Array (b : bytes) | ArrayBuffer (b : bytes) | External (address : nat) | TypeError (msg : string).

(** [own] are the enumerable own properties in the order they were made. *)
Record Obj := mkObj { class : Class; kind : Kind; own : list (string * Val) }.

Abbreviation Heap := (list Obj).

Definition alloc (h : Heap) (o : Obj) : Heap * Val := (h ++ [o], VRef (length h)).

(** ** Properties *)

Fixpoint assoc {A} (k : string) (l : list (string * A)) : option A :=
  match l with
  | [] => None
  | (k', v) :: l => if String.eqb k k' then Some v else assoc k l
  end.

(** Writing replaces the property in place or adds it at the end. *)
Fixpoint assoc_set {A} (k : string) (v : A) (l : list (string * A)) : list (string * A) :=
  match l with
  | [] => [(k, v)]
  | (k', v') :: l => if String.eqb k k' then (k, v) :: l else (k', v') :: assoc_set k v l
  end.

Fixpoint assoc_delete {A} (k : string) (l : list (string * A)) : list (string * A) :=
  match l with
  | [] => []
  | (k', v) :: l => if String.eqb k k' then l else (k', v) :: assoc_delete k l
  end.

Definition object_prototype : list string :=
  ["constructor"; "__defineGetter__"; "__defineSetter__"; "hasOwnProperty"; "__lookupGetter__";
   "__lookupSetter__"; "isPrototypeOf"; "propertyIsEnumerable"; "toString"; "valueOf"; "toLocaleString"].

(** The methods the runtime puts on the prototypes of its constructors. *)
Definition class_methods (c : Class) : list (string * string) :=
  match c with
  | CSearchParams =>
      [("get", "usp_get_callback"); ("set", "usp_set_callback"); ("has", "usp_has_callback");
       ("delete", "usp_delete_callback"); ("toString", "usp_tostring_callback")]
  | CUrl => [("toString", "url_tostring_callback"); ("href", "url_href_callback")]
  | CResponse =>
      [("text", "response_text_callback"); ("json", "response_json_callback");
       ("arrayBuffer", "response_arraybuffer_callback")]
  | CRequest =>
      [("text", "request_text_callback"); ("json", "request_json_callback");
       ("arrayBuffer", "request_arraybuffer_callback")]
  | _ => []
  end.

(** What an object shows of a name it has no property of. *)
Definition inherited (c : Class) (k : string) : Val :=
  match assoc k (class_methods c) with
  | Some f => VFun (Native f)
  | None =>
      if String.eqb k "__proto__" then VPrototype c
      else if existsb (String.eqb k) object_prototype then VFun (Native k) else VUndefined
  end.

Definition byte_value (b : Byte.byte) : Val := VNumber (f64_of_Z (Z.of_N (Byte.to_N b))).

(** ** Own properties in the engine's order *)

Fixpoint digits_value (acc : Z) (s : string) : option Z :=
  match s with
  | EmptyString => Some acc
  | String a s =>
      let d := Z.of_nat (nat_of_ascii a) - 48 in
      if (0 <=? d) && (d <=? 9) then digits_value (10 * acc + d) s else None
  end.

(** A key that is an array index, as a number. *)
Definition array_index (k : string) : option Z :=
  match k with
  | EmptyString => None
  | String a rest =>
      match digits_value 0 k with
      | Some n => if (n <? u32_max) && (negb (char_eqb a (ch "0")) || is_empty rest) then Some n else None
      | None => None
      end
  end.

(** Indices come first, in ascending order, then the other names as they were made. *)
Definition in_order {A} (l : list (string * A)) : list (string * A) :=
  sort_by_key (λ p, default 0 (array_index p.1)) (List.filter (λ p, bool_decide (is_Some (array_index p.1))) l) ++
  List.filter (λ p, negb (bool_decide (is_Some (array_index p.1)))) l.

Definition indexed (l : list Val) : list (string * Val) := imap (λ i v, (pretty i, v)) l.

(** ** The engine's conversions *)

Class JsConv := {
  number_text : f64 → string;
  text_number : string → f64;
  utf16_units : string → list string;
  function_text : Fn → string;
  external_text : nat → string;
  (** [ToString] of a value whose conversion runs code of the program; it can throw. *)
  program_text : Heap → Val → option string;
}.

Section values.
Context `{JsConv}.

(** [to_object] and reading a property: [None] for undefined and null, from which no
    object can be made. *)
Definition is_nullish (v : Val) : bool := match v with VUndefined | VNull => true | _ => false end.
Definition is_function (v : Val) : bool := match v with VFun _ => true | _ => false end.
Definition is_object (v : Val) : bool := match v with VRef _ | VFun _ | VPrototype _ => true | _ => false end.

(** [get_own_property_names], with the values: the enumerable properties whose keys are
    strings. *)
Definition own_properties (h : Heap) (v : Val) : list (string * Val) :=
  match v with
  | VString s => indexed (VString <$> utf16_units s)
  | VRef l =>
      match h !! l with
      | Some o =>
          match kind o with
          | Uint8Array b => indexed (byte_value <$> b) ++ in_order (own o)
          | _ => in_order (own o)
          end
      | None => []
      end
  | _ => []
  end.

Definition get (h : Heap) (v : Val) (k : string) : Val :=
  match v with
  | VRef l =>
      match h !! l with
      | Some o =>
          match assoc k (own o) with
          | Some v => v
          | None =>
              match kind o with
              | Uint8Array b =>
                  match array_index k with
                  | Some i => default VUndefined (byte_value <$> b !! Z.to_nat i)
                  | None => inherited (class o) k
                  end
              | _ => inherited (class o) k
              end
          end
      | None => VUndefined
      end
  | _ => default VUndefined (assoc k (own_properties h v))
  end.

(** Writing to an object; the values written under names a program chooses are strings,
    and a string written to [__proto__] changes nothing. *)
Definition set (h : Heap) (v : Val) (k : string) (x : Val) : Heap :=
  match v with
  | VRef l =>
      if String.eqb k "__proto__" then h
      else alter (λ o, mkObj (class o) (kind o) (assoc_set k x (own o))) l h
  | _ => h
  end.

(** Several properties, one after the other. *)
Definition set_props (h : Heap) (v : Val) (ps : list (string * Val)) : Heap :=
  foldl (λ h p, set h v p.1 p.2) h ps.

Definition delete (h : Heap) (v : Val) (k : string) : Heap :=
  match v with
  | VRef l => alter (λ o, mkObj (class o) (kind o) (assoc_delete k (own o))) l h
  | _ => h
  end.

Fixpoint join_comma (l : list string) : string :=
  match l with [] => "" | [s] => s | s :: l => s +:+ ("," +:+ join_comma l) end.

Definition bytes_text (b : bytes) : string := join_comma ((λ x, pretty (Byte.to_N x)) <$> b).

(** [to_string]; objects are asked for their [toString], which for a URL answers its
    [href] and for search parameters the empty string. *)
Definition to_string (h : Heap) (v : Val) : option string :=
  match v with
  | VUndefined => Some "undefined"
  | VNull => Some "null"
  | VBool b => Some (if b then "true" else "false")
  | VNumber n => Some (number_text n)
  | VString s => Some s
  | VFun f => Some (function_text f)
  | VPrototype _ => Some "[object Object]"
  | VRef l =>
      match h !! l with
      | Some o =>
          match get h v "toString", kind o with
          | VFun (Native "toString"), Ordinary => Some "[object Object]"
          | VFun (Native "toString"), Uint8Array b => Some (bytes_text b)
          | VFun (Native "toString"), ArrayBuffer _ => Some "[object ArrayBuffer]"
          | VFun (Native "toString"), External a => Some (external_text a)
          | VFun (Native "toString"), TypeError msg => Some ("TypeError: " +:+ msg)
          | VFun (Native "url_tostring_callback"), _ =>
              match get h v "href" with VString s => Some s | _ => program_text h v end
          | VFun (Native "usp_tostring_callback"), _ => Some ""
          | _, _ => program_text h v
          end
      | None => None
      end
  end.

(** [to_number] *)
Definition to_number (h : Heap) (v : Val) : option f64 :=
  match v with
  | VUndefined => Some S754_nan
  | VNull => Some (f64_of_Z 0)
  | VBool b => Some (f64_of_Z (if b then 1 else 0))
  | VNumber n => Some n
  | VString s => Some (text_number s)
  | _ => text_number <$> to_string h v
  end.

(** An argument; those that are not there are undefined. *)
Definition arg (args : list Val) (i : nat) : Val := default VUndefined (args !! i).

(** [args.get(i).to_string(scope).map(..).unwrap_or_default()] *)
Definition text_arg (h : Heap) (args : list Val) (i : nat) : string := default "" (to_string h (arg args i)).

(** A method of the runtime found on an object. *)
Definition new_object (h : Heap) (c : Class) : Heap * Val := alloc h (mkObj c Ordinary []).
End values.

(** ** Laws *)

Section laws.
Context `{JsConv}.

Lemma assoc_set_eq {A} k (v : A) l : assoc k (assoc_set k v l) = Some v.
Proof.
  induction l as [|[k' v'] l IH]; simpl; [by rewrite String.eqb_refl|].
  destruct (String.eqb k k') eqn:E; simpl; [by rewrite String.eqb_refl|]. by rewrite E.
Qed.

Lemma assoc_set_ne {A} k k2 (v : A) l : k ≠ k2 → assoc k2 (assoc_set k v l) = assoc k2 l.
Proof.
  intros Hne. induction l as [|[k' v'] l IH]; simpl.
  - by destruct (String.eqb_spec k2 k).
  - destruct (String.eqb_spec k k') as [->|Hk]; simpl.
    + by destruct (String.eqb_spec k2 k').
    + by rewrite IH.
Qed.

Lemma assoc_delete_ne {A} k k2 (l : list (string * A)) : k ≠ k2 → assoc k2 (assoc_delete k l) = assoc k2 l.
Proof.
  intros Hne. induction l as [|[k' v'] l IH]; simpl; [done|].
  destruct (String.eqb_spec k k') as [->|Hk]; simpl; [|by rewrite IH].
  by destruct (String.eqb_spec k2 k').
Qed.

Lemma assoc_elem {A} k (v : A) l : assoc k l = Some v → (k, v) ∈ l.
Proof.
  induction l as [|[k' v'] l IH]; simpl; [done|].
  destruct (String.eqb_spec k k') as [->|Hk]; [intros [= ->]; by left|]. intros Ha. right. by apply IH.
Qed.

Lemma assoc_None {A} k (l : list (string * A)) : assoc k l = None ↔ k ∉ l.*1.
Proof.
  induction l as [|[k' v'] l IH]; csimpl; [split; [intros _; apply not_elem_of_nil|done]|].
  rewrite not_elem_of_cons. destruct (String.eqb_spec k k'); naive_solver.
Qed.

Lemma assoc_delete_eq {A} k (l : list (string * A)) : NoDup l.*1 → assoc k (assoc_delete k l) = None.
Proof.
  induction l as [|[k' v'] l IH]; csimpl; [done|]. intros [Hn Hd]%NoDup_cons.
  destruct (String.eqb_spec k k') as [->|Hk]; csimpl; [by apply assoc_None|].
  destruct (String.eqb_spec k k'); [done|]. by apply IH.
Qed.

Lemma assoc_set_names {A} k (v : A) l :
  (assoc_set k v l).*1 = if decide (k ∈ l.*1) then l.*1 else l.*1 ++ [k].
Proof.
  induction l as [|[k' v'] l IH]; csimpl; [done|].
  destruct (String.eqb_spec k k') as [->|Hk]; csimpl.
  - rewrite decide_True; [done|by left].
  - rewrite IH. destruct (decide (k ∈ l.*1)) as [Hi|Hi].
    + rewrite decide_True; [done|by right].
    + rewrite decide_False; [done|]. by rewrite not_elem_of_cons.
Qed.

Lemma assoc_set_NoDup {A} k (v : A) l : NoDup l.*1 → NoDup (assoc_set k v l).*1.
Proof.
  intros Hd. rewrite assoc_set_names. case_decide as Hk; [done|].
  apply NoDup_app. split_and!; [done| |apply NoDup_singleton].
  intros x Hx ->%list_elem_of_singleton. done.
Qed.

Lemma assoc_delete_NoDup {A} k (l : list (string * A)) : NoDup l.*1 → NoDup (assoc_delete k l).*1.
Proof.
  induction l as [|[k' v'] l IH]; csimpl; [done|]. intros [Hn Hd]%NoDup_cons.
  destruct (String.eqb k k'); csimpl; [done|]. apply NoDup_cons. split; [|by apply IH].
  intros Hx. apply Hn. clear -Hx. induction l as [|[k2 v2] l IH]; csimpl in *; [done|].
  destruct (String.eqb k k2); csimpl in *; [by right|]. apply elem_of_cons in Hx as [->|Hx]; [by left|].
  right. by apply IH.
Qed.

Lemma in_order_perm {A} (l : list (string * A)) : in_order l ≡ₚ l.
Proof.
  unfold in_order. rewrite sort_by_key_perm. induction l as [|x l IH]; simpl; [done|].
  destruct (bool_decide _); simpl; [by rewrite IH|]. rewrite <- Permutation_middle. by rewrite IH.
Qed.

(** *** The heap *)

Lemma lookup_alloc h o : (fst (alloc h o)) !! length h = Some o.
Proof. unfold alloc. cbn [fst]. by rewrite lookup_app_r, Nat.sub_diag. Qed.

Lemma lookup_alloc_old h o l : (l < length h)%nat → (fst (alloc h o)) !! l = h !! l.
Proof. intros Hl. by apply lookup_app_l. Qed.

Lemma lookup_set_eq h l k x o :
  h !! l = Some o → k ≠ "__proto__" →
  set h (VRef l) k x !! l = Some (mkObj (class o) (kind o) (assoc_set k x (own o))).
Proof.
  intros Hl Hk. unfold set. destruct (String.eqb_spec k "__proto__"); [done|].
  by rewrite list_lookup_alter_eq, Hl.
Qed.

Lemma lookup_set_proto h v x : set h v "__proto__" x = h.
Proof. by destruct v. Qed.

Lemma lookup_set_ne h l l2 k x : l ≠ l2 → set h (VRef l) k x !! l2 = h !! l2.
Proof.
  intros Hl. unfold set. destruct (String.eqb _ _); [done|]. by rewrite list_lookup_alter_ne.
Qed.

Lemma lookup_set_props_ne h l l2 ps : l ≠ l2 → set_props h (VRef l) ps !! l2 = h !! l2.
Proof.
  intros Hl. revert h. induction ps as [|p ps IH]; intros h; [done|]. unfold set_props in *. cbn [foldl].
  rewrite IH. by apply lookup_set_ne.
Qed.

Lemma lookup_set_props_eq h l c kd o ps :
  h !! l = Some (mkObj c kd o) → forallb (λ p, negb (String.eqb p.1 "__proto__")) ps = true →
  set_props h (VRef l) ps !! l = Some (mkObj c kd (foldl (λ o p, assoc_set p.1 p.2 o) o ps)).
Proof.
  revert h o. induction ps as [|[k x] ps IH]; intros h o Hl Hp; [done|]. simpl in Hp.
  apply andb_prop in Hp as [Hk Hp]. unfold set_props in *. cbn [foldl fst snd]. apply IH; [|done].
  rewrite (lookup_set_eq _ _ _ _ _ Hl); [done|]. by destruct (String.eqb_spec k "__proto__").
Qed.

Lemma length_set h v k x : length (set h v k x) = length h.
Proof. destruct v; simpl; try done. destruct (String.eqb _ _); [done|]. by rewrite length_alter. Qed.

Lemma length_set_props h v ps : length (set_props h v ps) = length h.
Proof.
  revert h. induction ps as [|p ps IH]; intros h; [done|]. unfold set_props in *. cbn [foldl].
  by rewrite IH, length_set.
Qed.

Lemma get_set_eq h l k x :
  is_Some (h !! l) → k ≠ "__proto__" → get (set h (VRef l) k x) (VRef l) k = x.
Proof.
  intros [o Ho] Hk. unfold get. rewrite (lookup_set_eq h l k x o Ho Hk). simpl. by rewrite assoc_set_eq.
Qed.

Lemma get_set_other h l k x v k2 :
  v ≠ VRef l ∨ k2 ≠ k → get (set h (VRef l) k x) v k2 = get h v k2.
Proof.
  intros Hne. destruct v as [| | | | | |l2|]; try done.
  destruct (decide (l2 = l)) as [->|Hl].
  - destruct Hne as [?|Hk]; [done|]. unfold get, set. destruct (String.eqb _ _); [done|].
    rewrite list_lookup_alter_eq. destruct (h !! l) as [o|]; [|done]. simpl. by rewrite assoc_set_ne.
  - unfold get. by rewrite lookup_set_ne.
Qed.

(** The text of a property that is not an own helper. *)
Lemma to_string_VString h s : to_string h (VString s) = Some s.
Proof. done. Qed.
End laws.
