(* ===== verification/WebApi.v ===== *)
(** * Headers, URLs, requests and responses as programs see them: [src/runtime/apis.rs],
    [src/runtime/request.rs], and the body methods of [src/runtime/fetch.rs]

    The constructors and methods as callbacks over the heap of JsObjects: each takes the
    heap, [this] and the arguments, and gives the heap and what it returns.  When a
    conversion of an argument throws, the callback goes on as written here, and the engine
    throws the pending exception once it has returned.

    Three things are kept in ordinary objects: the headers of a [Headers] in the property
    [__headers__], the parameters of a [URLSearchParams] in [__params__], and the body of
    a response from [fetch] behind an address in [__response_data]. *)

From stdpp Require Import base list strings pretty.
From Stdlib Require Import ZArith Lia SpecFloat.
From Stdlib.Strings Require Byte.
From S2P Require Import Prelude RustString RustList RustFloat CryptoApi HttpHeaders Router WorkerLoop JsObjects.

Open Scope Z_scope.

(** ** What the callbacks use of crates and the engine *)

Record ParsedUrl := mkUrl {
  as_str : string;
  scheme : string;
  host_str : option string;
  port : option Z;
  path : string;
  query : option string;
  fragment : option string;
}.

(** [url::Url::parse]; [fallback] is what it answers for ["http://localhost/"]. *)
Class UrlCrate := {
  url_parse : string → option ParsedUrl;
  fallback : ParsedUrl;
  url_parse_localhost : url_parse "http://localhost/" = Some fallback;
}.

Class JsData := {
  json_stringify : Heap → Val → option string;
  json_parse : Heap → string → option (Heap * Val);
  base64_decode : string → option bytes;
  utf8_lossy : bytes → string;
}.

Section webapi.
Context `{Lowercase} `{JsConv} `{UrlCrate} `{JsData}.

Definition str (s : string) : Val := VString s.
Definition native (name : string) : Val := VFun (Native name).

(** The last property of an object set to the text of [v], if it has one. *)
Definition set_text (h : Heap) (o : Val) (k : string) (v : Val) : Heap :=
  match to_string h v with Some s => set h o k (VString s) | None => h end.

(** ** [Headers] *)

Definition headers_constructor (h : Heap) (this : Val) (args : list Val) : Heap * Val :=
  let (h, store) := new_object h CObject in
  let h := set h this "__headers__" store in
  let h :=
    match args with
    | init :: _ =>
        if is_nullish init then h
        else foldl (λ h p, set_text h store (to_lowercase p.1) p.2) h (own_properties h init)
    | [] => h
    end in
  let h := set h this "get" (native "headers_get_callback") in
  let h := set h this "set" (native "headers_set_callback_v2") in
  let h := set h this "forEach" (native "headers_foreach_callback") in
  (h, this).

(** [null] in place of what is not there. *)
Definition or_null (v : Val) : Val := if is_nullish v then VNull else v.

Definition headers_get_callback (h : Heap) (this : Val) (args : list Val) : Val :=
  let name := match args with [] => "" | _ => default "" (to_lowercase <$> to_string h (arg args 0)) end in
  let store := get h this "__headers__" in
  if is_nullish store then VNull else or_null (get h store name).

Definition headers_set_callback_v2 (h : Heap) (this : Val) (args : list Val) : Heap :=
  if (2 <=? length args)%nat then
    let name := default "" (to_lowercase <$> to_string h (arg args 0)) in
    let value := text_arg h args 1 in
    let store := get h this "__headers__" in
    if is_nullish store then h else set h store name (VString value)
  else h.

(** The arguments of the calls, for a callback that does not change the headers. *)
Definition headers_foreach_callback (h : Heap) (this : Val) (args : list Val) : list (list Val) :=
  match args with
  | callback :: _ =>
      if negb (is_function callback) then []
      else
        let store := get h this "__headers__" in
        if is_nullish store then []
        else (λ p : string * Val, [p.2; VString p.1; this]) <$> own_properties h store
  | [] => []
  end.

(** The [set] of the headers of a response: names are kept as they are. *)
Definition headers_set_callback (h : Heap) (this : Val) (args : list Val) : Heap :=
  if (2 <=? length args)%nat then
    let name := text_arg h args 0 in
    let value := text_arg h args 1 in
    let store := get h this "__headers__" in
    if is_nullish store then h else set h store name (VString value)
  else h.

(** ** [URLSearchParams] *)

(** One part of a query between [&]. *)
Definition set_pair (h : Heap) (store : Val) (pair : string) : Heap :=
  match find_char (ch "=") pair with
  | Some eq_pos => set h store (stake eq_pos pair) (VString (sdrop (S eq_pos) pair))
  | None => if is_empty pair then h else set h store pair (VString "")
  end.

Definition url_search_params_constructor (h : Heap) (this : Val) (args : list Val) : Heap * Val :=
  let (h, store) := new_object h CObject in
  let h := set h this "__params__" store in
  let h :=
    match args with
    | init :: _ =>
        match to_string h init with
        | Some q => foldl (λ h pair, set_pair h store pair) h (split (ch "&") q)
        | None => h
        end
    | [] => h
    end in
  (h, this).

Definition usp_get_callback (h : Heap) (this : Val) (args : list Val) : Val :=
  match args with
  | [] => VNull
  | _ =>
      let store := get h this "__params__" in
      if is_nullish store then VNull else or_null (get h store (text_arg h args 0))
  end.

Definition usp_set_callback (h : Heap) (this : Val) (args : list Val) : Heap :=
  if (length args <? 2)%nat then h
  else
    let store := get h this "__params__" in
    if is_nullish store then h else set h store (text_arg h args 0) (VString (text_arg h args 1)).

Definition usp_has_callback (h : Heap) (this : Val) (args : list Val) : Val :=
  match args with
  | [] => VBool false
  | _ =>
      let store := get h this "__params__" in
      if is_nullish store then VBool false else VBool (negb (is_nullish (get h store (text_arg h args 0))))
  end.

Definition usp_delete_callback (h : Heap) (this : Val) (args : list Val) : Heap :=
  match args with
  | [] => h
  | _ =>
      let store := get h this "__params__" in
      if is_nullish store then h else delete h store (text_arg h args 0)
  end.

(** The function under [entries], if there is one, is called and its answer ignored. *)
Definition usp_tostring_callback (h : Heap) (this : Val) : Val :=
  let store := get h this "__params__" in
  if is_nullish store then VString ""
  else if is_function (get h store "entries") then VString "" else VString "".

(** ** [URL] *)

Definition text_of_port (p : ParsedUrl) : string := default "" (pretty <$> port p).

Definition url_host (p : ParsedUrl) : string :=
  match port p with
  | Some n => default "" (host_str p) +:+ (":" +:+ pretty n)
  | None => default "" (host_str p)
  end.

Definition url_search (p : ParsedUrl) : string :=
  match query p with Some q => "?" +:+ q | None => "" end.
Definition url_hash (p : ParsedUrl) : string :=
  match fragment p with Some f => "#" +:+ f | None => "" end.

Definition parse_or_localhost (s : string) : ParsedUrl := default fallback (url_parse s).

(** The properties of a URL, in the order they are set. *)
Definition url_parts (p : ParsedUrl) : list (string * string) :=
  [("href", as_str p); ("protocol", scheme p +:+ ":"); ("host", url_host p);
   ("hostname", default "" (host_str p)); ("port", text_of_port p); ("pathname", path p);
   ("search", url_search p); ("hash", url_hash p)].

Definition url_constructor (h : Heap) (this : Val) (args : list Val) : Heap * Val :=
  let url_string := match args with [] => "" | _ => text_arg h args 0 end in
  let parsed := parse_or_localhost url_string in
  let h := foldl (λ h p, set h this p.1 (str p.2)) h (url_parts parsed) in
  let (h, params) := new_object h CSearchParams in
  let (h, params) := url_search_params_constructor h params [str (default "" (query parsed))] in
  let h := set h this "searchParams" params in
  (h, this).

Definition url_tostring_callback (h : Heap) (this : Val) : Val :=
  match to_string h (get h this "href") with Some s => VString s | None => VString "" end.

Definition url_href_callback (h : Heap) (this : Val) : Val := get h this "href".

(** ** [Response] *)

(** The number in [status], if it is one above zero, as [u16]. *)
Definition status_option (h : Heap) (opts : Val) : Z :=
  if is_nullish opts then 200
  else
    let v := get h opts "status" in
    if is_nullish v then 200
    else match to_number h v with
         | Some n => if negb (is_nan n) && f64_lt (f64_of_Z 0) n then f64_to_u16 n else 200
         | None => 200
         end.

(** The object in [headers], if there is one. *)
Definition headers_option (h : Heap) (opts : Val) : option Val :=
  if is_nullish opts then None
  else let v := get h opts "headers" in if is_nullish v then None else Some v.

Definition response_constructor (h : Heap) (this : Val) (args : list Val) : Heap * Val :=
  let body_string :=
    match args with
    | b :: _ => if is_nullish b then "" else default "" (to_string h b)
    | [] => ""
    end in
  let status := match args with _ :: opts :: _ => status_option h opts | _ => 200 end in
  let headers_obj := match args with _ :: opts :: _ => headers_option h opts | _ => None end in
  let h := set h this "status" (VNumber (f64_of_Z status)) in
  let (h, headers) := new_object h CObject in
  let (h, internal_headers) := new_object h CObject in
  let h := set h headers "__headers__" internal_headers in
  let h :=
    match headers_obj with
    | Some hdrs =>
        foldl (λ h p, match to_string h p.2 with
                      | Some s => set (set h headers p.1 (VString s)) internal_headers p.1 (VString s)
                      | None => h
                      end) h (own_properties h hdrs)
    | None => h
    end in
  let h := set h this "headers" headers in
  let h := set h this "body" (str body_string) in
  let h := set h headers "set" (native "headers_set_callback") in
  (h, this).

(** [Response.json] *)
Definition response_json_static_callback (h : Heap) (args : list Val) : Heap * Val :=
  match args with
  | [] => (h, VUndefined)
  | data :: rest =>
      let json_string := default "null" (json_stringify h data) in
      let status := match rest with opts :: _ => status_option h opts | [] => 200 end in
      let headers_obj := match rest with opts :: _ => headers_option h opts | [] => None end in
      let (h, response_obj) := new_object h CObject in
      let h := set h response_obj "status" (VNumber (f64_of_Z status)) in
      let (h, headers) := new_object h CObject in
      let h := set h headers "Content-Type" (str "application/json") in
      let h :=
        match headers_obj with
        | Some hdrs =>
            foldl (λ h p, if String.eqb p.1 "Content-Type" then h else set_text h headers p.1 p.2)
              h (own_properties h hdrs)
        | None => h
        end in
      let h := set h response_obj "headers" headers in
      let h := set h response_obj "body" (str json_string) in
      (h, response_obj)
  end.

(** ** Stores *)

(** [new C(args)] *)
Definition construct (c : Class) (ctor : Heap → Val → list Val → Heap * Val) (h : Heap) (args : list Val)
    : Heap * Val :=
  let (h, this) := new_object h c in ctor h this args.

(** Properties that are all strings. *)
Definition vals (l : list (string * string)) : list (string * Val) := (λ p, (p.1, VString p.2)) <$> l.

Definition store_at (h : Heap) (s : nat) (l : list (string * string)) : Prop :=
  h !! s = Some (mkObj CObject Ordinary (vals l)).

(** The instance at [i] keeps its store at [s] under [name]. *)
Definition instance_at (h : Heap) (name : string) (i s : nat) (l : list (string * string)) : Prop :=
  get h (VRef i) name = VRef s ∧ i ≠ s ∧ store_at h s l.

(** What remains of the writes of texts to an empty object. *)
Definition write (l : list (string * string)) (p : string * string) : list (string * string) :=
  if String.eqb p.1 "__proto__" then l else assoc_set p.1 p.2 l.

Definition last_value (k : string) (ws : list (string * string)) : option string :=
  last (omap (λ p, if String.eqb k p.1 then Some p.2 else None) ws).

(** The value an object made of texts shows under a name. *)
Definition shown_text (o : option string) (k : string) : Val :=
  match o with Some s => VString s | None => or_null (inherited CObject k) end.

Definition valid (h : Heap) (v : Val) : Prop := match v with VRef l => (l < length h)%nat | _ => True end.

Lemma vals_assoc k l : assoc k (vals l) = VString <$> assoc k l.
Proof. induction l as [|[k' v] l IH]; simpl; [done|]. by destruct (String.eqb k k'). Qed.

Lemma vals_set k v l : assoc_set k (VString v) (vals l) = vals (assoc_set k v l).
Proof. induction l as [|[k' v'] l IH]; csimpl; [done|]. destruct (String.eqb k k'); csimpl; [done|]. by rewrite IH. Qed.

Lemma vals_delete k l : assoc_delete k (vals l) = vals (assoc_delete k l).
Proof. induction l as [|[k' v'] l IH]; csimpl; [done|]. destruct (String.eqb k k'); csimpl; [done|]. by rewrite IH. Qed.

Lemma get_store h s l k : store_at h s l →
  get h (VRef s) k = match assoc k l with Some v => VString v | None => inherited CObject k end.
Proof. intros Hs. unfold get. rewrite Hs. simpl. rewrite vals_assoc. by destruct (assoc k l). Qed.

Lemma get_store_null h s l k : store_at h s l → or_null (get h (VRef s) k) = shown_text (assoc k l) k.
Proof. intros Hs. rewrite (get_store h s l k Hs). unfold shown_text. by destruct (assoc k l). Qed.

Lemma set_store h s l k v : store_at h s l → store_at (set h (VRef s) k (VString v)) s (write l (k, v)).
Proof.
  intros Hs. unfold store_at, write. cbn [fst snd].
  destruct (String.eqb_spec k "__proto__") as [->|Hk]; [done|].
  rewrite (lookup_set_eq h s k _ _ Hs Hk). simpl. by rewrite vals_set.
Qed.

Lemma delete_store h s l k : store_at h s l → store_at (delete h (VRef s) k) s (assoc_delete k l).
Proof. intros Hs. unfold store_at, delete. rewrite list_lookup_alter_eq, Hs. simpl. by rewrite vals_delete. Qed.

Lemma instance_set h name i s l k v :
  instance_at h name i s l → instance_at (set h (VRef s) k (VString v)) name i s (write l (k, v)).
Proof.
  intros (Hg & Hne & Hs). split_and!; [|done|by apply set_store].
  rewrite get_set_other; [done|]. left. by intros [= ?].
Qed.

Lemma instance_delete h name i s l k :
  instance_at h name i s l → instance_at (delete h (VRef s) k) name i s (assoc_delete k l).
Proof.
  intros (Hg & Hne & Hs). split_and!; [|done|by apply delete_store].
  trans (get h (VRef i) name); [|done]. unfold get, delete. by rewrite list_lookup_alter_ne.
Qed.

Lemma instance_other h name i s l k x :
  instance_at h name i s l → k ≠ name → instance_at (set h (VRef i) k x) name i s l.
Proof.
  intros (Hg & Hne & Hs) Hk. split_and!; [|done|].
  - rewrite get_set_other; [done|]. by right.
  - unfold store_at. by rewrite lookup_set_ne.
Qed.

Lemma instance_writes h name i s l ws :
  instance_at h name i s l →
  instance_at (foldl (λ h p, set h (VRef s) p.1 (VString p.2)) h ws) name i s (foldl write l ws).
Proof.
  revert h l. induction ws as [|[k v] ws IH]; intros h l Hi; simpl; [done|]. apply IH. by apply instance_set.
Qed.

Lemma last_value_snoc k ws p :
  last_value k (ws ++ [p]) = if String.eqb k p.1 then Some p.2 else last_value k ws.
Proof.
  unfold last_value. rewrite omap_app. simpl. destruct (String.eqb k p.1); simpl.
  - by rewrite last_snoc.
  - by rewrite app_nil_r.
Qed.

Lemma writes_last ws k :
  assoc k (foldl write [] ws) = if String.eqb k "__proto__" then None else last_value k ws.
Proof.
  induction ws as [|[k' v] ws IH] using rev_ind; [by destruct (String.eqb _ _)|].
  rewrite foldl_app, last_value_snoc. simpl. unfold write at 1. simpl.
  destruct (String.eqb_spec k' "__proto__") as [->|Hk'].
  - rewrite IH. by destruct (String.eqb_spec k "__proto__").
  - destruct (String.eqb_spec k k') as [->|Hk].
    + rewrite assoc_set_eq. by destruct (String.eqb_spec k' "__proto__").
    + rewrite assoc_set_ne by done. by rewrite IH.
Qed.

(** A new object with a new store. *)
Lemma new_instance h c name :
  name ≠ "__proto__" →
  let i := length h in let s := S i in
  let h1 := fst (new_object h c) in let h2 := fst (new_object h1 CObject) in
  instance_at (set h2 (VRef i) name (VRef s)) name i s [] ∧
  (∀ v, valid h v → own_properties (set h2 (VRef i) name (VRef s)) v = own_properties h v).
Proof.
  intros Hn i s h1 h2.
  assert (Hi : h2 !! i = Some (mkObj c Ordinary [])).
  { unfold h2, h1, new_object, alloc, i. cbn [fst]. rewrite lookup_app_l by (rewrite length_app; simpl; lia).
    by rewrite lookup_app_r, Nat.sub_diag. }
  assert (Hs : h2 !! s = Some (mkObj CObject Ordinary [])).
  { unfold h2, h1, new_object, alloc, s, i. cbn [fst]. rewrite lookup_app_r by (rewrite length_app; simpl; lia).
    rewrite length_app. simpl. by rewrite Nat.add_1_r, Nat.sub_diag. }
  split.
  - split_and!; [apply get_set_eq; [by rewrite Hi|done]|unfold s; lia|].
    unfold store_at. rewrite lookup_set_ne by (unfold s; lia). by rewrite Hs.
  - intros v Hv. destruct v as [| | | | | |l|]; try done. simpl in Hv. unfold own_properties.
    rewrite lookup_set_ne by (unfold i; lia). unfold h2, h1, new_object, alloc. cbn [fst].
    by rewrite !lookup_app_l by (rewrite ?length_app; lia).
Qed.

(** ** The classes *)

(** Texts copied to a store under the names [f] makes of theirs. *)
Lemma instance_texts f h name i s l pairs :
  instance_at h name i s l →
  instance_at (foldl (λ h p, set_text h (VRef s) (f p.1) p.2) h (vals pairs)) name i s
    (foldl write l ((λ p, (f p.1, p.2)) <$> pairs)).
Proof.
  revert h l. induction pairs as [|[k v] pairs IH]; intros h l Hi; [done|]. cbn. apply IH.
  by apply instance_set.
Qed.

(** Names as [Headers] keeps them. *)
Definition lowered (ws : list (string * string)) : list (string * string) :=
  (λ p, (to_lowercase p.1, p.2)) <$> ws.

Lemma headers_constructed h init pairs :
  valid h init → is_nullish init = false → own_properties h init = vals pairs →
  let '(h1, this) := construct CHeaders headers_constructor h [init] in
  this = VRef (length h) ∧ instance_at h1 "__headers__" (length h) (S (length h)) (foldl write [] (lowered pairs)).
Proof.
  intros Hv Hn Ho. pose proof (new_instance h CHeaders "__headers__" ltac:(done)) as [Hi Hp].
  cbn zeta in Hi, Hp. unfold construct, headers_constructor.
  assert (Hl : length (h ++ [mkObj CHeaders Ordinary []]) = S (length h)) by (rewrite length_app; simpl; lia).
  unfold new_object, alloc in *. cbn [fst snd] in *. rewrite Hl, Hn. specialize (Hp init Hv). rewrite Ho in Hp.
  rewrite Hp. split; [done|]. repeat (apply instance_other; [|done]).
  by apply instance_texts.
Qed.

Lemma headers_set_instance h i s l k v :
  instance_at h "__headers__" i s l →
  instance_at (headers_set_callback_v2 h (VRef i) [str k; str v]) "__headers__" i s (write l (to_lowercase k, v)).
Proof.
  intros Hi. pose proof Hi as (Hg & _). unfold headers_set_callback_v2. simpl length. cbn [Nat.leb].
  rewrite Hg. cbn [is_nullish]. by apply instance_set.
Qed.

Lemma headers_sets_instance h i s l sets :
  instance_at h "__headers__" i s l →
  instance_at (foldl (λ h p, headers_set_callback_v2 h (VRef i) [str p.1; str p.2]) h sets) "__headers__" i s
    (foldl write l (lowered sets)).
Proof.
  revert h l. induction sets as [|[k v] sets IH]; intros h l Hi; csimpl; [done|]. apply IH.
  by apply headers_set_instance.
Qed.

Lemma writes_NoDup ws : NoDup (foldl write [] ws).*1.
Proof.
  induction ws as [|[k v] ws IH] using rev_ind; [constructor|]. rewrite foldl_app. simpl. unfold write at 1.
  destruct (String.eqb _ _); [done|]. by apply assoc_set_NoDup.
Qed.

Lemma assoc_iff {A} k (v : A) l : NoDup l.*1 → (k, v) ∈ l ↔ assoc k l = Some v.
Proof.
  intros Hd. split; [|apply assoc_elem]. induction l as [|[k' v'] l IH]; csimpl; [by intros ?%elem_of_nil|].
  csimpl in Hd. apply NoDup_cons in Hd as [Hn Hd]. intros [[= -> ->]|Hl]%elem_of_cons; [by rewrite String.eqb_refl|].
  destruct (String.eqb_spec k k') as [->|Hk]; [|by apply IH]. exfalso. apply Hn.
  apply list_elem_of_fmap. by exists (k', v).
Qed.

Lemma in_order_vals l : in_order (vals l) = vals (in_order l).
Proof.
  assert (Hf : ∀ (P : string → bool) l, List.filter (λ p, P p.1) (vals l) = vals (List.filter (λ p, P p.1) l)).
  { intros P l0. induction l0 as [|[k v] l0 IH]; csimpl; [done|]. destruct (P k); csimpl; by rewrite IH. }
  assert (Hs : ∀ (K : string → Z) l, sort_by_key (λ p, K p.1) (vals l) = vals (sort_by_key (λ p, K p.1) l)).
  { intros K l0. induction l0 as [|[k v] l0 IH]; csimpl; [done|]. rewrite IH.
    generalize (sort_by_key (λ p : string * string, K p.1) l0). clear.
    intros l0. induction l0 as [|[k' v'] l0 IH]; csimpl; [done|]. destruct (K k <=? K k'); csimpl; [done|].
    by rewrite IH. }
  pose proof (Hf (λ k, bool_decide (is_Some (array_index k)))) as Ha.
  pose proof (Hf (λ k, negb (bool_decide (is_Some (array_index k))))) as Hb.
  pose proof (Hs (λ k, default 0 (array_index k))) as Hc. cbn beta in Ha, Hb, Hc.
  unfold in_order. rewrite Ha, Hb, Hc. unfold vals. by rewrite fmap_app.
Qed.

(** ** [URLSearchParams] *)

Definition pair_of (pair : string) : option (string * string) :=
  match find_char (ch "=") pair with
  | Some i => Some (stake i pair, sdrop (S i) pair)
  | None => if is_empty pair then None else Some (pair, "")
  end.

(** The pairs of a query; nothing is decoded. *)
Definition pairs_of (q : string) : list (string * string) := omap pair_of (split (ch "&") q).

Inductive ParamsOp := SetParam (k v : string) | DeleteParam (k : string).

Definition params_call (this : Val) (h : Heap) (op : ParamsOp) : Heap :=
  match op with
  | SetParam k v => usp_set_callback h this [str k; str v]
  | DeleteParam k => usp_delete_callback h this [str k]
  end.

Definition params_after (l : list (string * string)) (op : ParamsOp) : list (string * string) :=
  match op with SetParam k v => write l (k, v) | DeleteParam k => assoc_delete k l end.

(** What an operation does to the value of one name. *)
Definition value_after (k : string) (o : option string) (op : ParamsOp) : option string :=
  match op with
  | SetParam k' v => if String.eqb k k' && negb (String.eqb k "__proto__") then Some v else o
  | DeleteParam k' => if String.eqb k k' then None else o
  end.

Lemma pairs_instance h name i s l ws :
  instance_at h name i s l →
  instance_at (foldl (λ h pair, set_pair h (VRef s) pair) h ws) name i s
    (foldl write l (omap pair_of ws)).
Proof.
  revert h l. induction ws as [|w ws IH]; intros h l Hi; [done|].
  change (omap pair_of (w :: ws)) with
    (match pair_of w with Some p => p :: omap pair_of ws | None => omap pair_of ws end).
  cbn [foldl]. unfold set_pair at 2, pair_of at 1.
  destruct (find_char (ch "=") w) as [n|]; [apply (IH _ (write l _)); by apply instance_set|].
  destruct (is_empty w); [by apply IH|]. apply (IH _ (write l _)). by apply instance_set.
Qed.

Lemma params_ops_instance h i s l ops :
  instance_at h "__params__" i s l →
  instance_at (foldl (params_call (VRef i)) h ops) "__params__" i s (foldl params_after l ops).
Proof.
  revert h l. induction ops as [|[k v|k] ops IH]; intros h l Hi; [done| |];
    cbn [foldl params_call params_after]; apply IH; pose proof Hi as (Hg & _).
  - unfold usp_set_callback. cbn [length Nat.ltb Nat.leb]. rewrite Hg. cbn [is_nullish]. by apply instance_set.
  - unfold usp_delete_callback. rewrite Hg. cbn [is_nullish]. by apply instance_delete.
Qed.

Lemma params_ops_value l ops k :
  NoDup l.*1 → assoc "__proto__" l = None →
  assoc k (foldl params_after l ops) = foldl (value_after k) (assoc k l) ops ∧
  assoc "__proto__" (foldl params_after l ops) = None.
Proof.
  revert l. induction ops as [|op ops IH]; intros l Hd Hp; simpl; [done|].
  destruct op as [k' v|k']; simpl.
  - unfold write. simpl. destruct (String.eqb_spec k' "__proto__") as [->|Hk'].
    + destruct (String.eqb_spec k "__proto__"); simpl; by apply IH.
    + destruct (IH (assoc_set k' v l)) as [-> ->]; [by apply assoc_set_NoDup|by rewrite assoc_set_ne|].
      split; [|done]. f_equal. destruct (String.eqb_spec k k') as [->|Hk]; simpl.
      * destruct (String.eqb_spec k' "__proto__"); [done|]. by rewrite assoc_set_eq.
      * by rewrite assoc_set_ne.
  - destruct (IH (assoc_delete k' l)) as [-> ->]; [by apply assoc_delete_NoDup| |].
    { destruct (decide (k' = "__proto__")) as [->|]; [by apply assoc_delete_eq|by rewrite assoc_delete_ne]. }
    split; [|done]. f_equal. destruct (String.eqb_spec k k') as [->|Hk]; [by apply assoc_delete_eq|].
    by rewrite assoc_delete_ne.
Qed.

Lemma params_constructed h q rest :
  let '(h1, this) := construct CSearchParams url_search_params_constructor h (str q :: rest) in
  this = VRef (length h) ∧
  instance_at h1 "__params__" (length h) (S (length h)) (foldl write [] (pairs_of q)).
Proof.
  pose proof (new_instance h CSearchParams "__params__" ltac:(done)) as [Hi _]. cbn zeta in Hi.
  unfold construct, url_search_params_constructor.
  assert (Hl : length (h ++ [mkObj CSearchParams Ordinary []]) = S (length h)) by (rewrite length_app; simpl; lia).
  unfold new_object, alloc in *. cbn [fst snd] in *. rewrite Hl. cbn [to_string str]. split; [done|].
  by apply pairs_instance.
Qed.

(** *** What stays as it is *)

Lemma instance_far h name i s l j k x :
  instance_at h name i s l → j ≠ i → j ≠ s → instance_at (set h (VRef j) k x) name i s l.
Proof.
  intros (Hg & Hne & Hs) Hi Hj. split_and!; [|done|unfold store_at; by rewrite lookup_set_ne].
  rewrite get_set_other; [done|]. left. by intros [= ?].
Qed.

Lemma get_lookup h h' n k : h' !! n = h !! n → get h' (VRef n) k = get h (VRef n) k.
Proof. intros Hl. unfold get. by rewrite Hl. Qed.

Lemma set_pairs_far h s ws n : n ≠ s → foldl (λ h pair, set_pair h (VRef s) pair) h ws !! n = h !! n.
Proof.
  intros Hn. revert h. induction ws as [|w ws IH]; intros h; cbn [foldl]; [done|]. rewrite IH.
  unfold set_pair. destruct (find_char _ _); [by apply lookup_set_ne|].
  destruct (is_empty w); [done|by apply lookup_set_ne].
Qed.

Lemma params_constructed_far h q n :
  (n < length h)%nat →
  fst (construct CSearchParams url_search_params_constructor h [str q]) !! n = h !! n.
Proof.
  intros Hn. unfold construct, url_search_params_constructor, new_object, alloc. cbn [to_string str fst].
  rewrite length_app. simpl length. rewrite set_pairs_far by lia. rewrite lookup_set_ne by lia.
  by rewrite !lookup_app_l by (rewrite ?length_app; lia).
Qed.

Lemma params_ops_far h i s l ops n :
  instance_at h "__params__" i s l → n ≠ s → foldl (params_call (VRef i)) h ops !! n = h !! n.
Proof.
  intros Hi Hn. revert h l Hi. induction ops as [|op ops IH]; intros h l Hi; [done|].
  pose proof (params_ops_instance h i s l [op] Hi) as Hi1. cbn [foldl] in Hi1 |- *.
  rewrite (IH _ _ Hi1). destruct Hi as (Hg & _). destruct op as [k v|k]; cbn [params_call].
  - unfold usp_set_callback. cbn [length Nat.ltb Nat.leb]. rewrite Hg. by apply lookup_set_ne.
  - unfold usp_delete_callback. rewrite Hg. unfold delete. cbn [is_nullish]. by rewrite list_lookup_alter_ne.
Qed.

Lemma set_texts h i c kd l parts :
  h !! i = Some (mkObj c kd (vals l)) →
  foldl (λ h p, set h (VRef i) p.1 (str p.2)) h parts !! i = Some (mkObj c kd (vals (foldl write l parts))).
Proof.
  revert h l. induction parts as [|[k v] parts IH]; intros h l Hi; [done|]. cbn [foldl]. apply IH.
  unfold write. cbn [fst snd]. destruct (String.eqb_spec k "__proto__") as [->|Hk]; [done|].
  rewrite (lookup_set_eq _ _ _ _ _ Hi Hk). cbn [own class kind]. unfold str. by rewrite vals_set.
Qed.

Lemma length_texts h i parts : length (foldl (λ h p, set h (VRef i) p.1 (str p.2)) h parts) = length h.
Proof. revert h. induction parts as [|p parts IH]; intros h; cbn [foldl]; [done|]. by rewrite IH, length_set. Qed.

Lemma url_constructed h s rest h1 this :
  construct CUrl url_constructor h (str s :: rest) = (h1, this) →
  let p := parse_or_localhost s in
  this = VRef (length h) ∧ ∃ i s0,
    h1 !! length h = Some (mkObj CUrl Ordinary (vals (url_parts p) ++ [("searchParams", VRef i)])) ∧
    get h1 this "searchParams" = VRef i ∧
    instance_at h1 "__params__" i s0 (foldl write [] (pairs_of (default "" (query p)))) ∧
    i ≠ length h ∧ length h ≠ s0.
Proof.
  intros Hc p.
  set (h8 := foldl (λ h0 p, set h0 (VRef (length h)) p.1 (str p.2)) (h ++ [mkObj CUrl Ordinary []]) (url_parts p)).
  assert (H8 : h8 !! length h = Some (mkObj CUrl Ordinary (vals (url_parts p)))).
  { unfold h8. rewrite (set_texts _ _ CUrl Ordinary []); [done|]. by rewrite lookup_app_r, Nat.sub_diag. }
  assert (Hl8 : length h8 = S (length h)).
  { unfold h8. rewrite length_texts, length_app. simpl. lia. }
  pose proof (params_constructed h8 (default "" (query p)) []) as Hp.
  pose proof (params_constructed_far h8 (default "" (query p)) (length h) ltac:(lia)) as Hfar.
  unfold construct at 1, url_constructor, new_object at 1, alloc at 1 in Hc.
  change (text_arg _ (str s :: rest) 0) with s in Hc. cbn [fst snd] in Hc. fold p h8 in Hc.
  unfold construct in Hp, Hfar.
  destruct (new_object h8 CSearchParams) as [h9 params].
  destruct (url_search_params_constructor h9 params _) as [h10 params1]. destruct Hp as [-> Hi].
  assert (h1 = set h10 (VRef (length h)) "searchParams" (VRef (length h8)) ∧ this = VRef (length h)) as [-> ->]
    by (split; congruence).
  clear Hc. cbn [fst] in Hfar. rewrite H8 in Hfar. split; [done|].
  exists (length h8), (S (length h8)). rewrite Hl8 in *. split_and!; try lia.
  - by rewrite (lookup_set_eq _ _ _ _ _ Hfar).
  - apply get_set_eq; [by rewrite Hfar|done].
  - apply instance_far; [done|lia|lia].
Qed.

(** ** Properties *)

(** [Headers] made from an object whose properties are texts, after any calls of [set]:
    [get] of a name in any case gives the last value written under it in any case, and
    [forEach] visits each name exactly once with that value.  Where nothing was written
    [get] gives null, but for the names every object has: [get] of ["constructor"] gives a
    function and of ["__proto__"], which cannot be written at all, an object. *)
Theorem headers_exact h init pairs sets name f
    (Hvalid : valid h init) (Hobj : is_nullish init = false) (Hinit : own_properties h init = vals pairs) :
  let '(h1, this) := construct CHeaders headers_constructor h [init] in
  let h2 := foldl (λ h p, headers_set_callback_v2 h this [str p.1; str p.2]) h1 sets in
  let written := lowered (pairs ++ sets) in
  headers_get_callback h2 this [str name] =
    shown_text (if String.eqb (to_lowercase name) "__proto__" then None
                else last_value (to_lowercase name) written) (to_lowercase name) ∧
  ∃ entries, NoDup entries.*1 ∧
    (∀ k v, (k, v) ∈ entries ↔ k ≠ "__proto__" ∧ last_value k written = Some v) ∧
    headers_foreach_callback h2 this [VFun f] = (λ p, [VString p.2; VString p.1; this]) <$> entries.
Proof.
  pose proof (headers_constructed h init pairs Hvalid Hobj Hinit) as Hc.
  destruct (construct _ _ _ _) as [h1 this]. destruct Hc as [-> Hi]. cbn zeta.
  apply headers_sets_instance with (sets := sets) in Hi. rewrite <- foldl_app in Hi.
  assert (Hl : lowered pairs ++ lowered sets = lowered (pairs ++ sets)) by (unfold lowered; by rewrite fmap_app).
  rewrite Hl in Hi. destruct Hi as (Hg & _ & Hs). split.
  - unfold headers_get_callback. rewrite Hg. cbn [is_nullish]. simpl default.
    by rewrite (get_store_null _ _ _ _ Hs), writes_last.
  - exists (in_order (foldl write [] (lowered (pairs ++ sets)))).
    assert (Hd := writes_NoDup (lowered (pairs ++ sets))). split_and!.
    + by rewrite in_order_perm.
    + intros k v. rewrite in_order_perm, assoc_iff, writes_last by done.
      destruct (String.eqb_spec k "__proto__"); naive_solver.
    + unfold headers_foreach_callback. cbn [is_function negb]. rewrite Hg. cbn [is_nullish].
      unfold own_properties. rewrite Hs. cbn [kind own]. rewrite in_order_vals.
      unfold vals. by rewrite <- list_fmap_compose.
Qed.

(** [URLSearchParams] made from a text, after any calls of [set] and [delete]: the
    parts between [&] are the names and values as they stand, nothing is decoded, and of
    several values of a name only the last is kept.  [get] and [has] find what was written
    last and not deleted since; of the names every object has, such as ["toString"], [has]
    says that they are there when they are not.  [toString] is always empty. *)
Theorem search_params_exact h q rest ops k :
  let '(h1, this) := construct CSearchParams url_search_params_constructor h (str q :: rest) in
  let h2 := foldl (params_call this) h1 ops in
  let value := foldl (value_after k)
    (if String.eqb k "__proto__" then None else last_value k (pairs_of q)) ops in
  usp_get_callback h2 this [str k] = shown_text value k ∧
  usp_has_callback h2 this [str k] =
    VBool (match value with Some _ => true | None => negb (is_nullish (inherited CObject k)) end) ∧
  usp_tostring_callback h2 this = VString "".
Proof.
  pose proof (params_constructed h q rest) as Hc.
  destruct (construct _ _ _ _) as [h1 this]. destruct Hc as [-> Hi]. cbn zeta.
  apply params_ops_instance with (ops := ops) in Hi. destruct Hi as (Hg & _ & Hs).
  pose proof (params_ops_value (foldl write [] (pairs_of q)) ops k (writes_NoDup _) (writes_last _ _)) as [Hv _].
  rewrite writes_last in Hv. split_and!.
  - unfold usp_get_callback. rewrite Hg. cbn [is_nullish]. by rewrite (get_store_null _ _ _ _ Hs), <- Hv.
  - unfold usp_has_callback. rewrite Hg. cbn [is_nullish]. rewrite (get_store _ _ _ _ Hs), <- Hv.
    change (text_arg _ [str k] 0) with k. by destruct (assoc k _).
  - unfold usp_tostring_callback. rewrite Hg. cbn [is_nullish]. by destruct (is_function _).
Qed.

(** A [URL] shows the parts its parser gives of the first argument, and the parts of
    ["http://localhost/"] for anything that cannot be parsed; a base given as second
    argument is ignored.  Its text is its [href].  [searchParams] is made of the query and
    goes its own way: setting and deleting parameters never changes the URL. *)
Theorem url_exact h s rest ops :
  let p := parse_or_localhost s in
  let '(h1, this) := construct CUrl url_constructor h (str s :: rest) in
  (∀ k v, (k, v) ∈ url_parts p → get (foldl (params_call (get h1 this "searchParams")) h1 ops) this k = str v) ∧
  to_string (foldl (params_call (get h1 this "searchParams")) h1 ops) this = Some (as_str p) ∧
  ∀ k, usp_get_callback h1 (get h1 this "searchParams") [str k] =
    shown_text (if String.eqb k "__proto__" then None else last_value k (pairs_of (default "" (query p)))) k.
Proof.
  cbn zeta. destruct (construct CUrl url_constructor h (str s :: rest)) as [h1 this] eqn:Hc.
  apply url_constructed in Hc as (-> & i & s0 & Hn & Hsp & His & Hi & Hs). rewrite Hsp.
  pose proof (params_ops_far h1 i s0 _ ops (length h) His Hs) as Hfar.
  assert (Hparts : ∀ k v, (k, v) ∈ url_parts (parse_or_localhost s) →
    get (foldl (params_call (VRef i)) h1 ops) (VRef (length h)) k = str v).
  { intros k v Hk. rewrite (get_lookup h1) by done. unfold get. rewrite Hn. cbn [own kind].
    unfold url_parts in Hk. rewrite !elem_of_cons, elem_of_nil in Hk. naive_solver. }
  split_and!; [done| |].
  - unfold to_string. rewrite Hfar, Hn. rewrite (get_lookup h1 _ _ "toString") by done.
    rewrite (Hparts "href" (as_str (parse_or_localhost s))) by (unfold url_parts; by left).
    unfold get. by rewrite Hn.
  - intros k. unfold usp_get_callback. destruct His as (Hg & _ & Hst). rewrite Hg. cbn [is_nullish].
    by rewrite (get_store_null _ _ _ _ Hst), writes_last.
Qed.
End webapi.

(** ** Witnesses *)

#[local] Existing Instance ascii_Lowercase.

#[local] Instance demo_conv : JsConv := {|
  number_text := λ _, "number"; text_number := λ _, S754_nan;
  utf16_units := λ s, (λ a, String a EmptyString) <$> String.list_ascii_of_string s;
  function_text := λ _, "function () { [native code] }"; external_text := λ _, "[object Object]";
  program_text := λ _ _, None |}.

Definition localhost : ParsedUrl := mkUrl "http://localhost/" "http" (Some "localhost") None "/" None None.

#[local] Instance demo_url : UrlCrate := {|
  url_parse := λ s, if String.eqb s "http://localhost/" then Some localhost else None;
  fallback := localhost; url_parse_localhost := eq_refl |}.

#[local] Instance demo_data : JsData := {|
  json_stringify := λ _ _, None; json_parse := λ _ _, None;
  base64_decode := λ s, if String.eqb s "aGk=" then Some (String.list_byte_of_string "hi") else None;
  utf8_lossy := λ b, String.string_of_list_byte b |}.

Definition demo_init : Heap :=
  [mkObj CObject Ordinary [("Content-Type", str "text/html"); ("X-Id", str "7")];
   mkObj CObject Ordinary [("status", VNumber (f64_of_Z 404)); ("headers", VRef 0)]].

Lemma headers_exact_witness :
  let '(h1, this) := construct CHeaders headers_constructor demo_init [VRef 0] in
  headers_get_callback h1 this [str "content-TYPE"] = str "text/html" ∧
  headers_get_callback h1 this [str "Constructor"] = VFun (Native "constructor") ∧
  headers_get_callback h1 this [str "Accept"] = VNull.
Proof.
  split_and!.
  - exact (proj1 (headers_exact demo_init (VRef 0) [("Content-Type", "text/html"); ("X-Id", "7")] [] "content-TYPE"
      (Program 0) ltac:(simpl; lia) eq_refl ltac:(vm_compute; reflexivity))).
  - by vm_compute.
  - by vm_compute.
Defined.
