(* ===== verification/Fetch.v ===== *)
(** * [fetch], bodies, and responses on their way to the client:
    [src/runtime/fetch.rs], [src/runtime/request.rs]

    The body of a response from [fetch] is boxed and never freed; [mem] are the boxes so
    far, by address.  Reading an address that holds something else has no defined
    behaviour ([Wild]).  The HTTP client is a parameter: what it answers to a request.

    [view] is how the worker loop (WorkerLoop) reads the value a handler returns, and
    HttpReply what the router sends of it, so that the theorems follow a response from its
    constructor to the one handed to the HTTP server. *)

From stdpp Require Import base gmap list strings pretty.
From Stdlib Require Import ZArith Lia SpecFloat.
From Stdlib.Strings Require Byte.
From S2P Require Import Prelude RustString RustList RustFloat CryptoApi HttpHeaders Router HttpReply WorkerLoop JsObjects WebApi.

Open Scope Z_scope.

(** ** [FetchState] *)

Record FetchState := mkFetchState { abort_signals : gmap Z bool; next_abort_id : Z }.

Definition fetch_state_new : FetchState := mkFetchState ∅ 1.
Definition register_abort_signal (s : FetchState) : FetchState * Z :=
  let id := next_abort_id s in (mkFetchState (<[id := false]> (abort_signals s)) (add_u64 id 1), id).
Definition abort (s : FetchState) (id : Z) : FetchState :=
  mkFetchState (alter (λ _, true) id (abort_signals s)) (next_abort_id s).
Definition is_aborted (s : FetchState) (id : Z) : bool := default true (abort_signals s !! id).

(** ** The client *)

Record FetchRequest := mkFetch {
  f_method : string;
  f_url : string;
  f_headers : list (string * string);
  f_body : option string;
}.

Record FetchResponse := mkFetched {
  r_status : Z;
  r_headers : list (string * string);
  r_body : bytes;
  r_url : string;
}.

Class HttpClient := {
  send_request : FetchRequest → result FetchResponse string;
  method_token : string → bool;
  to_uppercase : string → string;
}.

Section fetch.
Context `{Lowercase} `{JsConv} `{UrlCrate} `{JsData} `{HttpClient}.

(** [reject_with_error]: the error is the value that is returned. *)
Definition reject_with_error (h : Heap) (msg : string) : Heap * Val :=
  alloc h (mkObj CObject (TypeError msg) []).

Definition text_properties (h : Heap) (v : Val) : list (string * string) :=
  omap (λ p : string * Val, (λ s, (p.1, s)) <$> to_string h p.2) (own_properties h v).

(** The options of a request.  A property that is not there is undefined, and undefined
    has a text. *)
Definition fetch_method (h : Heap) (args : list Val) : string :=
  match args with
  | _ :: opts :: _ =>
      if is_nullish opts then "GET"
      else default "GET" (to_uppercase <$> to_string h (get h opts "method"))
  | _ => "GET"
  end.

Definition fetch_headers (h : Heap) (args : list Val) : list (string * string) :=
  match args with
  | _ :: opts :: _ => match headers_option h opts with Some hd => text_properties h hd | None => [] end
  | _ => []
  end.

Definition fetch_body (h : Heap) (args : list Val) : option string :=
  match args with
  | _ :: opts :: _ =>
      if is_nullish opts then None
      else let b := get h opts "body" in if is_nullish b then None else to_string h b
  | _ => None
  end.

(** What precedes the first [://]. *)
Definition before_scheme (url : string) : string :=
  match find_sub "://" url with Some i => stake i url | None => url end.

Definition scheme_refused (url : string) : bool :=
  starts_with "file://" url || starts_with "ftp://" url || starts_with "javascript:" url.

Definition status_ok (status : Z) : bool := (200 <=? status) && (status <? 300).

Definition response_object (h : Heap) (mem : list bytes) (r : FetchResponse) : Heap * list bytes * Val :=
  let (h, obj) := new_object h CObject in
  let (h, external) := alloc h (mkObj CObject (External (length mem)) []) in
  let mem := mem ++ [r_body r] in
  let h := set_props h obj
    [("__response_data", external); ("status", VNumber (f64_of_Z (r_status r))); ("ok", VBool (status_ok (r_status r)));
     ("url", str (r_url r)); ("statusText", str (if status_ok (r_status r) then "OK" else "Error"))] in
  let (h, headers) := new_object h CObject in
  let h := foldl (λ h p, set h headers p.1 (str p.2)) h (r_headers r) in
  let h := set h obj "headers" headers in
  let (h, uint8_array) := alloc h (mkObj CObject (Uint8Array (r_body r)) []) in
  let h := set_props h obj
    [("body", uint8_array); ("text", native "response_text_callback"); ("json", native "response_json_callback");
     ("arrayBuffer", native "response_arraybuffer_callback")] in
  (h, mem, obj).

(** [fetch] on a thread that may have a runtime and a fetch state: the heap, the boxes,
    the value returned, and the request that was sent. *)
Definition fetch_callback (runtime state : bool) (h : Heap) (mem : list bytes) (args : list Val)
    : Heap * list bytes * Val * option FetchRequest :=
  let rejected (msg : string) : Heap * list bytes * Val * option FetchRequest := let (h, v) := reject_with_error h msg in (h, mem, v, None) in
  match args with
  | [] => rejected "fetch() requires at least 1 argument"
  | u :: _ =>
      match to_string h u with
      | None => rejected "URL must be a string"
      | Some url =>
          if scheme_refused url then rejected ("URL scheme not allowed: " +:+ before_scheme url)
          else
          let method := fetch_method h args in
          let headers_map := fetch_headers h args in
          let body := fetch_body h args in
          if negb runtime then
            rejected "No Tokio runtime available. fetch() must be called from a worker thread."
          else if negb state then rejected "Fetch state not initialized"
          else
          let request := mkFetch (if method_token method then method else "GET") url headers_map body in
          match send_request request with
          | Ok r => let '(h, mem, v) := response_object h mem r in (h, mem, v, Some request)
          | Err e => let (h, v) := reject_with_error h e in (h, mem, v, Some request)
          end
      end
  end.

(** ** Bodies *)

Inductive ResponseData := NoData | Data (b : bytes) | Wild.

Definition get_response_data (h : Heap) (mem : list bytes) (this : Val) : ResponseData :=
  match get h this "__response_data" with
  | VRef l =>
      match kind <$> h !! l with
      | Some (External a) => match mem !! a with Some b => Data b | None => Wild end
      | _ => NoData
      end
  | _ => NoData
  end.

(** The text of the [body] property, if it has one. *)
Definition body_property (h : Heap) (this : Val) : option string :=
  let b := get h this "body" in if is_nullish b then None else to_string h b.

(** [None] where nothing is defined. *)
Definition response_text_callback (h : Heap) (mem : list bytes) (this : Val) : option Val :=
  match get_response_data h mem this with
  | Wild => None
  | Data b => Some (VString (utf8_lossy b))
  | NoData => Some (VString (default "" (body_property h this)))
  end.

Definition response_json_callback (h : Heap) (mem : list bytes) (this : Val) : option (Heap * Val) :=
  let parse text :=
    match json_parse h text with Some hv => hv | None => reject_with_error h "Invalid JSON" end in
  match get_response_data h mem this with
  | Wild => None
  | Data b => Some (parse (utf8_lossy b))
  | NoData => Some (match body_property h this with Some text => parse text | None => (h, VUndefined) end)
  end.

Definition text_bytes (s : string) : bytes := String.list_byte_of_string s.

Definition response_arraybuffer_callback (h : Heap) (mem : list bytes) (this : Val) : option (Heap * Val) :=
  let buffer b := alloc h (mkObj CObject (ArrayBuffer b) []) in
  match get_response_data h mem this with
  | Wild => None
  | Data b => Some (buffer b)
  | NoData => Some (buffer (default [] (text_bytes <$> body_property h this)))
  end.

(** ** [Request] *)

Definition request_constructor_callback (h : Heap) (instance : Val) (args : list Val) : Heap * Val :=
  let url := match args with [] => "" | _ => text_arg h args 0 end in
  let init := arg args 1 in
  let h1 := set h instance "url" (str url) in
  let method := if is_nullish init then "GET" else default "GET" (to_string h1 (get h1 init "method")) in
  let body_val := if is_nullish init then VUndefined else get h1 init "body" in
  let h := set h1 instance "method" (str method) in
  let given := if is_nullish init then VUndefined else get h init "headers" in
  let (h, headers) := if is_nullish given then new_object h CObject else (h, given) in
  let h := set h instance "headers" headers in
  let h := set h instance "body" (or_null body_val) in
  let h := set h instance "bodyUsed" (VBool false) in
  (h, instance).

Definition decoded_body (h : Heap) (this : Val) : option bytes := body_property h this ≫= base64_decode.

Definition request_text_callback (h : Heap) (this : Val) : Val :=
  VString (default "" (utf8_lossy <$> decoded_body h this)).
Definition request_json_callback (h : Heap) (this : Val) : Heap * Val :=
  match decoded_body h this with
  | Some b => default (h, VNull) (json_parse h (utf8_lossy b))
  | None => (h, VNull)
  end.
Definition request_arraybuffer_callback (h : Heap) (this : Val) : Heap * Val :=
  alloc h (mkObj CObject (ArrayBuffer (default [] (decoded_body h this))) []).

(** ** What the worker reads of the value a handler returns *)

(** [hsrc]: the properties by name, those that are functions left out. *)
Definition view_props (h : Heap) (v : Val) : Props :=
  (λ p : string * Val, (p.1, if is_function p.2 then None else to_string h p.2)) <$> own_properties h v.

Definition view_headers (h : Heap) (hv : Val) : option (option (option Props) * option Props) :=
  if is_nullish hv then None
  else
    let inner := get h hv "__headers__" in
    Some (if is_nullish inner then None else Some (Some (view_props h inner)), Some (view_props h hv)).

Definition view (h : Heap) (v : Val) : JsValue :=
  if is_nullish v then JsNoObject
  else JsObj (mkJsObject (f64_to_i64 <$> to_number h (get h v "status"))
                         (view_headers h (get h v "headers"))
                         (body_property h v)).

(** The response the worker makes of it, and what the router sends of that. *)
Definition worker_response (h : Heap) (v : Val) : option NanoResponse :=
  match view h v with JsObj o => Some (extract_response o) | JsNoObject => None end.

Definition client_response `{HashOrder (list string)} `{HttpTypes} (h : Heap) (v : Val) : option AxumResponse :=
  to_axum_response <$> worker_response h v.

(** ** A response that was constructed *)

Definition copy_step (headers internal : Val) (h : Heap) (p : string * Val) : Heap :=
  match to_string h p.2 with
  | Some s => set (set h headers p.1 (VString s)) internal p.1 (VString s)
  | None => h
  end.

Lemma copies_instance h hd ih l pairs :
  "__headers__" ∉ pairs.*1 → instance_at h "__headers__" hd ih l →
  instance_at (foldl (copy_step (VRef hd) (VRef ih)) h (vals pairs)) "__headers__" hd ih (foldl write l pairs).
Proof.
  revert h l. induction pairs as [|[k v] pairs IH]; intros h l Hk Hi; [done|].
  csimpl in Hk. apply not_elem_of_cons in Hk as [Hk Hks]. csimpl. apply IH; [done|].
  unfold copy_step. cbn [fst snd to_string]. apply instance_set. apply instance_other; [done|]. by intros ->.
Qed.

Lemma copies_far h hd ih props n :
  n ≠ hd → n ≠ ih → foldl (copy_step (VRef hd) (VRef ih)) h props !! n = h !! n.
Proof.
  intros H1' H2'. revert h. induction props as [|[k v] props IH]; intros h; cbn [foldl]; [done|]. rewrite IH.
  unfold copy_step. destruct (to_string _ _); [|done]. by rewrite !lookup_set_ne.
Qed.

Lemma get_grow h x v k : valid h v → get (h ++ x) v k = get h v k.
Proof.
  destruct v as [| | | | | |l|]; try done. simpl. intros Hl. by rewrite lookup_app_l.
Qed.

Lemma own_agree h h' v :
  (∀ l, v = VRef l → h' !! l = h !! l) → own_properties h' v = own_properties h v.
Proof. intros Hl. destruct v as [| | | | | |l|]; try done. simpl. by rewrite Hl. Qed.

Lemma status_option_grow h x opts :
  valid h opts → is_object (get h opts "status") = false → status_option (h ++ x) opts = status_option h opts.
Proof.
  intros Hv Ho. unfold status_option. destruct (is_nullish opts); [done|]. rewrite get_grow by done.
  by destruct (get h opts "status").
Qed.

Lemma headers_option_grow h x opts : valid h opts → headers_option (h ++ x) opts = headers_option h opts.
Proof. intros Hv. unfold headers_option. destruct (is_nullish opts); [done|]. by rewrite get_grow. Qed.

(** The heap of a new response before its last properties are set: the response at the
    end of [h], its headers after it and their store last. *)
Definition headers_ready (h : Heap) (status : Z) : Heap :=
  let n := length h in
  set (set (h ++ [mkObj CResponse Ordinary []]) (VRef n) "status" (VNumber (f64_of_Z status))
       ++ [mkObj CObject Ordinary []] ++ [mkObj CObject Ordinary []]) (VRef (S n)) "__headers__" (VRef (S (S n))).

Definition finished (h : Heap) (n : nat) (b : string) : Heap :=
  set (set (set h (VRef n) "headers" (VRef (S n))) (VRef n) "body" (str b))
    (VRef (S n)) "set" (native "headers_set_callback").

Lemma length_ready h status : length (headers_ready h status) = S (S (S (length h))).
Proof. unfold headers_ready. rewrite length_set, !length_app, length_set, length_app. simpl. lia. Qed.

Lemma ready_old h status l : (l < length h)%nat → headers_ready h status !! l = h !! l.
Proof.
  intros Hl. unfold headers_ready. rewrite lookup_set_ne by lia.
  rewrite lookup_app_l by (rewrite length_set, length_app; simpl; lia).
  rewrite lookup_set_ne by lia. by rewrite lookup_app_l.
Qed.

Lemma ready_response h status :
  headers_ready h status !! length h = Some (mkObj CResponse Ordinary [("status", VNumber (f64_of_Z status))]).
Proof.
  unfold headers_ready. rewrite lookup_set_ne by lia.
  rewrite lookup_app_l by (rewrite length_set, length_app; simpl; lia).
  rewrite (lookup_set_eq _ _ _ _ (mkObj CResponse Ordinary [])); [done| |done].
  by rewrite lookup_app_r, Nat.sub_diag.
Qed.

Lemma ready_headers h status :
  instance_at (headers_ready h status) "__headers__" (S (length h)) (S (S (length h))) [].
Proof.
  set (h0 := set (h ++ [mkObj CResponse Ordinary []]) (VRef (length h)) "status" (VNumber (f64_of_Z status))).
  assert (Hl : length h0 = S (length h)) by (unfold h0; rewrite length_set, length_app; simpl; lia).
  pose proof (new_instance h0 CObject "__headers__" ltac:(done)) as [Hi _]. cbn zeta in Hi.
  rewrite Hl in Hi. unfold headers_ready. fold h0. unfold new_object, alloc in Hi. cbn [fst] in Hi.
  by rewrite <- (assoc_L (++)) in Hi.
Qed.

Lemma response_constructed h b opts :
  valid h opts → is_object (get h opts "status") = false →
  (∀ hd, headers_option h opts = Some hd → valid h hd) →
  construct CResponse response_constructor h [str b; opts] =
    (finished (foldl (copy_step (VRef (S (length h))) (VRef (S (S (length h)))))
                 (headers_ready h (status_option h opts))
                 (default [] (own_properties h <$> headers_option h opts))) (length h) b, VRef (length h)).
Proof.
  intros Hv Hst Hhd. unfold construct, response_constructor, new_object at 1, alloc at 1. cbn [str is_nullish to_string].
  rewrite status_option_grow, headers_option_grow by done.
  set (st := status_option h opts). unfold new_object, alloc. cbn zeta.
  assert (Hl : length (set (h ++ [mkObj CResponse Ordinary []]) (VRef (length h)) "status" (VNumber (f64_of_Z st)))
               = S (length h)) by (rewrite length_set, length_app; simpl; lia).
  rewrite (length_app (set _ _ _ _)), Hl. cbn [length]. rewrite Nat.add_1_r, <- (assoc_L (++)).
  fold (headers_ready h st). unfold finished, default. f_equal. do 3 f_equal.
  destruct (headers_option h opts) as [hd|] eqn:Hh; [|done]. cbn. rewrite (own_agree h); [done|].
  intros l ->. apply ready_old. by apply (Hhd (VRef l)).
Qed.

(** *** The finished response *)

Definition response_at (h : Heap) (n : nat) (status : Z) (b : string) : Prop :=
  h !! n = Some (mkObj CResponse Ordinary
    [("status", VNumber (f64_of_Z status)); ("headers", VRef (S n)); ("body", str b)]).

Lemma finished_response h n st b :
  h !! n = Some (mkObj CResponse Ordinary [("status", VNumber (f64_of_Z st))]) →
  response_at (finished h n b) n st b.
Proof.
  intros Hn. unfold response_at, finished. rewrite lookup_set_ne by lia.
  rewrite (lookup_set_eq _ _ _ _ (mkObj CResponse Ordinary
    [("status", VNumber (f64_of_Z st)); ("headers", VRef (S n))])); [done| |done].
  by rewrite (lookup_set_eq _ _ _ _ _ Hn).
Qed.

Lemma finished_parts h n st b l name s :
  h !! n = Some (mkObj CResponse Ordinary [("status", VNumber (f64_of_Z st))]) →
  n ≠ s → name ≠ "set" → instance_at h name (S n) s l →
  response_at (finished h n b) n st b ∧ instance_at (finished h n b) name (S n) s l.
Proof.
  intros Hn Hs Hname Hi. split; [by apply finished_response|]. unfold finished.
  - apply instance_other; [|done]. by repeat (apply instance_far; [|lia|done]).
Qed.

Lemma get_response h n st b :
  response_at h n st b →
  get h (VRef n) "status" = VNumber (f64_of_Z st) ∧ get h (VRef n) "headers" = VRef (S n) ∧
  get h (VRef n) "body" = str b.
Proof. intros Hr. unfold get. by rewrite Hr. Qed.

Definition texts (l : list (string * string)) : Props := (λ p, (p.1, Some p.2)) <$> l.

Lemma view_props_store h s l : store_at h s l → view_props h (VRef s) = texts (in_order l).
Proof.
  intros Hs. unfold view_props, own_properties. rewrite Hs. cbn [kind own]. rewrite in_order_vals.
  unfold vals, texts. rewrite <- list_fmap_compose. by apply list_fmap_ext.
Qed.

Lemma status_read st : 0 <= st < 65536 → f64_to_i64 (f64_of_Z st) = st.
Proof.
  intros Hst. pose proof (f64_to_usize_of_Z st ltac:(lia)) as Hu. unfold f64_to_i64.
  assert (Hz : Z.min (two63 - 1) (f64_to_usize (f64_of_Z st)) = st) by (rewrite Hu; unfold two63; lia).
  destruct (Z.eq_dec st 0) as [->|Hne]; [done|].
  destruct st as [|p|p]; try lia. destruct (f64_of_pos p ltac:(lia)) as (m & e & Hf & _).
  rewrite Hf in Hz |- *. done.
Qed.

Lemma client_view h n st b inner own :
  response_at h n st b → 0 <= st < 65536 → view_headers h (VRef (S n)) = Some (inner, own) →
  worker_response h (VRef n) = Some (extract_response (mkJsObject (Some st) (Some (inner, own)) (Some b))).
Proof.
  intros Hr Hst Hv. destruct (get_response _ _ _ _ Hr) as (Hs & Hh & Hb).
  unfold worker_response, view, body_property. rewrite Hs, Hh, Hb, Hv.
  cbn [is_nullish str to_string to_number fmap option_fmap option_map]. by rewrite status_read.
Qed.

(** *** Names *)

Lemma written_from ws k v : (k, v) ∈ foldl write [] ws → (k, v) ∈ ws.
Proof.
  rewrite assoc_iff by apply writes_NoDup. rewrite writes_last. destruct (String.eqb _ _); [done|].
  unfold last_value. intros Hl. apply last_Some_elem_of, list_elem_of_omap in Hl as ([k' v'] & Hx & Hv).
  simpl in Hv. destruct (String.eqb_spec k k') as [->|]; [|done]. by injection Hv as ->.
Qed.

(** A name that is spelled in one way only shows its property, unless it is hidden. *)
Lemma shown_name k l :
  NoDup l.*1 → (∀ p, p ∈ l → to_lowercase p.1 = to_lowercase k → p.1 = k) →
  last (omap (shows k) (texts l)) = if hidden_header k then None else assoc k l.
Proof.
  induction l as [|[k' v] l IH]; intros Hd Hk; [by destruct (hidden_header k)|].
  csimpl in Hd. apply NoDup_cons in Hd as [Hn Hd].
  specialize (IH Hd (λ p Hp, Hk p (list_elem_of_further _ _ _ Hp))).
  change (omap (shows k) (texts ((k', v) :: l))) with
    (match shows k (k', Some v) with Some x => x :: omap (shows k) (texts l) | None => omap (shows k) (texts l) end).
  unfold shows at 1. cbn [fst snd assoc].
  destruct (String.eqb_spec k k') as [->|Hne].
  - rewrite String.eqb_refl. destruct (hidden_header k'); [done|].
    rewrite last_cons, IH. by rewrite (proj2 (assoc_None k' l) Hn).
  - destruct (hidden_header k'); [done|].
    destruct (String.eqb_spec (to_lowercase k') (to_lowercase k)) as [He|]; [|done].
    exfalso. apply Hne. symmetry. apply (Hk (k', v)); [by left|done].
Qed.

Lemma status_option_range h opts : 0 <= status_option h opts < 65536.
Proof.
  unfold status_option. destruct (is_nullish opts); [lia|]. destruct (is_nullish _); [lia|].
  destruct (to_number _ _) as [x|]; [|lia]. destruct (_ && _); [|lia]. unfold f64_to_u16.
  assert (0 <= f64_to_usize x); [|lia].
  unfold f64_to_usize. destruct x as [| [|] | |[|] m e]; try (unfold u64_max, two64; lia).
  apply Z.min_glb; [unfold u64_max, two64; lia|]. apply Z.shiftl_nonneg. lia.
Qed.

Lemma assoc_perm {A} k (l l' : list (string * A)) : l ≡ₚ l' → NoDup l.*1 → assoc k l = assoc k l'.
Proof.
  intros Hp Hd. assert (Hd' : NoDup l'.*1) by (by rewrite <- Hp).
  apply option_eq. intros v. by rewrite <- !assoc_iff, Hp.
Qed.

(** What the worker shows of an object that was written to. *)
Lemma written_shown k ws :
  (∀ p, p ∈ ws → to_lowercase p.1 = to_lowercase k → p.1 = k) →
  last (omap (shows k) (texts (in_order (foldl write [] ws)))) =
    if hidden_header k then None else last_value k ws.
Proof.
  intros Hk. rewrite shown_name.
  - destruct (hidden_header k) eqn:Hhid; [done|].
    assert (Hp : k ≠ "__proto__") by (intros ->; by vm_compute in Hhid).
    rewrite (assoc_perm _ _ _ (in_order_perm _)) by (rewrite in_order_perm; apply writes_NoDup).
    rewrite writes_last. by destruct (String.eqb_spec k "__proto__").
  - rewrite in_order_perm. apply writes_NoDup.
  - intros [k' v] Hx. rewrite in_order_perm in Hx. apply Hk. by apply written_from.
Qed.

Lemma last_value_none k ws : k ∉ ws.*1 → last_value k ws = None.
Proof.
  intros Hk. unfold last_value. destruct (last _) as [v|] eqn:Hl; [|done]. exfalso. apply Hk.
  apply last_Some_elem_of, list_elem_of_omap in Hl as ([k' v'] & Hx & Hv). simpl in Hv.
  destruct (String.eqb_spec k k') as [->|]; [|done]. apply list_elem_of_fmap. by exists (k', v').
Qed.

(** *** What is sent *)

Section delivery.
Context `{HashOrder (list string)} `{HttpTypes} `{!HttpLaws, !LowercaseLaw}.

(** What the HTTP server is given of a response with the status, the body and the headers
    [ws] as a program wrote them.  A status outside 100 to 999 gives the empty 200
    response.  Otherwise a name that is spelled in one way has the last value written,
    unless the value is no header value or the name is one of the hidden ones; and every
    header sent is one that was written. *)
Definition delivers (r : AxumResponse) (st : Z) (b : string) (ws : list (string * string)) : Prop :=
  if (100 <=? st) && (st <? 1000) then
    ax_status r = st ∧ ax_body r = b ∧
    (∀ k n, header_name (to_lowercase k) = Some n →
       (∀ p, p ∈ ws → to_lowercase p.1 = to_lowercase k → p.1 = k) →
       axum_values r n =
         match last_value k ws with
         | Some v => if hidden_header k || negb (header_value_ok v) then [] else [v]
         | None => []
         end) ∧
    (∀ n v, (n, v) ∈ ax_headers r → header_value_ok v = true ∧
       ∃ k, (k, v) ∈ ws ∧ hidden_header k = false ∧ header_name (to_lowercase k) = Some n)
  else r = axum_default.

Lemma copy_headers_set props r : set_headers (resp_headers r) →
  set_headers (resp_headers (foldl copy_header r props)) ∧
  (size (headers (resp_headers (foldl copy_header r props))) <= size (headers (resp_headers r)) + length props)%nat.
Proof.
  revert r. induction props as [|[k v] props IH]; intros r Hr; cbn [foldl length]; [split; [done|lia]|].
  unfold copy_header at 2 4. cbn [fst snd].
  destruct (hidden_header k); [destruct (IH r Hr); split; [done|lia]|].
  destruct v as [v|]; [|destruct (IH r Hr); split; [done|lia]].
  destruct (IH (with_header r k v)) as [Hs Hl]; [by apply set_headers_set|]. split; [done|].
  unfold with_header, hset in Hl. cbn [resp_headers headers] in Hl.
  rewrite map_size_insert in Hl. unfold with_header, hset.
  destruct (headers (resp_headers r) !! to_lowercase k); simpl in Hl; lia.
Qed.

Lemma copy_headers_from props r κ vs :
  headers (resp_headers (foldl copy_header r props)) !! κ = Some vs →
  headers (resp_headers r) !! κ = Some vs ∨
  ∃ k v, (k, Some v) ∈ props ∧ hidden_header k = false ∧ κ = to_lowercase k ∧ vs = [v].
Proof.
  revert r. induction props as [|[k v] props IH]; intros r; cbn [foldl]; [by left|].
  intros [Hr|(k' & v' & Hk' & Hh & Hx)]%IH; [|right; exists k', v'; split; [by right|done]].
  unfold copy_header in Hr. cbn [fst snd] in Hr. destruct (hidden_header k) eqn:Hh; [by left|].
  destruct v as [v|]; [|by left]. unfold with_header, hset in Hr. cbn [resp_headers headers] in Hr.
  destruct (decide (to_lowercase k = κ)) as [<-|Hne]; [|rewrite lookup_insert_ne in Hr by done; by left].
  rewrite lookup_insert_eq in Hr. injection Hr as <-. right. exists k, v. split_and!; [by left|done..].
Qed.

Lemma written_length ws l : (length (foldl write l ws) <= length l + length ws)%nat.
Proof.
  revert l. induction ws as [|[k v] ws IH]; intros l; cbn [foldl length]; [lia|].
  specialize (IH (write l (k, v))). unfold write in *. cbn [fst snd] in *. destruct (String.eqb k "__proto__"); [lia|].
  assert (length (assoc_set k v l) <= S (length l))%nat; [|lia].
  pose proof (f_equal length (assoc_set_names k v l)) as Hl. destruct (decide _) in Hl;
    rewrite ?length_app, !length_fmap in Hl; simpl in Hl; lia.
Qed.

(** From the object of a response to what is sent. *)
Lemma response_delivered o st b ws :
  jo_status o = Some st → 0 <= st < 65536 → jo_body o = Some b →
  match jo_headers o with
  | Some (Some p, _) => default [] p
  | Some (None, p) => default [] p
  | None => []
  end = texts (in_order (foldl write [] ws)) → (length ws <= MAX_HEADERS)%nat →
  delivers (to_axum_response (extract_response o)) st b ws.
Proof.
  intros Hst Hrange Hb Hprops Hlen. set (props := texts _) in Hprops.
  pose proof (λ k, extract_response_spec o k) as Hspec. cbn zeta in Hspec. rewrite Hprops in Hspec.
  destruct (Hspec "") as (Hs & _ & Hbody & _). rewrite Hst, Z.mod_small in Hs by done. rewrite Hb in Hbody.
  assert (Hh : headers (resp_headers (extract_response o)) =
               headers (resp_headers (foldl copy_header (with_status 200) props))).
  { assert (Hany : ∀ r r' l, resp_headers r = resp_headers r' →
      resp_headers (foldl copy_header r l) = resp_headers (foldl copy_header r' l)).
    { intros r r' l. revert r r'. induction l as [|[k v] l IH]; intros r r' Hr; [done|]. cbn [foldl]. apply IH.
      unfold copy_header. cbn [fst snd]. destruct (hidden_header k); [done|]. destruct v; [|done].
      unfold with_header. simpl. by rewrite Hr. }
    unfold extract_response. rewrite Hb, Hst. cbn [with_body resp_headers].
    destruct (jo_headers o) as [[[[p|]|] [q|]]|]; cbn [default option.from_option] in Hprops;
      first [rewrite <- Hprops; f_equal; by apply Hany|by rewrite <- Hprops]. }
  destruct (copy_headers_set props (with_status 200) set_headers_new) as [Hset Hsize].
  change (size (headers (resp_headers (with_status 200)))) with 0%nat in Hsize.
  assert (Hset' : set_headers (resp_headers (extract_response o))) by (unfold set_headers; by rewrite Hh).
  assert (Hsize' : (size (headers (resp_headers (extract_response o))) <= MAX_HEADERS)%nat).
  { rewrite Hh. pose proof (written_length ws []) as Hw. simpl in Hw.
    assert (length props = length (foldl write [] ws)) as Hp; [|lia].
    unfold props, texts. by rewrite length_fmap, (Permutation_length (in_order_perm _)). }
  unfold delivers. rewrite (axum_reply _ Hset' Hsize'), Hs. destruct ((100 <=? st) && (st <? 1000)); [|done]. cbn [ax_status ax_body ax_headers].
  rewrite Hbody. split; [done|]. split; [done|]. split.
  - intros k n Hn Hk. unfold axum_values. cbn [ax_headers]. rewrite (sent_values _ k n Hset' Hn).
    destruct (Hspec k) as (_ & _ & _ & ->). unfold props. rewrite written_shown by done.
    destruct (hidden_header k); [by destruct (last_value k ws)|]. destruct (last_value k ws) as [v|]; [|done].
    simpl. by destruct (header_value_ok v).
  - intros n v (Hv & κ & vs & Hκ & Hin & Hn)%sent_only. split; [done|]. rewrite Hh in Hκ.
    apply copy_headers_from in Hκ as [Hκ|(k & v' & Hp & Hhid & -> & ->)]; [by apply (lookup_empty_Some κ vs) in Hκ|].
    apply list_elem_of_singleton in Hin as ->. exists k. split_and!; [|done..].
    unfold props, texts in Hp. apply list_elem_of_fmap in Hp as ([k2 v2] & [= -> ->] & Hp).
    rewrite in_order_perm in Hp. by apply written_from.
Qed.
End delivery.

(** A request that was answered gives the object of its response. *)
Lemma fetched_object runtime state h mem args h1 mem1 v req r :
  fetch_callback runtime state h mem args = (h1, mem1, v, Some req) → send_request req = Ok r →
  ∃ h0, response_object h0 mem r = (h1, mem1, v).
Proof.
  unfold fetch_callback, reject_with_error, alloc. intros Hf Hok. exists h. destruct args as [|u rest]; [done|].
  destruct (to_string h u) as [url|]; [|done]. destruct (scheme_refused url); [done|].
  destruct runtime; [|done]. destruct state; [|done]. cbn [negb] in Hf.
  destruct (send_request _) as [r'|e] eqn:Hs.
  - destruct (response_object h mem r') as [[h2 mem2] v2] eqn:Ho. simplify_eq. rewrite Hs in Hok. by simplify_eq.
  - simplify_eq. congruence.
Qed.

Lemma response_sets h n st b l sets :
  response_at h n st b → instance_at h "__headers__" (S n) (S (S n)) l →
  let h2 := foldl (λ h p, headers_set_callback h (VRef (S n)) [str p.1; str p.2]) h sets in
  response_at h2 n st b ∧ instance_at h2 "__headers__" (S n) (S (S n)) (foldl write l sets).
Proof.
  revert h l. induction sets as [|[k v] sets IH]; intros h l Hr Hi; cbn zeta; [done|]. cbn [foldl]. apply IH.
  - unfold response_at, headers_set_callback. cbn [length Nat.leb]. destruct Hi as (-> & _ & _).
    cbn [is_nullish]. rewrite lookup_set_ne by lia. done.
  - unfold headers_set_callback. cbn [length Nat.leb]. pose proof Hi as (Hg & _). rewrite Hg.
    cbn [is_nullish]. by apply instance_set.
Qed.

(** ** Properties *)

Section answers.
Context `{HashOrder (list string)} `{HttpTypes} `{!HttpLaws, !LowercaseLaw}.

(** C39. From the constructor to the HTTP server: what is sent of a [Response] made with a
    text and an object of headers, on whose [headers] [set] is then called any number of
    times, in all no more headers than a header map holds.  The status is the number asked
    for, saturated to 16 bits and 200 if it is no positive number; one outside 100 to 999
    is not sent, nor anything else of the response: the client gets an empty 200 response.
    Otherwise the status and the text are sent, and under a name that is spelled in one
    way only (names that differ in case are one header) the last value written.  Left out
    are names and values that HTTP does not allow and the names [get], [set], [forEach]
    and those that begin with two underscores.  No header is sent that was not written. *)
Theorem response_reaches_client h b opts hd pairs sets
    (Hopts : valid h opts) (Hstatus : is_object (get h opts "status") = false)
    (Hheaders : headers_option h opts = Some hd) (Hhd : valid h hd)
    (Hpairs : own_properties h hd = vals pairs) (Hnames : "__headers__" ∉ pairs.*1)
    (Hmany : (length (pairs ++ sets) <= MAX_HEADERS)%nat) :
  let '(h1, this) := construct CResponse response_constructor h [str b; opts] in
  let h2 := foldl (λ h p, headers_set_callback h (get h1 this "headers") [str p.1; str p.2]) h1 sets in
  ∃ r, client_response h2 this = Some r ∧ delivers r (status_option h opts) b (pairs ++ sets).
Proof.
  rewrite response_constructed by (done || by rewrite Hheaders; intros ? [= <-]).
  rewrite Hheaders. cbn [fmap option_fmap option_map default option.from_option id]. rewrite Hpairs.
  set (n := length h). set (st := status_option h opts).
  set (h0 := foldl (copy_step (VRef (S n)) (VRef (S (S n)))) (headers_ready h st) (vals pairs)). cbn zeta.
  destruct (finished_parts h0 n st b (foldl write [] pairs) "__headers__" (S (S n))) as [Hr Hi].
  { unfold h0. rewrite copies_far by (unfold n; lia). apply ready_response. }
  { lia. } { done. }
  { apply copies_instance; [done|]. apply ready_headers. }
  destruct (get_response _ _ _ _ Hr) as (_ & -> & _).
  destruct (response_sets (finished h0 n b) n st b (foldl write [] pairs) sets Hr Hi) as [Hr2 Hi2].
  rewrite <- foldl_app in Hi2. destruct Hi2 as (Hg & _ & Hs).
  set (h2 := foldl _ (finished h0 n b) sets) in *.
  assert (Hv : view_headers h2 (VRef (S n)) =
    Some (Some (Some (texts (in_order (foldl write [] (pairs ++ sets))))), Some (view_props h2 (VRef (S n))))).
  { unfold view_headers. rewrite Hg. cbn [is_nullish]. by rewrite (view_props_store _ _ _ Hs). }
  unfold client_response. rewrite (client_view _ n st b _ _ Hr2 (status_option_range _ _) Hv).
  eexists. split; [reflexivity|]. by apply response_delivered; [|apply status_option_range|..].
Qed.
End answers.

(** *** A [Headers] given to a response *)

Definition headers_own (s : nat) : list (string * Val) :=
  [("__headers__", VRef s); ("get", native "headers_get_callback"); ("set", native "headers_set_callback_v2");
   ("forEach", native "headers_foreach_callback")].

Definition headers_object (h : Heap) (i s : nat) (l : list (string * string)) : Prop :=
  h !! i = Some (mkObj CHeaders Ordinary (headers_own s)) ∧ i ≠ s ∧ store_at h s l.

Lemma headers_object_instance h i s l : headers_object h i s l → instance_at h "__headers__" i s l.
Proof. intros (Hi & Hne & Hs). split_and!; [|done|done]. unfold get. by rewrite Hi. Qed.

Lemma headers_object_set h i s l k v :
  headers_object h i s l → headers_object (set h (VRef s) k (VString v)) i s (write l (k, v)).
Proof.
  intros (Hi & Hne & Hs). split_and!; [|done|by apply set_store]. by rewrite lookup_set_ne.
Qed.

Lemma headers_object_sets h i s l sets :
  headers_object h i s l →
  headers_object (foldl (λ h p, headers_set_callback_v2 h (VRef i) [str p.1; str p.2]) h sets) i s
    (foldl write l (lowered sets)).
Proof.
  revert h l. induction sets as [|[k v] sets IH]; intros h l Hi; [done|]. csimpl. apply IH.
  destruct (headers_object_instance _ _ _ _ Hi) as (Hg & _). unfold headers_set_callback_v2.
  cbn [length Nat.leb]. rewrite Hg. cbn [is_nullish]. by apply headers_object_set.
Qed.

Lemma headers_object_texts h i s l pairs own0 :
  h !! i = Some (mkObj CHeaders Ordinary own0) → i ≠ s → store_at h s l →
  let h' := foldl (λ h p, set_text h (VRef s) (to_lowercase p.1) p.2) h (vals pairs) in
  h' !! i = Some (mkObj CHeaders Ordinary own0) ∧ store_at h' s (foldl write l (lowered pairs)).
Proof.
  revert h l. induction pairs as [|[k v] pairs IH]; intros h l Hi Hne Hs; [done|]. cbn. apply IH; [|done|].
  - trans (h !! i); [|done]. exact (lookup_set_ne h s i (to_lowercase k) (VString v) (not_eq_sym Hne)).
  - by apply set_store.
Qed.

Lemma length_texts_copy h v (f : string → string) props :
  length (foldl (λ h p, set_text h v (f p.1) p.2) h props) = length h.
Proof.
  revert h. induction props as [|p props IH]; intros h; cbn [foldl]; [done|]. rewrite IH. unfold set_text.
  destruct (to_string _ _); [by apply length_set|done].
Qed.

Lemma headers_object_constructed h init pairs :
  valid h init → is_nullish init = false → own_properties h init = vals pairs →
  let '(h1, this) := construct CHeaders headers_constructor h [init] in
  this = VRef (length h) ∧ length h1 = S (S (length h)) ∧
  headers_object h1 (length h) (S (length h)) (foldl write [] (lowered pairs)).
Proof.
  intros Hv Hn Ho. pose proof (new_instance h CHeaders "__headers__" ltac:(done)) as [(_ & _ & Hs) Hp].
  cbn zeta in Hs, Hp. specialize (Hp init Hv). unfold construct, headers_constructor, new_object, alloc in *.
  cbn [fst] in *. rewrite (length_app h), Nat.add_1_r, Hn. cbn [length]. rewrite Hp, Ho.
  set (h0 := set ((h ++ [mkObj CHeaders Ordinary []]) ++ [mkObj CObject Ordinary []]) (VRef (length h))
               "__headers__" (VRef (S (length h)))) in *.
  assert (Hi : h0 !! length h = Some (mkObj CHeaders Ordinary [("__headers__", VRef (S (length h)))])).
  { unfold h0. rewrite (lookup_set_eq _ _ _ _ (mkObj CHeaders Ordinary [])); [done| |done].
    rewrite lookup_app_l by (rewrite length_app; simpl; lia). by rewrite lookup_app_r, Nat.sub_diag. }
  destruct (headers_object_texts h0 (length h) (S (length h)) [] pairs _ Hi ltac:(lia) Hs) as [Hi2 Hs2].
  split; [done|]. split.
  - rewrite !length_set, length_texts_copy. unfold h0. rewrite length_set, !length_app. simpl. lia.
  - split_and!; [|lia|].
    + rewrite (lookup_set_eq _ _ _ _ (mkObj CHeaders Ordinary (take 3 (headers_own (S (length h)))))); [done| |done].
      rewrite (lookup_set_eq _ _ _ _ (mkObj CHeaders Ordinary (take 2 (headers_own (S (length h)))))); [done| |done].
      by rewrite (lookup_set_eq _ _ _ _ _ Hi2).
    + unfold store_at. by rewrite !lookup_set_ne by lia.
Qed.

(** The text of an object, and its parts as the engine indexes them. *)
Definition object_text : string := "[object Object]".
Definition object_units : list string :=
  ["["; "o"; "b"; "j"; "e"; "c"; "t"; " "; "O"; "b"; "j"; "e"; "c"; "t"; "]"].

Lemma store_text h s l : store_at h s l → assoc "toString" l = None → to_string h (VRef s) = Some object_text.
Proof.
  intros Hs Ht. unfold to_string. rewrite (get_store _ _ _ _ Hs), Ht, Hs. done.
Qed.

(** Copying a [Headers] into the headers of a response: the property [__headers__], the
    first of it, takes the place of the store. *)
Lemma headers_object_copied h hd ih s l :
  h !! hd = Some (mkObj CObject Ordinary [("__headers__", VRef ih)]) → hd ≠ ih →
  store_at h s l → assoc "toString" l = None →
  let h' := foldl (copy_step (VRef hd) (VRef ih)) h (in_order (headers_own s)) in
  get h' (VRef hd) "__headers__" = VString object_text.
Proof.
  intros Hh Hne Hs Ht. change (in_order (headers_own s)) with (headers_own s).
  unfold headers_own. cbn [foldl]. unfold copy_step at 4. cbn [fst snd]. rewrite (store_text h s l Hs Ht).
  set (h1 := set (set h (VRef hd) "__headers__" (VString object_text)) (VRef ih) "__headers__" (VString object_text)).
  assert (H1' : h1 !! hd = Some (mkObj CObject Ordinary [("__headers__", VString object_text)])).
  { unfold h1. rewrite lookup_set_ne by done. by rewrite (lookup_set_eq _ _ _ _ _ Hh). }
  unfold copy_step, native. cbn [fst snd to_string].
  repeat (rewrite get_set_other by (right; done) || (left; by intros [= ?])).
  unfold get. by rewrite H1'.
Qed.

Definition unit_texts : list (string * string) := imap (λ i c, (pretty i, c)) object_units.

Lemma unit_lower p : p ∈ unit_texts → to_lowercase p.1 = p.1.
Proof.
  intros Hp. assert (Ha : Forall (λ p, is_ascii p.1 = true ∧ ascii_lowercase p.1 = p.1) unit_texts).
  { repeat (constructor; [split; by vm_compute|]). constructor. }
  rewrite Forall_forall in Ha. destruct (Ha p Hp) as [H1' H2']. by rewrite to_lowercase_ascii.
Qed.

Lemma unit_names i : (i < 15)%nat → ∃ c, object_units !! i = Some c ∧ (pretty i, c) ∈ unit_texts ∧ hidden_header (pretty i) = false.
Proof.
  intros Hi. destruct (object_units !! i) as [c|] eqn:Hc; [|apply lookup_ge_None in Hc; simpl in Hc; lia].
  exists c. split_and!; [done| |].
  - unfold unit_texts. apply list_elem_of_lookup. exists i. by rewrite list_lookup_imap, Hc.
  - do 15 (destruct i as [|i]; [by vm_compute|]). lia.
Qed.

Lemma shown_none k l : (∀ p, p ∈ l → to_lowercase p.1 ≠ to_lowercase k) → last (omap (shows k) (texts l)) = None.
Proof.
  induction l as [|[k' v] l IH]; intros Hk; [done|].
  change (omap (shows k) (texts ((k', v) :: l))) with
    (match shows k (k', Some v) with Some x => x :: omap (shows k) (texts l) | None => omap (shows k) (texts l) end).
  unfold shows at 1. cbn [fst snd].
  destruct (String.eqb_spec (to_lowercase k') (to_lowercase k)) as [He|].
  - by destruct (Hk (k', v) (list_elem_of_here _ _)).
  - destruct (hidden_header k'); apply IH; intros p Hp; apply Hk; by right.
Qed.

Lemma unit_NoDup : NoDup unit_texts.*1.
Proof. apply (bool_decide_unpack _). by vm_compute. Qed.

Lemma unit_index p : p ∈ unit_texts → ∃ i, (i < 15)%nat ∧ p.1 = pretty i.
Proof.
  intros Hp. apply list_elem_of_lookup in Hp as [i Hi]. unfold unit_texts in Hi. rewrite list_lookup_imap in Hi.
  destruct (object_units !! i) as [c|] eqn:Hc; [|done]. injection Hi as <-. exists i. split; [|done].
  by apply lookup_lt_Some in Hc.
Qed.

Lemma view_units h : utf16_units object_text = object_units → view_props h (VString object_text) = texts unit_texts.
Proof. intros Hu. unfold view_props, own_properties. rewrite Hu. by vm_compute. Qed.

Lemma ready_headers_own h status :
  headers_ready h status !! S (length h) = Some (mkObj CObject Ordinary [("__headers__", VRef (S (S (length h))))]).
Proof.
  unfold headers_ready. rewrite (lookup_set_eq _ _ _ _ (mkObj CObject Ordinary [])); [done| |done].
  rewrite lookup_app_r by (rewrite length_set, length_app; simpl; lia).
  rewrite length_set, length_app. simpl length. by replace (S (length h) - (length h + 1))%nat with 0%nat by lia.
Qed.

(** A [Headers] given to a response is lost: whatever was written to it, of the
    response made with it the worker sends the status 200 and the body, but none of its
    headers; instead it sends fifteen headers named [0] to [14] whose values are the
    characters of ["[object Object]"]. *)
Theorem headers_instance_garbled h init pairs sets b
    (Hvalid : valid h init) (Hobj : is_nullish init = false) (Hinit : own_properties h init = vals pairs)
    (Hts : last_value "toString" (lowered (pairs ++ sets)) = None)
    (Hunits : utf16_units object_text = object_units) :
  let '(h1, hv) := construct CHeaders headers_constructor h [init] in
  let h2 := foldl (λ h p, headers_set_callback_v2 h hv [str p.1; str p.2]) h1 sets in
  let '(h3, opts) := alloc h2 (mkObj CObject Ordinary [("headers", hv)]) in
  let '(h4, this) := construct CResponse response_constructor h3 [str b; opts] in
  ∃ r, worker_response h4 this = Some r ∧ status r = 200 ∧ body r = Some b ∧
    (∀ i, (i < 15)%nat → hget (resp_headers r) (pretty i) = object_units !! i) ∧
    (∀ k, (∀ i, (i < 15)%nat → to_lowercase k ≠ pretty i) → hget (resp_headers r) k = None).
Proof.
  pose proof (headers_object_constructed h init pairs Hvalid Hobj Hinit) as Hc.
  destruct (construct CHeaders _ _ _) as [h1 hv]. destruct Hc as (-> & Hl1 & Ho).
  apply headers_object_sets with (sets := sets) in Ho. rewrite <- foldl_app in Ho.
  assert (Hl : lowered pairs ++ lowered sets = lowered (pairs ++ sets)) by (unfold lowered; by rewrite fmap_app).
  rewrite Hl in Ho. cbn zeta.
  set (h2 := foldl (λ h0 p, headers_set_callback_v2 h0 (VRef (length h)) [str p.1; str p.2]) h1 sets) in *.
  destruct Ho as (Hi & Hne & Hs). unfold alloc. cbn zeta.
  set (h3 := h2 ++ [mkObj CObject Ordinary [("headers", VRef (length h))]]).
  pose proof (lookup_lt_Some _ _ _ Hi) as Hi2. pose proof (lookup_lt_Some _ _ _ Hs) as Hs2.
  assert (Hi3 : h3 !! length h = Some (mkObj CHeaders Ordinary (headers_own (S (length h)))))
    by (unfold h3; by rewrite lookup_app_l).
  assert (Hs3 : store_at h3 (S (length h)) (foldl write [] (lowered (pairs ++ sets))))
    by (unfold store_at, h3; by rewrite lookup_app_l).
  assert (Hopts : ∀ k, get h3 (VRef (length h2)) k =
    if String.eqb k "headers" then VRef (length h) else inherited CObject k).
  { intros k. unfold get, h3. rewrite lookup_app_r, Nat.sub_diag by done. simpl.
    by destruct (String.eqb k "headers"). }
  assert (Hl3 : length h3 = S (length h2)) by (unfold h3; rewrite length_app; simpl; lia).
  assert (Hho : headers_option h3 (VRef (length h2)) = Some (VRef (length h)))
    by (unfold headers_option; by rewrite Hopts).
  assert (Hst : status_option h3 (VRef (length h2)) = 200) by (unfold status_option; by rewrite Hopts).
  rewrite response_constructed; [|simpl; lia|by rewrite Hopts|rewrite Hho; intros ? [= <-]; simpl; lia].
  rewrite Hho, Hst. cbn [fmap option_fmap option_map default option.from_option id].
  unfold own_properties. rewrite Hi3. cbn [kind own].
  set (base := foldl (copy_step (VRef (S (length h3))) (VRef (S (S (length h3))))) (headers_ready h3 200)
                 (in_order (headers_own (S (length h))))).
  assert (Hg : get base (VRef (S (length h3))) "__headers__" = VString object_text).
  { apply (headers_object_copied _ _ _ _ (foldl write [] (lowered (pairs ++ sets)))); [apply ready_headers_own|lia| |].
    - unfold store_at. rewrite ready_old by lia. exact Hs3.
    - by rewrite writes_last. }
  assert (Hr : response_at (finished base (length h3) b) (length h3) 200 b).
  { apply finished_response. unfold base. rewrite copies_far by lia. apply ready_response. }
  assert (Hgf : get (finished base (length h3) b) (VRef (S (length h3))) "__headers__" = VString object_text).
  { unfold finished. rewrite get_set_other by (by right).
    rewrite !get_set_other by (left; intros [= ?]; lia). exact Hg. }
  eexists. split; [apply (client_view _ _ 200 b); [done|lia|]|].
  { unfold view_headers. rewrite Hgf. cbn [is_nullish]. rewrite (view_units _ Hunits). reflexivity. }
  match goal with |- status (extract_response ?o) = _ ∧ _ => pose proof (extract_response_spec o) as Hx end.
  cbn zeta in Hx. cbn [jo_headers jo_status jo_body default option.from_option id] in Hx.
  split_and!; [by destruct (Hx "")|by destruct (Hx "") as (_ & _ & ? & _)| |].
  - intros i Hi15. destruct (Hx (pretty i)) as (_ & _ & _ & ->).
    destruct (unit_names i Hi15) as (c & -> & Hc & Hhid).
    rewrite shown_name, Hhid; [by apply assoc_iff; [apply unit_NoDup|]|apply unit_NoDup|].
    intros p Hp Heq. rewrite (unit_lower p Hp) in Heq. rewrite Heq. exact (unit_lower _ Hc).
  - intros k Hk. destruct (Hx k) as (_ & _ & _ & ->). apply shown_none. intros p Hp.
    rewrite (unit_lower p Hp). destruct (unit_index p Hp) as (i & Hi15 & ->). intros Heq. by apply (Hk i).
Qed.

(** *** The response of [fetch] *)

Definition fetched_own (n : nat) (r : FetchResponse) : list (string * Val) :=
  [("__response_data", VRef (S n)); ("status", VNumber (f64_of_Z (r_status r))); ("ok", VBool (status_ok (r_status r)));
   ("url", str (r_url r)); ("statusText", str (if status_ok (r_status r) then "OK" else "Error"));
   ("headers", VRef (S (S n))); ("body", VRef (S (S (S n)))); ("text", native "response_text_callback");
   ("json", native "response_json_callback"); ("arrayBuffer", native "response_arraybuffer_callback")].

Definition fetched_first (n : nat) (r : FetchResponse) : list (string * Val) := take 5 (fetched_own n r).
Definition fetched_last (n : nat) (r : FetchResponse) : list (string * Val) := drop 6 (fetched_own n r).

Lemma lookup_last {A} (l : list A) x n : length l = n → (l ++ [x]) !! n = Some x.
Proof. intros <-. by rewrite lookup_app_r, Nat.sub_diag. Qed.

Lemma set_texts_far h l m parts :
  l ≠ m → foldl (λ h p, set h (VRef l) p.1 (str p.2)) h parts !! m = h !! m.
Proof.
  intros Hm. revert h. induction parts as [|p ps IH]; intros h; [done|]. cbn [foldl]. rewrite IH.
  by apply lookup_set_ne.
Qed.

Lemma response_object_parts h mem r :
  let n := length h in
  let '(h1, mem1, v) := response_object h mem r in
  mem1 = mem ++ [r_body r] ∧ v = VRef n ∧
  h1 !! n = Some (mkObj CObject Ordinary (fetched_own n r)) ∧
  h1 !! S n = Some (mkObj CObject (External (length mem)) []) ∧
  store_at h1 (S (S n)) (foldl write [] (r_headers r)) ∧
  h1 !! S (S (S n)) = Some (mkObj CObject (Uint8Array (r_body r)) []).
Proof.
  intros n. unfold response_object, new_object, alloc. cbn zeta. fold n.
  set (h1 := h ++ [mkObj CObject Ordinary []]).
  set (h2 := h1 ++ [mkObj CObject (External (length mem)) []]).
  assert (Hl1 : length h1 = S n) by (unfold h1; rewrite length_app; simpl; lia). rewrite Hl1.
  change [("__response_data", VRef (S n)); _; _; _; _] with (fetched_first n r).
  set (h3 := set_props h2 (VRef n) (fetched_first n r)).
  assert (Hl3 : length h3 = S (S n)).
  { unfold h3, h2. rewrite length_set_props, length_app, Hl1. simpl. lia. }
  rewrite Hl3. set (h4 := foldl (λ h p, set h (VRef (S (S n))) p.1 (str p.2)) (h3 ++ [mkObj CObject Ordinary []]) (r_headers r)).
  set (h5 := set h4 (VRef n) "headers" (VRef (S (S n)))).
  assert (Hl5 : length h5 = S (S (S n))).
  { unfold h5, h4. rewrite length_set, length_texts, length_app, Hl3. simpl. lia. }
  rewrite Hl5. change [("body", VRef (S (S (S n)))); _; _; _] with (fetched_last n r).
  set (h6 := h5 ++ [mkObj CObject (Uint8Array (r_body r)) []]).
  (* the response *)
  assert (H3n : h3 !! n = Some (mkObj CObject Ordinary (fetched_first n r))).
  { unfold h3. rewrite (lookup_set_props_eq h2 n CObject Ordinary []); [done| |done].
    unfold h2, h1. rewrite lookup_app_l by (rewrite length_app; simpl; lia). by apply lookup_last. }
  assert (H4 : ∀ m, m ≠ S (S n) → h4 !! m = (h3 ++ [mkObj CObject Ordinary []]) !! m).
  { intros m Hm. apply set_texts_far. lia. }
  assert (H5n : h5 !! n = Some (mkObj CObject Ordinary (take 6 (fetched_own n r)))).
  { unfold h5. rewrite (lookup_set_eq _ _ _ _ (mkObj CObject Ordinary (fetched_first n r))); [done| |done].
    rewrite H4 by lia. by rewrite lookup_app_l by lia. }
  split; [done|]. split; [done|]. split_and!.
  - rewrite (lookup_set_props_eq h6 n CObject Ordinary (take 6 (fetched_own n r))); [done| |done].
    unfold h6. by rewrite lookup_app_l by lia.
  - rewrite lookup_set_props_ne by lia. unfold h6. rewrite lookup_app_l by lia. unfold h5.
    rewrite lookup_set_ne by lia. rewrite H4 by lia. rewrite lookup_app_l by lia. unfold h3.
    rewrite lookup_set_props_ne by lia. unfold h2. by apply lookup_last.
  - unfold store_at. rewrite lookup_set_props_ne by lia. unfold h6. rewrite lookup_app_l by lia. unfold h5.
    rewrite lookup_set_ne by lia. unfold h4. apply (set_texts _ _ CObject Ordinary []). by apply lookup_last.
  - rewrite lookup_set_props_ne by lia. unfold h6. by apply lookup_last.
Qed.

Section passed_on.
Context `{HashOrder (list string)} `{HttpTypes} `{!HttpLaws, !LowercaseLaw}.

(** C40. A response that [fetch] gave: [text] and [arrayBuffer] answer with its bytes.  But
    a handler that returns it as its own response sends the client something else: the
    body is the decimal numbers of the bytes with commas in between.  The status is sent
    if it is from 100 to 999 (otherwise the client gets an empty 200 response).  Of the
    headers of the response one is sent for each name (spelled in one way), the last; all
    but the last [set-cookie] are lost, and a [content-length] is that of the bytes, not
    of the body sent.  Left out are values HTTP does not allow and the names [get],
    [set], [forEach] and those that begin with two underscores. *)
Theorem fetched_response_exact h mem args h1 mem1 v req r
    (Hfetch : fetch_callback true true h mem args = (h1, mem1, v, Some req))
    (Hok : send_request req = Ok r) (Hstatus : 0 <= r_status r < 65536)
    (Hnames : "__headers__" ∉ (r_headers r).*1) (Hmany : (length (r_headers r) <= MAX_HEADERS)%nat) :
  response_text_callback h1 mem1 v = Some (VString (utf8_lossy (r_body r))) ∧
  response_arraybuffer_callback h1 mem1 v = Some (alloc h1 (mkObj CObject (ArrayBuffer (r_body r)) [])) ∧
  ∃ c, client_response h1 v = Some c ∧ delivers c (r_status r) (bytes_text (r_body r)) (r_headers r).
Proof.
  destruct (fetched_object _ _ _ _ _ _ _ _ _ r Hfetch Hok) as [h0 Hobj].
  pose proof (response_object_parts h0 mem r) as Hp. cbn zeta in Hp. rewrite Hobj in Hp.
  destruct Hp as (-> & -> & Hn & He & Hs & Hb).
  assert (Hget : ∀ k, get h1 (VRef (length h0)) k =
    match assoc k (fetched_own (length h0) r) with Some x => x | None => inherited CObject k end).
  { intros k. unfold get. by rewrite Hn. }
  assert (Hdata : get_response_data h1 (mem ++ [r_body r]) (VRef (length h0)) = Data (r_body r)).
  { unfold get_response_data. rewrite Hget. cbn [assoc fetched_own String.eqb]. simpl. rewrite He. simpl.
    by rewrite lookup_last. }
  assert (Hbody : to_string h1 (VRef (S (S (S (length h0))))) = Some (bytes_text (r_body r))).
  { unfold to_string. rewrite Hb. unfold get. by rewrite Hb. }
  split; [unfold response_text_callback; by rewrite Hdata|].
  split; [unfold response_arraybuffer_callback; by rewrite Hdata|].
  unfold client_response, worker_response, view, body_property. rewrite !Hget.
  change (assoc "status" _) with (Some (VNumber (f64_of_Z (r_status r)))).
  change (assoc "headers" _) with (Some (VRef (S (S (length h0))))).
  change (assoc "body" _) with (Some (VRef (S (S (S (length h0)))))).
  cbn [is_nullish to_number fmap option_fmap option_map]. rewrite Hbody, status_read by done.
  eexists. split; [reflexivity|].
  assert (Hvh : view_headers h1 (VRef (S (S (length h0)))) =
    Some (None, Some (texts (in_order (foldl write [] (r_headers r)))))).
  { unfold view_headers. rewrite (get_store _ _ _ "__headers__" Hs), writes_last. cbn [String.eqb is_nullish].
    rewrite (view_props_store _ _ _ Hs). rewrite last_value_none by done. reflexivity. }
  rewrite Hvh. by apply response_delivered.
Qed.
End passed_on.

Definition sent (f : Heap * list bytes * Val * option FetchRequest) : option FetchRequest := f.2.

(** What [fetch] sends.  A URL that begins with one of three schemes, spelled in lower
    case, is refused with an error as the value; any other is handed to the client as it
    is, whatever address it names.  Options without a method ask for the method whose name
    is the text of undefined; a [Headers] as headers sends its four properties instead of
    what was written to it; and a body of bytes is sent as decimal numbers. *)
Theorem fetch_request_exact h mem url rest :
  let '(h1, mem1, v, sent) := fetch_callback true true h mem (str url :: rest) in
  if scheme_refused url then
    sent = None ∧ mem1 = mem ∧ v = VRef (length h) ∧
    h1 !! length h = Some (mkObj CObject (TypeError ("URL scheme not allowed: " +:+ before_scheme url)) [])
  else ∃ req, sent = Some req ∧ f_url req = url ∧
    (rest = [] → f_headers req = [] ∧ f_body req = None) ∧
    ∀ opts more, rest = opts :: more → is_nullish opts = false →
      (get h opts "method" = VUndefined → method_token (to_uppercase "undefined") = true →
       f_method req = to_uppercase "undefined") ∧
      (∀ i s l, headers_option h opts = Some (VRef i) → headers_object h i s l → assoc "toString" l = None →
       f_headers req = [("__headers__", object_text);
         ("get", function_text (Native "headers_get_callback")); ("set", function_text (Native "headers_set_callback_v2"));
         ("forEach", function_text (Native "headers_foreach_callback"))]) ∧
      (∀ lb c b, get h opts "body" = VRef lb → h !! lb = Some (mkObj c (Uint8Array b) []) → c = CObject →
       f_body req = Some (bytes_text b)).
Proof.
  unfold fetch_callback, reject_with_error, alloc. cbn [to_string str].
  destruct (scheme_refused url); [split_and!; try done; by apply lookup_last|]. cbn [negb].
  set (req := mkFetch _ url _ _).
  assert (Hreq : ∃ h1 mem1 v, (match send_request req with
    | Ok r => let '(h, mem, v) := response_object h mem r in (h, mem, v, Some req)
    | Err e => (h ++ [mkObj CObject (TypeError e) []], mem, VRef (length h), Some req)
    end) = (h1, mem1, v, Some req)).
  { destruct (send_request req) as [r|e]; [|by do 3 eexists]. destruct (response_object h mem r) as [[? ?] ?]. by do 3 eexists. }
  destruct Hreq as (h1 & mem1 & v & ->). exists req. split; [done|]. split; [done|]. split; [by intros ->|].
  intros opts more -> Hn. split_and!.
  - intros Hm Ht. unfold req. cbn [f_method fetch_method]. rewrite Hn, Hm. cbn [to_string fmap option_fmap option_map default option.from_option id]. by rewrite Ht.
  - intros i s l Hh (Hi & _ & Hs) Hts. unfold req. cbn [f_headers fetch_headers]. rewrite Hh.
    unfold text_properties, own_properties. rewrite Hi. cbn [kind own].
    change (in_order (headers_own s)) with (headers_own s). unfold headers_own. cbn [omap list_omap fst snd].
    rewrite (store_text h s l Hs Hts). done.
  - intros lb c b Hb Hlb ->. unfold req. cbn [f_body fetch_body]. rewrite Hn, Hb. cbn [is_nullish].
    unfold to_string. rewrite Hlb. unfold get. by rewrite Hlb.
Qed.

(** A [Request] a program makes keeps its body as it is, but [text] decodes it as
    base64, as if it had come from the server: the text is that of the decoded bytes, and
    empty for a body that is not base64.  Without a method in the options its method is
    ["undefined"]. *)
Theorem request_body_decoded h url opts b
    (Hopts : valid h opts) (Hobj : is_nullish opts = false) (Hbody : get h opts "body" = str b) :
  let '(h1, this) := construct CRequest request_constructor_callback h [str url; opts] in
  get h1 this "url" = str url ∧ get h1 this "body" = str b ∧
  request_text_callback h1 this = VString (default "" (utf8_lossy <$> base64_decode b)) ∧
  (get h opts "method" = VUndefined → get h1 this "method" = str "undefined").
Proof.
  unfold construct, request_constructor_callback, new_object at 1, alloc at 1.
  change (arg [str url; opts] 1) with opts. change (text_arg _ [str url; opts] 0) with url. rewrite Hobj.
  set (n := length h). set (h0 := set (h ++ [mkObj CRequest Ordinary []]) (VRef n) "url" (str url)).
  assert (Hne : opts ≠ VRef n) by (intros ->; simpl in Hopts; lia).
  assert (Hg0 : ∀ k, get h0 opts k = get h opts k).
  { intros k. unfold h0. rewrite get_set_other by (by left). by apply get_grow. }
  rewrite !Hg0. set (m := default "GET" (to_string h0 (get h opts "method"))).
  set (h2 := set h0 (VRef n) "method" (str m)).
  assert (Hn2 : h2 !! n = Some (mkObj CRequest Ordinary [("url", str url); ("method", str m)])).
  { unfold h2, h0. rewrite (lookup_set_eq _ _ _ _ (mkObj CRequest Ordinary [("url", str url)])); [done| |done].
    rewrite (lookup_set_eq _ _ _ _ (mkObj CRequest Ordinary [])); [done| |done]. by apply lookup_last. }
  set (hd := if is_nullish (get h2 opts "headers") then new_object h2 CObject else (h2, get h2 opts "headers")).
  assert (Hn3 : hd.1 !! n = Some (mkObj CRequest Ordinary [("url", str url); ("method", str m)])).
  { unfold hd. destruct (is_nullish (get h2 opts "headers")); [|exact Hn2]. cbn [new_object alloc fst].
    rewrite lookup_app_l; [done|]. by apply lookup_lt_Some in Hn2. }
  destruct hd as [h3 headers]. cbn [fst] in Hn3. rewrite Hbody.
  change (or_null (str b)) with (str b).
  set (h6 := set (set (set h3 (VRef n) "headers" headers) (VRef n) "body" (str b)) (VRef n) "bodyUsed" (VBool false)).
  assert (Hn6 : h6 !! n = Some (mkObj CRequest Ordinary
    [("url", str url); ("method", str m); ("headers", headers); ("body", str b); ("bodyUsed", VBool false)])).
  { unfold h6. rewrite (lookup_set_eq _ _ _ _ (mkObj CRequest Ordinary
      [("url", str url); ("method", str m); ("headers", headers); ("body", str b)])); [done| |done].
    rewrite (lookup_set_eq _ _ _ _ (mkObj CRequest Ordinary
      [("url", str url); ("method", str m); ("headers", headers)])); [done| |done].
    by rewrite (lookup_set_eq _ _ _ _ _ Hn3). }
  assert (Hget : ∀ k x, assoc k [("url", str url); ("method", str m); ("headers", headers); ("body", str b);
    ("bodyUsed", VBool false)] = Some x → get h6 (VRef n) k = x).
  { intros k x Hk. unfold get. rewrite Hn6. cbn [own]. by rewrite Hk. }
  split_and!; [exact (Hget "url" (str url) eq_refl)|exact (Hget "body" (str b) eq_refl)| |].
  - unfold request_text_callback, decoded_body, body_property. by rewrite (Hget "body" (str b) eq_refl).
  - intros Hm. rewrite (Hget "method" (str m) eq_refl). unfold m. by rewrite Hm.
Qed.

(** A [Response] made with a text gives it back: [text] answers with it and
    [arrayBuffer] with its bytes, whatever the boxes of [fetch] hold. *)
Theorem response_text_round_trip h b opts mem
    (Hopts : valid h opts) (Hstatus : is_object (get h opts "status") = false)
    (Hheaders : headers_option h opts = None) :
  let '(h1, this) := construct CResponse response_constructor h [str b; opts] in
  response_text_callback h1 mem this = Some (str b) ∧
  response_arraybuffer_callback h1 mem this = Some (alloc h1 (mkObj CObject (ArrayBuffer (text_bytes b)) [])).
Proof.
  rewrite response_constructed by (done || by rewrite Hheaders). rewrite Hheaders.
  cbn [fmap option_fmap option_map default option.from_option id foldl].
  pose proof (finished_response _ (length h) _ b (ready_response h (status_option h opts))) as Hr.
  destruct (get_response _ _ _ _ Hr) as (_ & _ & Hb).
  assert (Hd : get_response_data (finished (headers_ready h (status_option h opts)) (length h) b) mem (VRef (length h)) = NoData).
  { unfold get_response_data, get. by rewrite Hr. }
  unfold response_text_callback, response_arraybuffer_callback, body_property. by rewrite Hd, Hb.
Qed.
End fetch.

(** ** Witnesses *)

#[local] Existing Instance ascii_Lowercase.

#[local] Existing Instances demo_conv demo_url demo_data demo_http demo_http_laws ascii_lowercase_law.
#[local] Existing Instance plain_order.

Definition demo_answer (url : string) : FetchResponse :=
  mkFetched 200 [("content-length", "2"); ("set-cookie", "a=1"); ("set-cookie", "b=2")] (text_bytes "Hi") url.

(** A server that answers every request with ["Hi"] and two cookies. *)
#[local] Instance demo_client : HttpClient := {|
  send_request := λ q, Ok (demo_answer (f_url q));
  method_token := λ _, true;
  to_uppercase := λ s, if String.eqb s "undefined" then "UNDEFINED" else s |}.

Lemma spelled_once (ws : list (string * string)) k :
  forallb (λ p, negb (String.eqb (to_lowercase p.1) (to_lowercase k)) || String.eqb p.1 k) ws = true →
  ∀ p, p ∈ ws → to_lowercase p.1 = to_lowercase k → p.1 = k.
Proof.
  intros Hall p Hp Hk. rewrite forallb_forall in Hall. apply list_elem_of_In, Hall in Hp.
  rewrite Hk, String.eqb_refl in Hp. by apply String.eqb_eq.
Qed.

Lemma response_reaches_client_witness :
  let '(h1, this) := construct CResponse response_constructor demo_init [str "lost"; VRef 1] in
  ∃ r, client_response h1 this = Some r ∧ ax_status r = 404 ∧ ax_body r = "lost" ∧ axum_values r "x-id" = ["7"].
Proof.
  pose proof (response_reaches_client demo_init "lost" (VRef 1) (VRef 0)
    [("Content-Type", "text/html"); ("X-Id", "7")] []
    ltac:(simpl; lia) eq_refl eq_refl ltac:(simpl; lia) ltac:(vm_compute; reflexivity)
    ltac:(apply (bool_decide_unpack _); vm_compute; exact I)
    ltac:(apply Nat.leb_le; vm_compute; reflexivity)) as H.
  destruct (construct CResponse response_constructor demo_init [str "lost"; VRef 1]) as [h1 this].
  cbn zeta in H. destruct H as (r & Hr & Hs & Hb & Hv & _). exists r. split; [exact Hr|]. split; [exact Hs|].
  split; [exact Hb|]. rewrite (Hv "X-Id" "x-id"); [reflexivity|reflexivity|by apply spelled_once].
Defined.

Lemma headers_instance_garbled_witness :
  let '(h1, hv) := construct CHeaders headers_constructor demo_init [VRef 0] in
  let h2 := headers_set_callback_v2 h1 hv [str "X-Id"; str "8"] in
  let '(h3, opts) := alloc h2 (mkObj CObject Ordinary [("headers", hv)]) in
  let '(h4, this) := construct CResponse response_constructor h3 [str "body"; opts] in
  ∃ r, worker_response h4 this = Some r ∧ status r = 200 ∧ body r = Some "body" ∧
    (∀ i, (i < 15)%nat → hget (resp_headers r) (pretty i) = object_units !! i) ∧
    (∀ k, (∀ i, (i < 15)%nat → to_lowercase k ≠ pretty i) → hget (resp_headers r) k = None).
Proof.
  exact (headers_instance_garbled demo_init (VRef 0) [("Content-Type", "text/html"); ("X-Id", "7")] [("X-Id", "8")] "body"
    ltac:(simpl; lia) eq_refl ltac:(vm_compute; reflexivity) ltac:(vm_compute; reflexivity) ltac:(vm_compute; reflexivity)).
Defined.

Definition demo_fetch : Heap * list bytes * Val * option FetchRequest :=
  fetch_callback true true [] [] [str "http://169.254.169.254/"; VNull].

(** The client of a handler that returns [fetch(url)] gets ["72,105"] for ["Hi"], with the
    length of ["Hi"] and one of the cookies. *)
Lemma fetched_response_exact_witness :
  let '(h1, mem1, v, sent) := demo_fetch in
  response_text_callback h1 mem1 v = Some (str "Hi") ∧
  ∃ c, client_response h1 v = Some c ∧ ax_status c = 200 ∧ ax_body c = "72,105" ∧
    axum_values c "content-length" = ["2"] ∧ axum_values c "set-cookie" = ["b=2"].
Proof.
  pose proof (fetched_response_exact (H3 := demo_client) [] [] [str "http://169.254.169.254/"; VNull] demo_fetch.1.1.1 demo_fetch.1.1.2
    demo_fetch.1.2 (mkFetch "GET" "http://169.254.169.254/" [] None) (demo_answer "http://169.254.169.254/")
    ltac:(vm_compute; reflexivity) ltac:(vm_compute; reflexivity) ltac:(simpl; lia)
    ltac:(apply (bool_decide_unpack _); vm_compute; exact I)
    ltac:(apply Nat.leb_le; vm_compute; reflexivity)) as (Ht & _ & c & Hc & Hs & Hb & Hv & _).
  split; [exact Ht|]. exists c. split; [exact Hc|]. split; [exact Hs|]. split; [exact Hb|]. split.
  - rewrite (Hv "content-length" "content-length"); [reflexivity|reflexivity|by apply spelled_once].
  - rewrite (Hv "set-cookie" "set-cookie"); [reflexivity|reflexivity|by apply spelled_once].
Defined.

Definition demo_post : Heap := [mkObj CObject Ordinary [("body", str "aGk=")]; mkObj CObject Ordinary [("body", str "hello")]].

(** ["hello"] is not base64. *)
Lemma request_body_decoded_witness :
  (let '(h1, this) := construct CRequest request_constructor_callback demo_post [str "/x"; VRef 0] in
   request_text_callback h1 this = str "hi") ∧
  (let '(h1, this) := construct CRequest request_constructor_callback demo_post [str "/x"; VRef 1] in
   request_text_callback h1 this = str "" ∧ get h1 this "method" = str "undefined").
Proof.
  split.
  - exact (proj1 (proj2 (proj2 (request_body_decoded demo_post "/x" (VRef 0) "aGk=" ltac:(simpl; lia) eq_refl eq_refl)))).
  - destruct (request_body_decoded demo_post "/x" (VRef 1) "hello" ltac:(simpl; lia) eq_refl eq_refl) as (_ & _ & Ht & Hm).
    split; [exact Ht|exact (Hm eq_refl)].
Defined.

Lemma response_text_round_trip_witness :
  let '(h1, this) := construct CResponse response_constructor [] [str "text"; VNull] in
  response_text_callback h1 [] this = Some (str "text").
Proof. exact (proj1 (response_text_round_trip [] "text" VNull [] I eq_refl eq_refl)). Defined.

(** Options without a method; a scheme in capitals is not refused. *)
Example fetch_requests :
  (f_method <$> sent (fetch_callback true true demo_init [] [str "http://a/"; VRef 0])) = Some "UNDEFINED" ∧
  (f_url <$> sent (fetch_callback true true demo_init [] [str "FILE:///etc/passwd"])) = Some "FILE:///etc/passwd" ∧
  sent (fetch_callback true true demo_init [] [str "file:///etc/passwd"]) = None ∧
  (let s := fetch_state_new in let (s, id) := register_abort_signal s in
   is_aborted s id = false ∧ is_aborted (abort s id) id = true ∧ is_aborted s 7 = true).
Proof. vm_compute. repeat split; reflexivity. Qed.

(** What a program may make of a query. *)
Example search_params :
  let '(h, this) := construct CSearchParams url_search_params_constructor [] [str "?a=1&b=2&b=3&c+d=%20"] in
  usp_get_callback h this [str "a"] = VNull ∧ usp_get_callback h this [str "?a"] = str "1" ∧
  usp_get_callback h this [str "b"] = str "3" ∧ usp_get_callback h this [str "c+d"] = str "%20" ∧
  usp_has_callback h this [str "toString"] = VBool true ∧ to_string h this = Some "".
Proof. vm_compute. repeat split; reflexivity. Qed.
