(* ===== verification/WebSocket.v ===== *)
(** * WebSockets of a worker thread: [src/runtime/websocket.rs], the thread-locals of
    [src/worker/tenant_pool.rs] and the loop ['ws_messages] of [src/worker/pool.rs] and
    [src/worker/tenant_pool.rs]

    The callbacks of [WebSocketPair] work on thread-locals that outlive the isolate, so the
    model is a thread: its isolate with the heap, the thread-locals, and where the thread
    is.  What the program does is any sequence of calls while one of its functions runs;
    the relay takes messages out of the channel at any time.  [RefCell]s are borrowed while
    listeners are called, and a [Global] of an isolate that is gone cannot be opened: both
    panic, and a panic ends the process.  So does borrowing one mutably while [readyState] is
    written: the property is the program's to redefine, and its setter runs in the middle of
    the write. *)

From stdpp Require Import base list strings.
From Stdlib Require Import ZArith Lia.
From S2P Require Import Prelude RustString RustList RustFloat CryptoApi JsObjects WebApi.

Open Scope Z_scope.

(** ** Messages and channels *)

(** What the code uses of [tungstenite]'s close codes. *)
Class CloseCodes := {
  CloseCode : Type;
  close_code_from : Z → CloseCode;
  close_code_u16 : CloseCode → Z;
  close_code_error : CloseCode;
  close_code_round_trip c : 0 <= c < 65536 → close_code_u16 (close_code_from c) = c;
  close_code_error_u16 : close_code_u16 close_code_error = 1011;
}.

(** A [sync_channel] as its sender and its receiver share it. *)
Record SyncChannel (A : Type) := mkChannel { queued : list A; receiver : bool }.
Arguments mkChannel {A} _ _.
Arguments queued {A} _.
Arguments receiver {A} _.

Definition CHANNEL_SLOTS : nat := 128.

Inductive SendResult := Sent | Full | Disconnected.

Definition try_send {A} (c : SyncChannel A) (m : A) : SyncChannel A * SendResult :=
  if receiver c then
    if (length (queued c) <? CHANNEL_SLOTS)%nat then (mkChannel (queued c ++ [m]) true, Sent) else (c, Full)
  else (c, Disconnected).

Section websocket.
Context `{JsConv} `{CloseCodes}.

Record CloseFrame := mkCloseFrame { code : CloseCode; reason : string }.

Inductive Message :=
| Text (s : string)
| Binary (b : bytes)
| Ping (b : bytes)
| Pong (b : bytes)
| Close (frame : option CloseFrame)
| RawFrame.

(** ** The thread *)

(** [WS_SERVER_SOCKET] remembers the isolate its object lives in. *)
Record WsLocals := mkLocals {
  WS_OUTBOUND : option (SyncChannel Message);
  WS_ACCEPTED : bool;
  WS_MESSAGE_HANDLERS : list Fn;
  WS_CLOSE_HANDLERS : list Fn;
  WS_ERROR_HANDLERS : list Fn;
  WS_SERVER_SOCKET : option (nat * Val);
}.

Inductive Listener := OnMessage | OnClose | OnError.
#[export] Instance Listener_eq_dec : EqDecision Listener.
Proof. solve_decision. Defined.

(** What follows when the listeners have been called: the next message, the end of the
    connection, or the close event of an abnormal closure and then the end. *)
Inductive After := NextMessage | EndConnection | ThenClose.

(** [Idle]: between WebSocket tasks, where HTTP requests run; [Setup]: the handler of the
    connection runs; [Receiving]: at the top of ['ws_messages]; [Running]: the first of
    the listeners left is being called. *)
(** What is left to do once [readyState] is written: nothing more ([accept]), the frame of
    [close], the loop after the handler, or the events of a close frame and of a hangup. *)
Inductive Pending :=
| AfterAccept
| AfterClose (m : Message)
| AfterHandler
| AfterFrame (code : Z) (reason : string)
| AfterHangup (next : After).

(** [Writing]: a setter of the program for [readyState] runs, called from where [inner]
    tells, while [WS_SERVER_SOCKET] is borrowed. *)
Inductive Phase :=
| Idle
| Setup
| Receiving
| Running (t : Listener) (event : Val) (waiting : list Fn) (next : After)
| Writing (rest : Pending) (inner : Phase).

(** Where the thread is but for setters, and whether one runs. *)
Fixpoint place (p : Phase) : Phase := match p with Writing _ inner => place inner | _ => p end.
Definition is_writing (p : Phase) : bool := match p with Writing _ _ => true | _ => false end.

(** What the program has made of the property [readyState] of an object: the data property
    that it was made with, one that cannot be written, or an accessor. *)
Inductive StateProperty := Data | ReadOnly | Accessor.

(** [state_of] tells that of the object at a location; [pairs] counts the pairs made in the isolate; [calls] and [outgoing] log the
    listeners called and what was put into the channel of the connection. *)
Record Thread := mkThread {
  isolate : nat;
  heap : Heap;
  state_of : nat → StateProperty;
  pairs : nat;
  locals : WsLocals;
  phase : Phase;
  calls : list (Fn * Val);
  outgoing : list Message;
}.

Definition with_heap (th : Thread) (h : Heap) : Thread :=
  mkThread (isolate th) h (state_of th) (pairs th) (locals th) (phase th) (calls th) (outgoing th).
Definition with_locals (th : Thread) (l : WsLocals) : Thread :=
  mkThread (isolate th) (heap th) (state_of th) (pairs th) l (phase th) (calls th) (outgoing th).
Definition with_phase (th : Thread) (p : Phase) : Thread :=
  mkThread (isolate th) (heap th) (state_of th) (pairs th) (locals th) p (calls th) (outgoing th).
Definition with_state (th : Thread) (f : nat → StateProperty) : Thread :=
  mkThread (isolate th) (heap th) f (pairs th) (locals th) (phase th) (calls th) (outgoing th).
Definition log_call (th : Thread) (f : Fn) (event : Val) : Thread :=
  mkThread (isolate th) (heap th) (state_of th) (pairs th) (locals th) (phase th) (calls th ++ [(f, event)]) (outgoing th).

Definition with_outbound (l : WsLocals) (c : option (SyncChannel Message)) : WsLocals :=
  mkLocals c (WS_ACCEPTED l) (WS_MESSAGE_HANDLERS l) (WS_CLOSE_HANDLERS l) (WS_ERROR_HANDLERS l) (WS_SERVER_SOCKET l).
Definition with_accepted (l : WsLocals) (b : bool) : WsLocals :=
  mkLocals (WS_OUTBOUND l) b (WS_MESSAGE_HANDLERS l) (WS_CLOSE_HANDLERS l) (WS_ERROR_HANDLERS l) (WS_SERVER_SOCKET l).
Definition with_socket (l : WsLocals) (s : nat * Val) : WsLocals :=
  mkLocals (WS_OUTBOUND l) (WS_ACCEPTED l) (WS_MESSAGE_HANDLERS l) (WS_CLOSE_HANDLERS l) (WS_ERROR_HANDLERS l) (Some s).

Definition handlers (t : Listener) (l : WsLocals) : list Fn :=
  match t with
  | OnMessage => WS_MESSAGE_HANDLERS l
  | OnClose => WS_CLOSE_HANDLERS l
  | OnError => WS_ERROR_HANDLERS l
  end.

Definition add_handler (t : Listener) (f : Fn) (l : WsLocals) : WsLocals :=
  let more u := if decide (t = u) then handlers u l ++ [f] else handlers u l in
  mkLocals (WS_OUTBOUND l) (WS_ACCEPTED l) (more OnMessage) (more OnClose) (more OnError) (WS_SERVER_SOCKET l).

Definition no_locals : WsLocals := mkLocals None false [] [] [] None.

(** [clear_ws_thread_locals] *)
Definition clear_ws_thread_locals (th : Thread) : Thread := with_locals th no_locals.

(** ** Events and their listeners *)

(** [sender.try_send], whose failure is ignored. *)
Definition push_outbound (th : Thread) (m : Message) : Thread :=
  match WS_OUTBOUND (locals th) with
  | Some c =>
      let (c, r) := try_send c m in
      mkThread (isolate th) (heap th) (state_of th) (pairs th) (with_outbound (locals th) (Some c)) (phase th) (calls th)
               (match r with Sent => outgoing th ++ [m] | _ => outgoing th end)
  | None => th
  end.

Definition make_event (h : Heap) (props : list (string * Val)) : Heap * Val :=
  let (h, event) := new_object h CObject in (set_props h event props, event).

Definition message_event (h : Heap) (data : Val) : Heap * Val :=
  make_event h [("type", str "message"); ("data", data)].

Definition close_event (h : Heap) (code : Z) (reason : string) (was_clean : bool) : Heap * Val :=
  make_event h [("type", str "close"); ("code", VNumber (f64_of_Z code)); ("reason", str reason);
                ("wasClean", VBool was_clean)].

Definition error_event (h : Heap) : Heap * Val := make_event h [("type", str "error")].

(** After the loop: the thread-locals are cleared and a fresh isolate is made. *)
Definition end_connection (th : Thread) : Thread :=
  let th := clear_ws_thread_locals th in
  mkThread (S (isolate th)) [] (λ _, Data) 0 (locals th) Idle (calls th) (outgoing th).

(** Calling the listeners left, or going on when there are none. *)
Definition call_next (th : Thread) (t : Listener) (event : Val) (waiting : list Fn) (next : After)
    (finish : Thread → Thread) : Thread :=
  match waiting with
  | f :: _ => log_call (with_phase th (Running t event waiting next)) f event
  | [] => finish th
  end.

Definition after_listeners (th : Thread) (next : After) : Thread :=
  match next with
  | NextMessage => with_phase th Receiving
  | EndConnection => end_connection th
  | ThenClose =>
      let (h, event) := close_event (heap th) 1006 "" false in
      let th := with_heap th h in
      call_next th OnClose event (handlers OnClose (locals th)) EndConnection end_connection
  end.

Definition listeners (th : Thread) (t : Listener) (event : Val) (waiting : list Fn) (next : After) : Thread :=
  call_next th t event waiting next (λ th, after_listeners th next).

Definition ws_dispatch (th : Thread) (t : Listener) (event : Val) (next : After) : Thread :=
  listeners th t event (handlers t (locals th)) next.

(** ** Writing [readyState] *)

(** What follows the write. *)
Definition resume (th : Thread) (rest : Pending) : Thread :=
  match rest with
  | AfterAccept => th
  | AfterClose m => push_outbound th m
  | AfterHandler => with_phase th Receiving
  | AfterFrame code reason =>
      let (h, event) := close_event (heap th) code reason true in
      ws_dispatch (with_heap th h) OnClose event EndConnection
  | AfterHangup next =>
      let (h, event) := error_event (heap th) in
      ws_dispatch (with_heap th h) OnError event next
  end.

Definition state_property (th : Thread) (obj : Val) : StateProperty :=
  match obj with VRef l => state_of th l | _ => Data end.

(** [cell.borrow()] lasts until [obj.set] has returned: the setter of an accessor runs
    before [rest]. *)
Definition set_ws_readystate (th : Thread) (state : Z) (rest : Pending) : outcome Thread :=
  match WS_SERVER_SOCKET (locals th) with
  | Some (i, obj) =>
      if Nat.eqb i (isolate th)
      then Done match state_property th obj with
                | Data => resume (with_heap th (set (heap th) obj "readyState" (VNumber (f64_of_Z state)))) rest
                | ReadOnly => resume th rest
                | Accessor => with_phase th (Writing rest (phase th))
                end
      else Panicked "attempt to access Handle hosted by another Isolate"
  | None => Done (resume th rest)
  end.

(** ** The callbacks *)

Definition ws_binary_type_getter_callback : Val := str "arraybuffer".
Definition ws_binary_type_setter_callback : string := "binaryType is read-only: only arraybuffer supported".

(** [binaryType] is an accessor with the two callbacks above. *)
Definition ws_attach_to_object (h : Heap) (obj : Val) : Heap :=
  set_props h obj
    [("accept", native "ws_accept_callback"); ("send", native "ws_send_callback");
     ("close", native "ws_close_callback"); ("addEventListener", native "ws_add_event_listener_callback");
     ("readyState", VNumber (f64_of_Z 0)); ("binaryType", ws_binary_type_getter_callback)].

(** [borrow_mut] of [WS_SERVER_SOCKET]. *)
Definition websocket_pair_constructor (th : Thread) : outcome (Thread * Val) :=
  assert! negb (is_writing (phase th)) or "already borrowed: BorrowMutError" in
  let (h, client_socket) := new_object (heap th) CObject in
  let h := ws_attach_to_object h client_socket in
  let (h, server_socket) := new_object h CObject in
  let h := ws_attach_to_object h server_socket in
  let (h, pair) := new_object h CObject in
  let h := set_props h pair [("0", client_socket); ("1", server_socket)] in
  Done (mkThread (isolate th) h (state_of th) (S (pairs th)) (with_socket (locals th) (isolate th, server_socket))
                 (phase th) (calls th) (outgoing th), pair).

Definition websocket_client_constructor (h : Heap) (args : list Val) : Heap * Val :=
  let (h, obj) := new_object h CObject in
  let url := match args with v :: _ => v | [] => str "" end in
  (set_props h obj
     [("url", url); ("readyState", VNumber (f64_of_Z 3)); ("binaryType", str "arraybuffer");
      ("send", native "ws_client_noop"); ("close", native "ws_client_noop");
      ("addEventListener", native "ws_client_noop"); ("removeEventListener", native "ws_client_noop")], obj).

Definition ws_client_noop (th : Thread) : Thread := th.

Definition ws_accept_callback (th : Thread) : outcome Thread :=
  set_ws_readystate (with_locals th (with_accepted (locals th) true)) 1 AfterAccept.

(** The message made of an argument: texts and buffers only. *)
Definition outgoing_message (h : Heap) (v : Val) : option Message :=
  match v with
  | VString s => Some (Text s)
  | VRef l =>
      match kind <$> h !! l with
      | Some (ArrayBuffer b) | Some (Uint8Array b) => Some (Binary b)
      | _ => None
      end
  | _ => None
  end.

(** The thread and what is thrown. *)
Definition ws_send_callback (th : Thread) (args : list Val) : Thread * option string :=
  if negb (WS_ACCEPTED (locals th)) then (th, Some "WebSocket is not accepted")
  else
    match args with
    | [] => (th, None)
    | v :: _ =>
        match outgoing_message (heap th) v with
        | Some m => (push_outbound th m, None)
        | None => (th, None)
        end
    end.

Definition close_message (h : Heap) (args : list Val) : Message :=
  let code :=
    match args with v :: _ => from_option f64_to_u16 1000 (to_number h v) | [] => 1000 end in
  let reason := match args with _ :: v :: _ => default "" (to_string h v) | _ => "" end in
  Close (Some (mkCloseFrame (close_code_from code) reason)).

Definition ws_close_callback (th : Thread) (args : list Val) : outcome Thread :=
  if negb (WS_ACCEPTED (locals th)) then Done th
  else set_ws_readystate th 2 (AfterClose (close_message (heap th) args)).

Definition event_type (s : string) : option Listener :=
  if String.eqb s "message" then Some OnMessage
  else if String.eqb s "close" then Some OnClose
  else if String.eqb s "error" then Some OnError else None.

(** The list and the function of a call of [addEventListener] that registers one. *)
Definition registers (h : Heap) (args : list Val) : option (Listener * Fn) :=
  match args with
  | ty :: VFun f :: _ => s ← to_string h ty; t ← event_type s; Some (t, f)
  | _ => None
  end.

(** The list that is borrowed while its listeners are called. *)
Definition borrowed (th : Thread) : option Listener :=
  match place (phase th) with Running t _ _ _ => Some t | _ => None end.

Definition ws_add_event_listener_callback (th : Thread) (args : list Val) : outcome Thread :=
  match registers (heap th) args with
  | Some (t, f) =>
      assert! negb (bool_decide (borrowed th = Some t)) or "already borrowed: BorrowMutError" in
      Done (with_locals th (add_handler t f (locals th)))
  | None => Done th
  end.

(** ** The loop ['ws_messages] *)

(** The worker pool of the server, and the tenant pool. *)
Inductive Pool := ServerPool | TenantPool.

(** What [recv_timeout] gives. *)
Inductive Incoming := Got (m : Message) | TimedOut | Hangup.

(** The blocking [send] of the close frame, possible if there is room or no receiver. *)
Definition oom_close (th : Thread) : option Thread :=
  match WS_OUTBOUND (locals th) with
  | Some c =>
      let (_, r) := try_send c (Close (Some (mkCloseFrame close_code_error "OOM"))) in
      match r with
      | Full => None
      | _ => Some (end_connection (push_outbound th (Close (Some (mkCloseFrame close_code_error "OOM")))))
      end
  | None => Some (end_connection th)
  end.

Definition deliver (th : Thread) (h : Heap) (data : Val) : Thread :=
  let (h, event) := message_event h data in
  ws_dispatch (with_heap th h) OnMessage event NextMessage.

Definition handle_message (oom : bool) (th : Thread) (m : Message) : option (outcome Thread) :=
  match m with
  | Text s => if oom then Done <$> oom_close th else Some (Done (deliver th (heap th) (str s)))
  | Binary b =>
      if oom then Done <$> oom_close th
      else
        let (h, ab) := alloc (heap th) (mkObj CObject (ArrayBuffer b) []) in
        Some (Done (deliver th h ab))
  | Close frame =>
      let (code, reason) :=
        match frame with Some f => (close_code_u16 (code f), reason f) | None => (1000, "") end in
      Some (set_ws_readystate th 3 (AfterFrame code reason))
  | Ping _ | Pong _ | RawFrame => Some (Done th)
  end.

Definition handle_hangup (pool : Pool) (th : Thread) : outcome Thread :=
  set_ws_readystate th 3 (AfterHangup match pool with ServerPool => EndConnection | TenantPool => ThenClose end).

Definition ws_messages (pool : Pool) (oom : bool) (th : Thread) (i : Incoming) : option (outcome Thread) :=
  match i with
  | Got m => handle_message oom th m
  | TimedOut => Some (Done (end_connection th))
  | Hangup => Some (handle_hangup pool th)
  end.

(** Before the handler of the connection is called. *)
Definition start_connection (th : Thread) : Thread :=
  mkThread (isolate th) (heap th) (state_of th) (pairs th)
           (mkLocals (Some (mkChannel [] true)) false [] [] [] (WS_SERVER_SOCKET (locals th)))
           Setup (calls th) [].

(** ** Steps of a thread *)

(** What the program does: the methods are those of a socket of its own isolate;
    [OwnCode] is whatever it does to its objects without them, [DefineState] what it makes
    of the property [readyState] of one. *)
Inductive Call :=
| NewPair
| NewClient (args : list Val)
| Accept
| Send (args : list Val)
| CloseSocket (args : list Val)
| AddEventListener (args : list Val)
| OwnCode (h : Heap)
| DefineState (l : nat) (p : StateProperty).

Definition has_socket (th : Thread) : bool := (0 <? pairs th)%nat.

Definition js_call (th : Thread) (c : Call) : option (outcome Thread) :=
  match c with
  | NewPair => Some (let! r := websocket_pair_constructor th in Done r.1)
  | NewClient args => Some (Done (with_heap th (fst (websocket_client_constructor (heap th) args))))
  | Accept => if has_socket th then Some (ws_accept_callback th) else None
  | Send args => if has_socket th then Some (Done (fst (ws_send_callback th args))) else None
  | CloseSocket args => if has_socket th then Some (ws_close_callback th args) else None
  | AddEventListener args => if has_socket th then Some (ws_add_event_listener_callback th args) else None
  | OwnCode h => if (length (heap th) <=? length h)%nat then Some (Done (with_heap th h)) else None
  | DefineState l p =>
      if (l <? length (heap th))%nat
      then Some (Done (with_state th (λ k, if Nat.eqb k l then p else state_of th k))) else None
  end.

(** [Drained] and [ReceiverDropped] are what the relay does to the channel meanwhile. *)
Inductive Event :=
| Connected
| LoadFailed
| JsCall (c : Call)
| Returned
| SetterReturned
| Next (oom : bool) (i : Incoming)
| Recycled
| Drained
| ReceiverDropped.

Definition on_channel (th : Thread) (f : SyncChannel Message → SyncChannel Message) : option (outcome Thread) :=
  match WS_OUTBOUND (locals th) with
  | Some c => Some (Done (with_locals th (with_outbound (locals th) (Some (f c)))))
  | None => None
  end.

Definition step (pool : Pool) (th : Thread) (e : Event) : option (outcome Thread) :=
  match e, phase th with
  | Connected, Idle => Some (Done (start_connection th))
  | LoadFailed, Setup => match pool with TenantPool => Some (Done (end_connection th)) | ServerPool => None end
  | Returned, Setup => Some (set_ws_readystate th 1 AfterHandler)
  | Returned, Running t event waiting next => Some (Done (listeners th t event (tail waiting) next))
  | SetterReturned, Writing rest inner => Some (Done (resume (with_phase th inner) rest))
  | Next oom i, Receiving => ws_messages pool oom th i
  | Recycled, Idle => Some (Done (mkThread (S (isolate th)) [] (λ _, Data) 0 (locals th) Idle (calls th) (outgoing th)))
  | JsCall _, Receiving => None
  | JsCall c, _ => js_call th c
  | Drained, _ => on_channel th (λ c, mkChannel (tail (queued c)) (receiver c))
  | ReceiverDropped, _ => on_channel th (λ c, mkChannel [] false)
  | _, _ => None
  end.

Fixpoint steps (pool : Pool) (th : Thread) (es : list Event) : option (outcome Thread) :=
  match es with
  | [] => Some (Done th)
  | e :: es =>
      match step pool th e with
      | Some (Done th) => steps pool th es
      | r => r
      end
  end.

Definition fresh : Thread := mkThread 0 [] (λ _, Data) 0 no_locals Idle [] [].

Definition reachable (pool : Pool) (th : Thread) : Prop := ∃ es, steps pool fresh es = Some (Done th).

(** ** The invariant of a thread *)

(** The socket to update is one of this isolate once the program has made a pair; before
    that it can be one of an isolate that is gone, until the set-up of a connection. *)
Definition socket_ok (th : Thread) : Prop :=
  match WS_SERVER_SOCKET (locals th) with
  | Some (i, obj) =>
      if has_socket th then i = isolate th ∧ ∃ l, obj = VRef l ∧ (l < length (heap th))%nat
      else (i < isolate th)%nat ∧ (place (phase th) = Idle ∨ place (phase th) = Setup)
  | None => has_socket th = false
  end.

(** Which writes are made where. *)
Definition fits (rest : Pending) (inner : Phase) : Prop :=
  match rest with
  | AfterAccept | AfterClose _ => inner ≠ Receiving
  | AfterHandler => inner = Setup
  | AfterFrame _ _ | AfterHangup _ => inner = Receiving
  end.

Fixpoint phase_ok (p : Phase) : Prop :=
  match p with
  | Running _ _ waiting _ => waiting ≠ []
  | Writing rest inner => fits rest inner ∧ phase_ok inner
  | _ => True
  end.

Record ok (th : Thread) : Prop := {
  ok_idle : place (phase th) = Idle ↔ WS_OUTBOUND (locals th) = None;
  ok_socket : socket_ok th;
  ok_handlers t : has_socket th = false → place (phase th) ≠ Idle → handlers t (locals th) = [];
  ok_place : phase_ok (phase th);
  ok_writing : is_writing (phase th) = true → has_socket th = true;
}.

Lemma ok_fresh : ok fresh.
Proof. by split; simpl; try intros []. Qed.

(** The socket to update is of this isolate, or there is none. *)
Definition current (th : Thread) : Prop := has_socket th = true ∨ WS_SERVER_SOCKET (locals th) = None.

Lemma length_make_event h props : length (fst (make_event h props)) = S (length h).
Proof. unfold make_event, new_object, alloc. cbn [fst snd]. rewrite length_set_props, length_app. simpl. lia. Qed.

#[local] Ltac made_event :=
  unfold close_event, error_event, message_event;
  match goal with
  | |- context [make_event ?h ?props] =>
      let L := fresh "Hlen" in
      pose proof (length_make_event h props) as L; let h1 := fresh "hev" in let e1 := fresh "ev" in destruct (make_event h props) as [h1 e1]; cbn [fst] in L
  end.

Lemma ok_with_heap th h : (length (heap th) ≤ length h)%nat → ok th → ok (with_heap th h).
Proof.
  intros Hl [H1 H2 H3 H4 H5]. split; [done| |done..]. unfold socket_ok in *. simpl.
  destruct (WS_SERVER_SOCKET _) as [[i obj]|]; [|done]. change (has_socket (with_heap th h)) with (has_socket th).
  destruct (has_socket th); [|done]. destruct H2 as (-> & l & -> & Hlt). split; [done|]. exists l. split; [done|]. lia.
Qed.

Lemma has_socket_heap th h : has_socket (with_heap th h) = has_socket th.
Proof. done. Qed.

(** Where the loop is, the socket is of this isolate or there is none. *)
Lemma socket_current th : ok th → place (phase th) ≠ Idle → place (phase th) ≠ Setup → current th.
Proof.
  intros Hok Hi Hs. pose proof (ok_socket th Hok) as Hso. unfold socket_ok in Hso. unfold current.
  destruct (WS_SERVER_SOCKET _) as [[i obj]|]; [|by right]. destruct (has_socket th); [by left|]. by destruct Hso as (_ & [?|?]).
Qed.

Lemma ok_end th : ok (end_connection th).
Proof. by split; simpl; try intros []. Qed.

Lemma ok_phase th p : (place p = Idle ↔ place (phase th) = Idle) → phase_ok p → (is_writing p = true → has_socket th = true) →
  current th → ok th → ok (with_phase th p).
Proof.
  intros Hp Hpo Hw Hs [H1 H2 H3 H4 H5]. split; simpl; [by rewrite Hp| | |done|done].
  2: { intros t Hn Hi. apply H3; [done|]. by rewrite <- Hp. }
  unfold socket_ok in *. simpl. change (has_socket (with_phase th p)) with (has_socket th).
  destruct (WS_SERVER_SOCKET _) as [[i obj]|] eqn:E; [|done]. destruct Hs as [Hs|Hs]; [|congruence]. by destruct (has_socket th).
Qed.

Lemma ok_log th f event : ok th → ok (log_call th f event).
Proof. by intros [H1 H2 H3 H4 H5]. Qed.

Lemma ok_call_next th t event waiting next finish : ok th → place (phase th) ≠ Idle → current th →
  ok (finish th) → ok (call_next th t event waiting next finish).
Proof. intros Hok Hi Hs Hf. destruct waiting as [|f rest]; [done|]. by apply ok_log, ok_phase. Qed.

Lemma ok_after th next : ok th → place (phase th) ≠ Idle → current th → ok (after_listeners th next).
Proof.
  intros Hok Hi Hs. destruct next; cbn [after_listeners]; [by apply ok_phase|apply ok_end|].
  made_event.
  apply ok_call_next; [apply ok_with_heap; [lia|done]|done|done|apply ok_end].
Qed.

Lemma ok_listeners th t event waiting next : ok th → place (phase th) ≠ Idle → current th →
  ok (listeners th t event waiting next).
Proof. intros. apply ok_call_next; try done. by apply ok_after. Qed.

Lemma ok_dispatch th h t event next : ok th → place (phase th) ≠ Idle → current th → (length (heap th) ≤ length h)%nat →
  ok (ws_dispatch (with_heap th h) t event next).
Proof. intros. apply ok_listeners; try done. by apply ok_with_heap. Qed.

Lemma ok_push th m : ok th → ok (push_outbound th m).
Proof.
  intros Hok. unfold push_outbound. destruct (WS_OUTBOUND _) as [c|] eqn:E; [|done].
  destruct Hok as [H1 H2 H3 H4 H5]. destruct (try_send c m) as [c' r].
  split; simpl; [by rewrite H1, E|exact H2|intros []; [apply (H3 OnMessage)|apply (H3 OnClose)|apply (H3 OnError)]|exact H4|exact H5].
Qed.

(** Locals that keep the socket, and the channel as far as it is there. *)
Lemma ok_with_locals th l : WS_SERVER_SOCKET l = WS_SERVER_SOCKET (locals th) →
  (WS_OUTBOUND l = None ↔ WS_OUTBOUND (locals th) = None) →
  (has_socket th = true ∨ ∀ t, handlers t l = handlers t (locals th)) →
  ok th → ok (with_locals th l).
Proof.
  intros Hs Ho Hh [H1 H2 H3 H4 H5]. split; simpl; [by rewrite Ho| | |done|done].
  - unfold socket_ok in *. simpl. rewrite Hs. exact H2.
  - intros t Hn Hi. change (has_socket (with_locals th l)) with (has_socket th) in Hn.
    destruct Hh as [Hh|Hh]; [congruence|]. rewrite Hh. by apply H3.
Qed.

(** *** Writing [readyState] keeps the invariant, and fails exactly for a socket of another
    isolate *)

Lemma ok_resume th rest : ok th → current th → fits rest (phase th) → ok (resume th rest).
Proof.
  intros Hok Hc Hf. destruct rest as [|m| |code reason|next]; cbn [resume fits] in *; [done|by apply ok_push|..].
  - apply ok_phase; try done. by rewrite Hf.
  - made_event. apply ok_dispatch; [done|by rewrite Hf|done|lia].
  - made_event. apply ok_dispatch; [done|by rewrite Hf|done|lia].
Qed.

Lemma ok_readystate th n rest : ok th → current th → fits rest (phase th) →
  ∃ th', set_ws_readystate th n rest = Done th' ∧ ok th'.
Proof.
  intros Hok Hc Hf. pose proof (ok_socket th Hok) as Hso. unfold socket_ok, set_ws_readystate in *.
  destruct (WS_SERVER_SOCKET _) as [[i obj]|] eqn:E; [|eexists; split; [done|by apply ok_resume]].
  destruct Hc as [Hs|]; [|congruence]. rewrite Hs in Hso. destruct Hso as [-> _]. rewrite Nat.eqb_refl. eexists. split; [done|].
  destruct (state_property th obj).
  - apply ok_resume; [|by left|done]. apply ok_with_heap; [by rewrite length_set|done].
  - apply ok_resume; [done|by left|done].
  - apply ok_phase; try done; [|by left]. by split; [|apply ok_place].
Qed.

Lemma new_pair_spec th : ∃ h l, websocket_pair_constructor th =
    (if is_writing (phase th) then Panicked "already borrowed: BorrowMutError"
     else Done (mkThread (isolate th) h (state_of th) (S (pairs th)) (with_socket (locals th) (isolate th, VRef l)) (phase th) (calls th) (outgoing th), VRef (S l))) ∧
  (length (heap th) ≤ l < length h)%nat.
Proof.
  unfold websocket_pair_constructor, new_object, alloc, ws_attach_to_object.
  eexists _, (S (length (heap th))). split.
  - destruct (is_writing (phase th)); cbn [negb]; [reflexivity|].
    repeat (rewrite length_set_props || rewrite length_app). cbn [length]. rewrite !Nat.add_1_r. reflexivity.
  - repeat (rewrite length_set_props || rewrite length_app). cbn [length]. lia.
Qed.

Lemma ok_new_pair th r : ok th → websocket_pair_constructor th = Done r → ok r.1.
Proof.
  intros [H1 H2 H3 H4 H5]. destruct (new_pair_spec th) as (h & l & -> & Hl). destruct (is_writing _) eqn:E; [done|]. intros [= <-].
  split; cbn [phase locals fst]; [done| |done|done|by rewrite E]. unfold socket_ok. cbn. split; [done|]. exists l. split; [done|lia].
Qed.

Lemma some_done_inj {A} (a b : A) : Some (Done a) = Some (Done b) → a = b.
Proof. by intros [= ->]. Qed.

Lemma length_new_client h args : length (fst (websocket_client_constructor h args)) = S (length h).
Proof. exact (length_make_event h _). Qed.

Lemma some_bind_done {A B} (x : outcome A) (f : A → outcome B) y : Some (let! a := x in f a) = Some (Done y) →
  ∃ a, x = Done a ∧ f a = Done y.
Proof. destruct x as [a|]; [|done]. intros [= E]. by exists a. Qed.

Lemma ok_js_call th th' c : ok th → phase th ≠ Receiving → js_call th c = Some (Done th') → ok th'.
Proof.
  intros Hok Hp. destruct c as [|args| |args|args|args|h|l p]; cbn [js_call].
  - intros (r & Hr & [= <-])%some_bind_done. by eapply ok_new_pair.
  - intros <-%some_done_inj. apply ok_with_heap; [|done]. rewrite length_new_client. lia.
  - destruct (has_socket th) eqn:Hs; [|done]. intros [= Hr].
    edestruct (ok_readystate (with_locals th (with_accepted (locals th) true)) 1 AfterAccept) as (th1 & E & Hok1);
      [|by left|exact Hp|unfold ws_accept_callback in Hr; congruence]. apply ok_with_locals; try done. by left.
  - destruct (has_socket th) eqn:Hs; [|done]. intros [= <-]. unfold ws_send_callback.
    destruct (negb _); [done|]. destruct args as [|v args]; [done|]. destruct (outgoing_message _ _); [|done].
    by apply ok_push.
  - destruct (has_socket th) eqn:Hs; [|done]. intros [= Hr]. unfold ws_close_callback in Hr.
    destruct (negb _); [by injection Hr as <-|].
    destruct (ok_readystate th 2 (AfterClose (close_message (heap th) args)) Hok) as (th1 & E & Hok1); [by left|done|congruence].
  - destruct (has_socket th) eqn:Hs; [|done]. intros [= Hr]. unfold ws_add_event_listener_callback in Hr.
    destruct (registers _ _) as [[t f]|]; [|by injection Hr as <-]. destruct (negb _); [|done].
    injection Hr as <-. apply ok_with_locals; try done. by left.
  - destruct (_ <=? _)%nat eqn:E; [|done]. intros [= <-]. apply ok_with_heap; [|done]. by apply Nat.leb_le.
  - destruct (_ <? _)%nat; [|done]. intros [= <-]. by destruct Hok.
Qed.

Lemma ok_ws_messages pool oom th i r : ok th → phase th = Receiving →
  ws_messages pool oom th i = Some r → ∃ th', r = Done th' ∧ ok th'.
Proof.
  intros Hok Hp. assert (Hs : current th) by (apply socket_current; by rewrite ?Hp).
  assert (Hoom : ∀ r, Done <$> oom_close th = Some r → ∃ th', r = Done th' ∧ ok th').
  { unfold oom_close. intros r2. destruct (WS_OUTBOUND _) as [c|]; [|intros [= <-]; eexists; split; [done|apply ok_end]].
    destruct (try_send c _) as [c' []]; try done; intros [= <-]; eexists; (split; [done|apply ok_end]). }
  assert (Hdeliver : ∀ h data, (length (heap th) ≤ length h)%nat → ok (deliver th h data)).
  { intros h data Hl. unfold deliver. made_event. apply ok_dispatch; try done; [by rewrite Hp|lia]. }
  assert (Hwrite : ∀ rest, fits rest Receiving → Some (set_ws_readystate th 3 rest) = Some r → ∃ th', r = Done th' ∧ ok th').
  { intros rest Hf [= <-]. apply ok_readystate; by rewrite ?Hp. }
  destruct i as [m| |]; cbn [ws_messages].
  - destruct m as [s|b|b|b|frame|]; cbn [handle_message]; try (intros [= <-]; by eexists).
    + destruct oom; [apply Hoom|]. intros [= <-]. eexists. split; [done|by apply Hdeliver].
    + destruct oom; [apply Hoom|]. intros [= <-]. eexists. split; [done|]. apply Hdeliver. rewrite length_app. simpl. lia.
    + destruct (match frame with Some f => _ | None => _ end) as [c r']. by apply Hwrite.
  - intros [= <-]. eexists. split; [done|apply ok_end].
  - by apply Hwrite.
Qed.

Lemma ok_channel th th' f : ok th → on_channel th f = Some (Done th') → ok th'.
Proof.
  intros Hok. unfold on_channel. destruct (WS_OUTBOUND _) as [c|] eqn:E; [|done]. intros <-%some_done_inj.
  apply ok_with_locals; try done; [by rewrite E|]. right. by intros [].
Qed.

Lemma current_handler th : ok th → phase th = Setup → is_done (set_ws_readystate th 1 AfterHandler) = true → current th.
Proof.
  intros Hok Hp. pose proof (ok_socket th Hok) as Hs. unfold socket_ok, set_ws_readystate, current in *.
  destruct (WS_SERVER_SOCKET _) as [[i obj]|]; [|by right]. destruct (has_socket th); [by left|].
  destruct Hs as [Hlt _]. destruct (Nat.eqb_spec i (isolate th)); [lia|done].
Qed.

Lemma step_ok pool th e th' : ok th → step pool th e = Some (Done th') → ok th'.
Proof.
  intros Hok. destruct e as [| |c| | |oom i| | |]; cbn [step].
  - destruct (phase th) eqn:Hp; try done. intros <-%some_done_inj. pose proof (ok_socket th Hok) as Hs.
    split; try done; [|by intros []]. unfold socket_ok in *. cbn [locals start_connection WS_SERVER_SOCKET isolate heap phase].
    destruct (WS_SERVER_SOCKET _) as [[i obj]|]; [|done]. change (has_socket (start_connection th)) with (has_socket th).
    destruct (has_socket th); [done|]. destruct Hs as [Hs _]. split; [done|by right].
  - destruct (phase th); try done. destruct pool; [done|]. intros <-%some_done_inj. apply ok_end.
  - destruct (phase th) eqn:Hp; try done; apply ok_js_call; by rewrite ?Hp.
  - destruct (phase th) as [| | |t event waiting next|] eqn:Hp; try done.
    + intros [= E]. destruct (ok_readystate th 1 AfterHandler Hok) as (th1 & E1 & Hok1); [|by rewrite Hp|congruence].
      apply current_handler; [done..|by rewrite E].
    + intros <-%some_done_inj. apply ok_listeners; [done|by rewrite Hp|]. apply socket_current; by rewrite ?Hp.
  - destruct (phase th) as [| | | |rest inner] eqn:Hp; try done. intros <-%some_done_inj.
    pose proof (ok_place th Hok) as Hpl. rewrite Hp in Hpl. destruct Hpl as [Hf Hpl].
    assert (Hc : current th) by (left; apply (ok_writing th Hok); by rewrite Hp).
    apply ok_resume; [|done|done]. apply ok_phase; [by rewrite Hp|done| |done|done].
    intros _. apply (ok_writing th Hok). by rewrite Hp.
  - destruct (phase th) eqn:Hp; try done. intros Hw. apply ok_ws_messages in Hw as (th1 & [= <-] & ?); done.
  - destruct (phase th) eqn:Hp; try done. intros <-%some_done_inj. pose proof (ok_socket th Hok) as Hs.
    split; cbn; try done; [by rewrite <- (ok_idle th Hok), Hp|]. unfold socket_ok in *. cbn.
    destruct (WS_SERVER_SOCKET _) as [[i obj]|]; [|done]. destruct (has_socket th).
    + destruct Hs as [-> _]. split; [lia|by left].
    + destruct Hs as [Hs _]. split; [lia|by left].
  - destruct (phase th); by apply ok_channel.
  - destruct (phase th); by apply ok_channel.
Qed.

Lemma steps_ok pool th es th' : ok th → steps pool th es = Some (Done th') → ok th'.
Proof.
  revert th. induction es as [|e es IH]; intros th Hok; cbn [steps]; [by intros <-%some_done_inj|].
  destruct (step pool th e) as [[th1|w]|] eqn:E; try done. apply IH. by eapply step_ok.
Qed.

Lemma reachable_ok pool th : reachable pool th → ok th.
Proof. intros [es Hes]. eapply steps_ok; [apply ok_fresh|done]. Qed.

(** ** What a step leaves of the thread-locals *)

Definition is_accept (e : Event) : bool := match e with JsCall Accept => true | _ => false end.

Definition added (h : Heap) (t : Listener) (e : Event) : list Fn :=
  match e with
  | JsCall (AddEventListener args) =>
      match registers h args with Some (u, f) => if decide (u = t) then [f] else [] | None => [] end
  | _ => []
  end.

Definition same_locals (l l' : WsLocals) : Prop :=
  WS_ACCEPTED l' = WS_ACCEPTED l ∧ ∀ t, handlers t l' = handlers t l.

Lemma same_locals_outbound l c : same_locals l (with_outbound l c).
Proof. split; [done|by intros []]. Qed.

Lemma push_locals th m : same_locals (locals th) (locals (push_outbound th m)) ∧ phase (push_outbound th m) = phase th ∧
  heap (push_outbound th m) = heap th ∧ calls (push_outbound th m) = calls th.
Proof.
  unfold push_outbound. destruct (WS_OUTBOUND _) as [c|]; [|by repeat split].
  destruct (try_send c m). split; [apply same_locals_outbound|done].
Qed.

Lemma listeners_locals th t event waiting next :
  phase (listeners th t event waiting next) = Idle ∨ locals (listeners th t event waiting next) = locals th.
Proof.
  destruct waiting as [|f rest]; [|by right]. unfold listeners, call_next.
  destruct next; cbn [after_listeners]; [by right|by left|]. made_event. unfold call_next.
  destruct (handlers _ _); [by left|by right].
Qed.

Lemma dispatch_locals th h t event next :
  phase (ws_dispatch (with_heap th h) t event next) = Idle ∨
  locals (ws_dispatch (with_heap th h) t event next) = locals th.
Proof. exact (listeners_locals (with_heap th h) t event _ next). Qed.

(** What [readyState] is written for keeps the thread-locals, but for the end of the
    connection and the messages in the channel. *)
Lemma resume_locals th rest : phase (resume th rest) = Idle ∨ same_locals (locals th) (locals (resume th rest)).
Proof.
  destruct rest as [|m| |code reason|next]; cbn [resume]; [by right|right; apply push_locals|by right|..];
    made_event; match goal with |- context [ws_dispatch (with_heap th ?h) ?t ?e ?n] =>
      destruct (dispatch_locals th h t e n) as [Hi|Hl]; [by left|right; by rewrite Hl] end.
Qed.

Lemma readystate_locals th n rest th' : set_ws_readystate th n rest = Done th' →
  phase th' = Idle ∨ same_locals (locals th) (locals th').
Proof.
  unfold set_ws_readystate. destruct (WS_SERVER_SOCKET _) as [[i obj]|]; [|intros [= <-]; apply resume_locals].
  destruct (Nat.eqb _ _); [|done]. intros [= <-].
  destruct (state_property th obj); [apply (resume_locals (with_heap th _))|apply resume_locals|by right].
Qed.

(** The methods write it for themselves: they leave the thread where it is, or in a setter
    called from there. *)
Definition is_own (rest : Pending) : Prop := match rest with AfterAccept | AfterClose _ => True | _ => False end.

Definition calls_setter (p p' : Phase) : Prop := p' = p ∨ ∃ rest, is_own rest ∧ p' = Writing rest p.

Lemma calls_setter_place p p' : calls_setter p p' → place p' = place p.
Proof. by intros [->|(rest & _ & ->)]. Qed.

Lemma calls_setter_ok p p' : calls_setter p p' → p ≠ Receiving → phase_ok p → phase_ok p'.
Proof. intros [->|(rest & Ho & ->)] Hp Hok; [done|]. split; [by destruct rest|done]. Qed.

Lemma own_resume th rest : is_own rest → phase (resume th rest) = phase th ∧ calls (resume th rest) = calls th ∧
  same_locals (locals th) (locals (resume th rest)).
Proof.
  destruct rest as [|m| | |]; try done. intros _. cbn [resume]. destruct (push_locals th m) as (Hl & Hp & _ & Hc). by rewrite Hp, Hc.
Qed.

Lemma own_write th n rest th' : is_own rest → set_ws_readystate th n rest = Done th' →
  calls_setter (phase th) (phase th') ∧ calls th' = calls th ∧ same_locals (locals th) (locals th').
Proof.
  intros Hr. assert (Hres : ∀ th0, calls_setter (phase th0) (phase (resume th0 rest)) ∧ calls (resume th0 rest) = calls th0 ∧
    same_locals (locals th0) (locals (resume th0 rest))).
  { intros th0. destruct (own_resume th0 rest Hr) as (Hp & Hc & Hl). split_and!; [by left|done|done..]. }
  unfold set_ws_readystate. destruct (WS_SERVER_SOCKET _) as [[i obj]|]; [|intros [= <-]; apply Hres].
  destruct (Nat.eqb _ _); [|done]. intros [= <-].
  destruct (state_property th obj); [apply (Hres (with_heap th _))|apply Hres|]. split_and!; [right; by exists rest|done..].
Qed.

Lemma ws_messages_locals pool oom th i th' : ws_messages pool oom th i = Some (Done th') →
  phase th' = Idle ∨ same_locals (locals th) (locals th').
Proof.
  assert (Hoom : ∀ th', oom_close th = Some th' → phase th' = Idle).
  { unfold oom_close. intros th2. destruct (WS_OUTBOUND _) as [c|]; [|by intros [= <-]].
    by destruct (try_send c _) as [c' []]; try done; intros [= <-]. }
  assert (Hdeliver : ∀ h data, phase (deliver th h data) = Idle ∨ same_locals (locals th) (locals (deliver th h data))).
  { intros h data. unfold deliver. made_event.
    destruct (dispatch_locals th hev OnMessage ev NextMessage) as [?|Hl]; [by left|right; by rewrite Hl]. }
  destruct i as [m| |]; cbn [ws_messages].
  - destruct m as [s|b|b|b|frame|]; cbn [handle_message]; try (by intros <-%some_done_inj; right).
    + destruct oom; [|intros <-%some_done_inj; apply Hdeliver].
      destruct (oom_close th) eqn:E; [|done]. intros <-%some_done_inj. left. by apply Hoom.
    + destruct oom; [|intros <-%some_done_inj; apply Hdeliver].
      destruct (oom_close th) eqn:E; [|done]. intros <-%some_done_inj. left. by apply Hoom.
    + destruct (match frame with Some f => _ | None => _ end) as [c r]. intros [= E]. by apply readystate_locals in E.
  - intros <-%some_done_inj. by left.
  - intros [= E]. by apply readystate_locals in E.
Qed.

(** A call of the program changes the acceptance and the listeners as it says, and never
    where the thread is nor who was called. *)
Lemma js_call_frame th c th' : js_call th c = Some (Done th') →
  calls_setter (phase th) (phase th') ∧ calls th' = calls th ∧
  WS_ACCEPTED (locals th') = WS_ACCEPTED (locals th) || is_accept (JsCall c) ∧
  ∀ t, handlers t (locals th') = handlers t (locals th) ++ added (heap th) t (JsCall c).
Proof.
  assert (Hsame : ∀ th1, calls_setter (phase th) (phase th1) → calls th1 = calls th → same_locals (locals th) (locals th1) →
    calls_setter (phase th) (phase th1) ∧ calls th1 = calls th ∧ WS_ACCEPTED (locals th1) = WS_ACCEPTED (locals th) || false ∧
    ∀ t, handlers t (locals th1) = handlers t (locals th) ++ []).
  { intros th1 Hp Hc [Ha Hh]. split_and!; [done..|by rewrite orb_false_r|]. intros t. by rewrite app_nil_r. }
  assert (Hh : ∀ p : Phase, calls_setter p p) by (by left).
  destruct c as [|args| |args|args|args|h|l p]; cbn [js_call is_accept added].
  - intros (r & Hr & [= <-])%some_bind_done. destruct (new_pair_spec th) as (h & l & E & _). rewrite E in Hr.
    destruct (is_writing _); [done|]. injection Hr as <-. by apply Hsame.
  - intros <-%some_done_inj. by apply Hsame.
  - destruct (has_socket th); [|done]. unfold ws_accept_callback. intros [= Hr].
    apply own_write in Hr as (Hp & Hc & Ha & Hl); [|done]. split_and!; [done..|by rewrite Ha, orb_true_r|].
    intros t. rewrite app_nil_r, Hl. by destruct t.
  - destruct (has_socket th); [|done]. intros <-%some_done_inj. unfold ws_send_callback.
    destruct (negb _); [by apply Hsame|]. destruct args as [|v args]; [by apply Hsame|].
    destruct (outgoing_message _ _) as [m|]; [|by apply Hsame]. destruct (push_locals th m) as (? & Hp & ? & ?). apply Hsame; [by left|done..].
  - destruct (has_socket th); [|done]. unfold ws_close_callback. intros [= Hr].
    destruct (negb _); [injection Hr as <-; by apply Hsame|].
    apply own_write in Hr as (Hp & Hc & Hl); [|done]. by apply Hsame.
  - destruct (has_socket th); [|done]. unfold ws_add_event_listener_callback. intros [= Hr].
    destruct (registers _ _) as [[u f]|]; [|injection Hr as <-; by apply Hsame]. destruct (negb _); [|done].
    injection Hr as <-. cbn. split_and!; [done..|by rewrite orb_false_r|].
    intros t. destruct t, u; cbn; by rewrite ?app_nil_r.
  - destruct (_ <=? _)%nat; [|done]. intros <-%some_done_inj. by apply Hsame.
  - destruct (_ <? _)%nat; [|done]. intros <-%some_done_inj. by apply Hsame.
Qed.

Lemma step_frame pool th e th' : step pool th e = Some (Done th') → e ≠ Connected →
  phase th' = Idle ∨
  WS_ACCEPTED (locals th') = WS_ACCEPTED (locals th) || is_accept e ∧
  ∀ t, handlers t (locals th') = handlers t (locals th) ++ added (heap th) t e.
Proof.
  assert (Hsame : same_locals (locals th) (locals th') → WS_ACCEPTED (locals th') = WS_ACCEPTED (locals th) || false ∧
    ∀ t, handlers t (locals th') = handlers t (locals th) ++ []).
  { intros [-> Hh]. split; [by rewrite orb_false_r|]. intros t. by rewrite Hh, app_nil_r. }
  assert (Hchan : ∀ f, on_channel th f = Some (Done th') → WS_ACCEPTED (locals th') = WS_ACCEPTED (locals th) || false ∧
    ∀ t, handlers t (locals th') = handlers t (locals th) ++ []).
  { intros f. unfold on_channel. destruct (WS_OUTBOUND _); [|done]. intros <-%some_done_inj. cbn.
    split; [by rewrite orb_false_r|]. intros []; by rewrite app_nil_r. }
  destruct e as [| |c| | |oom i| | |]; cbn [step]; intros Hstep Hne; [done|..].
  - destruct (phase th); try done. destruct pool; [done|]. injection Hstep as <-. by left.
  - right. destruct (phase th); try done; by apply js_call_frame in Hstep as (_ & _ & ? & ?).
  - destruct (phase th) as [| | |t event waiting next|]; try done.
    + injection Hstep as Hstep. apply readystate_locals in Hstep as [?|?]; [by left|right; by apply Hsame].
    + apply some_done_inj in Hstep as <-. destruct (listeners_locals th t event (tail waiting) next) as [?|Hl]; [by left|].
      right. apply Hsame. by rewrite Hl.
  - destruct (phase th) as [| | | |rest inner]; try done. apply some_done_inj in Hstep as <-.
    destruct (resume_locals (with_phase th inner) rest) as [?|?]; [by left|right; by apply Hsame].
  - destruct (phase th); try done. apply ws_messages_locals in Hstep as [?|Hl]; [by left|right; by apply Hsame].
  - destruct (phase th); try done. injection Hstep as <-. by left.
  - right. destruct (phase th); by eapply Hchan.
  - right. destruct (phase th); by eapply Hchan.
Qed.

Lemma idle_resume th rest inner : phase th = Writing rest inner → phase_ok (phase th) → place inner = Idle →
  place (phase (resume (with_phase th inner) rest)) = Idle.
Proof.
  intros Hp Hok Hi. rewrite Hp in Hok. destruct Hok as [Hf _]. destruct rest as [|m| | |]; cbn [resume fits] in *; try (by subst).
  destruct (push_locals (with_phase th inner) m) as (_ & -> & _). done.
Qed.

Lemma idle_stays pool th e th' : ok th → place (phase th) = Idle → step pool th e = Some (Done th') → e ≠ Connected →
  place (phase th') = Idle.
Proof.
  intros Hok Hp. assert (Hchan : ∀ f, on_channel th f = Some (Done th') → place (phase th') = Idle).
  { intros f. unfold on_channel. destruct (WS_OUTBOUND _); [|done]. by intros <-%some_done_inj. }
  assert (Hcall : ∀ c, js_call th c = Some (Done th') → place (phase th') = Idle).
  { intros c Hc%js_call_frame. destruct Hc as [->%calls_setter_place _]. done. }
  destruct e as [| |c| | |oom i| | |]; cbn [step]; destruct (phase th) as [| | | |rest inner] eqn:E; try done; eauto.
  - intros <-%some_done_inj _. apply idle_resume; [done|by apply ok_place|done].
  - by intros <-%some_done_inj.
Qed.

Lemma accepted_run pool es : ∀ th th', ok th → steps pool th es = Some (Done th') → Connected ∉ es → place (phase th') ≠ Idle →
  WS_ACCEPTED (locals th') = WS_ACCEPTED (locals th) || existsb is_accept es.
Proof.
  induction es as [|e es IH]; intros th th' Hok; cbn [steps existsb].
  { intros <-%some_done_inj _ _. by rewrite orb_false_r. }
  destruct (step pool th e) as [[th1|w]|] eqn:E; try done. intros Hs [Hne Hni]%not_elem_of_cons Hp.
  pose proof (step_ok _ _ _ _ Hok E) as Hok1.
  rewrite (IH th1 th' Hok1 Hs Hni Hp). destruct (step_frame pool th e th1 E (not_eq_sym Hne)) as [Hi|[Ha _]]; [|by rewrite Ha, orb_assoc].
  exfalso. apply Hp. assert (Hi' : place (phase th1) = Idle) by (by rewrite Hi). clear IH E Hi Hok. revert th1 Hs Hok1 Hi'.
  induction es as [|e2 es IH]; intros th1; cbn [steps]; [by intros <-%some_done_inj|].
  apply not_elem_of_cons in Hni as [Hne2 Hni].
  destruct (step pool th1 e2) as [[th2|w]|] eqn:E2; try done. intros Hs Hok1 Hi.
  apply (IH Hni th2); [done|by eapply step_ok|by eapply idle_stays].
Qed.

Lemma steps_snoc pool th es e th' : steps pool th (es ++ [e]) = Some (Done th') →
  ∃ th1, steps pool th es = Some (Done th1) ∧ step pool th1 e = Some (Done th').
Proof.
  revert th. induction es as [|x es IH]; intros th; cbn [app steps].
  - intros Hs. exists th. split; [done|]. by destruct (step pool th e) as [[]|].
  - destruct (step pool th x) as [[th1|w]|]; try done. apply IH.
Qed.

(** ** Properties *)

(** The messages a call of [send] puts into the channel once it is accepted. *)
Definition sendable (th : Thread) (args : list Val) : list Message :=
  match head args ≫= outgoing_message (heap th), WS_OUTBOUND (locals th) with
  | Some m, Some c => if receiver c && (length (queued c) <? CHANNEL_SLOTS)%nat then [m] else []
  | _, _ => []
  end.

(** What [send] does at any moment of a connection: it throws exactly if no [accept] was
    called since the connection began, on whichever socket; otherwise a text or a buffer
    is put behind the messages waiting, unless the client is gone or 128 are waiting, in
    which case it is dropped and the program is told nothing. *)
Theorem send_follows_accept pool th es th' args (Hreach : reachable pool th) (Hidle : phase th = Idle)
    (Hsteps : steps pool th (Connected :: es) = Some (Done th')) (Hone : Connected ∉ es) (Hopen : place (phase th') ≠ Idle) :
  let accepted := existsb is_accept es in
  snd (ws_send_callback th' args) = (if accepted then None else Some "WebSocket is not accepted") ∧
  outgoing (fst (ws_send_callback th' args)) = outgoing th' ++ (if accepted then sendable th' args else []).
Proof.
  cbn [steps] in Hsteps. destruct (step pool th Connected) as [[th1|w]|] eqn:E1; try done.
  pose proof (accepted_run _ _ _ _ (step_ok _ _ _ _ (reachable_ok _ _ Hreach) E1) Hsteps Hone Hopen) as Ha.
  cbn [step] in E1. rewrite Hidle in E1. apply some_done_inj in E1 as <-.
  cbn in Ha. unfold ws_send_callback. rewrite Ha. cbn zeta. destruct (existsb is_accept es); cbn [negb];
    [|by rewrite app_nil_r].
  unfold sendable. destruct args as [|v args]; cbn [head mbind option_bind]; [by rewrite app_nil_r|].
  destruct (outgoing_message (heap th') v) as [m|]; [|by rewrite app_nil_r]. cbn [fst snd]. split; [done|].
  unfold push_outbound. destruct (WS_OUTBOUND (locals th')) as [c|]; [|by rewrite app_nil_r].
  unfold try_send. destruct (receiver c); cbn [andb]; [|by rewrite app_nil_r].
  destruct (_ <? _)%nat; [done|by rewrite app_nil_r].
Qed.

Lemma done_readystate th n rest : ok th → current th → is_done (set_ws_readystate th n rest) = true.
Proof.
  intros Hok Hc. pose proof (ok_socket th Hok) as Hso. unfold socket_ok, set_ws_readystate in *.
  destruct (WS_SERVER_SOCKET _) as [[i obj]|] eqn:E; [|done].
  destruct Hc as [Hs|]; [|congruence]. rewrite Hs in Hso. destruct Hso as [-> _]. by rewrite Nat.eqb_refl.
Qed.

(** Which calls of the program end the process. *)
Lemma js_call_panics th c w : ok th → js_call th c = Some (Panicked w) →
  (c = NewPair ∧ is_writing (phase th) = true) ∨
  ∃ args t f, c = AddEventListener args ∧ has_socket th = true ∧ registers (heap th) args = Some (t, f) ∧ borrowed th = Some t.
Proof.
  intros Hok. destruct c as [|args| |args|args|args|h|l p]; cbn [js_call]; try done.
  - destruct (new_pair_spec th) as (h & l & -> & _). destruct (is_writing _); [by left|done].
  - destruct (has_socket th) eqn:Hs; [|done]. unfold ws_accept_callback. intros [= Hr].
    assert (Hok1 : ok (with_locals th (with_accepted (locals th) true))) by (apply ok_with_locals; try done; by left).
    pose proof (done_readystate _ 1 AfterAccept Hok1 (or_introl Hs)) as H1. by rewrite Hr in H1.
  - by destruct (has_socket th).
  - destruct (has_socket th) eqn:Hs; [|done]. unfold ws_close_callback. destruct (negb _); [done|]. intros [= Hr].
    pose proof (done_readystate th 2 (AfterClose (close_message (heap th) args)) Hok (or_introl Hs)) as H2. by rewrite Hr in H2.
  - destruct (has_socket th) eqn:Hs; [|done]. unfold ws_add_event_listener_callback.
    destruct (registers _ _) as [[t f]|] eqn:Er; [|done]. destruct (bool_decide _) eqn:Eb; [|done].
    apply bool_decide_eq_true in Eb. intros _. right. by exists args, t, f.
  - by destruct (_ <=? _)%nat.
  - by destruct (_ <? _)%nat.
Qed.

Lemma on_channel_done th f : match on_channel th f with Some r => is_done r | None => true end = true.
Proof. unfold on_channel. by destruct (WS_OUTBOUND _). Qed.

(** C14. The process ends in a step of a thread in exactly three cases: while listeners
    are called for an event one more is registered for the same event; a pair is made by a
    setter that the program put on [readyState], while the property is written; or the
    handler of a connection returns without having made a pair while the thread still
    remembers a socket of an isolate that was replaced. *)
Theorem thread_aborts_exactly pool th e (Hreach : reachable pool th) :
  (∃ w, step pool th e = Some (Panicked w)) ↔
  (∃ t args f, borrowed th = Some t ∧ has_socket th = true ∧
     e = JsCall (AddEventListener args) ∧ registers (heap th) args = Some (t, f)) ∨
  (is_writing (phase th) = true ∧ e = JsCall NewPair) ∨
  (phase th = Setup ∧ e = Returned ∧ has_socket th = false ∧ is_Some (WS_SERVER_SOCKET (locals th))).
Proof.
  apply reachable_ok in Hreach as Hok. split.
  - intros [w Hw]. destruct e as [| |c| | |oom i| | |]; cbn [step] in Hw.
    + by destruct (phase th).
    + by destruct (phase th), pool.
    + assert (Hc : js_call th c = Some (Panicked w)) by (by destruct (phase th)).
      apply js_call_panics in Hc as [[-> Hb]|(args & t & f & -> & Hs & Hr & Hb)]; [by right; left| |done].
      left. by exists t, args, f.
    + destruct (phase th) as [| | |t event waiting next|] eqn:Hp; try done. right. right.
      pose proof (done_readystate th 1 AfterHandler Hok) as H1. injection Hw as Hw. rewrite Hw in H1.
      split_and!; [done..| |].
      * destruct (has_socket th) eqn:Hs; [|done]. by specialize (H1 (or_introl Hs)).
      * destruct (WS_SERVER_SOCKET (locals th)) eqn:Hs; [done|]. by specialize (H1 (or_intror Hs)).
    + by destruct (phase th).
    + destruct (phase th) eqn:Hp; try done. by apply ok_ws_messages in Hw as (th1 & [=] & _).
    + by destruct (phase th).
    + assert (Hd := on_channel_done th (λ c, mkChannel (tail (queued c)) (receiver c))). by destruct (phase th); rewrite Hw in Hd.
    + assert (Hd := on_channel_done th (λ c, mkChannel [] false)). by destruct (phase th); rewrite Hw in Hd.
  - intros [(t & args & f & Hb & Hs & -> & Hr)|[[Hb ->]|(Hp & -> & Hs & Hsock)]].
    + assert (Hc : ∃ w, js_call th (AddEventListener args) = Some (Panicked w)).
      { cbn [js_call]. rewrite Hs. unfold ws_add_event_listener_callback. rewrite Hr, bool_decide_true by done. by eexists. }
      unfold borrowed in Hb. cbn [step]. by destruct (phase th).
    + assert (Hc : ∃ w, js_call th NewPair = Some (Panicked w)).
      { cbn [js_call]. destruct (new_pair_spec th) as (h & l & -> & _). rewrite Hb. by eexists. }
      cbn [step]. by destruct (phase th).
    + cbn [step]. rewrite Hp.
      pose proof (ok_socket th Hok) as Hso. unfold socket_ok in Hso. unfold set_ws_readystate.
      destruct (WS_SERVER_SOCKET _) as [[i obj]|]; [|by destruct Hsock]. rewrite Hs in Hso. destruct Hso as [Hlt _].
      destruct (Nat.eqb_spec i (isolate th)); [lia|]. by eexists.
Qed.

(** ** A message and its listeners *)

Definition message_data (h : Heap) (m : Message) : option (Heap * Val) :=
  match m with
  | Text s => Some (h, str s)
  | Binary b => Some (alloc h (mkObj CObject (ArrayBuffer b) []))
  | _ => None
  end.

(** While the listeners [hs] of a message are called, one after the other, setters that
    they cause to run included; [before] was logged when it came. *)
Definition delivering (hs : list Fn) (event : Val) (before : list (Fn * Val)) (th : Thread) : Prop :=
  WS_MESSAGE_HANDLERS (locals th) = hs ∧ phase_ok (phase th) ∧
  ((phase th = Receiving ∧ calls th = before ++ ((λ f, (f, event)) <$> hs)) ∨
   ∃ called f rest, place (phase th) = Running OnMessage event (f :: rest) NextMessage ∧ hs = called ++ f :: rest ∧
     calls th = before ++ ((λ f, (f, event)) <$> (called ++ [f]))).

Lemma delivering_next th event hs called rest before :
  WS_MESSAGE_HANDLERS (locals th) = hs → hs = called ++ rest →
  calls th = before ++ ((λ f, (f, event)) <$> called) →
  delivering hs event before (listeners th OnMessage event rest NextMessage).
Proof.
  intros Hh -> Hc. destruct rest as [|f rest]; (split; [done|split; [done|]]).
  - left. split; [done|]. cbn. by rewrite Hc, app_nil_r.
  - right. exists called, f, rest. split_and!; [done..|]. cbn. by rewrite Hc, fmap_app, app_assoc.
Qed.

Lemma delivering_step pool hs event before th e th' :
  delivering hs event before th → step pool th e = Some (Done th') → (∀ oom i, e ≠ Next oom i) →
  delivering hs event before th'.
Proof.
  intros (Hh & Hok & Hd) Hstep Hn.
  assert (Hchan : ∀ f, on_channel th f = Some (Done th') → delivering hs event before th').
  { intros f. unfold on_channel. destruct (WS_OUTBOUND _); [|done]. by intros <-%some_done_inj. }
  destruct Hd as [[Hp Hc]|(called & f & rest & Hp & He & Hc)].
  { destruct e as [| |c| | |oom i| | |]; cbn [step] in Hstep; rewrite ?Hp in Hstep; try done; try (by eapply Hchan). by edestruct Hn. }
  assert (Hcall : ∀ c, phase th ≠ Receiving → js_call th c = Some (Done th') → delivering hs event before th').
  { intros c Hne Hj. assert (Hadd : added (heap th) OnMessage (JsCall c) = []).
    { destruct c as [| | | | |args| |]; try done. cbn [js_call] in Hj. destruct (has_socket th); [|done].
      unfold ws_add_event_listener_callback, borrowed in Hj. cbn [added]. rewrite Hp in Hj.
      destruct (registers _ _) as [[u g]|]; [|done]. destruct (decide (u = OnMessage)) as [->|]; [|done].
      by rewrite bool_decide_true in Hj. }
    apply js_call_frame in Hj as (Hp' & Hc' & _ & Hh'). specialize (Hh' OnMessage). rewrite Hadd, app_nil_r in Hh'.
    cbn [handlers] in Hh'. split; [congruence|]. split; [by eapply calls_setter_ok|]. right. exists called, f, rest.
    by rewrite (calls_setter_place _ _ Hp'), Hc', Hp. }
  destruct e as [| |c| | |oom i| | |]; cbn [step] in Hstep; [..|by edestruct Hn| |by destruct (phase th); eapply Hchan|by destruct (phase th); eapply Hchan];
    destruct (phase th) as [| | |u ev waiting next|w inner] eqn:Ep; try done; try (by eapply Hcall).
  - injection Hp as -> -> -> ->. apply some_done_inj in Hstep as <-. cbn [tail].
    apply delivering_next with (called := called ++ [f]); [done| |done]. by rewrite <- app_assoc.
  - apply some_done_inj in Hstep as <-. destruct Hok as [Hf Hok]. cbn [place] in Hp.
    assert (Ho : is_own w) by (destruct w; cbn [fits] in Hf; by subst).
    destruct (own_resume (with_phase th inner) w Ho) as (Hp' & Hc' & _ & Hl). specialize (Hl OnMessage). cbn [handlers locals with_phase] in Hl.
    split; [congruence|]. rewrite Hp', Hc'. split; [done|]. right. by exists called, f, rest.
Qed.

Lemma delivering_run pool hs event before es : ∀ th th',
  delivering hs event before th → steps pool th es = Some (Done th') → (∀ oom i, Next oom i ∉ es) →
  delivering hs event before th'.
Proof.
  induction es as [|e es IH]; intros th th' Hd; cbn [steps]; [by intros <-%some_done_inj|].
  destruct (step pool th e) as [[th1|w]|] eqn:E; try done. intros Hs Hn.
  assert (Hni : ∀ oom i, e ≠ Next oom i ∧ Next oom i ∉ es).
  { intros oom i. specialize (Hn oom i). rewrite not_elem_of_cons in Hn. naive_solver. }
  apply (IH th1); [|done|apply Hni]. eapply delivering_step; [done..|]. intros oom i. by destruct (Hni oom i).
Qed.

Lemma message_event_spec h data : ∃ h', message_event h data = (h', VRef (length h)) ∧
  get h' (VRef (length h)) "type" = str "message" ∧ get h' (VRef (length h)) "data" = data.
Proof.
  eexists. split; [reflexivity|].
  assert (Hn : (h ++ [mkObj CObject Ordinary []]) !! length h = Some (mkObj CObject Ordinary [])) by apply lookup_alloc.
  pose proof (lookup_set_props_eq _ _ _ _ _ [("type", str "message"); ("data", data)] Hn eq_refl) as Hl.
  unfold get. by rewrite !Hl.
Qed.

(** A text or binary message is given to the listeners that were registered when it
    came, all of them, each once and in the order of their registration, whatever they do:
    by the time the thread waits for the next message nothing else was called.  They all
    get the same event object, with the data of the message. *)
Theorem message_listeners_called pool th m h data es th' (Hphase : phase th = Receiving)
    (Hdata : message_data (heap th) m = Some (h, data))
    (Hsteps : steps pool th (Next false (Got m) :: es) = Some (Done th'))
    (Hone : ∀ oom i, Next oom i ∉ es) (Hback : phase th' = Receiving) :
  WS_MESSAGE_HANDLERS (locals th') = WS_MESSAGE_HANDLERS (locals th) ∧
  calls th' = calls th ++ ((λ f, (f, VRef (length h))) <$> WS_MESSAGE_HANDLERS (locals th)) ∧
  ∃ th1, step pool th (Next false (Got m)) = Some (Done th1) ∧
    get (heap th1) (VRef (length h)) "type" = str "message" ∧ get (heap th1) (VRef (length h)) "data" = data.
Proof.
  assert (Hm : step pool th (Next false (Got m)) = Some (Done (deliver th h data))).
  { cbn [step]. rewrite Hphase. by destruct m; try done; cbn [message_data] in Hdata; unfold alloc in Hdata; injection Hdata as <- <-. }
  cbn [steps] in Hsteps. rewrite Hm in Hsteps.
  destruct (message_event_spec h data) as (h' & He & Hty & Hda). unfold deliver in *. rewrite He in *.
  set (th1 := ws_dispatch _ _ _ _) in *.
  assert (Hd : delivering (WS_MESSAGE_HANDLERS (locals th)) (VRef (length h)) (calls th) th1).
  { apply delivering_next with (called := []); [done..|]. by rewrite app_nil_r. }
  assert (Hh : heap th1 = h').
  { subst th1. unfold ws_dispatch, listeners. by destruct (handlers _ _). }
  destruct (delivering_run pool _ _ _ es th1 th' Hd Hsteps Hone) as (Hhs & _ & [[_ Hc]|(? & ? & ? & Hr & _)]); [|by rewrite Hback in Hr].
  split_and!; [done..|]. exists th1. by rewrite Hm, Hh.
Qed.

(** When the handler of a connection has returned, the server socket of the last pair
    it made says that it is open, if the program left the property alone, although [send] on
    it throws unless [accept] was called. *)
Theorem open_before_accept pool th th' i obj (Hreach : reachable pool th) (Hphase : phase th = Setup)
    (Hpair : has_socket th = true) (Hsocket : WS_SERVER_SOCKET (locals th) = Some (i, obj))
    (Hplain : state_property th obj = Data) (Hret : step pool th Returned = Some (Done th')) :
  phase th' = Receiving ∧ get (heap th') obj "readyState" = VNumber (f64_of_Z 1) ∧
  (WS_ACCEPTED (locals th) = false → ∀ args, ws_send_callback th' args = (th', Some "WebSocket is not accepted")).
Proof.
  apply reachable_ok in Hreach as Hok. pose proof (ok_socket th Hok) as Hs. unfold socket_ok in Hs.
  cbn [step] in Hret. rewrite Hphase in Hret. unfold set_ws_readystate in Hret. rewrite Hpair, Hsocket in Hs.
  rewrite Hsocket, Hplain in Hret. destruct Hs as (-> & l & -> & Hl).
  rewrite Nat.eqb_refl in Hret. apply some_done_inj in Hret as <-. split; [done|]. split.
  - apply get_set_eq; [|done]. by apply lookup_lt_is_Some.
  - intros Ha args. unfold ws_send_callback, resume. cbn [locals with_phase with_heap]. by rewrite Ha.
Qed.
End websocket.

(** ** Witnesses *)

#[local] Existing Instance demo_conv.

#[local] Instance demo_codes : CloseCodes := {|
  CloseCode := Z; close_code_from := λ c, c; close_code_u16 := λ c, c; close_code_error := 1011;
  close_code_round_trip := λ _ _, eq_refl; close_code_error_u16 := eq_refl |}.

Definition after (es : list Event) : Thread :=
  match steps ServerPool fresh es with Some (Done th) => th | _ => fresh end.

Definition on_message : list Val := [str "message"; VFun (Program 1)].

#[local] Ltac not_in := simpl; rewrite ?not_elem_of_cons; repeat split; try done; apply not_elem_of_nil.

(** The documented echo server, and one that listens without accepting. *)
Definition echo : list Event :=
  [Connected; JsCall NewPair; JsCall (AddEventListener on_message); JsCall (AddEventListener on_message);
   JsCall Accept; Returned].
Definition silent : list Event := [Connected; JsCall NewPair; Returned].

Lemma send_follows_accept_witness :
  snd (ws_send_callback (after silent) [str "hi"]) = Some "WebSocket is not accepted" ∧
  snd (ws_send_callback (after echo) [str "hi"]) = None ∧
  outgoing (fst (ws_send_callback (after echo) [str "hi"])) = [Text "hi"].
Proof.
  pose proof (send_follows_accept ServerPool fresh (tail silent) (after silent) [str "hi"] ltac:(by exists []) eq_refl eq_refl
    ltac:(not_in) ltac:(done)) as [H1 _].
  pose proof (send_follows_accept ServerPool fresh (tail echo) (after echo) [str "hi"] ltac:(by exists []) eq_refl eq_refl
    ltac:(not_in) ltac:(done)) as [H2 H3].
  split; [exact H1|split; [exact H2|exact H3]].
Defined.

(** An HTTP request that makes a pair, the replacement of the isolate, and a connection
    whose handler makes none. *)
Definition stale : list Event := [JsCall NewPair; Recycled; Connected].

(** A handler that puts a setter on [readyState] of the socket it has made, the second
    object of the isolate; the property is written when the handler has returned. *)
Definition meddling : list Event := [Connected; JsCall NewPair; JsCall (DefineState 1 Accessor); Returned].

Lemma thread_aborts_exactly_witness :
  (∃ w, step ServerPool (after (echo ++ [Next false (Got (Text "x"))])) (JsCall (AddEventListener on_message)) = Some (Panicked w)) ∧
  (∃ w, step ServerPool (after meddling) (JsCall NewPair) = Some (Panicked w)) ∧
  (∃ w, step ServerPool (after stale) Returned = Some (Panicked w)).
Proof.
  split_and!.
  - apply (thread_aborts_exactly ServerPool); [exists (echo ++ [Next false (Got (Text "x"))]); vm_compute; reflexivity|].
    left. exists OnMessage, on_message, (Program 1). split_and!; vm_compute; reflexivity.
  - apply (thread_aborts_exactly ServerPool); [exists meddling; vm_compute; reflexivity|]. right. left. by split.
  - apply (thread_aborts_exactly ServerPool); [exists stale; vm_compute; reflexivity|].
    right. right. split_and!; [reflexivity..|]. vm_compute; by eexists.
Defined.

(** A setter that makes no pair delays the end of a connection, no more: the listener of
    the close event is called when it has returned. *)
Example setter_delays :
  let es := [Connected; JsCall NewPair; JsCall (DefineState 1 Accessor); JsCall (AddEventListener [str "close"; VFun (Program 2)]);
             Returned; SetterReturned; Next false (Got (Close None))] in
  place (phase (after es)) = Receiving ∧ map fst (calls (after es)) = [] ∧
  map fst (calls (after (es ++ [SetterReturned]))) = [Program 2] ∧ phase (after (es ++ [SetterReturned; Returned])) = Idle.
Proof. split_and!; reflexivity. Qed.

Lemma message_listeners_called_witness :
  let th' := after (echo ++ [Next false (Got (Text "x")); JsCall (Send [str "x"]); Returned; Returned]) in
  phase th' = Receiving ∧
  calls th' = [(Program 1, VRef (length (heap (after echo)))); (Program 1, VRef (length (heap (after echo))))] ∧
  outgoing th' = [Text "x"].
Proof.
  split; [reflexivity|]. split; [|reflexivity].
  exact (proj1 (proj2 (message_listeners_called ServerPool (after echo) (Text "x") (heap (after echo)) (str "x")
    [JsCall (Send [str "x"]); Returned; Returned]
    (after (echo ++ [Next false (Got (Text "x")); JsCall (Send [str "x"]); Returned; Returned])) eq_refl eq_refl
    ltac:(vm_compute; reflexivity)
    ltac:(intros oom i; not_in) eq_refl))).
Defined.

Lemma open_before_accept_witness :
  get (heap (after silent)) (VRef 1) "readyState" = VNumber (f64_of_Z 1) ∧
  ws_send_callback (after silent) [str "hi"] = (after silent, Some "WebSocket is not accepted").
Proof.
  destruct (open_before_accept ServerPool (after [Connected; JsCall NewPair]) (after silent) 0 (VRef 1)
    ltac:(exists [Connected; JsCall NewPair]; vm_compute; reflexivity) eq_refl eq_refl eq_refl eq_refl
    ltac:(vm_compute; reflexivity)) as (_ & Hs & Ha).
  split; [exact Hs|exact (Ha eq_refl [str "hi"])].
Defined.
