(* ===== verification/WsRelay.v ===== *)
(** * The relay of a WebSocket: [ws_relay_task] of [src/http/router.rs]

    Between the socket of the client and the worker there are three queues: [inbound] and
    [outbound], each a [sync_channel] of 128 slots, and behind [outbound] a blocking thread,
    the forwarder, that moves its messages into a third of 128 slots, because the relay
    task cannot wait on a blocking channel.  The worker and the client may do anything at
    any time, so each of their actions and each iteration of the relay and of the forwarder
    is a step. *)

From stdpp Require Import base list strings.
From Stdlib Require Import ZArith Lia.
From S2P Require Import Prelude RustString JsObjects WebApi WebSocket.

Open Scope Z_scope.

Definition MAX_WS_MESSAGE_BYTES : Z := 32 * 1024 * 1024.

Section relay.
Context `{CloseCodes}.

(** ** Messages of the socket *)

Inductive AxumWsMessage :=
| AxText (s : string)
| AxBinary (b : bytes)
| AxPing (b : bytes)
| AxPong (b : bytes)
| AxClose (frame : option (Z * string)).

Definition axum_to_tungstenite (msg : AxumWsMessage) : option Message :=
  match msg with
  | AxText s => Some (Text s)
  | AxBinary b => Some (Binary b)
  | AxClose (Some (code, reason)) => Some (Close (Some (mkCloseFrame (close_code_from code) reason)))
  | AxClose None => Some (Close None)
  | AxPing _ | AxPong _ => None
  end.

Definition tungstenite_to_axum (msg : Message) : AxumWsMessage :=
  match msg with
  | Text s => AxText s
  | Binary b => AxBinary b
  | Close (Some frame) => AxClose (Some (close_code_u16 (code frame), reason frame))
  | Close None => AxClose None
  | Ping b => AxPing b
  | Pong b => AxPong b
  | RawFrame => AxClose None
  end.

Definition payload_len (msg : AxumWsMessage) : Z :=
  match msg with
  | AxText s => Z.of_nat (String.length s)
  | AxBinary b => Z.of_nat (length b)
  | _ => 0
  end.

(** ** State *)

(** The forwarder: not spawned yet, in [recv], in [blocking_send], or gone. *)
Inductive Forwarder := NotSpawned | InRecv | Holding (m : Message) | Gone.

(** The task: waiting for the upgrade, in its loop, or finished. *)
Inductive Task := Upgrading | Relaying | Finished.

(** [inbound] and [outbound] with their receivers; [worker] says that the worker is in the
    connection, so that it holds a sender of [outbound] and the receiver of [inbound].
    The rest are logs: what the client sent that the task took, what the worker got out of
    [inbound], what it could put into [outbound], what of that was sent to the socket, and
    the close frame of the relay's own. *)
Record Relay := mkRelay {
  inbound : SyncChannel Message;
  outbound : SyncChannel Message;
  worker : bool;
  forwarder : Forwarder;
  notify : list Message;
  task : Task;
  accepted : list AxumWsMessage;
  taken : list Message;
  pushed : list Message;
  relayed : list Message;
  own_close : option (Z * string);
}.

Definition relay_new : Relay :=
  mkRelay (mkChannel [] true) (mkChannel [] true) true NotSpawned [] Upgrading [] [] [] [] None.

Definition set_inbound (r : Relay) (c : SyncChannel Message) : Relay :=
  mkRelay c (outbound r) (worker r) (forwarder r) (notify r) (task r) (accepted r) (taken r) (pushed r) (relayed r) (own_close r).
Definition set_outbound (r : Relay) (c : SyncChannel Message) : Relay :=
  mkRelay (inbound r) c (worker r) (forwarder r) (notify r) (task r) (accepted r) (taken r) (pushed r) (relayed r) (own_close r).
Definition set_forwarder (r : Relay) (f : Forwarder) : Relay :=
  mkRelay (inbound r) (outbound r) (worker r) f (notify r) (task r) (accepted r) (taken r) (pushed r) (relayed r) (own_close r).
Definition set_notify (r : Relay) (l : list Message) : Relay :=
  mkRelay (inbound r) (outbound r) (worker r) (forwarder r) l (task r) (accepted r) (taken r) (pushed r) (relayed r) (own_close r).
Definition set_task (r : Relay) (t : Task) : Relay :=
  mkRelay (inbound r) (outbound r) (worker r) (forwarder r) (notify r) t (accepted r) (taken r) (pushed r) (relayed r) (own_close r).
Definition set_closed (r : Relay) (frame : Z * string) : Relay :=
  mkRelay (inbound r) (outbound r) (worker r) (forwarder r) (notify r) (task r) (accepted r) (taken r) (pushed r) (relayed r) (Some frame).
Definition log_accepted (r : Relay) (m : AxumWsMessage) : Relay :=
  mkRelay (inbound r) (outbound r) (worker r) (forwarder r) (notify r) (task r) (accepted r ++ [m]) (taken r) (pushed r) (relayed r) (own_close r).
Definition log_taken (r : Relay) (m : Message) : Relay :=
  mkRelay (inbound r) (outbound r) (worker r) (forwarder r) (notify r) (task r) (accepted r) (taken r ++ [m]) (pushed r) (relayed r) (own_close r).
Definition log_pushed (r : Relay) (m : Message) : Relay :=
  mkRelay (inbound r) (outbound r) (worker r) (forwarder r) (notify r) (task r) (accepted r) (taken r) (pushed r ++ [m]) (relayed r) (own_close r).
Definition log_relayed (r : Relay) (m : Message) : Relay :=
  mkRelay (inbound r) (outbound r) (worker r) (forwarder r) (notify r) (task r) (accepted r) (taken r) (pushed r) (relayed r ++ [m]) (own_close r).

(** ** The worker's ends of the channels *)

Definition worker_sends (r : Relay) (m : Message) : Relay :=
  let (c, s) := try_send (outbound r) m in
  let r := set_outbound r c in
  match s with Sent => log_pushed r m | _ => r end.

Definition worker_takes (r : Relay) : option Relay :=
  match queued (inbound r) with
  | m :: rest => Some (log_taken (set_inbound r (mkChannel rest (receiver (inbound r)))) m)
  | [] => None
  end.

(** The receiver of [inbound] is dropped with what waits in it, and the senders. *)
Definition worker_ends (r : Relay) : Relay :=
  mkRelay (mkChannel [] false) (outbound r) false (forwarder r) (notify r) (task r) (accepted r) (taken r)
          (pushed r) (relayed r) (own_close r).

(** ** The forwarder *)

Definition forwarder_gone (r : Relay) : Relay := set_forwarder (set_outbound r (mkChannel [] false)) Gone.

Definition forwarder_step (r : Relay) : option Relay :=
  match forwarder r with
  | InRecv =>
      match queued (outbound r) with
      | m :: rest => Some (set_forwarder (set_outbound r (mkChannel rest true)) (Holding m))
      | [] => if worker r then None else Some (forwarder_gone r)
      end
  | Holding m =>
      match task r with
      | Finished => Some (forwarder_gone r)
      | _ => if (length (notify r) <? CHANNEL_SLOTS)%nat
             then Some (set_forwarder (set_notify r (notify r ++ [m])) InRecv) else None
      end
  | NotSpawned | Gone => None
  end.

(** ** The relay task *)

(** The end of the task: its sender and receiver are dropped with what waits. *)
Definition finished (r : Relay) : Relay := set_task (set_notify r []) Finished.

Definition send_close (r : Relay) (ok : bool) (frame : Z * string) : Relay := if ok then set_closed r frame else r.

(** A message of the client; [ok] tells whether sending a close frame to it succeeds. *)
Definition on_client_message (r : Relay) (msg : AxumWsMessage) (ok : bool) : Relay :=
  if payload_len msg >? MAX_WS_MESSAGE_BYTES then finished (send_close r ok (1009, "Message too large"))
  else
    match axum_to_tungstenite msg with
    | Some m =>
        let (c, s) := try_send (inbound r) m in
        match s with
        | Sent => log_accepted (set_inbound r c) msg
        | Full => finished (send_close r ok (1008, "Backpressure limit"))
        | Disconnected => finished r
        end
    | None => log_accepted r msg
    end.

(** The other branch: a message for the client, or the end of the forwarder. *)
Definition on_outbound (r : Relay) (ok : bool) : option Relay :=
  match notify r with
  | m :: rest => Some (if ok then log_relayed (set_notify r rest) m else finished r)
  | [] => match forwarder r with Gone => Some (finished r) | _ => None end
  end.

(** ** Steps *)

Inductive RelayEvent :=
| UpgradeDone
| UpgradeFailed
| WorkerSends (m : Message)
| WorkerTakes
| WorkerEnds
| ForwarderRuns
| ClientMessage (msg : AxumWsMessage) (ok : bool)
| ClientGone
| RelaySends (ok : bool).

Definition relay_step (r : Relay) (e : RelayEvent) : option Relay :=
  match e with
  | UpgradeDone =>
      match task r with Upgrading => Some (set_task (set_forwarder r InRecv) Relaying) | _ => None end
  | UpgradeFailed =>
      match task r with Upgrading => Some (finished (forwarder_gone r)) | _ => None end
  | WorkerSends m => if worker r then Some (worker_sends r m) else None
  | WorkerTakes => if worker r then worker_takes r else None
  | WorkerEnds => if worker r then Some (worker_ends r) else None
  | ForwarderRuns => forwarder_step r
  | ClientMessage msg ok => match task r with Relaying => Some (on_client_message r msg ok) | _ => None end
  | ClientGone => match task r with Relaying => Some (finished r) | _ => None end
  | RelaySends ok => match task r with Relaying => on_outbound r ok | _ => None end
  end.

Fixpoint relay_run (r : Relay) (es : list RelayEvent) : option Relay :=
  match es with
  | [] => Some r
  | e :: es => relay_step r e ≫= λ r, relay_run r es
  end.

Definition held (r : Relay) : list Message := match forwarder r with Holding m => [m] | _ => [] end.

(** What the client got, in order: the messages of the worker, then the close frame of
    the relay, which ends it. *)
Definition to_client (r : Relay) : list AxumWsMessage :=
  (tungstenite_to_axum <$> relayed r) ++ (match own_close r with Some f => [AxClose (Some f)] | None => [] end).

(** ** The invariant *)

(** What was put into [outbound] is what was sent, what waits and, once the task has
    finished, what is lost; what was put into [inbound] is what the worker got and what
    waits. *)
Record relay_inv (r : Relay) : Prop := {
  inv_prefix : relayed r `prefix_of` pushed r;
  inv_pushed : task r ≠ Finished → pushed r = relayed r ++ notify r ++ held r ++ queued (outbound r);
  inv_taken : taken r `prefix_of` omap axum_to_tungstenite (accepted r);
  inv_accepted : worker r = true → omap axum_to_tungstenite (accepted r) = taken r ++ queued (inbound r);
  inv_worker : worker r = false → inbound r = mkChannel [] false;
  inv_slots : (length (queued (inbound r)) ≤ CHANNEL_SLOTS ∧ length (queued (outbound r)) ≤ CHANNEL_SLOTS ∧
               length (notify r) ≤ CHANNEL_SLOTS)%nat;
  inv_receiver : receiver (outbound r) = false → queued (outbound r) = [];
  inv_gone : forwarder r = Gone → receiver (outbound r) = false ∧ (task r ≠ Finished → worker r = false);
  inv_spawned : task r = Relaying → forwarder r ≠ NotSpawned;
  inv_upgrading : task r = Upgrading → forwarder r = NotSpawned;
  inv_payload : Forall (λ m, payload_len m <= MAX_WS_MESSAGE_BYTES) (accepted r);
  inv_close : is_Some (own_close r) → task r = Finished;
}.

Lemma relay_inv_new : relay_inv relay_new.
Proof. split; try done; simpl; [split_and!; unfold CHANNEL_SLOTS; lia|by intros []]. Qed.

(** *** Dropping what waits keeps the logs in order *)

Lemma finished_inv r : relay_inv r → relay_inv (finished r).
Proof.
  intros [H1 H2 H3 H4 H5 H6 H7 H8 H9 H10 H11 H12]. split; try done; cbn [finished set_task set_notify notify]; [simpl in *; lia|].
  intros Hg. cbn in *. split; [by apply H8|done].
Qed.

Lemma send_close_inv r ok f : relay_inv r → relay_inv (finished (send_close r ok f)).
Proof.
  intros Hr. destruct ok; [|by apply finished_inv]. apply finished_inv in Hr as [H1 H2 H3 H4 H5 H6 H7 H8 H9 H10 H11 H12].
  by split.
Qed.

Lemma on_client_inv r msg ok : relay_inv r → task r = Relaying → relay_inv (on_client_message r msg ok).
Proof.
  intros Hr Ht. unfold on_client_message. destruct (payload_len msg >? _) eqn:El; [by apply send_close_inv|].
  assert (Hp : payload_len msg <= MAX_WS_MESSAGE_BYTES) by lia.
  destruct (axum_to_tungstenite msg) as [m|] eqn:Em.
  - unfold try_send. destruct (receiver (inbound r)) eqn:Erecv; [|by apply finished_inv].
    destruct (_ <? _)%nat eqn:Es; [|by apply send_close_inv]. apply Nat.ltb_lt in Es.
    destruct Hr as [H1 H2 H3 H4 H5 H6 H7 H8 H9 H10 H11 H12].
    assert (Hw : worker r = true) by (destruct (worker r); [done|by rewrite H5 in Erecv]).
    split; try done; cbn in *.
    + rewrite omap_app. by apply prefix_app_r.
    + intros _. rewrite omap_app, H4 by done. cbn. by rewrite Em, app_assoc.
    + by rewrite Hw.
    + rewrite length_app. simpl. lia.
    + apply Forall_app. by split; [|constructor].
  - destruct Hr as [H1 H2 H3 H4 H5 H6 H7 H8 H9 H10 H11 H12]. split; try done; cbn in *.
    + rewrite omap_app. by apply prefix_app_r.
    + intros Hw. rewrite omap_app, H4 by done. cbn. by rewrite Em, app_nil_r.
    + apply Forall_app. by split; [|constructor].
Qed.

Lemma forwarder_gone_inv r : relay_inv r → task r ≠ Upgrading →
  (task r = Relaying → worker r = false ∧ held r = [] ∧ queued (outbound r) = []) → relay_inv (forwarder_gone r).
Proof.
  intros [H1 H2 H3 H4 H5 H6 H7 H8 H9 H10 H11 H12] Hu Hd. split; try done; cbn in *.
  - intros Ht. destruct Hd as (_ & Hh & Hq); [by destruct (task r)|]. by rewrite (H2 Ht), Hh, Hq.
  - lia.
  - intros _. split; [done|]. intros Ht. apply Hd. by destruct (task r).
Qed.

Lemma upgrade_failed_inv r : relay_inv r → relay_inv (finished (forwarder_gone r)).
Proof.
  intros [H1 H2 H3 H4 H5 H6 H7 H8 H9 H10 H11 H12]. split; try done; cbn in *; lia.
Qed.

Lemma forwarder_inv r r' : relay_inv r → forwarder_step r = Some r' → relay_inv r'.
Proof.
  intros Hr. unfold forwarder_step. destruct (forwarder r) as [| |m|] eqn:Ef; try done.
  - assert (Hu : task r ≠ Upgrading) by (intros Ht; by rewrite (inv_upgrading r Hr Ht) in Ef).
    destruct (queued (outbound r)) as [|m rest] eqn:Eq.
    + destruct (worker r) eqn:Ew; [done|]. intros [= <-]. apply forwarder_gone_inv; try done.
      intros _. unfold held. by rewrite Ef.
    + intros [= <-]. destruct Hr as [H1 H2 H3 H4 H5 H6 H7 H8 H9 H10 H11 H12]. split; try done; cbn in *.
      * intros Ht. rewrite (H2 Ht), Eq. unfold held. by rewrite Ef.
      * rewrite Eq in H6. simpl in H6. lia.
  - destruct (task r) eqn:Et; try (destruct (_ <? _)%nat eqn:Es; [|done]; apply Nat.ltb_lt in Es); intros [= <-].
    + by rewrite (inv_upgrading r Hr Et) in Ef.
    + destruct Hr as [H1 H2 H3 H4 H5 H6 H7 H8 H9 H10 H11 H12]. split; try done; cbn in *.
      * intros Ht. rewrite (H2 Ht). unfold held. rewrite Ef. by rewrite <- !app_assoc.
      * rewrite length_app. simpl. lia.
      * congruence.
    + apply forwarder_gone_inv; [done|congruence..].
Qed.

Lemma worker_sends_inv r m : relay_inv r → worker r = true → relay_inv (worker_sends r m).
Proof.
  intros Hr Hw. unfold worker_sends, try_send. destruct (receiver (outbound r)) eqn:Erecv.
  - destruct (_ <? _)%nat eqn:Es; [apply Nat.ltb_lt in Es|by destruct r].
    destruct Hr as [H1 H2 H3 H4 H5 H6 H7 H8 H9 H10 H11 H12]. split; try done; cbn in *.
    + by apply prefix_app_r.
    + intros Ht. rewrite (H2 Ht). by rewrite <- !app_assoc.
    + rewrite length_app. simpl. lia.
    + intros Hg. destruct (H8 Hg). congruence.
  - by destruct r.
Qed.

Lemma worker_takes_inv r r' : relay_inv r → worker r = true → worker_takes r = Some r' → relay_inv r'.
Proof.
  intros Hr Hw. unfold worker_takes. destruct (queued (inbound r)) as [|m rest] eqn:Eq; [done|]. intros [= <-].
  destruct Hr as [H1 H2 H3 H4 H5 H6 H7 H8 H9 H10 H11 H12]. split; try done; cbn in *.
  - exists rest. rewrite H4, Eq by done. by rewrite <- app_assoc.
  - intros _. rewrite H4, Eq by done. by rewrite <- app_assoc.
  - congruence.
  - rewrite Eq in H6. simpl in H6. lia.
Qed.

Lemma worker_ends_inv r : relay_inv r → relay_inv (worker_ends r).
Proof.
  intros [H1 H2 H3 H4 H5 H6 H7 H8 H9 H10 H11 H12]. split; try done; cbn in *; [lia|].
  intros Hg. by destruct (H8 Hg).
Qed.

Lemma on_outbound_inv r ok r' : relay_inv r → task r = Relaying → on_outbound r ok = Some r' → relay_inv r'.
Proof.
  intros Hr Ht. unfold on_outbound. destruct (notify r) as [|m rest] eqn:En.
  - destruct (forwarder r); try done. intros [= <-]. by apply finished_inv.
  - destruct ok; intros [= <-]; [|by apply finished_inv].
    destruct Hr as [H1 H2 H3 H4 H5 H6 H7 H8 H9 H10 H11 H12]. rewrite Ht in H2. specialize (H2 ltac:(done)).
    rewrite En in H2. split; try done; cbn in *.
    + rewrite H2. exists (rest ++ held r ++ queued (outbound r)). by rewrite <- app_assoc.
    + intros _. rewrite H2. by rewrite <- app_assoc.
    + rewrite En in H6. simpl in H6. lia.
Qed.

Lemma relay_step_inv r e r' : relay_inv r → relay_step r e = Some r' → relay_inv r'.
Proof.
  intros Hr. destruct e as [| |m| | | |msg ok| |ok]; cbn [relay_step].
  - destruct (task r) eqn:Et; try done. intros [= <-]. destruct Hr as [H1 H2 H3 H4 H5 H6 H7 H8 H9 H10 H11 H12].
    split; try done; cbn in *.
    + intros _. rewrite H2 by congruence. unfold held. by rewrite H10.
    + intros Hc. specialize (H12 Hc). congruence.
  - destruct (task r); try done. intros [= <-]. by apply upgrade_failed_inv.
  - destruct (worker r) eqn:Ew; [|done]. intros [= <-]. by apply worker_sends_inv.
  - destruct (worker r) eqn:Ew; [|done]. by apply worker_takes_inv.
  - destruct (worker r); [|done]. intros [= <-]. by apply worker_ends_inv.
  - by apply forwarder_inv.
  - destruct (task r) eqn:Et; try done. intros [= <-]. by apply on_client_inv.
  - destruct (task r); try done. intros [= <-]. by apply finished_inv.
  - destruct (task r) eqn:Et; try done. by apply on_outbound_inv.
Qed.

Lemma relay_run_inv es : ∀ r r', relay_inv r → relay_run r es = Some r' → relay_inv r'.
Proof.
  induction es as [|e es IH]; intros r r' Hr; cbn [relay_run]; [by intros [= <-]|].
  intros (r1 & Hs & Hrun)%bind_Some. eapply IH; [|done]. by eapply relay_step_inv.
Qed.

(** ** Properties *)

(** C16. In any run, whatever the worker and the client do: the worker gets what the client
    sent, and the client what the worker sent, in order and without repetition; nothing is
    lost while the relay and the worker are there, no queue has more than 128 messages and
    no message of the client more than 32 MiB; and once the relay has sent a close frame
    of its own the client gets nothing more. *)
Theorem relay_exact es r (Hrun : relay_run relay_new es = Some r) :
  (∃ lost, pushed r = relayed r ++ lost ∧
     (task r ≠ Finished → lost = notify r ++ held r ++ queued (outbound r))) ∧
  (∃ left_over, omap axum_to_tungstenite (accepted r) = taken r ++ left_over ∧
     (worker r = true → left_over = queued (inbound r))) ∧
  (length (queued (inbound r)) ≤ 128 ∧ length (queued (outbound r)) ≤ 128 ∧ length (notify r) ≤ 128)%nat ∧
  Forall (λ m, payload_len m <= MAX_WS_MESSAGE_BYTES) (accepted r) ∧
  (is_Some (own_close r) → task r = Finished ∧ ∀ es' r', relay_run r es' = Some r' → to_client r' = to_client r).
Proof.
  pose proof (relay_run_inv es _ _ relay_inv_new Hrun) as Hinv.
  assert (Hend : ∀ es' r1 r', task r1 = Finished → relay_run r1 es' = Some r' → to_client r' = to_client r1).
  { induction es' as [|e es' IH]; intros r1 r' Ht; cbn [relay_run]; [by intros [= <-]|].
    intros (r2 & Hs & Hr2)%bind_Some. assert (Hsame : task r2 = Finished ∧ to_client r2 = to_client r1).
    { destruct e; cbn [relay_step] in Hs; rewrite ?Ht in Hs; try done.
      - destruct (worker r1); [|done]. injection Hs as <-. unfold worker_sends.
        by destruct (try_send (outbound r1) m) as [c []].
      - destruct (worker r1); [|done]. unfold worker_takes in Hs. destruct (queued _); [done|]. by injection Hs as <-.
      - destruct (worker r1); [|done]. by injection Hs as <-.
      - unfold forwarder_step in Hs. rewrite Ht in Hs. destruct (forwarder r1); try done.
        + destruct (queued _); [destruct (worker r1); [done|]|]; by injection Hs as <-.
        + by injection Hs as <-. }
    destruct Hsame as [Ht2 <-]. by apply IH. }
  destruct Hinv as [H1 H2 H3 H4 H5 H6 H7 H8 H9 H10 H11 H12]. split_and!; try apply H6; [| |done|].
  - destruct H1 as [lost Hl]. exists lost. split; [done|]. intros Ht. specialize (H2 Ht). rewrite Hl in H2.
    by apply app_inv_head in H2.
  - destruct H3 as [rest Hl]. exists rest. split; [done|]. intros Ht. specialize (H4 Ht). rewrite Hl in H4.
    by apply app_inv_head in H4.
  - intros Hc. specialize (H12 Hc). split; [done|]. intros es' r' Hr'. by eapply Hend.
Qed.

(** What is left to do when the worker has ended and the client is silent. *)
Definition flushing (e : RelayEvent) : Prop := e = ForwarderRuns ∨ e = RelaySends true.

Definition work (r : Relay) : nat :=
  3 * length (queued (outbound r)) + 2 * length (held r) + length (notify r) +
  (match forwarder r with Gone => 0 | _ => 1 end) + (match task r with Finished => 0 | _ => 1 end).

(** Nothing of the worker's is lost so far. *)
Definition lossless (r : Relay) : Prop :=
  worker r = false ∧
  (task r = Relaying ∨ (task r = Finished ∧ forwarder r = Gone ∧ relayed r = pushed r)).

Lemma flush_step r e r' : relay_inv r → lossless r → flushing e → relay_step r e = Some r' →
  lossless r' ∧ pushed r' = pushed r ∧ (work r' < work r)%nat.
Proof.
  intros Hr [Hw Ht] [-> | ->]; cbn [relay_step].
  - unfold forwarder_step, work, held. destruct (forwarder r) as [| |m|] eqn:Ef; try done.
    + destruct Ht as [Ht|(_ & Hg & _)]; [|done]. destruct (queued (outbound r)) as [|m rest] eqn:Eq.
      * rewrite Hw. intros [= <-]. cbn. rewrite Ht. split_and!; [split; [done|by left]|done|lia].
      * intros [= <-]. cbn. rewrite Ht. split_and!; [split; [done|by left]|done|lia].
    + destruct Ht as [Ht|(_ & Hg & _)]; [|done]. rewrite Ht. destruct (_ <? _)%nat; [|done]. intros [= <-]. cbn.
      rewrite Ht, length_app. simpl. split_and!; [split; [done|by left]|done|lia].
  - destruct Ht as [Ht|(Ht & _)]; rewrite Ht; [|done]. unfold on_outbound, work, held.
    destruct (notify r) as [|m rest] eqn:En.
    + destruct (forwarder r) eqn:Ef; try done. intros [= <-]. cbn. rewrite Ht, Ef.
      split_and!; [split; [done|right; split_and!; [done..|]]|done|simpl; lia].
      change (relayed r = pushed r). rewrite (inv_pushed r Hr) by congruence. destruct (inv_gone r Hr Ef) as [Hg _].
      rewrite En, (inv_receiver r Hr Hg). unfold held. rewrite Ef. by rewrite !app_nil_r.
    + intros [= <-]. cbn. rewrite Ht. split_and!; [split; [done|by left]|done|lia].
Qed.

Lemma flush_stuck r : relay_inv r → lossless r → (∀ e, flushing e → relay_step r e = None) →
  task r = Finished ∧ relayed r = pushed r.
Proof.
  intros Hr [Hw Ht] Hstuck. destruct Ht as [Ht|(Ht & _ & Hp)]; [|done]. exfalso.
  pose proof (Hstuck ForwarderRuns (or_introl eq_refl)) as H1.
  pose proof (Hstuck (RelaySends true) (or_intror eq_refl)) as H2. cbn [relay_step] in H1, H2. rewrite Ht in H2.
  unfold forwarder_step in H1. unfold on_outbound in H2. rewrite Ht in H1.
  destruct (forwarder r) as [| |m|] eqn:Ef; [by apply (inv_spawned r Hr Ht)| | |by destruct (notify r)].
  - destruct (queued (outbound r)); [by rewrite Hw in H1|done].
  - destruct (notify r); [done|]. by destruct (_ <? _)%nat.
Qed.

(** Everything that a worker sent before it ended gets to a client that stays and
    keeps silent: the relay and the forwarder get through it in a bounded number of
    iterations in any order, and when neither can go on all of it was sent and the relay
    has finished. *)
Theorem worker_end_flushes es r es' r' (Hrun : relay_run relay_new es = Some r)
    (Hworker : worker r = false) (Htask : task r = Relaying)
    (Hflush : Forall flushing es') (Hrun' : relay_run r es' = Some r') :
  (length es' ≤ work r)%nat ∧
  ((∀ e, flushing e → relay_step r' e = None) → task r' = Finished ∧ relayed r' = pushed r).
Proof.
  pose proof (relay_run_inv es _ _ relay_inv_new Hrun) as Hinv.
  assert (Hless : lossless r) by (split; [done|by left]). clear Hrun Hworker Htask.
  revert r Hinv Hless Hrun'. induction Hflush as [|e es' He Hes IH]; intros r Hinv Hless; cbn [relay_run].
  - intros [= <-]. simpl. split; [lia|]. by apply flush_stuck.
  - intros (r1 & Hs & Hr1)%bind_Some. destruct (flush_step r e r1 Hinv Hless He Hs) as (Hl1 & Hp & Hw).
    destruct (IH r1 (relay_step_inv r e r1 Hinv Hs) Hl1 Hr1) as [Hn Hdone]. rewrite Hp in Hdone.
    simpl. split; [lia|done].
Qed.

(** A message of the client converted for the worker and back is the same message,
    the code of a close frame included. *)
Theorem messages_survive msg m (Hcode : match msg with AxClose (Some (c, _)) => 0 <= c < 65536 | _ => True end)
    (Hconv : axum_to_tungstenite msg = Some m) : tungstenite_to_axum m = msg.
Proof.
  destruct msg as [s|b|b|b|[[c s]|]]; simplify_eq/=; try done. by rewrite close_code_round_trip.
Qed.

(** A message that arrives after the worker has ended closes the relay at once, and what
    the worker had sent last is lost. *)
Lemma late_message_loses_close : ∃ r,
  relay_run relay_new [UpgradeDone; WorkerSends (Close None); WorkerEnds; ClientMessage (AxText "x") true] = Some r ∧
  task r = Finished ∧ pushed r = [Close None] ∧ to_client r = [].
Proof. eexists. split; [reflexivity|done]. Qed.
End relay.

(** ** Witnesses *)

#[local] Instance demo_codes : CloseCodes := {|
  CloseCode := Z; close_code_from := λ c, c; close_code_u16 := λ c, c; close_code_error := 1011;
  close_code_round_trip := λ _ _, eq_refl; close_code_error_u16 := eq_refl |}.

Definition demo_session : list RelayEvent :=
  [WorkerSends (Text "a"); UpgradeDone; ClientMessage (AxText "b") true; ForwarderRuns; WorkerTakes; WorkerSends (Text "c");
   WorkerEnds].

Definition demo_relay : Relay := default relay_new (relay_run relay_new demo_session).

Lemma relay_exact_witness : ∃ lost, pushed demo_relay = relayed demo_relay ++ lost ∧ lost = [Text "a"; Text "c"].
Proof.
  destruct (relay_exact demo_session demo_relay ltac:(vm_compute; reflexivity)) as ((lost & Hp & Hl) & _).
  exists lost. split; [exact Hp|]. exact (Hl ltac:(vm_compute; discriminate)).
Defined.

Lemma worker_end_flushes_witness :
  let es' := [ForwarderRuns; ForwarderRuns; RelaySends true; ForwarderRuns; ForwarderRuns; RelaySends true; RelaySends true] in
  let r' := default relay_new (relay_run demo_relay es') in
  task r' = Finished ∧ relayed r' = [Text "a"; Text "c"].
Proof.
  intros es' r'.
  assert (Hf : Forall flushing es') by (repeat (constructor; [first [by left|by right]|]); constructor).
  pose proof (worker_end_flushes demo_session demo_relay es' r' ltac:(vm_compute; reflexivity)
    ltac:(vm_compute; reflexivity) ltac:(vm_compute; reflexivity) Hf ltac:(vm_compute; reflexivity)) as [_ Hd].
  apply Hd. intros e [-> | ->]; vm_compute; reflexivity.
Defined.

Lemma messages_survive_witness : tungstenite_to_axum (Close (Some (mkCloseFrame 4001 "bye"))) = AxClose (Some (4001, "bye")).
Proof. exact (messages_survive (AxClose (Some (4001, "bye"))) _ ltac:(simpl; lia) eq_refl). Defined.
