(* ===== verification/Wasm.v ===== *)
(** * WebAssembly modules: [src/wasm/]

    Validation ([loader.rs], [engine.rs], the callback of [js_api.rs]); the caches of
    compiled modules: the one of the process ([engine.rs]), the one a script installs in
    every isolate ([js_api.rs]), and the one stored in slivers with its format
    ([sliver.rs]).  Compilation by the engine and the hash of [sha2] are parameters. *)

From stdpp Require Import base gmap list strings pretty.
From Stdlib Require Import ZArith Lia.
From Stdlib.Strings Require Byte.
From S2P Require Import Prelude RustString RustList Router CryptoKeys CryptoApi.

Open Scope Z_scope.

#[export] Instance byte_eq_dec : EqDecision Byte.byte := Byte.byte_eq_dec.

Definition byte_value (b : Byte.byte) : Z := Z.of_N (Byte.to_N b).
Definition byte_of (z : Z) : Byte.byte := default Byte.x00 (Byte.of_N (Z.to_N z)).

(** [u32::from_le_bytes] and [u32::to_le_bytes] *)
Definition from_le_bytes (b0 b1 b2 b3 : Byte.byte) : Z :=
  byte_value b0 + 256 * byte_value b1 + 65536 * byte_value b2 + 16777216 * byte_value b3.
Definition to_le_bytes (n : Z) : bytes :=
  [byte_of (n mod 256); byte_of (n / 256 mod 256); byte_of (n / 65536 mod 256); byte_of (n / 16777216 mod 256)].

Definition read_u32 (bs : bytes) : option (Z * bytes) :=
  match bs with
  | b0 :: b1 :: b2 :: b3 :: rest => Some (from_le_bytes b0 b1 b2 b3, rest)
  | _ => None
  end.

(** ** Validation *)

Inductive WasmError :=
| CompileError (msg : string)
| InstantiationError (msg : string)
| ValidationError (msg : string)
| MemoryLimitExceeded (used max : Z)
| WasiError (msg : string)
| ImportNotFound (module name : string).

Inductive WasmValidationError := TooSmall | InvalidMagic | UnsupportedVersion (v : Z).

Definition WASM_MAGIC : bytes := [Byte.x00; Byte.x61; Byte.x73; Byte.x6d].

Definition version_of (bs : bytes) : Z := from_option fst 0 (read_u32 (drop 4 bs)).

Definition validate_wasm_bytes (bs : bytes) : result unit WasmValidationError :=
  if (length bs <? 8)%nat then Err TooSmall
  else if negb (bool_decide (take 4 bs = WASM_MAGIC)) then Err InvalidMagic
  else
    let version := version_of bs in
    if negb (version =? 1) && negb (version =? 2) then Err (UnsupportedVersion version) else Ok tt.

Definition loader_validate (bs : bytes) : result unit WasmError :=
  if (length bs <? 8)%nat then Err (ValidationError "File too small - minimum 8 bytes required")
  else if negb (bool_decide (take 4 bs = WASM_MAGIC)) then Err (ValidationError "Invalid WASM magic number - expected \0asm")
  else
    let version := version_of bs in
    if negb (version =? 1) && negb (version =? 2)
    then Err (ValidationError ("Unsupported WASM version: " +:+ pretty version)) else Ok tt.

Definition eq_ignore_ascii_case (a b : string) : bool := String.eqb (ascii_lowercase a) (ascii_lowercase b).

Definition is_wasm_file (path : string) : bool :=
  match path_extension path with Some ext => eq_ignore_ascii_case ext "wasm" | None => false end.

Record WasmModule := mkModule { wm_bytes : bytes; wm_path : option string }.

Definition module_from_bytes (bs : bytes) : result WasmModule WasmError :=
  match loader_validate bs with Ok _ => Ok (mkModule bs None) | Err e => Err e end.
Definition module_from_bytes_with_path (bs : bytes) (path : string) : result WasmModule WasmError :=
  match loader_validate bs with Ok _ => Ok (mkModule bs (Some path)) | Err e => Err e end.
Definition module_size (m : WasmModule) : nat := length (wm_bytes m).

(** [WebAssembly.validate]: a boolean, or a thrown [TypeError]. *)
Definition wasm_validate_callback (v : JsVal) : result bool string :=
  match v with
  | VArrayBuffer bs | VUint8Array bs => Ok (is_ok (loader_validate bs))
  | _ => Err "WebAssembly.validate: argument must be an ArrayBuffer or TypedArray"
  end.

(** ** The cache of the process *)

Section engine.
(** A compiled module; what the engine compiles and restores; [sha2] in hexadecimal. *)
Context {Compiled : Type} (compile : bytes → option Compiled) (restore : Compiled → bool) (sha256_hex : bytes → string).

Inductive WasmCompileError := CompilationFailed | CacheCorrupted | ModuleTooLarge.

Definition WasmModuleCache : Type := gmap string Compiled.

Definition compute_hash (bs : bytes) : string := sha256_hex bs.
Definition cache_get (c : WasmModuleCache) (hash : string) : option Compiled := c !! hash.
Definition cache_store (c : WasmModuleCache) (hash : string) (m : Compiled) : WasmModuleCache := <[hash := m]> c.
Definition cache_contains (c : WasmModuleCache) (hash : string) : bool := bool_decide (is_Some (c !! hash)).
Definition cache_clear (c : WasmModuleCache) : WasmModuleCache := ∅.
Definition cache_len (c : WasmModuleCache) : nat := size c.

Definition compile_module (bs : bytes) (cache : option WasmModuleCache)
    : option WasmModuleCache * result Compiled WasmCompileError :=
  let hash := compute_hash bs in
  match cache ≫= (λ c, cache_get c hash) with
  | Some m => (cache, if restore m then Ok m else Err CacheCorrupted)
  | None =>
      match compile bs with
      | Some m => ((λ c, cache_store c hash m) <$> cache, Ok m)
      | None => (cache, Err CompilationFailed)
      end
  end.

(** ** The cache in an isolate *)

(** [_h]: FNV-1a in 32 bits, in hexadecimal, with the length. *)
Definition fnv_step (h : Z) (b : Byte.byte) : Z := (Z.lxor h (byte_value b) * 16777619) mod 2 ^ 32.
Definition fnv1a (bs : bytes) : Z := foldl fnv_step 2166136261 bs.
Definition polyfill_key (bs : bytes) : string := lower_hex (fnv1a bs) +:+ (":" +:+ pretty (N.of_nat (length bs))).

(** [_wc] and the compilations that have not been resolved yet. *)
Record Polyfill := mkPolyfill { wc : gmap string Compiled; waiting : list bytes }.

Inductive Answer := Cached (m : Compiled) | Started.

(** [WebAssembly.compile] of bytes; [instantiate] begins in the same way. *)
Definition polyfill_compile (p : Polyfill) (source : bytes) : Polyfill * Answer :=
  match wc p !! polyfill_key source with
  | Some m => (p, Cached m)
  | None => (mkPolyfill (wc p) (waiting p ++ [source]), Started)
  end.

(** A compilation resolves, with the module if there is one. *)
Definition polyfill_resolve (p : Polyfill) (i : nat) : option (Polyfill * option Compiled) :=
  match waiting p !! i with
  | Some source =>
      let rest := delete i (waiting p) in
      Some (match compile source with
            | Some m => (mkPolyfill (<[polyfill_key source := m]> (wc p)) rest, Some m)
            | None => (mkPolyfill (wc p) rest, None)
            end)
  | None => None
  end.

Inductive PolyfillEvent := Compile (source : bytes) | Resolve (i : nat).

Definition polyfill_step (p : Polyfill) (e : PolyfillEvent) : option Polyfill :=
  match e with
  | Compile source => Some (fst (polyfill_compile p source))
  | Resolve i => fst <$> polyfill_resolve p i
  end.

Fixpoint polyfill_run (p : Polyfill) (es : list PolyfillEvent) : option Polyfill :=
  match es with
  | [] => Some p
  | e :: es => polyfill_step p e ≫= λ p, polyfill_run p es
  end.

Definition polyfill_new : Polyfill := mkPolyfill ∅ [].

(** What the program asked to be compiled. *)
Definition sources (es : list PolyfillEvent) : list bytes :=
  omap (λ e, match e with Compile s => Some s | Resolve _ => None end) es.
End engine.

Arguments Cached {Compiled} m.
Arguments Started {Compiled}.

(** ** Modules in slivers *)

Record CompiledWasmModule := mkCompiled {
  source_hash : bytes;
  module_bytes : bytes;
  m_size : nat;
  m_path : string;
}.

Section sliver.
Context `{!HashOrder CompiledWasmModule} (sha256 : bytes → bytes) (utf8_lossy : bytes → string).

Definition SliverWasmCache : Type := gmap string CompiledWasmModule.

Definition sliver_get (c : SliverWasmCache) (path : string) : option CompiledWasmModule := c !! path.
Definition sliver_insert (c : SliverWasmCache) (path : string) (m : CompiledWasmModule) : SliverWasmCache := <[path := m]> c.

Definition add_module (c : SliverWasmCache) (path : string) (bs : bytes) : SliverWasmCache :=
  <[path := mkCompiled (sha256 bs) bs (length bs) path]> c.

Definition path_bytes (path : string) : bytes := String.list_byte_of_string path.
Definition len_le_bytes (bs : bytes) : bytes := to_le_bytes (as_u32 (Z.of_nat (length bs))).

Definition serialize_entry (e : string * CompiledWasmModule) : bytes :=
  len_le_bytes (path_bytes e.1) ++ path_bytes e.1 ++ source_hash e.2 ++
  len_le_bytes (module_bytes e.2) ++ module_bytes e.2.

Definition serialize (c : SliverWasmCache) : bytes :=
  to_le_bytes (as_u32 (Z.of_nat (size c))) ++ concat (serialize_entry <$> hash_iter c).

(** The next [n] bytes, if there are so many. *)
Definition read_bytes (n : nat) (bs : bytes) : option (bytes * bytes) :=
  if (length bs <? n)%nat then None else Some (take n bs, drop n bs).

Definition truncated (what : string) : WasmError := CompileError ("Invalid WASM cache: truncated" +:+ what).

Definition or_truncated {A} (o : option A) (what : string) : result A WasmError :=
  match o with Some a => Ok a | None => Err (truncated what) end.

(** One entry: its path, hash and bytes, and what follows. *)
Definition read_entry (bs : bytes) : result (string * bytes * bytes * bytes) WasmError :=
  let? p := or_truncated (read_u32 bs) "" in
  let? q := or_truncated (read_bytes (Z.to_nat p.1) p.2) " path" in
  let path := utf8_lossy q.1 in
  let? h := or_truncated (read_bytes 32 q.2) " hash" in
  let? l := or_truncated (read_u32 h.2) " length" in
  let? m := or_truncated (read_bytes (Z.to_nat l.1) l.2) " data" in
  Ok (path, h.1, m.1, m.2).

Fixpoint read_entries (count : nat) (c : SliverWasmCache) (bs : bytes) : result (SliverWasmCache * bytes) WasmError :=
  match count with
  | O => Ok (c, bs)
  | S count =>
      let? e := read_entry bs in
      let '(path, hash, data, rest) := e in
      read_entries count (<[path := mkCompiled hash data (length data) path]> c) rest
  end.

Definition deserialize (bs : bytes) : result SliverWasmCache WasmError :=
  match read_u32 bs with
  | None => Err (CompileError "Invalid WASM cache: too small")
  | Some (count, rest) => let? r := read_entries (Z.to_nat count) ∅ rest in Ok r.1
  end.

Definition module_paths (c : SliverWasmCache) : list string := (hash_iter c).*1.
Definition total_size (c : SliverWasmCache) : nat := sum_list ((λ e, m_size e.2) <$> hash_iter c).
Definition module_count (c : SliverWasmCache) : nat := size c.
End sliver.

(** ** Little-endian numbers *)

Lemma byte_value_of z : 0 <= z < 256 → byte_value (byte_of z) = z.
Proof.
  intros Hz. assert (z ∈ seqZ 0 256) as Hin by (apply elem_of_seqZ; lia).
  clear Hz. revert z Hin. apply Forall_forall. vm_compute. repeat constructor.
Qed.

Lemma byte_of_value b : byte_of (byte_value b) = b.
Proof. by destruct b. Qed.

Lemma byte_value_range b : 0 <= byte_value b < 256.
Proof. by destruct b. Qed.

Lemma length_to_le n : length (to_le_bytes n) = 4%nat.
Proof. done. Qed.

Lemma read_to_le n rest : 0 <= n < 2 ^ 32 → read_u32 (to_le_bytes n ++ rest) = Some (n, rest).
Proof.
  intros Hn. unfold to_le_bytes. cbn [app read_u32]. f_equal. f_equal. unfold from_le_bytes.
  rewrite !byte_value_of by (apply Z.mod_pos_bound; lia).
  replace (n / 65536) with (n / 256 / 256) by (rewrite Z.div_div by lia; done).
  replace (n / 16777216) with (n / 256 / 256 / 256) by (rewrite !Z.div_div by lia; done).
  pose proof (Z.div_mod n 256 ltac:(lia)). pose proof (Z.div_mod (n / 256) 256 ltac:(lia)).
  pose proof (Z.div_mod (n / 256 / 256) 256 ltac:(lia)).
  rewrite (Z.mod_small (n / 256 / 256 / 256)); [lia|]. rewrite !Z.div_div by lia.
  split; [apply Z.div_pos; lia|apply Z.div_lt_upper_bound; lia].
Qed.

Lemma read_u32_inv bs n rest : read_u32 bs = Some (n, rest) → 0 <= n < 2 ^ 32 ∧ bs = to_le_bytes n ++ rest.
Proof.
  destruct bs as [|b0 [|b1 [|b2 [|b3 bs]]]]; try done. cbn [read_u32]. intros [= <- <-].
  pose proof (byte_value_range b0). pose proof (byte_value_range b1).
  pose proof (byte_value_range b2). pose proof (byte_value_range b3).
  unfold from_le_bytes. split; [lia|]. unfold to_le_bytes.
  assert (Hd : ∀ a b c k, 0 <= a < k → 0 < k → 0 <= b → c = a + k * b → c mod k = a ∧ c / k = b).
  { intros a b c k Ha Hk Hb ->. split; [by rewrite Z.mul_comm, Z_mod_plus_full, Z.mod_small|].
    rewrite Z.mul_comm, Z.div_add by lia. rewrite Z.div_small by lia. lia. }
  set (z := byte_value b0 + _ + _ + _).
  destruct (Hd (byte_value b0) (byte_value b1 + 256 * byte_value b2 + 65536 * byte_value b3) z 256) as [-> E1]; [lia..|].
  destruct (Hd (byte_value b1) (byte_value b2 + 256 * byte_value b3) (z / 256) 256) as [-> E2]; [lia..|].
  replace (z / 65536) with (z / 256 / 256) by (rewrite Z.div_div by lia; done).
  destruct (Hd (byte_value b2) (byte_value b3) (z / 256 / 256) 256) as [-> E3]; [lia..|].
  replace (z / 16777216) with (z / 256 / 256 / 256) by (rewrite !Z.div_div by lia; done).
  rewrite E3, (Z.mod_small (byte_value b3)) by lia. by rewrite !byte_of_value.
Qed.

Lemma read_bytes_app (a rest : bytes) : read_bytes (length a) (a ++ rest) = Some (a, rest).
Proof.
  unfold read_bytes. rewrite length_app. destruct (Nat.ltb_spec (length a + length rest) (length a)); [lia|].
  by rewrite take_app_length, drop_app_length.
Qed.

Lemma read_bytes_inv n bs a rest : read_bytes n bs = Some (a, rest) → length a = n ∧ bs = a ++ rest.
Proof.
  unfold read_bytes. destruct (Nat.ltb_spec (length bs) n); [done|]. intros [= <- <-].
  rewrite length_take. split; [lia|]. by rewrite take_drop.
Qed.

(** ** Validation *)

(** Both validators and [WebAssembly.validate] accept exactly the byte strings that
    begin with the magic number and version 1 or 2. *)
Theorem validators_agree bs :
  let valid := ∃ v rest, (v = 1 ∨ v = 2) ∧ bs = WASM_MAGIC ++ to_le_bytes v ++ rest in
  (validate_wasm_bytes bs = Ok tt ↔ valid) ∧ (loader_validate bs = Ok tt ↔ valid) ∧
  (wasm_validate_callback (VUint8Array bs) = Ok true ↔ valid).
Proof.
  cbn zeta. set (valid := ∃ v rest, _).
  assert (Hvalid : valid ↔ (8 ≤ length bs)%nat ∧ take 4 bs = WASM_MAGIC ∧ (version_of bs = 1 ∨ version_of bs = 2)).
  { subst valid. split.
    - intros (v & rest & Hv & ->). split; [rewrite !length_app; simpl; lia|]. split; [done|].
      unfold version_of. change (drop 4 _) with (to_le_bytes v ++ rest). by rewrite read_to_le by lia.
    - intros (Hl & Hm & Hv). unfold version_of in Hv. pose proof (take_drop 4 bs) as Htd. rewrite Hm in Htd.
      destruct (read_u32 (drop 4 bs)) as [[v rest]|] eqn:E; [|simpl in Hv; lia].
      apply read_u32_inv in E as [_ E]. exists v, rest. split; [done|]. by rewrite <- E. }
  assert (Hver : negb (version_of bs =? 1) && negb (version_of bs =? 2) = false ↔ version_of bs = 1 ∨ version_of bs = 2).
  { destruct (Z.eqb_spec (version_of bs) 1), (Z.eqb_spec (version_of bs) 2); simpl; intuition lia. }
  assert (Hboth : (validate_wasm_bytes bs = Ok tt ↔ valid) ∧ (loader_validate bs = Ok tt ↔ valid)).
  { rewrite Hvalid. unfold validate_wasm_bytes, loader_validate. destruct (Nat.ltb_spec (length bs) 8); [split; split; try done; lia|].
    destruct (bool_decide_reflect (take 4 bs = WASM_MAGIC)); cbn [negb]; [|split; split; naive_solver].
    destruct (negb _ && _) eqn:E; split; split; try done; naive_solver. }
  destruct Hboth as [H1 H2]. split_and!; [done..|]. rewrite <- H2. cbn [wasm_validate_callback].
  destruct (loader_validate bs) as [[]|]; naive_solver.
Qed.

(** ** The format of slivers *)

Section format.
Context `{!HashOrder CompiledWasmModule} (utf8_lossy : bytes → string).

(** An entry as it is written: the bytes of its path, its hash and its data. *)
Definition RawEntry : Type := bytes * bytes * bytes.

Definition raw_valid (e : RawEntry) : Prop :=
  Z.of_nat (length e.1.1) < 2 ^ 32 ∧ length e.1.2 = 32%nat ∧ Z.of_nat (length e.2) < 2 ^ 32.

Definition encode (e : RawEntry) : bytes :=
  to_le_bytes (Z.of_nat (length e.1.1)) ++ e.1.1 ++ e.1.2 ++ to_le_bytes (Z.of_nat (length e.2)) ++ e.2.

Definition add_raw (c : SliverWasmCache) (e : RawEntry) : SliverWasmCache :=
  <[utf8_lossy e.1.1 := mkCompiled e.1.2 e.2 (length e.2) (utf8_lossy e.1.1)]> c.

Lemma read_entry_encode e rest : raw_valid e →
  read_entry utf8_lossy (encode e ++ rest) = Ok (utf8_lossy e.1.1, e.1.2, e.2, rest).
Proof.
  destruct e as [[p h] d]. intros (Hp & Hh & Hd). cbn in Hp, Hh, Hd. unfold encode, read_entry. cbn [fst snd].
  rewrite <- !app_assoc, read_to_le by lia. cbn [or_truncated result_bind fst snd].
  rewrite Nat2Z.id, read_bytes_app. cbn [or_truncated result_bind fst snd].
  rewrite <- Hh, read_bytes_app. cbn [or_truncated result_bind fst snd].
  rewrite read_to_le by lia. cbn [or_truncated result_bind fst snd].
  by rewrite Nat2Z.id, read_bytes_app.
Qed.

Lemma or_truncated_ok {A} (o : option A) what a : or_truncated o what = Ok a ↔ o = Some a.
Proof. destruct o; naive_solver. Qed.

Lemma read_entry_inv bs path hash data rest : read_entry utf8_lossy bs = Ok (path, hash, data, rest) →
  ∃ p, path = utf8_lossy p ∧ raw_valid (p, hash, data) ∧ bs = encode (p, hash, data) ++ rest.
Proof.
  unfold read_entry. rewrite result_bind_ok. intros ([n1 r1] & (Hn1 & ->)%or_truncated_ok%read_u32_inv & Hr). revert Hr.
  rewrite result_bind_ok. intros ([p r2] & (Hp & Hr1)%or_truncated_ok%read_bytes_inv & Hr). revert Hr.
  rewrite result_bind_ok. intros ([h r3] & (Hh & Hr2)%or_truncated_ok%read_bytes_inv & Hr). revert Hr.
  rewrite result_bind_ok. intros ([n2 r4] & (Hn2 & Hr3)%or_truncated_ok%read_u32_inv & Hr). revert Hr.
  rewrite result_bind_ok. intros ([d r5] & (Hd & Hr4)%or_truncated_ok%read_bytes_inv & Hr).
  cbn [fst snd] in *. injection Hr as <- <- <- <-. exists p. unfold raw_valid, encode. cbn [fst snd].
  split_and!; [done|lia|done|lia|]. rewrite Hr1, Hr2, Hr3, Hr4, Hp, Hd, !Z2Nat.id by lia. by rewrite <- !app_assoc.
Qed.

Lemma read_entries_encode es rest : Forall raw_valid es → ∀ c,
  read_entries utf8_lossy (length es) c (concat (encode <$> es) ++ rest) = Ok (foldl add_raw c es, rest).
Proof.
  induction 1 as [|e es He Hes IH]; intros c; [done|]. cbn [length fmap list_fmap concat read_entries].
  rewrite <- app_assoc, read_entry_encode by done. cbn [result_bind]. apply IH.
Qed.

Lemma read_entries_inv n : ∀ c bs c' rest, read_entries utf8_lossy n c bs = Ok (c', rest) →
  ∃ es, length es = n ∧ Forall raw_valid es ∧ bs = concat (encode <$> es) ++ rest ∧ c' = foldl add_raw c es.
Proof.
  induction n as [|n IH]; intros c bs c' rest; cbn [read_entries]; [intros [= <- <-]; by exists []|].
  rewrite result_bind_ok. intros ([[[path hash] data] r] & (p & -> & Hv & ->)%read_entry_inv & Hr).
  apply IH in Hr as (es & <- & Hes & -> & ->). exists ((p, hash, data) :: es). split_and!; [done|by constructor| |done].
  rewrite fmap_cons. cbn [concat]. by rewrite <- app_assoc.
Qed.

(** A stored cache is accepted exactly if it is a number of entries, that many entries
    with hashes of 32 bytes, and anything behind them; the last entry of a path counts.
    Otherwise an error is returned: reading never goes beyond the bytes. *)
Theorem deserialize_exact bs c :
  deserialize utf8_lossy bs = Ok c ↔
  ∃ es rest, Z.of_nat (length es) < 2 ^ 32 ∧ Forall raw_valid es ∧
    bs = to_le_bytes (Z.of_nat (length es)) ++ concat (encode <$> es) ++ rest ∧ c = foldl add_raw ∅ es.
Proof.
  split.
  - unfold deserialize. destruct (read_u32 bs) as [[n r]|] eqn:E; [|done]. apply read_u32_inv in E as [Hn ->].
    rewrite result_bind_ok. intros ([c' rest] & (es & Hl & Hes & -> & ->)%read_entries_inv & [= <-]).
    exists es, rest. rewrite Hl, Z2Nat.id by lia. by split_and!; [lia|..].
  - intros (es & rest & Hl & Hes & -> & ->). unfold deserialize. rewrite read_to_le by lia.
    by rewrite Nat2Z.id, read_entries_encode.
Qed.

(** *** Storing and reading back *)

(** What the program has in a cache: lengths that fit the format, SHA-256 hashes, and the
    fields that repeat the path and the size. *)
Definition storable (k : string) (m : CompiledWasmModule) : Prop :=
  raw_valid (path_bytes k, source_hash m, module_bytes m) ∧ utf8_lossy (path_bytes k) = k ∧
  m_path m = k ∧ m_size m = length (module_bytes m).

Definition raw_of (e : string * CompiledWasmModule) : RawEntry := (path_bytes e.1, source_hash e.2, module_bytes e.2).

Lemma len_le_small (bs : bytes) : Z.of_nat (length bs) < 2 ^ 32 → len_le_bytes bs = to_le_bytes (Z.of_nat (length bs)).
Proof. intros Hl. unfold len_le_bytes, as_u32. by rewrite Z.mod_small by (unfold two32; lia). Qed.

Lemma serialize_entry_encode e : storable e.1 e.2 → serialize_entry e = encode (raw_of e).
Proof.
  intros ((Hp & Hh & Hd) & _). unfold serialize_entry, encode, raw_of. cbn [fst snd] in *.
  by rewrite !len_le_small by done.
Qed.

Lemma foldl_add_raw (l : list (string * CompiledWasmModule)) : NoDup l.*1 → Forall (λ e, storable e.1 e.2) l → ∀ c,
  foldl add_raw c (raw_of <$> l) = list_to_map l ∪ c.
Proof.
  intros Hnd Hst. induction Hst as [|[k m] l Hm Hst IH]; intros c; csimpl; [by rewrite (left_id_L ∅ _)|].
  apply NoDup_cons in Hnd as [Hk Hnd]. rewrite (IH Hnd).
  assert (Hadd : add_raw c (raw_of (k, m)) = <[k := m]> c).
  { destruct Hm as (_ & Hu & Hp & Hs). unfold add_raw, raw_of. cbn [fst snd] in *. rewrite Hu.
    by destruct m; cbn in *; subst. }
  rewrite Hadd. symmetry. etrans; [symmetry; apply insert_union_l|]. apply insert_union_r. by apply not_elem_of_list_to_map.
Qed.

(** Reading a stored cache gives the cache back, whatever follows it in the file. *)
Theorem wasm_cache_round_trip c junk (Hsize : Z.of_nat (size c) < 2 ^ 32) (Hst : map_Forall storable c) :
  deserialize utf8_lossy (serialize c ++ junk) = Ok c.
Proof.
  pose proof (hash_iter_perm c) as Hperm.
  assert (Hf : Forall (λ e, storable e.1 e.2) (hash_iter c)).
  { rewrite Hperm. apply Forall_forall. intros [k m] Hin%elem_of_map_to_list. by apply Hst. }
  assert (Hn : NoDup (hash_iter c).*1) by (rewrite Hperm; apply NoDup_fst_map_to_list).
  assert (Hlen : length (hash_iter c) = size c) by (rewrite Hperm; apply length_map_to_list).
  apply deserialize_exact. exists (raw_of <$> hash_iter c), junk. rewrite length_fmap, Hlen. split_and!.
  - done.
  - apply Forall_fmap. eapply Forall_impl; [exact Hf|]. by intros e [? _].
  - unfold serialize, as_u32. rewrite Z.mod_small by (unfold two32; lia). rewrite <- app_assoc. f_equal. f_equal. f_equal.
    rewrite <- list_fmap_compose. apply list_fmap_ext. intros i e Hi. apply serialize_entry_encode.
    by apply (Forall_lookup_1 _ _ _ _ Hf Hi).
  - rewrite foldl_add_raw by done. rewrite (right_id_L ∅ _). rewrite <- (list_to_map_to_list c) at 1.
    apply list_to_map_proper; [|done]. apply NoDup_fst_map_to_list.
Qed.

(** What is cut off is never taken for a smaller cache. *)
Lemma truncation_refused c bs (Hsize : Z.of_nat (size c) < 2 ^ 32) (Hst : map_Forall storable c) cut :
  serialize c = bs ++ cut → cut ≠ [] → is_ok (deserialize utf8_lossy bs) = false.
Proof.
  intros Hs Hcut. destruct (deserialize utf8_lossy bs) as [c'|] eqn:E; [|done]. exfalso.
  apply deserialize_exact in E as (es' & rest' & Hl' & Hes' & -> & _).
  pose proof (hash_iter_perm c) as Hperm.
  assert (Hf : Forall (λ e, storable e.1 e.2) (hash_iter c)).
  { rewrite Hperm. apply Forall_forall. intros [k m] Hin%elem_of_map_to_list. by apply Hst. }
  assert (Hlen : length (hash_iter c) = size c) by (rewrite Hperm; apply length_map_to_list).
  assert (He : serialize_entry <$> hash_iter c = encode <$> (raw_of <$> hash_iter c)).
  { rewrite <- list_fmap_compose. apply list_fmap_ext. intros i e Hi. apply serialize_entry_encode.
    by apply (Forall_lookup_1 _ _ _ _ Hf Hi). }
  assert (Hes : Forall raw_valid (raw_of <$> hash_iter c)).
  { apply Forall_fmap. eapply Forall_impl; [exact Hf|]. by intros e [? _]. }
  unfold serialize, as_u32 in Hs. rewrite Z.mod_small, He, <- !app_assoc in Hs by (unfold two32; lia).
  pose proof (f_equal read_u32 Hs) as Hr. rewrite !read_to_le in Hr by lia. injection Hr as Hn Hb.
  rewrite <- Hlen, <- (length_fmap raw_of) in Hn. apply Nat2Z.inj in Hn.
  pose proof (read_entries_encode _ [] Hes ∅) as H1. pose proof (read_entries_encode _ (rest' ++ cut) Hes' ∅) as H2.
  rewrite app_nil_r, Hb, Hn in H1. rewrite H1 in H2. injection H2 as _ H2. by apply eq_sym, app_eq_nil in H2 as [_ ?].
Qed.

Lemma add_module_storable sha256 c path bs : map_Forall storable c → utf8_lossy (path_bytes path) = path →
  raw_valid (path_bytes path, sha256 bs, bs) → map_Forall storable (add_module sha256 c path bs).
Proof. intros Hc Hu Hv. apply map_Forall_insert_2; [|done]. by repeat split; try apply Hv. Qed.
End format.

(** ** The caches of compiled modules *)

Section caches.
Context {Compiled : Type} (compile : bytes → option Compiled).

Definition polyfill_inv (seen : list bytes) (p : Polyfill) : Prop :=
  (∀ s, s ∈ waiting p → s ∈ seen) ∧
  (∀ k m, wc p !! k = Some m → ∃ s, s ∈ seen ∧ polyfill_key s = k ∧ compile s = Some m).

Lemma polyfill_step_inv seen p e p' : polyfill_inv seen p → polyfill_step compile p e = Some p' →
  polyfill_inv (seen ++ sources [e]) p'.
Proof.
  intros [Hw Hc] Hs. destruct e as [s|i]; cbn [polyfill_step] in Hs.
  - injection Hs as <-. unfold polyfill_compile. destruct (wc p !! polyfill_key s); cbn [fst]; split.
    + intros x Hx. apply elem_of_app. left. by apply Hw.
    + intros k m (x & Hx & Hk)%Hc. exists x. split; [|done]. apply elem_of_app. by left.
    + cbn [waiting]. intros x [Hx|Hx]%elem_of_app; apply elem_of_app; [left; by apply Hw|by right].
    + intros k m (x & Hx & Hk)%Hc. exists x. split; [|done]. apply elem_of_app. by left.
  - unfold polyfill_resolve in Hs. destruct (waiting p !! i) as [s|] eqn:Ei; [|done]. injection Hs as <-.
    change (sources [Resolve i]) with (@nil bytes). rewrite app_nil_r.
    assert (Hd : ∀ x, x ∈ delete i (waiting p) → x ∈ seen).
    { intros x Hx. apply Hw. by eapply list_elem_of_delete_inv. }
    destruct (compile s) as [m0|] eqn:Em; split; try done. cbn [wc fst]. intros k m. rewrite lookup_insert_Some.
    intros [[<- <-]|[_ Hk]]; [|by apply Hc]. exists s. split; [|done]. apply Hw. by eapply list_elem_of_lookup_2.
Qed.

Lemma polyfill_run_inv es : ∀ seen p p', polyfill_inv seen p → polyfill_run compile p es = Some p' →
  polyfill_inv (seen ++ sources es) p'.
Proof.
  induction es as [|e es IH]; intros seen p p' Hp; cbn [polyfill_run].
  - intros [= <-]. by rewrite app_nil_r.
  - intros (p1 & Hs & Hr)%bind_Some. apply (polyfill_step_inv seen _ _ _ Hp) in Hs.
    apply (IH _ _ _ Hs) in Hr. rewrite <- app_assoc in Hr. by destruct e.
Qed.

(** Whatever was compiled before and however the compilations were interleaved, a
    source that [WebAssembly.compile] answers from the cache of the isolate gets its own
    module, provided that no other source with its length and its 32-bit hash was compiled
    in the isolate.  Two valid modules for which this fails are given below. *)
Theorem polyfill_transparent es p source m (Hrun : polyfill_run compile polyfill_new es = Some p)
    (Hkeys : ∀ s, s ∈ sources es → polyfill_key s = polyfill_key source → s = source)
    (Hcached : polyfill_compile p source = (p, Cached m)) :
  compile source = Some m.
Proof.
  assert (Hinv : polyfill_inv ([] ++ sources es) p).
  { eapply polyfill_run_inv; [|done]. split; [|by intros k x]. by intros s Hs%not_elem_of_nil. }
  unfold polyfill_compile in Hcached. destruct (wc p !! polyfill_key source) as [m'|] eqn:E; [|done].
  injection Hcached as <-. destruct (proj2 Hinv _ _ E) as (s & Hs & Hk & Hm). by rewrite <- (Hkeys s Hs Hk).
Qed.

(** The cache of the process: what it answers is what the engine made of the same bytes. *)
Definition cache_sound (sha256_hex : bytes → string) (c : WasmModuleCache (Compiled := Compiled)) : Prop :=
  ∀ k m, c !! k = Some m → ∃ s, compute_hash sha256_hex s = k ∧ compile s = Some m.

Lemma compile_module_sound restore sha256_hex bs c (Hc : cache_sound sha256_hex c)
    (Hinj : ∀ s, compute_hash sha256_hex s = compute_hash sha256_hex bs → s = bs) :
  ∃ c', (compile_module compile restore sha256_hex bs (Some c)).1 = Some c' ∧ cache_sound sha256_hex c' ∧
    match (compile_module compile restore sha256_hex bs (Some c)).2 with
    | Ok m => compile bs = Some m ∧ cache_get c' (compute_hash sha256_hex bs) = Some m
    | Err CompilationFailed => compile bs = None
    | Err CacheCorrupted => is_Some (cache_get c (compute_hash sha256_hex bs))
    | Err ModuleTooLarge => False
    end.
Proof.
  unfold compile_module. cbn [mbind option_bind]. unfold cache_get, cache_store.
  destruct (c !! compute_hash sha256_hex bs) as [m|] eqn:E; cbn [fst snd].
  - exists c. split_and!; [done..|]. destruct (Hc _ _ E) as (s & Hs & Hm). apply Hinj in Hs as ->.
    by destruct (restore m).
  - destruct (compile bs) as [m|] eqn:Em; cbn [fst snd fmap option_fmap option_map]; [|by exists c].
    eexists. split; [done|]. split; [|split; [done|apply (lookup_insert_eq (M := gmap string))]].
    intros k x [[<- <-]|[_ Hk]]%(lookup_insert_Some (M := gmap string)); [by exists bs|by apply Hc].
Qed.
End caches.

(** ** Two modules with one key *)

(** A module with one custom section of four bytes. *)
Definition custom_module (payload : bytes) : bytes :=
  WASM_MAGIC ++ to_le_bytes 1 ++ [Byte.x00; Byte.x06; Byte.x01; Byte.x61] ++ payload.

Definition module_a : bytes := custom_module (byte_of <$> [233; 30; 151; 27]).
Definition module_b : bytes := custom_module (byte_of <$> [31; 198; 46; 54]).

(** Compiling the second after the first gives the first. *)
Lemma polyfill_collision :
  is_ok (loader_validate module_a) = true ∧ is_ok (loader_validate module_b) = true ∧ module_a ≠ module_b ∧
  ∃ p, polyfill_run Some polyfill_new [Compile module_a; Resolve 0] = Some p ∧
    snd (polyfill_compile p module_b) = Cached module_a.
Proof. split_and!; [by vm_compute..|discriminate|]. eexists. by vm_compute. Qed.

(** ** Witnesses *)

#[local] Existing Instance plain_order.

Definition demo_hash (bs : bytes) : bytes := replicate 32 (byte_of (Z.of_nat (length bs))).
Definition demo_lossy : bytes → string := String.string_of_list_byte.
Definition demo_cache : SliverWasmCache :=
  add_module demo_hash (add_module demo_hash ∅ "/lib/a.wasm" module_a) "b.wasm" module_b.

Lemma wasm_cache_round_trip_witness :
  deserialize demo_lossy (serialize demo_cache ++ [Byte.x2a]) = Ok demo_cache.
Proof.
  apply wasm_cache_round_trip; [by vm_compute|].
  apply add_module_storable; [apply add_module_storable; [apply map_Forall_empty|..]|..]; vm_compute; repeat split; done.
Defined.

Definition demo_compile (bs : bytes) : option nat := if is_ok (loader_validate bs) then Some (length bs) else None.

Definition demo_polyfill : Polyfill (Compiled := nat) :=
  default polyfill_new (polyfill_run demo_compile polyfill_new [Compile module_a; Resolve 0]).

Lemma polyfill_transparent_witness :
  polyfill_compile demo_polyfill module_a = (demo_polyfill, Cached 16%nat) ∧ demo_compile module_a = Some 16%nat.
Proof.
  split; [vm_compute; reflexivity|].
  exact (polyfill_transparent demo_compile [Compile module_a; Resolve 0] demo_polyfill module_a 16%nat
    ltac:(vm_compute; reflexivity)
    ltac:(intros s [-> | []%not_elem_of_nil]%elem_of_cons _; reflexivity) ltac:(vm_compute; reflexivity)).
Defined.
