(* ===== verification/HttpClient.v ===== *)
(** * The guarded HTTP client: [src/http/client.rs]

    Checks of the URL and the headers, which addresses are private, and the limits on what
    comes back.  The parser of IP addresses of the standard library is written out; URI
    parsing and the requests themselves ([hyper], [reqwest]) are parameters. *)

From stdpp Require Import base list strings pretty.
From Stdlib Require Import Ascii ZArith Lia.
From S2P Require Import Prelude RustString RustList.

Open Scope Z_scope.

(** ** [std::net::IpAddr::from_str] *)

Definition to_digit (radix : Z) (a : ascii) : option Z :=
  let n := Z.of_N (N_of_ascii a) in
  let d := if (48 <=? n) && (n <=? 57) then n - 48
           else if (97 <=? n) && (n <=? 122) then n - 87
           else if (65 <=? n) && (n <=? 90) then n - 55 else 36 in
  if d <? radix then Some d else None.

(** The digits read, their number and the rest; a value or a number of digits that is too
    large fails. *)
Fixpoint read_digits (radix max : Z) (max_digits : nat) (acc : Z) (count : nat) (s : string)
    : option (Z * nat * string) :=
  match s with
  | String a s' =>
      match to_digit radix a with
      | Some d =>
          let acc := acc * radix + d in
          if (acc >? max) || (max_digits <? S count)%nat then None
          else read_digits radix max max_digits acc (S count) s'
      | None => Some (acc, count, s)
      end
  | EmptyString => Some (acc, count, s)
  end.

Definition read_number (radix max : Z) (max_digits : nat) (allow_zero_prefix : bool) (s : string)
    : option (Z * string) :=
  '(n, count, rest) ← read_digits radix max max_digits 0 0 s;
  if (count =? 0)%nat then None
  else if negb allow_zero_prefix && starts_with "0" s && (1 <? count)%nat then None else Some (n, rest).

Definition read_given_char (c : ascii) (s : string) : option string :=
  match s with String a s' => if char_eqb a c then Some s' else None | EmptyString => None end.

Definition read_separator {A} (sep : ascii) (index : nat) (inner : string → option A) (s : string) : option A :=
  if (0 <? index)%nat then read_given_char sep s ≫= inner else inner s.

Definition read_octet (index : nat) (s : string) : option (Z * string) :=
  read_separator dot index (read_number 10 255 3 false) s.

Definition read_ipv4_addr (s : string) : option (Z * Z * Z * Z * string) :=
  '(a, s) ← read_octet 0 s; '(b, s) ← read_octet 1 s; '(c, s) ← read_octet 2 s; '(d, s) ← read_octet 3 s;
  Some (a, b, c, d, s).

(** The groups, whether the last two were an IPv4 address, and the rest; [left_over] is how
    many more there is room for. *)
Fixpoint read_groups (left_over index : nat) (groups : list Z) (s : string) : list Z * bool * string :=
  match left_over with
  | O => (groups, false, s)
  | S more =>
      match (if (0 <? more)%nat then read_separator colon index read_ipv4_addr s else None) with
      | Some (a, b, c, d, s') => (groups ++ [256 * a + b; 256 * c + d], true, s')
      | None =>
          match read_separator colon index (read_number 16 65535 4 true) s with
          | Some (g, s') => read_groups more (S index) (groups ++ [g]) s'
          | None => (groups, false, s)
          end
      end
  end.

Definition read_ipv6_addr (s : string) : option (list Z * string) :=
  let '(head, head_ipv4, s) := read_groups 8 0 [] s in
  if (length head =? 8)%nat then Some (head, s)
  else if head_ipv4 then None
  else
    s ← read_given_char colon s; s ← read_given_char colon s;
    let '(tail, _, s) := read_groups (8 - (length head + 1)) 0 [] s in
    Some (head ++ replicate (8 - length head - length tail) 0 ++ tail, s).

Inductive IpAddr := V4 (a b c d : Z) | V6 (segments : list Z).

Definition parse_ip (s : string) : option IpAddr :=
  match read_ipv4_addr s with
  | Some (a, b, c, d, rest) => if is_empty rest then Some (V4 a b c d) else None
  | None => '(segments, rest) ← read_ipv6_addr s; if is_empty rest then Some (V6 segments) else None
  end.

(** ** What is refused *)

Definition ends_with (p : ascii) (s : string) : bool :=
  match last (String.list_ascii_of_string s) with Some a => char_eqb a p | None => false end.

(** The brackets of an IPv6 host. *)
Definition host_clean (host : string) : string :=
  if starts_with "[" host && ends_with (ch "]") host then stake (String.length host - 2) (sdrop 1 host) else host.

Definition private_v4 (a b : Z) : bool :=
  (a =? 10) || ((a =? 172) && ((16 <=? b) && (b <=? 31))) || ((a =? 192) && (b =? 168)) || (a =? 127) ||
  ((a =? 169) && (b =? 254)).

Definition private_v6 (segments : list Z) : bool :=
  bool_decide (segments = [0; 0; 0; 0; 0; 0; 0; 1]) || (Z.land (default 0 (head segments)) 0xffc0 =? 0xfe80).

Definition is_private_ip (host : string) : bool :=
  let h := host_clean host in
  match parse_ip h with
  | Some (V4 a b _ _) => private_v4 a b
  | Some (V6 segments) => private_v6 segments
  | None => false
  end || String.eqb (ascii_lowercase h) "localhost".

Section client.
Context `{Lowercase}.

Definition is_dangerous_header (name : string) : bool :=
  let lower := to_lowercase name in
  String.eqb lower "host" || String.eqb lower "content-length" || String.eqb lower "transfer-encoding".

(** ** The client *)

Abbreviation Bytes := (list Z).

Record HttpClient := mkClient { timeout : Z; max_response_size : Z }.

Record HttpClientResponse := mkResponse {
  status : Z;
  headers : list (string * string);
  body : option Bytes;
  url : string;
}.

Inductive HttpClientError :=
| InvalidUrl (msg : string)
| PrivateIpBlocked
| Network (msg : string)
| Timeout (d : Z)
| TooManyRedirects (n : Z)
| BlockedHeader (name : string)
| ResponseTooLarge (max : Z)
| Tls (msg : string).

Inductive RequestBody := NoBody | Fixed (bs : Bytes) | Streaming (content_type : option string).

Definition is_streaming (b : RequestBody) : bool := match b with Streaming _ => true | _ => false end.
Definition body_is_none (b : RequestBody) : bool := match b with NoBody => true | _ => false end.
Definition content_length (b : RequestBody) : option Z :=
  match b with Fixed bs => Some (Z.of_nat (length bs)) | _ => None end.
Definition content_type (b : RequestBody) : option string := match b with Streaming t => t | _ => None end.

Record StreamingConfig := mkStreaming {
  max_size : Z; upload_timeout : Z; max_concurrent : Z; chunk_buffer_size : Z }.
Definition default_streaming : StreamingConfig := mkStreaming (100 * 1024 * 1024) (from_secs 30) 10 4.

(** [reqwest] is built with a timeout of its own, ten redirects and any scheme. *)
Definition client_new : HttpClient := mkClient (from_secs 30) (100 * 1024 * 1024).
Definition with_timeout (d : Z) : HttpClient := mkClient d (max_response_size client_new).

(** What [hyper] says of a URI, and what a request of [reqwest] gives back: [r_body] is
    what reading the body gives, and a header has no text if [to_str] fails. *)
Record Uri := mkUri { scheme_str : option string; uri_host : option string }.

Record Sent := mkSent { s_method : string; s_url : string; s_headers : list (string * string); s_body : option Bytes }.

Record Received := mkReceived {
  r_status : Z;
  r_headers : list (string * option string);
  r_url : string;
  r_content_length : option Z;
  r_body : result Bytes string;
}.

Class Reqwest := {
  parse_uri : string → result Uri string;
  method_ok : string → result unit string;
  build : Sent → result unit string;
  execute : Sent → result Received (bool * string);
}.

Context `{Reqwest}.

(** The first check that fails. *)
Definition check_request (u : string) (hdrs : option (list (string * string))) : result unit HttpClientError :=
  match parse_uri u with
  | Err e => Err (InvalidUrl e)
  | Ok uri =>
      let scheme := default "http" (scheme_str uri) in
      if negb (String.eqb scheme "http" || String.eqb scheme "https")
      then Err (InvalidUrl ("Unsupported scheme: " +:+ (scheme +:+ " (only http/https allowed)")))
      else if from_option is_private_ip false (uri_host uri) then Err PrivateIpBlocked
      else match List.find (λ p, is_dangerous_header p.1) (default [] hdrs) with
           | Some p => Err (BlockedHeader p.1)
           | None => Ok tt
           end
  end.

(** The body of a response, with its limit. *)
Definition read_body (c : HttpClient) (r : Received) : result (option Bytes) HttpClientError :=
  let read := match r_body r with
              | Ok bs => Ok bs
              | Err e => Err (Network ("Failed to read body: " +:+ e))
              end in
  match r_content_length r with
  | Some n =>
      if n >? max_response_size c then Err (ResponseTooLarge (max_response_size c))
      else let? bs := read in Ok (Some bs)
  | None =>
      let? bs := read in
      if Z.of_nat (length bs) >? max_response_size c then Err (ResponseTooLarge (max_response_size c))
      else Ok (Some bs)
  end.

(** What is sent, if anything is, and the answer. *)
Definition request (c : HttpClient) (method u : string) (hdrs : option (list (string * string))) (bd : option Bytes)
    : option Sent * result HttpClientResponse HttpClientError :=
  match check_request u hdrs with
  | Err e => (None, Err e)
  | Ok _ =>
      match method_ok method with
      | Err e => (None, Err (InvalidUrl ("Invalid method: " +:+ e)))
      | Ok _ =>
          let sent := mkSent method u (default [] hdrs) bd in
          match build sent with
          | Err e => (None, Err (Network ("Failed to build request: " +:+ e)))
          | Ok _ =>
              (Some sent,
               match execute sent with
               | Err (is_timeout, e) =>
                   Err (if is_timeout then Timeout (timeout c) else Network ("Request failed: " +:+ e))
               | Ok r =>
                   let? b := read_body c r in
                   Ok (mkResponse (r_status r) (omap (λ p, (λ v, (p.1, v)) <$> p.2) (r_headers r)) b (r_url r))
               end)
          end
      end
  end.

Definition get (c : HttpClient) (u : string) := request c "GET" u None None.
Definition post (c : HttpClient) (u : string) (hdrs : option (list (string * string))) (bd : option Bytes) :=
  request c "POST" u hdrs bd.
End client.

(** ** Dotted addresses *)

Definition octet (n : Z) : Prop := 0 ≤ n < 256.

Definition dotted (a b c d : Z) : string :=
  pretty a +:+ String dot (pretty b +:+ String dot (pretty c +:+ String dot (pretty d))).

(** The address as a number, and the block of the addresses that share its first [len] bits. *)
Definition number (a b c d : Z) : Z := ((a * 256 + b) * 256 + c) * 256 + d.
Definition in_block (net : Z) (len : Z) (n : Z) : Prop := n / 2 ^ (32 - len) = net / 2 ^ (32 - len).

Definition blocked (n : Z) : Prop :=
  in_block (number 10 0 0 0) 8 n ∨ in_block (number 172 16 0 0) 12 n ∨ in_block (number 192 168 0 0) 16 n ∨
  in_block (number 127 0 0 0) 8 n ∨ in_block (number 169 254 0 0) 16 n.

Lemma octets_forall (P : Z → Prop) : Forall P (seqZ 0 256) → ∀ n, octet n → P n.
Proof. intros HP n Hn. rewrite Forall_forall in HP. apply HP, elem_of_seqZ. unfold octet in Hn. lia. Qed.

Definition reads_back (rest : string) (n : Z) : Prop :=
  read_number 10 255 3 false (pretty n +:+ rest) = Some (n, rest).

Ltac each_octet :=
  let l := eval vm_compute in (seqZ 0 256) in change (seqZ 0 256) with l;
  repeat (constructor; [vm_compute; reflexivity |]); constructor.

Lemma read_octet_dot rest n : octet n → reads_back (String dot rest) n.
Proof.
  revert n. apply octets_forall. each_octet.
Qed.

Lemma read_octet_end n : octet n → reads_back "" n.
Proof.
  revert n. apply octets_forall. each_octet.
Qed.

Lemma read_given_same c s : read_given_char c (String c s) = Some s.
Proof. unfold read_given_char. by rewrite char_eqb_refl. Qed.

(** The text of an address is read as that address. *)
Lemma read_dotted a b c d :
  octet a → octet b → octet c → octet d → read_ipv4_addr (dotted a b c d) = Some (a, b, c, d, "").
Proof.
  intros Ha Hb Hc Hd. pose proof (read_octet_end d Hd) as He. unfold reads_back in He. rewrite str_app_nil_r in He.
  unfold read_ipv4_addr, dotted, read_octet, read_separator. cbn [Nat.ltb Nat.leb].
  rewrite (read_octet_dot _ a Ha). cbn [mbind option_bind]. rewrite read_given_same. cbn [mbind option_bind].
  rewrite (read_octet_dot _ b Hb). cbn [mbind option_bind]. rewrite read_given_same. cbn [mbind option_bind].
  rewrite (read_octet_dot _ c Hc). cbn [mbind option_bind]. rewrite read_given_same. cbn [mbind option_bind].
  by rewrite He.
Qed.

(** ** No other text is read as an address *)

Definition digit_char (d : Z) : ascii := ascii_of_N (Z.to_N (48 + d)).

Lemma to_digit_10 x d : to_digit 10 x = Some d → 0 ≤ d < 10 ∧ x = digit_char d.
Proof.
  unfold to_digit. intros Hd.
  destruct x as [[] [] [] [] [] [] [] []]; vm_compute in Hd; try discriminate Hd; injection Hd as <-; split; try lia; reflexivity.
Qed.

(** One step of reading a number. *)
Lemma read_digits_inv k acc count s n m rest :
  read_digits 10 255 k acc count s = Some (n, m, rest) →
  (n = acc ∧ m = count ∧ s = rest) ∨
  ∃ d s', 0 ≤ d < 10 ∧ s = String (digit_char d) s' ∧ acc * 10 + d ≤ 255 ∧ (S count ≤ k)%nat ∧
          read_digits 10 255 k (acc * 10 + d) (S count) s' = Some (n, m, rest).
Proof.
  destruct s as [|x s]; cbn [read_digits].
  - intros [= <- <- <-]. by left.
  - destruct (to_digit 10 x) as [d|] eqn:Hd; [|intros [= <- <- <-]; by left].
    apply to_digit_10 in Hd as [? ->]. destruct ((acc * 10 + d >? 255) || (k <? S count)%nat) eqn:Hg; [discriminate |].
    intros He. right. exists d, s. apply orb_false_iff in Hg as [Hg1 Hg2]. apply Nat.ltb_ge in Hg2.
    rewrite Z.gtb_ltb in Hg1. apply Z.ltb_ge in Hg1. by split_and!; try lia.
Qed.

Definition digits_ok (d1 d2 d3 : Z) : bool :=
  (String.eqb (pretty d1) (String (digit_char d1) "")) &&
  ((d1 =? 0) || (String.eqb (pretty (d1 * 10 + d2)) (String (digit_char d1) (String (digit_char d2) "")) &&
   String.eqb (pretty ((d1 * 10 + d2) * 10 + d3))
     (String (digit_char d1) (String (digit_char d2) (String (digit_char d3) ""))))).

Lemma digits_ok_all : forallb (λ x, forallb (λ y, forallb (digits_ok x y) (seqZ 0 10)) (seqZ 0 10)) (seqZ 0 10) = true.
Proof. vm_compute. reflexivity. Qed.

Lemma pretty_digits d1 d2 d3 : 0 ≤ d1 < 10 → 0 ≤ d2 < 10 → 0 ≤ d3 < 10 → digits_ok d1 d2 d3 = true.
Proof.
  intros H1 H2 H3. assert (Hin : ∀ d, 0 ≤ d < 10 → In d (seqZ 0 10)).
  { intros d ?. apply list_elem_of_In, elem_of_seqZ. lia. }
  pose proof digits_ok_all as Ha. rewrite forallb_forall in Ha. specialize (Ha d1 (Hin d1 H1)).
  rewrite forallb_forall in Ha. specialize (Ha d2 (Hin d2 H2)). rewrite forallb_forall in Ha. auto.
Qed.

Lemma starts_zero d s : 0 ≤ d < 10 → starts_with "0" (String (digit_char d) s) = (d =? 0).
Proof.
  intros Hd. assert (Hc : d ∈ seqZ 0 10) by (apply elem_of_seqZ; lia). revert d Hd Hc.
  assert (Hf : Forall (λ d, starts_with "0" (String (digit_char d) s) = (d =? 0)) (seqZ 0 10)) by (repeat constructor; vm_compute; by destruct s).
  rewrite Forall_forall in Hf. auto.
Qed.

Lemma read_octet_text s n rest : read_number 10 255 3 false s = Some (n, rest) → octet n ∧ s = pretty n +:+ rest.
Proof.
  unfold read_number, octet. destruct (read_digits 10 255 3 0 0 s) as [[[v m] r]|] eqn:Hr; [|discriminate].
  cbn [mbind option_bind]. intros He.
  apply read_digits_inv in Hr as [(-> & -> & ->)|(d1 & s1 & B1 & -> & L1 & _ & Hr)]; [discriminate He |].
  rewrite (starts_zero d1 s1 B1) in He.
  apply read_digits_inv in Hr as [(-> & -> & ->)|(d2 & s2 & B2 & -> & L2 & _ & Hr)].
  - rewrite andb_false_r in He. injection He as <- <-. split; [lia |].
    destruct (proj1 (andb_true_iff _ _) (pretty_digits d1 0 0 B1 ltac:(lia) ltac:(lia))) as [Ho _].
    apply String.eqb_eq in Ho. rewrite Z.mul_0_l, Z.add_0_l. by rewrite Ho.
  - destruct (Z.eqb_spec d1 0) as [->|Hd1].
    { apply read_digits_inv in Hr as [(-> & -> & ->)|(d3 & s3 & _ & _ & _ & _ & Hr)]; [discriminate He |].
      apply read_digits_inv in Hr as [(-> & -> & ->)|(? & ? & _ & _ & _ & ? & _)]; [discriminate He | lia]. }
    apply read_digits_inv in Hr as [(-> & -> & ->)|(d3 & s3 & B3 & -> & L3 & _ & Hr)].
    + injection He as <- <-. split; [lia |].
      destruct (proj1 (andb_true_iff _ _) (pretty_digits d1 d2 0 B1 B2 ltac:(lia))) as [_ Ho].
      rewrite (proj2 (Z.eqb_neq _ _) Hd1) in Ho. apply andb_prop in Ho as [Ho _]. apply String.eqb_eq in Ho.
      rewrite Z.mul_0_l, Z.add_0_l. by rewrite Ho.
    + apply read_digits_inv in Hr as [(-> & -> & ->)|(? & ? & _ & _ & _ & ? & _)]; [|lia].
      injection He as <- <-. split; [lia |].
      destruct (proj1 (andb_true_iff _ _) (pretty_digits d1 d2 d3 B1 B2 B3)) as [_ Ho].
      rewrite (proj2 (Z.eqb_neq _ _) Hd1) in Ho. apply andb_prop in Ho as [_ Ho]. apply String.eqb_eq in Ho.
      rewrite Z.mul_0_l, Z.add_0_l. by rewrite Ho.
Qed.

Lemma read_next index s n rest :
  (0 < index)%nat → read_octet index s = Some (n, rest) → octet n ∧ s = String dot (pretty n +:+ rest).
Proof.
  intros Hi. unfold read_octet, read_separator. rewrite (proj2 (Nat.ltb_lt _ _) Hi). unfold read_given_char.
  destruct s as [|x s]; [discriminate |]. destruct (char_eqb x dot) eqn:Hx; [|discriminate].
  apply char_eqb_eq in Hx as ->. cbn [mbind option_bind]. intros Hr. apply read_octet_text in Hr as [? ->]. done.
Qed.

Lemma read_ipv4_text s a b c d rest :
  read_ipv4_addr s = Some (a, b, c, d, rest) →
  octet a ∧ octet b ∧ octet c ∧ octet d ∧ s = dotted a b c d +:+ rest.
Proof.
  unfold read_ipv4_addr. intros Hr.
  destruct (read_octet 0 s) as [[a' s1]|] eqn:Ha; [|discriminate]. cbn [mbind option_bind] in Hr.
  destruct (read_octet 1 s1) as [[b' s2]|] eqn:Hb; [|discriminate]. cbn [mbind option_bind] in Hr.
  destruct (read_octet 2 s2) as [[c' s3]|] eqn:Hc; [|discriminate]. cbn [mbind option_bind] in Hr.
  destruct (read_octet 3 s3) as [[d' s4]|] eqn:Hd; [|discriminate]. cbn [mbind option_bind] in Hr.
  injection Hr as <- <- <- <- <-. apply read_octet_text in Ha as [? ->].
  apply read_next in Hb as [? ->]; [|lia]. apply read_next in Hc as [? ->]; [|lia]. apply read_next in Hd as [? ->]; [|lia].
  split_and!; try done. unfold dotted. by rewrite <- ?str_app_assoc, ?str_app_cons, <- ?str_app_assoc, ?str_app_cons, <- ?str_app_assoc, ?str_app_cons, <- ?str_app_assoc.
Qed.

Lemma parse_v4_exact s a b c d :
  parse_ip s = Some (V4 a b c d) ↔ octet a ∧ octet b ∧ octet c ∧ octet d ∧ s = dotted a b c d.
Proof.
  unfold parse_ip. split.
  - destruct (read_ipv4_addr s) as [[[[[a' b'] c'] d'] rest]|] eqn:Hr.
    + destruct rest; cbn [is_empty]; [|discriminate]. intros [= <- <- <- <-].
      apply read_ipv4_text in Hr as (? & ? & ? & ? & ->). by rewrite str_app_nil_r.
    + destruct (read_ipv6_addr s) as [[segs rest]|]; cbn; [destruct (is_empty rest)|]; discriminate.
  - intros (Ha & Hb & Hc & Hd & ->). by rewrite read_dotted.
Qed.

Lemma private_v4_exact a b c d :
  octet a → octet b → octet c → octet d → private_v4 a b = true ↔ blocked (number a b c d).
Proof.
  unfold octet, blocked, in_block, number, private_v4. intros.
  change (2 ^ (32 - 8)) with 16777216. change (2 ^ (32 - 12)) with 1048576. change (2 ^ (32 - 16)) with 65536.
  pose proof (Z.div_mod b 16 ltac:(lia)). pose proof (Z.mod_pos_bound b 16 ltac:(lia)).
  set (n := ((a * 256 + b) * 256 + c) * 256 + d).
  assert (n / 16777216 = a) as ->.
  { symmetry. apply (Z.div_unique _ _ _ ((b * 256 + c) * 256 + d)); unfold n; lia. }
  assert (n / 1048576 = 16 * a + b / 16) as ->.
  { symmetry. apply (Z.div_unique _ _ _ (((b mod 16) * 256 + c) * 256 + d)); unfold n; lia. }
  assert (n / 65536 = 256 * a + b) as ->.
  { symmetry. apply (Z.div_unique _ _ _ (c * 256 + d)); unfold n; lia. }
  rewrite !orb_true_iff, !andb_true_iff, !Z.eqb_eq, !Z.leb_le.
  match goal with |- _ ↔ _ = ?k1 ∨ _ = ?k2 ∨ _ = ?k3 ∨ _ = ?k4 ∨ _ = ?k5 =>
    let v1 := eval vm_compute in k1 in let v2 := eval vm_compute in k2 in let v3 := eval vm_compute in k3 in
    let v4 := eval vm_compute in k4 in let v5 := eval vm_compute in k5 in
    change k1 with v1; change k2 with v2; change k3 with v3; change k4 with v4; change k5 with v5 end.
  lia.
Qed.

(** What the check refuses: the five IPv4 blocks in dotted decimal without leading zeros,
    the loopback and link-local addresses of IPv6, and the name localhost. *)
Lemma private_host_exact host :
  is_private_ip host = true ↔
  (∃ a b c d, octet a ∧ octet b ∧ octet c ∧ octet d ∧ host_clean host = dotted a b c d ∧ blocked (number a b c d)) ∨
  (∃ segments, parse_ip (host_clean host) = Some (V6 segments) ∧ private_v6 segments = true) ∨
  ascii_lowercase (host_clean host) = "localhost".
Proof.
  unfold is_private_ip. rewrite orb_true_iff, String.eqb_eq. split.
  - intros [Hp|Hp]; [|tauto]. destruct (parse_ip (host_clean host)) as [[a b c d|segs]|] eqn:He; [| |discriminate].
    + apply parse_v4_exact in He as (Ha & Hb & Hc & Hd & He). left. exists a, b, c, d. split_and!; try done.
      by apply private_v4_exact.
    + right; left. by exists segs.
  - intros [(a & b & c & d & Ha & Hb & Hc & Hd & He & Hp)|[(segs & -> & Hp)|?]]; [left | by left | by right].
    rewrite He. rewrite (proj2 (parse_v4_exact (dotted a b c d) a b c d)) by done. by apply (private_v4_exact a b c d).
Qed.

(** ** What is sent *)

Section sent.
Context `{Lowercase} `{Reqwest}.

Lemma check_request_ok u hdrs :
  check_request u hdrs = Ok tt ↔
  ∃ uri, parse_uri u = Ok uri ∧ (default "http" (scheme_str uri) = "http" ∨ default "http" (scheme_str uri) = "https") ∧
         (∀ host, uri_host uri = Some host → is_private_ip host = false) ∧
         (∀ name value, (name, value) ∈ default [] hdrs → is_dangerous_header name = false).
Proof.
  unfold check_request. split.
  - destruct (parse_uri u) as [uri|]; [|discriminate]. intros Hc. exists uri. split; [done |].
    destruct (negb _) eqn:Hs in Hc; [discriminate |]. apply negb_false_iff, orb_true_iff in Hs. rewrite !String.eqb_eq in Hs.
    split; [done |]. destruct (from_option is_private_ip false (uri_host uri)) eqn:Hh; [discriminate |].
    split; [intros host He; by rewrite He in Hh |].
    destruct (List.find _ _) eqn:Hf; [discriminate |]. intros name value Hin.
    by apply (List.find_none _ _ Hf (name, value)), list_elem_of_In.
  - intros (uri & -> & Hs & Hh & Hd).
    replace (negb _) with false; cycle 1.
    { symmetry. apply negb_false_iff, orb_true_iff. by rewrite !String.eqb_eq. }
    replace (from_option is_private_ip false (uri_host uri)) with false by (destruct (uri_host uri) as [host|]; [symmetry; by apply Hh | done]).
    destruct (List.find _ _) as [[name value]|] eqn:Hf; [|done]. apply List.find_some in Hf as [Hin Hx].
    apply list_elem_of_In in Hin. cbn [fst] in Hx. by rewrite (Hd _ _ Hin) in Hx.
Qed.

(** A request goes out exactly when its URL is http or https, its host is none of the
    refused addresses, no header is one of the three, and the method and the request are
    accepted; it carries what was given.  Otherwise nothing is sent. *)
Theorem sent_exactly c method u hdrs bd s :
  fst (request c method u hdrs bd) = Some s ↔
  s = mkSent method u (default [] hdrs) bd ∧ method_ok method = Ok tt ∧ build s = Ok tt ∧
  ∃ uri, parse_uri u = Ok uri ∧ (default "http" (scheme_str uri) = "http" ∨ default "http" (scheme_str uri) = "https") ∧
         (∀ host, uri_host uri = Some host → is_private_ip host = false) ∧
         (∀ name value, (name, value) ∈ default [] hdrs → is_dangerous_header name = false).
Proof.
  rewrite <- check_request_ok. unfold request.
  destruct (check_request u hdrs) as [[]|e]; [|split; [discriminate |]; by intros (_ & _ & _ & ?)].
  destruct (method_ok method) as [[]|e]; [|split; [discriminate |]; by intros (_ & ? & _)].
  destruct (build _) as [[]|e] eqn:Hb; cbn [fst].
  - split; [intros [= <-]; by rewrite Hb | by intros (-> & _)].
  - split; [discriminate |]. intros (-> & _ & Hx & _). by rewrite Hb in Hx.
Qed.

(** No body beyond the limit is given to the caller. *)
Lemma body_within_limit c method u hdrs bd r bs :
  (∀ s x n, execute s = Ok x → r_content_length x = Some n → r_body x = Ok bs → Z.of_nat (length bs) ≤ n) →
  snd (request c method u hdrs bd) = Ok r → body r = Some bs → Z.of_nat (length bs) ≤ max_response_size c.
Proof.
  intros Hn. unfold request. destruct (check_request u hdrs); [|discriminate]. destruct (method_ok method); [|discriminate].
  destruct (build _); [|discriminate]. cbn [snd]. destruct (execute _) as [x|[b e]] eqn:Hx; [|destruct b; discriminate].
  unfold read_body. destruct (r_content_length x) as [n|] eqn:Hl.
  - destruct (n >? max_response_size c) eqn:Hg; [discriminate |]. destruct (r_body x) eqn:Hr; [|discriminate].
    intros [= <-] [= <-]. pose proof (Hn _ _ _ Hx Hl Hr). rewrite Z.gtb_ltb in Hg. lia.
  - destruct (r_body x); [|discriminate]. cbn [result_bind]. destruct (_ >? max_response_size c) eqn:Hg; [discriminate |].
    intros [= <-] [= <-]. rewrite Z.gtb_ltb in Hg. lia.
Qed.
End sent.

(** Addresses of the machine itself and of private networks that pass. *)
Example hosts_that_pass :
  map is_private_ip
    ["0.0.0.0"; "100.64.0.1"; "[::ffff:127.0.0.1]"; "[fc00::1]"; "0177.0.0.1"; "2130706433"; "127.1"; "localhost."] =
  replicate 8 false.
Proof. vm_compute. reflexivity. Qed.

Example hosts_refused :
  map is_private_ip ["10.1.2.3"; "172.31.255.255"; "192.168.0.1"; "127.0.0.1"; "169.254.169.254"; "[::1]"; "[fe80::1]"; "LocalHost"] =
  replicate 8 true.
Proof. vm_compute. reflexivity. Qed.
