(* ===== verification/NodeCrypto.v ===== *)
(** * node:crypto: [src/runtime/node_compat/hooks_crypto.rs]

    The host functions behind [require('crypto')], over values of JavaScript.  A hook gets
    its randomness and its arguments and gives what it returns or throws; nothing else is
    kept.  The cryptographic crates are the class [NodePrimitives], what their
    documentation promises is [NodePrimitiveLaws]. *)

From stdpp Require Import base list strings pretty.
From Stdlib Require Import ZArith Lia SpecFloat.
From Stdlib.Strings Require Byte.
From S2P Require Import Prelude RustString RustFloat CryptoKeys CryptoApi NodeFs.

Open Scope Z_scope.

(** ** The crates *)

Inductive Digest := DMd5 | DSha1 | DSha224 | DSha256 | DSha384 | DSha512.
#[export] Instance Digest_eq_dec : EqDecision Digest.
Proof. solve_decision. Defined.

Inductive Curve := P256 | P384.

(** The two schemes of signatures, over digests already made. *)
Inductive Scheme := Pkcs1v15Sign (d : Digest) | Pss (d : Digest) (salt_len : Z).
Inductive Encryption := OaepOf (d : Digest) | Pkcs1v15Encrypt.

(** [new_from_slice] and [new_from_slices] refuse lengths; the operations after them get
    what they were made of.  [Rand] is a source of randomness. *)
Class NodePrimitives := {
  Rand : Type;
  digest : Digest → bytes → bytes;
  hmac : Digest → bytes → bytes → option bytes;
  pbkdf2_hmac : Digest → bytes → bytes → Z → Z → bytes;
  scrypt_params : Z → Z → Z → Z → result unit string;
  scrypt_into : bytes → bytes → Z → Z → Z → Z → result bytes string;
  hkdf_expand : Digest → option bytes → bytes → bytes → Z → option bytes;
  getrandom : Rand → Z → option bytes;
  gcm_new : Z → bytes → result unit string;
  gcm_encrypt : Z → bytes → bytes → bytes → bytes → option bytes;
  gcm_decrypt : Z → bytes → bytes → bytes → bytes → option bytes;
  cbc_new : Z → bytes → bytes → result unit string;
  cbc_encrypt : Z → bytes → bytes → bytes → bytes;
  cbc_decrypt : Z → bytes → bytes → bytes → option bytes;
  ctr_new : Z → bytes → bytes → result unit string;
  ctr_apply : Z → bytes → bytes → bytes → bytes;
  RsaPrivate : Type;
  RsaPublic : Type;
  rsa_private_pkcs8 : string → result RsaPrivate string;
  rsa_private_pkcs1 : string → result RsaPrivate string;
  rsa_public_spki : string → result RsaPublic string;
  rsa_public_pkcs1 : string → result RsaPublic string;
  rsa_new : Rand → Z → result RsaPrivate string;
  rsa_to_public : RsaPrivate → RsaPublic;
  rsa_private_pem : RsaPrivate → option string;
  rsa_public_pem : RsaPublic → option string;
  rsa_sign : RsaPrivate → Scheme → bytes → result bytes string;
  rsa_sign_with_rng : Rand → RsaPrivate → Scheme → bytes → result bytes string;
  rsa_verify : RsaPublic → Scheme → bytes → bytes → bool;
  rsa_encrypt : Rand → RsaPublic → Encryption → bytes → result bytes string;
  rsa_decrypt : RsaPrivate → Encryption → bytes → result bytes string;
  EcSecret : Curve → Type;
  EcPublic : Curve → Type;
  EcSignature : Curve → Type;
  ec_random : ∀ c, Rand → EcSecret c;
  ec_to_public : ∀ c, EcSecret c → EcPublic c;
  ec_private_pem : ∀ c, EcSecret c → option string;
  ec_public_pem : ∀ c, EcPublic c → option string;
  ec_secret_of_pem : ∀ c, string → result (EcSecret c) string;
  ec_public_of_pem : ∀ c, string → option (EcPublic c);
  ec_sign_prehash : ∀ c, EcSecret c → bytes → result (EcSignature c) string;
  ec_verify_prehash : ∀ c, EcPublic c → bytes → EcSignature c → bool;
  ec_to_der : ∀ c, EcSignature c → bytes;
  ec_from_der : ∀ c, bytes → option (EcSignature c);
  EdPair : Type;
  ed_generate_pkcs8 : Rand → option bytes;
  ed_from_pkcs8 : bytes → option EdPair;
  ed_from_pkcs8_maybe_unchecked : bytes → option EdPair;
  ed_public : EdPair → bytes;
  ed_sign : EdPair → bytes → bytes;
  ed_verify : bytes → bytes → bytes → bool;
}.

(** ** Lookup of digests *)

(** The names every [match alg] of the file knows. *)
Definition digest_named (alg : string) : option Digest :=
  if String.eqb alg "md5" then Some DMd5
  else if String.eqb alg "sha1" then Some DSha1
  else if String.eqb alg "sha224" then Some DSha224
  else if String.eqb alg "sha256" then Some DSha256
  else if String.eqb alg "sha384" then Some DSha384
  else if String.eqb alg "sha512" then Some DSha512
  else None.

Inductive AesMode := Gcm | Cbc | Ctr.

(** The length of the key in bytes, and the mode. *)
Definition parse_aes_algo (algo : string) : option (Z * AesMode) :=
  let aes bits mode := Some (bits / 8, mode) in
  if String.eqb algo "aes-128-gcm" then aes 128 Gcm
  else if String.eqb algo "aes-192-gcm" then aes 192 Gcm
  else if String.eqb algo "aes-256-gcm" then aes 256 Gcm
  else if String.eqb algo "aes-128-cbc" then aes 128 Cbc
  else if String.eqb algo "aes-192-cbc" then aes 192 Cbc
  else if String.eqb algo "aes-256-cbc" then aes 256 Cbc
  else if String.eqb algo "aes-128-ctr" then aes 128 Ctr
  else if String.eqb algo "aes-192-ctr" then aes 192 Ctr
  else if String.eqb algo "aes-256-ctr" then aes 256 Ctr
  else None.

(** [x as u32], truncating and saturating *)
Definition f64_to_u32 (x : f64) : Z := Z.min u32_max (f64_to_usize x).

Definition f64_gt (x y : f64) : bool := f64_lt y x.

(** Whether a positive integer is a power of two, and its [trailing_zeros] then. *)
Definition is_power_of_two (n : Z) : bool := (0 <? n) && (2 ^ Z.log2 n =? n).

Section crypto.
Context `{JsText} `{NodePrimitives}.

(** ** Digests, MACs and derivation *)

Definition digest_bytes (alg : string) (data : bytes) : option bytes := (λ d, digest d data) <$> digest_named alg.

Definition hmac_bytes (alg : string) (key data : bytes) : option bytes :=
  digest_named alg ≫= λ d, hmac d key data.

Definition invalid_digest (alg : string) : NodeCall :=
  throw_coded "ERR_CRYPTO_INVALID_DIGEST" ("Invalid digest: " +:+ alg).

Definition bytes_or (r : option bytes) (e : NodeCall) : NodeCall :=
  match r with Some out => NReturned (VUint8Array out) | None => e end.

Definition crypto_digest (args : list JsVal) : NodeCall :=
  match str_arg args 0, bytes_arg args 1 with
  | Some alg, Some data => bytes_or (digest_bytes alg data) (invalid_digest alg)
  | _, _ => throw_bad_args "cryptoDigest"
  end.

Definition crypto_hmac (args : list JsVal) : NodeCall :=
  match str_arg args 0, bytes_arg args 1, bytes_arg args 2 with
  | Some alg, Some key, Some data => bytes_or (hmac_bytes alg key data) (invalid_digest alg)
  | _, _, _ => throw_bad_args "cryptoHmac"
  end.

Definition crypto_pbkdf2 (args : list JsVal) : NodeCall :=
  match bytes_arg args 0, bytes_arg args 1, num_arg args 2, num_arg args 3, str_arg args 4 with
  | Some password, Some salt, Some iterations, Some keylen, Some alg =>
      if f64_lt iterations (f64_of_Z 1) || f64_gt iterations (f64_of_Z u32_max) ||
         f64_lt keylen (f64_of_Z 0) || f64_gt keylen (f64_of_Z (2 ^ 30))
      then throw_coded "ERR_OUT_OF_RANGE" "pbkdf2: iterations or keylen out of range"
      else
        match digest_named alg with
        | Some d => NReturned (VUint8Array (pbkdf2_hmac d password salt (f64_to_u32 iterations) (f64_to_usize keylen)))
        | None => invalid_digest alg
        end
  | _, _, _, _, _ => throw_bad_args "cryptoPbkdf2"
  end.

Definition scrypt_failed (e : string) : NodeCall :=
  throw_coded "ERR_CRYPTO_INVALID_SCRYPT_PARAMS" ("scrypt: " +:+ e).

Definition crypto_scrypt (args : list JsVal) : NodeCall :=
  match bytes_arg args 0, bytes_arg args 1, num_arg args 2, num_arg args 3, num_arg args 4, num_arg args 5 with
  | Some password, Some salt, Some n, Some r, Some p, Some keylen =>
      let n := f64_to_usize n in
      if (n <? 2) || negb (is_power_of_two n) || f64_lt keylen (f64_of_Z 0) || f64_gt keylen (f64_of_Z (2 ^ 26))
      then throw_coded "ERR_OUT_OF_RANGE" "scrypt: invalid N (must be power of two > 1) or keylen"
      else
        let log_n := Z.log2 n in
        match scrypt_params log_n (f64_to_u32 r) (f64_to_u32 p) (f64_to_usize keylen) with
        | Err e => scrypt_failed e
        | Ok _ =>
            match scrypt_into password salt log_n (f64_to_u32 r) (f64_to_u32 p) (f64_to_usize keylen) with
            | Err e => scrypt_failed e
            | Ok out => NReturned (VUint8Array out)
            end
        end
  | _, _, _, _, _, _ => throw_bad_args "cryptoScrypt"
  end.

Definition crypto_hkdf (args : list JsVal) : NodeCall :=
  match str_arg args 0, bytes_arg args 1, bytes_arg args 2, bytes_arg args 3, num_arg args 4 with
  | Some alg, Some ikm, Some salt, Some info, Some keylen =>
      if f64_lt keylen (f64_of_Z 0) || f64_gt keylen (f64_of_Z (255 * 64))
      then throw_coded "ERR_OUT_OF_RANGE" "hkdf: keylen out of range"
      else
        let salt_opt := match salt with [] => None | _ => Some salt end in
        match digest_named alg with
        | None => invalid_digest alg
        | Some d =>
            bytes_or (hkdf_expand d salt_opt ikm info (f64_to_usize keylen))
                     (throw_coded "ERR_OUT_OF_RANGE" "hkdf: derived key length too long for digest")
        end
  | _, _, _, _, _ => throw_bad_args "cryptoHkdf"
  end.

Definition crypto_random_bytes (rng : Rand) (args : list JsVal) : NodeCall :=
  match num_arg args 0 with
  | Some n =>
      if f64_lt n (f64_of_Z 0) || f64_gt n (f64_of_Z (2 ^ 27))
      then throw_coded "ERR_OUT_OF_RANGE" "randomBytes: size out of range (0..128MiB)"
      else bytes_or (getrandom rng (f64_to_usize n))
                    (throw_coded "ERR_CRYPTO_OPERATION_FAILED" "randomBytes: entropy source failure")
  | None => throw_bad_args "cryptoRandomBytes"
  end.

(** The accumulated difference. *)
Definition byte_diff (diff : Z) (xy : Byte.byte * Byte.byte) : Z :=
  Z.lor diff (Z.lxor (Z.of_N (Byte.to_N xy.1)) (Z.of_N (Byte.to_N xy.2))).

Definition crypto_timing_safe_equal (args : list JsVal) : NodeCall :=
  match bytes_arg args 0, bytes_arg args 1 with
  | Some a, Some b =>
      if negb (length a =? length b)%nat
      then throw_coded "ERR_CRYPTO_TIMING_SAFE_EQUAL_LENGTH" "Input buffers must have the same byte length"
      else NReturned (VBool (fold_left byte_diff (zip a b) 0 =? 0))
  | _, _ => throw_bad_args "cryptoTimingSafeEqual"
  end.

(** ** AES *)

Record CipherOutput := mkOutput { co_data : bytes; co_tag : option bytes }.

Definition Fail (code msg : string) : result CipherOutput (string * string) := Err (code, msg).

Definition keylen_failed (e : string) : string * string := ("ERR_CRYPTO_INVALID_KEYLEN", e).

(** The tag is split off at the end of what [encrypt] gives; a shorter ciphertext would be
    a panic of [split_off]. *)
Definition gcm_run (encrypt : bool) (key_len : Z) (key iv data aad : bytes) (tag : option bytes)
    : outcome (result CipherOutput (string * string)) :=
  match gcm_new key_len key with
  | Err e => Done (Err (keylen_failed e))
  | Ok _ =>
      if encrypt then
        match gcm_encrypt key_len key iv aad data with
        | None => Done (Fail "ERR_CRYPTO_OPERATION_FAILED" "GCM encrypt failed")
        | Some ct =>
            assert! (16 <=? length ct)%nat or "split_off: at > len" in
            let split := (length ct - 16)%nat in
            Done (Ok (mkOutput (take split ct) (Some (drop split ct))))
        end
      else
        match tag with
        | None => Done (Fail "ERR_CRYPTO_INVALID_STATE" "GCM decrypt requires an auth tag")
        | Some tag =>
            match gcm_decrypt key_len key iv aad (data ++ tag) with
            | Some pt => Done (Ok (mkOutput pt None))
            | None => Done (Fail "ERR_CRYPTO_INVALID_AUTH_TAG" "Unsupported state or unable to authenticate data")
            end
        end
  end.

Definition cbc_run (encrypt : bool) (key_len : Z) (key iv data : bytes) : result CipherOutput (string * string) :=
  match cbc_new key_len key iv with
  | Err e => Err (keylen_failed e)
  | Ok _ =>
      if encrypt then Ok (mkOutput (cbc_encrypt key_len key iv data) None)
      else match cbc_decrypt key_len key iv data with
           | Some pt => Ok (mkOutput pt None)
           | None => Fail "ERR_CRYPTO_OPERATION_FAILED" "bad decrypt (invalid padding)"
           end
  end.

Definition ctr_run (key_len : Z) (key iv data : bytes) : result CipherOutput (string * string) :=
  match ctr_new key_len key iv with
  | Err e => Err (keylen_failed e)
  | Ok _ => Ok (mkOutput (ctr_apply key_len key iv data) None)
  end.

Definition aes_run (encrypt : bool) (algo : string) (key iv data : bytes) (aad tag : option bytes)
    : outcome (result CipherOutput (string * string)) :=
  match parse_aes_algo algo with
  | None => Done (Fail "ERR_CRYPTO_UNKNOWN_CIPHER" ("Unknown cipher: " +:+ algo))
  | Some (key_len, mode) =>
      if negb (Z.of_nat (length key) =? key_len)
      then Done (Fail "ERR_CRYPTO_INVALID_KEYLEN"
                      ("Invalid key length " +:+ (pretty (length key) +:+ (" for " +:+ algo))))
      else
        match mode with
        | Gcm =>
            if negb (length iv =? 12)%nat
            then Done (Fail "ERR_CRYPTO_INVALID_IV" "GCM requires a 12-byte IV in the NANO runtime")
            else gcm_run encrypt key_len key iv data (default [] aad) tag
        | Cbc =>
            if negb (length iv =? 16)%nat
            then Done (Fail "ERR_CRYPTO_INVALID_IV" "CBC requires a 16-byte IV")
            else Done (cbc_run encrypt key_len key iv data)
        | Ctr =>
            if negb (length iv =? 16)%nat
            then Done (Fail "ERR_CRYPTO_INVALID_IV" "CTR requires a 16-byte IV")
            else Done (ctr_run key_len key iv data)
        end
  end.

Definition output_object (out : CipherOutput) : JsVal :=
  VObject (("data", VUint8Array (co_data out)) :: optional_prop "tag" (VUint8Array <$> co_tag out)).

Definition cipher_op (op : string) : option bool :=
  if String.eqb op "encrypt" then Some true else if String.eqb op "decrypt" then Some false else None.

Definition crypto_cipher (args : list JsVal) : outcome NodeCall :=
  let bad := Done (throw_bad_args "cryptoCipher") in
  match str_arg args 0, str_arg args 1, bytes_arg args 2, bytes_arg args 3, bytes_arg args 4 with
  | Some op, Some algo, Some key, Some iv, Some data =>
      match opt_bytes_arg args 5, opt_bytes_arg args 6, cipher_op op with
      | Ok aad, Ok tag, Some encrypt =>
          let! r := aes_run encrypt algo key iv data aad tag in
          Done (match r with
                | Ok out => NReturned (output_object out)
                | Err e => throw_coded e.1 e.2
                end)
      | _, _, _ => bad
      end
  | _, _, _, _, _ => bad
  end.

(** ** RSA *)

Definition parse_rsa_private (pem : string) : result RsaPrivate string :=
  match rsa_private_pkcs8 pem with
  | Ok k => Ok k
  | Err _ => map_err (λ e, "invalid RSA private key: " +:+ e) (rsa_private_pkcs1 pem)
  end.

(** A private key is taken where a public one is expected. *)
Definition parse_rsa_public (pem : string) : result RsaPublic string :=
  match rsa_public_spki pem with
  | Ok k => Ok k
  | Err _ =>
      match rsa_public_pkcs1 pem with
      | Ok k => Ok k
      | Err _ =>
          match parse_rsa_private pem with
          | Ok k => Ok (rsa_to_public k)
          | Err e => Err ("invalid RSA public key: " +:+ e)
          end
      end
  end.

Definition pem_pair_object (private_pem public_pem : string) : JsVal :=
  VObject [("privatePem", VString private_pem); ("publicPem", VString public_pem)].

Definition operation_failed (msg : string) : NodeCall := throw_coded "ERR_CRYPTO_OPERATION_FAILED" msg.
Definition bad_key (e : string) : NodeCall := throw_coded "ERR_CRYPTO_INVALID_KEY_OBJECT_TYPE" e.

Definition crypto_rsa_generate (rng : Rand) (args : list JsVal) : NodeCall :=
  match num_arg args 0 with
  | Some bits =>
      let bits := f64_to_usize bits in
      if negb ((512 <=? bits) && (bits <=? 8192)) then throw_coded "ERR_OUT_OF_RANGE" "RSA modulus must be 512..8192 bits"
      else
        match rsa_new rng bits with
        | Err e => operation_failed ("RSA keygen failed: " +:+ e)
        | Ok private =>
            match rsa_private_pem private, rsa_public_pem (rsa_to_public private) with
            | Some private_pem, Some public_pem => NReturned (pem_pair_object private_pem public_pem)
            | _, _ => operation_failed "RSA key encoding failed"
            end
        end
  | None => throw_bad_args "cryptoRsaGenerate"
  end.

(** MD5, which [digest_bytes] knows, has no scheme. *)
Definition rsa_schemes (hash : string) (data : bytes) (salt_len : Z) : option (bytes * Scheme * Scheme) :=
  dg ← digest_bytes hash data;
  d ← digest_named hash;
  match d with
  | DMd5 => None
  | _ => Some (dg, Pkcs1v15Sign d, Pss d salt_len)
  end.

Definition salt_arg (args : list JsVal) (index : nat) : Z := from_option f64_to_usize 0 (num_arg args index).

Definition settled (what : string) (r : result bytes string) : NodeCall :=
  match r with
  | Ok out => NReturned (VUint8Array out)
  | Err e => operation_failed (what +:+ (" failed: " +:+ e))
  end.

Definition crypto_rsa_sign (rng : Rand) (args : list JsVal) : NodeCall :=
  match str_arg args 0, str_arg args 1, str_arg args 2, bytes_arg args 3 with
  | Some padding, Some hash, Some pem, Some data =>
      let salt_len := salt_arg args 4 in
      match parse_rsa_private pem with
      | Err e => bad_key e
      | Ok key =>
          match rsa_schemes hash data salt_len with
          | None => invalid_digest hash
          | Some (dg, pkcs1, pss) =>
              if String.eqb padding "pkcs1" then settled "RSA sign" (rsa_sign key pkcs1 dg)
              else if String.eqb padding "pss" then settled "RSA sign" (rsa_sign_with_rng rng key pss dg)
              else throw_bad_args "cryptoRsaSign"
          end
      end
  | _, _, _, _ => throw_bad_args "cryptoRsaSign"
  end.

Definition crypto_rsa_verify (args : list JsVal) : NodeCall :=
  match str_arg args 0, str_arg args 1, str_arg args 2, bytes_arg args 3, bytes_arg args 4 with
  | Some padding, Some hash, Some pem, Some data, Some sig =>
      let salt_len := salt_arg args 5 in
      match parse_rsa_public pem with
      | Err e => bad_key e
      | Ok key =>
          match rsa_schemes hash data salt_len with
          | None => invalid_digest hash
          | Some (dg, pkcs1, pss) =>
              if String.eqb padding "pkcs1" then NReturned (VBool (rsa_verify key pkcs1 dg sig))
              else if String.eqb padding "pss" then NReturned (VBool (rsa_verify key pss dg sig))
              else throw_bad_args "cryptoRsaVerify"
          end
      end
  | _, _, _, _, _ => throw_bad_args "cryptoRsaVerify"
  end.

Definition oaep_for (hash : string) : option Encryption :=
  d ← digest_named hash; match d with DMd5 => None | _ => Some (OaepOf d) end.

(** The padding of an encryption, or what is thrown. *)
Definition encryption_for (padding hash hook : string) : result Encryption NodeCall :=
  if String.eqb padding "oaep" then
    match oaep_for hash with Some o => Ok o | None => Err (invalid_digest hash) end
  else if String.eqb padding "pkcs1" then Ok Pkcs1v15Encrypt
  else Err (throw_bad_args hook).

Definition crypto_rsa_encrypt (rng : Rand) (args : list JsVal) : NodeCall :=
  match str_arg args 0, str_arg args 1, str_arg args 2, bytes_arg args 3 with
  | Some padding, Some hash, Some pem, Some data =>
      match parse_rsa_public pem with
      | Err e => bad_key e
      | Ok key =>
          match encryption_for padding hash "cryptoRsaEncrypt" with
          | Err thrown => thrown
          | Ok scheme => settled "RSA encrypt" (rsa_encrypt rng key scheme data)
          end
      end
  | _, _, _, _ => throw_bad_args "cryptoRsaEncrypt"
  end.

Definition crypto_rsa_decrypt (args : list JsVal) : NodeCall :=
  match str_arg args 0, str_arg args 1, str_arg args 2, bytes_arg args 3 with
  | Some padding, Some hash, Some pem, Some data =>
      match parse_rsa_private pem with
      | Err e => bad_key e
      | Ok key =>
          match encryption_for padding hash "cryptoRsaDecrypt" with
          | Err thrown => thrown
          | Ok scheme => settled "RSA decrypt" (rsa_decrypt key scheme data)
          end
      end
  | _, _, _, _ => throw_bad_args "cryptoRsaDecrypt"
  end.

(** ** ECDSA *)

Definition curve_named (curve : string) : option Curve :=
  if String.eqb curve "p256" then Some P256 else if String.eqb curve "p384" then Some P384 else None.

Definition unsupported_curve (curve : string) : NodeCall :=
  throw_coded "ERR_INVALID_ARG_VALUE" ("Unsupported curve: " +:+ curve).

Definition crypto_ec_generate (rng : Rand) (args : list JsVal) : NodeCall :=
  match str_arg args 0 with
  | Some curve =>
      match curve_named curve with
      | Some c =>
          let sk := ec_random c rng in
          match ec_private_pem c sk, ec_public_pem c (ec_to_public c sk) with
          | Some private_pem, Some public_pem => NReturned (pem_pair_object private_pem public_pem)
          | _, _ => operation_failed "EC key encoding failed"
          end
      | None => unsupported_curve curve
      end
  | None => throw_bad_args "cryptoEcGenerate"
  end.

Definition ec_der (curve pem : string) (dg : bytes) : result bytes string :=
  match curve_named curve with
  | Some c =>
      let? sk := ec_secret_of_pem c pem in
      let? sig := ec_sign_prehash c sk dg in
      Ok (ec_to_der c sig)
  | None => Err ("Unsupported curve: " +:+ curve)
  end.

Definition crypto_ec_sign (args : list JsVal) : NodeCall :=
  match str_arg args 0, str_arg args 1, str_arg args 2, bytes_arg args 3 with
  | Some curve, Some hash, Some pem, Some data =>
      match digest_bytes hash data with
      | None => invalid_digest hash
      | Some dg => settled "EC sign" (ec_der curve pem dg)
      end
  | _, _, _, _ => throw_bad_args "cryptoEcSign"
  end.

(** A key or a signature that cannot be read counts as a wrong signature. *)
Definition ec_ok (c : Curve) (pem : string) (dg sig : bytes) : bool :=
  default false (pk ← ec_public_of_pem c pem; s ← ec_from_der c sig; Some (ec_verify_prehash c pk dg s)).

Definition crypto_ec_verify (args : list JsVal) : NodeCall :=
  match str_arg args 0, str_arg args 1, str_arg args 2, bytes_arg args 3, bytes_arg args 4 with
  | Some curve, Some hash, Some pem, Some data, Some sig =>
      match digest_bytes hash data with
      | None => invalid_digest hash
      | Some dg =>
          match curve_named curve with
          | Some c => NReturned (VBool (ec_ok c pem dg sig))
          | None => unsupported_curve curve
          end
      end
  | _, _, _, _, _ => throw_bad_args "cryptoEcVerify"
  end.

(** ** Ed25519 *)

Definition crypto_ed25519_generate (rng : Rand) : NodeCall :=
  match ed_generate_pkcs8 rng with
  | None => operation_failed "Ed25519 keygen failed"
  | Some pkcs8 =>
      match ed_from_pkcs8 pkcs8 with
      | None => operation_failed "Ed25519 keygen failed"
      | Some keys =>
          NReturned (VObject [("privatePkcs8", VUint8Array pkcs8); ("publicRaw", VUint8Array (ed_public keys))])
      end
  end.

Definition crypto_ed25519_sign (args : list JsVal) : NodeCall :=
  match bytes_arg args 0, bytes_arg args 1 with
  | Some pkcs8, Some data =>
      match ed_from_pkcs8_maybe_unchecked pkcs8 with
      | None => bad_key "invalid Ed25519 PKCS#8 key"
      | Some keys => NReturned (VUint8Array (ed_sign keys data))
      end
  | _, _ => throw_bad_args "cryptoEd25519Sign"
  end.

Definition crypto_ed25519_verify (args : list JsVal) : NodeCall :=
  match bytes_arg args 0, bytes_arg args 1, bytes_arg args 2 with
  | Some public_raw, Some data, Some sig => NReturned (VBool (ed_verify public_raw data sig))
  | _, _, _ => throw_bad_args "cryptoEd25519Verify"
  end.

(** ** The functions [bind] puts on the host object *)

Inductive CryptoHook :=
| CryptoDigest | CryptoHmac | CryptoPbkdf2 | CryptoScrypt | CryptoHkdf | CryptoRandomBytes | CryptoTimingSafeEqual
| CryptoCipher | CryptoRsaGenerate | CryptoRsaSign | CryptoRsaVerify | CryptoRsaEncrypt | CryptoRsaDecrypt
| CryptoEcGenerate | CryptoEcSign | CryptoEcVerify | CryptoEd25519Generate | CryptoEd25519Sign | CryptoEd25519Verify.

Definition bind (h : CryptoHook) (rng : Rand) (args : list JsVal) : outcome NodeCall :=
  match h with
  | CryptoDigest => Done (crypto_digest args)
  | CryptoHmac => Done (crypto_hmac args)
  | CryptoPbkdf2 => Done (crypto_pbkdf2 args)
  | CryptoScrypt => Done (crypto_scrypt args)
  | CryptoHkdf => Done (crypto_hkdf args)
  | CryptoRandomBytes => Done (crypto_random_bytes rng args)
  | CryptoTimingSafeEqual => Done (crypto_timing_safe_equal args)
  | CryptoCipher => crypto_cipher args
  | CryptoRsaGenerate => Done (crypto_rsa_generate rng args)
  | CryptoRsaSign => Done (crypto_rsa_sign rng args)
  | CryptoRsaVerify => Done (crypto_rsa_verify args)
  | CryptoRsaEncrypt => Done (crypto_rsa_encrypt rng args)
  | CryptoRsaDecrypt => Done (crypto_rsa_decrypt args)
  | CryptoEcGenerate => Done (crypto_ec_generate rng args)
  | CryptoEcSign => Done (crypto_ec_sign args)
  | CryptoEcVerify => Done (crypto_ec_verify args)
  | CryptoEd25519Generate => Done (crypto_ed25519_generate rng)
  | CryptoEd25519Sign => Done (crypto_ed25519_sign args)
  | CryptoEd25519Verify => Done (crypto_ed25519_verify args)
  end.
End crypto.

(** ** What the crates promise *)

Definition GCM_MAX : Z := 2 ^ 36.

Definition key_lengths : list Z := [16; 24; 32].

(** Keys and vectors of their length are accepted; [encrypt] of [aes-gcm] succeeds up to
    its limits and puts a tag of 16 bytes at the end; decryption undoes encryption; texts
    of keys read back; signatures of a key verify with its public half. *)
Class NodePrimitiveLaws `{NodePrimitives} : Prop := {
  gcm_new_ok : ∀ n k, n ∈ key_lengths → Z.of_nat (length k) = n → gcm_new n k = Ok tt;
  gcm_small : ∀ n k iv a p, Z.of_nat (length p) ≤ GCM_MAX → Z.of_nat (length a) ≤ GCM_MAX →
    is_Some (gcm_encrypt n k iv a p);
  gcm_tagged : ∀ n k iv a p c, gcm_encrypt n k iv a p = Some c → length c = (length p + 16)%nat;
  gcm_open : ∀ n k iv a p c, gcm_encrypt n k iv a p = Some c → gcm_decrypt n k iv a c = Some p;
  cbc_new_ok : ∀ n k iv, n ∈ key_lengths → Z.of_nat (length k) = n → length iv = 16%nat → cbc_new n k iv = Ok tt;
  cbc_open : ∀ n k iv p, cbc_decrypt n k iv (cbc_encrypt n k iv p) = Some p;
  ctr_new_ok : ∀ n k iv, n ∈ key_lengths → Z.of_nat (length k) = n → length iv = 16%nat → ctr_new n k iv = Ok tt;
  ctr_twice : ∀ n k iv p, ctr_apply n k iv (ctr_apply n k iv p) = p;
  rsa_private_reads : ∀ k t, rsa_private_pem k = Some t →
    rsa_private_pkcs8 t = Ok k ∧ is_ok (rsa_public_spki t) = false ∧ is_ok (rsa_public_pkcs1 t) = false;
  rsa_public_reads : ∀ k t, rsa_public_pem k = Some t → rsa_public_spki t = Ok k;
  rsa_signs : ∀ k s d sig, rsa_sign k s d = Ok sig → rsa_verify (rsa_to_public k) s d sig = true;
  rsa_signs_rng : ∀ r k s d sig, rsa_sign_with_rng r k s d = Ok sig → rsa_verify (rsa_to_public k) s d sig = true;
  rsa_opens : ∀ r k e p c, rsa_encrypt r (rsa_to_public k) e p = Ok c → rsa_decrypt k e c = Ok p;
  ec_private_reads : ∀ c k t, ec_private_pem c k = Some t → ec_secret_of_pem c t = Ok k;
  ec_public_reads : ∀ c k t, ec_public_pem c k = Some t → ec_public_of_pem c t = Some k;
  ec_signs : ∀ c k d s, ec_sign_prehash c k d = Ok s → ec_verify_prehash c (ec_to_public c k) d s = true;
  ec_der_reads : ∀ c s, ec_from_der c (ec_to_der c s) = Some s;
  ed_reads : ∀ r b p, ed_generate_pkcs8 r = Some b → ed_from_pkcs8 b = Some p → ed_from_pkcs8_maybe_unchecked b = Some p;
  ed_signs : ∀ p d, ed_verify (ed_public p) d (ed_sign p d) = true;
}.

Section laws.
Context `{JsText} `{NodePrimitiveLaws}.

Lemma aes_key_lengths algo n m : parse_aes_algo algo = Some (n, m) → n ∈ key_lengths.
Proof.
  unfold parse_aes_algo, key_lengths. intros He.
  repeat (destruct (String.eqb algo _); [injection He as <- <-; by apply (bool_decide_eq_true_1 (_ ∈ _)) |]). discriminate He.
Qed.

Definition iv_length (m : AesMode) : nat := match m with Gcm => 12 | _ => 16 end.

(** With a key and a vector of their lengths, running a cipher is running its mode. *)
Lemma aes_run_mode enc algo n m key iv data aad tag :
  parse_aes_algo algo = Some (n, m) → Z.of_nat (length key) = n → length iv = iv_length m →
  aes_run enc algo key iv data aad tag =
  match m with
  | Gcm => gcm_run enc n key iv data (default [] aad) tag
  | Cbc => Done (cbc_run enc n key iv data)
  | Ctr => Done (ctr_run n key iv data)
  end.
Proof.
  intros Ha Hk Hi. unfold aes_run. rewrite Ha, Hk, Z.eqb_refl. cbn [negb]. destruct m; cbn [iv_length] in Hi; by rewrite Hi.
Qed.

Lemma gcm_runs enc n key iv data aad tag :
  n ∈ key_lengths → Z.of_nat (length key) = n →
  gcm_run enc n key iv data aad tag =
  Done (if enc then
          match gcm_encrypt n key iv aad data with
          | None => Fail "ERR_CRYPTO_OPERATION_FAILED" "GCM encrypt failed"
          | Some ct => Ok (mkOutput (take (length data) ct) (Some (drop (length data) ct)))
          end
        else
          match tag with
          | None => Fail "ERR_CRYPTO_INVALID_STATE" "GCM decrypt requires an auth tag"
          | Some tag =>
              match gcm_decrypt n key iv aad (data ++ tag) with
              | Some pt => Ok (mkOutput pt None)
              | None => Fail "ERR_CRYPTO_INVALID_AUTH_TAG" "Unsupported state or unable to authenticate data"
              end
          end).
Proof.
  intros Hn Hk. unfold gcm_run. rewrite gcm_new_ok by done. destruct enc.
  - destruct (gcm_encrypt n key iv aad data) as [ct|] eqn:Hc; [|done]. pose proof (gcm_tagged _ _ _ _ _ _ Hc) as Hl.
    rewrite Hl. rewrite assert_true by (apply Nat.leb_le; lia). by replace (length data + 16 - 16)%nat with (length data) by lia.
  - destruct tag as [tag|]; [|done]. by destruct (gcm_decrypt _ _ _ _ _).
Qed.

(** The text of an optional argument: [null] when absent. *)
Definition opt_arg (o : option bytes) : JsVal := from_option VUint8Array VNull o.

Definition cipher_args (op algo : string) (key iv data : bytes) (aad : option bytes) (tag : JsVal) : list JsVal :=
  [VString op; VString algo; VUint8Array key; VUint8Array iv; VUint8Array data; opt_arg aad; tag].

Lemma opt_bytes_opt (o : option bytes) (l : list JsVal) i : l !! i = Some (opt_arg o) → opt_bytes_arg l i = Ok o.
Proof.
  intros Hi. unfold opt_bytes_arg, bytes_arg. rewrite Hi. by destruct o.
Qed.

Lemma cipher_call op enc algo key iv data aad tag :
  cipher_op op = Some enc →
  crypto_cipher (cipher_args op algo key iv data aad (opt_arg tag)) =
  (let! r := aes_run enc algo key iv data aad tag in
   Done (match r with Ok out => NReturned (output_object out) | Err e => throw_coded e.1 e.2 end)).
Proof.
  intros Ho. unfold crypto_cipher. rewrite (opt_bytes_opt aad _ 5), (opt_bytes_opt tag _ 6) by done.
  unfold cipher_args. cbn [str_arg bytes_arg lookup list_lookup]. by rewrite Ho.
Qed.

(** The two halves of a round trip: encryption gives an output, whose decryption with the
    same arguments gives the data back. *)
Lemma aes_run_round_trip algo n m key iv data aad :
  parse_aes_algo algo = Some (n, m) → Z.of_nat (length key) = n → length iv = iv_length m →
  Z.of_nat (length data) ≤ GCM_MAX → Z.of_nat (length (default [] aad)) ≤ GCM_MAX →
  ∃ out, aes_run true algo key iv data aad None = Done (Ok out) ∧
         (is_Some (co_tag out) ↔ m = Gcm) ∧
         aes_run false algo key iv (co_data out) aad (co_tag out) = Done (Ok (mkOutput data None)).
Proof.
  intros Ha Hk Hi Hd Haad. pose proof (aes_key_lengths _ _ _ Ha) as Hn. destruct m.
  - destruct (gcm_small n key iv (default [] aad) data Hd Haad) as [ct Hc].
    rewrite (aes_run_mode _ _ _ _ _ _ _ _ _ Ha Hk Hi), gcm_runs, Hc by done. eexists. split; [done |]. split; [by cbn |].
    rewrite (aes_run_mode _ _ _ _ _ _ _ _ _ Ha Hk Hi), gcm_runs by done. cbn [co_data co_tag].
    rewrite take_drop, (gcm_open _ _ _ _ _ _ Hc). done.
  - rewrite (aes_run_mode _ _ _ _ _ _ _ _ _ Ha Hk Hi). unfold cbc_run. rewrite cbc_new_ok by done.
    eexists. split; [done |]. split; [by split; [intros [] | discriminate] |].
    rewrite (aes_run_mode _ _ _ _ _ _ _ _ _ Ha Hk Hi). unfold cbc_run. rewrite cbc_new_ok by done. cbn [co_data].
    by rewrite cbc_open.
  - rewrite (aes_run_mode _ _ _ _ _ _ _ _ _ Ha Hk Hi). unfold ctr_run. rewrite ctr_new_ok by done.
    eexists. split; [done |]. split; [by split; [intros [] | discriminate] |].
    rewrite (aes_run_mode _ _ _ _ _ _ _ _ _ Ha Hk Hi). unfold ctr_run. rewrite ctr_new_ok by done. cbn [co_data].
    by rewrite ctr_twice.
Qed.

(** C20. For every cipher of the contract, a key and a vector of its lengths and data within
    the limits of GCM: encrypting returns an object, with a tag exactly for GCM, and
    decrypting its data with its tag and the same arguments returns the data. *)
Theorem cipher_round_trip algo n m key iv data aad :
  parse_aes_algo algo = Some (n, m) → Z.of_nat (length key) = n → length iv = iv_length m →
  Z.of_nat (length data) ≤ GCM_MAX → Z.of_nat (length (default [] aad)) ≤ GCM_MAX →
  ∃ obj sealed,
    crypto_cipher (cipher_args "encrypt" algo key iv data aad VNull) = Done (NReturned obj) ∧
    get obj "data" = VUint8Array sealed ∧
    (get obj "tag" = VUndefined ↔ m ≠ Gcm) ∧
    crypto_cipher (cipher_args "decrypt" algo key iv sealed aad (get obj "tag")) =
      Done (NReturned (VObject [("data", VUint8Array data)])).
Proof.
  intros Ha Hk Hi Hd Haad. destruct (aes_run_round_trip algo n m key iv data aad) as ([sealed tag] & He & Ht & Hr); try done.
  cbn [co_data co_tag] in *. exists (output_object (mkOutput sealed tag)), sealed.
  change VNull with (opt_arg None). rewrite (cipher_call "encrypt" true), He by done. split; [done |]. split; [done |].
  assert (get (output_object (mkOutput sealed tag)) "tag" = from_option VUint8Array VUndefined tag) as -> by (by destruct tag).
  split.
  { destruct tag as [tag|]; cbn; split; try done.
    - intros Hm. destruct Hm. apply Ht. by eexists.
    - intros _ Hm. apply Ht in Hm as [? [=]]. }
  destruct tag as [tag|].
  - cbn [from_option]. change (VUint8Array tag) with (opt_arg (Some tag)). by rewrite (cipher_call "decrypt" false), Hr by done.
  - cbn [from_option]. unfold crypto_cipher, cipher_args. rewrite (opt_bytes_opt aad _ 5) by done.
    cbn [str_arg bytes_arg lookup list_lookup]. unfold opt_bytes_arg. cbn [lookup list_lookup is_nullish].
    change (cipher_op "decrypt") with (Some false). cbn. by rewrite Hr.
Qed.

(** Where the data ends and the tag begins does not matter when a ciphertext is opened. *)
Lemma tag_boundary algo n key iv aad d1 t1 d2 t2 :
  parse_aes_algo algo = Some (n, Gcm) → d1 ++ t1 = d2 ++ t2 →
  aes_run false algo key iv d1 aad (Some t1) = aes_run false algo key iv d2 aad (Some t2).
Proof.
  intros Ha He. unfold aes_run. rewrite Ha. destruct (negb _); [done |]. destruct (negb _); [done |].
  unfold gcm_run. destruct (gcm_new n key); [|done]. by rewrite He.
Qed.

(** No hook panics: the tag is there to be split off. *)
Lemma hooks_return h rng args : is_done (bind h rng args) = true.
Proof.
  destruct h; try done. cbn [bind]. unfold crypto_cipher.
  destruct (str_arg args 0) as [op|], (str_arg args 1) as [algo|], (bytes_arg args 2) as [key|], (bytes_arg args 3) as [iv|],
    (bytes_arg args 4) as [data|]; try done.
  destruct (opt_bytes_arg args 5) as [aad|], (opt_bytes_arg args 6) as [tag|], (cipher_op op) as [enc|]; try done.
  assert (is_done (aes_run enc algo key iv data aad tag) = true) as Hd; [|by destruct (aes_run enc algo key iv data aad tag)].
  unfold aes_run. destruct (parse_aes_algo algo) as [[n m]|] eqn:Ha; [|done].
  destruct (Z.eqb_spec (Z.of_nat (length key)) n) as [Hk|]; [|done]. cbn [negb].
  destruct m; destruct (negb _); try done. by rewrite (gcm_runs _ _ _ _ _ _ _ (aes_key_lengths _ _ _ Ha) Hk).
Qed.

(** ** Key pairs *)

Definition is_pair (r : NodeCall) (private public : string) : Prop := r = NReturned (pem_pair_object private public).

Lemma pem_pair_inj a b c d : pem_pair_object a b = pem_pair_object c d → a = c ∧ b = d.
Proof. intros He. by injection He. Qed.

Lemma returned_inj v w : NReturned v = NReturned w → v = w.
Proof. intros He. by injection He. Qed.

Lemma thrown_not_returned code msg v : throw_coded code msg ≠ NReturned v.
Proof. discriminate. Qed.

Lemma rsa_generated rng args private public :
  is_pair (crypto_rsa_generate rng args) private public →
  ∃ k, rsa_private_pem k = Some private ∧ rsa_public_pem (rsa_to_public k) = Some public.
Proof.
  unfold is_pair, crypto_rsa_generate. destruct (num_arg args 0) as [n|]; [|discriminate].
  destruct (negb _); [discriminate |]. destruct (rsa_new _ _) as [k|]; [|discriminate].
  destruct (rsa_private_pem k) as [a|] eqn:Ha; [|discriminate].
  destruct (rsa_public_pem (rsa_to_public k)) as [b|] eqn:Hb; [|discriminate].
  intros He. apply returned_inj, pem_pair_inj in He as [<- <-]. by exists k.
Qed.

Lemma private_reads k t : rsa_private_pem k = Some t → parse_rsa_private t = Ok k.
Proof. intros Hk. apply rsa_private_reads in Hk as (He & _). unfold parse_rsa_private. by rewrite He. Qed.

(** The text of either half is read as the public key. *)
Lemma public_reads k private public t :
  rsa_private_pem k = Some private → rsa_public_pem (rsa_to_public k) = Some public → t = public ∨ t = private →
  parse_rsa_public t = Ok (rsa_to_public k).
Proof.
  intros Hp Hq Ht. destruct Ht as [-> | ->]; unfold parse_rsa_public.
  - by rewrite (rsa_public_reads _ _ Hq).
  - rewrite (private_reads _ _ Hp). apply rsa_private_reads in Hp as (_ & Hspki & Hpk1).
    destruct (rsa_public_spki private); [discriminate |]. by destruct (rsa_public_pkcs1 private).
Qed.

Lemma ec_generated rng args c private public :
  str_arg args 0 ≫= curve_named = Some c → is_pair (crypto_ec_generate rng args) private public →
  ∃ k, ec_private_pem c k = Some private ∧ ec_public_pem c (ec_to_public c k) = Some public.
Proof.
  unfold is_pair, crypto_ec_generate. destruct (str_arg args 0) as [curve|]; [|discriminate].
  cbn [mbind option_bind]. intros ->. destruct (ec_private_pem c _) as [a|] eqn:Ha; [|discriminate].
  destruct (ec_public_pem c _) as [b|] eqn:Hb; [|discriminate].
  intros He. apply returned_inj, pem_pair_inj in He as [<- <-]. by eexists.
Qed.

Lemma settled_returned what r out : settled what r = NReturned (VUint8Array out) → r = Ok out.
Proof. destruct r as [o|e]; [|discriminate]. intros He. apply returned_inj in He. by injection He as <-. Qed.

Lemma rsa_signature_verifies rng rng' args private public t padding hash data salt sig :
  is_pair (crypto_rsa_generate rng args) private public → t = public ∨ t = private →
  crypto_rsa_sign rng' [VString padding; VString hash; VString private; VUint8Array data; salt] =
    NReturned (VUint8Array sig) →
  crypto_rsa_verify [VString padding; VString hash; VString t; VUint8Array data; VUint8Array sig; salt] =
    NReturned (VBool true).
Proof.
  intros Hg Ht. apply rsa_generated in Hg as (k & Hp & Hq).
  unfold crypto_rsa_sign, crypto_rsa_verify. cbn [str_arg bytes_arg lookup list_lookup].
  rewrite (private_reads _ _ Hp), (public_reads _ _ _ _ Hp Hq Ht).
  change (salt_arg [VString padding; VString hash; VString t; VUint8Array data; VUint8Array sig; salt] 5)
    with (salt_arg [VString padding; VString hash; VString private; VUint8Array data; salt] 4).
  destruct (rsa_schemes _ _ _) as [[[dg pkcs1] pss]|]; [|discriminate].
  destruct (String.eqb padding "pkcs1").
  - intros Hs. apply settled_returned in Hs. by rewrite (rsa_signs _ _ _ _ Hs).
  - destruct (String.eqb padding "pss"); [|discriminate]. intros Hs. apply settled_returned in Hs.
    by rewrite (rsa_signs_rng _ _ _ _ _ Hs).
Qed.

Lemma rsa_encryption_opens rng rng' args private public t padding hash data sealed :
  is_pair (crypto_rsa_generate rng args) private public → t = public ∨ t = private →
  crypto_rsa_encrypt rng' [VString padding; VString hash; VString t; VUint8Array data] = NReturned (VUint8Array sealed) →
  crypto_rsa_decrypt [VString padding; VString hash; VString private; VUint8Array sealed] = NReturned (VUint8Array data).
Proof.
  intros Hg Ht. apply rsa_generated in Hg as (k & Hp & Hq).
  unfold crypto_rsa_encrypt, crypto_rsa_decrypt. cbn [str_arg bytes_arg lookup list_lookup].
  rewrite (private_reads _ _ Hp), (public_reads _ _ _ _ Hp Hq Ht). unfold encryption_for.
  destruct (String.eqb padding "oaep"); [destruct (oaep_for hash) as [o|]; [|discriminate] |
    destruct (String.eqb padding "pkcs1"); [|discriminate]];
    intros Hs; apply settled_returned in Hs; by rewrite (rsa_opens _ _ _ _ _ Hs).
Qed.

Lemma ec_signature_verifies rng curve private public hash data sig :
  is_pair (crypto_ec_generate rng [VString curve]) private public →
  crypto_ec_sign [VString curve; VString hash; VString private; VUint8Array data] = NReturned (VUint8Array sig) →
  crypto_ec_verify [VString curve; VString hash; VString public; VUint8Array data; VUint8Array sig] = NReturned (VBool true).
Proof.
  intros Hg. destruct (curve_named curve) as [c|] eqn:Hc.
  2: { unfold is_pair, crypto_ec_generate in Hg. cbn [str_arg lookup list_lookup] in Hg. rewrite Hc in Hg. discriminate Hg. }
  destruct (ec_generated rng [VString curve] c private public Hc Hg) as (k & Hp & Hq).
  unfold crypto_ec_sign, crypto_ec_verify. cbn [str_arg bytes_arg lookup list_lookup].
  destruct (digest_bytes hash data) as [dg|]; [|discriminate]. unfold ec_der, ec_ok. rewrite Hc.
  rewrite (ec_private_reads _ _ _ Hp). cbn [result_bind].
  destruct (ec_sign_prehash c k dg) as [s|] eqn:Hs; [|discriminate]. cbn [result_bind]. intros Hr. apply settled_returned in Hr.
  injection Hr as <-. rewrite (ec_public_reads _ _ _ Hq). cbn [mbind option_bind]. rewrite ec_der_reads.
  cbn [mbind option_bind]. by rewrite (ec_signs _ _ _ _ Hs).
Qed.

Lemma ed_signature_verifies rng pkcs8 raw data sig :
  crypto_ed25519_generate rng = NReturned (VObject [("privatePkcs8", VUint8Array pkcs8); ("publicRaw", VUint8Array raw)]) →
  crypto_ed25519_sign [VUint8Array pkcs8; VUint8Array data] = NReturned (VUint8Array sig) →
  crypto_ed25519_verify [VUint8Array raw; VUint8Array data; VUint8Array sig] = NReturned (VBool true).
Proof.
  unfold crypto_ed25519_generate. destruct (ed_generate_pkcs8 rng) as [b|] eqn:Hb; [|discriminate].
  destruct (ed_from_pkcs8 b) as [keys|] eqn:Hk; [|discriminate]. intros Hg. apply returned_inj in Hg. injection Hg as <- <-.
  unfold crypto_ed25519_sign, crypto_ed25519_verify. cbn [bytes_arg lookup list_lookup].
  rewrite (ed_reads _ _ _ Hb Hk). intros Hs. apply returned_inj in Hs. injection Hs as <-. by rewrite ed_signs.
Qed.

(** The halves of a generated pair belong together, whatever the padding, digest, salt
    length and randomness: a signature made with the private key verifies with the public
    key, and with the private one for RSA, and what either half of an RSA pair encrypts
    the private key decrypts. *)
Theorem key_pairs_agree rng :
  (∀ args private public, is_pair (crypto_rsa_generate rng args) private public →
   ∀ t, t = public ∨ t = private → ∀ rng' padding hash data,
   (∀ salt sig,
     crypto_rsa_sign rng' [VString padding; VString hash; VString private; VUint8Array data; salt] =
       NReturned (VUint8Array sig) →
     crypto_rsa_verify [VString padding; VString hash; VString t; VUint8Array data; VUint8Array sig; salt] =
       NReturned (VBool true)) ∧
   (∀ sealed,
     crypto_rsa_encrypt rng' [VString padding; VString hash; VString t; VUint8Array data] =
       NReturned (VUint8Array sealed) →
     crypto_rsa_decrypt [VString padding; VString hash; VString private; VUint8Array sealed] =
       NReturned (VUint8Array data))) ∧
  (∀ curve private public, is_pair (crypto_ec_generate rng [VString curve]) private public →
   ∀ hash data sig,
     crypto_ec_sign [VString curve; VString hash; VString private; VUint8Array data] = NReturned (VUint8Array sig) →
     crypto_ec_verify [VString curve; VString hash; VString public; VUint8Array data; VUint8Array sig] =
       NReturned (VBool true)) ∧
  (∀ pkcs8 raw,
     crypto_ed25519_generate rng =
       NReturned (VObject [("privatePkcs8", VUint8Array pkcs8); ("publicRaw", VUint8Array raw)]) →
   ∀ data sig,
     crypto_ed25519_sign [VUint8Array pkcs8; VUint8Array data] = NReturned (VUint8Array sig) →
     crypto_ed25519_verify [VUint8Array raw; VUint8Array data; VUint8Array sig] = NReturned (VBool true)).
Proof.
  split_and!.
  - intros args private public Hg t Ht rng' padding hash data. split; intros *.
    + by apply (rsa_signature_verifies rng rng' args private public).
    + by apply (rsa_encryption_opens rng rng' args private public).
  - intros curve private public Hg hash data sig. by apply (ec_signature_verifies rng curve private).
  - intros pkcs8 raw Hg data sig. by apply (ed_signature_verifies rng).
Qed.
End laws.

(** ** The comparison *)

Lemma byte_to_Z_inj x y : Z.of_N (Byte.to_N x) = Z.of_N (Byte.to_N y) → x = y.
Proof.
  intros He. apply N2Z.inj in He. pose proof (Byte.of_to_N x) as Hx. rewrite He, Byte.of_to_N in Hx. by injection Hx.
Qed.

Lemma byte_diffs_zero a : ∀ b d,
  length a = length b → fold_left byte_diff (zip a b) d = 0 ↔ d = 0 ∧ a = b.
Proof.
  induction a as [|x a IH]; intros [|y b] d Hl; try discriminate; [cbn; tauto |].
  injection Hl as Hl. change (zip (x :: a) (y :: b)) with ((x, y) :: zip a b). cbn [fold_left]. rewrite (IH b) by done.
  unfold byte_diff at 1. cbn [fst snd]. rewrite Z.lor_eq_0_iff, Z.lxor_eq_0_iff. split.
  - intros [[-> Hxy] ->]. by apply byte_to_Z_inj in Hxy as ->.
  - intros [-> [= -> ->]]. done.
Qed.

#[export] Instance byte_eq_decision : EqDecision Byte.byte := Byte.byte_eq_dec.

(** Two byte arrays of one length compare equal exactly when they are; of different
    lengths they throw, and no other pair of arguments is compared. *)
Theorem timing_safe_equal_exact `{JsText} args v :
  crypto_timing_safe_equal args = NReturned v ↔
  ∃ a b, bytes_arg args 0 = Some a ∧ bytes_arg args 1 = Some b ∧ length a = length b ∧ v = VBool (bool_decide (a = b)).
Proof.
  unfold crypto_timing_safe_equal.
  destruct (bytes_arg args 0) as [a|]; [|split; [discriminate | intros (? & ? & ? & _); discriminate]].
  destruct (bytes_arg args 1) as [b|]; [|split; [discriminate | intros (? & ? & _ & ? & _); discriminate]].
  destruct (Nat.eqb_spec (length a) (length b)) as [Hl|Hl]; cbn [negb].
  - assert ((fold_left byte_diff (zip a b) 0 =? 0) = bool_decide (a = b)) as ->.
    { apply eq_bool_prop_intro. rewrite !Is_true_true, Z.eqb_eq, bool_decide_eq_true, byte_diffs_zero by done. tauto. }
    split; [intros He; apply returned_inj in He as <-; by exists a, b |].
    by intros (? & ? & [= <-] & [= <-] & _ & ->).
  - split; [discriminate |]. by intros (? & ? & [= <-] & [= <-] & ? & _).
Qed.

(** ** The hypotheses hold of a toy cryptography *)

#[local] Instance plain_text : JsText :=
  {| number_text := λ _, "0"; text_number := λ _, S754_nan; utf16_units := λ _, []; external_text := "";
     allocates := λ _, true |}.

Definition zeros (n : nat) : bytes := replicate n Byte.x00.

#[local] Instance toy : NodePrimitives :=
  {| Rand := unit;
     digest := λ _ d, d;
     hmac := λ _ k d, Some (k ++ d);
     pbkdf2_hmac := λ _ p s _ n, zeros (Z.to_nat n);
     scrypt_params := λ _ _ _ _, Ok tt;
     scrypt_into := λ _ _ _ _ _ n, Ok (zeros (Z.to_nat n));
     hkdf_expand := λ _ _ _ _ n, Some (zeros (Z.to_nat n));
     getrandom := λ _ n, Some (zeros (Z.to_nat n));
     gcm_new := λ _ _, Ok tt;
     gcm_encrypt := λ _ _ _ _ p, Some (rev p ++ zeros 16);
     gcm_decrypt := λ _ _ _ _ c, Some (rev (take (length c - 16) c));
     cbc_new := λ _ _ _, Ok tt;
     cbc_encrypt := λ _ _ _ p, rev p;
     cbc_decrypt := λ _ _ _ c, Some (rev c);
     ctr_new := λ _ _ _, Ok tt;
     ctr_apply := λ _ _ _ p, rev p;
     RsaPrivate := unit;
     RsaPublic := unit;
     rsa_private_pkcs8 := λ t, if String.eqb t "private" then Ok tt else Err "pem";
     rsa_private_pkcs1 := λ _, Err "pem";
     rsa_public_spki := λ t, if String.eqb t "public" then Ok tt else Err "pem";
     rsa_public_pkcs1 := λ _, Err "pem";
     rsa_new := λ _ _, Ok tt;
     rsa_to_public := λ k, k;
     rsa_private_pem := λ _, Some "private";
     rsa_public_pem := λ _, Some "public";
     rsa_sign := λ _ _ d, Ok d;
     rsa_sign_with_rng := λ _ _ _ d, Ok d;
     rsa_verify := λ _ _ d s, bool_decide (d = s);
     rsa_encrypt := λ _ _ _ p, Ok (rev p);
     rsa_decrypt := λ _ _ c, Ok (rev c);
     EcSecret := λ _, unit;
     EcPublic := λ _, unit;
     EcSignature := λ _, bytes;
     ec_random := λ _ r, r;
     ec_to_public := λ _ k, k;
     ec_private_pem := λ _ _, Some "private";
     ec_public_pem := λ _ _, Some "public";
     ec_secret_of_pem := λ _ _, Ok tt;
     ec_public_of_pem := λ _ _, Some tt;
     ec_sign_prehash := λ _ _ d, Ok d;
     ec_verify_prehash := λ _ _ d s, bool_decide (d = s);
     ec_to_der := λ _ s, s;
     ec_from_der := λ _ b, Some b;
     EdPair := unit;
     ed_generate_pkcs8 := λ _, Some (zeros 1);
     ed_from_pkcs8 := λ _, Some tt;
     ed_from_pkcs8_maybe_unchecked := λ _, Some tt;
     ed_public := λ _, zeros 2;
     ed_sign := λ _ d, rev d;
     ed_verify := λ _ d s, bool_decide (s = rev d) |}.

Lemma toy_laws : NodePrimitiveLaws.
Proof.
  constructor; cbn; intros; repeat match goal with u : unit |- _ => destruct u end; try done;
    try match goal with
        | He : Some _ = Some _ |- _ => injection He as He; subst
        | He : Ok _ = Ok _ |- _ => injection He as He; subst
        end;
    rewrite ?rev_involutive, ?length_app, ?length_rev; try done; try by apply bool_decide_eq_true_2.
  cbn [length]. replace (length p + 16 - 16)%nat with (length (rev p)) by (rewrite length_rev; lia).
  by rewrite take_app_length, rev_involutive.
Qed.
#[local] Existing Instance toy_laws.

Lemma cipher_round_trip_witness :
  ∃ obj sealed,
    crypto_cipher (cipher_args "encrypt" "aes-256-gcm" (zeros 32) (zeros 12) [Byte.x01; Byte.x02] (Some [Byte.x03]) VNull) =
      Done (NReturned obj) ∧
    get obj "data" = VUint8Array sealed ∧
    (get obj "tag" = VUndefined ↔ Gcm ≠ Gcm) ∧
    crypto_cipher (cipher_args "decrypt" "aes-256-gcm" (zeros 32) (zeros 12) sealed (Some [Byte.x03]) (get obj "tag")) =
      Done (NReturned (VObject [("data", VUint8Array [Byte.x01; Byte.x02])])).
Proof.
  apply (cipher_round_trip "aes-256-gcm" 32 Gcm (zeros 32) (zeros 12) [Byte.x01; Byte.x02] (Some [Byte.x03]));
    vm_compute; first [reflexivity | discriminate].
Defined.

(** A generated pair signs with MD5 for ECDSA, and a flipped signature does not verify. *)
Lemma key_pairs_agree_witness :
  crypto_ec_sign [VString "p256"; VString "md5"; VString "private"; VUint8Array [Byte.x01]] =
    NReturned (VUint8Array [Byte.x01]) ∧
  crypto_ec_verify [VString "p256"; VString "md5"; VString "public"; VUint8Array [Byte.x01]; VUint8Array [Byte.x01]] =
    NReturned (VBool true) ∧
  crypto_ec_verify [VString "p256"; VString "md5"; VString "public"; VUint8Array [Byte.x01]; VUint8Array [Byte.x02]] =
    NReturned (VBool false).
Proof.
  split; [reflexivity |]. split; [|vm_compute; reflexivity].
  destruct (key_pairs_agree (tt : @Rand toy)) as (_ & Hec & _).
  apply (Hec "p256" "private" "public"); vm_compute; reflexivity.
Defined.

(** Refusals *)
Example md5_has_no_rsa :
  crypto_rsa_sign (tt : @Rand toy) [VString "pkcs1"; VString "md5"; VString "private"; VUint8Array [Byte.x01]] =
    throw_coded "ERR_CRYPTO_INVALID_DIGEST" "Invalid digest: md5".
Proof. vm_compute. reflexivity. Qed.

(** The first byte of the tag given as the last one of the data. *)
Example tag_moves :
  let open d t := crypto_cipher (cipher_args "decrypt" "aes-128-gcm" (zeros 16) (zeros 12) d None (VUint8Array t)) in
  open [Byte.x02; Byte.x01] (zeros 16) = open ([Byte.x02; Byte.x01] ++ zeros 4) (zeros 12) ∧
  open [Byte.x02; Byte.x01] (zeros 16) = Done (NReturned (VObject [("data", VUint8Array [Byte.x01; Byte.x02])])).
Proof. vm_compute. by split. Qed.
