(* ===== verification/NodeZlib.v ===== *)
(** * node:zlib: [src/runtime/node_compat/hooks_zlib.rs]

    One-shot and incremental compression over values of JavaScript, with the table of live
    streams of the thread.  The codecs of [flate2] and [brotli] are the class [Codecs]. *)

From stdpp Require Import base gmap list strings pretty.
From Stdlib Require Import ZArith Lia SpecFloat.
From Stdlib.Strings Require Byte.
From S2P Require Import Prelude RustString RustFloat CryptoKeys CryptoApi NodeFs NodeCrypto.

Open Scope Z_scope.

(** ** Codecs *)

Inductive Format := Gz | Zlib | Raw | Brotli.
Inductive Direction := Enc | Dec.
#[export] Instance Format_eq_dec : EqDecision Format.
Proof. solve_decision. Defined.

(** A codec writes into a vector it owns.  [codec_write] is [write_all], [codec_take] takes
    the output away, [codec_finish] is [finish], or [into_inner] for brotli; the level is
    of encoders only. *)
Class Codecs := {
  Codec : Type;
  codec_new : Format → Direction → Z → Codec;
  codec_write : Codec → bytes → result Codec string;
  codec_flush : Codec → result Codec string;
  codec_take : Codec → bytes * Codec;
  codec_finish : Codec → result bytes string;
  brotli_into_inner : Codec → result bytes bytes;
  brotli_compress : bytes → result bytes string;
  brotli_decompress : bytes → result bytes string;
}.

(** The level brotli's [CompressorWriter] is made with, and the default of [flate2]. *)
Definition BROTLI_QUALITY : Z := 5.
Definition DEFAULT_LEVEL : Z := 6.

Section zlib.
Context `{JsText} `{Codecs}.

Inductive ZStream :=
| GzEnc (e : Codec) | GzDec (e : Codec) | ZlibEnc (e : Codec) | ZlibDec (e : Codec)
| RawEnc (e : Codec) | RawDec (e : Codec) | BrotliEnc (e : Codec) | BrotliDec (e : Codec)
| UnzipPending (buf : bytes).

Definition compression (level : f64) : Z :=
  if f64_le (f64_of_Z 0) level && f64_le level (f64_of_Z 9) then f64_to_u32 level else DEFAULT_LEVEL.

(** ** One shot *)

(** [run(w, data).and_then(finish)] *)
Definition run (w : Codec) (data : bytes) : result bytes string :=
  let? w := codec_write w data in codec_finish w.

Definition gzip_magic (data : bytes) : bool :=
  match data with
  | x :: y :: _ => bool_decide (x = Byte.x1f) && bool_decide (y = Byte.x8b)
  | _ => false
  end.

Definition one_shot (kind : string) (data : bytes) (level : f64) : result bytes string :=
  let gunzip := run (codec_new Gz Dec 0) data in
  let inflate := run (codec_new Zlib Dec 0) data in
  if String.eqb kind "gzip" then run (codec_new Gz Enc (compression level)) data
  else if String.eqb kind "gunzip" then gunzip
  else if String.eqb kind "deflate" then run (codec_new Zlib Enc (compression level)) data
  else if String.eqb kind "inflate" then inflate
  else if String.eqb kind "deflateRaw" then run (codec_new Raw Enc (compression level)) data
  else if String.eqb kind "inflateRaw" then run (codec_new Raw Dec 0) data
  else if String.eqb kind "unzip" then if gzip_magic data then gunzip else inflate
  else if String.eqb kind "brotliCompress" then brotli_compress data
  else if String.eqb kind "brotliDecompress" then brotli_decompress data
  else Err ("unknown zlib kind: " +:+ kind).

Definition minus_one : f64 := f64_of_Z (-1).

Definition level_arg (args : list JsVal) (index : nat) : f64 := default minus_one (num_arg args index).

Definition zlib_sync (args : list JsVal) : NodeCall :=
  match str_arg args 0, bytes_arg args 1 with
  | Some kind, Some data =>
      match one_shot kind data (level_arg args 2) with
      | Ok out => NReturned (VUint8Array out)
      | Err e => throw_coded "Z_DATA_ERROR" ("zlib " +:+ (kind +:+ (": " +:+ e)))
      end
  | _, _ => throw_bad_args "zlibSync"
  end.

(** ** Streams *)

Definition new_stream (kind : string) (level : f64) : result ZStream string :=
  if String.eqb kind "gzip" then Ok (GzEnc (codec_new Gz Enc (compression level)))
  else if String.eqb kind "gunzip" then Ok (GzDec (codec_new Gz Dec 0))
  else if String.eqb kind "deflate" then Ok (ZlibEnc (codec_new Zlib Enc (compression level)))
  else if String.eqb kind "inflate" then Ok (ZlibDec (codec_new Zlib Dec 0))
  else if String.eqb kind "deflateRaw" then Ok (RawEnc (codec_new Raw Enc (compression level)))
  else if String.eqb kind "inflateRaw" then Ok (RawDec (codec_new Raw Dec 0))
  else if String.eqb kind "brotliCompress" then Ok (BrotliEnc (codec_new Brotli Enc BROTLI_QUALITY))
  else if String.eqb kind "brotliDecompress" then Ok (BrotliDec (codec_new Brotli Dec 0))
  else if String.eqb kind "unzip" then Ok (UnzipPending [])
  else Err ("unknown zlib kind: " +:+ kind).

(** [ZSTREAMS] and [ZNEXT] *)
Record ZState := mkZ { ZSTREAMS : gmap Z ZStream; ZNEXT : Z }.

Definition zlib_init : ZState := mkZ ∅ 1.

Definition zlib_create (s : ZState) (args : list JsVal) : ZState * NodeCall :=
  match str_arg args 0 with
  | Some kind =>
      match new_stream kind (level_arg args 1) with
      | Ok stream =>
          let id := ZNEXT s in
          (mkZ (<[id := stream]> (ZSTREAMS s)) (Z.max (as_u32 (id + 1)) 1), NReturned (VNumber (f64_of_Z id)))
      | Err e => (s, throw_coded "ERR_ZLIB_INITIALIZATION_FAILED" e)
      end
  | None => (s, throw_bad_args "zlibCreate")
  end.

(** Write, flush, and take what came out. *)
Definition drain (e : Codec) (chunk : bytes) : result (Codec * bytes) string :=
  let? e := codec_write e chunk in
  let? e := codec_flush e in
  Ok ((codec_take e).2, (codec_take e).1).

Definition drained (wrap : Codec → ZStream) (e : Codec) (chunk : bytes) : result (ZStream * bytes) string :=
  let? eo := drain e chunk in Ok (wrap eo.1, eo.2).

Definition push_chunk (stream : ZStream) (chunk : bytes) : result (ZStream * bytes) string :=
  match stream with
  | GzEnc e => drained GzEnc e chunk
  | GzDec e => drained GzDec e chunk
  | ZlibEnc e => drained ZlibEnc e chunk
  | ZlibDec e => drained ZlibDec e chunk
  | RawEnc e => drained RawEnc e chunk
  | RawDec e => drained RawDec e chunk
  | BrotliEnc e => drained BrotliEnc e chunk
  | BrotliDec e => drained BrotliDec e chunk
  | UnzipPending buf => Ok (UnzipPending (buf ++ chunk), [])
  end.

(** For a decompressor of brotli [into_inner] fails when the input ended early, and gives
    the output all the same. *)
Definition finish_stream (stream : ZStream) : result bytes string :=
  match stream with
  | GzEnc e | GzDec e | ZlibEnc e | ZlibDec e | RawEnc e | RawDec e => codec_finish e
  | BrotliEnc e => let? e := codec_flush e in codec_finish e
  | BrotliDec e => match brotli_into_inner e with Ok v => Ok v | Err v => Ok v end
  | UnzipPending buf => one_shot "unzip" buf minus_one
  end.

(** The table after a push, and the output. *)
Definition push_table (m : gmap Z ZStream) (id : Z) (chunk : bytes) (finish : bool)
    : gmap Z ZStream * result bytes string :=
  match m !! id with
  | None => (m, Err "invalid zlib stream handle")
  | Some stream =>
      match push_chunk stream chunk with
      | Err e => (m, Err e)
      | Ok (stream, out) =>
          if finish then
            (delete id m, match finish_stream stream with Ok tail => Ok (out ++ tail) | Err e => Err e end)
          else (<[id := stream]> m, Ok out)
      end
  end.

Definition zlib_push (s : ZState) (args : list JsVal) : ZState * NodeCall :=
  match num_arg args 0, bytes_arg args 1 with
  | Some id, Some chunk =>
      let id := f64_to_u32 id in
      let '(m, r) := push_table (ZSTREAMS s) id chunk (bool_arg args 2) in
      match r with
      | Ok out => (mkZ m (ZNEXT s), NReturned (VUint8Array out))
      | Err e => (mkZ (delete id m) (ZNEXT s), throw_coded "Z_DATA_ERROR" ("zlib push: " +:+ e))
      end
  | _, _ => (s, throw_bad_args "zlibPush")
  end.

Definition zlib_free (s : ZState) (args : list JsVal) : ZState * NodeCall :=
  match num_arg args 0 with
  | Some id => (mkZ (delete (f64_to_u32 id) (ZSTREAMS s)) (ZNEXT s), NReturned VUndefined)
  | None => (s, NReturned VUndefined)
  end.

Definition clear_streams (s : ZState) : ZState := mkZ ∅ (ZNEXT s).

Inductive ZlibHook := ZlibSync | ZlibCreate | ZlibPush | ZlibFree.

Definition bind (h : ZlibHook) (s : ZState) (args : list JsVal) : ZState * NodeCall :=
  match h with
  | ZlibSync => (s, zlib_sync args)
  | ZlibCreate => zlib_create s args
  | ZlibPush => zlib_push s args
  | ZlibFree => zlib_free s args
  end.

(** A program's calls in order. *)
Fixpoint zlib_calls (s : ZState) (calls : list (ZlibHook * list JsVal)) : ZState * list NodeCall :=
  match calls with
  | [] => (s, [])
  | (h, args) :: calls =>
      let '(s, r) := bind h s args in
      let '(s, rs) := zlib_calls s calls in
      (s, r :: rs)
  end.
End zlib.

(** ** Streams do not meet *)

Section handles.
Context `{JsText} `{Codecs}.

(** The handle a call pushes to or frees. *)
Definition handle_of (call : ZlibHook * list JsVal) : option Z :=
  match call.1 with
  | ZlibPush | ZlibFree => f64_to_u32 <$> num_arg call.2 0
  | _ => None
  end.

Definition touches (id : Z) (call : ZlibHook * list JsVal) : bool := bool_decide (handle_of call = Some id).

(** The results of the calls on a handle. *)
Fixpoint results_of (id : Z) (calls : list (ZlibHook * list JsVal)) (rs : list NodeCall) : list NodeCall :=
  match calls, rs with
  | call :: calls, r :: rs => if touches id call then r :: results_of id calls rs else results_of id calls rs
  | _, _ => []
  end.

(** A push looks at its stream alone. *)
Lemma push_table_at m m' id chunk fin :
  m !! id = m' !! id →
  (push_table m id chunk fin).1 !! id = (push_table m' id chunk fin).1 !! id ∧
  (push_table m id chunk fin).2 = (push_table m' id chunk fin).2.
Proof.
  intros He. unfold push_table. rewrite <- He. destruct (m !! id) as [st|] eqn:Hs; [|cbn; by rewrite Hs, <- He].
  destruct (push_chunk st chunk) as [[st' out]|]; [|cbn; by rewrite Hs, <- He].
  destruct fin; cbn [fst snd]; [by rewrite !(lookup_delete_eq (M := gmap Z)) | by rewrite !(lookup_insert_eq (M := gmap Z))].
Qed.

Lemma push_table_other m id i chunk fin : i ≠ id → (push_table m id chunk fin).1 !! i = m !! i.
Proof.
  intros Hi. unfold push_table. destruct (m !! id); [|done]. destruct (push_chunk _ _) as [[st' out]|]; [|done].
  destruct fin; cbn [fst]; [by rewrite (lookup_delete_ne (M := gmap Z)) | by rewrite (lookup_insert_ne (M := gmap Z))].
Qed.

(** What a call on a handle does to it, and gives, depends on the stream alone. *)
Lemma bind_at h args id s t :
  handle_of (h, args) = Some id → ZSTREAMS s !! id = ZSTREAMS t !! id →
  ZSTREAMS (bind h s args).1 !! id = ZSTREAMS (bind h t args).1 !! id ∧ (bind h s args).2 = (bind h t args).2.
Proof.
  unfold handle_of. cbn [fst snd]. intros Hh He. destruct h; try discriminate; cbn [bind].
  - unfold zlib_push. destruct (num_arg args 0) as [x|]; [|discriminate]. injection Hh as <-.
    destruct (bytes_arg args 1) as [chunk|]; [|done].
    destruct (push_table_at _ _ _ chunk (bool_arg args 2) He) as [Hm Hr].
    destruct (push_table (ZSTREAMS s) _ _ _) as [m r], (push_table (ZSTREAMS t) _ _ _) as [m' r'].
    cbn [fst snd] in Hm, Hr. subst r'. destruct r; cbn; [done |]. by rewrite !(lookup_delete_eq (M := gmap Z)).
  - unfold zlib_free. destruct (num_arg args 0) as [x|]; [|discriminate]. injection Hh as <-. cbn [ZSTREAMS fst snd].
    by rewrite !(lookup_delete_eq (M := gmap Z)).
Qed.

(** A call on another handle, or one that makes a stream, leaves a stream that is there. *)
Lemma bind_other h args id s :
  handle_of (h, args) ≠ Some id → id < ZNEXT s → 1 ≤ ZNEXT s < u32_max →
  ZSTREAMS (bind h s args).1 !! id = ZSTREAMS s !! id.
Proof.
  unfold handle_of. cbn [fst snd]. intros Hh Hid Hn. destruct h; cbn [bind]; [done | | |].
  - unfold zlib_create. destruct (str_arg args 0) as [kind|]; [|done]. destruct (new_stream _ _) as [st|]; [|done].
    cbn [ZSTREAMS fst]. apply (lookup_insert_ne (M := gmap Z)). lia.
  - unfold zlib_push. destruct (num_arg args 0) as [x|]; [|done]. assert (id ≠ f64_to_u32 x) as Hne by (intros ->; by apply Hh).
    destruct (bytes_arg args 1) as [chunk|]; [|done].
    pose proof (push_table_other (ZSTREAMS s) (f64_to_u32 x) id chunk (bool_arg args 2) Hne) as Ho.
    destruct (push_table _ _ _ _) as [m r]. cbn [fst] in Ho. destruct r; cbn [ZSTREAMS fst]; [done |].
    by rewrite (lookup_delete_ne (M := gmap Z)).
  - unfold zlib_free. destruct (num_arg args 0) as [x|]; [|done]. cbn [ZSTREAMS fst].
    apply (lookup_delete_ne (M := gmap Z)). intros Hx. apply Hh. cbn. by rewrite Hx.
Qed.

(** Handles are given in order. *)
Lemma bind_next h args s :
  1 ≤ ZNEXT s < u32_max → ZNEXT s ≤ ZNEXT (bind h s args).1 ≤ ZNEXT s + 1.
Proof.
  intros Hn. destruct h; cbn [bind]; [cbn; lia | | |].
  - unfold zlib_create. destruct (str_arg args 0) as [kind|]; [|cbn; lia]. destruct (new_stream _ _) as [st|]; [|cbn; lia].
    cbn [ZNEXT fst]. unfold u32_max in Hn. rewrite as_u32_small by (unfold in_u32; lia). lia.
  - unfold zlib_push. destruct (num_arg args 0) as [x|]; [|cbn; lia]. destruct (bytes_arg args 1) as [chunk|]; [|cbn; lia].
    destruct (push_table _ _ _ _) as [m []]; cbn; lia.
  - unfold zlib_free. destruct (num_arg args 0); cbn; lia.
Qed.

Lemma zlib_calls_cons s h args calls :
  zlib_calls s ((h, args) :: calls) =
  let rest := zlib_calls (bind h s args).1 calls in (rest.1, (bind h s args).2 :: rest.2).
Proof. cbn [zlib_calls]. destruct (bind h s args) as [s' r]. cbn [fst snd]. by destruct (zlib_calls s' calls). Qed.

(** Two tables that agree on a stream, one of which only takes the calls on it. *)
Lemma handle_alone id calls : ∀ s t,
  id < ZNEXT s → 1 ≤ ZNEXT s → ZNEXT s + Z.of_nat (length calls) ≤ u32_max → ZSTREAMS s !! id = ZSTREAMS t !! id →
  results_of id calls (zlib_calls s calls).2 = (zlib_calls t (List.filter (touches id) calls)).2 ∧
  ZSTREAMS (zlib_calls s calls).1 !! id = ZSTREAMS (zlib_calls t (List.filter (touches id) calls)).1 !! id.
Proof.
  induction calls as [|[h args] calls IH]; intros s t Hid Hpos Hn He; [done |].
  cbn [length] in Hn. pose proof (bind_next h args s ltac:(lia)) as Hx.
  rewrite zlib_calls_cons. cbn zeta. cbn [fst snd results_of List.filter].
  destruct (touches id (h, args)) eqn:Ht; unfold touches in Ht; [apply bool_decide_eq_true in Ht | apply bool_decide_eq_false in Ht].
  - rewrite zlib_calls_cons. cbn zeta. cbn [fst snd]. destruct (bind_at h args id s t Ht He) as [Hs Hr]. rewrite Hr.
    destruct (IH (bind h s args).1 (bind h t args).1) as [-> ->]; try lia; done.
  - apply IH; try lia.
    rewrite <- He. by apply bind_other; [| | lia].
Qed.

(** Streams do not meet: whatever else a program does in between, creating, pushing to
    and freeing others, the calls on a handle that was given give what they would give alone, and
    leave the stream they would leave, until 2^32 - 2 streams have been made. *)
Theorem handles_independent s id calls :
  id < ZNEXT s → 1 ≤ ZNEXT s → ZNEXT s + Z.of_nat (length calls) ≤ u32_max →
  results_of id calls (zlib_calls s calls).2 = (zlib_calls s (List.filter (touches id) calls)).2 ∧
  ZSTREAMS (zlib_calls s calls).1 !! id = ZSTREAMS (zlib_calls s (List.filter (touches id) calls)).1 !! id.
Proof. intros Hid Hs Hn. by apply handle_alone. Qed.
End handles.

(** ** Handles as numbers *)

Lemma f64_to_usize_of z : 0 ≤ z < 2 ^ 53 → f64_to_usize (f64_of_Z z) = z.
Proof.
  intros Hz. rewrite <- (f64_to_usize_mul_one z Hz) at 2. destruct z as [|p|p]; [done | | lia].
  destruct (f64_of_pos p) as (m & e & He & Hd & Hr & _); [lia |]. rewrite He. rewrite f64_mul_one by (done || lia). done.
Qed.

Lemma f64_to_u32_of z : 0 ≤ z ≤ u32_max → f64_to_u32 (f64_of_Z z) = z.
Proof.
  unfold f64_to_u32, u32_max, two32. intros Hz. rewrite f64_to_usize_of by (split; [lia | apply (Z.le_lt_trans _ 4294967295); [lia | done]]).
  lia.
Qed.

Lemma f64_of_Z_finite z : 0 ≤ z < 2 ^ 53 →
  match f64_of_Z z with S754_nan | S754_infinity _ => False | _ => True end.
Proof.
  intros Hz. destruct z as [|p|p]; [done | | lia]. by destruct (f64_of_pos p) as (m & e & -> & _); [lia |].
Qed.

(** A number read back as an argument. *)
Lemma num_arg_of `{JsText} z l i :
  0 ≤ z ≤ u32_max → l !! i = Some (VNumber (f64_of_Z z)) → f64_to_u32 <$> num_arg l i = Some z.
Proof.
  intros Hz Hi. unfold num_arg. rewrite Hi. cbn [to_number]. unfold u32_max, two32 in Hz.
  pose proof (f64_of_Z_finite z) as Hf. destruct (f64_of_Z z) eqn:He; try (exfalso; apply Hf; split; [lia | apply (Z.le_lt_trans _ 4294967295); [lia | done]]);
    cbn [fmap option_fmap option_map]; f_equal; rewrite <- He; by apply f64_to_u32_of.
Qed.

(** ** What the codecs promise *)

Section laws.
Context `{JsText} `{Codecs}.

Inductive Op := OWrite (bs : bytes) | OFlush | OTake.

Fixpoint run_ops (c : Codec) (ops : list Op) : result (Codec * bytes) string :=
  match ops with
  | [] => Ok (c, [])
  | OWrite bs :: ops => let? c := codec_write c bs in run_ops c ops
  | OFlush :: ops => let? c := codec_flush c in run_ops c ops
  | OTake :: ops => let? r := run_ops (codec_take c).2 ops in Ok (r.1, (codec_take c).1 ++ r.2)
  end.

Fixpoint written (ops : list Op) : bytes :=
  match ops with OWrite bs :: ops => bs ++ written ops | _ :: ops => written ops | [] => [] end.

Definition dec_finish (f : Format) (c : Codec) : result bytes bytes :=
  match f with
  | Brotli => brotli_into_inner c
  | _ => match codec_finish c with Ok b => Ok b | Err _ => Err [] end
  end.

(** Of every format: what an encoder puts out in all encodes what was written, whatever
    the flushes; a decoder given an encoding in any pieces puts out what it encodes; the
    formats of gzip and zlib are told apart by the first two bytes. *)
Class CodecLaws := {
  encodes : Format → bytes → bytes → Prop;
  encoder_encodes : ∀ f l ops, ∃ c out tail,
    run_ops (codec_new f Enc l) ops = Ok (c, out) ∧ codec_finish c = Ok tail ∧ encodes f (out ++ tail) (written ops);
  decoder_decodes : ∀ f p ops, encodes f (written ops) p → ∃ c out tail,
    run_ops (codec_new f Dec 0) ops = Ok (c, out) ∧ dec_finish f c = Ok tail ∧ out ++ tail = p;
  brotli_compresses : ∀ p, ∃ c, brotli_compress p = Ok c ∧ encodes Brotli c p;
  brotli_decompresses : ∀ c p, encodes Brotli c p → brotli_decompress c = Ok p;
  gzip_starts : ∀ c p, encodes Gz c p → gzip_magic c = true;
  zlib_starts : ∀ c p, encodes Zlib c p → gzip_magic c = false;
}.
End laws.

(** ** Feeding a stream *)

Section round_trip.
Context `{JsText} `{Codecs} `{!CodecLaws}.

Definition number (id : Z) : JsVal := VNumber (f64_of_Z id).

Definition push_call (id : Z) (chunk : bytes) (fin : bool) : ZlibHook * list JsVal :=
  (ZlibPush, [number id; VUint8Array chunk; VBool fin]).

(** The chunks one by one, the last one with [finish]. *)
Definition feed (id : Z) (chunks : list bytes) (last : bytes) : list (ZlibHook * list JsVal) :=
  ((λ c, push_call id c false) <$> chunks) ++ [push_call id last true].

(** What the pushes gave, put together; none if one of them threw. *)
Fixpoint outputs (rs : list NodeCall) : option bytes :=
  match rs with
  | [] => Some []
  | NReturned (VUint8Array b) :: rs => app b <$> outputs rs
  | _ => None
  end.

Fixpoint push_all (st : ZStream) (chunks : list bytes) : result (ZStream * bytes) string :=
  match chunks with
  | [] => Ok (st, [])
  | c :: chunks => let? r := push_chunk st c in let? r' := push_all r.1 chunks in Ok (r'.1, r.2 ++ r'.2)
  end.

Lemma bind_push s id chunk fin :
  0 ≤ id ≤ u32_max →
  bind ZlibPush s [number id; VUint8Array chunk; VBool fin] =
  let r := push_table (ZSTREAMS s) id chunk fin in
  match r.2 with
  | Ok out => (mkZ r.1 (ZNEXT s), NReturned (VUint8Array out))
  | Err e => (mkZ (delete id r.1) (ZNEXT s), throw_coded "Z_DATA_ERROR" ("zlib push: " +:+ e))
  end.
Proof.
  intros Hid. cbn [bind]. unfold zlib_push.
  pose proof (num_arg_of id [number id; VUint8Array chunk; VBool fin] 0 Hid eq_refl) as Hn.
  destruct (num_arg _ 0) as [x|]; [|discriminate]. injection Hn as Hx. rewrite Hx.
  change (bytes_arg _ 1) with (Some chunk). change (bool_arg _ 2) with fin. cbv zeta.
  cbv beta iota. destruct (push_table (ZSTREAMS s) id chunk fin) as [m []]; done.
Qed.

Lemma feed_runs id next chunks last st' out o st'' tail : ∀ m st,
  0 ≤ id ≤ u32_max → m !! id = Some st → push_all st chunks = Ok (st', out) → push_chunk st' last = Ok (st'', o) →
  finish_stream st'' = Ok tail →
  ∃ rs, zlib_calls (mkZ m next) (feed id chunks last) = (mkZ (delete id m) next, rs) ∧ outputs rs = Some (out ++ o ++ tail).
Proof.
  revert out. induction chunks as [|c chunks IH]; intros out m st Hid Hm Hp Hl Hf.
  - injection Hp as <- <-. exists [NReturned (VUint8Array (o ++ tail))]. split; [|cbn; by rewrite app_nil_r].
    change (feed id [] last) with [push_call id last true]. unfold push_call. rewrite zlib_calls_cons, bind_push by done.
    cbn [ZSTREAMS]. unfold push_table. rewrite Hm, Hl. cbn [fst snd]. by rewrite Hf.
  - cbn [push_all] in Hp. destruct (push_chunk st c) as [[st1 o1]|] eqn:Hc; [|discriminate]. cbn [result_bind fst snd] in Hp.
    destruct (push_all st1 chunks) as [[st2 o2]|] eqn:Hr; [|discriminate]. cbn [result_bind fst snd] in Hp. injection Hp as -> <-.
    destruct (IH o2 (<[id := st1]> m) st1 Hid) as (rs & Hrs & Ho); try done; [by apply (lookup_insert_eq (M := gmap Z)) |].
    exists (NReturned (VUint8Array o1) :: rs).
    change (feed id (c :: chunks) last) with (push_call id c false :: feed id chunks last).
    unfold push_call at 1. rewrite zlib_calls_cons, bind_push by done. cbn [ZSTREAMS ZNEXT]. unfold push_table. rewrite Hm, Hc.
    cbn [fst snd]. rewrite Hrs. cbn [fst snd]. split; [by rewrite delete_insert_eq |].
    cbn [outputs]. rewrite Ho. cbn. by rewrite app_assoc.
Qed.

(** The operations of pushing chunks. *)
Definition push_ops (chunks : list bytes) : list Op := chunks ≫= λ c, [OWrite c; OFlush; OTake].

Lemma written_app a b : written (a ++ b) = written a ++ written b.
Proof. induction a as [|[]]; cbn; [done | | done | done]. by rewrite IHa, app_assoc. Qed.

Lemma written_push chunks : written (push_ops chunks) = concat chunks.
Proof. induction chunks as [|c chunks IH]; [done |]. cbn. f_equal. apply IH. Qed.

(** A stream that is a codec. *)
Definition wraps (w : Codec → ZStream) : Prop := ∀ e chunk, push_chunk (w e) chunk = drained w e chunk.

Lemma push_all_codec w chunks : wraps w → ∀ e c out,
  run_ops e (push_ops chunks) = Ok (c, out) → push_all (w e) chunks = Ok (w c, out).
Proof.
  intros Hw. induction chunks as [|ch chunks IH]; intros e c out He; [by injection He as -> <- |].
  cbn [push_all]. rewrite Hw. unfold drained, drain. change (push_ops (ch :: chunks)) with ([OWrite ch; OFlush; OTake] ++ push_ops chunks) in He.
  cbn [run_ops app] in He. destruct (codec_write e ch) as [e1|]; [|discriminate]. cbn [result_bind] in *.
  destruct (codec_flush e1) as [e2|]; [|discriminate]. cbn [result_bind fst snd] in *.
  destruct (run_ops (codec_take e2).2 (push_ops chunks)) as [[c' o']|] eqn:Hr; [|discriminate]. cbn [result_bind fst snd] in He.
  injection He as -> <-. by rewrite (IH _ _ _ Hr).
Qed.

Lemma push_all_snoc st chunks last st' out :
  push_all st (chunks ++ [last]) = Ok (st', out) →
  ∃ st1 o1 o, push_all st chunks = Ok (st1, o1) ∧ push_chunk st1 last = Ok (st', o) ∧ out = o1 ++ o.
Proof.
  revert st out. induction chunks as [|c chunks IH]; intros st out; cbn [app push_all].
  - destruct (push_chunk st last) as [[a b]|] eqn:Hc; [|discriminate]. cbn [result_bind fst snd]. intros [= -> <-].
    exists st, [], b. by rewrite app_nil_r.
  - destruct (push_chunk st c) as [[a b]|]; [|discriminate]. cbn [result_bind fst snd].
    destruct (push_all a (chunks ++ [last])) as [[a' b']|] eqn:Hr; [|discriminate]. cbn [result_bind fst snd]. intros [= -> <-].
    destruct (IH _ _ Hr) as (st1 & o1 & o & He & Hl & ->). rewrite He. cbn [result_bind fst snd].
    exists st1, (b ++ o1), o. by rewrite app_assoc.
Qed.

(** All of it: making the stream, feeding it and finishing. *)
Lemma stream_runs s kind level st chunks last st' out tail :
  0 ≤ ZNEXT s ≤ u32_max → new_stream kind (level_arg [VString kind; level] 1) = Ok st →
  push_all st (chunks ++ [last]) = Ok (st', out) → finish_stream st' = Ok tail →
  ∃ rs, zlib_calls s ((ZlibCreate, [VString kind; level]) :: feed (ZNEXT s) chunks last) =
          (mkZ (delete (ZNEXT s) (ZSTREAMS s)) (Z.max (as_u32 (ZNEXT s + 1)) 1), NReturned (number (ZNEXT s)) :: rs) ∧
        outputs rs = Some (out ++ tail).
Proof.
  intros Hid Hn Hp Hf. apply push_all_snoc in Hp as (st1 & o1 & o & Hp & Hl & ->).
  rewrite zlib_calls_cons. cbn [bind]. unfold zlib_create. change (str_arg [VString kind; level] 0) with (Some kind). cbv beta iota. rewrite Hn.
  cbn [fst snd]. destruct (feed_runs (ZNEXT s) (Z.max (as_u32 (ZNEXT s + 1)) 1) chunks last st1 o1 o st' tail
    (<[ZNEXT s := st]> (ZSTREAMS s)) st) as (rs & Hrs & Ho); try done; [by apply (lookup_insert_eq (M := gmap Z)) |].
  exists rs. rewrite Hrs. cbn [fst snd]. rewrite delete_insert_eq, <- app_assoc. done.
Qed.

(** ** Compressing and decompressing *)

Definition encoders : list (string * Format) :=
  [("gzip", Gz); ("deflate", Zlib); ("deflateRaw", Raw); ("brotliCompress", Brotli)].
Definition decoders : list (string * Format) :=
  [("gunzip", Gz); ("inflate", Zlib); ("inflateRaw", Raw); ("brotliDecompress", Brotli); ("unzip", Gz); ("unzip", Zlib)].

Lemma run_ops_flush ops : ∀ e c out,
  run_ops e (ops ++ [OFlush]) = Ok (c, out) → ∃ c', run_ops e ops = Ok (c', out) ∧ codec_flush c' = Ok c.
Proof.
  induction ops as [|o ops IH]; intros e c out; cbn [app run_ops].
  - destruct (codec_flush e) as [e'|] eqn:Hf; [|discriminate]. cbn [result_bind]. intros [= <- <-]. by exists e.
  - destruct o; cbn [run_ops].
    + destruct (codec_write e bs); [|discriminate]. cbn [result_bind]. apply IH.
    + destruct (codec_flush e); [|discriminate]. cbn [result_bind]. apply IH.
    + destruct (run_ops (codec_take e).2 (ops ++ [OFlush])) as [[c1 o1]|] eqn:Hr; [|discriminate].
      cbn [result_bind fst snd]. intros [= <- <-]. destruct (IH _ _ _ Hr) as (c' & -> & Hf). by exists c'.
Qed.

(** The streams of a finished encoding. *)
Definition stream_gives (kind : string) (level : f64) (chunks : list bytes) (out : bytes) : Prop :=
  ∃ st st' o tail, new_stream kind level = Ok st ∧ push_all st chunks = Ok (st', o) ∧
                   finish_stream st' = Ok tail ∧ out = o ++ tail.

Lemma encoder_stream w f l chunks :
  wraps w → (∀ e, finish_stream (w e) = codec_finish e) →
  ∃ st' o tail, push_all (w (codec_new f Enc l)) chunks = Ok (st', o) ∧ finish_stream st' = Ok tail ∧
                encodes f (o ++ tail) (concat chunks).
Proof.
  intros Hw Hf. destruct (encoder_encodes f l (push_ops chunks)) as (c & o & tail & Hr & Ht & He).
  rewrite written_push in He. exists (w c), o, tail. rewrite Hf. split; [by apply push_all_codec | done].
Qed.

Lemma brotli_stream l chunks :
  ∃ st' o tail, push_all (BrotliEnc (codec_new Brotli Enc l)) chunks = Ok (st', o) ∧ finish_stream st' = Ok tail ∧
                encodes Brotli (o ++ tail) (concat chunks).
Proof.
  destruct (encoder_encodes Brotli l (push_ops chunks ++ [OFlush])) as (c & o & tail & Hr & Ht & He).
  rewrite written_app, written_push in He. cbn in He. rewrite app_nil_r in He.
  apply run_ops_flush in Hr as (c' & Hr & Hf). exists (BrotliEnc c'), o, tail. split; [by apply push_all_codec |].
  cbn [finish_stream]. by rewrite Hf.
Qed.

Lemma encoder_gives kind f level chunks :
  (kind, f) ∈ encoders → ∃ comp, stream_gives kind level chunks comp ∧ encodes f comp (concat chunks).
Proof.
  unfold encoders, stream_gives. rewrite !elem_of_cons, elem_of_nil.
  intros [[= -> ->]|[[= -> ->]|[[= -> ->]|[[= -> ->]|[]]]]].
  - destruct (encoder_stream GzEnc Gz (compression level) chunks) as (st' & o & tail & ? & ? & ?); try done.
    exists (o ++ tail). split; [|done]. by eexists _, st', o, tail.
  - destruct (encoder_stream ZlibEnc Zlib (compression level) chunks) as (st' & o & tail & ? & ? & ?); try done.
    exists (o ++ tail). split; [|done]. by eexists _, st', o, tail.
  - destruct (encoder_stream RawEnc Raw (compression level) chunks) as (st' & o & tail & ? & ? & ?); try done.
    exists (o ++ tail). split; [|done]. by eexists _, st', o, tail.
  - destruct (brotli_stream BROTLI_QUALITY chunks) as (st' & o & tail & ? & ? & ?).
    exists (o ++ tail). split; [|done]. by eexists _, st', o, tail.
Qed.

(** One shot decoding. *)
Lemma run_decodes f comp p : f ≠ Brotli → encodes f comp p → run (codec_new f Dec 0) comp = Ok p.
Proof.
  intros Hf He. destruct (decoder_decodes f p [OWrite comp]) as (c & o & tail & Hr & Ht & Hp); [cbn; by rewrite app_nil_r |].
  cbn [run_ops] in Hr. unfold run. destruct (codec_write _ comp) as [c'|]; [|discriminate]. cbn [result_bind] in *.
  injection Hr as -> <-. cbn [app] in Hp. subst tail. unfold dec_finish in Ht.
  destruct f; try done; by destruct (codec_finish c) as [b|]; [injection Ht as -> | discriminate].
Qed.

Lemma decodes_one_shot kind f comp p level : (kind, f) ∈ decoders → encodes f comp p → one_shot kind comp level = Ok p.
Proof.
  unfold decoders. rewrite !elem_of_cons, elem_of_nil.
  intros [[= -> ->]|[[= -> ->]|[[= -> ->]|[[= -> ->]|[[= -> ->]|[[= -> ->]|[]]]]]]] He;
    cbn -[run gzip_magic codec_new brotli_decompress].
  - by apply run_decodes.
  - by apply run_decodes.
  - by apply run_decodes.
  - by apply brotli_decompresses.
  - rewrite (gzip_starts _ _ He). by apply run_decodes.
  - rewrite (zlib_starts _ _ He). by apply run_decodes.
Qed.

Lemma decoder_stream w f p chunks :
  wraps w → (∀ e v, dec_finish f e = Ok v → finish_stream (w e) = Ok v) → encodes f (concat chunks) p →
  ∃ st' o tail, push_all (w (codec_new f Dec 0)) chunks = Ok (st', o) ∧ finish_stream st' = Ok tail ∧ p = o ++ tail.
Proof.
  intros Hw Hf He. destruct (decoder_decodes f p (push_ops chunks)) as (c & o & tail & Hr & Ht & Hp); [by rewrite written_push |].
  exists (w c), o, tail. split; [by apply push_all_codec |]. split; [by apply Hf | done].
Qed.

Lemma dec_finish_plain f e v : f ≠ Brotli → dec_finish f e = Ok v → codec_finish e = Ok v.
Proof. intros Hf. destruct f; try done; cbn; destruct (codec_finish e); congruence. Qed.

Lemma pending_all buf chunks : push_all (UnzipPending buf) chunks = Ok (UnzipPending (buf ++ concat chunks), []).
Proof.
  revert buf. induction chunks as [|c chunks IH]; intros buf; cbn [push_all push_chunk concat result_bind fst snd].
  - by rewrite app_nil_r.
  - rewrite IH. cbn [result_bind fst snd app]. by rewrite app_assoc.
Qed.

Lemma decoder_gives kind f level chunks p :
  (kind, f) ∈ decoders → encodes f (concat chunks) p → stream_gives kind level chunks p.
Proof.
  intros Hk He. pose proof (decodes_one_shot kind f _ _ minus_one Hk He) as Hone.
  unfold decoders in Hk. unfold stream_gives. rewrite !elem_of_cons, elem_of_nil in Hk.
  destruct Hk as [[= -> ->]|[[= -> ->]|[[= -> ->]|[[= -> ->]|Hu]]]].
  - destruct (decoder_stream GzDec Gz p chunks) as (st' & o & tail & ? & ? & ?); try done;
      [intros e v; by apply dec_finish_plain | by eexists _, st', o, tail].
  - destruct (decoder_stream ZlibDec Zlib p chunks) as (st' & o & tail & ? & ? & ?); try done;
      [intros e v; by apply dec_finish_plain | by eexists _, st', o, tail].
  - destruct (decoder_stream RawDec Raw p chunks) as (st' & o & tail & ? & ? & ?); try done;
      [intros e v; by apply dec_finish_plain | by eexists _, st', o, tail].
  - destruct (decoder_stream BrotliDec Brotli p chunks) as (st' & o & tail & ? & ? & ?); try done;
      [intros e v Hv; cbn in *; by rewrite Hv | by eexists _, st', o, tail].
  - assert (kind = "unzip") as -> by (destruct Hu as [[= ? _]|[[= ? _]|[]]]; done). exists (UnzipPending []), (UnzipPending (concat chunks)), [], p.
    split_and!; [done | apply (pending_all []) | exact Hone | done].
Qed.

Definition next_id (s : ZState) : Z := Z.max (as_u32 (ZNEXT s + 1)) 1.

(** What a program does with one stream: make it, feed it, finish it. *)
Definition through (s : ZState) (kind : string) (level : JsVal) (chunks : list bytes) (last : bytes) : ZState * list NodeCall :=
  zlib_calls s ((ZlibCreate, [VString kind; level]) :: feed (ZNEXT s) chunks last).

Lemma through_gives s kind level chunks last out :
  0 ≤ ZNEXT s ≤ u32_max → stream_gives kind (level_arg [VString kind; level] 1) (chunks ++ [last]) out →
  ∃ rs, through s kind level chunks last =
          (mkZ (delete (ZNEXT s) (ZSTREAMS s)) (next_id s), NReturned (number (ZNEXT s)) :: rs) ∧ outputs rs = Some out.
Proof.
  intros Hid (st & st' & o & tail & Hn & Hp & Hf & ->). unfold through. by eapply stream_runs.
Qed.

Lemma concat_snoc (chunks : list bytes) last : concat (chunks ++ [last]) = concat chunks ++ last.
Proof. by rewrite concat_app, (app_nil_r (concat [last])) || (rewrite concat_app; cbn; by rewrite app_nil_r). Qed.

(** C15. Data fed in any chunks to a compressing stream comes back from the stream, or the
    one-shot function, that decompresses its format, whatever the levels and however the
    compressed bytes are cut; unzip undoes gzip and deflate; both handles are gone
    afterwards and the streams of other handles are as they were. *)
Theorem zlib_round_trip s kc kd f level chunks last :
  1 ≤ ZNEXT s ≤ u32_max → (kc, f) ∈ encoders → (kd, f) ∈ decoders →
  ∃ s1 rs comp,
    through s kc level chunks last = (s1, NReturned (number (ZNEXT s)) :: rs) ∧ outputs rs = Some comp ∧
    (∀ l, zlib_sync [VString kd; VUint8Array comp; l] = NReturned (VUint8Array (concat chunks ++ last))) ∧
    ∀ level' chunks' last', concat chunks' ++ last' = comp →
      ∃ s2 rs', through s1 kd level' chunks' last' = (s2, NReturned (number (ZNEXT s1)) :: rs') ∧
                outputs rs' = Some (concat chunks ++ last) ∧
                ZSTREAMS s2 = delete (ZNEXT s1) (delete (ZNEXT s) (ZSTREAMS s)).
Proof.
  intros Hid Hc Hd. destruct (encoder_gives kc f (level_arg [VString kc; level] 1) (chunks ++ [last]) Hc) as (comp & Hg & He).
  rewrite concat_snoc in He. destruct (through_gives s kc level chunks last comp) as (rs & Hr & Ho); [lia | done |].
  eexists _, rs, comp. split; [exact Hr |]. split; [done |]. split.
  - intros l. unfold zlib_sync. change (str_arg _ 0) with (Some kd). change (bytes_arg _ 1) with (Some comp). cbv beta iota.
    by rewrite (decodes_one_shot kd f _ _ _ Hd He).
  - intros level' chunks' last' Hcut. cbn [ZNEXT ZSTREAMS].
    destruct (through_gives (mkZ (delete (ZNEXT s) (ZSTREAMS s)) (next_id s)) kd level' chunks' last' (concat chunks ++ last))
      as (rs' & Hr' & Ho').
    + cbn [ZNEXT]. unfold next_id. pose proof (as_u32_range (ZNEXT s + 1)) as Hx. unfold in_u32, u32_max in *. lia.
    + apply (decoder_gives kd f); [done |]. by rewrite concat_snoc, Hcut.
    + eexists _, rs'. split; [exact Hr' |]. done.
Qed.
End round_trip.

(** A stream of brotli that ends early is accepted by the incremental decompressor, whatever
    it is given, unlike by the one-shot function. *)
Lemma brotli_never_unfinished `{JsText} `{Codecs} e : is_ok (finish_stream (BrotliDec e)) = true.
Proof. cbn. by destruct (brotli_into_inner e). Qed.

(** ** The hypotheses hold of codecs that put a header in front *)

Definition header (f : Format) : bytes :=
  match f with Gz => [Byte.x1f; Byte.x8b] | Zlib => [Byte.x78] | _ => [] end.

(** How many bytes are still to be skipped, and the output. *)
#[local] Instance toy : Codecs :=
  {| Codec := nat * bytes;
     codec_new := λ f d _, match d with Enc => (0%nat, header f) | Dec => (length (header f), []) end;
     codec_write := λ c bs, Ok ((c.1 - length bs)%nat, c.2 ++ drop c.1 bs);
     codec_flush := Ok;
     codec_take := λ c, (c.2, (c.1, []));
     codec_finish := λ c, Ok c.2;
     brotli_into_inner := λ c, Ok c.2;
     brotli_compress := Ok;
     brotli_decompress := Ok |}.

Lemma toy_runs ops : ∀ k o, ∃ c out, run_ops (k, o) ops = Ok (c, out) ∧ out ++ c.2 = o ++ drop k (written ops).
Proof.
  induction ops as [|[bs| |] ops IH]; intros k o.
  - exists (k, o), []. cbn. by rewrite drop_nil, app_nil_r.
  - destruct (IH (k - length bs)%nat (o ++ drop k bs)) as (c & out & Hr & He). exists c, out. split; [exact Hr |].
    cbn [written]. by rewrite He, drop_app, app_assoc.
  - destruct (IH k o) as (c & out & Hr & He). by exists c, out.
  - destruct (IH k []) as (c & out & Hr & He). exists c, (o ++ out). split; [|by rewrite <- app_assoc, He].
    cbn [run_ops codec_take toy fst snd]. by rewrite Hr.
Qed.

Lemma toy_decodes f p ops : written ops = header f ++ p →
  ∃ c out tail, run_ops (codec_new f Dec 0) ops = Ok (c, out) ∧ dec_finish f c = Ok tail ∧ out ++ tail = p.
Proof.
  intros Hw. destruct (toy_runs ops (length (header f)) []) as (c & out & Hr & He). exists c, out, c.2.
  split; [exact Hr |]. split; [by destruct f |]. by rewrite He, Hw, drop_app_length.
Qed.

Lemma toy_encodes f l ops :
  ∃ c out tail, run_ops (codec_new f Enc l) ops = Ok (c, out) ∧ codec_finish c = Ok tail ∧ out ++ tail = header f ++ written ops.
Proof. destruct (toy_runs ops 0 (header f)) as (c & out & Hr & He). by exists c, out, c.2. Qed.

Lemma toy_brotli (p : bytes) : ∃ c, brotli_compress p = Ok c ∧ c = header Brotli ++ p.
Proof. by exists p. Qed.

Lemma toy_brotli_back (c p : bytes) : c = header Brotli ++ p → brotli_decompress c = Ok p.
Proof. by intros ->. Qed.

Lemma toy_gzip (c p : bytes) : c = header Gz ++ p → gzip_magic c = true.
Proof. by intros ->. Qed.

Lemma toy_zlib (c p : bytes) : c = header Zlib ++ p → gzip_magic c = false.
Proof. intros ->. cbn. by destruct p. Qed.

#[local] Instance toy_laws : CodecLaws :=
  {| encodes := λ f c p, c = header f ++ p;
     encoder_encodes := toy_encodes;
     decoder_decodes := toy_decodes;
     brotli_compresses := toy_brotli;
     brotli_decompresses := toy_brotli_back;
     gzip_starts := toy_gzip;
     zlib_starts := toy_zlib |}.

#[local] Instance demo : JsText := demo_text.

(** A stream of gzip between the calls on another one, and back through unzip. *)
Lemma zlib_round_trip_witness :
  ∃ s1 rs comp,
    through zlib_init "gzip" (number 9) [[Byte.x01]; []] [Byte.x02; Byte.x03] = (s1, NReturned (number 1) :: rs) ∧
    outputs rs = Some comp ∧
    (∀ l, zlib_sync [VString "unzip"; VUint8Array comp; l] = NReturned (VUint8Array [Byte.x01; Byte.x02; Byte.x03])) ∧
    ∀ level' chunks' last', concat chunks' ++ last' = comp →
      ∃ s2 rs', through s1 "unzip" level' chunks' last' = (s2, NReturned (number (ZNEXT s1)) :: rs') ∧
                outputs rs' = Some [Byte.x01; Byte.x02; Byte.x03] ∧
                ZSTREAMS s2 = delete (ZNEXT s1) (delete 1 ∅).
Proof.
  apply (zlib_round_trip zlib_init "gzip" "unzip" Gz (number 9) [[Byte.x01]; []] [Byte.x02; Byte.x03]);
    first [by apply (bool_decide_eq_true_1 (_ ∈ _)) | by vm_compute].
Defined.

(** Two streams of a thread, with a bad handle and a free in between. *)
Definition mixed : list (ZlibHook * list JsVal) :=
  [push_call 1 [Byte.x01] false; (ZlibCreate, [VString "inflate"]); push_call 2 [Byte.x78; Byte.x05] false;
   push_call 7 [] false; push_call 1 [Byte.x02] true; (ZlibFree, [number 2])].

Definition one_open : ZState := fst (zlib_create zlib_init [VString "deflate"]).

Lemma handles_independent_witness :
  results_of 1 mixed (zlib_calls one_open mixed).2 =
    (zlib_calls one_open [push_call 1 [Byte.x01] false; push_call 1 [Byte.x02] true]).2 ∧
  ZSTREAMS (zlib_calls one_open mixed).1 !! 1 = None ∧
  outputs (zlib_calls one_open [push_call 1 [Byte.x01] false; push_call 1 [Byte.x02] true]).2 =
    Some [Byte.x78; Byte.x01; Byte.x02].
Proof.
  destruct (handles_independent one_open 1 mixed) as [Hr Hz]; [by vm_compute .. |].
  split; [exact Hr |]. split; [rewrite Hz; by vm_compute | by vm_compute].
Defined.
