(* ===== verification/NodeSys.v ===== *)
(** * node:process, node:os and node:dns: [src/runtime/node_compat/hooks_sys.rs], and the
    binding of the whole layer in [mod.rs]

    The environment and the hostname of a worker thread, the registry they come from, and
    the hooks that show them with the clock, the heap and the resolver.  The order of a
    hash map, the engine's limit on the length of strings, the heap statistics, the clock
    and the resolver are inputs. *)

From stdpp Require Import base gmap list strings pretty.
From Stdlib Require Import ZArith Lia SpecFloat.
From S2P Require Import Prelude RustString RustList RustFloat CryptoKeys CryptoApi NodeFs NodeCrypto.

Open Scope Z_scope.

(** ** The registry and the thread-locals *)

Abbreviation Env := (gmap string string).

(** [HOSTNAME_ENV_VARS], of the process *)
Definition register_hostname_env (reg : gmap string Env) (hostname : string) (env : Env) : gmap string Env :=
  <[hostname := env]> reg.

Definition env_for_hostname (reg : gmap string Env) (hostname : string) : option Env := reg !! hostname.

(** [CURRENT_ENV] and [CURRENT_HOSTNAME], with [HRTIME_BASE], of a thread; the base is
    taken when it is first used. *)
Record SysLocals := mkLocals {
  CURRENT_ENV : option Env;
  CURRENT_HOSTNAME : option string;
  HRTIME_BASE : option Z;
}.

Definition locals_init : SysLocals := mkLocals None None None.

Definition set_current_env (l : SysLocals) (env : option Env) : SysLocals :=
  mkLocals env (CURRENT_HOSTNAME l) (HRTIME_BASE l).
Definition set_current_hostname (l : SysLocals) (h : option string) : SysLocals :=
  mkLocals (CURRENT_ENV l) h (HRTIME_BASE l).

(** What a worker thread does before its first task. *)
Definition start_thread (reg : gmap string Env) (worker_hostname : string) : SysLocals :=
  set_current_env (set_current_hostname locals_init (Some worker_hostname)) (env_for_hostname reg worker_hostname).

(** ** The hooks *)

Section sys.
Context `{JsText} `{HashOrder string}.
Variable fits : string → bool.

Definition number_of (z : Z) : JsVal := VNumber (f64_of_Z z).

(** [v8::String::new], or the empty string *)
Definition string_or_empty (s : string) : JsVal := VString (if fits s then s else "").

Definition hrtime (now : Z) (l : SysLocals) : SysLocals * NodeCall :=
  let base := default now (HRTIME_BASE l) in
  let d := elapsed base now in
  (mkLocals (CURRENT_ENV l) (CURRENT_HOSTNAME l) (Some base),
   NReturned (VObject [("sec", number_of (as_secs d)); ("ns", number_of (d mod nanos_per_sec))])).

Record HeapStatistics := mkHeap { total_heap_size : Z; used_heap_size : Z; external_memory : Z }.

Definition memory_usage (stats : HeapStatistics) : NodeCall :=
  let heap_total := f64_of_Z (total_heap_size stats) in
  let heap_used := f64_of_Z (used_heap_size stats) in
  let external := f64_of_Z (external_memory stats) in
  NReturned (VObject [("rss", VNumber (f64_add heap_total external)); ("heapTotal", VNumber heap_total);
                      ("heapUsed", VNumber heap_used); ("external", VNumber external)]).

Definition hostname (l : SysLocals) : NodeCall := NReturned (string_or_empty (default "nano" (CURRENT_HOSTNAME l))).

(** [available_parallelism] may fail. *)
Definition available_parallelism (cpus : option Z) : NodeCall := NReturned (number_of (default 1 cpus)).

(** Entries too long for the engine are skipped, and setting [__proto__] to a string does
    nothing. *)
Definition env_entry (kv : string * string) : option (string * JsVal) :=
  if fits kv.1 && fits kv.2 && negb (String.eqb kv.1 "__proto__") then Some (kv.1, VString kv.2) else None.

Definition env_props (env : Env) : list (string * JsVal) :=
  omap env_entry (hash_iter env) ++
  match env !! "NODE_ENV" with Some _ => [] | None => [("NODE_ENV", VString "production")] end.

Definition get_env (l : SysLocals) : NodeCall := NReturned (VObject (env_props (default ∅ (CURRENT_ENV l)))).

(** An address the resolver gives, with its family. *)
Inductive SocketAddr := AddrV4 (ip : string) | AddrV6 (ip : string).

Definition wanted (family : Z) (a : SocketAddr) : option (string * Z) :=
  match a with
  | AddrV4 ip => if (family =? 0) || (family =? 4) then Some (ip, 4) else None
  | AddrV6 ip => if (family =? 0) || (family =? 6) then Some (ip, 6) else None
  end.

Definition address_entry (a : string * Z) : JsVal := VObject [("address", VString a.1); ("family", number_of a.2)].

Definition dns_lookup (resolve : string → option (list SocketAddr)) (args : list JsVal) : NodeCall :=
  match str_arg args 0 with
  | None => throw_bad_args "dnsLookup"
  | Some host =>
      let family := f64_to_u32 (default (f64_of_Z 0) (num_arg args 1)) in
      match omap (wanted family) (default [] (resolve host)) with
      | [] => coded_error "ENOTFOUND" ("getaddrinfo ENOTFOUND " +:+ host) (Some "getaddrinfo") None
      | addrs => NReturned (VArray (address_entry <$> addrs))
      end
  end.
End sys.

(** ** Binding the layer ([mod.rs]) *)

Definition JS_SOURCES : list string :=
  ["00_prelude.js"; "01_errors.js"; "10_events.js"; "11_buffer.js"; "12_path.js"; "13_querystring.js";
   "14_string_decoder.js"; "15_punycode.js"; "16_util.js"; "17_assert.js"; "18_url.js"; "19_os.js"; "20_process.js";
   "21_stream.js"; "22_timers.js"; "23_fs.js"; "24_crypto.js"; "25_zlib.js"; "26_http.js"; "27_net.js"; "28_dns.js";
   "29_worker.js"; "30_misc.js"; "31_diag.js"; "32_web.js"; "33_console.js"; "34_http2.js"; "35_http_bridge.js";
   "99_init.js"].

(** What a context carries: the marker, whether the host object is there, and the files
    evaluated so far. *)
Record CompatContext := mkContext { marker : JsVal; host_set : bool; evaluated : list string }.

Definition fresh_context : CompatContext := mkContext VUndefined false [].

(** [evaluates f] says whether [f] runs without an exception. *)
Fixpoint eval_sources (evaluates : string → bool) (files done : list string) : list string * bool :=
  match files with
  | [] => (done, true)
  | f :: files => if evaluates f then eval_sources evaluates files (done ++ [f]) else (done, false)
  end.

Definition bind_node_compat (evaluates : string → bool) (c : CompatContext) : CompatContext :=
  if boolean_value (marker c) then c
  else
    let '(files, ok) := eval_sources evaluates JS_SOURCES (evaluated c) in
    mkContext (if ok then VBool true else marker c) true files.

(** A second binding does nothing, but after a failure all files before the failing one are
    evaluated again. *)
Lemma eval_all (evaluates : string → bool) files : (∀ f, f ∈ files → evaluates f = true) →
  ∀ done, eval_sources evaluates files done = (done ++ files, true).
Proof.
  induction files as [|f files IH]; intros Hf d; cbn [eval_sources]; [by rewrite app_nil_r |].
  rewrite Hf by (by left). rewrite IH by (intros; apply Hf; by right). by rewrite <- app_assoc.
Qed.

Lemma bind_once evaluates c : (∀ f, f ∈ JS_SOURCES → evaluates f = true) → boolean_value (marker c) = false →
  let c' := bind_node_compat evaluates c in
  c' = mkContext (VBool true) true (evaluated c ++ JS_SOURCES) ∧ bind_node_compat evaluates c' = c'.
Proof.
  intros He Hm c'. assert (c' = mkContext (VBool true) true (evaluated c ++ JS_SOURCES)) as Hc.
  { unfold c', bind_node_compat. by rewrite Hm, eval_all. }
  split; [done |]. by rewrite Hc.
Qed.

Example failure_repeats :
  let bind := bind_node_compat (λ f, negb (String.eqb f "10_events.js")) in
  evaluated (bind (bind fresh_context)) = ["00_prelude.js"; "01_errors.js"; "00_prelude.js"; "01_errors.js"].
Proof. vm_compute. reflexivity. Qed.

(** ** What a program sees *)

Section seen.
Context `{JsText} `{HashOrder string}.
Variable fits : string → bool.

Lemma lookup_prop_app name a b :
  lookup_prop name (a ++ b) = match lookup_prop name a with Some v => Some v | None => lookup_prop name b end.
Proof. induction a as [|[n v] a IH]; cbn; [done |]. by destruct (String.eqb n name). Qed.

Lemma lookup_prop_entries name l :
  NoDup l.*1 → fits name = true → name ≠ "__proto__" → (∀ k v, (k, v) ∈ l → fits v = true) →
  lookup_prop name (omap (env_entry fits) l) = VString <$> (snd <$> List.find (λ kv, String.eqb kv.1 name) l).
Proof.
  induction l as [|[k v] l IH]; intros Hnd Hfit Hp Hv; [done |]. inversion Hnd as [|? ? Hni Hnd']; subst.
  assert (∀ k0 v0, (k0, v0) ∈ l → fits v0 = true) as Hv' by (intros ? ? Hin; eapply Hv; by right).
  cbn [omap list_omap List.find fst]. unfold env_entry at 1. cbn [fst snd]. rewrite (Hv k v) by (by left).
  destruct (String.eqb_spec k name) as [->|Hk].
  - rewrite Hfit. rewrite (proj2 (String.eqb_neq _ _) Hp). cbn. by rewrite String.eqb_refl.
  - destruct (fits k && true && negb (String.eqb k "__proto__")); [|by apply IH].
    cbn [lookup_prop]. rewrite (proj2 (String.eqb_neq _ _) Hk). by apply IH.
Qed.

Lemma find_lookup (m : Env) name l :
  l ≡ₚ map_to_list m → snd <$> List.find (λ kv, String.eqb kv.1 name) l = m !! name.
Proof.
  intros Hp. destruct (List.find _ l) as [[k v]|] eqn:Hf; cbn.
  - apply List.find_some in Hf as [Hin He]. cbn in He. apply String.eqb_eq in He as ->.
    apply list_elem_of_In in Hin. rewrite Hp in Hin. by apply elem_of_map_to_list in Hin.
  - symmetry. apply eq_None_not_Some. intros [v Hv]. apply elem_of_map_to_list in Hv. rewrite <- Hp in Hv.
    apply list_elem_of_In in Hv. pose proof (List.find_none _ _ Hf _ Hv) as Hx. cbn in Hx. by rewrite String.eqb_refl in Hx.
Qed.

(** The text of every entry is short enough. *)
Definition fitting (env : Env) : Prop := ∀ k v, env !! k = Some v → fits v = true.

Lemma env_shown (env : Env) name :
  fitting env → fits name = true → name ≠ "__proto__" →
  get (VObject (env_props fits env)) name =
  match env !! name with
  | Some v => VString v
  | None => if String.eqb name "NODE_ENV" then VString "production" else VUndefined
  end.
Proof.
  intros Hf Hn Hp. cbn [get]. unfold env_props. rewrite lookup_prop_app, lookup_prop_entries; try done.
  - rewrite (find_lookup env) by apply hash_iter_perm. destruct (env !! name) as [v|] eqn:He; [done |]. cbn [fmap option_fmap option_map].
    destruct (String.eqb_spec name "NODE_ENV") as [->|Hne]; [by rewrite He |].
    destruct (env !! "NODE_ENV"); [done |]. cbn [lookup_prop]. by rewrite (proj2 (String.eqb_neq _ _) (not_eq_sym Hne)).
  - rewrite hash_iter_perm. apply NoDup_fst_map_to_list.
  - intros k v Hin. rewrite hash_iter_perm in Hin. apply elem_of_map_to_list in Hin. by eapply Hf.
Qed.

(** What was registered last for a host. *)
Definition registrations (regs : list (string * Env)) : gmap string Env :=
  fold_left (λ reg he, register_hostname_env reg he.1 he.2) regs ∅.

Definition last_for (host : string) (regs : list (string * Env)) : option Env :=
  last (omap (λ he : string * Env, if String.eqb he.1 host then Some he.2 else None) regs).

Lemma registrations_last regs host : registrations regs !! host = last_for host regs.
Proof.
  unfold registrations, last_for. induction regs as [|[h e] regs IH] using rev_ind; [done |].
  rewrite fold_left_app, omap_app. cbn [fold_left fst snd]. unfold register_hostname_env.
  cbn [omap list_omap fst snd]. destruct (String.eqb_spec h host) as [->|Hne].
  - rewrite (lookup_insert_eq (M := gmap string)). by rewrite last_snoc.
  - rewrite (lookup_insert_ne (M := gmap string)) by done. by rewrite app_nil_r.
Qed.

Lemma last_for_in host regs env : last_for host regs = Some env → (host, env) ∈ regs.
Proof.
  intros Hl. apply last_Some_elem_of, list_elem_of_omap in Hl as ([h e] & Hin & He). cbn in He.
  destruct (String.eqb_spec h host) as [->|]; [by injection He as -> | discriminate].
Qed.

(** C23. The thread of a host shows its program the variables registered last for that host
    before it started, with NODE_ENV production unless they set it, and the host's own
    name, whatever other hosts registered. *)
Theorem thread_env_exact regs host name :
  (∀ h env, (h, env) ∈ regs → fitting env) → fits host = true → fits name = true → name ≠ "__proto__" →
  let l := start_thread (registrations regs) host in
  ∃ env_object,
    get_env fits l = NReturned env_object ∧
    get env_object name =
      match last_for host regs ≫= lookup name with
      | Some v => VString v
      | None => if String.eqb name "NODE_ENV" then VString "production" else VUndefined
      end ∧
    hostname fits l = NReturned (VString host).
Proof.
  intros Hr Hh Hn Hp l. exists (VObject (env_props fits (default ∅ (CURRENT_ENV l)))). split; [done |]. split.
  - change (CURRENT_ENV l) with (registrations regs !! host). rewrite registrations_last.
    rewrite env_shown; [| | done | done].
    + by destruct (last_for host regs).
    + destruct (last_for host regs) as [env|] eqn:Hl; [|done]. by eapply Hr, last_for_in.
  - unfold hostname, string_or_empty. cbn. by rewrite Hh.
Qed.
End seen.

#[local] Instance demo : JsText := demo_text.
#[local] Instance demo_order : HashOrder string := plain_order.

Definition demo_regs : list (string * Env) :=
  [("a.example", {["KEY" := "old"]}); ("b.example", {["KEY" := "other"]}); ("a.example", {["KEY" := "new"]})].

Lemma thread_env_exact_witness :
  ∃ env_object,
    get_env (λ _, true) (start_thread (registrations demo_regs) "a.example") = NReturned env_object ∧
    get env_object "KEY" = VString "new" ∧
    hostname (λ _, true) (start_thread (registrations demo_regs) "a.example") = NReturned (VString "a.example").
Proof. apply (thread_env_exact (λ _, true) demo_regs "a.example" "KEY"); done. Defined.

(** Addresses are those of the family asked for, in the resolver's order; no address, and a
    name that does not resolve, throw ENOTFOUND. *)
Lemma dns_lookup_exact `{JsText} resolve host rest v :
  dns_lookup resolve (VString host :: rest) = NReturned v ↔
  ∃ addrs, addrs = omap (wanted (f64_to_u32 (default (f64_of_Z 0) (num_arg (VString host :: rest) 1)))) (default [] (resolve host)) ∧
           addrs ≠ [] ∧ v = VArray (address_entry <$> addrs).
Proof.
  unfold dns_lookup. change (str_arg _ 0) with (Some host). cbv beta iota zeta.
  destruct (omap _ _) as [|a l].
  - split; [discriminate |]. by intros (? & -> & ? & _).
  - split; [intros [= <-]; by eexists | by intros (? & -> & _ & ->)].
Qed.

(** The clock starts at its first use and its two parts make up the time since. *)
Lemma hrtime_exact l now l' r :
  hrtime now l = (l', r) →
  let d := elapsed (default now (HRTIME_BASE l)) now in
  HRTIME_BASE l' = Some (default now (HRTIME_BASE l)) ∧
  r = NReturned (VObject [("sec", number_of (as_secs d)); ("ns", number_of (d mod nanos_per_sec))]) ∧
  as_secs d * nanos_per_sec + d mod nanos_per_sec = d ∧ 0 ≤ d mod nanos_per_sec < nanos_per_sec.
Proof.
  intros [= <- <-] d. split_and!; try done.
  - unfold as_secs. pose proof (Z.div_mod d nanos_per_sec ltac:(done)). lia.
  - by apply Z.mod_pos_bound.
  - by apply Z.mod_pos_bound.
Qed.
