(* ===== verification/Bridge.v ===== *)
(** * Requests and responses as JSON: [src/http/v8_bridge.rs]

    The text the standalone handlers parse with [JSON.parse], with its escaping and its
    base64.  The reader of JSON and the decoder of base64 of this file are specifications:
    they say what the text means. *)

From stdpp Require Import base gmap list strings pretty.
From Stdlib Require Import Ascii ZArith Lia.
From S2P Require Import Prelude RustString RustList HttpHeaders Router.

Open Scope Z_scope.

Definition byte (a : ascii) : Z := Z.of_N (N_of_ascii a).
Definition char_of (z : Z) : ascii := ascii_of_N (Z.to_N z).

(** ** Base64 *)

Definition BASE64_CHARS : string := "ABCDEFGHIJKLMNOPQRSTUVWXYZabcdefghijklmnopqrstuvwxyz0123456789+/".

(** [BASE64_CHARS[((b >> s) & 0x3F) as usize] as char] *)
Definition b64 (b s : Z) : ascii :=
  default (ch "A") (String.get (Z.to_nat (Z.land (Z.shiftr b s) 63)) BASE64_CHARS).

Definition pad : ascii := ch "=".

Fixpoint base64_encode (input : string) : string :=
  match input with
  | String x (String y (String z rest)) =>
      let b := Z.lor (Z.lor (Z.shiftl (byte x) 16) (Z.shiftl (byte y) 8)) (byte z) in
      String (b64 b 18) (String (b64 b 12) (String (b64 b 6) (String (b64 b 0) (base64_encode rest))))
  | String x (String y EmptyString) =>
      let b := Z.lor (Z.shiftl (byte x) 16) (Z.shiftl (byte y) 8) in
      String (b64 b 18) (String (b64 b 12) (String (b64 b 6) (String pad EmptyString)))
  | String x EmptyString =>
      let b := Z.shiftl (byte x) 16 in
      String (b64 b 18) (String (b64 b 12) (String pad (String pad EmptyString)))
  | EmptyString => EmptyString
  end.

(** ** JSON text *)

Definition backslash : ascii := ascii_of_nat 92.
Definition newline : ascii := ascii_of_nat 10.
Definition carriage_return : ascii := ascii_of_nat 13.
Definition tab : ascii := ascii_of_nat 9.
Definition quote_char : ascii := ascii_of_nat 34.

(** A backslash and a character. *)
Definition escape (a : ascii) : string := String backslash (String a EmptyString).

Definition escape_json (s : string) : string :=
  replace_char tab (escape (ch "t"))
    (replace_char carriage_return (escape (ch "r"))
       (replace_char newline (escape (ch "n"))
          (replace_char quote_char (escape quote_char)
             (replace_char backslash (escape backslash) s)))).

Definition quoted (s : string) : string := quote +:+ (s +:+ quote).
Definition key (k : string) : string := quoted k +:+ ":".

(** The members of the headers object; [first] is the flag of the loop. *)
Fixpoint header_members (first : bool) (l : list (string * string)) : string :=
  match l with
  | [] => ""
  | (name, value) :: l =>
      (if first then "" else ",") +:+
      (quoted (escape_json name) +:+ (":" +:+ (quoted (escape_json value) +:+ header_members false l)))
  end.

Section bridge.
Context `{HashOrder (list string)}.

Definition headers_object (h : NanoHeaders) : string := "{" +:+ (header_members true (hfor_each h) +:+ "}").

Definition serialize_request_to_json (r : NanoRequest) : string :=
  "{" +:+ (key "method" +:+ (quoted (escape_json (method r)) +:+ ("," +:+
  (key "url" +:+ (quoted (escape_json (url r)) +:+ ("," +:+
  (key "headers" +:+ (headers_object (req_headers r) +:+ ("," +:+
  (match req_body r with
   | Some b => key "body" +:+ (quoted (base64_encode b) +:+ ("," +:+ (key "bodyUsed" +:+ "true")))
   | None => key "body" +:+ ("null" +:+ ("," +:+ (key "bodyUsed" +:+ "false")))
   end +:+ "}")))))))))).

Definition serialize_response_to_json (r : NanoResponse) : string :=
  "{" +:+ (key "status" +:+ (pretty (status r) +:+ ("," +:+
  (key "statusText" +:+ (quoted (escape_json (status_text r)) +:+ ("," +:+
  (key "headers" +:+ (headers_object (resp_headers r) +:+ ("," +:+
  (key "body" +:+ (match body r with
                   | Some b => quoted (base64_encode b)
                   | None => "null"
                   end +:+ "}"))))))))))).
End bridge.

(** ** What the text means *)

(** A string after its opening quote: the characters, and the rest behind the closing
    one.  A control character has to be escaped. *)
Definition unescape (a : ascii) : option ascii :=
  if char_eqb a quote_char then Some quote_char
  else if char_eqb a backslash then Some backslash
  else if char_eqb a (ch "/") then Some (ch "/")
  else if char_eqb a (ch "n") then Some newline
  else if char_eqb a (ch "r") then Some carriage_return
  else if char_eqb a (ch "t") then Some tab
  else if char_eqb a (ch "b") then Some (ascii_of_nat 8)
  else if char_eqb a (ch "f") then Some (ascii_of_nat 12)
  else None.

Fixpoint read_string (s : string) : option (string * string) :=
  match s with
  | EmptyString => None
  | String a s =>
      if char_eqb a quote_char then Some ("", s)
      else if char_eqb a backslash then
        match s with
        | String e s => c ← unescape e; r ← read_string s; Some (String c r.1, r.2)
        | EmptyString => None
        end
      else if byte a <? 32 then None
      else r ← read_string s; Some (String a r.1, r.2)
  end.

Inductive Json := JNull | JBool (b : bool) | JNumber (text : string) | JString (s : string) | JObject (ms : list (string * Json)).

Definition expect (p s : string) : option string := strip_prefix p s.

(** The digits in front. *)
Fixpoint read_number (s : string) : string * string :=
  match s with
  | String a s' => if is_digit a then (String a (read_number s').1, (read_number s').2) else ("", s)
  | EmptyString => ("", "")
  end.

(** A member of an object and what follows; [value] reads its value. *)
Definition read_member (value : string → option (Json * string)) (s : string) : option (string * Json * string) :=
  s ← expect quote s; k ← read_string s; s ← expect ":" k.2; v ← value s; Some (k.1, v.1, v.2).

Fixpoint read_members (fuel : nat) (value : string → option (Json * string)) (s : string)
    : option (list (string * Json) * string) :=
  match fuel with
  | O => None
  | S fuel =>
      m ← read_member value s;
      match expect "," m.2 with
      | Some s => ms ← read_members fuel value s; Some (m.1 :: ms.1, ms.2)
      | None => s ← expect "}" m.2; Some ([m.1], s)
      end
  end.

(** A value; [depth] bounds the nesting, [fuel] the members of an object. *)
Fixpoint read_value (depth fuel : nat) (s : string) : option (Json * string) :=
  match depth with
  | O => None
  | S depth =>
      match expect "null" s, expect "true" s, expect "false" s, expect quote s, expect "{" s with
      | Some s, _, _, _, _ => Some (JNull, s)
      | _, Some s, _, _, _ => Some (JBool true, s)
      | _, _, Some s, _, _ => Some (JBool false, s)
      | _, _, _, Some s, _ => r ← read_string s; Some (JString r.1, r.2)
      | _, _, _, _, Some s =>
          match expect "}" s with
          | Some s => Some (JObject [], s)
          | None => r ← read_members fuel (read_value depth fuel) s; Some (JObject r.1, r.2)
          end
      | _, _, _, _, _ =>
          let r := read_number s in if is_empty r.1 then None else Some (JNumber r.1, r.2)
      end
  end.

(** The value of a character of base64. *)
Fixpoint index_of (a : ascii) (s : string) (i : Z) : option Z :=
  match s with
  | EmptyString => None
  | String x s => if char_eqb a x then Some i else index_of a s (i + 1)
  end.
Definition b64_value (a : ascii) : option Z := index_of a BASE64_CHARS 0.

(** Groups of four characters; padding only in the last one. *)
Fixpoint base64_decode (s : string) : option string :=
  match s with
  | EmptyString => Some ""
  | String a (String b (String c (String d rest))) =>
      i ← b64_value a; j ← b64_value b;
      if char_eqb c pad && char_eqb d pad && is_empty rest then Some (String (char_of (i * 4 + j / 16)) "")
      else
        k ← b64_value c;
        if char_eqb d pad && is_empty rest
        then Some (String (char_of (i * 4 + j / 16)) (String (char_of (j mod 16 * 16 + k / 4)) ""))
        else
          l ← b64_value d; r ← base64_decode rest;
          Some (String (char_of (i * 4 + j / 16))
                  (String (char_of (j mod 16 * 16 + k / 4)) (String (char_of (k mod 4 * 64 + l)) r)))
  | _ => None
  end.

(** ** Base64 decodes *)

Lemma byte_range a : 0 <= byte a < 256.
Proof. unfold byte. pose proof (N_ascii_bounded a). lia. Qed.

Lemma char_of_byte a : char_of (byte a) = a.
Proof. unfold char_of, byte. by rewrite N2Z.id, ascii_N_embedding. Qed.

(** A number followed by one of fewer than [n] bits. *)
Lemma lor_shift x y n : 0 <= n → 0 <= y < 2 ^ n → Z.lor (Z.shiftl x n) y = x * 2 ^ n + y.
Proof.
  intros Hn Hy. rewrite <- Z.shiftl_mul_pow2 by done.
  assert (E : Z.land (Z.shiftl x n) y = 0).
  { apply Z.bits_inj'. intros i Hi. rewrite Z.land_spec, Z.bits_0.
    destruct (decide (i < n)); [by rewrite Z.shiftl_spec_low|].
    replace y with (y mod 2 ^ n) by (apply Z.mod_small; lia). rewrite Z.mod_pow2_bits_high by lia. by rewrite andb_false_r. }
  by rewrite Z.add_nocarry_lxor, Z.lxor_lor by done.
Qed.

(** The three bytes of a group as one number. *)
Lemma group_value x y z :
  Z.lor (Z.lor (Z.shiftl (byte x) 16) (Z.shiftl (byte y) 8)) (byte z) = byte x * 65536 + byte y * 256 + byte z.
Proof.
  pose proof (byte_range x). pose proof (byte_range y). pose proof (byte_range z).
  rewrite <- Z.lor_assoc, (lor_shift (byte y)) by lia.
  rewrite lor_shift by lia. lia.
Qed.

Lemma group_value2 x y : Z.lor (Z.shiftl (byte x) 16) (Z.shiftl (byte y) 8) = byte x * 65536 + byte y * 256 + 0.
Proof.
  pose proof (byte_range x). pose proof (byte_range y).
  rewrite (Z.shiftl_mul_pow2 (byte y)), lor_shift by lia. lia.
Qed.

Lemma group_value1 x : Z.shiftl (byte x) 16 = byte x * 65536 + 0 * 256 + 0.
Proof. rewrite Z.shiftl_mul_pow2 by lia. lia. Qed.

(** Each of the 64 characters has its value, and none is the padding. *)
Lemma b64_table v : 0 <= v < 64 →
  b64_value (default (ch "A") (String.get (Z.to_nat v) BASE64_CHARS)) = Some v ∧
  char_eqb (default (ch "A") (String.get (Z.to_nat v) BASE64_CHARS)) pad = false.
Proof.
  assert (T : Forall (λ v, b64_value (default (ch "A") (String.get (Z.to_nat v) BASE64_CHARS)) = Some v ∧
    char_eqb (default (ch "A") (String.get (Z.to_nat v) BASE64_CHARS)) pad = false) (seqZ 0 64)).
  { apply (bool_decide_unpack _). by vm_compute. }
  rewrite Forall_forall in T. intros Hv. apply T, elem_of_seqZ. lia.
Qed.

Lemma b64_digit b s : 0 <= s → b64_value (b64 b s) = Some (b / 2 ^ s mod 64) ∧ char_eqb (b64 b s) pad = false.
Proof.
  intros Hs. unfold b64. rewrite Z.shiftr_div_pow2 by done.
  replace (Z.land (b / 2 ^ s) 63) with (b / 2 ^ s mod 64) by (symmetry; apply (Z.land_ones _ 6); lia).
  apply b64_table, Z.mod_pos_bound. lia.
Qed.

(** The four digits of a group, and the bytes that come back from them. *)
Lemma group_digits X Y W : 0 <= X < 256 → 0 <= Y < 256 → 0 <= W < 256 →
  let b := X * 65536 + Y * 256 + W in
  b / 2 ^ 18 mod 64 = X / 4 ∧ b / 2 ^ 12 mod 64 = X mod 4 * 16 + Y / 16 ∧
  b / 2 ^ 6 mod 64 = Y mod 16 * 4 + W / 64 ∧ b / 2 ^ 0 mod 64 = W mod 64.
Proof.
  intros. subst b. change (2 ^ 18) with 262144. change (2 ^ 12) with 4096. change (2 ^ 6) with 64. change (2 ^ 0) with 1.
  repeat split; Z.to_euclidean_division_equations; lia.
Qed.

Lemma group_bytes X Y W : 0 <= X < 256 → 0 <= Y < 256 → 0 <= W < 256 →
  X / 4 * 4 + (X mod 4 * 16 + Y / 16) / 16 = X ∧
  (X mod 4 * 16 + Y / 16) mod 16 * 16 + (Y mod 16 * 4 + W / 64) / 4 = Y ∧
  (Y mod 16 * 4 + W / 64) mod 4 * 64 + W mod 64 = W.
Proof. intros. repeat split; Z.to_euclidean_division_equations; lia. Qed.

(** Rewrites the digits of the group of the bytes [X], [Y] and [W] to their values. *)
Ltac group X Y W E :=
  let D := fresh "D" in let D1 := fresh "D" in let D2 := fresh "D" in let D3 := fresh "D" in let D4 := fresh "D" in
  pose proof (group_digits X Y W ltac:(first [apply byte_range | lia]) ltac:(first [apply byte_range | lia])
    ltac:(first [apply byte_range | lia])) as D; cbv zeta in D; destruct D as (D1 & D2 & D3 & D4); rewrite ?D1, ?D2, ?D3, ?D4; clear D1 D2 D3 D4;
  pose proof (group_bytes X Y W ltac:(first [apply byte_range | lia]) ltac:(first [apply byte_range | lia])
    ltac:(first [apply byte_range | lia])) as (-> & E).

(** One step of the decoder on digits of the encoder. *)
Lemma decode_group b r rest : base64_decode rest = Some r →
  base64_decode (String (b64 b 18) (String (b64 b 12) (String (b64 b 6) (String (b64 b 0) rest)))) =
  let i := b / 2 ^ 18 mod 64 in let j := b / 2 ^ 12 mod 64 in
  let k := b / 2 ^ 6 mod 64 in let l := b / 2 ^ 0 mod 64 in
  Some (String (char_of (i * 4 + j / 16))
          (String (char_of (j mod 16 * 16 + k / 4)) (String (char_of (k mod 4 * 64 + l)) r))).
Proof.
  intros IH. cbn [base64_decode].
  destruct (b64_digit b 18 ltac:(lia)) as [-> _], (b64_digit b 12 ltac:(lia)) as [-> _],
    (b64_digit b 6 ltac:(lia)) as [-> ->], (b64_digit b 0 ltac:(lia)) as [-> ->].
  rewrite IH. reflexivity.
Qed.

Lemma decode_two b :
  base64_decode (String (b64 b 18) (String (b64 b 12) (String (b64 b 6) (String pad EmptyString)))) =
  let i := b / 2 ^ 18 mod 64 in let j := b / 2 ^ 12 mod 64 in let k := b / 2 ^ 6 mod 64 in
  Some (String (char_of (i * 4 + j / 16)) (String (char_of (j mod 16 * 16 + k / 4)) "")).
Proof.
  cbn [base64_decode].
  destruct (b64_digit b 18 ltac:(lia)) as [-> _], (b64_digit b 12 ltac:(lia)) as [-> _],
    (b64_digit b 6 ltac:(lia)) as [-> ->]. reflexivity.
Qed.

Lemma decode_one b :
  base64_decode (String (b64 b 18) (String (b64 b 12) (String pad (String pad EmptyString)))) =
  let i := b / 2 ^ 18 mod 64 in let j := b / 2 ^ 12 mod 64 in Some (String (char_of (i * 4 + j / 16)) "").
Proof.
  cbn [base64_decode].
  destruct (b64_digit b 18 ltac:(lia)) as [-> _], (b64_digit b 12 ltac:(lia)) as [-> _]. reflexivity.
Qed.

Lemma base64_decodes n : ∀ s, (String.length s <= n)%nat → base64_decode (base64_encode s) = Some s.
Proof.
  induction n as [|n IH]; intros s Hs.
  - destruct s; [done|cbn in Hs; lia].
  - destruct s as [|x [|y [|z s]]]; [done| | |]; cbn [base64_encode]; cbv zeta.
    + rewrite group_value1, decode_one. cbv zeta. group (byte x) 0 0 E. by rewrite char_of_byte.
    + rewrite group_value2, decode_two. cbv zeta. group (byte x) (byte y) 0 E. destruct E as (-> & _).
      by rewrite !char_of_byte.
    + rewrite group_value, (decode_group _ s) by (apply IH; cbn in Hs; lia). cbv zeta.
      group (byte x) (byte y) (byte z) E. destruct E as (-> & ->). by rewrite !char_of_byte.
Qed.

(** The encoding is padded to whole groups, and is the length the code reserves. *)
Lemma base64_length_to n : ∀ s, (String.length s <= n)%nat →
  (String.length (base64_encode s) = (String.length s + 2) / 3 * 4)%nat.
Proof.
  induction n as [|n IH]; intros s Hs.
  - destruct s; [done|cbn in Hs; lia].
  - destruct s as [|x [|y [|z s]]]; [done..|]. cbn [base64_encode String.length].
    rewrite IH by (cbn in Hs; lia). cbn [String.length].
    replace (S (S (S (String.length s))) + 2)%nat with (String.length s + 2 + 1 * 3)%nat by lia.
    rewrite Nat.div_add by lia. lia.
Qed.

(** Decoding gives back the bytes, whatever they are, and the encoding has exactly the
    length that was reserved for it: four characters for every three bytes begun. *)
Theorem base64_round_trip s :
  base64_decode (base64_encode s) = Some s ∧ (String.length (base64_encode s) = (String.length s + 2) / 3 * 4)%nat.
Proof. split; [by eapply base64_decodes|by eapply base64_length_to]. Qed.

(** ** Strings read back *)

(** The characters JSON strings may hold once [escape_json] has escaped its five: no other
    control character. *)
Definition json_char (a : ascii) : bool :=
  (32 <=? byte a) || char_eqb a newline || char_eqb a carriage_return || char_eqb a tab.
Definition json_safe : string → bool := all_chars json_char.

(** A character that stands for itself. *)
Definition plain_char (a : ascii) : bool :=
  (32 <=? byte a) && negb (char_eqb a quote_char) && negb (char_eqb a backslash).

(** What [escape_json] makes of one character. *)
Definition escape_char (a : ascii) : string :=
  if char_eqb a backslash then escape backslash
  else if char_eqb a quote_char then escape quote_char
  else if char_eqb a newline then escape (ch "n")
  else if char_eqb a carriage_return then escape (ch "r")
  else if char_eqb a tab then escape (ch "t")
  else String a "".

Lemma escape_json_cons a s : escape_json (String a s) = escape_char a +:+ escape_json s.
Proof.
  unfold escape_char.
  destruct (char_eqb a backslash) eqn:E1; [by apply char_eqb_eq in E1 as ->|].
  destruct (char_eqb a quote_char) eqn:E2; [by apply char_eqb_eq in E2 as ->|].
  destruct (char_eqb a newline) eqn:E3; [by apply char_eqb_eq in E3 as ->|].
  destruct (char_eqb a carriage_return) eqn:E4; [by apply char_eqb_eq in E4 as ->|].
  destruct (char_eqb a tab) eqn:E5; [by apply char_eqb_eq in E5 as ->|].
  unfold escape_json. cbn [replace_char]. rewrite E1. cbn [replace_char]. rewrite E2. cbn [replace_char].
  rewrite E3. cbn [replace_char]. rewrite E4. cbn [replace_char]. by rewrite E5.
Qed.

Lemma read_plain_cons a s : plain_char a = true →
  read_string (String a s) = (r ← read_string s; Some (String a r.1, r.2)).
Proof.
  unfold plain_char. intros [[H1 H2%negb_true_iff]%andb_true_iff H3%negb_true_iff]%andb_true_iff.
  cbn [read_string]. rewrite H2, H3. replace (byte a <? 32) with false; [done|]. symmetry. lia.
Qed.

Lemma read_escape_char a s : json_char a = true →
  read_string (escape_char a +:+ s) = (r ← read_string s; Some (String a r.1, r.2)).
Proof.
  unfold escape_char. intros Ha.
  destruct (char_eqb a backslash) eqn:E1; [by apply char_eqb_eq in E1 as ->|].
  destruct (char_eqb a quote_char) eqn:E2; [by apply char_eqb_eq in E2 as ->|].
  destruct (char_eqb a newline) eqn:E3; [by apply char_eqb_eq in E3 as ->|].
  destruct (char_eqb a carriage_return) eqn:E4; [by apply char_eqb_eq in E4 as ->|].
  destruct (char_eqb a tab) eqn:E5; [by apply char_eqb_eq in E5 as ->|].
  apply read_plain_cons. unfold json_char in Ha. rewrite E3, E4, E5, !orb_false_r in Ha.
  unfold plain_char. by rewrite E1, E2, Ha.
Qed.

Lemma read_escaped s rest : json_safe s = true →
  read_string (escape_json s +:+ (quote +:+ rest)) = Some (s, rest).
Proof.
  induction s as [|a s IH]; intros Hs; [done|]. apply andb_true_iff in Hs as [Ha Hs].
  rewrite escape_json_cons, <- str_app_assoc, read_escape_char by done. by rewrite IH.
Qed.

Lemma read_plain s rest : all_chars plain_char s = true →
  read_string (s +:+ (quote +:+ rest)) = Some (s, rest).
Proof.
  induction s as [|a s IH]; intros Hs; [done|]. apply andb_true_iff in Hs as [Ha Hs].
  rewrite str_app_cons, read_plain_cons by done. by rewrite IH.
Qed.

Lemma quoted_app s rest : quoted s +:+ rest = quote +:+ (s +:+ (quote +:+ rest)).
Proof. unfold quoted. by rewrite <- !str_app_assoc. Qed.

Lemma expect_app p s : expect p (p +:+ s) = Some s.
Proof. by apply strip_prefix_Some. Qed.

(** A control character outside the five ends the reading. *)
Lemma read_control a s rest : json_char a = false → read_string (escape_json (String a s) +:+ rest) = None.
Proof.
  intros Ha. unfold json_char in Ha. rewrite !orb_false_iff in Ha. destruct Ha as [[[H1 H2] H3] H4].
  rewrite escape_json_cons. unfold escape_char.
  destruct (char_eqb a backslash) eqn:E1; [by apply char_eqb_eq in E1 as ->|].
  destruct (char_eqb a quote_char) eqn:E2; [by apply char_eqb_eq in E2 as ->|].
  rewrite H2, H3, H4. rewrite <- str_app_assoc, str_app_cons. cbn [read_string]. rewrite E2, E1.
  replace (byte a <? 32) with true; [done|]. symmetry. lia.
Qed.

(** ** Values and members read back *)

Lemma read_value_quote d f s :
  read_value (S d) f (quote +:+ s) = (r ← read_string s; Some (JString r.1, r.2)).
Proof. reflexivity. Qed.

Lemma value_escaped d f s rest : json_safe s = true →
  read_value (S d) f (quoted (escape_json s) +:+ rest) = Some (JString s, rest).
Proof. intros Hs. rewrite quoted_app, read_value_quote, read_escaped by done. done. Qed.

Lemma value_plain d f s rest : all_chars plain_char s = true →
  read_value (S d) f (quoted s +:+ rest) = Some (JString s, rest).
Proof. intros Hs. rewrite quoted_app, read_value_quote, read_plain by done. done. Qed.

Lemma member_text value k' k t v rest :
  (∀ u, read_string (k' +:+ (quote +:+ u)) = Some (k, u)) → value t = Some (v, rest) →
  read_member value (quoted k' +:+ (":" +:+ t)) = Some (k, v, rest).
Proof.
  intros Hk Hv. unfold read_member. rewrite quoted_app, expect_app. cbn [mbind option_bind]. rewrite Hk.
  cbn [mbind option_bind fst snd]. rewrite expect_app. cbn [mbind option_bind]. by rewrite Hv.
Qed.

Lemma member_key value k t v rest : all_chars plain_char k = true → value t = Some (v, rest) →
  read_member value (key k +:+ t) = Some (k, v, rest).
Proof.
  intros Hk Hv. unfold key. rewrite <- str_app_assoc. apply member_text; [|done].
  intros u. by apply read_plain.
Qed.

Lemma members_more f value s m s' : read_member value s = Some (m, "," +:+ s') →
  read_members (S f) value s = (ms ← read_members f value s'; Some (m :: ms.1, ms.2)).
Proof. intros Hm. cbn [read_members]. rewrite Hm. cbn [mbind option_bind fst snd]. by rewrite expect_app. Qed.

Lemma members_last f value s m rest : read_member value s = Some (m, "}" +:+ rest) →
  read_members (S f) value s = Some ([m], rest).
Proof. intros Hm. cbn [read_members]. rewrite Hm. reflexivity. Qed.

Definition safe_pair (e : string * string) : bool := json_safe e.1 && json_safe e.2.
Definition json_pair (e : string * string) : string * Json := (e.1, JString e.2).

Lemma read_headers d f rest : ∀ l e g, forallb safe_pair (e :: l) = true → (length l < g)%nat →
  read_members g (read_value (S d) f) (header_members true (e :: l) +:+ ("}" +:+ rest)) =
  Some (map json_pair (e :: l), rest).
Proof.
  induction l as [|e2 l IH]; intros [n v] g Hs Hg; (destruct g as [|g]; [cbn in Hg; lia|]);
    cbn [forallb] in Hs; apply andb_true_iff in Hs as [[Hn Hv]%andb_true_iff Hs]; cbn [fst snd] in Hn, Hv;
    cbn [header_members]; change ("" +:+ ?x) with x; rewrite <- str_app_assoc, <- str_app_assoc, <- str_app_assoc.
  - apply members_last, member_text; [intros; by apply read_escaped|by apply value_escaped].
  - destruct e2 as [n2 v2]. cbn [header_members]. rewrite <- str_app_assoc.
    erewrite members_more.
    2:{ apply member_text; [intros; by apply read_escaped|by apply value_escaped]. }
    specialize (IH (n2, v2) g Hs ltac:(cbn in Hg; lia)). cbn [header_members] in IH.
    change ("" +:+ ?x) with x in IH. rewrite IH. reflexivity.
Qed.

Lemma value_headers d f rest l : forallb safe_pair l = true → (length l <= f)%nat →
  read_value (S (S d)) f ("{" +:+ ((header_members true l +:+ "}") +:+ rest)) =
  Some (JObject (map json_pair l), rest).
Proof.
  intros Hs Hf. destruct l as [|[n v] l]; [done|]. rewrite <- str_app_assoc.
  assert (E : ∀ u, read_value (S (S d)) f ("{" +:+ (quote +:+ u)) =
    (r ← read_members f (read_value (S d) f) (quote +:+ u); Some (JObject r.1, r.2))) by done.
  pose proof (read_headers d f rest l (n, v) f Hs ltac:(cbn in Hf; lia)) as R.
  cbn [header_members] in R |- *. change ("" +:+ ?x) with x in R |- *.
  rewrite <- str_app_assoc, quoted_app in R. rewrite <- (str_app_assoc (quoted _)), quoted_app, E, R. done.
Qed.

Lemma plain_base64 s : all_chars plain_char (base64_encode s) = true.
Proof.
  assert (T : ∀ b n, plain_char (b64 b n) = true).
  { intros b n. unfold b64. generalize (Z.to_nat (Z.land (Z.shiftr b n) 63)) as i. intros i.
    destruct (decide (i < 64)%nat) as [Hi|Hi].
    - assert (F : Forall (λ i, plain_char (default (ch "A") (String.get i BASE64_CHARS)) = true) (seq 0 64)).
      { apply (bool_decide_unpack _). by vm_compute. }
      rewrite Forall_forall in F. apply F, elem_of_seq. lia.
    - do 64 (destruct i as [|i]; [lia|]). by destruct i. }
  assert (∀ n u, (String.length u <= n)%nat → all_chars plain_char (base64_encode u) = true) as G; [|by eapply G].
  induction n as [|n IH]; intros u Hu; (destruct u as [|x [|y [|z u]]]; [done|..]); try (cbn in Hu; lia);
    cbn [base64_encode all_chars]; cbv zeta; rewrite !T; [done|done|]. apply IH. cbn in Hu. lia.
Qed.

Lemma read_unsafe s rest : json_safe s = false → read_string (escape_json s +:+ rest) = None.
Proof.
  induction s as [|a s IH]; intros Hs; [done|]. destruct (json_char a) eqn:Ha; [|by apply read_control].
  cbn [json_safe all_chars] in Hs. unfold json_safe in Hs. cbn [all_chars] in Hs. rewrite Ha in Hs.
  rewrite escape_json_cons, <- str_app_assoc, read_escape_char by done. by rewrite IH.
Qed.

(** ** Numbers read back *)

Lemma all_digits_go x s : all_chars is_digit s = true → all_chars is_digit (pretty_N_go x s) = true.
Proof.
  revert s. induction (N.lt_wf_0 x) as [x _ IH]; intros s Hs.
  destruct (decide (x = 0)%N) as [->|Hx]; [by rewrite pretty_N_go_0|].
  rewrite pretty_N_go_step by lia. apply IH; [apply N.div_lt; lia|]. cbn [all_chars]. rewrite Hs, andb_true_r.
  unfold pretty_N_char. by repeat case_match.
Qed.

Lemma pretty_digits_only z : 0 <= z → all_chars is_digit (pretty z) = true.
Proof.
  intros Hz. destruct z as [|p|p]; [done| |lia]. change (pretty (Zpos p)) with (pretty (Npos p)).
  unfold pretty, pretty_N. case_decide; [done|]. by apply all_digits_go.
Qed.

Lemma pretty_go_nonempty x s : s ≠ "" → pretty_N_go x s ≠ "".
Proof.
  revert s. induction (N.lt_wf_0 x) as [x _ IH]; intros s Hs.
  destruct (decide (x = 0)%N) as [->|Hx]; [by rewrite pretty_N_go_0|].
  rewrite pretty_N_go_step by lia. apply IH; [apply N.div_lt; lia|done].
Qed.

Lemma pretty_nonempty z : 0 <= z → pretty z ≠ "".
Proof.
  intros Hz. destruct z as [|p|p]; [done| |lia]. change (pretty (Zpos p)) with (pretty (Npos p)).
  unfold pretty, pretty_N. case_decide; [done|]. rewrite pretty_N_go_step by lia. by apply pretty_go_nonempty.
Qed.

Lemma read_digits s rest : all_chars is_digit s = true → read_number (s +:+ ("," +:+ rest)) = (s, "," +:+ rest).
Proof.
  induction s as [|a s IH]; intros Hs; [done|]. apply andb_true_iff in Hs as [Ha Hs].
  rewrite str_app_cons. cbn [read_number]. by rewrite Ha, IH.
Qed.

(** A text that begins with a digit is none of the other values. *)
Lemma read_value_digit d f a s : is_digit a = true →
  read_value (S d) f (String a s) =
  let r := read_number (String a s) in if is_empty r.1 then None else Some (JNumber r.1, r.2).
Proof. intros Ha. destruct a as [[] [] [] [] [] [] [] []]; try (by vm_compute in Ha); reflexivity. Qed.

Lemma value_number d f z rest : 0 <= z →
  read_value (S d) f (pretty z +:+ ("," +:+ rest)) = Some (JNumber (pretty z), "," +:+ rest).
Proof.
  intros Hz. pose proof (pretty_digits_only z Hz) as Hd. pose proof (pretty_nonempty z Hz) as Hn.
  destruct (pretty z) as [|a s]; [done|]. rewrite str_app_cons.
  rewrite read_value_digit by (by apply andb_true_iff in Hd as [? _]).
  rewrite <- str_app_cons, read_digits by done. reflexivity.
Qed.

(** ** The two objects *)

Section texts.
Context `{HashOrder (list string)}.

(** The body a member stands for. *)
Definition body_of (v : Json) : option (option string) :=
  match v with
  | JNull => Some None
  | JString t => Some <$> base64_decode t
  | _ => None
  end.

Definition body_json (b : option string) : Json := match b with Some b => JString (base64_encode b) | None => JNull end.

Lemma body_of_json b : body_of (body_json b) = Some b.
Proof. destruct b as [b|]; [|done]. cbn. by rewrite (base64_decodes _ b (Nat.le_refl _)). Qed.

(** The text of a body member, before whatever follows. *)
Definition body_text (b : option string) : string :=
  match b with Some b => quoted (base64_encode b) | None => "null" end.

Lemma value_body d f b rest : read_value (S d) f (body_text b +:+ rest) = Some (body_json b, rest).
Proof. destruct b as [b|]; [|done]. apply value_plain, plain_base64. Qed.

Lemma value_object d f s : starts_with "}" s = false →
  read_value (S d) f ("{" +:+ s) = (r ← read_members f (read_value d f) s; Some (JObject r.1, r.2)).
Proof.
  intros Hs. change (read_value (S d) f ("{" +:+ s)) with
    (match expect "}" s with
     | Some s => Some (JObject [], s)
     | None => r ← read_members f (read_value d f) s; Some (JObject r.1, r.2)
     end).
  unfold starts_with in Hs. unfold expect. destruct (strip_prefix "}" s) eqn:E; [|done].
  apply bool_decide_eq_false in Hs. by destruct Hs.
Qed.

(** Reads the next member, whose key is plain, with the lemma [l] for its value. *)
Ltac next_member l := erewrite members_more by (apply member_key; [done|l]).

(** The members of a request's text: five in order, the headers as an object in the
    order of the map, and a body that decodes to the bytes. *)
Lemma request_reads r :
  json_safe (method r) = true → json_safe (url r) = true →
  forallb safe_pair (hfor_each (req_headers r)) = true →
  read_value 3 (5 + length (hfor_each (req_headers r))) (serialize_request_to_json r) =
  Some (JObject [("method", JString (method r)); ("url", JString (url r));
                 ("headers", JObject (map json_pair (hfor_each (req_headers r))));
                 ("body", body_json (req_body r)); ("bodyUsed", JBool (bool_decide (is_Some (req_body r))))], "").
Proof.
  intros Hm Hu Hh. unfold serialize_request_to_json. rewrite value_object by done.
  set (f := (5 + length (hfor_each (req_headers r)))%nat).
  replace f with (S (S (S (S (S (length (hfor_each (req_headers r)))))))) at 1 by (subst f; lia).
  next_member ltac:(by apply value_escaped). next_member ltac:(by apply value_escaped).
  next_member ltac:(unfold headers_object; rewrite <- str_app_assoc; apply value_headers; [done|subst f; lia]).
  destruct (req_body r) as [b|]; rewrite <- str_app_assoc.
  - rewrite <- str_app_assoc. next_member ltac:(apply value_plain, plain_base64).
    rewrite <- str_app_assoc. erewrite members_last; [|apply member_key; done]. done.
  - rewrite <- str_app_assoc. next_member ltac:(done).
    rewrite <- str_app_assoc. erewrite members_last; [|apply member_key; done]. done.
Qed.

(** The members of a response's text. *)
Lemma response_reads r :
  0 <= status r → json_safe (status_text r) = true → forallb safe_pair (hfor_each (resp_headers r)) = true →
  read_value 3 (4 + length (hfor_each (resp_headers r))) (serialize_response_to_json r) =
  Some (JObject [("status", JNumber (pretty (status r))); ("statusText", JString (status_text r));
                 ("headers", JObject (map json_pair (hfor_each (resp_headers r))));
                 ("body", body_json (body r))], "").
Proof.
  intros Hn Ht Hh. unfold serialize_response_to_json. rewrite value_object by done.
  set (f := (4 + length (hfor_each (resp_headers r)))%nat).
  replace f with (S (S (S (S (length (hfor_each (resp_headers r))))))) at 1 by (subst f; lia).
  next_member ltac:(by apply value_number). next_member ltac:(by apply value_escaped).
  next_member ltac:(unfold headers_object; rewrite <- str_app_assoc; apply value_headers; [done|subst f; lia]).
  fold (body_text (body r)). erewrite members_last; [|apply member_key; [done|apply value_body]].
  done.
Qed.

(** C19. The text made of a request is JSON for that request: reading it gives an object of
    the method, the URL, the headers in the order of the map, and a body that decodes to
    the bytes (or null, when there are none), with [bodyUsed] saying which; nothing is left
    over.  It holds of every request whose strings hold no control character besides the
    newline, the carriage return and the tab. *)
Theorem request_text_means_request r :
  json_safe (method r) = true → json_safe (url r) = true →
  forallb safe_pair (hfor_each (req_headers r)) = true →
  ∃ v, read_value 3 (5 + length (hfor_each (req_headers r))) (serialize_request_to_json r) =
    Some (JObject [("method", JString (method r)); ("url", JString (url r));
                   ("headers", JObject (map json_pair (hfor_each (req_headers r))));
                   ("body", v); ("bodyUsed", JBool (bool_decide (is_Some (req_body r))))], "") ∧
    body_of v = Some (req_body r).
Proof. intros. exists (body_json (req_body r)). split; [by apply request_reads|apply body_of_json]. Qed.

(** The same of a response, whose status is the number written. *)
Theorem response_text_means_response r :
  0 <= status r → json_safe (status_text r) = true → forallb safe_pair (hfor_each (resp_headers r)) = true →
  ∃ v, read_value 3 (4 + length (hfor_each (resp_headers r))) (serialize_response_to_json r) =
    Some (JObject [("status", JNumber (pretty (status r))); ("statusText", JString (status_text r));
                   ("headers", JObject (map json_pair (hfor_each (resp_headers r)))); ("body", v)], "") ∧
    body_of v = Some (body r).
Proof. intros. exists (body_json (body r)). split; [by apply response_reads|apply body_of_json]. Qed.

(** "Escapes backslashes, quotes, and control characters": of the control characters
    three only.  A method with another one makes a text that is not JSON, whatever the rest
    of the request and however much is read. *)
Theorem control_character_not_json r d f :
  json_safe (method r) = false → read_value d f (serialize_request_to_json r) = None.
Proof.
  intros Hm. destruct d as [|d]; [done|]. unfold serialize_request_to_json. rewrite value_object by done.
  destruct f as [|f]; [done|]. cbn [read_members].
  assert (E : ∀ value t, read_member value (key "method" +:+ t) = (v ← value t; Some ("method", v.1, v.2))) by done.
  rewrite E, quoted_app. destruct d as [|d]; [done|]. by rewrite read_value_quote, read_unsafe.
Qed.
End texts.

(** ** Concrete texts *)

#[local] Instance demo_order : HashOrder (list string) := plain_order.

Definition demo_request : NanoRequest :=
  mkRequest "GET" "https://example.com/api" "/api"
    (mkHeaders {[ "accept" := ["text/html"; "a\b"] ; "x" := ["1"] ]}) (Some "hello").

Lemma request_text_means_request_witness :
  (json_safe (method demo_request) = true ∧ json_safe (url demo_request) = true ∧
   forallb safe_pair (hfor_each (req_headers demo_request)) = true) ∧
  ∃ v, read_value 3 (5 + length (hfor_each (req_headers demo_request))) (serialize_request_to_json demo_request) =
    Some (JObject [("method", JString (method demo_request)); ("url", JString (url demo_request));
                   ("headers", JObject (map json_pair (hfor_each (req_headers demo_request))));
                   ("body", v); ("bodyUsed", JBool (bool_decide (is_Some (req_body demo_request))))], "") ∧
    body_of v = Some (req_body demo_request).
Proof. split; [by vm_compute|]. by apply (request_text_means_request demo_request). Defined.

Definition demo_response : NanoResponse := mkResponse 404 "Not Found" (mkHeaders {[ "x" := ["1"] ]}) None None None.

Lemma response_text_means_response_witness :
  (0 <= status demo_response ∧ json_safe (status_text demo_response) = true ∧
   forallb safe_pair (hfor_each (resp_headers demo_response)) = true) ∧
  ∃ v, read_value 3 (4 + length (hfor_each (resp_headers demo_response))) (serialize_response_to_json demo_response) =
    Some (JObject [("status", JNumber (pretty (status demo_response))); ("statusText", JString (status_text demo_response));
                   ("headers", JObject (map json_pair (hfor_each (resp_headers demo_response)))); ("body", v)], "") ∧
    body_of v = Some (body demo_response).
Proof. split; [by vm_compute|]. by apply (response_text_means_response demo_response). Defined.

Example unsafe_method : json_safe (String (ascii_of_nat 1) "") = false.
Proof. reflexivity. Qed.
