(* ===== verification/NanoIsolate.v ===== *)
(** * Isolates and their engine: [src/v8/]

    The start of the engine ([platform.rs], [snapshot.rs]), the cached start-up snapshot,
    and [NanoIsolate] ([isolate.rs]): its constructors, its states, its heap limit with the
    callback handed to the engine, and its end.  What the engine holds of an isolate and the
    memory of boxed closures are explicit; [script.rs] is over an engine that compiles and
    runs. *)

From stdpp Require Import base gmap list strings.
From Stdlib Require Import ZArith Lia.
From S2P Require Import Prelude RustString RustList Limits VfsPath VfsIsolate Sliver SliverCache.

Open Scope Z_scope.

(** ** Starting the engine *)

Inductive EngineCall := CInitializePlatform | CInitialize | CDispose | CDisposePlatform.

Inductive PlatformError := AlreadyInitialized | PlatformCreation (why : string) | V8Init (why : string).

(** The statics of [platform.rs] and [snapshot.rs] (two [Once]s), and the calls made to the
    engine, in order. *)
Record Platform := mkPlatform {
  V8_INIT : bool;
  PLATFORM_INITIALIZED : bool;
  SNAPSHOT_V8_INIT : bool;
  GLOBAL_SNAPSHOT : option (list Z);
  engine_calls : list EngineCall;
}.

Definition platform_start : Platform := mkPlatform false false false None [].

Definition initialize_platform (p : Platform) : Platform * result () PlatformError :=
  let p := if V8_INIT p then p
           else mkPlatform true true (SNAPSHOT_V8_INIT p) (GLOBAL_SNAPSHOT p)
                  (engine_calls p ++ [CInitializePlatform; CInitialize]) in
  (p, if PLATFORM_INITIALIZED p then Ok () else Err (PlatformCreation "V8 platform initialization failed")).

Definition shutdown_platform (p : Platform) : Platform * result () PlatformError :=
  if negb (PLATFORM_INITIALIZED p) then (p, Ok ())
  else (mkPlatform (V8_INIT p) (PLATFORM_INITIALIZED p) (SNAPSHOT_V8_INIT p) (GLOBAL_SNAPSHOT p)
          (engine_calls p ++ [CDispose; CDisposePlatform]), Ok ()).

Definition is_initialized (p : Platform) : bool := PLATFORM_INITIALIZED p.

Definition ensure_v8_initialized (p : Platform) : Platform :=
  if SNAPSHOT_V8_INIT p then p
  else mkPlatform (V8_INIT p) (PLATFORM_INITIALIZED p) true (GLOBAL_SNAPSHOT p)
         (engine_calls p ++ [CInitializePlatform; CInitialize]).

(** What every pool does before its first worker. *)
Definition pool_starts_engine (p : Platform) : Platform :=
  if negb (is_initialized p) then (initialize_platform p).1 else p.

(** *** The start-up snapshot *)

Definition from_data (data : list Z) : list Z := data.

(** [read] is [std::fs::read] of the path. *)
Definition from_file (read : result (list Z) string) : result (list Z) string :=
  match read with
  | Err e => Err ("Failed to read snapshot file: " +:+ e)
  | Ok data => if bool_decide (data = []) then Err "Snapshot file is empty" else Ok data
  end.

Definition snapshot_is_valid (data : list Z) : bool := negb (bool_decide (data = [])).

(** [OnceLock::set] *)
Definition set_global_snapshot (p : Platform) (data : list Z) : Platform * result () string :=
  match GLOBAL_SNAPSHOT p with
  | Some _ => (p, Err "Global snapshot already initialized")
  | None => (mkPlatform (V8_INIT p) (PLATFORM_INITIALIZED p) (SNAPSHOT_V8_INIT p) (Some data) (engine_calls p), Ok ())
  end.

Definition init_global_snapshot (p : Platform) (data : list Z) : Platform * result () string :=
  set_global_snapshot p (from_data data).

Definition init_global_snapshot_from_file (p : Platform) (read : result (list Z) string) : Platform * result () string :=
  match from_file read with
  | Ok data => set_global_snapshot p data
  | Err e => (p, Err e)
  end.

Definition is_snapshot_initialized (p : Platform) : bool := bool_decide (is_Some (GLOBAL_SNAPSHOT p)).

Definition is_snapshot_valid (p : Platform) : bool :=
  match GLOBAL_SNAPSHOT p with Some s => snapshot_is_valid s | None => false end.

(** ** What the engine holds of an isolate *)

(** The heap blob it was made from, whether a snapshot can be taken of it, the callback
    that allows WebAssembly, the handles that keep values alive, the callback of the heap
    limit (the address it gets back), and whether termination was asked for. *)
Record EngineIsolate := mkEngineIsolate {
  ei_blob : option (list Z);
  ei_creator : bool;
  ei_default_context : bool;
  ei_allow_wasm : bool;
  ei_globals : Z;
  ei_heap_callback : option Z;
  ei_terminating : bool;
}.

Inductive Release := RSentinel (isolate : Z) | RIsolate (isolate : Z) | RVfs (namespace : string).

(** The isolates alive, the boxes on the Rust heap as the words in them, and what was
    released, in order. *)
Record World := mkWorld {
  w_isolates : gmap Z EngineIsolate;
  w_boxes : gmap Z (list Z);
  w_next : Z;
  w_released : list Release;
}.

Definition set_isolates (f : gmap Z EngineIsolate → gmap Z EngineIsolate) (w : World) : World :=
  mkWorld (f (w_isolates w)) (w_boxes w) (w_next w) (w_released w).

(** [v8::Isolate::new] and [snapshot_creator] *)
Definition engine_isolate (w : World) (blob : option (list Z)) (creator : bool) : Z * World :=
  (w_next w, mkWorld (<[w_next w := mkEngineIsolate blob creator false false 0 None false]> (w_isolates w))
               (w_boxes w) (w_next w + 1) (w_released w)).

Definition allow_wasm_code_generation (i : EngineIsolate) : EngineIsolate :=
  mkEngineIsolate (ei_blob i) (ei_creator i) (ei_default_context i) true (ei_globals i) (ei_heap_callback i) (ei_terminating i).

Definition set_default_context (i : EngineIsolate) : EngineIsolate :=
  mkEngineIsolate (ei_blob i) (ei_creator i) true (ei_allow_wasm i) (ei_globals i) (ei_heap_callback i) (ei_terminating i).

Definition new_global (n : Z) (i : EngineIsolate) : EngineIsolate :=
  mkEngineIsolate (ei_blob i) (ei_creator i) (ei_default_context i) (ei_allow_wasm i) (ei_globals i + n)
    (ei_heap_callback i) (ei_terminating i).

Definition set_heap_callback (a : Z) (i : EngineIsolate) : EngineIsolate :=
  mkEngineIsolate (ei_blob i) (ei_creator i) (ei_default_context i) (ei_allow_wasm i) (ei_globals i) (Some a) (ei_terminating i).

Definition terminate_execution (i : EngineIsolate) : EngineIsolate :=
  mkEngineIsolate (ei_blob i) (ei_creator i) (ei_default_context i) (ei_allow_wasm i) (ei_globals i) (ei_heap_callback i) true.

(** ** [NanoIsolate] *)

Inductive IsolateState := Creating | Ready | Executing | Resetting | Terminated.

#[export] Instance IsolateState_eq_dec : EqDecision IsolateState.
Proof. solve_decision. Defined.

Definition display_state (s : IsolateState) : string :=
  match s with
  | Creating => "Creating" | Ready => "Ready" | Executing => "Executing"
  | Resetting => "Resetting" | Terminated => "Terminated"
  end.

(** The fields; the sentinel is one of the isolate's handles, the VFS its namespace. *)
Record NanoIsolate := mkNano {
  n_isolate : Z;
  n_vfs : string;
  n_state : IsolateState;
  n_creation_thread_id : Z;
  n_heap_limit_bytes : Z;
  n_heap_callback_registered : bool;
}.

(** What the constructors end with. *)
Definition made (id : Z) (ns : string) (s : IsolateState) (thread : Z) : NanoIsolate :=
  mkNano id ns s thread Limits.isolate.HEAP_SIZE_BYTES_PER_ISOLATE false.

Section nano.
Context `{Lowercase}.

(** [total_heap_size] of a new isolate; [is_valid] of start-up data. *)
Context (fresh_heap : Z) (snapshot_valid : list Z → bool).

Definition new_with_vfs (p : Platform) (w : World) (thread : Z) (ns : string) : outcome (NanoIsolate * World) :=
  assert! is_initialized p or "V8 platform must be initialized before creating isolates" in
  assert! negb (is_empty ns) or "VFS namespace must not be empty" in
  let '(id, w) := engine_isolate w None false in
  assert! 0 <? fresh_heap or "isolate must have positive heap size after creation" in
  let w := set_isolates (alter allow_wasm_code_generation id) w in
  let w := set_isolates (alter (new_global 1) id) w in
  assert! (1 <=? Limits.isolate.HEAP_SIZE_BYTES_PER_ISOLATE) &&
          (Limits.isolate.HEAP_SIZE_BYTES_PER_ISOLATE <=? Limits.isolate.HEAP_SIZE_BYTES_MAX) or "value not in range" in
  Done (made id ns Creating thread, w).

Definition new_isolate (p : Platform) (w : World) (thread : Z) : outcome (NanoIsolate * World) :=
  new_with_vfs p w thread (from_hostname "default").

Definition from_v8_isolate (p : Platform) (w : World) (thread id : Z) : outcome (NanoIsolate * World) :=
  assert! is_initialized p or "V8 platform must be initialized before wrapping isolates" in
  Done (made id (from_hostname "default") Creating thread, set_isolates (alter (new_global 1) id) w).

Definition MIN_SNAPSHOT_SIZE : Z := 8.

(** The choice of the blob is [SliverCache.from_snapshot]. *)
Definition restore (p : Platform) (w : World) (thread : Z) (data : list Z) (ns : string) : outcome (NanoIsolate * World) :=
  let! source := SliverCache.from_snapshot snapshot_valid MIN_SNAPSHOT_SIZE (is_initialized p) ns data in
  match source with
  | FreshIsolate => new_with_vfs p w thread ns
  | SnapshotIsolate blob =>
      let '(id, w) := engine_isolate w (Some blob) false in
      let w := set_isolates (alter allow_wasm_code_generation id) w in
      let w := set_isolates (alter (new_global 1) id) w in
      Done (made id ns Ready thread, w)
  end.

Definition snapshot_creator_with_vfs (w : World) (thread : Z) (ns : string) : NanoIsolate * World :=
  let '(id, w) := engine_isolate w None true in
  let w := set_isolates (alter set_default_context id) w in
  let w := set_isolates (alter (new_global 1) id) w in
  (made id ns Creating thread, w).

Definition snapshot_creator (w : World) (thread : Z) : NanoIsolate * World :=
  snapshot_creator_with_vfs w thread (from_hostname "snapshot").
End nano.

(** *** The heap limit *)

(** [Box::into_raw(Box::new(callback))]: the closure itself is in the box, that is the one
    word it captures, the isolate; the address goes to the engine. *)
Definition add_near_heap_limit_callback (n : NanoIsolate) (w : World) (captured : Z) : World :=
  let a := w_next w in
  set_isolates (alter (set_heap_callback a) (n_isolate n))
    (mkWorld (w_isolates w) (<[a := [captured]]> (w_boxes w)) (a + 1) (w_released w)).

Definition set_heap_limits (n : NanoIsolate) (w : World) (min_bytes max_bytes : Z) : NanoIsolate * World :=
  if max_bytes =? 0 then (n, w)
  else
    let n := mkNano (n_isolate n) (n_vfs n) (n_state n) (n_creation_thread_id n) (as_u32 max_bytes)
               (n_heap_callback_registered n) in
    if n_heap_callback_registered n then (n, w)
    else
      let w := add_near_heap_limit_callback n w (n_isolate n) in
      (mkNano (n_isolate n) (n_vfs n) (n_state n) (n_creation_thread_id n) (n_heap_limit_bytes n) true, w).

(** The closure: it ends the execution and leaves the limit. *)
Definition on_near_heap_limit (isolate : Z) (w : World) (current_limit initial_limit : Z) : World * Z :=
  (set_isolates (alter terminate_execution isolate) w, current_limit).

Section trampoline.
(** The code behind a virtual table, on the word its closure captures. *)
Context (vtables : Z → option (Z → World → Z → Z → World * Z)).

(** A word of a box; [None] behind its end. *)
Definition word (w : World) (a : Z) (i : nat) : option Z := words ← w_boxes w !! a; words !! i.

(** [&mut *(data as *mut Box<dyn FnMut(usize, usize) -> usize>)] and the call: two words are
    read, the box of the closure and its virtual table.  [None] is undefined behaviour. *)
Definition trampoline (w : World) (data current initial : Z) : option (World * Z) :=
  closure ← word w data 0;
  vtable ← word w data 1;
  code ← vtables vtable;
  captured ← word w closure 0;
  Some (code captured w current initial).

(** The engine near the limit of an isolate's heap. *)
Definition near_heap_limit (w : World) (id current initial : Z) : option (World * Z) :=
  match w_isolates w !! id ≫= ei_heap_callback with
  | Some a => trampoline w a current initial
  | None => Some (w, current)
  end.
End trampoline.

(** [used_heap_size as u32] *)
Definition heap_used_bytes (used_heap_size : Z) : Z := as_u32 used_heap_size.

(** *** States, threads, the end *)

Definition legal (old new : IsolateState) : bool :=
  match old, new with
  | Creating, Ready | Creating, Terminated => true
  | Ready, Executing | Ready, Terminated => true
  | Executing, Ready | Executing, Resetting | Executing, Terminated => true
  | Resetting, Ready => true
  | _, _ => false
  end.

Definition with_state (s : IsolateState) (n : NanoIsolate) : NanoIsolate :=
  mkNano (n_isolate n) (n_vfs n) s (n_creation_thread_id n) (n_heap_limit_bytes n) (n_heap_callback_registered n).

Definition set_state (n : NanoIsolate) (new_state : IsolateState) : outcome NanoIsolate :=
  assert! legal (n_state n) new_state or
    ("INVALID STATE TRANSITION: " +:+ (display_state (n_state n) +:+ (" -> " +:+ display_state new_state))) in
  Done (with_state new_state n).

Definition assert_thread_affinity (n : NanoIsolate) (current_thread : Z) : outcome () :=
  assert! current_thread =? n_creation_thread_id n or "THREAD AFFINITY VIOLATION" in Done ().

Definition release (r : list Release) (w : World) : World :=
  mkWorld (w_isolates w) (w_boxes w) (w_next w) (w_released w ++ r).

(** [Drop] and the fields after it, in the order of their declaration. *)
Definition drop_isolate (n : NanoIsolate) (w : World) : outcome World :=
  assert! negb (bool_decide (n_state n = Executing)) or "isolate must not be dropped while executing" in
  let w := set_isolates (alter (new_global (-1)) (n_isolate n)) (release [RSentinel (n_isolate n)] w) in
  let w := set_isolates (delete (n_isolate n)) (release [RIsolate (n_isolate n)] w) in
  Done (release [RVfs (n_vfs n)] w).

(** The isolate without its wrapper; [ManuallyDrop] leaves [Drop] out. *)
Definition into_inner (n : NanoIsolate) (w : World) : Z * World :=
  (n_isolate n, release [RSentinel (n_isolate n); RVfs (n_vfs n)] (set_isolates (alter (new_global (-1)) (n_isolate n)) w)).

(** [create_snapshot_from_nano] drops the isolate. *)
Definition create_snapshot_from_nano (n : NanoIsolate) (w : World) : outcome (World * result (list Z) string) :=
  let! w := drop_isolate n w in Done (w, Ok []).

(** ** Scripts: [script.rs] *)

(** The engine: a string of its own from Rust text, compilation, running, and the text of
    a value; each may fail. *)
Class ScriptEngine := {
  Script : Type;
  Value : Type;
  new_string : string → option string;
  compile : string → option Script;
  run : Script → option Value;
  to_text : Value → option string;
}.

Section script.
Context `{ScriptEngine}.

Definition execute_script (code : string) : result string string :=
  match new_string code with
  | None => Err "Failed to create code string"
  | Some code =>
      match compile code with
      | None => Err "Script compilation failed"
      | Some script =>
          match v ← run script; to_text v with
          | Some s => Ok s
          | None => Err "Script execution failed or returned None"
          end
      end
  end.

(** The line [console.log] prints, if any: the arguments that have a text. *)
Definition console_log_callback (args : list Value) : option string :=
  let output := omap to_text args in
  if bool_decide (output = []) then None else Some (join " " output).

(** A result comes from a script that compiled, ran and has a text. *)
Lemma execute_script_ok code s : execute_script code = Ok s ↔
  ∃ t script v, new_string code = Some t ∧ compile t = Some script ∧ run script = Some v ∧ to_text v = Some s.
Proof.
  unfold execute_script. split.
  - destruct (new_string code) as [t|]; [|done]. destruct (compile t) as [c|] eqn:Ec; [|done].
    destruct (run c) as [v|] eqn:Er; [|done]. cbn. destruct (to_text v) eqn:Et; [|done]. intros [= ->].
    by exists t, c, v.
  - intros (t & c & v & -> & -> & -> & E). cbn. by rewrite E.
Qed.
End script.

(** ** The engine is started once *)

Inductive PlatformOp :=
| OInitialize | OPool | OEnsure | OShutdown
| OSnapshot (data : list Z) | OSnapshotFile (read : result (list Z) string).

Definition platform_op (p : Platform) (o : PlatformOp) : Platform :=
  match o with
  | OInitialize => (initialize_platform p).1
  | OPool => pool_starts_engine p
  | OEnsure => ensure_v8_initialized p
  | OShutdown => (shutdown_platform p).1
  | OSnapshot data => (init_global_snapshot p data).1
  | OSnapshotFile read => (init_global_snapshot_from_file p read).1
  end.

Definition is_start (c : EngineCall) : bool := match c with CInitialize => true | _ => false end.
Definition starts (p : Platform) : nat := length (List.filter is_start (engine_calls p)).

Lemma starts_more c l : length (List.filter is_start (c ++ l)) =
  (length (List.filter is_start c) + length (List.filter is_start l))%nat.
Proof. by rewrite List.filter_app, length_app. Qed.

(** The engine is started once for each [Once] that has run, and the flag of [platform.rs]
    is its [Once]. *)
Definition platform_ok (p : Platform) : Prop :=
  PLATFORM_INITIALIZED p = V8_INIT p ∧ starts p = (Nat.b2n (V8_INIT p) + Nat.b2n (SNAPSHOT_V8_INIT p))%nat.

Lemma initialize_ok p : platform_ok p →
  platform_ok (initialize_platform p).1 ∧ (initialize_platform p).2 = Ok () ∧
  V8_INIT (initialize_platform p).1 = true ∧ SNAPSHOT_V8_INIT (initialize_platform p).1 = SNAPSHOT_V8_INIT p.
Proof.
  destruct p as [[] i s g c]; intros [E1 E2]; cbn in E1, E2; subst i; cbn; [done|].
  split_and!; try done. split; [done|]. unfold starts in *; cbn in *.
  rewrite starts_more, E2. cbn. lia.
Qed.

Lemma set_global_ok p d : platform_ok p → platform_ok (set_global_snapshot p d).1 ∧
  V8_INIT (set_global_snapshot p d).1 = V8_INIT p ∧ SNAPSHOT_V8_INIT (set_global_snapshot p d).1 = SNAPSHOT_V8_INIT p.
Proof. unfold set_global_snapshot. by destruct p as [? ? ? [] ?]. Qed.

Lemma platform_op_ok p o : platform_ok p → platform_ok (platform_op p o).
Proof.
  intros Hp. destruct o as [| | | |d|r]; cbn [platform_op].
  - by apply initialize_ok.
  - unfold pool_starts_engine. destruct (negb _); [by apply initialize_ok|done].
  - unfold ensure_v8_initialized. destruct p as [v i [] g c]; [done|]. destruct Hp as [E1 E2]. split; [done|].
    unfold starts in *; cbn in *. rewrite starts_more, E2. cbn. lia.
  - unfold shutdown_platform. destruct p as [v i s g c]. cbn. destruct i; [|done]. destruct Hp as [E1 E2]. split; [done|].
    unfold starts in *; cbn in *. rewrite starts_more, E2. cbn. lia.
  - by apply set_global_ok.
  - unfold init_global_snapshot_from_file. destruct (from_file r); [by apply set_global_ok|done].
Qed.

(** Whatever is called, and however often, the engine is started at most once by the
    platform module and at most once by the snapshot module; a start asked for always
    succeeds afterwards and is never repeated. *)
Theorem engine_started_once ops :
  let p := foldl platform_op platform_start ops in
  starts p = (Nat.b2n (V8_INIT p) + Nat.b2n (SNAPSHOT_V8_INIT p))%nat ∧
  (initialize_platform p).2 = Ok () ∧ is_initialized (initialize_platform p).1 = true ∧
  initialize_platform (initialize_platform p).1 = ((initialize_platform p).1, Ok ()) ∧
  (is_initialized p = true → pool_starts_engine p = p ∧ (initialize_platform p).1 = p).
Proof.
  cbv zeta. assert (Hp : platform_ok (foldl platform_op platform_start ops)).
  { assert (G : ∀ p, platform_ok p → platform_ok (foldl platform_op p ops)); [|by apply G].
    induction ops as [|o ops IH]; intros p Hp; [done|]. by apply IH, platform_op_ok. }
  set (p := foldl platform_op platform_start ops) in *. pose proof (initialize_ok p Hp) as (H1 & H2 & H3 & _).
  split_and!; [apply Hp|done| | |].
  - unfold is_initialized. destruct H1 as [E _]. by rewrite E.
  - unfold initialize_platform at 1. rewrite H3. destruct H1 as [E _]. by rewrite E, H3.
  - unfold is_initialized, pool_starts_engine. intros Hi. unfold is_initialized. rewrite Hi. split; [done|].
    destruct Hp as [E _]. unfold initialize_platform. rewrite <- E, Hi. done.
Qed.

(** Both modules start it: two starts in one process. *)
Example two_starts :
  engine_calls (foldl platform_op platform_start [OInitialize; OEnsure]) =
  [CInitializePlatform; CInitialize; CInitializePlatform; CInitialize].
Proof. reflexivity. Qed.

(** After the shutdown the engine still counts as initialized, and is not started again. *)
Example initialized_after_shutdown :
  let p := foldl platform_op platform_start [OInitialize; OShutdown] in
  is_initialized p = true ∧ initialize_platform p = (p, Ok ()).
Proof. by split. Qed.

(** ** Constructors *)

Section made.
Context `{Lowercase} (fresh_heap : Z) (snapshot_valid : list Z → bool).

(** The isolate a constructor leaves in the engine. *)
Definition standing (blob : option (list Z)) (creator : bool) : EngineIsolate :=
  mkEngineIsolate blob creator creator (negb creator) 1 None false.

Definition with_isolate (w : World) (i : EngineIsolate) : World :=
  mkWorld (<[w_next w := i]> (w_isolates w)) (w_boxes w) (w_next w + 1) (w_released w).

Lemma new_with_vfs_made p w thread ns : is_initialized p = true → ns ≠ "" → 0 < fresh_heap →
  new_with_vfs fresh_heap p w thread ns =
  Done (made (w_next w) ns Creating thread, with_isolate w (standing None false)).
Proof.
  intros Hp Hns Hf. unfold new_with_vfs. rewrite assert_true by done.
  rewrite assert_true by (by apply negb_true_iff, is_empty_false). cbn [engine_isolate].
  rewrite assert_true by (by apply Z.ltb_lt). rewrite assert_true by done. unfold set_isolates, with_isolate. cbn.
  by rewrite !alter_insert_eq.
Qed.

(** What a heap blob gives.  With the engine started and a namespace, an isolate
    always: the one of the blob, ready at once, when the blob begins with the engine's
    mark, is as long as it must be and is accepted, and a fresh one in the state of one being
    created otherwise; either way with WebAssembly allowed and with the handle that keeps
    its pointer table.  Without one of the two the process ends. *)
Theorem restore_exact p w thread data ns : 0 < fresh_heap →
  restore fresh_heap snapshot_valid p w thread data ns =
  if negb (is_initialized p) then Panicked "V8 platform must be initialized before creating isolates from snapshots"
  else if is_empty ns then Panicked "VFS namespace must not be empty"
  else Done
    (if bool_decide (take 4 data = V8_SNAPSHOT_MAGIC) && (8 <=? len data) && snapshot_valid data
     then (made (w_next w) ns Ready thread, with_isolate w (standing (Some data) false))
     else (made (w_next w) ns Creating thread, with_isolate w (standing None false))).
Proof.
  intros Hf. unfold restore, from_snapshot. destruct (is_initialized p) eqn:Hp; [|done]. rewrite assert_true by done.
  destruct (is_empty ns) eqn:Hns; [done|]. rewrite assert_true by done. apply is_empty_false in Hns. cbn [outcome_bind negb].
  assert (F : new_with_vfs fresh_heap p w thread ns =
    Done (made (w_next w) ns Creating thread, with_isolate w (standing None false))) by by apply new_with_vfs_made.
  destruct (decide (data = as_bytes "NANO_SNAPSHOT_PLACEHOLDER_V1")) as [->|Hd].
  { rewrite bool_decide_true by done. by rewrite F. }
  rewrite (bool_decide_false _ Hd). unfold MIN_SNAPSHOT_SIZE.
  destruct (len data <? 8) eqn:Hl.
  { replace (8 <=? len data) with false by lia. by rewrite andb_false_r, F. }
  replace (8 <=? len data) with true by lia. replace (4 <=? len data) with true by lia.
  destruct (bool_decide (take 4 data = V8_SNAPSHOT_MAGIC)); cbn [andb negb]; [|by rewrite F].
  destruct (snapshot_valid data); cbn [negb]; [|by rewrite F].
  unfold engine_isolate, set_isolates, with_isolate. cbn. by rewrite !alter_insert_eq.
Qed.
End made.

(** ** States *)

Fixpoint set_states (n : NanoIsolate) (l : list IsolateState) : outcome NanoIsolate :=
  match l with
  | [] => Done n
  | s :: l => let! n := set_state n s in set_states n l
  end.

(** A life: the states after the first, as the diagram of the module has them.  [LReady]
    is what can follow a ready isolate, [LBusy] an executing one, [LReset] one being reset. *)
Inductive life : IsolateState → list IsolateState → Prop :=
| life_end s : life s []
| life_created l : life Ready l → life Creating (Ready :: l)
| life_failed : life Creating [Terminated]
| life_serves l : life Executing l → life Ready (Executing :: l)
| life_stops : life Ready [Terminated]
| life_returns l : life Ready l → life Executing (Ready :: l)
| life_resets l : life Resetting l → life Executing (Resetting :: l)
| life_killed : life Executing [Terminated]
| life_recycled l : life Ready l → life Resetting (Ready :: l).

Lemma life_cons s t l : life s (t :: l) ↔ legal s t = true ∧ life t l.
Proof.
  split.
  - inversion 1; subst; (split; [done|]); by constructor || done.
  - intros [Hs Hl]. destruct s, t; try done; try (by constructor); inversion Hl; subst; constructor.
Qed.

Lemma set_states_life l : ∀ n n', set_states n l = Done n' ↔
  life (n_state n) l ∧ n' = with_state (default (n_state n) (last l)) n.
Proof.
  induction l as [|s l IH]; intros n n'; cbn [set_states].
  - split; [intros [= <-]; split; [constructor|by destruct n]|intros [_ ->]; by destruct n].
  - rewrite life_cons. unfold set_state, assert_that. destruct (legal (n_state n) s) eqn:E; cbn [outcome_bind]; [|naive_solver].
    rewrite IH. cbn [n_state with_state]. destruct l as [|t l]; [naive_solver|].
    change (last (s :: t :: l)) with (last (t :: l)). destruct (last (t :: l)) as [u|] eqn:El; [naive_solver|].
    by apply last_None in El.
Qed.

(** C18. The states an isolate can go through are the lives of the diagram: a sequence of
    changes is let through exactly when it is one, and leaves the isolate in its last state
    with everything else as it was.  At the end of a life the isolate can be dropped
    exactly when it is not executing; a terminated one takes no further state. *)
Theorem lives_exact n l n' s w :
  (set_states n l = Done n' ↔ life (n_state n) l ∧ n' = with_state (default (n_state n) (last l)) n) ∧
  (n_state n = Terminated → is_done (set_state n s) = false) ∧
  (is_done (drop_isolate n w) = false ↔ n_state n = Executing).
Proof.
  split_and!; [apply set_states_life| |].
  - intros E. unfold set_state. rewrite E. by destruct s.
  - unfold drop_isolate, assert_that. by destruct (n_state n).
Qed.

(** An executing isolate came from a ready one, and one being reset from an executing one. *)
Lemma life_order s l i : life s l →
  (l !! S i = Some Executing → l !! i = Some Ready) ∧ (l !! S i = Some Resetting → l !! i = Some Executing) ∧
  (l !! i = Some Terminated → l !! S i = None).
Proof.
  revert s i. induction l as [|a l IH]; intros s i Hl; [done|]. apply life_cons in Hl as [_ Hl].
  destruct i as [|i]; [|by apply (IH a)]. destruct l as [|b l]; [done|]. apply life_cons in Hl as [Hb _].
  cbn. by destruct a, b.
Qed.

(** ** The end *)

(** Dropping an isolate releases its handle first, then the isolate, and the file system
    last, after the isolate; taking the isolate out releases handle and file system, leaves
    the isolate alive, and does so even in the middle of an execution. *)
Theorem release_order n w : n_state n ≠ Executing →
  (∃ w', drop_isolate n w = Done w' ∧
    w_released w' = w_released w ++ [RSentinel (n_isolate n); RIsolate (n_isolate n); RVfs (n_vfs n)] ∧
    w_isolates w' = delete (n_isolate n) (w_isolates w) ∧ w_boxes w' = w_boxes w) ∧
  (∀ s, let '(id, w') := into_inner (with_state s n) w in
    id = n_isolate n ∧ w_released w' = w_released w ++ [RSentinel id; RVfs (n_vfs n)] ∧
    dom (w_isolates w') = dom (w_isolates w)).
Proof.
  intros Hs. split.
  - unfold drop_isolate. rewrite assert_true by by apply negb_true_iff, bool_decide_false.
    eexists. split; [done|]. cbn. split_and!; [by rewrite <- !app_assoc| |done].
    by rewrite delete_alter_eq.
  - intros s. cbn. split_and!; try done. apply dom_alter_L.
Qed.

(** ** The heap limit *)

Fixpoint set_limits (n : NanoIsolate) (w : World) (l : list (Z * Z)) : NanoIsolate * World :=
  match l with
  | [] => (n, w)
  | (lo, hi) :: l => let '(n, w) := set_heap_limits n w lo hi in set_limits n w l
  end.

(** The limits that count: those that are not zero. *)
Definition limits_set (l : list (Z * Z)) : list Z := List.filter (λ m, negb (m =? 0)) (map snd l).

Lemma limits_set_cons lo hi l : limits_set ((lo, hi) :: l) = if hi =? 0 then limits_set l else hi :: limits_set l.
Proof. unfold limits_set. cbn [map snd List.filter]. by destruct (hi =? 0). Qed.

Lemma set_limits_registered l : ∀ n w, n_heap_callback_registered n = true →
  set_limits n w l =
  (mkNano (n_isolate n) (n_vfs n) (n_state n) (n_creation_thread_id n)
     (default (n_heap_limit_bytes n) (as_u32 <$> last (limits_set l))) true, w).
Proof.
  induction l as [|[lo hi] l IH]; intros n w Hn; [by destruct n; cbn in Hn; subst|].
  rewrite limits_set_cons. cbn [set_limits]. unfold set_heap_limits. destruct (hi =? 0); [by apply IH|].
  cbn [n_heap_callback_registered]. rewrite Hn, IH by done. cbn [n_isolate n_vfs n_state n_creation_thread_id n_heap_limit_bytes].
  f_equal. f_equal. destruct (limits_set l) as [|m ms] eqn:E; [done|].
  change (last (hi :: m :: ms)) with (last (m :: ms)). destruct (last (m :: ms)) eqn:El; [done|]. by apply last_None in El.
Qed.

(** The limits set for an isolate, in any number and of any size: the one stored is the
    last that is not zero, cut to 32 bits, the lower bounds do not matter; the engine gets
    one callback, with the first of them, and learns nothing else. *)
Lemma heap_limits_to n w l : n_heap_callback_registered n = false →
  set_limits n w l =
  (mkNano (n_isolate n) (n_vfs n) (n_state n) (n_creation_thread_id n)
     (default (n_heap_limit_bytes n) (as_u32 <$> last (limits_set l))) (negb (bool_decide (limits_set l = []))),
   if bool_decide (limits_set l = []) then w else add_near_heap_limit_callback n w (n_isolate n)).
Proof.
  revert n w. induction l as [|[lo hi] l IH]; intros n w Hn; [by destruct n; cbn in Hn; subst|].
  rewrite limits_set_cons. cbn [set_limits]. unfold set_heap_limits. destruct (hi =? 0); [by apply IH|].
  cbn [n_heap_callback_registered]. rewrite Hn. rewrite set_limits_registered by done.
  rewrite bool_decide_false by done. cbn [n_isolate n_vfs n_state n_creation_thread_id n_heap_limit_bytes negb].
  f_equal. f_equal. destruct (limits_set l) as [|m ms] eqn:E; [done|].
  change (last (hi :: m :: ms)) with (last (m :: ms)). destruct (last (m :: ms)) eqn:El; [done|]. by apply last_None in El.
Qed.

(** A limit of 4 GiB is stored as none at all. *)
Example four_gigabytes n w :
  n_heap_limit_bytes (set_heap_limits n w (2 * two32) (2 ^ 32)).1 = 0.
Proof. unfold set_heap_limits. cbn [Z.eqb]. by destruct (n_heap_callback_registered n). Qed.

(** C21. The callback cannot be called.  The engine gets the address of a box that holds the
    closure itself, one word; the function it calls there reads a box of a closure, two
    words, so the virtual table is read behind the end of the box: when the heap of an
    isolate with a limit nears it, the behaviour is undefined, whatever the tables. *)
Theorem heap_callback_undefined vtables n w l i current initial :
  w_isolates w !! n_isolate n = Some i → n_heap_callback_registered n = false → limits_set l ≠ [] →
  near_heap_limit vtables (set_limits n w l).2 (n_isolate n) current initial = None.
Proof.
  intros Hi Hn Hl. rewrite heap_limits_to by done. rewrite bool_decide_false by done. cbn [snd].
  unfold near_heap_limit, add_near_heap_limit_callback, set_isolates. cbn [w_isolates].
  rewrite lookup_alter_eq, Hi. cbn. unfold trampoline, word. cbn. by rewrite lookup_insert_eq.
Qed.

(** What the function expects: a box of a box, whose second word is the closure's table. *)
Lemma boxed_twice_terminates w id a b vtables table current initial i :
  w_isolates w !! id = Some i → ei_heap_callback i = Some a →
  w_boxes w !! a = Some [b; table] → w_boxes w !! b = Some [id] → vtables table = Some on_near_heap_limit →
  near_heap_limit vtables w id current initial =
  Some (set_isolates (alter terminate_execution id) w, current).
Proof.
  intros Hi Hc Ha Hb Hv. unfold near_heap_limit. rewrite Hi. cbn. rewrite Hc. unfold trampoline, word.
  rewrite Ha. cbn. rewrite Hv. cbn. by rewrite Hb.
Qed.

(** *** The isolates of a worker thread *)

Section thread.
Context `{Lowercase} (fresh_heap : Z).

(** One isolate of a pool with a limit of [mb] megabytes: made, limited, dropped. *)
Definition isolate_life (p : Platform) (thread : Z) (ns : string) (mb : Z) (w : World) : outcome World :=
  let! r := new_with_vfs fresh_heap p w thread ns in
  let '(n, w) := if 0 <? mb then let bytes := as_u64 (mb * 1024 * 1024) in set_heap_limits r.1 r.2 (bytes / 2) bytes else r in
  drop_isolate n w.

Fixpoint isolate_lives (k : nat) (p : Platform) (thread : Z) (ns : string) (mb : Z) (w : World) : outcome World :=
  match k with
  | O => Done w
  | S k => let! w := isolate_life p thread ns mb w in isolate_lives k p thread ns mb w
  end.

(** Names and addresses are new. *)
Definition world_ok (w : World) : Prop :=
  (∀ a, w_next w <= a → w_boxes w !! a = None) ∧ (∀ a, w_next w <= a → w_isolates w !! a = None).

(** One life with a limit: no isolate more, the box left behind. *)
Lemma isolate_life_leaks p thread ns mb w :
  is_initialized p = true → ns ≠ "" → 0 < fresh_heap → 0 < mb < two32 → world_ok w →
  ∃ w', isolate_life p thread ns mb w = Done w' ∧ world_ok w' ∧ w_isolates w' = w_isolates w ∧
    size (w_boxes w') = S (size (w_boxes w)) ∧
    w_released w' = w_released w ++ [RSentinel (w_next w); RIsolate (w_next w); RVfs ns].
Proof.
  intros Hp Hns Hf Hmb [Hb Hi]. unfold isolate_life. rewrite new_with_vfs_made by done. cbn [outcome_bind].
  replace (0 <? mb) with true by lia. cbv zeta. unfold set_heap_limits.
  assert (Hz : (as_u64 (mb * 1024 * 1024) =? 0) = false).
  { unfold as_u64, two32, two64 in *. rewrite Z.mod_small by lia. lia. }
  rewrite Hz. cbn [made fst snd n_isolate n_vfs n_state n_creation_thread_id n_heap_callback_registered n_heap_limit_bytes].
  unfold drop_isolate. rewrite assert_true by done. eexists. split; [done|].
  unfold add_near_heap_limit_callback, release, set_isolates, with_isolate, world_ok.
  cbn [w_isolates w_boxes w_next w_released n_isolate n_vfs].
  assert (Ei : delete (w_next w) (alter (new_global (-1)) (w_next w)
    (alter (set_heap_callback (w_next w + 1)) (w_next w) (<[w_next w := standing None false]> (w_isolates w)))) = w_isolates w).
  { rewrite !delete_alter_eq, delete_insert_eq. apply delete_id, Hi. lia. }
  rewrite Ei. split_and!; [| | | |].
  - intros a Ha. rewrite lookup_insert_ne by lia. apply Hb. lia.
  - intros a Ha. apply Hi. lia.
  - done.
  - apply map_size_insert_None. apply Hb. lia.
  - by rewrite <- !app_assoc.
Qed.

(** A worker thread whose isolates have a limit: every isolate is dropped, none ends
    the process, and none is left, but of each a box stays behind for good, so the memory
    of the process grows with the isolates it has recycled. *)
Theorem recycled_isolates_leak k p thread ns mb w :
  is_initialized p = true → ns ≠ "" → 0 < fresh_heap → 0 < mb < two32 → world_ok w →
  ∃ w', isolate_lives k p thread ns mb w = Done w' ∧ w_isolates w' = w_isolates w ∧
    size (w_boxes w') = (size (w_boxes w) + k)%nat ∧
    length (w_released w') = (length (w_released w) + 3 * k)%nat.
Proof.
  intros Hp Hns Hf Hmb. revert w. induction k as [|k IH]; intros w Hw; [by exists w; rewrite !Nat.add_0_r|].
  destruct (isolate_life_leaks p thread ns mb w Hp Hns Hf Hmb Hw) as (w1 & E1 & Hw1 & Ei & Eb & Er).
  destruct (IH w1 Hw1) as (w2 & E2 & Ei2 & Eb2 & Er2). exists w2. cbn [isolate_lives]. rewrite E1. cbn [outcome_bind].
  split_and!; [done|by rewrite Ei2| |].
  - rewrite Eb2, Eb. lia.
  - rewrite Er2, Er, length_app. cbn. lia.
Qed.
End thread.

(** ** Concrete runs *)

Definition world_start : World := mkWorld ∅ ∅ 1 [].
Definition platform_ready : Platform := (initialize_platform platform_start).1.

Lemma restore_exact_witness :
  0 < 1000 ∧
  restore 1000 (λ _, true) platform_ready world_start 7 [215; 60; 215; 60; 1; 2; 3; 4] "app" =
  if negb (is_initialized platform_ready) then Panicked "V8 platform must be initialized before creating isolates from snapshots"
  else if is_empty "app" then Panicked "VFS namespace must not be empty"
  else Done
    (if bool_decide (take 4 [215; 60; 215; 60; 1; 2; 3; 4] = V8_SNAPSHOT_MAGIC) && (8 <=? len [215; 60; 215; 60; 1; 2; 3; 4]) && true
     then (made (w_next world_start) "app" Ready 7, with_isolate world_start (standing (Some [215; 60; 215; 60; 1; 2; 3; 4]) false))
     else (made (w_next world_start) "app" Creating 7, with_isolate world_start (standing None false))).
Proof. split; [done|]. by apply (restore_exact 1000 (λ _, true) platform_ready world_start 7 [215; 60; 215; 60; 1; 2; 3; 4] "app"). Defined.

Definition demo_isolate : NanoIsolate := made 1 "app" Creating 7.
Definition demo_world : World := with_isolate world_start (standing None false).

Lemma release_order_witness :
  n_state demo_isolate ≠ Executing ∧
  (∃ w', drop_isolate demo_isolate demo_world = Done w' ∧
    w_released w' = w_released demo_world ++ [RSentinel (n_isolate demo_isolate); RIsolate (n_isolate demo_isolate); RVfs (n_vfs demo_isolate)] ∧
    w_isolates w' = delete (n_isolate demo_isolate) (w_isolates demo_world) ∧ w_boxes w' = w_boxes demo_world) ∧
  (∀ s, let '(id, w') := into_inner (with_state s demo_isolate) demo_world in
    id = n_isolate demo_isolate ∧ w_released w' = w_released demo_world ++ [RSentinel id; RVfs (n_vfs demo_isolate)] ∧
    dom (w_isolates w') = dom (w_isolates demo_world)).
Proof. split; [done|]. by apply (release_order demo_isolate demo_world). Defined.

Lemma heap_callback_undefined_witness :
  (w_isolates demo_world !! n_isolate demo_isolate = Some (standing None false) ∧
   n_heap_callback_registered demo_isolate = false ∧ limits_set [(50, 100)] ≠ []) ∧
  near_heap_limit (λ _, Some on_near_heap_limit) (set_limits demo_isolate demo_world [(50, 100)]).2
    (n_isolate demo_isolate) 90 100 = None.
Proof.
  split; [done|].
  by apply (heap_callback_undefined (λ _, Some on_near_heap_limit) demo_isolate demo_world [(50, 100)] (standing None false)).
Defined.

Lemma recycled_isolates_leak_witness :
  (is_initialized platform_ready = true ∧ "app" ≠ "" ∧ 0 < 1000 ∧ 0 < 64 < two32 ∧ world_ok world_start) ∧
  ∃ w', isolate_lives 1000 3 platform_ready 7 "app" 64 world_start = Done w' ∧ w_isolates w' = w_isolates world_start ∧
    size (w_boxes w') = (size (w_boxes world_start) + 3)%nat ∧
    length (w_released w') = (length (w_released world_start) + 3 * 3)%nat.
Proof. split; [by split_and!|]. by apply (recycled_isolates_leak 1000 3 platform_ready 7 "app" 64 world_start). Defined.
