(* ===== verification/Globals.v ===== *)
(** * The global objects of programs: [src/runtime/apis.rs]

    What [RuntimeAPIs::bind_all] puts on the global object, and the callbacks behind
    [console], [TextEncoder], [TextDecoder], [crypto.getRandomValues], [performance],
    [structuredClone], [DOMException], [Blob], [FormData] and [Buffer].  Buffers are stores
    in a memory, and views on them share what is written; an exception of the program's own
    conversions stays with the engine, a callback then sees no text or number. *)

From stdpp Require Import base gmap list strings pretty.
From Stdlib Require Import Ascii ZArith Lia SpecFloat.
From S2P Require Import Prelude RustString RustList RustFloat JsObjects Sliver.

Open Scope Z_scope.

(** ** Values *)

(** The element types of the views; [OtherView] are those of floating point and [BigInt]
    elements, by their size. *)
Inductive ViewKind := Int8 | Uint8 | Uint8Clamped | Int16 | Uint16 | Int32 | Uint32 | OtherView (size : nat) | DataView.

(** A view: its store, where it begins there and its bytes; [own_text] for those given a
    [toString] of their own. *)
Record View := mkView { v_kind : ViewKind; v_store : nat; v_offset : nat; v_length : nat; own_text : bool }.

(** [VSymbol] stands for the values whose conversion throws, [VFunction] for functions
    without parameters. *)
Inductive Val :=
| VUndefined
| VNull
| VBool (b : bool)
| VNumber (n : f64)
| VString (s : string)
| VSymbol
| VArray (items : list Val)
| VObject (props : list (string * Val))
| VBuffer (store : nat)
| VView (v : View)
| VFunction (name : string).

Abbreviation Store := (list Z).
Abbreviation Memory := (list Store).

(** The engine: numbers as text and back, a function as text, a string as its UTF-16 units,
    the elements of [OtherView]s as text, the JSON of a value and a value from JSON, bytes as
    text with replacements, whether a buffer of so many bytes can be had (the process ends
    when not), and the texts that are not too long for a string. *)
Class GlobalsEngine := {
  number_text : f64 → string;
  text_number : string → f64;
  function_text : string → string;
  utf16_units : string → list string;
  other_texts : nat → list Z → list string;
  json_stringify : Memory → Val → option string;
  json_parse : string → option Val;
  utf8_lossy : list Z → string;
  allocates : Z → bool;
  string_fits : string → bool;
}.

(** An element of [k] bytes, low byte first, and back. *)
Fixpoint le_value (bs : list Z) : Z := match bs with [] => 0 | b :: bs => b + 256 * le_value bs end.
Fixpoint le_bytes (k : nat) (v : Z) : list Z := match k with O => [] | S k => v mod 256 :: le_bytes k (v / 256) end.

(** The first [n] elements of [k] bytes. *)
Fixpoint elements (n k : nat) (bs : list Z) : list Z :=
  match n with O => [] | S n => le_value (take k bs) :: elements n k (drop k bs) end.

Section globals.
Context `{GlobalsEngine}.

(** The bytes of a view. *)
Definition view_bytes (m : Memory) (v : View) : list Z :=
  take (v_length v) (drop (v_offset v) (default [] (m !! v_store v))).

Definition byte_number (z : Z) : Val := VNumber (f64_of_Z z).

(** The elements of a view. *)
Definition signed (k : nat) (z : Z) : Z := if z <? 2 ^ (8 * Z.of_nat k - 1) then z else z - 2 ^ (8 * Z.of_nat k).

Definition numbers (k : nat) (f : Z → Z) (bs : list Z) : list Val :=
  (λ z, byte_number (f z)) <$> elements (length bs / k) k bs.

Definition view_items (m : Memory) (v : View) : list Val :=
  let bs := view_bytes m v in
  match v_kind v with
  | Int8 => numbers 1 (signed 1) bs
  | Uint8 | Uint8Clamped => numbers 1 id bs
  | Int16 => numbers 2 (signed 2) bs
  | Uint16 => numbers 2 id bs
  | Int32 => numbers 4 (signed 4) bs
  | Uint32 => numbers 4 id bs
  | OtherView k => VString <$> other_texts k bs
  | DataView => []
  end.

Definition item_text (v : Val) : string :=
  match v with VNumber n => number_text n | VString s => s | _ => "" end.

(** [ToString]; a view lists its elements, unless it has a text of its own. *)
Fixpoint to_string (m : Memory) (v : Val) : option string :=
  match v with
  | VUndefined => Some "undefined"
  | VNull => Some "null"
  | VBool b => Some (if b then "true" else "false")
  | VNumber n => Some (number_text n)
  | VString s => Some s
  | VSymbol => None
  | VArray items =>
      join "," <$> mapM (λ v, match v with VUndefined | VNull => Some "" | _ => to_string m v end) items
  | VObject _ => Some "[object Object]"
  | VBuffer _ => Some "[object ArrayBuffer]"
  | VView w =>
      Some (if own_text w then utf8_lossy (view_bytes m w)
            else match v_kind w with DataView => "[object DataView]" | _ => join "," (item_text <$> view_items m w) end)
  | VFunction name => Some (function_text name)
  end.

(** [ToNumber] *)
Definition to_number (m : Memory) (v : Val) : option f64 :=
  match v with
  | VUndefined => Some S754_nan
  | VNull => Some (f64_of_Z 0)
  | VBool b => Some (f64_of_Z (if b then 1 else 0))
  | VNumber n => Some n
  | _ => text_number <$> to_string m v
  end.

(** [as u8], saturating *)
Definition f64_to_u8 (x : f64) : Z := Z.min 255 (f64_to_usize x).

(** [to_object] and reading a property; [None] when there is no object. *)
Definition get (m : Memory) (v : Val) (k : string) : option Val :=
  match v with
  | VUndefined | VNull => None
  | VObject props => Some (default VUndefined (assoc k props))
  | VArray items =>
      Some (if String.eqb k "length" then byte_number (Z.of_nat (length items)) else VUndefined)
  | VString s => Some (if String.eqb k "length" then byte_number (Z.of_nat (length (utf16_units s))) else VUndefined)
  | VView w =>
      Some (match v_kind w with
            | DataView => VUndefined
            | _ => if String.eqb k "length" then byte_number (Z.of_nat (length (view_items m w))) else VUndefined
            end)
  | VFunction _ => Some (if String.eqb k "length" then byte_number 0 else VUndefined)
  | _ => Some VUndefined
  end.

(** The elements [array.get(i)] of an array-like value. *)
Definition element (v : Val) (m : Memory) (i : nat) : Val :=
  match v with
  | VArray items => default VUndefined (items !! i)
  | VString s => from_option VString VUndefined (utf16_units s !! i)
  | VView w => default VUndefined (view_items m w !! i)
  | VObject props => default VUndefined (assoc (pretty (Z.of_nat i)) props)
  | _ => VUndefined
  end.

Definition arg (args : list Val) (i : nat) : Val := default VUndefined (args !! i).

(** ** [console] *)

Inductive Level := LInfo | LWarn | LError.

Definition format_console_args (m : Memory) (args : list Val) : string := join " " (omap (to_string m) args).

Definition console_log_callback (m : Memory) (args : list Val) : Level * string := (LInfo, format_console_args m args).
Definition console_warn_callback (m : Memory) (args : list Val) : Level * string := (LWarn, format_console_args m args).
Definition console_error_callback (m : Memory) (args : list Val) : Level * string := (LError, format_console_args m args).

(** ** Buffers *)

(** [ArrayBuffer::new] with the bytes then copied into it. *)
Definition new_buffer (m : Memory) (bs : list Z) : outcome (Memory * nat) :=
  assert! allocates (Z.of_nat (length bs)) or "out of memory" in Done (m ++ [bs], length m).

(** A [Uint8Array] over all of a new buffer. *)
Definition new_array (m : Memory) (bs : list Z) (own : bool) : outcome (Memory * Val) :=
  let! r := new_buffer m bs in Done (r.1, VView (mkView Uint8 r.2 0 (length bs) own)).

Definition text_encoder_encode (m : Memory) (args : list Val) : outcome (Memory * Val) :=
  match args with
  | [] => new_array m [] false
  | a :: _ => new_array m (as_bytes (default "" (to_string m a))) false
  end.

Definition string_value (s : string) : option Val := if string_fits s then Some (VString s) else None.

Definition text_decoder_decode (m : Memory) (args : list Val) : Val :=
  match args with
  | [] => VString ""
  | a :: _ =>
      let bytes :=
        match a with
        | VView (mkView Uint8 st off n own) => view_bytes m (mkView Uint8 st off n own)
        | VBuffer st => default [] (m !! st)
        | _ => []
        end in
      default VUndefined (string_value (utf8_lossy bytes))
  end.

(** *** [crypto.getRandomValues] *)

(** Bytes written into a store from an offset on. *)
Definition write_at (off : nat) (bs : list Z) (st : Store) : Store :=
  take off st ++ bs ++ drop (off + length bs) st.

(** One branch of the callback; [random] is [getrandom]. *)
Definition fill (k : nat) (random : nat → option (list Z)) (m : Memory) (v : View) : Memory * Val :=
  let length := (v_length v / k)%nat in
  if (length =? 0)%nat then (m, VView v)
  else
    match random (length * k)%nat with
    | None => (m, VUndefined)
    | Some buffer =>
        (alter (write_at (v_offset v) (concat (le_bytes k <$> elements length k buffer))) (v_store v) m, VView v)
    end.

Definition crypto_get_random_values (random : nat → option (list Z)) (m : Memory) (args : list Val) : Memory * Val :=
  match args with
  | VView v :: _ =>
      match v_kind v with
      | Uint8 => fill 1 random m v
      | Uint16 => fill 2 random m v
      | Uint32 => fill 4 random m v
      | _ => (m, VUndefined)
      end
  | _ => (m, VUndefined)
  end.

(** *** [Buffer] *)

Definition buffer_constructor (m : Memory) (args : list Val) : outcome (Memory * Val) :=
  let size :=
    match args with
    | [] => 0
    | a :: _ =>
        match to_number m a with
        | Some n => f64_to_usize n
        | None => match to_string m a with Some s => slen s | None => 0 end
        end
    end in
  new_array m (replicate (Z.to_nat size) 0) true.

(** A digit of base 16. *)
Definition hex_digit (a : ascii) : option Z :=
  let c := Z.of_N (N_of_ascii a) in
  if (48 <=? c) && (c <=? 57) then Some (c - 48)
  else if (97 <=? c) && (c <=? 102) then Some (c - 87)
  else if (65 <=? c) && (c <=? 70) then Some (c - 55)
  else None.

(** [u8::from_str_radix(pair, 16)] of two characters: a plus sign may be in front. *)
Definition hex_pair (a b : ascii) : option Z :=
  if char_eqb a (ch "+") then hex_digit b
  else x ← hex_digit a; y ← hex_digit b; Some (16 * x + y).

(** The pairs of a text that are numbers; a last character alone is none. *)
Fixpoint hex_bytes (s : string) : list Z :=
  match s with
  | String a (String b s) => match hex_pair a b with Some z => z :: hex_bytes s | None => hex_bytes s end
  | _ => []
  end.

(** The bytes of the elements of an array; those without a number stay zero. *)
Definition array_bytes (m : Memory) (items : list Val) : list Z :=
  (λ v, match to_number m v with Some n => f64_to_u8 n | None => 0 end) <$> items.

Definition buffer_from_callback (m : Memory) (args : list Val) : outcome (Memory * Val) :=
  match arg args 0 with
  | VBuffer st => new_array m (default [] (m !! st)) true
  | VView v => new_array m (view_bytes m v) true
  | VArray items => new_array m (array_bytes m items) true
  | VString text =>
      let encoding :=
        if (1 <? length args)%nat then from_option ascii_lowercase "utf8" (to_string m (arg args 1)) else "utf8" in
      new_array m (if String.eqb encoding "hex" then hex_bytes text else as_bytes text) true
  | _ => new_array m [] true
  end.

Definition number_or_zero (m : Memory) (args : list Val) (i : nat) : option f64 :=
  if (i <? length args)%nat then to_number m (arg args i) else None.

Definition buffer_alloc_callback (m : Memory) (args : list Val) : outcome (Memory * Val) :=
  let size := from_option f64_to_usize 0 (number_or_zero m args 0) in
  let fill_value := from_option f64_to_u8 0 (number_or_zero m args 1) in
  new_array m (replicate (Z.to_nat size) fill_value) true.

Definition buffer_tostring_callback (m : Memory) (this : Val) : Val :=
  match this with
  | VView (mkView Uint8 st off n own) =>
      default (VString "") (string_value (utf8_lossy (view_bytes m (mkView Uint8 st off n own))))
  | _ => VString ""
  end.

(** ** The other objects *)

(** [PERFORMANCE_BASELINE] and [performance.now]: milliseconds from nanoseconds. *)
Definition bind_performance (baseline : option Z) (now : Z) : option Z :=
  match baseline with None => Some now | b => b end.

Definition performance_now (baseline : option Z) (now : Z) : f64 :=
  match baseline with
  | Some base => f64_div (f64_of_Z (sat_sub now base)) (f64_of_Z 1000000)
  | None => f64_of_Z 0
  end.

Definition structured_clone (m : Memory) (args : list Val) : Val :=
  match args with
  | [] => VUndefined
  | value :: _ =>
      match json_stringify m value with
      | Some json => match json_parse json with Some cloned => cloned | None => value end
      | None => value
      end
  end.

(** The constructors set properties of [this], here those it has. *)
Definition dom_exception_constructor (m : Memory) (this : list (string * Val)) (args : list Val) : list (string * Val) :=
  let message := match args with a :: _ => default "" (to_string m a) | [] => "" end in
  let name := match args with _ :: n :: _ => default "Error" (to_string m n) | _ => "Error" end in
  assoc_set "stack" (VString ("DOMException: " +:+ message))
    (assoc_set "name" (VString name) (assoc_set "message" (VString message) this)).

(** The texts of the parts of a blob. *)
Definition blob_parts (m : Memory) (args : list Val) : list string :=
  match args with
  | [] => []
  | a :: _ =>
      match l ← get m a "length"; to_number m l with
      | Some n => omap (λ i, to_string m (element a m i)) (seq 0 (Z.to_nat (f64_to_usize n)))
      | None => []
      end
  end.

Definition blob_constructor (m : Memory) (this : list (string * Val)) (args : list Val) : list (string * Val) :=
  let parts := blob_parts m args in
  let total_size := foldl (λ n p, n + slen p) 0 parts in
  let blob_type :=
    match args with
    | _ :: options :: _ => match t ← get m options "type"; to_string m t with Some t => t | None => "" end
    | _ => ""
    end in
  assoc_set "__blob_parts__" (VString (join "" parts))
    (assoc_set "type" (VString blob_type) (assoc_set "size" (VNumber (f64_of_Z total_size)) this)).

Definition form_data_constructor (this : list (string * Val)) : list (string * Val) :=
  assoc_set "__form_data__" (VString "{}") this.
End globals.

(** ** The global object *)

(** A property with a value, or one with the functions that read and write it. *)
Inductive Property :=
| mkProperty (value : Val) (writable enumerable configurable : bool)
| mkAccessor (getter setter : option string) (enumerable configurable : bool).
Abbreviation Global := (gmap string Property).

Definition p_value (p : Property) : option Val :=
  match p with mkProperty v _ _ _ => Some v | mkAccessor _ _ _ _ => None end.
Definition p_writable (p : Property) : bool :=
  match p with mkProperty _ w _ _ => w | mkAccessor _ _ _ _ => false end.
Definition p_enumerable (p : Property) : bool :=
  match p with mkProperty _ _ e _ | mkAccessor _ _ e _ => e end.
Definition p_configurable (p : Property) : bool :=
  match p with mkProperty _ _ _ c | mkAccessor _ _ _ c => c end.

(** Writing a property: a new one is writable, enumerable and configurable; one that cannot
    be written stays, and so does one with a setter, whose own writes are operations of
    their own. *)
Definition global_set (k : string) (v : Val) (g : Global) : Global :=
  match g !! k with
  | Some p => if p_writable p then <[k := mkProperty v true (p_enumerable p) (p_configurable p)]> g else g
  | None => <[k := mkProperty v true true true]> g
  end.

Definition global_delete (k : string) (g : Global) : Global :=
  match g !! k with
  | Some p => if p_configurable p then base.delete k g else g
  | None => g
  end.

Definition is_data (p : Property) : bool := match p with mkProperty _ _ _ _ => true | mkAccessor _ _ _ _ => false end.

(** What is done with the global object: [global.set], [delete] and [define_property] with
    all attributes. *)
Inductive GlobalOp := GSet (k : string) (v : Val) | GDelete (k : string) | GDefine (k : string) (d : Property).

(** [define_property]; of a property that cannot be configured only the value of a
    writable one can still be changed, and it can be made read-only. *)
Definition global_define (k : string) (d : Property) (g : Global) : Global :=
  match g !! k with
  | Some p =>
      if p_configurable p then <[k := d]> g
      else if p_writable p && is_data d && negb (p_configurable d) && Bool.eqb (p_enumerable d) (p_enumerable p)
      then <[k := d]> g
      else g
  | None => <[k := d]> g
  end.

Definition global_op (g : Global) (o : GlobalOp) : Global :=
  match o with
  | GSet k v => global_set k v g
  | GDelete k => global_delete k g
  | GDefine k d => global_define k d g
  end.

Definition bind_names (l : list (string * string)) (g : Global) : Global :=
  foldl (λ g e, global_set e.1 (VFunction e.2) g) g l.

(** An object of functions; its members are the names on the right. *)
Definition members (l : list (string * string)) : Val := VObject ((λ e, (e.1, VFunction e.2)) <$> l).

Definition bind_console (g : Global) : Global :=
  global_set "console" (members [("log", "console_log_callback"); ("warn", "console_warn_callback");
                                 ("error", "console_error_callback")]) g.

Definition subtle_members : list (string * string) :=
  [("generateKey", "subtle_generate_key"); ("importKey", "subtle_import_key"); ("exportKey", "subtle_export_key");
   ("encrypt", "subtle_encrypt"); ("decrypt", "subtle_decrypt"); ("sign", "subtle_sign"); ("verify", "subtle_verify");
   ("digest", "subtle_digest"); ("deriveBits", "subtle_derive_bits"); ("deriveKey", "subtle_derive_key")].

Definition bind_crypto (g : Global) : Global :=
  global_set "crypto" (VObject [("getRandomValues", VFunction "crypto_get_random_values"); ("subtle", members subtle_members)]) g.

Definition bind_performance_object (g : Global) : Global :=
  global_set "performance" (members [("now", "performance_now")]) g.

(** Constructors and functions; what is on their prototypes is left out. *)
Definition bind_text_encoder (g : Global) : Global := bind_names [("TextEncoder", "text_encoder_constructor")] g.
Definition bind_text_decoder (g : Global) : Global := bind_names [("TextDecoder", "text_decoder_constructor")] g.
Definition bind_structured_clone (g : Global) : Global := bind_names [("structuredClone", "structured_clone")] g.
Definition bind_dom_exception (g : Global) : Global := bind_names [("DOMException", "dom_exception_constructor")] g.
Definition bind_blob (g : Global) : Global := bind_names [("Blob", "blob_constructor")] g.
Definition bind_form_data (g : Global) : Global := bind_names [("FormData", "form_data_constructor")] g.
Definition bind_headers (g : Global) : Global := bind_names [("Headers", "headers_constructor")] g.
Definition bind_response (g : Global) : Global := bind_names [("Response", "response_constructor")] g.
Definition bind_buffer (g : Global) : Global := bind_names [("Buffer", "buffer_constructor")] g.

Definition bind_fetch (state_made : bool) (g : Global) : Global :=
  if state_made then bind_names [("fetch", "fetch_callback")] g else g.

Definition bind_nano_fs (g : Global) : Global := global_set "Nano" (VObject [("fs", VObject [])]) g.

Definition bind_fs_polyfill (g : Global) : Global :=
  bind_names [("require", "require_callback")] (global_set "_nano_fs" (VObject []) g).

Definition bind_websocket_pair (g : Global) : Global :=
  bind_names [("WebSocketPair", "websocket_pair_constructor"); ("WebSocket", "websocket_client_constructor")] g.

Definition bind_url (g : Global) : Global :=
  bind_names [("URLSearchParams", "url_search_params_constructor"); ("URL", "url_constructor")] g.

(** [Request] is made when there is none that is a function. *)
Definition bind_request (g : Global) : Global :=
  match g !! "Request" with
  | Some (mkProperty (VFunction _) _ _ _) => g
  | _ => bind_names [("Request", "request_constructor_callback")] g
  end.

Definition bind_timers (g : Global) : Global :=
  bind_names [("setTimeout", "set_timeout_callback"); ("setInterval", "set_interval_callback");
              ("clearTimeout", "clear_timeout_callback"); ("clearInterval", "clear_interval_callback")] g.

Definition bind_streams (g : Global) : Global :=
  bind_names [("ReadableStream", "readable_stream_constructor"); ("ReadableStreamDefaultReader", "reader_constructor");
              ("WritableStream", "writable_stream_constructor"); ("WritableStreamDefaultWriter", "writer_constructor")] g.

Definition blocked : Val := VFunction "function_constructor_blocked".

Definition function_constructor_blocked : string := "Function constructor is not allowed in this context".

Definition bind_security_hardening (g : Global) : Global :=
  global_define "Function" (mkProperty blocked false false false) (global_delete "eval" g).

(** [WebAssemblyAPI::bind]: the engine's own object gets a [validate] of the runtime, and
    the script [WASM_CACHE_POLYFILL] replaces [compile] and [instantiate] in it; the
    property itself is not written.  Without an object there is nothing to write to.  (The
    [panic] is for a property that cannot be read, which one with a value always can.) *)
Definition wasm_members : list (string * string) :=
  [("validate", "wasm_validate_callback"); ("compile", "cached_compile"); ("instantiate", "cached_instantiate")].

Definition bind_wasm (g : Global) : Global :=
  match g !! "WebAssembly" with
  | Some (mkProperty (VObject props) w e c) =>
      let props := foldl (λ ps m, assoc_set m.1 (VFunction m.2) ps) props wasm_members in
      <["WebAssembly" := mkProperty (VObject props) w e c]> g
  | _ => g
  end.

(** [boolean_value] *)
Definition boolean_value (v : Val) : bool :=
  match v with
  | VUndefined | VNull => false
  | VBool b => b
  | VNumber n => match n with S754_zero _ | S754_nan => false | _ => true end
  | VString s => negb (is_empty s)
  | _ => true
  end.

Definition LOADED_MARKER : string := "__nano_node_compat_loaded".

(** What the scripts of the Node layer do with the global object, and whether all of them
    ran to their end; the first that fails ends the binding. *)
Record NodeScripts := mkScripts { script_ops : list GlobalOp; scripts_ran : bool }.

Definition marked (g : Global) : bool :=
  match g !! LOADED_MARKER ≫= p_value with Some v => boolean_value v | None => false end.

(** The hooks in [__nano_node_host] are those of NodeFs, NodeCrypto, NodeZlib and NodeSys. *)
Definition bind_node_compat (node : NodeScripts) (g : Global) : Global :=
  if marked g then g
  else
    let g := global_set "__nano_node_host" (VObject []) g in
    let g := foldl global_op g (script_ops node) in
    if scripts_ran node then global_set LOADED_MARKER (VBool true) g else g.

(** [bind_all] up to the hardening; [fetch] is whether its state could be made. *)
Definition bind_apis (fetch : bool) (node : NodeScripts) (g : Global) : Global :=
  let g := bind_text_decoder (bind_text_encoder (bind_console g)) in
  let g := bind_structured_clone (bind_performance_object (bind_crypto g)) in
  let g := bind_form_data (bind_blob (bind_dom_exception g)) in
  let g := bind_request (bind_response (bind_url (bind_headers g))) in
  let g := bind_fs_polyfill (bind_nano_fs (bind_fetch fetch g)) in
  let g := bind_websocket_pair (bind_wasm (bind_streams (bind_buffer (bind_timers g)))) in
  bind_node_compat node g.

Definition bind_all (fetch : bool) (node : NodeScripts) (g : Global) : Global :=
  bind_security_hardening (bind_apis fetch node g).

(** The values an operation writes. *)
Definition op_value (o : GlobalOp) : option Val :=
  match o with GSet _ v => Some v | GDefine _ d => p_value d | GDelete _ => None end.

(** *** Hardening holds *)

Definition locked (g : Global) : Prop := g !! "Function" = Some (mkProperty blocked false false false).

Lemma locked_op g o : locked g → locked (global_op g o).
Proof.
  unfold locked. intros Hg. destruct o as [k v|k|k d]; cbn [global_op]; unfold global_set, global_delete, global_define;
    (destruct (decide (k = "Function")) as [->|Hk]; [by rewrite Hg|]); repeat case_match; try done;
    by rewrite ?lookup_insert_ne, ?lookup_delete_ne by done.
Qed.

Lemma locked_hardened g : (∀ p, g !! "Function" = Some p → p_configurable p = true) → locked (bind_security_hardening g).
Proof.
  intros Hg. unfold locked, bind_security_hardening, global_define.
  assert (E : global_delete "eval" g !! "Function" = g !! "Function").
  { unfold global_delete. repeat case_match; try done. by rewrite lookup_delete_ne. }
  rewrite E. destruct (g !! "Function") as [p|] eqn:Ep; [rewrite (Hg p eq_refl)|]; by rewrite lookup_insert_eq.
Qed.

(** A property that can be configured stays so while the runtime writes. *)
Definition configurable (k : string) (g : Global) : Prop := ∀ p, g !! k = Some p → p_configurable p = true.

Lemma configurable_set k k2 v g : configurable k g → configurable k (global_set k2 v g).
Proof.
  intros Hg p. unfold global_set. destruct (decide (k2 = k)) as [->|Hk].
  - destruct (g !! k) as [q|] eqn:Eq.
    + destruct (p_writable q); [|intros Hp; rewrite Eq in Hp; injection Hp as <-; by apply Hg].
      rewrite lookup_insert_eq. intros [= <-]. cbn. by apply Hg.
    + rewrite lookup_insert_eq. by intros [= <-].
  - destruct (g !! k2) as [q|]; [destruct (p_writable q)|]; rewrite ?lookup_insert_ne by done; apply Hg.
Qed.

(** The engine's [eval]. *)
Definition eval_fn : Val := VFunction "eval".

Lemma configurable_op k g o : (∀ d, o = GDefine k d → p_configurable d = true) →
  configurable k g → configurable k (global_op g o).
Proof.
  intros Ho Hg. destruct o as [k2 v|k2|k2 d]; cbn [global_op].
  - by apply configurable_set.
  - intros p. unfold global_delete. destruct (g !! k2) as [q|]; [destruct (p_configurable q)|]; try apply Hg.
    intros [_ Hp]%lookup_delete_Some. by apply Hg.
  - destruct (decide (k2 = k)) as [->|Hk].
    + specialize (Ho d eq_refl). intros p. unfold global_define. destruct (g !! k) as [q|] eqn:Eq.
      * rewrite (Hg q Eq), lookup_insert_eq. by intros [= <-].
      * rewrite lookup_insert_eq. by intros [= <-].
    + intros p. unfold global_define. destruct (g !! k2) as [q|]; [destruct (p_configurable q); [|case_match]|];
        rewrite ?lookup_insert_ne by done; apply Hg.
Qed.

(** What the scripts of the Node layer are relied on for: they do not keep the engine's
    [eval] in a property, and do not fix [Function] and [eval] themselves. *)
Definition harmless (o : GlobalOp) : Prop :=
  op_value o ≠ Some eval_fn ∧
  ∀ k d, o = GDefine k d → k = "Function" ∨ k = "eval" → p_configurable d = true.

(** The runtime itself only writes, and never [eval]: what such writes, what is put into
    the object of WebAssembly and the scripts keep holds once everything is bound. *)
Lemma bind_apis_keeps (I : Global → Prop) fetch node g :
  (∀ k v g, v ≠ eval_fn → I g → I (global_set k v g)) →
  (∀ k ps ps' w e c g, g !! k = Some (mkProperty (VObject ps) w e c) → I g →
     I (<[k := mkProperty (VObject ps') w e c]> g)) →
  (∀ o g, harmless o → I g → I (global_op g o)) → Forall harmless (script_ops node) →
  I g → I (bind_apis fetch node g).
Proof.
  intros HI HW HO Hn Hg.
  assert (N : ∀ l g, forallb (λ e, negb (String.eqb e.2 "eval")) l = true → I g → I (bind_names l g)).
  { induction l as [|e l IH]; intros g0 Hl Hg0; [done|]. cbn in Hl. apply andb_true_iff in Hl as [He Hl].
    apply (IH (global_set e.1 (VFunction e.2) g0)); [done|]. apply HI; [|done].
    unfold eval_fn. intros [= E]. by rewrite E in He. }
  assert (W : ∀ l g, Forall harmless l → I g → I (foldl global_op g l)).
  { induction l as [|e l IH]; intros g0 Hl Hg0; [done|]. apply Forall_cons in Hl as [He Hl]. by apply IH, HO. }
  assert (M : ∀ g, I g → I (bind_wasm g)).
  { intros g0 Hg0. unfold bind_wasm. destruct (g0 !! "WebAssembly") as [[v w e c|]|] eqn:Ew; [|done..].
    destruct v as [| | | | | | |ps| | |]; try done. by eapply HW. }
  assert (L : ∀ g, I g → I (bind_node_compat node g)).
  { intros g0 Hg0. unfold bind_node_compat. destruct (marked g0); [done|].
    destruct (scripts_ran node); [apply HI; [done|]|]; (apply W; [done|]); by apply HI. }
  assert (R : ∀ g, I g → I (bind_request g)) by (intros g0 Hg0; unfold bind_request; repeat case_match; by try apply N).
  unfold bind_apis. apply L. unfold bind_websocket_pair, bind_streams, bind_buffer, bind_timers, bind_fs_polyfill, bind_nano_fs, bind_fetch, bind_response,
    bind_url, bind_headers, bind_form_data, bind_blob, bind_dom_exception, bind_structured_clone, bind_performance_object,
    bind_crypto, bind_text_decoder, bind_text_encoder, bind_console.
  destruct fetch; repeat first [apply N; [done|] | apply HI; [done|] | apply R | apply M]; done.
Qed.

Lemma no_eval_op v g o :
  (∀ k p, g !! k = Some p → p_value p ≠ Some v) → op_value o ≠ Some v →
  ∀ k p, global_op g o !! k = Some p → p_value p ≠ Some v.
Proof.
  intros Hg Ho k p. destruct o as [k2 w|k2|k2 d]; cbn [global_op op_value] in *; unfold global_set, global_delete, global_define.
  - destruct (decide (k2 = k)) as [->|Hk].
    + destruct (g !! k) as [q|] eqn:Eq; [destruct (p_writable q)|]; rewrite ?lookup_insert_eq, ?Eq; intros [= <-]; cbn;
        try congruence. by apply (Hg k).
    + destruct (g !! k2) as [q|]; [destruct (p_writable q)|]; rewrite ?lookup_insert_ne by done; apply Hg.
  - destruct (g !! k2) as [q|]; [destruct (p_configurable q)|]; try apply Hg. intros [_ Hp]%lookup_delete_Some. by eapply Hg.
  - assert (D : ∀ h : Global, (∀ p, h !! k = Some p → p_value p ≠ Some v) → <[k2 := d]> h !! k = Some p → p_value p ≠ Some v).
    { intros h Hh. destruct (decide (k2 = k)) as [->|Hk]; [rewrite lookup_insert_eq; intros [= <-]; congruence|].
      rewrite lookup_insert_ne by done. apply Hh. }
    destruct (g !! k2) as [q|]; [destruct (p_configurable q)|]; try (by apply D, Hg). destruct (_ && _); [by apply D, Hg|apply Hg].
Qed.

(** No property but [eval] has the engine's [eval]. *)
Definition clean (g : Global) : Prop := ∀ k p, g !! k = Some p → k ≠ "eval" → p_value p ≠ Some eval_fn.

Lemma clean_set k2 v g : v ≠ eval_fn → clean g → clean (global_set k2 v g).
Proof.
  intros Hv Hg k p. unfold global_set. destruct (decide (k2 = k)) as [->|Hk].
  - destruct (g !! k) as [q|] eqn:Eq; [destruct (p_writable q)|]; rewrite ?lookup_insert_eq, ?Eq; intros [= <-] Hn; cbn; try congruence.
    by apply (Hg k).
  - destruct (g !! k2) as [q|]; [destruct (p_writable q)|]; rewrite ?lookup_insert_ne by done; apply Hg.
Qed.

Lemma clean_op o g : op_value o ≠ Some eval_fn → clean g → clean (global_op g o).
Proof.
  intros Ho Hg k p. destruct o as [k2 w|k2|k2 d]; cbn [global_op op_value] in *.
  - apply clean_set; [congruence|done].
  - unfold global_delete. destruct (g !! k2) as [q|]; [destruct (p_configurable q)|]; try apply Hg.
    intros [_ Hp]%lookup_delete_Some. by apply Hg.
  - assert (D : <[k2 := d]> g !! k = Some p → k ≠ "eval" → p_value p ≠ Some eval_fn).
    { destruct (decide (k2 = k)) as [->|Hk]; [rewrite lookup_insert_eq; intros [= <-] _; congruence|].
      rewrite lookup_insert_ne by done. apply Hg. }
    unfold global_define. destruct (g !! k2) as [q|]; [destruct (p_configurable q)|]; try apply D.
    destruct (_ && _); [apply D|apply Hg].
Qed.

Lemma no_eval_hardened g : clean g → configurable "eval" g →
  ∀ k p, bind_security_hardening g !! k = Some p → p_value p ≠ Some eval_fn.
Proof.
  intros Hg Hc k p. unfold bind_security_hardening.
  apply (no_eval_op eval_fn (global_delete "eval" g) (GDefine "Function" (mkProperty blocked false false false))); [|by intros [=]].
  clear k p. intros k p Hp. unfold global_delete in Hp. destruct (g !! "eval") as [q|] eqn:Eq.
  - rewrite (Hc q Eq) in Hp. apply lookup_delete_Some in Hp as [Hk Hp]. by apply (Hg k).
  - apply (Hg k); [done|]. intros ->. congruence.
Qed.

(** C17. In a context with everything bound, whatever a program then writes, deletes or
    defines on the global object: [Function] stays the function that throws, read-only and
    for good, and no property holds the engine's [eval], as long as the program does not
    write it itself, and it never gets it from there.  The scripts of the Node layer may
    write, delete and define what they like, as long as they neither keep [eval] in a
    property nor fix [Function] or [eval]. *)
Theorem hardening_holds fetch node g ops :
  configurable "Function" g → configurable "eval" g → clean g → Forall harmless (script_ops node) →
  Forall (λ o, op_value o ≠ Some eval_fn) ops →
  let g' := foldl global_op (bind_all fetch node g) ops in
  g' !! "Function" = Some (mkProperty blocked false false false) ∧ ∀ k p, g' !! k = Some p → p_value p ≠ Some eval_fn.
Proof.
  intros Hf He Hc Hn Ho. cbv zeta.
  assert (Hconf : ∀ n, n = "Function" ∨ n = "eval" → configurable n g → configurable n (bind_apis fetch node g)).
  { intros n Hname Hg. apply bind_apis_keeps; [| | |done|done].
    - intros k v g0 _. apply configurable_set.
    - intros k ps ps' w e c g0 Hk Hg0 p. destruct (decide (k = n)) as [->|Hne]; [|rewrite lookup_insert_ne by done; apply Hg0].
      rewrite lookup_insert_eq. intros [= <-]. exact (Hg0 _ Hk).
    - intros o g0 [_ Hd]. apply configurable_op. intros d ->. by apply (Hd n d). }
  pose proof (Hconf "Function" (or_introl eq_refl) Hf) as Hf'. pose proof (Hconf "eval" (or_intror eq_refl) He) as He'.
  assert (Hc' : clean (bind_apis fetch node g)).
  { apply bind_apis_keeps; [intros k v g0; apply clean_set| |intros o g0 [Hv _]; by apply clean_op|done|done].
    intros k ps ps' w e c g0 _ Hg0 k2 p. destruct (decide (k = k2)) as [->|Hne];
      [rewrite lookup_insert_eq; by intros [= <-]|rewrite lookup_insert_ne by done; apply Hg0]. }
  unfold bind_all. assert (G : locked (bind_security_hardening (bind_apis fetch node g)) ∧
    ∀ k p, bind_security_hardening (bind_apis fetch node g) !! k = Some p → p_value p ≠ Some eval_fn).
  { split; [by apply locked_hardened|by apply no_eval_hardened]. }
  revert G. generalize (bind_security_hardening (bind_apis fetch node g)). induction Ho as [|o ops Hop Ho IH]; intros g0 [G1 G2]; [done|].
  apply IH. split; [by apply locked_op|]. by apply no_eval_op.
Qed.

(** ** Texts and bytes *)

(** Bytes that are a text read back as it. *)
Class GlobalsLaws `{GlobalsEngine} := {
  utf8_text : string → Prop;
  utf8_reads_back : ∀ s, utf8_text s → utf8_lossy (as_bytes s) = s;
}.

(** A byte as two digits of base 16. *)
Definition hex_char (d : Z) : ascii := default (ch "0") (String.get (Z.to_nat d) "0123456789abcdef").
Fixpoint hex_text (bs : list Z) : string :=
  match bs with [] => "" | b :: bs => String (hex_char (b / 16)) (String (hex_char (b mod 16)) (hex_text bs)) end.

Lemma hex_digit_char d : 0 <= d < 16 → hex_digit (hex_char d) = Some d ∧ char_eqb (hex_char d) (ch "+") = false.
Proof.
  assert (T : Forall (λ d, hex_digit (hex_char d) = Some d ∧ char_eqb (hex_char d) (ch "+") = false) (seqZ 0 16)).
  { apply (bool_decide_unpack _). by vm_compute. }
  rewrite Forall_forall in T. intros Hd. apply T, elem_of_seqZ. lia.
Qed.

Lemma hex_reads_back bs : Forall (λ b, 0 <= b < 256) bs → hex_bytes (hex_text bs) = bs.
Proof.
  induction 1 as [|b bs Hb _ IH]; [done|]. cbn [hex_text hex_bytes]. unfold hex_pair.
  destruct (hex_digit_char (b / 16)) as [E1 ->]; [split; [apply Z.div_pos; lia|apply Z.div_lt_upper_bound; lia]|].
  destruct (hex_digit_char (b mod 16)) as [E2 _]; [apply Z.mod_pos_bound; lia|].
  rewrite E1, E2. cbn. rewrite IH. f_equal. pose proof (Z.div_mod b 16). lia.
Qed.

(** A pair is read exactly when it is two digits, or a plus sign and one; the others are
    passed over, not the end. *)
Lemma hex_pair_exact a b z : hex_pair a b = Some z ↔
  (char_eqb a (ch "+") = true ∧ hex_digit b = Some z) ∨
  (char_eqb a (ch "+") = false ∧ ∃ x y, hex_digit a = Some x ∧ hex_digit b = Some y ∧ z = 16 * x + y).
Proof.
  unfold hex_pair. destruct (char_eqb a (ch "+")); [naive_solver|].
  destruct (hex_digit a) as [x|]; cbn; [|naive_solver]. destruct (hex_digit b) as [y|]; cbn; naive_solver.
Qed.

Example bad_pairs_skipped : hex_bytes "4xzz41" = [65].
Proof. reflexivity. Qed.

Example signed_pair : hex_bytes "+f" = [15].
Proof. reflexivity. Qed.

Section texts.
Context `{GlobalsLaws}.

Lemma new_array_done m bs own : allocates (Z.of_nat (length bs)) = true →
  new_array m bs own = Done (m ++ [bs], VView (mkView Uint8 (length m) 0 (length bs) own)).
Proof. intros Ha. unfold new_array, new_buffer. by rewrite assert_true. Qed.

Lemma view_of_new m bs own : view_bytes (m ++ [bs]) (mkView Uint8 (length m) 0 (length bs) own) = bs.
Proof. unfold view_bytes. cbn. rewrite lookup_app_r, Nat.sub_diag by done. cbn. apply firstn_all. Qed.

Lemma as_bytes_length s : length (as_bytes s) = String.length s.
Proof. induction s as [|a s IH]; [done|]. cbn. by rewrite IH. Qed.

(** Text survives its bytes: what [TextEncoder] makes of a string [TextDecoder] reads
    back, the text of [Buffer.from] of a string is the string, and of the hexadecimal
    digits of its bytes too; each is in a new buffer, with everything before it as it was. *)
Theorem text_round_trips m s :
  utf8_text s → string_fits s = true → allocates (slen s) = true →
  (∃ m' v, text_encoder_encode m [VString s] = Done (m', v) ∧ text_decoder_decode m' [v] = VString s ∧ m `prefix_of` m') ∧
  (∃ m' v, buffer_from_callback m [VString s] = Done (m', v) ∧ buffer_tostring_callback m' v = VString s ∧ m `prefix_of` m') ∧
  (∃ m' v, buffer_from_callback m [VString (hex_text (as_bytes s)); VString "HEX"] = Done (m', v) ∧
     buffer_tostring_callback m' v = VString s ∧ m `prefix_of` m').
Proof.
  intros Hu Hf Ha. unfold slen in Ha. rewrite <- as_bytes_length in Ha.
  assert (Hs : utf8_lossy (as_bytes s) = s) by by apply utf8_reads_back.
  assert (D : ∀ own, let v := mkView Uint8 (length m) 0 (length (as_bytes s)) own in
    default (VString "") (string_value (utf8_lossy (view_bytes (m ++ [as_bytes s]) v))) = VString s).
  { intros own. cbv zeta. rewrite view_of_new, Hs. unfold string_value. by rewrite Hf. }
  assert (P : m `prefix_of` m ++ [as_bytes s]) by by eexists.
  split_and!.
  - exists (m ++ [as_bytes s]), (VView (mkView Uint8 (length m) 0 (length (as_bytes s)) false)). split_and!; [by apply new_array_done| |done].
    unfold text_decoder_decode. rewrite view_of_new, Hs. unfold string_value. by rewrite Hf.
  - exists (m ++ [as_bytes s]), (VView (mkView Uint8 (length m) 0 (length (as_bytes s)) true)).
    split_and!; [by apply new_array_done|apply D|done].
  - exists (m ++ [as_bytes s]), (VView (mkView Uint8 (length m) 0 (length (as_bytes s)) true)).
    split_and!; [|apply D|done]. unfold buffer_from_callback. cbn [arg nth_error length Nat.ltb Nat.leb].
    change (arg _ 0) with (VString (hex_text (as_bytes s))). cbv iota.
    change (String.eqb (from_option ascii_lowercase "utf8" (to_string m (VString "HEX"))) "hex") with true. cbv iota zeta.
    rewrite hex_reads_back; [by apply new_array_done|].
    clear. induction s as [|a s IH]; constructor; [|done]. pose proof (N_ascii_bounded a). lia.
Qed.
End texts.

(** ** Random values *)

Definition byte_ok (z : Z) : Prop := 0 <= z < 256.

Lemma le_bytes_value bs : Forall byte_ok bs → le_bytes (length bs) (le_value bs) = bs.
Proof.
  induction 1 as [|b bs Hb _ IH]; [done|]. cbn [length le_value le_bytes]. unfold byte_ok in Hb.
  rewrite (Z.mul_comm 256), Z.mod_add, Z.mod_small, Z.div_add, Z.div_small by lia. by rewrite Z.add_0_l, IH.
Qed.

(** Bytes taken as elements and stored as elements are the bytes. *)
Lemma elements_bytes n k bs : length bs = (n * k)%nat → Forall byte_ok bs → concat (le_bytes k <$> elements n k bs) = bs.
Proof.
  revert bs. induction n as [|n IH]; intros bs Hl Hb; [by destruct bs|]. cbn [elements fmap list_fmap concat].
  assert (Ht : length (take k bs) = k) by (rewrite length_take; lia).
  pose proof (le_bytes_value (take k bs) (Forall_take _ _ _ Hb)) as E. rewrite Ht in E. rewrite E, IH.
  - apply take_drop.
  - rewrite length_drop. lia.
  - by apply Forall_drop.
Qed.

(** The element sizes the callback knows. *)
Definition random_size (k : ViewKind) : option nat :=
  match k with Uint8 => Some 1%nat | Uint16 => Some 2%nat | Uint32 => Some 4%nat | _ => None end.

(** A view inside its store, with whole elements. *)
Definition view_ok (m : Memory) (v : View) : Prop :=
  ∃ st, m !! v_store v = Some st ∧ (v_offset v + v_length v <= length st)%nat ∧
    match random_size (v_kind v) with Some k => (v_length v `mod` k)%nat = 0%nat | None => True end.

(** C22. [getRandomValues] puts the random bytes into exactly the bytes of the view, and
    answers the view; the rest of its store and every other store stay.  It knows arrays of
    unsigned elements of one, two and four bytes: of any other view, and of anything else, it
    answers undefined and leaves it as it was, without a word. *)
Theorem random_values_exact (random : nat → option (list Z)) m v rest :
  (∀ n, ∃ bs, random n = Some bs ∧ length bs = n ∧ Forall byte_ok bs) → view_ok m v →
  match random_size (v_kind v) with
  | None => crypto_get_random_values random m (VView v :: rest) = (m, VUndefined)
  | Some _ =>
      ∃ m' bs, crypto_get_random_values random m (VView v :: rest) = (m', VView v) ∧
        (v_length v = 0%nat ∨ random (v_length v) = Some bs) ∧ length bs = v_length v ∧
        view_bytes m' v = bs ∧ length m' = length m ∧
        (∀ s, s ≠ v_store v → m' !! s = m !! s) ∧
        (∀ st, m !! v_store v = Some st → ∃ st', m' !! v_store v = Some st' ∧ length st' = length st ∧
           ∀ i, (i < v_offset v ∨ v_offset v + v_length v <= i)%nat → st' !! i = st !! i)
  end.
Proof.
  intros Hr (st & Hst & Hin & Hk). unfold crypto_get_random_values.
  assert (F : ∀ k, (0 < k)%nat → (v_length v `mod` k)%nat = 0%nat → ∃ m' bs, fill k random m v = (m', VView v) ∧
        (v_length v = 0%nat ∨ random (v_length v) = Some bs) ∧ length bs = v_length v ∧
        view_bytes m' v = bs ∧ length m' = length m ∧
        (∀ s, s ≠ v_store v → m' !! s = m !! s) ∧
        (∀ st, m !! v_store v = Some st → ∃ st', m' !! v_store v = Some st' ∧ length st' = length st ∧
           ∀ i, (i < v_offset v ∨ v_offset v + v_length v <= i)%nat → st' !! i = st !! i)).
  { intros k Hk0 Hmod. unfold fill.
    assert (E : (v_length v / k * k)%nat = v_length v) by (pose proof (Nat.div_mod_eq (v_length v) k); lia).
    destruct (v_length v / k =? 0)%nat eqn:Ez.
    - apply Nat.eqb_eq in Ez. assert (Hz : v_length v = 0%nat) by lia. exists m, [].
      split_and!; [done|by left|by rewrite Hz|unfold view_bytes; by rewrite Hz|done|done|].
      intros st0 Hst0. by exists st0.
    - rewrite E. destruct (Hr (v_length v)) as (bs & -> & Hl & Hb). rewrite elements_bytes by (done || lia).
      eexists _, bs. split_and!; [done|by right|done| |by rewrite length_alter| |].
      + unfold view_bytes. rewrite list_lookup_alter_eq, Hst. cbn. unfold write_at.
        rewrite drop_app_length' by (rewrite length_take; lia). by apply take_app_length'.
      + intros s Hs. by apply list_lookup_alter_ne.
      + intros st0 Hs0. rewrite Hs0 in Hst. injection Hst as ->. eexists. rewrite list_lookup_alter_eq, Hs0. split; [done|].
        unfold write_at. split; [rewrite !length_app, length_take, length_drop; lia|].
        intros i [Hi|Hi].
        * rewrite lookup_app_l by (rewrite length_take; lia). by apply lookup_take_lt.
        * rewrite lookup_app_r by (rewrite length_take; lia). rewrite lookup_app_r by (rewrite length_take; lia).
          rewrite lookup_drop, length_take. f_equal. lia. }
  destruct (v_kind v); cbn [random_size] in Hk |- *; try done; apply F; by (lia || done).
Qed.

(** ** What the callbacks make *)

Section made.
Context `{GlobalsEngine}.

(** The values a program can pass: views lie inside their stores. *)
Definition arg_ok (m : Memory) (v : Val) : Prop :=
  match v with
  | VView w => ∃ st, m !! v_store w = Some st ∧ (v_offset w + v_length w <= length st)%nat
  | VBuffer st => is_Some (m !! st)
  | _ => True
  end.

(** The bytes [Buffer.from] takes from its arguments. *)
Definition source_bytes (m : Memory) (args : list Val) : list Z :=
  match arg args 0 with
  | VBuffer st => default [] (m !! st)
  | VView v => view_bytes m v
  | VArray items => array_bytes m items
  | VString text =>
      if (1 <? length args)%nat && bool_decide (ascii_lowercase <$> to_string m (arg args 1) = Some "hex")
      then hex_bytes text else as_bytes text
  | _ => []
  end.

(** [Buffer.from] copies: it answers an array over a new buffer with the bytes of its
    argument, in which nothing written to the old buffers afterwards shows, and nothing
    written to it shows in them.  When there is no memory for it the process ends. *)
Theorem buffer_from_copies m args :
  match buffer_from_callback m args with
  | Panicked _ => allocates (Z.of_nat (length (source_bytes m args))) = false
  | Done (m', v) =>
      allocates (Z.of_nat (length (source_bytes m args))) = true ∧
      m' = m ++ [source_bytes m args] ∧
      (∀ f s, (s < length m)%nat → view_bytes (alter f s m') (mkView Uint8 (length m) 0 (length (source_bytes m args)) true) = source_bytes m args) ∧
      v = VView (mkView Uint8 (length m) 0 (length (source_bytes m args)) true) ∧
      (∀ f s, (s < length m)%nat → alter f (length m) m' !! s = m !! s)
  end.
Proof.
  assert (E : buffer_from_callback m args = new_array m (source_bytes m args) true).
  { unfold buffer_from_callback, source_bytes. destruct (arg args 0); try done.
    destruct (1 <? length args)%nat eqn:E1; cbn [andb]; [|done].
    destruct (to_string m (arg args 1)) as [e|]; cbn [from_option fmap option_fmap option_map]; [|done].
    destruct (String.eqb_spec (ascii_lowercase e) "hex") as [->|Hn]; [done|]. by rewrite bool_decide_false by congruence. }
  rewrite E. unfold new_array, new_buffer, assert_that. destruct (allocates _) eqn:Ha; cbn [outcome_bind fst snd]; [|done].
  split_and!; [done|done| |done|].
  - intros f s Hs. unfold view_bytes. cbn [v_store v_offset v_length]. rewrite list_lookup_alter_ne by lia.
    rewrite lookup_app_r, Nat.sub_diag by done. cbn. apply firstn_all.
  - intros f s Hs. rewrite list_lookup_alter_ne by lia. by rewrite lookup_app_l.
Qed.

(** [new Buffer(string)]: a string always is a number, if [NaN], so the branch that takes
    its length is only for values that are no string either, and the size is never it. *)
Lemma buffer_constructor_size m a : 
  buffer_constructor m [a] = new_array m (replicate (Z.to_nat (from_option f64_to_usize 0 (to_number m a))) 0) true.
Proof.
  unfold buffer_constructor. destruct (to_number m a) as [n|] eqn:En; [done|].
  assert (to_string m a = None) as ->; [|done].
  destruct a; cbn [to_number] in En; try discriminate En; by destruct (to_string m _).
Qed.

(** The size of a blob is the length of the text it holds. *)
Lemma join_nil_length l : slen (join "" l) = foldl (λ n p, n + slen p) 0 l.
Proof.
  assert (G : ∀ l n, foldl (λ n p, n + slen p) n l = n + foldl (λ n p, n + slen p) 0 l).
  { induction l0 as [|p l0 IH]; intros n; cbn [foldl]; [lia|]. rewrite (IH (n + slen p)), (IH (0 + slen p)). lia. }
  induction l as [|p l IH]; [done|]. cbn [foldl]. rewrite G, <- IH. destruct l as [|q l].
  - change (join "" [p]) with p. change (slen (join "" [])) with 0. lia.
  - change (join "" (p :: q :: l)) with (p +:+ ("" +:+ join "" (q :: l))). unfold slen.
    change ("" +:+ join "" (q :: l)) with (join "" (q :: l)). rewrite length_app_string. lia.
Qed.

(** What a blob is, on every branch: its size is the number of bytes of the text it
    holds, which is the texts of the parts one after the other, and its type the option's. *)
Theorem blob_exact m this args :
  let b := blob_constructor m this args in
  ∃ text, assoc "__blob_parts__" b = Some (VString text) ∧ text = join "" (blob_parts m args) ∧
    assoc "size" b = Some (VNumber (f64_of_Z (slen text))) ∧
    (∃ t, assoc "type" b = Some (VString t)) ∧
    (∀ k, k ∉ ["__blob_parts__"; "size"; "type"] → assoc k b = assoc k this).
Proof.
  cbv zeta. unfold blob_constructor. eexists. split_and!.
  - by rewrite assoc_set_eq.
  - done.
  - rewrite !assoc_set_ne, assoc_set_eq by done. by rewrite join_nil_length.
  - eexists. by rewrite assoc_set_ne, assoc_set_eq by done.
  - intros k Hk. rewrite !not_elem_of_cons in Hk. destruct Hk as (? & ? & ? & _). by rewrite !assoc_set_ne by done.
Qed.
End made.

(** ** Concrete runs *)

Definition demo_lossy (l : list Z) : string := String.string_of_list_ascii ((λ z, ascii_of_N (Z.to_N z)) <$> l).

#[local] Instance demo_engine : GlobalsEngine := {|
  number_text := λ _, "1"; text_number := λ _, S754_nan; function_text := id;
  utf16_units := λ s, [s]; other_texts := λ _ _, [];
  json_stringify := λ _ _, None; json_parse := λ _, None;
  utf8_lossy := demo_lossy; allocates := λ n, n <? 1000; string_fits := λ s, slen s <? 1000 |}.

Lemma demo_reads_back s : demo_lossy (as_bytes s) = s.
Proof.
  unfold demo_lossy. induction s as [|a s IH]; [done|]. cbn. rewrite N2Z.id, ascii_N_embedding. by rewrite IH.
Qed.

#[local] Instance demo_laws : GlobalsLaws := {| utf8_text := λ _, True; utf8_reads_back := λ s _, demo_reads_back s |}.

Lemma text_round_trips_witness :
  (utf8_text "nano" ∧ string_fits "nano" = true ∧ allocates (slen "nano") = true) ∧
  (∃ m' v, text_encoder_encode [] [VString "nano"] = Done (m', v) ∧ text_decoder_decode m' [v] = VString "nano" ∧ [] `prefix_of` m') ∧
  (∃ m' v, buffer_from_callback [] [VString "nano"] = Done (m', v) ∧ buffer_tostring_callback m' v = VString "nano" ∧ [] `prefix_of` m') ∧
  (∃ m' v, buffer_from_callback [] [VString (hex_text (as_bytes "nano")); VString "HEX"] = Done (m', v) ∧
     buffer_tostring_callback m' v = VString "nano" ∧ [] `prefix_of` m').
Proof. split; [done|]. by apply (text_round_trips [] "nano"). Defined.

Definition demo_random (n : nat) : option (list Z) := Some (replicate n 7).
Definition demo_view : View := mkView Uint16 0 1 4 false.

Lemma demo_random_ok n : ∃ bs, demo_random n = Some bs ∧ length bs = n ∧ Forall byte_ok bs.
Proof. exists (replicate n 7). split_and!; [done|apply length_replicate|by apply Forall_replicate]. Qed.

Lemma random_values_exact_witness :
  view_ok [[0; 1; 2; 3; 4; 5]] demo_view ∧
  ∃ m' bs, crypto_get_random_values demo_random [[0; 1; 2; 3; 4; 5]] [VView demo_view] = (m', VView demo_view) ∧
    (v_length demo_view = 0%nat ∨ demo_random (v_length demo_view) = Some bs) ∧ length bs = v_length demo_view ∧
    view_bytes m' demo_view = bs ∧ length m' = length [[0; 1; 2; 3; 4; 5]] ∧
    (∀ s, s ≠ v_store demo_view → m' !! s = [[0; 1; 2; 3; 4; 5]] !! s) ∧
    (∀ st, [[0; 1; 2; 3; 4; 5]] !! v_store demo_view = Some st → ∃ st', m' !! v_store demo_view = Some st' ∧ length st' = length st ∧
       ∀ i, (i < v_offset demo_view ∨ v_offset demo_view + v_length demo_view <= i)%nat → st' !! i = st !! i).
Proof.
  assert (V : view_ok [[0; 1; 2; 3; 4; 5]] demo_view) by (exists [0; 1; 2; 3; 4; 5]; split_and!; [done|cbn; lia|done]).
  split; [done|]. exact (random_values_exact demo_random [[0; 1; 2; 3; 4; 5]] demo_view [] demo_random_ok V).
Defined.

Definition demo_global : Global :=
  {[ "eval" := mkProperty eval_fn true false true; "Function" := mkProperty (VFunction "Function") true false true ]}.

Lemma demo_global_clean : clean demo_global.
Proof.
  intros k p. unfold demo_global. intros [[<- <-]|[Hk Hp]]%lookup_insert_Some; [done|].
  apply lookup_singleton_Some in Hp as [<- <-]. done.
Qed.

Lemma demo_global_configurable k : configurable k demo_global.
Proof.
  intros p. unfold demo_global. intros [[<- <-]|[Hk Hp]]%lookup_insert_Some; [done|].
  apply lookup_singleton_Some in Hp as [<- <-]. done.
Qed.

(** Some of what [99_init.js] does. *)
Definition demo_scripts : NodeScripts := mkScripts
  [GDefine "__nano_resolve_handler" (mkProperty (VFunction "__nano_resolve_handler") false false false);
   GDefine "require" (mkProperty (VFunction "nodeRequire") true false true);
   GDefine "exports" (mkAccessor (Some "get") (Some "set") false true); GSet "process" (VObject [])] true.

Lemma demo_scripts_harmless : Forall harmless (script_ops demo_scripts).
Proof.
  repeat (constructor; [split; [done|intros k d [=]; subst; by intros [[=]|[=]]]|]). constructor.
Qed.

Lemma hardening_holds_witness :
  (configurable "Function" demo_global ∧ configurable "eval" demo_global ∧ clean demo_global) ∧
  let g' := foldl global_op (bind_all true demo_scripts demo_global)
    [GSet "Function" (VFunction "mine"); GDelete "Function"; GDefine "eval" (mkProperty (VFunction "mine") true true true)] in
  g' !! "Function" = Some (mkProperty blocked false false false) ∧ ∀ k p, g' !! k = Some p → p_value p ≠ Some eval_fn.
Proof.
  split; [split_and!; [apply demo_global_configurable|apply demo_global_configurable|apply demo_global_clean]|].
  apply (hardening_holds true demo_scripts demo_global
    [GSet "Function" (VFunction "mine"); GDelete "Function"; GDefine "eval" (mkProperty (VFunction "mine") true true true)]);
    [apply demo_global_configurable|apply demo_global_configurable|apply demo_global_clean|apply demo_scripts_harmless|by repeat constructor].
Defined.

(** Everything is bound once, and a second time the Node layer is left as it is. *)
Example bound_twice :
  let g := bind_apis true demo_scripts demo_global in
  marked g = true ∧ bind_node_compat (mkScripts [GDelete "require"] true) g = g ∧
  g !! "require" = Some (mkProperty (VFunction "nodeRequire") true false true).
Proof.
  set (g := bind_apis _ _ _). assert (Hm : marked g = true) by (vm_compute; reflexivity).
  split; [exact Hm|]. split; [|vm_compute; reflexivity]. unfold bind_node_compat. by rewrite Hm.
Qed.

(** Elements of arrays saturate: 256 becomes 255, where Node has 0. *)
Example elements_saturate : array_bytes [] [VNumber (f64_of_Z 256); VNumber (f64_of_Z (-1)); VNumber (f64_of_Z 65)] = [255; 0; 65].
Proof. by vm_compute. Qed.

(** The bytes of a part that is a view are listed, not kept. *)
Example blob_of_bytes :
  blob_parts [[104; 105]] [VArray [VView (mkView Uint8 0 0 2 false)]] = ["1,1"].
Proof. by vm_compute. Qed.

(** Other encodings are read as text. *)
Example base64_is_text :
  buffer_from_callback [] [VString "aGk="; VString "base64"] =
  Done ([[97; 71; 107; 61]], VView (mkView Uint8 0 0 4 true)).
Proof. by vm_compute. Qed.
