(* ===== verification/Cli.v ===== *)
(** * The command line for slivers: [src/cli/] and [handle_sliver_command] of [src/main.rs]

    The validators of arguments with their errors, and the three commands over the files
    of the working directory, the engine (NanoIsolate) and the archives (Sliver,
    SliverFiles).  Argument parsing is [clap]'s, and printing is the list of lines. *)

From stdpp Require Import base gmap list strings pretty.
From Stdlib Require Import Ascii ZArith Lia.
From S2P Require Import Prelude RustString RustPath RustList VfsPath VfsIsolate Sliver SliverCheck SliverFiles SliverCache NanoIsolate.

Open Scope Z_scope.

(** ** Errors *)

Inductive CliError :=
| InvalidHostname (input : string) (suggestion : option string)
| InvalidSliverName (name reason : string)
| OperationFailed (operation reason : string) (suggestion : option string).

Definition nl : string := String (ascii_of_nat 10) "".

(** [Display]; the mark and the bullets are UTF-8. *)
Definition mark : string := String (ascii_of_nat 226) (String (ascii_of_nat 156) (String (ascii_of_nat 151) " ")).
Definition bullet : string := "  " +:+ String (ascii_of_nat 226) (String (ascii_of_nat 128) (String (ascii_of_nat 162) " ")).

Definition display_cli (e : CliError) : string :=
  match e with
  | InvalidHostname input suggestion =>
      mark +:+ ("Invalid hostname: '" +:+ (input +:+ ("'" +:+ (nl +:+
        (match suggestion with Some s => nl +:+ ("Did you mean: " +:+ (s +:+ "?")) | None => "" end +:+ (nl +:+ (nl +:+
        "Hostnames must be valid domain names (e.g., 'api.example.com')")))))))
  | InvalidSliverName name reason =>
      mark +:+ ("Invalid sliver name: '" +:+ (name +:+ ("'" +:+ (nl +:+ (nl +:+ ("Reason: " +:+ (reason +:+ (nl +:+ (nl +:+
        ("Sliver names must:" +:+ (nl +:+ (bullet +:+ ("Use only letters, numbers, hyphens, and underscores" +:+ (nl +:+
        (bullet +:+ ("Be 1-64 characters long" +:+ (nl +:+ (bullet +:+ "Start with a letter or number"))))))))))))))))))
  | OperationFailed operation reason suggestion =>
      mark +:+ (operation +:+ (" failed" +:+ (nl +:+ (nl +:+ ("Reason: " +:+ (reason +:+ (nl +:+ (nl +:+
        default "Check the error details and try again." suggestion))))))))
  end.

(** ** Validators *)

Definition MAX_SLIVER_NAME_LEN : Z := 64.

(** [VALID_HOSTNAME_CHARS] *)
Definition VALID_HOSTNAME_CHARS : string := "abcdefghijklmnopqrstuvwxyzABCDEFGHIJKLMNOPQRSTUVWXYZ0123456789-.".

(** The characters [f] does not allow, in order; those outside ASCII byte for byte. *)
Fixpoint invalid_chars (f : ascii → bool) (s : string) : string :=
  match s with
  | EmptyString => ""
  | String a s => if f a then invalid_chars f s else String a (invalid_chars f s)
  end.

Definition validate_hostname (input : string) : result () CliError :=
  if is_empty input then Err (InvalidHostname input None)
  else if 253 <? slen input then Err (InvalidHostname input (Some "Use a shorter hostname"))
  else
    let invalid := invalid_chars (λ a, contains_char a VALID_HOSTNAME_CHARS) input in
    if negb (is_empty invalid) then Err (InvalidHostname input (Some ("Remove invalid characters: " +:+ invalid)))
    else if contains_sub ".." input then Err (InvalidHostname input (Some "Remove consecutive dots"))
    else if starts_with "." input || starts_with "-" input
    then Err (InvalidHostname input (Some "Remove leading dot or hyphen"))
    else if ends_with_char dot input || ends_with_char dash input
    then Err (InvalidHostname input (Some "Remove trailing dot or hyphen"))
    else Ok ().

Definition name_char (a : ascii) : bool := is_alphanumeric a || char_eqb a dash || char_eqb a underscore.

Definition validate_sliver_name (input : string) : result () CliError :=
  match input with
  | EmptyString => Err (InvalidSliverName input "Name cannot be empty")
  | String first _ =>
      if MAX_SLIVER_NAME_LEN <? slen input
      then Err (InvalidSliverName input ("Name too long (max " +:+ (pretty MAX_SLIVER_NAME_LEN +:+ " characters)")))
      else if negb (is_alphanumeric first) then Err (InvalidSliverName input "Name must start with a letter or number")
      else
        let invalid := invalid_chars name_char input in
        if negb (is_empty invalid) then
          Err (InvalidSliverName input ("Invalid characters: " +:+ (invalid +:+
            " (only letters, numbers, hyphens, underscores allowed)")))
        else Ok ()
  end.

Definition tag_char (a : ascii) : bool := is_alphanumeric a || contains_char a "._-".

Definition validate_tag (tag : string) : result () CliError :=
  if 32 <? slen tag then
    Err (OperationFailed "Tag validation" ("Tag too long: " +:+ (pretty (slen tag) +:+ " (max 32 characters)"))
           (Some "Use a shorter tag"))
  else
    let invalid := invalid_chars tag_char tag in
    if negb (is_empty invalid) then
      Err (OperationFailed "Tag validation" ("Invalid characters in tag: " +:+ invalid)
             (Some "Use only letters, numbers, dots, underscores, and hyphens"))
    else Ok ().

(** ** Commands *)

Record SliverCreateArgs := mkCreate {
  ca_hostname : option string;
  ca_output : option string;
  ca_name : option string;
  ca_tag : option string;
  ca_from_dir : option string;
}.
Record SliverListArgs := mkList { la_verbose : bool }.
Record SliverDeleteArgs := mkDelete { da_name : string; da_force : bool }.

Inductive SliverCommand := Create (a : SliverCreateArgs) | ListSlivers (a : SliverListArgs) | Delete (a : SliverDeleteArgs).

(** The process: the engine with its isolates, and the files of the working directory. *)
Record CliState := mkCli { cs_platform : Platform; cs_world : World; cs_files : gmap string (list Z) }.

Definition with_files (f : gmap string (list Z)) (st : CliState) : CliState := mkCli (cs_platform st) (cs_world st) f.

Section commands.
Context `{TAR : Tar} `{JSON : MetadataJson} `{Lowercase}.

(** The time, the version, the thread; what a walk of the working directory finds, and the
    source directories; whether writing a file fails, and what it then leaves of it ([None]:
    no file); why a file cannot be removed; the text a user answers with; the names of a directory in the system's order; the lines of a description. *)
Context (now : Z) (nano_version : string) (thread : Z) (walk : result (list SourceFile) string)
        (dirs : string → SourceDir) (failed_write : string → list Z → option (option (list Z)))
        (removal_fails : string → option string) (answer : string)
        (read_dir : gmap string (list Z) → result (list string) string) (clock : nat → Z)
        (summary : SliverMetadata → list string).

Definition path_exists (st : CliState) (p : string) : bool := bool_decide (is_Some (cs_files st !! p)).

(** [std::fs::write] to a path where no file is. *)
Definition fs_write (st : CliState) (p : string) (data : list Z) : CliState * result () string :=
  match failed_write p data with
  | None => (with_files (<[p := data]> (cs_files st)) st, Ok ())
  | Some remains => (match remains with Some d => with_files (<[p := d]> (cs_files st)) st | None => st end,
                  Err ("Failed to write sliver to " +:+ p))
  end.

Definition text_error {T} (r : result T CliError) : result T string := map_err display_cli r.

Definition check_tag (tag : option string) : result () string :=
  match tag with Some t => text_error (validate_tag t) | None => Ok () end.

(** [sliver create --from-dir]; the archive is written last. *)
Definition create_from_dir (st : CliState) (from_dir : string) (a : SliverCreateArgs) : CliState * result (list string) string :=
  match
    (let? name := ok_or (ca_name a) "--name is required when using --from-dir" in
     let? _ := text_error (validate_sliver_name name) in
     let? _ := check_tag (ca_tag a) in
     let hostname := match ca_hostname a with Some h => Some h | None => Some name end in
     create_sliver_from_directory now nano_version (dirs from_dir) (path_exists st) (λ _ _, None) from_dir name
       (ca_tag a) (ca_output a) hostname)
  with
  | Ok (path, data) => let '(st, r) := fs_write st path data in (st, let? _ := r in Ok [])
  | Err e => (st, Err e)
  end.

(** The output file when none is named. *)
Definition output_path (a : SliverCreateArgs) (hostname : string) : string :=
  match ca_output a with
  | Some p => p
  | None => default hostname (ca_name a) +:+ (match ca_tag a with Some t => "-" +:+ t | None => "" end +:+ ".sliver")
  end.

Definition cli_metadata (a : SliverCreateArgs) (hostname : string) : SliverMetadata :=
  let m := metadata_new now hostname nano_version in
  mkMetadata (ca_name a) (md_hostname m) (md_created_at m) (md_format_version m) (md_nano_version m)
    (match ca_tag a with Some t => Some ("Tag: " +:+ t) | None => md_description m end) (md_custom m).

Definition load_files_into_vfs_entries : result (list (VfsPath * VfsFile)) string :=
  let? files := walk in load_directory_files now files.

(** The checks before anything is made. *)
Definition create_checks (st : CliState) (a : SliverCreateArgs) : result string string :=
  let? hostname := ok_or (ca_hostname a) "Either hostname or --from-dir must be specified" in
  let? _ := text_error (validate_hostname hostname) in
  let? _ := match ca_name a with Some n => text_error (validate_sliver_name n) | None => Ok () end in
  let? _ := check_tag (ca_tag a) in
  if path_exists st (output_path a hostname)
  then Err ("Sliver file already exists: " +:+ (output_path a hostname +:+ ". Use --output to specify a different path."))
  else Ok hostname.

Definition created_lines (a : SliverCreateArgs) (hostname : string) (archive_data heap_data : list Z) : list string :=
  ["Created sliver: " +:+ output_path a hostname; "  Hostname: " +:+ hostname;
   "  Name: " +:+ default hostname (ca_name a); "  Tag: " +:+ default "none" (ca_tag a);
   "  Size: " +:+ (pretty (len archive_data) +:+ " bytes"); "  Heap: " +:+ (pretty (len heap_data) +:+ " bytes")].

Definition create_for_hostname (st : CliState) (a : SliverCreateArgs) : outcome (CliState * result (list string) string) :=
  match create_checks st a with
  | Err e => Done (st, Err e)
  | Ok hostname =>
      let output := output_path a hostname in
      let '(isolate, w) := snapshot_creator (cs_world st) thread in
      let! r := create_snapshot_from_nano isolate w in
      let st := mkCli (cs_platform st) r.1 (cs_files st) in
      match r.2 with
      | Err e => Done (st, Err e)
      | Ok heap_data =>
          match
            (let? vfs_entries := map_err (λ _, "Failed to load files into VFS entries") load_files_into_vfs_entries in
             map_err display_error (pack_sliver now (cli_metadata a hostname) heap_data (Some vfs_entries)))
          with
          | Err e => Done (st, Err e)
          | Ok archive_data =>
              let '(st, written) := fs_write st output archive_data in
              match written with
              | Err e => Done (st, Err e)
              | Ok _ =>
                  match validate_sliver archive_data with
                  | Ok _ => Done (st, Ok (created_lines a hostname archive_data heap_data))
                  | Err _ => Done (st, Err "Created sliver failed validation")
                  end
              end
          end
      end
  end.

(** [sliver list]: the lines of one file. *)
Definition list_file (st : CliState) (verbose : bool) (p : string) : list string :=
  let name := default "unknown" (path_file_stem p) in
  let data := cs_files st !! p in
  if verbose then
    match data with
    | Some data =>
        match unpack clock data with
        | Ok u => ("  " +:+ (name +:+ (" (" +:+ (pretty (len data) +:+ " bytes)")))) ::
                  ((λ l, "    " +:+ l) <$> summary (us_metadata u))
        | Err e => ["  " +:+ (name +:+ (" (" +:+ (pretty (len data) +:+ (" bytes) [invalid: " +:+ (display_error e +:+ "]")))))]
        end
    | None => ["  " +:+ (name +:+ " [error reading]")]
    end
  else ["  " +:+ (name +:+ (" (" +:+ (pretty (from_option len 0 data) +:+ " bytes)")))].

Definition is_sliver_file (p : string) : bool := bool_decide (path_extension p = Some "sliver").

Definition list_slivers (st : CliState) (a : SliverListArgs) : result (list string) string :=
  match read_dir (cs_files st) with
  | Err _ => Err "Failed to read current directory"
  | Ok entries =>
      let found := List.filter is_sliver_file entries in
      Ok ("Slivers:" :: concat (list_file st (la_verbose a) <$> found) ++
          if bool_decide (found = []) then ["  (none found in current directory)"] else [])
  end.

(** [input.trim().eq_ignore_ascii_case("y")]; [answer] is the trimmed line. *)
Definition confirmed (a : SliverDeleteArgs) : bool := da_force a || String.eqb (ascii_lowercase answer) "y".

Definition delete_sliver (st : CliState) (a : SliverDeleteArgs) : CliState * result (list string) string :=
  match text_error (validate_sliver_name (da_name a)) with
  | Err e => (st, Err e)
  | Ok _ =>
      let sliver_path := da_name a +:+ ".sliver" in
      if negb (path_exists st sliver_path) then (st, Err ("Sliver not found: " +:+ da_name a))
      else if negb (confirmed a) then (st, Ok ["Deletion cancelled."])
      else
        match removal_fails sliver_path with
        | Some _ => (st, Err ("Failed to delete sliver: " +:+ da_name a))
        | None => (with_files (base.delete sliver_path (cs_files st)) st, Ok ["Deleted sliver: " +:+ da_name a])
        end
  end.

Definition handle_sliver_command (st : CliState) (cmd : SliverCommand) : outcome (CliState * result (list string) string) :=
  let '(p, r) := if negb (is_initialized (cs_platform st)) then initialize_platform (cs_platform st) else (cs_platform st, Ok ()) in
  let st := mkCli p (cs_world st) (cs_files st) in
  match r with
  | Err _ => Done (st, Err "Failed to initialize V8 platform for sliver command")
  | Ok _ =>
      match cmd with
      | Create a =>
          match ca_from_dir a with
          | Some from_dir => Done (create_from_dir st from_dir a)
          | None => create_for_hostname st a
          end
      | ListSlivers a => Done (st, list_slivers st a)
      | Delete a => Done (delete_sliver st a)
      end
  end.
End commands.

(** ** What the validators accept *)

Lemma invalid_chars_none f s : invalid_chars f s = "" ↔ all_chars f s = true.
Proof.
  induction s as [|a s IH]; [done|]. cbn [invalid_chars all_chars]. destruct (f a); [done|]. by split.
Qed.

Lemma invalid_chars_empty f s : is_empty (invalid_chars f s) = all_chars f s.
Proof.
  destruct (all_chars f s) eqn:E.
  - apply invalid_chars_none in E. by rewrite E.
  - destruct (invalid_chars f s) eqn:Ei; [|done]. apply invalid_chars_none in Ei. congruence.
Qed.

(** A name [validate_sliver_name] accepts. *)
Definition good_name (s : string) : Prop :=
  slen s <= 64 ∧ all_chars name_char s = true ∧ ∃ a t, s = String a t ∧ is_alphanumeric a = true.

(** The three validators accept exactly the documented names: hostnames of 1 to 253
    letters, digits, hyphens and dots without two dots in a row and with neither a dot nor
    a hyphen at an end; sliver names of 1 to 64 letters, digits, hyphens and underscores
    that begin with a letter or digit; tags of at most 32 letters, digits, dots,
    underscores and hyphens. *)
Theorem validators_exact s :
  (validate_hostname s = Ok () ↔
     s ≠ "" ∧ slen s <= 253 ∧ all_chars (λ a, contains_char a VALID_HOSTNAME_CHARS) s = true ∧
     contains_sub ".." s = false ∧ starts_with "." s = false ∧ starts_with "-" s = false ∧
     ends_with_char dot s = false ∧ ends_with_char dash s = false) ∧
  (validate_sliver_name s = Ok () ↔ good_name s) ∧
  (validate_tag s = Ok () ↔ slen s <= 32 ∧ all_chars tag_char s = true).
Proof.
  split_and!.
  - unfold validate_hostname. rewrite invalid_chars_empty. destruct (is_empty s) eqn:E1.
    { apply is_empty_true in E1. split; [done|]. naive_solver. }
    apply is_empty_false in E1. destruct (253 <? slen s) eqn:E2; [split; [done|intros (_ & ? & _); lia]|].
    destruct (all_chars _ s); cbn [negb]; [|naive_solver].
    destruct (contains_sub ".." s), (starts_with "." s), (starts_with "-" s), (ends_with_char dot s), (ends_with_char dash s);
      cbn [orb]; split; try done; try naive_solver. intros _. split_and!; try done. lia.
  - unfold validate_sliver_name, good_name.
    destruct s as [|a s]; [split; [done|by intros (_ & _ & ? & ? & ? & _)]|]. rewrite invalid_chars_empty.
    unfold MAX_SLIVER_NAME_LEN. destruct (64 <? slen (String a s)) eqn:E2; [split; [done|intros [? _]; lia]|].
    destruct (is_alphanumeric a) eqn:Ea; cbn [negb]; [|split; [done|intros (_ & _ & ? & ? & [= <- <-] & ?); congruence]].
    destruct (all_chars name_char (String a s)); cbn [negb]; [|split; [done|by intros (_ & ? & _)]]. split; [|done]. intros _. split_and!; [lia|done|eauto].
  - unfold validate_tag. rewrite invalid_chars_empty. destruct (32 <? slen s) eqn:E2; [split; [done|intros [? _]; lia]|].
    destruct (all_chars tag_char s); cbn [negb]; [|split; [done|by intros [_ ?]]]. split; [|done]. intros _. split; [lia|done].
Qed.

(** The name of the theorem above used by the others. *)
Lemma sliver_name_good s : validate_sliver_name s = Ok () → all_chars name_char s = true.
Proof.
  unfold validate_sliver_name. destruct s as [|a s]; [done|]. rewrite invalid_chars_empty.
  destruct (_ <? _); [done|]. destruct (is_alphanumeric a); [|done]. by destruct (all_chars name_char (String a s)).
Qed.

(** ** Archives of the packer pass the validation after it *)

Section archives.
Context `{TARL : TarLaws} `{JSONL : MetadataJsonLaws}.

Lemma validate_skips n c st rest : n ≠ METADATA_FILENAME → n ≠ HEAP_FILENAME →
  validate_loop st (read_back (n, c) :: rest) = validate_loop st rest.
Proof.
  intros H1 H2. cbn [validate_loop]. unfold validate_entry, read_back. cbn [map_err result_bind e_path fst snd].
  by rewrite (proj2 (String.eqb_neq _ _) H1), (proj2 (String.eqb_neq _ _) H2).
Qed.

Lemma validate_vfs st entries rest :
  validate_loop st ((read_back <$> packed_vfs entries) ++ rest) = validate_loop st rest.
Proof.
  induction entries as [|[q f] es IH]; [done|]. unfold packed_vfs in *. rewrite !fmap_cons.
  cbn [app fst snd]. rewrite validate_skips; [done| |];
    unfold VFS_PREFIX, METADATA_FILENAME, HEAP_FILENAME; rewrite str_app_cons; congruence.
Qed.

Lemma validate_packed now m heap_data entries data : Forall archivable entries →
  md_format_version m = FORMAT_VERSION → pack_sliver now m heap_data (Some entries) = Ok data →
  validate_sliver data = Ok ().
Proof.
  intros HF Hv Hp. destruct (pack_ok now m heap_data (Some entries) HF) as (j & data' & _ & Hj & Hp' & Ha).
  assert (data' = data) as -> by congruence. unfold validate_sliver. rewrite Ha. cbn [map_err result_bind].
  unfold packed. rewrite !fmap_app, !fmap_cons, fmap_nil. cbn [app default].
  cbn [validate_loop]. unfold validate_entry at 1, read_back at 1. cbn [map_err result_bind e_path e_content fst snd].
  rewrite String.eqb_refl, Hj. cbn [map_err result_bind]. unfold validate_entry at 1, read_back at 1.
  cbn [map_err result_bind e_path e_content fst snd]. change (String.eqb HEAP_FILENAME METADATA_FILENAME) with false.
  rewrite String.eqb_refl. cbn [result_bind has_metadata metadata_version]. rewrite validate_vfs.
  rewrite validate_skips by done. cbn [validate_loop result_bind has_metadata has_heap metadata_version negb].
  unfold is_supported_version. by rewrite Hv.
Qed.
End archives.

(** ** What the commands do to the files *)

Lemma name_char_not_slash : name_char slash = false.
Proof. reflexivity. Qed.

Lemma name_char_not_dot : name_char dot = false.
Proof. reflexivity. Qed.

Section facts.
Context `{TARL : TarLaws} `{JSONL : MetadataJsonLaws} `{LC : Lowercase}.
Context (now : Z) (nano_version : string) (thread : Z) (walk : result (list SourceFile) string)
        (dirs : string → SourceDir) (failed_write : string → list Z → option (option (list Z)))
        (removal_fails : string → option string) (answer : string)
        (clock : nat → Z).

(** The engine after an isolate for a snapshot was made and dropped: none is left. *)
Lemma snapshot_taken w : ∃ w', create_snapshot_from_nano (snapshot_creator w thread).1 (snapshot_creator w thread).2 = Done (w', Ok []) ∧
  w_isolates w' = base.delete (w_next w) (w_isolates w) ∧ w_boxes w' = w_boxes w.
Proof.
  unfold create_snapshot_from_nano, drop_isolate. rewrite assert_true by done. eexists. split; [done|].
  cbn. split; [|done]. by rewrite !delete_alter_eq, delete_insert_eq.
Qed.

(** What is known of a sliver that was created for a hostname. *)
Lemma created_facts st a st' r : create_for_hostname now nano_version thread walk failed_write st a = Done (st', r) →
  match r with
  | Ok _ =>
      ∃ hostname files es data, ca_hostname a = Some hostname ∧ create_checks st a = Ok hostname ∧
        walk = Ok files ∧ load_directory_files now files = Ok es ∧
        pack_sliver now (cli_metadata now nano_version a hostname) [] (Some es) = Ok data ∧
        cs_files st' = <[output_path a hostname := data]> (cs_files st)
  | Err _ => cs_files st' = cs_files st ∨
      ∃ hostname es files data, ca_hostname a = Some hostname ∧ create_checks st a = Ok hostname ∧
        walk = Ok files ∧ load_directory_files now files = Ok es ∧
        pack_sliver now (cli_metadata now nano_version a hostname) [] (Some es) = Ok data ∧
        ((∃ part, failed_write (output_path a hostname) data = Some (Some part) ∧
            cs_files st' = <[output_path a hostname := part]> (cs_files st)) ∨
         is_ok (validate_sliver data) = false)
  end.
Proof.
  unfold create_for_hostname. destruct (create_checks st a) as [hostname|e] eqn:Ec; [|intros [= <- <-]; by left].
  assert (Hh : ca_hostname a = Some hostname).
  { unfold create_checks in Ec. apply result_bind_ok in Ec as (h & Eh & Ec). apply ok_or_ok in Eh. rewrite Eh. f_equal.
    apply result_bind_ok in Ec as (? & _ & Ec). apply result_bind_ok in Ec as (? & _ & Ec).
    apply result_bind_ok in Ec as (? & _ & Ec). destruct (path_exists _ _); [done|]. by injection Ec. }
  destruct (snapshot_creator (cs_world st) thread) as [n w] eqn:Es.
  pose proof (snapshot_taken (cs_world st)) as (w' & Et & _). rewrite Es in Et. cbn [fst snd] in Et. rewrite Et.
  cbn [outcome_bind fst snd cs_platform cs_files].
  destruct (load_files_into_vfs_entries now walk) as [es|e] eqn:El; cbn [map_err result_bind]; [|intros [= <- <-]; by left].
  apply result_bind_ok in El as (files & Ew & El).
  destruct (pack_sliver _ _ _ _) as [data|e] eqn:Ep; cbn [map_err result_bind]; [|intros [= <- <-]; by left].
  unfold fs_write. destruct (failed_write _ _) as [[part|]|] eqn:Ef; cbn [result_bind].
  - intros [= <- <-]. right. exists hostname, es, files, data. split_and!; [done..|]. left. by exists part.
  - intros [= <- <-]. by left.
  - destruct (validate_sliver data) eqn:Ev; intros [= <- <-].
    + by exists hostname, files, es, data.
    + right. exists hostname, es, files, data. split_and!; [done..|]. right. by rewrite Ev.
Qed.

(** The output file was not there before. *)
Lemma checked_output st a hostname : create_checks st a = Ok hostname → ca_hostname a = Some hostname →
  cs_files st !! output_path a hostname = None.
Proof.
  intros Hch Hh. unfold create_checks in Hch. rewrite Hh in Hch. cbn [ok_or result_bind] in Hch.
  apply result_bind_ok in Hch as (? & _ & Hch). apply result_bind_ok in Hch as (? & _ & Hch).
  apply result_bind_ok in Hch as (? & _ & Hch). unfold path_exists in Hch.
  case_bool_decide as Hx; [done|]. by apply eq_None_not_Some.
Qed.

(** C35. A sliver created for a hostname has no heap.  When the command succeeds, exactly
    its output file was written, where none was; the archive is of that hostname, holds
    exactly the files of the working directory that are neither hidden nor slivers, in the
    order of the walk, each under its relative path and with its contents, and an empty heap,
    so an isolate started from it is a fresh one.  When it fails no file has changed, but
    that a failed write can leave a part of the new one; the validation after writing never
    fails, if the files have plain paths. *)
Theorem created_sliver_is_cold fresh_heap snapshot_valid p w ns st a st' r :
  create_for_hostname now nano_version thread walk failed_write st a = Done (st', r) →
  (∀ files, walk = Ok files → Forall (clean_rel ∘ sf_relative) (kept files)) →
  is_initialized p = true → ns ≠ "" → 0 < fresh_heap →
  match r with
  | Err _ =>
      cs_files st' = cs_files st ∨
      ∃ hostname data part, ca_hostname a = Some hostname ∧ cs_files st !! output_path a hostname = None ∧
        failed_write (output_path a hostname) data = Some (Some part) ∧
        cs_files st' = <[output_path a hostname := part]> (cs_files st)
  | Ok _ =>
      ∃ hostname data u files, ca_hostname a = Some hostname ∧ cs_files st !! output_path a hostname = None ∧
        cs_files st' = <[output_path a hostname := data]> (cs_files st) ∧
        unpack clock data = Ok u ∧ md_hostname (us_metadata u) = hostname ∧ us_heap_data u = [] ∧
        walk = Ok files ∧
        Forall2 (λ f e, as_str e.1 = sf_relative f ∧ sf_content f = Ok (content e.2)) (kept files) (us_vfs_entries u) ∧
        restore fresh_heap snapshot_valid p w thread (us_heap_data u) ns =
          Done (made (w_next w) ns Creating thread, with_isolate w (standing None false))
  end.
Proof.
  intros Hc Hk Hp Hns Hf. pose proof (created_facts _ _ _ _ Hc) as F. destruct r as [lines|e].
  - destruct F as (hostname & files & es & data & Hh & Hch & Hw & Hl & Hpk & Hst).
    destruct (load_ok _ _ _ Hl (Hk _ Hw)) as [Ha H2].
    exists hostname, data, (mkUnpacked (cli_metadata now nano_version a hostname) [] (restamp clock es)), files.
    split_and!; [done|by apply checked_output|done| |done|done|done| |].
    + by apply (pack_unpacks_opt now clock _ _ (Some es)).
    + by apply restamp_files.
    + cbn [us_heap_data]. unfold restore, from_snapshot. rewrite assert_true by done.
      rewrite assert_true by (by apply negb_true_iff, is_empty_false). cbn. by apply new_with_vfs_made.
  - destruct F as [F|(hostname & es & files & data & Hh & Hch & Hw & Hl & Hpk & [(part & Hf' & Hst)|Hv])]; [by left| |].
    + right. exists hostname, data, part. split_and!; [done|by apply checked_output|done|done].
    + destruct (load_ok _ _ _ Hl (Hk _ Hw)) as [Ha _].
      pose proof (validate_packed now (cli_metadata now nano_version a hostname) [] es data Ha eq_refl Hpk) as V. by rewrite V in Hv.
Qed.

(** Deleting is confined: whatever name is given, the command changes nothing or
    removes one file of the working directory, a [.sliver] whose name is a valid sliver
    name without a slash or a dot, that was there and whose removal was forced or
    confirmed. *)
Theorem deletion_confined st a st' r : delete_sliver removal_fails answer st a = (st', r) →
  st' = st ∨
  (contains_char slash (da_name a) = false ∧ contains_char dot (da_name a) = false ∧
   is_Some (cs_files st !! (da_name a +:+ ".sliver")) ∧
   (da_force a = true ∨ ascii_lowercase answer = "y") ∧
   st' = with_files (base.delete (da_name a +:+ ".sliver") (cs_files st)) st ∧ is_ok r = true).
Proof.
  unfold delete_sliver. destruct (text_error _) as [[]|e] eqn:Ev; [|intros [= <- <-]; by left].
  unfold text_error in Ev. destruct (validate_sliver_name (da_name a)) as [[]|] eqn:En; [|done].
  apply sliver_name_good in En. unfold path_exists. case_bool_decide as Hx; cbn [negb]; [|intros [= <- <-]; by left].
  unfold confirmed. destruct (da_force a || String.eqb (ascii_lowercase answer) "y") eqn:Ec; cbn [negb]; [|intros [= <- <-]; by left].
  destruct (removal_fails _); intros [= <- <-]; [by left|]. right. split_and!; try done.
  - by eapply all_chars_contains.
  - by eapply all_chars_contains.
  - apply orb_true_iff in Ec as [Ec|Ec]; [by left|right]. by apply String.eqb_eq.
Qed.

(** A sliver created for a hostname with a dot, or with a dot in its tag, and without a
    name or an output file of its own, cannot be deleted with the command: the name by which
    [delete] would find its file is refused, and the file stays. *)
Theorem dotted_sliver_undeletable st a st' lines hostname d :
  create_for_hostname now nano_version thread walk failed_write st a = Done (st', Ok lines) →
  ca_hostname a = Some hostname → ca_output a = None →
  contains_char dot (default hostname (ca_name a) +:+ match ca_tag a with Some t => "-" +:+ t | None => "" end) = true →
  da_name d +:+ ".sliver" = output_path a hostname →
  (∃ e, delete_sliver removal_fails answer st' d = (st', Err e)) ∧ is_Some (cs_files st' !! output_path a hostname).
Proof.
  intros Hc Hh Ho Hd Hn. apply created_facts in Hc as (h & _ & _ & data & Hh' & _ & _ & _ & _ & Hst). simplify_eq.
  split; [|exists data; by rewrite Hst, lookup_insert_eq].
  unfold output_path in Hn. rewrite Ho, str_app_assoc in Hn.
  apply (f_equal (λ s, contains_char dot (stake (String.length s - 7) s))) in Hn.
  rewrite !(length_app_string _ ".sliver") in Hn. change (String.length ".sliver") with 7%nat in Hn. rewrite !Nat.add_sub, !stake_app, Hd in Hn.
  unfold delete_sliver. destruct (validate_sliver_name (da_name d)) as [[]|e] eqn:Ev; [|by eexists].
  apply sliver_name_good in Ev. by rewrite (all_chars_contains _ _ _ Ev name_char_not_dot) in Hn.
Qed.
End facts.

(** ** A session *)

#[local] Existing Instance ascii_Lowercase.

Definition demo_walk : result (list SourceFile) string := Ok (sd_walk demo_site).
Definition demo_start : CliState := mkCli platform_start (mkWorld ∅ ∅ 1 []) ∅.
Definition demo_args : SliverCreateArgs := mkCreate (Some "api.example.com") None None (Some "v1") None.

Definition demo_created : outcome (CliState * result (list string) string) :=
  @create_for_hostname demo_Tar demo_Json _ 3 "1.1.0" 7 demo_walk (λ _ _, None) demo_start demo_args.

Definition demo_after : CliState := match demo_created with Done (st, _) => st | Panicked _ => demo_start end.
Definition demo_lines : list string := match demo_created with Done (_, Ok l) => l | _ => [] end.

Lemma demo_session : demo_created = Done (demo_after, Ok demo_lines).
Proof.
  assert (H : match demo_created with Done (_, Ok _) => true | _ => false end = true) by (vm_compute; reflexivity).
  unfold demo_after, demo_lines. destruct demo_created as [[st [l|]]|]; done.
Qed.

Lemma created_sliver_is_cold_witness :
  ∃ hostname data u files, ca_hostname demo_args = Some hostname ∧ cs_files demo_start !! output_path demo_args hostname = None ∧
    cs_files demo_after = <[output_path demo_args hostname := data]> (cs_files demo_start) ∧
    @unpack demo_Tar demo_Json Z.of_nat data = Ok u ∧ md_hostname (us_metadata u) = hostname ∧ us_heap_data u = [] ∧
    demo_walk = Ok files ∧
    Forall2 (λ f e, as_str e.1 = sf_relative f ∧ sf_content f = Ok (content e.2)) (kept files) (us_vfs_entries u) ∧
    restore 1000 (λ _, true) platform_ready world_start 7 (us_heap_data u) "app" =
      Done (made (w_next world_start) "app" Creating 7, with_isolate world_start (standing None false)).
Proof.
  refine (@created_sliver_is_cold demo_Tar demo_TarLaws demo_Json demo_JsonLaws _ 3 "1.1.0" 7 demo_walk (λ _ _, None) Z.of_nat
    1000 (λ _, true) platform_ready world_start "app" demo_start demo_args demo_after (Ok demo_lines) demo_session _ eq_refl _ eq_refl).
  - intros files [= <-]. exact demo_clean.
  - done.
Defined.

Lemma dotted_sliver_undeletable_witness :
  (∃ e, delete_sliver (λ _, None) "y" demo_after (mkDelete "api.example.com-v1" true) = (demo_after, Err e)) ∧
  is_Some (cs_files demo_after !! output_path demo_args "api.example.com").
Proof.
  refine (@dotted_sliver_undeletable demo_Tar demo_Json _ 3 "1.1.0" 7 demo_walk (λ _ _, None) (λ _, None) "y"
    demo_start demo_args demo_after demo_lines "api.example.com" (mkDelete "api.example.com-v1" true) demo_session eq_refl eq_refl _ _);
    by vm_compute.
Defined.

Definition demo_files : CliState := mkCli platform_start (mkWorld ∅ ∅ 1 []) {[ "site.sliver" := [1]; "app.js" := [2] ]}.

Lemma deletion_confined_witness :
  delete_sliver (λ _, None) "y" demo_files (mkDelete "site" false) =
    (with_files {[ "app.js" := [2] ]} demo_files, Ok ["Deleted sliver: site"]) ∧
  (with_files {[ "app.js" := [2] ]} demo_files = demo_files ∨
   (contains_char slash "site" = false ∧ contains_char dot "site" = false ∧
    is_Some (cs_files demo_files !! ("site" +:+ ".sliver")) ∧
    (false = true ∨ ascii_lowercase "y" = "y") ∧
    with_files {[ "app.js" := [2] ]} demo_files = with_files (base.delete ("site" +:+ ".sliver") (cs_files demo_files)) demo_files ∧
    is_ok (@Ok _ string ["Deleted sliver: site"]) = true)).
Proof.
  assert (E : delete_sliver (λ _, None) "y" demo_files (mkDelete "site" false) =
    (with_files {[ "app.js" := [2] ]} demo_files, Ok ["Deleted sliver: site"])) by (vm_compute; reflexivity).
  split; [exact E|]. exact (deletion_confined (λ _, None) "y" demo_files (mkDelete "site" false) _ _ E).
Defined.

(** The suggestion of a hostname error is shown as the hostname meant. *)
Example suggestion_shown :
  display_cli (InvalidHostname "a..b" (Some "Remove consecutive dots")) =
  mark +:+ ("Invalid hostname: 'a..b'" +:+ (nl +:+ (nl +:+ ("Did you mean: Remove consecutive dots?" +:+ (nl +:+ (nl +:+
    "Hostnames must be valid domain names (e.g., 'api.example.com')")))))).
Proof. reflexivity. Qed.
